(* ===== verification/_CoqProject ===== *)
-Q . S2P
Prelude.v
Text.v
Bytes.v
Http.v
HttpProps.v
HttpRelay.v
HttpRelayProps.v
Egress.v
EgressProps.v
Rebinding.v
Ingress.v
ReplyFlows.v
GraphModel.v
Transitives.v
Planner.v
PlannerReach.v
PlannerPhases.v
PlannerPlan.v
Orchestrator.v
OrchestratorProps.v
Scheduler.v
DropLimiter.v
Switch.v
Loopback.v
SwitchRequest.v
BoxRecord.v
Classifier.v
Cohort.v
CohortStandin.v
Expansion.v
Policy.v
LifecycleHook.v
Compose.v
Enumerate.v
Gate.v
Verdict.v
VerdictProps.v
L4.v
Refusal.v
ForwardRevoke.v
RefusalEmitter.v
Baseline.v
ZoneAnswer.v
DnsPins.v
DnsPinsProps.v
DnsTableProps.v
HostExposures.v
ReplyTables.v
RowCarry.v
AddressBook.v
HostGate.v
HostGateProps.v
PublishLedger.v
GateRelay.v
RowRegistry.v
ControlHead.v
RuntimePorts.v
ControlRequest.v
ControlRelay.v
ControlProps.v
ControlSample.v
ForwardUnbind.v
Envelope.v
Handle.v
Redeem.v
SignIn.v
StoreRules.v
AuditChain.v
AuditLog.v
AuditHistory.v
AuditProps.v
AuditSample.v
Redeemer.v
SingleFlight.v
CredentialFlow.v
CredentialProps.v
CredentialSample.v
Activation.v
Version.v
