(* ===== verification/Prelude.v ===== *)
(** * Minimal: a verification library for the core of the program

    [minimal] builds software from a graph of build specifications and runs
    processes in boxes whose network it polices.  This library models the
    decision-making core of both halves in Rocq and proves what makes it
    correct.  The source is Rust, under src/crates/.

    ** The program's parts and how they interact

    - The network half.  A box's frames pass a gate.  The gate parses a frame
      ([summarize]), reads the box's compiled rules ([EgressRules]) and asks
      for a verdict ([verdict]).  Frames that answer a conversation opened
      from outside are admitted by the box's reply-flow table ([ReplyFlows])
      ahead of the rules.  A DNS reply's addresses are cut to what the box may
      reach ([rebinding_intersection]).  A port a process listens on is
      published if the ingress section says so ([listen_verdict]).  On the
      host, a second parse ([parse_ipv4_l4]) feeds the DNS admission table
      ([DnsPins]): a box's own questions and the replies the switch returned
      pin addresses for a window, and a frame the rules drop for want of a
      declaration is admitted under a live pin or a flow opened under one.
      The node's own traffic is held to the enumerated baseline
      ([NodePlaneBaseline]); a deny-all box's DNS is cut to the local zone
      ([deny_all_refusal]).  The addresses all of these name come from the
      switch's plan ([SwitchSubnet], [AddressPlan]), and the addresses of
      published boxes from a bitmask ([LoopbackAllocator]).  A box's requests
      to the switch pass their own decision ([applied]), and a name of the
      local zone is answered from the published rows ([zone_answer]).  The
      lines the host's gate writes about what it drops are rate limited
      ([DropLimiter]); a refused TCP segment is answered by a reset
      ([refused_tcp_reset_from]) and audited within a quota per source
      ([RefusalEmitter]); when a box ends, its inbound conversations are reset
      ([ForwardRevoke]).
    - The host's gate.  A box registers a row: its addresses, its compiled
      rules, the rows of its tasks ([BoxRegistry]); the addresses are drawn
      from a book that rests a returned one ([SwitchAddressBook]).  The gate
      finds the row behind a frame's source and decides ([gate_verdict]):
      answers first ([ReplyTables]), then the switch's control surface, then
      the node plane, the boxes on the host's address or the row's rules,
      the declared infrastructure of the host excepted ([HostExposures],
      [infrastructure_destination]).  Two relay legs carry frames through
      that decision ([relay_frames_to_switch],
      [relay_switch_frames_to_guest]), and a ledger keeps which address
      holds which published listener ([PublishedForwards]).  A connection of
      the guest opens with a head: the upgrade to frames, or one control
      request, which is decided against the rows, noted in the ledger and
      written on, and whose answer is relayed back ([serve_connection],
      [relay_answer]).  The ports a box opens while it runs are recorded
      within its grant ([admit_runtime_port]); when its row is withdrawn its
      forwards are unbound before its addresses are let go
      ([revoke_box_forwards]).
    - The proxy.  A box with a credentialed upstream speaks HTTP/1 to the box
      egress proxy, which parses each head, refuses what could be read two
      ways, and forwards the canonical form of the message ([parse_request],
      [forward_requests], [relay_chunked]).  On a flow that carries
      credentials each request is decided first ([forward_credentialed]): a
      sealed value in it is opened under the host's key ([open_with]), its
      handle verified and held to the current store rules, and the redemption
      decided ([decide_opened]); only then is the stored secret, or the
      sign-in renewed by one run in flight ([SingleFlight]), written into the
      head.  A box's spec passes the activation checks before any of this
      ([check_activation]).  Every decision, mint and revocation is a record
      of the audit log ([append]), a chain of hashes over segments on disk
      that rotate, are pruned, checked and read back ([verify_dir],
      [restore]).
    - Boxes on the host's address.  The classifier decides whether a host can
      enforce a declaration and in which leaf a box runs ([decide_over],
      [verdict_of]); the cohort moves their processes and keeps the packet
      filter's two sets in step with its members ([CohortQuic443]).  The
      state of a box's record is stored and read back ([RecordState]).
    - The contents of a box.  A user's loadouts, a project and its packages
      declare variables, patches (files copied in), packages and lifecycle
      hooks, each with its [Source].  Patterns are expanded
      ([expand_source_with_plain_dir]), the files behind them enumerated
      ([enumerate_patch_files]), and everything that would carry the user's
      data into the box is put to the user's policy and then to the user
      ([gate_vars], [gate_patches], [compose_contribution]).  What the daemon
      collected waits for the client: it sends what is pending ([compose]),
      the client answers ([handle_response]), and the daemon resumes with the
      verdict ([resume_from_verdict]).
    - The build half.  A [Graph] holds the build specs.  [Transitives] joins
      what a spec needs at run time.  [ExecPlan] is an iterator of phases of
      builds, breaking dependency cycles with declared replacements.
      [State::from_plan] turns the phases into deliverables that refer to
      each other, and [Orchestrator::run_impl] runs them concurrently.

    ** Files, in dependency order

    - [Prelude]: outcomes of code that may panic, [Vec] and [IndexMap]
      helpers, saturating time, traces of operations, and the class
      [HashIter], which stands for the unspecified iteration order of a hash
      map.  [Text]: the string and number parsing of the standard library.
    - [Bytes], [Http]: byte strings and the HTTP/1 heads of
      crates/bep/src/http.rs; [HttpProps] proves the parsers.  [HttpRelay]
      models the readers, the relays of bodies and the request loop of the
      same file, [HttpRelayProps] proves them.
    - [Egress] models crates/boxes/src/core/egress.rs up to [verdict] (and the
      policy types of crates/boxes/src/lib.rs); [EgressProps] has its
      theorems.
    - [Rebinding], [Ingress]: the deny set, the rebinding decision and the
      listen decision of the same file, with their theorems.
    - [ReplyFlows]: the reply-flow table of the same file, and its theorems.
    - [DropLimiter]: crates/minvmd/src/net/drop_limiter.rs.
    - [Switch]: the address arithmetic of crates/switch/src/lib.rs.
    - [Loopback], [SwitchRequest], [BoxRecord]: loopback.rs,
      switch_request.rs and record.rs of crates/boxes/src/core, with their
      theorems.
    - [Classifier]: the leaf names of crates/sandbox/src/lib.rs and the
      placement, the reading of the probe and the decision of
      crates/minimald/src/net/classifier.rs.  [Cohort] models the cohort of
      the same file over the class [CgroupMoves], states what
      the kernel and the helper promise ([CgroupLaws]) and proves the
      guarantees of an admission and of the books; [CohortStandin] models the
      stand-in tree, proves the laws of it, and that lifting a block undoes
      it.
    - [Expansion], [Policy], [LifecycleHook], [Compose], [Enumerate], [Gate]:
      expansion.rs; source.rs, decision.rs, hooks.rs and policy.rs;
      lifecyclehook.rs; the data, conflicts and merges of compose.rs and
      compose/conflict.rs; enumerate.rs; the gates of compose.rs, all of
      crates/boxes/src/core.  [Verdict]: crates/boxes/src/daemon/composer.rs
      and crates/boxes/src/client/handler.rs, with [VerdictProps].
    - [L4]: the transport parse of crates/minvmd/src/net/dns_pins.rs.
    - [Refusal]: the resets of crates/switch/src/refusal.rs;
      [RefusalEmitter]: the audit of the same file.
      [ForwardRevoke]: crates/minvmd/src/net/forward_revoke.rs.  Each has its
      theorems.
    - [ZoneAnswer]: crates/boxes/src/core/zone_answer.rs.
    - [Baseline]: crates/minvmd/src/net/baseline.rs.
    - [DnsPins]: the DNS admission table and the deny-all gate of
      crates/minvmd/src/net/dns_pins.rs; [DnsPinsProps] proves what one
      entry admits, [DnsTableProps] that the table keeps its rows apart.
    - [HostExposures]: the reader of crates/minvmd/src/net/host_exposures.rs.
      [ReplyTables]: the answers table of
      crates/minvmd/src/net/egress_gate.rs; [RowCarry]: which rows stand on
      one another.  [HostGate], [HostGateProps]: the decision of the same
      file; [PublishLedger]: its ledger; [GateRelay]: its
      two relay legs.
    - [AddressBook], [RowRegistry]: the switch's address book and the rows of
      crates/minvmd/src/box_registry.rs; [RuntimePorts]: its run-time ports.
    - [ControlHead]: the head and body of a control
      connection of egress_gate.rs; [ControlRequest]: the decision on a
      request; [ControlRelay]: the exchange; [ControlProps], [ControlSample]:
      what reaches the switch, and the framing of it.  [ForwardUnbind]:
      the unbinding at a box's end, with the answers forward_revoke.rs reads,
      its theorems and a concrete switch.
    - [GraphModel]: depth-first visits with a seen set, stated once, and
      crates/graph/src/builds.rs, graph.rs and lib.rs.  The class
      [Arena] states what the code relies on of the generational arena, and
      [vec_arena] is an instance.
    - [Transitives]: crates/graph/src/transitives.rs.
    - [Planner] models crates/graph/src/planner.rs; [PlannerReach] proves the
      construction of the plan, [PlannerPhases] the dependency candidates, the
      finish test, the cycle search and the phases, and
      [PlannerPlan] one iteration and the whole plan.
    - [Orchestrator] models crates/orchestrator/src/state.rs,
      [OrchestratorProps] proves its construction; [Scheduler] models the loop
      of crates/orchestrator/src/lib.rs as a step relation and proves it.
    - [Envelope]: crates/bep/src/seal.rs; [Handle]: handle.rs and the member
      list of module.rs; [Redeem]: the decision of redeem.rs; [SignIn]: the
      stored sign-in and its renewal of signin.rs, all of crates/bep/src.
      [StoreRules]: crates/client-config/src/store_rules.rs and the merge of
      config.rs.  [Redeemer]: redeemer.rs, boxes.rs and revoke.rs;
      [SingleFlight]: the single-flight runs of forward.rs as steps of their
      callers; [CredentialFlow]: the request half of forward.rs with
      inject.rs; [CredentialProps] proves it, [CredentialSample] is a host to
      evaluate it on.
    - [AuditChain]: records, the hash chain and what a line holds, of
      crates/bep/src/audit.rs; [AuditLog]: the log on disk, its checks, its
      quarantine, its reader and [restore] of revoke.rs; [AuditHistory]: the
      state of the directory and what each operation does to it, whichever
      calls fail; [AuditProps]: the theorems over histories; [AuditSample]: a
      log to evaluate.
    - [Activation]: crates/boxes/src/core/bep.rs.  [Version]:
      crates/version/src/scheme.rs.

    ** What the theorems show

    - Verdict (C1, C2): the ordered checks are a declarative policy, and an
      admitted frame carries the lease.  Parsing never reads out of bounds; a
      CIDR is an interval and parses back from its text; deny-all, declared
      denies and the switch's own addresses hold on every frame.
    - Refusals: a source keeps its own quota of audit lines
      whatever others do, and the counts of all lines add up; a reset
      answers its segment and only it, with checksums that verify.
    - Proxy (C4, C17, C27, C29): a forwarded head parses back to
      itself and has one framing in every reading; the cut of the stream
      into reads does not matter; a chunked body is relayed as canonical
      chunks; a refused head writes nothing; what the upstream gets is a
      sequence of canonical messages.
    - Revocation (C19): a box's end resets exactly its live inbound
      conversations; it always ends; its addresses are let go only when the
      ledger holds none of its forwards, and nothing is then bound toward an
      address other tasks left alone; and they are let go when the switch
      answers.
    - Credentials (C5, C10, C14, C15, C16, C28, C39): what is written upstream
      on a credentialed flow is the client's own requests in their order, each
      decided and earned in the world of its moment; a stored secret that was
      injected goes only where a rule of the two files sends it; a
      refusal names the first check that fails, in the documented order; the
      head with its credential is framed as the accepted request was; one
      renewal is in flight per key; a sealed value opens for its context and
      no other; a spec is activated exactly under the documented conditions.
    - Audit log (C20, C31, C34): the directory the log leaves passes its own
      check whatever fails on the way; a revocation is read back as long as a
      value can need it; the head of a segment fixes every record in it.
      Beside them, the tail read at an open tells what reading the whole file
      would ([tail_reads_whole]).
    - Control relay (C3, C12, C18): the switch gets one request per
      connection, exactly as the guest framed it, that was allowed when it was
      decided; what other tasks do before its note and while its write waits
      is arbitrary; the ledger settles by the answer; how a reader of lines
      frames what is relayed is stated exactly, a hidden second request
      included.
    - Published addresses (C6): the bitmask is a set of held addresses; its
      grants are exclusive.
    - Control requests (C7) and records: the decision and the stored form
      are exact.
    - Cohort (C8): a blocked stance never fails open, the books
      match the packet filter, and lifting a block puts every process back.
    - Classifier: a placement enforces the declaration or is
      refused; and a host decides per box only on the evidence of a refusal.
    - Names and ports: which DNS answers a box may reach, and
      which listening ports are published.
    - Reply flows: the table is bounded, admits exactly the live
      conversations of its history, and cannot be flooded out.
    - Host gate (C9, C11, C13, C30, C37): what a row's frame is admitted for
      is exactly what its row permits; no box reaches the control surface of
      the switch or undeclared infrastructure; an answer is earned by a
      conversation delivered under the same record, and a reset by a refused
      connect, once; the legs forward whole frames in order, each admitted by
      the verdict in the state the leg was in at that frame, whatever the
      others do to that state in between.
    - Host state (C24, C32, C36): a published listener has one holder and is
      not lost to another's quota; an address is never out twice nor reused
      inside its quarantine; a task row stands only beside the row of its
      box, and a carried box is not withdrawn; a row's run-time ports are
      those its grant admitted, within the cap and the rate.
    - Patterns: an expanded pattern stays below its anchor, a
      literal path comes back from its pattern, and every refusal is
      justified by the input.
    - Consent (C25, C26, C33): hook scripts are staged
      apart; the files of a patch stay inside their destination; the gate is
      a single pass that asks about user data only; nothing denied is ever
      composed; a composition is extended exactly when all of it agrees; the
      exchange between client and daemon settles, and whatever verdict comes
      back the daemon fails closed.
    - Graph: reachability and the joined dependency map are exact
      on every well-formed graph, cycles included.
    - Planner (C21): each iteration is valid; planning ends with a
      complete plan in which every build is fed what the graph declares it to
      need, or with genuine cycles.
    - Orchestrator (C22, C23): the deliverables are well founded and
      complete, each build wired to what the plan gives it; the loop starts only ready work, never stalls and ends within
      a bound; the outcome means what it says.
    - Limiter: bounded memory.  Switch plan: the layout of every accepted
      subnet.  Baseline: the node plane reaches the enumerated services and
      nothing else.
    - DNS admission (C35, C38, C40): every admission is explained by the
      box's own answered questions; an answered lookup opens its answers for
      the whole window; deny-all DNS stays in the zone; no row, and no
      registration of one, lives off another's lookups.

    ** Modelling choices

    - Machine integers are [Z] with their masks, wraps and saturations written
      out; instants and durations are [Z] nanoseconds.  The addition of an
      [Instant] and a [Duration] is taken not to overflow.
    - [unwrap], [expect], indexing and [assert!] yield [Panicked]; a theorem
      that says a routine returns rules it out.
    - Recursion that is not structural takes fuel.  [transitive_specs_of] and
      [new_with_seenset] get one level per spec of the graph plus one, since
      a spec enters the seen set once.  [make_reachable] gets two per spec
      plus two, since a call on a known spec can only recurse into a new
      replacement.  [dep_candidate] and [next] get one per spec plus one,
      since replacement chains do not repeat and a restart adds a spec to the
      map; [collect_plan] gets two phases per spec plus one, since a spec is
      built at most twice.  [bfs] gets one step per deliverable plus one.
      Every theorem about these routines proves the bound sufficient.
    - The order in which a hash map is iterated is a parameter ([HashIter]),
      so no theorem depends on it.  Cache contents ([BinProvider]), spec
      hashes, the environment and the arena are parameters too.
    - The addresses of [Switch] are computed on 32-bit words with their
      wrap-around ([u32_add], [u32_sub]).
    - The DNS message parser is the class [DnsCodec]: the theorems hold for
      every parser.  The identity [Arc::ptr_eq] compares is a field
      ([rec_id], [npn_id]).  A history of the table is a sequence of whole
      operations; the code locks its parts separately, and interleavings
      inside one operation are not modelled.  [BoxRecord] and [BoxTable] carry the fields the table
      reads.  The limiter's own clock readings are parameters of [observe].
    - A stream the proxy reads is a transcript of reads, each of data, an
      error or the end; a stream it writes is the class [Write], with byte
      strings as its instance.  The relays take one unit of fuel per byte and
      read of their input plus one, since each round consumes one; the carry
      loop of the checksum takes three rounds, since the second sum fits.
      The reset exchange runs over a dialled connection given as its reads.
      Audit lines are the strings the code writes.
    - The gate takes its clock readings as a function of their order within
      one decision, and its relay one environment per frame: the rows, the
      room of the queue and the clock as they were when it was handled.  A
      leg takes one unit of fuel per byte of its stream plus one, since each
      round consumes the two bytes of a length.  What the reader of the
      exposures answers at each check is a list.  The draw of the book takes
      one round per address its cursor has not passed.  The operations of the registry are whole, as each
      runs under its lock; the identity of a row is a counter.
    - A socket of the control relay is a list of what its reads return, its
      end being silence until the bound.  The JSON reader is the class
      [JsonBodies].  The request half and the answer half of an exchange are
      two steps, so other connections run in between, and so they do before a
      note and while a write waits ([ce_before_note], [ce_before_written]).
      The switch behind the unbinding is the class [Forwarder] with
      [ForwarderLaws]; at each await, those of a request to the switch
      included, other tasks change the state arbitrarily, the ledger by its
      own operations ([OtherTasks]).  The loops that read a head, a body or an answer take one
      unit of fuel per byte and read plus one; the retries are the code's
      own.  Run-time ports are keyed by the identity of their row.
    - The kernel and the helper under the cohort are a class over a world
      that every call may change; only the two sets are the daemon's own.
      A [BTreeMap] is a finite map iterated in the order of its keys
      ([btree_iter]).  The walk up the parents and the passes of a move are
      bounded in the code itself.  Paths are strings, and what the file
      system says of a path is a fact given to the model.
    - The glob parser and matcher, the directory walk, file lengths,
      canonical paths and the user's environment are parameters of the
      consent model; the hooks that ask the user are a record of arbitrary
      functions.  A [BTreeMap] of pending items is a [gmap] iterated in key
      order ([id_iter]).
    - The libraries under the credentials are classes, with the documented
      behaviour the code relies on as their laws: [SealCrypto] with
      [SealLaws], [HandleCrypto] with [HandleLaws], [StandardBase64] and
      [HeaderFields].  The keychain, the token endpoint and whatever changes
      on the host between two requests are [SignInWorld] and [FlowWorld].
      The request half takes one unit of fuel per byte and read of its input
      plus one, since each round consumes one.
    - The disk under the audit log is a map of named files with a list of
      faults: each call to the system takes the next one, and fails, writes
      short or succeeds as it says.  A run whose remaining calls all
      fail stands for a crash at the first of them.  The chunks of [tail_loop]
      are at most one per byte of the file, and a walk along quarantine
      records at most one step per record.  SHA-256 is the class [Sha256],
      whose digests are 32 bytes; JSON is [AuditJson], whose records read
      back, hold no control character and end in their last field.
    - A task of the build loop is a step that completes its deliverable or
      fails; what the backend does inside it is not modelled.  The two times
      the loop takes the lock at its top, and the completion of a deliverable
      and the end of its task, are one step each.  A task that
      reports dangling cache hits names at least one.

    ** What is not modelled

    Nickel evaluation and graph loading, spec hashing and the wire format,
    the sandbox, the caches' input and output, the daemons' actors and RPC,
    packet shuttling, the TLS and the sockets of the proxy, the platform
    tools that reach a keychain, the command line client, project files, logging and diagnostics.  These are input and
    output, or third-party code, around the decisions modelled here.

    Decisions the library does not cover yet, in the order they would be
    added: the registry's asks and client boxes
    (crates/minvmd/src/box_registry.rs), the mirror ledger of
    egress_gate.rs, the mint of crates/bep, and the read tracking of
    crates/lcache. *)

From stdpp Require Import base list gmap strings numbers sorting.
From Stdlib Require Import ZArith Lia.

#[global] Open Scope Z_scope.

(** ** Outcomes of code that can panic or recurse without a structural bound *)

(** [Done a]: the code returned [a].  [Panicked]: an index out of bounds, an
    [unwrap] of [None], an [expect] that failed.  [OutOfFuel]: the model's
    recursion bound was too small; every theorem that says a routine returns
    rules this out by naming the bound that is enough. *)
Inductive outcome (A : Type) : Type :=
| Done (a : A)
| Panicked
| OutOfFuel.
Arguments Done {A} _.
Arguments Panicked {A}.
Arguments OutOfFuel {A}.

#[global] Instance outcome_ret : MRet outcome := fun A a => Done a.
#[global] Instance outcome_bind : MBind outcome := fun A B f m =>
  match m with
  | Done a => f a
  | Panicked => Panicked
  | OutOfFuel => OutOfFuel
  end.

(** [Option::unwrap] / [expect]. *)
Definition unwrap {A} (o : option A) : outcome A :=
  match o with Some a => Done a | None => Panicked end.

(** Slice indexing [l[i]], which panics past the end. *)
Definition index {A} (l : list A) (i : nat) : outcome A := unwrap (l !! i).

(** Whether an outcome is a value. *)
Definition returns {A} (o : outcome A) : Prop := exists a, o = Done a.

Lemma bind_Done {A B} (a : A) (f : A -> outcome B) : (Done a ≫= f) = f a.
Proof. reflexivity. Qed.

Lemma bind_Done_inv {A B} (m : outcome A) (f : A -> outcome B) b :
  (m ≫= f) = Done b -> exists a, m = Done a /\ f a = Done b.
Proof. destruct m; simpl; intros; try discriminate. eauto. Qed.

Lemma index_lt {A} (l : list A) i :
  (i < length l)%nat -> exists x, l !! i = Some x /\ index l i = Done x.
Proof.
  intros H. destruct (lookup_lt_is_Some_2 l i H) as [x Hx].
  exists x. unfold index. by rewrite Hx.
Qed.

(** [Iterator::filter_map]. *)
Fixpoint filter_map {A B} (f : A -> option B) (l : list A) : list B :=
  match l with
  | [] => []
  | x :: l => match f x with Some y => y :: filter_map f l | None => filter_map f l end
  end.

Lemma elem_of_filter_map {A B} (f : A -> option B) l y :
  y ∈ filter_map f l <-> exists x, x ∈ l /\ f x = Some y.
Proof.
  induction l as [|x l IH]; simpl; [set_solver|].
  destruct (f x) eqn:E; rewrite ?elem_of_cons, IH; set_solver.
Qed.

Lemma filter_map_app {A B} (f : A -> option B) l m : filter_map f (l ++ m) = filter_map f l ++ filter_map f m.
Proof. induction l as [|a l IH]; [done|]. cbn. destruct (f a); [cbn; by rewrite IH|done]. Qed.

(** [Vec::dedup]: removes consecutive repetitions. *)
Fixpoint vec_dedup `{EqDecision A} (l : list A) : list A :=
  match l with
  | [] => []
  | x :: l' =>
      match l' with
      | [] => [x]
      | y :: _ => if decide (x = y) then vec_dedup l' else x :: vec_dedup l'
      end
  end.

Lemma elem_of_vec_dedup `{EqDecision A} (l : list A) x : x ∈ vec_dedup l <-> x ∈ l.
Proof.
  induction l as [|a [|b l] IH]; [done|done|].
  change (vec_dedup (a :: b :: l)) with
    (if decide (a = b) then vec_dedup (b :: l) else a :: vec_dedup (b :: l)).
  case_decide; [subst; rewrite IH|rewrite elem_of_cons, IH]; set_solver.
Qed.

(** A left fold whose step may panic, as a Rust [for] loop with [?] or an
    indexing body. *)
Fixpoint foldM {A B} (f : B -> A -> outcome B) (b : B) (l : list A) : outcome B :=
  match l with
  | [] => Done b
  | x :: l => b' ← f b x; foldM f b' l
  end.

Lemma foldM_app {A B} (f : B -> A -> outcome B) b l1 l2 :
  foldM f b (l1 ++ l2) = (b' ← foldM f b l1; foldM f b' l2).
Proof.
  revert b. induction l1 as [|x l1 IH]; intros b; simpl; [done|].
  destruct (f b x); simpl; auto.
Qed.

(** Invariant rule for [foldM]. *)
Lemma foldM_ind {A B} (f : B -> A -> outcome B) (P : B -> Prop) l b b' :
  P b ->
  (forall b x b1, x ∈ l -> P b -> f b x = Done b1 -> P b1) ->
  foldM f b l = Done b' -> P b'.
Proof.
  revert b. induction l as [|x l IH]; intros b Hb Hstep; simpl.
  - by intros [= <-].
  - intros (b1 & H1 & H2)%bind_Done_inv.
    apply (IH b1); [| |done].
    + eapply Hstep; eauto. left.
    + intros; eapply Hstep; eauto. by right.
Qed.

(** Progress rule for [foldM]. *)
Lemma foldM_returns {A B} (f : B -> A -> outcome B) (P : B -> Prop) l b :
  P b ->
  (forall b x, x ∈ l -> P b -> exists b1, f b x = Done b1 /\ P b1) ->
  exists b', foldM f b l = Done b' /\ P b'.
Proof.
  revert b. induction l as [|x l IH]; intros b Hb Hstep; simpl; [eauto|].
  destruct (Hstep b x) as (b1 & -> & Hb1); [left|done|].
  simpl. apply IH; [done|]. intros; apply Hstep; [by right|done].
Qed.

(** ** Fixed-width integers *)

Definition is_u8 (z : Z) : Prop := 0 <= z < 256.
Definition is_u16 (z : Z) : Prop := 0 <= z < 65536.
Definition is_u32 (z : Z) : Prop := 0 <= z < 4294967296.
Definition is_u64 (z : Z) : Prop := 0 <= z < 18446744073709551616.

#[global] Instance is_u8_dec z : Decision (is_u8 z).
Proof. unfold is_u8. apply _. Defined.
#[global] Instance is_u16_dec z : Decision (is_u16 z).
Proof. unfold is_u16. apply _. Defined.

(** [u64::saturating_add]. *)
Definition u64_saturating_add (a b : Z) : Z := Z.min 18446744073709551615 (a + b).

(** [u16::from_be_bytes([hi, lo])]. *)
Definition be16 (hi lo : Z) : Z := Z.lor (Z.shiftl hi 8) lo.

(** A disjoint [or] is an addition. *)
Lemma lor_shiftl_add hi lo k :
  0 <= k -> 0 <= lo < 2 ^ k -> Z.lor (Z.shiftl hi k) lo = hi * 2 ^ k + lo.
Proof.
  intros Hk Hlo. rewrite <- Z.shiftl_mul_pow2 by lia.
  assert (Hdisj : Z.land (Z.shiftl hi k) lo = 0).
  { apply Z.bits_inj'. intros i Hi. rewrite Z.land_spec, Z.bits_0.
    destruct (decide (i < k)).
    - by rewrite Z.shiftl_spec_low by lia.
    - destruct (decide (lo = 0)) as [->|]; [rewrite Z.bits_0; apply andb_false_r|].
      rewrite (Z.bits_above_log2 lo i); [apply andb_false_r | lia |].
      apply Z.log2_lt_pow2; [lia|]. apply Z.lt_le_trans with (2 ^ k); [lia|].
      apply Z.pow_le_mono_r; lia. }
  rewrite Z.add_nocarry_lxor by done. by rewrite Z.lxor_lor.
Qed.

Lemma be16_val hi lo : is_u8 hi -> is_u8 lo -> be16 hi lo = hi * 256 + lo.
Proof. unfold is_u8, be16. intros H1 H2. by rewrite lor_shiftl_add. Qed.

Lemma be16_u16 hi lo : is_u8 hi -> is_u8 lo -> is_u16 (be16 hi lo).
Proof. intros H1 H2. rewrite be16_val by done. unfold is_u8, is_u16 in *. lia. Qed.

(** ** Instants and durations

    [std::time::Instant] as nanoseconds (any fixed unit) on one monotonic
    clock; [Instant::duration_since] saturates to zero when the argument is
    later, as the standard library documents. *)
Definition duration_since (now earlier : Z) : Z := Z.max 0 (now - earlier).

Definition from_secs (s : Z) : Z := s * 1000000000.
Definition from_mins (m : Z) : Z := from_secs (m * 60).
Definition from_hours (h : Z) : Z := from_secs (h * 3600).

(** ** Traces of a deterministic stateful component *)

Section traces.
Context {S Op Ev : Type} (step : S -> Op -> S * Ev).

(** Runs a sequence of operations, collecting what each one answered. *)
Fixpoint run (s : S) (ops : list Op) : S * list Ev :=
  match ops with
  | [] => (s, [])
  | o :: ops =>
      let '(s1, e) := step s o in
      let '(s2, es) := run s1 ops in (s2, e :: es)
  end.

Definition run_state (s : S) (ops : list Op) : S := (run s ops).1.

Lemma run_state_cons s o ops :
  run_state s (o :: ops) = run_state (step s o).1 ops.
Proof.
  unfold run_state. simpl. destruct (step s o) as [s1 e]. simpl.
  by destruct (run s1 ops).
Qed.

Lemma run_state_app s ops1 ops2 :
  run_state s (ops1 ++ ops2) = run_state (run_state s ops1) ops2.
Proof.
  revert s. induction ops1 as [|o ops1 IH]; intros s; [done|].
  rewrite <- app_comm_cons, !run_state_cons. apply IH.
Qed.

(** An invariant every operation preserves holds after every trace. *)
Lemma run_state_ind (I : S -> Prop) s ops :
  I s -> (forall s o, o ∈ ops -> I s -> I (step s o).1) -> I (run_state s ops).
Proof.
  revert s. induction ops as [|o ops IH]; intros s Hs Hstep; [done|].
  rewrite run_state_cons. apply IH; [apply Hstep; [left|done]|].
  intros; apply Hstep; [by right|done].
Qed.
End traces.

(** ** Hash-map iteration

    [std::collections::HashMap] iterates in an unspecified order.  A client
    that iterates one is modelled against this interface: some order, which
    lists every entry exactly once. *)
Class HashIter := {
  hash_iter {K V} `{Countable K} : gmap K V -> list (K * V);
  hash_iter_perm {K V} `{Countable K} (m : gmap K V) : hash_iter m ≡ₚ map_to_list m;
}.

(** A concrete order, for evaluating the model on closed inputs. *)
#[global] Instance gmap_order : HashIter | 100 := {
  hash_iter K V _ _ m := map_to_list m;
  hash_iter_perm K V _ _ m := Permutation_refl _;
}.

Lemma elem_of_hash_iter `{HashIter, Countable K} {V} (m : gmap K V) k v :
  (k, v) ∈ hash_iter m <-> m !! k = Some v.
Proof. rewrite hash_iter_perm. apply elem_of_map_to_list. Qed.

(** ** Insertion-ordered maps

    [indexmap::IndexMap]: a map that iterates in insertion order; inserting at
    a key already present replaces the value in place. *)
Definition IndexMap (K V : Type) : Type := list (K * V).

Section index_map.
Context {K V : Type} `{EqDecision K}.

Fixpoint im_get (m : IndexMap K V) (k : K) : option V :=
  match m with
  | [] => None
  | (k', v) :: m => if decide (k' = k) then Some v else im_get m k
  end.

Definition im_contains_key (m : IndexMap K V) (k : K) : bool :=
  match im_get m k with Some _ => true | None => false end.

Fixpoint im_insert (m : IndexMap K V) (k : K) (v : V) : IndexMap K V :=
  match m with
  | [] => [(k, v)]
  | (k', v') :: m => if decide (k' = k) then (k', v) :: m else (k', v') :: im_insert m k v
  end.

Lemma im_get_insert_eq m k v : im_get (im_insert m k v) k = Some v.
Proof.
  induction m as [|[k' v'] m IH]; simpl; [by rewrite decide_True|].
  destruct (decide (k' = k)); simpl; by case_decide.
Qed.

Lemma im_get_insert_ne m k k' v : k <> k' -> im_get (im_insert m k v) k' = im_get m k'.
Proof.
  intros Hne. induction m as [|[k1 v1] m IH]; simpl; [by rewrite decide_False|].
  destruct (decide (k1 = k)) as [->|]; simpl; [by rewrite !decide_False|].
  by case_decide.
Qed.

Lemma im_get_insert m k k' v :
  im_get (im_insert m k v) k' = if decide (k = k') then Some v else im_get m k'.
Proof. case_decide; [subst; apply im_get_insert_eq|by apply im_get_insert_ne]. Qed.

Lemma im_get_elem m k v : im_get m k = Some v -> (k, v) ∈ m.
Proof.
  induction m as [|[k' v'] m IH]; simpl; [done|].
  case_decide; [intros [= ->]; subst; left|intros ?; right; auto].
Qed.

Lemma im_get_Some_iff m k v : NoDup m.*1 -> (im_get m k = Some v <-> (k, v) ∈ m).
Proof.
  intros Hnd. split; [apply im_get_elem|].
  induction m as [|[k' v'] m IH]; simpl in *; [by intros ?%elem_of_nil|].
  apply NoDup_cons in Hnd as [Hk' Hnd]. intros [E|Hin]%elem_of_cons.
  - simplify_eq. by rewrite decide_True.
  - case_decide as E; [|auto]. subst. destruct Hk'. apply list_elem_of_fmap. by exists (k, v).
Qed.

Lemma im_get_None_iff m k : im_get m k = None <-> k ∉ m.*1.
Proof.
  induction m as [|[k' v'] m IH]; simpl; [set_solver|].
  case_decide; [subst; set_solver|]. rewrite IH. set_solver.
Qed.

Lemma im_keys_insert m k v :
  (im_insert m k v).*1 = if decide (k ∈ m.*1) then m.*1 else m.*1 ++ [k].
Proof.
  induction m as [|[k' v'] m IH]; [done|]. simpl im_insert.
  destruct (decide (k' = k)) as [->|]; csimpl.
  - rewrite decide_True; [done|set_solver].
  - rewrite IH. repeat case_decide; set_solver.
Qed.

Lemma im_insert_nodup m k v : NoDup m.*1 -> NoDup (im_insert m k v).*1.
Proof.
  intros Hnd. rewrite im_keys_insert. case_decide; [done|].
  apply NoDup_app. split; [done|]. split; [set_solver|]. apply NoDup_singleton.
Qed.
End index_map.

(** ** Automation *)

Create HintDb minimal.

(** Membership in a history that grew by one operation, and in the lists the
    models append to. *)
Lemma elem_of_snoc_old {A} (x y : A) l : x ∈ l -> x ∈ l ++ [y].
Proof. intros Hx. apply elem_of_app. by left. Qed.
Lemma elem_of_snoc_new {A} (x : A) l : x ∈ l ++ [x].
Proof. apply elem_of_app. right. by left. Qed.

#[export] Hint Resolve elem_of_snoc_old elem_of_snoc_new : minimal.
#[export] Hint Resolve list_elem_of_here list_elem_of_further : minimal.

(** Case analysis on the booleans and options the code branches on. *)
Ltac code_cases :=
  repeat match goal with
  | |- context [if ?b then _ else _] => destruct b eqn:?
  | |- context [match ?o with Some _ => _ | None => _ end] => destruct o eqn:?
  end.

(** Boolean comparisons of the code to propositions. *)
Ltac bool_to_prop :=
  repeat match goal with
  | H : andb _ _ = true |- _ => apply andb_prop in H; destruct H
  | H : orb _ _ = false |- _ => apply orb_false_elim in H; destruct H
  | H : negb _ = true |- _ => apply negb_true_iff in H
  | H : negb _ = false |- _ => apply negb_false_iff in H
  | H : bool_decide _ = true |- _ => apply bool_decide_eq_true_1 in H
  | H : bool_decide _ = false |- _ => apply bool_decide_eq_false_1 in H
  | H : (_ =? _) = true |- _ => apply Z.eqb_eq in H
  | H : (_ =? _) = false |- _ => apply Z.eqb_neq in H
  | H : (_ <? _) = true |- _ => apply Z.ltb_lt in H
  | H : (_ <? _) = false |- _ => apply Z.ltb_ge in H
  | H : (_ <=? _) = true |- _ => apply Z.leb_le in H
  | H : (_ <=? _) = false |- _ => apply Z.leb_gt in H
  end.

(** ** [BTreeMap<String, _>] in iteration order *)

Definition key_le {A} (p q : string * A) : Prop := String.leb p.1 q.1 = true.

#[global] Instance key_le_dec {A} (p q : string * A) : Decision (key_le p q).
Proof. unfold key_le. apply _. Defined.

Definition btree_iter {A} (m : gmap string A) : list (string * A) := merge_sort key_le (map_to_list m).

Lemma btree_iter_perm {A} (m : gmap string A) : btree_iter m ≡ₚ map_to_list m.
Proof. apply merge_sort_Permutation. Qed.

Lemma elem_of_btree_iter {A} (m : gmap string A) id a : (id, a) ∈ btree_iter m <-> m !! id = Some a.
Proof. rewrite btree_iter_perm. apply elem_of_map_to_list. Qed.

Lemma elem_of_btree_keys {A} (m : gmap string A) id : id ∈ (btree_iter m).*1 <-> is_Some (m !! id).
Proof.
  rewrite list_elem_of_fmap. split.
  - intros ([i a] & -> & Hin). apply elem_of_btree_iter in Hin. eauto.
  - intros [a Ha]. exists (id, a). by rewrite elem_of_btree_iter.
Qed.
