(* ===== verification/Text.v ===== *)
(** * Strings and number parsing of the Rust standard library

    A [&str] is a Rocq [string] of bytes.  The functions below are the ones
    the modelled code calls: [str::split_once], [str::strip_prefix],
    [u8::from_str] (and its wider siblings), [Ipv4Addr::from_str], and the
    decimal [Display] of an unsigned integer.  They are the standard
    library's, so they have no counterpart under src/. *)

From stdpp Require Import base list strings numbers countable pretty.
From Stdlib Require Import ZArith Lia Ascii.
From S2P Require Import Prelude.
Open Scope Z_scope.

#[global] Arguments String.append !_ _ / : simpl nomatch.

(** [s.split_once(c)]: the text before and after the first [c]. *)
Fixpoint split_once (c : ascii) (s : string) : option (string * string) :=
  match s with
  | EmptyString => None
  | String d s' =>
      if bool_decide (d = c) then Some (EmptyString, s')
      else match split_once c s' with
           | Some (a, b) => Some (String d a, b)
           | None => None
           end
  end.

(** [s.strip_prefix(p)]. *)
Fixpoint strip_prefix (p s : string) : option string :=
  match p, s with
  | EmptyString, _ => Some s
  | String c p', String d s' => if bool_decide (c = d) then strip_prefix p' s' else None
  | String _ _, EmptyString => None
  end.

(** [s.contains(c)]. *)
Fixpoint str_contains (c : ascii) (s : string) : bool :=
  match s with
  | EmptyString => false
  | String d s' => bool_decide (d = c) || str_contains c s'
  end.

(** [s.bytes().all(p)]. *)
Fixpoint str_all (p : ascii -> bool) (s : string) : bool :=
  match s with
  | EmptyString => true
  | String c s' => p c && str_all p s'
  end.

Lemma str_all_app p (a b : string) : str_all p (a ++ b)%string = str_all p a && str_all p b.
Proof. induction a as [|c a IH]; [done|]. cbn. by rewrite IH, andb_assoc. Qed.

(** [str::to_ascii_lowercase]. *)
Definition lower_ascii (c : ascii) : ascii :=
  let n := nat_of_ascii c in
  if ((65 <=? n) && (n <=? 90))%nat then ascii_of_nat (n + 32) else c.
Fixpoint to_ascii_lowercase (s : string) : string :=
  match s with
  | EmptyString => EmptyString
  | String c s' => String (lower_ascii c) (to_ascii_lowercase s')
  end.

(** The bytes of a string in reverse. *)
Fixpoint str_rev_onto (s acc : string) : string :=
  match s with
  | EmptyString => acc
  | String c s' => str_rev_onto s' (String c acc)
  end.
Definition str_rev (s : string) : string := str_rev_onto s EmptyString.

(** [s.strip_suffix(p)]. *)
Definition strip_suffix (p s : string) : option string :=
  option_map str_rev (strip_prefix (str_rev p) (str_rev s)).

(** [s.split(c)]: always at least one piece. *)
Fixpoint str_split (c : ascii) (s : string) : list string :=
  match s with
  | EmptyString => [EmptyString]
  | String d s' =>
      if bool_decide (d = c) then EmptyString :: str_split c s'
      else match str_split c s' with
           | piece :: rest => String d piece :: rest
           | [] => [String d EmptyString]
           end
  end.

(** [str::rsplit_once] at a character. *)
Definition rsplit_once (c : ascii) (s : string) : option (string * string) :=
  match split_once c (str_rev s) with Some (b, a) => Some (str_rev a, str_rev b) | None => None end.

(** The UTF-8 encodings of the characters with the Unicode [White_Space]
    property, which [str::trim] removes. *)
Definition bytes_string (l : list nat) : string := foldr (fun n s => String (ascii_of_nat n) s) EmptyString l.
Definition white_space : list string :=
  map bytes_string
    ([[9]; [10]; [11]; [12]; [13]; [32]; [194; 133]; [194; 160]; [225; 154; 128]]
     ++ map (fun n => [226; 128; n]) (seq 128 11)
     ++ [[226; 128; 168]; [226; 128; 169]; [226; 128; 175]; [226; 129; 159]; [227; 128; 128]])%nat.

(** Strips the first of [ws] the string starts with, as often as one does. *)
Fixpoint strip_while (fuel : nat) (ws : list string) (s : string) : string :=
  match fuel with
  | O => s
  | S fuel =>
      match head (filter_map (fun w => strip_prefix w s) ws) with
      | Some s' => strip_while fuel ws s'
      | None => s
      end
  end.
(** [str::trim] and [str::trim_end_matches(c)]; each round removes at least a
    byte. *)
Definition trim (s : string) : string :=
  let s := strip_while (String.length s) white_space s in
  str_rev (strip_while (String.length s) (map str_rev white_space) (str_rev s)).
Definition trim_end_matches (c : ascii) (s : string) : string :=
  str_rev (strip_while (String.length s) [String c EmptyString] (str_rev s)).

(** [str::split_whitespace]; each round takes a byte or a whole blank. *)
Definition flush_word (word : string) : list string := match word with EmptyString => [] | _ => [str_rev word] end.
Fixpoint split_words (fuel : nat) (s word : string) : list string :=
  match fuel with
  | O => flush_word word
  | S fuel =>
      match head (filter_map (fun w => strip_prefix w s) white_space) with
      | Some s' => flush_word word ++ split_words fuel s' EmptyString
      | None => match s with
                | EmptyString => flush_word word
                | String c s' => split_words fuel s' (String c word)
                end
      end
  end.
Definition split_whitespace (s : string) : list string := split_words (S (String.length s)) s EmptyString.

(** [char::to_digit(10)]. *)
Definition to_digit (c : ascii) : option Z :=
  let n := Z.of_nat (nat_of_ascii c) in
  if (48 <=? n) && (n <=? 57) then Some (n - 48) else None.

Definition is_ascii_digit (c : ascii) : bool := bool_decide (is_Some (to_digit c)).

(** [u8::is_ascii_hexdigit]. *)
Definition is_ascii_hexdigit (c : ascii) : bool :=
  let n := Z.of_nat (nat_of_ascii c) in
  is_ascii_digit c || ((97 <=? n) && (n <=? 102)) || ((65 <=? n) && (n <=? 70)).

(** [u8::is_ascii_lowercase]. *)
Definition is_ascii_lowercase (c : ascii) : bool :=
  let n := Z.of_nat (nat_of_ascii c) in (97 <=? n) && (n <=? 122).

(** [char::from_digit(d, 10)]. *)
Definition digit_char (d : Z) : ascii := ascii_of_nat (Z.to_nat (48 + d)).

Arguments to_digit : simpl never.
Arguments digit_char : simpl never.

(** The accumulation loop of the integer parsers: every character a digit,
    the running value never above [max]. *)
Fixpoint parse_digits (max acc : Z) (s : string) : option Z :=
  match s with
  | EmptyString => Some acc
  | String c s' =>
      match to_digit c with
      | Some d => let acc' := acc * 10 + d in
                  if acc' <=? max then parse_digits max acc' s' else None
      | None => None
      end
  end.

(** [uN::from_str]: an optional leading [+], then at least one digit. *)
Definition parse_uint (max : Z) (s : string) : option Z :=
  match s with
  | EmptyString => None
  | String c s' =>
      if bool_decide (c = "+"%char) then
        match s' with EmptyString => None | _ => parse_digits max 0 s' end
      else parse_digits max 0 s
  end.

Definition parse_u8 (s : string) : option Z := parse_uint 255 s.
Definition parse_u32 (s : string) : option Z := parse_uint 4294967295 s.

(** The leading digits of a string, as [Parser::read_number] consumes them. *)
Fixpoint span_digits (s : string) : list Z * string :=
  match s with
  | EmptyString => ([], EmptyString)
  | String c s' =>
      match to_digit c with
      | Some d => let '(ds, r) := span_digits s' in (d :: ds, r)
      | None => ([], s)
      end
  end.

Definition digits_value (ds : list Z) : Z := fold_left (fun a d => a * 10 + d) ds 0.

(** [read_number(10, Some(3), false)] for a [u8]: one to three digits, no
    leading zero unless the number is [0], at most 255. *)
Definition read_octet (s : string) : option (Z * string) :=
  let '(ds, r) := span_digits s in
  if ((3 <? length ds) || (length ds =? 0))%nat then None
  else if bool_decide (head ds = Some 0) && (1 <? length ds)%nat then None
  else let v := digits_value ds in
       if v <=? 255 then Some (v, r) else None.

(** A separator ['.'] and then an octet. *)
Definition read_dot_octet (s : string) : option (Z * string) :=
  match s with
  | String "." s' => read_octet s'
  | _ => None
  end.

(** An IPv4 address as its four octets, [Ipv4Addr::octets]. *)
Record ip4 : Type := Ip4 { oct0 : Z; oct1 : Z; oct2 : Z; oct3 : Z }.

#[global] Instance ip4_eq_dec : EqDecision ip4.
Proof. solve_decision. Defined.
#[global] Instance ip4_countable : Countable ip4.
Proof.
  refine (inj_countable' (fun a => (oct0 a, oct1 a, oct2 a, oct3 a))
            (fun t => let '(a, b, c, d) := t in Ip4 a b c d) _).
  by intros [].
Defined.

Definition ip4_wf (a : ip4) : Prop :=
  is_u8 (oct0 a) /\ is_u8 (oct1 a) /\ is_u8 (oct2 a) /\ is_u8 (oct3 a).

(** [Ipv4Addr::from_str]. *)
Definition parse_ipv4 (s : string) : option ip4 :=
  if (15 <? String.length s)%nat then None
  else
    '(a, s) ← read_octet s;
    '(b, s) ← read_dot_octet s;
    '(c, s) ← read_dot_octet s;
    '(d, s) ← read_dot_octet s;
    match s with EmptyString => Some (Ip4 a b c d) | _ => None end.

(** [u32::from_be_bytes]. *)
Definition ip4_u32 (a : ip4) : Z :=
  Z.lor (Z.shiftl (be16 (oct0 a) (oct1 a)) 16) (be16 (oct2 a) (oct3 a)).

(** The decimal [Display] of a number below one thousand: all the octets and
    prefixes the code prints. *)
Definition show_u10 (n : Z) : string :=
  if n <? 10 then String (digit_char n) EmptyString
  else if n <? 100 then
    String (digit_char (n / 10)) (String (digit_char (n mod 10)) EmptyString)
  else String (digit_char (n / 100))
         (String (digit_char (n / 10 mod 10))
            (String (digit_char (n mod 10)) EmptyString)).

Definition show_ip4 (a : ip4) : string :=
  (show_u10 (oct0 a) ++ "." ++ show_u10 (oct1 a) ++ "." ++
   show_u10 (oct2 a) ++ "." ++ show_u10 (oct3 a))%string.

(** ** Lemmas *)

Lemma to_digit_digit_char d : 0 <= d < 10 -> to_digit (digit_char d) = Some d.
Proof.
  intros H.
  assert (d = 0 \/ d = 1 \/ d = 2 \/ d = 3 \/ d = 4 \/ d = 5 \/ d = 6 \/ d = 7 \/ d = 8 \/ d = 9)
    as Hd by lia.
  by repeat destruct Hd as [->|Hd]; subst.
Qed.

Lemma digit_char_not (d : Z) (c : ascii) :
  to_digit c = None -> 0 <= d < 10 -> digit_char d <> c.
Proof. intros Hc Hd <-. by rewrite to_digit_digit_char in Hc. Qed.

(** Where the next character is not a digit, or there is none. *)
Definition digits_end (s : string) : Prop :=
  match s with EmptyString => True | String c _ => to_digit c = None end.

Lemma span_digits_end s : digits_end s -> span_digits s = ([], s).
Proof. destruct s as [|c s]; simpl; [done|]. by intros ->. Qed.

Lemma span_digits_show n r :
  0 <= n < 1000 -> digits_end r ->
  exists ds, span_digits (show_u10 n ++ r)%string = (ds, r) /\
    digits_value ds = n /\ (1 <= length ds <= 3)%nat /\
    (head ds = Some 0 -> length ds = 1%nat).
Proof.
  intros Hn Hr. unfold show_u10.
  assert (0 <= n / 10 < 100) by (split; [apply Z.div_pos; lia | apply Z.div_lt_upper_bound; lia]).
  assert (0 <= n / 100 < 10) by (split; [apply Z.div_pos; lia | apply Z.div_lt_upper_bound; lia]).
  pose proof (Z.mod_pos_bound n 10 ltac:(lia)).
  pose proof (Z.mod_pos_bound (n / 10) 10 ltac:(lia)).
  pose proof (Z.div_mod n 10 ltac:(lia)).
  pose proof (Z.div_mod (n / 10) 10 ltac:(lia)) as Hd2.
  rewrite Z.div_div in Hd2 by lia. change (10 * 10) with 100 in Hd2.
  destruct (n <? 10) eqn:?; [|destruct (n <? 100) eqn:?]; bool_to_prop; simpl;
    rewrite ?to_digit_digit_char by lia; change (""%string +:+ r) with r;
    rewrite (span_digits_end r) by done;
    eexists; (split; [reflexivity|]); unfold digits_value; simpl.
  - repeat split; try lia; by intros.
  - assert (n / 10 < 10) by (apply Z.div_lt_upper_bound; lia).
    assert (1 <= n / 10) by (apply Z.div_le_lower_bound; lia).
    repeat split; try lia. intros [= E]. lia.
  - assert (1 <= n / 100) by (apply Z.div_le_lower_bound; lia).
    repeat split; try lia. intros [= E]. lia.
Qed.

Lemma read_octet_show n r :
  is_u8 n -> digits_end r -> read_octet (show_u10 n ++ r)%string = Some (n, r).
Proof.
  intros Hn Hr. unfold is_u8 in Hn.
  destruct (span_digits_show n r) as (ds & Hs & Hv & Hl & Hz); [lia|done|].
  unfold read_octet. rewrite Hs.
  destruct (3 <? length ds)%nat eqn:E1; [apply Nat.ltb_lt in E1; lia|].
  destruct (length ds =? 0)%nat eqn:E2; [apply Nat.eqb_eq in E2; lia|]. simpl.
  destruct (bool_decide (head ds = Some 0)) eqn:E3; bool_to_prop; simpl.
  - rewrite Hz by done. simpl. rewrite Hv. destruct (n <=? 255) eqn:?; bool_to_prop; [done|lia].
  - rewrite Hv. destruct (n <=? 255) eqn:?; bool_to_prop; [done|lia].
Qed.

Lemma show_u10_length n : 0 <= n < 1000 -> (String.length (show_u10 n) <= 3)%nat.
Proof. intros H. unfold show_u10. destruct (n <? 10), (n <? 100); simpl; lia. Qed.

Lemma string_length_app (a b : string) :
  String.length (a ++ b) = (String.length a + String.length b)%nat.
Proof. induction a; simpl; congruence. Qed.

Lemma string_app_assoc (a b c : string) : ((a ++ b) ++ c = a ++ (b ++ c))%string.
Proof. induction a; simpl; congruence. Qed.

Lemma string_app_nil (a : string) : (a ++ "" = a)%string.
Proof. induction a; simpl; congruence. Qed.

(** [Ipv4Addr::from_str] reads back what [Display] wrote. *)
Lemma parse_show_ipv4 a : ip4_wf a -> parse_ipv4 (show_ip4 a) = Some a.
Proof.
  destruct a as [a b c d]. unfold ip4_wf; simpl. intros (Ha & Hb & Hc & Hd).
  unfold parse_ipv4, show_ip4; simpl.
  destruct (15 <? _)%nat eqn:E.
  { apply Nat.ltb_lt in E. repeat (rewrite string_length_app in E; simpl in E).
    unfold is_u8 in *.
    pose proof (show_u10_length a ltac:(lia)). pose proof (show_u10_length b ltac:(lia)).
    pose proof (show_u10_length c ltac:(lia)). pose proof (show_u10_length d ltac:(lia)). lia. }
  rewrite read_octet_show by done. simpl.
  rewrite read_octet_show by done. simpl.
  rewrite read_octet_show by done. simpl.
  rewrite <- (string_app_nil (show_u10 d)), read_octet_show by done. done.
Qed.

Lemma to_digit_range c d : to_digit c = Some d -> 0 <= d < 10.
Proof. unfold to_digit. destruct (_ && _) eqn:?; bool_to_prop; intros; simplify_eq; lia. Qed.

Lemma span_digits_range s ds r : span_digits s = (ds, r) -> Forall (fun d => 0 <= d < 10) ds.
Proof.
  revert ds r. induction s as [|c s IH]; simpl; intros ds r H; [by simplify_eq|].
  destruct (to_digit c) eqn:Hc; [|by simplify_eq].
  destruct (span_digits s) as [ds' r'] eqn:Hs. simplify_eq.
  constructor; [by eapply to_digit_range|]. by eapply IH.
Qed.

Lemma digits_value_nonneg ds acc :
  0 <= acc -> Forall (fun d => 0 <= d < 10) ds -> 0 <= fold_left (fun a d => a * 10 + d) ds acc.
Proof.
  revert acc. induction ds as [|d ds IH]; intros acc Ha HF; simpl; [done|].
  inversion HF; subst. apply IH; [lia|done].
Qed.

Lemma read_octet_u8 s n r : read_octet s = Some (n, r) -> is_u8 n.
Proof.
  unfold read_octet. destruct (span_digits s) as [ds r'] eqn:Hs.
  destruct (_ || _); [done|]. destruct (_ && _); [done|].
  destruct (_ <=? 255) eqn:?; [|done]. intros; simplify_eq. bool_to_prop.
  split; [|lia]. apply digits_value_nonneg; [lia|]. by eapply span_digits_range.
Qed.

Lemma read_dot_octet_u8 s n r : read_dot_octet s = Some (n, r) -> is_u8 n.
Proof.
  unfold read_dot_octet. destruct s as [|[[] [] [] [] [] [] [] []] s]; try done.
  apply read_octet_u8.
Qed.

Lemma parse_ipv4_wf s a : parse_ipv4 s = Some a -> ip4_wf a.
Proof.
  unfold parse_ipv4. destruct (_ <? _)%nat; [done|].
  intros H.
  destruct (read_octet s) as [[x0 s0]|] eqn:E0; simpl in H; [|done].
  destruct (read_dot_octet s0) as [[x1 s1]|] eqn:E1; simpl in H; [|done].
  destruct (read_dot_octet s1) as [[x2 s2]|] eqn:E2; simpl in H; [|done].
  destruct (read_dot_octet s2) as [[x3 s3]|] eqn:E3; simpl in H; [|done].
  destruct s3; [|done]. simplify_eq.
  repeat split; simpl;
    (apply read_octet_u8 in E0 || idtac); apply read_dot_octet_u8 in E1, E2, E3;
    unfold is_u8 in *; lia.
Qed.

Lemma parse_digits_bounds max acc s n :
  0 <= acc <= max -> parse_digits max acc s = Some n -> 0 <= n <= max.
Proof.
  revert acc. induction s as [|c s IH]; simpl; intros acc H Hp; [by simplify_eq|].
  destruct (to_digit c) as [d|] eqn:Hd; [|done]. apply to_digit_range in Hd.
  destruct (_ <=? max) eqn:?; [|done]. bool_to_prop. eapply IH; [|done]. lia.
Qed.

Lemma parse_uint_bounds max s n : 0 <= max -> parse_uint max s = Some n -> 0 <= n <= max.
Proof.
  intros Hm. unfold parse_uint. destruct s as [|c s]; [done|].
  destruct (bool_decide _); [destruct s; [done|]|]; apply parse_digits_bounds; lia.
Qed.

Lemma split_once_app (c : ascii) (a b : string) :
  str_contains c a = false -> split_once c (a ++ String c b)%string = Some (a, b).
Proof.
  induction a as [|d a IH]; simpl; intros H.
  - by rewrite bool_decide_eq_true_2.
  - apply orb_false_elim in H as [-> H]. by rewrite IH.
Qed.

Lemma str_contains_app c (a b : string) :
  str_contains c (a ++ b)%string = str_contains c a || str_contains c b.
Proof. induction a as [|d a IH]; simpl; [done|]. by rewrite IH, orb_assoc. Qed.

Lemma str_contains_show c n :
  to_digit c = None -> 0 <= n < 1000 -> str_contains c (show_u10 n) = false.
Proof.
  intros Hc Hn.
  assert (0 <= n / 10 < 100) by (split; [apply Z.div_pos; lia | apply Z.div_lt_upper_bound; lia]).
  assert (0 <= n / 100 < 10) by (split; [apply Z.div_pos; lia | apply Z.div_lt_upper_bound; lia]).
  pose proof (Z.mod_pos_bound n 10 ltac:(lia)).
  pose proof (Z.mod_pos_bound (n / 10) 10 ltac:(lia)).
  unfold show_u10. destruct (n <? 10) eqn:?; [|destruct (n <? 100) eqn:?]; bool_to_prop; simpl.
  2: assert (n / 10 < 10) by (apply Z.div_lt_upper_bound; lia).
  all: rewrite !bool_decide_eq_false_2 by (apply digit_char_not; [done|lia]); done.
Qed.

Lemma parse_digits_app max acc s d r :
  parse_digits max acc s = Some d ->
  parse_digits max acc (s ++ r)%string = parse_digits max d r.
Proof.
  revert acc. induction s as [|c s IH]; simpl; intros acc H; [by simplify_eq|].
  destruct (to_digit c); [|done]. destruct (_ <=? max); [|done]. by apply IH.
Qed.

(** The integer parser reads back the decimal [Display]. *)
Lemma parse_uint_show max n :
  0 <= n < 1000 -> n <= max -> parse_uint max (show_u10 n) = Some n.
Proof.
  intros Hn Hmax.
  assert (0 <= n / 10 < 100) by (split; [apply Z.div_pos; lia | apply Z.div_lt_upper_bound; lia]).
  assert (0 <= n / 100 < 10) by (split; [apply Z.div_pos; lia | apply Z.div_lt_upper_bound; lia]).
  pose proof (Z.mod_pos_bound n 10 ltac:(lia)).
  pose proof (Z.mod_pos_bound (n / 10) 10 ltac:(lia)).
  pose proof (Z.div_mod n 10 ltac:(lia)).
  pose proof (Z.div_mod (n / 10) 10 ltac:(lia)) as Hd2.
  rewrite Z.div_div in Hd2 by lia. change (10 * 10) with 100 in Hd2.
  assert (Hplus : forall d, 0 <= d < 10 -> bool_decide (digit_char d = "+"%char) = false).
  { intros d Hd. apply bool_decide_eq_false_2, digit_char_not; [reflexivity|done]. }
  unfold show_u10, parse_uint.
  destruct (n <? 10) eqn:?; [|destruct (n <? 100) eqn:?]; bool_to_prop.
  2: assert (n / 10 < 10) by (apply Z.div_lt_upper_bound; lia).
  all: rewrite Hplus by lia; cbn [parse_digits]; rewrite !to_digit_digit_char by lia.
  all: repeat match goal with |- context [if ?a <=? ?b then _ else _] =>
         destruct (a <=? b) eqn:?; bool_to_prop; [|lia] end; f_equal; lia.
Qed.

(** ** Prefixes and suffixes *)

Lemma rev_onto_app s acc : str_rev_onto s acc = (str_rev s ++ acc)%string.
Proof.
  unfold str_rev. revert acc. induction s as [|c s IH]; intros acc; [done|]. cbn [str_rev_onto].
  rewrite IH, (IH (String c EmptyString)), string_app_assoc. done.
Qed.

Lemma str_rev_app a b : str_rev (a ++ b)%string = (str_rev b ++ str_rev a)%string.
Proof.
  induction a as [|c a IH]; cbn [String.append]; [by rewrite string_app_nil|].
  unfold str_rev at 1. cbn [str_rev_onto]. rewrite rev_onto_app, IH, string_app_assoc. f_equal.
  unfold str_rev at 2. cbn [str_rev_onto]. by rewrite rev_onto_app.
Qed.

Lemma str_rev_involutive s : str_rev (str_rev s) = s.
Proof.
  induction s as [|c s IH]; [done|]. unfold str_rev at 2. cbn [str_rev_onto].
  rewrite rev_onto_app, str_rev_app, IH. done.
Qed.

Lemma strip_prefix_app p s : strip_prefix p (p ++ s)%string = Some s.
Proof. induction p as [|c p IH]; [done|]. cbn. by rewrite bool_decide_eq_true_2. Qed.

Lemma strip_prefix_Some p s r : strip_prefix p s = Some r -> s = (p ++ r)%string.
Proof.
  revert s. induction p as [|c p IH]; intros s; cbn; [by intros [= ->]|]. destruct s as [|d s]; [done|].
  case_bool_decide; [|done]. intros H1. subst. by rewrite (IH s).
Qed.

Lemma strip_suffix_iff p s r : strip_suffix p s = Some r <-> s = (r ++ p)%string.
Proof.
  unfold strip_suffix. split.
  - intros H. destruct (strip_prefix (str_rev p) (str_rev s)) as [x|] eqn:E; [|done]. injection H as <-.
    apply strip_prefix_Some in E. by rewrite <- (str_rev_involutive s), E, str_rev_app, str_rev_involutive.
  - intros ->. rewrite str_rev_app, strip_prefix_app. cbn [option_map]. by rewrite str_rev_involutive.
Qed.

(** ** Splitting *)

Lemma str_split_nonempty c s : str_split c s <> [].
Proof. destruct s as [|d s]; cbn; [done|]. case_bool_decide; [done|]. by destruct (str_split c s). Qed.

Lemma str_split_app_sep c (a b : string) : str_split c (a ++ String c b)%string = str_split c a ++ str_split c b.
Proof.
  induction a as [|d a IH]; cbn; [by rewrite bool_decide_true|].
  case_bool_decide; [by rewrite IH|].
  rewrite IH. destruct (str_split c a) eqn:E; [by destruct (str_split_nonempty c a)|done].
Qed.

Lemma str_split_single c s : str_contains c s = false -> str_split c s = [s].
Proof.
  induction s as [|d s IH]; cbn; [done|].
  case_bool_decide as Hd; cbn; [done|]. intros H. by rewrite (IH H).
Qed.

Lemma str_split_parts c s : Forall (fun p => str_contains c p = false) (str_split c s).
Proof.
  induction s as [|d s IH]; cbn; [by repeat constructor|].
  case_bool_decide as Hd; [by constructor|].
  destruct (str_split c s) as [|p l]; [constructor; [cbn; by rewrite bool_decide_false|constructor]|].
  apply list.Forall_cons in IH as [Hp Hl]. constructor; [cbn; by rewrite bool_decide_false|done].
Qed.

(** ** Words *)

(** A visible ASCII character, none of which starts a blank. *)
Definition is_plain (c : ascii) : bool := let n := Z.of_nat (nat_of_ascii c) in (33 <=? n) && (n <=? 126).

Lemma white_space_heads : Forall (fun w => match w with String d _ => is_plain d = false | EmptyString => False end) white_space.
Proof. repeat constructor. Qed.

Lemma no_blank_prefix c s : is_plain c = true -> head (filter_map (fun w => strip_prefix w (String c s)) white_space) = None.
Proof.
  intros Hc. assert (forall l, Forall (fun w => match w with String d _ => is_plain d = false | EmptyString => False end) l ->
    filter_map (fun w => strip_prefix w (String c s)) l = []) as Hl; [|by rewrite (Hl _ white_space_heads)].
  induction 1 as [|[|d w] l Hd _ IH]; [done|done|]. cbn. rewrite bool_decide_false; [done|]. intros ->. congruence.
Qed.

Lemma blank_prefix s : head (filter_map (fun w => strip_prefix w (String " " s)) white_space) = Some s.
Proof. reflexivity. Qed.

Lemma split_words_plain w : str_all is_plain w = true -> forall fuel s word,
  split_words (String.length w + fuel) (w ++ s)%string word = split_words fuel s (str_rev_onto w word).
Proof.
  induction w as [|c w IH]; intros Hw fuel s word; [done|]. cbn [str_all] in Hw. apply andb_prop in Hw as [Hc Hw].
  cbn [String.length Nat.add String.append split_words]. rewrite no_blank_prefix by done. cbn [str_rev_onto]. by apply IH.
Qed.

Definition is_word (w : string) : Prop := w <> EmptyString /\ str_all is_plain w = true.

Lemma flush_whole w : w <> EmptyString -> flush_word (str_rev_onto w EmptyString) = [w].
Proof.
  intros Hw. change (str_rev_onto w EmptyString) with (str_rev w). unfold flush_word. destruct (str_rev w) as [|c r] eqn:E.
  - destruct Hw. by rewrite <- (str_rev_involutive w), E.
  - by rewrite <- E, str_rev_involutive.
Qed.

(** Words joined by blanks split into those words. *)
Lemma split_whitespace_words w ws : Forall is_word (w :: ws) ->
  split_whitespace (foldl (fun s w => s ++ " " ++ w) w ws)%string = w :: ws.
Proof.
  assert (forall s : string, (foldl (fun s w => s ++ " " ++ w) s ws = s ++ foldr (fun w s => " " ++ w ++ s) "" ws)%string) as Hfold.
  { intros s. revert s. induction ws as [|x ws IH]; intros s; cbn [foldl foldr]; [by rewrite string_app_nil|].
    by rewrite IH, !string_app_assoc. }
  rewrite Hfold. clear Hfold. intros [Hw Hws]%Forall_cons_1. unfold split_whitespace.
  assert (forall fuel, (String.length (w ++ foldr (fun w s => " " ++ w ++ s) "" ws) <= fuel)%nat%string ->
    split_words (S fuel) (w ++ foldr (fun w s => " " ++ w ++ s) "" ws)%string EmptyString = w :: ws) as Hgo; [|by apply Hgo].
  revert w Hw. induction Hws as [|x ws Hx Hws IH]; intros w [Hne Hp] fuel; cbn [foldr].
  - rewrite string_app_nil. intros Hf. replace (S fuel) with (String.length w + S (fuel - String.length w))%nat by lia.
    pose proof (split_words_plain w Hp (S (fuel - String.length w)) EmptyString EmptyString) as E. rewrite string_app_nil in E.
    rewrite E. cbn. by rewrite flush_whole.
  - rewrite string_length_app. cbn [String.append String.length]. intros Hf.
    replace (S fuel) with (String.length w + S (fuel - String.length w))%nat by lia. rewrite split_words_plain by done.
    cbn [split_words]. rewrite blank_prefix, flush_whole by done. cbn [app]. f_equal.
    replace (fuel - String.length w)%nat with (S (fuel - String.length w - 1)) by lia.
    apply IH; [done|]. cbn [String.append]. lia.
Qed.

(** ** Decimal numbers of any size *)

Lemma pretty_digit d : (d < 10)%N -> to_digit (pretty_N_char d) = Some (Z.of_N d).
Proof.
  intros Hd. assert (d = 0 \/ d = 1 \/ d = 2 \/ d = 3 \/ d = 4 \/ d = 5 \/ d = 6 \/ d = 7 \/ d = 8 \/ d = 9)%N as Hcases by lia.
  repeat destruct Hcases as [->|Hcases]; [reflexivity..|]. by rewrite Hcases.
Qed.

Lemma parse_digits_pretty max x : forall s, Z.of_N x <= max -> parse_digits max 0 (pretty_N_go x s) = parse_digits max (Z.of_N x) s.
Proof.
  induction (N.lt_wf_0 x) as [x _ IH]. intros s Hmax. destruct (decide (x = 0%N)) as [->|Hx]; [done|].
  assert (Z.of_N (x `div` 10) * 10 + Z.of_N (x `mod` 10) = Z.of_N x) as E.
  { rewrite (N.div_mod x 10) at 3 by done. rewrite N2Z.inj_add, N2Z.inj_mul. lia. }
  assert (Z.of_N (x `div` 10) <= max) by (pose proof (N2Z.is_nonneg (x `div` 10)); pose proof (N2Z.is_nonneg (x `mod` 10)); nia).
  rewrite pretty_N_go_step by lia. rewrite IH; [|apply N.div_lt; lia|done].
  cbn [parse_digits]. rewrite pretty_digit by (apply N.mod_lt; lia). rewrite E. by rewrite (proj2 (Z.leb_le _ _) Hmax).
Qed.

Lemma pretty_go_shape x s : (0 < x)%N -> exists c r, pretty_N_go x s = String c r /\ is_Some (to_digit c).
Proof.
  revert s. induction (N.lt_wf_0 x) as [x _ IH]. intros s Hx. rewrite pretty_N_go_step by done.
  destruct (decide (x `div` 10 = 0)%N) as [->|Hd].
  - rewrite pretty_N_go_0. eexists _, _. split; [done|]. rewrite pretty_digit by (apply N.mod_lt; lia). by eexists.
  - apply IH; [apply N.div_lt; lia|by apply N.neq_0_lt_0].
Qed.

Lemma pretty_go_plain x : forall s, str_all is_plain s = true -> str_all is_plain (pretty_N_go x s) = true.
Proof.
  induction (N.lt_wf_0 x) as [x _ IH]. intros s Hs. destruct (decide (x = 0%N)) as [->|Hx]; [done|].
  rewrite pretty_N_go_step by lia. apply IH; [apply N.div_lt; lia|]. cbn [str_all]. rewrite Hs, andb_true_r.
  unfold pretty_N_char. by repeat case_match.
Qed.

Lemma pretty_Z_nonneg n : 0 <= n -> pretty n = pretty (Z.to_N n).
Proof. by destruct n. Qed.

(** [Display] and [FromStr] of an unsigned integer agree. *)
Lemma parse_uint_pretty max n : 0 <= n <= max -> parse_uint max (pretty n) = Some n.
Proof.
  intros Hn. rewrite pretty_Z_nonneg by lia. unfold pretty, pretty_N. case_decide as H0.
  - assert (n = 0) as -> by lia. change (parse_uint max _) with (if 0 * 10 + 0 <=? max then Some (0 * 10 + 0) else None). by rewrite (proj2 (Z.leb_le _ _)) by lia.
  - pose proof (parse_digits_pretty max (Z.to_N n) EmptyString ltac:(lia)) as E.
    destruct (pretty_go_shape (Z.to_N n) EmptyString) as (c & r & Er & Hc); [lia|]. rewrite Er in *. cbn [parse_uint].
    rewrite bool_decide_false; [|intros ->; by destruct Hc]. rewrite E. cbn. f_equal. lia.
Qed.

Lemma pretty_word n : 0 <= n -> is_word (pretty n).
Proof.
  intros Hn. rewrite pretty_Z_nonneg by lia. unfold pretty, pretty_N. case_decide as H0; [by repeat split|].
  destruct (pretty_go_shape (Z.to_N n) EmptyString) as (c & r & Er & _); [lia|]. split; [by rewrite Er|by apply pretty_go_plain].
Qed.

(** ** Cutting at a character *)

Lemma split_once_Some c s a b : split_once c s = Some (a, b) -> s = (a ++ String c b)%string /\ str_contains c a = false.
Proof.
  revert a b. induction s as [|d s IH]; intros a b; cbn; [done|]. case_bool_decide as Hd; [intros [= <- <-]; by subst|].
  destruct (split_once c s) as [[a' b']|]; [|done]. intros [= <- <-]. destruct (IH a' b' eq_refl) as [-> Ha]. cbn. by rewrite bool_decide_false.
Qed.
Lemma split_once_None c s : split_once c s = None <-> str_contains c s = false.
Proof.
  induction s as [|d s IH]; cbn; [done|]. case_bool_decide as Hd; [by cbn|]. cbn. rewrite <- IH. by destruct (split_once c s) as [[]|].
Qed.
Lemma str_contains_rev c s : str_contains c (str_rev s) = str_contains c s.
Proof.
  induction s as [|d s IH]; [done|]. unfold str_rev. cbn [str_rev_onto]. rewrite rev_onto_app, str_contains_app, IH. cbn.
  by rewrite orb_false_r, orb_comm.
Qed.
Lemma rsplit_once_app c (a b : string) : str_contains c b = false -> rsplit_once c (a ++ String c b)%string = Some (a, b).
Proof.
  intros Hb. unfold rsplit_once. rewrite str_rev_app.
  replace (str_rev (String c b)) with (str_rev b ++ String c EmptyString)%string by (unfold str_rev at 2; cbn [str_rev_onto]; by rewrite (rev_onto_app b)).
  rewrite string_app_assoc. cbn [String.append].
  rewrite split_once_app by (by rewrite str_contains_rev). by rewrite !str_rev_involutive.
Qed.
Lemma rsplit_once_None c s : str_contains c s = false -> rsplit_once c s = None.
Proof.
  intros Hs. unfold rsplit_once. by rewrite (proj2 (split_once_None _ _)) by (by rewrite str_contains_rev).
Qed.

(** ** Lower case *)

Lemma lower_ascii_idem c : lower_ascii (lower_ascii c) = lower_ascii c.
Proof. destruct c as [[] [] [] [] [] [] [] []]; reflexivity. Qed.
Lemma to_lower_idem s : to_ascii_lowercase (to_ascii_lowercase s) = to_ascii_lowercase s.
Proof. induction s as [|c s IH]; [done|]. cbn. by rewrite lower_ascii_idem, IH. Qed.
Lemma to_lower_app (a b : string) : to_ascii_lowercase (a ++ b)%string = (to_ascii_lowercase a ++ to_ascii_lowercase b)%string.
Proof. induction a as [|c a IH]; [done|]. cbn. by rewrite IH. Qed.
Lemma to_lower_rev s : to_ascii_lowercase (str_rev s) = str_rev (to_ascii_lowercase s).
Proof.
  induction s as [|c s IH]; [done|]. unfold str_rev. cbn [str_rev_onto to_ascii_lowercase]. by rewrite !rev_onto_app, to_lower_app, IH.
Qed.
Lemma lower_length s : String.length (to_ascii_lowercase s) = String.length s.
Proof. induction s as [|c s IH]; [done|]. cbn. by rewrite IH. Qed.
Lemma lower_dot c : lower_ascii c = "."%char <-> c = "."%char.
Proof. destruct c as [[] [] [] [] [] [] [] []]; split; intros E; try reflexivity; discriminate E. Qed.
Lemma strip_dots_lower n s : strip_while n ["."%string] (to_ascii_lowercase s) = to_ascii_lowercase (strip_while n ["."%string] s).
Proof.
  revert s. induction n as [|n IH]; intros s; [done|]. destruct s as [|c s]; [done|]. cbn [strip_while to_ascii_lowercase filter_map strip_prefix head].
  destruct (decide (c = "."%char)) as [->|Hc]; [apply IH|].
  rewrite !bool_decide_false; [done|congruence|]. intros E. apply Hc, lower_dot. by rewrite E.
Qed.
Lemma trim_dots_lower s : trim_end_matches "."%char (to_ascii_lowercase s) = to_ascii_lowercase (trim_end_matches "."%char s).
Proof. unfold trim_end_matches. by rewrite <- to_lower_rev, lower_length, strip_dots_lower, to_lower_rev. Qed.
