(* ===== verification/Bytes.v ===== *)
(** * Byte slices and results

    What the proxy's code uses of [&[u8]] and [Result]: byte literals and
    classes, the searches and splits of the slice library, and the error
    monad of the [?] operator.  Bytes are [Z]. *)

From stdpp Require Import base list strings numbers.
From Stdlib Require Import ZArith Lia Ascii.
From S2P Require Import Prelude.
Open Scope Z_scope.

(** ** [Result] *)

Inductive result (E A : Type) : Type :=
| Ok (a : A)
| Err (e : E).
Arguments Ok {E A} _.
Arguments Err {E A} _.

#[global] Instance result_ret {E} : MRet (result E) := fun A a => Ok a.
#[global] Instance result_bind {E} : MBind (result E) := fun A B f m =>
  match m with Ok a => f a | Err e => Err e end.

(** [Option::ok_or]. *)
Definition ok_or {E A} (e : E) (o : option A) : result E A :=
  match o with Some a => Ok a | None => Err e end.

Lemma result_bind_Ok {E A B} (m : result E A) (f : A -> result E B) b :
  (m ≫= f) = Ok b -> exists a, m = Ok a /\ f a = Ok b.
Proof. destruct m as [a|e]; simpl; [eauto|done]. Qed.

(** ** Literals and classes *)

(** A byte literal [b"..."]. *)
Fixpoint bytes (s : string) : list Z :=
  match s with
  | EmptyString => []
  | String c s => Z.of_nat (nat_of_ascii c) :: bytes s
  end.

Definition SP : Z := 32.
Definition HTAB : Z := 9.
Definition CR : Z := 13.
Definition LF : Z := 10.
Definition CRLF : list Z := [CR; LF].
Definition COLON : Z := 58.
Definition SEMICOLON : Z := 59.
Definition COMMA : Z := 44.

Definition in_range (lo hi b : Z) : bool := (lo <=? b) && (b <=? hi).
(** [u8::is_ascii_digit] and its siblings. *)
Definition is_digit (b : Z) : bool := in_range 48 57 b.
Definition is_upper (b : Z) : bool := in_range 65 90 b.
Definition is_lower (b : Z) : bool := in_range 97 122 b.
Definition is_hexdigit (b : Z) : bool := is_digit b || in_range 65 70 b || in_range 97 102 b.
Definition is_alphanumeric (b : Z) : bool := is_digit b || is_upper b || is_lower b.
Definition is_graphic (b : Z) : bool := in_range 33 126 b.

(** [u8::to_ascii_lowercase] and [eq_ignore_ascii_case]. *)
Definition byte_lower (b : Z) : Z := if is_upper b then b + 32 else b.
Definition lower (l : list Z) : list Z := map byte_lower l.
Definition eq_ignore_case (a b : list Z) : bool := bool_decide (lower a = lower b).

Definition contains_byte (l : list Z) (b : Z) : bool := bool_decide (b ∈ l).

(** ** Searches and splits *)

(** [iter().position(p)]. *)
Fixpoint position (p : Z -> bool) (l : list Z) : option nat :=
  match l with
  | [] => None
  | b :: l => if p b then Some 0%nat else S <$> position p l
  end.

Fixpoint starts_with (p l : list Z) : bool :=
  match p, l with
  | [], _ => true
  | a :: p, b :: l => (a =? b) && starts_with p l
  | _, [] => false
  end.

(** [windows(n).position(|w| w == pat)], with [n] the length of [pat], which
    is positive at every use. *)
Fixpoint find_window (pat l : list Z) : option nat :=
  if starts_with pat l then Some 0%nat
  else match l with
       | [] => None
       | _ :: l => S <$> find_window pat l
       end.

(** [split(|&b| b == sep)]: one more piece than there are separators. *)
Fixpoint split_byte (sep : Z) (l : list Z) : list (list Z) :=
  match l with
  | [] => [[]]
  | b :: l => if b =? sep then [] :: split_byte sep l
              else match split_byte sep l with
                   | piece :: rest => (b :: piece) :: rest
                   | [] => [[b]]
                   end
  end.

(** [slice.strip_suffix(suffix)]. *)
Definition strip_suffix_bytes (suffix l : list Z) : option (list Z) :=
  if (length suffix <=? length l)%nat && bool_decide (drop (length l - length suffix) l = suffix)
  then Some (take (length l - length suffix) l) else None.

(** [kept.join(sep)]. *)
Fixpoint join_bytes (sep : list Z) (l : list (list Z)) : list Z :=
  match l with
  | [] => []
  | [x] => x
  | x :: l => x ++ sep ++ join_bytes sep l
  end.

(** [iter().rposition(p)]. *)
Fixpoint rposition (p : Z -> bool) (l : list Z) : option nat :=
  match l with
  | [] => None
  | b :: l => match rposition p l with Some n => Some (S n) | None => if p b then Some 0%nat else None end
  end.

(** SHA-256, a library, and its documented digest. *)
Class Sha256 := { sha256 : list Z -> list Z }.
Class Sha256Laws `{Sha256} := { digest_bytes l : length (sha256 l) = 32%nat /\ Forall is_u8 (sha256 l) }.

(** ** Bytes and text *)

Definition string_of (l : list Z) : string := foldr (fun b s => String (ascii_of_nat (Z.to_nat b)) s) EmptyString l.

(** [std::str::from_utf8]: the well-formed sequences of the Unicode standard. *)
Definition continuation (b : Z) : bool := in_range 128 191 b.
Definition three_byte_lead (a b : Z) : bool :=
  ((a =? 224) && in_range 160 191 b) || (in_range 225 236 a && continuation b)
  || ((a =? 237) && in_range 128 159 b) || (in_range 238 239 a && continuation b).
Definition four_byte_lead (a b : Z) : bool :=
  ((a =? 240) && in_range 144 191 b) || (in_range 241 243 a && continuation b) || ((a =? 244) && in_range 128 143 b).
Fixpoint utf8_valid (l : list Z) : bool :=
  match l with
  | [] => true
  | a :: l1 =>
      if a <=? 127 then utf8_valid l1
      else
        match l1 with
        | [] => false
        | b :: l2 =>
            if in_range 194 223 a then continuation b && utf8_valid l2
            else
              match l2 with
              | [] => false
              | c :: l3 =>
                  if three_byte_lead a b then continuation c && utf8_valid l3
                  else
                    match l3 with
                    | [] => false
                    | d :: l4 => four_byte_lead a b && continuation c && continuation d && utf8_valid l4
                    end
              end
        end
  end.
Definition from_utf8 (l : list Z) : option string := if utf8_valid l then Some (string_of l) else None.

(** ** Lemmas *)

Lemma position_Some p l n :
  position p l = Some n -> exists a b r, l = a ++ b :: r /\ length a = n /\ p b = true /\ forallb (fun x => negb (p x)) a = true.
Proof.
  revert n. induction l as [|x l IH]; intros n; simpl; [done|].
  destruct (p x) eqn:Hx.
  - intros [= <-]. by exists [], x, l.
  - destruct (position p l) as [m|]; simpl; [|done]. intros [= <-].
    destruct (IH m eq_refl) as (a & b & r & -> & <- & Hb & Ha). exists (x :: a), b, r. simpl. by rewrite Hx.
Qed.

Lemma position_None p l : position p l = None <-> forallb (fun x => negb (p x)) l = true.
Proof.
  induction l as [|x l IH]; simpl; [done|]. destruct (p x); simpl; [done|].
  destruct (position p l); simpl; naive_solver.
Qed.

Lemma position_app p a b r :
  forallb (fun x => negb (p x)) a = true -> p b = true -> position p (a ++ b :: r) = Some (length a).
Proof.
  induction a as [|x a IH]; simpl; [by intros _ ->|]. intros [Hx Ha]%andb_prop Hb.
  apply negb_true_iff in Hx. rewrite Hx, IH by done. done.
Qed.

Lemma starts_with_iff p l : starts_with p l = true <-> exists r, l = p ++ r.
Proof.
  revert l. induction p as [|a p IH]; intros l; simpl; [naive_solver|].
  destruct l as [|b l]; [naive_solver|]. rewrite andb_true_iff, Z.eqb_eq, IH. naive_solver.
Qed.

Lemma starts_with_app p l : starts_with p (p ++ l) = true.
Proof. apply starts_with_iff. eauto. Qed.

Lemma find_window_Some pat l n :
  find_window pat l = Some n -> exists a r, l = a ++ pat ++ r /\ length a = n.
Proof.
  revert n. induction l as [|x l IH]; intros n; simpl.
  - destruct (starts_with pat []) eqn:E; [|done]. intros [= <-]. apply starts_with_iff in E as [r E]. by exists [], r.
  - destruct (starts_with pat (x :: l)) eqn:E.
    + intros [= <-]. apply starts_with_iff in E as [r E]. by exists [], r.
    + destruct (find_window pat l) as [m|]; simpl; [|done]. intros [= <-].
      destruct (IH m eq_refl) as (a & r & -> & <-). by exists (x :: a), r.
Qed.

(** The window found is the first: no earlier position carries it. *)
Lemma find_window_first pat l n a r :
  find_window pat l = Some n -> l = a ++ pat ++ r -> (n <= length a)%nat.
Proof.
  revert n a. induction l as [|x l IH]; intros n a; simpl.
  - destruct (starts_with pat []); [|done]. intros [= <-] _. lia.
  - destruct (starts_with pat (x :: l)) eqn:E.
    + intros [= <-] _. lia.
    + destruct (find_window pat l) as [m|] eqn:Hm; simpl; [|done]. intros [= <-] Hl.
      destruct a as [|y a]; simpl in Hl.
      { rewrite Hl in E. by rewrite starts_with_app in E. }
      injection Hl as _ Hl. specialize (IH m a eq_refl Hl). simpl. lia.
Qed.

Lemma find_window_None pat l a r : find_window pat l = None -> l <> a ++ pat ++ r.
Proof.
  revert a. induction l as [|x l IH]; intros a; simpl.
  - destruct (starts_with pat []) eqn:E; [done|]. intros _ Hl. destruct a; [|done]. simpl in Hl.
    rewrite Hl in E. by rewrite starts_with_app in E.
  - destruct (starts_with pat (x :: l)) eqn:E; [done|].
    destruct (find_window pat l) as [m|] eqn:Hm; simpl; [done|]. intros _ Hl.
    destruct a as [|y a]; simpl in Hl.
    + rewrite Hl in E. by rewrite starts_with_app in E.
    + injection Hl as _ Hl. by apply (IH a eq_refl).
Qed.

Lemma split_byte_nonempty sep l : split_byte sep l <> [].
Proof. destruct l as [|b l]; simpl; [done|]. destruct (b =? sep); [done|]. by destruct (split_byte sep l). Qed.

Lemma split_byte_single sep l : sep ∉ l -> split_byte sep l = [l].
Proof.
  induction l as [|b l IH]; simpl; [done|]. rewrite not_elem_of_cons. intros [Hb Hl].
  destruct (Z.eqb_spec b sep); [congruence|]. by rewrite IH.
Qed.

Lemma split_byte_app sep a l : sep ∉ a -> split_byte sep (a ++ sep :: l) = a :: split_byte sep l.
Proof.
  induction a as [|b a IH]; simpl; [by rewrite Z.eqb_refl|]. rewrite not_elem_of_cons. intros [Hb Ha].
  destruct (Z.eqb_spec b sep); [congruence|]. by rewrite IH.
Qed.

(** Every piece is free of the separator, and joining gives the slice back. *)
Lemma split_byte_join sep l : join_bytes [sep] (split_byte sep l) = l.
Proof.
  induction l as [|b l IH]; [done|]. simpl. destruct (Z.eqb_spec b sep) as [->|Hb].
  - pose proof (split_byte_nonempty sep l). simpl. destruct (split_byte sep l) as [|p ps]; [done|]. by rewrite IH.
  - pose proof (split_byte_nonempty sep l). destruct (split_byte sep l) as [|p ps]; [done|].
    simpl in *. destruct ps; simpl in *; by rewrite IH.
Qed.

Lemma split_byte_pieces sep l p : p ∈ split_byte sep l -> sep ∉ p.
Proof.
  revert p. induction l as [|b l IH]; intros p; simpl.
  - intros ->%list_elem_of_singleton. apply not_elem_of_nil.
  - destruct (Z.eqb_spec b sep) as [->|Hb].
    + intros [->|Hp]%elem_of_cons; [apply not_elem_of_nil|by apply IH].
    + destruct (split_byte sep l) as [|q qs].
      * intros ->%list_elem_of_singleton. rewrite list_elem_of_singleton. congruence.
      * intros [->|Hp]%elem_of_cons; [|apply IH; by right]. rewrite not_elem_of_cons.
        split; [congruence|]. apply IH. by left.
Qed.

Lemma lower_app a b : lower (a ++ b) = lower a ++ lower b.
Proof. apply map_app. Qed.

Lemma byte_lower_idem b : byte_lower (byte_lower b) = byte_lower b.
Proof.
  unfold byte_lower, is_upper, in_range. destruct ((65 <=? b) && (b <=? 90)) eqn:E; [|by rewrite E].
  apply andb_prop in E as [?%Z.leb_le ?%Z.leb_le].
  destruct ((65 <=? b + 32) && (b + 32 <=? 90)) eqn:E'; [|done].
  apply andb_prop in E' as [_ ?%Z.leb_le]. lia.
Qed.

Lemma lower_idem l : lower (lower l) = lower l.
Proof. unfold lower. rewrite map_map. apply map_ext, byte_lower_idem. Qed.

(** ** Text as bytes *)

Lemma bytes_app_str (a b : string) : bytes (a ++ b)%string = bytes a ++ bytes b.
Proof. induction a as [|c a IH]; [done|]. change (bytes (String c (a ++ b)%string) = bytes (String c a) ++ bytes b). cbn [bytes app]. by rewrite IH. Qed.

Lemma bytes_u8 s : Forall is_u8 (bytes s).
Proof. induction s as [|c s IH]; constructor; [|done]. pose proof (nat_ascii_bounded c). unfold is_u8. lia. Qed.

Lemma length_bytes s : length (bytes s) = String.length s.
Proof. induction s as [|c s IH]; cbn; congruence. Qed.

Lemma string_of_bytes s : string_of (bytes s) = s.
Proof. induction s as [|c s IH]; [done|]. unfold string_of in *. cbn [bytes foldr]. by rewrite Nat2Z.id, ascii_nat_embedding, IH. Qed.

Lemma bytes_string_of l : Forall is_u8 l -> bytes (string_of l) = l.
Proof.
  induction 1 as [|b l [Hlo Hhi] _ IH]; [done|]. change (string_of (b :: l)) with (String (ascii_of_nat (Z.to_nat b)) (string_of l)).
  cbn [bytes]. rewrite IH, nat_ascii_embedding by lia. f_equal. lia.
Qed.

Lemma bytes_inj a b : bytes a = bytes b -> a = b.
Proof. intros E. by rewrite <- (string_of_bytes a), E, string_of_bytes. Qed.

(** ** The end of a slice *)

Lemma strip_suffix_bytes_app suffix l : strip_suffix_bytes suffix (l ++ suffix) = Some l.
Proof.
  unfold strip_suffix_bytes. rewrite length_app. replace (length l + length suffix - length suffix)%nat with (length l) by lia.
  rewrite drop_app_length, take_app_length, bool_decide_true by done. replace (_ <=? _)%nat with true; [done|]. symmetry. apply Nat.leb_le. lia.
Qed.

Lemma strip_suffix_bytes_Some suffix l r : strip_suffix_bytes suffix l = Some r <-> l = r ++ suffix.
Proof.
  split; [|intros ->; apply strip_suffix_bytes_app]. unfold strip_suffix_bytes. destruct (_ <=? _)%nat; [|done].
  case_bool_decide as E; [|done]. cbn [andb]. intros [= <-]. rewrite <- E at 2. by rewrite take_drop.
Qed.

Lemma rposition_Some p l n : rposition p l = Some n <->
  exists a b c, l = a ++ b :: c /\ length a = n /\ p b = true /\ forallb (fun x => negb (p x)) c = true.
Proof.
  revert n. induction l as [|x l IH]; intros n; cbn [rposition].
  - split; [done|]. intros (a & b & c & E & _). by destruct a.
  - destruct (rposition p l) as [m|] eqn:Em.
    + split.
      * intros [= <-]. destruct (proj1 (IH m) eq_refl) as (a & b & c & -> & <- & Hb & Hc). by exists (x :: a), b, c.
      * intros ([|y a] & b & c & E & <- & Hb & Hc); injection E as -> ->.
        -- assert (exists a' b' c', c = a' ++ b' :: c' /\ p b' = true) as (a' & b' & c' & -> & Hb').
           { destruct (proj1 (IH m) eq_refl) as (a' & b' & c' & -> & _ & ? & _). eauto. }
           rewrite forallb_app in Hc. cbn in Hc. rewrite Hb' in Hc. by rewrite andb_false_r in Hc.
        -- f_equal. assert (Some m = Some (length a)) as [= ->]; [|done]. apply IH. eauto 10.
    + destruct (p x) eqn:Ex.
      * split.
        -- intros [= <-]. exists [], x, l. repeat split; [done|]. clear IH. induction l as [|y l IH]; [done|]. cbn in Em |- *.
           destruct (rposition p l); [done|]. destruct (p y); [done|]. by apply IH.
        -- intros ([|y a] & b & c & E & <- & Hb & Hc); injection E as -> ->; [done|]. assert (None = Some (length a)); [|done]. apply IH. eauto 10.
      * split; [done|]. intros ([|y a] & b & c & E & <- & Hb & Hc); injection E as -> ->; [congruence|].
        assert (None = Some (length a)); [|done]. apply IH. eauto 10.
Qed.

Lemma rposition_None p l : rposition p l = None <-> forallb (fun x => negb (p x)) l = true.
Proof.
  induction l as [|x l IH]; [done|]. cbn. destruct (rposition p l) as [n|] eqn:E.
  - split; [done|]. intros [_ Hl]%andb_prop. by apply IH in Hl.
  - rewrite (proj1 IH eq_refl), andb_true_r. by destruct (p x).
Qed.

Lemma split_byte_snoc sep l : split_byte sep (l ++ [sep]) = split_byte sep l ++ [[]].
Proof.
  induction l as [|b l IH]; cbn; [by rewrite Z.eqb_refl|]. destruct (b =? sep); [by rewrite IH|].
  rewrite IH. by destruct (split_byte sep l) eqn:E; [destruct (split_byte_nonempty sep l)|].
Qed.

Lemma split_byte_mid sep a b : split_byte sep (a ++ sep :: b) = split_byte sep a ++ split_byte sep b.
Proof.
  induction a as [|x a IH]; cbn [app split_byte]; [by rewrite Z.eqb_refl|]. destruct (x =? sep); [by rewrite IH|].
  rewrite IH. by destruct (split_byte sep a) eqn:E; [destruct (split_byte_nonempty sep a)|].
Qed.
