(* ===== verification/Http.v ===== *)
(** * The proxy's HTTP/1.1 request path (crates/bep/src/http.rs)

    The strict head parser, the canonical serializer, and the relay of one
    box connection's requests.  The box's reader is the transcript of what its
    reads return; the upstream writer is an instance of [Write].  A [String]
    the code builds from checked ASCII bytes is those bytes. *)

From stdpp Require Import base list strings numbers.
From Stdlib Require Import ZArith Lia.
From S2P Require Import Prelude Bytes.
Open Scope Z_scope.

(** ** Constants *)

Definition H2_PREFACE : list Z :=
  bytes "PRI * HTTP/2.0" ++ CRLF ++ CRLF ++ bytes "SM" ++ CRLF ++ CRLF.
Definition MAX_HEAD_LEN : nat := N.to_nat (64 * 1024).
Definition FRAMING_AMBIGUOUS : string := "framing_ambiguous".
Definition MAX_CHUNK_LINE_LEN : nat := N.to_nat 4096.
Definition H2_PREFACE_LINE : list Z := bytes "PRI * HTTP/2.0".

(** ** Data *)

Record Header : Type := { h_name : list Z; h_value : list Z }.

Inductive BodyFraming : Type :=
| BfNone
| BfContentLength (n : Z)
| BfChunked.

Record Request : Type := {
  rq_method : list Z;
  rq_target : list Z;
  rq_headers : list Header;
  rq_body : BodyFraming;
}.

Record Response : Type := {
  rp_minor_version : Z;
  rp_status : Z;
  rp_reason : list Z;
  rp_headers : list Header;
  rp_body : BodyFraming;
}.

Inductive Ambiguity : Type :=
| ContentLengthWithTransferEncoding
| DuplicateContentLength
| InvalidContentLength
| ObsoleteLineFold
| TransferCodingNotFinalChunked
| ConnectionNamesFramingHeader.

(** [io::ErrorKind], of which the code tells [Interrupted] apart. *)
Inductive ErrorKind : Type := EkInterrupted | EkOther (code : Z).

Inductive CloseReason : Type :=
| H2Preface
| FramingAmbiguous (a : Ambiguity)
| Malformed (rule : string)
| HeadTooLarge
| Eof
| BodyEof
| ClientClosed
| IoErr (kind : ErrorKind)
| ProtocolSwitch (rest : list Z).

Inductive Parse (T : Type) : Type :=
| Complete (head : T) (head_len : nat)
| Partial.
Arguments Complete {T} _ _.
Arguments Partial {T}.

Record AuditEvent : Type := { ae_box_id : string; ae_marker : string; ae_rule : string }.

Record Forwarded : Type := { fw_request : Request; fw_rest : list Z }.

#[global] Instance Header_eq_dec : EqDecision Header.
Proof. solve_decision. Defined.
#[global] Instance BodyFraming_eq_dec : EqDecision BodyFraming.
Proof. solve_decision. Defined.

(** [Ambiguity::rule], [CloseReason::rule], [CloseReason::audit_marker]. *)
Definition ambiguity_rule (a : Ambiguity) : string :=
  match a with
  | ContentLengthWithTransferEncoding => "content_length_with_transfer_encoding"
  | DuplicateContentLength => "duplicate_content_length"
  | InvalidContentLength => "invalid_content_length"
  | ObsoleteLineFold => "obsolete_line_fold"
  | TransferCodingNotFinalChunked => "transfer_coding_not_final_chunked"
  | ConnectionNamesFramingHeader => "connection_names_framing_header"
  end.
Definition close_rule (r : CloseReason) : string :=
  match r with
  | H2Preface => "h2_prior_knowledge_preface"
  | FramingAmbiguous a => ambiguity_rule a
  | Malformed rule => rule
  | HeadTooLarge => "head_too_large"
  | Eof => "eof_before_head_end"
  | BodyEof => "eof_before_body_end"
  | ClientClosed => "client_closed"
  | IoErr _ => "io_error"
  | ProtocolSwitch _ => "protocol_switch_requested"
  end.
Definition audit_marker (r : CloseReason) : option string :=
  match r with FramingAmbiguous _ => Some FRAMING_AMBIGUOUS | _ => None end.

(** ** Bytes and lists of a field *)

Definition is_tchar (b : Z) : bool := is_alphanumeric b || contains_byte (bytes "!#$%&'*+-.^_`|~") b.
Definition is_field_byte (b : Z) : bool := (b =? SP) || (b =? HTAB) || is_graphic b || (128 <=? b).

Definition is_ows (b : Z) : bool := (b =? SP) || (b =? HTAB).
Fixpoint trim_ows_start (v : list Z) : list Z :=
  match v with
  | b :: rest => if is_ows b then trim_ows_start rest else v
  | [] => []
  end.
(** The second loop of [trim_ows], from the end of the slice. *)
Fixpoint trim_ows_end (v : list Z) : list Z :=
  match v with
  | [] => []
  | b :: rest => match trim_ows_end rest with
                 | [] => if is_ows b then [] else [b]
                 | kept => b :: kept
                 end
  end.
Definition trim_ows (v : list Z) : list Z := trim_ows_end (trim_ows_start v).

Definition values (headers : list Header) (name : string) : list (list Z) :=
  map h_value (filter (fun h => h_name h = bytes name) headers).

Definition list_elements (vs : list (list Z)) : list (list Z) :=
  filter (fun e => e <> []) (map trim_ows (vs ≫= split_byte COMMA)).

Definition has_empty_element (headers : list Header) (name : string) : bool :=
  existsb (fun v => existsb (fun e => bool_decide (trim_ows e = [])) (split_byte COMMA v)) (values headers name).

Definition has_header (headers : list Header) (name : string) : bool :=
  existsb (fun h => bool_decide (h_name h = bytes name)) headers.

(** ** Serialization *)

Definition write_header (h : Header) : list Z := h_name h ++ bytes ": " ++ h_value h ++ CRLF.
Definition write_headers (headers : list Header) : list Z := (headers ≫= write_header) ++ CRLF.

(** [Request::serialize], [Request::switches_protocol]. *)
Definition serialize_request (r : Request) : list Z :=
  rq_method r ++ [SP] ++ rq_target r ++ bytes " HTTP/1.1" ++ CRLF ++ write_headers (rq_headers r).
Definition switches_protocol (r : Request) : bool :=
  bool_decide (rq_method r = bytes "CONNECT") || has_header (rq_headers r) "upgrade".

(** [Response::serialize] ([{:03}] of a three-digit status) and
    [Response::strip_alt_svc]. *)
Definition digit_byte (d : Z) : Z := 48 + d.
Definition show_status (n : Z) : list Z :=
  [digit_byte (n / 100); digit_byte (n / 10 mod 10); digit_byte (n mod 10)].
Definition serialize_response (r : Response) : list Z :=
  bytes "HTTP/1." ++ [digit_byte (rp_minor_version r)] ++ [SP] ++ show_status (rp_status r) ++ [SP]
  ++ rp_reason r ++ CRLF ++ write_headers (rp_headers r).
Definition strip_alt_svc (r : Response) : Response :=
  {| rp_minor_version := rp_minor_version r; rp_status := rp_status r; rp_reason := rp_reason r;
     rp_headers := filter (fun h => h_name h <> bytes "alt-svc") (rp_headers r); rp_body := rp_body r |}.

(** ** Lines *)

Definition is_h2_preface_start (buf : list Z) : bool :=
  let line := Nat.min (length H2_PREFACE) (length H2_PREFACE_LINE + 2) in
  (line <=? length buf)%nat && starts_with (take line H2_PREFACE) buf.

Definition head_end (buf : list Z) : result CloseReason (option nat) :=
  let limit := Nat.min (length buf) MAX_HEAD_LEN in
  match find_window (CRLF ++ CRLF) (take limit buf) with
  | Some pos => Ok (Some (pos + 4)%nat)
  | None => if (MAX_HEAD_LEN <=? length buf)%nat then Err HeadTooLarge else Ok None
  end.

Definition bare_cr_or_lf (line : list Z) : bool := existsb (fun b => (b =? CR) || (b =? LF)) line.

(** The iterator [head_lines], unrolled: a head of [n] bytes has at most
    [n + 1] lines. *)
Fixpoint head_lines_from (fuel : nat) (current : list Z) : list (result CloseReason (list Z)) :=
  match fuel with
  | O => []
  | S fuel =>
      let '(line, next) := match find_window CRLF current with
                           | Some pos => (take pos current, Some (drop (pos + 2) current))
                           | None => (current, None)
                           end in
      (if bare_cr_or_lf line then Err (Malformed "bare_cr_or_lf") else Ok line)
        :: match next with Some next => head_lines_from fuel next | None => [] end
  end.
Definition head_lines (head : list Z) : list (result CloseReason (list Z)) :=
  head_lines_from (S (length head)) head.

Definition parse_request_line (line : list Z) : result CloseReason (list Z * list Z) :=
  match split_byte SP line with
  | [method; target; version] =>
      if bool_decide (method = []) || negb (forallb is_tchar method) then Err (Malformed "method")
      else if bool_decide (target = []) || negb (forallb is_graphic target) then Err (Malformed "request_target")
      else if negb (bool_decide (version = bytes "HTTP/1.1")) then Err (Malformed "http_version")
      else Ok (method, target)
  | _ => Err (Malformed "request_line")
  end.

Definition parse_status_line (line : list Z) : result CloseReason (Z * Z * list Z) :=
  let malformed := Malformed "status_line" in
  minor ← (if (9 <=? length line)%nat then
             if bool_decide (take 9 line = bytes "HTTP/1.1 ") then Ok 1
             else if bool_decide (take 9 line = bytes "HTTP/1.0 ") then Ok 0
             else Err malformed
           else Err malformed);
  if (12 <=? length line)%nat then
    let code := take 3 (drop 9 line) in
    if negb (forallb is_digit code) then Err malformed
    else
      let status := foldl (fun acc d => acc * 10 + (d - 48)) 0 code in
      match drop 12 line with
      | [] => Ok (minor, status, [])
      | b :: rest => if (b =? SP) && forallb is_field_byte rest then Ok (minor, status, rest) else Err malformed
      end
  else Err malformed.

Definition parse_header (line : list Z) : result CloseReason Header :=
  if match line with b :: _ => is_ows b | [] => false end then Err (FramingAmbiguous ObsoleteLineFold)
  else
    colon ← ok_or (Malformed "header_without_colon") (position (fun b => b =? COLON) line);
    let name := take colon line in
    if bool_decide (name = []) || negb (forallb is_tchar name) then Err (Malformed "header_name")
    else
      let value := trim_ows (drop (colon + 1) line) in
      if negb (forallb is_field_byte value) then Err (Malformed "header_value")
      else Ok {| h_name := lower name; h_value := value |}.

Fixpoint parse_headers (lines : list (result CloseReason (list Z))) : result CloseReason (list Header) :=
  match lines with
  | [] => Ok []
  | line :: lines =>
      line ← line;
      h ← parse_header line;
      rest ← parse_headers lines;
      Ok (h :: rest)
  end.

(** ** Framing *)

(** [u64::checked_mul] and [checked_add] by one digit of a base. *)
Definition checked_digit (base acc d : Z) : option Z :=
  if acc * base + d <=? 18446744073709551615 then Some (acc * base + d) else None.

Fixpoint checked_digits (base : Z) (value : Z -> Z) (acc : Z) (l : list Z) : option Z :=
  match l with
  | [] => Some acc
  | d :: l => match checked_digit base acc (value d) with
              | Some acc => checked_digits base value acc l
              | None => None
              end
  end.

Definition parse_length (digits : list Z) : option Z :=
  if bool_decide (digits = []) || (19 <? length digits)%nat || negb (forallb is_digit digits) then None
  else checked_digits 10 (fun d => d - 48) 0 digits.

Definition framing (headers : list Header) : result CloseReason BodyFraming :=
  let ambiguous a := Err (FramingAmbiguous a) in
  let lengths := list_elements (values headers "content-length") in
  let has_length_header := has_header headers "content-length" in
  let has_te := has_header headers "transfer-encoding" in
  let names_framing :=
    existsb (fun t => eq_ignore_case t (bytes "content-length") || eq_ignore_case t (bytes "transfer-encoding"))
      (list_elements (values headers "connection")) in
  if names_framing then ambiguous ConnectionNamesFramingHeader
  else if has_length_header && has_te then ambiguous ContentLengthWithTransferEncoding
  else if has_empty_element headers "content-length" then ambiguous InvalidContentLength
  else if has_empty_element headers "transfer-encoding" then ambiguous TransferCodingNotFinalChunked
  else if has_te then
    match list_elements (values headers "transfer-encoding") with
    | [only] => if eq_ignore_case only (bytes "chunked") then Ok BfChunked
                else ambiguous TransferCodingNotFinalChunked
    | _ => ambiguous TransferCodingNotFinalChunked
    end
  else if negb has_length_header then Ok BfNone
  else match lengths with
       | [one] => ok_or (FramingAmbiguous InvalidContentLength) (BfContentLength <$> parse_length one)
       | [] => ambiguous InvalidContentLength
       | _ => ambiguous DuplicateContentLength
       end.

(** ** Authorities *)

Definition absolute_form_authority (target : list Z) : option (string * list Z) :=
  let authority scheme rest :=
    Some (scheme, take (default (length rest)
                          (position (fun b => (b =? 47) || (b =? 63) || (b =? 35)) rest)) rest) in
  if (7 <? length target)%nat && eq_ignore_case (take 7 target) (bytes "http://") then
    authority "http"%string (drop 7 target)
  else if (8 <? length target)%nat && eq_ignore_case (take 8 target) (bytes "https://") then
    authority "https"%string (drop 8 target)
  else None.

Definition is_host_authority (value : list Z) : bool :=
  let port_ok (port : list Z) :=
    match port with
    | [] => true
    | b :: digits => (b =? COLON) && (length digits <=? 5)%nat
                     && match parse_length digits with Some p => p <=? 65535 | None => false end
    end in
  match value with
  | 91 :: _ =>
      match position (fun b => b =? 93) value with
      | None => false
      | Some close =>
          let literal := take (close - 1) (drop 1 value) in
          if bool_decide (literal = [])
             || negb (forallb (fun b => is_hexdigit b || (b =? COLON) || (b =? 46)) literal) then false
          else port_ok (drop (close + 1) value)
      end
  | _ =>
      let end_ := default (length value) (position (fun b => b =? COLON) value) in
      let host := take end_ value in
      if bool_decide (host = [])
         || negb (forallb (fun b => is_alphanumeric b || contains_byte (bytes "-._~") b) host) then false
      else port_ok (drop end_ value)
  end.

Definition is_connect_authority (target : list Z) : bool :=
  let host_end := match target with
                  | 91 :: _ => match position (fun b => b =? 93) target with Some i => (i + 1)%nat | None => 0%nat end
                  | _ => default (length target) (position (fun b => b =? COLON) target)
                  end in
  bool_decide (target !! host_end = Some COLON) && is_host_authority target.

Definition same_authority (scheme : string) (authority host : list Z) : bool :=
  let default_port := if String.eqb scheme "https" then bytes ":443" else bytes ":80" in
  let normal a := lower (default a (strip_suffix_bytes default_port a)) in
  negb (contains_byte authority 64) && negb (bool_decide (authority = []))
  && bool_decide (normal authority = normal host).

(** ** The h2c strip *)

Definition join_without (value : list Z) (dropped : list (list Z)) : list Z :=
  join_bytes (bytes ", ")
    (filter (fun t => existsb (eq_ignore_case t) dropped = false) (list_elements [value])).

Definition set_value (h : Header) (v : list Z) : Header := {| h_name := h_name h; h_value := v |}.

Definition strip_h2c (headers : list Header) : list Header :=
  if negb (existsb (fun t => eq_ignore_case t (bytes "h2c")) (list_elements (values headers "upgrade"))) then headers
  else
    let headers := map (fun h => if bool_decide (h_name h = bytes "upgrade")
                                 then set_value h (join_without (h_value h) [bytes "h2c"]) else h) headers in
    let upgrade_left := existsb (fun h => bool_decide (h_name h = bytes "upgrade")
                                          && negb (bool_decide (h_value h = []))) headers in
    let dropped := if upgrade_left then [bytes "http2-settings"]
                   else [bytes "http2-settings"; bytes "upgrade"] in
    let headers := map (fun h => if bool_decide (h_name h = bytes "connection")
                                 then set_value h (join_without (h_value h) dropped) else h) headers in
    filter (fun h => negb (bool_decide (h_name h = bytes "http2-settings"))
                     && negb ((bool_decide (h_name h = bytes "upgrade") || bool_decide (h_name h = bytes "connection"))
                              && bool_decide (h_value h = [])) = true) headers.

(** ** Heads *)

(** The checks of [parse_request] on a head's own lines. *)
Definition request_of_lines (lines : list (result CloseReason (list Z))) : result CloseReason Request :=
  first ← match lines with first :: _ => first | [] => Ok [] end;
  if bool_decide (first = H2_PREFACE_LINE) then Err H2Preface
  else
    mt ← parse_request_line first;
    let '(method, target) := mt : list Z * list Z in
    headers ← parse_headers (tail lines);
    if (1 <? length (values headers "host"))%nat then Err (Malformed "duplicate_host")
    else
      body ← framing headers;
      match values headers "host" with
      | [] => Err (Malformed "missing_host")
      | host :: _ =>
          if negb (is_host_authority host) then Err (Malformed "invalid_host")
          else if match absolute_form_authority target with
                  | Some (scheme, authority) => negb (same_authority scheme authority host)
                  | None => false
                  end then Err (Malformed "target_host_mismatch")
          else if bool_decide (method = bytes "CONNECT")
                  && negb (is_connect_authority target && same_authority "https" target host)
          then Err (Malformed "target_host_mismatch")
          else if existsb (fun t => eq_ignore_case t (bytes "host")) (list_elements (values headers "connection"))
          then Err (Malformed "connection_names_host")
          else Ok {| rq_method := method; rq_target := target; rq_headers := strip_h2c headers; rq_body := body |}
      end.

Definition parse_request (buf : list Z) : result CloseReason (Parse Request) :=
  if is_h2_preface_start buf then Err H2Preface
  else
    he ← head_end buf;
    match he with
    | None => Ok Partial
    | Some head_len =>
        r ← request_of_lines (head_lines (take (head_len - 4) buf));
        Ok (Complete r head_len)
    end.

Definition response_of_lines (lines : list (result CloseReason (list Z))) : result CloseReason Response :=
  first ← match lines with first :: _ => first | [] => Ok [] end;
  st ← parse_status_line first;
  let '(minor_version, status, reason) := st : Z * Z * list Z in
  headers ← parse_headers (tail lines);
  body ← framing headers;
  Ok {| rp_minor_version := minor_version; rp_status := status; rp_reason := reason;
        rp_headers := headers; rp_body := body |}.

Definition parse_response (buf : list Z) : result CloseReason (Parse Response) :=
  he ← head_end buf;
  match he with
  | None => Ok Partial
  | Some head_len =>
      r ← response_of_lines (head_lines (take (head_len - 4) buf));
      Ok (Complete r head_len)
  end.
