(* ===== verification/HttpProps.v ===== *)
(** * The proxy forwards one reading of a head (crates/bep/src/http.rs)

    The canonical serialization of an accepted head parses back to itself
    whatever follows it, and its framing has a single reading. *)

From stdpp Require Import base list strings numbers.
From Stdlib Require Import ZArith Lia.
From S2P Require Import Prelude Bytes Http.
Open Scope Z_scope.

(** ** Byte classes *)

(** A byte of a class differs from a byte outside it. *)
Ltac not_in_class := let H := fresh in let E := fresh in intros H E; rewrite E in H; vm_compute in H; discriminate H.

Lemma tchar_not_sp b : is_tchar b = true -> b <> SP.
Proof. not_in_class. Qed.
Lemma tchar_not_ows b : is_tchar b = true -> is_ows b = false.
Proof.
  intros H. unfold is_ows. destruct (Z.eqb_spec b SP) as [->|_]; [vm_compute in H; done|].
  destruct (Z.eqb_spec b HTAB) as [->|_]; [vm_compute in H; done|done].
Qed.
Lemma tchar_not_colon b : is_tchar b = true -> b <> COLON.
Proof. not_in_class. Qed.
Lemma tchar_not_cr b : is_tchar b = true -> b <> CR.
Proof. not_in_class. Qed.
Lemma tchar_not_lf b : is_tchar b = true -> b <> LF.
Proof. not_in_class. Qed.
Lemma graphic_not_sp b : is_graphic b = true -> b <> SP.
Proof. not_in_class. Qed.
Lemma graphic_not_cr b : is_graphic b = true -> b <> CR.
Proof. not_in_class. Qed.
Lemma graphic_not_lf b : is_graphic b = true -> b <> LF.
Proof. not_in_class. Qed.
Lemma field_not_cr b : is_field_byte b = true -> b <> CR.
Proof. not_in_class. Qed.
Lemma field_not_lf b : is_field_byte b = true -> b <> LF.
Proof. not_in_class. Qed.

Lemma tchar_lower b : is_tchar b = true -> is_tchar (byte_lower b) = true.
Proof.
  intros H. unfold byte_lower. destruct (is_upper b) eqn:E; [|done].
  unfold is_upper, in_range in E. bool_to_prop. unfold is_tchar, is_alphanumeric, is_lower, in_range.
  rewrite (proj2 (Z.leb_le 97 (b + 32))), (proj2 (Z.leb_le (b + 32) 122)) by lia.
  by rewrite !orb_true_r.
Qed.

#[export] Hint Resolve tchar_not_sp tchar_not_colon tchar_not_cr tchar_not_lf graphic_not_sp graphic_not_cr
  graphic_not_lf field_not_cr field_not_lf tchar_lower : minimal.

(** A slice all of whose bytes avoid [x] does not contain it. *)
Lemma forallb_not_elem (p : Z -> bool) x l :
  (forall b, p b = true -> b <> x) -> forallb p l = true -> x ∉ l.
Proof. intros Hp Hl Hx. rewrite forallb_forall in Hl. apply list_elem_of_In in Hx. by apply (Hp x (Hl x Hx)). Qed.

Lemma forallb_elem (p : Z -> bool) l : forallb p l = true <-> forall b, b ∈ l -> p b = true.
Proof. rewrite forallb_forall. split; intros Hp b Hb; apply Hp; by apply list_elem_of_In. Qed.

(** ** Trimming *)

Lemma trim_start_sub v b : b ∈ trim_ows_start v -> b ∈ v.
Proof. induction v as [|a v IH]; simpl; [done|]. destruct (is_ows a); [|done]. intros. right. auto. Qed.

Lemma trim_end_sub v b : b ∈ trim_ows_end v -> b ∈ v.
Proof.
  induction v as [|a v IH]; simpl; [done|]. destruct (trim_ows_end v) as [|k ks].
  - destruct (is_ows a); [intros []%elem_of_nil|]. intros ->%list_elem_of_singleton. by left.
  - intros [->|Hb]%elem_of_cons; [by left|right; auto].
Qed.

Lemma trim_sub v b : b ∈ trim_ows v -> b ∈ v.
Proof. intros H%trim_end_sub. by apply trim_start_sub. Qed.

(** No whitespace at either end. *)
Definition trimmed (v : list Z) : Prop :=
  (forall b r, v = b :: r -> is_ows b = false) /\ (forall b r, v = r ++ [b] -> is_ows b = false).

Lemma trim_start_head v b r : trim_ows_start v = b :: r -> is_ows b = false.
Proof.
  induction v as [|a v IH]; simpl; [done|]. destruct (is_ows a) eqn:E; [exact IH|]. by intros [= <- <-].
Qed.

Lemma trim_end_prefix v : exists w, v = trim_ows_end v ++ w.
Proof.
  induction v as [|a v [w IH]]; simpl; [by exists []|]. destruct (trim_ows_end v) as [|k ks].
  - destruct (is_ows a); [by exists (a :: v)|]. by exists v.
  - exists w. simpl in *. by rewrite <- IH.
Qed.

Lemma trim_end_last v b r : trim_ows_end v = r ++ [b] -> is_ows b = false.
Proof.
  revert r. induction v as [|a v IH]; intros r; simpl; [by destruct r|].
  destruct (trim_ows_end v) as [|k ks].
  - destruct (is_ows a) eqn:E; [by destruct r|]. intros H. destruct r as [|x [|y r]]; simpl in H; simplify_eq. done.
  - destruct r as [|x r]; simpl; [intros [= ? ?]|intros [= _ H]; by apply (IH r)].
Qed.

Lemma trim_trimmed v : trimmed (trim_ows v).
Proof.
  split; [|intros b r; apply trim_end_last]. intros b r Hv. unfold trim_ows in Hv.
  destruct (trim_end_prefix (trim_ows_start v)) as [w Hw]. rewrite Hv in Hw. by apply trim_start_head in Hw.
Qed.

Lemma trimmed_end v : (forall b r, v = r ++ [b] -> is_ows b = false) -> trim_ows_end v = v.
Proof.
  induction v as [|a v IH]; intros Hv; [done|]. simpl. rewrite IH.
  - destruct v; [|done]. by rewrite (Hv a [] eq_refl).
  - intros b r ->. apply (Hv b (a :: r)). done.
Qed.

Lemma trimmed_id v : trimmed v -> trim_ows v = v.
Proof.
  intros [Hs He]. unfold trim_ows. destruct v as [|a v]; [done|]. simpl. rewrite (Hs a v eq_refl).
  by apply trimmed_end.
Qed.

Lemma trim_ows_sp v : trimmed v -> trim_ows (SP :: v) = v.
Proof. intros Hv. change (trim_ows (SP :: v)) with (trim_ows v). by apply trimmed_id. Qed.

(** ** Comma lists *)

(** An element of a list: trimmed, not empty, without a comma. *)
Definition element_ok (e : list Z) : Prop := e <> [] /\ trimmed e /\ COMMA ∉ e.

Lemma list_elements_app vs ws : list_elements (vs ++ ws) = list_elements vs ++ list_elements ws.
Proof. unfold list_elements. by rewrite bind_app, map_app, list.filter_app. Qed.

Lemma list_elements_ok vs e : e ∈ list_elements vs -> element_ok e.
Proof.
  unfold list_elements. rewrite list_elem_of_filter, list_elem_of_fmap. intros (Hne & p & -> & Hp).
  split; [done|]. split; [apply trim_trimmed|]. intros Hc%trim_sub.
  apply list_elem_of_bind in Hp as (v & Hp & _). by apply split_byte_pieces in Hp.
Qed.

Lemma list_elements_bytes vs e b : e ∈ list_elements vs -> b ∈ e -> exists v, v ∈ vs /\ b ∈ v.
Proof.
  unfold list_elements. rewrite list_elem_of_filter, list_elem_of_fmap. intros (_ & p & -> & Hp) Hb%trim_sub.
  apply list_elem_of_bind in Hp as (v & Hp & Hv). exists v. split; [done|].
  rewrite <- (split_byte_join COMMA v). revert Hp Hb. clear. generalize (split_byte COMMA v) as ps.
  induction ps as [|q ps IH]; intros Hp Hb; [by apply elem_of_nil in Hp|].
  apply elem_of_cons in Hp as [<-|Hp].
  - simpl. destruct ps; [done|]. rewrite elem_of_app. by left.
  - simpl. destruct ps; [by apply elem_of_nil in Hp|]. rewrite elem_of_app. right. right. auto.
Qed.

(** The list the code joins reads back as its elements. *)
Lemma list_elements_join es : Forall element_ok es -> list_elements [join_bytes (bytes ", ") es] = es.
Proof.
  intros Hes.
  assert (Hsp : Forall element_ok es ->
    filter (fun e => e <> []) (map trim_ows (split_byte COMMA (SP :: join_bytes (bytes ", ") es))) = es /\
    filter (fun e => e <> []) (map trim_ows (split_byte COMMA (join_bytes (bytes ", ") es))) = es).
  { clear Hes. induction es as [|e es IH]; intros Hes; [done|].
    apply list.Forall_cons in Hes as [He Hes]. destruct (IH Hes) as [IH1 _]. destruct He as (Hne & Ht & Hc).
    assert (HcS : COMMA ∉ SP :: e) by (rewrite not_elem_of_cons; done).
    destruct es as [|e' es'].
    - cbn [join_bytes]. rewrite !split_byte_single by done. cbn [map]. rewrite trim_ows_sp, trimmed_id by done.
      by rewrite filter_cons_True, filter_nil by done.
    - change (join_bytes (bytes ", ") (e :: e' :: es')) with
        (e ++ COMMA :: SP :: join_bytes (bytes ", ") (e' :: es')).
      rewrite app_comm_cons, !split_byte_app by done. cbn [map].
      rewrite trim_ows_sp, trimmed_id by done. rewrite !filter_cons_True by done. cbn [map] in IH1. by rewrite IH1. }
  unfold list_elements. rewrite bind_singleton. apply (proj2 (Hsp Hes)).
Qed.

Lemma join_trimmed es : Forall element_ok es -> trimmed (join_bytes (bytes ", ") es).
Proof.
  intros Hes. split.
  - intros b r Hj. destruct es as [|e es]; [done|]. apply list.Forall_cons in Hes as [(Hne & [Hs _] & _) _].
    destruct e as [|a e]; [done|]. destruct es; simpl in Hj; injection Hj as <- _; by apply (Hs a e).
  - induction es as [|e es IH]; intros b r Hj; [by destruct r|].
    apply list.Forall_cons in Hes as [(Hne & [_ He] & _) Hes]. destruct es as [|e' es'].
    + by apply (He b r).
    + change (join_bytes (bytes ", ") (e :: e' :: es')) with
        (e ++ bytes ", " ++ join_bytes (bytes ", ") (e' :: es')) in Hj.
      assert (Hne' : join_bytes (bytes ", ") (e' :: es') <> []).
      { apply list.Forall_cons in Hes as [(Hne' & _) _]. destruct e'; [done|]. by destruct es'. }
      destruct (exists_last Hne') as (r' & b' & Hr'). rewrite Hr', !app_assoc in Hj.
      apply app_inj_tail in Hj as [_ ->]. by apply (IH Hes b r').
Qed.

Lemma join_bytes_sub es b : b ∈ join_bytes (bytes ", ") es -> b = COMMA \/ b = SP \/ exists e, e ∈ es /\ b ∈ e.
Proof.
  induction es as [|e es IH]; [by intros []%elem_of_nil|]. destruct es as [|e' es'].
  - intros Hb. right. right. exists e. split; [by left|done].
  - change (join_bytes (bytes ", ") (e :: e' :: es')) with
      (e ++ COMMA :: SP :: join_bytes (bytes ", ") (e' :: es')).
    rewrite elem_of_app, !elem_of_cons. intros [Hb|[->|[->|Hb]]]; [|by auto|by auto|].
    + right. right. exists e. split; [by left|done].
    + destruct (IH Hb) as [?|[?|(x & Hx & ?)]]; [by auto|by auto|]. right. right. exists x. split; [by right|done].
Qed.

(** ** Lines *)

Definition line_ok (l : list Z) : Prop := CR ∉ l /\ LF ∉ l.

Lemma line_ok_bare l : line_ok l -> bare_cr_or_lf l = false.
Proof.
  intros [Hc Hl]. unfold bare_cr_or_lf. apply not_true_is_false. rewrite existsb_exists.
  intros (b & Hb%list_elem_of_In & [H|H]%orb_true_iff); apply Z.eqb_eq in H; by subst.
Qed.

Lemma find_window_skip x p a l :
  x ∉ a -> find_window (x :: p) (a ++ l) = Nat.add (length a) <$> find_window (x :: p) l.
Proof.
  induction a as [|b a IH]; intros Ha; [simpl; by destruct (find_window _ l)|].
  apply not_elem_of_cons in Ha as [Hb Ha]. cbn [app find_window starts_with].
  destruct (Z.eqb_spec x b); [done|]. rewrite IH by done. by destruct (find_window (x :: p) l).
Qed.

Lemma find_crlf_line l r : CR ∉ l -> find_window CRLF (l ++ CRLF ++ r) = Some (length l).
Proof. intros Hl. unfold CRLF at 1. rewrite find_window_skip by done. simpl. f_equal. lia. Qed.

Lemma find_crlf_none l : CR ∉ l -> find_window CRLF l = None.
Proof.
  intros Hl. rewrite <- (app_nil_r l). unfold CRLF. rewrite find_window_skip by done. done.
Qed.

Lemma head_lines_join ls : ls <> [] -> Forall line_ok ls -> head_lines (join_bytes CRLF ls) = map Ok ls.
Proof.
  intros Hne Hok. unfold head_lines.
  assert (Hfuel : (length ls <= S (length (join_bytes CRLF ls)))%nat).
  { clear. induction ls as [|l ls IH]; [simpl; lia|]. destruct ls as [|l' ls']; [simpl; lia|].
    change (join_bytes CRLF (l :: l' :: ls')) with (l ++ CRLF ++ join_bytes CRLF (l' :: ls')).
    rewrite !length_app. simpl (length CRLF). simpl length at 1. simpl length in IH at 1. lia. }
  revert Hfuel. generalize (S (length (join_bytes CRLF ls))) as fuel.
  induction ls as [|l ls IH]; [done|]; intros fuel Hfuel. apply list.Forall_cons in Hok as [Hl Hok].
  destruct fuel as [|fuel]; [simpl in Hfuel; lia|]. destruct ls as [|l' ls'].
  - cbn [join_bytes head_lines_from]. rewrite find_crlf_none by apply Hl. simpl. by rewrite line_ok_bare.
  - change (join_bytes CRLF (l :: l' :: ls')) with (l ++ CRLF ++ join_bytes CRLF (l' :: ls')).
    cbn [head_lines_from]. rewrite find_crlf_line by apply Hl. cbv beta iota zeta.
    rewrite take_app_length, line_ok_bare by done. rewrite app_assoc.
    replace (length l + 2)%nat with (length (l ++ CRLF)) by (rewrite length_app; done).
    rewrite drop_app_length. cbn [map]. f_equal. apply IH; [done|done|]. simpl in Hfuel |- *. lia.
Qed.

(** The first empty line of a head of non-empty lines is its end. *)
Lemma find_head_end ls r :
  Forall line_ok ls -> Forall (fun l => l <> []) (tail ls) ->
  find_window (CRLF ++ CRLF) (join_bytes CRLF ls ++ CRLF ++ CRLF ++ r) = Some (length (join_bytes CRLF ls)).
Proof.
  induction ls as [|l ls IH]; intros Hok Hne; [done|]. apply list.Forall_cons in Hok as [[Hl _] Hok].
  change (CRLF ++ CRLF) with (CR :: LF :: CRLF). destruct ls as [|l' ls'].
  - cbn [join_bytes]. rewrite find_window_skip by done. simpl. f_equal. lia.
  - change (join_bytes CRLF (l :: l' :: ls')) with (l ++ CRLF ++ join_bytes CRLF (l' :: ls')).
    apply list.Forall_cons in Hne as [Hl' Hne].
    assert (Hstep : find_window (CR :: LF :: CRLF) (CRLF ++ join_bytes CRLF (l' :: ls') ++ CRLF ++ CRLF ++ r) =
                    Some (2 + length (join_bytes CRLF (l' :: ls')))%nat).
    { specialize (IH Hok Hne). change (CRLF ++ CRLF) with (CR :: LF :: CRLF) in IH.
      assert (Hhd : exists b rest, join_bytes CRLF (l' :: ls') ++ CRLF ++ CRLF ++ r = b :: rest /\ b <> CR).
      { apply list.Forall_cons in Hok as [[Hc _] _]. destruct l' as [|b l'']; [done|].
        exists b. rewrite not_elem_of_cons in Hc. destruct ls'; eexists; (split; [reflexivity|naive_solver]). }
      destruct Hhd as (b & rest & Hhd & Hb). rewrite Hhd in IH |- *.
      change (CRLF ++ b :: rest) with (CR :: LF :: b :: rest).
      cbn [find_window starts_with] in IH |- *. rewrite !Z.eqb_refl.
      assert (E : (CR =? b) = false) by (by apply Z.eqb_neq). unfold CRLF at 1. cbn [starts_with]. rewrite E in IH |- *.
      change (CR =? LF) with false. cbn [andb] in IH |- *. by rewrite IH. }
    rewrite <- !app_assoc, find_window_skip by done. rewrite Hstep. simpl. f_equal.
    rewrite !length_app. simpl. lia.
Qed.

(** ** Header lines *)

Definition header_ok (h : Header) : Prop :=
  h_name h <> [] /\ forallb is_tchar (h_name h) = true /\ lower (h_name h) = h_name h /\
  forallb is_field_byte (h_value h) = true /\ trimmed (h_value h).

Definition header_line (h : Header) : list Z := h_name h ++ bytes ": " ++ h_value h.

Lemma forallb_lower l : forallb is_tchar l = true -> forallb is_tchar (lower l) = true.
Proof.
  rewrite !forallb_elem. intros Hl b Hb. apply list_elem_of_fmap in Hb as (c & -> & Hc). auto with minimal.
Qed.

Lemma parse_header_ok line h : parse_header line = Ok h -> header_ok h.
Proof.
  unfold parse_header. destruct (match line with b :: _ => _ | [] => _ end); [done|].
  intros H. apply result_bind_Ok in H as (colon & _ & H). cbv zeta in H.
  destruct (_ || _) eqn:E1 in H; [done|]. apply orb_false_iff in E1 as [E1 E2].
  apply bool_decide_eq_false in E1. apply negb_false_iff in E2.
  destruct (negb _) eqn:E3 in H; [done|]. apply negb_false_iff in E3. injection H as <-.
  split; simpl; [intros Hn; by destruct (take colon line)|].
  split; [by apply forallb_lower|]. split; [apply lower_idem|]. split; [done|apply trim_trimmed].
Qed.

Lemma parse_headers_ok lines hs : parse_headers lines = Ok hs -> Forall header_ok hs.
Proof.
  revert hs. induction lines as [|l lines IH]; intros hs; simpl; [intros [= <-]; constructor|].
  intros H. apply result_bind_Ok in H as (line & -> & H). apply result_bind_Ok in H as (h & Hh & H).
  apply result_bind_Ok in H as (rest & Hrest & H). injection H as <-.
  constructor; [by apply parse_header_ok in Hh|by apply IH].
Qed.

Lemma parse_header_line h : header_ok h -> parse_header (header_line h) = Ok h.
Proof.
  intros (Hne & Ht & Hlow & Hf & Htrim). unfold parse_header, header_line.
  assert (Hhd : match h_name h ++ bytes ": " ++ h_value h with b :: _ => is_ows b | [] => false end = false).
  { destruct (h_name h) as [|b r]; [done|]. simpl in *. apply andb_prop in Ht as [Hb _]. by apply tchar_not_ows. }
  rewrite Hhd. change (bytes ": " ++ h_value h) with (COLON :: SP :: h_value h).
  rewrite position_app; [|apply forallb_elem; intros b Hb|done].
  2: { apply negb_true_iff, Z.eqb_neq. rewrite forallb_elem in Ht. auto with minimal. }
  cbn [ok_or mbind result_bind]. rewrite take_app_length. cbv zeta.
  rewrite bool_decide_eq_false_2 by done. rewrite Ht. cbn [negb orb].
  rewrite (cons_middle COLON), app_assoc.
  replace (length (h_name h) + 1)%nat with (length (h_name h ++ [COLON])) by (rewrite length_app; done).
  rewrite drop_app_length, trim_ows_sp, Hf, Hlow by done. by destruct h.
Qed.

Lemma parse_header_lines hs : Forall header_ok hs -> parse_headers (map Ok (map header_line hs)) = Ok hs.
Proof.
  induction 1 as [|h hs Hh _ IH]; [done|]. cbn [map parse_headers mbind result_bind].
  rewrite parse_header_line by done. cbn [mbind result_bind]. by rewrite IH.
Qed.

Lemma header_line_ok h : header_ok h -> line_ok (header_line h) /\ header_line h <> [].
Proof.
  intros (Hne & Ht & _ & Hf & _). unfold line_ok, header_line. rewrite !elem_of_app. split.
  - split; intros [H|[H|H]].
    + by apply (forallb_not_elem is_tchar CR (h_name h)) in H; [|auto with minimal|].
    + revert H. apply (bool_decide_unpack _). by vm_compute.
    + by apply (forallb_not_elem is_field_byte CR (h_value h)) in H; [|auto with minimal|].
    + by apply (forallb_not_elem is_tchar LF (h_name h)) in H; [|auto with minimal|].
    + revert H. apply (bool_decide_unpack _). by vm_compute.
    + by apply (forallb_not_elem is_field_byte LF (h_value h)) in H; [|auto with minimal|].
  - by destruct (h_name h).
Qed.

(** ** The h2c strip *)

Lemma elem_of_list_elements vs t : t ∈ list_elements vs <-> exists v, v ∈ vs /\ t ∈ list_elements [v].
Proof.
  induction vs as [|v vs IH].
  - split; [by intros []%elem_of_nil|by intros (v & []%elem_of_nil & _)].
  - change (v :: vs) with ([v] ++ vs). rewrite list_elements_app, elem_of_app, IH. split.
    + intros [Ht|(w & Hw & Ht)]; [exists v; split; [by left|done]|exists w; split; [by right|done]].
    + intros (w & [->|Hw]%elem_of_cons & Ht); [by left|right; eauto].
Qed.

Lemma list_elements_without v dropped :
  list_elements [join_without v dropped] =
  filter (fun t => existsb (eq_ignore_case t) dropped = false) (list_elements [v]).
Proof.
  unfold join_without. apply list_elements_join. apply list.Forall_forall. intros e He.
  apply list_elem_of_filter in He as [_ He]. by apply list_elements_ok in He.
Qed.

Lemma join_without_ok v dropped :
  forallb is_field_byte v = true ->
  forallb is_field_byte (join_without v dropped) = true /\ trimmed (join_without v dropped).
Proof.
  intros Hv. unfold join_without. split.
  - rewrite forallb_elem. intros b [->|[->|(e & He & Hb)]]%join_bytes_sub; [done|done|].
    apply list_elem_of_filter in He as [_ He]. destruct (list_elements_bytes _ _ _ He Hb) as (w & Hw & Hb').
    apply list_elem_of_singleton in Hw as ->. rewrite forallb_elem in Hv. auto.
  - apply join_trimmed, list.Forall_forall. intros e He. apply list_elem_of_filter in He as [_ He].
    by apply list_elements_ok in He.
Qed.

(** Setting the values of the headers of one name. *)
Definition rewrite_values (name : string) (f : list Z -> list Z) (h : Header) : Header :=
  if bool_decide (h_name h = bytes name) then set_value h (f (h_value h)) else h.

Lemma rewrite_name name f h : h_name (rewrite_values name f h) = h_name h.
Proof. unfold rewrite_values. by case_bool_decide. Qed.

Lemma values_rewrite name f hs n :
  values (map (rewrite_values name f) hs) n =
  if bool_decide (bytes n = bytes name) then map f (values hs n) else values hs n.
Proof.
  unfold values. induction hs as [|h hs IH]; [simpl; by case_bool_decide|]. cbn [map].
  rewrite !filter_cons, rewrite_name. destruct (decide (h_name h = bytes n)) as [E|E]; [|exact IH].
  cbn [map]. rewrite IH. unfold rewrite_values. rewrite E. by case_bool_decide.
Qed.

Lemma values_filter (P : Header -> Prop) `{forall h, Decision (P h)} hs n :
  (forall h, h_name h = bytes n -> P h) -> values (filter P hs) n = values hs n.
Proof.
  intros HP. unfold values. f_equal. rewrite list_filter_filter. apply list_filter_iff. naive_solver.
Qed.

Lemma values_filter_sub (P : Header -> Prop) `{forall h, Decision (P h)} hs n v :
  v ∈ values (filter P hs) n -> v ∈ values hs n.
Proof.
  unfold values. rewrite !list_elem_of_fmap. intros (h & -> & Hh). exists h. split; [done|].
  rewrite list_filter_filter in Hh. apply list_elem_of_filter in Hh as [[? _] ?]. by apply list_elem_of_filter.
Qed.

Lemma rewrite_ok name dropped hs :
  Forall header_ok hs -> Forall header_ok (map (rewrite_values name (fun v => join_without v dropped)) hs).
Proof.
  intros Hok. apply list.Forall_fmap. apply (list.Forall_impl _ _ _ Hok). intros h (H1 & H2 & H3 & H4 & H5). simpl.
  unfold rewrite_values. case_bool_decide; [|exact (conj H1 (conj H2 (conj H3 (conj H4 H5))))]. unfold header_ok. simpl.
  destruct (join_without_ok (h_value h) dropped H4) as [? ?]. auto.
Qed.

(** What the strip leaves of the tokens: those the box sent, without [h2c]. *)
Record stripped (hs hs' : list Header) : Prop := {
  st_other n : bytes n <> bytes "upgrade" -> bytes n <> bytes "connection" -> bytes n <> bytes "http2-settings" ->
    values hs' n = values hs n;
  st_connection t : t ∈ list_elements (values hs' "connection") -> t ∈ list_elements (values hs "connection");
  st_h2c t : t ∈ list_elements (values hs' "upgrade") -> eq_ignore_case t (bytes "h2c") = false;
  st_ok : Forall header_ok hs -> Forall header_ok hs';
}.

Lemma strip_h2c_spec hs : stripped hs (strip_h2c hs).
Proof.
  unfold strip_h2c. destruct (existsb _ _) eqn:E; cbn [negb].
  2: { split; try done. intros t Ht. apply not_true_is_false. intros Hh. apply not_true_iff_false in E. apply E.
       apply existsb_exists. exists t. split; [by apply list_elem_of_In|done]. }
  cbv zeta. set (dropped := if existsb _ _ then _ else _).
  change (map _ hs) with (map (rewrite_values "upgrade" (fun v => join_without v [bytes "h2c"])) hs).
  set (hs1 := map (rewrite_values "upgrade" _) hs).
  change (map _ hs1) with (map (rewrite_values "connection" (fun v => join_without v dropped)) hs1).
  set (hs2 := map (rewrite_values "connection" _) hs1).
  assert (Hv : forall n, values hs2 n =
    if bool_decide (bytes n = bytes "connection") then map (fun v => join_without v dropped) (values hs n)
    else if bool_decide (bytes n = bytes "upgrade") then map (fun v => join_without v [bytes "h2c"]) (values hs n)
    else values hs n).
  { intros n. unfold hs2, hs1. rewrite !values_rewrite. case_bool_decide as E1; [|done].
    rewrite E1. by rewrite bool_decide_eq_false_2. }
  split.
  - intros n Hu Hc Hs. rewrite values_filter.
    + rewrite Hv, !bool_decide_eq_false_2 by done. done.
    + intros h Hh. rewrite Hh, !bool_decide_eq_false_2 by done. done.
  - intros t. rewrite !elem_of_list_elements. intros (v & Hv' & Ht). apply values_filter_sub in Hv'.
    rewrite Hv, bool_decide_eq_true_2 in Hv' by done. apply list_elem_of_fmap in Hv' as (w & -> & Hw).
    exists w. split; [done|]. rewrite list_elements_without in Ht. by apply list_elem_of_filter in Ht as [_ ?].
  - intros t. rewrite elem_of_list_elements. intros (v & Hv' & Ht). apply values_filter_sub in Hv'.
    rewrite Hv, bool_decide_eq_false_2, bool_decide_eq_true_2 in Hv' by done.
    apply list_elem_of_fmap in Hv' as (w & -> & Hw). rewrite list_elements_without in Ht.
    apply list_elem_of_filter in Ht as [Ht _]. simpl in Ht. by rewrite orb_false_r in Ht.
  - intros Hok. apply list.Forall_forall. intros h [_ Hh]%list_elem_of_filter. revert h Hh.
    apply list.Forall_forall. by apply rewrite_ok, rewrite_ok.
Qed.

Lemma strip_h2c_done hs : (forall t, t ∈ list_elements (values hs "upgrade") -> eq_ignore_case t (bytes "h2c") = false) ->
  strip_h2c hs = hs.
Proof.
  intros Hn. unfold strip_h2c. destruct (existsb _ _) eqn:E; [|done].
  apply existsb_exists in E as (t & Ht%list_elem_of_In & Hh). by rewrite Hn in Hh.
Qed.

Lemma has_header_values hs n : has_header hs n = negb (bool_decide (values hs n = [])).
Proof.
  unfold has_header, values. induction hs as [|h hs IH]; [done|]. simpl. rewrite filter_cons.
  destruct (decide (h_name h = bytes n)) as [E|E].
  - by rewrite (bool_decide_eq_true_2 _ E), bool_decide_eq_false_2.
  - rewrite (bool_decide_eq_false_2 _ E). exact IH.
Qed.

(** The tokens of [Connection] only ever refuse a head. *)
Lemma connection_sub (p : list Z -> bool) vs ws :
  (forall t, t ∈ list_elements ws -> t ∈ list_elements vs) ->
  existsb p (list_elements vs) = false -> existsb p (list_elements ws) = false.
Proof.
  intros Hsub Hp. apply not_true_is_false. intros (t & Ht%list_elem_of_In & Hpt)%existsb_exists.
  apply not_true_iff_false in Hp. apply Hp, existsb_exists. exists t. split; [|done].
  by apply list_elem_of_In, Hsub.
Qed.

Lemma framing_stripped hs hs' b : stripped hs hs' -> framing hs = Ok b -> framing hs' = Ok b.
Proof.
  intros Hst. unfold framing. cbv zeta.
  rewrite !has_header_values. unfold has_empty_element.
  rewrite (st_other _ _ Hst "content-length"), (st_other _ _ Hst "transfer-encoding") by done.
  destruct (existsb _ (list_elements (values hs "connection"))) eqn:E; [done|].
  by rewrite (connection_sub _ _ _ (st_connection _ _ Hst) E).
Qed.

(** ** Accepted requests *)

(** The checks of [parse_request] after the headers are parsed. *)
Record head_checks (method target : list Z) (hs : list Header) (b : BodyFraming) : Prop := {
  hc_framing : framing hs = Ok b;
  hc_host : exists host, values hs "host" = [host] /\ is_host_authority host = true /\
    match absolute_form_authority target with
    | Some (scheme, authority) => same_authority scheme authority host = true
    | None => True
    end /\
    (method = bytes "CONNECT" -> is_connect_authority target = true /\ same_authority "https" target host = true);
  hc_connection : existsb (fun t => eq_ignore_case t (bytes "host")) (list_elements (values hs "connection")) = false;
}.

(** What an accepted head is made of: the header fields as the box sent them. *)
Record accepted (r : Request) (hs : list Header) : Prop := {
  ac_method : rq_method r <> [] /\ forallb is_tchar (rq_method r) = true;
  ac_target : rq_target r <> [] /\ forallb is_graphic (rq_target r) = true;
  ac_headers : Forall header_ok hs;
  ac_strip : rq_headers r = strip_h2c hs;
  ac_checks : head_checks (rq_method r) (rq_target r) hs (rq_body r);
}.

Lemma parse_request_line_inv line m t :
  parse_request_line line = Ok (m, t) ->
  (m <> [] /\ forallb is_tchar m = true) /\ (t <> [] /\ forallb is_graphic t = true).
Proof.
  unfold parse_request_line. destruct (split_byte SP line) as [|m' [|t' [|v [|? ?]]]]; try done.
  destruct (_ || _) eqn:E1; [done|]. destruct (_ || _) eqn:E2 in |- *; [done|]. destruct (negb (bool_decide (v = _))); [done|].
  intros [= <- <-]. apply orb_false_iff in E1 as [E1%bool_decide_eq_false E1'%negb_false_iff].
  by apply orb_false_iff in E2 as [E2%bool_decide_eq_false E2'%negb_false_iff].
Qed.

Lemma request_of_lines_inv lines r : request_of_lines lines = Ok r -> exists hs, accepted r hs.
Proof.
  unfold request_of_lines. intros H. apply result_bind_Ok in H as (first & _ & H).
  case_bool_decide; [done|]. apply result_bind_Ok in H as ([m t] & Hl & H). cbv beta iota in H.
  apply result_bind_Ok in H as (hs & Hhs & H). destruct (1 <? _)%nat eqn:Hdup; [done|].
  apply result_bind_Ok in H as (b & Hb & H). destruct (values hs "host") as [|host more] eqn:Hhost; [done|].
  destruct (is_host_authority host) eqn:Hauth; [|done]. cbn [negb] in H.
  destruct (match absolute_form_authority t with Some _ => _ | None => _ end) eqn:Habs in H; [done|].
  destruct (_ && _) eqn:Hconn in H; [done|]. destruct (existsb _ _) eqn:Hch in H; [done|]. injection H as <-.
  exists hs. apply parse_request_line_inv in Hl as [Hm Ht].
  split; simpl; [done|done|by apply parse_headers_ok in Hhs|done|]. split; [done| |done].
  exists host. apply Nat.ltb_ge in Hdup. destruct more as [|? ?]; [|simpl in Hdup; lia].
  split; [done|]. split; [done|]. split.
  - destruct (absolute_form_authority t) as [[s a]|]; [by apply negb_false_iff in Habs|done].
  - intros ->. rewrite bool_decide_eq_true_2 in Hconn by done. by apply negb_false_iff, andb_prop in Hconn.
Qed.

Lemma checks_stripped m t hs hs' b : stripped hs hs' -> head_checks m t hs b -> head_checks m t hs' b.
Proof.
  intros Hst [Hf Hh Hc]. split; [by apply framing_stripped with hs| |].
  - by rewrite (st_other _ _ Hst "host").
  - eapply connection_sub; [apply (st_connection _ _ Hst)|exact Hc].
Qed.

Definition request_line (r : Request) : list Z := rq_method r ++ [SP] ++ rq_target r ++ bytes " HTTP/1.1".

Lemma serialize_lines r :
  serialize_request r =
  join_bytes CRLF (request_line r :: map header_line (rq_headers r)) ++ CRLF ++ CRLF.
Proof.
  unfold serialize_request, write_headers.
  assert (H : forall hs first, first ++ CRLF ++ (hs ≫= write_header) ++ CRLF =
                join_bytes CRLF (first :: map header_line hs) ++ CRLF ++ CRLF).
  { induction hs as [|h hs IH]; intros first; [done|].
    change (join_bytes CRLF (first :: map header_line (h :: hs))) with
      (first ++ CRLF ++ join_bytes CRLF (header_line h :: map header_line hs)).
    rewrite <- !app_assoc, <- IH. cbn [mbind list_bind]. unfold write_header, header_line. by rewrite <- !app_assoc. }
  rewrite <- H. unfold request_line. by rewrite <- !app_assoc.
Qed.

Lemma request_line_ok r hs : accepted r hs ->
  line_ok (request_line r) /\ request_line r <> H2_PREFACE_LINE /\ parse_request_line (request_line r) = Ok (rq_method r, rq_target r).
Proof.
  intros [[Hm Hmt] [Ht Htg] _ _ _].
  assert (Hsp1 : SP ∉ rq_method r) by (apply (forallb_not_elem is_tchar); auto with minimal).
  assert (Hsp2 : SP ∉ rq_target r) by (apply (forallb_not_elem is_graphic); auto with minimal).
  split; [|split].
  - assert (Hx : forall x, (forall b, is_tchar b = true -> b <> x) -> (forall b, is_graphic b = true -> b <> x) ->
      x ∉ SP :: bytes " HTTP/1.1" -> x ∉ request_line r).
    { intros x H1 H2 [H3 H4]%not_elem_of_cons. unfold request_line. rewrite !elem_of_app, list_elem_of_singleton.
      apply (forallb_not_elem _ x) in Hmt; [|done]. apply (forallb_not_elem _ x) in Htg; [|done]. naive_solver. }
    split; (apply Hx; [auto with minimal|auto with minimal|]); apply (bool_decide_unpack _); by vm_compute.
  - unfold request_line. intros H. apply (f_equal (@rev Z)) in H. rewrite !rev_app_distr in H. discriminate H.
  - unfold parse_request_line, request_line.
    change ([SP] ++ rq_target r ++ bytes " HTTP/1.1") with (SP :: rq_target r ++ SP :: bytes "HTTP/1.1").
    rewrite (split_byte_app SP (rq_method r)), (split_byte_app SP (rq_target r)) by done.
    rewrite (split_byte_single SP (bytes "HTTP/1.1")) by (apply (bool_decide_unpack _); by vm_compute).
    rewrite !bool_decide_eq_false_2, Hmt, Htg by done. cbn [negb orb].
    by rewrite bool_decide_eq_true_2 by done.
Qed.

(** The canonical lines of an accepted request are a head of that request. *)
Lemma request_of_canonical r hs : accepted r hs ->
  request_of_lines (map Ok (request_line r :: map header_line (rq_headers r))) = Ok r.
Proof.
  intros Hac. destruct (request_line_ok r hs Hac) as (_ & Hpre & Hline). destruct Hac as [_ _ Hok Hstrip Hchk].
  pose proof (strip_h2c_spec hs) as Hst. rewrite <- Hstrip in Hst.
  pose proof (st_ok _ _ Hst Hok) as Hok'. pose proof (checks_stripped _ _ _ _ _ Hst Hchk) as [Hf Hh Hc].
  unfold request_of_lines. cbn [map tail mbind result_bind]. rewrite bool_decide_eq_false_2, Hline by done.
  cbn [mbind result_bind]. rewrite parse_header_lines by done. cbn [mbind result_bind].
  destruct Hh as (host & -> & Hauth & Habs & Hconn). simpl length. cbn [Nat.ltb Nat.leb]. rewrite Hf.
  cbn [mbind result_bind]. rewrite Hauth. cbn [negb].
  destruct (match absolute_form_authority (rq_target r) with Some _ => _ | None => _ end) eqn:E.
  { destruct (absolute_form_authority (rq_target r)) as [[s a]|]; [by rewrite Habs in E|done]. }
  destruct (bool_decide (rq_method r = bytes "CONNECT") && _) eqn:E2.
  { apply andb_prop in E2 as [E2%bool_decide_eq_true E3]. destruct (Hconn E2) as [H1 H2]. by rewrite H1, H2 in E3. }
  rewrite Hc, strip_h2c_done; [by destruct r|]. apply (st_h2c _ _ Hst).
Qed.

(** ** Round trips *)

Lemma cut_unique (x : Z) a b r s : x ∉ a -> x ∉ b -> a ++ x :: r = b ++ x :: s -> a = b /\ r = s.
Proof.
  revert b. induction a as [|c a IH]; intros [|d b] Ha Hb; simpl.
  - by intros [= ->].
  - intros [= <- _]. by apply not_elem_of_cons in Hb as [? _].
  - intros [= -> _]. by apply not_elem_of_cons in Ha as [? _].
  - intros [= <- H]. apply not_elem_of_cons in Ha as [_ Ha]. apply not_elem_of_cons in Hb as [_ Hb].
    by destruct (IH b Ha Hb H) as [-> ->].
Qed.

Lemma not_h2_preface line x : CR ∉ line -> line <> H2_PREFACE_LINE -> is_h2_preface_start (line ++ CRLF ++ x) = false.
Proof.
  intros Hc Hne. unfold is_h2_preface_start. cbv zeta. apply andb_false_iff. right.
  apply not_true_is_false. intros [r Hr]%starts_with_iff.
  change (take _ H2_PREFACE) with (H2_PREFACE_LINE ++ CRLF) in Hr. rewrite <- app_assoc in Hr.
  apply cut_unique in Hr as [-> _]; [done|done|]. apply (bool_decide_unpack _). by vm_compute.
Qed.

(** The end of a head written line by line. *)
Lemma head_end_lines ls rest :
  let s := join_bytes CRLF ls ++ CRLF ++ CRLF in
  Forall line_ok ls -> Forall (fun l => l <> []) (tail ls) -> (length s <= MAX_HEAD_LEN)%nat ->
  head_end (s ++ rest) = Ok (Some (length s)) /\ take (length s - 4) (s ++ rest) = join_bytes CRLF ls.
Proof.
  cbv zeta. intros Hok Hne Hlen.
  assert (Hl : length (join_bytes CRLF ls ++ CRLF ++ CRLF) = (length (join_bytes CRLF ls) + 4)%nat)
    by (rewrite length_app; done).
  split.
  - unfold head_end. cbv zeta. set (s := join_bytes CRLF ls ++ CRLF ++ CRLF) in *.
    rewrite take_app_ge by (rewrite length_app; lia). unfold s at 1.
    rewrite <- !app_assoc, find_head_end by done. rewrite Hl. done.
  - rewrite Hl. replace (length (join_bytes CRLF ls) + 4 - 4)%nat with (length (join_bytes CRLF ls)) by lia.
    by rewrite <- app_assoc, take_app_length.
Qed.

Lemma header_lines_ok hs : Forall header_ok hs ->
  Forall line_ok (map header_line hs) /\ Forall (fun l => l <> []) (map header_line hs).
Proof. intros Hok. split; apply list.Forall_fmap; apply (list.Forall_impl _ _ _ Hok); intros h Hh; by apply header_line_ok. Qed.

(** A head past the limit has no end within it. *)
Lemma head_end_long ls rest :
  let s := join_bytes CRLF ls ++ CRLF ++ CRLF in
  Forall line_ok ls -> Forall (fun l => l <> []) (tail ls) -> (MAX_HEAD_LEN < length s)%nat ->
  head_end (s ++ rest) = Err HeadTooLarge.
Proof.
  cbv zeta. intros Hok Hne Hlen. set (s := join_bytes CRLF ls ++ CRLF ++ CRLF) in *.
  assert (length s = length (join_bytes CRLF ls) + 4)%nat as Hl by (unfold s; rewrite length_app; done).
  unfold head_end. cbv zeta. rewrite Nat.min_r by (rewrite length_app; lia).
  replace (MAX_HEAD_LEN <=? length (s ++ rest))%nat with true by (symmetry; apply Nat.leb_le; rewrite length_app; lia).
  destruct (find_window (CRLF ++ CRLF) (take MAX_HEAD_LEN (s ++ rest))) as [n|] eqn:E; [|done].
  apply find_window_Some in E as (a & r & Ha & <-).
  assert (length (take MAX_HEAD_LEN (s ++ rest)) <= MAX_HEAD_LEN)%nat as Ht by (rewrite length_take; lia).
  rewrite Ha, !length_app in Ht. change (length CRLF) with 2%nat in Ht.
  assert (find_window (CRLF ++ CRLF) (s ++ rest) = Some (length (join_bytes CRLF ls))) as Hf.
  { unfold s. rewrite <- !app_assoc, find_head_end by done. done. }
  apply (find_window_first _ _ _ a (r ++ drop MAX_HEAD_LEN (s ++ rest))) in Hf; [lia|].
  rewrite <- (take_drop MAX_HEAD_LEN (s ++ rest)) at 1. rewrite Ha. by rewrite <- !app_assoc.
Qed.

(** Where a head written line by line ends, at any length. *)
Lemma head_end_exact ls rest :
  Forall line_ok ls -> Forall (fun l => l <> []) (tail ls) ->
  head_end ((join_bytes CRLF ls ++ CRLF ++ CRLF) ++ rest) =
    if (length (join_bytes CRLF ls ++ CRLF ++ CRLF) <=? MAX_HEAD_LEN)%nat then Ok (Some (length (join_bytes CRLF ls ++ CRLF ++ CRLF))) else Err HeadTooLarge.
Proof.
  intros Hok Hne. destruct (Nat.leb_spec (length (join_bytes CRLF ls ++ CRLF ++ CRLF)) MAX_HEAD_LEN) as [Hlen|Hlen].
  - exact (proj1 (head_end_lines ls rest Hok Hne Hlen)).
  - exact (head_end_long ls rest Hok Hne Hlen).
Qed.
Lemma take_head_lines ls rest :
  take (length (join_bytes CRLF ls ++ CRLF ++ CRLF) - 4) ((join_bytes CRLF ls ++ CRLF ++ CRLF) ++ rest) = join_bytes CRLF ls.
Proof.
  rewrite length_app. replace (length (join_bytes CRLF ls) + length (CRLF ++ CRLF) - 4)%nat with (length (join_bytes CRLF ls)) by (cbn; lia).
  by rewrite <- app_assoc, take_app_length.
Qed.

(** C4: the proxy forwards one reading of a request.  The canonical bytes of
    a request it accepted parse to exactly that request and end exactly where
    they end, whatever bytes follow them, when they fit the head limit; when
    they do not, since canonical spacing may lengthen a head, they are
    refused as too large.  So no head a box can author makes the forwarded
    bytes read as two heads, as another head, or as a head of another
    length. *)
Theorem canonical_request_reparses buf r n rest :
  parse_request buf = Ok (Complete r n) ->
  parse_request (serialize_request r ++ rest) =
    if (length (serialize_request r) <=? MAX_HEAD_LEN)%nat then Ok (Complete r (length (serialize_request r))) else Err HeadTooLarge.
Proof.
  unfold parse_request at 1. destruct (is_h2_preface_start buf); [done|]. intros H.
  apply result_bind_Ok in H as ([head_len|] & _ & H); [|done]. apply result_bind_Ok in H as (r' & Hr & H).
  injection H as -> _. apply request_of_lines_inv in Hr as [hs Hac].
  destruct (request_line_ok r hs Hac) as ([Hc Hl] & Hpre & _).
  pose proof (st_ok _ _ (strip_h2c_spec hs) (ac_headers _ _ Hac)) as Hok. rewrite <- (ac_strip _ _ Hac) in Hok.
  destruct (header_lines_ok _ Hok) as [Hlines Hnes].
  unfold parse_request.
  assert (Hh2 : is_h2_preface_start (serialize_request r ++ rest) = false).
  { unfold serialize_request. rewrite <- (app_assoc (rq_method r)), <- !app_assoc.
    pose proof (not_h2_preface (request_line r) (write_headers (rq_headers r) ++ rest) Hc Hpre) as Hn.
    unfold request_line in Hn. by rewrite <- !app_assoc in Hn. }
  rewrite Hh2. destruct (Nat.leb_spec (length (serialize_request r)) MAX_HEAD_LEN) as [Hlen|Hlen]; rewrite serialize_lines in Hlen.
  - destruct (head_end_lines (request_line r :: map header_line (rq_headers r)) rest) as [Hend Htake]; [by constructor|done|done|].
    rewrite <- serialize_lines in Hend, Htake. rewrite Hend. cbn [mbind result_bind]. rewrite Htake, head_lines_join by (done || by constructor).
    by rewrite (request_of_canonical r hs Hac).
  - pose proof (head_end_long (request_line r :: map header_line (rq_headers r)) rest) as Hend. cbv zeta in Hend.
    rewrite <- serialize_lines in Hend. rewrite Hend; [done|by constructor|done|by rewrite serialize_lines].
Qed.

Lemma parse_status_line_inv line m st rs :
  parse_status_line line = Ok (m, st, rs) ->
  (m = 0 \/ m = 1) /\ 0 <= st < 1000 /\ forallb is_field_byte rs = true.
Proof.
  unfold parse_status_line. cbv zeta. intros H. apply result_bind_Ok in H as (minor & Hm & H).
  assert (Hminor : minor = 0 \/ minor = 1) by (revert Hm; repeat case_match; naive_solver).
  destruct (12 <=? length line)%nat eqn:Hlen; [|done]. apply Nat.leb_le in Hlen.
  destruct (forallb is_digit (take 3 (drop 9 line))) eqn:Hd; [|done]. cbn [negb] in H.
  assert (Hst : 0 <= foldl (fun acc d => acc * 10 + (d - 48)) 0 (take 3 (drop 9 line)) < 1000).
  { assert (El : length (take 3 (drop 9 line)) = 3%nat) by (rewrite length_take, length_drop; lia).
    destruct (take 3 (drop 9 line)) as [|a [|b [|c [|? ?]]]]; [discriminate El..| |discriminate El].
    simpl in Hd |- *. unfold is_digit, in_range in Hd. bool_to_prop. lia. }
  destruct (drop 12 line) as [|b rest].
  - injection H as <- <- <-. done.
  - destruct (b =? SP); [|done]. destruct (forallb is_field_byte rest) eqn:Hf; [|done].
    cbn [andb] in H. injection H as <- <- <-. done.
Qed.

Definition status_line (r : Response) : list Z :=
  bytes "HTTP/1." ++ [digit_byte (rp_minor_version r)] ++ [SP] ++ show_status (rp_status r) ++ [SP] ++ rp_reason r.

Lemma parse_status_shape p9 m c1 c2 c3 rs :
  (p9 = bytes "HTTP/1.1 " /\ m = 1) \/ (p9 = bytes "HTTP/1.0 " /\ m = 0) ->
  is_digit c1 = true -> is_digit c2 = true -> is_digit c3 = true -> forallb is_field_byte rs = true ->
  parse_status_line (p9 ++ c1 :: c2 :: c3 :: SP :: rs) = Ok (m, ((c1 - 48) * 10 + (c2 - 48)) * 10 + (c3 - 48), rs).
Proof.
  intros Hp H1 H2 H3 Hf. unfold parse_status_line. cbv zeta.
  assert (Hlen : length p9 = 9%nat) by (by destruct Hp as [[-> _]|[-> _]]).
  rewrite take_app_length' by done. replace (drop 9 (p9 ++ c1 :: c2 :: c3 :: SP :: rs)) with (c1 :: c2 :: c3 :: SP :: rs)
    by (by rewrite drop_app_length').
  replace (drop 12 (p9 ++ c1 :: c2 :: c3 :: SP :: rs)) with (SP :: rs)
    by (rewrite drop_app_ge by lia; by rewrite Hlen).
  rewrite length_app, Hlen. cbn [length take forallb Nat.add Nat.leb foldl]. rewrite H1, H2, H3, Hf.
  destruct Hp as [[-> ->]|[-> ->]].
  - rewrite bool_decide_eq_true_2 by done. reflexivity.
  - rewrite bool_decide_eq_false_2, bool_decide_eq_true_2 by done. reflexivity.
Qed.

Lemma status_digits st :
  0 <= st < 1000 -> let d1 := st / 100 in let d2 := st / 10 mod 10 in let d3 := st mod 10 in
  (0 <= d1 <= 9 /\ 0 <= d2 <= 9 /\ 0 <= d3 <= 9) /\ (d1 * 10 + d2) * 10 + d3 = st.
Proof.
  intros Hst. cbv zeta. split.
  - split; [|split]; [|pose proof (Z.mod_pos_bound (st / 10) 10); lia|pose proof (Z.mod_pos_bound st 10); lia].
    split; [apply Z.div_pos; lia|]. assert (st / 100 < 10) by (apply Z.div_lt_upper_bound; lia). lia.
  - replace (st / 100) with (st / 10 / 10) by (rewrite Z.div_div by lia; done).
    pose proof (Z.div_mod (st / 10) 10 ltac:(lia)). pose proof (Z.div_mod st 10 ltac:(lia)). lia.
Qed.

Lemma digit_byte_digit d : 0 <= d <= 9 -> is_digit (digit_byte d) = true.
Proof. intros Hd. unfold is_digit, in_range, digit_byte. apply andb_true_iff. rewrite !Z.leb_le. lia. Qed.

(** A response head whose parts the parser produced. *)
Definition response_ok (r : Response) : Prop :=
  (rp_minor_version r = 0 \/ rp_minor_version r = 1) /\ 0 <= rp_status r < 1000 /\
  forallb is_field_byte (rp_reason r) = true /\ Forall header_ok (rp_headers r) /\ framing (rp_headers r) = Ok (rp_body r).

Lemma response_of_lines_inv lines r : response_of_lines lines = Ok r -> response_ok r.
Proof.
  unfold response_of_lines. intros H. apply result_bind_Ok in H as (first & _ & H).
  apply result_bind_Ok in H as ([[m st] rs] & Hl & H). cbv beta iota in H.
  apply result_bind_Ok in H as (hs & Hhs & H). apply result_bind_Ok in H as (b & Hb & H). injection H as <-.
  apply parse_status_line_inv in Hl as (? & ? & ?). apply parse_headers_ok in Hhs. unfold response_ok. simpl. auto 8.
Qed.

Lemma status_line_ok r : response_ok r ->
  line_ok (status_line r) /\ parse_status_line (status_line r) = Ok (rp_minor_version r, rp_status r, rp_reason r).
Proof.
  intros (Hm & Hst & Hf & _). destruct (status_digits _ Hst) as ((H1 & H2 & H3) & Hsum).
  set (p9 := bytes "HTTP/1." ++ [digit_byte (rp_minor_version r); SP]).
  assert (Hline : status_line r = p9 ++ show_status (rp_status r) ++ SP :: rp_reason r) by done.
  rewrite Hline. unfold show_status. split.
  - assert (Hx : forall x, x ∉ bytes "HTTP/1.1 0" -> ~ 48 <= x <= 57 -> x ∉ rp_reason r ->
      x ∉ p9 ++ show_status (rp_status r) ++ SP :: rp_reason r).
    { intros x Hx1 Hx2 Hx3. unfold p9, show_status, digit_byte.
      rewrite !elem_of_app, !elem_of_cons. intros [[Hp|[->|[->|Hn]]]|[[->|[->|[->|Hn]]]|[->|Hr]]];
        try (by apply elem_of_nil in Hn); try lia; try done; apply Hx1.
      - revert Hp. change (bytes "HTTP/1.1 0") with (bytes "HTTP/1." ++ bytes "1 0"). rewrite elem_of_app. auto.
      - apply (bool_decide_unpack _). by vm_compute.
      - apply (bool_decide_unpack _). by vm_compute. }
    split; apply Hx; try (vm_compute; lia); try (apply (bool_decide_unpack _); by vm_compute);
      apply (forallb_not_elem is_field_byte); auto with minimal; vm_compute; intuition congruence.
  - simpl app at 2. rewrite (parse_status_shape p9 (rp_minor_version r)); try by apply digit_byte_digit.
    + unfold digit_byte. do 3 f_equal. lia.
    + unfold p9. destruct Hm as [-> | ->]; [by right|by left].
    + done.
Qed.

Lemma serialize_response_lines r :
  serialize_response r = join_bytes CRLF (status_line r :: map header_line (rp_headers r)) ++ CRLF ++ CRLF.
Proof.
  pose proof (serialize_lines {| rq_method := []; rq_target := []; rq_headers := rp_headers r; rq_body := BfNone |}) as H.
  unfold serialize_response, status_line. unfold serialize_request, request_line in H. simpl rq_method in H.
  simpl rq_target in H. simpl rq_headers in H. revert H. generalize (map header_line (rp_headers r)) as ls.
  intros [|l ls] H; cbn [join_bytes] in H |- *; rewrite <- ?app_assoc in H |- *;
    repeat (f_equal; []); rewrite !app_assoc in H; rewrite <- !app_assoc in H;
    repeat (apply app_inv_head in H); rewrite H; done.
Qed.

Lemma framing_filter (P : Header -> Prop) `{forall h, Decision (P h)} hs :
  (forall h n, n ∈ ["content-length"; "transfer-encoding"; "connection"]%string -> h_name h = bytes n -> P h) ->
  framing (filter P hs) = framing hs.
Proof.
  intros HP. unfold framing, has_empty_element. rewrite !has_header_values.
  rewrite !(values_filter P hs) by (intros h Hh; eapply HP; [|exact Hh]; auto with minimal). done.
Qed.

(** The box reads one response.  The canonical bytes of a response the
    proxy accepted, after the alternative-service headers are removed, parse
    to exactly that response whatever follows, its body framed as the
    upstream framed it, and no alternative-service header is left. *)
Theorem canonical_response_reparses buf r n rest :
  parse_response buf = Ok (Complete r n) ->
  (length (serialize_response (strip_alt_svc r)) <= MAX_HEAD_LEN)%nat ->
  parse_response (serialize_response (strip_alt_svc r) ++ rest) =
    Ok (Complete (strip_alt_svc r) (length (serialize_response (strip_alt_svc r)))) /\
  rp_body (strip_alt_svc r) = rp_body r /\ values (rp_headers (strip_alt_svc r)) "alt-svc" = [].
Proof.
  unfold parse_response at 1. intros H Hlen. apply result_bind_Ok in H as ([head_len|] & _ & H); [|done].
  apply result_bind_Ok in H as (r' & Hr & H). injection H as -> _. apply response_of_lines_inv in Hr.
  split; [|split; [done|]].
  2: { unfold values. simpl. rewrite list_filter_filter.
       destruct (filter _ (rp_headers r)) as [|h hs] eqn:E; [done|].
       assert (Hin : h ∈ h :: hs) by (by left). rewrite <- E in Hin. by apply list_elem_of_filter in Hin as [[? ?] _]. }
  assert (Hr' : response_ok (strip_alt_svc r)).
  { destruct Hr as (? & ? & ? & Hok & Hf). unfold response_ok. simpl. do 3 (split; [done|]). split.
    - apply list.Forall_forall. intros h [_ Hh]%list_elem_of_filter. by apply (proj1 (list.Forall_forall _ _) Hok).
    - rewrite framing_filter; [done|]. intros h nm Hn Hh E. rewrite E in Hh.
      repeat (apply elem_of_cons in Hn as [->|Hn]; [discriminate Hh|]). by apply elem_of_nil in Hn. }
  revert Hlen Hr'. generalize (strip_alt_svc r) as q. clear. intros q Hlen Hq.
  destruct (status_line_ok q Hq) as [Hl Hparse]. destruct Hq as (_ & _ & _ & Hok & Hf).
  destruct (header_lines_ok _ Hok) as [Hlines Hnes]. rewrite serialize_response_lines in Hlen |- *.
  destruct (head_end_lines (status_line q :: map header_line (rp_headers q)) rest) as [Hend Htake];
    [by constructor|done|done|].
  unfold parse_response. rewrite Hend. cbn [mbind result_bind].
  rewrite Htake, head_lines_join by (done || by constructor). unfold response_of_lines.
  cbn [map tail mbind result_bind]. rewrite Hparse. cbn [mbind result_bind].
  rewrite parse_header_lines by done. cbn [mbind result_bind]. rewrite Hf. cbn [mbind result_bind]. by destruct q.
Qed.

(** ** The framing has one reading *)

Definition decimal (l : list Z) : Z := foldl (fun acc d => acc * 10 + (d - 48)) 0 l.

(** The readings a lenient peer could take of the framing headers: any coding
    of any transfer-encoding field, any element of any content-length field,
    whichever of the two it prefers. *)
Inductive reads_framing (hs : list Header) : BodyFraming -> Prop :=
| reads_coding v e :
    v ∈ values hs "transfer-encoding" -> e ∈ split_byte COMMA v -> lower (trim_ows e) = bytes "chunked" ->
    reads_framing hs BfChunked
| reads_length v e :
    v ∈ values hs "content-length" -> e ∈ split_byte COMMA v ->
    trim_ows e <> [] -> forallb is_digit (trim_ows e) = true ->
    reads_framing hs (BfContentLength (decimal (trim_ows e)))
| reads_none :
    values hs "content-length" = [] -> values hs "transfer-encoding" = [] -> reads_framing hs BfNone.

Lemma checked_digits_val base f acc l n :
  checked_digits base f acc l = Some n -> foldl (fun acc d => acc * base + f d) acc l = n.
Proof.
  revert acc. induction l as [|d l IH]; intros acc; simpl; [by intros [= ->]|].
  unfold checked_digit. destruct (_ <=? _); [apply IH|done].
Qed.

Lemma parse_length_val l n : parse_length l = Some n -> l <> [] /\ forallb is_digit l = true /\ decimal l = n.
Proof.
  unfold parse_length. destruct (_ || _) eqn:E; [done|]. apply orb_false_iff in E as [E E3].
  apply orb_false_iff in E as [E1%bool_decide_eq_false _]. apply negb_false_iff in E3. intros H%checked_digits_val. done.
Qed.

Lemma element_in_list hs n v e :
  v ∈ values hs n -> e ∈ split_byte COMMA v -> trim_ows e <> [] -> trim_ows e ∈ list_elements (values hs n).
Proof.
  intros Hv He Hne. unfold list_elements. apply list_elem_of_filter. split; [done|]. apply list_elem_of_fmap_2.
  apply list_elem_of_bind. by exists v.
Qed.

Lemma list_element_in hs n t : t ∈ list_elements (values hs n) -> exists v e, v ∈ values hs n /\ e ∈ split_byte COMMA v /\ t = trim_ows e.
Proof.
  unfold list_elements. rewrite list_elem_of_filter, list_elem_of_fmap. intros (_ & e & -> & He).
  apply list_elem_of_bind in He as (v & He & Hv). by exists v, e.
Qed.

Lemma framing_reading hs b : framing hs = Ok b -> forall f, reads_framing hs f <-> f = b.
Proof.
  unfold framing. cbv zeta. destruct (existsb _ _); [done|]. rewrite !has_header_values.
  destruct (has_empty_element hs "content-length") eqn:Ecl; [by destruct (_ && _)|].
  destruct (has_empty_element hs "transfer-encoding") eqn:Ete; [by destruct (_ && _)|].
  destruct (decide (values hs "content-length" = [])) as [Hcl|Hcl];
    [rewrite (bool_decide_eq_true_2 _ Hcl)|rewrite (bool_decide_eq_false_2 _ Hcl)];
    (destruct (decide (values hs "transfer-encoding" = [])) as [Hte|Hte];
    [rewrite (bool_decide_eq_true_2 _ Hte)|rewrite (bool_decide_eq_false_2 _ Hte)]); cbn [negb andb]; try done.
  - intros [= <-] f. split; [|intros ->; by constructor].
    intros [v e Hv _ _|v e Hv _ _ _|_ _]; [rewrite Hte in Hv|rewrite Hcl in Hv|done]; by apply elem_of_nil in Hv.
  - destruct (list_elements (values hs "transfer-encoding")) as [|only [|? ?]] eqn:Hl; [done| |done].
    destruct (eq_ignore_case only (bytes "chunked")) eqn:Ech; [|done]. intros [= <-] f. split.
    + intros [v e _ _ _|v e Hv _ _ _|_ Hn]; [done|rewrite Hcl in Hv; by apply elem_of_nil in Hv|done].
    + intros ->. assert (Hin : only ∈ list_elements (values hs "transfer-encoding")) by (rewrite Hl; by left).
      apply list_element_in in Hin as (v & e & Hv & He & ->). apply bool_decide_eq_true in Ech.
      by apply (reads_coding hs v e).
  - destruct (list_elements (values hs "content-length")) as [|one [|? ?]] eqn:Hl; [done| |done].
    destruct (parse_length one) as [n|] eqn:Hn; [|done]. intros [= <-] f.
    apply parse_length_val in Hn as (Hne & Hd & Hval). split.
    + intros [v e Hv _ _|v e Hv He Hne' _|Hn _]; [rewrite Hte in Hv; by apply elem_of_nil in Hv| |done].
      pose proof (element_in_list _ _ _ _ Hv He Hne') as Hin. rewrite Hl in Hin.
      apply list_elem_of_singleton in Hin as ->. by rewrite Hval.
    + intros ->. assert (Hin : one ∈ list_elements (values hs "content-length")) by (rewrite Hl; by left).
      apply list_element_in in Hin as (v & e & Hv & He & ->). rewrite <- Hval. by apply (reads_length hs v e).
Qed.

Lemma filter_keeps {A} (P : A -> Prop) `{forall x, Decision (P x)} l : Forall P l -> filter P l = l.
Proof. induction 1 as [|x l Hx _ IH]; [done|]. rewrite filter_cons_True by done. by rewrite IH. Qed.
(** No element of the fields is empty, so one element is one field. *)
Lemma nonempty_elements hs n : has_empty_element hs n = false -> list_elements (values hs n) = map trim_ows (values hs n ≫= split_byte COMMA).
Proof.
  unfold has_empty_element, list_elements. intros He. apply filter_keeps. apply list.Forall_forall. intros x (e & -> & Hin)%list_elem_of_fmap.
  apply list_elem_of_bind in Hin as (v & Hin & Hv). intros Hx. apply not_true_iff_false in He. apply He, existsb_exists. exists v.
  split; [by apply list_elem_of_In|]. apply existsb_exists. exists e. split; [by apply list_elem_of_In|by apply bool_decide_eq_true].
Qed.
Lemma one_element hs n x : has_empty_element hs n = false -> list_elements (values hs n) = [x] -> exists v, values hs n = [v] /\ trim_ows v = x.
Proof.
  intros He. rewrite nonempty_elements by done. destruct (values hs n) as [|v [|w vs]]; [done| |].
  - cbn [mbind list_bind]. rewrite app_nil_r. intros E. exists v. split; [done|]. pose proof (split_byte_join COMMA v) as Hj.
    destruct (split_byte COMMA v) as [|e [|? ?]]; [done| |done]. cbn in E, Hj. injection E as E. by subst.
  - cbn [mbind list_bind]. pose proof (split_byte_nonempty COMMA v). pose proof (split_byte_nonempty COMMA w).
    destruct (split_byte COMMA v); [done|]. destruct (split_byte COMMA w) eqn:Ew; [done|]. rewrite !map_app. cbn. intros [= _ E]. by apply app_eq_nil in E as [_ [=]].
Qed.

(** The one framing field of a request, with one element in it, or none. *)
Definition framed_once (hs : list Header) (b : BodyFraming) : Prop :=
  match b with
  | BfNone => values hs "content-length" = [] /\ values hs "transfer-encoding" = []
  | BfChunked => values hs "content-length" = [] /\ exists v, values hs "transfer-encoding" = [v] /\ lower (trim_ows v) = bytes "chunked"
  | BfContentLength n => values hs "transfer-encoding" = [] /\
      exists v, values hs "content-length" = [v] /\ trim_ows v <> [] /\ forallb is_digit (trim_ows v) = true /\ decimal (trim_ows v) = n
  end.
Lemma framing_once hs b : framing hs = Ok b -> framed_once hs b.
Proof.
  unfold framing. cbv zeta. destruct (existsb _ _); [done|]. rewrite !has_header_values.
  destruct (has_empty_element hs "content-length") eqn:Ecl; [by destruct (_ && _)|].
  destruct (has_empty_element hs "transfer-encoding") eqn:Ete; [by destruct (_ && _)|].
  destruct (decide (values hs "content-length" = [])) as [Hcl|Hcl];
    [rewrite (bool_decide_eq_true_2 _ Hcl)|rewrite (bool_decide_eq_false_2 _ Hcl)];
    (destruct (decide (values hs "transfer-encoding" = [])) as [Hte|Hte];
    [rewrite (bool_decide_eq_true_2 _ Hte)|rewrite (bool_decide_eq_false_2 _ Hte)]); cbn [negb andb]; try done.
  - by intros [= <-].
  - destruct (list_elements (values hs "transfer-encoding")) as [|only [|? ?]] eqn:Hl; [done| |done].
    destruct (eq_ignore_case only (bytes "chunked")) eqn:Ech; [|done]. intros [= <-]. split; [done|].
    destruct (one_element _ _ _ Ete Hl) as (v & Hv & <-). exists v. split; [done|]. by apply bool_decide_eq_true in Ech.
  - destruct (list_elements (values hs "content-length")) as [|one [|? ?]] eqn:Hl; [done| |done].
    destruct (parse_length one) as [n|] eqn:Hn; [|done]. intros [= <-]. split; [done|].
    destruct (one_element _ _ _ Ecl Hl) as (v & Hv & <-). exists v. split; [done|]. by apply parse_length_val.
Qed.

(** C17: the framing a request is forwarded with has a single reading.  The
    forwarded header fields hold at most one framing field, Content-Length
    or Transfer-Encoding, with one element in it, and the body is relayed
    under exactly what it says; so repeated or conflicting framing is never
    accepted, equal repetitions included, and every reading of the framing a
    lenient peer might prefer is that one.  They carry exactly one Host, a
    plain host and port; no Connection option lets a later hop drop Host or
    a framing field. *)
Theorem forwarded_framing_unambiguous buf r n :
  parse_request buf = Ok (Complete r n) ->
  framed_once (rq_headers r) (rq_body r) /\
  (forall f, reads_framing (rq_headers r) f <-> f = rq_body r) /\
  (exists host, values (rq_headers r) "host" = [host] /\ is_host_authority host = true) /\
  (forall t, t ∈ list_elements (values (rq_headers r) "connection") ->
     lower t <> bytes "host" /\ lower t <> bytes "content-length" /\ lower t <> bytes "transfer-encoding").
Proof.
  unfold parse_request. destruct (is_h2_preface_start buf); [done|]. intros H.
  apply result_bind_Ok in H as ([head_len|] & _ & H); [|done]. apply result_bind_Ok in H as (r' & Hr & H).
  injection H as -> _. apply request_of_lines_inv in Hr as [hs Hac].
  pose proof (strip_h2c_spec hs) as Hst. rewrite <- (ac_strip _ _ Hac) in Hst.
  destruct (checks_stripped _ _ _ _ _ Hst (ac_checks _ _ Hac)) as [Hf Hh Hc].
  split; [by apply framing_once|]. split; [by apply framing_reading|]. split; [by destruct Hh as (host & ? & ? & _); exists host|].
  assert (Hnot : forall (p : list Z -> bool) t, existsb p (list_elements (values (rq_headers r) "connection")) = false ->
    t ∈ list_elements (values (rq_headers r) "connection") -> p t = false).
  { intros p t Hp Ht. apply not_true_is_false. intros Hpt. apply not_true_iff_false in Hp. apply Hp, existsb_exists.
    exists t. split; [by apply list_elem_of_In|done]. }
  intros t Ht. split; [by apply (bool_decide_eq_false_1 _), (Hnot _ t Hc Ht)|].
  unfold framing in Hf. cbv zeta in Hf. destruct (existsb _ _) eqn:E in Hf; [done|].
  apply (Hnot _ t) in E; [|done]. apply orb_false_iff in E as [E1 E2].
  by apply bool_decide_eq_false in E1, E2.
Qed.
