(* ===== verification/HttpRelay.v ===== *)
(** * The request half of one box connection (crates/bep/src/http.rs)

    [forward_requests] and what it calls.  The box's connection is the
    transcript of what successive reads return; the upstream is any instance
    of [Write].  Loops take fuel where they are not structural on the
    transcript. *)

From stdpp Require Import base list strings numbers.
From Stdlib Require Import ZArith Lia.
From S2P Require Import Prelude Bytes Http.
Open Scope Z_scope.

(** ** Readers and writers *)

(** What one [Read::read] returns; [RData []] is [Ok(0)], the end. *)
Inductive ReadEvent : Type :=
| RData (bs : list Z)
| RError (kind : ErrorKind).

Definition Reader : Type := list ReadEvent.

(** [std::io::Write], with the error of the call if it failed. *)
Class Write (W : Type) := {
  write_all : W -> list Z -> W * option ErrorKind;
  flush : W -> W * option ErrorKind;
}.

(** What the code relies on of a writer: the bytes of a successful write
    arrive, whole and in order; a failed one may have let a prefix through. *)
Class WriteLaws (W : Type) `{Write W} := {
  written : W -> list Z;
  write_all_ok w bs : (write_all w bs).2 = None -> written (write_all w bs).1 = written w ++ bs;
  write_all_err w bs k : (write_all w bs).2 = Some k ->
    exists p, p `prefix_of` bs /\ written (write_all w bs).1 = written w ++ p;
  flush_keeps w : written (flush w).1 = written w;
}.

(** ** Reading a head *)

(** [read_head]: the reader left, and the head with the bytes after it. *)
Fixpoint read_head {T} (parse : list Z -> result CloseReason (Parse T)) (buf : list Z) (reader : Reader)
    : Reader * result CloseReason (T * list Z) :=
  match parse buf with
  | Err e => (reader, Err e)
  | Ok (Complete head head_len) => (reader, Ok (head, drop head_len buf))
  | Ok Partial =>
      let ended := if bool_decide (buf = []) then ClientClosed else Eof in
      match reader with
      | [] => (reader, Err ended)
      | RData [] :: reader => (reader, Err ended)
      | RData bs :: reader => read_head parse (buf ++ bs) reader
      | RError EkInterrupted :: reader => read_head parse buf reader
      | RError kind :: reader => (reader, Err (IoErr kind))
      end
  end.

(** ** Relaying a body *)

Record BodyInput : Type := { bi_buf : list Z; bi_pos : nat; bi_reader : Reader }.

(** The loop of [BodyInput::fill], and [BodyInput::fill]. *)
Fixpoint fill_loop (buf : list Z) (reader : Reader) : BodyInput * result CloseReason () :=
  let stop reader e := ({| bi_buf := buf; bi_pos := 0; bi_reader := reader |}, Err e) in
  match reader with
  | [] => stop [] BodyEof
  | RData [] :: reader => stop reader BodyEof
  | RData bs :: reader => ({| bi_buf := buf ++ bs; bi_pos := 0; bi_reader := reader |}, Ok ())
  | RError EkInterrupted :: reader => fill_loop buf reader
  | RError kind :: reader => stop reader (IoErr kind)
  end.
Definition fill (i : BodyInput) : BodyInput * result CloseReason () :=
  fill_loop (drop (bi_pos i) (bi_buf i)) (bi_reader i).

(** The relay's effects: the input, the upstream and an early close. *)
Section relay.
Context {W : Type} `{Write W}.

Definition relay (A : Type) : Type := BodyInput -> W -> outcome (BodyInput * W * result CloseReason A).

#[global] Instance relay_ret : MRet relay := fun A a i w => Done (i, w, Ok a).
#[global] Instance relay_bind : MBind relay := fun A B f m i w =>
  match m i w with
  | Done (i, w, Ok a) => f a i w
  | Done (i, w, Err e) => Done (i, w, Err e)
  | Panicked => Panicked
  | OutOfFuel => OutOfFuel
  end.

Definition close {A} (e : CloseReason) : relay A := fun i w => Done (i, w, Err e).
Definition no_fuel {A} : relay A := fun _ _ => OutOfFuel.
Definition lift {A} (r : result CloseReason A) : relay A := fun i w => Done (i, w, r).
Definition do_fill : relay () := fun i w => let '(i, r) := fill i in Done (i, w, r).
Definition upstream (bs : list Z) : relay () := fun i w =>
  let '(w, e) := write_all w bs in
  Done (i, w, match e with None => Ok () | Some k => Err (IoErr k) end).
Definition available : relay (list Z) := fun i w => Done (i, w, Ok (drop (bi_pos i) (bi_buf i))).
Definition advance (n : nat) : relay () := fun i w =>
  Done ({| bi_buf := bi_buf i; bi_pos := bi_pos i + n; bi_reader := bi_reader i |}, w, Ok ()).

(** [BodyInput::copy]. *)
Fixpoint copy (fuel : nat) (n : Z) : relay () :=
  match fuel with
  | O => no_fuel
  | S fuel =>
      if n <=? 0 then mret ()
      else
        rest ← available;
        _ ← (if bool_decide (rest = []) then do_fill else mret ());
        rest ← available;
        let take_ := Nat.min (Z.to_nat n) (length rest) in
        _ ← upstream (take take_ rest);
        _ ← advance take_;
        copy fuel (n - Z.of_nat take_)
  end.

(** [BodyInput::line]. *)
Fixpoint line (fuel : nat) : relay (list Z) :=
  match fuel with
  | O => no_fuel
  | S fuel =>
      rest ← available;
      match find_window CRLF rest with
      | Some end_ =>
          if (MAX_CHUNK_LINE_LEN <? end_)%nat then close (Malformed "chunk_line_too_long")
          else
            _ ← advance (end_ + 2);
            if bare_cr_or_lf (take end_ rest) then close (Malformed "bare_cr_or_lf") else mret (take end_ rest)
      | None =>
          if (MAX_CHUNK_LINE_LEN <? length rest)%nat then close (Malformed "chunk_line_too_long")
          else _ ← do_fill; line fuel
      end
  end.

(** [u64::from_str_radix(_, 16)] of ASCII hex digits. *)
Definition hex_value (b : Z) : Z := if is_digit b then b - 48 else if is_upper b then b - 55 else b - 87.

Definition parse_chunk_size (line : list Z) : result CloseReason Z :=
  let malformed := Malformed "chunk_size" in
  let '(digits, extension) := match position (fun b => b =? SEMICOLON) line with
                              | Some semi => (take semi line, drop (semi + 1) line)
                              | None => (line, [])
                              end in
  if negb (forallb is_field_byte extension) then Err malformed
  else if bool_decide (digits = []) || (16 <? length digits)%nat || negb (forallb is_hexdigit digits) then Err malformed
  else ok_or malformed (checked_digits 16 hex_value 0 digits).

(** [format!("{size:x}")] of a [u64], which has at most 16 digits. *)
Definition hex_char (d : Z) : Z := if d <? 10 then 48 + d else 87 + d.
Fixpoint hex_digits (fuel : nat) (n : Z) (acc : list Z) : list Z :=
  match fuel with
  | O => acc
  | S fuel => if n =? 0 then acc else hex_digits fuel (n / 16) (hex_char (n mod 16) :: acc)
  end.
Definition show_hex (n : Z) : list Z := if n =? 0 then [48] else hex_digits 16 n [].

(** The two loops of [relay_chunked], with the body of the first for a chunk
    of [size] bytes.  Each line read uses up a unit of fuel. *)
Definition relay_chunk (fuel : nat) (size : Z) : relay () :=
  _ ← upstream (show_hex size ++ CRLF);
  _ ← copy fuel size;
  l ← line fuel;
  if negb (bool_decide (l = [])) then close (Malformed "chunk_data_crlf") else upstream CRLF.
Fixpoint relay_chunks (fuel : nat) : relay () :=
  match fuel with
  | O => no_fuel
  | S fuel' =>
      l ← line fuel;
      size ← lift (parse_chunk_size l);
      if size =? 0 then mret ()
      else _ ← relay_chunk fuel size; relay_chunks fuel'
  end.
Fixpoint skip_trailer (fuel : nat) (trailer_len : nat) : relay () :=
  match fuel with
  | O => no_fuel
  | S fuel' =>
      l ← line fuel;
      if bool_decide (l = []) then mret ()
      else if (MAX_HEAD_LEN <? trailer_len + length l + 2)%nat then close (Malformed "trailer_too_large")
      else skip_trailer fuel' (trailer_len + length l + 2)
  end.
Definition relay_chunked (fuel : nat) : relay () :=
  _ ← relay_chunks fuel;
  _ ← skip_trailer fuel 0;
  upstream (bytes "0" ++ CRLF ++ CRLF).

(** Everything still to come: a byte a unit, a read a unit. *)
Definition reader_size (r : Reader) : nat :=
  sum_list_with (fun e => S match e with RData bs => length bs | RError _ => 0%nat end) r.
Definition input_size (i : BodyInput) : nat := length (drop (bi_pos i) (bi_buf i)) + reader_size (bi_reader i).

(** [relay_request_body]: the reader, the upstream and the bytes read after
    the body. *)
Definition relay_request_body (f : Forwarded) (reader : Reader) (w : W)
    : outcome (Reader * W * result CloseReason (list Z)) :=
  let i := {| bi_buf := fw_rest f; bi_pos := 0; bi_reader := reader |} in
  let fuel := S (input_size i) in
  r ← match rq_body (fw_request f) with
      | BfNone => Done (i, w, Ok ())
      | BfContentLength n => copy fuel n i w
      | BfChunked => relay_chunked fuel i w
      end;
  let '(i, w, r) := r : BodyInput * W * result CloseReason () in
  match r with
  | Err e => Done (bi_reader i, w, Err e)
  | Ok _ =>
      let '(w, e) := flush w in
      Done (bi_reader i, w, match e with
                            | Some k => Err (IoErr k)
                            | None => Ok (drop (bi_pos i) (bi_buf i))
                            end)
  end.

(** ** Requests *)

(** [forward_head]. *)
Definition forward_head (box_id : string) (pending : list Z) (client : Reader) (w : W) (audit : list AuditEvent)
    : Reader * W * list AuditEvent * result CloseReason Forwarded :=
  let '(client, r) := read_head parse_request pending client in
  let '(w, result) :=
    match r with
    | Err e => (w, Err e)
    | Ok (request, rest) =>
        let '(w, e) := write_all w (serialize_request request) in
        match e with
        | Some k => (w, Err (IoErr k))
        | None => let '(w, e) := flush w in
                  (w, match e with
                      | Some k => Err (IoErr k)
                      | None => Ok {| fw_request := request; fw_rest := rest |}
                      end)
        end
    end in
  let audit := match result with
               | Err reason => match audit_marker reason with
                               | Some marker => audit ++ [{| ae_box_id := box_id; ae_marker := marker;
                                                             ae_rule := close_rule reason |}]
                               | None => audit
                               end
               | Ok _ => audit
               end in
  (client, w, audit, result).

(** [forward_requests]. *)
Fixpoint forward_loop (fuel : nat) (box_id : string) (pending : list Z) (client : Reader) (w : W)
    (audit : list AuditEvent) : outcome (Reader * W * list AuditEvent * CloseReason) :=
  match fuel with
  | O => OutOfFuel
  | S fuel =>
      let '(client, w, audit, r) := forward_head box_id pending client w audit in
      match r with
      | Err reason => Done (client, w, audit, reason)
      | Ok forwarded =>
          r ← relay_request_body forwarded client w;
          let '(client, w, r) := r : Reader * W * result CloseReason (list Z) in
          match r with
          | Err reason => Done (client, w, audit, reason)
          | Ok pending =>
              if switches_protocol (fw_request forwarded) then Done (client, w, audit, ProtocolSwitch pending)
              else forward_loop fuel box_id pending client w audit
          end
      end
  end.
Definition forward_requests (box_id : string) (client : Reader) (w : W) (audit : list AuditEvent)
    : outcome (Reader * W * list AuditEvent * CloseReason) :=
  forward_loop (S (reader_size client)) box_id [] client w audit.
End relay.
