(* ===== verification/HttpRelayProps.v ===== *)
(** * What the proxy relays of a connection (crates/bep/src/http.rs)

    How the box's bytes are cut into reads does not matter; a refused head
    writes nothing; what reaches the upstream is a sequence of canonical
    messages, each body under the framing its head declares. *)

From stdpp Require Import base list strings numbers.
From Stdlib Require Import ZArith Lia.
From S2P Require Import Prelude Bytes Http HttpProps HttpRelay.
Open Scope Z_scope.

(** ** Parsing is stable under more bytes *)

Lemma starts_with_more p l r : starts_with p l = true -> starts_with p (l ++ r) = true.
Proof. rewrite !starts_with_iff. intros [s ->]. exists (s ++ r). by rewrite app_assoc. Qed.

Lemma starts_with_less p l r : (length p <= length l)%nat -> starts_with p (l ++ r) = true -> starts_with p l = true.
Proof.
  rewrite !starts_with_iff. intros Hlen [s Hs]. exists (drop (length p) l).
  rewrite <- (take_drop (length p) l) at 1. f_equal.
  apply (f_equal (take (length p))) in Hs. rewrite take_app_length, take_app_le in Hs by done. done.
Qed.

Lemma find_window_length pat l n : find_window pat l = Some n -> (n + length pat <= length l)%nat.
Proof. intros (a & r & -> & <-)%find_window_Some. rewrite !length_app. lia. Qed.

Lemma find_window_more pat l n r : find_window pat l = Some n -> find_window pat (l ++ r) = Some n.
Proof.
  revert n. induction l as [|x l IH]; intros n.
  - simpl. destruct (starts_with pat []) eqn:E; [|done]. intros [= <-].
    apply (starts_with_more _ _ r) in E. simpl in E. destruct r; simpl; by rewrite E.
  - cbn [find_window app]. destruct (starts_with pat (x :: l)) eqn:E.
    + intros [= <-]. apply (starts_with_more _ _ r) in E. simpl in E. by rewrite E.
    + destruct (find_window pat l) as [m|] eqn:Hm; [|done]. intros [= <-].
      destruct (starts_with pat (x :: l ++ r)) eqn:E'.
      * apply (starts_with_less pat (x :: l) r) in E'; [congruence|].
        apply find_window_length in Hm. simpl. lia.
      * by rewrite (IH m eq_refl).
Qed.

Lemma head_end_more buf ext :
  head_end buf <> Ok None ->
  head_end (buf ++ ext) = head_end buf /\
  forall n, head_end buf = Ok (Some n) -> (4 <= n <= length buf)%nat.
Proof.
  unfold head_end. cbv zeta.
  assert (Hcut : exists x, take (Nat.min (length (buf ++ ext)) MAX_HEAD_LEN) (buf ++ ext) =
                           take (Nat.min (length buf) MAX_HEAD_LEN) buf ++ x).
  { destruct (Nat.le_gt_cases MAX_HEAD_LEN (length buf)) as [Hge|Hlt].
    - exists []. rewrite !Nat.min_r by (rewrite ?length_app; lia). by rewrite app_nil_r, take_app_le.
    - rewrite (Nat.min_l (length buf)) by lia. rewrite (take_ge buf) by lia.
      rewrite take_app_ge by (rewrite length_app; lia). eauto. }
  destruct (find_window (CRLF ++ CRLF) (take (Nat.min (length buf) MAX_HEAD_LEN) buf)) as [pos|] eqn:E.
  - intros _. destruct Hcut as [x ->]. rewrite (find_window_more _ _ _ x E). split; [done|].
    intros n [= <-]. apply find_window_length in E. rewrite length_take in E. simpl in E. lia.
  - destruct (Nat.leb_spec MAX_HEAD_LEN (length buf)) as [Hge|Hlt]; [|done]. intros _. split; [|done].
    rewrite (Nat.min_r (length (buf ++ ext))) by (rewrite length_app; lia). rewrite take_app_le by done.
    rewrite Nat.min_r in E by done. rewrite E. destruct (Nat.leb_spec MAX_HEAD_LEN (length (buf ++ ext))); [done|].
    rewrite length_app in *. lia.
Qed.

(** No head ends inside the line that opens HTTP/2. *)
Lemma h2_preface_more buf ext n :
  head_end buf = Ok (Some n) -> is_h2_preface_start buf = false -> is_h2_preface_start (buf ++ ext) = false.
Proof.
  intros Hend Hno. unfold is_h2_preface_start in *. cbv zeta in *.
  set (pre := take _ H2_PREFACE) in *. change (Nat.min _ _) with 16%nat in *.
  destruct (Nat.leb_spec 16 (length buf)) as [Hge|Hlt].
  - cbn [andb] in Hno. apply andb_false_iff. right. apply not_true_is_false. intros Ht.
    apply starts_with_less in Ht; [congruence|done].
  - apply andb_false_iff. right. apply not_true_is_false. intros [s Hs]%starts_with_iff.
    unfold head_end in Hend. cbv zeta in Hend.
    destruct (find_window (CRLF ++ CRLF) _) as [pos|] eqn:E; [|by destruct (_ <=? _)%nat].
    rewrite take_ge in E by (unfold MAX_HEAD_LEN; lia).
    assert (Hpre : pre = buf ++ drop (length buf) pre).
    { rewrite <- (take_drop (length buf) pre) at 1. f_equal.
      apply (f_equal (take (length buf))) in Hs. rewrite take_app_length in Hs.
      rewrite take_app_le in Hs by (change (length pre) with 16%nat; lia). done. }
    apply (find_window_more _ _ _ (drop (length buf) pre)) in E. rewrite <- Hpre in E. by vm_compute in E.
Qed.

(** A parser whose verdict on a buffer does not change when more arrives. *)
Definition stable {T} (parse : list Z -> result CloseReason (Parse T)) : Prop :=
  forall buf ext, parse buf <> Ok Partial ->
    parse (buf ++ ext) = parse buf /\ forall h n, parse buf = Ok (Complete h n) -> (0 < n <= length buf)%nat.

Lemma parse_request_stable : stable parse_request.
Proof.
  intros buf ext. unfold parse_request. destruct (is_h2_preface_start buf) eqn:Hh2.
  { intros _. split; [|done]. unfold is_h2_preface_start in *. cbv zeta in *.
    apply andb_prop in Hh2 as [Hl Hs]. apply (starts_with_more _ _ ext) in Hs. rewrite Hs, andb_true_r.
    apply Nat.leb_le in Hl. rewrite (proj2 (Nat.leb_le _ _)); [done|]. rewrite length_app. lia. }
  destruct (head_end buf) as [[n|]|e] eqn:Hend; [| |]; cbn [mbind result_bind]; [|done|].
  - destruct (head_end_more buf ext) as [Hmore Hn]; [congruence|]. rewrite Hend in Hmore. specialize (Hn n Hend).
    rewrite (h2_preface_more buf ext n Hend Hh2), Hmore. cbn [mbind result_bind].
    rewrite take_app_le by lia. intros _. split; [done|].
    intros h m Hp. apply result_bind_Ok in Hp as (r & _ & [= _ <-]). lia.
  - intros _. destruct (head_end_more buf ext) as [Hmore _]; [congruence|].
    assert (Hlong : (MAX_HEAD_LEN <= length buf)%nat).
    { unfold head_end in Hend. cbv zeta in Hend. destruct (find_window _ _); [done|].
      destruct (Nat.leb_spec MAX_HEAD_LEN (length buf)); done. }
    split; [|done]. rewrite Hmore, Hend.
    assert (Hh2' : is_h2_preface_start (buf ++ ext) = false).
    { unfold is_h2_preface_start in *. cbv zeta in *. change (Nat.min _ _) with 16%nat in *.
      rewrite (proj2 (Nat.leb_le 16 (length buf))) in Hh2 by (unfold MAX_HEAD_LEN in Hlong; lia).
      cbn [andb] in Hh2. apply andb_false_iff. right. apply not_true_is_false. intros Ht.
      apply starts_with_less in Ht; [congruence|]. change (length (take 16 H2_PREFACE)) with 16%nat.
      unfold MAX_HEAD_LEN in Hlong. lia. }
    by rewrite Hh2'.
Qed.

(** ** Reads *)

(** The bytes a transcript delivers, and the error it ends with if any. *)
Fixpoint stream (r : Reader) : list Z * option ErrorKind :=
  match r with
  | [] | RData [] :: _ => ([], None)
  | RData bs :: r => (bs ++ (stream r).1, (stream r).2)
  | RError EkInterrupted :: r => stream r
  | RError k :: _ => ([], Some k)
  end.

Lemma read_head_stream {T} (parse : list Z -> result CloseReason (Parse T)) r buf :
  stable parse ->
  let '(r', res) := read_head parse buf r in
  match parse (buf ++ (stream r).1) with
  | Err e => res = Err e
  | Ok (Complete h n) =>
      exists rest, res = Ok (h, rest) /\ rest ++ (stream r').1 = drop n (buf ++ (stream r).1) /\ (stream r').2 = (stream r).2
  | Ok Partial =>
      res = Err (match (stream r).2 with
                 | Some k => IoErr k
                 | None => if bool_decide (buf ++ (stream r).1 = []) then ClientClosed else Eof
                 end)
  end.
Proof.
  intros Hst. revert buf. induction r as [|ev r IH]; intros buf.
  all: cbn [read_head]; destruct (parse buf) as [[h n|]|e] eqn:Hp.
  all: try (destruct (Hst buf (stream (ev :: r)).1) as [Hmore Hlen]; [congruence|]; rewrite Hmore, Hp; try done;
            exists (drop n buf); destruct (Hlen h n Hp); rewrite drop_app_le by lia; done).
  - simpl. rewrite app_nil_r, Hp. exists (drop n buf). by rewrite app_nil_r.
  - simpl. rewrite app_nil_r, Hp. done.
  - simpl. rewrite app_nil_r, Hp. done.
  - destruct ev as [[|b bs]|[|code]]; cbn [stream fst snd].
    + rewrite app_nil_r, Hp. done.
    + specialize (IH (buf ++ b :: bs)). rewrite <- app_assoc in IH. exact IH.
    + apply IH.
    + rewrite app_nil_r, Hp. done.
Qed.

(** How the box's bytes are cut into reads does not matter.  Two
    transcripts that deliver the same bytes and end the same way give the
    same request with the same bytes left after it, or the same refusal:
    a box cannot steer the parser by its packet boundaries. *)
Theorem reads_do_not_matter r1 r2 buf :
  stream r1 = stream r2 ->
  match (read_head parse_request buf r1).2, (read_head parse_request buf r2).2 with
  | Ok (q1, rest1), Ok (q2, rest2) =>
      q1 = q2 /\ rest1 ++ (stream (read_head parse_request buf r1).1).1 =
                 rest2 ++ (stream (read_head parse_request buf r2).1).1
  | Err e1, Err e2 => e1 = e2
  | _, _ => False
  end.
Proof.
  intros Hs. pose proof (read_head_stream parse_request r1 buf parse_request_stable) as H1.
  pose proof (read_head_stream parse_request r2 buf parse_request_stable) as H2. rewrite <- Hs in H2.
  destruct (read_head parse_request buf r1) as [r1' res1]. destruct (read_head parse_request buf r2) as [r2' res2].
  cbn [fst snd]. destruct (parse_request (buf ++ (stream r1).1)) as [[h n|]|e].
  - destruct H1 as (x & -> & Hx & _). destruct H2 as (y & -> & Hy & _). split; [done|]. by rewrite Hx, Hy.
  - by rewrite H1, H2.
  - by rewrite H1, H2.
Qed.

(** ** Chunk sizes *)

Lemma foldl_digits_ge base (f : Z -> Z) acc l :
  1 <= base -> 0 <= acc -> (forall d, d ∈ l -> 0 <= f d) -> acc <= foldl (fun acc d => acc * base + f d) acc l.
Proof.
  intros Hb. revert acc. induction l as [|d l IH]; intros acc Ha Hf; simpl; [lia|].
  assert (0 <= f d) by (apply Hf; by left). etransitivity; [|apply IH; [nia|intros; apply Hf; by right]]. nia.
Qed.

Lemma checked_digits_fits base (f : Z -> Z) acc l :
  1 <= base -> 0 <= acc -> (forall d, d ∈ l -> 0 <= f d) ->
  foldl (fun acc d => acc * base + f d) acc l <= 18446744073709551615 ->
  checked_digits base f acc l = Some (foldl (fun acc d => acc * base + f d) acc l).
Proof.
  intros Hb. revert acc. induction l as [|d l IH]; intros acc Ha Hf Hle; simpl in *; [done|].
  assert (Hd : 0 <= f d) by (apply Hf; by left). unfold checked_digit.
  assert (Hl : forall x, x ∈ l -> 0 <= f x) by (intros; apply Hf; by right).
  pose proof (foldl_digits_ge base f (acc * base + f d) l Hb ltac:(nia) Hl).
  rewrite (proj2 (Z.leb_le _ _)) by lia. apply IH; [nia|done|done].
Qed.

Lemma checked_digits_max base f acc l n :
  acc <= 18446744073709551615 -> checked_digits base f acc l = Some n -> n <= 18446744073709551615.
Proof.
  revert acc. induction l as [|d l IH]; intros acc Ha; simpl; [intros [= <-]; lia|].
  unfold checked_digit. destruct (Z.leb_spec (acc * base + f d) 18446744073709551615); [by apply IH|done].
Qed.

(** A digit [{:x}] prints. *)
Definition is_hex_char (b : Z) : Prop := 48 <= b <= 57 \/ 97 <= b <= 102.

Lemma hex_char_spec d : 0 <= d < 16 -> is_hex_char (hex_char d) /\ hex_value (hex_char d) = d.
Proof.
  intros Hd. unfold is_hex_char, hex_value, hex_char, is_digit, is_upper, in_range.
  destruct (Z.ltb_spec d 10).
  - rewrite (proj2 (Z.leb_le 48 _)), (proj2 (Z.leb_le _ 57)) by lia. simpl. lia.
  - rewrite (proj2 (Z.leb_gt _ 57)), andb_false_r, (proj2 (Z.leb_gt _ 90)), andb_false_r by lia. lia.
Qed.

Lemma hex_digits_spec fuel n acc :
  0 <= n < 16 ^ Z.of_nat fuel ->
  exists ds, hex_digits fuel n acc = ds ++ acc /\ Forall is_hex_char ds /\ (length ds <= fuel)%nat /\
    foldl (fun acc d => acc * 16 + hex_value d) 0 ds = n /\ (0 < n -> ds <> []).
Proof.
  revert n acc. induction fuel as [|fuel IH]; intros n acc Hn.
  { simpl in Hn. exists []. simpl. repeat split; [constructor|lia..]. }
  cbn [hex_digits]. destruct (Z.eqb_spec n 0) as [->|Hnz].
  { exists []. simpl. repeat split; [constructor|lia..]. }
  assert (Hdiv : 0 <= n / 16 < 16 ^ Z.of_nat fuel).
  { rewrite Nat2Z.inj_succ, Z.pow_succ_r in Hn by lia.
    split; [apply Z.div_pos; lia|apply Z.div_lt_upper_bound; lia]. }
  destruct (IH (n / 16) (hex_char (n mod 16) :: acc) Hdiv) as (ds & -> & Hall & Hlen & Hval & _).
  destruct (hex_char_spec (n mod 16) ltac:(apply Z.mod_pos_bound; lia)) as [Hc Hv].
  exists (ds ++ [hex_char (n mod 16)]). rewrite <- app_assoc. split; [done|]. split.
  { apply list.Forall_app. split; [done|by constructor]. }
  split; [rewrite length_app; simpl; lia|]. split; [|intros _; by destruct ds].
  rewrite foldl_snoc, Hval, Hv. pose proof (Z.div_mod n 16). lia.
Qed.

Lemma hex_char_class b : is_hex_char b ->
  is_hexdigit b = true /\ b <> CR /\ b <> LF /\ b <> SEMICOLON /\ 0 <= hex_value b.
Proof.
  intros Hb. unfold is_hexdigit, hex_value, is_digit, is_upper, in_range, CR, LF, SEMICOLON.
  destruct Hb as [Hb|Hb].
  - rewrite (proj2 (Z.leb_le 48 b)), (proj2 (Z.leb_le b 57)) by lia. simpl. lia.
  - rewrite (proj2 (Z.leb_gt b 57)), andb_false_r, (proj2 (Z.leb_gt b 90)), andb_false_r by lia.
    rewrite (proj2 (Z.leb_le 97 b)), (proj2 (Z.leb_le b 102)) by lia. rewrite !orb_true_r. lia.
Qed.

Lemma show_hex_chars n : 0 < n <= 18446744073709551615 ->
  Forall is_hex_char (show_hex n) /\ (length (show_hex n) <= 16)%nat /\ show_hex n <> [] /\
  foldl (fun acc d => acc * 16 + hex_value d) 0 (show_hex n) = n.
Proof.
  intros Hn. unfold show_hex. destruct (Z.eqb_spec n 0); [lia|].
  destruct (hex_digits_spec 16 n []) as (ds & -> & Hall & Hlen & Hval & Hne); [simpl; lia|].
  rewrite app_nil_r. split; [done|]. split; [done|]. split; [apply Hne; lia|done].
Qed.

(** A canonical size line is read back. *)
Lemma show_hex_line n : 0 < n <= 18446744073709551615 ->
  line_ok (show_hex n) /\ (length (show_hex n) <= MAX_CHUNK_LINE_LEN)%nat /\ parse_chunk_size (show_hex n) = Ok n.
Proof.
  intros Hn. destruct (show_hex_chars n Hn) as (Hall & Hlen & Hne & Hval).
  rewrite list.Forall_forall in Hall.
  assert (Hcl : forall b, b ∈ show_hex n -> is_hexdigit b = true /\ b <> CR /\ b <> LF /\ b <> SEMICOLON /\ 0 <= hex_value b).
  { intros b Hb. by apply hex_char_class, Hall. }
  split; [split; intros Hb; destruct (Hcl _ Hb) as (_ & ? & ? & _); done|].
  split; [unfold MAX_CHUNK_LINE_LEN; lia|]. unfold parse_chunk_size.
  rewrite (proj2 (position_None _ _)); [|apply forallb_elem; intros b Hb; apply negb_true_iff, Z.eqb_neq; by apply Hcl].
  cbn [forallb negb]. rewrite bool_decide_eq_false_2 by done.
  destruct (Nat.ltb_spec 16 (length (show_hex n))); [lia|]. cbn [orb].
  rewrite (proj2 (forallb_elem is_hexdigit _)) by (intros b Hb; by apply Hcl). cbn [negb].
  rewrite checked_digits_fits, Hval; [done|lia|lia|intros d Hd; by apply Hcl|]. rewrite Hval. lia.
Qed.

Lemma parse_chunk_size_max l n : parse_chunk_size l = Ok n -> n <= 18446744073709551615.
Proof.
  unfold parse_chunk_size. destruct (match position _ l with Some _ => _ | None => _ end) as [digits ext].
  destruct (negb _); [done|]. destruct (_ || _); [done|].
  destruct (checked_digits 16 hex_value 0 digits) as [m|] eqn:E; [|done]. intros [= <-].
  by apply checked_digits_max in E.
Qed.

Lemma hexdigit_value b : is_hexdigit b = true -> 0 <= hex_value b.
Proof.
  unfold is_hexdigit, hex_value, is_digit, is_upper, in_range. intros Hb.
  destruct ((48 <=? b) && (b <=? 57)) eqn:E1; [bool_to_prop; lia|].
  destruct ((65 <=? b) && (b <=? 90)) eqn:E2; [bool_to_prop; lia|]. simpl in Hb.
  apply orb_true_iff in Hb as [Hb|Hb]; bool_to_prop; [|lia].
  apply andb_false_iff in E2 as [E2|E2]; apply Z.leb_gt in E2; lia.
Qed.

Lemma parse_chunk_size_nonneg l n : parse_chunk_size l = Ok n -> 0 <= n.
Proof.
  unfold parse_chunk_size. destruct (match position _ l with Some _ => _ | None => _ end) as [digits ext].
  destruct (negb _); [done|]. destruct (_ || _) eqn:E; [done|]. apply orb_false_iff in E as [_ E%negb_false_iff].
  destruct (checked_digits 16 hex_value 0 digits) as [m|] eqn:Em; [|done]. intros [= <-].
  apply checked_digits_val in Em as <-. apply foldl_digits_ge; [lia|lia|].
  intros d Hd. apply hexdigit_value. rewrite forallb_elem in E. auto.
Qed.

(** ** Chunked bodies *)

(** The chunks of a body as RFC 9112 writes them, without the trailer. *)
Definition size_line (l : list Z) (n : Z) : Prop :=
  line_ok l /\ (length l <= MAX_CHUNK_LINE_LEN)%nat /\ parse_chunk_size l = Ok n.

Inductive chunk_list : list Z -> list (list Z) -> list Z -> Prop :=
| chunk_last l t : size_line l 0 -> chunk_list (l ++ CRLF ++ t) [] t
| chunk_more l d t cs rest :
    size_line l (Z.of_nat (length d)) -> d <> [] -> chunk_list t cs rest ->
    chunk_list (l ++ CRLF ++ d ++ CRLF ++ t) (d :: cs) rest.

Inductive trailer : nat -> list Z -> list Z -> Prop :=
| trailer_end k t : trailer k (CRLF ++ t) t
| trailer_more k l t rest :
    l <> [] -> line_ok l -> (length l <= MAX_CHUNK_LINE_LEN)%nat -> (k + length l + 2 <= MAX_HEAD_LEN)%nat ->
    trailer (k + length l + 2) t rest -> trailer k (l ++ CRLF ++ t) rest.

Definition chunked_body (d : list Z) (chunks : list (list Z)) (rest : list Z) : Prop :=
  exists mid, chunk_list d chunks mid /\ trailer 0 mid rest.

Definition encode_chunk (d : list Z) : list Z := show_hex (Z.of_nat (length d)) ++ CRLF ++ d ++ CRLF.
Definition encode_chunks (cs : list (list Z)) : list Z := (cs ≫= encode_chunk) ++ bytes "0" ++ CRLF ++ CRLF.

(** A chunk the relay can write. *)
Definition chunk_fits (d : list Z) : Prop := 0 < Z.of_nat (length d) <= 18446744073709551615.

Lemma line_cut l l' t t' : line_ok l -> line_ok l' -> l ++ CRLF ++ t = l' ++ CRLF ++ t' -> l = l' /\ t = t'.
Proof. intros [Hl _] [Hl' _] E. apply cut_unique in E as [-> [= ->]]; done. Qed.

Lemma chunk_list_fun d cs rest : chunk_list d cs rest -> forall cs' rest', chunk_list d cs' rest' -> cs' = cs /\ rest' = rest.
Proof.
  assert (Hinv : forall d cs rest, chunk_list d cs rest -> exists l n t, size_line l n /\ d = l ++ CRLF ++ t /\
    ((n = 0 /\ cs = [] /\ rest = t) \/
     exists x t' cs', n = Z.of_nat (length x) /\ x <> [] /\ cs = x :: cs' /\ t = x ++ CRLF ++ t' /\ chunk_list t' cs' rest)).
  { intros ? ? ? [l t Hl|l x t cs0 rest0 Hl Hx Hc]; [exists l, 0, t; auto 8|].
    exists l, (Z.of_nat (length x)), (x ++ CRLF ++ t). split; [done|]. split; [done|]. right. exists x, t, cs0. auto 8. }
  induction 1 as [l t Hl|l x t cs rest Hl Hx Hc IH]; intros cs' rest' H'.
  - destruct (Hinv _ _ _ H') as (l' & n & t' & Hl' & E & Hcase).
    apply line_cut in E as [-> ->]; [|apply Hl|apply Hl'].
    assert (Hn : n = 0) by (destruct Hl as (_ & _ & E1), Hl' as (_ & _ & E2); congruence).
    destruct Hcase as [(_ & -> & ->)|(x & t2 & cs2 & -> & Hx & _)]; [done|]. destruct x; [done|simpl in Hn; lia].
  - destruct (Hinv _ _ _ H') as (l' & n & t' & Hl' & E & Hcase).
    apply line_cut in E as [-> E]; [|apply Hl|apply Hl'].
    assert (Hn : n = Z.of_nat (length x)) by (destruct Hl as (_ & _ & E1), Hl' as (_ & _ & E2); congruence).
    destruct Hcase as [(-> & _)|(x' & t2 & cs2 & -> & Hx' & -> & -> & Hc')]; [destruct x; [done|simpl in Hn; lia]|].
    apply app_inj_1 in E as [-> E]; [|lia]. apply app_inj_1 in E as [_ ->]; [|done].
    by destruct (IH _ _ Hc') as [-> ->].
Qed.

Lemma trailer_inv k d rest : trailer k d rest -> exists l t, line_ok l /\ d = l ++ CRLF ++ t /\
  ((l = [] /\ rest = t) \/ (l <> [] /\ trailer (k + length l + 2) t rest)).
Proof.
  intros [k' t|k' l t rest' Hne Hl _ _ Ht]; [exists [], t|exists l, t; auto].
  split; [split; apply not_elem_of_nil|auto].
Qed.

Lemma trailer_fun k d rest : trailer k d rest -> forall rest', trailer k d rest' -> rest' = rest.
Proof.
  assert (Hnil : line_ok []) by (split; apply not_elem_of_nil).
  induction 1 as [k t|k l t rest Hne Hl Hlen Hk Ht IH]; intros rest' H';
    apply trailer_inv in H' as (l' & t' & Hl' & E & Hcase).
  - apply (line_cut [] l') in E as [<- <-]; [|done|done]. by destruct Hcase as [[_ ->]|[? _]].
  - apply line_cut in E as [<- <-]; [|done|done]. destruct Hcase as [[-> _]|[_ Ht']]; [done|by apply IH].
Qed.

(** The canonical encoding reads back, and only as its own chunks. *)
Lemma encode_chunks_decodes cs rest : Forall chunk_fits cs -> chunked_body (encode_chunks cs ++ rest) cs rest.
Proof.
  intros Hcs. exists (CRLF ++ rest). split; [|constructor].
  assert (Hlast : chunk_list (bytes "0" ++ CRLF ++ CRLF ++ rest) [] (CRLF ++ rest)).
  { constructor. split; [|split; [vm_compute; lia|reflexivity]].
    split; apply (bool_decide_unpack _); by vm_compute. }
  unfold encode_chunks. rewrite <- !app_assoc. induction Hcs as [|d cs Hd Hcs IH]; [exact Hlast|].
  cbn [mbind list_bind]. unfold encode_chunk at 1. rewrite <- !app_assoc.
  constructor; [|intros ->; unfold chunk_fits in Hd; simpl in Hd; lia|exact IH]. by apply show_hex_line.
Qed.

Lemma chunked_body_fun d cs rest cs' rest' : chunked_body d cs rest -> chunked_body d cs' rest' -> cs' = cs /\ rest' = rest.
Proof.
  intros (m & Hc & Ht) (m' & Hc' & Ht'). destruct (chunk_list_fun _ _ _ Hc _ _ Hc') as [-> ->].
  by rewrite (trailer_fun _ _ _ Ht _ Ht').
Qed.

(** ** The relay's steps *)

Section relay.
Context {W : Type} `{WriteLaws W}.
Implicit Types (i : BodyInput) (w : W).

Definition rest_of i : list Z := drop (bi_pos i) (bi_buf i).
(** What the input still delivers. *)
Definition avail i : list Z := rest_of i ++ (stream (bi_reader i)).1.

Lemma input_fill_spec i :
  let '(i', r) := fill i in
  (input_size i' <= input_size i)%nat /\
  match r with
  | Ok _ => (input_size i' < input_size i)%nat /\ avail i' = avail i /\ exists b bs, rest_of i' = rest_of i ++ b :: bs
  | Err _ => (stream (bi_reader i)).1 = []
  end.
Proof.
  unfold fill, input_size, avail, rest_of. generalize (drop (bi_pos i) (bi_buf i)) as buf.
  induction (bi_reader i) as [|ev r IH]; intros buf; [simpl; rewrite drop_0; split; [lia|done]|].
  destruct ev as [[|b bs]|[|code]]; cbn [fill_loop].
  - simpl. rewrite drop_0. split; [lia|done].
  - simpl. rewrite drop_0, !length_app. simpl. split; [lia|]. split; [lia|]. split; [by rewrite <- app_assoc|eauto].
  - specialize (IH buf). destruct (fill_loop buf r) as [i' [[]|e]]; cbn [stream] in *; simpl reader_size;
      destruct IH as [Hle Hr]; (split; [lia|]); [|exact Hr]. destruct Hr as (? & ? & ?). split; [lia|done].
  - simpl. rewrite drop_0. split; [lia|done].
Qed.

(** The state after consuming [n] bytes of the buffer. *)
Definition consumed i (n : nat) : BodyInput := {| bi_buf := bi_buf i; bi_pos := bi_pos i + n; bi_reader := bi_reader i |}.

Lemma consumed_spec i n :
  (n <= length (rest_of i))%nat ->
  rest_of (consumed i n) = drop n (rest_of i) /\ avail i = take n (rest_of i) ++ avail (consumed i n) /\
  (input_size (consumed i n) + n = input_size i)%nat.
Proof.
  intros Hn. unfold avail, input_size. fold (rest_of i) (rest_of (consumed i n)).
  assert (Hr : rest_of (consumed i n) = drop n (rest_of i)) by (unfold rest_of, consumed; simpl; by rewrite drop_drop).
  rewrite Hr. split; [done|]. simpl. rewrite app_assoc, take_drop, length_drop. split; [done|lia].
Qed.

(** What reading one line leaves. *)
Definition line_result i (i' : BodyInput) (r : result CloseReason (list Z)) : Prop :=
  match r with
  | Ok l => line_ok l /\ (length l <= MAX_CHUNK_LINE_LEN)%nat /\ avail i = l ++ CRLF ++ avail i' /\
            (input_size i' + 2 <= input_size i)%nat
  | Err _ => (input_size i' <= input_size i)%nat
  end.

Lemma bare_false_ok l : bare_cr_or_lf l = false -> line_ok l.
Proof.
  unfold bare_cr_or_lf. intros Hb. apply not_true_iff_false in Hb.
  split; intros Hx; apply Hb, existsb_exists; eexists; (split; [by apply list_elem_of_In|done]).
Qed.

Lemma line_spec fuel i w :
  (input_size i < fuel)%nat -> exists i' r, line fuel i w = Done (i', w, r) /\ line_result i i' r.
Proof.
  revert i. induction fuel as [|fuel IH]; intros i Hf; [lia|]. cbn [line]. unfold mbind, relay_bind, available.
  cbv beta iota. fold (rest_of i). destruct (find_window CRLF (rest_of i)) as [end_|] eqn:Hw.
  - destruct (Nat.ltb_spec MAX_CHUNK_LINE_LEN end_) as [Hlong|Hshort].
    { eexists _, _. split; [reflexivity|]. simpl. lia. }
    unfold advance. cbv beta iota. fold (consumed i (end_ + 2)).
    pose proof (find_window_length _ _ _ Hw) as Hlen. simpl in Hlen.
    destruct (consumed_spec i (end_ + 2) ltac:(lia)) as (_ & Hav & Hsz).
    destruct (bare_cr_or_lf (take end_ (rest_of i))) eqn:Hb.
    { eexists _, _. split; [reflexivity|]. simpl. lia. }
    eexists _, _. split; [reflexivity|]. apply find_window_Some in Hw as (a & r & Hr & Ha).
    assert (Hta : take end_ (rest_of i) = a) by (rewrite Hr, <- Ha; apply take_app_length).
    simpl. rewrite Hta in *. split; [by apply bare_false_ok|]. split; [lia|]. split; [|lia].
    rewrite Hav, Hr. rewrite (app_assoc a), take_app_length' by (rewrite length_app; simpl; lia).
    by rewrite <- app_assoc.
  - destruct (Nat.ltb_spec MAX_CHUNK_LINE_LEN (length (rest_of i))).
    { eexists _, _. split; [reflexivity|]. simpl. lia. }
    unfold do_fill. pose proof (input_fill_spec i) as Hfill. destruct (fill i) as [i1 [[]|e]]; destruct Hfill as [Hle Hrest].
    + destruct Hrest as (Hlt & Hav & _). destruct (IH i1 ltac:(lia)) as (i' & r & -> & Hres).
      exists i', r. split; [done|]. destruct r; simpl in *; [|lia]. rewrite <- Hav.
      destruct Hres as (? & ? & ? & ?). split; [done|]. split; [done|]. split; [done|lia].
    + eexists _, _. split; [reflexivity|]. simpl. lia.
Qed.

(** What a copy of [n] bytes leaves: exactly [n] bytes on success, at most
    [n] on failure. *)
Definition copy_result (n : Z) i (i' : BodyInput) w w' (r : result CloseReason ()) : Prop :=
  (input_size i' <= input_size i)%nat /\
  exists p, written w' = written w ++ p /\
  match r with
  | Ok _ => Z.of_nat (length p) = Z.max 0 n /\ avail i = p ++ avail i'
  | Err _ => Z.of_nat (length p) <= Z.max 0 n
  end.

Lemma upstream_spec i w bs :
  exists w' r, upstream bs i w = Done (i, w', r) /\
    match r with
    | Ok _ => written w' = written w ++ bs
    | Err e => exists k p, e = IoErr k /\ p `prefix_of` bs /\ written w' = written w ++ p
    end.
Proof.
  unfold upstream. pose proof (write_all_ok w bs) as Hok. pose proof (write_all_err w bs) as Herr.
  destruct (write_all w bs) as [w' [k|]]; simpl in *; eexists _, _; (split; [reflexivity|]); simpl; [|auto].
  destruct (Herr k eq_refl) as (p & Hp & Hw). by exists k, p.
Qed.

Lemma copy_spec fuel n i w :
  (input_size i < fuel)%nat -> exists i' w' r, copy fuel n i w = Done (i', w', r) /\ copy_result n i i' w w' r.
Proof.
  revert n i w. induction fuel as [|fuel IH]; intros n i w Hf; [lia|]. cbn [copy].
  destruct (Z.leb_spec n 0) as [Hn|Hn].
  { eexists _, _, _. split; [reflexivity|]. split; [done|]. exists []. rewrite app_nil_r. simpl. split; [done|].
    split; [lia|done]. }
  unfold mbind, relay_bind, available at 1. cbv beta iota. fold (rest_of i).
  (* after the refill, if one was needed *)
  assert (Hstart : exists i1 r1, (if bool_decide (rest_of i = []) then do_fill else mret ()) i w = Done (i1, w, r1) /\
    (input_size i1 <= input_size i)%nat /\
    match r1 with Ok _ => avail i1 = avail i /\ rest_of i1 <> [] | Err _ => True end).
  { case_bool_decide as Hr.
    - unfold do_fill. pose proof (input_fill_spec i) as Hfill. destruct (fill i) as [i1 [[]|e]]; destruct Hfill as [Hle Hrest];
        eexists _, _; (split; [reflexivity|]); (split; [done|]); [|done].
      destruct Hrest as (_ & Hav & b & bs & Hb). split; [done|]. rewrite Hb. by destruct (rest_of i).
    - by exists i, (Ok ()). }
  destruct Hstart as (i1 & [[]|e] & -> & Hle & Hi1).
  2: { eexists _, _, _. split; [reflexivity|]. split; [done|]. exists []. rewrite app_nil_r. simpl. split; [done|lia]. }
  destruct Hi1 as [Hav Hne]. unfold available. cbv beta iota. fold (rest_of i1).
  set (t := Nat.min (Z.to_nat n) (length (rest_of i1))).
  assert (Ht : (0 < t <= length (rest_of i1))%nat /\ Z.of_nat t <= n).
  { subst t. destruct (rest_of i1); [done|]. simpl length. split; [split; [|lia]|lia]. apply Nat.min_glb_lt; lia. }
  destruct (upstream_spec i1 w (take t (rest_of i1))) as (w1 & [[]|e] & -> & Hw).
  2: { destruct Hw as (k & p & -> & [q Hq] & Hw). eexists _, _, _. split; [reflexivity|]. split; [done|].
       exists p. split; [done|]. apply (f_equal length) in Hq. rewrite length_take, length_app in Hq. simpl. lia. }
  unfold advance. cbv beta iota. fold (consumed i1 t).
  destruct (consumed_spec i1 t ltac:(lia)) as (_ & Hav1 & Hsz).
  destruct (IH (n - Z.of_nat t) (consumed i1 t) w1 ltac:(lia)) as (i' & w' & r & -> & Hsz' & p & Hp & Hres).
  eexists _, _, _. split; [reflexivity|]. split; [lia|]. exists (take t (rest_of i1) ++ p).
  split; [by rewrite Hp, Hw, app_assoc|]. rewrite length_app, length_take.
  destruct r; [|lia]. destruct Hres as [Hlen Hav2]. split; [lia|]. by rewrite <- Hav, Hav1, Hav2, app_assoc.
Qed.

Lemma relay_bind_Ok {A B} (m : relay A) (f : A -> relay B) i w i' w' a :
  m i w = Done (i', w', Ok a) -> (m ≫= f) i w = f a i' w'.
Proof. unfold mbind, relay_bind. by intros ->. Qed.

Lemma relay_bind_Err {A B} (m : relay A) (f : A -> relay B) i w i' w' e :
  m i w = Done (i', w', Err e) -> (m ≫= f) i w = Done (i', w', Err e).
Proof. unfold mbind, relay_bind. by intros ->. Qed.

(** A body cut short: a prefix of canonical chunks is upstream. *)
Definition cut_short w w' : Prop :=
  exists cs p, Forall chunk_fits cs /\ p `prefix_of` (cs ≫= encode_chunk) /\ written w' = written w ++ p.

Lemma cut_short_none w w' : written w' = written w -> cut_short w w'.
Proof. intros Hw. exists [], []. split; [constructor|]. split; [done|]. by rewrite app_nil_r. Qed.

Lemma cut_short_chunk w w' d p :
  chunk_fits d -> p `prefix_of` encode_chunk d -> written w' = written w ++ p -> cut_short w w'.
Proof.
  intros Hd Hp Hw. exists [d], p. split; [by constructor|]. split; [|done]. by rewrite bind_singleton.
Qed.

Lemma cut_short_later w w1 w' d :
  chunk_fits d -> written w1 = written w ++ encode_chunk d -> cut_short w1 w' -> cut_short w w'.
Proof.
  intros Hd Hw1 (cs & p & Hcs & Hp & Hw). exists (d :: cs), (encode_chunk d ++ p). split; [by constructor|].
  split; [cbn [mbind list_bind]; by apply prefix_app|]. by rewrite Hw, Hw1, app_assoc.
Qed.

(** The data a partial copy would have been completed with. *)
Lemma cut_short_data w w' n p :
  0 < n <= 18446744073709551615 -> Z.of_nat (length p) <= n ->
  written w' = written w ++ (show_hex n ++ CRLF) ++ p -> cut_short w w'.
Proof.
  intros Hn Hp Hw. set (d := p ++ replicate (Z.to_nat n - length p) 0).
  assert (Hlen : Z.of_nat (length d) = n) by (unfold d; rewrite length_app, length_replicate; lia).
  apply (cut_short_chunk w w' d ((show_hex n ++ CRLF) ++ p)); [unfold chunk_fits; lia| |done].
  unfold encode_chunk. rewrite Hlen, <- !app_assoc. do 2 apply prefix_app. unfold d. rewrite <- app_assoc.
  apply prefix_app_r. done.
Qed.

Definition chunks_result i (i' : BodyInput) w w' (r : result CloseReason ()) : Prop :=
  (input_size i' <= input_size i)%nat /\
  match r with
  | Ok _ => exists cs, Forall chunk_fits cs /\ chunk_list (avail i) cs (avail i') /\
                       written w' = written w ++ (cs ≫= encode_chunk)
  | Err _ => cut_short w w'
  end.

(** The relay's cases: a step that closed, or its value. *)
Local Ltac closed H := rewrite (relay_bind_Err _ _ _ _ _ _ _ H); eexists _, _, _; (split; [reflexivity|]).
Local Ltac value H := rewrite (relay_bind_Ok _ _ _ _ _ _ _ H).

Lemma relay_chunk_spec fuel n i w :
  (input_size i < fuel)%nat -> 0 < n <= 18446744073709551615 ->
  exists i' w' r, relay_chunk fuel n i w = Done (i', w', r) /\ (input_size i' <= input_size i)%nat /\
    match r with
    | Ok _ => exists d, Z.of_nat (length d) = n /\ avail i = d ++ CRLF ++ avail i' /\ written w' = written w ++ encode_chunk d
    | Err _ => cut_short w w'
    end.
Proof.
  intros Hf Hn. unfold relay_chunk.
  destruct (upstream_spec i w (show_hex n ++ CRLF)) as (w1 & [[]|e] & Hup & Hw1).
  2: { destruct Hw1 as (k & p & -> & [q Hq] & Hw1). closed Hup. split; [done|].
       set (d := replicate (Z.to_nat n) 0).
       assert (Hd : Z.of_nat (length d) = n) by (unfold d; rewrite length_replicate; lia).
       apply (cut_short_chunk w w1 d p); [unfold chunk_fits; lia| |done]. unfold encode_chunk.
       rewrite Hd, app_assoc, Hq, <- app_assoc. by apply prefix_app_r. }
  value Hup. destruct (copy_spec fuel n i w1 Hf) as (i2 & w2 & r2 & Hcopy & Hsz2 & p & Hp & Hr2).
  assert (Hwd : written w2 = written w ++ (show_hex n ++ CRLF) ++ p) by (by rewrite Hp, Hw1, <- app_assoc).
  destruct r2 as [[]|e]; [|closed Hcopy; split; [done|apply (cut_short_data w w2 n p); [done|lia|done]]].
  value Hcopy. destruct Hr2 as [Hplen Hav2]. assert (Hlen : Z.of_nat (length p) = n) by lia.
  destruct (line_spec fuel i2 w2 ltac:(lia)) as (i3 & [l3|e] & Hline & Hl3); simpl in Hl3.
  2: { closed Hline. split; [lia|]. apply (cut_short_data w w2 n p); [done|lia|done]. }
  value Hline. destruct Hl3 as (_ & _ & Hav3 & Hsz3). case_bool_decide as Hl3; cbn [negb].
  2: { eexists _, _, _. split; [reflexivity|]. split; [lia|]. apply (cut_short_data w w2 n p); [done|lia|done]. }
  subst l3. destruct (upstream_spec i3 w2 CRLF) as (w3 & [[]|e] & -> & Hw3); eexists _, _, _; (split; [reflexivity|]); (split; [lia|]).
  - exists p. split; [done|]. split; [by rewrite Hav2, Hav3|]. rewrite Hw3, Hwd. unfold encode_chunk.
    by rewrite Hlen, <- !app_assoc.
  - destruct Hw3 as (k & q & -> & Hq & Hw3).
    apply (cut_short_chunk w w3 p ((show_hex n ++ CRLF) ++ p ++ q)); [unfold chunk_fits; lia| |].
    + unfold encode_chunk. rewrite Hlen, <- !app_assoc. do 3 apply prefix_app. done.
    + by rewrite Hw3, Hwd, <- !app_assoc.
Qed.

Lemma relay_chunks_spec fuel i w :
  (input_size i < fuel)%nat -> exists i' w' r, relay_chunks fuel i w = Done (i', w', r) /\ chunks_result i i' w w' r.
Proof.
  revert i w. induction fuel as [|fuel IH]; intros i w Hf; [lia|]. cbn [relay_chunks].
  destruct (line_spec (S fuel) i w Hf) as (i1 & [l|e] & Hline & Hl).
  2: { closed Hline. split; [exact Hl|by apply cut_short_none]. }
  value Hline. destruct Hl as (Hlok & Hllen & Hav & Hsz).
  destruct (parse_chunk_size l) as [n|e] eqn:Hn.
  2: { rewrite (relay_bind_Err (lift (Err e)) _ _ _ i1 w e) by done. eexists _, _, _. split; [reflexivity|].
       split; [lia|by apply cut_short_none]. }
  rewrite (relay_bind_Ok (lift (Ok n)) _ _ _ i1 w n) by done. destruct (Z.eqb_spec n 0) as [->|Hnz].
  { eexists _, _, _. split; [reflexivity|]. split; [lia|]. exists []. split; [constructor|].
    split; [rewrite Hav; by constructor|]. by rewrite app_nil_r. }
  assert (Hfit : 0 < n <= 18446744073709551615).
  { split; [|by apply parse_chunk_size_max in Hn]. apply parse_chunk_size_nonneg in Hn. lia. }
  destruct (relay_chunk_spec (S fuel) n i1 w ltac:(lia) Hfit) as (i2 & w2 & [[]|e] & Hchunk & Hsz2 & Hr2).
  2: { closed Hchunk. split; [lia|done]. }
  value Hchunk. destruct Hr2 as (d & Hd & Hav2 & Hw2). assert (Hdfit : chunk_fits d) by (unfold chunk_fits; lia).
  destruct (IH i2 w2 ltac:(lia)) as (i' & w' & r & Hrun & Hsz3 & Hr). exists i', w', r. split; [done|].
  split; [lia|]. destruct r as [[]|e]; [|by apply cut_short_later with w2 d].
  destruct Hr as (cs & Hcs & Hlist & Hw'). exists (d :: cs). split; [by constructor|]. split.
  - rewrite Hav, Hav2. constructor; [by rewrite Hd|intros ->; simpl in Hd; lia|done].
  - rewrite Hw', Hw2. cbn [mbind list_bind]. by rewrite <- app_assoc.
Qed.

Lemma skip_trailer_spec fuel k i w :
  (input_size i < fuel)%nat ->
  exists i' r, skip_trailer fuel k i w = Done (i', w, r) /\ (input_size i' <= input_size i)%nat /\
    match r with Ok _ => trailer k (avail i) (avail i') | Err _ => True end.
Proof.
  revert k i. induction fuel as [|fuel IH]; intros k i Hf; [lia|]. cbn [skip_trailer].
  destruct (line_spec (S fuel) i w Hf) as (i1 & [l|e] & Hline & Hl).
  2: { rewrite (relay_bind_Err _ _ _ _ _ _ _ Hline). eexists _, _. by split. }
  value Hline. destruct Hl as (Hlok & Hllen & Hav & Hsz). case_bool_decide as El.
  { eexists _, _. split; [reflexivity|]. split; [lia|]. rewrite Hav, El. constructor. }
  destruct (Nat.ltb_spec MAX_HEAD_LEN (k + length l + 2)); [eexists _, _; split; [reflexivity|]; split; [lia|done]|].
  destruct (IH (k + length l + 2)%nat i1 ltac:(lia)) as (i' & r & Hrun & Hsz' & Hr). exists i', r. split; [done|].
  split; [lia|]. destruct r; [|done]. rewrite Hav. by constructor.
Qed.

(** A relayed chunked body, and one cut short. *)
Definition chunked_result i (i' : BodyInput) w w' (r : result CloseReason ()) : Prop :=
  match r with
  | Ok _ => exists cs, Forall chunk_fits cs /\ chunked_body (avail i) cs (avail i') /\ written w' = written w ++ encode_chunks cs
  | Err _ => exists cs p, Forall chunk_fits cs /\ p `prefix_of` encode_chunks cs /\ written w' = written w ++ p
  end.

Lemma relay_chunked_spec fuel i w :
  (input_size i < fuel)%nat ->
  exists i' w' r, relay_chunked fuel i w = Done (i', w', r) /\ (input_size i' <= input_size i)%nat /\ chunked_result i i' w w' r.
Proof.
  intros Hf. unfold relay_chunked.
  destruct (relay_chunks_spec fuel i w Hf) as (i1 & w1 & [[]|e] & Hc & Hsz & Hr).
  2: { closed Hc. split; [done|]. destruct Hr as (cs & p & Hcs & Hp & Hw). exists cs, p. split; [done|].
       split; [|done]. unfold encode_chunks. by apply prefix_app_r. }
  value Hc. destruct Hr as (cs & Hcs & Hlist & Hw1).
  destruct (skip_trailer_spec fuel 0 i1 w1 ltac:(lia)) as (i2 & [[]|e] & Ht & Hsz2 & Htr).
  2: { closed Ht. split; [lia|]. exists cs, (cs ≫= encode_chunk). split; [done|]. split; [|done].
       unfold encode_chunks. by apply prefix_app_r. }
  value Ht. destruct (upstream_spec i2 w1 (bytes "0" ++ CRLF ++ CRLF)) as (w2 & [[]|e] & -> & Hw2);
    eexists _, _, _; (split; [reflexivity|]); (split; [lia|]).
  - exists cs. split; [done|]. split; [by exists (avail i1)|]. by rewrite Hw2, Hw1, <- app_assoc.
  - destruct Hw2 as (k & q & -> & Hq & Hw2). exists cs, ((cs ≫= encode_chunk) ++ q). split; [done|].
    split; [by apply prefix_app|]. by rewrite Hw2, Hw1, <- app_assoc.
Qed.

(** A chunked body reaches the upstream in one form only.  The relay
    always ends.  When it succeeds, what it wrote is the canonical encoding
    of exactly the chunks the box's bytes spell, trailer and extensions
    dropped, it consumed exactly that body, and the written bytes are read
    back, whatever follows, as those chunks and no others.  When it closes
    the connection, what reached the upstream is a prefix of a canonical
    body. *)
Theorem chunked_relay_canonical i w :
  exists i' w' r, relay_chunked (S (input_size i)) i w = Done (i', w', r) /\ chunked_result i i' w w' r /\
    forall cs rest cs' rest', Forall chunk_fits cs ->
      (chunked_body (encode_chunks cs ++ rest) cs' rest' <-> cs' = cs /\ rest' = rest).
Proof.
  destruct (relay_chunked_spec (S (input_size i)) i w ltac:(lia)) as (i' & w' & r & Hrun & _ & Hr).
  exists i', w', r. split; [done|]. split; [done|]. intros cs rest cs' rest' Hcs.
  pose proof (encode_chunks_decodes cs rest Hcs) as Hdec. split; [|by intros [-> ->]].
  intros H'. by apply (chunked_body_fun _ _ _ _ _ Hdec H').
Qed.

(** ** Messages *)

(** A request the parser accepted from some bytes. *)
Definition parsed (r : Request) : Prop := exists buf n, parse_request buf = Ok (Complete r n).

(** A body under a framing, as it reaches the upstream. *)
Definition body_of (f : BodyFraming) (b : list Z) : Prop :=
  match f with
  | BfNone => b = []
  | BfContentLength n => Z.of_nat (length b) = n
  | BfChunked => exists cs, Forall chunk_fits cs /\ b = encode_chunks cs
  end.

Definition message_bytes (m : Request * list Z) : list Z := serialize_request m.1 ++ m.2.
Definition message_ok (m : Request * list Z) : Prop := parsed m.1 /\ body_of (rq_body m.1) m.2.
(** A message cut short, or none. *)
Definition unfinished (tail : list Z) : Prop := tail = [] \/ exists m, message_ok m /\ tail `prefix_of` message_bytes m.

Lemma parsed_length_nonneg r n : parsed r -> rq_body r = BfContentLength n -> 0 <= n.
Proof.
  intros (buf & k & Hp) Hb. unfold parse_request in Hp. destruct (is_h2_preface_start buf); [done|].
  apply result_bind_Ok in Hp as ([head_len|] & _ & Hp); [|done]. apply result_bind_Ok in Hp as (r' & Hr & Hp).
  injection Hp as -> _. apply request_of_lines_inv in Hr as [hs Hac]. destruct (ac_checks _ _ Hac) as [Hf _ _].
  pose proof (proj2 (framing_reading _ _ Hf (rq_body r)) eq_refl) as Hread. rewrite Hb in Hread.
  inversion Hread as [|v e _ _ _ Hd Hn|]. unfold decimal. apply foldl_digits_ge; [lia|lia|].
  intros d Hin. rewrite forallb_elem in Hd. specialize (Hd d Hin). unfold is_digit, in_range in Hd. bool_to_prop. lia.
Qed.

Lemma parsed_body_exists r : parsed r -> exists b, body_of (rq_body r) b.
Proof.
  intros Hp. destruct (rq_body r) as [|n|] eqn:Hb; simpl; [by exists []| |].
  - exists (replicate (Z.to_nat n) 0). rewrite length_replicate. apply parsed_length_nonneg in Hb; [lia|done].
  - exists (encode_chunks []), []. by split; [constructor|].
Qed.

Lemma copy_body n i i' w w' r :
  0 <= n -> copy_result n i i' w w' r ->
  exists p, written w' = written w ++ p /\
    match r with Ok _ => body_of (BfContentLength n) p
               | Err _ => exists b, body_of (BfContentLength n) b /\ p `prefix_of` b end.
Proof.
  intros Hn (_ & p & Hw & Hr). exists p. split; [done|]. destruct r; simpl; [lia|].
  exists (p ++ replicate (Z.to_nat n - length p) 0). rewrite length_app, length_replicate. split; [lia|by apply prefix_app_r].
Qed.

(** What relaying a body writes and leaves. *)
Definition body_result (f : Forwarded) w w' (ok : bool) : Prop :=
  exists p, written w' = written w ++ p /\
    if ok then body_of (rq_body (fw_request f)) p
    else exists b, body_of (rq_body (fw_request f)) b /\ p `prefix_of` b.

Lemma relay_body_run f i w :
  parsed (fw_request f) ->
  exists i' w' r, match rq_body (fw_request f) with
                  | BfNone => Done (i, w, Ok ())
                  | BfContentLength n => copy (S (input_size i)) n i w
                  | BfChunked => relay_chunked (S (input_size i)) i w
                  end = Done (i', w', r) /\
    (input_size i' <= input_size i)%nat /\ body_result f w w' (match r with Ok _ => true | Err _ => false end).
Proof.
  intros Hp. unfold body_result. destruct (rq_body (fw_request f)) as [|n|] eqn:Hb.
  - exists i, w, (Ok ()). split; [done|]. split; [done|]. exists []. by rewrite app_nil_r.
  - destruct (copy_spec (S (input_size i)) n i w ltac:(lia)) as (i' & w' & r & -> & Hc). exists i', w', r.
    split; [done|]. split; [apply Hc|]. apply parsed_length_nonneg in Hb; [|done].
    destruct (copy_body n i i' w w' r Hb Hc) as (p & Hw & Hr). exists p. split; [done|]. by destruct r.
  - destruct (relay_chunked_spec (S (input_size i)) i w ltac:(lia)) as (i' & w' & r & -> & Hsz & Hr).
    exists i', w', r. split; [done|]. split; [done|]. destruct r; simpl in Hr.
    + destruct Hr as (cs & Hcs & _ & Hw). exists (encode_chunks cs). split; [done|]. by exists cs.
    + destruct Hr as (cs & p & Hcs & Hpre & Hw). exists p. split; [done|]. exists (encode_chunks cs).
      split; [by exists cs|done].
Qed.

Lemma relay_request_body_spec f reader w :
  parsed (fw_request f) ->
  exists reader' w' res, relay_request_body f reader w = Done (reader', w', res) /\
    body_result f w w' (match res with Ok _ => true | Err _ => false end) /\
    match res with
    | Ok rest => (length rest + reader_size reader' <= length (fw_rest f) + reader_size reader)%nat
    | Err _ => True
    end.
Proof.
  intros Hp. unfold relay_request_body. cbv zeta. set (i := {| bi_buf := fw_rest f; bi_pos := 0; bi_reader := reader |}).
  assert (Hsize : input_size i = (length (fw_rest f) + reader_size reader)%nat) by (unfold input_size; simpl; by rewrite drop_0).
  destruct (relay_body_run f i w Hp) as (i' & w' & r & -> & Hsz & Hr). rewrite bind_Done. destruct r as [[]|e].
  2: { eexists _, _, _. split; [reflexivity|]. done. }
  pose proof (flush_keeps w') as Hfl. destruct (flush w') as [w2 [k|]]; simpl in Hfl;
    eexists _, _, _; (split; [reflexivity|]); destruct Hr as (p & Hw & Hb); (split; [|done || (unfold input_size in *; lia)]);
    exists p; (split; [by rewrite Hfl|]); [by exists p|done].
Qed.

(** A body as it is taken from the bytes a client sends after a head: what
    the upstream gets of it, and the bytes that follow it. *)
Definition body_sent (f : BodyFraming) (input body rest : list Z) : Prop :=
  match f with
  | BfNone => body = [] /\ rest = input
  | BfContentLength n => Z.of_nat (length body) = n /\ input = body ++ rest
  | BfChunked => exists cs, Forall chunk_fits cs /\ chunked_body input cs rest /\ body = encode_chunks cs
  end.
Lemma body_sent_of f input body rest : body_sent f input body rest -> body_of f body.
Proof. destruct f; cbn; naive_solver. Qed.

Lemma relay_request_body_sent f reader w reader' w' rest :
  parsed (fw_request f) -> relay_request_body f reader w = Done (reader', w', Ok rest) ->
  exists p, written w' = written w ++ p /\
    body_sent (rq_body (fw_request f)) (fw_rest f ++ (stream reader).1) p (rest ++ (stream reader').1).
Proof.
  intros Hp. unfold relay_request_body. cbv zeta. set (i := {| bi_buf := fw_rest f; bi_pos := 0; bi_reader := reader |}).
  assert (avail i = fw_rest f ++ (stream reader).1) as Hav by done.
  assert (exists i1 w1 r, match rq_body (fw_request f) with
                  | BfNone => Done (i, w, Ok ())
                  | BfContentLength n => copy (S (input_size i)) n i w
                  | BfChunked => relay_chunked (S (input_size i)) i w
                  end = Done (i1, w1, r) /\
      (r = Ok () -> exists p, written w1 = written w ++ p /\ body_sent (rq_body (fw_request f)) (avail i) p (avail i1))) as (i1 & w1 & r & -> & Hr).
  { destruct (rq_body (fw_request f)) as [|n|] eqn:Hb.
    - exists i, w, (Ok ()). split; [done|]. intros _. exists []. by rewrite app_nil_r.
    - destruct (copy_spec (S (input_size i)) n i w ltac:(lia)) as (i1 & w1 & r & -> & _ & p & Hw & Hc). exists i1, w1, r. split; [done|].
      intros ->. exists p. apply parsed_length_nonneg in Hb; [|done]. split; [done|]. cbn. destruct Hc as [Hl Ha]. split; [lia|done].
    - destruct (relay_chunked_spec (S (input_size i)) i w ltac:(lia)) as (i1 & w1 & r & -> & _ & Hr). exists i1, w1, r. split; [done|].
      intros ->. destruct Hr as (cs & Hcs & Hbody & Hw). exists (encode_chunks cs). split; [done|]. by exists cs. }
  rewrite bind_Done. destruct r as [[]|e]; [|done]. destruct (Hr eq_refl) as (p & Hw & Hsent).
  pose proof (flush_keeps w1) as Hfl. destruct (flush w1) as [w2 [k|]]; cbn in Hfl; intros [= <- <- <-]. exists p. by rewrite Hfl.
Qed.

(** ** Heads *)

Lemma read_head_size buf reader reader' r rest :
  read_head parse_request buf reader = (reader', Ok (r, rest)) ->
  parsed r /\ (length rest + reader_size reader' < length buf + reader_size reader)%nat.
Proof.
  revert buf. induction reader as [|ev reader IH]; intros buf; cbn [read_head].
  all: destruct (parse_request buf) as [[h n|]|e] eqn:Hp.
  all: try (intros [= <- <- <-]; destruct (parse_request_stable buf []) as [_ Hn]; [congruence|];
            specialize (Hn h n Hp); split; [by exists buf, n|]; rewrite length_drop; lia).
  all: try done.
  destruct ev as [[|b bs]|[|code]]; try done.
  - intros Hr. destruct (IH _ Hr) as [? Hlt]. split; [done|]. rewrite length_app in Hlt. simpl in *. lia.
  - intros Hr. destruct (IH _ Hr) as [? Hlt]. split; [done|]. simpl in *. lia.
Qed.

(** What forwarding one head does. *)
Lemma forward_head_spec box_id pending client w audit client' w' audit' res :
  forward_head box_id pending client w audit = (client', w', audit', res) ->
  match res with
  | Ok f => parsed (fw_request f) /\ written w' = written w ++ serialize_request (fw_request f) /\ audit' = audit /\
            (length (fw_rest f) + reader_size client' < length pending + reader_size client)%nat
  | Err e =>
      audit' = audit ++ match audit_marker e with
                        | Some marker => [{| ae_box_id := box_id; ae_marker := marker; ae_rule := close_rule e |}]
                        | None => []
                        end /\
      (((exists r, (read_head parse_request pending client).2 = Err r /\ r = e) /\ w' = w) \/
       exists k r, e = IoErr k /\ parsed r /\ exists p, p `prefix_of` serialize_request r /\ written w' = written w ++ p)
  end.
Proof.
  unfold forward_head. destruct (read_head parse_request pending client) as [c1 [[q rest]|e]] eqn:Hr.
  2: { intros [= <- <- <- <-]. split; [by destruct (audit_marker e); rewrite ?app_nil_r|]. left. split; [by exists e|done]. }
  apply read_head_size in Hr as [Hq Hsz].
  pose proof (write_all_ok w (serialize_request q)) as Hok. pose proof (write_all_err w (serialize_request q)) as Herr.
  destruct (write_all w (serialize_request q)) as [w1 [k|]]; simpl in Hok, Herr.
  { intros [= <- <- <- <-]. simpl. split; [by rewrite app_nil_r|]. right. exists k, q.
    destruct (Herr k eq_refl) as (p & Hp & Hw). eauto. }
  specialize (Hok eq_refl). pose proof (flush_keeps w1) as Hfl.
  destruct (flush w1) as [w2 [k|]]; simpl in Hfl; intros [= <- <- <- <-].
  - simpl. split; [by rewrite app_nil_r|]. right. exists k, q. split; [done|]. split; [done|].
    exists (serialize_request q). split; [done|]. by rewrite Hfl.
  - simpl. split; [done|]. split; [by rewrite Hfl|]. split; [done|exact Hsz].
Qed.

(** C27: a refused head leaves no trace upstream.  When the head is refused
    (HTTP/2, ambiguous framing, a malformed, oversized or unfinished head)
    nothing at all is written; the refusal is audited, once, exactly when it
    is for ambiguous framing, under the box's name and the rule it broke; and
    a head that is forwarded is not audited. *)
Theorem refused_head_writes_nothing box_id pending client w audit :
  let '(_, w', audit', res) := forward_head box_id pending client w audit in
  match res with
  | Ok f => parsed (fw_request f) /\ written w' = written w ++ serialize_request (fw_request f) /\ audit' = audit
  | Err (FramingAmbiguous a) =>
      w' = w /\ audit' = audit ++ [{| ae_box_id := box_id; ae_marker := "framing_ambiguous"; ae_rule := ambiguity_rule a |}]
  | Err (IoErr _) => audit' = audit
  | Err _ => w' = w /\ audit' = audit
  end.
Proof.
  destruct (forward_head box_id pending client w audit) as [[[c' w'] audit'] res] eqn:Hf.
  apply forward_head_spec in Hf. destruct res as [f|e].
  - destruct Hf as (? & ? & ? & _). done.
  - destruct Hf as [Ha Hw].
    assert (Hio : (forall k, e <> IoErr k) -> w' = w) by (intros Hk; destruct Hw as [[_ ?]|(k & r & -> & _)]; [done|by destruct (Hk k)]).
    destruct e; simpl in Ha; rewrite ?app_nil_r in Ha; try done; (split; [by apply Hio|done]).
Qed.

Lemma forward_loop_spec fuel box_id pending client w audit :
  (length pending + reader_size client < fuel)%nat ->
  exists client' w' audit' reason, forward_loop fuel box_id pending client w audit = Done (client', w', audit', reason) /\
    exists msgs tail, Forall message_ok msgs /\ unfinished tail /\
      written w' = written w ++ (msgs ≫= message_bytes) ++ tail /\
      (audit' = audit \/ exists a, reason = FramingAmbiguous a /\ tail = [] /\
         audit' = audit ++ [{| ae_box_id := box_id; ae_marker := "framing_ambiguous"; ae_rule := ambiguity_rule a |}]).
Proof.
  revert pending client w audit. induction fuel as [|fuel IH]; intros pending client w audit Hfuel; [lia|].
  cbn [forward_loop]. destruct (forward_head box_id pending client w audit) as [[[c1 w1] audit1] res] eqn:Hh.
  apply forward_head_spec in Hh. destruct res as [f|e].
  - destruct Hh as (Hp & Hw1 & -> & Hsz).
    destruct (relay_request_body_spec f c1 w1 Hp) as (c2 & w2 & res & -> & (p & Hw2 & Hb) & Hr). rewrite bind_Done.
    destruct res as [rest|e].
    + assert (Hm : message_ok (fw_request f, p)) by done.
      assert (Hw : written w2 = written w ++ message_bytes (fw_request f, p)) by (by rewrite Hw2, Hw1, <- app_assoc).
      destruct (switches_protocol (fw_request f)).
      * eexists _, _, _, _. split; [reflexivity|]. exists [(fw_request f, p)], [].
        split; [by constructor|]. split; [by left|]. rewrite bind_singleton, app_nil_r. auto.
      * destruct (IH rest c2 w2 audit ltac:(lia)) as (c' & w' & a' & reason & -> & msgs & tail & Hms & Ht & Hw' & Ha).
        eexists _, _, _, _. split; [reflexivity|]. exists ((fw_request f, p) :: msgs), tail. split; [by constructor|].
        split; [done|]. split; [|done]. rewrite Hw', Hw. cbn [mbind list_bind]. by rewrite <- !app_assoc.
    + eexists _, _, _, _. split; [reflexivity|]. exists [], (serialize_request (fw_request f) ++ p). split; [constructor|].
      destruct Hb as (b & Hb & Hpre). split; [right; exists (fw_request f, b); split; [done|by apply prefix_app]|].
      split; [by rewrite Hw2, Hw1, <- app_assoc|by left].
  - destruct Hh as [Ha Hw]. eexists _, _, _, _. split; [reflexivity|].
    destruct Hw as [[_ ->]|(k & r & -> & Hp & p & Hpre & Hw)].
    + exists [], []. split; [constructor|]. split; [by left|]. split; [by rewrite app_nil_r|].
      destruct e; simpl in Ha; rewrite ?app_nil_r in Ha; try (by left). right. by eexists.
    + exists [], p. split; [constructor|]. destruct (parsed_body_exists r Hp) as [b Hb].
      split; [right; exists (r, b); split; [done|unfold message_bytes; by apply prefix_app_r]|]. split; [done|].
      left. simpl in Ha. by rewrite app_nil_r in Ha.
Qed.

(** C29: everything the upstream receives is a canonical message.  On every
    connection, whatever the box sends and however it is cut, the request
    half ends, and the bytes it wrote are the canonical heads of requests it
    accepted, each followed by a body of exactly the framing its head
    declares; at most the last message is cut short.  At most one refusal is
    audited, and then nothing of the refused head was written. *)
Theorem upstream_gets_canonical_messages box_id client w audit :
  exists client' w' audit' reason, forward_requests box_id client w audit = Done (client', w', audit', reason) /\
    exists msgs tail, Forall message_ok msgs /\ unfinished tail /\
      written w' = written w ++ (msgs ≫= message_bytes) ++ tail /\
      (audit' = audit \/ exists a, reason = FramingAmbiguous a /\ tail = [] /\
         audit' = audit ++ [{| ae_box_id := box_id; ae_marker := "framing_ambiguous"; ae_rule := ambiguity_rule a |}]).
Proof. apply forward_loop_spec. simpl. lia. Qed.
End relay.

(** ** A connection to evaluate *)

(** [impl Write for Vec<u8>]. *)
#[export] Instance vec_write : Write (list Z) :=
  {| write_all w bs := (w ++ bs, None); flush w := (w, None) |}.
#[export] Instance vec_write_laws : WriteLaws (list Z).
Proof. by refine {| written w := w |}. Defined.

Module HttpSample.

Definition crlf (ls : list string) : list Z := join_bytes CRLF (map bytes ls).

Definition upgrade_head : list Z :=
  crlf ["POST /a HTTP/1.1"; "Host:  Example.com"; "X-Empty:"; "Connection: Upgrade, HTTP2-Settings, keep-alive";
        "Upgrade: h2c"; "HTTP2-Settings: AAMAAABkAAQAAP__"; "Transfer-Encoding: Chunked"; ""; ""]%string.
Definition upgrade_request : Request :=
  {| rq_method := bytes "POST"; rq_target := bytes "/a";
     rq_headers := [ {| h_name := bytes "host"; h_value := bytes "Example.com" |};
                     {| h_name := bytes "x-empty"; h_value := [] |};
                     {| h_name := bytes "connection"; h_value := bytes "keep-alive" |};
                     {| h_name := bytes "transfer-encoding"; h_value := bytes "Chunked" |} ];
     rq_body := BfChunked |}.
Definition ok_response : list Z :=
  crlf ["HTTP/1.1 200"; "Alt-Svc: h3=:443"; "Content-Length: 5"; ""; ""]%string.
Definition ok_response_parsed : Response :=
  {| rp_minor_version := 1; rp_status := 200; rp_reason := [];
     rp_headers := [ {| h_name := bytes "alt-svc"; h_value := bytes "h3=:443" |};
                     {| h_name := bytes "content-length"; h_value := bytes "5" |} ];
     rp_body := BfContentLength 5 |}.

Lemma upgrade_parses : parse_request upgrade_head = Ok (Complete upgrade_request (length upgrade_head)).
Proof. vm_compute. reflexivity. Qed.

Lemma response_parses : parse_response ok_response = Ok (Complete ok_response_parsed (length ok_response)).
Proof. vm_compute. reflexivity. Qed.

Lemma canonical_request_reparses_witness :
  parse_request (serialize_request upgrade_request ++ bytes "5") =
  if (length (serialize_request upgrade_request) <=? MAX_HEAD_LEN)%nat
  then Ok (Complete upgrade_request (length (serialize_request upgrade_request))) else Err HeadTooLarge.
Proof. apply (canonical_request_reparses upgrade_head upgrade_request (length upgrade_head)). exact upgrade_parses. Defined.

Lemma canonical_response_reparses_witness :
  parse_response (serialize_response (strip_alt_svc ok_response_parsed) ++ bytes "hello") =
    Ok (Complete (strip_alt_svc ok_response_parsed) (length (serialize_response (strip_alt_svc ok_response_parsed)))) /\
  rp_body (strip_alt_svc ok_response_parsed) = rp_body ok_response_parsed /\
  values (rp_headers (strip_alt_svc ok_response_parsed)) "alt-svc" = [].
Proof.
  apply (canonical_response_reparses ok_response ok_response_parsed (length ok_response)); [exact response_parses|].
  apply Nat.leb_le. vm_compute. reflexivity.
Defined.

Lemma forwarded_framing_unambiguous_witness :
  parse_request upgrade_head = Ok (Complete upgrade_request (length upgrade_head)) /\
  framed_once (rq_headers upgrade_request) BfChunked /\
  (forall f, reads_framing (rq_headers upgrade_request) f <-> f = BfChunked) /\
  (exists host, values (rq_headers upgrade_request) "host" = [host] /\ is_host_authority host = true) /\
  (forall t, t ∈ list_elements (values (rq_headers upgrade_request) "connection") ->
     lower t <> bytes "host" /\ lower t <> bytes "content-length" /\ lower t <> bytes "transfer-encoding").
Proof.
  split; [exact upgrade_parses|].
  apply (forwarded_framing_unambiguous upgrade_head upgrade_request (length upgrade_head)). exact upgrade_parses.
Defined.

Definition whole : Reader := [RData upgrade_head].
Definition dribble : Reader := map (fun b => RData [b]) (take 20 upgrade_head) ++ [RError EkInterrupted; RData (drop 20 upgrade_head)].

Lemma reads_do_not_matter_witness :
  match (read_head parse_request [] whole).2, (read_head parse_request [] dribble).2 with
  | Ok (q1, rest1), Ok (q2, rest2) =>
      q1 = q2 /\ rest1 ++ (stream (read_head parse_request [] whole).1).1 =
                 rest2 ++ (stream (read_head parse_request [] dribble).1).1
  | Err e1, Err e2 => e1 = e2
  | _, _ => False
  end.
Proof. apply reads_do_not_matter. vm_compute. reflexivity. Defined.

(** A request with a chunked body, then one whose framing is ambiguous: the
    first goes upstream re-encoded, the second leaves only an audit event. *)
Definition attack : Reader :=
  [RData (upgrade_head ++ crlf ["5;x=1"; "hello"; "0"; "T: v"; ""; ""]%string);
   RData (crlf ["GET / HTTP/1.1"; "Host: a"; "Content-Length: 3"; "Transfer-Encoding: chunked"; ""; "0"; ""; ""]%string)].

Example attack_refused :
  match forward_requests "box" attack [] [] with
  | Done (_, w, audit, reason) =>
      w = serialize_request upgrade_request ++ crlf ["5"; "hello"; "0"; ""; ""]%string /\
      audit = [{| ae_box_id := "box"; ae_marker := "framing_ambiguous";
                  ae_rule := "content_length_with_transfer_encoding" |}] /\
      reason = FramingAmbiguous ContentLengthWithTransferEncoding
  | _ => False
  end.
Proof. vm_compute. repeat split. Qed.

(** The three theorems about the relay hold of a writer that keeps every byte. *)
Definition chunked_input : BodyInput :=
  {| bi_buf := []; bi_pos := 0; bi_reader := [RData (crlf ["5;x=1"; "hello"; "0"; "T: v"; ""; ""]%string)] |}.
Lemma chunked_relay_canonical_witness :
  exists i' w' r, relay_chunked (S (input_size chunked_input)) chunked_input ([] : list Z) = Done (i', w', r) /\
    chunked_result chunked_input i' ([] : list Z) w' r.
Proof.
  destruct (chunked_relay_canonical chunked_input ([] : list Z)) as (i' & w' & r & Hrun & Hr & _). exists i', w', r. by split.
Defined.

Definition bad_host : Reader := [RData (crlf ["GET / HTTP/1.1"; "Host: a b"; ""; ""]%string)].
Lemma refused_head_writes_nothing_witness :
  (forward_head "box" [] bad_host ([1] : list Z) []).2 = Err (Malformed "invalid_host") /\
  (forward_head "box" [] bad_host ([1] : list Z) []).1.1.2 = [1] /\
  (forward_head "box" [] bad_host ([1] : list Z) []).1.2 = [].
Proof.
  pose proof (refused_head_writes_nothing (W := list Z) "box" [] bad_host [1] []) as H.
  assert (E : (forward_head "box" [] bad_host ([1] : list Z) []).2 = Err (Malformed "invalid_host"))
    by (vm_compute; reflexivity).
  destruct (forward_head "box" [] bad_host ([1] : list Z) []) as [[[c w'] audit'] res]. simpl in E, H. subst res. by destruct H.
Defined.

Lemma upstream_gets_canonical_messages_witness :
  exists client' w' audit' reason, forward_requests "box" attack ([] : list Z) [] = Done (client', w', audit', reason) /\
    exists msgs tail, Forall message_ok msgs /\ unfinished tail /\ w' = (msgs ≫= message_bytes) ++ tail.
Proof.
  destruct (upstream_gets_canonical_messages "box" attack ([] : list Z) []) as (c & w' & a & r & Hrun & msgs & tail & Hm & Ht & Hw & _).
  exists c, w', a, r. split; [exact Hrun|]. exists msgs, tail. split; [exact Hm|]. split; [exact Ht|exact Hw].
Defined.

(** The limit on a chunk line is one byte short when its CR and LF arrive in
    different reads. *)
Definition long_line : list Z := [48; SEMICOLON] ++ replicate (N.to_nat 4094) 97.
Example chunk_line_limit_depends_on_reads :
  let input r := {| bi_buf := []; bi_pos := 0; bi_reader := r |} in
  let outcome_of r := match relay_chunked (N.to_nat 10000) (input r) [] with Done (_, _, x) => Some x | _ => None end in
  outcome_of [RData (long_line ++ CRLF ++ CRLF)] = Some (Ok ()) /\
  outcome_of [RData (long_line ++ [CR]); RData ([LF] ++ CRLF)] = Some (Err (Malformed "chunk_line_too_long")).
Proof. vm_compute. split; reflexivity. Qed.
End HttpSample.
