(* ===== verification/Egress.v ===== *)
(** * The frame-level egress verdict (crates/boxes/src/core/egress.rs)

    What a daemon's relay reads of one Ethernet frame ([summarize]), the
    compiled rules of one box ([EgressRules], [from_policy]), and the
    admit-or-drop decision ([verdict]).  Slice indexing is checked: a read
    past the end of the frame is [Panicked], so "never reads out of bounds"
    is a theorem rather than a convention. *)

From stdpp Require Import base list strings numbers.
From Stdlib Require Import ZArith Lia Ascii.
From S2P Require Import Prelude Text.
Open Scope Z_scope.

(** ** Wire constants *)

Definition ETH_HDR : nat := 14.
Definition ETHERTYPE_ARP : Z := 2054.   (* 0x0806 *)
Definition ETHERTYPE_IPV4 : Z := 2048.  (* 0x0800 *)
Definition ETHERTYPE_IPV6 : Z := 34525. (* 0x86DD *)
Definition IPPROTO_UDP : Z := 17.
Definition IPPROTO_TCP : Z := 6.
Definition DNS_PORT : Z := 53.
Definition PROXY_LISTENER_PORT : Z := 8118.
Definition PROXY_LISTENER_PROTOCOL : Z := 6.
Definition PROXY_DIRECT_TLS_PORT : Z := 443.
Definition BOX_COHORT_DSCP : Z := 55.   (* 0b11_0111 *)

(** ** The Box Egress Proxy's listener *)

Record ProxyListener : Type := {
  pl_addr : ip4;
  pl_port : Z;
  pl_proto : Z;
}.

#[global] Instance ProxyListener_eq_dec : EqDecision ProxyListener.
Proof. solve_decision. Defined.

(** [ProxyListener::at]. *)
Definition proxy_listener_at (addr : ip4) : ProxyListener :=
  {| pl_addr := addr; pl_port := PROXY_LISTENER_PORT; pl_proto := PROXY_LISTENER_PROTOCOL |}.

(** ** Frames *)

Inductive FrameFamily : Type :=
| Arp
| Ipv4
| Ipv6
| UndeclaredFamily (ethertype : Z)
| Truncated.

#[global] Instance FrameFamily_eq_dec : EqDecision FrameFamily.
Proof. solve_decision. Defined.

Record FrameSummary : Type := {
  fs_family : FrameFamily;
  fs_src : option ip4;
  fs_dst : option ip4;
  fs_proto : option Z;
  fs_dst_port : Z;
  fs_dscp : Z;
}.

#[global] Instance FrameSummary_eq_dec : EqDecision FrameSummary.
Proof. solve_decision. Defined.

(** [FrameSummary::box_cohort_marked]. *)
Definition box_cohort_marked (s : FrameSummary) : bool :=
  bool_decide (fs_family s = Ipv4) && (fs_dscp s =? BOX_COHORT_DSCP).

(** The closure [none] of [summarize]. *)
Definition summary_none (family : FrameFamily) : FrameSummary :=
  {| fs_family := family; fs_src := None; fs_dst := None; fs_proto := None;
     fs_dst_port := 0; fs_dscp := 0 |}.

(** Four consecutive bytes of a slice. *)
Definition index4 (l : list Z) (i : nat) : outcome ip4 :=
  a ← index l i; b ← index l (i + 1); c ← index l (i + 2); d ← index l (i + 3);
  Done (Ip4 a b c d).

(** [summarize(frame)]. *)
Definition summarize (frame : list Z) : outcome FrameSummary :=
  if (length frame <? ETH_HDR)%nat then Done (summary_none Truncated)
  else
    e0 ← index frame 12; e1 ← index frame 13;
    let ethertype := be16 e0 e1 in
    if ethertype =? ETHERTYPE_ARP then
      if (length frame <? ETH_HDR + 8)%nat then Done (summary_none Truncated)
      else
        hlen ← index frame (ETH_HDR + 4);
        let spa := (ETH_HDR + 8 + Z.to_nat hlen)%nat in
        if (length frame <? spa + 4)%nat then Done (summary_none Truncated)
        else
          src ← index4 frame spa;
          Done {| fs_family := Arp; fs_src := Some src; fs_dst := None;
                  fs_proto := None; fs_dst_port := 0; fs_dscp := 0 |}
    else if ethertype =? ETHERTYPE_IPV6 then Done (summary_none Ipv6)
    else if ethertype =? ETHERTYPE_IPV4 then
      let ip := drop ETH_HDR frame in
      if (length ip <? 20)%nat then Done (summary_none Truncated)
      else
        b0 ← index ip 0; b6 ← index ip 6; b7 ← index ip 7;
        let ihl := (Z.to_nat (Z.land b0 15) * 4)%nat in
        let frag_offset := Z.land (be16 b6 b7) 8191 in
        dst_port ←
          (if (20 <=? ihl)%nat && (frag_offset =? 0) && (ihl + 4 <=? length ip)%nat then
             p0 ← index ip (ihl + 2); p1 ← index ip (ihl + 3); Done (be16 p0 p1)
           else Done 0);
        src ← index4 ip 12; dst ← index4 ip 16;
        proto ← index ip 9; tos ← index ip 1;
        Done {| fs_family := Ipv4; fs_src := Some src; fs_dst := Some dst;
                fs_proto := Some proto; fs_dst_port := dst_port;
                fs_dscp := Z.shiftr tos 2 |}
    else Done (summary_none (UndeclaredFamily ethertype)).

(** ** IPv4 subnets *)

Record Ipv4Cidr : Type := {
  cidr_addr : ip4;
  cidr_prefix : Z;
}.

#[global] Instance Ipv4Cidr_eq_dec : EqDecision Ipv4Cidr.
Proof. solve_decision. Defined.

(** What the type holds: octets and a [u8] prefix. *)
Definition cidr_wf (c : Ipv4Cidr) : Prop := ip4_wf (cidr_addr c) /\ is_u8 (cidr_prefix c).

(** [Ipv4Cidr::parse]. *)
Definition cidr_parse (s : string) : option Ipv4Cidr :=
  '(addr, prefix) ← split_once "/"%char s;
  prefix ← parse_u8 prefix;
  if 32 <? prefix then None
  else
    addr ← parse_ipv4 addr;
    Some {| cidr_addr := addr; cidr_prefix := prefix |}.

Definition u32_MAX : Z := 4294967295.

(** The mask of [Ipv4Cidr::contains]: [u32::MAX << (32 - p)] truncated to
    32 bits. *)
Definition cidr_mask (prefix : Z) : Z :=
  if prefix =? 0 then 0
  else if 32 <=? prefix then u32_MAX
  else Z.land (Z.shiftl u32_MAX (32 - prefix)) u32_MAX.

(** [Ipv4Cidr::contains]. *)
Definition cidr_contains (c : Ipv4Cidr) (ip : ip4) : bool :=
  let mask := cidr_mask (cidr_prefix c) in
  Z.land (ip4_u32 ip) mask =? Z.land (ip4_u32 (cidr_addr c)) mask.

(** [Ipv4Cidr::exact]. *)
Definition cidr_exact (addr : ip4) : Ipv4Cidr := {| cidr_addr := addr; cidr_prefix := 32 |}.

(** [list.iter().any(|cidr| cidr.contains(ip))]. *)
Definition any_contains (l : list Ipv4Cidr) (ip : ip4) : bool :=
  existsb (fun c => cidr_contains c ip) l.

(** ** Why a frame was dropped *)

Inductive DropReason : Type :=
| ForeignSource (src lease : ip4)
| DropIpv6
| DropUndeclaredFamily (ethertype : Z)
| DropTruncated
| UndeclaredProtocol (proto : Z)
| DeniedSubnet (dst : ip4) (proto : Z)
| UncredentialedProxyDestination (dst : ip4) (proto : Z)
| UndeclaredSubnet (dst : ip4) (proto : Z)
| InfrastructureDestination (dst : ip4) (proto : Z).

#[global] Instance DropReason_eq_dec : EqDecision DropReason.
Proof. solve_decision. Defined.

(** [DropReason::rule]. *)
Definition drop_rule (r : DropReason) : string :=
  match r with
  | ForeignSource _ _ => "egress-foreign-source"
  | DropIpv6 => "egress-ipv6"
  | DropUndeclaredFamily _ => "egress-undeclared-ethertype"
  | DropTruncated => "egress-truncated-ipv4"
  | UndeclaredProtocol _ => "egress-undeclared-protocol"
  | DeniedSubnet _ _ => "egress-denied-subnet"
  | UncredentialedProxyDestination _ _ => "egress-uncredentialed-proxy-destination"
  | UndeclaredSubnet _ _ => "egress-undeclared-subnet"
  | InfrastructureDestination _ _ => "egress-infrastructure-destination"
  end.

(** [DropReason::destination]. *)
Definition drop_destination (r : DropReason) : option ip4 :=
  match r with
  | ForeignSource _ _ | DropIpv6 | DropUndeclaredFamily _ | DropTruncated
  | UndeclaredProtocol _ => None
  | DeniedSubnet dst _ | UncredentialedProxyDestination dst _
  | UndeclaredSubnet dst _ | InfrastructureDestination dst _ => Some dst
  end.

(** [DropReason::protocol]. *)
Definition drop_protocol (r : DropReason) : option Z :=
  match r with
  | UndeclaredProtocol proto | DeniedSubnet _ proto
  | UncredentialedProxyDestination _ proto | UndeclaredSubnet _ proto
  | InfrastructureDestination _ proto => Some proto
  | ForeignSource _ _ | DropIpv6 | DropUndeclaredFamily _ | DropTruncated => None
  end.

Inductive FrameVerdict : Type :=
| Admit
| Drop (reason : DropReason).

#[global] Instance FrameVerdict_eq_dec : EqDecision FrameVerdict.
Proof. solve_decision. Defined.

(** ** The switch's own addresses *)

Record SwitchOwnAddresses : Type := {
  so_gateway : ip4;
  so_host_alias : ip4;
  so_node : ip4;
  so_bep_peer : ip4;
  so_host_exposure_ports : list Z;
  so_hostname_proxy_port : option Z;
  so_host_alias_passed_on : bool;
}.

(** [SwitchOwnAddresses::new]. *)
Definition switch_own_new (gateway host_alias node bep_peer : ip4) : SwitchOwnAddresses :=
  {| so_gateway := gateway; so_host_alias := host_alias; so_node := node;
     so_bep_peer := bep_peer; so_host_exposure_ports := [];
     so_hostname_proxy_port := None; so_host_alias_passed_on := false |}.

(** [SwitchOwnAddresses::with_host_alias_passed_on]. *)
Definition with_host_alias_passed_on (o : SwitchOwnAddresses) : SwitchOwnAddresses :=
  {| so_gateway := so_gateway o; so_host_alias := so_host_alias o; so_node := so_node o;
     so_bep_peer := so_bep_peer o; so_host_exposure_ports := so_host_exposure_ports o;
     so_hostname_proxy_port := so_hostname_proxy_port o; so_host_alias_passed_on := true |}.

(** [SwitchOwnAddresses::with_host_exposure_ports]. *)
Definition with_host_exposure_ports (o : SwitchOwnAddresses) (ports : list Z) : SwitchOwnAddresses :=
  {| so_gateway := so_gateway o; so_host_alias := so_host_alias o; so_node := so_node o;
     so_bep_peer := so_bep_peer o; so_host_exposure_ports := ports;
     so_hostname_proxy_port := so_hostname_proxy_port o;
     so_host_alias_passed_on := so_host_alias_passed_on o |}.

(** [SwitchOwnAddresses::with_hostname_proxy_port]. *)
Definition with_hostname_proxy_port (o : SwitchOwnAddresses) (port : Z) : SwitchOwnAddresses :=
  {| so_gateway := so_gateway o; so_host_alias := so_host_alias o; so_node := so_node o;
     so_bep_peer := so_bep_peer o; so_host_exposure_ports := so_host_exposure_ports o;
     so_hostname_proxy_port := Some port;
     so_host_alias_passed_on := so_host_alias_passed_on o |}.

(** [SwitchOwnAddresses::passes_host_alias_on]. *)
Definition passes_host_alias_on (o : SwitchOwnAddresses) (dst : ip4) : bool :=
  so_host_alias_passed_on o && bool_decide (dst = so_host_alias o).

(** [SwitchOwnAddresses::drop_reason]. *)
Definition own_drop_reason (o : SwitchOwnAddresses) (dst_port : Z) (dst : ip4) (proto : Z)
    (listener : option ProxyListener) : option DropReason :=
  let reason := InfrastructureDestination dst proto in
  let tcp_or_udp := (proto =? IPPROTO_TCP) || (proto =? IPPROTO_UDP) in
  if bool_decide (dst = so_gateway o) then
    let resolver_query := tcp_or_udp && (dst_port =? DNS_PORT) in
    if resolver_query then None else Some reason
  else if bool_decide (dst = so_node o) then
    let hostname_proxy :=
      (proto =? IPPROTO_TCP) && bool_decide (so_hostname_proxy_port o = Some dst_port) in
    if hostname_proxy then None else Some reason
  else if bool_decide (dst = so_bep_peer o) &&
          match listener with
          | None => true
          | Some l => bool_decide (pl_addr l <> so_bep_peer o)
          end then Some reason
  else if bool_decide (dst = so_host_alias o) &&
          negb (existsb (Z.eqb dst_port) (so_host_exposure_ports o)) &&
          negb (so_host_alias_passed_on o && tcp_or_udp) then Some reason
  else None.

(** ** Compiled rules *)

Inductive IpProto : Type := Tcp | Udp | Icmp.

#[global] Instance IpProto_eq_dec : EqDecision IpProto.
Proof. solve_decision. Defined.

(** The [egress] section a box declares (crates/boxes/src/lib.rs). *)
Record EgressPolicy : Type := {
  ep_allow_subnets : option (list string);
  ep_allow_dns_hosts : option (list string);
  ep_allow_protocols : option (list IpProto);
  ep_deny_subnets : option (list string);
}.

(** [EgressPolicy::deny_all]. *)
Definition egress_deny_all : EgressPolicy :=
  {| ep_allow_subnets := Some []; ep_allow_dns_hosts := Some [];
     ep_allow_protocols := Some []; ep_deny_subnets := None |}.

Record EgressRules : Type := {
  er_allow_protocols : option (list Z);
  er_allow_subnets : option (list Ipv4Cidr);
  er_deny_subnets : option (list Ipv4Cidr);
  er_resolver : ip4;
  er_proxy : option ProxyListener;
  er_credentialed_upstream : bool;
  er_lease : ip4;
  er_switch_own : option SwitchOwnAddresses;
}.

(** [EgressRules::new]. *)
Definition egress_rules_new (allow_protocols : option (list Z))
    (allow_subnets deny_subnets : option (list Ipv4Cidr)) (resolver lease : ip4) : EgressRules :=
  {| er_allow_protocols := allow_protocols; er_allow_subnets := allow_subnets;
     er_deny_subnets := deny_subnets; er_resolver := resolver; er_proxy := None;
     er_credentialed_upstream := false; er_lease := lease; er_switch_own := None |}.

(** [wire_number]. *)
Definition wire_number (proto : IpProto) : Z :=
  match proto with Tcp => 6 | Udp => IPPROTO_UDP | Icmp => 1 end.

(** [EgressRules::from_policy]. *)
Definition egress_from_policy (policy : option EgressPolicy) (resolver lease : ip4) : EgressRules :=
  match policy with
  | None => egress_rules_new None None None resolver lease
  | Some p =>
      let allow_protocols := option_map (map wire_number) (ep_allow_protocols p) in
      let subnets (entries : option (list string)) := option_map (filter_map cidr_parse) entries in
      egress_rules_new allow_protocols (subnets (ep_allow_subnets p))
        (subnets (ep_deny_subnets p)) resolver lease
  end.

(** [EgressRules::with_box_egress_proxy]. *)
Definition with_box_egress_proxy (r : EgressRules) (proxy : ip4) : EgressRules :=
  {| er_allow_protocols := er_allow_protocols r; er_allow_subnets := er_allow_subnets r;
     er_deny_subnets := er_deny_subnets r; er_resolver := er_resolver r;
     er_proxy := Some (proxy_listener_at proxy);
     er_credentialed_upstream := er_credentialed_upstream r;
     er_lease := er_lease r; er_switch_own := er_switch_own r |}.

(** [EgressRules::with_credentialed_upstream]. *)
Definition with_credentialed_upstream (r : EgressRules) (proxy : ip4) : EgressRules :=
  {| er_allow_protocols := er_allow_protocols r; er_allow_subnets := er_allow_subnets r;
     er_deny_subnets := er_deny_subnets r; er_resolver := er_resolver r;
     er_proxy := Some (proxy_listener_at proxy); er_credentialed_upstream := true;
     er_lease := er_lease r; er_switch_own := er_switch_own r |}.

(** [EgressRules::with_switch_own_addresses]. *)
Definition with_switch_own_addresses (r : EgressRules) (own : SwitchOwnAddresses) : EgressRules :=
  {| er_allow_protocols := er_allow_protocols r; er_allow_subnets := er_allow_subnets r;
     er_deny_subnets := er_deny_subnets r; er_resolver := er_resolver r;
     er_proxy := er_proxy r; er_credentialed_upstream := er_credentialed_upstream r;
     er_lease := er_lease r; er_switch_own := Some own |}.

(** ** The verdict *)

(** [foreign_source]. *)
Definition foreign_source (summary : FrameSummary) (lease : ip4) : option DropReason :=
  match fs_src summary with
  | None => None
  | Some src => if bool_decide (src <> lease) then Some (ForeignSource src lease) else None
  end.

(** [proxy_lane_admits]. *)
Definition proxy_lane_admits (declared : bool) (listener : ProxyListener)
    (summary : FrameSummary) : bool :=
  declared
  && bool_decide (fs_dst summary = Some (pl_addr listener))
  && bool_decide (fs_proto summary = Some (pl_proto listener))
  && ((fs_dst_port summary =? pl_port listener) || (fs_dst_port summary =? PROXY_DIRECT_TLS_PORT)).

(** [verdict_ipv4]. *)
Definition verdict_ipv4 (summary : FrameSummary) (rules : EgressRules) : FrameVerdict :=
  match fs_dst summary with
  | None => Drop DropTruncated
  | Some dst =>
  match fs_proto summary with
  | None => Drop DropTruncated
  | Some proto =>
    if (proto =? IPPROTO_UDP) && bool_decide (dst = er_resolver rules)
       && (fs_dst_port summary =? DNS_PORT) then Admit
    else if match er_proxy rules with
            | Some listener => proxy_lane_admits (er_credentialed_upstream rules) listener summary
            | None => false
            end then Admit
    else if match er_proxy rules with
            | Some listener => bool_decide (dst = pl_addr listener)
            | None => false
            end then Drop (UncredentialedProxyDestination dst proto)
    else match match er_switch_own rules with
               | Some own => own_drop_reason own (fs_dst_port summary) dst proto (er_proxy rules)
               | None => None
               end with
    | Some reason => Drop reason
    | None =>
      if match er_allow_protocols rules with
         | Some allow => negb (existsb (Z.eqb proto) allow)
         | None => false
         end then Drop (UndeclaredProtocol proto)
      else if match er_deny_subnets rules with
              | Some deny => any_contains deny dst
              | None => false
              end then Drop (DeniedSubnet dst proto)
      else if match er_allow_subnets rules with
              | Some allow => negb (any_contains allow dst)
              | None => false
              end
              && negb match er_switch_own rules with
                      | Some own => passes_host_alias_on own dst
                      | None => false
                      end then Drop (UndeclaredSubnet dst proto)
      else Admit
    end
  end
  end.

(** [verdict]. *)
Definition verdict (summary : FrameSummary) (rules : EgressRules) : FrameVerdict :=
  match foreign_source summary (er_lease rules) with
  | Some reason => Drop reason
  | None =>
    match fs_family summary with
    | Arp => Admit
    | Ipv6 => Drop DropIpv6
    | UndeclaredFamily ethertype => Drop (DropUndeclaredFamily ethertype)
    | Truncated => Drop DropTruncated
    | Ipv4 => verdict_ipv4 summary rules
    end
  end.
