(* ===== verification/EgressProps.v ===== *)
(** * Theorems about the egress verdict

    The declarative reading of the verdict ([admitted]), its equivalence with
    the code's decision order, and what an admission means on the wire. *)

From stdpp Require Import base list strings numbers.
From Stdlib Require Import ZArith Lia Ascii.
From S2P Require Import Prelude Text Egress.
Open Scope Z_scope.

(** ** Subnet arithmetic *)

Lemma ip4_u32_val a :
  ip4_wf a -> ip4_u32 a = oct0 a * 16777216 + oct1 a * 65536 + oct2 a * 256 + oct3 a.
Proof.
  intros (H0 & H1 & H2 & H3). unfold ip4_u32.
  pose proof (be16_u16 _ _ H2 H3) as Hlo. unfold is_u16 in Hlo.
  rewrite lor_shiftl_add by lia.
  rewrite (be16_val _ _ H0 H1), (be16_val _ _ H2 H3). lia.
Qed.

Lemma ip4_u32_range a : ip4_wf a -> is_u32 (ip4_u32 a).
Proof.
  intros H. rewrite ip4_u32_val by done. destruct H as (H0 & H1 & H2 & H3).
  unfold is_u8, is_u32 in *. lia.
Qed.

Lemma ip4_u32_inj a b : ip4_wf a -> ip4_wf b -> ip4_u32 a = ip4_u32 b -> a = b.
Proof.
  intros Ha Hb. rewrite !ip4_u32_val by done.
  destruct a, b, Ha as (? & ? & ? & ?), Hb as (? & ? & ? & ?).
  unfold is_u8 in *; simpl in *. intros. f_equal; lia.
Qed.

(** The code's mask keeps exactly the bits above the host part. *)
Lemma land_cidr_mask x p :
  is_u32 x -> 0 <= p <= 32 -> Z.land x (cidr_mask p) = x / 2 ^ (32 - p) * 2 ^ (32 - p).
Proof.
  intros Hx Hp. unfold cidr_mask, u32_MAX, is_u32 in *.
  destruct (p =? 0) eqn:?; bool_to_prop.
  { subst. rewrite Z.land_0_r, Z.div_small by (simpl; lia). done. }
  assert (Hones : 4294967295 = Z.ones 32) by done. rewrite Hones.
  destruct (32 <=? p) eqn:?; bool_to_prop.
  { assert (p = 32) as -> by lia. rewrite Z.land_ones by lia.
    rewrite Z.mod_small by (simpl; lia). simpl. rewrite Z.div_1_r. lia. }
  rewrite Z.land_assoc, (Z.land_comm x), <- Z.land_assoc, Z.land_ones by lia.
  rewrite (Z.mod_small x) by (simpl; lia).
  rewrite <- Z.shiftl_mul_pow2, <- Z.shiftr_div_pow2 by lia.
  apply Z.bits_inj'. intros i Hi. rewrite Z.land_spec.
  destruct (decide (i < 32 - p)).
  - rewrite !Z.shiftl_spec_low by lia. done.
  - rewrite !Z.shiftl_spec_high by lia. rewrite Z.shiftr_spec by lia.
    replace (i - (32 - p) + (32 - p)) with i by lia.
    destruct (decide (i < 32)).
    + rewrite Z.ones_spec_low by lia. apply andb_true_l.
    + replace (Z.testbit x i) with false; [apply andb_false_r|]. symmetry.
      destruct (decide (x = 0)) as [->|]; [apply Z.bits_0|].
      apply Z.bits_above_log2; [lia|]. apply Z.log2_lt_pow2; [lia|].
      apply Z.lt_le_trans with (2 ^ 32); [simpl; lia|]. apply Z.pow_le_mono_r; lia.
Qed.

(** The addresses a subnet of prefix at most 32 stands for: an interval of
    [2 ^ (32 - prefix)] consecutive addresses, starting at the address with
    its host bits cleared. *)
Definition cidr_first (c : Ipv4Cidr) : Z :=
  ip4_u32 (cidr_addr c) / 2 ^ (32 - cidr_prefix c) * 2 ^ (32 - cidr_prefix c).

Lemma cidr_contains_iff c ip :
  cidr_wf c -> cidr_prefix c <= 32 -> ip4_wf ip ->
  cidr_contains c ip = true <->
  cidr_first c <= ip4_u32 ip < cidr_first c + 2 ^ (32 - cidr_prefix c).
Proof.
  intros [Hc Hp] Hp32 Hip. unfold cidr_contains, cidr_first, is_u8 in *.
  pose proof (ip4_u32_range _ Hc). pose proof (ip4_u32_range _ Hip).
  rewrite !land_cidr_mask by (done || lia). rewrite Z.eqb_eq.
  set (n := 2 ^ (32 - cidr_prefix c)).
  assert (0 < n) by (apply Z.pow_pos_nonneg; lia).
  set (x := ip4_u32 ip). set (y := ip4_u32 (cidr_addr c)).
  pose proof (Z.div_mod x n ltac:(lia)). pose proof (Z.mod_pos_bound x n ltac:(lia)).
  split; [intros E; lia|]. intros Hr. f_equal.
  symmetry. apply (Z.div_unique_pos x n (y / n) (x - y / n * n)); lia.
Qed.

(** A subnet match is interval membership.  For every well-formed subnet
    with a prefix of at most 32 (all that [Ipv4Cidr::parse] builds) and every
    address, [Ipv4Cidr::contains] answers [true] exactly on the
    [2 ^ (32 - prefix)] consecutive addresses that share its network bits. *)
Theorem cidr_contains_interval c ip :
  cidr_wf c -> cidr_prefix c <= 32 -> ip4_wf ip ->
  (cidr_contains c ip = true <->
   cidr_first c <= ip4_u32 ip < cidr_first c + 2 ^ (32 - cidr_prefix c)).
Proof. apply cidr_contains_iff. Qed.

Lemma cidr_contains_interval_witness :
  cidr_contains {| cidr_addr := Ip4 10 1 2 3; cidr_prefix := 8 |} (Ip4 10 255 0 1) = true.
Proof.
  apply (cidr_contains_interval {| cidr_addr := Ip4 10 1 2 3; cidr_prefix := 8 |} (Ip4 10 255 0 1)).
  - repeat split; simpl; lia.
  - simpl; lia.
  - repeat split; simpl; lia.
  - vm_compute. split; [intros H; discriminate H | reflexivity].
Defined.

Lemma cidr_exact_contains a ip :
  ip4_wf a -> ip4_wf ip -> cidr_contains (cidr_exact a) ip = true <-> ip = a.
Proof.
  intros Ha Hip. rewrite cidr_contains_iff; [|split; [done|simpl; split; lia]|simpl; lia|done].
  unfold cidr_first; simpl. rewrite Z.div_1_r. split; [|intros ->; lia].
  intros H. apply ip4_u32_inj; [done..|]. lia.
Qed.

(** Parsing a subnet yields one the matcher is exact on. *)
Lemma cidr_parse_wf s c : cidr_parse s = Some c -> cidr_wf c /\ cidr_prefix c <= 32.
Proof.
  unfold cidr_parse. intros H.
  destruct (split_once "/" s) as [[a p]|]; simpl in H; [|done].
  destruct (parse_u8 p) as [n|] eqn:Ep; simpl in H; [|done].
  destruct (32 <? n) eqn:?; [done|]. bool_to_prop.
  destruct (parse_ipv4 a) as [ad|] eqn:Ea; simpl in H; [|done]. simplify_eq; simpl.
  apply parse_uint_bounds in Ep; [|lia]. apply parse_ipv4_wf in Ea.
  unfold cidr_wf, is_u8; simpl. repeat split; try lia; apply Ea.
Qed.

(** The canonical spelling of a subnet. *)
Definition show_cidr (c : Ipv4Cidr) : string :=
  (show_ip4 (cidr_addr c) ++ "/" ++ show_u10 (cidr_prefix c))%string.

(** The subnet parser reads back the canonical spelling [a.b.c.d/n] of
    every well-formed subnet with prefix at most 32, and whatever it accepts
    is such a subnet. *)
Theorem cidr_parse_roundtrip c :
  cidr_wf c -> cidr_prefix c <= 32 ->
  cidr_parse (show_cidr c) = Some c /\
  (forall s c', cidr_parse s = Some c' -> cidr_wf c' /\ cidr_prefix c' <= 32).
Proof.
  intros [Hc Hp] Hp32. split; [|intros; by eapply cidr_parse_wf].
  unfold cidr_parse, show_cidr.
  change ("/" ++ show_u10 (cidr_prefix c))%string
    with (String "/" (show_u10 (cidr_prefix c))).
  rewrite split_once_app; simpl.
  - unfold is_u8 in Hp. unfold parse_u8. rewrite parse_uint_show by lia. simpl.
    destruct (32 <? _) eqn:?; bool_to_prop; [lia|].
    rewrite parse_show_ipv4 by done. simpl. by destruct c.
  - unfold show_ip4. destruct Hc as (? & ? & ? & ?). unfold is_u8 in *.
    rewrite !str_contains_app, !str_contains_show by (done || lia). done.
Qed.

Lemma cidr_parse_roundtrip_witness :
  cidr_parse "172.16.0.0/12" = Some {| cidr_addr := Ip4 172 16 0 0; cidr_prefix := 12 |}.
Proof.
  apply (cidr_parse_roundtrip {| cidr_addr := Ip4 172 16 0 0; cidr_prefix := 12 |}).
  - repeat split; simpl; lia.
  - simpl; lia.
Defined.

(** ** Reading a frame *)

Lemma index4_lt (l : list Z) i :
  (i + 3 < length l)%nat -> exists a, index4 l i = Done a.
Proof.
  intros H. unfold index4.
  destruct (index_lt l i) as (a & _ & ->); [lia|].
  destruct (index_lt l (i + 1)) as (b & _ & ->); [lia|].
  destruct (index_lt l (i + 2)) as (c & _ & ->); [lia|].
  destruct (index_lt l (i + 3)) as (d & _ & ->); [lia|].
  simpl. eauto.
Qed.

(** The next checked read of the goal succeeds, its bound by [lia]. *)
Ltac read_byte :=
  match goal with
  | |- context [index ?l ?i] =>
      let x := fresh "b" in let H := fresh "Hb" in
      destruct (index_lt l i) as (x & H & ->); [unfold ETH_HDR in *; lia|]; rewrite bind_Done
  | |- context [index4 ?l ?i] =>
      let x := fresh "a" in let H := fresh "Ha" in
      destruct (index4_lt l i) as (x & H); [unfold ETH_HDR in *; lia|]; rewrite H, bind_Done
  end.

Ltac nat_tests :=
  repeat match goal with
  | H : (_ <? _)%nat = true |- _ => apply Nat.ltb_lt in H
  | H : (_ <? _)%nat = false |- _ => apply Nat.ltb_ge in H
  | H : (_ <=? _)%nat = true |- _ => apply Nat.leb_le in H
  | H : (_ <=? _)%nat = false |- _ => apply Nat.leb_gt in H
  | H : (_ =? _)%nat = true |- _ => apply Nat.eqb_eq in H
  | H : (_ =? _)%nat = false |- _ => apply Nat.eqb_neq in H
  end.

(** [summarize] never reads out of bounds.  Every checked read of the
    frame is inside it, whatever the frame's length, header length, hardware
    address length or fragment field say: the routine returns a summary for
    every byte string. *)
Theorem summarize_never_panics frame : exists s, summarize frame = Done s.
Proof.
  unfold summarize.
  destruct (length frame <? ETH_HDR)%nat eqn:E; [eauto|]. nat_tests. unfold ETH_HDR in E.
  do 2 read_byte.
  destruct (_ =? ETHERTYPE_ARP).
  { destruct (_ <? _)%nat eqn:E1; [eauto|]. nat_tests. read_byte.
    destruct (_ <? _)%nat eqn:E2; [eauto|]. nat_tests. read_byte. eauto. }
  destruct (_ =? ETHERTYPE_IPV6); [eauto|].
  destruct (_ =? ETHERTYPE_IPV4); [|eauto].
  destruct (_ <? _)%nat eqn:E1; [eauto|]. nat_tests. do 3 read_byte.
  match goal with |- context [if ?c then _ else Done 0] => destruct c eqn:E2 end.
  - apply andb_prop in E2 as [E2 E3]. apply andb_prop in E2 as [E2 _]. nat_tests.
    repeat read_byte. eauto.
  - rewrite bind_Done. repeat read_byte. eauto.
Qed.

(** The octets of an address, in wire order. *)
Definition octets (a : ip4) : list Z := [oct0 a; oct1 a; oct2 a; oct3 a].

(** The Ethernet type a frame carries. *)
Definition ethertype_of (frame : list Z) : option Z :=
  match frame !! 12%nat, frame !! 13%nat with
  | Some h, Some l => Some (be16 h l)
  | _, _ => None
  end.

(** The four bytes of a slice at an offset. *)
Definition slice4 (l : list Z) (i : nat) : list Z := take 4 (drop i l).

Lemma index_Done {A} (l : list A) i x : index l i = Done x -> l !! i = Some x.
Proof. unfold index. destruct (l !! i); simpl; congruence. Qed.

Lemma index4_slice l i a : index4 l i = Done a -> slice4 l i = octets a.
Proof.
  unfold index4. intros (a0 & H0 & H)%bind_Done_inv.
  apply bind_Done_inv in H as (a1 & H1 & H). apply bind_Done_inv in H as (a2 & H2 & H).
  apply bind_Done_inv in H as (a3 & H3 & H). apply index_Done in H0, H1, H2, H3.
  injection H as <-. unfold slice4.
  rewrite (drop_S l a0 i) by done. rewrite (drop_S l a1 (S i)) by (rewrite <- H1; f_equal; lia).
  rewrite (drop_S l a2 (S (S i))) by (rewrite <- H2; f_equal; lia).
  rewrite (drop_S l a3 (S (S (S i)))) by (rewrite <- H3; f_equal; lia).
  done.
Qed.

(** What each family of summary says about the bytes it was read from. *)
Definition summary_of_bytes (frame : list Z) (s : FrameSummary) : Prop :=
  match fs_family s with
  | Arp => ethertype_of frame = Some ETHERTYPE_ARP /\
      exists hlen src, frame !! (ETH_HDR + 4)%nat = Some hlen /\ fs_src s = Some src /\
        slice4 frame (ETH_HDR + 8 + Z.to_nat hlen) = octets src
  | Ipv4 => ethertype_of frame = Some ETHERTYPE_IPV4 /\
      exists src dst proto, fs_src s = Some src /\ fs_dst s = Some dst /\ fs_proto s = Some proto /\
        slice4 frame (ETH_HDR + 12) = octets src /\
        slice4 frame (ETH_HDR + 16) = octets dst /\
        frame !! (ETH_HDR + 9)%nat = Some proto
  | _ => fs_src s = None
  end.

Lemma drop_index (frame : list Z) n i x :
  index (drop n frame) i = Done x -> frame !! (n + i)%nat = Some x.
Proof. intros H%index_Done. by rewrite lookup_drop in H. Qed.

Lemma drop_slice4 (frame : list Z) n i : slice4 (drop n frame) i = slice4 frame (n + i).
Proof. unfold slice4. by rewrite drop_drop. Qed.

(** Invert one monadic bind of the reader. *)
Ltac inv_bind H :=
  let x := fresh "x" in let Hx := fresh "Hx" in
  apply bind_Done_inv in H as (x & Hx & H).

Lemma summarize_sound frame s : summarize frame = Done s -> summary_of_bytes frame s.
Proof.
  unfold summarize. destruct (_ <? ETH_HDR)%nat; [by intros [= <-]|].
  intros H. inv_bind H. inv_bind H.
  apply index_Done in Hx, Hx0.
  assert (He : ethertype_of frame = Some (be16 x x0)) by (unfold ethertype_of; by rewrite Hx, Hx0).
  destruct (be16 x x0 =? ETHERTYPE_ARP) eqn:E1; bool_to_prop.
  { destruct (_ <? _)%nat; [by injection H as <-|]. inv_bind H.
    destruct (_ <? _)%nat; [by injection H as <-|]. inv_bind H. injection H as <-.
    unfold summary_of_bytes; simpl. split; [congruence|].
    exists x1, x2. apply index_Done in Hx1. apply index4_slice in Hx2. done. }
  destruct (be16 x x0 =? ETHERTYPE_IPV6); [by injection H as <-|].
  destruct (be16 x x0 =? ETHERTYPE_IPV4) eqn:E2; bool_to_prop; [|by injection H as <-].
  destruct (_ <? _)%nat; [by injection H as <-|].
  do 8 inv_bind H. injection H as <-.
  unfold summary_of_bytes; simpl. split; [congruence|].
  exists x5, x6, x7. apply index4_slice in Hx5, Hx6. apply drop_index in Hx7.
  rewrite drop_slice4 in Hx5, Hx6. done.
Qed.

(** C2: no box speaks from an address but its lease (NET-084).  A frame the
    relay writes on is an ARP or an IPv4 frame by its Ethernet type, and the
    four source bytes on the wire (the ARP sender protocol address at the
    offset the frame's own [hlen] gives, the IPv4 header source) are the
    box's lease, under every rule set. *)
Theorem admitted_frame_carries_lease frame s rules :
  summarize frame = Done s -> verdict s rules = Admit ->
  (ethertype_of frame = Some ETHERTYPE_ARP /\
   exists hlen, frame !! (ETH_HDR + 4)%nat = Some hlen /\
     slice4 frame (ETH_HDR + 8 + Z.to_nat hlen) = octets (er_lease rules)) \/
  (ethertype_of frame = Some ETHERTYPE_IPV4 /\
   slice4 frame (ETH_HDR + 12) = octets (er_lease rules)).
Proof.
  intros Hs%summarize_sound Hv. unfold verdict, foreign_source in Hv.
  unfold summary_of_bytes in Hs.
  destruct (fs_family s) eqn:Hf; try (rewrite Hs in Hv; discriminate Hv).
  - destruct Hs as (He & hlen & src & Hl & Hsrc & Hb). rewrite Hsrc in Hv.
    destruct (bool_decide (src <> er_lease rules)) eqn:E; [done|]. bool_to_prop.
    apply dec_stable in E. subst. left. eauto.
  - destruct Hs as (He & src & dst & proto & Hsrc & _ & _ & Hb & _). rewrite Hsrc in Hv.
    destruct (bool_decide (src <> er_lease rules)) eqn:E; [done|]. bool_to_prop.
    apply dec_stable in E. subst. right. eauto.
Qed.

(** ** The declarative reading of the verdict *)

(** The DNS query every box may make, whatever it declared (NET-079). *)
Definition resolver_query (r : EgressRules) (dst : ip4) (proto port : Z) : Prop :=
  proto = IPPROTO_UDP /\ dst = er_resolver r /\ port = DNS_PORT.

(** The credentialed lane's listener (NET-134). *)
Definition on_lane (r : EgressRules) (dst : ip4) (proto port : Z) : Prop :=
  er_credentialed_upstream r = true /\
  exists l, er_proxy r = Some l /\ dst = pl_addr l /\ proto = pl_proto l /\
    (port = pl_port l \/ port = PROXY_DIRECT_TLS_PORT).

Definition tcp_or_udp (proto : Z) : Prop := proto = IPPROTO_TCP \/ proto = IPPROTO_UDP.

(** What the switch's own addresses leave to the box's rules: the resolver's
    port on the gateway, the hostname proxy's TCP port on the node, nothing
    on the proxy's peer, and the configured exposures (or, where a later gate
    decides, every TCP and UDP port) on the host alias. *)
Definition switch_opens (o : SwitchOwnAddresses) (dst : ip4) (proto port : Z) : Prop :=
  (dst = so_gateway o -> tcp_or_udp proto /\ port = DNS_PORT) /\
  (dst <> so_gateway o -> dst = so_node o ->
     proto = IPPROTO_TCP /\ so_hostname_proxy_port o = Some port) /\
  (dst <> so_gateway o -> dst <> so_node o -> dst <> so_bep_peer o /\
     (dst = so_host_alias o ->
        port ∈ so_host_exposure_ports o \/
        (so_host_alias_passed_on o = true /\ tcp_or_udp proto))).

Definition dim_allows {A} (dim : option A) (P : A -> Prop) : Prop :=
  match dim with None => True | Some l => P l end.

(** What the three declared dimensions and the infrastructure set admit. *)
Definition rules_admit (r : EgressRules) (dst : ip4) (proto port : Z) : Prop :=
  (forall l, er_proxy r = Some l -> dst <> pl_addr l) /\
  dim_allows (er_switch_own r) (fun o => switch_opens o dst proto port) /\
  dim_allows (er_allow_protocols r) (fun l => proto ∈ l) /\
  dim_allows (er_deny_subnets r) (fun l => forall c, c ∈ l -> cidr_contains c dst = false) /\
  (dim_allows (er_allow_subnets r) (fun l => exists c, c ∈ l /\ cidr_contains c dst = true) \/
   exists o, er_switch_own r = Some o /\ so_host_alias_passed_on o = true /\ dst = so_host_alias o).

(** The frames a box may send. *)
Inductive admitted (r : EgressRules) (s : FrameSummary) : Prop :=
| admitted_arp :
    fs_family s = Arp -> (forall a, fs_src s = Some a -> a = er_lease r) -> admitted r s
| admitted_ipv4 dst proto :
    fs_family s = Ipv4 -> (forall a, fs_src s = Some a -> a = er_lease r) ->
    fs_dst s = Some dst -> fs_proto s = Some proto ->
    resolver_query r dst proto (fs_dst_port s) \/
    on_lane r dst proto (fs_dst_port s) \/
    rules_admit r dst proto (fs_dst_port s) ->
    admitted r s.

Lemma existsb_eqb_elem x l : existsb (Z.eqb x) l = true <-> x ∈ l.
Proof.
  rewrite existsb_exists. setoid_rewrite Z.eqb_eq. rewrite list_elem_of_In.
  split; [intros (y & H & ->); done | eauto].
Qed.

Lemma any_contains_true l ip :
  any_contains l ip = true <-> exists c, c ∈ l /\ cidr_contains c ip = true.
Proof. unfold any_contains. rewrite existsb_exists. by setoid_rewrite list_elem_of_In. Qed.

Lemma any_contains_false l ip :
  any_contains l ip = false <-> forall c, c ∈ l -> cidr_contains c ip = false.
Proof.
  rewrite <- not_true_iff_false, any_contains_true. split.
  - intros H c Hc. apply not_true_iff_false. eauto.
  - intros H (c & Hc & E). by rewrite H in E.
Qed.

Lemma proxy_lane_admits_iff r l s dst proto :
  er_proxy r = Some l -> fs_dst s = Some dst -> fs_proto s = Some proto ->
  proxy_lane_admits (er_credentialed_upstream r) l s = true <-> on_lane r dst proto (fs_dst_port s).
Proof.
  intros Hl Hd Hp. unfold proxy_lane_admits, on_lane.
  rewrite !andb_true_iff, orb_true_iff, !Z.eqb_eq, !bool_decide_eq_true, Hd, Hp, Hl.
  split.
  - intros [[[Hc [= ->]] [= ->]] Hport]. split; [done|]. by exists l.
  - intros (Hc & l' & [= <-] & -> & -> & Hport). done.
Qed.

Lemma own_drop_reason_None o port dst proto proxy :
  (forall l, proxy = Some l -> dst <> pl_addr l) ->
  own_drop_reason o port dst proto proxy = None <-> switch_opens o dst proto port.
Proof.
  intros Hp. unfold own_drop_reason, switch_opens, tcp_or_udp.
  set (tu := (proto =? IPPROTO_TCP) || (proto =? IPPROTO_UDP)).
  assert (Htu : tu = true <-> proto = IPPROTO_TCP \/ proto = IPPROTO_UDP).
  { unfold tu. by rewrite orb_true_iff, !Z.eqb_eq. }
  case_bool_decide as Hg.
  { destruct (tu && (port =? DNS_PORT)) eqn:E.
    - apply andb_prop in E as [E1 E2]. apply Htu in E1. bool_to_prop. naive_solver.
    - split; [done|]. intros (H & _ & _). destruct (H Hg) as [H1 ->].
      apply Htu in H1. by rewrite H1 in E. }
  case_bool_decide as Hn.
  { destruct ((proto =? IPPROTO_TCP) && _) eqn:E.
    - apply andb_prop in E as [E1 E2]. bool_to_prop. naive_solver.
    - split; [done|]. intros (_ & H & _). destruct (H Hg Hn) as [-> H2].
      by rewrite bool_decide_eq_true_2 in E. }
  case_bool_decide as Hb; simpl.
  { assert (match proxy with Some l => bool_decide (pl_addr l <> so_bep_peer o) | None => true end
            = true) as ->.
    { destruct proxy as [l|]; [|done]. apply bool_decide_eq_true_2.
      specialize (Hp l eq_refl). congruence. }
    split; [done|]. intros (_ & _ & H). destruct (H Hg Hn) as [H1 _]. done. }
  destruct (existsb (Z.eqb port) (so_host_exposure_ports o)) eqn:Ex;
    [apply existsb_eqb_elem in Ex | apply not_true_iff_false in Ex; rewrite existsb_eqb_elem in Ex].
  { rewrite andb_false_r, andb_false_l. naive_solver. }
  rewrite andb_true_r. case_bool_decide as Ha; simpl; [|naive_solver].
  destruct (so_host_alias_passed_on o && tu) eqn:E; simpl.
  - apply andb_prop in E as [E1 E2]. apply Htu in E2. naive_solver.
  - split; [done|]. intros (_ & _ & H). destruct (H Hg Hn) as [_ H1].
    destruct (H1 Ha) as [?|[E1 E2]]; [done|]. apply Htu in E2. by rewrite E1, E2 in E.
Qed.

(** The dimensions' half: past the carve-outs, the code's checks are
    [rules_admit]. *)
Lemma rules_tail_admit r dst proto port :
  (forall l, er_proxy r = Some l -> dst <> pl_addr l) ->
  (match (match er_switch_own r with
          | Some own => own_drop_reason own port dst proto (er_proxy r)
          | None => None
          end) with
   | Some reason => Drop reason
   | None =>
      if match er_allow_protocols r with
         | Some allow => negb (existsb (Z.eqb proto) allow)
         | None => false
         end then Drop (UndeclaredProtocol proto)
      else if match er_deny_subnets r with
              | Some deny => any_contains deny dst
              | None => false
              end then Drop (DeniedSubnet dst proto)
      else if match er_allow_subnets r with
              | Some allow => negb (any_contains allow dst)
              | None => false
              end
              && negb match er_switch_own r with
                      | Some own => passes_host_alias_on own dst
                      | None => false
                      end then Drop (UndeclaredSubnet dst proto)
      else Admit
   end) = Admit <-> rules_admit r dst proto port.
Proof.
  intros Hpx. unfold rules_admit.
  assert (Hown : (match er_switch_own r with
            | Some own => own_drop_reason own port dst proto (er_proxy r)
            | None => None end) = None
          <-> dim_allows (er_switch_own r) (fun o => switch_opens o dst proto port)).
  { destruct (er_switch_own r) as [o|]; simpl; [|done]. by apply own_drop_reason_None. }
  destruct (match er_switch_own r with Some _ => _ | None => _ end) as [rs|].
  { split; [done|]. intros (_ & H & _). by apply Hown in H. }
  assert (Hproto : match er_allow_protocols r with
            | Some allow => negb (existsb (Z.eqb proto) allow) | None => false end = false
          <-> dim_allows (er_allow_protocols r) (fun l => proto ∈ l)).
  { destruct (er_allow_protocols r) as [l|]; simpl; [|done].
    by rewrite negb_false_iff, existsb_eqb_elem. }
  destruct (match er_allow_protocols r with Some _ => _ | None => _ end).
  { split; [done|]. intros (_ & _ & H & _). by apply Hproto in H. }
  assert (Hdeny : match er_deny_subnets r with
            | Some deny => any_contains deny dst | None => false end = false
          <-> dim_allows (er_deny_subnets r) (fun l => forall c, c ∈ l -> cidr_contains c dst = false)).
  { destruct (er_deny_subnets r) as [l|]; simpl; [|done]. by rewrite any_contains_false. }
  destruct (match er_deny_subnets r with Some _ => _ | None => _ end).
  { split; [done|]. intros (_ & _ & _ & H & _). by apply Hdeny in H. }
  assert (Hpass : match er_switch_own r with
            | Some own => passes_host_alias_on own dst | None => false end = true
          <-> exists o, er_switch_own r = Some o /\ so_host_alias_passed_on o = true
                /\ dst = so_host_alias o).
  { destruct (er_switch_own r) as [o|]; simpl; [|naive_solver].
    unfold passes_host_alias_on. rewrite andb_true_iff, bool_decide_eq_true. naive_solver. }
  assert (Hallow : match er_allow_subnets r with
            | Some allow => negb (any_contains allow dst) | None => false end = false
          <-> dim_allows (er_allow_subnets r)
                (fun l => exists c, c ∈ l /\ cidr_contains c dst = true)).
  { destruct (er_allow_subnets r) as [l|]; simpl; [|done].
    by rewrite negb_false_iff, any_contains_true. }
  destruct (match er_allow_subnets r with Some _ => _ | None => _ end),
    (match er_switch_own r with Some _ => passes_host_alias_on _ _ | None => _ end);
    simpl; naive_solver.
Qed.

Lemma verdict_ipv4_admit r s dst proto :
  fs_dst s = Some dst -> fs_proto s = Some proto ->
  verdict_ipv4 s r = Admit <->
  resolver_query r dst proto (fs_dst_port s) \/
  on_lane r dst proto (fs_dst_port s) \/
  rules_admit r dst proto (fs_dst_port s).
Proof.
  intros Hd Hp. unfold verdict_ipv4. rewrite Hd, Hp.
  destruct (_ && _ && _) eqn:Eq.
  { unfold resolver_query. bool_to_prop. split; [|done]. intros _. left. done. }
  assert (Hnq : ~ resolver_query r dst proto (fs_dst_port s)).
  { intros (-> & -> & Hport). rewrite Hport in Eq. by rewrite bool_decide_eq_true_2 in Eq. }
  clear Eq.
  destruct (er_proxy r) as [l|] eqn:Hl.
  - destruct (proxy_lane_admits _ l s) eqn:Elane.
    { apply (proxy_lane_admits_iff r l s dst proto) in Elane; [|done..]. naive_solver. }
    assert (Hnl : ~ on_lane r dst proto (fs_dst_port s)).
    { rewrite <- (proxy_lane_admits_iff r l s dst proto) by done. by rewrite Elane. }
    case_bool_decide as Hdl.
    { split; [done|]. intros [?|[?|(H & _)]]; [done..|]. by destruct (H l). }
    rewrite <- Hl. rewrite rules_tail_admit; [naive_solver|].
    intros l' Hl'. congruence.
  - rewrite <- Hl. rewrite rules_tail_admit; [|intros l' Hl'; congruence].
    split; [naive_solver|]. intros [?|[(_ & l & Hl' & _)|?]]; [done|congruence|done].
Qed.

Lemma verdict_admit_iff s r : verdict s r = Admit <-> admitted r s.
Proof.
  unfold verdict.
  assert (Hsrc : foreign_source s (er_lease r) = None <->
                 forall a, fs_src s = Some a -> a = er_lease r).
  { unfold foreign_source. destruct (fs_src s) as [a|]; [|done].
    case_bool_decide as H.
    - split; [done|]. intros E. by destruct H; apply E.
    - naive_solver. }
  destruct (foreign_source s (er_lease r)) as [rs|].
  { split; [done|]. intros []; exfalso; by apply Hsrc in H0. }
  assert (Hl : forall a, fs_src s = Some a -> a = er_lease r) by (by apply Hsrc).
  destruct (fs_family s) eqn:Hf; try (split; [done|]; intros []; congruence).
  - split; [|done]. intros _. by apply admitted_arp.
  - destruct (fs_dst s) as [dst|] eqn:Hd.
    2: { split; [|intros []; congruence]. unfold verdict_ipv4. by rewrite Hd. }
    destruct (fs_proto s) as [proto|] eqn:Hp.
    2: { split; [|intros []; congruence]. unfold verdict_ipv4. by rewrite Hd, Hp. }
    rewrite verdict_ipv4_admit by done. split.
    + intros H. by eapply admitted_ipv4.
    + intros []; [congruence|]. by simplify_eq.
Qed.

(** C1: the verdict is the declared policy.  For every frame summary and every
    rule set, the code's ordered checks admit exactly the frames of
    [admitted]: from the lease (or with no source to read), ARP, or IPv4 to
    the box's resolver by UDP at port 53, to the proxy's listener on a
    credentialed lane, or to a destination the infrastructure set leaves
    open and the three declared dimensions allow; and every other frame is
    dropped.  The set leaves the host alias open to every frame whose bytes at
    the place of a destination port name an exposed port, whatever its
    protocol ([alias_opens_any_protocol] below), and to TCP and UDP where the
    alias is passed on. *)
Theorem verdict_refines_policy s r : verdict s r = Admit <-> admitted r s.
Proof. apply verdict_admit_iff. Qed.

(** A deny-all box is mute but for resolution.  Compiled from the
    [EgressPolicy::deny_all] section, the rules admit from the lease exactly
    ARP and the UDP query to the box's own resolver at port 53. *)
Theorem deny_all_admits_only_resolution resolver lease s :
  verdict s (egress_from_policy (Some egress_deny_all) resolver lease) = Admit <->
  (forall a, fs_src s = Some a -> a = lease) /\
  (fs_family s = Arp \/
   (fs_family s = Ipv4 /\ fs_proto s = Some IPPROTO_UDP /\ fs_dst s = Some resolver /\
    fs_dst_port s = DNS_PORT)).
Proof.
  rewrite verdict_admit_iff. split.
  - intros [Hf Hl | dst proto Hf Hl Hd Hp [Hq|[Hq|Hq]]]; simpl in *.
    + split; [done|]. by left.
    + destruct Hq as (-> & -> & Hq). split; [done|]. right. done.
    + destruct Hq as (? & _). done.
    + destruct Hq as (_ & _ & Hproto & _). simpl in Hproto. inversion Hproto.
  - intros [Hl [Hf | (Hf & Hp & Hd & Hport)]]; [by apply admitted_arp|].
    eapply admitted_ipv4; [done..|]. left. done.
Qed.

(** A declared deny is enforced on the wire address.  When a box's policy
    lists a subnet in [deny_subnets], no frame to an address of that subnet's
    interval is admitted by the compiled rules, whatever the allow dimensions
    say, except the query to the box's own resolver. *)
Theorem declared_deny_is_enforced policy entries entry c ip s resolver lease :
  ep_deny_subnets policy = Some entries -> entry ∈ entries -> cidr_parse entry = Some c ->
  ip4_wf ip -> cidr_first c <= ip4_u32 ip < cidr_first c + 2 ^ (32 - cidr_prefix c) ->
  fs_family s = Ipv4 -> fs_dst s = Some ip ->
  verdict s (egress_from_policy (Some policy) resolver lease) = Admit ->
  ip = resolver /\ fs_proto s = Some IPPROTO_UDP /\ fs_dst_port s = DNS_PORT.
Proof.
  intros Hdeny Hin Hparse Hip Hrange Hf Hd Hv. apply verdict_admit_iff in Hv.
  destruct Hv as [Hf' | dst proto _ _ Hd' Hp Hq]; [congruence|].
  rewrite Hd in Hd'. injection Hd' as <-. destruct Hq as [Hq|[Hq|Hq]].
  - destruct Hq as (-> & -> & ?). done.
  - destruct Hq as (? & _). done.
  - destruct Hq as (_ & _ & _ & Hq & _). simpl in Hq. rewrite Hdeny in Hq. simpl in Hq.
    destruct (cidr_parse_wf _ _ Hparse) as [Hwf H32].
    assert (Hc : cidr_contains c ip = true) by (by apply cidr_contains_iff).
    rewrite Hq in Hc; [done|]. apply elem_of_filter_map. eauto.
Qed.

(** The example box of the witnesses: 100.64.0.2 behind the gateway
    100.64.0.1, everything allowed but 10.0.0.0/8. *)
Definition example_policy : EgressPolicy :=
  {| ep_allow_subnets := Some ["0.0.0.0/0"%string]; ep_allow_dns_hosts := None;
     ep_allow_protocols := None; ep_deny_subnets := Some ["10.0.0.0/8"%string] |}.

Definition example_dns_query : FrameSummary :=
  {| fs_family := Ipv4; fs_src := Some (Ip4 100 64 0 2); fs_dst := Some (Ip4 10 0 0 1);
     fs_proto := Some 17; fs_dst_port := 53; fs_dscp := 0 |}.

Lemma declared_deny_is_enforced_witness :
  Ip4 10 0 0 1 = Ip4 10 0 0 1 /\ Some 17 = Some IPPROTO_UDP /\ 53 = DNS_PORT.
Proof.
  apply (declared_deny_is_enforced example_policy ["10.0.0.0/8"%string] "10.0.0.0/8"
           {| cidr_addr := Ip4 10 0 0 0; cidr_prefix := 8 |} (Ip4 10 0 0 1)
           example_dns_query (Ip4 10 0 0 1) (Ip4 100 64 0 2)).
  - reflexivity.
  - left.
  - reflexivity.
  - repeat split; simpl; lia.
  - vm_compute. split; [intros H; discriminate H | reflexivity].
  - reflexivity.
  - reflexivity.
  - vm_compute. reflexivity.
Defined.

(** The machine's control surface stays closed (NET-062).  With the
    switch's own addresses attached, no declaration of the box opens the
    gateway outside the resolver's port, the node address outside the
    hostname proxy's TCP port, or the proxy's peer address outside a
    credentialed lane. *)
Theorem control_surface_is_closed r own s dst proto :
  er_switch_own r = Some own -> fs_family s = Ipv4 ->
  fs_dst s = Some dst -> fs_proto s = Some proto -> verdict s r = Admit ->
  dst = so_gateway own \/ dst = so_node own \/ dst = so_bep_peer own ->
  resolver_query r dst proto (fs_dst_port s) \/
  on_lane r dst proto (fs_dst_port s) \/
  (dst = so_gateway own /\ tcp_or_udp proto /\ fs_dst_port s = DNS_PORT) \/
  (dst = so_node own /\ proto = IPPROTO_TCP /\ so_hostname_proxy_port own = Some (fs_dst_port s)).
Proof.
  intros Hown Hf Hd Hp Hv Hdst. apply verdict_admit_iff in Hv.
  destruct Hv as [? | dst' proto' _ _ Hd' Hp' Hq]; [congruence|].
  rewrite Hd in Hd'. rewrite Hp in Hp'. injection Hd' as <-. injection Hp' as <-.
  destruct Hq as [Hq|[Hq|Hq]]; [by left | by right; left |].
  destruct Hq as (_ & Ho & _). rewrite Hown in Ho. simpl in Ho.
  destruct Ho as (Hg & Hn & Hb).
  destruct (decide (dst = so_gateway own)) as [E|E].
  { right; right; left. destruct (Hg E). done. }
  destruct (decide (dst = so_node own)) as [E'|E'].
  { right; right; right. destruct (Hn E E'). done. }
  destruct (Hb E E') as [Hpeer _]. naive_solver.
Qed.

Definition example_own : SwitchOwnAddresses :=
  switch_own_new (Ip4 100 64 0 1) (Ip4 100 64 0 254) (Ip4 100 64 0 3) (Ip4 100 64 0 4).

Definition example_tcp_query : FrameSummary :=
  {| fs_family := Ipv4; fs_src := Some (Ip4 100 64 0 2); fs_dst := Some (Ip4 100 64 0 1);
     fs_proto := Some 6; fs_dst_port := 53; fs_dscp := 0 |}.

Definition example_rules : EgressRules :=
  with_switch_own_addresses
    (egress_from_policy (Some example_policy) (Ip4 100 64 0 1) (Ip4 100 64 0 2)) example_own.

Lemma control_surface_is_closed_witness :
  resolver_query example_rules (Ip4 100 64 0 1) 6 53 \/
  on_lane example_rules (Ip4 100 64 0 1) 6 53 \/
  (Ip4 100 64 0 1 = so_gateway example_own /\ tcp_or_udp 6 /\ 53 = DNS_PORT) \/
  (Ip4 100 64 0 1 = so_node example_own /\ 6 = IPPROTO_TCP /\
   so_hostname_proxy_port example_own = Some 53).
Proof.
  apply (control_surface_is_closed example_rules example_own example_tcp_query
           (Ip4 100 64 0 1) 6).
  - reflexivity.
  - reflexivity.
  - reflexivity.
  - reflexivity.
  - vm_compute. reflexivity.
  - left. reflexivity.
Defined.

(** A GRE frame (protocol 47) to the host alias, the bytes of its header that
    would be a port reading 8080, goes where port 8080 is exposed. *)
Example alias_opens_any_protocol :
  let frame := [2;0;0;0;0;1; 2;0;0;0;0;2; 8;0;
                69;0;0;24; 0;0;0;0; 64;47;0;0; 100;64;0;2; 100;64;0;254; 0;0; 31;144] in
  let own := with_host_alias_passed_on (with_host_exposure_ports example_own [8080]) in
  (s ← summarize frame;
   Done (verdict s (with_switch_own_addresses (egress_from_policy None (Ip4 100 64 0 1) (Ip4 100 64 0 2)) own)))
  = Done Admit.
Proof. vm_compute. reflexivity. Qed.

(** An admitted ARP frame, byte for byte. *)
Definition example_arp : list Z :=
  [255;255;255;255;255;255; 2;0;0;0;0;2; 8;6;
   0;1; 8;0; 6; 4; 0;1; 2;0;0;0;0;2; 100;64;0;2; 0;0;0;0;0;0; 100;64;0;1].

Lemma admitted_frame_carries_lease_witness :
  (ethertype_of example_arp = Some ETHERTYPE_ARP /\
   exists hlen, example_arp !! (ETH_HDR + 4)%nat = Some hlen /\
     slice4 example_arp (ETH_HDR + 8 + Z.to_nat hlen) = octets (er_lease example_rules)) \/
  (ethertype_of example_arp = Some ETHERTYPE_IPV4 /\
   slice4 example_arp (ETH_HDR + 12) = octets (er_lease example_rules)).
Proof.
  apply (admitted_frame_carries_lease example_arp
           {| fs_family := Arp; fs_src := Some (Ip4 100 64 0 2); fs_dst := None;
              fs_proto := None; fs_dst_port := 0; fs_dscp := 0 |} example_rules).
  - vm_compute. reflexivity.
  - vm_compute. reflexivity.
Defined.
