(* ===== verification/Rebinding.v ===== *)
(** * The DNS rebinding intersection (crates/boxes/src/core/egress.rs)

    Which addresses a resolved name may ever be admitted for: the
    infrastructure deny set ([InfrastructureDenySet]), the per-address
    decision ([rebinding_admits]) and the split of one reply
    ([rebinding_intersection]). *)

From stdpp Require Import base list strings numbers.
From Stdlib Require Import ZArith Lia.
From S2P Require Import Prelude Text Egress EgressProps.
Open Scope Z_scope.

Record InfrastructureDenySet : Type := {
  ids_fixed : list Ipv4Cidr;
  ids_plane : Ipv4Cidr;
  ids_rfc1918 : list Ipv4Cidr;
}.

(** The closure [cidr] of [InfrastructureDenySet::new]:
    [Ipv4Cidr::parse(s).expect(..)]. *)
Definition const_cidr (s : string) : outcome Ipv4Cidr := unwrap (cidr_parse s).

(** [InfrastructureDenySet::new]. *)
Definition deny_set_new (resolver host_alias : ip4) : outcome InfrastructureDenySet :=
  link_local ← const_cidr "169.254.0.0/16";
  loopback ← const_cidr "127.0.0.0/8";
  this_host ← const_cidr "0.0.0.0/8";
  multicast ← const_cidr "224.0.0.0/4";
  reserved ← const_cidr "240.0.0.0/4";
  broadcast ← const_cidr "255.255.255.255/32";
  plane ← const_cidr "100.64.0.0/10";
  ten ← const_cidr "10.0.0.0/8";
  oneseventwo ← const_cidr "172.16.0.0/12";
  oneninetwo ← const_cidr "192.168.0.0/16";
  Done {| ids_fixed := [link_local; loopback; this_host; multicast; reserved; broadcast;
                        cidr_exact resolver; cidr_exact host_alias];
          ids_plane := plane;
          ids_rfc1918 := [ten; oneseventwo; oneninetwo] |}.

(** [InfrastructureDenySet::with_host_literal]. *)
Definition with_host_literal (d : InfrastructureDenySet) (literal : ip4) : InfrastructureDenySet :=
  {| ids_fixed := ids_fixed d ++ [cidr_exact literal];
     ids_plane := ids_plane d; ids_rfc1918 := ids_rfc1918 d |}.

Inductive RebindingRefusal : Type := RefusedDeniedSubnet | RefusedInfrastructure.

#[global] Instance RebindingRefusal_eq_dec : EqDecision RebindingRefusal.
Proof. solve_decision. Defined.

(** [RebindingRefusal::rule]. *)
Definition refusal_rule (r : RebindingRefusal) : string :=
  match r with
  | RefusedDeniedSubnet => "dns-rebinding-denied-subnet"
  | RefusedInfrastructure => "dns-rebinding-infrastructure"
  end.

(** [rebinding_admits]: [Ok(())] is [None], [Err(reason)] is [Some reason]. *)
Definition rebinding_admits (answer : ip4) (box_zone : bool)
    (allow deny : option (list Ipv4Cidr)) (infra : InfrastructureDenySet)
    : option RebindingRefusal :=
  if match deny with Some denied => any_contains denied answer | None => false end then
    Some RefusedDeniedSubnet
  else if any_contains (ids_fixed infra) answer then Some RefusedInfrastructure
  else if negb (Bool.eqb box_zone (cidr_contains (ids_plane infra) answer)) then
    Some RefusedInfrastructure
  else if any_contains (ids_rfc1918 infra) answer
          && negb match allow with None => true | Some l => any_contains l answer end then
    Some RefusedInfrastructure
  else None.

Record RebindingSplit : Type := {
  rs_admitted : list ip4;
  rs_refused : list (ip4 * RebindingRefusal);
}.

(** [rebinding_intersection]. *)
Definition rebinding_intersection (answers : list ip4) (box_zone : bool)
    (allow deny : option (list Ipv4Cidr)) (infra : InfrastructureDenySet) : RebindingSplit :=
  fold_left
    (fun split answer =>
       match rebinding_admits answer box_zone allow deny infra with
       | None => {| rs_admitted := rs_admitted split ++ [answer];
                    rs_refused := rs_refused split |}
       | Some reason => {| rs_admitted := rs_admitted split;
                           rs_refused := rs_refused split ++ [(answer, reason)] |}
       end)
    answers {| rs_admitted := []; rs_refused := [] |}.

(** ** Theorems *)

(** The deny set the constants spell, for a box's resolver and host alias. *)
Definition deny_set_value (resolver host_alias : ip4) : InfrastructureDenySet :=
  {| ids_fixed :=
       [ {| cidr_addr := Ip4 169 254 0 0; cidr_prefix := 16 |};
         {| cidr_addr := Ip4 127 0 0 0; cidr_prefix := 8 |};
         {| cidr_addr := Ip4 0 0 0 0; cidr_prefix := 8 |};
         {| cidr_addr := Ip4 224 0 0 0; cidr_prefix := 4 |};
         {| cidr_addr := Ip4 240 0 0 0; cidr_prefix := 4 |};
         {| cidr_addr := Ip4 255 255 255 255; cidr_prefix := 32 |};
         cidr_exact resolver; cidr_exact host_alias ];
     ids_plane := {| cidr_addr := Ip4 100 64 0 0; cidr_prefix := 10 |};
     ids_rfc1918 := [ {| cidr_addr := Ip4 10 0 0 0; cidr_prefix := 8 |};
                      {| cidr_addr := Ip4 172 16 0 0; cidr_prefix := 12 |};
                      {| cidr_addr := Ip4 192 168 0 0; cidr_prefix := 16 |} ] |}.

Lemma deny_set_new_value resolver host_alias :
  deny_set_new resolver host_alias = Done (deny_set_value resolver host_alias).
Proof. reflexivity. Qed.

Lemma cidr_contains_octets c ip :
  cidr_wf c -> cidr_prefix c <= 32 -> ip4_wf ip ->
  cidr_contains c ip = true <->
  cidr_first c <= oct0 ip * 16777216 + oct1 ip * 65536 + oct2 ip * 256 + oct3 ip
    < cidr_first c + 2 ^ (32 - cidr_prefix c).
Proof. intros H1 H2 H3. rewrite <- ip4_u32_val by done. by apply cidr_contains_iff. Qed.

(** Membership in a constant subnet, by evaluating its interval. *)
Ltac eval_cidr :=
  match goal with
  | H : ip4_wf ?ip |- context [cidr_contains ?c ?ip = true] =>
      rewrite (cidr_contains_octets c ip);
      [ | repeat split; simpl; lia | simpl; lia | done ];
      let f := eval vm_compute in (cidr_first c) in
      let w := eval vm_compute in (2 ^ (32 - cidr_prefix c)) in
      change (cidr_first c) with f; change (2 ^ (32 - cidr_prefix c)) with w
  end.

(** The addresses no name may resolve to under any declaration: link-local
    and its metadata services, loopback, this-host space, multicast, the
    reserved block with broadcast, and the gateway's own two addresses. *)
Definition never_a_destination (resolver host_alias ip : ip4) : Prop :=
  (oct0 ip = 169 /\ oct1 ip = 254) \/ oct0 ip = 127 \/ oct0 ip = 0 \/ 224 <= oct0 ip \/
  ip = resolver \/ ip = host_alias.

(** The switch fabric's plane [100.64.0.0/10]. *)
Definition in_plane (ip : ip4) : Prop := oct0 ip = 100 /\ 64 <= oct1 ip <= 127.

(** RFC 1918 private space. *)
Definition is_private (ip : ip4) : Prop :=
  oct0 ip = 10 \/ (oct0 ip = 172 /\ 16 <= oct1 ip <= 31) \/ (oct0 ip = 192 /\ oct1 ip = 168).

Lemma fixed_contains resolver host_alias ip :
  ip4_wf resolver -> ip4_wf host_alias -> ip4_wf ip ->
  any_contains (ids_fixed (deny_set_value resolver host_alias)) ip = true <->
  never_a_destination resolver host_alias ip.
Proof.
  intros Hr Hh Hip. unfold any_contains, never_a_destination. simpl existsb.
  rewrite !orb_true_iff. do 6 eval_cidr. rewrite !cidr_exact_contains by done.
  assert (Hfalse : false = true <-> False) by done. rewrite Hfalse.
  destruct Hip as (H0 & H1 & H2 & H3). unfold is_u8 in *.
  split.
  - intros [?|[?|[?|[?|[?|[?|[?|[?|[]]]]]]]]]; try tauto; lia.
  - intros [?|[?|[?|[?|[?|?]]]]]; try tauto; lia.
Qed.

Lemma plane_contains resolver host_alias ip :
  ip4_wf ip -> cidr_contains (ids_plane (deny_set_value resolver host_alias)) ip = true <-> in_plane ip.
Proof.
  intros Hip. simpl. eval_cidr. destruct Hip as (H0 & H1 & H2 & H3).
  unfold is_u8, in_plane in *. lia.
Qed.

Lemma rfc1918_contains resolver host_alias ip :
  ip4_wf ip ->
  any_contains (ids_rfc1918 (deny_set_value resolver host_alias)) ip = true <-> is_private ip.
Proof.
  intros Hip. unfold any_contains, is_private. simpl existsb. rewrite !orb_true_iff.
  do 3 eval_cidr. destruct Hip as (H0 & H1 & H2 & H3). unfold is_u8 in *. lia.
Qed.

(** The rebinding decision, address by address (NET-066, NET-067,
    NET-072).  Against the deny set [InfrastructureDenySet::new] builds
    (which never panics), an answer is admitted exactly when no declared
    deny covers it, it is none of the machine's own ranges, it lies in the
    fabric plane if and only if the name is a box-zone name, and, when it is
    RFC 1918 space, the box's allow list covers it or is absent. *)
Theorem rebinding_admits_spec resolver host_alias answer box_zone allow deny :
  ip4_wf resolver -> ip4_wf host_alias -> ip4_wf answer ->
  exists infra, deny_set_new resolver host_alias = Done infra /\
  (rebinding_admits answer box_zone allow deny infra = None <->
   dim_allows deny (fun l => forall c, c ∈ l -> cidr_contains c answer = false) /\
   ~ never_a_destination resolver host_alias answer /\
   (box_zone = true <-> in_plane answer) /\
   (is_private answer ->
    dim_allows allow (fun l => exists c, c ∈ l /\ cidr_contains c answer = true))).
Proof.
  intros Hr Hh Ha. exists (deny_set_value resolver host_alias). split; [apply deny_set_new_value|].
  pose proof (fixed_contains _ _ _ Hr Hh Ha) as Hfix.
  pose proof (plane_contains resolver host_alias _ Ha) as Hpl.
  pose proof (rfc1918_contains resolver host_alias _ Ha) as Hrfc.
  unfold rebinding_admits.
  set (infra := deny_set_value resolver host_alias) in *. clearbody infra.
  assert (Hdeny : match deny with Some d => any_contains d answer | None => false end = false
    <-> dim_allows deny (fun l => forall c, c ∈ l -> cidr_contains c answer = false)).
  { destruct deny; simpl; [|done]. apply any_contains_false. }
  destruct (match deny with Some _ => _ | None => _ end).
  { split; [done|]. intros (H & _). by apply Hdeny in H. }
  destruct (any_contains (ids_fixed infra) answer).
  { split; [done|]. intros (_ & H & _). by destruct H; apply Hfix. }
  assert (Hallow : match allow with None => true | Some l => any_contains l answer end = true
    <-> dim_allows allow (fun l => exists c, c ∈ l /\ cidr_contains c answer = true)).
  { destruct allow; simpl; [|done]. apply any_contains_true. }
  assert (Ht : true = true <-> True) by done. assert (Hf : false = true <-> False) by done.
  assert (Hn : forall r : RebindingRefusal, Some r = None <-> False) by done.
  assert (Hs : @None RebindingRefusal = None <-> True) by done.
  assert (Hd' : false = false <-> True) by done. rewrite Hd' in Hdeny.
  destruct (cidr_contains (ids_plane infra) answer), box_zone; simpl;
    rewrite ?Ht, ?Hf in *; rewrite ?Hn; try tauto;
    destruct (any_contains (ids_rfc1918 infra) answer),
      (match allow with None => true | Some _ => _ end); simpl;
    rewrite ?Ht, ?Hf in *; rewrite ?Hn, ?Hs; tauto.
Qed.

Lemma rebinding_admits_spec_witness :
  exists infra, deny_set_new (Ip4 100 64 0 1) (Ip4 100 64 0 254) = Done infra /\
  (rebinding_admits (Ip4 140 82 112 3) false None None infra = None <->
   dim_allows None (fun l : list Ipv4Cidr => forall c, c ∈ l -> cidr_contains c (Ip4 140 82 112 3) = false) /\
   ~ never_a_destination (Ip4 100 64 0 1) (Ip4 100 64 0 254) (Ip4 140 82 112 3) /\
   (false = true <-> in_plane (Ip4 140 82 112 3)) /\
   (is_private (Ip4 140 82 112 3) ->
    dim_allows None (fun l : list Ipv4Cidr => exists c, c ∈ l /\ cidr_contains c (Ip4 140 82 112 3) = true))).
Proof.
  apply (rebinding_admits_spec (Ip4 100 64 0 1) (Ip4 100 64 0 254) (Ip4 140 82 112 3) false None None);
    repeat split; simpl; lia.
Defined.

Lemma rebinding_intersection_app answers box_zone allow deny infra acc :
  fold_left
    (fun split answer =>
       match rebinding_admits answer box_zone allow deny infra with
       | None => {| rs_admitted := rs_admitted split ++ [answer];
                    rs_refused := rs_refused split |}
       | Some reason => {| rs_admitted := rs_admitted split;
                           rs_refused := rs_refused split ++ [(answer, reason)] |}
       end) answers acc =
  {| rs_admitted := rs_admitted acc ++
       filter (fun a => rebinding_admits a box_zone allow deny infra = None) answers;
     rs_refused := rs_refused acc ++
       filter_map (fun a => (fun r => (a, r)) <$> rebinding_admits a box_zone allow deny infra) answers |}.
Proof.
  revert acc. induction answers as [|a l IH]; intros acc; simpl.
  - rewrite !app_nil_r. by destruct acc.
  - rewrite IH. destruct (rebinding_admits a box_zone allow deny infra) as [r|] eqn:E; simpl.
    + rewrite filter_cons_False by (by rewrite E). by rewrite <- app_assoc.
    + rewrite filter_cons_True by done. by rewrite <- app_assoc.
Qed.

Lemma filter_complement_perm {A B} (f : A -> option B) (l : list A)
    `{forall x, Decision (f x = None)} :
  l ≡ₚ filter (fun a => f a = None) l ++ filter (fun a => f a <> None) l.
Proof.
  induction l as [|x l IH]; [done|].
  destruct (decide (f x = None)) as [E|E].
  - rewrite filter_cons_True, filter_cons_False by tauto. simpl. by rewrite <- IH.
  - rewrite filter_cons_False, filter_cons_True by tauto. rewrite <- Permutation_middle.
    by rewrite <- IH.
Qed.

(** One reply is split, not rewritten.  The admitted addresses are
    exactly the answers the decision admits and the refused ones exactly the
    answers it refuses, each with its reason, both in the order the answer
    carried them, and together they are the whole reply. *)
Theorem rebinding_intersection_splits answers box_zone allow deny infra :
  let split := rebinding_intersection answers box_zone allow deny infra in
  rs_admitted split = filter (fun a => rebinding_admits a box_zone allow deny infra = None) answers /\
  (rs_refused split).*1 = filter (fun a => rebinding_admits a box_zone allow deny infra <> None) answers /\
  Forall (fun p => rebinding_admits p.1 box_zone allow deny infra = Some p.2) (rs_refused split) /\
  rs_admitted split ++ (rs_refused split).*1 ≡ₚ answers.
Proof.
  unfold rebinding_intersection. rewrite rebinding_intersection_app. simpl.
  set (dec := fun a => rebinding_admits a box_zone allow deny infra).
  assert (Hfst : (filter_map (fun a => (fun r => (a, r)) <$> dec a) answers).*1 =
                 filter (fun a => dec a <> None) answers).
  { induction answers as [|a l IH]; simpl; [done|].
    destruct (dec a) as [r|] eqn:E; simpl.
    - rewrite filter_cons_True by (by rewrite E). f_equal. exact IH.
    - rewrite filter_cons_False by tauto. exact IH. }
  split; [done|]. split; [done|]. split.
  - apply List.Forall_forall. intros [a r]. rewrite <- list_elem_of_In, elem_of_filter_map.
    intros (x & _ & Hx). change (dec a = Some r).
    change ((fun r => (x, r)) <$> dec x = Some (a, r)) in Hx.
    destruct (dec x) as [r'|] eqn:E; simpl in Hx; [|done]. by simplify_eq.
  - change (filter (fun a => dec a = None) answers ++
      (filter_map (fun a => (fun r => (a, r)) <$> dec a) answers).*1 ≡ₚ answers).
    rewrite Hfst. symmetry. apply filter_complement_perm.
Qed.
