(* ===== verification/Ingress.v ===== *)
(** * The listen-publication decision (crates/boxes/src/core/egress.rs)

    Which port a process listens on may be published on the box's address:
    [IngressRules] compiled from the declared [IngressPolicy], the dynamic
    stance, and the shared verdict of the listener watcher. *)

From stdpp Require Import base list strings numbers.
From Stdlib Require Import ZArith Lia.
From S2P Require Import Prelude Text Egress.
Open Scope Z_scope.

Inductive DynamicIngress : Type := IngressAllow | IngressDeny | IngressAsk.

#[global] Instance DynamicIngress_eq_dec : EqDecision DynamicIngress.
Proof. solve_decision. Defined.

Record PortMapping : Type := {
  pm_external_port : Z;
  pm_internal_port : Z;
  pm_proto : IpProto;
}.

Record IngressPolicy : Type := {
  ip_port_mappings : list PortMapping;
  ip_dynamic_allowed_range : option (Z * Z);
  ip_dynamic_ingress : option DynamicIngress;
}.

(** [IngressPolicy::is_empty]. *)
Definition ingress_is_empty (p : IngressPolicy) : bool :=
  bool_decide (length (ip_port_mappings p) = 0%nat)
  && match ip_dynamic_allowed_range p with None => true | Some _ => false end
  && match ip_dynamic_ingress p with
     | None => true
     | Some d => bool_decide (d = IngressDeny)
     end.

Record IngressRules : Type := {
  ir_declared : list (IpProto * Z);
  ir_permitted : option (Z * Z);
  ir_dynamic : option DynamicIngress;
}.

(** [IngressRules::new]. *)
Definition ingress_rules_new (declared : list (IpProto * Z)) (permitted : option (Z * Z))
    (dynamic : option DynamicIngress) : IngressRules :=
  {| ir_declared := declared; ir_permitted := permitted; ir_dynamic := dynamic |}.

(** [IngressRules::from_policy]. *)
Definition ingress_from_policy (ingress : option IngressPolicy) : IngressRules :=
  match ingress with
  | None => {| ir_declared := []; ir_permitted := None; ir_dynamic := None |}
  | Some p =>
      ingress_rules_new
        (map (fun m => (pm_proto m, pm_internal_port m)) (ip_port_mappings p))
        (ip_dynamic_allowed_range p) (ip_dynamic_ingress p)
  end.

(** [IngressRules::declared]. *)
Definition declared_ports (r : IngressRules) (proto : IpProto) : list Z :=
  map snd (List.filter (fun d => bool_decide (d.1 = proto)) (ir_declared r)).

(** [IngressRules::declares]. *)
Definition declares (r : IngressRules) (proto : IpProto) (port : Z) : bool :=
  existsb (fun d => bool_decide (d.1 = proto) && (d.2 =? port)) (ir_declared r).

Inductive DynamicPortVerdict : Type :=
| DpvAllow
| DpvDeny
| DpvAsk
| DpvNoRange
| DpvOutOfRange (range : Z * Z).

(** [IngressRules::dynamic_verdict]. *)
Definition dynamic_verdict (r : IngressRules) (port : Z) : DynamicPortVerdict :=
  match ir_dynamic r with
  | None | Some IngressDeny => DpvDeny
  | Some IngressAsk => DpvAsk
  | Some IngressAllow =>
      match ir_permitted r with
      | None => DpvNoRange
      | Some (low, high) =>
          if (low <=? port) && (port <=? high) then DpvAllow else DpvOutOfRange (low, high)
      end
  end.

Inductive ListenVerdict : Type := ListenPublish | ListenDeclared | ListenDeny.

(** [IngressRules::listen_verdict]. *)
Definition listen_verdict (r : IngressRules) (proto : IpProto) (port : Z) : ListenVerdict :=
  if declares r proto port then ListenDeclared
  else match dynamic_verdict r port with
       | DpvAllow => ListenPublish
       | DpvDeny | DpvAsk | DpvNoRange | DpvOutOfRange _ => ListenDeny
       end.

(** ** Theorems *)

Lemma declares_iff r proto port : declares r proto port = true <-> (proto, port) ∈ ir_declared r.
Proof.
  unfold declares. rewrite existsb_exists, list_elem_of_In. split.
  - intros ([p q] & Hin & H). simpl in H. bool_to_prop. by subst.
  - intros Hin. exists (proto, port). split; [done|]. simpl.
    by rewrite bool_decide_eq_true_2, Z.eqb_refl.
Qed.

Lemma declared_ports_iff r proto port :
  port ∈ declared_ports r proto <-> (proto, port) ∈ ir_declared r.
Proof.
  unfold declared_ports. rewrite !list_elem_of_In, in_map_iff. split.
  - intros ([p q] & <- & H). apply filter_In in H as [H E]. simpl in *. bool_to_prop. by subst.
  - intros H. exists (proto, port). split; [done|]. apply filter_In. split; [done|].
    by apply bool_decide_eq_true_2.
Qed.

(** What a listener publishes (NET-016, NET-138).  For the rules
    compiled from any ingress section, a listening port is published exactly
    when the section's stance is [allow], a range was opted in, the port lies
    in it inclusively, and no mapping of the section names the port on the
    listener's transport; it is [Declared] exactly when a mapping does; and
    with no section at all nothing is ever published. *)
Theorem listen_verdict_spec ingress proto port :
  (listen_verdict (ingress_from_policy ingress) proto port = ListenPublish <->
   exists p low high, ingress = Some p /\ ip_dynamic_ingress p = Some IngressAllow /\
     ip_dynamic_allowed_range p = Some (low, high) /\ low <= port <= high /\
     forall m, m ∈ ip_port_mappings p -> ~ (pm_proto m = proto /\ pm_internal_port m = port)) /\
  (listen_verdict (ingress_from_policy ingress) proto port = ListenDeclared <->
   exists p m, ingress = Some p /\ m ∈ ip_port_mappings p /\
     pm_proto m = proto /\ pm_internal_port m = port).
Proof.
  assert (Hdecl : declares (ingress_from_policy ingress) proto port = true <->
    exists p m, ingress = Some p /\ m ∈ ip_port_mappings p /\
      pm_proto m = proto /\ pm_internal_port m = port).
  { rewrite declares_iff. destruct ingress as [p|]; simpl.
    - rewrite list_elem_of_In, in_map_iff. setoid_rewrite <- list_elem_of_In. split.
      + intros (m & [= <- <-] & Hm). by exists p, m.
      + intros (p' & m & [= <-] & Hm & <- & <-). by exists m.
    - split; [intros H; inversion H|]. intros (p & m & ? & _). done. }
  unfold listen_verdict.
  destruct (declares (ingress_from_policy ingress) proto port).
  { split; [|tauto]. split; [done|].
    intros (p & low & high & -> & _ & _ & _ & H).
    destruct Hdecl as [Hd _]. destruct (Hd eq_refl) as (p' & m & [= <-] & Hm & Hp & Hport).
    by destruct (H m Hm). }
  unfold dynamic_verdict. split.
  2: { split; [|intros H; by apply Hdecl in H].
       destruct (ir_dynamic _) as [[]|]; try done.
       destruct (ir_permitted _) as [[low high]|]; [|done]. by destruct (_ && _). }
  destruct ingress as [p|]; simpl; [|split; [done|]; intros (p & ? & ? & ? & _); done].
  destruct (ip_dynamic_ingress p) as [[]|] eqn:Hdyn;
    try (split; [done|]; intros (p' & low & high & [= <-] & H & _); congruence).
  destruct (ip_dynamic_allowed_range p) as [[low high]|] eqn:Hr;
    [|split; [done|]; intros (p' & low & high & [= <-] & _ & H & _); congruence].
  destruct ((low <=? port) && (port <=? high)) eqn:E.
  - bool_to_prop. split; [|done]. intros _. exists p, low, high. split; [done|].
    split; [done|]. split; [done|]. split; [lia|]. intros m Hm [Hp Hport]. assert (false = true); [|done]. apply Hdecl. by exists p, m.
  - split; [done|]. intros (p' & low' & high' & [= <-] & _ & H & Hrange & _).
    rewrite Hr in H. injection H as <- <-.
    apply andb_false_iff in E as [E|E]; bool_to_prop; lia.
Qed.
