(* ===== verification/ReplyFlows.v ===== *)
(** * The reply-flow table (crates/boxes/src/core/egress.rs)

    One box's table of inbound flows the gate delivered, the record a reply
    of the box is admitted against ([ReplyFlows]).  Every operation the gates
    call is a state-passing definition; a run of the gate is a trace of
    operations, and the theorems of the second part hold for every trace. *)

From stdpp Require Import base list gmap numbers.
From Stdlib Require Import ZArith Lia.
From S2P Require Import Prelude Text Egress.
Open Scope Z_scope.

Definition TCP_FIN : Z := 1.
Definition TCP_SYN : Z := 2.
Definition TCP_RST : Z := 4.
Definition TCP_ACK : Z := 16.

Definition REPLY_UDP_UNREPLIED_WINDOW : Z := from_secs 30.
Definition REPLY_UDP_REPLIED_WINDOW : Z := from_mins 5.
Definition REPLY_TCP_IDLE_CAP : Z := from_mins 5.
Definition REPLY_MAX_FLOWS_PER_BOX : nat := 1024.
Definition REPLY_FLOW_SWEEP_INTERVAL : Z := from_secs 1.

Record FlowTuple : Type := {
  ft_proto : Z;
  ft_src : ip4;
  ft_src_port : Z;
  ft_dst : ip4;
  ft_dst_port : Z;
}.

#[global] Instance FlowTuple_eq_dec : EqDecision FlowTuple.
Proof. solve_decision. Defined.
#[global] Instance FlowTuple_countable : Countable FlowTuple.
Proof.
  refine (inj_countable'
    (fun t => (ft_proto t, ft_src t, ft_src_port t, ft_dst t, ft_dst_port t))
    (fun p => let '(a, b, c, d, e) := p in
       {| ft_proto := a; ft_src := b; ft_src_port := c; ft_dst := d; ft_dst_port := e |}) _).
  by intros [].
Defined.

(** [FlowTuple::reversed]. *)
Definition reversed (t : FlowTuple) : FlowTuple :=
  {| ft_proto := ft_proto t; ft_src := ft_dst t; ft_src_port := ft_dst_port t;
     ft_dst := ft_src t; ft_dst_port := ft_src_port t |}.

Record ReplyRecord : Type := {
  rr_deadline : Z;
  rr_replied : bool;
}.

Inductive InboundFlow : Type :=
| Recorded (filled : bool)
| Refreshed
| Ended
| Untracked
| RefusedAtCap.

Record ReplyFlows : Type := {
  rf_flows : gmap FlowTuple ReplyRecord;
  rf_udp_unreplied_window : Z;
  rf_udp_replied_window : Z;
  rf_tcp_idle_cap : Z;
  rf_cap : nat;
  rf_sweep_interval : Z;
  rf_last_sweep : option Z;
  rf_refused_at_cap : Z;
}.

(** [ReplyFlows::new]. *)
Definition reply_flows_new : ReplyFlows :=
  {| rf_flows := ∅;
     rf_udp_unreplied_window := REPLY_UDP_UNREPLIED_WINDOW;
     rf_udp_replied_window := REPLY_UDP_REPLIED_WINDOW;
     rf_tcp_idle_cap := REPLY_TCP_IDLE_CAP;
     rf_cap := REPLY_MAX_FLOWS_PER_BOX;
     rf_sweep_interval := REPLY_FLOW_SWEEP_INTERVAL;
     rf_last_sweep := None;
     rf_refused_at_cap := 0 |}.

(** Assignment to one field of the table. *)
Definition set_flows (s : ReplyFlows) (f : gmap FlowTuple ReplyRecord) : ReplyFlows :=
  {| rf_flows := f; rf_udp_unreplied_window := rf_udp_unreplied_window s;
     rf_udp_replied_window := rf_udp_replied_window s; rf_tcp_idle_cap := rf_tcp_idle_cap s;
     rf_cap := rf_cap s; rf_sweep_interval := rf_sweep_interval s;
     rf_last_sweep := rf_last_sweep s; rf_refused_at_cap := rf_refused_at_cap s |}.
Definition set_last_sweep (s : ReplyFlows) (at_ : option Z) : ReplyFlows :=
  {| rf_flows := rf_flows s; rf_udp_unreplied_window := rf_udp_unreplied_window s;
     rf_udp_replied_window := rf_udp_replied_window s; rf_tcp_idle_cap := rf_tcp_idle_cap s;
     rf_cap := rf_cap s; rf_sweep_interval := rf_sweep_interval s;
     rf_last_sweep := at_; rf_refused_at_cap := rf_refused_at_cap s |}.
Definition set_refused_at_cap (s : ReplyFlows) (n : Z) : ReplyFlows :=
  {| rf_flows := rf_flows s; rf_udp_unreplied_window := rf_udp_unreplied_window s;
     rf_udp_replied_window := rf_udp_replied_window s; rf_tcp_idle_cap := rf_tcp_idle_cap s;
     rf_cap := rf_cap s; rf_sweep_interval := rf_sweep_interval s;
     rf_last_sweep := rf_last_sweep s; rf_refused_at_cap := n |}.

(** [ReplyFlows::shrink_windows] and [ReplyFlows::shrink_cap]. *)
Definition shrink_windows (s : ReplyFlows) (unreplied replied tcp_idle : Z) : ReplyFlows :=
  {| rf_flows := rf_flows s; rf_udp_unreplied_window := unreplied;
     rf_udp_replied_window := replied; rf_tcp_idle_cap := tcp_idle;
     rf_cap := rf_cap s; rf_sweep_interval := rf_sweep_interval s;
     rf_last_sweep := rf_last_sweep s; rf_refused_at_cap := rf_refused_at_cap s |}.
Definition shrink_cap (s : ReplyFlows) (cap : nat) : ReplyFlows :=
  {| rf_flows := rf_flows s; rf_udp_unreplied_window := rf_udp_unreplied_window s;
     rf_udp_replied_window := rf_udp_replied_window s; rf_tcp_idle_cap := rf_tcp_idle_cap s;
     rf_cap := cap; rf_sweep_interval := rf_sweep_interval s;
     rf_last_sweep := rf_last_sweep s; rf_refused_at_cap := rf_refused_at_cap s |}.

(** [flags & mask != 0]. *)
Definition has_flag (flags mask : Z) : bool := negb (Z.land flags mask =? 0).

(** [ReplyFlows::reply_admits]. *)
Definition reply_admits (s : ReplyFlows) (tuple : FlowTuple) (flags now : Z) : ReplyFlows * bool :=
  let reply := reversed tuple in
  match rf_flows s !! reply with
  | None => (s, false)
  | Some record =>
      if rr_deadline record <=? now then (set_flows s (delete reply (rf_flows s)), false)
      else if ft_proto tuple =? IPPROTO_TCP then
        if has_flag flags (Z.lor TCP_FIN TCP_RST) then
          (set_flows s (delete reply (rf_flows s)), true)
        else
          (set_flows s (<[reply := {| rr_deadline := now + rf_tcp_idle_cap s;
                                      rr_replied := rr_replied record |}]> (rf_flows s)), true)
      else
        (set_flows s (<[reply := {| rr_deadline := now + rf_udp_replied_window s;
                                    rr_replied := true |}]> (rf_flows s)), true)
  end.

(** [ReplyFlows::sweep]. *)
Definition sweep (s : ReplyFlows) (now : Z) : ReplyFlows * bool :=
  if match rf_last_sweep s with
     | Some at_ => duration_since now at_ <? rf_sweep_interval s
     | None => false
     end then (s, false)
  else
    let before := size (rf_flows s) in
    let kept := filter (fun p => now < rr_deadline p.2) (rf_flows s) in
    (set_flows (set_last_sweep s (Some now)) kept, (size kept <? before)%nat).

(** The opening packet of [observe_inbound]. *)
Definition opening (tuple : FlowTuple) (flags : Z) : bool :=
  (ft_proto tuple =? IPPROTO_UDP)
  || ((ft_proto tuple =? IPPROTO_TCP) && has_flag flags TCP_SYN && negb (has_flag flags TCP_ACK)).

(** [ReplyFlows::observe_inbound] past its live-record arm: the part that
    opens a record. *)
Definition open_flow (s : ReplyFlows) (tuple : FlowTuple) (flags now : Z)
    : ReplyFlows * InboundFlow :=
  if negb (opening tuple flags) then (s, Untracked)
  else
    let '(s, room) :=
      if (rf_cap s <=? size (rf_flows s))%nat then sweep s now else (s, true) in
    if negb room then
      (set_refused_at_cap s (u64_saturating_add (rf_refused_at_cap s) 1), RefusedAtCap)
    else
      let record :=
        {| rr_deadline := now + (if ft_proto tuple =? IPPROTO_TCP then rf_tcp_idle_cap s
                                 else rf_udp_unreplied_window s);
           rr_replied := false |} in
      let s := set_flows s (<[tuple := record]> (rf_flows s)) in
      (s, Recorded (rf_cap s <=? size (rf_flows s))%nat).

(** [ReplyFlows::observe_inbound]. *)
Definition observe_inbound (s : ReplyFlows) (tuple : FlowTuple) (flags now : Z)
    : ReplyFlows * InboundFlow :=
  match rf_flows s !! tuple with
  | Some record =>
      if rr_deadline record <=? now then
        open_flow (set_flows s (delete tuple (rf_flows s))) tuple flags now
      else if (ft_proto tuple =? IPPROTO_TCP) && has_flag flags (Z.lor TCP_FIN TCP_RST) then
        (set_flows s (delete tuple (rf_flows s)), Ended)
      else
        let window :=
          if ft_proto tuple =? IPPROTO_TCP then rf_tcp_idle_cap s
          else if rr_replied record then rf_udp_replied_window s
          else rf_udp_unreplied_window s in
        (set_flows s (<[tuple := {| rr_deadline := now + window;
                                    rr_replied := rr_replied record |}]> (rf_flows s)), Refreshed)
  | None => open_flow s tuple flags now
  end.

(** [ReplyFlows::clear]. *)
Definition clear (s : ReplyFlows) : ReplyFlows := set_flows s ∅.

(** [ReplyFlows::end_port]. *)
Definition end_port (s : ReplyFlows) (proto port : Z) : ReplyFlows :=
  set_flows s (filter (fun p => ~ (ft_proto p.1 = proto /\ ft_dst_port p.1 = port)) (rf_flows s)).

(** [ReplyFlows::record_of]. *)
Definition record_of (s : ReplyFlows) (tuple : FlowTuple) : option ReplyRecord :=
  rf_flows s !! tuple.

(** [ReplyFlows::names_peer]. *)
Definition names_peer (s : ReplyFlows) (peer : ip4) (now : Z) : bool :=
  existsb (fun p => bool_decide (ft_src p.1 = peer) && (now <? rr_deadline p.2))
    (map_to_list (rf_flows s)).

(** ** Traces *)

(** What a gate does to one box's table: a frame the box sent, a frame the
    gate is delivering, a stop or revocation, a withdrawn port. *)
Inductive FlowOp : Type :=
| OpReply (tuple : FlowTuple) (flags now : Z)
| OpInbound (tuple : FlowTuple) (flags now : Z)
| OpClear
| OpEndPort (proto port : Z).

Inductive FlowAnswer : Type :=
| AnsReply (admitted : bool)
| AnsInbound (flow : InboundFlow)
| AnsNone.

Definition flow_step (s : ReplyFlows) (op : FlowOp) : ReplyFlows * FlowAnswer :=
  match op with
  | OpReply t fl now => let '(s, b) := reply_admits s t fl now in (s, AnsReply b)
  | OpInbound t fl now => let '(s, f) := observe_inbound s t fl now in (s, AnsInbound f)
  | OpClear => (clear s, AnsNone)
  | OpEndPort proto port => (end_port s proto port, AnsNone)
  end.

(** * Properties of the reply-flow table

    The table is bounded, it admits a reply exactly when the trace of
    the gate holds a live conversation the reply belongs to, and a
    connection flood cannot take an established conversation away.
    [conversation] is the abstract specification: it speaks of one five-tuple
    and of the gate's history, not of the table. *)

(** ** Lookups after one operation *)

Lemma reversed_involutive t : reversed (reversed t) = t.
Proof. by destruct t. Qed.

(** The windows and the cap are fixed at construction. *)
Definition same_config (s s' : ReplyFlows) : Prop :=
  rf_udp_unreplied_window s' = rf_udp_unreplied_window s /\
  rf_udp_replied_window s' = rf_udp_replied_window s /\
  rf_tcp_idle_cap s' = rf_tcp_idle_cap s /\ rf_cap s' = rf_cap s.

Lemma sweep_config s now : same_config s (sweep s now).1.
Proof. unfold sweep. by code_cases. Qed.

Lemma open_flow_config s t fl now : same_config s (open_flow s t fl now).1.
Proof.
  unfold open_flow. destruct (negb _); [done|]. pose proof (sweep_config s now) as H.
  destruct (_ <=? _)%nat; [|done]. by destruct (sweep s now) as [s1 []].
Qed.

Lemma flow_step_config s op : same_config s (flow_step s op).1.
Proof.
  destruct op as [t fl now|t fl now| |]; simpl; [| |done|done].
  - unfold reply_admits. destruct (_ !! _); [|done]. by code_cases.
  - unfold observe_inbound. destruct (rf_flows s !! t) as [r|].
    + destruct (_ <=? now); [|by code_cases].
      pose proof (open_flow_config (set_flows s (delete t (rf_flows s))) t fl now) as H.
      by destruct (open_flow _ t fl now).
    + pose proof (open_flow_config s t fl now). by destruct (open_flow s t fl now).
Qed.

Lemma run_config ops : same_config reply_flows_new (run_state flow_step reply_flows_new ops).
Proof.
  apply (run_state_ind flow_step (same_config reply_flows_new)); [done|].
  intros s o _ (H1 & H2 & H3 & H4). destruct (flow_step_config s o) as (E1 & E2 & E3 & E4).
  unfold same_config. by rewrite E1, E2, E3, E4.
Qed.

Lemma sweep_lookup s now k :
  rf_flows (sweep s now).1 !! k = rf_flows s !! k \/
  (rf_flows (sweep s now).1 !! k = None /\
   exists r, rf_flows s !! k = Some r /\ rr_deadline r <= now).
Proof.
  unfold sweep. case_match; simpl; [by left|].
  destruct (rf_flows s !! k) as [r|] eqn:Hk; [|left; apply map_lookup_filter_None; by left].
  destruct (decide (now < rr_deadline r)); [left; by apply map_lookup_filter_Some|right].
  split; [|exists r; split; [done|lia]].
  apply map_lookup_filter_None. right. intros r' Hr'. simplify_eq. simpl. lia.
Qed.

(** An operation on other five-tuples leaves the record alone, or drops it
    when it has expired. *)
Definition concerns (k : FlowTuple) (op : FlowOp) : bool :=
  match op with
  | OpReply t _ _ => bool_decide (reversed t = k)
  | OpInbound t _ _ => bool_decide (t = k)
  | OpClear => true
  | OpEndPort proto port => (ft_proto k =? proto) && (ft_dst_port k =? port)
  end.

(** The clock reading an operation was made at, if it reads the clock. *)
Definition op_time (op : FlowOp) : option Z :=
  match op with
  | OpReply _ _ now | OpInbound _ _ now => Some now
  | OpClear | OpEndPort _ _ => None
  end.

Lemma open_flow_other s t fl now k :
  t <> k ->
  rf_flows (open_flow s t fl now).1 !! k = rf_flows s !! k \/
  (rf_flows (open_flow s t fl now).1 !! k = None /\
   exists r, rf_flows s !! k = Some r /\ rr_deadline r <= now).
Proof.
  intros Hne. unfold open_flow. destruct (negb _); [by left|].
  pose proof (sweep_lookup s now k) as Hsw.
  destruct (_ <=? _)%nat; simpl; [|left; by rewrite lookup_insert_ne].
  destruct (sweep s now) as [s1 []]; simpl in *; [|done].
  by rewrite lookup_insert_ne.
Qed.

Lemma observe_inbound_other s t fl now k :
  t <> k ->
  rf_flows (observe_inbound s t fl now).1 !! k = rf_flows s !! k \/
  (rf_flows (observe_inbound s t fl now).1 !! k = None /\
   exists r, rf_flows s !! k = Some r /\ rr_deadline r <= now).
Proof.
  intros Hne. unfold observe_inbound. destruct (rf_flows s !! t) as [r|]; [|by apply open_flow_other].
  destruct (_ <=? now).
  { pose proof (open_flow_other (set_flows s (delete t (rf_flows s))) t fl now k Hne) as H.
    simpl in H. by rewrite lookup_delete_ne in H. }
  left. destruct (_ && _); simpl; [by rewrite lookup_delete_ne|by rewrite lookup_insert_ne].
Qed.

Lemma reply_admits_other s t fl now k :
  reversed t <> k -> rf_flows (reply_admits s t fl now).1 !! k = rf_flows s !! k.
Proof.
  intros Hne. unfold reply_admits. destruct (rf_flows s !! reversed t) as [r|]; [|done].
  destruct (_ <=? now); simpl; [by rewrite lookup_delete_ne|].
  destruct (_ =? _); simpl; [destruct (has_flag _ _); simpl|];
    rewrite ?lookup_delete_ne, ?lookup_insert_ne; done.
Qed.

Lemma end_port_lookup s proto port k :
  rf_flows (end_port s proto port) !! k =
  if (ft_proto k =? proto) && (ft_dst_port k =? port) then None else rf_flows s !! k.
Proof.
  unfold end_port. simpl. destruct (_ && _) eqn:E.
  - bool_to_prop. apply map_lookup_filter_None. right. simpl. intros; tauto.
  - apply andb_false_iff in E. destruct (rf_flows s !! k) eqn:Hk.
    + apply map_lookup_filter_Some. split; [done|]. simpl.
      intros []. destruct E as [E|E]; bool_to_prop; done.
    + apply map_lookup_filter_None. by left.
Qed.

(** An operation that does not concern [k] keeps its record, or drops it when
    it has expired; it never creates one. *)
Lemma flow_step_other s op k :
  concerns k op = false ->
  rf_flows (flow_step s op).1 !! k = rf_flows s !! k \/
  (rf_flows (flow_step s op).1 !! k = None /\
   exists r now, rf_flows s !! k = Some r /\ op_time op = Some now /\ rr_deadline r <= now).
Proof.
  destruct op as [t fl now|t fl now| |proto port]; simpl; intros Hc.
  - bool_to_prop. left. pose proof (reply_admits_other s t fl now k Hc).
    by destruct (reply_admits s t fl now).
  - bool_to_prop. pose proof (observe_inbound_other s t fl now k Hc) as H.
    destruct (observe_inbound s t fl now) as [s' f]. simpl in *.
    destruct H as [H|(H & r & Hr)]; [by left|right; split; [done|]]. exists r, now. tauto.
  - done.
  - left. pose proof (end_port_lookup s proto port k) as H. by rewrite Hc in H.
Qed.

(** What opening does to its own record. *)
Lemma open_flow_self s k fl now :
  rf_flows s !! k = None ->
  match (open_flow s k fl now).2 with
  | Recorded _ => opening k fl = true /\ rf_flows (open_flow s k fl now).1 !! k =
      Some {| rr_deadline := now + (if ft_proto k =? IPPROTO_TCP then rf_tcp_idle_cap s
                                    else rf_udp_unreplied_window s); rr_replied := false |}
  | Refreshed | Ended => False
  | _ => rf_flows (open_flow s k fl now).1 !! k = None
  end.
Proof.
  intros Hk. unfold open_flow. destruct (opening k fl); simpl; [|done].
  pose proof (sweep_lookup s now k) as Hsw. unfold sweep in *.
  destruct (_ <=? size _)%nat; simpl; [|split; [done|apply lookup_insert_eq]].
  rewrite Hk in Hsw.
  destruct (match rf_last_sweep s with Some _ => _ | None => _ end); simpl in *; [done|].
  destruct (_ <? _)%nat; simpl; [split; [done|apply lookup_insert_eq]|].
  destruct Hsw as [|[]]; done.
Qed.

(** ** The specification of a conversation *)

(** A close: FIN or RST of a TCP flow, in either direction. *)
Definition closes (k : FlowTuple) (fl : Z) : bool :=
  (ft_proto k =? IPPROTO_TCP) && has_flag fl (Z.lor TCP_FIN TCP_RST).

(** The record a conversation has after one more frame of it at [now]. *)
Definition opened (k : FlowTuple) (now : Z) : ReplyRecord :=
  {| rr_deadline := now + (if ft_proto k =? IPPROTO_TCP then REPLY_TCP_IDLE_CAP
                           else REPLY_UDP_UNREPLIED_WINDOW);
     rr_replied := false |}.
Definition heard (k : FlowTuple) (r : ReplyRecord) (now : Z) : ReplyRecord :=
  {| rr_deadline := now + (if ft_proto k =? IPPROTO_TCP then REPLY_TCP_IDLE_CAP
                           else if rr_replied r then REPLY_UDP_REPLIED_WINDOW
                           else REPLY_UDP_UNREPLIED_WINDOW);
     rr_replied := rr_replied r |}.
Definition answered (k : FlowTuple) (r : ReplyRecord) (now : Z) : ReplyRecord :=
  {| rr_deadline := now + (if ft_proto k =? IPPROTO_TCP then REPLY_TCP_IDLE_CAP
                           else REPLY_UDP_REPLIED_WINDOW);
     rr_replied := if ft_proto k =? IPPROTO_TCP then rr_replied r else true |}.

(** [conversation k ops r]: in the history [ops] of a fresh gate, the client's
    flow [k] was opened by an opening packet the gate recorded, every later
    frame of it (the client's, or the box's answer) arrived before the
    deadline of the moment and closed nothing, the port was not withdrawn and
    the box not cleared since; [r] is what it holds now.  There is no rule by
    which a frame of the box starts one. *)
Inductive conversation (k : FlowTuple) : list FlowOp -> ReplyRecord -> Prop :=
| conv_open ops fl now filled :
    opening k fl = true ->
    (observe_inbound (run_state flow_step reply_flows_new ops) k fl now).2 = Recorded filled ->
    conversation k (ops ++ [OpInbound k fl now]) (opened k now)
| conv_inbound ops r fl now :
    conversation k ops r -> now < rr_deadline r -> closes k fl = false ->
    conversation k (ops ++ [OpInbound k fl now]) (heard k r now)
| conv_reply ops r fl now :
    conversation k ops r -> now < rr_deadline r -> closes k fl = false ->
    conversation k (ops ++ [OpReply (reversed k) fl now]) (answered k r now)
| conv_other ops r op :
    conversation k ops r -> concerns k op = false -> conversation k (ops ++ [op]) r.

(** Clock readings of a trace never go back. *)
Fixpoint monotone_from (at_ : Z) (ops : list FlowOp) : Prop :=
  match ops with
  | [] => True
  | op :: ops =>
      match op_time op with
      | Some now => at_ <= now /\ monotone_from now ops
      | None => monotone_from at_ ops
      end
  end.

Fixpoint last_time (at_ : Z) (ops : list FlowOp) : Z :=
  match ops with
  | [] => at_
  | op :: ops => last_time (match op_time op with Some now => now | None => at_ end) ops
  end.

Lemma monotone_app at_ ops1 ops2 :
  monotone_from at_ (ops1 ++ ops2) <->
  monotone_from at_ ops1 /\ monotone_from (last_time at_ ops1) ops2.
Proof.
  revert at_. induction ops1 as [|o ops1 IH]; intros at_; simpl; [tauto|].
  destruct (op_time o); rewrite IH; tauto.
Qed.

Lemma last_time_snoc at_ ops op :
  last_time at_ (ops ++ [op]) = match op_time op with Some now => now | None => last_time at_ ops end.
Proof.
  revert at_. induction ops as [|o ops IH]; intros at_; simpl; [done|apply IH].
Qed.

(** ** One operation on its own conversation *)

Lemma delete_own s k : rf_flows (set_flows s (delete k (rf_flows s))) !! k = None.
Proof. apply lookup_delete_eq. Qed.

Lemma config_opened s k now :
  same_config reply_flows_new s ->
  {| rr_deadline := now + (if ft_proto k =? IPPROTO_TCP then rf_tcp_idle_cap s
                           else rf_udp_unreplied_window s); rr_replied := false |} = opened k now.
Proof. intros (H1 & H2 & H3 & H4). unfold opened. by rewrite H1, H3. Qed.

Lemma observe_inbound_self s k fl now :
  same_config reply_flows_new s ->
  match (observe_inbound s k fl now).2, rf_flows s !! k with
  | Recorded _, _ => opening k fl = true /\
                     rf_flows (observe_inbound s k fl now).1 !! k = Some (opened k now)
  | Refreshed, Some r => now < rr_deadline r /\ closes k fl = false /\
                         rf_flows (observe_inbound s k fl now).1 !! k = Some (heard k r now)
  | Refreshed, None => False
  | _, _ => rf_flows (observe_inbound s k fl now).1 !! k = None
  end.
Proof.
  intros Hc. unfold observe_inbound, closes.
  destruct (rf_flows s !! k) as [r|] eqn:Hk.
  - destruct (rr_deadline r <=? now) eqn:Hd.
    + pose proof (open_flow_self _ k fl now (delete_own s k)) as H. simpl in H.
      rewrite (config_opened s) in H by done.
      destruct (open_flow _ k fl now) as [s' []]; simpl in *; done.
    + bool_to_prop. destruct (_ && _); simpl; [apply lookup_delete_eq|].
      split; [done|]. split; [done|]. rewrite lookup_insert_eq.
      destruct Hc as (H1 & H2 & H3 & H4). unfold heard. by rewrite H1, H2, H3.
  - pose proof (open_flow_self s k fl now Hk) as H. rewrite (config_opened s) in H by done.
    destruct (open_flow s k fl now) as [s' []]; simpl in *; done.
Qed.

Lemma reply_admits_self s k fl now :
  same_config reply_flows_new s ->
  match rf_flows s !! k with
  | None => reply_admits s (reversed k) fl now = (s, false)
  | Some r =>
      (reply_admits s (reversed k) fl now).2 = negb (rr_deadline r <=? now) /\
      rf_flows (reply_admits s (reversed k) fl now).1 !! k =
        if (rr_deadline r <=? now) || closes k fl then None else Some (answered k r now)
  end.
Proof.
  intros (H1 & H2 & H3 & H4). unfold reply_admits. rewrite reversed_involutive.
  destruct (rf_flows s !! k) as [r|]; [|done]. unfold closes, answered.
  change (ft_proto (reversed k)) with (ft_proto k). rewrite H2, H3.
  destruct (_ <=? now); simpl; [by rewrite lookup_delete_eq|].
  destruct (_ =? _); simpl; [destruct (has_flag _ _); simpl|];
    by rewrite ?lookup_delete_eq, ?lookup_insert_eq.
Qed.

(** ** The table refines the conversations *)

Local Abbreviation after ops := (run_state flow_step reply_flows_new ops).

Lemma after_snoc ops op : after (ops ++ [op]) = (flow_step (after ops) op).1.
Proof. by rewrite run_state_app, run_state_cons. Qed.

(** Every record is the record of a conversation. *)
Lemma record_has_conversation ops k r :
  rf_flows (after ops) !! k = Some r -> conversation k ops r.
Proof.
  revert r. induction ops as [|op ops IH] using rev_ind; intros r.
  { unfold run_state. simpl. by rewrite lookup_empty. }
  rewrite after_snoc. pose proof (run_config ops) as Hc. set (s := after ops) in *.
  destruct (concerns k op) eqn:Hk.
  2:{ intros Hr. apply conv_other; [|done]. apply IH.
      destruct (flow_step_other s op k Hk) as [E|(E & _)]; congruence. }
  destruct op as [t fl now|t fl now| |proto port]; simpl in Hk |- *; bool_to_prop.
  - assert (t = reversed k) as -> by (by rewrite <- Hk, reversed_involutive).
    pose proof (reply_admits_self s k fl now Hc) as H.
    destruct (rf_flows s !! k) as [r0|] eqn:Hr0; [|rewrite H; simpl; congruence].
    destruct (reply_admits s (reversed k) fl now) as [s' b]. simpl in *. destruct H as [_ ->].
    destruct (_ <=? now) eqn:Hd; simpl; [done|]. destruct (closes k fl) eqn:Hcl; [done|].
    intros [= <-]. bool_to_prop. apply conv_reply; auto.
  - subst t. pose proof (observe_inbound_self s k fl now Hc) as H.
    destruct (observe_inbound s k fl now) as [s' f] eqn:Ho. simpl in *.
    destruct f as [filled| | | |]; [|destruct (rf_flows s !! k) as [r0|] eqn:Hr0; [|done]| | |];
      try congruence.
    + destruct H as [Hop ->]. intros [= <-]. apply (conv_open k ops fl now filled); [done|].
      fold s. by rewrite Ho.
    + destruct H as (Hd & Hcl & ->). intros [= <-]. apply conv_inbound; auto.
  - by rewrite lookup_empty.
  - subst. pose proof (end_port_lookup s (ft_proto k) (ft_dst_port k) k) as H.
    rewrite !Z.eqb_refl in H. simpl in H. congruence.
Qed.

(** A conversation that has not expired is in the table. *)
Lemma conversation_has_record ops k r now :
  conversation k ops r -> forall at_, monotone_from at_ ops -> last_time at_ ops <= now ->
  now < rr_deadline r -> rf_flows (after ops) !! k = Some r.
Proof.
  intros Hconv. revert now.
  induction Hconv as [ops fl n filled Hop Hans|ops r fl n Hconv IH Hd Hcl
                     |ops r fl n Hconv IH Hd Hcl|ops r op Hconv IH Hk];
    intros now at_ [Hm Hm1]%monotone_app Hlast Hlive; rewrite after_snoc;
    rewrite last_time_snoc in Hlast; pose proof (run_config ops) as Hc;
    simpl in Hm1, Hlast |- *.
  - pose proof (observe_inbound_self (after ops) k fl n Hc) as H.
    destruct (observe_inbound (after ops) k fl n) as [s' f]. simpl in *. subst f. tauto.
  - pose proof (observe_inbound_self (after ops) k fl n Hc) as H.
    assert (Hr : rf_flows (after ops) !! k = Some r) by (apply (IH n at_); tauto || lia).
    unfold observe_inbound in *. rewrite Hr in *.
    replace (rr_deadline r <=? n) with false in * by (symmetry; apply Z.leb_gt; lia).
    unfold closes in Hcl. rewrite Hcl in *. simpl in *. tauto.
  - pose proof (reply_admits_self (after ops) k fl n Hc) as H.
    assert (Hr : rf_flows (after ops) !! k = Some r) by (apply (IH n at_); tauto || lia).
    rewrite Hr in H. destruct (reply_admits _ (reversed k) fl n) as [s' b]. simpl in *.
    destruct H as [_ ->]. rewrite Hcl.
    by replace (rr_deadline r <=? n) with false by (symmetry; apply Z.leb_gt; lia).
  - destruct (flow_step_other (after ops) op k Hk) as [->|(_ & r0 & n & Hr0 & Hn & Hexp)].
    + destruct (op_time op) as [n|]; [apply (IH n at_)|apply (IH now at_)]; tauto || lia.
    + rewrite Hn in *.
      assert (Hr : rf_flows (after ops) !! k = Some r) by (apply (IH n at_); tauto || lia).
      rewrite Hr in Hr0. injection Hr0 as <-. lia.
Qed.

(** ** The bound *)

Lemma sweep_room s now :
  (sweep s now).2 = true -> (size (rf_flows (sweep s now).1) < size (rf_flows s))%nat.
Proof. unfold sweep. case_match; simpl; [done|]. by intros ?%Nat.ltb_lt. Qed.

Lemma sweep_size s now : (size (rf_flows (sweep s now).1) <= size (rf_flows s))%nat.
Proof.
  unfold sweep. case_match; simpl; [done|].
  apply map_subseteq_size, map_filter_subseteq.
Qed.

Lemma delete_size_le (m : gmap FlowTuple ReplyRecord) k : (size (delete k m) <= size m)%nat.
Proof. apply map_subseteq_size, delete_subseteq. Qed.

Lemma insert_live_size (m : gmap FlowTuple ReplyRecord) k r r' :
  m !! k = Some r -> size (<[k := r']> m) = size m.
Proof. intros H. apply map_size_insert_Some. by rewrite H. Qed.

Lemma open_flow_size s t fl now :
  (size (rf_flows s) <= rf_cap s)%nat -> (size (rf_flows (open_flow s t fl now).1) <= rf_cap s)%nat.
Proof.
  intros Hs. unfold open_flow. destruct (negb _); [done|].
  destruct (_ <=? _)%nat eqn:E; simpl.
  - pose proof (sweep_room s now) as Hroom. pose proof (sweep_size s now) as Hle.
    destruct (sweep s now) as [s1 []]; simpl in *; [|lia]. specialize (Hroom eq_refl).
    rewrite map_size_insert. case_match; simpl; lia.
  - apply Nat.leb_gt in E. rewrite map_size_insert. case_match; simpl; lia.
Qed.

Lemma flow_step_size s op :
  (size (rf_flows s) <= rf_cap s)%nat -> (size (rf_flows (flow_step s op).1) <= rf_cap s)%nat.
Proof.
  intros Hs. destruct op as [t fl now|t fl now| |proto port]; simpl.
  - unfold reply_admits. pose proof (delete_size_le (rf_flows s) (reversed t)).
    destruct (rf_flows s !! reversed t) as [r|] eqn:Hr; [|done].
    code_cases; simpl; try lia; by rewrite (insert_live_size _ _ r).
  - unfold observe_inbound. pose proof (delete_size_le (rf_flows s) t) as Hd.
    pose proof (open_flow_size s t fl now Hs) as Ho.
    destruct (rf_flows s !! t) as [r|] eqn:Hr; [|by destruct (open_flow s t fl now)].
    destruct (_ <=? now).
    { pose proof (open_flow_size (set_flows s (delete t (rf_flows s))) t fl now) as Ho'.
      simpl in Ho'. destruct (open_flow (set_flows _ _) t fl now). simpl in *. apply Ho'. lia. }
    destruct (_ && _); simpl; [lia|]. by rewrite (insert_live_size _ _ r).
  - rewrite map_size_empty. lia.
  - etrans; [|done]. apply map_subseteq_size, map_filter_subseteq.
Qed.

Lemma after_size ops : (size (rf_flows (after ops)) <= REPLY_MAX_FLOWS_PER_BOX)%nat.
Proof.
  apply (run_state_ind flow_step
    (fun s => rf_cap s = REPLY_MAX_FLOWS_PER_BOX /\ size (rf_flows s) <= REPLY_MAX_FLOWS_PER_BOX)%nat).
  - split; [done|]. simpl. rewrite map_size_empty. lia.
  - intros s o _ [Hc Hs]. destruct (flow_step_config s o) as (_ & _ & _ & Hc').
    split; [congruence|]. rewrite <- Hc in *. by apply flow_step_size.
Qed.

(** A reply is admitted exactly under a live conversation. *)
Lemma reply_admits_iff ops t fl now :
  monotone_from 0 ops -> last_time 0 ops <= now ->
  (reply_admits (run_state flow_step reply_flows_new ops) t fl now).2 = true <->
  exists r, conversation (reversed t) ops r /\ now < rr_deadline r.
Proof.
  intros Hm Hlast. pose proof (reply_admits_self (after ops) (reversed t) fl now (run_config ops)) as H.
  rewrite reversed_involutive in H. split.
  - intros Hadm. destruct (rf_flows (after ops) !! reversed t) as [r|] eqn:Hr;
      [|by rewrite H in Hadm].
    destruct H as [H _]. rewrite Hadm in H. symmetry in H. bool_to_prop.
    exists r. split; [by apply record_has_conversation|done].
  - intros (r & Hconv & Hd). rewrite (conversation_has_record _ _ _ now Hconv 0) in H by done.
    destruct H as [-> _]. apply negb_true_iff, Z.leb_gt. lia.
Qed.

(** ** Claims *)

(** The reply-flow table never holds more than
    [REPLY_MAX_FLOWS_PER_BOX] (1024) records, whatever frames arrive in
    whatever order and at whatever times; and for any table, whatever its
    cap, an inbound opening frame that meets it full of unexpired records
    leaves every record as it was, answers [RefusedAtCap] and is counted
    (saturating at the [u64] maximum). *)
Theorem reply_table_bounded ops :
  (size (rf_flows (run_state flow_step reply_flows_new ops)) <= 1024)%nat /\
  forall s t fl now,
    size (rf_flows s) = rf_cap s -> rf_flows s !! t = None -> opening t fl = true ->
    (forall k r, rf_flows s !! k = Some r -> now < rr_deadline r) ->
    (observe_inbound s t fl now).2 = RefusedAtCap /\
    rf_flows (observe_inbound s t fl now).1 = rf_flows s /\
    rf_refused_at_cap (observe_inbound s t fl now).1 =
      Z.min 18446744073709551615 (rf_refused_at_cap s + 1).
Proof.
  split; [apply after_size|]. intros s t fl now Hfull Ht Hop Hlive.
  unfold observe_inbound, open_flow. rewrite Ht, Hop, Hfull, Nat.leb_refl. simpl.
  assert (Hkeep : filter (fun p => now < rr_deadline p.2) (rf_flows s) = rf_flows s).
  { apply map_filter_id. intros k r Hr. by apply (Hlive k r). }
  unfold sweep. destruct (match rf_last_sweep s with Some _ => _ | None => _ end); simpl; [done|].
  rewrite Hkeep, Nat.ltb_irrefl. done.
Qed.

(** The reply admission is exactly conversation membership.  For every
    history of a fresh gate whose clock does not run backwards, a frame the
    box sends at [now] is admitted as a reply if and only if the five-tuple
    it reverses is a conversation the history opened from the outside, kept
    alive frame by frame and never closed, withdrawn or cleared, whose
    deadline [now] has not reached.  In particular no sequence of frames the
    box sends can hand the box an admission. *)
Theorem reply_admitted_iff_conversation ops t fl now :
  monotone_from 0 ops -> last_time 0 ops <= now ->
  (reply_admits (run_state flow_step reply_flows_new ops) t fl now).2 = true <->
  exists r, conversation (reversed t) ops r /\ now < rr_deadline r.
Proof. apply reply_admits_iff. Qed.

(** A connection flood cannot evict an established conversation.  From
    any table, after any number of inbound frames on other five-tuples (at
    the cap or not) read before the record's deadline, the conversation's
    record is untouched, the box's next answer on it is still admitted, and
    the client's next frame still refreshes (or closes) it. *)
Theorem flood_keeps_conversation s k r ops fl now :
  rf_flows s !! k = Some r ->
  (forall op, op ∈ ops -> exists t fl' at_, op = OpInbound t fl' at_ /\ t <> k /\ at_ < rr_deadline r) ->
  now < rr_deadline r ->
  rf_flows (run_state flow_step s ops) !! k = Some r /\
  (reply_admits (run_state flow_step s ops) (reversed k) fl now).2 = true /\
  (observe_inbound (run_state flow_step s ops) k fl now).2 = (if closes k fl then Ended else Refreshed).
Proof.
  intros Hr Hops Hnow.
  assert (Hk : rf_flows (run_state flow_step s ops) !! k = Some r).
  { apply (run_state_ind flow_step (fun s => rf_flows s !! k = Some r)); [done|].
    intros s' op (t & fl' & at_ & -> & Hne & Hat)%Hops Hs'. simpl.
    destruct (observe_inbound_other s' t fl' at_ k Hne) as [E|(_ & r' & E & ?)].
    - destruct (observe_inbound s' t fl' at_). simpl in *. congruence.
    - rewrite Hs' in E. injection E as <-. lia. }
  assert (Hd : (rr_deadline r <=? now) = false) by (apply Z.leb_gt; lia).
  split; [done|]. unfold reply_admits, observe_inbound, closes. rewrite reversed_involutive, Hk, Hd.
  split; [by code_cases|]. by destruct (_ && _).
Qed.

(** ** Witnesses *)

(** SYNs from one client, one port after another; a table that holds one
    of them and has no room for a second. *)
Definition flood_tuple (port : nat) : FlowTuple :=
  {| ft_proto := 6; ft_src := Ip4 10 0 0 9; ft_src_port := Z.of_nat port;
     ft_dst := Ip4 10 0 0 2; ft_dst_port := 80 |}.
Definition flood (n : nat) : list FlowOp :=
  map (fun i => OpInbound (flood_tuple i) TCP_SYN 0) (seq 0 n).
Definition full_table : ReplyFlows :=
  {| rf_flows := {[ flood_tuple 0 := opened (flood_tuple 0) 0 ]};
     rf_udp_unreplied_window := REPLY_UDP_UNREPLIED_WINDOW;
     rf_udp_replied_window := REPLY_UDP_REPLIED_WINDOW; rf_tcp_idle_cap := REPLY_TCP_IDLE_CAP;
     rf_cap := 1; rf_sweep_interval := REPLY_FLOW_SWEEP_INTERVAL; rf_last_sweep := None;
     rf_refused_at_cap := 0 |}.

Lemma reply_table_bounded_witness :
  (observe_inbound full_table (flood_tuple 1) TCP_SYN 1).2 = RefusedAtCap.
Proof.
  apply (proj2 (reply_table_bounded []) full_table (flood_tuple 1) TCP_SYN 1).
  - vm_compute; reflexivity.
  - vm_compute; reflexivity.
  - reflexivity.
  - intros k r Hr. simpl in Hr. apply lookup_singleton_Some in Hr as [_ <-].
    vm_compute. reflexivity.
Defined.

Lemma reply_admitted_iff_conversation_witness :
  let t := flood_tuple 0 in
  (reply_admits (run_state flow_step reply_flows_new (flood 3)) (reversed t) TCP_ACK 7).2 = true <->
  exists r, conversation (reversed (reversed t)) (flood 3) r /\ 7 < rr_deadline r.
Proof.
  apply (reply_admitted_iff_conversation (flood 3) (reversed (flood_tuple 0)) TCP_ACK 7);
    vm_compute; intuition discriminate.
Defined.

Lemma flood_keeps_conversation_witness :
  (reply_admits (run_state flow_step
    (run_state flow_step reply_flows_new [OpInbound (flood_tuple 9) TCP_SYN 0]) (flood 3))
    (reversed (flood_tuple 9)) TCP_ACK 7).2 = true.
Proof.
  refine (proj1 (proj2 (flood_keeps_conversation _ (flood_tuple 9) (opened (flood_tuple 9) 0)
    (flood 3) TCP_ACK 7 _ _ _))).
  - vm_compute; reflexivity.
  - intros op Hop. unfold flood in Hop. simpl in Hop.
    repeat (apply elem_of_cons in Hop as [->|Hop];
      [do 3 eexists; split; [reflexivity|]; split; [discriminate|reflexivity]|]).
    inversion Hop.
  - vm_compute; reflexivity.
Defined.
