(* ===== verification/GraphModel.v ===== *)
(** * The dependency graph (crates/graph/src/builds.rs, lib.rs, graph.rs)

    Build specs, the graph that holds them, the caches a plan may draw on
    ([BinProvider]), and the reachability query [Graph::transitive_specs_of].

    The specs live in a [generational_arena::Arena], a third-party container:
    [Arena] is its interface, with the behaviour its documentation promises as
    laws, and [vec_arena] an instance that shows the laws can hold. *)

From stdpp Require Import base list gmap relations strings numbers sorting.
From Stdlib Require Import Lia ZArith SpecFloat.
From S2P Require Import Prelude.
Open Scope Z_scope.

(** ** Depth-first searches with a seen-set

    What the graph code's recursive searches share: a call marks a node seen,
    then searches each child not seen yet, threading one seen-set through the
    whole recursion.  [visited] is what such a call has done when it returns;
    its rules follow the code's three cases, and [visited_exact] is the result:
    from an empty seen-set, exactly the reachable nodes. *)

Section dfs.
Context {N : Type} `{Countable N}.
Variable children : N -> list N.

Definition child_of (x y : N) : Prop := y ∈ children x.

(** Searching the nodes [todo] in turn took the seen-set from [seen] to [seen']. *)
Record visited (seen seen' : gset N) (todo : list N) : Prop := {
  visited_mono : seen ⊆ seen';
  visited_todo c : c ∈ todo -> c ∈ seen';
  visited_reached x : x ∈ seen' -> x ∉ seen -> exists c, c ∈ todo /\ rtc child_of c x;
  visited_closed x : x ∈ seen' -> x ∉ seen -> forall d, d ∈ children x -> d ∈ seen';
}.

Lemma visited_nil seen : visited seen seen [].
Proof. split; set_solver. Qed.

Lemma visited_cons_seen seen seen' c todo :
  c ∈ seen -> visited seen seen' todo -> visited seen seen' (c :: todo).
Proof.
  intros Hc [H1 H2 H3 H4]. split; [done| |set_solver|done].
  intros c' [->|?]%elem_of_cons; auto.
Qed.

Lemma visited_cons_new seen seen1 seen' c todo :
  c ∉ seen -> visited ({[c]} ∪ seen) seen1 (children c) -> visited seen1 seen' todo ->
  visited seen seen' (c :: todo).
Proof.
  intros Hc [A1 A2 A3 A4] [B1 B2 B3 B4]. split.
  - set_solver.
  - set_solver.
  - intros x Hx Hns. destruct (decide (x ∈ seen1)) as [Hx1|Hx1].
    + destruct (decide (x = c)) as [->|Hxc]; [exists c; split; [left|done]|].
      destruct (A3 x) as (d & Hd & Hreach); [done|set_solver|].
      exists c. split; [left|]. by apply rtc_l with d.
    + destruct (B3 x) as (d & Hd & Hreach); [done|done|]. exists d. split; [by right|done].
  - intros x Hx Hns d Hd. destruct (decide (x ∈ seen1)) as [Hx1|Hx1]; [|by apply (B4 x)].
    apply B1. destruct (decide (x = c)) as [->|Hxc]; [by apply A2|].
    apply (A4 x); [done|set_solver|done].
Qed.

(** A search from an empty seen-set visits exactly what is reachable. *)
Lemma visited_exact seen' todo x :
  visited ∅ seen' todo -> x ∈ seen' <-> exists c, c ∈ todo /\ rtc child_of c x.
Proof.
  intros [H1 H2 H3 H4]. split; [intros; apply H3; set_solver|].
  intros (c & Hc & Hreach). assert (Hin : c ∈ seen') by auto. clear Hc.
  induction Hreach as [|c d x Hcd Hreach IH]; [done|].
  apply IH. by apply (H4 c); [|set_solver|].
Qed.
End dfs.

Section unseen.
Context {N : Type} `{Countable N}.

(** The number of nodes still unseen decreases at each call. *)
Lemma unseen_decreases (all seen : gset N) c :
  c ∈ all -> c ∉ seen -> (size (all ∖ ({[c]} ∪ seen)) < size (all ∖ seen))%nat.
Proof. intros Hc Hs. apply subset_size. set_solver. Qed.

Lemma unseen_mono (all seen seen' : gset N) :
  seen ⊆ seen' -> (size (all ∖ seen') <= size (all ∖ seen))%nat.
Proof. intros Hs. apply subseteq_size. set_solver. Qed.
End unseen.

Lemma tc_mono {N} (R R' : N -> N -> Prop) x y :
  (forall a b, R a b -> R' a b) -> tc R x y -> tc R' x y.
Proof. intros HR. induction 1 as [a b Hab|a b c Hab _ IH]; [apply tc_once|eapply tc_l]; eauto. Qed.

(** ** The arena interface *)

(** [generational_arena::Index]: a slot and its generation; the derived order
    compares slots first. *)
Record Index : Type := MkIndex { ix_slot : nat; ix_generation : Z }.

#[global] Instance Index_eq_dec : EqDecision Index.
Proof. solve_decision. Defined.
#[global] Instance Index_countable : Countable Index.
Proof.
  refine (inj_countable' (fun i => (ix_slot i, ix_generation i)) (fun p => MkIndex p.1 p.2) _).
  by intros [].
Defined.

Class Arena := {
  arena : Type -> Type;
  arena_empty {V} : arena V;
  arena_get {V} : arena V -> Index -> option V;
  arena_iter {V} : arena V -> list (Index * V);
  arena_insert {V} : arena V -> V -> arena V * Index;
  (** assignment through [get_mut] or [IndexMut] at a live index *)
  arena_update {V} : arena V -> Index -> V -> arena V;
  (** a new arena holds nothing *)
  arena_get_empty {V} i : arena_get (@arena_empty V) i = None;
  (** iteration visits every live entry once *)
  arena_iter_elem {V} (a : arena V) i v : (i, v) ∈ arena_iter a <-> arena_get a i = Some v;
  arena_iter_nodup {V} (a : arena V) : NoDup (arena_iter a).*1;
  (** insertion returns an index that was not live, and changes nothing else *)
  arena_insert_fresh {V} (a : arena V) v : arena_get a (arena_insert a v).2 = None;
  arena_insert_get {V} (a : arena V) v i :
    arena_get (arena_insert a v).1 i =
    if decide (i = (arena_insert a v).2) then Some v else arena_get a i;
  arena_update_get {V} (a : arena V) j v i :
    arena_get (arena_update a j v) i =
    if decide (i = j /\ is_Some (arena_get a j)) then Some v else arena_get a i;
}.

(** An arena from which nothing is ever removed is a vector. *)
Definition vec_get {V} (a : list V) (i : Index) : option V :=
  if bool_decide (ix_generation i = 0) then a !! ix_slot i else None.
Definition vec_iter {V} (a : list V) : list (Index * V) := imap (fun n v => (MkIndex n 0, v)) a.
Definition vec_insert {V} (a : list V) (v : V) : list V * Index :=
  (a ++ [v], MkIndex (length a) 0).
Definition vec_update {V} (a : list V) (i : Index) (v : V) : list V :=
  if bool_decide (ix_generation i = 0) then <[ix_slot i := v]> a else a.

Lemma vec_iter_fst {V} (a : list V) : (vec_iter a).*1 = imap (fun n _ => MkIndex n 0) a.
Proof. unfold vec_iter. by rewrite fmap_imap. Qed.

#[global] Program Instance vec_arena : Arena | 100 := {
  arena := list;
  arena_empty V := [];
  arena_get V := vec_get;
  arena_iter V := vec_iter;
  arena_insert V := vec_insert;
  arena_update V := vec_update;
}.
Next Obligation. intros V []; unfold vec_get; by case_bool_decide. Qed.
Next Obligation.
  intros V a [n g] v. unfold vec_iter, vec_get. rewrite list_elem_of_lookup. simpl.
  setoid_rewrite list_lookup_imap. split.
  - intros [m Hm]. destruct (a !! m) eqn:E; simplify_eq/=. done.
  - case_bool_decide; [|done]. intros E. subst. exists n. by rewrite E.
Qed.
Next Obligation.
  intros V a. rewrite vec_iter_fst. apply NoDup_alt. intros i j x.
  rewrite !list_lookup_imap. destruct (a !! i), (a !! j); intros; simplify_eq/=; congruence.
Qed.
Next Obligation.
  intros V a v. unfold vec_get, vec_insert. simpl. by apply lookup_ge_None_2.
Qed.
Next Obligation.
  intros V a v [n g]. unfold vec_get, vec_insert. simpl.
  case_bool_decide as Hg; case_decide as He; simplify_eq/=; [| | done].
  - by rewrite lookup_app_r, Nat.sub_diag by lia.
  - destruct (decide (n < length a)%nat); [by apply lookup_app_l|].
    rewrite (lookup_ge_None_2 a) by lia. apply lookup_ge_None_2. rewrite length_app. simpl.
    assert (n <> length a) by congruence. lia.
Qed.
Next Obligation.
  intros V a [m h] v [n g]. unfold vec_get, vec_update. simpl.
  repeat case_bool_decide; case_decide as He; simplify_eq/=; try done.
  all: try (destruct He as [He1 He2]; simplify_eq/=).
  - apply list_lookup_insert_eq. by apply lookup_lt_is_Some_1.
  - destruct (decide (m = n)) as [->|]; [|by apply list_lookup_insert_ne].
    rewrite list_insert_ge; [done|]. apply lookup_ge_None_1, eq_None_not_Some. tauto.
Qed.

(** ** Build specs *)

(** [BuildSpecRef]: a newtype of the arena index. *)
Definition BuildSpecRef : Type := Index.

(** The derived [Ord]. *)
Definition bsr_le (a b : BuildSpecRef) : Prop :=
  (ix_slot a < ix_slot b)%nat \/ (ix_slot a = ix_slot b /\ ix_generation a <= ix_generation b).
#[global] Instance bsr_le_dec : RelDecision bsr_le.
Proof. unfold bsr_le. intros a b. apply _. Defined.
#[global] Instance bsr_le_total : Total bsr_le.
Proof. intros [] []. unfold bsr_le. simpl. lia. Qed.
#[global] Instance bsr_le_trans : Transitive bsr_le.
Proof. intros [] [] []. unfold bsr_le. simpl. lia. Qed.

Record StrPos : Type := { start_offset : Z; end_offset : Z }.

(** A [blake3::Hash], by its 32 bytes. *)
Definition Hash : Type := list Z.

Inductive SourceFetch : Type :=
| FetchWeb (url sha256 : string) (url_pos sha256_pos : option StrPos)
| FetchLocal (full_path filename : string) (file_hash : Hash).

Record SourceInput : Type := {
  si_from : SourceFetch;
  si_extract : bool;
  si_strip_prefix : option string;
}.

Record SubsetInput : Type := {
  sub_from : BuildSpecRef;
  sub_outputs : list string;
}.

#[global] Instance SubsetInput_eq_dec : EqDecision SubsetInput.
Proof. solve_decision. Defined.
#[global] Instance SubsetInput_countable : Countable SubsetInput.
Proof.
  refine (inj_countable' (fun s => (sub_from s, sub_outputs s))
    (fun p => {| sub_from := p.1; sub_outputs := p.2 |}) _).
  by intros [].
Defined.

(** [SubsetInput::override_build]. *)
Definition override_build (s : SubsetInput) (bsr : BuildSpecRef) : SubsetInput :=
  {| sub_from := bsr; sub_outputs := sub_outputs s |}.

Inductive BuildDep : Type :=
| BdBuild (bsr : BuildSpecRef)
| BdSource (source : SourceInput)
| BdLocal (full_path filename : string) (file_hash : Hash)
| BdSubset (subset : SubsetInput).

(** [BuildDep::as_build]. *)
Definition as_build (d : BuildDep) : option BuildSpecRef :=
  match d with BdBuild bsr => Some bsr | _ => None end.

Inductive BuildOutput : Type :=
| OutLibrary (glob : string) (allow_data : bool)
| OutData (glob : string) (allow_executable : bool)
| OutBinary (glob : string) (allow_missing_interpreter : bool).

(** [BuildOutput::glob]. *)
Definition output_glob (o : BuildOutput) : string :=
  match o with OutBinary g _ | OutData g _ | OutLibrary g _ => g end.

Inductive RuntimeDep : Type :=
| RdBuild (bsr : BuildSpecRef)
| RdSubset (subset : SubsetInput).

(** [RuntimeDep::bsr]. *)
Definition rd_bsr (d : RuntimeDep) : BuildSpecRef :=
  match d with RdBuild bsr => bsr | RdSubset s => sub_from s end.

(** [decode::AttrValue]; a number is an IEEE 754 value. *)
Inductive AttrValue : Type :=
| AttrString (s : string) (pos : option StrPos)
| AttrBool (b : bool)
| AttrNumber (n : spec_float)
| AttrList (l : list AttrValue)
| AttrMap (m : list (string * AttrValue))
| AttrEnumVariant (tag : string) (v : AttrValue).

Record SpecTest : Type := {
  st_build_test : bool;
  st_deps : option (list BuildSpecRef);
  st_cmds : list (list string);
}.

(** [BuildSpec], without [target] and [from], which nothing modelled reads. *)
Record BuildSpec : Type := {
  bs_name : string;
  bs_prebuilt : bool;
  bs_cmds : list (list string);
  bs_build_args : option (IndexMap string string);
  bs_build_deps : list BuildDep;
  bs_runtime_deps : list RuntimeDep;
  bs_abstract_deps : IndexMap string AttrValue;
  bs_outputs : IndexMap string BuildOutput;
  bs_replace_on_cycle : option BuildSpecRef;
  bs_attrs : IndexMap string AttrValue;
  bs_tests : option (IndexMap string SpecTest);
}.

(** [BuildSpec::is_pure_prebuilt]. *)
Definition is_pure_prebuilt (b : BuildSpec) : bool := bs_prebuilt b.

(** [BuildSpec::is_pure_collection]. *)
Definition is_pure_collection (b : BuildSpec) : bool :=
  match bs_build_deps b with
  | _ :: _ => false
  | [] =>
      match bs_cmds b with
      | [] => true
      | [cmd] => match cmd with [] => true | w :: _ => bool_decide (w = EmptyString) end
      | _ => false
      end
  end.

(** [BuildSpec::upstream_version]. *)
Definition upstream_version (b : BuildSpec) : option string :=
  match im_get (bs_attrs b) "upstream_version" with
  | Some (AttrString s _) => Some s
  | _ => None
  end.

(** ** Caches *)

(** [trait BinProvider], as the predicate it answers, and its instances: the
    unit provider, pairs and triples of providers, and the mask. *)
Definition BinProvider : Type := BuildSpecRef -> bool.
Definition bp_unit : BinProvider := fun _ => false.
Definition bp_pair (p1 p2 : BinProvider) : BinProvider := fun bsr => p1 bsr || p2 bsr.
Definition bp_triple (p1 p2 p3 : BinProvider) : BinProvider :=
  fun bsr => p1 bsr || p2 bsr || p3 bsr.

Record MaskingBinProvider : Type := {
  mbp_p : BinProvider;
  mbp_masked : gset BuildSpecRef;
}.
Definition masking_new (provider : BinProvider) (mask : list BuildSpecRef) : MaskingBinProvider :=
  {| mbp_p := provider; mbp_masked := list_to_set mask |}.
Definition masking_exists (m : MaskingBinProvider) : BinProvider :=
  fun bsr => if bool_decide (bsr ∈ mbp_masked m) then false else mbp_p m bsr.

(** ** The graph *)

Section graph.
Context `{Arena}.

(** [Graph], by the fields the modelled operations read. *)
Record Graph : Type := {
  g_builds : arena BuildSpec;
  g_top_levels : list BuildSpecRef;
}.

(** [Graph::get], [Graph::iter], [Graph::all]. *)
Definition graph_get (g : Graph) (bsr : BuildSpecRef) : option BuildSpec := arena_get (g_builds g) bsr.
Definition graph_iter (g : Graph) : list (BuildSpecRef * BuildSpec) := arena_iter (g_builds g).
Definition graph_all (g : Graph) : list BuildSpecRef := map fst (arena_iter (g_builds g)).

(** The build-spec references among a spec's [build_deps], in order, and
    among its [runtime_deps]. *)
Definition build_dep_refs (b : BuildSpec) : list BuildSpecRef :=
  filter_map (fun i => match i with
    | BdBuild bsr => Some bsr
    | BdSubset s => Some (sub_from s)
    | BdSource _ | BdLocal _ _ _ => None
    end) (bs_build_deps b).
Definition runtime_dep_refs (b : BuildSpec) : list BuildSpecRef := map rd_bsr (bs_runtime_deps b).

(** [Graph::collect_transitive_buildspecs]; [seen] and [reachable] are its
    [&mut] arguments. *)
Fixpoint collect_transitive_buildspecs (fuel : nat) (g : Graph) (bsr : BuildSpecRef)
    (acc : gset BuildSpecRef * list BuildSpecRef)
    : outcome (gset BuildSpecRef * list BuildSpecRef) :=
  match fuel with
  | O => OutOfFuel
  | S fuel =>
      build_spec ← unwrap (graph_get g bsr);
      foldM (fun acc bsr =>
        if bool_decide (bsr ∈ acc.1) then Done acc
        else collect_transitive_buildspecs fuel g bsr ({[bsr]} ∪ acc.1, acc.2 ++ [bsr]))
        acc (build_dep_refs build_spec ++ runtime_dep_refs build_spec)
  end.

(** [Graph::transitive_specs_of].  The recursion visits each spec at most
    once, so one level per spec of the graph and one for the toplevel is
    enough fuel. *)
Definition transitive_specs_of (g : Graph) (toplevel : BuildSpecRef) : outcome (list BuildSpecRef) :=
  acc ← collect_transitive_buildspecs (S (length (graph_all g))) g toplevel (∅, []);
  Done acc.2.

(** ** Well-formed graphs *)

(** Every reference of every spec is to a spec of the graph: what the loader
    builds.  [Graph::get] of such a reference never answers [None]. *)
Definition graph_closed (g : Graph) : Prop :=
  forall bsr b, graph_get g bsr = Some b ->
    forall d, d ∈ build_dep_refs b ++ runtime_dep_refs b ++ option_list (bs_replace_on_cycle b) ->
      is_Some (graph_get g d).

(** The check of it, for evaluating on a closed graph. *)
Definition graph_closedb (g : Graph) : bool :=
  forallb (fun p =>
    forallb (fun d => match graph_get g d with Some _ => true | None => false end)
      (build_dep_refs p.2 ++ runtime_dep_refs p.2 ++ option_list (bs_replace_on_cycle p.2)))
    (graph_iter g).

Lemma graph_closedb_ok g : graph_closedb g = true -> graph_closed g.
Proof.
  unfold graph_closedb, graph_closed, graph_get. rewrite forallb_forall.
  intros Hall bsr b Hb%arena_iter_elem d Hd.
  specialize (Hall (bsr, b)). rewrite <- list_elem_of_In, forallb_forall in Hall.
  specialize (Hall Hb d). rewrite <- list_elem_of_In in Hall. specialize (Hall Hd).
  unfold graph_get in Hall. destruct (arena_get (g_builds g) d); [eauto|done].
Qed.

Definition graph_set (g : Graph) : gset BuildSpecRef := list_to_set (graph_all g).

Lemma graph_all_iff g bsr : bsr ∈ graph_all g <-> is_Some (graph_get g bsr).
Proof.
  unfold graph_all, graph_get, is_Some. setoid_rewrite <- arena_iter_elem.
  rewrite list_elem_of_fmap. split.
  - intros ([i b] & -> & Hin). eauto.
  - intros [b Hin]. by exists (bsr, b).
Qed.

Lemma elem_of_graph_set g bsr : bsr ∈ graph_set g <-> is_Some (graph_get g bsr).
Proof. unfold graph_set. by rewrite elem_of_list_to_set, graph_all_iff. Qed.

Lemma graph_set_size g : size (graph_set g) = length (graph_all g).
Proof. apply size_list_to_set, arena_iter_nodup. Qed.

(** All dependencies of a spec, as a relation of the graph. *)
Definition deps_of (g : Graph) (bsr : BuildSpecRef) : list BuildSpecRef :=
  match graph_get g bsr with
  | Some b => build_dep_refs b ++ runtime_dep_refs b
  | None => []
  end.

Lemma deps_of_live g bsr d : graph_closed g -> d ∈ deps_of g bsr -> is_Some (graph_get g d).
Proof.
  unfold deps_of. destruct (graph_get g bsr) as [b|] eqn:E; [|by intros _ ?%elem_of_nil].
  intros Hg Hd. apply (Hg bsr b E). rewrite app_assoc. apply elem_of_app. by left.
Qed.

(** What one call of the recursion does to [seen] and [reachable]. *)
Lemma collect_visits g fuel : graph_closed g -> forall bsr seen l,
  is_Some (graph_get g bsr) -> (size (graph_set g ∖ seen) < fuel)%nat ->
  NoDup l -> (forall x, x ∈ l <-> x ∈ seen) ->
  exists seen' l', collect_transitive_buildspecs fuel g bsr (seen, l) = Done (seen', l') /\
    visited (deps_of g) seen seen' (deps_of g bsr) /\ NoDup l' /\ (forall x, x ∈ l' <-> x ∈ seen').
Proof.
  intros Hg. induction fuel as [|fuel IH]; intros bsr seen l Hlive Hfuel Hnd Hl; [lia|].
  destruct Hlive as [b Hb]. simpl. rewrite Hb. simpl.
  assert (Hdeps : deps_of g bsr = build_dep_refs b ++ runtime_dep_refs b)
    by (unfold deps_of; by rewrite Hb).
  rewrite <- Hdeps.
  assert (Hall : forall c, c ∈ deps_of g bsr -> is_Some (graph_get g c))
    by (intros c; by apply deps_of_live).
  clear Hdeps. induction (deps_of g bsr) as [|c todo IHtodo] in seen, l, Hfuel, Hnd, Hl, Hall |- *.
  { exists seen, l. split; [done|]. split; [apply visited_nil|done]. }
  simpl. case_bool_decide as Hc; simpl in *.
  - destruct (IHtodo seen l) as (seen' & l' & Hrun & Hv & Hnd' & Hl'); try done.
    { intros; apply Hall; by right. }
    exists seen', l'. split; [done|]. split; [by apply visited_cons_seen|done].
  - destruct (IH c ({[c]} ∪ seen) (l ++ [c])) as (seen1 & l1 & -> & Hv1 & Hnd1 & Hl1).
    + apply Hall. left.
    + pose proof (unseen_decreases (graph_set g) seen c) as Hdec.
      rewrite elem_of_graph_set in Hdec. specialize (Hdec (Hall c ltac:(left)) Hc). lia.
    + apply NoDup_app. split; [done|]. split; [|apply NoDup_singleton].
      intros x Hx. apply Hl in Hx. set_solver.
    + intros x. rewrite elem_of_app, Hl. set_solver.
    + simpl. destruct (IHtodo seen1 l1) as (seen' & l' & Hrun & Hv & Hnd' & Hl'); try done.
      * pose proof (visited_mono _ _ _ _ Hv1) as Hm.
        pose proof (unseen_mono (graph_set g) seen seen1 ltac:(set_solver)). lia.
      * intros; apply Hall; by right.
      * exists seen', l'. split; [done|]. split; [by apply visited_cons_new with seen1|done].
Qed.

(** [Graph::transitive_specs_of] returns, on every well-formed graph,
    exactly the specs reachable from the toplevel through one or more build
    or runtime dependencies, each once; it never panics and its recursion
    stops, cyclic graphs included. *)
Theorem transitive_specs_exact g toplevel :
  graph_closed g -> is_Some (graph_get g toplevel) ->
  exists l, transitive_specs_of g toplevel = Done l /\ NoDup l /\
    forall d, d ∈ l <-> tc (fun x y => y ∈ deps_of g x) toplevel d.
Proof.
  intros Hg Ht. destruct (collect_visits g (S (length (graph_all g))) Hg toplevel ∅ [])
    as (seen' & l & Hrun & Hv & Hnd & Hl).
  - done.
  - rewrite difference_empty_L, graph_set_size. lia.
  - apply NoDup_nil_2.
  - set_solver.
  - exists l. unfold transitive_specs_of. rewrite Hrun. split; [done|]. split; [done|].
    intros d. rewrite Hl, (visited_exact (deps_of g)) by done. split.
    + intros (c & Hc & Hreach). by apply tc_rtc_r with c; [apply tc_once|].
    + intros Htc. destruct Htc as [x y Hy|x y z Hy Hz]; [by exists y|].
      exists y. split; [done|by apply tc_rtc].
Qed.
End graph.

(** ** A closed graph for evaluating the model *)

(** A spec with the given dependencies and otherwise default fields. *)
Definition plain_spec (name : string) (build_deps : list BuildDep) (runtime_deps : list RuntimeDep)
    : BuildSpec :=
  {| bs_name := name; bs_prebuilt := false; bs_cmds := [["make"%string]]; bs_build_args := None;
     bs_build_deps := build_deps; bs_runtime_deps := runtime_deps; bs_abstract_deps := [];
     bs_outputs := []; bs_replace_on_cycle := None; bs_attrs := []; bs_tests := None |}.

Definition nth_ref (n : nat) : BuildSpecRef := MkIndex n 0.

(** gcc (0) and libc (1) need each other, the shell (2) needs both, and
    nothing needs the editor (3). *)
Definition demo_graph : Graph :=
  {| g_builds :=
    [ plain_spec "gcc" [BdBuild (nth_ref 1)] [RdBuild (nth_ref 1)];
      plain_spec "libc" [BdBuild (nth_ref 0)] [];
      plain_spec "sh" [BdBuild (nth_ref 0)]
        [RdSubset {| sub_from := nth_ref 1; sub_outputs := ["libs"%string] |}];
      plain_spec "ed" [] [RdBuild (nth_ref 2)] ];
     g_top_levels := [nth_ref 2] |}.

Lemma transitive_specs_exact_witness :
  exists l, transitive_specs_of demo_graph (nth_ref 2) = Done l /\ NoDup l /\
    forall d, d ∈ l <-> tc (fun x y => y ∈ deps_of demo_graph x) (nth_ref 2) d.
Proof.
  apply (transitive_specs_exact demo_graph (nth_ref 2)).
  - apply graph_closedb_ok. vm_compute. reflexivity.
  - vm_compute. eexists. reflexivity.
Defined.

(** The shell reaches the compiler and the C library, not the editor. *)
Example transitive_specs_demo :
  transitive_specs_of demo_graph (nth_ref 2) = Done [nth_ref 0; nth_ref 1].
Proof. vm_compute. reflexivity. Qed.
