(* ===== verification/Transitives.v ===== *)
(** * Transitive runtime dependencies (crates/graph/src/transitives.rs)

    Which specs must be present to use (or to build) a spec, with which of
    their outputs, and on whose behalf.  The computation threads one seen-set
    through its recursion and folds hash maps into one another; the theorems
    say the result does not depend on either: it is the union of what every
    spec in reach asks for. *)

From stdpp Require Import base list gmap strings numbers sorting relations.
From Stdlib Require Import ZArith Lia.
From S2P Require Import Prelude GraphModel.
Open Scope Z_scope.

(** [transitives::Attribution], with its derived order. *)
Inductive Attribution : Type :=
| Ours
| Inherited (from : BuildSpecRef).

#[global] Instance Attribution_eq_dec : EqDecision Attribution.
Proof. solve_decision. Defined.

Definition attribution_le (a b : Attribution) : Prop :=
  match a, b with
  | Ours, _ => True
  | Inherited _, Ours => False
  | Inherited x, Inherited y => bsr_le x y
  end.
#[global] Instance attribution_le_dec : RelDecision attribution_le.
Proof. intros [] []; simpl; apply _. Defined.
#[global] Instance attribution_le_total : Total attribution_le.
Proof. intros [] []; simpl; auto. apply bsr_le_total. Qed.

(** [transitives::Dep]. *)
Record TDep : Type := {
  td_needed_by : list Attribution;
  td_outputs : option (gset string);
}.

(** The union of two requests for outputs: [None] asks for the whole build. *)
Definition union_outputs (stored new : option (gset string)) : option (gset string) :=
  match stored, new with
  | None, _ | _, None => None
  | Some stored, Some new => Some (stored ∪ new)
  end.

(** [Transitives::upsert]. *)
Definition upsert (m : gmap BuildSpecRef TDep) (bsr : BuildSpecRef)
    (needed_by : list Attribution) (outputs : option (gset string)) : gmap BuildSpecRef TDep :=
  match m !! bsr with
  | Some existing =>
      <[bsr := {| td_needed_by :=
                    vec_dedup (merge_sort attribution_le (td_needed_by existing ++ needed_by));
                  td_outputs := union_outputs (td_outputs existing) outputs |}]> m
  | None => <[bsr := {| td_needed_by := needed_by; td_outputs := outputs |}]> m
  end.

Section transitives.
Context `{Arena} `{HashIter}.

(** A request of one spec: a dependency, and the outputs of it asked for. *)
Definition Request : Type := BuildSpecRef * option (gset string).

Definition runtime_request (d : RuntimeDep) : Request :=
  match d with
  | RdBuild bsr => (bsr, None)
  | RdSubset s => (sub_from s, Some (list_to_set (sub_outputs s)))
  end.
Definition build_request (d : BuildDep) : option Request :=
  match d with
  | BdBuild bsr => Some (bsr, None)
  | BdSubset s => Some (sub_from s, Some (list_to_set (sub_outputs s)))
  | BdSource _ | BdLocal _ _ _ => None
  end.

(** The specs that provide internet access to a build that needs it. *)
Definition internet_providers (g : Graph) : list BuildSpecRef :=
  map fst (List.filter (fun p => im_contains_key (bs_attrs p.2) "needed_for_internet")
             (graph_iter g)).

(** The edges [new_with_seenset] recurses through. *)
Definition recursed (b : BuildSpec) (include_build_deps : bool) : list Request :=
  (if include_build_deps then filter_map build_request (bs_build_deps b) else [])
  ++ map runtime_request (bs_runtime_deps b).

(** [Transitives::new_with_seenset] before it recurses. *)
Definition own_requests (g : Graph) (b : BuildSpec) (include_build_deps : bool)
    : gmap BuildSpecRef TDep :=
  let add (m : gmap BuildSpecRef TDep) (r : Request) := upsert m r.1 [Ours] r.2 in
  let out := foldl add ∅ (map runtime_request (bs_runtime_deps b)) in
  let out := if include_build_deps
             then foldl add out (filter_map build_request (bs_build_deps b)) else out in
  if im_contains_key (bs_abstract_deps b) "internet"
  then foldl (fun m bsr => upsert m bsr [Ours] None) out (internet_providers g)
  else out.

(** Folding the dependencies of [from] into those of a spec that needs it. *)
Definition inherit (from : BuildSpecRef) (out child : gmap BuildSpecRef TDep)
    : gmap BuildSpecRef TDep :=
  foldl (fun m p => upsert m p.1 [Inherited from] (td_outputs p.2)) out (hash_iter child).

(** [Transitives::new_with_seenset]; [seen] is its [&mut] argument. *)
Fixpoint new_with_seenset (fuel : nat) (seen : gset BuildSpecRef) (g : Graph)
    (bsr : BuildSpecRef) (include_build_deps : bool)
    : outcome (gset BuildSpecRef * gmap BuildSpecRef TDep) :=
  match fuel with
  | O => OutOfFuel
  | S fuel =>
      build ← unwrap (graph_get g bsr);
      foldM (fun (acc : gset BuildSpecRef * gmap BuildSpecRef TDep) (r : Request) =>
        let '(seen, out) := acc in
        if bool_decide (r.1 ∈ seen) then Done (seen, upsert out r.1 [Ours] r.2)
        else
          sub ← new_with_seenset fuel ({[r.1]} ∪ seen) g r.1 false;
          Done (sub.1, inherit r.1 out sub.2))
        (seen, own_requests g build include_build_deps)
        (recursed build include_build_deps)
  end.

(** Each level of the recursion sees one more spec of the graph. *)
Definition transitives_fuel (g : Graph) : nat := S (length (graph_all g)).

(** [Transitives::new], by its [transitive_runtime_deps]. *)
Definition transitives_new (g : Graph) (bsr : BuildSpecRef) (include_build_deps : bool)
    : outcome (gmap BuildSpecRef TDep) :=
  r ← new_with_seenset (transitives_fuel g) ∅ g bsr include_build_deps;
  Done r.2.

(** [Transitives::for_toplevels]. *)
Definition for_toplevels (g : Graph) (top_levels : list BuildSpecRef) (include_build_deps : bool)
    : outcome (gmap BuildSpecRef TDep) :=
  out ← foldM (fun out base =>
          r ← new_with_seenset (transitives_fuel g) ∅ g base include_build_deps;
          Done (inherit base out r.2)) ∅ top_levels;
  Done (foldl (fun m bsr => upsert m bsr [Ours] None) out top_levels).

(** ** The specification: a join of requests *)

(** What an entry must be, for one dependency that [P] asks for: absent when
    nothing does; whole when some request asks for all of it; otherwise the
    union of the outputs asked for. *)
Definition entry_for (e : option TDep) (P : option (gset string) -> Prop) : Prop :=
  match e with
  | None => forall o, ~ P o
  | Some i =>
      (exists o, P o) /\
      match td_outputs i with
      | None => P None
      | Some outs => ~ P None /\ forall x, x ∈ outs <-> exists o, P (Some o) /\ x ∈ o
      end
  end.

Lemma entry_for_ext e P Q : (forall o, P o <-> Q o) -> entry_for e P -> entry_for e Q.
Proof.
  unfold entry_for. intros HPQ. destruct e as [i|]; [|by setoid_rewrite <- HPQ].
  destruct (td_outputs i); setoid_rewrite <- HPQ; done.
Qed.

(** [m] holds exactly what the requests [C] ask for. *)
Definition Requests : Type := BuildSpecRef -> option (gset string) -> Prop.
Definition represents (m : gmap BuildSpecRef TDep) (C : Requests) : Prop :=
  forall d, entry_for (m !! d) (C d).

Lemma represents_ext m (C C' : Requests) :
  (forall d o, C d o <-> C' d o) -> represents m C -> represents m C'.
Proof. intros HC Hm d. by apply (entry_for_ext _ (C d)). Qed.

Lemma upsert_lookup_ne m d0 nb o0 d : d <> d0 -> upsert m d0 nb o0 !! d = m !! d.
Proof. intros Hne. unfold upsert. destruct (m !! d0); by rewrite lookup_insert_ne. Qed.

Lemma upsert_represents m (C : Requests) d0 nb o0 :
  represents m C -> represents (upsert m d0 nb o0) (fun d o => C d o \/ (d = d0 /\ o = o0)).
Proof.
  intros Hm d. specialize (Hm d). destruct (decide (d = d0)) as [->|Hne].
  2:{ rewrite upsert_lookup_ne by done. revert Hm. apply entry_for_ext. naive_solver. }
  unfold upsert. destruct (m !! d0) as [i|]; rewrite lookup_insert_eq; simpl in *.
  - destruct Hm as [[o1 Ho1] Hm]. split; [eauto|].
    destruct (td_outputs i) as [outs|], o0 as [o0|]; simpl; [|naive_solver..].
    destruct Hm as [Hn Hm]. split; [naive_solver|]. intros x.
    rewrite elem_of_union, Hm. naive_solver.
  - split; [eauto|]. destruct o0 as [o0|]; [|naive_solver]. split; naive_solver.
Qed.

(** Folding a list of requests in. *)
Lemma foldl_upsert_represents {A} (f : A -> Request) (nb : A -> list Attribution) l m (C : Requests) :
  represents m C ->
  represents (foldl (fun m a => upsert m (f a).1 (nb a) (f a).2) m l)
    (fun d o => C d o \/ (d, o) ∈ map f l).
Proof.
  revert m C. induction l as [|a l IH]; intros m C Hm; simpl.
  - revert Hm. apply represents_ext. intros d o. rewrite elem_of_nil. tauto.
  - eapply represents_ext; [|by apply IH, upsert_represents]. intros d o. simpl.
    rewrite elem_of_cons. destruct (f a) as [d1 o1]. simpl. naive_solver.
Qed.

Definition Requests_union (C C' : Requests) : Requests := fun d o => C d o \/ C' d o.

Lemma entry_for_merge e c (P Q : option (gset string) -> Prop) :
  entry_for e (fun o => P o \/ exists i, c = Some i /\ td_outputs i = o) -> entry_for c Q ->
  entry_for e (fun o => P o \/ Q o).
Proof.
  destruct c as [[nb outs']|]; simpl.
  2:{ intros He Hc. revert He. apply entry_for_ext. intros o. specialize (Hc o). naive_solver. }
  intros He [[o' Ho'] Hc]. destruct e as [[nb1 outs]|]; simpl in *.
  2:{ exfalso. apply (He outs'). right. by eexists. }
  split; [eauto|]. destruct He as [_ He], outs as [outs|], outs' as [outs'|]; simpl in *.
  - destruct He as [Hn He], Hc as [Hc1 Hc2]. split; [naive_solver|]. intros x. rewrite He. split.
    + intros (o & [Ho|(? & [= <-] & [= <-])] & Hx); [eauto|].
      apply Hc2 in Hx as (o1 & ? & ?). eauto.
    + intros (o & [Ho|Ho] & Hx); [eauto|]. exists outs'. split; [eauto|]. apply Hc2. eauto.
  - destruct He as [Hn _]. exfalso. apply Hn. right. by eexists.
  - destruct He as [?|(? & [= <-] & [=])]. by left.
  - by right.
Qed.

(** Folding the entries of a map that represents [C'] adds [C']. *)
Lemma inherit_represents from out child (C C' : Requests) :
  represents out C -> represents child C' ->
  represents (inherit from out child) (fun d o => C d o \/ C' d o).
Proof.
  intros Hout Hchild d. apply entry_for_merge with (child !! d); [|apply Hchild].
  pose proof (foldl_upsert_represents (fun p : BuildSpecRef * TDep => (p.1, td_outputs p.2))
    (fun _ => [Inherited from]) (hash_iter child) out C Hout d) as Hm.
  revert Hm. apply entry_for_ext. intros o. simpl. rewrite list_elem_of_fmap.
  apply or_iff_compat_l. split.
  - intros ([d' i] & [= -> ->] & Hin%elem_of_hash_iter). eauto.
  - intros (i & Hi%elem_of_hash_iter & <-). by exists (d, i).
Qed.

(** ** The recursion *)

(** What a spec itself asks for. *)
Definition asks (g : Graph) (bsr : BuildSpecRef) (include_build_deps : bool) : Requests :=
  fun d o => exists b, graph_get g bsr = Some b /\
    ((d, o) ∈ recursed b include_build_deps \/
     (im_contains_key (bs_abstract_deps b) "internet" = true /\
      d ∈ internet_providers g /\ o = None)).

Lemma represents_empty : represents ∅ (fun _ _ => False).
Proof. intros d. rewrite lookup_empty. simpl. auto. Qed.

Lemma own_requests_represent g bsr b incl :
  graph_get g bsr = Some b -> represents (own_requests g b incl) (asks g bsr incl).
Proof.
  intros Hb. unfold own_requests.
  pose proof (foldl_upsert_represents (fun r : Request => r) (fun _ => [Ours])
    (map runtime_request (bs_runtime_deps b)) ∅ _ represents_empty) as H1.
  set (m1 := foldl _ _ _) in H1 |- *. clearbody m1.
  assert (H2 : represents (if incl then foldl (fun m (r : Request) => upsert m r.1 [Ours] r.2) m1
      (filter_map build_request (bs_build_deps b)) else m1) (fun d o => (d, o) ∈ recursed b incl)).
  { unfold recursed. destruct incl.
    - eapply represents_ext; [|exact (foldl_upsert_represents (fun r : Request => r) (fun _ => [Ours])
        (filter_map build_request (bs_build_deps b)) m1 _ H1)].
      intros d o. simpl. rewrite !map_id, elem_of_app. tauto.
    - eapply represents_ext; [|exact H1]. intros d o. simpl. rewrite map_id. tauto. }
  set (m2 := if incl then _ else _) in H2 |- *. clearbody m2. clear H1 m1.
  destruct (im_contains_key (bs_abstract_deps b) "internet") eqn:Hi.
  - eapply represents_ext; [|exact (foldl_upsert_represents (fun d => (d, None)) (fun _ => [Ours])
      (internet_providers g) m2 _ H2)].
    intros d o. unfold asks. rewrite Hb, list_elem_of_fmap. split.
    + intros [Hr|(x & [= -> ->] & Hx)]; exists b; auto.
    + intros (b' & [= <-] & [Hr|(_ & Hd & ->)]); [by left|right; by exists d].
  - eapply represents_ext; [|exact H2]. intros d o. unfold asks. rewrite Hb. split.
    + intros Hr. exists b. auto.
    + intros (b' & [= <-] & [Hr|(Hi' & _)]); [done|congruence].
Qed.

(** The specs recursed into, as the children of the search. *)
Definition recursed_refs (g : Graph) (incl : bool) (bsr : BuildSpecRef) : list BuildSpecRef :=
  match graph_get g bsr with Some b => (recursed b incl).*1 | None => [] end.

Lemma recursed_live g bsr b incl r :
  graph_closed g -> graph_get g bsr = Some b -> r ∈ recursed b incl -> is_Some (graph_get g r.1).
Proof.
  intros Hg Hb Hr. apply (Hg bsr b Hb). unfold recursed in Hr.
  rewrite !elem_of_app. apply elem_of_app in Hr as [Hr|Hr].
  - destruct incl; [|by apply elem_of_nil in Hr]. left.
    apply elem_of_filter_map in Hr as (d & Hd & E). apply elem_of_filter_map. exists d.
    split; [done|]. destruct d; simpl in *; by simplify_eq/=.
  - right; left. apply list_elem_of_fmap in Hr as (d & -> & Hd). apply list_elem_of_fmap.
    exists d. split; [by destruct d|done].
Qed.

(** Everything the specs newly seen by a search ask for. *)
Definition asked_between (g : Graph) (seen seen' : gset BuildSpecRef) : Requests :=
  fun d o => exists n, n ∈ seen' /\ n ∉ seen /\ asks g n false d o.

Lemma new_with_seenset_spec g fuel : graph_closed g -> forall bsr incl seen,
  is_Some (graph_get g bsr) -> (size (graph_set g ∖ seen) < fuel)%nat ->
  exists seen' m, new_with_seenset fuel seen g bsr incl = Done (seen', m) /\
    visited (recursed_refs g false) seen seen' (recursed_refs g incl bsr) /\
    represents m (fun d o => asks g bsr incl d o \/ asked_between g seen seen' d o).
Proof.
  intros Hg. induction fuel as [|fuel IH]; intros bsr incl seen [b Hb] Hfuel; [lia|].
  simpl. rewrite Hb. simpl.
  pose proof (own_requests_represent g bsr b incl Hb) as Hown.
  set (out := own_requests g b incl) in *. clearbody out.
  assert (Hrefs : recursed_refs g incl bsr = (recursed b incl).*1)
    by (unfold recursed_refs; by rewrite Hb).
  rewrite Hrefs. set (C := asks g bsr incl) in *.
  assert (HC : forall r, r ∈ recursed b incl -> C r.1 r.2 /\ is_Some (graph_get g r.1)).
  { intros r Hr. split; [exists b; destruct r; auto|by apply (recursed_live g bsr b incl)]. }
  clearbody C. clear Hrefs.
  induction (recursed b incl) as [|r todo IHtodo] in seen, out, C, Hown, HC, Hfuel |- *.
  { exists seen, out. split; [done|]. split; [apply visited_nil|].
    revert Hown. apply represents_ext. intros d o. unfold asked_between. naive_solver. }
  destruct (HC r ltac:(left)) as [HCr Hr]. simpl. case_bool_decide as Hseen; simpl.
  - destruct (IHtodo seen Hfuel (upsert out r.1 [Ours] r.2) C) as (seen' & m & Hrun & Hv & Hm).
    + revert Hown. intros Hown. eapply represents_ext; [|by apply upsert_represents].
      intros d o. naive_solver.
    + intros; apply HC; by right.
    + exists seen', m. split; [done|]. split; [by apply visited_cons_seen|done].
  - destruct (IH r.1 false ({[r.1]} ∪ seen) Hr) as (seen1 & m1 & -> & Hv1 & Hm1).
    { pose proof (unseen_decreases (graph_set g) seen r.1) as Hdec.
      rewrite elem_of_graph_set in Hdec. specialize (Hdec Hr Hseen). lia. }
    simpl. pose proof (visited_mono _ _ _ _ Hv1) as Hsub.
    assert (Hfuel1 : (size (graph_set g ∖ seen1) < S fuel)%nat).
    { pose proof (unseen_mono (graph_set g) seen seen1 ltac:(set_solver)). lia. }
    destruct (IHtodo seen1 Hfuel1 (inherit r.1 out m1)
      (fun d o => C d o \/ asked_between g seen seen1 d o))
      as (seen' & m & Hrun & Hv & Hm).
    + eapply represents_ext; [|by apply inherit_represents; [exact Hown|exact Hm1]].
      intros d o. simpl. apply or_iff_compat_l. unfold asked_between. split.
      * intros [Ha|(n & ? & ? & ?)]; [exists r.1|exists n]; set_solver.
      * intros (n & Hn & Hns & Ha). destruct (decide (n = r.1)) as [->|]; [by left|].
        right. exists n. set_solver.
    + intros r' Hr'. destruct (HC r' ltac:(by right)). auto.
    + exists seen', m. split; [done|]. split; [by apply visited_cons_new with seen1|].
      pose proof (visited_mono _ _ _ _ Hv) as Hsub'.
      revert Hm. apply represents_ext. intros d o. unfold asked_between. split.
      * intros [[?|(n & ? & ? & ?)]|(n & ? & ? & ?)]; [by left|right; exists n; set_solver..].
      * intros [?|(n & ? & ? & ?)]; [by left; left|].
        destruct (decide (n ∈ seen1)); [left; right|right]; exists n; set_solver.
Qed.

(** ** Attribution *)

(** [d] is recorded as declared by the spec itself. *)
Definition ours (m : gmap BuildSpecRef TDep) (d : BuildSpecRef) : Prop :=
  exists i, m !! d = Some i /\ Ours ∈ td_needed_by i.

Lemma upsert_ours m d0 nb o0 d : ours (upsert m d0 nb o0) d <-> ours m d \/ (d = d0 /\ Ours ∈ nb).
Proof.
  unfold ours. destruct (decide (d = d0)) as [->|Hne].
  2:{ rewrite upsert_lookup_ne by done. naive_solver. }
  unfold upsert. destruct (m !! d0) as [i|]; rewrite lookup_insert_eq; split.
  - intros (? & [= <-] & Hin). simpl in Hin.
    rewrite elem_of_vec_dedup, merge_sort_Permutation, elem_of_app in Hin. naive_solver.
  - intros Hor. eexists. split; [done|]. simpl.
    rewrite elem_of_vec_dedup, merge_sort_Permutation, elem_of_app. naive_solver.
  - intros (? & [= <-] & Hin). auto.
  - intros [(? & [=] & _)|[_ Hin]]. by eexists.
Qed.

Lemma foldl_upsert_ours {A} (f : A -> Request) nb l m d :
  ours (foldl (fun m a => upsert m (f a).1 nb (f a).2) m l) d <->
  ours m d \/ (d ∈ map (fun a => (f a).1) l /\ Ours ∈ nb).
Proof.
  revert m. induction l as [|a l IH]; intros m; simpl; [rewrite elem_of_nil; tauto|].
  rewrite IH, upsert_ours, elem_of_cons. tauto.
Qed.

Lemma inherit_ours from out child d : ours (inherit from out child) d <-> ours out d.
Proof.
  unfold inherit. rewrite (foldl_upsert_ours (fun p : BuildSpecRef * TDep => (p.1, td_outputs p.2))).
  rewrite list_elem_of_singleton. split; [|tauto]. by intros [?|[_ ?]].
Qed.

Lemma elem_of_refs (l : list Request) d : d ∈ map (fun r : Request => r.1) l <-> exists o, (d, o) ∈ l.
Proof.
  rewrite list_elem_of_fmap. split.
  - intros ([d' o] & -> & Hin). eauto.
  - intros [o Hin]. by exists (d, o).
Qed.

Lemma own_requests_ours g bsr b incl d :
  graph_get g bsr = Some b -> ours (own_requests g b incl) d <-> exists o, asks g bsr incl d o.
Proof.
  intros Hb. unfold own_requests, asks, recursed. rewrite Hb.
  set (rt := map runtime_request _). set (bd := filter_map build_request _).
  assert (Hbase : forall d, ours (if incl
      then foldl (fun m (r : Request) => upsert m r.1 [Ours] r.2)
             (foldl (fun m (r : Request) => upsert m r.1 [Ours] r.2) ∅ rt) bd
      else foldl (fun m (r : Request) => upsert m r.1 [Ours] r.2) ∅ rt) d <->
    exists o, (d, o) ∈ (if incl then bd else []) ++ rt).
  { intros d'. assert (Hrt : ours (foldl (fun m (r : Request) => upsert m r.1 [Ours] r.2) ∅ rt) d'
      <-> exists o, (d', o) ∈ rt).
    { rewrite (foldl_upsert_ours (fun r : Request => r)), elem_of_refs. unfold ours.
      rewrite lookup_empty, list_elem_of_singleton. naive_solver. }
    setoid_rewrite elem_of_app. destruct incl.
    - rewrite (foldl_upsert_ours (fun r : Request => r)), elem_of_refs, Hrt, list_elem_of_singleton.
      naive_solver.
    - rewrite Hrt. setoid_rewrite elem_of_nil. naive_solver. }
  set (base := if incl then foldl _ _ bd else _) in *. clearbody base.
  destruct (im_contains_key (bs_abstract_deps b) "internet") eqn:Hi.
  - rewrite (foldl_upsert_ours (fun d => (d, None))), map_id, Hbase, list_elem_of_singleton. split.
    + intros [[o Ho]|[Hd _]]; [exists o|exists None]; exists b; tauto.
    + intros (o & ? & [= <-] & [Ho|(_ & Hd & _)]); eauto.
  - rewrite Hbase. split.
    + intros [o Ho]. exists o, b. tauto.
    + intros (o & ? & [= <-] & [Ho|(Hi' & _)]); [eauto|congruence].
Qed.

Lemma new_with_seenset_ours fuel seen g bsr incl seen' m d :
  new_with_seenset fuel seen g bsr incl = Done (seen', m) ->
  ours m d <-> exists o, asks g bsr incl d o.
Proof.
  destruct fuel as [|fuel]; [done|]. simpl.
  intros (b & Hb & Hrun)%bind_Done_inv. destruct (graph_get g bsr) as [b'|] eqn:Hg; [|done].
  injection Hb as ->. pose proof (own_requests_ours g bsr b incl d Hg) as Hown. rewrite <- Hown.
  refine (foldM_ind _ (fun acc => ours acc.2 d <-> ours (own_requests g b incl) d) _ _ _ _ _ Hrun);
    [done|].
  intros [s out] [c o] [s1 out1] Hin IH Hstep. simpl in *. case_bool_decide.
  - injection Hstep as <- <-. rewrite upsert_ours, IH. split; [|by left].
    intros [?|[-> _]]; [done|]. apply Hown. exists o, b. auto.
  - apply bind_Done_inv in Hstep as ([s2 sub] & _ & [= <- <-]). by rewrite inherit_ours.
Qed.

(** ** Claims *)

(** A dependency [root] needs: one it asks for itself, or one asked for by a
    spec it reaches, first through its own (build and) runtime dependencies
    and from there through runtime dependencies. *)
Definition needs (g : Graph) (root : BuildSpecRef) (incl : bool) : Requests := fun d o =>
  asks g root incl d o \/
  exists c n, c ∈ recursed_refs g incl root /\
    rtc (fun x y => y ∈ recursed_refs g false x) c n /\ asks g n false d o.

Lemma transitives_represents g bsr incl :
  graph_closed g -> is_Some (graph_get g bsr) ->
  exists seen m, new_with_seenset (transitives_fuel g) ∅ g bsr incl = Done (seen, m) /\
    represents m (needs g bsr incl).
Proof.
  intros Hg Hb. destruct (new_with_seenset_spec g (transitives_fuel g) Hg bsr incl ∅ Hb)
    as (seen & m & Hrun & Hv & Hm).
  { rewrite difference_empty_L, graph_set_size. unfold transitives_fuel. lia. }
  exists seen, m. split; [done|]. revert Hm. apply represents_ext. intros d o. unfold needs.
  apply or_iff_compat_l. unfold asked_between.
  setoid_rewrite (visited_exact (recursed_refs g false) _ _ _ Hv). split.
  - intros (n & (c & Hc & Hr) & _ & Ha). eauto.
  - intros (c & n & Hc & Hr & Ha). exists n. split; [eauto|]. split; [set_solver|done].
Qed.

(** [Transitives::new] is the join of requests.  On every well-formed
    graph, cyclic ones included, it returns (no panic, the recursion stops),
    and its map holds exactly the dependencies that the spec or a spec in
    reach asks for: the whole build if and only if someone asks for the whole
    build, otherwise exactly the union of the outputs asked for.  A
    dependency carries the [Ours] attribution if and only if the spec itself
    asks for it.  None of this depends on hash order or on the order in which
    the shared seen-set cuts the recursion. *)
Theorem transitives_new_spec g bsr incl :
  graph_closed g -> is_Some (graph_get g bsr) ->
  exists m, transitives_new g bsr incl = Done m /\ represents m (needs g bsr incl) /\
    forall d, ours m d <-> exists o, asks g bsr incl d o.
Proof.
  intros Hg Hb. destruct (transitives_represents g bsr incl Hg Hb) as (seen & m & Hrun & Hm).
  exists m. unfold transitives_new. rewrite Hrun. split; [done|]. split; [done|].
  intros d. by apply (new_with_seenset_ours _ _ _ _ _ _ _ _ Hrun).
Qed.

Lemma for_toplevels_fold g incl tops : graph_closed g ->
  forall out (C : Requests), (forall t, t ∈ tops -> is_Some (graph_get g t)) -> represents out C ->
  exists out', foldM (fun out base =>
      r ← new_with_seenset (transitives_fuel g) ∅ g base incl; Done (inherit base out r.2))
      out tops = Done out' /\
    represents out' (fun d o => C d o \/ exists t, t ∈ tops /\ needs g t incl d o).
Proof.
  intros Hg. induction tops as [|t tops IH]; intros out C Hlive Hout; cbn [foldM].
  { exists out. split; [done|]. revert Hout. apply represents_ext. intros d o.
    setoid_rewrite elem_of_nil. naive_solver. }
  destruct (transitives_represents g t incl Hg (Hlive t ltac:(left))) as (seen & m & -> & Hm).
  rewrite !bind_Done. cbn [snd].
  destruct (IH (inherit t out m) (fun d o => C d o \/ needs g t incl d o)) as (out' & -> & Hout').
  - intros; apply Hlive; by right.
  - by apply inherit_represents.
  - exists out'. split; [done|]. revert Hout'. apply represents_ext. intros d o.
    setoid_rewrite elem_of_cons. naive_solver.
Qed.

Lemma for_toplevels_total g tops incl :
  graph_closed g -> (forall t, t ∈ tops -> is_Some (graph_get g t)) ->
  exists m, for_toplevels g tops incl = Done m /\
    represents m (fun d o => (d ∈ tops /\ o = None) \/ exists t, t ∈ tops /\ needs g t incl d o).
Proof.
  intros Hg Hlive. destruct (for_toplevels_fold g incl tops Hg ∅ _ Hlive represents_empty)
    as (out & Hrun & Hout).
  eexists. unfold for_toplevels. rewrite Hrun. split; [reflexivity|].
  eapply represents_ext; [|exact (foldl_upsert_represents (fun d => (d, None)) (fun _ => [Ours])
    tops out _ Hout)].
  intros d o. simpl. rewrite list_elem_of_fmap. naive_solver.
Qed.

(** [Transitives::for_toplevels] materialises each toplevel as a whole
    build together with everything it needs, and nothing else, with the
    outputs joined over all toplevels. *)
Theorem for_toplevels_spec g tops incl :
  graph_closed g -> (forall t, t ∈ tops -> is_Some (graph_get g t)) ->
  exists m, for_toplevels g tops incl = Done m /\
    represents m (fun d o => (d ∈ tops /\ o = None) \/ exists t, t ∈ tops /\ needs g t incl d o).
Proof. apply for_toplevels_total. Qed.
End transitives.

(** ** Witnesses *)

Lemma transitives_new_spec_witness :
  exists m, transitives_new demo_graph (nth_ref 2) true = Done m /\
    represents m (needs demo_graph (nth_ref 2) true) /\
    forall d, ours m d <-> exists o, asks demo_graph (nth_ref 2) true d o.
Proof.
  apply (transitives_new_spec demo_graph (nth_ref 2) true).
  - apply graph_closedb_ok. vm_compute. reflexivity.
  - vm_compute. eexists. reflexivity.
Defined.

(** The shell asks for the libraries of the C library only, the compiler for
    all of it: the whole build is needed. *)
Example transitives_demo :
  (m ← transitives_new demo_graph (nth_ref 2) true; Done (td_outputs <$> m !! nth_ref 1))
  = Done (Some None).
Proof. vm_compute. reflexivity. Qed.

Lemma for_toplevels_spec_witness :
  exists m, for_toplevels demo_graph [nth_ref 2; nth_ref 3] false = Done m /\
    represents m (fun d o => (d ∈ [nth_ref 2; nth_ref 3] /\ o = None) \/
      exists t, t ∈ [nth_ref 2; nth_ref 3] /\ needs demo_graph t false d o).
Proof.
  apply (for_toplevels_spec demo_graph [nth_ref 2; nth_ref 3] false).
  - apply graph_closedb_ok. vm_compute. reflexivity.
  - intros t Ht. repeat (apply elem_of_cons in Ht as [->|Ht]; [vm_compute; eexists; reflexivity|]).
    inversion Ht.
Defined.
