(* ===== verification/Planner.v ===== *)
(** * The build planner (crates/graph/src/planner.rs)

    [ExecPlan] turns toplevel specs into an ordered sequence of build phases,
    breaking dependency cycles with the specs' declared replacements.  The
    recursions of the code are fuelled; the bounds are stated where each
    routine is used and proved sufficient in PlannerPhases. *)

From stdpp Require Import base list gmap strings numbers sorting.
From Stdlib Require Import ZArith Lia.
From S2P Require Import Prelude GraphModel Transitives.
Open Scope Z_scope.

Inductive BuildState : Type := NotBuilt | BuiltUsingBreakers | FullyBuilt | Fetched.

#[global] Instance BuildState_eq_dec : EqDecision BuildState.
Proof. solve_decision. Defined.

(** The derived order of [BuildState]. *)
Definition state_rank (s : BuildState) : Z :=
  match s with NotBuilt => 0 | BuiltUsingBreakers => 1 | FullyBuilt => 2 | Fetched => 3 end.

(** [BuildState::is_built]. *)
Definition is_built_state (s : BuildState) : bool :=
  match s with NotBuilt => false | BuiltUsingBreakers | FullyBuilt | Fetched => true end.

(** [BuildState::is_fully_built]. *)
Definition is_fully_built (s : BuildState) : bool :=
  match s with NotBuilt | BuiltUsingBreakers => false | FullyBuilt | Fetched => true end.

Record BuildInfo : Type := {
  bi_state : BuildState;
  bi_cycle_breaker_of : option BuildSpecRef;
  bi_cycle_breaker : option BuildSpecRef;
}.

(** One field of [BuildInfo::union]: two different values panic. *)
Definition union_breaker (mine other : option BuildSpecRef) : outcome (option BuildSpecRef) :=
  match mine, other with
  | None, None => Done None
  | Some cbo, None => Done (Some cbo)
  | None, Some cbo => Done (Some cbo)
  | Some cbo1, Some cbo2 => if bool_decide (cbo1 = cbo2) then Done (Some cbo1) else Panicked
  end.

(** [BuildInfo::union]. *)
Definition info_union (self other : BuildInfo) : outcome BuildInfo :=
  let state := if state_rank (bi_state self) <? state_rank (bi_state other)
               then bi_state other else bi_state self in
  cbo ← union_breaker (bi_cycle_breaker_of self) (bi_cycle_breaker_of other);
  cb ← union_breaker (bi_cycle_breaker self) (bi_cycle_breaker other);
  Done {| bi_state := state; bi_cycle_breaker_of := cbo; bi_cycle_breaker := cb |}.

(** [planner::Dep]. *)
Inductive PlannerDep : Type :=
| Cached (bsr : BuildSpecRef) (cycle_breaker_for : option BuildSpecRef)
    (outputs : option (gset string))
| Built (bsr : BuildSpecRef) (cycle_breaker_for : option BuildSpecRef)
    (built_with_breakers : bool) (outputs : option (gset string)).

Definition dep_bsr (d : PlannerDep) : BuildSpecRef :=
  match d with Cached bsr _ _ => bsr | Built bsr _ _ _ => bsr end.
Definition dep_cycle_breaker (d : PlannerDep) : option BuildSpecRef :=
  match d with Cached _ cb _ => cb | Built _ cb _ _ => cb end.
Definition dep_fully_built (d : PlannerDep) : bool :=
  match dep_cycle_breaker d with Some _ => false | None => true end.
Definition with_outputs (d : PlannerDep) (outputs : option (gset string)) : PlannerDep :=
  match d with Cached bsr cb _ => Cached bsr cb outputs | Built bsr cb w _ => Built bsr cb w outputs end.
Definition with_breaker_for (d : PlannerDep) (cb : option BuildSpecRef) : PlannerDep :=
  match d with Cached bsr _ o => Cached bsr cb o | Built bsr _ w o => Built bsr cb w o end.

(** [Build] and [Build::new]. *)
Record Build : Type := { b_spec : BuildSpecRef; b_with_deps : list PlannerDep }.

Definition dep_le (a b : PlannerDep) : Prop := bsr_le (dep_bsr a) (dep_bsr b).
#[global] Instance dep_le_dec : RelDecision dep_le.
Proof. unfold dep_le. intros a b. apply _. Defined.

Fixpoint unwrap_deps (deps : list (option PlannerDep * TDep)) : outcome (list PlannerDep) :=
  match deps with
  | [] => Done []
  | (dep, info) :: deps =>
      d ← unwrap dep; ds ← unwrap_deps deps; Done (with_outputs d (td_outputs info) :: ds)
  end.

Definition build_new (bsr : BuildSpecRef) (deps : list (option PlannerDep * TDep)) : outcome Build :=
  ds ← unwrap_deps deps; Done {| b_spec := bsr; b_with_deps := merge_sort dep_le ds |}.

(** [Build::full_build]. *)
Definition full_build (b : Build) : bool := forallb dep_fully_built (b_with_deps b).

(** The derived order of [Vec<BuildSpecRef>]. *)
Fixpoint path_leb (p q : list BuildSpecRef) : bool :=
  match p, q with
  | [], _ => true
  | _ :: _, [] => false
  | x :: p, y :: q =>
      if bool_decide (x = y) then path_leb p q else bool_decide (bsr_le x y)
  end.
Definition path_le (p q : list BuildSpecRef) : Prop := path_leb p q = true.
#[global] Instance path_le_dec : RelDecision path_le.
Proof. unfold path_le. intros p q. apply _. Defined.

(** [Iterator::all] with a predicate that threads state: stops at the first
    [false]. *)
Fixpoint allM {A S} (f : S -> A -> outcome (S * bool)) (s : S) (l : list A) : outcome (S * bool) :=
  match l with
  | [] => Done (s, true)
  | x :: l => r ← f s x; if r.2 : bool then allM f r.1 l else Done (r.1, false)
  end.

(** [Iterator::map] with a body that may panic. *)
Fixpoint mapM_out {A B} (f : A -> outcome B) (l : list A) : outcome (list B) :=
  match l with
  | [] => Done []
  | x :: l => y ← f x; ys ← mapM_out f l; Done (y :: ys)
  end.

Section planner.
Context `{Arena} `{HashIter}.

Definition Builds : Type := IndexMap BuildSpecRef BuildInfo.

(** [ExecPlan]. *)
Record ExecPlan : Type := {
  ep_graph : Graph;
  ep_bin_provider : BinProvider;
  ep_toplevels : list BuildSpecRef;
  ep_builds : Builds;
}.

Definition set_builds (p : ExecPlan) (builds : Builds) : ExecPlan :=
  {| ep_graph := ep_graph p; ep_bin_provider := ep_bin_provider p;
     ep_toplevels := ep_toplevels p; ep_builds := builds |}.

(** The [upsert] closure of [make_reachable]: the map, and whether the spec
    was there before. *)
Definition upsert_info (builds : Builds) (bsr : BuildSpecRef) (info : BuildInfo)
    : outcome (Builds * bool) :=
  match im_get builds bsr with
  | Some stored => i ← info_union stored info; Done (im_insert builds bsr i, true)
  | None => Done (im_insert builds bsr info, false)
  end.

(** [make_reachable].  In the branch that builds the spec, the loop variable
    shadows [bsr], so the path the code pushes onto ends in the dependency
    itself; in the other two places it ends in the spec. *)
Fixpoint make_reachable (fuel : nat) (g : Graph) (bp : BinProvider) (bsr : BuildSpecRef)
    (builds : Builds) (path : list BuildSpecRef) : outcome Builds :=
  match fuel with
  | O => OutOfFuel
  | S fuel =>
      build ← unwrap (graph_get g bsr);
      if bp bsr then
        up ← upsert_info builds bsr {| bi_state := Fetched; bi_cycle_breaker_of := None;
                                       bi_cycle_breaker := bs_replace_on_cycle build |};
        let '(builds, seen_before) := up : Builds * bool in
        if seen_before then Done builds
        else foldM (fun builds d => make_reachable fuel g bp d builds (path ++ [bsr]))
               builds (runtime_dep_refs build)
      else
        up ← upsert_info builds bsr {| bi_state := NotBuilt; bi_cycle_breaker_of := None;
                                       bi_cycle_breaker := bs_replace_on_cycle build |};
        let '(builds, seen_before) := up : Builds * bool in
        builds ← (if bool_decide (bsr ∈ path) then
                    match bs_replace_on_cycle build with
                    | Some cycle_breaker =>
                        if im_contains_key builds cycle_breaker then Done builds
                        else make_reachable fuel g bp cycle_breaker builds (path ++ [bsr])
                    | None => Done builds
                    end
                  else Done builds);
        if seen_before then Done builds
        else foldM (fun builds bsr => make_reachable fuel g bp bsr builds (path ++ [bsr]))
               builds (build_dep_refs build ++ runtime_dep_refs build)
  end.

(** A call on a spec already in the map recurses only into a replacement that
    is not, and every other call adds its spec. *)
Definition reach_fuel (g : Graph) : nat := 2 * length (graph_all g) + 2.

(** [ExecPlan::with_toplevels]. *)
Definition with_toplevels (bp : BinProvider) (g : Graph) (toplevels : list BuildSpecRef)
    : outcome ExecPlan :=
  let toplevels := vec_dedup (merge_sort bsr_le (toplevels ++ internet_providers g)) in
  builds ← foldM (fun builds bsr => make_reachable (reach_fuel g) g bp bsr builds []) [] toplevels;
  Done {| ep_graph := g; ep_bin_provider := bp; ep_toplevels := toplevels; ep_builds := builds |}.

(** [ExecPlan::dep_candidate]. *)
Fixpoint dep_candidate (fuel : nat) (p : ExecPlan) (dependency : BuildSpecRef)
    (cycle_breakers_allowed : bool) : outcome (option PlannerDep) :=
  match fuel with
  | O => OutOfFuel
  | S fuel =>
      if ep_bin_provider p dependency then Done (Some (Cached dependency None None))
      else
        match im_get (ep_builds p) dependency with
        | None => Done None
        | Some info =>
            if is_built_state (bi_state info) then
              if bool_decide (bi_state info = Fetched)
              then Done (Some (Cached dependency None None))
              else Done (Some (Built dependency None
                     (bool_decide (bi_state info = BuiltUsingBreakers)) None))
            else
              match bi_cycle_breaker info with
              | Some cycle_breaker =>
                  if cycle_breakers_allowed then
                    res ← dep_candidate fuel p cycle_breaker cycle_breakers_allowed;
                    Done (option_map (fun d => with_breaker_for d (Some dependency)) res)
                  else Done None
              | None => Done None
              end
        end
  end.

(** A chain of replacements visits each spec of the graph at most once. *)
Definition candidate_fuel (p : ExecPlan) : nat := S (length (graph_all (ep_graph p))).

(** [ExecPlan::is_built]. *)
Definition is_built (p : ExecPlan) (dependency : BuildSpecRef) (cycle_breakers_allowed : bool)
    : outcome bool :=
  c ← dep_candidate (candidate_fuel p) p dependency cycle_breakers_allowed;
  Done (match c with Some _ => true | None => false end).

(** [check_runtime_deps_recursive] of [ExecPlan::finished]. *)
Fixpoint check_runtime_deps (fuel : nat) (g : Graph) (builds : Builds)
    (seen : gset BuildSpecRef) (bsr : BuildSpecRef) : outcome (gset BuildSpecRef * bool) :=
  match fuel with
  | O => OutOfFuel
  | S fuel =>
      info ← unwrap (im_get builds bsr);
      let self_satisfied := is_fully_built (bi_state info) in
      if bool_decide (bsr ∈ seen) then Done (seen, self_satisfied)
      else
        build ← unwrap (graph_get g bsr);
        r ← allM (check_runtime_deps fuel g builds) ({[bsr]} ∪ seen) (runtime_dep_refs build);
        Done (r.1, r.2 && self_satisfied)
  end.

(** [ExecPlan::finished]. *)
Definition finished (p : ExecPlan) : outcome bool :=
  tops_sat ← allM (fun (s : unit) bsr =>
      info ← unwrap (im_get (ep_builds p) bsr); Done (s, is_fully_built (bi_state info)))
      tt (ep_toplevels p);
  if negb tops_sat.2 then Done false
  else
    r ← allM (check_runtime_deps (S (S (length (graph_all (ep_graph p))))) (ep_graph p) (ep_builds p))
          ∅ (ep_toplevels p);
    Done r.2.

(** ** Cycles *)

(** The [process] closure's accumulator: [Option<Vec<Vec<BuildSpecRef>>>]. *)
Definition add_paths (out : option (list (list BuildSpecRef))) (new : list (list BuildSpecRef))
    : option (list (list BuildSpecRef)) :=
  match out with None => Some new | Some l => Some (l ++ new) end.

(** [path] from the first occurrence of [bsr] on. *)
Fixpoint drain_to (bsr : BuildSpecRef) (path : list BuildSpecRef) : list BuildSpecRef :=
  match path with
  | [] => []
  | x :: path' => if bool_decide (x = bsr) then path else drain_to bsr path'
  end.

(** [ExecPlan::dfs_iter]; [seen] is its [&mut] argument, and [path] is
    restored by every call. *)
Fixpoint dfs_iter (fuel : nat) (g : Graph) (cursor : BuildSpecRef) (path : list BuildSpecRef)
    (seen : gset BuildSpecRef)
    : outcome (gset BuildSpecRef * option (list (list BuildSpecRef))) :=
  match fuel with
  | O => OutOfFuel
  | S fuel =>
      if bool_decide (cursor ∈ seen) then Done (seen, None)
      else
        bs ← unwrap (graph_get g cursor);
        r ← foldM (fun (acc : gset BuildSpecRef * option (list (list BuildSpecRef))) bsr =>
              let '(seen, out) := acc in
              if bool_decide (bsr ∈ path) then Done (seen, add_paths out [drain_to bsr path])
              else
                sub ← dfs_iter fuel g bsr (path ++ [bsr]) seen;
                Done (sub.1, match sub.2 with
                             | Some new_paths => add_paths out new_paths
                             | None => out
                             end))
              (seen, None) (build_dep_refs bs ++ runtime_dep_refs bs);
        Done ({[cursor]} ∪ r.1, r.2)
  end.

(** The path holds distinct specs of the graph. *)
Definition dfs_fuel (g : Graph) : nat := S (length (graph_all g)).

(** [ExecPlan::find_cycles]. *)
Definition find_cycles (p : ExecPlan) : outcome (list (list BuildSpecRef)) :=
  cycles ← foldM (fun cycles cursor =>
      built ← is_built p cursor false;
      if built : bool then Done cycles
      else
        r ← dfs_iter (dfs_fuel (ep_graph p)) (ep_graph p) cursor [cursor] ∅;
        Done (cycles ++ match r.2 with Some paths => paths | None => [] end))
      [] (ep_builds p).*1;
  Done (vec_dedup (merge_sort path_le cycles)).

(** ** One iteration *)

(** [PlanErr] and [BuildPhase]. *)
Inductive PlanErr : Type := Cycles (cycles : list (list BuildSpecRef)).
Record BuildPhase : Type := { phase_builds : list Build }.

(** What the loop over the reachable builds accumulates: [built_this_phase]
    and [met].  The keys of a map are distinct, so [built_this_phase] is
    filled once per key. *)
Definition PhaseAcc : Type := list (BuildSpecRef * bool) * list Build.

(** The dependencies of a candidate, each with what can satisfy it. *)
Definition candidate_deps (p : ExecPlan) (candidate : BuildSpecRef)
    : outcome (list (option PlannerDep * TDep)) :=
  deps ← transitives_new (ep_graph p) candidate true;
  mapM_out (fun d : BuildSpecRef * TDep =>
    c ← dep_candidate (candidate_fuel p) p d.1 true; Done (c, d.2)) (hash_iter deps).

(** The fold over the dependencies: whether all are satisfied without a
    replacement, and whether all are satisfied at all. *)
Definition deps_satisfied (deps : list (option PlannerDep * TDep)) : bool * bool :=
  foldl (fun (acc : bool * bool) (d : option PlannerDep * TDep) =>
    (acc.1 && match d.1 with Some d => dep_fully_built d | None => false end,
     acc.2 && match d.1 with Some _ => true | None => false end)) (true, true) deps.

(** The body of the loop of [ExecPlan::next]. *)
Definition consider (skip_double_builds : bool) (p : ExecPlan) (acc : PhaseAcc)
    (entry : BuildSpecRef * BuildInfo) : outcome PhaseAcc :=
  let '(candidate, info) := entry in
  if is_fully_built (bi_state info) then Done acc
  else
    let cycle_breakers_allowed := negb (bool_decide (bi_state info = BuiltUsingBreakers)) in
    deps ← candidate_deps p candidate;
    let '(can_build_full, can_build_breakers) := deps_satisfied deps in
    build ← unwrap (graph_get (ep_graph p) candidate);
    let '(can_build_full, deps) :=
      if is_pure_prebuilt build then (true, []) else (can_build_full, deps) in
    if can_build_full then
      b ← build_new candidate deps;
      Done (acc.1 ++ [(candidate, false)], acc.2 ++ [b])
    else if can_build_breakers && cycle_breakers_allowed then
      b ← build_new candidate deps;
      Done (acc.1 ++ [(candidate, negb (is_pure_prebuilt build || is_pure_collection build
                                        || skip_double_builds))], acc.2 ++ [b])
    else Done acc.

(** Both ends of a reported cycle, and whether both are already built. *)
Definition chain_built (p : ExecPlan) (bsrs : list BuildSpecRef) : outcome bool :=
  first ← unwrap (head bsrs);
  last_ ← unwrap (last bsrs);
  r ← allM (fun (s : unit) bsr => b ← is_built p bsr true; Done (s, b)) tt [first; last_];
  Done r.2.

Fixpoint filter_unbuilt (p : ExecPlan) (cycles : list (list BuildSpecRef))
    : outcome (list (list BuildSpecRef)) :=
  match cycles with
  | [] => Done []
  | c :: cycles =>
      b ← chain_built p c;
      rest ← filter_unbuilt p cycles;
      Done (if b : bool then rest else c :: rest)
  end.

(** Bringing in the replacement declared on one end of a cycle. *)
Definition add_breaker (p : ExecPlan) (acc : Builds * bool) (cycle : BuildSpecRef)
    : outcome (Builds * bool) :=
  build ← unwrap (graph_get (ep_graph p) cycle);
  match bs_replace_on_cycle build with
  | Some cycle_breaker =>
      if im_contains_key acc.1 cycle_breaker then Done acc
      else
        builds ← make_reachable (reach_fuel (ep_graph p)) (ep_graph p) (ep_bin_provider p)
                   cycle_breaker acc.1 [];
        Done (builds, true)
  | None => Done acc
  end.

Definition add_breakers (p : ExecPlan) (cycles : list (list BuildSpecRef)) : outcome (Builds * bool) :=
  foldM (fun acc path =>
    first ← unwrap (head path);
    last_ ← unwrap (last path);
    foldM (add_breaker p) acc [first; last_]) (ep_builds p, false) cycles.

(** Recording what a phase built. *)
Definition mark_built (builds : Builds) (b : BuildSpecRef * bool) : outcome Builds :=
  info ← unwrap (im_get builds b.1);
  Done (im_insert builds b.1
    {| bi_state := if b.2 then BuiltUsingBreakers else FullyBuilt;
       bi_cycle_breaker_of := bi_cycle_breaker_of info;
       bi_cycle_breaker := bi_cycle_breaker info |}).

(** [ExecPlan::next], from the moment the environment was read:
    [skip_double_builds] is what [unsafe_skip_double_builds] evaluates to. *)
Fixpoint next (fuel : nat) (skip_double_builds : bool) (p : ExecPlan)
    : outcome (ExecPlan * option (BuildPhase + PlanErr)) :=
  match fuel with
  | O => OutOfFuel
  | S fuel =>
      fin ← finished p;
      if fin : bool then Done (p, None)
      else
        acc ← foldM (consider skip_double_builds p) ([], []) (ep_builds p);
        match acc.2 with
        | [] =>
            found ← find_cycles p;
            cycles ← filter_unbuilt p found;
            r ← add_breakers p cycles;
            if negb r.2 then Done (set_builds p r.1, Some (inr (Cycles cycles)))
            else next fuel skip_double_builds (set_builds p r.1)
        | met =>
            builds ← foldM mark_built (ep_builds p) acc.1;
            Done (set_builds p builds, Some (inl {| phase_builds := met |}))
        end
  end.

(** Each recursive call has brought in at least one spec of the graph. *)
Definition next_fuel (p : ExecPlan) : nat := S (length (graph_all (ep_graph p))).

(** [unsafe_skip_double_builds] of [ExecPlan::next], from the environment. *)
Definition unsafe_skip_double_builds (env : string -> option string) : bool :=
  match env "MINIMAL_SCIENCE_MODE"%string with
  | Some v => bool_decide (v = "yeppers"%string)
  | None => false
  end &&
  match env "UNSAFE_SKIP_DOUBLE_BUILDS"%string with
  | Some v => bool_decide (v = "1"%string) || bool_decide (v = "true"%string)
  | None => false
  end.

(** Iterating the plan to its end, as [collect::<Result<Vec<_>, _>>] does. *)
Fixpoint collect_plan (fuel : nat) (env : string -> option string) (p : ExecPlan)
    : outcome (list BuildPhase + PlanErr) :=
  match fuel with
  | O => OutOfFuel
  | S fuel =>
      r ← next (next_fuel p) (unsafe_skip_double_builds env) p;
      match r.2 with
      | None => Done (inl [])
      | Some (inr e) => Done (inr e)
      | Some (inl phase) =>
          rest ← collect_plan fuel env r.1;
          Done (match rest with inl phases => inl (phase :: phases) | inr e => inr e end)
      end
  end.

(** Every phase moves at least one spec to a later state, and a spec moves at
    most twice. *)
Definition plan_fuel (p : ExecPlan) : nat := 2 * length (graph_all (ep_graph p)) + 1.
End planner.
