(* ===== verification/PlannerReach.v ===== *)
(** * Planner properties, I: the reachable set

    [make_reachable] and [ExecPlan::with_toplevels]: the build map holds every
    spec the plan can need, and only those. *)

From stdpp Require Import base list gmap strings numbers sorting relations.
From Stdlib Require Import ZArith Lia.
From S2P Require Import Prelude GraphModel Transitives Planner.
Open Scope Z_scope.

Section reachable.
Context `{Arena} `{HashIter}.
Variables (g : Graph) (bp : BinProvider).
Hypothesis Hclosed : graph_closed g.

(** What a spec in the plan needs to be in the plan: the runtime dependencies
    of a cached spec, all dependencies of one that has to be built. *)
Definition needed_refs (k : BuildSpecRef) : list BuildSpecRef :=
  match graph_get g k with
  | Some b => if bp k then runtime_dep_refs b else build_dep_refs b ++ runtime_dep_refs b
  | None => []
  end.

(** The steps by which the search may bring a spec in: a need, or the
    replacement of a spec that has to be built. *)
Definition plan_edge (x y : BuildSpecRef) : Prop :=
  y ∈ needed_refs x \/
  (bp x = false /\ exists b, graph_get g x = Some b /\ bs_replace_on_cycle b = Some y).

Lemma needed_live k d : d ∈ needed_refs k -> is_Some (graph_get g d).
Proof.
  unfold needed_refs. destruct (graph_get g k) as [b|] eqn:Hb; [|by intros ?%elem_of_nil].
  intros Hd. apply (Hclosed k b Hb). rewrite !elem_of_app.
  destruct (bp k); [|apply elem_of_app in Hd]; tauto.
Qed.

Lemma breaker_live k b c :
  graph_get g k = Some b -> bs_replace_on_cycle b = Some c -> is_Some (graph_get g c).
Proof.
  intros Hb Hc. apply (Hclosed k b Hb). rewrite Hc, !elem_of_app. do 2 right. by left.
Qed.

Definition fresh_info (k : BuildSpecRef) (b : BuildSpec) : BuildInfo :=
  {| bi_state := if bp k then Fetched else NotBuilt; bi_cycle_breaker_of := None;
     bi_cycle_breaker := bs_replace_on_cycle b |}.

(** The invariant of one entry of the build map. *)
Definition entry_wf (k : BuildSpecRef) (i : BuildInfo) : Prop :=
  exists b, graph_get g k = Some b /\ bi_cycle_breaker_of i = None /\
    bi_cycle_breaker i = bs_replace_on_cycle b /\
    (bi_state i = Fetched <-> bp k = true).

Definition builds_wf (m : Builds) : Prop :=
  NoDup m.*1 /\ forall k i, im_get m k = Some i -> entry_wf k i.

Lemma fresh_wf k b : graph_get g k = Some b -> entry_wf k (fresh_info k b).
Proof. intros Hb. exists b. simpl. by destruct (bp k). Qed.

(** Absorbing what is known already changes nothing. *)
Lemma union_fresh k b i :
  graph_get g k = Some b -> entry_wf k i -> info_union i (fresh_info k b) = Done i.
Proof.
  intros Hb (b' & Hb' & Hcbo & Hcb & Hst). rewrite Hb in Hb'. injection Hb' as <-.
  unfold info_union, fresh_info. destruct i as [st cbo cb]. simpl in *. subst.
  replace (if _ <? _ then _ else st) with st.
  - destruct (bs_replace_on_cycle b); simpl; [by rewrite bool_decide_eq_true_2|done].
  - destruct (bp k); [|destruct st; done]. destruct Hst as [_ ->]; done.
Qed.

Lemma im_insert_same (m : Builds) k i : im_get m k = Some i -> im_insert m k i = m.
Proof.
  induction m as [|[k' i'] m IH]; simpl; [done|].
  case_decide; [intros [= ->]; by subst|]. intros Hk. by rewrite IH.
Qed.

Lemma im_insert_absent (m : Builds) k i : im_get m k = None -> im_insert m k i = m ++ [(k, i)].
Proof.
  induction m as [|[k' i'] m IH]; simpl; [done|].
  case_decide; [done|]. intros Hk. by rewrite IH.
Qed.

Lemma upsert_fresh m k b :
  builds_wf m -> graph_get g k = Some b ->
  upsert_info m k (fresh_info k b) =
  Done (if im_contains_key m k then (m, true) else (m ++ [(k, fresh_info k b)], false)).
Proof.
  intros [_ Hm] Hb. unfold upsert_info, im_contains_key.
  destruct (im_get m k) as [i|] eqn:Hk; simpl.
  - rewrite (union_fresh k b i) by auto. simpl. by rewrite im_insert_same.
  - by rewrite im_insert_absent.
Qed.

Lemma im_get_app (m m' : Builds) k :
  im_get (m ++ m') k = match im_get m k with Some i => Some i | None => im_get m' k end.
Proof. induction m as [|[k' i'] m IH]; simpl; [done|]. by case_decide. Qed.

Lemma builds_wf_app m k b :
  builds_wf m -> graph_get g k = Some b -> im_get m k = None ->
  builds_wf (m ++ [(k, fresh_info k b)]).
Proof.
  intros [Hnd Hm] Hb Hk. split.
  - rewrite <- im_insert_absent by done. by apply im_insert_nodup.
  - intros k' i. rewrite im_get_app. destruct (im_get m k') eqn:E; [intros [= <-]; auto|].
    simpl. case_decide; [|done]. intros [= <-]. subst. by apply fresh_wf.
Qed.

(** ** What the search adds *)

Record reached (m m' : Builds) (todo : list BuildSpecRef) : Prop := {
  reached_wf : builds_wf m';
  reached_ext : exists ext, m' = m ++ ext /\
    forall k i, (k, i) ∈ ext -> (exists b, graph_get g k = Some b /\ i = fresh_info k b) /\
      (forall d, d ∈ needed_refs k -> d ∈ m'.*1) /\
      exists c, c ∈ todo /\ rtc plan_edge c k;
  reached_todo c : c ∈ todo -> c ∈ m'.*1;
}.

Lemma reached_nil m : builds_wf m -> reached m m [].
Proof.
  intros Hm. split; [done| |by intros ? ?%elem_of_nil].
  exists []. rewrite app_nil_r. split; [done|]. intros k i Hin. by apply elem_of_nil in Hin.
Qed.

Lemma reached_app m m1 m' l1 l2 :
  reached m m1 l1 -> reached m1 m' l2 -> reached m m' (l1 ++ l2).
Proof.
  intros [A1 (e1 & -> & A2) A3] [B1 (e2 & -> & B2) B3]. split; [done| |].
  - exists (e1 ++ e2). rewrite app_assoc. split; [done|]. intros k i [Hin|Hin]%elem_of_app.
    + destruct (A2 k i Hin) as (Hf & Hd & c & Hc & Hr). split; [done|]. split.
      * intros d Hd'. rewrite fmap_app, elem_of_app. left. by apply Hd.
      * exists c. split; [apply elem_of_app; by left|done].
    + destruct (B2 k i Hin) as (Hf & Hd & c & Hc & Hr). split; [done|]. split; [done|].
      exists c. split; [apply elem_of_app; by right|done].
  - intros c [Hc|Hc]%elem_of_app; [|by apply B3].
    rewrite fmap_app, elem_of_app. left. by apply A3.
Qed.

(** A spec, the nodes its own edges lead to, and everything it needs. *)
Lemma reached_node m k b extra m1 m' :
  graph_get g k = Some b -> (forall c, c ∈ extra -> plan_edge k c) ->
  reached (m ++ [(k, fresh_info k b)]) m1 extra -> reached m1 m' (needed_refs k) ->
  reached m m' [k].
Proof.
  intros Hb Hextra H1 H2. pose proof (reached_app _ _ _ _ _ H1 H2) as [C1 (ext & -> & C2) C3].
  split; [done| |].
  - exists ((k, fresh_info k b) :: ext). split; [by rewrite <- app_assoc|].
    intros k' i [[= -> ->]|Hin]%elem_of_cons.
    + split; [by exists b|]. split; [|exists k; split; [left|done]].
      intros d Hd. apply C3, elem_of_app. by right.
    + destruct (C2 k' i Hin) as (Hf & Hd & c & Hc & Hr). split; [done|]. split; [done|].
      exists k. split; [left|]. apply rtc_l with c; [|done].
      apply elem_of_app in Hc as [Hc|Hc]; [by apply Hextra|by left].
  - intros c ->%list_elem_of_singleton. rewrite !fmap_app, !elem_of_app. simpl. set_solver.
Qed.

(** ** The recursion *)

Definition unplanned (m : Builds) : nat := size (graph_set g ∖ list_to_set m.*1).

Lemma reached_unplanned m m' todo : reached m m' todo -> (unplanned m' <= unplanned m)%nat.
Proof.
  intros [_ (ext & -> & _) _]. unfold unplanned. apply unseen_mono.
  rewrite fmap_app, list_to_set_app. set_solver.
Qed.

Lemma unplanned_snoc m k i :
  is_Some (graph_get g k) -> im_get m k = None -> (unplanned (m ++ [(k, i)]) < unplanned m)%nat.
Proof.
  intros Hk Hm. unfold unplanned. rewrite fmap_app, list_to_set_app_L. simpl.
  rewrite union_empty_r_L, (union_comm_L _ {[k]}).
  apply unseen_decreases; [by apply elem_of_graph_set|].
  rewrite elem_of_list_to_set. by apply im_get_None_iff.
Qed.

Lemma contains_key_iff (m : Builds) k : im_contains_key m k = true <-> k ∈ m.*1.
Proof.
  unfold im_contains_key. destruct (im_get m k) eqn:E.
  - split; [|done]. intros _. apply list_elem_of_fmap. exists (k, b). split; [done|by apply im_get_elem].
  - apply im_get_None_iff in E. split; [done|]. intros; by destruct E.
Qed.

Lemma contains_key_false (m : Builds) k : im_contains_key m k = false -> im_get m k = None.
Proof. unfold im_contains_key. by destruct (im_get m k). Qed.

(** Searching a list of specs one after the other. *)
Lemma reached_fold (f : Builds -> BuildSpecRef -> outcome Builds) (bound : nat) todo :
  (forall m c, c ∈ todo -> builds_wf m -> (unplanned m <= bound)%nat ->
     exists m', f m c = Done m' /\ reached m m' [c]) ->
  forall m, builds_wf m -> (unplanned m <= bound)%nat ->
  exists m', foldM f m todo = Done m' /\ reached m m' todo.
Proof.
  induction todo as [|c todo IH]; intros Hf m Hm Hb; simpl.
  { exists m. split; [done|by apply reached_nil]. }
  destruct (Hf m c ltac:(left) Hm Hb) as (m1 & -> & H1). simpl.
  destruct (IH ltac:(intros; apply Hf; [by right|done..]) m1) as (m' & -> & H2).
  - apply H1.
  - apply reached_unplanned in H1. lia.
  - exists m'. split; [done|]. by apply (reached_app m m1 m' [c] todo).
Qed.

Lemma needed_eq k b :
  graph_get g k = Some b ->
  needed_refs k = if bp k then runtime_dep_refs b else build_dep_refs b ++ runtime_dep_refs b.
Proof. unfold needed_refs. by intros ->. Qed.

Lemma reached_here m k : builds_wf m -> k ∈ m.*1 -> reached m m [k].
Proof.
  intros Hm Hk. split; [done| |by intros ? ->%list_elem_of_singleton].
  exists []. rewrite app_nil_r. split; [done|]. intros k' i Hin. by apply elem_of_nil in Hin.
Qed.

(** A spec in the map already may have brought in its replacement. *)
Lemma reached_extra m m' k extra :
  k ∈ m.*1 -> (forall c, c ∈ extra -> plan_edge k c) -> reached m m' extra -> reached m m' [k].
Proof.
  intros Hk Hextra [R1 (ext & -> & R2) R3]. split; [done| |].
  - exists ext. split; [done|]. intros k' i Hin. destruct (R2 k' i Hin) as (Hf & Hd & c & Hc & Hr).
    split; [done|]. split; [done|]. exists k. split; [left|]. apply rtc_l with c; [by apply Hextra|done].
  - intros x ->%list_elem_of_singleton. rewrite fmap_app, elem_of_app. by left.
Qed.

(** Both calls of [upsert_info] in [make_reachable]. *)
Lemma upsert_visit {B} m k b (f : Builds * bool -> outcome B) :
  builds_wf m -> graph_get g k = Some b ->
  (if bp k then upsert_info m k {| bi_state := Fetched; bi_cycle_breaker_of := None;
      bi_cycle_breaker := bs_replace_on_cycle b |} ≫= f
   else upsert_info m k {| bi_state := NotBuilt; bi_cycle_breaker_of := None;
      bi_cycle_breaker := bs_replace_on_cycle b |} ≫= f) =
  f (if im_contains_key m k then (m, true) else (m ++ [(k, fresh_info k b)], false)).
Proof.
  intros Hm Hb. pose proof (upsert_fresh m k b Hm Hb) as Hu. unfold fresh_info in Hu at 1.
  destruct (bp k); rewrite Hu; done.
Qed.

(** The replacement a spec on its own path brings in, if any. *)
Lemma breaker_step_spec (rec : BuildSpecRef -> outcome Builds) m k b (on_path : bool) :
  builds_wf m -> graph_get g k = Some b -> bp k = false ->
  (forall c, is_Some (graph_get g c) -> im_contains_key m c = false ->
     exists m', rec c = Done m' /\ reached m m' [c]) ->
  exists m' extra,
    (if on_path then
       match bs_replace_on_cycle b with
       | Some c => if im_contains_key m c then Done m else rec c
       | None => Done m
       end
     else Done m) = Done m' /\
    reached m m' extra /\ forall c, c ∈ extra -> plan_edge k c.
Proof.
  intros Hm Hb Hbp Hrec.
  assert (Hnone : exists m' extra, @Done Builds m = Done m' /\ reached m m' extra /\
    forall c, c ∈ extra -> plan_edge k c).
  { exists m, []. split; [done|]. split; [by apply reached_nil|]. by intros c ?%elem_of_nil. }
  destruct on_path; [|done]. destruct (bs_replace_on_cycle b) as [c|] eqn:Hc; [|done].
  destruct (im_contains_key m c) eqn:Hkc; [done|].
  destruct (Hrec c) as (m' & -> & Hr); [by apply breaker_live with k b|done|].
  exists m', [c]. split; [done|]. split; [done|]. intros x ->%list_elem_of_singleton.
  right. split; [done|]. by exists b.
Qed.

(** The recursive calls over a list of specs. *)
Lemma reach_list fuel (f : BuildSpecRef -> list BuildSpecRef) m0 todo :
  (forall bsr m path, builds_wf m -> is_Some (graph_get g bsr) ->
     (2 * unplanned m + (if im_contains_key m bsr then 1 else 0) <= fuel)%nat ->
     exists m', make_reachable fuel g bp bsr m path = Done m' /\ reached m m' [bsr]) ->
  (forall c, c ∈ todo -> is_Some (graph_get g c)) ->
  builds_wf m0 -> (2 * unplanned m0 + 1 <= fuel)%nat ->
  exists m', foldM (fun m d => make_reachable fuel g bp d m (f d)) m0 todo = Done m' /\ reached m0 m' todo.
Proof.
  intros IH Hlive Hm0 Hf0. apply (reached_fold _ (unplanned m0)); [|done|done].
  intros m1 c Hc Hm1 Hle. apply IH; [done|by apply Hlive|]. destruct (im_contains_key m1 c); lia.
Qed.

(** A call on a spec not in the map needs two levels per spec left to plan;
    one on a spec in the map may first have to bring in its replacement. *)
Lemma make_reachable_spec fuel : forall bsr m path,
  builds_wf m -> is_Some (graph_get g bsr) ->
  (2 * unplanned m + (if im_contains_key m bsr then 1 else 0) <= fuel)%nat ->
  exists m', make_reachable fuel g bp bsr m path = Done m' /\ reached m m' [bsr].
Proof.
  induction fuel as [|fuel IH]; intros bsr m path Hm [b Hb] Hfuel.
  { destruct (im_contains_key m bsr) eqn:Hk; [lia|]. apply contains_key_false in Hk.
    pose proof (unplanned_snoc m bsr (fresh_info bsr b) ltac:(eauto) Hk). lia. }
  simpl. rewrite Hb. simpl.
  pose proof (fun f => upsert_visit m bsr b f Hm Hb : _ = _ :> outcome Builds) as Hup.
  assert (Hneeded : forall c, c ∈ needed_refs bsr -> is_Some (graph_get g c))
    by (intros; by apply needed_live with bsr).
  rewrite (needed_eq bsr b Hb) in Hneeded.
  destruct (im_contains_key m bsr) eqn:Hk.
  - apply contains_key_iff in Hk. destruct (bp bsr) eqn:Hbp; rewrite Hup; simpl.
    { exists m. split; [done|]. by apply reached_here. }
    destruct (breaker_step_spec (fun c => make_reachable fuel g bp c m (path ++ [bsr])) m bsr b
      (bool_decide (bsr ∈ path)) Hm Hb Hbp) as (m' & extra & -> & Hr & Hextra).
    { intros c Hc Hkc. apply IH; [done|done|]. rewrite Hkc. lia. }
    exists m'. split; [done|]. by apply reached_extra with extra.
  - apply contains_key_false in Hk.
    pose proof (unplanned_snoc m bsr (fresh_info bsr b) ltac:(eauto) Hk) as Hdec.
    assert (Hm1 : builds_wf (m ++ [(bsr, fresh_info bsr b)])) by (by apply builds_wf_app).
    destruct (bp bsr) eqn:Hbp; rewrite Hup; simpl.
    + destruct (reach_list fuel (fun _ => path ++ [bsr]) (m ++ [(bsr, fresh_info bsr b)]) (runtime_dep_refs b) IH)
        as (m' & Hrun & Hr); [done|done|lia|].
      exists m'. split; [done|]. apply (reached_node m bsr b [] (m ++ [(bsr, fresh_info bsr b)])); auto.
      * by intros c ?%elem_of_nil.
      * by apply reached_nil.
      * by rewrite (needed_eq bsr b Hb), Hbp.
    + destruct (breaker_step_spec (fun c => make_reachable fuel g bp c (m ++ [(bsr, fresh_info bsr b)])
        (path ++ [bsr])) _ bsr b (bool_decide (bsr ∈ path)) Hm1 Hb Hbp) as (m2 & extra & -> & Hr2 & Hextra).
      { intros c Hc Hkc. apply IH; [done|done|]. rewrite Hkc. lia. }
      pose proof (reached_unplanned _ _ _ Hr2) as Hle.
      destruct (reach_list fuel (fun d => path ++ [d]) m2 (build_dep_refs b ++ runtime_dep_refs b) IH)
        as (m' & Hrun & Hr); [done|apply Hr2|lia|].
      exists m'. split; [done|]. apply (reached_node m bsr b extra m2); [done|done|done|].
      by rewrite (needed_eq bsr b Hb), Hbp.
Qed.

(** ** The plan's invariant *)

Definition builds_closed (m : Builds) : Prop :=
  forall k d, k ∈ m.*1 -> d ∈ needed_refs k -> d ∈ m.*1.

Lemma reached_closed m m' todo : builds_closed m -> reached m m' todo -> builds_closed m'.
Proof.
  intros Hm [_ (ext & -> & R2) _] k d Hk Hd.
  rewrite fmap_app, elem_of_app in Hk. destruct Hk as [Hk|Hk].
  - rewrite fmap_app, elem_of_app. left. by apply (Hm k).
  - apply list_elem_of_fmap in Hk as ([k' i] & -> & Hin). by apply (R2 k' i).
Qed.

Lemma reach_fuel_enough m bsr :
  (2 * unplanned m + (if im_contains_key m bsr then 1 else 0) <= reach_fuel g)%nat.
Proof.
  unfold reach_fuel, unplanned. rewrite <- graph_set_size.
  pose proof (subseteq_size (graph_set g ∖ list_to_set m.*1) (graph_set g)) as Hle.
  specialize (Hle ltac:(set_solver)). destruct (im_contains_key m bsr); lia.
Qed.

Lemma with_toplevels_reached tops :
  (forall t, t ∈ tops -> is_Some (graph_get g t)) ->
  exists p, with_toplevels bp g tops = Done p /\
    ep_graph p = g /\ ep_bin_provider p = bp /\
    (forall t, t ∈ ep_toplevels p <-> t ∈ tops \/ t ∈ internet_providers g) /\
    (forall t, t ∈ ep_toplevels p -> t ∈ (ep_builds p).*1) /\
    NoDup (ep_builds p).*1 /\ builds_closed (ep_builds p) /\
    forall k i, (k, i) ∈ ep_builds p ->
      (exists b, graph_get g k = Some b /\ i = fresh_info k b) /\
      exists t, t ∈ ep_toplevels p /\ rtc plan_edge t k.
Proof.
  intros Htops. unfold with_toplevels. set (all := vec_dedup _).
  assert (Hall : forall t, t ∈ all <-> t ∈ tops \/ t ∈ internet_providers g).
  { intros t. unfold all. by rewrite elem_of_vec_dedup, merge_sort_Permutation, elem_of_app. }
  assert (Hlive : forall t, t ∈ all -> is_Some (graph_get g t)).
  { intros t [Ht|Ht]%Hall; [auto|]. apply graph_all_iff. unfold internet_providers, graph_all in *.
    apply list_elem_of_fmap in Ht as (e & -> & He). apply list_elem_of_fmap. exists e.
    split; [done|]. rewrite list_elem_of_In in He |- *. by apply filter_In in He as [He _]. }
  destruct (reached_fold (fun m bsr => make_reachable (reach_fuel g) g bp bsr m []) (unplanned []) all)
    with (m := @nil (BuildSpecRef * BuildInfo)) as (m' & Hrun & Hr).
  - intros m c Hc Hm _. apply make_reachable_spec; [done|by apply Hlive|apply reach_fuel_enough].
  - split; [apply NoDup_nil_2|done].
  - done.
  - rewrite Hrun. eexists. split; [reflexivity|]. simpl.
    assert (Hcl : builds_closed m').
    { apply (reached_closed [] m' all); [|done]. intros k d Hk. by apply elem_of_nil in Hk. }
    destruct Hr as [[Hnd Hwf] (ext & -> & R2) R3]. simpl in *.
    do 6 (split; [done|]). intros k i Hin. destruct (R2 k i Hin) as (Hf & _ & Hr). done.
Qed.
(** Planning starts from the right set.  On every well-formed graph
    [ExecPlan::with_toplevels] returns a plan (no panic, the recursion stops)
    whose toplevels are the requested specs and the internet providers; its
    build map holds each of them and is closed: with a cached spec its runtime
    dependencies, with any other spec all its dependencies.  Every entry
    starts as fetched or not built according to the cache and carries the
    declared replacement, and every spec in the map is there because a
    toplevel leads to it. *)
Theorem with_toplevels_spec tops :
  (forall t, t ∈ tops -> is_Some (graph_get g t)) ->
  exists p, with_toplevels bp g tops = Done p /\
    (forall t, t ∈ ep_toplevels p <-> t ∈ tops \/ t ∈ internet_providers g) /\
    (forall t, t ∈ ep_toplevels p -> t ∈ (ep_builds p).*1) /\
    NoDup (ep_builds p).*1 /\ builds_closed (ep_builds p) /\
    forall k i, (k, i) ∈ ep_builds p ->
      (exists b, graph_get g k = Some b /\ i = fresh_info k b) /\
      exists t, t ∈ ep_toplevels p /\ rtc plan_edge t k.
Proof.
  intros Htops. destruct (with_toplevels_reached tops Htops) as (p & Hrun & _ & _ & Hp).
  exists p. split; [done|apply Hp].
Qed.
End reachable.

(** ** Witnesses *)

Lemma with_toplevels_spec_witness :
  exists p, with_toplevels bp_unit demo_graph [nth_ref 2] = Done p /\
    (forall t, t ∈ ep_toplevels p <-> t ∈ [nth_ref 2] \/ t ∈ internet_providers demo_graph) /\
    (forall t, t ∈ ep_toplevels p -> t ∈ (ep_builds p).*1) /\
    NoDup (ep_builds p).*1 /\ builds_closed demo_graph bp_unit (ep_builds p) /\
    forall k i, (k, i) ∈ ep_builds p ->
      (exists b, graph_get demo_graph k = Some b /\ i = fresh_info bp_unit k b) /\
      exists t, t ∈ ep_toplevels p /\ rtc (plan_edge demo_graph bp_unit) t k.
Proof.
  apply (with_toplevels_spec demo_graph bp_unit).
  - apply graph_closedb_ok. vm_compute. reflexivity.
  - intros t Ht. apply elem_of_cons in Ht as [->|Ht]; [vm_compute; eexists; reflexivity|].
    inversion Ht.
Defined.

(** An acyclic graph: the editor (0) needs the shell (1), which declares the
    bootstrap shell (2) as its replacement on cycles. *)
Definition acyclic_graph : Graph :=
  {| g_builds :=
       [ plain_spec "ed" [BdBuild (nth_ref 1)] [];
         {| bs_name := "sh"; bs_prebuilt := false; bs_cmds := [["make"%string]];
            bs_build_args := None; bs_build_deps := []; bs_runtime_deps := [];
            bs_abstract_deps := []; bs_outputs := []; bs_replace_on_cycle := Some (nth_ref 2);
            bs_attrs := []; bs_tests := None |};
         plain_spec "bootstrap-sh" [] [] ];
     g_top_levels := [nth_ref 0] |}.

(** The replacement is planned although there is no cycle to break. *)
Example replacement_without_cycle :
  (p ← with_toplevels bp_unit acyclic_graph [nth_ref 0]; Done (ep_builds p).*1)
  = Done [nth_ref 0; nth_ref 1; nth_ref 2].
Proof. vm_compute. reflexivity. Qed.
