(* ===== verification/PlannerPhases.v ===== *)
(** * Planner properties, II: satisfaction, candidates, cycles, phases

    When a plan is finished, what can stand in for a dependency, which
    cycles are reported; and, in the second part, the phases of a plan. *)

From stdpp Require Import base list gmap strings numbers sorting relations.
From Stdlib Require Import ZArith Lia.
From S2P Require Import Prelude GraphModel Transitives Planner PlannerReach.
Open Scope Z_scope.

Section planner_props.
Context `{Arena} `{HashIter}.

(** The invariant of a plan between iterations. *)
Record plan_ok (p : ExecPlan) : Prop := {
  ok_graph : graph_closed (ep_graph p);
  ok_wf : builds_wf (ep_graph p) (ep_bin_provider p) (ep_builds p);
  ok_closed : builds_closed (ep_graph p) (ep_bin_provider p) (ep_builds p);
  ok_tops t : t ∈ ep_toplevels p -> t ∈ (ep_builds p).*1;
  ok_net d : d ∈ internet_providers (ep_graph p) -> d ∈ (ep_builds p).*1;
}.

Lemma key_get (m : Builds) k : k ∈ m.*1 -> exists i, im_get m k = Some i.
Proof.
  intros Hk. destruct (im_get m k) as [i|] eqn:E; [eauto|].
  by apply im_get_None_iff in E.
Qed.

Lemma get_key (m : Builds) k i : im_get m k = Some i -> k ∈ m.*1.
Proof. intros Hk%im_get_elem. apply list_elem_of_fmap. by exists (k, i). Qed.

Lemma ok_key_live p k : plan_ok p -> k ∈ (ep_builds p).*1 -> exists b, graph_get (ep_graph p) k = Some b.
Proof.
  intros Hp Hk. destruct (key_get _ _ Hk) as [i Hi].
  destruct (ok_wf p Hp) as [_ Hwf]. destruct (Hwf k i Hi) as (b & Hb & _). eauto.
Qed.

(** ** Finished *)

Definition runtime_children (g : Graph) (k : BuildSpecRef) : list BuildSpecRef :=
  match graph_get g k with Some b => runtime_dep_refs b | None => [] end.

Lemma runtime_needed g bp k d : d ∈ runtime_children g k -> d ∈ needed_refs g bp k.
Proof.
  unfold runtime_children, needed_refs. destruct (graph_get g k); [|done].
  intros Hd. destruct (bp k); [done|]. apply elem_of_app. by right.
Qed.

(** A spec whose outputs are final: fully built, or fetched. *)
Definition satisfied (m : Builds) (k : BuildSpecRef) : bool :=
  match im_get m k with Some i => is_fully_built (bi_state i) | None => false end.

(** What a check that answered [r] has established. *)
Definition check_post (g : Graph) (m : Builds) (seen seen' : gset BuildSpecRef)
    (todo : list BuildSpecRef) (r : bool) : Prop :=
  if r then visited (runtime_children g) seen seen' todo /\
            (forall c, c ∈ todo -> satisfied m c = true) /\
            (forall x, x ∈ seen' -> x ∉ seen -> satisfied m x = true)
  else exists c x, c ∈ todo /\ rtc (child_of (runtime_children g)) c x /\ satisfied m x = false.

Lemma check_list g m fuel todo (f : gset BuildSpecRef -> BuildSpecRef -> outcome (gset BuildSpecRef * bool)) :
  (forall seen c, c ∈ todo -> (size (graph_set g ∖ seen) < fuel)%nat ->
     exists seen' r, f seen c = Done (seen', r) /\ check_post g m seen seen' [c] r) ->
  forall seen, (size (graph_set g ∖ seen) < fuel)%nat ->
  exists seen' r, allM f seen todo = Done (seen', r) /\ check_post g m seen seen' todo r.
Proof.
  induction todo as [|c todo IH]; intros Hf seen Hfuel; simpl.
  { exists seen, true. split; [done|]. split; [apply visited_nil|].
    split; [by intros ? ?%elem_of_nil|]. done. }
  destruct (Hf seen c ltac:(left) Hfuel) as (seen1 & r1 & -> & H1). simpl. destruct r1.
  2:{ exists seen1, false. split; [done|]. destruct H1 as (c' & x & ->%list_elem_of_singleton & Hx).
      exists c, x. split; [left|done]. }
  destruct H1 as (Hv1 & Hc1 & Hs1).
  destruct (IH ltac:(intros; apply Hf; [by right|done]) seen1) as (seen' & r & Hrun & Hr).
  { pose proof (unseen_mono (graph_set g) seen seen1 (visited_mono _ _ _ _ Hv1)). lia. }
  exists seen', r. split; [done|]. destruct r.
  2:{ destruct Hr as (c' & x & Hc' & Hx). exists c', x. split; [by right|done]. }
  destruct Hr as (Hv & Hc & Hs). split; [|split].
  - destruct Hv1 as [V1 V2 V3 V4], Hv as [W1 W2 W3 W4]. split.
    + set_solver.
    + set_solver.
    + intros x Hx Hns. destruct (decide (x ∈ seen1)).
      * destruct (V3 x) as (c' & ->%list_elem_of_singleton & Hr); [done..|]. exists c. split; [left|done].
      * destruct (W3 x) as (c' & Hc' & Hr); [done..|]. exists c'. split; [by right|done].
    + intros x Hx Hns d Hd. destruct (decide (x ∈ seen1)); [apply W1; by apply (V4 x)|by apply (W4 x)].
  - intros c' [->|Hc']%elem_of_cons; [apply Hc1; by left|auto].
  - intros x Hx Hns. destruct (decide (x ∈ seen1)); auto.
Qed.

Lemma check_runtime_deps_spec p fuel : plan_ok p -> forall seen bsr,
  bsr ∈ (ep_builds p).*1 -> (size (graph_set (ep_graph p) ∖ seen) < fuel)%nat ->
  exists seen' r, check_runtime_deps fuel (ep_graph p) (ep_builds p) seen bsr = Done (seen', r) /\
    check_post (ep_graph p) (ep_builds p) seen seen' [bsr] r.
Proof.
  intros Hp. induction fuel as [|fuel IH]; intros seen bsr Hk Hfuel; [lia|].
  destruct (key_get _ _ Hk) as [i Hi]. destruct (ok_key_live p bsr Hp Hk) as [b Hb].
  assert (Hsat : satisfied (ep_builds p) bsr = is_fully_built (bi_state i))
    by (unfold satisfied; by rewrite Hi).
  simpl. rewrite Hi. simpl. case_bool_decide as Hseen.
  - exists seen, (is_fully_built (bi_state i)). split; [done|]. rewrite <- Hsat.
    destruct (satisfied (ep_builds p) bsr) eqn:E; simpl.
    + split; [by apply visited_cons_seen, visited_nil|]. split; [|done].
      by intros c ->%list_elem_of_singleton.
    + exists bsr, bsr. split; [left|]. split; [apply rtc_refl|done].
  - rewrite Hb. simpl. destruct (check_list (ep_graph p) (ep_builds p) fuel (runtime_dep_refs b)
      (check_runtime_deps fuel (ep_graph p) (ep_builds p))) with (seen := {[bsr]} ∪ seen)
      as (seen' & r & -> & Hr).
    + intros s c Hc Hs. apply IH; [|done]. apply (ok_closed p Hp bsr); [done|].
      apply runtime_needed. unfold runtime_children. by rewrite Hb.
    + pose proof (unseen_decreases (graph_set (ep_graph p)) seen bsr) as Hdec.
      rewrite elem_of_graph_set in Hdec. specialize (Hdec ltac:(eauto) Hseen). lia.
    + simpl. eexists _, _. split; [reflexivity|]. rewrite <- Hsat.
      assert (Hch : runtime_children (ep_graph p) bsr = runtime_dep_refs b)
        by (unfold runtime_children; by rewrite Hb).
      destruct r; simpl.
      * destruct (satisfied (ep_builds p) bsr) eqn:E; simpl;
          [|exists bsr, bsr; split; [left|split; [apply rtc_refl|done]]].
        destruct Hr as (Hv & Hc & Hs). split; [|split].
        -- apply visited_cons_new with seen'; [done|by rewrite Hch|apply visited_nil].
        -- by intros c ->%list_elem_of_singleton.
        -- intros x Hx Hns. destruct (decide (x = bsr)) as [->|]; [done|]. apply Hs; set_solver.
      * destruct Hr as (c & x & Hc & Hreach & Hx). exists bsr, x. split; [left|]. split; [|done].
        apply rtc_l with c; [|done]. unfold child_of. by rewrite Hch.
Qed.

Lemma tops_check p : plan_ok p -> forall tops, (forall t, t ∈ tops -> t ∈ (ep_builds p).*1) ->
  allM (fun (s : unit) bsr =>
      info ← unwrap (im_get (ep_builds p) bsr); Done (s, is_fully_built (bi_state info))) tt tops
  = Done (tt, forallb (satisfied (ep_builds p)) tops).
Proof.
  intros Hp. induction tops as [|t tops IH]; intros Ht; simpl; [done|].
  destruct (key_get _ _ (Ht t ltac:(left))) as [i Hi]. unfold satisfied at 1. rewrite Hi. simpl.
  destruct (is_fully_built (bi_state i)); simpl; [|done]. apply IH. intros; apply Ht; by right.
Qed.

Lemma finished_spec_aux p : plan_ok p ->
  exists r, finished p = Done r /\
    (r = true <-> forall t k, t ∈ ep_toplevels p ->
       rtc (child_of (runtime_children (ep_graph p))) t k -> satisfied (ep_builds p) k = true).
Proof.
  intros Hp. unfold finished. rewrite tops_check by (done || apply ok_tops, Hp). simpl.
  destruct (forallb _ _) eqn:Hall; simpl.
  - destruct (check_list (ep_graph p) (ep_builds p) (S (S (length (graph_all (ep_graph p)))))
      (ep_toplevels p) (check_runtime_deps (S (S (length (graph_all (ep_graph p)))))
        (ep_graph p) (ep_builds p))) with (seen := (∅ : gset BuildSpecRef)) as (seen' & r & Hrun & Hr).
    + intros s c Hc Hs. apply check_runtime_deps_spec; [done|by apply ok_tops|done].
    + rewrite difference_empty_L, graph_set_size. lia.
    + cbn [check_runtime_deps] in Hrun |- *. rewrite Hrun. simpl. exists r. split; [done|].
      destruct r; simpl in Hr.
      * destruct Hr as (Hv & Hc & Hs). split; [|done]. intros _ t k Ht Hreach.
        apply Hs; [|set_solver]. apply (visited_exact _ _ _ k Hv). eauto.
      * destruct Hr as (c & x & Hc & Hreach & Hx). split; [done|]. intros Hsat.
        rewrite (Hsat c x) in Hx by done. done.
  - exists false. split; [done|]. split; [done|]. intros Hsat.
    rewrite <- Hall. apply forallb_forall. intros t Ht. apply (Hsat t t); [by apply list_elem_of_In|].
    apply rtc_refl.
Qed.

(** ** What can stand in for a dependency *)

(** [x] declares [y] as its replacement on cycles. *)
Definition breaker_edge (g : Graph) (x y : BuildSpecRef) : Prop :=
  exists b, graph_get g x = Some b /\ bs_replace_on_cycle b = Some y.

(** No spec is, through any chain, its own replacement. *)
Definition breakers_acyclic (g : Graph) : Prop := forall x, ~ tc (breaker_edge g) x x.

(** Usable now: in the cache, or built by an earlier phase. *)
Definition available (p : ExecPlan) (k : BuildSpecRef) : bool :=
  ep_bin_provider p k ||
  match im_get (ep_builds p) k with Some i => is_built_state (bi_state i) | None => false end.

(** [d] is what the planner may use where [k] is asked for. *)
Definition stands_for (p : ExecPlan) (k : BuildSpecRef) (d : PlannerDep) : Prop :=
  available p (dep_bsr d) = true /\ rtc (breaker_edge (ep_graph p)) k (dep_bsr d) /\
  match dep_cycle_breaker d with
  | None => dep_bsr d = k
  | Some x => x = k /\ available p k = false
  end /\
  match d with
  | Cached x _ _ => ep_bin_provider p x = true
  | Built x _ w _ => ep_bin_provider p x = false /\
      exists i, im_get (ep_builds p) x = Some i /\ (w = true <-> bi_state i = BuiltUsingBreakers)
  end.

Lemma stands_for_breaker p k c i d :
  plan_ok p -> im_get (ep_builds p) k = Some i -> available p k = false ->
  bi_cycle_breaker i = Some c -> stands_for p c d -> stands_for p k (with_breaker_for d (Some k)).
Proof.
  intros Hp Hi Hav Hc (H1 & H2 & H3 & H4).
  destruct (ok_wf p Hp) as [_ Hwf]. destruct (Hwf k i Hi) as (b & Hb & _ & Hcb & _).
  assert (Hedge : breaker_edge (ep_graph p) k c) by (exists b; split; [done|congruence]).
  destruct d; simpl in *; (split; [done|]; split; [by apply rtc_l with c|]; done).
Qed.

Lemma dep_candidate_sound p fuel : plan_ok p -> forall k allowed r,
  dep_candidate fuel p k allowed = Done r ->
  match r with
  | Some d => stands_for p k d /\ (allowed = false -> dep_cycle_breaker d = None)
  | None => available p k = false
  end.
Proof.
  intros Hp. induction fuel as [|fuel IH]; intros k allowed r; [done|]. simpl.
  destruct (ep_bin_provider p k) eqn:Hbp.
  { intros [= <-]. split; [|done]. split; [unfold available; simpl; by rewrite Hbp|].
    split; [apply rtc_refl|]. done. }
  destruct (im_get (ep_builds p) k) as [i|] eqn:Hi.
  2:{ intros [= <-]. unfold available. by rewrite Hbp, Hi. }
  destruct (is_built_state (bi_state i)) eqn:Hst.
  { assert (Hav : available p k = true) by (unfold available; by rewrite Hbp, Hi).
    case_bool_decide as Hf; intros [= <-]; (split; [|done]); (split; [done|]);
      (split; [apply rtc_refl|]); (split; [done|]); simpl.
    - destruct (ok_wf p Hp) as [_ Hwf]. destruct (Hwf k i Hi) as (b & _ & _ & _ & Hfe). tauto.
    - split; [done|]. exists i. split; [done|]. by rewrite bool_decide_eq_true. }
  assert (Hav : available p k = false) by (unfold available; by rewrite Hbp, Hi).
  destruct (bi_cycle_breaker i) as [c|] eqn:Hc; [|by intros [= <-]].
  destruct allowed; [|by intros [= <-]].
  intros (res & Hres%IH & [= <-])%bind_Done_inv.
  destruct res as [d|]; simpl; [|done]. split; [|done].
  destruct Hres as [Hs _]. by apply (stands_for_breaker p k c i).
Qed.

(** The chain of replacements ends, so the search does. *)
Lemma dep_candidate_returns p fuel : plan_ok p -> breakers_acyclic (ep_graph p) ->
  forall k allowed (seen : gset BuildSpecRef),
  (forall x, x ∈ seen -> tc (breaker_edge (ep_graph p)) x k) ->
  is_Some (graph_get (ep_graph p) k) -> (size (graph_set (ep_graph p) ∖ seen) <= fuel)%nat ->
  exists r, dep_candidate fuel p k allowed = Done r.
Proof.
  intros Hp Hac. induction fuel as [|fuel IH]; intros k allowed seen Hseen [b Hb] Hfuel.
  { assert (Hk : k ∉ seen) by (intros Hk; by apply (Hac k), Hseen).
    pose proof (unseen_decreases (graph_set (ep_graph p)) seen k) as Hdec.
    rewrite elem_of_graph_set in Hdec. specialize (Hdec ltac:(eauto) Hk). lia. }
  simpl. destruct (ep_bin_provider p k); [eauto|].
  destruct (im_get (ep_builds p) k) as [i|] eqn:Hi; [|eauto].
  destruct (is_built_state (bi_state i)); [case_bool_decide; eauto|].
  destruct (bi_cycle_breaker i) as [c|] eqn:Hc; [|eauto]. destruct allowed; [|eauto].
  destruct (ok_wf p Hp) as [_ Hwf]. destruct (Hwf k i Hi) as (b' & Hb' & _ & Hcb & _).
  rewrite Hb in Hb'. injection Hb' as <-.
  assert (Hedge : breaker_edge (ep_graph p) k c) by (exists b; split; [done|congruence]).
  assert (Hk : k ∉ seen) by (intros Hk; by apply (Hac k), Hseen).
  destruct (IH c true ({[k]} ∪ seen)) as [r Hr].
  - intros x [->%elem_of_singleton|Hx]%elem_of_union; [by apply tc_once|].
    apply tc_r with k; [by apply Hseen|done].
  - apply (breaker_live _ (ok_graph p Hp) k b); [done|congruence].
  - pose proof (unseen_decreases (graph_set (ep_graph p)) seen k) as Hdec.
    rewrite elem_of_graph_set in Hdec. specialize (Hdec ltac:(eauto) Hk). lia.
  - rewrite Hr. simpl. eauto.
Qed.

Lemma candidate_returns p k allowed :
  plan_ok p -> breakers_acyclic (ep_graph p) -> is_Some (graph_get (ep_graph p) k) ->
  exists r, dep_candidate (candidate_fuel p) p k allowed = Done r.
Proof.
  intros Hp Hac Hk. apply (dep_candidate_returns p _ Hp Hac k allowed ∅); [set_solver|done|].
  rewrite difference_empty_L, graph_set_size. unfold candidate_fuel. lia.
Qed.

Lemma is_built_spec p k :
  plan_ok p -> breakers_acyclic (ep_graph p) -> is_Some (graph_get (ep_graph p) k) ->
  (exists r, is_built p k true = Done r) /\ is_built p k false = Done (available p k).
Proof.
  intros Hp Hac Hk. unfold is_built. split.
  - destruct (candidate_returns p k true Hp Hac Hk) as [r ->]. eexists. reflexivity.
  - destruct (candidate_returns p k false Hp Hac Hk) as [r Hr]. rewrite Hr, bind_Done. f_equal.
    pose proof (dep_candidate_sound p _ Hp k false r Hr) as Hs. destruct r as [d|]; [|by rewrite Hs].
    destruct Hs as [(H1 & _ & H3 & _) Hn]. rewrite (Hn eq_refl) in H3. by rewrite <- H3.
Qed.

(** ** Cycles *)

Definition linked (g : Graph) (l : list BuildSpecRef) : Prop :=
  forall i x y, l !! i = Some x -> l !! S i = Some y -> y ∈ deps_of g x.

(** A closed walk of the dependency graph, without repetition. *)
Definition is_cycle (g : Graph) (q : list BuildSpecRef) : Prop :=
  NoDup q /\ linked g q /\ (forall x, x ∈ q -> is_Some (graph_get g x)) /\
  exists x y, head q = Some x /\ last q = Some y /\ x ∈ deps_of g y.

Lemma linked_snoc g l x y :
  linked g l -> last l = Some x -> y ∈ deps_of g x -> linked g (l ++ [y]).
Proof.
  intros Hl Hlast Hy i a b Ha Hb. rewrite last_lookup in Hlast.
  destruct (decide (S i < length l)%nat) as [Hi|Hi].
  - rewrite lookup_app_l in Ha by lia. rewrite lookup_app_l in Hb by lia. by apply (Hl i).
  - apply lookup_lt_Some in Hb as Hlen. rewrite length_app in Hlen. simpl in Hlen.
    assert (Hi' : S i = length l) by lia.
    rewrite lookup_app_l in Ha by lia. rewrite <- Hi' in Hlast. simpl in Hlast.
    rewrite lookup_app_r in Hb by lia. rewrite Hi', Nat.sub_diag in Hb. simpl in Hb. congruence.
Qed.

Lemma linked_suffix g l1 l2 : linked g (l1 ++ l2) -> linked g l2.
Proof.
  intros Hl i x y Hx Hy. apply (Hl (length l1 + i)%nat).
  - rewrite lookup_app_r by lia. by replace (length l1 + i - length l1)%nat with i by lia.
  - rewrite lookup_app_r by lia. by replace (S (length l1 + i) - length l1)%nat with (S i) by lia.
Qed.

Lemma drain_to_suffix bsr path :
  bsr ∈ path -> exists pre, path = pre ++ drain_to bsr path /\ head (drain_to bsr path) = Some bsr.
Proof.
  induction path as [|x path IH]; [by intros ?%elem_of_nil|]. simpl. intros Hin.
  case_bool_decide as E; [subst; by exists []|].
  apply elem_of_cons in Hin as [->|Hin]; [done|].
  destruct (IH Hin) as (pre & Hp & Hh). exists (x :: pre). split; [simpl; by f_equal|done].
Qed.

Lemma path_length g path :
  NoDup path -> (forall x, x ∈ path -> is_Some (graph_get g x)) ->
  (length path <= length (graph_all g))%nat.
Proof.
  intros Hnd Hlive. apply submseteq_length, NoDup_submseteq; [done|].
  intros x Hx. apply graph_all_iff. auto.
Qed.

(** A search path that ends in [cursor]. *)
Record search_path (g : Graph) (path : list BuildSpecRef) (cursor : BuildSpecRef) : Prop := {
  sp_nodup : NoDup path;
  sp_linked : linked g path;
  sp_live x : x ∈ path -> is_Some (graph_get g x);
  sp_last : last path = Some cursor;
}.

Lemma search_path_cycle g path cursor c :
  search_path g path cursor -> c ∈ deps_of g cursor -> c ∈ path -> is_cycle g (drain_to c path).
Proof.
  intros [Hnd Hl Hlive Hlast] Hc Hin. destruct (drain_to_suffix c path Hin) as (pre & Hp & Hh).
  set (q := drain_to c path) in *. clearbody q. subst path. repeat split.
  - by apply NoDup_app in Hnd as (_ & _ & ?).
  - by apply linked_suffix with pre.
  - intros x Hx. apply Hlive, elem_of_app. by right.
  - exists c, cursor. split; [done|]. split; [|done].
    destruct q as [|z q] using rev_ind; [done|]. rewrite app_assoc, last_snoc in Hlast.
    by rewrite last_snoc.
Qed.

Lemma search_path_snoc g path cursor c :
  graph_closed g -> search_path g path cursor -> c ∈ deps_of g cursor -> c ∉ path ->
  search_path g (path ++ [c]) c.
Proof.
  intros Hg [Hnd Hl Hlive Hlast] Hc Hin. split.
  - apply NoDup_app. split; [done|]. split; [set_solver|apply NoDup_singleton].
  - by apply linked_snoc with cursor.
  - intros x [Hx| ->%list_elem_of_singleton]%elem_of_app; [auto|]. by apply deps_of_live with cursor.
  - apply last_snoc.
Qed.

Definition cycles_ok (g : Graph) (out : option (list (list BuildSpecRef))) : Prop :=
  match out with None => True | Some l => forall q, q ∈ l -> is_cycle g q end.

Lemma add_paths_ok g out new :
  cycles_ok g out -> (forall q, q ∈ new -> is_cycle g q) -> cycles_ok g (add_paths out new).
Proof.
  destruct out as [l|]; simpl; [|done]. intros Hl Hn q [Hq|Hq]%elem_of_app; auto.
Qed.

Lemma dfs_iter_spec g fuel : graph_closed g -> forall cursor path seen,
  search_path g path cursor -> (length (graph_all g) < fuel + length path)%nat ->
  exists seen' out, dfs_iter fuel g cursor path seen = Done (seen', out) /\ cycles_ok g out.
Proof.
  intros Hg. induction fuel as [|fuel IH]; intros cursor path seen Hsp Hfuel.
  { pose proof (path_length g path (sp_nodup _ _ _ Hsp) (sp_live _ _ _ Hsp)). lia. }
  simpl. case_bool_decide; [by exists seen, None|].
  assert (Hcur : is_Some (graph_get g cursor))
    by (apply (sp_live _ _ _ Hsp), last_Some_elem_of, (sp_last _ _ _ Hsp)).
  destruct Hcur as [b Hb]. rewrite Hb. simpl.
  assert (Hdeps : deps_of g cursor = build_dep_refs b ++ runtime_dep_refs b)
    by (unfold deps_of; by rewrite Hb).
  rewrite <- Hdeps. destruct (foldM_returns (fun (acc : gset BuildSpecRef * option (list (list BuildSpecRef))) bsr =>
      let '(seen, out) := acc in
      if bool_decide (bsr ∈ path) then Done (seen, add_paths out [drain_to bsr path])
      else sub ← dfs_iter fuel g bsr (path ++ [bsr]) seen;
        Done (sub.1, match sub.2 with Some new_paths => add_paths out new_paths | None => out end))
    (fun acc => cycles_ok g acc.2) (deps_of g cursor) (seen, None)) as ([s1 out] & -> & Hout).
  - done.
  - intros [s out] c Hc Hout. case_bool_decide as Hin.
    + eexists. split; [reflexivity|]. apply add_paths_ok; [done|].
      intros q ->%list_elem_of_singleton. by apply search_path_cycle with cursor.
    + destruct (IH c (path ++ [c]) s) as (s1 & o1 & -> & Ho1).
      * by apply search_path_snoc with cursor.
      * rewrite length_app. simpl. lia.
      * simpl. eexists. split; [reflexivity|]. simpl. destruct o1 as [l|]; [|done].
        by apply add_paths_ok.
  - simpl. eauto.
Qed.

Lemma find_cycles_spec p :
  plan_ok p -> breakers_acyclic (ep_graph p) ->
  exists cs, find_cycles p = Done cs /\ forall q, q ∈ cs -> is_cycle (ep_graph p) q.
Proof.
  intros Hp Hac. unfold find_cycles.
  destruct (foldM_returns (fun cycles cursor =>
      built ← is_built p cursor false;
      if built : bool then Done cycles
      else r ← dfs_iter (dfs_fuel (ep_graph p)) (ep_graph p) cursor [cursor] ∅;
        Done (cycles ++ match r.2 with Some paths => paths | None => [] end))
    (fun cs => forall q, q ∈ cs -> is_cycle (ep_graph p) q) (ep_builds p).*1 []) as (cs & -> & Hcs).
  - by intros q ?%elem_of_nil.
  - intros cs c Hc Hcs. destruct (ok_key_live p c Hp Hc) as [b Hb].
    destruct (is_built_spec p c Hp Hac ltac:(eauto)) as [_ ->]. rewrite bind_Done.
    destruct (available p c); [eauto|].
    destruct (dfs_iter_spec (ep_graph p) (dfs_fuel (ep_graph p)) (ok_graph p Hp) c [c] ∅)
      as (s & out & -> & Hout).
    + split; [apply NoDup_singleton| | |done].
      * intros i x y Hx Hy. destruct i; simplify_eq/=.
      * intros x ->%list_elem_of_singleton. eauto.
    + unfold dfs_fuel. simpl. lia.
    + rewrite bind_Done. eexists. split; [reflexivity|]. simpl.
      intros q [Hq|Hq]%elem_of_app; [auto|]. destruct out; [by apply Hout|by apply elem_of_nil in Hq].
  - rewrite bind_Done. eexists. split; [reflexivity|]. intros q.
    rewrite elem_of_vec_dedup, merge_sort_Permutation. apply Hcs.
Qed.

(** ** Every cycle through the start of a search is found *)

Definition reports (u : BuildSpecRef) (out : option (list (list BuildSpecRef))) : Prop :=
  exists l q, out = Some l /\ q ∈ l /\ head q = Some u.
Lemma reports_add u out new : reports u out \/ (exists q, q ∈ new /\ head q = Some u) -> reports u (add_paths out new).
Proof.
  unfold add_paths. intros [(l & q & -> & Hq & Hh)|(q & Hq & Hh)].
  - exists (l ++ new), q. split; [done|]. split; [|done]. apply elem_of_app. by left.
  - destruct out as [l|]; [exists (l ++ new), q; split; [done|]; split; [apply elem_of_app; by right|done]|by exists new, q].
Qed.

(** What a search from a path that starts at [u] leaves: the specs it went
    through, each with its dependencies gone through or on the path, and each
    that [u] closes a cycle with reported. *)
Record searched (g : Graph) (u : BuildSpecRef) (path : list BuildSpecRef) (seen seen' : gset BuildSpecRef)
    (out : option (list (list BuildSpecRef))) : Prop := {
  se_more : seen ⊆ seen';
  se_deps x : x ∈ seen' -> x ∉ seen -> forall y, y ∈ deps_of g x -> y ∈ seen' \/ y ∈ path;
  se_reports x : x ∈ seen' -> x ∉ seen -> u ∈ deps_of g x -> reports u out;
}.

Lemma searched_refl g u path seen out : searched g u path seen seen out.
Proof. by split. Qed.

(** One dependency of the cursor. *)
Lemma searched_sub g u path seen s out c s1 o1 :
  searched g u path seen s out -> searched g u (path ++ [c]) s s1 o1 -> c ∈ s1 ->
  searched g u path seen s1 (match o1 with Some new => add_paths out new | None => out end).
Proof.
  intros [A1 A2 A3] [B1 B2 B3] Hc. split; [set_solver| |].
  - intros x Hx Hn y Hy. destruct (decide (x ∈ s)) as [Hs|Hs].
    + destruct (A2 x Hs Hn y Hy); [left; set_solver|by right].
    + destruct (B2 x Hx Hs y Hy) as [?|[?| ->%list_elem_of_singleton]%elem_of_app]; auto.
  - intros x Hx Hn Hu. destruct (decide (x ∈ s)) as [Hs|Hs].
    + specialize (A3 x Hs Hn Hu). destruct o1; [apply reports_add; by left|done].
    + destruct (B3 x Hx Hs Hu) as (l & q & -> & Hq). apply reports_add. right. by exists q.
Qed.

Lemma dfs_complete g u fuel : forall cursor path seen seen' out,
  head path = Some u -> dfs_iter fuel g cursor path seen = Done (seen', out) ->
  searched g u path seen seen' out /\ cursor ∈ seen'.
Proof.
  induction fuel as [|fuel IH]; intros cursor path seen seen' out Hu; [done|]. simpl.
  case_bool_decide as Hseen; [intros [= <- <-]; by split; [apply searched_refl|]|].
  intros (bs & Hb & (r & Hfold & [= <- <-])%bind_Done_inv)%bind_Done_inv.
  destruct (graph_get g cursor) as [bs'|] eqn:Hget; [|done]. injection Hb as ->.
  assert (deps_of g cursor = build_dep_refs bs ++ runtime_dep_refs bs) as Hdeps by (unfold deps_of; by rewrite Hget).
  rewrite <- Hdeps in Hfold. clear Hdeps.
  assert (Hgo : forall ds acc, searched g u path seen acc.1 acc.2 ->
    foldM (fun (acc : gset BuildSpecRef * option (list (list BuildSpecRef))) bsr =>
      let '(seen, out) := acc in
      if bool_decide (bsr ∈ path) then Done (seen, add_paths out [drain_to bsr path])
      else sub ← dfs_iter fuel g bsr (path ++ [bsr]) seen;
        Done (sub.1, match sub.2 with Some new_paths => add_paths out new_paths | None => out end)) acc ds = Done r ->
    searched g u path seen r.1 r.2 /\ acc.1 ⊆ r.1 /\ (reports u acc.2 -> reports u r.2) /\
    (forall c, c ∈ ds -> c ∈ r.1 \/ c ∈ path) /\ (u ∈ ds -> reports u r.2)).
  { induction ds as [|c ds IHds]; intros [s o] Hs; cbn [foldM fst snd] in *.
    - intros [= <-]. split; [done|]. split; [done|]. split; [done|]. split; by intros ?%elem_of_nil || intros ? ?%elem_of_nil.
    - intros ([s1 o1] & Hstep & Hrest)%bind_Done_inv. case_bool_decide as Hin.
      + injection Hstep as <- <-. assert (searched g u path seen s (add_paths o [drain_to c path])) as Hs1.
        { destruct Hs as [A1 A2 A3]. split; [done|done|]. intros x Hx Hn Hux. apply reports_add. left. by eapply A3. }
        destruct (IHds (s, add_paths o [drain_to c path]) Hs1 Hrest) as (R1 & R2 & R3 & R4 & R5). cbn [fst snd] in *. split; [done|]. split; [done|].
        split; [intros Ho; apply R3, reports_add; by left|]. split; [intros y [->|Hy]%elem_of_cons; auto|].
        intros [<-|Hu2]%elem_of_cons; [|auto]. apply R3, reports_add. right. eexists. split; [by left|].
        by destruct (drain_to_suffix u path Hin) as (_ & _ & ?).
      + apply bind_Done_inv in Hstep as ([s2 o2] & Hdfs & [= <- <-]). cbn [fst snd] in *.
        destruct (IH c (path ++ [c]) s s2 o2) as [Hsub Hc]; [by destruct path|done|].
        pose proof (searched_sub _ _ _ _ _ _ _ _ _ Hs Hsub Hc) as Hs1.
        destruct (IHds (s2, match o2 with Some new => add_paths o new | None => o end) Hs1 Hrest) as (R1 & R2 & R3 & R4 & R5). cbn [fst snd] in *. split; [done|].
        split; [etrans; [apply (se_more _ _ _ _ _ _ Hsub)|done]|].
        split; [intros Ho; apply R3; destruct o2; [apply reports_add; by left|done]|].
        split; [intros y [->|Hy]%elem_of_cons; auto|]. intros [->|Hu2]%elem_of_cons; [|auto].
        exfalso. apply Hin. destruct path; [done|]. injection Hu as ->. by left. }
  destruct (Hgo (deps_of g cursor) (seen, None) (searched_refl _ _ _ _ _) Hfold) as ([R1 R2 R3] & _ & _ & R4 & R5).
  split; [|set_solver]. split; [set_solver| |].
  - intros x [->%elem_of_singleton|Hx]%elem_of_union Hn y Hy.
    + destruct (R4 y Hy); [left; set_solver|by right].
    + destruct (R2 x Hx Hn y Hy); [left; set_solver|by right].
  - intros x [->%elem_of_singleton|Hx]%elem_of_union Hn Hux; [auto|by eapply R3].
Qed.

Lemma dfs_finds g u fuel seen' out :
  dfs_iter fuel g u [u] ∅ = Done (seen', out) -> tc (fun x y => y ∈ deps_of g x) u u -> reports u out.
Proof.
  intros Hd Hcycle. destruct (dfs_complete g u fuel u [u] ∅ seen' out eq_refl Hd) as [[_ S2 S3] Hu].
  assert (forall x, rtc (fun x y => y ∈ deps_of g x) u x -> x ∈ seen') as Hreach.
  { apply rtc_ind_r; [done|]. intros x y Hr Hy IH.
    destruct (S2 x IH ltac:(set_solver) y Hy) as [?| ->%list_elem_of_singleton]; done. }
  assert (exists z, rtc (fun x y => y ∈ deps_of g x) u z /\ u ∈ deps_of g z) as (z & Hz & Hzu).
  { clear -Hcycle. revert Hcycle. generalize u at 1 3. intros a Ht. induction Ht as [x y Hxy|x y w Hxy _ (z & Hz & Hzw)]; [by exists x|].
    exists z. split; [by apply rtc_l with y|done]. }
  apply (S3 z); [by apply Hreach|set_solver|done].
Qed.

Lemma find_cycles_complete p cs u :
  plan_ok p -> breakers_acyclic (ep_graph p) -> find_cycles p = Done cs ->
  u ∈ (ep_builds p).*1 -> available p u = false -> tc (fun x y => y ∈ deps_of (ep_graph p) x) u u ->
  exists q, q ∈ cs /\ head q = Some u.
Proof.
  intros Hp Hac. unfold find_cycles. intros (found & Hfold & [= <-])%bind_Done_inv Hu Hav Hcycle.
  enough (exists q, q ∈ found /\ head q = Some u) as (q & Hq & Hh).
  { exists q. split; [|done]. by rewrite elem_of_vec_dedup, merge_sort_Permutation. }
  assert (Hlive : forall k, k ∈ (ep_builds p).*1 -> is_Some (graph_get (ep_graph p) k)) by (intros k; by apply ok_key_live).
  match type of Hfold with foldM ?f _ _ = _ => remember f as step eqn:Hstep end.
  assert (Hmono : forall ks acc, foldM step acc ks = Done found -> forall q, q ∈ acc -> q ∈ found).
  { subst step. clear. induction ks as [|k ks IH]; intros acc; cbn [foldM]; [by intros [= <-]|].
    intros (a & Hstep & Hrest)%bind_Done_inv q Hq. apply (IH a Hrest). apply bind_Done_inv in Hstep as (b & _ & Hstep).
    destruct b; [by injection Hstep as <-|]. apply bind_Done_inv in Hstep as (r & _ & [= <-]). apply elem_of_app. by left. }
  revert Hfold Hu Hlive. generalize ((ep_builds p).*1) as ks. intros ks. generalize (@nil (list BuildSpecRef)) as acc.
  induction ks as [|k ks IH]; intros acc Hfold Hin Hlive; [by apply elem_of_nil in Hin|]. cbn [foldM] in Hfold.
  apply bind_Done_inv in Hfold as (a & Hone & Hrest).
  apply elem_of_cons in Hin as [<-|Hin]; [|apply (IH a Hrest Hin); intros; apply Hlive; by right].
  destruct (is_built_spec p u Hp Hac (Hlive u ltac:(by left))) as [_ Hib]. subst step. cbv beta in Hone. rewrite Hib, bind_Done, Hav in Hone.
  apply bind_Done_inv in Hone as ([s out] & Hdfs & [= <-]). destruct (dfs_finds _ _ _ _ _ Hdfs Hcycle) as (l & q & -> & Hq & Hh).
  exists q. split; [|done]. apply (Hmono ks _ Hrest). apply elem_of_app. by right.
Qed.
End planner_props.

(** * Planner properties, III: phases

    One iteration of the plan, and the whole plan: what each build may use,
    why every iteration makes progress, and why the plan ends. *)

Lemma mapM_out_returns {A B} (f : A -> outcome B) l :
  (forall x, x ∈ l -> exists y, f x = Done y) ->
  exists l', mapM_out f l = Done l' /\ Forall2 (fun x y => f x = Done y) l l'.
Proof.
  induction l as [|x l IH]; intros Hf; simpl; [by exists []|].
  destruct (Hf x ltac:(left)) as [y Hy]. rewrite Hy. simpl.
  destruct IH as (l' & -> & Hl'); [intros; apply Hf; by right|].
  simpl. exists (y :: l'). split; [done|by constructor].
Qed.

Lemma deps_satisfied_spec deps :
  (deps_satisfied deps).1 = forallb (fun d : option PlannerDep * TDep =>
     match d.1 with Some d => dep_fully_built d | None => false end) deps /\
  (deps_satisfied deps).2 = forallb (fun d : option PlannerDep * TDep =>
     match d.1 with Some _ => true | None => false end) deps.
Proof.
  unfold deps_satisfied.
  assert (Hg : forall acc : bool * bool, let r := foldl (fun (acc : bool * bool) (d : option PlannerDep * TDep) =>
    (acc.1 && match d.1 with Some d => dep_fully_built d | None => false end,
     acc.2 && match d.1 with Some _ => true | None => false end)) acc deps in
    r.1 = acc.1 && forallb (fun d : option PlannerDep * TDep =>
      match d.1 with Some d => dep_fully_built d | None => false end) deps /\
    r.2 = acc.2 && forallb (fun d : option PlannerDep * TDep =>
      match d.1 with Some _ => true | None => false end) deps); [|apply (Hg (true, true))].
  induction deps as [|d deps IH]; intros acc; simpl; [by rewrite !andb_true_r|].
  destruct (IH (acc.1 && match d.1 with Some d => dep_fully_built d | None => false end,
     acc.2 && match d.1 with Some _ => true | None => false end)) as [E1 E2].
  simpl in E1, E2. rewrite E1, E2, !andb_assoc. done.
Qed.

Lemma unwrap_deps_spec deps :
  (forall d, d ∈ deps -> is_Some d.1) ->
  exists ds, unwrap_deps deps = Done ds /\
    forall e, e ∈ ds <-> exists d i, (Some d, i) ∈ deps /\ e = with_outputs d (td_outputs i).
Proof.
  induction deps as [|[d i] deps IH]; intros Hall; simpl.
  { exists []. split; [done|]. intros e. setoid_rewrite elem_of_nil. naive_solver. }
  destruct (Hall (d, i) ltac:(left)) as [d' Hd']. simpl in Hd'. subst d. simpl.
  destruct IH as (ds & -> & Hds); [intros; apply Hall; by right|].
  simpl. eexists. split; [reflexivity|]. intros e. setoid_rewrite elem_of_cons. rewrite Hds.
  naive_solver.
Qed.

Lemma build_new_spec k deps :
  (forall d, d ∈ deps -> is_Some d.1) ->
  exists b, build_new k deps = Done b /\ b_spec b = k /\
    forall e, e ∈ b_with_deps b <-> exists d i, (Some d, i) ∈ deps /\ e = with_outputs d (td_outputs i).
Proof.
  intros Hall. unfold build_new. destruct (unwrap_deps_spec deps Hall) as (ds & -> & Hds). simpl.
  eexists. split; [reflexivity|]. split; [done|]. intros e. simpl.
  by rewrite merge_sort_Permutation.
Qed.

Section phases.
Context `{Arena} `{HashIter}.

Definition dep_outputs (d : PlannerDep) : option (gset string) :=
  match d with Cached _ _ o => o | Built _ _ _ o => o end.

(** [dep] is how [root] gets its dependency [d]: something that may stand for
    it, with exactly the outputs that are asked for. *)
Definition supplies (p : ExecPlan) (root d : BuildSpecRef) (dep : PlannerDep) : Prop :=
  stands_for p d dep /\
  entry_for (Some {| td_needed_by := []; td_outputs := dep_outputs dep |})
    (needs (ep_graph p) root true d).

(** A build of a phase planned in the state [p]: its spec is not final yet,
    and every dependency it needs is supplied by something usable before the
    phase.  A prebuilt archive needs nothing. *)
Definition build_ok (p : ExecPlan) (b : Build) : Prop :=
  exists spec, graph_get (ep_graph p) (b_spec b) = Some spec /\
    satisfied (ep_builds p) (b_spec b) = false /\
    if is_pure_prebuilt spec then b_with_deps b = []
    else
      (forall d o, needs (ep_graph p) (b_spec b) true d o ->
         exists dep, dep ∈ b_with_deps b /\ supplies p (b_spec b) d dep) /\
      (forall dep, dep ∈ b_with_deps b -> exists d, supplies p (b_spec b) d dep).

Lemma needs_live g root incl d o :
  graph_closed g -> needs g root incl d o -> is_Some (graph_get g d).
Proof.
  intros Hg Hn.
  assert (Hasks : forall n inc, asks g n inc d o -> is_Some (graph_get g d)).
  { intros n inc (b & Hb & [Hr|(_ & Hd & _)]).
    - by apply (recursed_live g n b inc (d, o)).
    - apply graph_all_iff. unfold internet_providers in Hd.
      apply list_elem_of_fmap in Hd as (e & -> & He). apply list_elem_of_fmap. exists e.
      split; [done|]. rewrite list_elem_of_In in He |- *. by apply filter_In in He as [He _]. }
  destruct Hn as [Ha|(c & n & _ & _ & Ha)]; eauto.
Qed.

(** The dependencies of a spec, the implicit ones included: a spec that asks
    for the internet depends on every provider of it. *)
Definition need_edge (g : Graph) (x y : BuildSpecRef) : Prop :=
  y ∈ deps_of g x \/
  exists b, graph_get g x = Some b /\ im_contains_key (bs_abstract_deps b) "internet" = true /\
    y ∈ internet_providers g.

Lemma recursed_deps g incl x y : y ∈ recursed_refs g incl x -> y ∈ deps_of g x.
Proof.
  unfold recursed_refs, deps_of, recursed, build_dep_refs, runtime_dep_refs. destruct (graph_get g x) as [b|]; [|done].
  rewrite fmap_app, !elem_of_app. intros [Hy|Hy]; [left|right].
  - destruct incl; [|by apply elem_of_nil in Hy].
    apply list_elem_of_fmap in Hy as ([d o] & -> & (bd & Hin & E)%elem_of_filter_map).
    apply elem_of_filter_map. exists bd. split; [done|]. by destruct bd; simplify_eq/=.
  - apply list_elem_of_fmap in Hy as ([d o] & -> & (rd & E & Hin)%list_elem_of_fmap).
    apply list_elem_of_fmap. exists rd. split; [|done]. by destruct rd; simplify_eq/=.
Qed.

Lemma asks_edge g x incl d o : asks g x incl d o -> need_edge g x d.
Proof.
  intros (b & Hb & [Hr|(Hi & Hd & _)]); [left|right; by exists b].
  apply (recursed_deps g incl). unfold recursed_refs. rewrite Hb. apply list_elem_of_fmap. by exists (d, o).
Qed.

Lemma needs_path g k d o : needs g k true d o -> tc (need_edge g) k d.
Proof.
  intros [Ha%asks_edge|(c & n & Hc%recursed_deps & Hr & Ha%asks_edge)]; [by apply tc_once|].
  apply tc_l with c; [by left|]. apply tc_rtc_l with n; [|by apply tc_once].
  revert Hr. apply rtc_subrel. intros x y Hy%recursed_deps. by left.
Qed.

(** A plan holds what a spec to be built needs. *)
Lemma needs_planned p k d o :
  plan_ok p -> k ∈ (ep_builds p).*1 -> ep_bin_provider p k = false -> needs (ep_graph p) k true d o ->
  d ∈ (ep_builds p).*1.
Proof.
  intros Hp Hk Hbp Hn. set (g := ep_graph p) in *.
  assert (Hdown : forall c, c ∈ deps_of g k -> c ∈ (ep_builds p).*1).
  { intros c Hc. apply (ok_closed p Hp k); [done|]. unfold needed_refs, deps_of in *. fold g. rewrite Hbp. done. }
  assert (Hrun : forall x y, y ∈ recursed_refs g false x -> x ∈ (ep_builds p).*1 -> y ∈ (ep_builds p).*1).
  { intros x y Hy Hx. apply (ok_closed p Hp x); [done|]. apply runtime_needed. fold g.
    unfold recursed_refs, runtime_children, recursed, runtime_dep_refs in *. destruct (graph_get g x) as [b|]; [|done].
    rewrite app_nil_l in Hy. apply list_elem_of_fmap in Hy as ([y' o'] & -> & (rd & E & Hin)%list_elem_of_fmap).
    apply list_elem_of_fmap. exists rd. split; [|done]. by destruct rd; simplify_eq/=. }
  destruct Hn as [(b & Hb & [Hr|(_ & Hd & _)])|(c & n & Hc & Hr & (b & Hb & [Ha|(_ & Hd & _)]))]; try by apply ok_net.
  - apply Hdown, (recursed_deps g true). unfold recursed_refs. rewrite Hb. apply list_elem_of_fmap. by exists (d, o).
  - apply (Hrun n); [unfold recursed_refs; rewrite Hb; apply list_elem_of_fmap; by exists (d, o)|].
    apply recursed_deps in Hc. apply Hdown in Hc. clear -Hr Hc Hrun. induction Hr as [|x y z Hxy _ IH]; [done|].
    apply IH. by apply (Hrun x).
Qed.

Lemma stands_for_outputs p k d o : stands_for p k d -> stands_for p k (with_outputs d o).
Proof. by destruct d. Qed.

Lemma with_outputs_fully d o : dep_fully_built (with_outputs d o) = dep_fully_built d.
Proof. by destruct d. Qed.

(** The dependencies of a candidate, resolved. *)
Lemma candidate_deps_spec p k :
  plan_ok p -> breakers_acyclic (ep_graph p) -> is_Some (graph_get (ep_graph p) k) ->
  exists deps, candidate_deps p k = Done deps /\
    (forall c i, (Some c, i) ∈ deps -> exists d, supplies p k d (with_outputs c (td_outputs i))) /\
    (forall d o, needs (ep_graph p) k true d o -> exists c i, (c, i) ∈ deps /\
       forall c', c = Some c' -> supplies p k d (with_outputs c' (td_outputs i))) /\
    (forall c i, (c, i) ∈ deps -> exists d o, needs (ep_graph p) k true d o /\ dep_candidate (candidate_fuel p) p d true = Done c).
Proof.
  intros Hp Hac Hk. unfold candidate_deps, transitives_new.
  destruct (transitives_represents (ep_graph p) k true (ok_graph p Hp) Hk) as (s & m & -> & Hm).
  rewrite !bind_Done. cbn [snd].
  assert (Hlive : forall d i, m !! d = Some i -> is_Some (graph_get (ep_graph p) d)).
  { intros d i Hi. specialize (Hm d). rewrite Hi in Hm. destruct Hm as [[o Ho] _].
    by apply (needs_live _ k true d o (ok_graph p Hp)). }
  destruct (mapM_out_returns (fun d : BuildSpecRef * TDep =>
    c ← dep_candidate (candidate_fuel p) p d.1 true; Done (c, d.2)) (hash_iter m)) as (deps & -> & Hdeps).
  { intros [d i] Hin%elem_of_hash_iter. cbn [fst snd].
    destruct (candidate_returns p d true Hp Hac (Hlive d i Hin)) as [r ->]. eexists. reflexivity. }
  exists deps. split; [done|].
  assert (Hone : forall d i c, m !! d = Some i -> dep_candidate (candidate_fuel p) p d true = Done (Some c) ->
    supplies p k d (with_outputs c (td_outputs i))).
  { intros d i c Hi Hc. split.
    - apply stands_for_outputs. by apply (dep_candidate_sound p _ Hp d true _ Hc).
    - specialize (Hm d). rewrite Hi in Hm. by destruct c. }
  split; [|split].
  - intros c i Hin. apply list_elem_of_lookup in Hin as [n Hn].
    destruct (Forall2_lookup_r _ _ _ _ _ Hdeps Hn) as ([d i'] & Hd & Hc). cbn [fst snd] in Hc.
    apply bind_Done_inv in Hc as (r & Hr & [= -> ->]). exists d. apply Hone; [|done].
    apply elem_of_hash_iter. by apply list_elem_of_lookup_2 with n.
  - intros d o Hneed. specialize (Hm d) as Hmd. destruct (m !! d) as [i|] eqn:Hi.
    2:{ by destruct (Hmd o). }
    apply elem_of_hash_iter in Hi as Hin. apply list_elem_of_lookup in Hin as [n Hn].
    destruct (Forall2_lookup_l _ _ _ _ _ Hdeps Hn) as ([c i'] & Hd & Hc). cbn [fst snd] in Hc.
    apply bind_Done_inv in Hc as (r & Hr & [= -> ->]). exists c, i'.
    split; [by apply list_elem_of_lookup_2 with n|]. intros c' ->. by apply Hone.
  - intros c i [n Hn]%list_elem_of_lookup.
    destruct (Forall2_lookup_r _ _ _ _ _ Hdeps Hn) as ([d i'] & Hd & Hc). cbn [fst snd] in Hc.
    apply bind_Done_inv in Hc as (r & Hr & [= -> ->]). apply list_elem_of_lookup_2, elem_of_hash_iter in Hd.
    specialize (Hm d). rewrite Hd in Hm. destruct Hm as [[o Ho] _]. by exists d, o.
Qed.

(** A candidate the planner cannot build: it needs something that is not
    usable, and, unless it was built before, something with no stand-in
    either. *)
Definition stuck_at (p : ExecPlan) (k : BuildSpecRef) (i : BuildInfo) : Prop :=
  exists d o, needs (ep_graph p) k true d o /\ available p d = false /\
    (bi_state i = NotBuilt -> dep_candidate (candidate_fuel p) p d true = Done None).

Lemma lacking_stuck p k i deps :
  plan_ok p -> (forall c ti, (c, ti) ∈ deps -> exists d o, needs (ep_graph p) k true d o /\ dep_candidate (candidate_fuel p) p d true = Done c) ->
  (deps_satisfied deps).1 = false -> (deps_satisfied deps).2 && negb (bool_decide (bi_state i = BuiltUsingBreakers)) = false ->
  stuck_at p k i.
Proof.
  intros Hp Hdeps Hf Hb. destruct (deps_satisfied_spec deps) as [E1 E2]. rewrite E1 in Hf.
  assert (forall c ti, (c, ti) ∈ deps -> c = None \/ (exists c', c = Some c' /\ dep_fully_built c' = false) -> 
    exists d o, needs (ep_graph p) k true d o /\ available p d = false /\ dep_candidate (candidate_fuel p) p d true = Done c) as Hgo.
  { intros c ti Hin Hc. destruct (Hdeps c ti Hin) as (d & o & Hn & Hcand). exists d, o. split; [done|]. split; [|done].
    pose proof (dep_candidate_sound p _ Hp d true c Hcand) as Hs. destruct Hc as [->|(c' & -> & Hc')]; [done|].
    destruct Hs as [(_ & _ & Hb' & _) _]. unfold dep_fully_built in Hc'. destruct (dep_cycle_breaker c'); [by destruct Hb'|done]. }
  destruct (decide (bi_state i = BuiltUsingBreakers)) as [Hst|Hst].
  - apply not_true_iff_false in Hf. rewrite forallb_forall in Hf.
    assert (exists x, x ∈ deps /\ match x.1 with Some d => dep_fully_built d | None => false end = false) as ([c ti] & Hin & Hc).
    { clear -Hf. induction deps as [|x deps IH]; [exfalso; by apply Hf|]. destruct (match x.1 with Some d => dep_fully_built d | None => false end) eqn:Ex.
      - destruct IH as (y & Hy & Ey); [|exists y; split; [by right|done]]. intros Hall. apply Hf. intros y [<-|Hy]; [done|by apply Hall].
      - exists x. split; [by left|done]. }
    destruct (Hgo c ti Hin) as (d & o & Hn & Ha & _); [destruct c as [c'|]; [right; by exists c'|by left]|].
    exists d, o. split; [done|]. split; [done|]. by rewrite Hst.
  - rewrite (bool_decide_false _ Hst), andb_true_r, E2 in Hb. apply not_true_iff_false in Hb. rewrite forallb_forall in Hb.
    assert (exists ti, (None, ti) ∈ deps) as (ti & Hin).
    { clear -Hb. induction deps as [|[[c|] ti] deps IH]; [exfalso; by apply Hb| |exists ti; by left].
      destruct IH as (t & Ht); [|exists t; by right]. intros Hall. apply Hb. intros y [<-|Hy]; [done|by apply Hall]. }
    destruct (Hgo None ti Hin (or_introl eq_refl)) as (d & o & Hn & Ha & Hc). by exists d, o.
Qed.

(** ** One candidate *)

(** What the loop records for a build: the spec, whether it is to be rebuilt,
    and the build itself. *)
Definition met_ok (skip : bool) (p : ExecPlan) (e : BuildSpecRef * bool) (b : Build) : Prop :=
  b_spec b = e.1 /\ build_ok p b /\
  exists i spec, im_get (ep_builds p) e.1 = Some i /\ graph_get (ep_graph p) e.1 = Some spec /\
    is_fully_built (bi_state i) = false /\
    (if e.2 then bi_state i = NotBuilt /\ full_build b = false
     else full_build b = true \/
       (bi_state i = NotBuilt /\ (is_pure_collection spec = true \/ skip = true))).

(** When every dependency has a candidate the build is fed by the candidates,
    and it is a full build exactly when all of them are fully built. *)
Lemma supplied_build p k spec deps :
  graph_get (ep_graph p) k = Some spec -> is_pure_prebuilt spec = false ->
  satisfied (ep_builds p) k = false ->
  (forall c i, (Some c, i) ∈ deps -> exists d, supplies p k d (with_outputs c (td_outputs i))) ->
  (forall d o, needs (ep_graph p) k true d o -> exists c i, (c, i) ∈ deps /\
     forall c', c = Some c' -> supplies p k d (with_outputs c' (td_outputs i))) ->
  true = forallb (fun d : option PlannerDep * TDep => match d.1 with Some _ => true | None => false end) deps ->
  exists b, build_new k deps = Done b /\ b_spec b = k /\ build_ok p b /\
    full_build b = forallb (fun d : option PlannerDep * TDep =>
      match d.1 with Some d => dep_fully_built d | None => false end) deps.
Proof.
  intros Hspec Hpre Hsat Hsup Hneed E2. symmetry in E2. rewrite forallb_forall in E2.
  assert (Hsome : forall d, d ∈ deps -> is_Some d.1).
  { intros d Hd%list_elem_of_In%E2. by destruct d.1; eauto. }
  destruct (build_new_spec k deps Hsome) as (b & Hrun & Hb & Hds).
  exists b. split; [done|]. split; [done|]. split.
  - exists spec. rewrite Hb. split; [done|]. split; [done|]. rewrite Hpre. split.
    + intros d o Hn. destruct (Hneed d o Hn) as (c & ti & Hin & Hs).
      destruct (Hsome _ Hin) as [c' Hc']. simpl in Hc'. subst c.
      exists (with_outputs c' (td_outputs ti)). split; [apply Hds; eauto|by apply Hs].
    + intros dep (c & ti & Hin & ->)%Hds. by apply Hsup.
  - unfold full_build. apply eq_true_iff_eq. rewrite !forallb_forall. split.
    + intros Hall [c ti] Hin. apply list_elem_of_In in Hin.
      destruct (Hsome _ Hin) as [c' Hc']. simpl in *. subst c.
      rewrite <- (with_outputs_fully c' (td_outputs ti)). apply Hall, list_elem_of_In, Hds. eauto.
    + intros Hall dep Hin. apply list_elem_of_In, Hds in Hin as (c & ti & Hin & ->).
      rewrite with_outputs_fully. apply list_elem_of_In in Hin. by apply (Hall (Some c, ti)).
Qed.

Lemma consider_spec skip p acc k i :
  plan_ok p -> breakers_acyclic (ep_graph p) -> im_get (ep_builds p) k = Some i ->
  exists r, consider skip p acc (k, i) = Done r /\
    ((r = acc /\ (is_fully_built (bi_state i) = true \/ stuck_at p k i)) \/
     exists w b, r = (acc.1 ++ [(k, w)], acc.2 ++ [b]) /\ met_ok skip p (k, w) b).
Proof.
  intros Hp Hac Hi. unfold consider.
  destruct (is_fully_built (bi_state i)) eqn:Hfull; [exists acc; split; [done|]; left; split; [done|]; by left|].
  destruct (ok_key_live p k Hp (get_key _ _ _ Hi)) as [spec Hspec].
  destruct (candidate_deps_spec p k Hp Hac ltac:(eauto)) as (deps & -> & Hsup & Hneed & Hnone).
  rewrite bind_Done. destruct (deps_satisfied_spec deps) as [E1 E2]. pose proof (lacking_stuck p k i deps Hp Hnone) as Hstuck.
  destruct (deps_satisfied deps) as [cf cb]. simpl in E1, E2. rewrite Hspec. simpl.
  assert (Hsat : satisfied (ep_builds p) k = false) by (unfold satisfied; by rewrite Hi).
  destruct (is_pure_prebuilt spec) eqn:Hpre.
  { destruct (build_new_spec k []) as (b & -> & Hb & Hds); [by intros d ?%elem_of_nil|]. simpl.
    assert (Hnil : b_with_deps b = []).
    { destruct (b_with_deps b) as [|e l]; [done|]. destruct (Hds e) as [Hx _].
      destruct Hx as (? & ? & Hin & _); [left|]. by apply elem_of_nil in Hin. }
    eexists. split; [reflexivity|]. right. exists false, b. split; [done|].
    split; [done|]. split.
    - exists spec. rewrite Hb. split; [done|]. split; [done|]. by rewrite Hpre.
    - exists i, spec. do 3 (split; [done|]). left. unfold full_build. by rewrite Hnil. }
  assert (Hok : cb = true -> exists b, build_new k deps = Done b /\ b_spec b = k /\ build_ok p b /\
    full_build b = cf).
  { intros ->. rewrite E1. by apply supplied_build with spec. }
  assert (Hcfb : cf = true -> cb = true).
  { intros ->. rewrite E2. apply forallb_forall. intros d Hd. symmetry in E1.
    rewrite forallb_forall in E1. specialize (E1 d Hd). by destruct d.1. }
  destruct cf.
  - destruct (Hok (Hcfb eq_refl)) as (b & -> & Hb & Hbok & Hfb). simpl.
    eexists. split; [reflexivity|]. right. exists false, b. split; [done|]. split; [done|].
    split; [done|]. exists i, spec. do 3 (split; [done|]). by left.
  - destruct (cb && _) eqn:Hcond; [|eexists; split; [reflexivity|]; left; split; [done|]; right; by apply Hstuck]. apply andb_prop in Hcond as [Hcb Hst]. bool_to_prop.
    assert (Hnb : bi_state i = NotBuilt) by (destruct (bi_state i); done).
    destruct (Hok Hcb) as (b & -> & Hb & Hbok & Hfb). simpl.
    eexists. split; [reflexivity|]. right. eexists _, b. split; [reflexivity|]. split; [done|].
    split; [done|]. exists i, spec. do 3 (split; [done|]). simpl.
    destruct (is_pure_collection spec); [simpl; auto|]. destruct skip; simpl; auto.
Qed.

Lemma consider_all skip p : plan_ok p -> breakers_acyclic (ep_graph p) ->
  forall l acc, (forall k i, (k, i) ∈ l -> im_get (ep_builds p) k = Some i) ->
  exists bt met, foldM (consider skip p) acc l = Done (acc.1 ++ bt, acc.2 ++ met) /\
    sublist bt.*1 l.*1 /\ Forall2 (met_ok skip p) bt met /\
    (forall k i, (k, i) ∈ l -> k ∈ bt.*1 \/ is_fully_built (bi_state i) = true \/ stuck_at p k i).
Proof.
  intros Hp Hac. induction l as [|[k i] l IH]; intros acc Hl; cbn [foldM].
  { exists [], []. rewrite !app_nil_r. destruct acc. split; [done|]. split; [done|]. split; [constructor|]. by intros k i ?%elem_of_nil. }
  destruct (consider_spec skip p acc k i Hp Hac (Hl k i ltac:(left))) as (r & -> & Hr).
  rewrite bind_Done.
  destruct (IH r ltac:(intros; apply Hl; by right)) as (bt & met & -> & Hsub & Hmet & Hrest).
  destruct Hr as [[-> Hk]|(w & b & -> & Hb)].
  - exists bt, met. split; [done|]. split; [by apply sublist_cons|]. split; [done|].
    intros k' i' [[= -> ->]|Hin]%elem_of_cons; [by right|by apply Hrest].
  - exists ((k, w) :: bt), (b :: met). cbn [fst snd]. rewrite <- !app_assoc. split; [done|].
    split; [by apply sublist_skip|]. split; [by constructor|].
    intros k' i' [[= -> ->]|Hin]%elem_of_cons; [left; by left|]. destruct (Hrest k' i' Hin); [left; by right|by right].
Qed.
End phases.
