(* ===== verification/PlannerPlan.v ===== *)
(** * Planner properties, IV: the whole plan

    One iteration ([ExecPlan::next]) in all its outcomes, and the plan run to
    its end: it terminates, and its phases are in dependency order. *)

From stdpp Require Import base list gmap strings numbers sorting relations.
From Stdlib Require Import ZArith Lia.
From S2P Require Import Prelude GraphModel Transitives Planner.
From S2P Require Import PlannerReach PlannerPhases.
Open Scope Z_scope.

Section plan.
Context `{Arena} `{HashIter}.

(** ** Recording a phase *)

Definition marked (i : BuildInfo) (w : bool) : BuildInfo :=
  {| bi_state := if w then BuiltUsingBreakers else FullyBuilt;
     bi_cycle_breaker_of := bi_cycle_breaker_of i; bi_cycle_breaker := bi_cycle_breaker i |}.

Lemma mark_all bt : NoDup bt.*1 -> forall m : Builds,
  NoDup m.*1 -> (forall k, k ∈ bt.*1 -> k ∈ m.*1) ->
  exists m', foldM mark_built m bt = Done m' /\ m'.*1 = m.*1 /\
    (forall k, k ∉ bt.*1 -> im_get m' k = im_get m k) /\
    (forall k w, (k, w) ∈ bt -> exists i, im_get m k = Some i /\ im_get m' k = Some (marked i w)).
Proof.
  induction bt as [|[k w] bt IH]; intros Hnd m Hm Hkeys; simpl.
  { exists m. do 2 (split; [done|]). split; [done|]. by intros k w ?%elem_of_nil. }
  apply NoDup_cons in Hnd as [Hk Hnd].
  destruct (key_get m k (Hkeys k ltac:(left))) as [i Hi]. unfold mark_built at 2. simpl.
  rewrite Hi. simpl. fold (marked i w). set (m1 := im_insert m k (marked i w)).
  assert (Hm1 : m1.*1 = m.*1).
  { unfold m1. rewrite im_keys_insert, decide_True; [done|]. by apply get_key with i. }
  destruct (IH Hnd m1) as (m' & -> & Hm' & Hout & Hin).
  { by rewrite Hm1. }
  { intros k' Hk'. rewrite Hm1. apply Hkeys. by right. }
  exists m'. split; [done|]. split; [congruence|]. split.
  - intros k' Hk'. rewrite Hout by set_solver. apply im_get_insert_ne. set_solver.
  - intros k' w' [[= -> ->]|Hin']%elem_of_cons.
    + exists i. split; [done|]. rewrite Hout by done. apply im_get_insert_eq.
    + assert (Hne : k <> k') by (intros ->; apply Hk, list_elem_of_fmap; by exists (k', w')).
      destruct (Hin k' w' Hin') as (i' & Hi' & Hget). exists i'. split; [|done].
      unfold m1 in Hi'. by rewrite im_get_insert_ne in Hi'.
Qed.

(** ** Progress *)

(** How many times a spec can still be built. *)
Definition weight (i : option BuildInfo) : nat :=
  match i with
  | Some i => match bi_state i with NotBuilt => 2 | BuiltUsingBreakers => 1 | _ => 0 end
  | None => 2
  end.

Definition total_weight (g : Graph) (m : Builds) : nat :=
  sum_list_with (fun k => weight (im_get m k)) (graph_all g).

Lemma sum_list_with_le {A} (f f' : A -> nat) l :
  (forall x, x ∈ l -> (f x <= f' x)%nat) -> (sum_list_with f l <= sum_list_with f' l)%nat.
Proof.
  induction l as [|a l IH]; intros Hle; simpl; [done|].
  pose proof (Hle a ltac:(left)). specialize (IH ltac:(intros; apply Hle; by right)). lia.
Qed.

Lemma sum_list_with_lt {A} (f f' : A -> nat) l x :
  (forall x, x ∈ l -> (f x <= f' x)%nat) -> x ∈ l -> (f x < f' x)%nat ->
  (sum_list_with f l < sum_list_with f' l)%nat.
Proof.
  intros Hle Hx Hlt. induction l as [|a l IH]; [by apply elem_of_nil in Hx|]. simpl.
  pose proof (Hle a ltac:(left)).
  pose proof (sum_list_with_le f f' l ltac:(intros; apply Hle; by right)).
  apply elem_of_cons in Hx as [->|Hx]; [lia|].
  specialize (IH ltac:(intros; apply Hle; by right) Hx). lia.
Qed.

Lemma total_weight_bound g m : (total_weight g m <= 2 * length (graph_all g))%nat.
Proof.
  unfold total_weight. induction (graph_all g) as [|k l IH]; simpl; [done|].
  assert (weight (im_get m k) <= 2)%nat
    by (unfold weight; destruct (im_get m k) as [i|]; [destruct (bi_state i)|]; lia).
  lia.
Qed.

(** ** Growing the plan by replacements *)

Definition grown (p p' : ExecPlan) : Prop :=
  ep_graph p' = ep_graph p /\ ep_bin_provider p' = ep_bin_provider p /\
  ep_toplevels p' = ep_toplevels p /\
  exists ext, ep_builds p' = ep_builds p ++ ext /\
    forall k i, (k, i) ∈ ext -> exists b, graph_get (ep_graph p) k = Some b /\
      i = fresh_info (ep_bin_provider p) k b.

Lemma grown_refl p : grown p p.
Proof.
  do 3 (split; [done|]). exists []. rewrite app_nil_r. split; [done|].
  by intros k i ?%elem_of_nil.
Qed.

Lemma grown_trans p p1 p2 : grown p p1 -> grown p1 p2 -> grown p p2.
Proof.
  intros (A1 & A2 & A3 & e1 & A4 & A5) (B1 & B2 & B3 & e2 & B4 & B5).
  rewrite A1, A2, A3 in *. do 3 (split; [done|]). exists (e1 ++ e2).
  split; [by rewrite B4, A4, app_assoc|].
  intros k i [Hin|Hin]%elem_of_app; [by apply A5|by apply B5].
Qed.

(** An entry of the larger plan is an old one, or new and fresh. *)
Lemma grown_get p p' k i : grown p p' -> im_get (ep_builds p') k = Some i ->
  im_get (ep_builds p) k = Some i \/
  (im_get (ep_builds p) k = None /\ exists b, i = fresh_info (ep_bin_provider p) k b).
Proof.
  intros (_ & _ & _ & ext & -> & Hext). rewrite im_get_app.
  destruct (im_get (ep_builds p) k) as [j|]; [auto|]. intros Hi%im_get_elem. right.
  split; [done|]. destruct (Hext k i Hi) as (b & _ & ->). eauto.
Qed.

Lemma grown_old p p' k i : grown p p' -> im_get (ep_builds p) k = Some i ->
  im_get (ep_builds p') k = Some i.
Proof. intros (_ & _ & _ & ext & -> & _) Hi. by rewrite im_get_app, Hi. Qed.

Lemma grown_available p p' k : grown p p' -> available p' k = available p k.
Proof.
  intros Hg. pose proof Hg as (_ & Hbp & _). unfold available. rewrite Hbp.
  destruct (im_get (ep_builds p') k) as [i|] eqn:Hi.
  - destruct (grown_get p p' k i Hg Hi) as [->|[-> [b ->]]]; [done|]. simpl.
    by destruct (ep_bin_provider p k).
  - destruct (im_get (ep_builds p) k) as [j|] eqn:Hj; [|done].
    apply (grown_old p p' k j Hg) in Hj. congruence.
Qed.

Lemma grown_stands_for p p' k d : grown p p' -> stands_for p' k d -> stands_for p k d.
Proof.
  intros Hg (H1 & H2 & H3 & H4). pose proof Hg as (Hgr & Hbp & _).
  unfold stands_for. rewrite Hgr, Hbp, !(grown_available p p') in * by done.
  split; [done|]. split; [done|].
  split; [done|].
  destruct d as [x cb o|x cb w o]; [done|]. destruct H4 as (Hx & i & Hi & Hw).
  split; [done|]. exists i. split; [|done].
  destruct (grown_get p p' x i Hg Hi) as [?|[Hnone [b ->]]]; [done|]. simpl in H1.
  unfold available in H1. rewrite Hx, Hnone in H1. done.
Qed.

Lemma grown_build_ok p p' b : grown p p' -> build_ok p' b -> build_ok p b.
Proof.
  intros Hg (spec & Hspec & Hsat & Hdeps). pose proof Hg as (Hgr & Hbp & _).
  exists spec. rewrite Hgr in *. split; [done|]. split.
  - unfold satisfied in *. destruct (im_get (ep_builds p) (b_spec b)) as [i|] eqn:Hi; [|done].
    by rewrite (grown_old p p' _ i Hg Hi) in Hsat.
  - destruct (is_pure_prebuilt spec); [done|]. destruct Hdeps as [D1 D2].
    assert (Hsup : forall d dep, supplies p' (b_spec b) d dep -> supplies p (b_spec b) d dep).
    { intros d dep [S1 S2]. rewrite Hgr in S2. split; [by apply (grown_stands_for p p')|done]. }
    split.
    + intros d o Hn. destruct (D1 d o Hn) as (dep & Hin & Hs). eauto.
    + intros dep Hin. destruct (D2 dep Hin) as (d & Hs). eauto.
Qed.

Lemma grown_weight p p' : grown p p' ->
  (total_weight (ep_graph p') (ep_builds p') <= total_weight (ep_graph p) (ep_builds p))%nat.
Proof.
  intros Hg. pose proof Hg as (-> & _). apply sum_list_with_le. intros k _.
  destruct (im_get (ep_builds p) k) as [i|] eqn:Hi; [by rewrite (grown_old p p' k i Hg Hi)|].
  simpl. unfold weight. destruct (im_get (ep_builds p') k) as [i|]; [destruct (bi_state i)|]; lia.
Qed.

(** ** Stuck: cycles and their replacements *)

Lemma cycle_ends g q : is_cycle g q ->
  exists x y, head q = Some x /\ last q = Some y /\
    is_Some (graph_get g x) /\ is_Some (graph_get g y).
Proof.
  intros (_ & _ & Hlive & x & y & Hx & Hy & _). exists x, y. do 2 (split; [done|]). split; apply Hlive.
  - by apply head_Some_elem_of.
  - by apply last_Some_elem_of.
Qed.

Lemma filter_unbuilt_spec p cs :
  plan_ok p -> breakers_acyclic (ep_graph p) -> (forall q, q ∈ cs -> is_cycle (ep_graph p) q) ->
  exists cs', filter_unbuilt p cs = Done cs' /\ forall q, q ∈ cs' -> q ∈ cs.
Proof.
  intros Hp Hac. induction cs as [|q cs IH]; intros Hcs; simpl; [by exists []|].
  destruct (cycle_ends _ q (Hcs q ltac:(left))) as (x & y & Hx & Hy & Hlx & Hly).
  assert (Hb : exists b, chain_built p q = Done b).
  { unfold chain_built. rewrite Hx, Hy. simpl.
    destruct (is_built_spec p x Hp Hac Hlx) as [[b1 ->] _]. simpl.
    destruct b1; simpl; [|eauto].
    destruct (is_built_spec p y Hp Hac Hly) as [[b2 ->] _]. simpl. destruct b2; simpl; eauto. }
  destruct Hb as [b ->]. simpl. destruct IH as (cs' & -> & Hcs'); [intros; apply Hcs; by right|].
  simpl. eexists. split; [reflexivity|]. intros q'. destruct b; rewrite !elem_of_cons; naive_solver.
Qed.

Lemma filter_unbuilt_keeps p cs cs' q u :
  filter_unbuilt p cs = Done cs' -> q ∈ cs -> head q = Some u -> is_built p u true = Done false -> q ∈ cs'.
Proof.
  revert cs'. induction cs as [|c cs IH]; intros cs' Hrun Hq Hu Hb; [by apply elem_of_nil in Hq|]. cbn [filter_unbuilt] in Hrun.
  apply bind_Done_inv in Hrun as (b & Hcb & (rest & Hrest & [= <-])%bind_Done_inv).
  apply elem_of_cons in Hq as [->|Hq]; [|destruct b; [|right]; by apply IH].
  destruct b; [exfalso|by left]. unfold chain_built in Hcb. rewrite Hu in Hcb. simpl in Hcb.
  apply bind_Done_inv in Hcb as (l & _ & Hcb). rewrite Hb in Hcb. by simpl in Hcb.
Qed.

(** Where every member of a finite set has a successor in it, some member is
    its own. *)
Lemma walk_repeats {A} `{EqDecision A} (R : A -> A -> Prop) (P : A -> Prop) (all : list A) :
  (forall x, P x -> x ∈ all) -> (forall x, P x -> exists y, P y /\ tc R x y) ->
  forall n path x, NoDup path -> (forall z, z ∈ path -> P z /\ rtc R z x) -> P x ->
  (length all < n + length path)%nat -> exists z, P z /\ tc R z z.
Proof.
  intros Hall Hnext. induction n as [|n IH]; intros path x Hnd Hpath Hx Hlen.
  { assert (length path <= length all)%nat; [|lia]. apply submseteq_length, NoDup_submseteq; [done|].
    intros z Hz. by apply Hall, Hpath. }
  destruct (Hnext x Hx) as (y & Hy & Hxy). destruct (decide (y ∈ path)) as [Hin|Hin].
  - exists y. split; [done|]. apply tc_rtc_l with x; [by apply Hpath|done].
  - apply (IH (path ++ [y]) y); [| |done|rewrite length_app; simpl; lia].
    + apply list.NoDup_app. split; [done|]. split; [set_solver|apply NoDup_singleton].
    + intros z [Hz| ->%list_elem_of_singleton]%elem_of_app; [|by split; [|apply rtc_refl]].
      destruct (Hpath z Hz). split; [done|]. etrans; [done|]. by apply tc_rtc.
Qed.

(** The cycles an error reports are genuine; and it reports some, unless
    what is missing needs itself through an implicit dependency on an internet
    provider and not through the declared ones alone. *)
Definition cycles_reported (g : Graph) (cs : list (list BuildSpecRef)) : Prop :=
  (forall q, q ∈ cs -> is_cycle g q) /\
  (cs = [] -> internet_providers g <> [] /\
     exists x, tc (need_edge g) x x /\ ~ tc (fun x y => y ∈ deps_of g x) x x).

(** A spec without its build and without a stand-in. *)
Definition missing (p : ExecPlan) (k : BuildSpecRef) : Prop :=
  k ∈ (ep_builds p).*1 /\ dep_candidate (candidate_fuel p) p k true = Done None.

Lemma unavailable_state p k :
  plan_ok p -> k ∈ (ep_builds p).*1 -> available p k = false ->
  exists i, im_get (ep_builds p) k = Some i /\ bi_state i = NotBuilt /\ ep_bin_provider p k = false.
Proof.
  intros Hp Hk. destruct (key_get _ _ Hk) as [i Hi]. unfold available. rewrite Hi. intros [Hbp Hst]%orb_false_iff.
  exists i. split; [done|]. by destruct (bi_state i).
Qed.

Lemma stuck_missing p k i :
  plan_ok p -> im_get (ep_builds p) k = Some i -> bi_state i = NotBuilt -> stuck_at p k i ->
  exists d, missing p d /\ tc (need_edge (ep_graph p)) k d.
Proof.
  intros Hp Hi Hst (d & o & Hn & _ & Hc). exists d. split; [|by apply needs_path with o]. split; [|by apply Hc].
  apply (needs_planned p k d o Hp); [by apply get_key with i| |done].
  destruct (ok_wf p Hp) as [_ Hwf]. destruct (Hwf k i Hi) as (b & _ & _ & _ & Hf). rewrite Hst in Hf.
  apply not_true_iff_false. intros Hbp. by apply Hf in Hbp.
Qed.

Lemma stuck_reports p found cs :
  plan_ok p -> breakers_acyclic (ep_graph p) -> finished p = Done false ->
  (forall k i, im_get (ep_builds p) k = Some i -> is_fully_built (bi_state i) = true \/ stuck_at p k i) ->
  find_cycles p = Done found -> filter_unbuilt p found = Done cs -> cs = [] ->
  internet_providers (ep_graph p) <> [] /\
  exists x, tc (need_edge (ep_graph p)) x x /\ ~ tc (fun x y => y ∈ deps_of (ep_graph p) x) x x.
Proof.
  intros Hp Hac Hfin Hstuck Hfound Hcs ->.
  assert (Hun : forall k, k ∈ (ep_builds p).*1 -> available p k = false -> exists d, missing p d /\ tc (need_edge (ep_graph p)) k d).
  { intros k Hk Hav. destruct (unavailable_state p k Hp Hk Hav) as (i & Hi & Hst & _).
    destruct (Hstuck k i Hi) as [Hf|Hs]; [by rewrite Hst in Hf|by apply (stuck_missing p k i)]. }
  assert (Hnext : forall k, missing p k -> exists d, missing p d /\ tc (need_edge (ep_graph p)) k d).
  { intros k [Hk Hc]. apply Hun; [done|]. exact (dep_candidate_sound p _ Hp k true None Hc). }
  assert (exists k, missing p k) as (k0 & Hk0).
  { destruct (finished_spec_aux p Hp) as (r & Hr & Hiff). rewrite Hfin in Hr. injection Hr as <-.
    destruct (decide (Forall (fun e : BuildSpecRef * BuildInfo => is_fully_built (bi_state e.2) = true) (ep_builds p))) as [Hall|Hnot].
    - exfalso. enough (false = true) by done. apply Hiff. intros t k Ht Hr.
      assert (Hk : k ∈ (ep_builds p).*1).
      { apply (ok_tops p Hp) in Ht. clear -Hp Ht Hr. induction Hr as [|x y z Hxy _ IH]; [done|].
        apply IH, (ok_closed p Hp x); [done|]. by apply runtime_needed. }
      destruct (key_get _ _ Hk) as [i Hi]. unfold satisfied. rewrite Hi. apply im_get_elem in Hi.
      rewrite list.Forall_forall in Hall. by apply (Hall (k, i)).
    - apply not_Forall_Exists in Hnot; [|intros; apply _]. apply list.Exists_exists in Hnot as ([k i] & Hin & Hnf). cbn [snd] in Hnf.
      assert (Hi : im_get (ep_builds p) k = Some i) by (by apply im_get_Some_iff; [apply (ok_wf p Hp)|]).
      destruct (Hstuck k i Hi) as [Hf|Hs]; [done|]. destruct Hs as (d & o & Hn & Hav & _).
      assert (Hbp : ep_bin_provider p k = false).
      { destruct (ok_wf p Hp) as [_ Hwf]. destruct (Hwf k i Hi) as (b & _ & _ & _ & Hf).
        apply not_true_iff_false. intros Hbp. apply Hf in Hbp. apply Hnf. simpl. by rewrite Hbp. }
      destruct (Hun d) as (d' & Hd' & _); [|done|by exists d'].
      by apply (needs_planned p k d o Hp); [apply get_key with i|..]. }
  destruct (walk_repeats (need_edge (ep_graph p)) (missing p) (ep_builds p).*1 (fun x Hx => proj1 Hx) Hnext
    (S (length (ep_builds p).*1)) [] k0) as (z & [Hz Hc] & Hcyc).
  { constructor. } { by intros z ?%elem_of_nil. } { done. } { simpl. lia. }
  assert (Hno : ~ tc (fun x y => y ∈ deps_of (ep_graph p) x) z z).
  { intros Hd. destruct (find_cycles_complete p found z Hp Hac Hfound Hz) as (q & Hq & Hh); [|done|].
    { exact (dep_candidate_sound p _ Hp z true None Hc). }
    assert (q ∈ ([] : list (list BuildSpecRef))) as ?%elem_of_nil; [|done].
    apply (filter_unbuilt_keeps p found [] q z Hcs Hq Hh). unfold is_built. by rewrite Hc, bind_Done. }
  split; [|by exists z]. intros Hnil. apply Hno. clear -Hcyc Hnil.
  assert (forall x y, need_edge (ep_graph p) x y -> y ∈ deps_of (ep_graph p) x) as Hsub.
  { intros x y [?|(b & _ & _ & Hy)]; [done|]. rewrite Hnil in Hy. by apply elem_of_nil in Hy. }
  revert Hcyc. generalize z at 1 3. intros a Ht.
  induction Ht as [x y Hxy|x y w Hxy _ IH]; [apply tc_once|apply tc_l with y]; auto.
Qed.

(** Bringing replacements in keeps the plan's invariant and never changes an
    entry; it reports whether the plan grew. *)
Definition breakers_added (p : ExecPlan) (acc : Builds * bool) : Prop :=
  plan_ok (set_builds p acc.1) /\ grown p (set_builds p acc.1) /\
  (unplanned (ep_graph p) acc.1 <= unplanned (ep_graph p) (ep_builds p))%nat /\
  if acc.2 then (unplanned (ep_graph p) acc.1 < unplanned (ep_graph p) (ep_builds p))%nat
  else acc.1 = ep_builds p.

Lemma reached_strict g bp m m' c :
  reached g bp m m' [c] -> is_Some (graph_get g c) -> im_get m c = None ->
  (unplanned g m' < unplanned g m)%nat.
Proof.
  intros [_ (ext & -> & _) Hc] Hlive Hnone. apply im_get_None_iff in Hnone.
  apply subset_size. specialize (Hc c ltac:(left)).
  rewrite fmap_app, list_to_set_app_L in *. apply elem_of_graph_set in Hlive.
  split; [set_solver|]. intros Hsub. specialize (Hsub c).
  rewrite !elem_of_difference, elem_of_union, !elem_of_list_to_set in Hsub.
  apply elem_of_app in Hc. tauto.
Qed.

Lemma add_breaker_spec p acc k :
  plan_ok p -> is_Some (graph_get (ep_graph p) k) -> breakers_added p acc ->
  exists acc', add_breaker p acc k = Done acc' /\ breakers_added p acc'.
Proof.
  intros Hp [b Hb] (Hok & Hgr & Hle & Hflag). unfold add_breaker. rewrite Hb. simpl.
  destruct (bs_replace_on_cycle b) as [c|] eqn:Hc; [|by exists acc].
  destruct (im_contains_key acc.1 c) eqn:Hk; [by exists acc|].
  pose proof (ok_graph p Hp) as Hg.
  pose proof (breaker_live _ Hg k b c Hb Hc) as Hlive.
  destruct (make_reachable_spec (ep_graph p) (ep_bin_provider p) Hg (reach_fuel (ep_graph p))
    c acc.1 []) as (m' & -> & Hr).
  { exact (ok_wf _ Hok). } { done. } { exact (reach_fuel_enough _ Hg _ _). }
  rewrite bind_Done. eexists. split; [reflexivity|].
  apply contains_key_false in Hk. pose proof (reached_strict _ _ _ _ _ Hr Hlive Hk) as Hlt.
  split; [|split; [|simpl; lia]].
  - split; simpl.
    + done.
    + apply Hr.
    + apply (reached_closed _ _ acc.1 m' [c]); [apply (ok_closed _ Hok)|done].
    + intros t Ht. apply (ok_tops _ Hok) in Ht. simpl in Ht.
      destruct Hr as [_ (ext & -> & _) _]. rewrite fmap_app, elem_of_app. by left.
    + intros d Hd. apply (ok_net _ Hok) in Hd. simpl in Hd.
      destruct Hr as [_ (ext & -> & _) _]. rewrite fmap_app, elem_of_app. by left.
  - apply grown_trans with (set_builds p acc.1); [done|].
    do 3 (split; [done|]). destruct Hr as [_ (ext & -> & Hext) _]. exists ext.
    split; [done|]. intros k' i Hin. by apply (Hext k' i).
Qed.

Lemma add_breakers_spec p cs :
  plan_ok p -> (forall q, q ∈ cs -> is_cycle (ep_graph p) q) ->
  exists r, add_breakers p cs = Done r /\ breakers_added p r.
Proof.
  intros Hp Hcs. unfold add_breakers. apply foldM_returns.
  - unfold breakers_added. simpl.
    assert (set_builds p (ep_builds p) = p) as -> by (by destruct p).
    split; [done|]. split; [apply grown_refl|done].
  - intros acc q Hq Hacc. destruct (cycle_ends _ q (Hcs q Hq)) as (x & y & -> & -> & Hx & Hy).
    simpl. destruct (add_breaker_spec p acc x Hp Hx Hacc) as (a1 & -> & Ha1). simpl.
    destruct (add_breaker_spec p a1 y Hp Hy Ha1) as (a2 & -> & Ha2). simpl. eauto.
Qed.

(** ** One iteration *)

(** What a phase must be, planned from [p] and leading to [p']. *)
Record phase_ok (skip : bool) (p p' : ExecPlan) (builds : list Build) : Prop := {
  phase_nonempty : builds <> [];
  phase_distinct : NoDup (map b_spec builds);
  (** every build is fed from what was usable before the phase *)
  phase_fed b : b ∈ builds -> build_ok p b;
  (** a build with a replacement among its dependencies is to be redone,
      unless the spec is a mere collection or the unsafe switch is set *)
  phase_state b : b ∈ builds -> exists i spec,
    im_get (ep_builds p') (b_spec b) = Some i /\ graph_get (ep_graph p) (b_spec b) = Some spec /\
    ((bi_state i = FullyBuilt /\
        (full_build b = true \/ is_pure_collection spec = true \/ skip = true)) \/
     (bi_state i = BuiltUsingBreakers /\ full_build b = false));
  (** exactly the specs of the phase become usable *)
  phase_available k : available p' k = available p k || bool_decide (k ∈ map b_spec builds);
  phase_progress : (total_weight (ep_graph p') (ep_builds p') < total_weight (ep_graph p) (ep_builds p))%nat;
}.

Lemma met_specs skip p bt met : Forall2 (met_ok skip p) bt met -> map b_spec met = bt.*1.
Proof. induction 1 as [|e b bt met (He & _) _ IH]; simpl; [done|]. by rewrite He, IH. Qed.

(** What marking the specs of a phase leaves: the same keys, the entries
    outside the phase, and the marked entry of each spec of the phase. *)
Record marks (skip : bool) (p : ExecPlan) (bt : list (BuildSpecRef * bool)) (met : list Build) (m' : Builds) : Prop := {
  mk_keys : m'.*1 = (ep_builds p).*1;
  mk_out k : k ∉ bt.*1 -> im_get m' k = im_get (ep_builds p) k;
  mk_in k w : (k, w) ∈ bt -> exists b i, met_ok skip p (k, w) b /\
    im_get (ep_builds p) k = Some i /\ im_get m' k = Some (marked i w);
  mk_of b : b ∈ met -> exists w, (b_spec b, w) ∈ bt /\ met_ok skip p (b_spec b, w) b;
}.

Lemma marks_exist skip p bt met :
  plan_ok p -> NoDup bt.*1 -> Forall2 (met_ok skip p) bt met ->
  exists m', foldM mark_built (ep_builds p) bt = Done m' /\ marks skip p bt met m'.
Proof.
  intros Hp Hnd Hmet. pose proof (ok_wf p Hp) as [Hkeys _].
  assert (Hin : forall k w, (k, w) ∈ bt -> exists b, met_ok skip p (k, w) b).
  { intros k w [n Hn]%list_elem_of_lookup.
    destruct (Forall2_lookup_l _ _ _ _ _ Hmet Hn) as (b & Hb & Hok). by exists b. }
  destruct (mark_all bt Hnd (ep_builds p) Hkeys) as (m' & Hrun & Hm' & Hout & Hmark).
  { intros k Hk. apply list_elem_of_fmap in Hk as ([k' w] & -> & Hk).
    destruct (Hin k' w Hk) as (b & _ & _ & i & spec & Hi & _). by apply get_key with i. }
  exists m'. split; [done|]. split; [done|done| |].
  - intros k w Hk. destruct (Hin k w Hk) as (b & Hb). destruct (Hmark k w Hk) as (i & Hi & Hi').
    by exists b, i.
  - intros b [n Hn]%list_elem_of_lookup.
    destruct (Forall2_lookup_r _ _ _ _ _ Hmet Hn) as ([k w] & Hk & Hok).
    pose proof Hok as (E & _). simpl in E. subst k. exists w.
    split; [by apply list_elem_of_lookup_2 with n|done].
Qed.

Lemma marks_plan_ok skip p bt met m' : plan_ok p -> marks skip p bt met m' -> plan_ok (set_builds p m').
Proof.
  intros Hp [Hm' Hout Hmark _]. pose proof (ok_wf p Hp) as [Hkeys Hwf]. split; simpl.
  - apply Hp.
  - split; [by rewrite Hm'|]. intros k i' Hi'. destruct (decide (k ∈ bt.*1)) as [Hk|Hk].
    2: { rewrite Hout in Hi' by done. by apply Hwf. }
    apply list_elem_of_fmap in Hk as ([k' w] & -> & Hk). simpl in Hi'.
    destruct (Hmark k' w Hk) as (bb & i & (_ & _ & i2 & spec & Hi2 & _ & Hnf & _) & Hi & Hi3).
    simpl in *. rewrite Hi' in Hi3. injection Hi3 as ->. rewrite Hi in Hi2. injection Hi2 as <-.
    destruct (Hwf k' i Hi) as (b & Hb & H1 & H2 & H3). exists b. simpl.
    do 3 (split; [done|]). split; [by destruct w|]. intros Hbp. apply H3 in Hbp. by rewrite Hbp in Hnf.
  - intros k d Hk Hd. rewrite Hm' in *. by apply (ok_closed p Hp k).
  - intros t Ht. rewrite Hm'. by apply ok_tops.
  - intros d Hd. rewrite Hm'. by apply ok_net.
Qed.

Lemma marks_progress skip p bt met m' :
  marks skip p bt met m' -> met <> [] ->
  (total_weight (ep_graph p) m' < total_weight (ep_graph p) (ep_builds p))%nat.
Proof.
  intros [_ Hout Hmark Hof] Hne. destruct met as [|b0 met0]; [done|].
  assert (Hweight : forall k w, (k, w) ∈ bt ->
    (weight (im_get m' k) < weight (im_get (ep_builds p) k))%nat).
  { intros k w Hk. destruct (Hmark k w Hk) as (b & i & (_ & _ & i2 & sp & Hi2 & _ & Hnf & Hw) & Hi & ->).
    simpl in *. rewrite Hi in Hi2. injection Hi2 as <-. rewrite Hi. simpl.
    destruct w; [destruct Hw as [-> _]; lia|]. destruct (bi_state i); simpl; done || lia. }
  destruct (Hof b0 ltac:(left)) as (w & Hk & _ & _ & i & spec & Hi & Hspec & _). simpl in *.
  apply sum_list_with_lt with (x := b_spec b0).
  - intros k _. destruct (decide (k ∈ bt.*1)) as [Hkb|Hkb]; [|by rewrite Hout].
    apply list_elem_of_fmap in Hkb as ([k' w'] & -> & Hkb). simpl. specialize (Hweight k' w' Hkb). lia.
  - apply graph_all_iff. eauto.
  - by apply (Hweight _ w).
Qed.

Lemma phase_from_met skip p bt met :
  plan_ok p -> NoDup bt.*1 -> Forall2 (met_ok skip p) bt met -> met <> [] ->
  exists m', foldM mark_built (ep_builds p) bt = Done m' /\
    plan_ok (set_builds p m') /\ phase_ok skip p (set_builds p m') met.
Proof.
  intros Hp Hnd Hmet Hne. destruct (marks_exist skip p bt met Hp Hnd Hmet) as (m' & Hrun & Hm).
  exists m'. split; [done|]. split; [by apply marks_plan_ok with skip bt met|].
  pose proof Hm as [_ Hout Hmark Hof]. split; simpl.
  - done.
  - by rewrite (met_specs skip p bt met Hmet).
  - intros b Hb. by destruct (Hof b Hb) as (w & _ & _ & Hok & _).
  - intros b Hb. destruct (Hof b Hb) as (w & Hk & _ & _ & i & spec & Hi & Hspec & _ & Hw). simpl in *.
    destruct (Hmark _ w Hk) as (_ & i2 & _ & Hi2 & Hi'). exists (marked i2 w), spec. simpl.
    split; [done|]. split; [done|]. destruct w; simpl; [right; tauto|left; tauto].
  - intros k. rewrite (met_specs skip p bt met Hmet). unfold available. simpl.
    destruct (ep_bin_provider p k); simpl; [done|]. case_bool_decide as Hk.
    + apply list_elem_of_fmap in Hk as ([k' w] & -> & Hk). simpl.
      destruct (Hmark k' w Hk) as (_ & i & _ & _ & ->). rewrite orb_true_r. by destruct w.
    + rewrite Hout by done. by rewrite orb_false_r.
  - by apply marks_progress with skip bt met.
Qed.

(** Every outcome of an iteration. *)
Definition iteration_ok (skip : bool) (p p' : ExecPlan) (r : option (BuildPhase + PlanErr)) : Prop :=
  plan_ok p' /\ ep_graph p' = ep_graph p /\ ep_bin_provider p' = ep_bin_provider p /\
  ep_toplevels p' = ep_toplevels p /\
  match r with
  | None => grown p p' /\
      forall t k, t ∈ ep_toplevels p -> rtc (child_of (runtime_children (ep_graph p))) t k ->
        satisfied (ep_builds p') k = true
  | Some (inl phase) => phase_ok skip p p' (phase_builds phase)
  | Some (inr (Cycles cs)) => grown p p' /\ cycles_reported (ep_graph p) cs
  end.

Lemma phase_ok_grown skip p p1 p' bs : grown p p1 -> phase_ok skip p1 p' bs -> phase_ok skip p p' bs.
Proof.
  intros Hg [P1 P2 P3 P4 P5 P6]. pose proof (grown_weight p p1 Hg). split; [done|done| | | |lia].
  - intros b Hb. apply (grown_build_ok p p1); auto.
  - intros b Hb. destruct (P4 b Hb) as (i & spec & Hi & Hspec & Hst). exists i, spec.
    destruct Hg as (<- & _). done.
  - intros k. by rewrite P5, (grown_available p p1).
Qed.

Lemma builds_entries p k i : plan_ok p -> (k, i) ∈ ep_builds p -> im_get (ep_builds p) k = Some i.
Proof. intros Hp. apply im_get_Some_iff, (ok_wf p Hp). Qed.

Lemma next_spec_aux skip fuel : forall p,
  plan_ok p -> breakers_acyclic (ep_graph p) ->
  (unplanned (ep_graph p) (ep_builds p) < fuel)%nat ->
  exists p' r, next fuel skip p = Done (p', r) /\ iteration_ok skip p p' r.
Proof.
  induction fuel as [|fuel IH]; intros p Hp Hac Hfuel; [lia|]. cbn [next].
  destruct (finished_spec_aux p Hp) as (fin & Efin & Hfin). rewrite Efin, bind_Done. destruct fin.
  { exists p, None. split; [done|]. split; [done|]. do 3 (split; [done|]). split; [apply grown_refl|].
    intros t k Ht Hr. destruct Hfin as [Hsat _]. by apply (Hsat eq_refl t). }
  destruct (consider_all skip p Hp Hac (ep_builds p) ([], [])) as (bt & met & -> & Hsub & Hmet & Hleft).
  { intros k i. by apply builds_entries. }
  rewrite bind_Done. cbn [fst snd app]. destruct met as [|b0 met].
  - destruct (find_cycles_spec p Hp Hac) as (found & Efound & Hfound). rewrite Efound, bind_Done.
    destruct (filter_unbuilt_spec p found Hp Hac Hfound) as (cs & Ecs & Hcs). rewrite Ecs, bind_Done.
    assert (Hcyc : forall q, q ∈ cs -> is_cycle (ep_graph p) q) by auto.
    destruct (add_breakers_spec p cs Hp Hcyc) as ([m' flag] & -> & Hok & Hgr & Hle & Hflag).
    rewrite bind_Done. cbn [fst snd] in *. destruct flag; cbn [negb].
    + destruct (IH (set_builds p m') Hok Hac) as (p' & r & -> & Hp' & E1 & E2 & E3 & Hr).
      { simpl. lia. }
      exists p', r. split; [done|]. split; [done|]. do 3 (split; [done|]).
      destruct r as [[ph|[cs']]|]; [by apply (phase_ok_grown skip p (set_builds p m'))| |];
        (destruct Hr as [Hgr' Hr]; split; [by apply grown_trans with (set_builds p m')|done]).
    + eexists _, _. split; [reflexivity|]. split; [done|]. do 3 (split; [done|]). split; [done|]. split; [done|].
      apply Forall2_nil_inv_r in Hmet as ->. apply (stuck_reports p found cs Hp Hac Efin); [|done|done].
      intros k i Hi%im_get_elem. by destruct (Hleft k i Hi) as [?%elem_of_nil|?].
  - destruct (phase_from_met skip p bt (b0 :: met) Hp) as (m' & -> & Hok & Hph).
    + eapply sublist_NoDup; [apply (ok_wf p Hp)|done].
    + done.
    + done.
    + rewrite bind_Done. eexists _, _. split; [reflexivity|]. split; [done|]. by do 3 (split; [done|]).
Qed.

Lemma next_fuel_enough p : (unplanned (ep_graph p) (ep_builds p) < next_fuel p)%nat.
Proof.
  unfold unplanned, next_fuel. rewrite <- graph_set_size.
  assert (size (graph_set (ep_graph p) ∖ list_to_set (ep_builds p).*1) <= size (graph_set (ep_graph p)))%nat
    by (apply subseteq_size; set_solver).
  lia.
Qed.

(** ** The plan to its end *)

(** How [root] gets its dependency [d] when the specs [usable] are at hand:
    [dep] names [d] itself, or, where [d] is not at hand, something its chain of
    replacements leads to; it says whether that is in the cache or was built,
    and asks for exactly the outputs that are needed of [d]. *)
Definition supplied (g : Graph) (bp : BinProvider) (usable : BuildSpecRef -> Prop) (root d : BuildSpecRef)
    (dep : PlannerDep) : Prop :=
  usable (dep_bsr dep) /\ rtc (breaker_edge g) d (dep_bsr dep) /\
  match dep_cycle_breaker dep with None => dep_bsr dep = d | Some x => x = d /\ ~ usable d end /\
  match dep with Cached x _ _ => bp x = true | Built x _ _ _ => bp x = false end /\
  entry_for (Some {| td_needed_by := []; td_outputs := dep_outputs dep |}) (needs g root true d).

(** A build is given what its spec needs, as the graph declares it, and
    nothing else.  Only a spec that unpacks an archive and runs no command is
    given nothing. *)
Definition fed (g : Graph) (bp : BinProvider) (usable : BuildSpecRef -> Prop) (b : Build) : Prop :=
  exists spec, graph_get g (b_spec b) = Some spec /\
    if is_pure_prebuilt spec then b_with_deps b = []
    else (forall d o, needs g (b_spec b) true d o ->
            exists dep, dep ∈ b_with_deps b /\ supplied g bp usable (b_spec b) d dep) /\
         (forall dep, dep ∈ b_with_deps b -> exists d o, needs g (b_spec b) true d o /\ supplied g bp usable (b_spec b) d dep).

(** Phases in dependency order, given what is usable at the start: every
    build of a phase is fed from what was usable before the phase. *)
Fixpoint phases_ordered (g : Graph) (bp : BinProvider) (usable : BuildSpecRef -> Prop) (phases : list BuildPhase)
    : Prop :=
  match phases with
  | [] => True
  | ph :: phases =>
      (forall b, b ∈ phase_builds ph -> fed g bp usable b) /\
      phases_ordered g bp (fun k => usable k \/ k ∈ map b_spec (phase_builds ph)) phases
  end.

Lemma fed_ext g bp (U U' : BuildSpecRef -> Prop) b : (forall k, U k <-> U' k) -> fed g bp U b -> fed g bp U' b.
Proof.
  intros HU (spec & Hs & Hfed). exists spec. split; [done|]. destruct (is_pure_prebuilt spec); [done|].
  assert (Hsup : forall d dep, supplied g bp U (b_spec b) d dep -> supplied g bp U' (b_spec b) d dep).
  { intros d dep (H1 & H2 & H3 & H4). split; [by apply HU|]. split; [done|]. split; [|done].
    destruct (dep_cycle_breaker dep); [|done]. by rewrite <- HU. }
  destruct Hfed as [F1 F2]. split.
  - intros d o Hn. destruct (F1 d o Hn) as (dep & Hin & Hd). eauto.
  - intros dep Hin. destruct (F2 dep Hin) as (d & o & Hn & Hd). eauto.
Qed.

Lemma phases_ordered_ext g bp (U U' : BuildSpecRef -> Prop) phases :
  (forall k, U k <-> U' k) -> phases_ordered g bp U phases -> phases_ordered g bp U' phases.
Proof.
  revert U U'. induction phases as [|ph phases IH]; intros U U' HU; simpl; [done|].
  intros [Hd Hrest]. split; [intros b Hb; by apply (fed_ext g bp U); auto|].
  eapply IH; [|exact Hrest]. intros k. simpl. by rewrite HU.
Qed.

(** What the finished plan guarantees. *)
Definition plan_result_ok (p : ExecPlan) (r : list BuildPhase + PlanErr) : Prop :=
  match r with
  | inl phases =>
      phases_ordered (ep_graph p) (ep_bin_provider p) (fun k => available p k = true) phases /\
      (forall t k, t ∈ ep_toplevels p -> rtc (child_of (runtime_children (ep_graph p))) t k ->
         available p k = true \/ exists ph b, ph ∈ phases /\ b ∈ phase_builds ph /\ b_spec b = k)
  | inr (Cycles cs) => cycles_reported (ep_graph p) cs
  end.

Lemma build_ok_fed p b : build_ok p b -> fed (ep_graph p) (ep_bin_provider p) (fun k => available p k = true) b.
Proof.
  intros (spec & Hspec & _ & Hdeps). exists spec. split; [done|]. destruct (is_pure_prebuilt spec); [done|].
  assert (Hsup : forall d dep, supplies p (b_spec b) d dep ->
    supplied (ep_graph p) (ep_bin_provider p) (fun k => available p k = true) (b_spec b) d dep).
  { intros d dep [(H1 & H2 & H3 & H4) He]. split; [done|]. split; [done|]. split; [|split; [|done]].
    - destruct (dep_cycle_breaker dep); [|done]. by rewrite not_true_iff_false.
    - by destruct dep; [|destruct H4]. }
  destruct Hdeps as [D1 D2]. split.
  - intros d o Hn. destruct (D1 d o Hn) as (dep & Hin & Hd). eauto.
  - intros dep Hin. destruct (D2 dep Hin) as (d & Hd). pose proof Hd as [_ [[o Ho] _]]. exists d, o. eauto.
Qed.

Lemma collect_plan_spec env fuel : forall p,
  plan_ok p -> breakers_acyclic (ep_graph p) ->
  (total_weight (ep_graph p) (ep_builds p) < fuel)%nat ->
  exists r, collect_plan fuel env p = Done r /\ plan_result_ok p r.
Proof.
  induction fuel as [|fuel IH]; intros p Hp Hac Hfuel; [lia|]. cbn [collect_plan].
  destruct (next_spec_aux (unsafe_skip_double_builds env) (next_fuel p) p Hp Hac (next_fuel_enough p))
    as (p' & r & -> & Hp' & E1 & E2 & E3 & Hr).
  rewrite bind_Done. cbn [fst snd]. destruct r as [[ph|[cs]]|].
  - destruct Hr as [P1 P2 P3 P4 P5 P6].
    destruct (IH p' Hp') as (rest & -> & Hrest); [by rewrite E1|lia|]. rewrite bind_Done.
    eexists. split; [reflexivity|]. destruct rest as [phases|[cs]]; simpl in *; rewrite E1 in Hrest.
    2:{ done. }
    rewrite E2, E3 in Hrest. destruct Hrest as (Hord & Hcov). split; [split|].
    + intros b Hb. by apply build_ok_fed, P3.
    + eapply phases_ordered_ext; [|exact Hord]. intros k. simpl. by rewrite P5, orb_true_iff, bool_decide_eq_true.
    + intros t k Ht Hreach. destruct (Hcov t k Ht Hreach) as [Hav|(ph' & b & Hph & Hb & Hk)].
      * rewrite P5 in Hav. apply orb_true_iff in Hav as [Hav|Hav]; [by left|right].
        apply bool_decide_eq_true_1 in Hav. apply list_elem_of_fmap in Hav as (b & -> & Hb).
        exists ph, b. split; [left|done].
      * right. exists ph', b. split; [by right|done].
  - eexists. split; [reflexivity|]. by destruct Hr as [_ Hr].
  - eexists. split; [reflexivity|]. split; [done|]. intros t k Ht Hreach. left.
    destruct Hr as [Hgr Hr]. specialize (Hr t k Ht Hreach).
    rewrite <- (grown_available p p') by done. unfold available, satisfied in *.
    destruct (im_get (ep_builds p') k) as [i|]; [|done]. destruct (bi_state i); try done;
      apply orb_true_r.
Qed.

Lemma plan_fuel_enough p : (total_weight (ep_graph p) (ep_builds p) < plan_fuel p)%nat.
Proof. pose proof (total_weight_bound (ep_graph p) (ep_builds p)). unfold plan_fuel. lia. Qed.

Lemma with_toplevels_ok bp g tops p :
  graph_closed g -> (forall t, t ∈ tops -> is_Some (graph_get g t)) ->
  with_toplevels bp g tops = Done p ->
  plan_ok p /\ ep_graph p = g /\ ep_bin_provider p = bp /\
  (forall t, t ∈ tops -> t ∈ ep_toplevels p) /\ forall k, available p k = bp k.
Proof.
  intros Hg Htops Hrun.
  destruct (with_toplevels_reached g bp Hg tops Htops) as (p' & Hrun' & E1 & E2 & H1 & H2 & H3 & H4 & H5).
  rewrite Hrun in Hrun'. injection Hrun' as <-. split.
  - split; rewrite ?E1, ?E2; [done| |done|done|intros d Hd; apply H2, H1; by right]. split; [done|].
    intros k i Hi%im_get_elem. destruct (H5 k i Hi) as ((b & Hb & ->) & _). by apply fresh_wf.
  - do 2 (split; [done|]). split; [intros; apply H1; by left|]. intros k. unfold available. rewrite E2.
    destruct (im_get (ep_builds p) k) as [i|] eqn:Hi; [|apply orb_false_r].
    apply im_get_elem in Hi. destruct (H5 k i Hi) as ((b & Hb & ->) & _). simpl.
    by destruct (bp k).
Qed.

(** ** Claims *)

(** The states of a plan: the initial one, and those its phases lead to. *)
Inductive planning (skip : bool) (bp : BinProvider) (g : Graph) (tops : list BuildSpecRef)
    : ExecPlan -> Prop :=
| planning_start p : with_toplevels bp g tops = Done p -> planning skip bp g tops p
| planning_phase p p' phase :
    planning skip bp g tops p -> next (next_fuel p) skip p = Done (p', Some (inl phase)) ->
    planning skip bp g tops p'.

Lemma planning_ok skip bp g tops p :
  graph_closed g -> breakers_acyclic g -> (forall t, t ∈ tops -> is_Some (graph_get g t)) ->
  planning skip bp g tops p -> plan_ok p /\ ep_graph p = g /\ ep_bin_provider p = bp.
Proof.
  intros Hg Hac Htops. induction 1 as [p Hrun|p p' ph _ IH Hrun].
  - destruct (with_toplevels_ok bp g tops p Hg Htops Hrun) as (H1 & H2 & H3 & _). done.
  - destruct IH as (Hp & E1 & E2).
    destruct (next_spec_aux skip (next_fuel p) p Hp) as (p1 & r & Hrun' & Hp1 & F1 & F2 & _).
    { by rewrite E1. } { apply next_fuel_enough. }
    rewrite Hrun in Hrun'. injection Hrun' as <- <-. by rewrite F1, F2.
Qed.

(** [ExecPlan::finished] in every state of every plan returns (no
    [unwrap] fails, the recursion stops), and answers [true] exactly when
    every toplevel and every spec reachable from one through runtime
    dependencies is fully built or fetched. *)
Theorem finished_exact skip bp g tops p :
  graph_closed g -> breakers_acyclic g -> (forall t, t ∈ tops -> is_Some (graph_get g t)) ->
  planning skip bp g tops p ->
  exists r, finished p = Done r /\
    (r = true <-> forall t k, t ∈ ep_toplevels p ->
       rtc (fun x y => y ∈ runtime_children g x) t k -> satisfied (ep_builds p) k = true).
Proof.
  intros Hg Hac Htops Hpl. destruct (planning_ok skip bp g tops p Hg Hac Htops Hpl) as (Hp & <- & _).
  by apply finished_spec_aux.
Qed.

(** One iteration of the plan.  In every state of every plan over a
    well-formed graph whose replacement chains end, [ExecPlan::next] returns:
    either nothing is left and every runtime dependency of the toplevels is
    final; or a non-empty phase of distinct specs, each fed only from the
    cache or from earlier phases (with every dependency it needs, and exactly
    the outputs asked for), each moving to a later state, and a build that
    used a replacement marked to be redone; or an error that lists genuine
    dependency cycles ([cycles_reported]).  The plan's invariant is kept. *)
Theorem next_iteration skip bp g tops p :
  graph_closed g -> breakers_acyclic g -> (forall t, t ∈ tops -> is_Some (graph_get g t)) ->
  planning skip bp g tops p ->
  exists p' r, next (next_fuel p) skip p = Done (p', r) /\ iteration_ok skip p p' r.
Proof.
  intros Hg Hac Htops Hpl. destruct (planning_ok skip bp g tops p Hg Hac Htops Hpl) as (Hp & E & _).
  apply next_spec_aux; [done|by rewrite E|apply next_fuel_enough].
Qed.

Lemma plan_complete_aux env bp g tops :
  graph_closed g -> breakers_acyclic g -> (forall t, t ∈ tops -> is_Some (graph_get g t)) ->
  exists p r, with_toplevels bp g tops = Done p /\ collect_plan (plan_fuel p) env p = Done r /\
    match r with
    | inl phases =>
        phases_ordered g bp (fun k => bp k = true) phases /\
        (forall t k, t ∈ tops -> rtc (fun x y => y ∈ runtime_children g x) t k ->
           bp k = true \/ exists ph b, ph ∈ phases /\ b ∈ phase_builds ph /\ b_spec b = k)
    | inr (Cycles cs) => cycles_reported g cs
    end.
Proof.
  intros Hg Hac Htops. destruct (with_toplevels_reached g bp Hg tops Htops) as (p & Hrun & _).
  destruct (with_toplevels_ok bp g tops p Hg Htops Hrun) as (Hp & E1 & E2 & Ht & Hav).
  destruct (collect_plan_spec env (plan_fuel p) p Hp) as (r & Hcoll & Hr).
  { by rewrite E1. } { apply plan_fuel_enough. }
  exists p, r. do 2 (split; [done|]). destruct r as [phases|[cs]]; simpl in Hr; rewrite E1 in Hr; [|done].
  rewrite E2 in Hr. destruct Hr as (Hord & Hcov). split.
  - eapply phases_ordered_ext; [|exact Hord]. intros k. simpl. by rewrite Hav.
  - intros t k Htt Hreach. rewrite <- Hav. apply (Hcov t k); auto.
Qed.
(** C21: on a graph whose references resolve and where no spec is, through
    any chain, its own replacement, planning always ends, in at most two phases
    per spec of the graph.  A plan is in dependency order as the graph declares
    it: every build gets, for each spec its build and run-time dependencies
    reach, the spec itself or the end of its chain of replacements, taken from
    the cache or from a strictly earlier phase and with exactly the outputs
    asked for, and nothing more (only a spec that just unpacks an archive gets
    nothing); and every toplevel, with every spec it needs at run time, is in
    the cache or built by some phase.  An error lists genuine dependency
    cycles, and at least one of them unless what cannot be built needs itself
    through an implicit dependency on an internet provider. *)
Theorem plan_complete env bp g tops :
  graph_closed g -> breakers_acyclic g -> (forall t, t ∈ tops -> is_Some (graph_get g t)) ->
  exists p r, with_toplevels bp g tops = Done p /\ collect_plan (plan_fuel p) env p = Done r /\
    match r with
    | inl phases =>
        phases_ordered g bp (fun k => bp k = true) phases /\
        (forall t k, t ∈ tops -> rtc (fun x y => y ∈ runtime_children g x) t k ->
           bp k = true \/ exists ph b, ph ∈ phases /\ b ∈ phase_builds ph /\ b_spec b = k)
    | inr (Cycles cs) => cycles_reported g cs
    end.
Proof. apply plan_complete_aux. Qed.
End plan.

(** ** A bootstrap *)

(** Replacements that point to later slots cannot be circular. *)
Definition breakers_forward `{Arena} (g : Graph) : bool :=
  forallb (fun p => match bs_replace_on_cycle p.2 with
    | Some c => (ix_slot p.1 <? ix_slot c)%nat
    | None => true
    end) (graph_iter g).

Lemma breakers_forward_ok `{Arena} (g : Graph) : breakers_forward g = true -> breakers_acyclic g.
Proof.
  unfold breakers_forward. rewrite forallb_forall. intros Hall x Hx.
  assert (Hedge : forall a b, breaker_edge g a b -> (ix_slot a < ix_slot b)%nat).
  { intros a b (sp & Hsp & Hb). apply arena_iter_elem in Hsp.
    specialize (Hall (a, sp)). rewrite <- list_elem_of_In in Hall. specialize (Hall Hsp).
    simpl in Hall. rewrite Hb in Hall. by apply Nat.ltb_lt. }
  assert (Hlt : forall a b, tc (breaker_edge g) a b -> (ix_slot a < ix_slot b)%nat).
  { induction 1 as [a b Hab|a b c Hab _ IH]; [auto|]. specialize (Hedge a b Hab). lia. }
  specialize (Hlt x x Hx). lia.
Qed.

(** The compiler (0) and the C library (1) need each other; the bootstrap
    compiler (2) breaks the cycle; the shell (3) needs both. *)
Definition bootstrap_graph : Graph :=
  {| g_builds :=
       [ {| bs_name := "gcc"; bs_prebuilt := false; bs_cmds := [["make"%string]];
            bs_build_args := None; bs_build_deps := [BdBuild (nth_ref 1)];
            bs_runtime_deps := [];
            bs_abstract_deps := []; bs_outputs := []; bs_replace_on_cycle := Some (nth_ref 2);
            bs_attrs := []; bs_tests := None |};
         plain_spec "libc" [BdBuild (nth_ref 0)] [];
         {| bs_name := "bootstrap-gcc"; bs_prebuilt := true; bs_cmds := [];
            bs_build_args := None; bs_build_deps := []; bs_runtime_deps := [];
            bs_abstract_deps := []; bs_outputs := []; bs_replace_on_cycle := None;
            bs_attrs := []; bs_tests := None |};
         plain_spec "sh" [BdBuild (nth_ref 0)]
           [RdSubset {| sub_from := nth_ref 1; sub_outputs := ["libs"%string] |}] ];
     g_top_levels := [nth_ref 3] |}.

Definition no_env : string -> option string := fun _ => None.

(** The plan of the bootstrap, by the specs of each phase and whether each
    build is free of replacements: the C library is built twice, and so is the
    shell, which was first built with the bootstrap compiler in reach. *)
Example bootstrap_plan :
  (p ← with_toplevels bp_unit bootstrap_graph [nth_ref 3];
   r ← collect_plan (plan_fuel p) no_env p;
   Done (match r with
         | inl phases => map (fun ph => map (fun b => (ix_slot (b_spec b), full_build b))
                                          (phase_builds ph)) phases
         | inr _ => []
         end))
  = Done [[(2%nat, true)]; [(1%nat, false)]; [(3%nat, false); (0%nat, true)];
          [(3%nat, true); (1%nat, true)]].
Proof. vm_compute. reflexivity. Qed.

(** An internet provider (0) that asks for the internet itself: nothing can be
    built, and the error names no cycle. *)
Definition offline_graph : Graph :=
  {| g_builds :=
       [ {| bs_name := "ca-certificates"; bs_prebuilt := false; bs_cmds := [["make"%string]];
            bs_build_args := None; bs_build_deps := []; bs_runtime_deps := [];
            bs_abstract_deps := [("internet"%string, AttrBool true)]; bs_outputs := [];
            bs_replace_on_cycle := None; bs_attrs := [("needed_for_internet"%string, AttrBool true)];
            bs_tests := None |} ];
     g_top_levels := [nth_ref 0] |}.

Example unreported_cycle :
  (p ← with_toplevels bp_unit offline_graph [nth_ref 0]; collect_plan (plan_fuel p) no_env p)
  = Done (inr (Cycles [])).
Proof. vm_compute. reflexivity. Qed.

(** Two specs that replace each other: the search for a stand-in does not end,
    whatever the fuel. *)
Definition mutual_graph : Graph :=
  let spec name other :=
    {| bs_name := name; bs_prebuilt := false; bs_cmds := [["make"%string]];
       bs_build_args := None; bs_build_deps := [BdBuild other]; bs_runtime_deps := [];
       bs_abstract_deps := []; bs_outputs := []; bs_replace_on_cycle := Some other;
       bs_attrs := []; bs_tests := None |} in
  {| g_builds := [ spec "stage1" (nth_ref 1); spec "stage2" (nth_ref 0) ]; g_top_levels := [nth_ref 0] |}.

Definition mutual_start : ExecPlan :=
  match with_toplevels bp_unit mutual_graph [nth_ref 0] with
  | Done p => p
  | _ => {| ep_graph := mutual_graph; ep_bin_provider := bp_unit; ep_toplevels := []; ep_builds := [] |}
  end.

Example circular_replacement fuel :
  dep_candidate fuel mutual_start (nth_ref 0) true = OutOfFuel /\
  dep_candidate fuel mutual_start (nth_ref 1) true = OutOfFuel.
Proof.
  induction fuel as [|fuel [IH0 IH1]]; [done|]. split.
  - change ((r ← dep_candidate fuel mutual_start (nth_ref 1) true;
      Done (option_map (fun d => with_breaker_for d (Some (nth_ref 0))) r)) = OutOfFuel). by rewrite IH1.
  - change ((r ← dep_candidate fuel mutual_start (nth_ref 0) true;
      Done (option_map (fun d => with_breaker_for d (Some (nth_ref 1))) r)) = OutOfFuel). by rewrite IH0.
Qed.

(** ** Witnesses *)

Lemma bootstrap_closed : graph_closed bootstrap_graph.
Proof. apply graph_closedb_ok. vm_compute. reflexivity. Qed.

Lemma bootstrap_acyclic : breakers_acyclic bootstrap_graph.
Proof. apply breakers_forward_ok. vm_compute. reflexivity. Qed.

Lemma bootstrap_tops t : t ∈ [nth_ref 3] -> is_Some (graph_get bootstrap_graph t).
Proof. intros ->%list_elem_of_singleton. vm_compute. eexists. reflexivity. Qed.

(** The plan at its start. *)
Definition bootstrap_start : ExecPlan :=
  match with_toplevels bp_unit bootstrap_graph [nth_ref 3] with
  | Done p => p
  | _ => {| ep_graph := bootstrap_graph; ep_bin_provider := bp_unit; ep_toplevels := [];
            ep_builds := [] |}
  end.

Lemma bootstrap_planning : planning false bp_unit bootstrap_graph [nth_ref 3] bootstrap_start.
Proof. apply planning_start. vm_compute. reflexivity. Qed.

Lemma finished_exact_witness :
  exists r, finished bootstrap_start = Done r /\
    (r = true <-> forall t k, t ∈ ep_toplevels bootstrap_start ->
       rtc (fun x y => y ∈ runtime_children bootstrap_graph x) t k ->
       satisfied (ep_builds bootstrap_start) k = true).
Proof.
  apply (finished_exact false bp_unit bootstrap_graph [nth_ref 3] bootstrap_start
    bootstrap_closed bootstrap_acyclic bootstrap_tops bootstrap_planning).
Defined.

Lemma next_iteration_witness :
  exists p' r, next (next_fuel bootstrap_start) false bootstrap_start = Done (p', r) /\
    iteration_ok false bootstrap_start p' r.
Proof.
  apply (next_iteration false bp_unit bootstrap_graph [nth_ref 3] bootstrap_start
    bootstrap_closed bootstrap_acyclic bootstrap_tops bootstrap_planning).
Defined.

Lemma plan_complete_witness :
  exists p r, with_toplevels bp_unit bootstrap_graph [nth_ref 3] = Done p /\
    collect_plan (plan_fuel p) no_env p = Done r /\
    match r with
    | inl phases =>
        phases_ordered bootstrap_graph bp_unit (fun k => bp_unit k = true) phases /\
        (forall t k, t ∈ [nth_ref 3] -> rtc (fun x y => y ∈ runtime_children bootstrap_graph x) t k ->
           bp_unit k = true \/ exists ph b, ph ∈ phases /\ b ∈ phase_builds ph /\ b_spec b = k)
    | inr (Cycles cs) => cycles_reported bootstrap_graph cs
    end.
Proof.
  apply (plan_complete no_env bp_unit bootstrap_graph [nth_ref 3]
    bootstrap_closed bootstrap_acyclic bootstrap_tops).
Defined.
