(* ===== verification/Orchestrator.v ===== *)
(** * Orchestration state (crates/orchestrator/src/state.rs, ids.rs)

    A plan becomes a set of deliverables: builds, subsets of builds and cache
    fills, each with references to what it needs.  [spec_hash] and
    [subset_hash] are [Graph::spec_hash] and [Graph::subset_hash], which the
    state only stores. *)

From stdpp Require Import base list gmap strings numbers sorting.
From Stdlib Require Import ZArith Lia SpecFloat.
From S2P Require Import Prelude Text GraphModel Transitives Planner.
Open Scope Z_scope.

Definition SpecHash : Type := Hash.

(** [DeliverableRef]: a newtype of the arena index. *)
Abbreviation DeliverableRef := Index (only parsing).

Inductive DeliverableInner : Type :=
| DBuild (bsr : BuildSpecRef) (spec_hash : SpecHash) (full : bool) (cost : Z)
    (dependencies : list DeliverableRef)
| DSubset (subset : SubsetInput) (spec_hash : SpecHash) (build : DeliverableRef)
| DCacheFill (bsr : BuildSpecRef) (spec_hash : SpecHash).

(** [DeliverableInner::build_deps]. *)
Definition di_build_deps (i : DeliverableInner) : option (list DeliverableRef) :=
  match i with DBuild _ _ _ _ dependencies => Some dependencies | _ => None end.

(** [DeliverableState]; the abort handle of a running task is not modelled. *)
Inductive DeliverableState (A : Type) : Type :=
| Pending
| InProgress
| Complete (artifact : A).
Arguments Pending {A}.
Arguments InProgress {A}.
Arguments Complete {A} _.

Record Deliverable (A : Type) : Type := {
  d_inner : DeliverableInner;
  d_state : DeliverableState A;
  d_depended_on_by : Z;
}.
Arguments d_inner {A} _.
Arguments d_state {A} _.
Arguments d_depended_on_by {A} _.
Arguments Build_Deliverable {A} _ _ _.

(** [String]'s order is that of its bytes. *)
Definition string_le (a b : string) : Prop := String.leb a b = true.
#[global] Instance string_le_dec : RelDecision string_le.
Proof. unfold string_le. intros a b. apply _. Defined.

(** [SubsetInput::from((bsr, outputs))]. *)
Definition subset_of (bsr : BuildSpecRef) (outputs : gset string) : SubsetInput :=
  {| sub_from := bsr; sub_outputs := vec_dedup (merge_sort string_le (elements outputs)) |}.

(** [f64::floor] and the saturating [as usize] cast. *)
Definition floor_as_usize (n : spec_float) : Z :=
  match n with
  | S754_zero _ | S754_nan => 0
  | S754_infinity neg => if neg then 0 else 18446744073709551615
  | S754_finite neg m e =>
      if neg then 0
      else Z.min 18446744073709551615
             (if 0 <=? e then Zpos m * 2 ^ e else Zpos m / 2 ^ (- e))
  end.

(** The parallelism a spec's build takes. *)
Definition build_cost (b : BuildSpec) : Z :=
  match im_get (bs_attrs b) "build_cost_multiple" with
  | Some (AttrNumber n) => floor_as_usize n
  | _ => 1
  end.

Section state.
Context `{Arena} `{HashIter}.
Context (A : Type).
Context (spec_hash : BuildSpecRef -> SpecHash) (subset_hash : SubsetInput -> SpecHash).

(** [StateInner]. *)
Record StateInner : Type := {
  si_deliverables : arena (Deliverable A);
  si_fills_by_ref : gmap BuildSpecRef DeliverableRef;
  si_builds_by_ref : gmap BuildSpecRef (list (option nat * DeliverableRef));
  si_subsets_by_ref : gmap SubsetInput DeliverableRef;
}.

(** [StateInner::new]. *)
Definition state_new : StateInner :=
  {| si_deliverables := arena_empty; si_fills_by_ref := ∅; si_builds_by_ref := ∅;
     si_subsets_by_ref := ∅ |}.

(** [StateInner::get]. *)
Definition state_get (s : StateInner) (dr : DeliverableRef) : option (Deliverable A) :=
  arena_get (si_deliverables s) dr.

(** [StateInner::insert]. *)
Definition state_insert (s : StateInner) (phase_idx : option nat) (di : DeliverableInner)
    : StateInner * DeliverableRef :=
  let '(ds, dr) := arena_insert (si_deliverables s)
    {| d_inner := di; d_state := Pending; d_depended_on_by := 0 |} in
  (match di with
   | DCacheFill bsr _ =>
       {| si_deliverables := ds; si_fills_by_ref := <[bsr := dr]> (si_fills_by_ref s);
          si_builds_by_ref := si_builds_by_ref s; si_subsets_by_ref := si_subsets_by_ref s |}
   | DBuild bsr _ _ _ _ =>
       {| si_deliverables := ds; si_fills_by_ref := si_fills_by_ref s;
          si_builds_by_ref :=
            match si_builds_by_ref s !! bsr with
            | None => <[bsr := [(phase_idx, dr)]]> (si_builds_by_ref s)
            | Some v => <[bsr := v ++ [(phase_idx, dr)]]> (si_builds_by_ref s)
            end;
          si_subsets_by_ref := si_subsets_by_ref s |}
   | DSubset subset _ _ =>
       {| si_deliverables := ds; si_fills_by_ref := si_fills_by_ref s;
          si_builds_by_ref := si_builds_by_ref s;
          si_subsets_by_ref := <[subset := dr]> (si_subsets_by_ref s) |}
   end, dr).

(** [StateInner::get_built]. *)
Definition get_built (s : StateInner) (phase_less_than : option nat) (bsr : BuildSpecRef)
    : option (list DeliverableRef) :=
  option_map (filter_map (fun e : option nat * DeliverableRef =>
    match e.1, phase_less_than with
    | None, _ => Some e.2
    | Some idx, Some lt => if (idx <? lt)%nat then Some e.2 else None
    | Some _, None => Some e.2
    end)) (si_builds_by_ref s !! bsr).

(** [.get_built(..).map(|v| v.last().unwrap()).copied()]. *)
Definition last_built (s : StateInner) (phase_less_than : option nat) (bsr : BuildSpecRef)
    : outcome (option DeliverableRef) :=
  match get_built s phase_less_than bsr with
  | None => Done None
  | Some v => dr ← unwrap (last v); Done (Some dr)
  end.

(** [StateInner::done]. *)
Definition is_complete (d : Deliverable A) : bool :=
  match d_state d with Complete _ => true | _ => false end.
Definition state_done (s : StateInner) : bool :=
  forallb (fun e => is_complete e.2) (arena_iter (si_deliverables s)).

(** What a deliverable waits for. *)
Definition depends_on (i : DeliverableInner) : list DeliverableRef :=
  match i with
  | DCacheFill _ _ => []
  | DSubset _ _ build => [build]
  | DBuild _ _ _ _ dependencies => dependencies
  end.

(** [StateInner::runnable]; a reference to nothing panics. *)
Definition deps_complete (s : StateInner) (i : DeliverableInner) : outcome bool :=
  r ← allM (fun (u : unit) dr => d ← unwrap (state_get s dr); Done (u, is_complete d)) tt (depends_on i);
  Done r.2.

Definition state_runnable (s : StateInner) : outcome (list DeliverableRef) :=
  foldM (fun (acc : list DeliverableRef) (e : Index * Deliverable A) =>
    match d_state e.2 with
    | Pending => sat ← deps_complete s (d_inner e.2);
                 Done (if sat : bool then acc ++ [e.1] else acc)
    | _ => Done acc
    end) [] (arena_iter (si_deliverables s)).

(** ** From a plan *)

(** [inner.get_subset(&subset).copied().unwrap_or_else(..)]. *)
Definition subset_or_insert (s : StateInner) (subset : SubsetInput) (hash : SpecHash)
    (build : DeliverableRef) : StateInner * DeliverableRef :=
  match si_subsets_by_ref s !! subset with
  | Some dr => (s, dr)
  | None => state_insert s None (DSubset subset hash build)
  end.

(** One dependency of a build of phase [pi], in [State::from_plan]. *)
Definition wire_dep (pi : nat) (s : StateInner) (d : PlannerDep)
    : outcome (StateInner * DeliverableRef) :=
  match d with
  | Cached bsr _ outputs =>
      let '(s, fill) :=
        match si_fills_by_ref s !! bsr with
        | Some dr => (s, dr)
        | None => state_insert s None (DCacheFill bsr (spec_hash bsr))
        end in
      match outputs with
      | None => Done (s, fill)
      | Some outputs => Done (subset_or_insert s (subset_of bsr outputs) (spec_hash bsr) fill)
      end
  | Built bsr _ _ outputs =>
      b ← last_built s (Some pi) bsr;
      build ← unwrap b;
      match outputs with
      | None => Done (s, build)
      | Some outputs =>
          let subset := subset_of bsr outputs in
          Done (subset_or_insert s subset (subset_hash subset) build)
      end
  end.

Definition wire_deps (pi : nat) (s : StateInner) (deps : list PlannerDep)
    : outcome (StateInner * list DeliverableRef) :=
  foldM (fun (acc : StateInner * list DeliverableRef) d =>
    r ← wire_dep pi acc.1 d; Done (r.1, acc.2 ++ [r.2])) (s, []) deps.

Definition add_build (g : Graph) (pi : nat) (s : StateInner) (b : Build) : outcome StateInner :=
  spec ← unwrap (graph_get g (b_spec b));
  r ← wire_deps pi s (b_with_deps b);
  Done (state_insert r.1 (Some pi)
    (DBuild (b_spec b) (spec_hash (b_spec b)) (full_build b) (build_cost spec) r.2)).1.

Definition add_phase (g : Graph) (s : StateInner) (e : nat * BuildPhase) : outcome StateInner :=
  foldM (add_build g e.1) s (phase_builds e.2).

(** One transitive dependency of the toplevels. *)
Definition represent (s : StateInner) (e : BuildSpecRef * TDep) : outcome StateInner :=
  let '(bsr, dep) := e in
  let bsr_represented := bool_decide (is_Some (si_builds_by_ref s !! bsr))
                         || bool_decide (is_Some (si_fills_by_ref s !! bsr)) in
  match td_outputs dep with
  | None =>
      if bsr_represented then Done s
      else Done (state_insert s None (DCacheFill bsr (spec_hash bsr))).1
  | Some outputs =>
      let si := subset_of bsr outputs in
      if bool_decide (is_Some (si_subsets_by_ref s !! si)) then Done s
      else if bsr_represented then
        b ← last_built s None bsr;
        build ← (match b with
                 | Some dr => Done dr
                 | None => unwrap (si_fills_by_ref s !! bsr)
                 end);
        Done (state_insert s None (DSubset si (subset_hash si) build)).1
      else
        let '(s, dr) := state_insert s None (DCacheFill bsr (spec_hash bsr)) in
        Done (state_insert s None (DSubset si (subset_hash si) dr)).1
  end.

(** [reverse_deps]: a [HashMap] of [HashSet]s. *)
Definition add_reverse (m : gmap Index (gmap Index unit)) (e : Index * Deliverable A)
    : gmap Index (gmap Index unit) :=
  foldl (fun m dep => <[dep := <[e.1 := tt]> (default ∅ (m !! dep))]> m) m (depends_on (d_inner e.2)).
Definition reverse_deps (s : StateInner) : gmap Index (gmap Index unit) :=
  foldl add_reverse ∅ (arena_iter (si_deliverables s)).

(** [for &dep in dependents { if visited.insert(dep) { queue.push_back(dep) } }]. *)
Definition enqueue (acc : gset Index * list Index) (dependents : option (gmap Index unit))
    : gset Index * list Index :=
  foldl (fun (acc : gset Index * list Index) (e : Index * unit) =>
    if bool_decide (e.1 ∈ acc.1) then acc else ({[e.1]} ∪ acc.1, acc.2 ++ [e.1]))
    acc (hash_iter (default ∅ dependents)).

(** The [while let Some(current) = queue.pop_front()] loop. *)
Fixpoint bfs (fuel : nat) (rev : gmap Index (gmap Index unit)) (visited : gset Index)
    (queue : list Index) (count : Z) : outcome Z :=
  match queue with
  | [] => Done count
  | current :: queue =>
      match fuel with
      | O => OutOfFuel
      | S fuel =>
          let '(visited, queue) := enqueue (visited, queue) (rev !! current) in
          bfs fuel rev visited queue (count + 1)
      end
  end.

Definition count_dependents (s : StateInner) (rev : gmap Index (gmap Index unit)) (idx : Index)
    : outcome Z :=
  let '(visited, queue) := enqueue (∅, []) (rev !! idx) in
  bfs (length (arena_iter (si_deliverables s))) rev visited queue 0.

Definition set_deliverables (s : StateInner) (ds : arena (Deliverable A)) : StateInner :=
  {| si_deliverables := ds; si_fills_by_ref := si_fills_by_ref s;
     si_builds_by_ref := si_builds_by_ref s; si_subsets_by_ref := si_subsets_by_ref s |}.

(** [inner.deliverables[idx].depended_on_by = count]. *)
Definition set_depended_on_by (s : StateInner) (e : Index * Z) : outcome StateInner :=
  d ← unwrap (state_get s e.1);
  Done (set_deliverables s (arena_update (si_deliverables s) e.1
    {| d_inner := d_inner d; d_state := d_state d; d_depended_on_by := e.2 |})).

Definition fill_depended_on_by (s : StateInner) : outcome StateInner :=
  let rev := reverse_deps s in
  counts ← mapM_out (fun e : Index * Deliverable A =>
             c ← count_dependents s rev e.1; Done (e.1, c)) (arena_iter (si_deliverables s));
  foldM set_depended_on_by s counts.

(** [State::from_plan], from the collected phases. *)
Definition from_plan (g : Graph) (plan : list BuildPhase) : outcome StateInner :=
  s ← foldM (add_phase g) state_new (imap pair plan);
  tops ← for_toplevels g (g_top_levels g) false;
  s ← foldM represent s (hash_iter tops);
  fill_depended_on_by s.
End state.
