(* ===== verification/OrchestratorProps.v ===== *)
(** * Orchestration state: construction

    [State::from_plan] on the planner's output: nothing panics, every
    reference is to a deliverable created before its user, and the
    [depended_on_by] counters are exact. *)

From stdpp Require Import base list gmap strings numbers sorting relations.
From Stdlib Require Import ZArith Lia.
From S2P Require Import Prelude Text GraphModel Transitives Planner.
From S2P Require Import PlannerReach PlannerPhases PlannerPlan Orchestrator.
Open Scope Z_scope.

Section orchestrator.
Context `{Arena} `{HashIter}.
Context {A : Type}.
Implicit Types (s : StateInner A) (x y dr : DeliverableRef).

(** [y] waits for [x]. *)
Definition waits_for s x y : Prop :=
  exists d, state_get A s y = Some d /\ x ∈ depends_on (d_inner d).

Definition live s dr : Prop := is_Some (state_get A s dr).

(** Every reference leads somewhere, and no chain of them is infinite. *)
Record grounded s : Prop := {
  grounded_live x y : waits_for s x y -> live s x;
  grounded_acc dr : live s dr -> Acc (waits_for s) dr;
}.

(** [dr] is a deliverable of the kind [P]. *)
Definition holds s dr (P : DeliverableInner -> Prop) : Prop :=
  exists d, state_get A s dr = Some d /\ P (d_inner d).
Definition is_fill (bsr : BuildSpecRef) (i : DeliverableInner) : Prop :=
  match i with DCacheFill b _ => b = bsr | _ => False end.
Definition is_build_of (bsr : BuildSpecRef) (i : DeliverableInner) : Prop :=
  match i with DBuild b _ _ _ _ => b = bsr | _ => False end.
Definition is_subset (sub : SubsetInput) (i : DeliverableInner) : Prop :=
  match i with DSubset x _ _ => x = sub | _ => False end.

(** What a subset may be taken from: a build or a cache fill of its spec. *)
Definition is_source (sub : SubsetInput) (i : DeliverableInner) : Prop :=
  is_build_of (sub_from sub) i \/ is_fill (sub_from sub) i.

(** The phase an entry of the index of builds is of. *)
Definition entry_phase (e : option nat * DeliverableRef) : nat := default 0%nat e.1.

Lemma holds_live s dr P : holds s dr P -> live s dr.
Proof. intros (d & Hd & _). by exists d. Qed.

(** The indexes of the state point to the deliverables they name. *)
Record tables_ok s : Prop := {
  tables_fills bsr dr : si_fills_by_ref A s !! bsr = Some dr -> holds s dr (is_fill bsr);
  tables_builds bsr v : si_builds_by_ref A s !! bsr = Some v ->
    v <> [] /\ forall e, e ∈ v -> holds s e.2 (is_build_of bsr);
  tables_subsets sub dr : si_subsets_by_ref A s !! sub = Some dr -> holds s dr (is_subset sub);
}.

Record state_ok s : Prop := {
  so_grounded : grounded s;
  so_tables : tables_ok s;
  so_pending dr d : state_get A s dr = Some d -> d_state d = Pending;
}.

(** What the construction keeps beside it. *)
Record wiring_ok s : Prop := {
  wo_state : state_ok s;
  (** a subset is taken from its own spec *)
  wo_sources dr sub h b : holds s dr (eq (DSubset sub h b)) -> holds s b (is_source sub);
  (** the builds of a spec are indexed in the order of their phases *)
  wo_sorted bsr v : si_builds_by_ref A s !! bsr = Some v ->
    StronglySorted le (map entry_phase v) /\ forall e, e ∈ v -> is_Some e.1;
}.

(** What may be inserted: a build with its dependencies in place and of a
    phase no earlier than the builds of its spec; a subset of a deliverable of
    its spec; any cache fill. *)
Definition insertable s (idx : option nat) (di : DeliverableInner) : Prop :=
  match di with
  | DBuild bsr _ _ _ deps => (forall x, x ∈ deps -> live s x) /\
      exists n, idx = Some n /\ forall v e, si_builds_by_ref A s !! bsr = Some v -> e ∈ v -> (entry_phase e <= n)%nat
  | DSubset sub _ b => holds s b (is_source sub)
  | DCacheFill _ _ => True
  end.

Lemma insertable_deps s idx di x : insertable s idx di -> x ∈ depends_on di -> live s x.
Proof.
  destruct di as [bsr h f c deps|sub h b|bsr h]; simpl.
  - intros [Hl _]. apply Hl.
  - intros Hb ->%list_elem_of_singleton. by apply holds_live in Hb.
  - by intros _ ?%elem_of_nil.
Qed.

(** Construction only adds. *)
Record extends s s' : Prop := {
  ext_get dr d : state_get A s dr = Some d -> state_get A s' dr = Some d;
  ext_builds bsr v : si_builds_by_ref A s !! bsr = Some v ->
    exists v', si_builds_by_ref A s' !! bsr = Some (v ++ v');
  ext_fills bsr : is_Some (si_fills_by_ref A s !! bsr) -> is_Some (si_fills_by_ref A s' !! bsr);
  ext_subsets sub :
    is_Some (si_subsets_by_ref A s !! sub) -> is_Some (si_subsets_by_ref A s' !! sub);
}.

#[global] Instance extends_preorder : PreOrder extends.
Proof.
  split.
  - intros s. split; [done| |done|done]. intros bsr v Hv. exists []. by rewrite app_nil_r.
  - intros s1 s2 s3 [A1 A2 A3 A4] [B1 B2 B3 B4]. split; [auto| |auto|auto]. intros bsr v Hv.
    destruct (A2 bsr v Hv) as [v1 Hv1]. destruct (B2 bsr _ Hv1) as [v2 Hv2].
    exists (v1 ++ v2). by rewrite app_assoc.
Qed.

Lemma extends_live s s' dr : extends s s' -> live s dr -> live s' dr.
Proof. intros He [d Hd]. exists d. by apply (ext_get s s' He). Qed.

Lemma extends_holds s s' dr P : extends s s' -> holds s dr P -> holds s' dr P.
Proof. intros He (d & Hd & HP). exists d. split; [by apply (ext_get s s' He)|done]. Qed.

(** ** Insertion *)

Lemma insert_get s idx di dr :
  state_get A (state_insert A s idx di).1 dr =
  if decide (dr = (state_insert A s idx di).2)
  then Some {| d_inner := di; d_state := Pending; d_depended_on_by := 0 |} else state_get A s dr.
Proof.
  unfold state_insert, state_get.
  pose proof (arena_insert_get (si_deliverables A s)
    {| d_inner := di; d_state := Pending; d_depended_on_by := 0 |} dr) as Hg.
  destruct (arena_insert _ _) as [ds i]. simpl in *. by destruct di.
Qed.

Lemma insert_fresh s idx di : state_get A s (state_insert A s idx di).2 = None.
Proof.
  unfold state_insert, state_get.
  pose proof (arena_insert_fresh (si_deliverables A s)
    {| d_inner := di; d_state := Pending; d_depended_on_by := 0 |}) as Hg.
  destruct (arena_insert _ _) as [ds i]. simpl in *. by destruct di.
Qed.

Lemma insert_live s idx di : live (state_insert A s idx di).1 (state_insert A s idx di).2.
Proof. unfold live. rewrite insert_get, decide_True by done. eauto. Qed.

Lemma insert_extends s idx di : extends s (state_insert A s idx di).1.
Proof.
  split.
  - intros dr d Hd. rewrite insert_get, decide_False; [done|].
    intros ->. by rewrite insert_fresh in Hd.
  - intros bsr v Hv. unfold state_insert. destruct (arena_insert _ _) as [ds i].
    destruct di as [b h f c deps|sub h b|b h]; simpl; try (exists []; by rewrite app_nil_r).
    destruct (decide (b = bsr)) as [->|Hne].
    + rewrite Hv, lookup_insert_eq. eauto.
    + exists []. rewrite app_nil_r. destruct (si_builds_by_ref A s !! b); by rewrite lookup_insert_ne.
  - intros bsr Hb. unfold state_insert. destruct (arena_insert _ _) as [ds i].
    destruct di; simpl; [done|done|]. apply lookup_insert_is_Some'. by right.
  - intros sub Hb. unfold state_insert. destruct (arena_insert _ _) as [ds i].
    destruct di; simpl; [done| |done]. apply lookup_insert_is_Some'. by right.
Qed.

Lemma insert_waits s idx di x y :
  waits_for (state_insert A s idx di).1 x y <->
  waits_for s x y \/ (y = (state_insert A s idx di).2 /\ x ∈ depends_on di).
Proof.
  unfold waits_for. rewrite insert_get. case_decide as Hy.
  - split.
    + intros (d & [= <-] & Hx). by right.
    + intros [(d & Hd & _)|[_ Hx]]; [|eauto]. rewrite Hy, insert_fresh in Hd. done.
  - split; [intros ?; by left|]. intros [?|[? _]]; done.
Qed.

Lemma insert_grounded s idx di :
  grounded s -> (forall x, x ∈ depends_on di -> live s x) -> grounded (state_insert A s idx di).1.
Proof.
  intros [Hl Ha] Hdi. pose proof (insert_extends s idx di) as He.
  pose proof (insert_fresh s idx di) as Hfresh. set (s' := (state_insert A s idx di).1) in *.
  set (new := (state_insert A s idx di).2) in *.
  assert (Hold : forall dr, live s dr -> Acc (waits_for s') dr).
  { intros dr Hdr. specialize (Ha dr Hdr). induction Ha as [dr _ IH]. constructor. intros x Hx.
    apply insert_waits in Hx as [Hx|[-> _]]; [apply IH; [done|by apply (Hl x dr)]|].
    destruct Hdr as [d Hd]. fold new in Hd. congruence. }
  split.
  - intros x y [Hx|[_ Hx]]%insert_waits; apply (extends_live s s' x He); [by apply (Hl x y)|auto].
  - intros dr [d Hd]. unfold s' in Hd. rewrite insert_get in Hd. case_decide as Hdr.
    + constructor. intros x [Hx|[_ Hx]]%insert_waits; [|by apply Hold, Hdi].
      destruct Hx as (d' & Hd' & _). fold new in Hdr. subst dr. congruence.
    + apply Hold. by exists d.
Qed.

Lemma insert_holds s idx di (P : DeliverableInner -> Prop) :
  P di -> holds (state_insert A s idx di).1 (state_insert A s idx di).2 P.
Proof. intros HP. eexists. rewrite insert_get, decide_True by done. split; [done|]. done. Qed.

Lemma insert_tables s idx di : tables_ok s -> tables_ok (state_insert A s idx di).1.
Proof.
  intros [T1 T2 T3]. pose proof (insert_extends s idx di) as He.
  pose proof (insert_holds s idx di) as Hnew.
  assert (Hup : forall dr P, holds s dr P -> holds (state_insert A s idx di).1 dr P)
    by (intros dr P; by apply extends_holds).
  assert (HT2 : forall bsr v, si_builds_by_ref A s !! bsr = Some v ->
    v <> [] /\ forall e, e ∈ v -> holds (state_insert A s idx di).1 e.2 (is_build_of bsr)).
  { intros bsr v Hv. destruct (T2 bsr v Hv). auto. }
  revert He Hnew Hup HT2. unfold state_insert. destruct (arena_insert _ _) as [ds i]. simpl.
  intros He Hnew Hup HT2. destruct di as [b h f c deps|sub h b|b h]; split; simpl in *; try by eauto.
  - intros bsr v Hv. destruct (si_builds_by_ref A s !! b) as [v0|] eqn:Hb;
      apply lookup_insert_Some in Hv as [[-> <-]|[_ Hv]]; [|by auto| |by auto].
    + destruct (HT2 bsr v0 Hb) as [_ Hlive]. split; [by destruct v0|].
      intros e [He'| ->%list_elem_of_singleton]%elem_of_app; [by auto|]. by apply Hnew.
    + split; [done|]. intros e ->%list_elem_of_singleton. by apply Hnew.
  - intros sub' dr Hv. apply lookup_insert_Some in Hv as [[<- <-]|[_ ?]]; [by apply Hnew|by eauto].
  - intros bsr dr Hv. apply lookup_insert_Some in Hv as [[<- <-]|[_ ?]]; [by apply Hnew|by eauto].
Qed.

Lemma insert_ok s idx di :
  state_ok s -> (forall x, x ∈ depends_on di -> live s x) ->
  state_ok (state_insert A s idx di).1.
Proof.
  intros [S1 S2 S3] Hdi. split; [by apply insert_grounded|by apply insert_tables|].
  intros dr d. rewrite insert_get. case_decide; [by intros [= <-]|apply S3].
Qed.

Lemma insert_sorted s idx di bsr v :
  wiring_ok s -> insertable s idx di -> si_builds_by_ref A (state_insert A s idx di).1 !! bsr = Some v ->
  StronglySorted le (map entry_phase v) /\ forall e, e ∈ v -> is_Some e.1.
Proof.
  intros Hs Hdi. unfold state_insert. destruct (arena_insert _ _) as [ds i].
  destruct di as [b h f c deps|sub h b|b h]; simpl; [|apply (wo_sorted s Hs)..].
  destruct Hdi as [_ (n & -> & Hle)]. intros Hv. destruct (si_builds_by_ref A s !! b) as [v0|] eqn:Hb;
    apply lookup_insert_Some in Hv as [[<- <-]|[_ Hv]]; [|by apply (wo_sorted s Hs bsr)| |by apply (wo_sorted s Hs bsr)].
  - destruct (wo_sorted s Hs b v0 Hb) as [Hsort Hsome]. specialize (Hle v0). split.
    + rewrite map_app. apply StronglySorted_app_2; [|done|by repeat constructor].
      intros x y Hx Hy. apply list_elem_of_singleton in Hy as ->. apply list_elem_of_fmap in Hx as (e & -> & He). by apply Hle.
    + intros e [He| ->%list_elem_of_singleton]%elem_of_app; [auto|by eexists].
  - split; [by repeat constructor|]. intros e ->%list_elem_of_singleton. by eexists.
Qed.

Lemma insert_wiring s idx di : wiring_ok s -> insertable s idx di -> wiring_ok (state_insert A s idx di).1.
Proof.
  intros Hs Hdi. pose proof Hs as [S1 S2 S3]. split.
  - apply insert_ok; [done|]. intros x. by apply insertable_deps with idx.
  - intros dr sub h b (d & Hd & E). apply (extends_holds s); [apply insert_extends|].
    rewrite insert_get in Hd. case_decide; [|apply (S2 dr sub h b); by exists d].
    injection Hd as <-. simpl in E. by subst di.
  - intros bsr v. by apply insert_sorted.
Qed.

Lemma new_ok : state_ok (state_new A).
Proof.
  assert (Hget : forall dr, state_get A (state_new A) dr = None)
    by (intros dr; apply arena_get_empty).
  split; [split|split; simpl; intros ??; by rewrite lookup_empty|].
  - intros x y (d & Hd & _). by rewrite Hget in Hd.
  - intros dr [d Hd]. by rewrite Hget in Hd.
  - intros dr d Hd. by rewrite Hget in Hd.
Qed.

Lemma new_wiring : wiring_ok (state_new A).
Proof.
  split; [apply new_ok| |].
  - intros dr sub h b (d & Hd & _). unfold state_get in Hd. simpl in Hd. by rewrite arena_get_empty in Hd.
  - intros bsr v Hv. simpl in Hv. by rewrite lookup_empty in Hv.
Qed.

(** ** Wiring a plan *)

(** What a step of the construction guarantees: nothing is lost, and what it
    adds to the index of builds is of the phase [n] or a later one. *)
Definition step_ok (n : nat) s s' : Prop :=
  wiring_ok s' /\ extends s s' /\
  forall bsr v' e, si_builds_by_ref A s' !! bsr = Some v' -> e ∈ v' ->
    (n <= entry_phase e)%nat \/ exists v, si_builds_by_ref A s !! bsr = Some v /\ e ∈ v.

Lemma step_refl n s : wiring_ok s -> step_ok n s s.
Proof. split; [done|]. split; [done|]. eauto. Qed.

Lemma step_trans n s1 s2 s3 : step_ok n s1 s2 -> step_ok n s2 s3 -> step_ok n s1 s3.
Proof.
  intros (_ & E1 & B1) (O2 & E2 & B2). split; [done|]. split; [by transitivity s2|].
  intros bsr v' e Hv He. destruct (B2 bsr v' e Hv He) as [?|(v & Hv2 & He2)]; [by left|by apply (B1 bsr v)].
Qed.

Lemma step_weaken n m s s' : (m <= n)%nat -> step_ok n s s' -> step_ok m s s'.
Proof.
  intros Hle (O & E & B). split; [done|]. split; [done|]. intros bsr v' e Hv He.
  destruct (B bsr v' e Hv He); [left; lia|by right].
Qed.

(** A step that plans no build. *)
Lemma step_same n s s' : wiring_ok s' -> extends s s' -> si_builds_by_ref A s' = si_builds_by_ref A s -> step_ok n s s'.
Proof. intros O E B. split; [done|]. split; [done|]. rewrite B. eauto. Qed.

Definition not_build (di : DeliverableInner) : Prop := match di with DBuild _ _ _ _ _ => False | _ => True end.

Lemma insert_same_builds s idx di :
  not_build di -> si_builds_by_ref A (state_insert A s idx di).1 = si_builds_by_ref A s.
Proof. unfold state_insert. destruct (arena_insert _ _) as [ds i]. by destruct di. Qed.

Lemma insert_step n s idx di :
  wiring_ok s -> insertable s idx di -> not_build di ->
  step_ok n s (state_insert A s idx di).1 /\
  si_builds_by_ref A (state_insert A s idx di).1 = si_builds_by_ref A s /\
  forall P : DeliverableInner -> Prop, P di -> holds (state_insert A s idx di).1 (state_insert A s idx di).2 P.
Proof.
  intros Hs Hdi Hnb. pose proof (insert_same_builds s idx di Hnb). split; [|split; [done|apply insert_holds]].
  apply step_same; [by apply insert_wiring|apply insert_extends|done].
Qed.

Lemma subset_or_insert_step n s sub h build :
  wiring_ok s -> holds s build (is_source sub) ->
  step_ok n s (subset_or_insert A s sub h build).1 /\
  si_builds_by_ref A (subset_or_insert A s sub h build).1 = si_builds_by_ref A s /\
  holds (subset_or_insert A s sub h build).1 (subset_or_insert A s sub h build).2 (is_subset sub).
Proof.
  intros Hs Hb. unfold subset_or_insert. destruct (si_subsets_by_ref A s !! sub) as [dr|] eqn:E.
  - split; [by apply step_refl|]. split; [done|]. by apply (tables_subsets s (so_tables s (wo_state s Hs))).
  - destruct (insert_step n s None (DSubset sub h build)) as (H1 & H2 & H3); [done..|].
    split; [done|]. split; [done|]. by apply H3.
Qed.

(** A build of [bsr] of a phase before [pi] is in the state. *)
Definition has_build s (pi : nat) (bsr : BuildSpecRef) : Prop :=
  exists v j dr, si_builds_by_ref A s !! bsr = Some v /\ (Some j, dr) ∈ v /\ (j < pi)%nat.

(** [dr] is the latest build of [bsr] before the phase [pi]. *)
Definition latest_build s (pi : nat) (bsr : BuildSpecRef) (dr : DeliverableRef) : Prop :=
  exists v j, si_builds_by_ref A s !! bsr = Some v /\ (Some j, dr) ∈ v /\ (j < pi)%nat /\
    forall j' dr', (Some j', dr') ∈ v -> (j' < pi)%nat -> (j' <= j)%nat.

Lemma has_build_extends s s' pi pi' bsr :
  extends s s' -> (pi <= pi')%nat -> has_build s pi bsr -> has_build s' pi' bsr.
Proof.
  intros He Hle (v & j & dr & Hv & Hin & Hj). destruct (ext_builds s s' He bsr v Hv) as [v' Hv'].
  exists (v ++ v'), j, dr. split; [done|]. split; [apply elem_of_app; by left|lia].
Qed.

Lemma latest_build_step s s' pi bsr dr : step_ok pi s s' -> latest_build s pi bsr dr -> latest_build s' pi bsr dr.
Proof.
  intros (_ & He & Hnew) (v & j & Hv & Hin & Hj & Hmax). destruct (ext_builds s s' He bsr v Hv) as [v' Hv'].
  exists (v ++ v'), j. split; [done|]. split; [apply elem_of_app; by left|]. split; [done|].
  intros j' dr' Hin' Hj'. destruct (Hnew bsr _ _ Hv' Hin') as [Hle|(v0 & Hv0 & Hin0)].
  - unfold entry_phase in Hle. simpl in Hle. lia.
  - rewrite Hv in Hv0. injection Hv0 as <-. by apply (Hmax j' dr').
Qed.

(** The last of the earlier entries of a sorted index is of the latest phase. *)
Lemma last_earlier pi v dr :
  StronglySorted le (map entry_phase v) -> (forall e, e ∈ v -> is_Some e.1) ->
  last (filter_map (fun e : option nat * DeliverableRef =>
    match e.1 with None => Some e.2 | Some idx => if (idx <? pi)%nat then Some e.2 else None end) v) = Some dr ->
  exists j, (Some j, dr) ∈ v /\ (j < pi)%nat /\ forall j' dr', (Some j', dr') ∈ v -> (j' < pi)%nat -> (j' <= j)%nat.
Proof.
  induction v as [|[[k|] y] v IH] using rev_ind; intros Hsort Hsome Hlast; [done| |].
  2:{ destruct (Hsome (None, y)) as [x Hx]; [apply elem_of_app; right; by left|done]. }
  rewrite map_app in Hsort. rewrite filter_map_app in Hlast. simpl in Hlast.
  destruct (k <? pi)%nat eqn:Hk; [apply Nat.ltb_lt in Hk|apply Nat.ltb_ge in Hk].
  - rewrite last_snoc in Hlast. injection Hlast as ->. exists k. split; [apply elem_of_app; right; by left|]. split; [done|].
    intros j' dr' [Hin|[= -> ->]%list_elem_of_singleton]%elem_of_app _; [|done].
    apply (StronglySorted_app_1_elem_of le _ _ j' k Hsort); [apply list_elem_of_fmap; by exists (Some j', dr')|by left].
  - rewrite app_nil_r in Hlast. destruct IH as (j & Hin & Hj & Hmax).
    + by apply StronglySorted_app_1_l in Hsort.
    + intros e He. apply Hsome, elem_of_app. by left.
    + done.
    + exists j. split; [apply elem_of_app; by left|]. split; [done|].
      intros j' dr' [Hin'|[= -> ->]%list_elem_of_singleton]%elem_of_app Hj'; [by apply (Hmax j' dr')|lia].
Qed.

Lemma last_built_before s pi bsr :
  wiring_ok s -> has_build s pi bsr ->
  exists dr, last_built A s (Some pi) bsr = Done (Some dr) /\ latest_build s pi bsr dr /\ holds s dr (is_build_of bsr).
Proof.
  intros Hs (v & j & dr & Hv & Hin & Hj). unfold last_built, get_built. rewrite Hv. simpl.
  destruct (tables_builds s (so_tables s (wo_state s Hs)) bsr v Hv) as [_ Hlive]. destruct (wo_sorted s Hs bsr v Hv) as [Hsort Hsome].
  match goal with |- context [last ?l] => destruct (last l) as [e|] eqn:El end.
  - exists e. split; [done|]. destruct (last_earlier pi v e Hsort Hsome El) as (k & Hk & Hlt & Hmax).
    split; [by exists v, k|]. by apply (Hlive (Some k, e)).
  - apply last_None in El. exfalso. apply (not_elem_of_nil dr). rewrite <- El.
    apply elem_of_filter_map. exists (Some j, dr). split; [done|]. simpl. by rewrite (proj2 (Nat.ltb_lt j pi)).
Qed.

(** Inserting a build of the phase [pi]. *)
Lemma insert_build_entries s pi bsr h f c deps :
  let s' := (state_insert A s (Some pi) (DBuild bsr h f c deps)).1 in
  let dr := (state_insert A s (Some pi) (DBuild bsr h f c deps)).2 in
  exists v, si_builds_by_ref A s' !! bsr = Some v /\ (Some pi, dr) ∈ v /\
    forall k v' e, si_builds_by_ref A s' !! k = Some v' -> e ∈ v' ->
      e.1 = Some pi \/ exists v0, si_builds_by_ref A s !! k = Some v0 /\ e ∈ v0.
Proof.
  unfold state_insert. destruct (arena_insert _ _) as [ds i]. simpl.
  exists (default [] (si_builds_by_ref A s !! bsr) ++ [(Some pi, i)]).
  assert (Hb : forall m : gmap BuildSpecRef (list (option nat * DeliverableRef)), match si_builds_by_ref A s !! bsr with
      | Some v => <[bsr:=v ++ [(Some pi, i)]]> m | None => <[bsr:=[(Some pi, i)]]> m end =
    <[bsr := default [] (si_builds_by_ref A s !! bsr) ++ [(Some pi, i)]]> m)
    by (intros m; by destruct (si_builds_by_ref A s !! bsr)).
  rewrite Hb, lookup_insert_eq. split; [done|]. split; [apply elem_of_app; right; by left|].
  intros k v' e Hv He. apply lookup_insert_Some in Hv as [[<- <-]|[_ Hv]]; [|eauto].
  apply elem_of_app in He as [He| ->%list_elem_of_singleton]; [right|by left].
  destruct (si_builds_by_ref A s !! bsr) as [v|]; [eauto|by apply elem_of_nil in He].
Qed.

(** ** Representing the toplevels' dependencies *)

Definition represented s (e : BuildSpecRef * TDep) : Prop :=
  match td_outputs e.2 with
  | None => is_Some (si_builds_by_ref A s !! e.1) \/ is_Some (si_fills_by_ref A s !! e.1)
  | Some outputs => is_Some (si_subsets_by_ref A s !! subset_of e.1 outputs)
  end.

Lemma insert_fill_lookup s idx bsr h :
  si_fills_by_ref A (state_insert A s idx (DCacheFill bsr h)).1 !! bsr =
  Some (state_insert A s idx (DCacheFill bsr h)).2.
Proof. unfold state_insert. destruct (arena_insert _ _). simpl. apply lookup_insert_eq. Qed.

Lemma insert_subset_lookup s idx sub h b :
  is_Some (si_subsets_by_ref A (state_insert A s idx (DSubset sub h b)).1 !! sub).
Proof. unfold state_insert. destruct (arena_insert _ _). simpl. rewrite lookup_insert_eq. eauto. Qed.

Lemma last_built_any s bsr :
  wiring_ok s -> is_Some (si_builds_by_ref A s !! bsr) ->
  exists dr, last_built A s None bsr = Done (Some dr) /\ holds s dr (is_build_of bsr).
Proof.
  intros Hs [v Hv]. unfold last_built, get_built. rewrite Hv. simpl.
  destruct (tables_builds s (so_tables s (wo_state s Hs)) bsr v Hv) as [Hne Hlive].
  match goal with |- context [filter_map ?f v] => set (w := filter_map f v) end.
  assert (Hw : w = v.*2).
  { unfold w. clear. induction v as [|[[k|] y] v IH]; simpl; [done| |]; by rewrite IH. }
  destruct (last w) as [e|] eqn:El; simpl.
  - exists e. split; [done|]. apply last_Some_elem_of in El. rewrite Hw in El.
    apply list_elem_of_fmap in El as (x & -> & Hx). by apply Hlive.
  - apply last_None in El. rewrite Hw in El. by apply fmap_nil_inv in El.
Qed.

(** ** Counting dependents *)

Lemma reverse_deps_spec s x y :
  (exists m, reverse_deps A s !! x = Some m /\ is_Some (m !! y)) <-> waits_for s x y.
Proof.
  unfold reverse_deps.
  assert (Hone : forall deps i (m : gmap Index (gmap Index unit)) x y,
    (exists mx, foldl (fun m dep => <[dep := <[i := tt]> (default ∅ (m !! dep))]> m) m deps !! x
       = Some mx /\ is_Some (mx !! y)) <->
    (exists mx, m !! x = Some mx /\ is_Some (mx !! y)) \/ (x ∈ deps /\ y = i)).
  { induction deps as [|d deps IH]; intros i m x' y'; simpl; [rewrite elem_of_nil; tauto|].
    rewrite IH, elem_of_cons. destruct (decide (x' = d)) as [->|Hne].
    - rewrite lookup_insert_eq. destruct (decide (y' = i)) as [->|Hy].
      + split; [by auto|]. intros _. left. eexists. split; [done|]. rewrite lookup_insert_eq. eauto.
      + split.
        * intros [(mx & [= <-] & Hm)|[_ ?]]; [|done]. rewrite lookup_insert_ne in Hm by done.
          destruct (m !! d) as [m0|] eqn:E; simpl in Hm; [eauto|]. rewrite lookup_empty in Hm. by destruct Hm.
        * intros [(mx & E & Hm)|[_ ?]]; [|done]. left. eexists. split; [done|].
          rewrite lookup_insert_ne by done. by rewrite E.
    - rewrite lookup_insert_ne by done. naive_solver. }
  assert (Hall : forall l (m : gmap Index (gmap Index unit)),
    (exists mx, foldl (add_reverse A) m l !! x = Some mx /\ is_Some (mx !! y)) <->
    (exists mx, m !! x = Some mx /\ is_Some (mx !! y)) \/
    exists d, (y, d) ∈ l /\ x ∈ depends_on (d_inner d)).
  { induction l as [|[i d] l IH]; intros m; simpl.
    - setoid_rewrite elem_of_nil. naive_solver.
    - rewrite IH. unfold add_reverse at 1. simpl. rewrite Hone. setoid_rewrite elem_of_cons.
      split.
      + intros [[?|[Hx ->]]|(d' & Hd & Hx)]; [by left|right; exists d; by auto|right; eauto].
      + intros [?|(d' & [[= -> ->]|Hd] & Hx)]; [by left; left|left; by right|right; eauto]. }
  rewrite Hall. unfold waits_for, state_get. setoid_rewrite <- arena_iter_elem.
  rewrite lookup_empty. naive_solver.
Qed.

Lemma enqueue_spec (dependents : option (gmap Index unit)) visited queue :
  exists new, enqueue (visited, queue) dependents = (visited ∪ list_to_set new, queue ++ new) /\
    NoDup new /\ forall y, y ∈ new <-> y ∉ visited /\ exists m, dependents = Some m /\ is_Some (m !! y).
Proof.
  unfold enqueue. set (m := default ∅ dependents).
  assert (Hm : forall y, (exists m', dependents = Some m' /\ is_Some (m' !! y)) <->
    y ∈ (hash_iter m).*1).
  { intros y. rewrite list_elem_of_fmap. unfold m. split.
    - intros (m' & -> & [u Hu]). exists (y, u). split; [done|]. by apply elem_of_hash_iter.
    - intros ([y' u] & -> & Hin%elem_of_hash_iter). destruct dependents as [m'|]; simpl in *;
        [eauto|by rewrite lookup_empty in Hin]. }
  setoid_rewrite Hm. clearbody m. clear Hm.
  induction (hash_iter m) as [|[y u] l IH] in visited, queue |- *; simpl.
  { exists []. simpl. rewrite app_nil_r, union_empty_r_L. split; [done|]. split; [apply NoDup_nil_2|].
    intros y. rewrite elem_of_nil. tauto. }
  case_bool_decide as Hy; simpl.
  - destruct (IH visited queue) as (new & -> & Hnd & Hnew). exists new. split; [done|].
    split; [done|]. intros y'. rewrite Hnew, elem_of_cons. naive_solver.
  - destruct (IH ({[y]} ∪ visited) (queue ++ [y])) as (new & -> & Hnd & Hnew).
    exists (y :: new). split; [f_equal; [set_solver|by rewrite <- app_assoc]|]. split.
    + apply NoDup_cons. split; [|done]. rewrite Hnew. set_solver.
    + intros y'. rewrite !elem_of_cons, Hnew, elem_of_union, elem_of_singleton.
      destruct (decide (y' = y)) as [->|]; tauto.
Qed.

(** All that transitively wait for [x]. *)
Definition dependents_of s x (X : gset Index) : Prop := forall y, y ∈ X <-> tc (waits_for s) x y.

(** The search has taken [done_] off the queue so far. *)
Record bfs_inv s (x0 : Index) (done_ visited : gset Index) (queue : list Index) : Prop := {
  bfs_visited y : y ∈ visited <-> y ∈ done_ \/ y ∈ queue;
  bfs_nodup : NoDup queue;
  bfs_disjoint y : y ∈ queue -> y ∉ done_;
  bfs_sound y : y ∈ visited -> tc (waits_for s) x0 y;
  bfs_first y : waits_for s x0 y -> y ∈ visited;
  bfs_closed x y : x ∈ done_ -> waits_for s x y -> y ∈ visited;
}.

Lemma bfs_inv_step s x0 done_ visited queue x new :
  (forall y, y ∈ new <-> y ∉ visited /\ waits_for s x y) -> NoDup new ->
  bfs_inv s x0 done_ visited (x :: queue) ->
  bfs_inv s x0 ({[x]} ∪ done_) (visited ∪ list_to_set new) (queue ++ new).
Proof.
  intros Hnew Hndn [B1 B2 B3 B4 B5 B6]. apply NoDup_cons in B2 as [Hx B2].
  assert (Hxv : x ∈ visited) by (apply B1; right; left).
  split.
  - intros y. rewrite elem_of_union, B1, elem_of_cons, elem_of_list_to_set, elem_of_app. set_solver.
  - apply NoDup_app. split; [done|]. split; [|done]. intros y Hy Hn.
    apply Hnew in Hn as [Hn _]. apply Hn, B1. right. by right.
  - intros y [Hy|Hy]%elem_of_app.
    + specialize (B3 y ltac:(by right)). set_solver.
    + apply Hnew in Hy as [Hy _]. rewrite B1, elem_of_cons in Hy. set_solver.
  - intros y [Hy|Hy]%elem_of_union; [auto|]. apply elem_of_list_to_set, Hnew in Hy as [_ Hy].
    apply tc_r with x; [auto|done].
  - intros y Hy. apply elem_of_union. left. auto.
  - intros z y [->%elem_of_singleton|Hz]%elem_of_union Hy; [|apply elem_of_union; left; by apply (B6 z)].
    destruct (decide (y ∈ visited)); [apply elem_of_union; by left|].
    apply elem_of_union. right. apply elem_of_list_to_set, Hnew. done.
Qed.

Lemma bfs_inv_done s x0 done_ visited : bfs_inv s x0 done_ visited [] -> dependents_of s x0 done_.
Proof.
  intros [B1 _ _ B4 B5 B6] y.
  assert (Heq : forall z, z ∈ visited <-> z ∈ done_) by (intros z; rewrite B1, elem_of_nil; tauto).
  split; [intros Hy; by apply B4, Heq|]. intros Htc. apply Heq. revert y Htc.
  apply (tc_ind_r (fun y => y ∈ visited) x0); [auto|].
  intros y z _ Hyz Hy. apply (B6 y); [by apply Heq|done].
Qed.

Lemma bfs_spec s x0 (all : gset Index) fuel : (forall y x, waits_for s x y -> y ∈ all) ->
  forall done_ visited queue,
  bfs_inv s x0 done_ visited queue -> (forall y, y ∈ visited -> y ∈ all) ->
  (size all <= fuel + size done_)%nat ->
  exists X, bfs fuel (reverse_deps A s) visited queue (Z.of_nat (size done_))
      = Done (Z.of_nat (size X)) /\ dependents_of s x0 X.
Proof.
  intros Hall. induction fuel as [|fuel IH]; intros done_ visited queue Hinv Hsub Hfuel;
    (destruct queue as [|x queue]; [exists done_; split; [done|by apply (bfs_inv_done s x0 done_ visited)]|]).
  { exfalso. assert (Hd : {[x]} ∪ done_ ⊆ all).
    { intros y Hy. apply Hsub, (bfs_visited _ _ _ _ _ Hinv). rewrite elem_of_cons. set_solver. }
    apply subseteq_size in Hd. rewrite size_union in Hd.
    - rewrite size_singleton in Hd. lia.
    - pose proof (bfs_disjoint _ _ _ _ _ Hinv x ltac:(left)). set_solver. }
  cbn [bfs]. destruct (enqueue_spec (reverse_deps A s !! x) visited queue) as (new & -> & Hnd & Hnew).
  setoid_rewrite reverse_deps_spec in Hnew.
  pose proof (bfs_inv_step s x0 done_ visited queue x new Hnew Hnd Hinv) as Hinv'.
  assert (Hx : x ∉ done_) by (apply (bfs_disjoint _ _ _ _ _ Hinv); left).
  assert (Hsize : size ({[x]} ∪ done_) = S (size done_)).
  { rewrite size_union by set_solver. rewrite size_singleton. lia. }
  destruct (IH _ _ _ Hinv') as (X & Hrun & HX).
  - intros y [Hy|Hy]%elem_of_union; [auto|]. apply elem_of_list_to_set, Hnew in Hy as [_ Hy]. eauto.
  - lia.
  - exists X. split; [|done]. rewrite <- Hrun, Hsize. f_equal. lia.
Qed.

Definition live_set s : gset Index := list_to_set (arena_iter (si_deliverables A s)).*1.

Lemma elem_of_live_set s dr : dr ∈ live_set s <-> live s dr.
Proof.
  unfold live_set, live, state_get. rewrite elem_of_list_to_set, list_elem_of_fmap. split.
  - intros ([i d] & -> & Hin%arena_iter_elem). eauto.
  - intros [d Hd%arena_iter_elem]. by exists (dr, d).
Qed.

Lemma live_set_size s : size (live_set s) = length (arena_iter (si_deliverables A s)).
Proof. unfold live_set. rewrite size_list_to_set by apply arena_iter_nodup. apply length_fmap. Qed.

Lemma count_dependents_spec s x :
  exists X, count_dependents A s (reverse_deps A s) x = Done (Z.of_nat (size X)) /\ dependents_of s x X.
Proof.
  unfold count_dependents.
  destruct (enqueue_spec (reverse_deps A s !! x) ∅ []) as (new & -> & Hnd & Hnew).
  setoid_rewrite reverse_deps_spec in Hnew. rewrite union_empty_l_L. simpl.
  assert (Hall : forall y x, waits_for s x y -> y ∈ live_set s).
  { intros y x' (d & Hd & _). apply elem_of_live_set. by exists d. }
  replace 0 with (Z.of_nat (size (∅ : gset Index))) by (by rewrite size_empty).
  apply (bfs_spec s x (live_set s) _ Hall ∅).
  - split; try set_solver.
    intros y Hy. apply elem_of_list_to_set, Hnew in Hy as [_ Hy]. by apply tc_once.
  - intros y Hy. apply elem_of_list_to_set, Hnew in Hy as [_ Hy]. eauto.
  - rewrite live_set_size. lia.
Qed.

Definition with_count (d : Deliverable A) (c : Z) : Deliverable A :=
  {| d_inner := d_inner d; d_state := d_state d; d_depended_on_by := c |}.

Lemma set_counts_spec l : NoDup l.*1 -> forall s, (forall e, e ∈ l -> live s e.1) ->
  exists s', foldM (set_depended_on_by A) s l = Done s' /\
    si_fills_by_ref A s' = si_fills_by_ref A s /\ si_builds_by_ref A s' = si_builds_by_ref A s /\
    si_subsets_by_ref A s' = si_subsets_by_ref A s /\
    forall dr, state_get A s' dr =
      match im_get l dr with
      | Some c => option_map (fun d => with_count d c) (state_get A s dr)
      | None => state_get A s dr
      end.
Proof.
  induction l as [|[i c] l IH]; intros Hnd s Hlive; simpl.
  { exists s. do 4 (split; [done|]). done. }
  apply NoDup_cons in Hnd as [Hi Hnd]. destruct (Hlive (i, c) ltac:(left)) as [d Hd]. simpl in Hd.
  unfold set_depended_on_by at 2. simpl. rewrite Hd. simpl. fold (with_count d c).
  set (s1 := set_deliverables A s (arena_update (si_deliverables A s) i (with_count d c))).
  assert (Hget : forall dr, state_get A s1 dr =
    if decide (dr = i) then Some (with_count d c) else state_get A s dr).
  { intros dr. unfold s1, state_get. simpl. rewrite arena_update_get.
    destruct (decide (dr = i)) as [->|Hne].
    - rewrite decide_True; [done|]. split; [done|]. unfold state_get in Hd. rewrite Hd. eauto.
    - rewrite decide_False; [done|tauto]. }
  destruct (IH Hnd s1) as (s' & -> & F1 & F2 & F3 & Hs').
  { intros e He. unfold live. rewrite Hget. case_decide; [eauto|]. apply Hlive. by right. }
  exists s'. do 4 (split; [done|]). intros dr. rewrite Hs', Hget.
  destruct (decide (i = dr)) as [->|Hne].
  - rewrite (proj2 (im_get_None_iff l dr) Hi), decide_True by done. by rewrite Hd.
  - rewrite decide_False by done. done.
Qed.

Lemma fill_spec s :
  exists s', fill_depended_on_by A s = Done s' /\
    si_fills_by_ref A s' = si_fills_by_ref A s /\ si_builds_by_ref A s' = si_builds_by_ref A s /\
    si_subsets_by_ref A s' = si_subsets_by_ref A s /\
    forall dr, match state_get A s dr with
      | None => state_get A s' dr = None
      | Some d => exists X, dependents_of s dr X /\
          state_get A s' dr = Some (with_count d (Z.of_nat (size X)))
      end.
Proof.
  unfold fill_depended_on_by.
  destruct (mapM_out_returns (fun e : Index * Deliverable A =>
    c ← count_dependents A s (reverse_deps A s) e.1; Done (e.1, c)) (arena_iter (si_deliverables A s)))
    as (counts & -> & Hcounts).
  { intros e _. destruct (count_dependents_spec s e.1) as (X & -> & _). simpl. eauto. }
  assert (Hkeys : counts.*1 = (arena_iter (si_deliverables A s)).*1).
  { induction Hcounts as [|e c l l' Hec _ IH]; [done|]. rewrite !fmap_cons, IH. f_equal.
    by apply bind_Done_inv in Hec as (z & _ & [= <-]). }
  assert (Hval : forall i c, (i, c) ∈ counts -> exists X, dependents_of s i X /\ c = Z.of_nat (size X)).
  { intros i c [n Hn]%list_elem_of_lookup.
    destruct (Forall2_lookup_r _ _ _ _ _ Hcounts Hn) as (e & _ & Hec).
    apply bind_Done_inv in Hec as (z & Hz & [= <- <-]).
    destruct (count_dependents_spec s e.1) as (X & HX & HX'). exists X. split; [done|].
    rewrite Hz in HX. by injection HX. }
  assert (Hnd : NoDup counts.*1) by (rewrite Hkeys; apply arena_iter_nodup).
  simpl. destruct (set_counts_spec counts Hnd s) as (s' & -> & F1 & F2 & F3 & Hs').
  { intros e He. apply elem_of_live_set. unfold live_set. rewrite <- Hkeys.
    apply elem_of_list_to_set, list_elem_of_fmap. by exists e. }
  exists s'. do 4 (split; [done|]). intros dr. rewrite Hs'.
  destruct (state_get A s dr) as [d|] eqn:Hd; [|by destruct (im_get counts dr)].
  destruct (im_get counts dr) as [c|] eqn:Hc.
  - apply im_get_elem in Hc. destruct (Hval dr c Hc) as (X & HX & ->). by exists X.
  - apply im_get_None_iff in Hc. destruct Hc. rewrite Hkeys.
    assert (Hl : live s dr) by (by exists d). apply elem_of_live_set in Hl.
    by apply elem_of_list_to_set in Hl.
Qed.

(** The counters do not change what waits for what. *)
Lemma same_waits s s' :
  (forall dr, option_map d_inner (state_get A s' dr) = option_map d_inner (state_get A s dr)) ->
  (forall x y, waits_for s' x y <-> waits_for s x y).
Proof.
  intros Hsame x y. unfold waits_for. specialize (Hsame y).
  destruct (state_get A s y) as [d|], (state_get A s' y) as [d'|]; simplify_eq/=; [|naive_solver].
  split; intros (? & [= <-] & Hin); eexists; (split; [done|]); congruence.
Qed.

(** ** The construction *)

Lemma represented_extends s s' e : extends s s' -> represented s e -> represented s' e.
Proof.
  intros [_ E2 E3 E4]. unfold represented. destruct (td_outputs e.2) as [outs|]; [apply E4|].
  intros [[v Hv]|Hf]; [left|right; auto]. destruct (E2 _ v Hv) as [v' Hv']. rewrite Hv'. eauto.
Qed.

(** What the deliverables of a state stand for. *)
Definition provides s (d : BuildSpecRef) (i : TDep) : Prop :=
  match td_outputs i with
  | None => exists dr, holds s dr (is_build_of d) \/ holds s dr (is_fill d)
  | Some outputs => exists dr, holds s dr (is_subset (subset_of d outputs))
  end.

Lemma represented_provides s d i : state_ok s -> represented s (d, i) -> provides s d i.
Proof.
  intros [_ [T1 T2 T3] _]. unfold represented, provides. simpl.
  destruct (td_outputs i); [intros [dr Hdr]; eauto|].
  intros [[v Hv]|[dr Hdr]]; [|eauto]. destruct (T2 _ _ Hv) as [Hne Hall].
  destruct v as [|e v]; [done|]. exists e.2. left. apply Hall. by left.
Qed.

(** The counters are filled in without touching anything else. *)
Lemma filled_ok s s' :
  wiring_ok s ->
  si_fills_by_ref A s' = si_fills_by_ref A s -> si_builds_by_ref A s' = si_builds_by_ref A s ->
  si_subsets_by_ref A s' = si_subsets_by_ref A s ->
  (forall dr, match state_get A s dr with
     | None => state_get A s' dr = None
     | Some d => exists X, dependents_of s dr X /\
         state_get A s' dr = Some (with_count d (Z.of_nat (size X)))
     end) ->
  wiring_ok s' /\ (forall dr P, holds s dr P -> holds s' dr P) /\
  (forall x y, waits_for s' x y <-> waits_for s x y).
Proof.
  intros [[S1 [T1 T2 T3] S3] S4 S5] F1 F2 F3 Hget.
  assert (Hw : forall x y, waits_for s' x y <-> waits_for s x y).
  { apply same_waits. intros dr. specialize (Hget dr). destruct (state_get A s dr) as [d|].
    - by destruct Hget as (X & _ & ->).
    - by rewrite Hget. }
  assert (Hh : forall dr P, holds s dr P -> holds s' dr P).
  { intros dr P (d & Hd & HP). specialize (Hget dr). rewrite Hd in Hget.
    destruct Hget as (X & _ & Hd'). eexists. split; [exact Hd'|done]. }
  assert (Hl : forall dr, live s' dr <-> live s dr).
  { intros dr. unfold live. specialize (Hget dr). destruct (state_get A s dr) as [d|].
    - destruct Hget as (X & _ & ->). split; eauto.
    - by rewrite Hget. }
  split; [|done]. destruct S1 as [G1 G2]. split; [split|..].
  - split.
    + intros x y Hxy%Hw. apply Hl. by apply (G1 x y).
    + intros dr Hdr%Hl. specialize (G2 dr Hdr). clear Hdr. induction G2 as [dr _ IH].
      constructor. intros y Hy. apply IH. by apply Hw.
  - split; rewrite ?F1, ?F2, ?F3; intros.
    + by apply Hh, T1.
    + destruct (T2 bsr v) as [? Hall]; [done|]. split; [done|]. intros e He. by apply Hh, Hall.
    + by apply Hh, T3.
  - intros dr d Hd. specialize (Hget dr). destruct (state_get A s dr) as [d0|] eqn:E; [|congruence].
    destruct Hget as (X & _ & Hd'). rewrite Hd in Hd'. injection Hd' as ->. simpl. by apply (S3 dr).
  - intros dr sub h b (d & Hd & E). apply Hh, (S4 dr sub h). specialize (Hget dr).
    destruct (state_get A s dr) as [d0|] eqn:E0; [|congruence].
    destruct Hget as (X & _ & Hd'). rewrite Hd in Hd'. injection Hd' as ->. by exists d0.
  - intros bsr v. rewrite F2. apply S5.
Qed.

End orchestrator.

Section construction.
Context `{Arena} `{HashIter}.
Context {A : Type}.
Context (spec_hash : BuildSpecRef -> SpecHash) (subset_hash : SubsetInput -> SpecHash).
Implicit Types (s : StateInner A) (x y dr : DeliverableRef).

(** [dr] is what a build of the phase [pi] is to be given for [dep]: the cache
    fill or the latest earlier build of the spec, or, where outputs are named,
    the subset of the spec with exactly these. *)
Definition wired s (pi : nat) (dep : PlannerDep) dr : Prop :=
  match dep with
  | Cached bsr _ None => holds s dr (is_fill bsr)
  | Built bsr _ _ None => holds s dr (is_build_of bsr) /\ latest_build s pi bsr dr
  | Cached bsr _ (Some outputs) | Built bsr _ _ (Some outputs) => holds s dr (is_subset (subset_of bsr outputs))
  end.

Lemma wired_live s pi dep dr : wired s pi dep dr -> live s dr.
Proof. destruct dep as [bsr cb [o|]|bsr cb w [o|]]; simpl; [| | |intros [Hd _]; revert Hd]; apply holds_live. Qed.

Lemma wired_step s s' pi dep dr : step_ok pi s s' -> wired s pi dep dr -> wired s' pi dep dr.
Proof.
  intros Hst. pose proof Hst as (_ & He & _).
  destruct dep as [bsr cb [o|]|bsr cb w [o|]]; simpl; try (intros ?; by apply (extends_holds s s')).
  intros [Hb Hl]. split; [by apply (extends_holds s s')|by apply (latest_build_step s s')].
Qed.

(** The deliverable of the build [b] of the phase [pi]. *)
Definition planned (g : Graph) s (pi : nat) (b : Build) : Prop :=
  exists spec v dr drs, graph_get g (b_spec b) = Some spec /\
    si_builds_by_ref A s !! b_spec b = Some v /\ (Some pi, dr) ∈ v /\
    holds s dr (eq (DBuild (b_spec b) (spec_hash (b_spec b)) (full_build b) (build_cost spec) drs)) /\
    Forall2 (wired s pi) (b_with_deps b) drs.

Lemma planned_step g s s' pi b : step_ok pi s s' -> planned g s pi b -> planned g s' pi b.
Proof.
  intros Hst (spec & v & dr & drs & Hs & Hv & Hin & Hh & Hw). pose proof Hst as (_ & He & _).
  destruct (ext_builds s s' He _ v Hv) as [v' Hv']. exists spec, (v ++ v'), dr, drs.
  split; [done|]. split; [done|]. split; [apply elem_of_app; by left|].
  split; [by apply (extends_holds s s')|]. eapply Forall2_impl; [exact Hw|]. intros dep x. by apply wired_step.
Qed.

Lemma planned_has g s pi b : planned g s pi b -> has_build s (S pi) (b_spec b).
Proof. intros (_ & v & dr & _ & _ & Hv & Hin & _). exists v, pi, dr. split; [done|]. split; [done|lia]. Qed.

(** The state built from a plan. *)
Record constructed (g : Graph) (plan : list BuildPhase) s : Prop := {
  cons_ok : wiring_ok s;
  cons_builds n ph b : plan !! n = Some ph -> b ∈ phase_builds ph -> planned g s n b;
  cons_tops : exists m, for_toplevels g (g_top_levels g) false = Done m /\
    forall d i, m !! d = Some i -> provides s d i;
  cons_counts dr d : state_get A s dr = Some d ->
    exists X, dependents_of s dr X /\ d_depended_on_by d = Z.of_nat (size X);
}.

(** A [Built] dependency is in the state when it is wired. *)
Definition ready s (pi : nat) (dep : PlannerDep) : Prop :=
  match dep with Cached _ _ _ => True | Built x _ _ _ => has_build s pi x end.

Lemma ready_extends s s' pi dep : extends s s' -> ready s pi dep -> ready s' pi dep.
Proof. intros He. destruct dep; [done|]. by apply has_build_extends. Qed.

Lemma wire_dep_step pi s dep :
  wiring_ok s -> ready s pi dep ->
  exists s' dr, wire_dep A spec_hash subset_hash pi s dep = Done (s', dr) /\ step_ok pi s s' /\
    si_builds_by_ref A s' = si_builds_by_ref A s /\ wired s' pi dep dr.
Proof.
  intros Hs Hdep. destruct dep as [bsr cb outs|bsr cb w outs]; simpl.
  - assert (Hfill : exists s1 fill, match si_fills_by_ref A s !! bsr with
        | Some dr => (s, dr)
        | None => state_insert A s None (DCacheFill bsr (spec_hash bsr)) end = (s1, fill) /\
        step_ok pi s s1 /\ si_builds_by_ref A s1 = si_builds_by_ref A s /\ holds s1 fill (is_fill bsr)).
    { destruct (si_fills_by_ref A s !! bsr) as [dr|] eqn:E.
      - exists s, dr. split; [done|]. split; [by apply step_refl|]. split; [done|].
        by apply (tables_fills s (so_tables s (wo_state s Hs))).
      - eexists _, _. split; [apply surjective_pairing|].
        destruct (insert_step pi s None (DCacheFill bsr (spec_hash bsr))) as (H1 & H2 & H3); [done..|].
        split; [done|]. split; [done|]. by apply H3. }
    destruct Hfill as (s1 & fill & -> & Hst & Hb & Hl). destruct outs as [outs|]; [|by exists s1, fill].
    eexists _, _. split; [by rewrite <- surjective_pairing|].
    destruct (subset_or_insert_step pi s1 (subset_of bsr outs) (spec_hash bsr) fill) as (H1 & H2 & H3);
      [apply Hst|destruct Hl as (d & Hd & Hf); exists d; split; [done|by right]|].
    split; [by apply step_trans with s1|]. split; [congruence|done].
  - destruct (last_built_before s pi bsr Hs Hdep) as (build & -> & Hlatest & Hl). simpl.
    destruct outs as [outs|]; [|exists s, build; split; [done|]; split; [by apply step_refl|done]].
    eexists _, _. split; [by rewrite <- surjective_pairing|].
    apply subset_or_insert_step; [done|]. destruct Hl as (d & Hd & Hf). exists d. split; [done|by left].
Qed.

Lemma wire_deps_step pi s deps :
  wiring_ok s -> (forall dep, dep ∈ deps -> ready s pi dep) ->
  exists s' drs, wire_deps A spec_hash subset_hash pi s deps = Done (s', drs) /\ step_ok pi s s' /\
    si_builds_by_ref A s' = si_builds_by_ref A s /\ Forall2 (wired s' pi) deps drs.
Proof.
  intros Hs Hdeps. unfold wire_deps.
  assert (Hgo : forall rest pre s1 drs, step_ok pi s s1 -> si_builds_by_ref A s1 = si_builds_by_ref A s ->
    Forall2 (wired s1 pi) pre drs -> (forall dep, dep ∈ rest -> ready s pi dep) ->
    exists s' drs', foldM (fun (acc : StateInner A * list DeliverableRef) d =>
        r ← wire_dep A spec_hash subset_hash pi acc.1 d; Done (r.1, acc.2 ++ [r.2])) (s1, drs) rest = Done (s', drs') /\
      step_ok pi s s' /\ si_builds_by_ref A s' = si_builds_by_ref A s /\ Forall2 (wired s' pi) (pre ++ rest) drs').
  { induction rest as [|dep rest IH]; intros pre s1 drs Hst Hb Hw Hr; cbn [foldM].
    { exists s1, drs. rewrite app_nil_r. done. }
    destruct (wire_dep_step pi s1 dep) as (s2 & dr & E & Hst2 & Hb2 & Hdr).
    { apply Hst. } { apply (ready_extends s s1); [apply Hst|]. apply Hr. by left. }
    cbn [fst snd]. rewrite E, !bind_Done. cbn [fst snd].
    destruct (IH (pre ++ [dep]) s2 (drs ++ [dr])) as (s' & drs' & Erun & H1 & H2 & H3).
    - by apply step_trans with s1.
    - congruence.
    - apply Forall2_app; [|by repeat constructor]. eapply Forall2_impl; [exact Hw|]. intros x y. by apply wired_step.
    - intros x Hx. apply Hr. by right.
    - exists s', drs'. split; [exact Erun|]. rewrite <- app_assoc in H3. done. }
  apply (Hgo deps [] s []); [by apply step_refl|done|constructor|done].
Qed.

(** No build in the state is of a phase after [n]. *)
Definition up_to s (n : nat) : Prop :=
  forall bsr v e, si_builds_by_ref A s !! bsr = Some v -> e ∈ v -> (entry_phase e <= n)%nat.

Lemma add_build_step g pi s b :
  wiring_ok s -> up_to s pi -> is_Some (graph_get g (b_spec b)) ->
  (forall dep, dep ∈ b_with_deps b -> ready s pi dep) ->
  exists s', add_build A spec_hash subset_hash g pi s b = Done s' /\ step_ok pi s s' /\ up_to s' pi /\ planned g s' pi b.
Proof.
  intros Hs Hup [spec Hspec] Hdeps. unfold add_build. rewrite Hspec. simpl.
  destruct (wire_deps_step pi s (b_with_deps b) Hs Hdeps) as (s1 & drs & -> & Hst & Hb & Hw). simpl.
  eexists. split; [reflexivity|]. set (di := DBuild _ _ _ _ _).
  assert (Hins : insertable s1 (Some pi) di).
  { split; [|exists pi; split; [done|]; intros v e; rewrite Hb; apply Hup].
    intros x [k Hk]%list_elem_of_lookup. destruct (Forall2_lookup_r _ _ _ _ _ Hw Hk) as (dep & _ & Hd). by apply wired_live in Hd. }
  destruct (insert_build_entries s1 pi (b_spec b) (spec_hash (b_spec b)) (full_build b) (build_cost spec) drs) as (v & Hv & Hin & Hnew).
  fold di in Hv, Hin, Hnew.
  assert (Hst2 : step_ok pi s1 (state_insert A s1 (Some pi) di).1).
  { split; [apply insert_wiring; [apply Hst|done]|]. split; [apply insert_extends|].
    intros k v' e Hv' He. destruct (Hnew k v' e Hv' He) as [E|?]; [left|by right]. unfold entry_phase. by rewrite E. }
  split; [by apply step_trans with s1|]. split.
  - intros k v' e Hv' He. destruct (Hnew k v' e Hv' He) as [E|(v0 & Hv0 & He0)]; [unfold entry_phase; by rewrite E|].
    rewrite Hb in Hv0. by apply (Hup k v0).
  - exists spec, v, (state_insert A s1 (Some pi) di).2, drs. split; [done|]. split; [done|]. split; [done|].
    split; [by apply insert_holds|]. eapply Forall2_impl; [exact Hw|]. intros x y. by apply wired_step.
Qed.

(** A whole phase: its builds draw on the phases before it only. *)
Lemma add_phase_step g pi s ph :
  wiring_ok s -> up_to s pi -> (forall b, b ∈ phase_builds ph -> is_Some (graph_get g (b_spec b))) ->
  (forall b dep, b ∈ phase_builds ph -> dep ∈ b_with_deps b -> ready s pi dep) ->
  exists s', add_phase A spec_hash subset_hash g s (pi, ph) = Done s' /\ step_ok pi s s' /\ up_to s' pi /\
    forall b, b ∈ phase_builds ph -> planned g s' pi b.
Proof.
  unfold add_phase. simpl. intros Hs Hup Hlive Hdeps.
  assert (Hgen : forall bs s0, step_ok pi s s0 -> up_to s0 pi -> (forall b, b ∈ bs -> b ∈ phase_builds ph) ->
    exists s', foldM (add_build A spec_hash subset_hash g pi) s0 bs = Done s' /\ step_ok pi s0 s' /\ up_to s' pi /\
      forall b, b ∈ bs -> planned g s' pi b).
  { induction bs as [|b bs IH]; intros s0 Hst Hup0 Hbs; simpl.
    { exists s0. split; [done|]. split; [apply step_refl, Hst|]. split; [done|]. by intros b ?%elem_of_nil. }
    destruct (add_build_step g pi s0 b) as (s1 & -> & Hst1 & Hup1 & Hb); [apply Hst|done|by apply Hlive, Hbs; left| |].
    { intros dep Hdep. apply (ready_extends s s0); [apply Hst|]. by apply (Hdeps b dep (Hbs b ltac:(left))). }
    simpl. destruct (IH s1) as (s' & -> & Hst' & Hup' & Hall); [by apply step_trans with s0|done|intros; apply Hbs; by right|].
    exists s'. split; [done|]. split; [by apply step_trans with s1|]. split; [done|].
    intros b' [->|Hb']%elem_of_cons; [|auto]. by apply (planned_step g s1 s'). }
  apply Hgen; [by apply step_refl|done|done].
Qed.

Lemma up_to_mono s n m : (n <= m)%nat -> up_to s n -> up_to s m.
Proof. intros Hle Hup bsr v e Hv He. specialize (Hup bsr v e Hv He). lia. Qed.

(** What feeds a build is ready for it. *)
Lemma fed_ready g bp (U : BuildSpecRef -> Prop) s n b dep :
  (forall x, U x -> bp x = false -> has_build s n x) -> fed g bp U b -> dep ∈ b_with_deps b -> ready s n dep.
Proof.
  intros HU (spec & _ & Hfed) Hin. destruct (is_pure_prebuilt spec); [rewrite Hfed in Hin; by apply elem_of_nil in Hin|].
  destruct Hfed as [_ Hfed]. destruct (Hfed dep Hin) as (d & o & _ & Hu & _ & _ & Hk & _). destruct dep; [done|]. by apply HU.
Qed.

Lemma add_phases_step g bp plan : forall n s (U : BuildSpecRef -> Prop),
  wiring_ok s -> up_to s n -> phases_ordered g bp U plan -> (forall x, U x -> bp x = false -> has_build s n x) ->
  exists s', foldM (add_phase A spec_hash subset_hash g) s (imap (fun j ph => ((n + j)%nat, ph)) plan)
      = Done s' /\ step_ok n s s' /\
    forall i ph b, plan !! i = Some ph -> b ∈ phase_builds ph -> planned g s' (n + i) b.
Proof.
  induction plan as [|ph plan IH]; intros n s U Hs Hup Hord HU; simpl.
  { exists s. split; [done|]. split; [by apply step_refl|]. by intros i ph b Hi. }
  destruct Hord as [Hd Hord]. rewrite Nat.add_0_r.
  destruct (add_phase_step g n s ph Hs Hup) as (s1 & -> & Hst1 & Hup1 & Hb1).
  { intros b Hb. destruct (Hd b Hb) as (spec & Hspec & _). eauto. }
  { intros b dep Hb. by apply (fed_ready g bp U s n b dep HU (Hd b Hb)). }
  simpl. destruct (IH (S n) s1 (fun k => U k \/ k ∈ map b_spec (phase_builds ph))) as (s' & Hrun & Hst' & Hall).
  - apply Hst1.
  - by apply (up_to_mono s1 n); [lia|].
  - done.
  - intros x [Hx|Hx] Hbp; [by apply (has_build_extends s s1 n (S n)); [apply Hst1|lia|auto]|].
    apply list_elem_of_fmap in Hx as (b & -> & Hb). by apply (planned_has g), Hb1.
  - exists s'. split.
    { rewrite <- Hrun. f_equal. apply imap_ext. intros i x _. simpl. f_equal. lia. }
    assert (Hst2 : step_ok n s1 s') by (by apply (step_weaken (S n)); [lia|]).
    split; [by apply step_trans with s1|].
    intros [|i] ph' b Hi Hb; simpl in Hi.
    + injection Hi as <-. rewrite Nat.add_0_r. apply (planned_step g s1 s'); auto.
    + replace (n + S i)%nat with (S n + i)%nat by lia. by apply (Hall i ph').
Qed.

Lemma represent_step n s e :
  wiring_ok s ->
  exists s', represent A spec_hash subset_hash s e = Done s' /\ step_ok n s s' /\ represented s' e.
Proof.
  intros Hs. destruct e as [bsr [nb outs]]. unfold represent, represented. simpl.
  destruct outs as [outs|].
  - case_bool_decide as Hsub; [exists s; split; [done|]; split; [by apply step_refl|done]|].
    case_bool_decide as Hb; simpl.
    { destruct (last_built_any s bsr Hs Hb) as (dr & -> & d & Hd & Hk). simpl.
      eexists. split; [reflexivity|]. split; [|apply insert_subset_lookup].
      apply insert_step; [done| |done]. exists d. split; [done|by left]. }
    assert (Hnb : last_built A s None bsr = Done None).
    { unfold last_built, get_built. apply eq_None_not_Some in Hb. by rewrite Hb. }
    case_bool_decide as Hf; simpl.
    { rewrite Hnb. simpl. destruct Hf as [dr Hf]. rewrite Hf. simpl.
      eexists. split; [reflexivity|]. split; [|apply insert_subset_lookup].
      apply insert_step; [done| |done]. destruct (tables_fills s (so_tables s (wo_state s Hs)) bsr dr Hf) as (d & Hd & Hk).
      exists d. split; [done|by right]. }
    pose proof (insert_step n s None (DCacheFill bsr (spec_hash bsr)) Hs I I) as (Hst & _ & Hl).
    specialize (Hl (is_source (subset_of bsr outs)) ltac:(by right)).
    destruct (state_insert A s None (DCacheFill bsr (spec_hash bsr))) as [s1 dr]. simpl in *.
    eexists. split; [reflexivity|]. split; [|apply insert_subset_lookup].
    apply step_trans with s1; [done|]. apply insert_step; [apply Hst|done|done].
  - destruct (bool_decide _ || _) eqn:E; simpl.
    + exists s. split; [done|]. split; [by apply step_refl|].
      apply orb_true_iff in E as [E|E]; apply bool_decide_eq_true_1 in E; auto.
    + eexists. split; [reflexivity|]. split; [by apply insert_step|].
      right. rewrite insert_fill_lookup. eauto.
Qed.

Lemma represent_all n l : forall s, wiring_ok s ->
  exists s', foldM (represent A spec_hash subset_hash) s l = Done s' /\ step_ok n s s' /\
    forall e, e ∈ l -> represented s' e.
Proof.
  induction l as [|e l IH]; intros s Hs; simpl.
  { exists s. split; [done|]. split; [by apply step_refl|]. by intros e ?%elem_of_nil. }
  destruct (represent_step n s e Hs) as (s1 & -> & Hst1 & He). simpl.
  destruct (IH s1) as (s' & -> & Hst' & Hall); [apply Hst1|].
  exists s'. split; [done|]. split; [by apply step_trans with s1|].
  intros e' [->|He']%elem_of_cons; [|auto]. by apply (represented_extends s1 s'); [apply Hst'|].
Qed.

Lemma planned_filled g s s' n b :
  si_builds_by_ref A s' = si_builds_by_ref A s -> (forall dr P, holds s dr P -> holds s' dr P) ->
  planned g s n b -> planned g s' n b.
Proof.
  intros F Hh (spec & v & dr & drs & Hs & Hv & Hin & Hd & Hw). exists spec, v, dr, drs. rewrite F.
  split; [done|]. split; [done|]. split; [done|]. split; [by apply Hh|]. eapply Forall2_impl; [exact Hw|].
  intros dep x. unfold wired, latest_build. rewrite F.
  destruct dep as [bsr cb [o|]|bsr cb w [o|]]; [by apply Hh..|]. intros [H1 H2]. split; [by apply Hh|done].
Qed.

Lemma from_plan_spec g bp plan :
  graph_closed g -> (forall t, t ∈ g_top_levels g -> is_Some (graph_get g t)) ->
  phases_ordered g bp (fun k => bp k = true) plan ->
  exists s, from_plan A spec_hash subset_hash g plan = Done s /\ constructed g plan s.
Proof.
  intros Hg Htops Hord. unfold from_plan.
  destruct (add_phases_step g bp plan 0 (state_new A) (fun k => bp k = true) new_wiring) as (s1 & Hrun & [Hok1 _] & Hb1); [|done| |].
  { intros bsr v e Hv. simpl in Hv. by rewrite lookup_empty in Hv. }
  { intros x Hx Hbp. congruence. }
  assert (Himap : imap pair plan = imap (fun j ph => ((0 + j)%nat, ph)) plan) by done.
  rewrite Himap, Hrun, bind_Done.
  destruct (for_toplevels_total g (g_top_levels g) false Hg Htops) as (m & Hm & _).
  rewrite Hm, bind_Done.
  destruct (represent_all (length plan) (hash_iter m) s1 Hok1) as (s2 & -> & Hst2 & Hrep). rewrite bind_Done.
  pose proof Hst2 as (Hok2 & He2 & _).
  destruct (fill_spec s2) as (s3 & -> & F1 & F2 & F3 & Hget).
  destruct (filled_ok s2 s3 Hok2 F1 F2 F3 Hget) as (Hok3 & Hh & Hw).
  exists s3. split; [done|]. split; [done| | |].
  - intros n ph b Hn Hb. pose proof (Hb1 n ph b Hn Hb) as Hp. simpl in Hp.
    apply (planned_step g s1 s2) in Hp; [|apply (step_weaken (length plan)); [by apply Nat.lt_le_incl, lookup_lt_Some with ph|done]].
    by apply (planned_filled g s2 s3).
  - exists m. split; [done|]. intros d i Hi%elem_of_hash_iter%Hrep.
    apply (represented_provides s2) in Hi; [|apply (wo_state s2 Hok2)]. unfold provides in *.
    destruct (td_outputs i); [destruct Hi as [dr Hi]; exists dr; auto|].
    destruct Hi as [dr [Hi|Hi]]; exists dr; auto.
  - intros dr d Hd. specialize (Hget dr). destruct (state_get A s2 dr) as [d0|]; [|congruence].
    destruct Hget as (X & HX & Hd'). rewrite Hd in Hd'. injection Hd' as ->. exists X.
    split; [|done]. intros y. rewrite (HX y). split; apply tc_mono; intros a b; apply Hw.
Qed.

(** C22: from a graph to schedulable work.  For every graph whose references
    resolve and where no spec is, through any chain, its own replacement,
    planning the toplevels and building the orchestration state from the plan
    never panics: either the plan is a cycle error, or [State::from_plan]
    returns a state in which
    - every reference is to an existing deliverable, no chain of references is
      infinite, and every deliverable is pending;
    - every planned build has its deliverable, with its hash, its cost and
      whether it is free of replacements, and its dependency list is, one for
      one, that of the plan: for a cached dependency the spec's cache fill, for
      a built one the spec's latest build of an earlier phase, and where only
      some outputs are asked for the subset of that spec with exactly these;
    - every subset is taken from a build or a cache fill of its own spec;
    - everything the toplevels need at run time is provided, as a build, a
      cache fill, or exactly the subset of outputs asked for;
    - each [depended_on_by] is the exact number of deliverables that directly
      or indirectly wait for it. *)
Theorem orchestration_constructed env bp g :
  graph_closed g -> breakers_acyclic g -> (forall t, t ∈ g_top_levels g -> is_Some (graph_get g t)) ->
  exists p r, with_toplevels bp g (g_top_levels g) = Done p /\
    collect_plan (plan_fuel p) env p = Done r /\
    match r with
    | inr (Cycles _) => True
    | inl plan => exists s, from_plan A spec_hash subset_hash g plan = Done s /\ constructed g plan s
    end.
Proof.
  intros Hg Hac Htops.
  destruct (plan_complete_aux env bp g (g_top_levels g) Hg Hac Htops) as (p & r & Hp & Hr & Hok).
  exists p, r. do 2 (split; [done|]). destruct r as [plan|[cs]]; [|done].
  destruct Hok as (Hord & _). by apply (from_plan_spec g bp).
Qed.
End construction.

(** ** Witnesses *)

(** The bootstrap graph, with hashes that only name their spec. *)
Definition demo_spec_hash (bsr : BuildSpecRef) : SpecHash := [Z.of_nat (ix_slot bsr)].
Definition demo_subset_hash (sub : SubsetInput) : SpecHash := [-1; Z.of_nat (ix_slot (sub_from sub))].

Lemma orchestration_constructed_witness :
  exists p r, with_toplevels bp_unit bootstrap_graph (g_top_levels bootstrap_graph) = Done p /\
    collect_plan (plan_fuel p) no_env p = Done r /\
    match r with
    | inr (Cycles _) => True
    | inl plan => exists s, from_plan unit demo_spec_hash demo_subset_hash bootstrap_graph plan = Done s /\
        constructed demo_spec_hash bootstrap_graph plan s
    end.
Proof.
  apply (orchestration_constructed demo_spec_hash demo_subset_hash no_env bp_unit bootstrap_graph).
  - exact bootstrap_closed.
  - exact bootstrap_acyclic.
  - exact bootstrap_tops.
Defined.

(** The deliverables of the bootstrap: per deliverable its spec, whether it
    is a build free of replacements, and what it waits for. *)
Definition summary (i : DeliverableInner) : string * nat * bool * list nat :=
  match i with
  | DBuild bsr _ full _ deps => ("build"%string, ix_slot bsr, full, map ix_slot deps)
  | DSubset sub _ build => ("subset"%string, ix_slot (sub_from sub), true, [ix_slot build])
  | DCacheFill bsr _ => ("fill"%string, ix_slot bsr, true, [])
  end.

(** The C library is rebuilt without replacements (deliverable 6), but the
    subset of it that the shell needs at run time (deliverable 2) stays the
    one taken from the first build (deliverable 1). *)
Example bootstrap_deliverables :
  (p ← with_toplevels bp_unit bootstrap_graph (g_top_levels bootstrap_graph);
   r ← collect_plan (plan_fuel p) no_env p;
   match r with
   | inl plan =>
       s ← from_plan unit demo_spec_hash demo_subset_hash bootstrap_graph plan;
       Done (map (fun e => summary (d_inner e.2)) (arena_iter (si_deliverables unit s)))
   | inr _ => Done []
   end)
  = Done [("build"%string, 2%nat, true, []); ("build"%string, 1%nat, false, [0%nat]);
          ("subset"%string, 1%nat, true, [1%nat]); ("build"%string, 3%nat, false, [2%nat; 0%nat]);
          ("build"%string, 0%nat, true, [1%nat]); ("build"%string, 3%nat, true, [4%nat; 2%nat]);
          ("build"%string, 1%nat, true, [4%nat])].
Proof. vm_compute. reflexivity. Qed.
