(* ===== verification/Scheduler.v ===== *)
(** * The orchestrator's main loop (crates/orchestrator/src/lib.rs)

    [Orchestrator::run_impl]: spawn a task for every deliverable whose
    dependencies are complete, most depended-on first, wait for one task to
    end, repeat.  Tasks run concurrently with the loop: a task completes its
    deliverable under the state lock at any moment between two steps of the
    loop.  The loop and the tasks are one step relation; the theorems are
    about every execution of it. *)

From stdpp Require Import base list gmap strings numbers sorting relations.
From Stdlib Require Import ZArith Lia.
From S2P Require Import Prelude Text GraphModel Transitives Planner.
From S2P Require Import PlannerReach PlannerPhases PlannerPlan.
From S2P Require Import Orchestrator OrchestratorProps.
Open Scope Z_scope.

Section scheduler.
Context `{Arena} `{HashIter}.
(** [E]: the errors other than [Error::DanglingCacheHit], join errors
    included. *)
Context {A E : Type}.
Implicit Types (s : StateInner A) (dr x y : DeliverableRef).

(** What a task handed to [pending.join_next()]. *)
Inductive TaskResult : Type :=
| TaskOk
| TaskDangling (hits : list BuildSpecRef)
| TaskErr (e : E).

Inductive RunOutcome : Type :=
| RunOk (artifacts : list A)
| RunDangling (hits : list BuildSpecRef)
| RunErr (e : E).

(** Where the loop is: at the [while] condition, at [join_next], in the drain
    loop after it, or returned. *)
Inductive LoopPos : Type :=
| AtTop
| AtJoin
| AtDrain
| Returned (r : RunOutcome).

Record RunState : Type := {
  rs_state : StateInner A;
  rs_running : list DeliverableRef;
  rs_finished : list TaskResult;
  rs_dangling : list BuildSpecRef;
  rs_pos : LoopPos;
}.

(** [a.depended_on_by.cmp(&b.depended_on_by).reverse()]. *)
Definition count_of s dr : Z :=
  match state_get A s dr with Some d => d_depended_on_by d | None => 0 end.
Definition more_depended_on s x y : Prop := count_of s y <= count_of s x.
#[global] Instance more_depended_on_dec s : RelDecision (more_depended_on s).
Proof. unfold more_depended_on. intros x y. apply _. Defined.

Definition with_state (d : Deliverable A) (st : DeliverableState A) : Deliverable A :=
  {| d_inner := d_inner d; d_state := st; d_depended_on_by := d_depended_on_by d |}.

Definition set_state s dr (d : Deliverable A) (st : DeliverableState A) : StateInner A :=
  set_deliverables A s (arena_update (si_deliverables A s) dr (with_state d st)).

(** Spawning one task: [get_mut(&dr).unwrap()], the assertion, the new state. *)
Definition spawn s dr : outcome (StateInner A) :=
  d ← unwrap (state_get A s dr);
  match d_state d with
  | Pending => Done (set_state s dr d InProgress)
  | _ => Panicked
  end.

(** One pass of the loop up to [join_next]. *)
Definition spawn_runnables s : outcome (StateInner A * list DeliverableRef) :=
  runnables ← state_runnable A s;
  let runnables := merge_sort (more_depended_on s) runnables in
  s' ← foldM spawn s runnables;
  Done (s', runnables).

(** The artifacts of a finished run; a deliverable that is not complete is
    [unreachable!()]. *)
Definition artifacts s : outcome (list A) :=
  mapM_out (fun e : Index * Deliverable A =>
    match d_state e.2 with Complete a => Done a | _ => Panicked end)
    (arena_iter (si_deliverables A s)).

(** The loop and its tasks.  The loop reads whether all is done and collects
    the runnables under two locks in turn, here one step: a task that completes
    in between only makes the loop go round once more.  A task marks its deliverable
    complete and ends in one step: the loop learns of the first by the second. *)
Inductive run_step : RunState -> RunState -> Prop :=
| step_spawn s s' run fin dang new :
    state_done A s = false -> spawn_runnables s = Done (s', new) ->
    run_step {| rs_state := s; rs_running := run; rs_finished := fin; rs_dangling := dang; rs_pos := AtTop |}
             {| rs_state := s'; rs_running := run ++ new; rs_finished := fin; rs_dangling := dang; rs_pos := AtJoin |}
| step_done s run fin dang :
    state_done A s = true ->
    run_step {| rs_state := s; rs_running := run; rs_finished := fin; rs_dangling := dang; rs_pos := AtTop |}
             {| rs_state := s; rs_running := run; rs_finished := fin; rs_dangling := dang; rs_pos := AtDrain |}
| step_join_ok s run fin1 fin2 dang :
    run_step {| rs_state := s; rs_running := run; rs_finished := fin1 ++ TaskOk :: fin2;
                rs_dangling := dang; rs_pos := AtJoin |}
             {| rs_state := s; rs_running := run; rs_finished := fin1 ++ fin2;
                rs_dangling := dang; rs_pos := AtTop |}
| step_join_dangling s run fin1 fin2 dang hits :
    run_step {| rs_state := s; rs_running := run; rs_finished := fin1 ++ TaskDangling hits :: fin2;
                rs_dangling := dang; rs_pos := AtJoin |}
             {| rs_state := s; rs_running := run; rs_finished := fin1 ++ fin2;
                rs_dangling := dang ++ hits; rs_pos := AtTop |}
| step_join_err s run fin1 fin2 dang e :
    run_step {| rs_state := s; rs_running := run; rs_finished := fin1 ++ TaskErr e :: fin2;
                rs_dangling := dang; rs_pos := AtJoin |}
             {| rs_state := s; rs_running := []; rs_finished := [];
                rs_dangling := dang; rs_pos := Returned (RunErr e) |}
| step_join_none s dang :
    run_step {| rs_state := s; rs_running := []; rs_finished := []; rs_dangling := dang; rs_pos := AtJoin |}
             {| rs_state := s; rs_running := []; rs_finished := []; rs_dangling := dang;
                rs_pos := match dang with [] => AtTop | _ => Returned (RunDangling dang) end |}
| step_drain_ok s run fin1 fin2 dang :
    run_step {| rs_state := s; rs_running := run; rs_finished := fin1 ++ TaskOk :: fin2;
                rs_dangling := dang; rs_pos := AtDrain |}
             {| rs_state := s; rs_running := run; rs_finished := fin1 ++ fin2;
                rs_dangling := dang; rs_pos := AtDrain |}
| step_drain_dangling s run fin1 fin2 dang hits :
    run_step {| rs_state := s; rs_running := run; rs_finished := fin1 ++ TaskDangling hits :: fin2;
                rs_dangling := dang; rs_pos := AtDrain |}
             {| rs_state := s; rs_running := []; rs_finished := [];
                rs_dangling := dang; rs_pos := Returned (RunDangling hits) |}
| step_drain_err s run fin1 fin2 dang e :
    run_step {| rs_state := s; rs_running := run; rs_finished := fin1 ++ TaskErr e :: fin2;
                rs_dangling := dang; rs_pos := AtDrain |}
             {| rs_state := s; rs_running := []; rs_finished := [];
                rs_dangling := dang; rs_pos := Returned (RunErr e) |}
| step_return s dang arts :
    artifacts s = Done arts ->
    run_step {| rs_state := s; rs_running := []; rs_finished := []; rs_dangling := dang; rs_pos := AtDrain |}
             {| rs_state := s; rs_running := []; rs_finished := []; rs_dangling := dang;
                rs_pos := Returned (RunOk arts) |}
(* a task completes its deliverable, or fails *)
| step_task_ok s run1 run2 fin dang pos dr d a :
    (forall r, pos <> Returned r) -> state_get A s dr = Some d ->
    run_step {| rs_state := s; rs_running := run1 ++ dr :: run2; rs_finished := fin;
                rs_dangling := dang; rs_pos := pos |}
             {| rs_state := set_state s dr d (Complete a); rs_running := run1 ++ run2;
                rs_finished := fin ++ [TaskOk]; rs_dangling := dang; rs_pos := pos |}
| step_task_dangling s run1 run2 fin dang pos dr hits :
    (forall r, pos <> Returned r) -> hits <> [] ->
    run_step {| rs_state := s; rs_running := run1 ++ dr :: run2; rs_finished := fin;
                rs_dangling := dang; rs_pos := pos |}
             {| rs_state := s; rs_running := run1 ++ run2; rs_finished := fin ++ [TaskDangling hits];
                rs_dangling := dang; rs_pos := pos |}
| step_task_err s run1 run2 fin dang pos dr e :
    (forall r, pos <> Returned r) ->
    run_step {| rs_state := s; rs_running := run1 ++ dr :: run2; rs_finished := fin;
                rs_dangling := dang; rs_pos := pos |}
             {| rs_state := s; rs_running := run1 ++ run2; rs_finished := fin ++ [TaskErr e];
                rs_dangling := dang; rs_pos := pos |}.

(** The start of [run_impl]. *)
Definition run_start s : RunState :=
  {| rs_state := s; rs_running := []; rs_finished := []; rs_dangling := []; rs_pos := AtTop |}.

(** ** Reading and writing states *)

Definition state_of s dr : option (DeliverableState A) := option_map d_state (state_get A s dr).
Definition inner_of s dr : option DeliverableInner := option_map d_inner (state_get A s dr).

Definition complete s dr : Prop := exists a, state_of s dr = Some (Complete a).

(** Everything [dr] waits for is complete. *)
Definition ready s dr : Prop := forall x, waits_for s x dr -> complete s x.

Lemma set_state_get s dr d st x :
  state_get A s dr = Some d ->
  state_get A (set_state s dr d st) x =
  if decide (x = dr) then Some (with_state d st) else state_get A s x.
Proof.
  intros Hd. unfold set_state, state_get. simpl. rewrite arena_update_get.
  destruct (decide (x = dr)) as [->|Hne].
  - rewrite decide_True; [done|]. split; [done|]. unfold state_get in Hd. rewrite Hd. eauto.
  - rewrite decide_False; [done|tauto].
Qed.

Lemma set_state_inner s dr d st x :
  state_get A s dr = Some d -> inner_of (set_state s dr d st) x = inner_of s x.
Proof.
  intros Hd. unfold inner_of. rewrite (set_state_get s dr d st x Hd).
  case_decide; [subst; by rewrite Hd|done].
Qed.

Lemma set_state_state s dr d st x :
  state_get A s dr = Some d ->
  state_of (set_state s dr d st) x = if decide (x = dr) then Some st else state_of s x.
Proof.
  intros Hd. unfold state_of. rewrite (set_state_get s dr d st x Hd). by case_decide.
Qed.

(** The same work, whatever its progress. *)
Definition same_work s s' : Prop := forall x, inner_of s' x = inner_of s x.

Lemma same_work_waits s s' x y : same_work s s' -> waits_for s' x y <-> waits_for s x y.
Proof. intros Hw. exact (same_waits s s' Hw x y). Qed.

Lemma same_work_live s s' dr : same_work s s' -> live s' dr <-> live s dr.
Proof.
  intros Hw. specialize (Hw dr). unfold inner_of, live in *.
  destruct (state_get A s dr), (state_get A s' dr); simpl in *; split; intros []; try done; eauto.
Qed.

Lemma same_work_grounded s s' : same_work s s' -> grounded s -> grounded s'.
Proof.
  intros Hw [G1 G2]. split.
  - intros x y Hxy%(same_work_waits s s' x y Hw). apply (same_work_live s s' x Hw). by apply (G1 x y).
  - intros dr Hdr%(same_work_live s s' dr Hw). specialize (G2 dr Hdr). clear Hdr.
    induction G2 as [dr _ IH]. constructor. intros y Hy. apply IH.
    by apply (same_work_waits s s').
Qed.

Lemma state_of_live s dr st : state_of s dr = Some st -> live s dr.
Proof. unfold state_of, live. destruct (state_get A s dr); [eauto|done]. Qed.

(** ** Runnable deliverables *)

Lemma deps_complete_spec s dr d :
  grounded s -> state_get A s dr = Some d ->
  exists r, deps_complete A s (d_inner d) = Done r /\ (r = true <-> ready s dr).
Proof.
  intros [G1 _] Hd. unfold deps_complete, ready.
  assert (Hlive : forall x, x ∈ depends_on (d_inner d) -> live s x).
  { intros x Hx. apply (G1 x dr). by exists d. }
  assert (Hready : (forall x, waits_for s x dr -> complete s x) <->
    forall x, x ∈ depends_on (d_inner d) -> complete s x).
  { split; intros Hc x Hx; apply Hc; [by exists d|]. destruct Hx as (d' & Hd' & Hx). congruence. }
  setoid_rewrite Hready. clear Hready. induction (depends_on (d_inner d)) as [|x l IH]; simpl.
  { exists true. split; [done|]. split; [|done]. by intros _ x ?%elem_of_nil. }
  destruct (Hlive x ltac:(left)) as [dx Hdx]. rewrite Hdx. simpl.
  assert (Hx : is_complete A dx = true <-> complete s x).
  { unfold is_complete, complete, state_of. rewrite Hdx. simpl.
    destruct (d_state dx); split; try done; try (intros [? [=]]); eauto. }
  destruct (is_complete A dx) eqn:Hdone; simpl.
  - destruct IH as (r & -> & Hr); [intros; apply Hlive; by right|]. exists r. split; [done|].
    rewrite Hr. setoid_rewrite elem_of_cons. split; [|naive_solver].
    intros Hl y [->|Hy]; [by apply Hx|auto].
  - exists false. split; [done|]. split; [done|]. intros Hall.
    assert (false = true); [|done]. apply Hx, Hall. by left.
Qed.

Lemma runnable_spec s :
  grounded s ->
  exists l, state_runnable A s = Done l /\ NoDup l /\
    forall dr, dr ∈ l <-> state_of s dr = Some Pending /\ ready s dr.
Proof.
  intros Hg. unfold state_runnable.
  assert (Hgen : forall es acc,
    (forall e, e ∈ es -> state_get A s e.1 = Some e.2) ->
    exists new, foldM (fun (acc : list DeliverableRef) (e : Index * Deliverable A) =>
      match d_state e.2 with
      | Pending => sat ← deps_complete A s (d_inner e.2); Done (if sat : bool then acc ++ [e.1] else acc)
      | _ => Done acc
      end) acc es = Done (acc ++ new) /\ sublist new es.*1 /\
      forall dr, dr ∈ new <-> dr ∈ es.*1 /\ state_of s dr = Some Pending /\ ready s dr).
  { induction es as [|[i d] es IH]; intros acc Hes; simpl.
    { exists []. rewrite app_nil_r. split; [done|]. split; [done|]. set_solver. }
    pose proof (Hes (i, d) ltac:(left)) as Hd. simpl in Hd.
    assert (Hst : state_of s i = Some (d_state d)) by (unfold state_of; by rewrite Hd).
    assert (Hskip : ~ (state_of s i = Some Pending /\ ready s i) -> exists new,
      foldM (fun (acc : list DeliverableRef) (e : Index * Deliverable A) =>
      match d_state e.2 with
      | Pending => sat ← deps_complete A s (d_inner e.2); Done (if sat : bool then acc ++ [e.1] else acc)
      | _ => Done acc
      end) acc es = Done (acc ++ new) /\ sublist new (i :: es.*1) /\
      forall dr, dr ∈ new <-> dr ∈ i :: es.*1 /\ state_of s dr = Some Pending /\ ready s dr).
    { intros Hno. destruct (IH acc) as (new & Hrun & Hsub & Hnew).
      - intros; apply Hes; by right.
      - exists new. split; [done|]. split; [by apply sublist_cons|]. intros dr.
        rewrite Hnew, elem_of_cons. split; [tauto|]. intros [[->|?] ?]; tauto. }
    destruct (d_state d) eqn:Ed; cbn [mbind outcome_bind]; [|apply Hskip; rewrite Hst; by intros []..].
    destruct (deps_complete_spec s i d Hg Hd) as (r & Hr1 & Hr2). rewrite Hr1. simpl. destruct r.
    - destruct (IH (acc ++ [i])) as (new & Hrun & Hsub & Hnew).
      + intros; apply Hes; by right.
      + exists (i :: new). rewrite Hrun, <- app_assoc. split; [done|]. split; [by apply sublist_skip|].
        intros dr. rewrite !elem_of_cons, Hnew. split; [|tauto].
        intros [->|?]; [|tauto]. split; [by left|]. split; [done|]. by apply Hr2.
    - apply Hskip. intros [_ Hready]. by apply Hr2 in Hready. }
  destruct (Hgen (arena_iter (si_deliverables A s)) []) as (l & Hrun & Hsub & Hl).
  - intros [i d] He. unfold state_get. by apply arena_iter_elem.
  - exists l. split; [done|]. split; [eapply sublist_NoDup; [exact (arena_iter_nodup (si_deliverables A s))|done]|].
    intros dr. rewrite Hl. split; [tauto|]. intros [Hp Hr]. split; [|done].
    apply state_of_live, elem_of_live_set in Hp. by apply elem_of_list_to_set in Hp.
Qed.

(** ** Spawning *)

Lemma spawn_all l : NoDup l -> forall s, (forall dr, dr ∈ l -> state_of s dr = Some Pending) ->
  exists s', foldM spawn s l = Done s' /\ same_work s s' /\
    forall x, state_of s' x = if decide (x ∈ l) then Some InProgress else state_of s x.
Proof.
  induction l as [|dr l IH]; intros Hnd s Hl; simpl.
  { exists s. split; [done|]. done. }
  apply NoDup_cons in Hnd as [Hdr Hnd]. pose proof (Hl dr ltac:(left)) as Hp.
  unfold spawn at 2. unfold state_of in Hp. destruct (state_get A s dr) as [d|] eqn:Hd; [|done].
  simpl in *. injection Hp as Hp. rewrite Hp. simpl. set (s1 := set_state s dr d InProgress).
  destruct (IH Hnd s1) as (s' & -> & Hw & Hs').
  { intros x Hx. unfold s1. rewrite set_state_state, decide_False by (done || by intros ->).
    apply Hl. by right. }
  exists s'. split; [done|]. split.
  - intros x. rewrite (Hw x). by apply set_state_inner.
  - intros x. rewrite Hs'. unfold s1. rewrite set_state_state by done.
    destruct (decide (x = dr)) as [->|Hne].
    + rewrite decide_False by done. by rewrite decide_True by left.
    + destruct (decide (x ∈ l)); [by rewrite decide_True by (by right)|].
      rewrite decide_False; [done|]. rewrite elem_of_cons. tauto.
Qed.

Lemma spawn_runnables_spec s :
  grounded s ->
  exists s' new, spawn_runnables s = Done (s', new) /\ same_work s s' /\ NoDup new /\
    (forall dr, dr ∈ new <-> state_of s dr = Some Pending /\ ready s dr) /\
    forall x, state_of s' x = if decide (x ∈ new) then Some InProgress else state_of s x.
Proof.
  intros Hg. unfold spawn_runnables. destruct (runnable_spec s Hg) as (l & -> & Hnd & Hl).
  rewrite bind_Done. set (l' := merge_sort _ l).
  assert (Hperm : l' ≡ₚ l) by apply merge_sort_Permutation.
  assert (Hl' : forall dr, dr ∈ l' <-> state_of s dr = Some Pending /\ ready s dr)
    by (intros dr; rewrite Hperm; apply Hl).
  assert (Hnd' : NoDup l') by (by rewrite Hperm).
  destruct (spawn_all l' Hnd' s) as (s' & -> & Hw & Hs'); [intros dr Hdr; by apply Hl'|].
  rewrite bind_Done. exists s', l'. done.
Qed.

(** ** Blocked deliverables *)

Lemma complete_dec s dr : complete s dr \/ ~ complete s dr.
Proof.
  unfold complete. destruct (state_of s dr) as [[| |a]|]; [right|right|left|right];
    try (by intros [a [=]]). eauto.
Qed.

Lemma ready_or_blocked s dr : ready s dr \/ exists x, waits_for s x dr /\ ~ complete s x.
Proof.
  unfold ready, waits_for. destruct (state_get A s dr) as [d|]; [|left; intros x (? & [=] & _)].
  assert (Hl : (forall x, x ∈ depends_on (d_inner d) -> complete s x) \/
    exists x, x ∈ depends_on (d_inner d) /\ ~ complete s x).
  { induction (depends_on (d_inner d)) as [|x l IH]; [left; by intros x ?%elem_of_nil|].
    destruct (complete_dec s x) as [Hx|Hx]; [|right; exists x; split; [left|done]].
    destruct IH as [IH|(y & Hy & Hc)]; [left|right; exists y; split; [by right|done]].
    intros y [->|Hy]%elem_of_cons; auto. }
  destruct Hl as [Hl|(x & Hx & Hc)].
  - left. intros x (? & [= <-] & Hx). auto.
  - right. exists x. split; [by exists d|done].
Qed.

(** When nothing can be started, whatever is not complete waits for
    something that was started and has not completed. *)
Lemma blocked_by_started s dr :
  grounded s -> (forall x, state_of s x = Some Pending -> ~ ready s x) ->
  live s dr -> ~ complete s dr ->
  exists y, state_of s y = Some InProgress /\ rtc (waits_for s) y dr.
Proof.
  intros [G1 G2] Hblocked Hlive Hnc. specialize (G2 dr Hlive).
  induction G2 as [dr _ IH]. destruct (state_of s dr) as [[| |a]|] eqn:Hst.
  - destruct (ready_or_blocked s dr) as [Hr|(x & Hx & Hc)]; [by destruct (Hblocked dr Hst)|].
    destruct (IH x Hx (G1 x dr Hx) Hc) as (y & Hy & Hr). exists y. split; [done|].
    by apply rtc_r with x.
  - exists dr. split; [done|apply rtc_refl].
  - destruct Hnc. by exists a.
  - exfalso. unfold state_of, live in *. destruct (state_get A s dr); [done|by destruct Hlive].
Qed.

Lemma done_iff s : state_done A s = true <-> forall dr, live s dr -> complete s dr.
Proof.
  unfold state_done. rewrite forallb_forall. unfold live, complete, state_of, state_get. split.
  - intros Hall dr [d Hd]. rewrite Hd. apply arena_iter_elem, list_elem_of_In, Hall in Hd.
    unfold is_complete in Hd. simpl in *. destruct (d_state d); eauto; done.
  - intros Hall [dr d] Hin. apply list_elem_of_In, arena_iter_elem in Hin.
    destruct (Hall dr ltac:(eauto)) as [a Ha]. rewrite Hin in Ha. simpl in Ha.
    unfold is_complete. simpl. by injection Ha as ->.
Qed.

Lemma not_done s : state_done A s = false -> exists dr, live s dr /\ ~ complete s dr.
Proof.
  unfold state_done. intros Hd.
  assert (Hex : exists e, e ∈ arena_iter (si_deliverables A s) /\ is_complete A e.2 = false).
  { induction (arena_iter (si_deliverables A s)) as [|e l IH]; [done|]. simpl in Hd.
    destruct (is_complete A e.2) eqn:Ee; [|exists e; split; [left|done]].
    destruct (IH Hd) as (e' & He' & Hc). exists e'. split; [by right|done]. }
  destruct Hex as ([dr d] & Hin%arena_iter_elem & Hc). exists dr.
  unfold live, complete, state_of, state_get. rewrite Hin. split; [eauto|]. intros [a [= Ha]].
  unfold is_complete in Hc. simpl in Hc. by rewrite Ha in Hc.
Qed.

(** ** The invariant *)

Definition failure (r : TaskResult) : Prop := r <> TaskOk.

Record run_inv (r : RunState) : Prop := {
  ri_grounded : grounded (rs_state r);
  ri_nodup : NoDup (rs_running r);
  ri_running dr : dr ∈ rs_running r -> state_of (rs_state r) dr = Some InProgress;
  (** work is started only when all it waits for is complete *)
  ri_order dr : (state_of (rs_state r) dr = Some InProgress \/ complete (rs_state r) dr) ->
    ready (rs_state r) dr;
  (** a deliverable in progress without a task failed, and the failure is known *)
  ri_failed : (exists dr, state_of (rs_state r) dr = Some InProgress /\ dr ∉ rs_running r) <->
    (rs_dangling r <> [] \/ exists f, f ∈ rs_finished r /\ failure f);
  ri_hits hits : TaskDangling hits ∈ rs_finished r -> hits <> [];
  (** an idle loop has nothing to start *)
  ri_idle : rs_pos r = AtJoin -> rs_running r = [] -> rs_finished r = [] ->
    state_done A (rs_state r) = false /\
    forall dr, state_of (rs_state r) dr = Some Pending -> ~ ready (rs_state r) dr;
  ri_drain : rs_pos r = AtDrain -> state_done A (rs_state r) = true;
}.

(** Invariants of a live run; a returned run is described by its outcome. *)
Definition run_ok (r : RunState) : Prop :=
  match rs_pos r with
  | Returned (RunOk arts) =>
      state_done A (rs_state r) = true /\ artifacts (rs_state r) = Done arts
  | Returned (RunDangling hits) =>
      hits <> [] /\ forall dr, live (rs_state r) dr -> ~ complete (rs_state r) dr ->
        exists y, state_of (rs_state r) y = Some InProgress /\ rtc (waits_for (rs_state r)) y dr
  | Returned (RunErr _) => True
  | _ => run_inv r
  end.

Lemma start_ok s :
  grounded s -> (forall dr d, state_get A s dr = Some d -> d_state d = Pending) -> run_ok (run_start s).
Proof.
  intros Hg Hp. unfold run_ok. simpl.
  assert (Hst : forall dr st, state_of s dr = Some st -> st = Pending).
  { intros dr st. unfold state_of. destruct (state_get A s dr) as [d|] eqn:Hd; [|done].
    simpl. intros [= <-]. by apply (Hp dr). }
  split; simpl; try done.
  - apply NoDup_nil_2.
  - by intros dr ?%elem_of_nil.
  - intros dr [Hd|[a Hd]]; by apply Hst in Hd.
  - split.
    + intros (dr & Hd & _). by apply Hst in Hd.
    + intros [?|(f & Hf & _)]; [done|by apply elem_of_nil in Hf].
  - by intros hits ?%elem_of_nil.
Qed.

(** ** Preservation *)

Lemma elem_of_split_run (x dr : Index) run1 run2 :
  NoDup (run1 ++ dr :: run2) -> x ∈ run1 ++ run2 <-> x ∈ run1 ++ dr :: run2 /\ x <> dr.
Proof.
  intros Hnd. apply NoDup_app in Hnd as (_ & H1 & H2). apply NoDup_cons in H2 as [H2 _].
  rewrite !elem_of_app, elem_of_cons. specialize (H1 dr). rewrite elem_of_cons in H1.
  split; [|tauto]. intros [Hx|Hx]; (split; [tauto|]); intros ->; tauto.
Qed.

Lemma nodup_split_run (dr : Index) run1 run2 : NoDup (run1 ++ dr :: run2) -> NoDup (run1 ++ run2).
Proof.
  intros (H1 & H2 & H3)%NoDup_app. apply NoDup_cons in H3 as [_ H3]. apply NoDup_app.
  split; [done|]. split; [|done]. intros x Hx Hin. apply (H2 x Hx). by right.
Qed.

Lemma elem_of_split_fin (f g : TaskResult) fin1 fin2 :
  f ∈ fin1 ++ g :: fin2 <-> f = g \/ f ∈ fin1 ++ fin2.
Proof. rewrite !elem_of_app, elem_of_cons. tauto. Qed.

Lemma spawn_inv s s' run fin dang new :
  state_done A s = false -> spawn_runnables s = Done (s', new) ->
  run_inv {| rs_state := s; rs_running := run; rs_finished := fin; rs_dangling := dang; rs_pos := AtTop |} ->
  run_inv {| rs_state := s'; rs_running := run ++ new; rs_finished := fin; rs_dangling := dang; rs_pos := AtJoin |}.
Proof.
  intros Hnd Hsp [I1 I2 I3 I4 I5 I6 I7 I8]. simpl in *.
  destruct (spawn_runnables_spec s I1) as (s1 & new1 & Hsp' & Hw & Hndn & Hnew & Hst).
  rewrite Hsp in Hsp'. injection Hsp' as <- <-.
  assert (Hc : forall x, complete s' x <-> complete s x).
  { intros x. unfold complete. rewrite Hst. case_decide as Hx; [|done]. apply Hnew in Hx as [Hx _].
    rewrite Hx. split; by intros [a [=]]. }
  assert (Hr : forall x, ready s' x <-> ready s x).
  { intros x. unfold ready. split; intros Hall y Hy.
    - apply Hc, Hall. by apply (same_work_waits s s' y x Hw).
    - apply Hc, Hall. by apply (same_work_waits s s' y x Hw). }
  assert (Hip : forall x, state_of s' x = Some InProgress <-> x ∈ new \/ state_of s x = Some InProgress).
  { intros x. rewrite Hst. case_decide as Hx; [tauto|]. split; [by right|tauto]. }
  split; simpl.
  - by apply (same_work_grounded s s').
  - apply NoDup_app. split; [done|]. split; [|done]. intros x Hx [Hn _]%Hnew.
    rewrite (I3 x Hx) in Hn. done.
  - intros x [Hx|Hx]%elem_of_app; apply Hip; [right; by apply I3|by left].
  - intros x Hx. apply Hr. destruct Hx as [[Hx|Hx]%Hip|Hx%Hc]; [by apply Hnew|auto|auto].
  - rewrite <- I5. split; intros (x & Hx & Hn).
    + exists x. rewrite elem_of_app in Hn. apply Hip in Hx as [Hx|Hx]; [tauto|]. tauto.
    + exists x. split; [apply Hip; by right|]. rewrite elem_of_app. intros [?|[Hx' _]%Hnew]; [done|].
      rewrite Hx in Hx'. done.
  - exact I6.
  - intros _ [-> ->]%app_nil _. split.
    + destruct (state_done A s') eqn:Hd; [|done]. rewrite <- Hnd. symmetry. apply done_iff.
      intros x Hx. apply Hc. apply done_iff; [done|]. by apply (same_work_live s s').
    + intros x Hx Hrx. assert (x ∈ []) as Hin; [|by apply elem_of_nil in Hin].
      apply Hnew. rewrite Hst in Hx. split; [|by apply Hr]. by destruct (decide (x ∈ [])).
  - discriminate.
Qed.

Lemma task_ok_inv s run1 run2 fin dang pos dr d a :
  state_get A s dr = Some d ->
  run_inv {| rs_state := s; rs_running := run1 ++ dr :: run2; rs_finished := fin;
             rs_dangling := dang; rs_pos := pos |} ->
  run_inv {| rs_state := set_state s dr d (Complete a); rs_running := run1 ++ run2;
             rs_finished := fin ++ [TaskOk]; rs_dangling := dang; rs_pos := pos |}.
Proof.
  intros Hd [I1 I2 I3 I4 I5 I6 I7 I8]. simpl in *.
  assert (Hdr : state_of s dr = Some InProgress).
  { apply I3, elem_of_app. right. by left. }
  pose proof (fun x => set_state_state s dr d (Complete a) x Hd) as Hst.
  assert (Hw : same_work s (set_state s dr d (Complete a))) by (intros x; by apply set_state_inner).
  set (s' := set_state s dr d (Complete a)) in *.
  assert (Hc : forall x, complete s x -> complete s' x).
  { intros x Hx. unfold complete. rewrite Hst. case_decide; [by exists a|done]. }
  assert (Hr : forall x, ready s x -> ready s' x).
  { intros x Hx y Hy. apply Hc, Hx. by apply (same_work_waits s s' y x Hw). }
  split; simpl.
  - by apply (same_work_grounded s s').
  - by apply nodup_split_run with dr.
  - intros x Hx%(elem_of_split_run x dr run1 run2 I2). destruct Hx as [Hx Hne].
    rewrite Hst, decide_False by done. by apply I3.
  - intros x Hx. apply Hr. destruct (decide (x = dr)) as [->|Hne]; [apply I4; by left|].
    apply I4. unfold complete in Hx. rewrite Hst, decide_False in Hx by done. done.
  - setoid_rewrite (elem_of_app fin). setoid_rewrite list_elem_of_singleton.
    transitivity (dang <> [] \/ exists f, f ∈ fin /\ failure f).
    2:{ unfold failure. split; intros [?|(f & Hf & Hfail)]; auto.
        - right. exists f. auto.
        - right. exists f. destruct Hf as [Hf|Hf]; [done|]. by rewrite Hf in Hfail. }
    rewrite <- I5. split; intros (x & Hx & Hn); exists x.
    + rewrite Hst in Hx. case_decide as He; [done|]. split; [done|]. intros Hin. apply Hn.
      by apply (elem_of_split_run x dr run1 run2 I2).
    + assert (Hne : x <> dr) by (intros ->; apply Hn, elem_of_app; right; by left).
      rewrite Hst, decide_False by done. split; [done|].
      intros [Hin _]%(elem_of_split_run x dr run1 run2 I2). done.
  - intros hits [Hin|Hin%list_elem_of_singleton]%elem_of_app; [by apply I6|done].
  - intros _ _ Hnil. by apply app_nil in Hnil as [_ ?].
  - intros Hpos. specialize (I8 Hpos). rewrite done_iff in I8.
    destruct (I8 dr) as [a' Ha']; [by exists d|]. congruence.
Qed.

(** A task that fails leaves its deliverable in progress. *)
Lemma task_fail_inv s run1 run2 fin dang pos dr f :
  failure f -> (forall hits, f = TaskDangling hits -> hits <> []) ->
  run_inv {| rs_state := s; rs_running := run1 ++ dr :: run2; rs_finished := fin;
             rs_dangling := dang; rs_pos := pos |} ->
  run_inv {| rs_state := s; rs_running := run1 ++ run2; rs_finished := fin ++ [f];
             rs_dangling := dang; rs_pos := pos |}.
Proof.
  intros Hf Hhits [I1 I2 I3 I4 I5 I6 I7 I8]. simpl in *.
  split; simpl.
  - exact I1.
  - by apply nodup_split_run with dr.
  - intros x [Hx _]%(elem_of_split_run x dr run1 run2 I2). by apply I3.
  - exact I4.
  - split; intros _.
    + right. exists f. split; [|done]. auto with minimal.
    + exists dr. split; [apply I3, elem_of_app; right; by left|].
      by intros [_ ?]%(elem_of_split_run dr dr run1 run2 I2).
  - intros hits [Hin|Hin%list_elem_of_singleton]%elem_of_app; [by apply I6|by apply Hhits].
  - intros _ _ Hnil. by apply app_nil in Hnil as [_ ?].
  - exact I8.
Qed.

(** Taking a finished task off the queue. *)
Lemma join_inv s run fin1 fin2 f dang dang' pos pos' :
  (f = TaskOk /\ dang' = dang) \/ (exists hits, f = TaskDangling hits /\ dang' = dang ++ hits) ->
  pos' <> AtJoin -> (pos' = AtDrain -> pos = AtDrain) ->
  run_inv {| rs_state := s; rs_running := run; rs_finished := fin1 ++ f :: fin2;
             rs_dangling := dang; rs_pos := pos |} ->
  run_inv {| rs_state := s; rs_running := run; rs_finished := fin1 ++ fin2;
             rs_dangling := dang'; rs_pos := pos' |}.
Proof.
  intros Hf Hpos Hdrain [I1 I2 I3 I4 I5 I6 I7 I8]. simpl in *. split; simpl.
  - exact I1.
  - exact I2.
  - exact I3.
  - exact I4.
  - rewrite I5. setoid_rewrite elem_of_split_fin. destruct Hf as [[-> ->]|(hits & -> & ->)].
    + unfold failure. split; (intros [?|(g & Hg & Hfail)]; [by left|right; exists g]); naive_solver.
    + assert (Hh : hits <> []) by (apply I6, elem_of_split_fin; by left).
      split; intros _; [left; by intros [_ ?]%app_nil|right].
      exists (TaskDangling hits). split; [by left|done].
  - intros hits Hin. apply I6, elem_of_split_fin. by right.
  - intros Hj. by destruct Hpos.
  - intros Hj. by apply I8, Hdrain.
Qed.

Lemma live_run_ok r : (forall o, rs_pos r <> Returned o) -> run_ok r <-> run_inv r.
Proof.
  unfold run_ok. intros Hn. destruct (rs_pos r) as [| | |o]; [reflexivity..|].
  exfalso. by apply (Hn o).
Qed.

(** An idle loop that reports no dangling hit would have nothing to wait for;
    it cannot happen. *)
Lemma idle_reports s :
  ~ run_inv {| rs_state := s; rs_running := []; rs_finished := []; rs_dangling := []; rs_pos := AtJoin |}.
Proof.
  intros [I1 I2 I3 I4 I5 I6 I7 I8]. simpl in *. destruct (I7 eq_refl eq_refl eq_refl) as [Hnd Hb].
  destruct (not_done s Hnd) as (dr & Hl & Hc).
  destruct (blocked_by_started s dr I1 Hb Hl Hc) as (y & Hy & _).
  destruct I5 as [I5 _]. destruct I5 as [?|(f & Hf & _)]; [|done|by apply elem_of_nil in Hf].
  exists y. split; [done|]. apply not_elem_of_nil.
Qed.

Lemma run_step_ok r r' : run_ok r -> run_step r r' -> run_ok r'.
Proof.
  intros Hok Hstep. destruct Hstep; unfold run_ok in Hok |- *; simpl in *.
  - by apply (spawn_inv s s' run fin dang new).
  - destruct Hok as [I1 I2 I3 I4 I5 I6 I7 I8].
    split; simpl in *; [exact I1|exact I2|exact I3|exact I4|exact I5|exact I6|discriminate|].
    intros _; assumption.
  - by apply (join_inv s run fin1 fin2 TaskOk dang dang AtJoin AtTop); [left| | |].
  - apply (join_inv s run fin1 fin2 (TaskDangling hits) dang _ AtJoin AtTop); [right|done|done|done].
    by exists hits.
  - done.
  - destruct dang as [|h dang]; simpl; [by apply idle_reports in Hok|]. split; [done|].
    destruct Hok as [I1 I2 I3 I4 I5 I6 I7 I8]. simpl in *. intros dr Hl Hc.
    destruct (I7 eq_refl eq_refl eq_refl) as [_ Hb]. by apply blocked_by_started.
  - by apply (join_inv s run fin1 fin2 TaskOk dang dang AtDrain AtDrain); [left| | |].
  - pose proof (ri_drain _ Hok eq_refl) as Hd. simpl in Hd. rewrite done_iff in Hd.
    split; [apply (ri_hits _ Hok), elem_of_split_fin; by left|].
    intros dr Hl Hc. exfalso. by apply Hc, Hd.
  - done.
  - split; [by apply (ri_drain _ Hok)|done].
  - assert (Hinv : run_inv {| rs_state := s; rs_running := run1 ++ dr :: run2; rs_finished := fin;
      rs_dangling := dang; rs_pos := pos |})
      by exact (proj1 (live_run_ok (Build_RunState _ _ _ _ pos) H1) Hok).
    apply (proj2 (live_run_ok (Build_RunState _ _ _ _ pos) H1)). by apply (task_ok_inv s run1 run2 fin dang pos dr d a).
  - assert (Hinv : run_inv {| rs_state := s; rs_running := run1 ++ dr :: run2; rs_finished := fin;
      rs_dangling := dang; rs_pos := pos |})
      by exact (proj1 (live_run_ok (Build_RunState _ _ _ _ pos) H1) Hok).
    apply (proj2 (live_run_ok (Build_RunState _ _ _ _ pos) H1)). apply (task_fail_inv s run1 run2 fin dang pos dr); [done| |done].
    by intros ? [= <-].
  - assert (Hinv : run_inv {| rs_state := s; rs_running := run1 ++ dr :: run2; rs_finished := fin;
      rs_dangling := dang; rs_pos := pos |})
      by exact (proj1 (live_run_ok (Build_RunState _ _ _ _ pos) H1) Hok).
    apply (proj2 (live_run_ok (Build_RunState _ _ _ _ pos) H1)). by apply (task_fail_inv s run1 run2 fin dang pos dr).
Qed.

(** ** Progress and termination *)

Definition pending_set s : gset Index :=
  filter (fun dr => match state_of s dr with Some Pending => true | _ => false end = true) (live_set s).

Lemma elem_of_pending_set s dr : dr ∈ pending_set s <-> state_of s dr = Some Pending.
Proof.
  unfold pending_set. rewrite elem_of_filter, elem_of_live_set. split.
  - intros [Hst _]. by destruct (state_of s dr) as [[]|].
  - intros Hst. split; [by rewrite Hst|]. by apply state_of_live in Hst.
Qed.

Definition pos_weight (p : LoopPos) : nat :=
  match p with AtTop => 2 | AtJoin | AtDrain => 1 | Returned _ => 0 end.

Definition run_weight (r : RunState) : nat :=
  4 * size (pending_set (rs_state r)) + 3 * length (rs_running r)
  + 2 * length (rs_finished r) + pos_weight (rs_pos r).

Lemma pending_spawned s s' new :
  NoDup new -> (forall dr, dr ∈ new -> state_of s dr = Some Pending) ->
  (forall x, state_of s' x = if decide (x ∈ new) then Some InProgress else state_of s x) ->
  (size (pending_set s') + length new = size (pending_set s))%nat.
Proof.
  intros Hnd Hnew Hst. rewrite <- (size_list_to_set (C := gset Index) new Hnd), <- size_union.
  - f_equal. apply set_eq. intros x. rewrite elem_of_union, !elem_of_pending_set, elem_of_list_to_set, Hst.
    destruct (decide (x ∈ new)); [|tauto]. split; [auto|tauto].
  - intros x. rewrite elem_of_pending_set, elem_of_list_to_set, Hst. by case_decide.
Qed.

Lemma pending_same s s' :
  (forall x, state_of s' x = Some Pending -> state_of s x = Some Pending) ->
  (size (pending_set s') <= size (pending_set s))%nat.
Proof. intros Hs. apply subseteq_size. intros x. rewrite !elem_of_pending_set. apply Hs. Qed.

Lemma run_step_decreases r r' : run_ok r -> run_step r r' -> (run_weight r' < run_weight r)%nat.
Proof.
  intros Hok Hstep. destruct Hstep; unfold run_ok, run_weight in *; simpl in *;
    rewrite ?length_app; simpl; try lia.
  - destruct (spawn_runnables_spec s (ri_grounded _ Hok)) as (s1 & new1 & Hsp & _ & Hnd & Hnew & Hst).
    rewrite H2 in Hsp. injection Hsp as <- <-.
    pose proof (pending_spawned s s' new Hnd ltac:(intros dr Hdr; by apply Hnew) Hst). lia.
  - destruct dang as [|h dang]; simpl; [by apply idle_reports in Hok|]. lia.
  - assert (Hle : (size (pending_set (set_state s dr d (Complete a))) <= size (pending_set s))%nat).
    { apply pending_same. intros x. rewrite (set_state_state s dr d (Complete a) x) by done.
      by case_decide. }
    lia.
Qed.

Lemma artifacts_done s : state_done A s = true -> exists arts, artifacts s = Done arts.
Proof.
  intros Hd. unfold artifacts.
  destruct (mapM_out_returns (fun e : Index * Deliverable A =>
    match d_state e.2 with Complete a => Done a | _ => Panicked end)
    (arena_iter (si_deliverables A s))) as (arts & Hrun & _); [|eauto].
  intros [dr d] Hin. unfold state_done in Hd. rewrite forallb_forall in Hd.
  apply list_elem_of_In, Hd in Hin. unfold is_complete in Hin. simpl in *.
  destruct (d_state d); [done|done|eauto].
Qed.

Lemma run_progress r :
  run_ok r -> (forall o, rs_pos r <> Returned o) -> rs_running r = [] -> exists r', run_step r r'.
Proof.
  intros Hok Hpos Hrun. apply live_run_ok in Hok; [|done].
  destruct r as [s run fin dang pos]. simpl in *. subst run.
  destruct pos as [| | |o]; [| | |by destruct (Hpos o)].
  - destruct (state_done A s) eqn:Hd; [eexists; by apply step_done|].
    destruct (spawn_runnables_spec s (ri_grounded _ Hok)) as (s' & new & Hsp & _).
    eexists. by apply (step_spawn s s' [] fin dang new).
  - destruct fin as [|[|hits|e] fin].
    + eexists. apply step_join_none.
    + eexists. apply (step_join_ok s [] [] fin dang).
    + eexists. apply (step_join_dangling s [] [] fin dang hits).
    + eexists. apply (step_join_err s [] [] fin dang e).
  - destruct fin as [|[|hits|e] fin].
    + destruct (artifacts_done s (ri_drain _ Hok eq_refl)) as [arts Ha].
      eexists. by apply (step_return s dang arts).
    + eexists. apply (step_drain_ok s [] [] fin dang).
    + eexists. apply (step_drain_dangling s [] [] fin dang hits).
    + eexists. apply (step_drain_err s [] [] fin dang e).
Qed.

Lemma reachable_ok s r :
  grounded s -> (forall dr d, state_get A s dr = Some d -> d_state d = Pending) ->
  rtc run_step (run_start s) r -> run_ok r.
Proof.
  intros Hg Hp. apply rtc_ind_r; [by apply start_ok|]. intros x y _ Hstep Hok. by apply (run_step_ok x y).
Qed.

Lemma pending_set_le s : (size (pending_set s) <= size (live_set s))%nat.
Proof. apply subseteq_size. unfold pending_set. set_solver. Qed.

Lemma nsteps_weight k r r' :
  run_ok r -> nsteps run_step k r r' -> (k + run_weight r' <= run_weight r)%nat.
Proof.
  intros Hok Hn. induction Hn as [|k r r1 r2 Hstep Hn IH]; [lia|].
  pose proof (run_step_decreases r r1 Hok Hstep). specialize (IH (run_step_ok r r1 Hok Hstep)). lia.
Qed.

(** ** Claims *)

(** C23: the build loop never stalls and always ends.  From any state
    [State::from_plan] builds, in every interleaving of the loop with its
    tasks: work is started only when everything it waits for is complete; as
    long as the loop has not returned and no task is running, the loop can
    take its next step (no failed [unwrap] or assertion, nothing to wait for
    forever, and no spinning on an empty task set); and an execution has at
    most four steps per deliverable plus two. *)
Theorem run_terminates s :
  state_ok s ->
  (forall r, rtc run_step (run_start s) r -> (forall o, rs_pos r <> Returned o) ->
     (forall dr, (state_of (rs_state r) dr = Some InProgress \/ complete (rs_state r) dr) ->
        ready (rs_state r) dr) /\
     (rs_running r = [] -> exists r', run_step r r')) /\
  (forall k r, nsteps run_step k (run_start s) r ->
     (k <= 4 * length (arena_iter (si_deliverables A s)) + 2)%nat).
Proof.
  intros [Hg _ Hp]. split.
  - intros r Hr Hpos. pose proof (reachable_ok s r Hg Hp Hr) as Hok. split.
    + apply live_run_ok in Hok; [|done]. exact (ri_order r Hok).
    + intros Hrun. by apply run_progress.
  - intros k r Hn. pose proof (nsteps_weight k _ _ (start_ok s Hg Hp) Hn) as Hle.
    pose proof (pending_set_le s) as Hps. rewrite live_set_size in Hps.
    unfold run_weight in Hle. simpl in Hle. lia.
Qed.

(** What the outcome of a run means.  A run that returns [Ok] has
    completed every deliverable and returns exactly their artifacts; a run
    that returns dangling cache hits names at least one, and every
    deliverable left incomplete is, or waits through a chain of references
    for, one whose task failed: nothing else was held back. *)
Theorem run_outcome s r :
  state_ok s -> rtc run_step (run_start s) r ->
  (forall arts, rs_pos r = Returned (RunOk arts) ->
     (forall dr, live (rs_state r) dr -> complete (rs_state r) dr) /\
     artifacts (rs_state r) = Done arts) /\
  (forall hits, rs_pos r = Returned (RunDangling hits) ->
     hits <> [] /\
     forall dr, live (rs_state r) dr -> ~ complete (rs_state r) dr ->
       exists y, state_of (rs_state r) y = Some InProgress /\ rtc (waits_for (rs_state r)) y dr).
Proof.
  intros [Hg _ Hp] Hr. pose proof (reachable_ok s r Hg Hp Hr) as Hok. unfold run_ok in Hok. split.
  - intros arts Hpos. rewrite Hpos in Hok. destruct Hok as [Hd Ha]. split; [|done].
    by apply done_iff.
  - intros hits Hpos. by rewrite Hpos in Hok.
Qed.
End scheduler.

(** ** Witnesses *)

Definition no_hash : SpecHash := [].

(** A cache fill, and a subset of it. *)
Definition one_fill : StateInner unit :=
  (state_insert unit (state_new unit) None (DCacheFill (nth_ref 0) no_hash)).1.
Definition fill_and_subset : StateInner unit :=
  (state_insert unit one_fill None
     (DSubset {| sub_from := nth_ref 0; sub_outputs := ["bin"%string] |} no_hash (nth_ref 0))).1.

Lemma fill_and_subset_ok : state_ok fill_and_subset.
Proof.
  unfold fill_and_subset. apply (insert_ok one_fill).
  - apply (insert_ok (state_new unit)); [apply new_ok|]. by intros x ?%elem_of_nil.
  - intros x ->%list_elem_of_singleton. vm_compute. eexists. reflexivity.
Qed.

Lemma run_terminates_witness : exists r', run_step (E := unit) (run_start fill_and_subset) r'.
Proof.
  refine (proj2 (proj1 (run_terminates (E := unit) fill_and_subset fill_and_subset_ok)
    (run_start fill_and_subset) (rtc_refl _ _) _) eq_refl).
  intros o Ho. discriminate Ho.
Defined.

(** A whole execution: the fill runs, the subset runs, the loop returns. *)
Lemma demo_execution :
  exists r, rtc (run_step (E := unit)) (run_start fill_and_subset) r /\
    rs_pos r = Returned (RunOk [tt; tt]) /\ live (rs_state r) (nth_ref 1).
Proof.
  eexists. split.
  - eapply rtc_l; [eapply step_spawn; vm_compute; reflexivity|].
    eapply rtc_l; [eapply (step_task_ok _ [] [] _ _ _ (nth_ref 0) _ tt); [discriminate|vm_compute; reflexivity]|].
    eapply rtc_l; [apply (step_join_ok _ _ [] [])|].
    eapply rtc_l; [eapply step_spawn; vm_compute; reflexivity|].
    eapply rtc_l; [eapply (step_task_ok _ [] [] _ _ _ (nth_ref 1) _ tt); [discriminate|vm_compute; reflexivity]|].
    eapply rtc_l; [apply (step_join_ok _ _ [] [])|].
    eapply rtc_l; [apply step_done; vm_compute; reflexivity|].
    eapply rtc_l; [apply step_return; vm_compute; reflexivity|].
    apply rtc_refl.
  - split; [reflexivity|]. vm_compute. eexists. reflexivity.
Qed.

Lemma run_outcome_witness :
  exists r, rs_pos r = Returned (E := unit) (RunOk [tt; tt]) /\ complete (rs_state r) (nth_ref 1).
Proof.
  destruct demo_execution as (r & Hr & Hpos & Hlive). exists r. split; [exact Hpos|].
  exact (proj1 (proj1 (run_outcome (E := unit) fill_and_subset r fill_and_subset_ok Hr) [tt; tt] Hpos)
    (nth_ref 1) Hlive).
Defined.

(** What this system of deliverables offers at the start: the fill only. *)
Example runnable_demo : state_runnable unit fill_and_subset = Done [nth_ref 0].
Proof. vm_compute. reflexivity. Qed.
