(* ===== verification/DropLimiter.v ===== *)
(** * The drop limiter (crates/minvmd/src/net/drop_limiter.rs)

    The rate limiter of the host gate's warning lines: one line per key per
    interval, in a table the guest's spoofed addresses must not be able to
    grow. *)

From stdpp Require Import base list gmap strings numbers.
From Stdlib Require Import ZArith Lia.
From S2P Require Import Prelude Text Egress.
Open Scope Z_scope.

Definition DROP_WARN_MIN_INTERVAL : Z := from_secs 60.
Definition DROP_WARN_MAX_TRACKED_PAIRS : nat := 1024.

Inductive DropKey : Type :=
| KeySource (src : option ip4) (rule : string)
| KeyRefusal (src : ip4) (rule name : string)
| KeyOverflow (rule : string).

#[global] Instance DropKey_eq_dec : EqDecision DropKey.
Proof. solve_decision. Defined.
#[global] Instance DropKey_countable : Countable DropKey.
Proof.
  refine (inj_countable'
    (fun k => match k with
      | KeySource s r => inl (s, r)
      | KeyRefusal s r n => inr (inl (s, r, n))
      | KeyOverflow r => inr (inr r)
      end)
    (fun p => match p with
      | inl (s, r) => KeySource s r
      | inr (inl (s, r, n)) => KeyRefusal s r n
      | inr (inr r) => KeyOverflow r
      end) _).
  by intros [].
Defined.

Inductive WarnDecision : Type := Named | Overflow | Silent.

(** [DropLimiter]: the map under its mutex. *)
Record DropLimiter : Type := mkLimiter { last : gmap DropKey Z }.

Definition limiter_new : DropLimiter := mkLimiter ∅.

(** A window that fired at [at_] is still open at [now]. *)
Definition window_live (now at_ : Z) : bool := duration_since now at_ <? DROP_WARN_MIN_INTERVAL.

(** The window of [key] fired inside the interval. *)
Definition window_open (m : gmap DropKey Z) (key : DropKey) (now : Z) : bool :=
  match m !! key with Some prev => window_live now prev | None => false end.

(** [DropLimiter::decide]. *)
Definition decide_warn (self : DropLimiter) (key : DropKey) (rule : string) (now : Z)
    : DropLimiter * WarnDecision :=
  let m := last self in
  if window_open m key now then (self, Silent)
  else
    let m := if (DROP_WARN_MAX_TRACKED_PAIRS <=? size m)%nat
             then filter (fun p => window_live now p.2 = true) m else m in
    if (size m <? DROP_WARN_MAX_TRACKED_PAIRS)%nat then (mkLimiter (<[key := now]> m), Named)
    else if window_open m (KeyOverflow rule) now then (mkLimiter m, Silent)
    else (mkLimiter (<[KeyOverflow rule := now]> m), Overflow).

(** [DropLimiter::should_warn_at]. *)
Definition should_warn_at (l : DropLimiter) (src : option ip4) (rule : string) (now : Z)
    : DropLimiter * WarnDecision := decide_warn l (KeySource src rule) rule now.

(** [DropLimiter::should_warn_refusal_at]. *)
Definition should_warn_refusal_at (l : DropLimiter) (src : ip4) (name rule : string) (now : Z)
    : DropLimiter * WarnDecision := decide_warn l (KeyRefusal src rule name) rule now.

(** [DropLimiter::warn_dns_refusal] at the instant [now]: whether a line was
    written.  The log line itself is outside the model. *)
Definition warn_dns_refusal (l : DropLimiter) (src : ip4) (name rule : string) (now : Z)
    : DropLimiter * bool :=
  let '(l, d) := should_warn_refusal_at l src name rule now in
  (l, match d with Silent => false | Named | Overflow => true end).

(** ** Traces *)

Inductive WarnOp : Type :=
| WarnDrop (src : option ip4) (rule : string) (now : Z)
| WarnRefusal (src : ip4) (name rule : string) (now : Z).

Definition op_key (o : WarnOp) : DropKey :=
  match o with WarnDrop src rule _ => KeySource src rule | WarnRefusal src name rule _ => KeyRefusal src rule name end.
Definition op_rule (o : WarnOp) : string :=
  match o with WarnDrop _ rule _ => rule | WarnRefusal _ _ rule _ => rule end.
Definition op_now (o : WarnOp) : Z :=
  match o with WarnDrop _ _ now => now | WarnRefusal _ _ _ now => now end.

Definition warn_step (l : DropLimiter) (o : WarnOp) : DropLimiter * WarnDecision :=
  match o with
  | WarnDrop src rule now => should_warn_at l src rule now
  | WarnRefusal src name rule now => should_warn_refusal_at l src name rule now
  end.

Lemma warn_step_decide l o : warn_step l o = decide_warn l (op_key o) (op_rule o) (op_now o).
Proof. by destruct o. Qed.

Lemma op_key_own o r : op_key o <> KeyOverflow r.
Proof. by destruct o. Qed.

(** ** The memory bound *)

Definition is_own (k : DropKey) : bool := match k with KeyOverflow _ => false | _ => true end.

(** The windows that name a source. *)
Definition own_windows (m : gmap DropKey Z) : gmap DropKey Z := filter (fun p => is_own p.1 = true) m.

Record limiter_inv (rules : gset string) (m : gmap DropKey Z) : Prop := {
  li_own : (size (own_windows m) <= DROP_WARN_MAX_TRACKED_PAIRS)%nat;
  li_shared r at_ : m !! KeyOverflow r = Some at_ -> r ∈ rules;
}.

Lemma limiter_inv_filter rules m (P : DropKey * Z -> Prop) `{!forall p, Decision (P p)} :
  limiter_inv rules m -> limiter_inv rules (filter P m).
Proof.
  intros [H1 H2]. split.
  - etrans; [|exact H1]. apply map_subseteq_size. unfold own_windows.
    apply map_filter_subseteq_mono, map_filter_subseteq.
  - intros r at_ [Hl _]%map_lookup_filter_Some. by apply (H2 r at_).
Qed.

Lemma own_windows_le m : (size (own_windows m) <= size m)%nat.
Proof. apply map_subseteq_size, map_filter_subseteq. Qed.

Lemma own_insert_own m k now :
  is_own k = true -> own_windows (<[k := now]> m) = <[k := now]> (own_windows m).
Proof. intros Hk. unfold own_windows. by rewrite map_filter_insert_True. Qed.

Lemma own_insert_shared m r now : own_windows (<[KeyOverflow r := now]> m) = own_windows m.
Proof.
  unfold own_windows. rewrite map_filter_insert_False by done.
  apply map_eq. intros k. apply option_eq. intros v. rewrite !map_lookup_filter_Some.
  destruct (decide (k = KeyOverflow r)) as [->|Hne]; [split; by intros [_ ?]|].
  by rewrite lookup_delete_ne.
Qed.

Lemma warn_step_inv rules l o :
  op_rule o ∈ rules -> limiter_inv rules (last l) -> limiter_inv rules (last (warn_step l o).1).
Proof.
  intros Hr Hl. rewrite warn_step_decide. unfold decide_warn. cbv zeta.
  destruct (window_open (last l) _ _); [done|].
  set (m := if (_ <=? _)%nat then _ else last l).
  assert (Hm : limiter_inv rules m) by (unfold m; destruct (_ <=? _)%nat; [by apply limiter_inv_filter|done]).
  clearbody m. destruct (size m <? _)%nat eqn:Hsz.
  - apply Nat.ltb_lt in Hsz. pose proof (own_windows_le m). destruct Hm as [H1 H2]. split; cbn [last fst].
    + rewrite own_insert_own by (by destruct o). rewrite map_size_insert. case_match; cbn; lia.
    + intros r at_. rewrite lookup_insert_ne by apply op_key_own. apply H2.
  - destruct (window_open m _ _); [done|].
    destruct Hm as [H1 H2]. split; cbn [last fst].
    + by rewrite own_insert_shared.
    + intros r at_ [[[= <-] _]|[_ Hl1]]%lookup_insert_Some; [done|by apply (H2 r at_)].
Qed.

Lemma limiter_size rules m :
  limiter_inv rules m -> (size m <= DROP_WARN_MAX_TRACKED_PAIRS + size rules)%nat.
Proof.
  intros [H1 H2].
  assert (Hsub : (dom m : gset DropKey) ⊆ dom (own_windows m) ∪ set_map KeyOverflow rules).
  { intros k [v Hv]%elem_of_dom. apply elem_of_union. destruct (is_own k) eqn:Hk.
    - left. apply elem_of_dom. exists v. by apply map_lookup_filter_Some.
    - right. destruct k as [| |r]; [done..|]. apply elem_of_map. exists r. split; [done|]. by apply (H2 r v). }
  apply subseteq_size in Hsub. rewrite size_dom in Hsub. etrans; [exact Hsub|].
  rewrite size_union_alt. apply Nat.add_le_mono; [by rewrite size_dom|].
  etrans; [apply subseteq_size, subseteq_difference_l; reflexivity|].
  unfold set_map. rewrite size_list_to_set.
  - by rewrite length_fmap.
  - apply NoDup_fmap_2; [by intros ?? [=]|]. apply NoDup_elements.
Qed.

(** ** The rate limit *)

Lemma window_open_true m k now prev :
  m !! k = Some prev -> now < prev + DROP_WARN_MIN_INTERVAL -> window_open m k now = true.
Proof.
  intros Hm Hn. unfold window_open, window_live, duration_since. rewrite Hm. apply Z.ltb_lt.
  unfold DROP_WARN_MIN_INTERVAL, from_secs in *. lia.
Qed.

(** The windows still live at [now]. *)
Definition live_windows (m : gmap DropKey Z) (now : Z) : gmap DropKey Z :=
  filter (fun p => window_live now p.2 = true) m.

Lemma window_open_live m k now : window_open (live_windows m now) k now = window_open m k now.
Proof.
  unfold window_open, live_windows. rewrite map_lookup_filter.
  destruct (m !! k) as [prev|]; simpl; [|done].
  case_guard as Hlive; simpl in *; [done|]. by apply not_true_is_false in Hlive.
Qed.

Lemma pruned_open (b : bool) m k now :
  window_open (if b then live_windows m now else m) k now = window_open m k now.
Proof. destruct b; [apply window_open_live|done]. Qed.

(** Pruning happens only at the bound, and changes which side of the bound the
    table is on only when the live windows alone are below it. *)
Lemma pruned_room m now :
  (size (if (DROP_WARN_MAX_TRACKED_PAIRS <=? size m)%nat then live_windows m now else m)
     <? DROP_WARN_MAX_TRACKED_PAIRS)%nat =
  (size (live_windows m now) <? DROP_WARN_MAX_TRACKED_PAIRS)%nat.
Proof.
  assert (Hle : (size (live_windows m now) <= size m)%nat) by apply map_subseteq_size, map_filter_subseteq.
  destruct (Nat.leb_spec DROP_WARN_MAX_TRACKED_PAIRS (size m)) as [|Hlt]; [done|].
  rewrite (proj2 (Nat.ltb_lt _ _) Hlt). symmetry. apply Nat.ltb_lt. lia.
Qed.

(** What the limiter promises, as a function of the windows alone. *)
Definition warn_spec (m : gmap DropKey Z) (key : DropKey) (rule : string) (now : Z) : WarnDecision :=
  if window_open m key now then Silent
  else if (size (live_windows m now) <? DROP_WARN_MAX_TRACKED_PAIRS)%nat then Named
  else if window_open m (KeyOverflow rule) now then Silent else Overflow.

Lemma decide_warn_spec l key rule now : (decide_warn l key rule now).2 = warn_spec (last l) key rule now.
Proof.
  unfold decide_warn, warn_spec. cbv zeta. destruct (window_open (last l) key now); [done|].
  fold (live_windows (last l) now). rewrite pruned_room, pruned_open.
  by repeat match goal with |- context [if ?b then _ else _] =>
    lazymatch b with context [if _ then _ else _] => fail | _ => destruct b end end.
Qed.

(** A live window survives any decision taken inside its interval. *)
Lemma warn_step_keeps l o k t :
  last l !! k = Some t -> op_now o < t + DROP_WARN_MIN_INTERVAL -> last (warn_step l o).1 !! k = Some t.
Proof.
  intros Hk Ho. rewrite warn_step_decide. unfold decide_warn. cbv zeta.
  fold (live_windows (last l) (op_now o)).
  destruct (window_open (last l) (op_key o) _) eqn:Hopen; [done|].
  pose proof (window_open_true _ _ _ _ Hk Ho) as Hk_open.
  set (m := if (_ <=? _)%nat then _ else last l).
  assert (Hm : m !! k = Some t).
  { unfold m. destruct (_ <=? _)%nat; [|done]. apply map_lookup_filter_Some. split; [done|].
    unfold window_open in Hk_open. by rewrite Hk in Hk_open. }
  assert (Hmo : forall k', window_open m k' (op_now o) = window_open (last l) k' (op_now o))
    by (intros k'; apply pruned_open).
  clearbody m. destruct (size m <? _)%nat; cbn [fst last].
  - rewrite lookup_insert_ne; [done|]. intros <-. congruence.
  - destruct (window_open m (KeyOverflow _) _) eqn:Hshared; cbn [fst last]; [done|].
    rewrite lookup_insert_ne; [done|]. intros <-. congruence.
Qed.

Lemma warn_run_keeps l ops k t :
  last l !! k = Some t -> Forall (fun o => op_now o < t + DROP_WARN_MIN_INTERVAL) ops ->
  last (run_state warn_step l ops) !! k = Some t.
Proof.
  intros Hk Hops. apply (run_state_ind warn_step (fun l => last l !! k = Some t)); [done|].
  intros l' o Ho Hl'. apply warn_step_keeps; [done|]. exact (proj1 (list.Forall_forall _ _) Hops o Ho).
Qed.

(** The window a decision fired under records its instant. *)
Lemma warn_step_records l o :
  match (warn_step l o).2 with
  | Named => last (warn_step l o).1 !! op_key o = Some (op_now o)
  | Overflow => last (warn_step l o).1 !! KeyOverflow (op_rule o) = Some (op_now o)
  | Silent => True
  end.
Proof.
  rewrite warn_step_decide. unfold decide_warn. cbv zeta.
  destruct (window_open _ _ _); [done|]. destruct (_ <? _)%nat; [apply lookup_insert_eq|].
  destruct (window_open _ _ _); [done|]. apply lookup_insert_eq.
Qed.

(** ** Claims *)

(** Whatever frames and names a guest sends, the table never holds more
    than [DROP_WARN_MAX_TRACKED_PAIRS] windows naming a source, plus one per
    rule: the rules are the gate's own, so the guest cannot grow it. *)
Theorem limiter_memory_bounded (rules : gset string) (ops : list WarnOp)
    (Hrules : Forall (fun o => op_rule o ∈ rules) ops) :
  let m := last (run_state warn_step limiter_new ops) in
  (size (own_windows m) <= DROP_WARN_MAX_TRACKED_PAIRS)%nat /\
  (size m <= DROP_WARN_MAX_TRACKED_PAIRS + size rules)%nat.
Proof.
  cbv zeta.
  assert (Hinv : limiter_inv rules (last (run_state warn_step limiter_new ops))).
  { apply (run_state_ind warn_step (fun l => limiter_inv rules (last l))).
    - by split; [apply Nat.leb_le; vm_compute; reflexivity|intros r at_; cbn; rewrite lookup_empty].
    - intros l o Ho. apply warn_step_inv. exact (proj1 (list.Forall_forall _ _) Hrules o Ho). }
  split; [apply Hinv|by apply limiter_size].
Qed.

(** The decision is the one the window rule asks for: silence inside the
    key's own window; otherwise a line naming the source whenever fewer than
    the cap's windows are live at that instant, stale ones never counting; and
    only then the rule's shared line, once per interval. *)
Theorem limiter_decision_exact (l : DropLimiter) (o : WarnOp) :
  (warn_step l o).2 = warn_spec (last l) (op_key o) (op_rule o) (op_now o).
Proof. rewrite warn_step_decide. apply decide_warn_spec. Qed.

(** One line per key per interval, and one flood line per rule per
    interval: after a line fired, no sequence of decisions inside the interval
    lets the same window fire again. *)
Theorem limiter_one_line_per_interval (l : DropLimiter) (o o' : WarnOp) (ops : list WarnOp)
    (Hops : Forall (fun p => op_now p < op_now o + DROP_WARN_MIN_INTERVAL) ops)
    (Ho' : op_now o' < op_now o + DROP_WARN_MIN_INTERVAL) :
  let after := warn_step (run_state warn_step (warn_step l o).1 ops) o' in
  ((warn_step l o).2 = Named -> op_key o' = op_key o -> after.2 = Silent) /\
  ((warn_step l o).2 = Overflow -> op_rule o' = op_rule o -> after.2 <> Overflow).
Proof.
  pose proof (warn_step_records l o) as Hrec. cbv zeta. split; intros Hd Hk; rewrite Hd in Hrec;
    eapply warn_run_keeps in Hrec; [|exact Hops| |exact Hops];
    rewrite warn_step_decide, decide_warn_spec, Hk; unfold warn_spec;
    rewrite (window_open_true _ _ _ _ Hrec Ho'); [done|].
  by repeat case_match.
Qed.

(** Two drops from one address, one from another, and a refusal. *)
Definition demo_ops : list WarnOp :=
  [WarnDrop None "foreign source" 0; WarnDrop None "foreign source" 5; WarnRefusal (Ip4 10 0 0 2) "a.example" "rebinding" 7].

Lemma limiter_memory_bounded_witness :
  (size (last (run_state warn_step limiter_new demo_ops)) <= 1024 + 2)%nat.
Proof.
  refine (proj2 (limiter_memory_bounded {["foreign source"; "rebinding"]} demo_ops _)).
  repeat constructor; apply elem_of_union; vm_compute; tauto.
Defined.

Lemma limiter_one_line_per_interval_witness :
  (warn_step (run_state warn_step (warn_step limiter_new (WarnDrop None "foreign source" 0)).1 demo_ops)
     (WarnDrop None "foreign source" (from_secs 59))).2 = Silent.
Proof.
  refine (proj1 (limiter_one_line_per_interval limiter_new (WarnDrop None "foreign source" 0)
    (WarnDrop None "foreign source" (from_secs 59)) demo_ops _ _) _ _).
  - repeat constructor.
  - reflexivity.
  - vm_compute. reflexivity.
  - reflexivity.
Defined.
