(* ===== verification/Switch.v ===== *)
(** * The switch's address plan (crates/switch/src/lib.rs)

    The subnet a switch hands addresses out of, with its reserved addresses,
    the derived MAC addresses, and the plan that pairs each switch of a host
    with a slice of the reserved loopback range. *)

From stdpp Require Import base list strings numbers.
From Stdlib Require Import ZArith Lia.
From S2P Require Import Prelude Text Egress EgressProps.
Open Scope Z_scope.

(** ** [u32] arithmetic and addresses *)

(** [u32] addition, subtraction and left shift, which wrap in a build without
    overflow checks, and bitwise complement. *)
Definition u32_add (a b : Z) : Z := (a + b) mod 4294967296.
Definition u32_sub (a b : Z) : Z := (a - b) mod 4294967296.
Definition u32_shl (a n : Z) : Z := Z.land (Z.shiftl a n) u32_MAX.
Definition u32_not (a : Z) : Z := Z.lxor a u32_MAX.

(** [Ipv4Addr::from(u32)]. *)
Definition ip4_of_u32 (n : Z) : ip4 :=
  Ip4 (n / 16777216 mod 256) (n / 65536 mod 256) (n / 256 mod 256) (n mod 256).

(** [Ipv4Addr]'s order is that of its octets. *)
Definition ip4_leb (a b : ip4) : bool := ip4_u32 a <=? ip4_u32 b.

(** ** [SwitchSubnet] *)

Record SwitchSubnet : Type := { sn_base : ip4; sn_prefix : Z }.

#[global] Instance SwitchSubnet_eq_dec : EqDecision SwitchSubnet.
Proof. solve_decision. Defined.

Inductive InvalidPrefix : Type := MkInvalidPrefix (prefix : Z).

#[global] Instance InvalidPrefix_eq_dec : EqDecision InvalidPrefix.
Proof. solve_decision. Defined.

(** [SwitchSubnet::new]. *)
Definition switch_subnet_new (base : ip4) (prefix : Z) : SwitchSubnet + InvalidPrefix :=
  if negb ((8 <=? prefix) && (prefix <=? 29)) then inr (MkInvalidPrefix prefix)
  else
    let mask := u32_shl u32_MAX (32 - prefix) in
    inl {| sn_base := ip4_of_u32 (Z.land (ip4_u32 base) mask); sn_prefix := prefix |}.

Definition subnet_mask (s : SwitchSubnet) : Z :=
  if sn_prefix s =? 0 then 0 else u32_shl u32_MAX (32 - sn_prefix s).
Definition netmask (s : SwitchSubnet) : ip4 := ip4_of_u32 (subnet_mask s).
Definition network (s : SwitchSubnet) : ip4 := ip4_of_u32 (Z.land (ip4_u32 (sn_base s)) (subnet_mask s)).
Definition broadcast (s : SwitchSubnet) : ip4 :=
  ip4_of_u32 (Z.lor (ip4_u32 (network s)) (u32_not (subnet_mask s))).
Definition gateway (s : SwitchSubnet) : ip4 := ip4_of_u32 (u32_add (ip4_u32 (network s)) 1).
Definition dns_server (s : SwitchSubnet) : ip4 := gateway s.
Definition host_alias (s : SwitchSubnet) : ip4 := ip4_of_u32 (u32_sub (ip4_u32 (broadcast s)) 1).
Definition daemon_ip (s : SwitchSubnet) : ip4 := ip4_of_u32 (u32_sub (ip4_u32 (host_alias s)) 1).
Definition box_egress_proxy_address (s : SwitchSubnet) : ip4 :=
  ip4_of_u32 (u32_sub (ip4_u32 (daemon_ip s)) 1).
Definition first_ptask (s : SwitchSubnet) : Z := u32_add (ip4_u32 (network s)) 2.
Definition last_ptask (s : SwitchSubnet) : Z := u32_sub (ip4_u32 (box_egress_proxy_address s)) 1.

Definition DEFAULT_SUBNET : SwitchSubnet := {| sn_base := Ip4 100 64 0 0; sn_prefix := 16 |}.

(** [SwitchSubnet::documented_host_literal]. *)
Definition documented_host_literal (s : SwitchSubnet) : option ip4 :=
  let literal := host_alias DEFAULT_SUBNET in
  let holds (subnet : SwitchSubnet) (addr : ip4) :=
    Z.land (ip4_u32 addr) (subnet_mask subnet) =? ip4_u32 (network subnet) in
  if (sn_prefix DEFAULT_SUBNET <? sn_prefix s) && holds DEFAULT_SUBNET (network s)
     && negb (holds s literal)
  then Some literal else None.

(** ** MAC addresses *)

Record MacAddr : Type := Mac { m0 : Z; m1 : Z; m2 : Z; m3 : Z; m4 : Z; m5 : Z }.

Definition GATEWAY_MAC : MacAddr := Mac 90 148 239 228 12 221.
Definition BEP_MAC : MacAddr := Mac 82 84 0 64 255 252.

(** [MacAddr::for_switch_ip]. *)
Definition for_switch_ip (ip : ip4) : MacAddr := Mac 82 84 0 (oct1 ip) (oct2 ip) (oct3 ip).
Definition bep_mac (s : SwitchSubnet) : MacAddr := for_switch_ip (box_egress_proxy_address s).

(** ** [AddressPlan] *)

Record LoopbackSlice : Type := { ls_first : ip4; ls_last : ip4 }.

Definition slice_contains (s : LoopbackSlice) (addr : ip4) : bool :=
  ip4_leb (ls_first s) addr && ip4_leb addr (ls_last s).
Definition slice_overlaps (s other : LoopbackSlice) : bool :=
  ip4_leb (ls_first s) (ls_last other) && ip4_leb (ls_first other) (ls_last s).

Record SwitchSlice : Type := { ss_subnet : SwitchSubnet; ss_loopback : LoopbackSlice }.

Definition RESERVED_LOCAL_RANGE : ip4 * Z := (Ip4 127 0 64 0, 24).
Definition SWITCH_SLICE_PREFIX : Z := 27.

(** [box_loopback_interior]. *)
Definition box_loopback_interior : ip4 * ip4 :=
  let '(network, prefix) := RESERVED_LOCAL_RANGE in
  let size := u32_shl 1 (32 - prefix) in
  let first := ip4_u32 network in
  (ip4_of_u32 (u32_add first 2), ip4_of_u32 (u32_sub (u32_add first size) 2)).

Record AddressPlan : Type := {
  ap_switch_subnet : SwitchSubnet;
  ap_reserved_local_range : ip4 * Z;
  ap_slice_prefix : Z;
}.

Definition DEFAULT_ADDRESS_PLAN : AddressPlan :=
  {| ap_switch_subnet := DEFAULT_SUBNET; ap_reserved_local_range := RESERVED_LOCAL_RANGE;
     ap_slice_prefix := SWITCH_SLICE_PREFIX |}.

(** [AddressPlan::switch_capacity]. *)
Definition switch_capacity (p : AddressPlan) : Z :=
  Z.shiftl 1 (ap_slice_prefix p - (ap_reserved_local_range p).2).

(** [AddressPlan::slice_at]. *)
Definition slice_at (p : AddressPlan) (index : Z) : option LoopbackSlice :=
  if switch_capacity p <=? index then None
  else
    let step := u32_shl 1 (32 - ap_slice_prefix p) in
    let first := u32_add (ip4_u32 (ap_reserved_local_range p).1) (index mod 4294967296 * step) in
    Some {| ls_first := ip4_of_u32 first; ls_last := ip4_of_u32 (u32_sub (u32_add first step) 1) |}.

(** [AddressPlan::switch_slice]. *)
Definition switch_slice (p : AddressPlan) (index : Z) : option SwitchSlice :=
  match slice_at p index with
  | None => None
  | Some loopback =>
      if index =? 0 then Some {| ss_subnet := ap_switch_subnet p; ss_loopback := loopback |}
      else
        let n := network (ap_switch_subnet p) in
        match switch_subnet_new (Ip4 (oct0 n) (oct1 n) (index mod 256) 0) 24 with
        | inl subnet => Some {| ss_subnet := subnet; ss_loopback := loopback |}
        | inr _ => None
        end
  end.

(** [AddressPlan::loopback_slice_for_switch]. *)
Definition loopback_slice_for_switch (p : AddressPlan) (subnet : SwitchSubnet) : option LoopbackSlice :=
  if bool_decide (subnet = ap_switch_subnet p) then slice_at p 0
  else if negb (sn_prefix subnet =? 24) then None
  else if negb (Z.land (ip4_u32 (network subnet)) (ip4_u32 (netmask (ap_switch_subnet p)))
                =? ip4_u32 (network (ap_switch_subnet p))) then None
  else
    let octet := oct2 (network subnet) in
    if (octet =? 0) || (switch_capacity p <=? octet) then None
    else slice_at p octet.

(** ** Lemmas *)

Lemma ip4_of_u32_wf n : ip4_wf (ip4_of_u32 n).
Proof. unfold ip4_wf, ip4_of_u32, is_u8; simpl. repeat split; try apply Z.mod_pos_bound; try apply Z_mod_lt; lia. Qed.

Lemma ip4_u32_of_u32 n : is_u32 n -> ip4_u32 (ip4_of_u32 n) = n.
Proof.
  intros Hn. rewrite ip4_u32_val by apply ip4_of_u32_wf. unfold ip4_of_u32, is_u32 in *. simpl.
  Z.div_mod_to_equations. lia.
Qed.

Lemma ip4_of_u32_u32 a : ip4_wf a -> ip4_of_u32 (ip4_u32 a) = a.
Proof.
  intros Ha. apply ip4_u32_inj; [apply ip4_of_u32_wf|done|].
  apply ip4_u32_of_u32. by apply ip4_u32_range.
Qed.

Lemma subnet_mask_cidr p : 0 < p <= 32 -> u32_shl u32_MAX (32 - p) = cidr_mask p.
Proof.
  intros Hp. unfold u32_shl, cidr_mask.
  destruct (p =? 0) eqn:E0; bool_to_prop; [lia|].
  destruct (32 <=? p) eqn:E32; bool_to_prop; [|done].
  assert (p = 32) as -> by lia. done.
Qed.

Lemma subnet_new_inv base prefix s :
  switch_subnet_new base prefix = inl s ->
  8 <= prefix <= 29 /\ sn_prefix s = prefix /\
  sn_base s = ip4_of_u32 (Z.land (ip4_u32 base) (cidr_mask prefix)).
Proof.
  unfold switch_subnet_new. destruct (negb _) eqn:E; [done|]. intros [= <-]. bool_to_prop.
  simpl. rewrite subnet_mask_cidr by lia. split; [lia|done].
Qed.

(** A subnet [SwitchSubnet::new] built: its mask and its network address. *)
Definition subnet_size (s : SwitchSubnet) : Z := 2 ^ (32 - sn_prefix s).

Record subnet_ok (s : SwitchSubnet) (n : Z) : Prop := {
  so_prefix : 8 <= sn_prefix s <= 29;
  so_aligned : exists q, n = q * subnet_size s;
  so_range : 0 <= n /\ n + subnet_size s <= 4294967296;
  so_base : ip4_u32 (sn_base s) = n;
  so_network : ip4_u32 (network s) = n;
  so_mask : subnet_mask s = cidr_mask (sn_prefix s);
}.

Lemma subnet_size_bounds p : 8 <= p <= 29 -> 8 <= 2 ^ (32 - p) <= 16777216.
Proof.
  intros Hp. split.
  - change 8 with (2 ^ 3). apply Z.pow_le_mono_r; lia.
  - change 16777216 with (2 ^ 24). apply Z.pow_le_mono_r; lia.
Qed.

Lemma aligned_top p q x : 8 <= p <= 29 -> 0 <= x < 4294967296 -> q = x / 2 ^ (32 - p) ->
  0 <= q * 2 ^ (32 - p) /\ q * 2 ^ (32 - p) + 2 ^ (32 - p) <= 4294967296.
Proof.
  intros Hp Hx ->. pose proof (subnet_size_bounds p Hp).
  assert (Hsplit : 4294967296 = 2 ^ p * 2 ^ (32 - p)) by (rewrite <- Z.pow_add_r by lia; by replace (p + (32 - p)) with 32 by lia).
  assert (x / 2 ^ (32 - p) < 2 ^ p).
  { apply Z.div_lt_upper_bound; [lia|]. lia. }
  assert (0 <= x / 2 ^ (32 - p)) by (apply Z.div_pos; lia). nia.
Qed.

Lemma subnet_new_ok base prefix s :
  ip4_wf base -> switch_subnet_new base prefix = inl s ->
  subnet_ok s (ip4_u32 base / 2 ^ (32 - prefix) * 2 ^ (32 - prefix)).
Proof.
  intros Hb (Hp & Hsp & Hsb)%subnet_new_inv. pose proof (ip4_u32_range _ Hb) as Hr.
  pose proof (aligned_top prefix _ _ Hp Hr eq_refl) as Htop.
  pose proof (subnet_size_bounds prefix Hp) as Hsz.
  rewrite land_cidr_mask in Hsb by (done || lia).
  set (n := _ * _) in *. assert (Hn : is_u32 n) by (unfold is_u32; lia).
  assert (Hbase : ip4_u32 (sn_base s) = n) by (rewrite Hsb; by apply ip4_u32_of_u32).
  assert (Hmask : subnet_mask s = cidr_mask (sn_prefix s)).
  { unfold subnet_mask. rewrite Hsp. destruct (prefix =? 0) eqn:E; bool_to_prop; [lia|].
    apply subnet_mask_cidr. lia. }
  split; unfold subnet_size; rewrite ?Hsp; [done| |lia|done| |by rewrite Hmask, Hsp].
  - by eexists.
  - unfold network. rewrite Hbase, Hmask, Hsp, land_cidr_mask by (done || lia).
    unfold n. rewrite Z.div_mul by lia. by apply ip4_u32_of_u32.
Qed.

(** The broadcast address: the complement of the mask is the host part. *)
Lemma not_cidr_mask p : 8 <= p <= 29 -> u32_not (cidr_mask p) = Z.ones (32 - p).
Proof.
  intros Hp.
  assert (Hall : forallb (fun p => u32_not (cidr_mask p) =? Z.ones (32 - p)) (seqZ 8 22) = true)
    by (vm_compute; reflexivity).
  rewrite forallb_forall in Hall. apply Z.eqb_eq, Hall, list_elem_of_In, elem_of_seqZ. lia.
Qed.

Lemma broadcast_val s n : subnet_ok s n -> ip4_u32 (broadcast s) = n + subnet_size s - 1.
Proof.
  intros [Hp [q Hq] Hr Hb Hn Hm]. unfold broadcast. rewrite Hn, Hm, not_cidr_mask by done.
  pose proof (subnet_size_bounds _ Hp) as Hsz. unfold subnet_size in *.
  rewrite Z.ones_equiv, <- Z.sub_1_r. rewrite Hq, <- Z.shiftl_mul_pow2 by lia.
  rewrite lor_shiftl_add by lia. rewrite Z.shiftl_mul_pow2 by lia.
  rewrite ip4_u32_of_u32; [lia|]. unfold is_u32. lia.
Qed.

(** One step down from the top of the subnet. *)
Lemma step_down a n : is_u32 n -> 1 <= n -> ip4_u32 a = n -> ip4_u32 (ip4_of_u32 (u32_sub (ip4_u32 a) 1)) = n - 1.
Proof.
  intros Hn Hn1 ->. unfold u32_sub, is_u32 in *. rewrite Z.mod_small by lia.
  apply ip4_u32_of_u32. unfold is_u32. lia.
Qed.

(** Rounding down to a block's start says which block a number is in. *)
Lemma in_block x n k : 0 < k -> (exists q, n = q * k) -> x / k * k = n <-> n <= x <= n + k - 1.
Proof.
  intros Hk [q ->]. pose proof (Z.div_mod x k ltac:(lia)). pose proof (Z.mod_pos_bound x k Hk). split.
  - intros Hx. lia.
  - intros Hx. f_equal. symmetry. apply (Z.div_unique x k q (x - k * q)); lia.
Qed.

(** ** Claims *)

(** The layout of a switch's subnet.  For every subnet
    [SwitchSubnet::new] accepts (prefixes 8 to 29, whatever the base), the
    reserved addresses sit at fixed offsets inside it, none of the address
    arithmetic overflows, and the run of addresses handed to boxes is
    non-empty and meets none of the reserved ones: network, gateway, run,
    proxy, daemon, host alias and broadcast, in this order. *)
Theorem subnet_layout (base : ip4) (prefix : Z) (s : SwitchSubnet)
    (Hbase : ip4_wf base) (Hnew : switch_subnet_new base prefix = inl s) :
  let n := ip4_u32 (network s) in
  (forall ip, ip4_wf ip -> Z.land (ip4_u32 ip) (subnet_mask s) = n <-> n <= ip4_u32 ip <= ip4_u32 (broadcast s)) /\
  ip4_u32 (gateway s) = n + 1 /\ first_ptask s = n + 2 /\ first_ptask s <= last_ptask s /\
  ip4_u32 (box_egress_proxy_address s) = last_ptask s + 1 /\
  ip4_u32 (daemon_ip s) = last_ptask s + 2 /\
  ip4_u32 (host_alias s) = last_ptask s + 3 /\
  ip4_u32 (broadcast s) = last_ptask s + 4 /\
  ip4_u32 (broadcast s) = n + 2 ^ (32 - prefix) - 1 /\ ip4_u32 (broadcast s) < 4294967296.
Proof.
  pose proof (subnet_new_inv _ _ _ Hnew) as (Hp & Hsp & _).
  pose proof (subnet_new_ok _ _ _ Hbase Hnew) as Hok. cbv zeta.
  pose proof (broadcast_val _ _ Hok) as Hb.
  destruct Hok as [_ [q Hq] Hr _ Hn Hm]. rewrite Hn in *.
  set (n := _ * 2 ^ (32 - prefix)) in *.
  pose proof (subnet_size_bounds _ Hp) as Hsz. unfold subnet_size in *. rewrite Hsp in *.
  assert (Ha : ip4_u32 (host_alias s) = n + 2 ^ (32 - prefix) - 1 - 1) by (apply step_down; unfold is_u32; lia).
  assert (Hd : ip4_u32 (daemon_ip s) = n + 2 ^ (32 - prefix) - 1 - 1 - 1) by (apply step_down; unfold is_u32; lia).
  assert (Hx : ip4_u32 (box_egress_proxy_address s) = n + 2 ^ (32 - prefix) - 1 - 1 - 1 - 1)
    by (apply step_down; unfold is_u32; lia).
  assert (Hf : first_ptask s = n + 2) by (unfold first_ptask, u32_add; rewrite Hn, Z.mod_small; lia).
  assert (Hl : last_ptask s = n + 2 ^ (32 - prefix) - 5) by (unfold last_ptask, u32_sub; rewrite Hx, Z.mod_small; lia).
  split; [|split; [|lia]].
  - intros ip Hip. rewrite Hm, land_cidr_mask by (try apply ip4_u32_range; done || lia).
    rewrite Hb. apply in_block; [lia|by exists q].
  - unfold gateway, u32_add. rewrite Hn, Z.mod_small by lia. apply ip4_u32_of_u32. unfold is_u32. lia.
Qed.

Lemma subnet_layout_witness :
  ip4_u32 (gateway DEFAULT_SUBNET) = ip4_u32 (network DEFAULT_SUBNET) + 1.
Proof.
  refine (proj1 (proj2 (subnet_layout (Ip4 100 64 7 9) 16 DEFAULT_SUBNET _ _))).
  - repeat split; simpl; lia.
  - vm_compute. reflexivity.
Defined.

Lemma top_octet x n p : 8 <= p <= 29 -> 0 <= n -> (exists q, n = q * 2 ^ (32 - p)) ->
  n <= x <= n + 2 ^ (32 - p) - 1 -> x / 16777216 = n / 16777216.
Proof.
  intros Hp Hn Hq Hx. pose proof (subnet_size_bounds p Hp).
  assert (Hsplit : 16777216 = 2 ^ (32 - p) * 2 ^ (p - 8))
    by (rewrite <- Z.pow_add_r by lia; by replace (32 - p + (p - 8)) with 24 by lia).
  assert (0 < 2 ^ (p - 8)) by (apply Z.pow_pos_nonneg; lia).
  apply in_block in Hx; [|lia|done]. rewrite Hsplit, <- !Z.div_div by lia. f_equal.
  rewrite <- Hx. rewrite Z.div_mul by lia. done.
Qed.

(** Derived MAC addresses are collision-free.  Two addresses of one
    switch's subnet never share the MAC [MacAddr::for_switch_ip] derives,
    because a prefix of at least 8 fixes the octet the derivation drops. *)
Theorem mac_unique_in_subnet (base : ip4) (prefix : Z) (s : SwitchSubnet) (a b : ip4)
    (Hbase : ip4_wf base) (Hnew : switch_subnet_new base prefix = inl s)
    (Ha : ip4_wf a) (Hb : ip4_wf b)
    (Hina : Z.land (ip4_u32 a) (subnet_mask s) = ip4_u32 (network s))
    (Hinb : Z.land (ip4_u32 b) (subnet_mask s) = ip4_u32 (network s))
    (Hmac : for_switch_ip a = for_switch_ip b) : a = b.
Proof.
  pose proof (subnet_new_inv _ _ _ Hnew) as (Hp & Hsp & _).
  destruct (subnet_new_ok _ _ _ Hbase Hnew) as [_ Hq Hr _ Hn Hm].
  unfold subnet_size in *. rewrite Hm, Hn, Hsp, land_cidr_mask in Hina, Hinb
    by (try apply ip4_u32_range; done || lia).
  set (n := ip4_u32 base / _ * _) in *. rewrite Hsp in Hq. pose proof (subnet_size_bounds _ Hp) as Hsz.
  apply in_block in Hina, Hinb; [|lia|done|lia|done].
  apply (top_octet _ n prefix) in Hina, Hinb; [|lia..|done|lia|lia|done].
  rewrite <- Hinb in Hina. rewrite !ip4_u32_val in Hina by done. injection Hmac as H1 H2 H3.
  destruct a as [a0 a1 a2 a3], b as [b0 b1 b2 b3]. simpl in *. subst b1 b2 b3. f_equal.
  destruct Ha as (? & ? & ? & ?), Hb as (? & _). unfold is_u8 in *. simpl in *.
  Z.div_mod_to_equations. lia.
Qed.

Lemma mac_unique_in_subnet_witness : Ip4 100 64 3 4 = Ip4 100 64 3 4.
Proof.
  refine (mac_unique_in_subnet (Ip4 100 64 0 0) 16 DEFAULT_SUBNET _ _ _ _ _ _ _ _ _);
    try (vm_compute; reflexivity); repeat split; simpl; lia.
Defined.

Local Abbreviation P := DEFAULT_ADDRESS_PLAN.

(** The slices of the built-in plan, by index. *)
Definition plan_first (i : Z) : Z := 2130722816 + i * 32.

Lemma eight_cases i : 0 <= i < 8 -> i ∈ seqZ 0 8.
Proof. intros. apply elem_of_seqZ. lia. Qed.

Lemma for_each_switch (Q : Z -> bool) i : 0 <= i < 8 -> forallb Q (seqZ 0 8) = true -> Q i = true.
Proof. intros Hi Hall. rewrite forallb_forall in Hall. by apply Hall, list_elem_of_In, eight_cases. Qed.

Lemma slice_at_spec i : 0 <= i ->
  if decide (i < 8) then
    exists l, slice_at P i = Some l /\ ip4_u32 (ls_first l) = plan_first i /\ ip4_u32 (ls_last l) = plan_first i + 31
  else slice_at P i = None.
Proof.
  intros Hi. case_decide as H8.
  - assert (Hc := for_each_switch (fun i => match slice_at P i with
        | Some l => (ip4_u32 (ls_first l) =? plan_first i) && (ip4_u32 (ls_last l) =? plan_first i + 31)
        | None => false end) i (conj Hi H8) eq_refl).
    cbv beta in Hc. destruct (slice_at P i) as [l|]; [|discriminate Hc]. bool_to_prop. exists l. tauto.
  - unfold slice_at. replace (switch_capacity P) with 8 by done.
    destruct (8 <=? i) eqn:E; bool_to_prop; [done|lia].
Qed.

Definition slice_subnet (i : Z) : SwitchSubnet :=
  if i =? 0 then DEFAULT_SUBNET else {| sn_base := Ip4 100 64 i 0; sn_prefix := 24 |}.

Lemma switch_slice_spec i : 0 <= i ->
  switch_slice P i =
    match slice_at P i with Some l => Some {| ss_subnet := slice_subnet i; ss_loopback := l |} | None => None end.
Proof.
  intros Hi. pose proof (slice_at_spec i Hi) as Hs. case_decide as H8.
  - assert (Hc := for_each_switch (fun i => bool_decide (i = 0 \/
        switch_subnet_new (Ip4 100 64 (i mod 256) 0) 24 = inl (slice_subnet i))) i (conj Hi H8) eq_refl).
    cbv beta in Hc. apply bool_decide_eq_true in Hc. unfold switch_slice. destruct Hs as (l & -> & _).
    unfold slice_subnet in *. destruct (i =? 0) eqn:E0; bool_to_prop; [done|].
    destruct Hc as [?|Hc]; [lia|]. cbv zeta. replace (network (ap_switch_subnet P)) with (Ip4 100 64 0 0) by done.
    cbn [oct0 oct1]. by rewrite Hc.
  - unfold switch_slice. by rewrite Hs.
Qed.

Lemma slice_contains_spec l a first : ip4_u32 (ls_first l) = first -> ip4_u32 (ls_last l) = first + 31 ->
  slice_contains l a = true <-> first <= ip4_u32 a <= first + 31.
Proof. intros H1 H2. unfold slice_contains, ip4_leb. rewrite H1, H2, andb_true_iff, !Z.leb_le. lia. Qed.

(** A /24 of the plan's subnet is the one its third octet names. *)
Lemma carved_subnet base prefix net :
  ip4_wf base -> switch_subnet_new base prefix = inl net -> sn_prefix net = 24 ->
  Z.land (ip4_u32 (network net)) (ip4_u32 (netmask DEFAULT_SUBNET)) = ip4_u32 (network DEFAULT_SUBNET) ->
  sn_base net = Ip4 100 64 (oct2 (network net)) 0 /\ 0 <= oct2 (network net) < 256.
Proof.
  intros Hb Hnew Hp Hin. pose proof (subnet_new_inv _ _ _ Hnew) as (_ & Hsp & Hbase).
  rewrite Hp in Hsp. subst prefix.
  destruct (subnet_new_ok _ _ _ Hb Hnew) as [_ [q Hq] Hr Hbv Hn _].
  unfold subnet_size in Hq, Hr. rewrite Hp in Hq, Hr. rewrite Hn in Hin.
  assert (Hwf : ip4_wf (network net)) by apply ip4_of_u32_wf.
  assert (Hbwf : ip4_wf (sn_base net)) by (rewrite Hbase; apply ip4_of_u32_wf).
  assert (Heq : sn_base net = network net) by (apply ip4_u32_inj; [done..|by rewrite Hbv, Hn]).
  set (n := ip4_u32 base / _ * _) in *.
  change (ip4_u32 (netmask DEFAULT_SUBNET)) with (cidr_mask 16) in Hin.
  rewrite land_cidr_mask in Hin by (unfold is_u32; simpl; lia).
  change (ip4_u32 (network DEFAULT_SUBNET)) with 1681915904 in Hin.
  rewrite ip4_u32_val in Hn by done. change (2 ^ (32 - 16)) with 65536 in Hin.
  change (2 ^ (32 - 24)) with 256 in Hq. rewrite Heq.
  destruct (network net) as [o0 o1 o2 o3]. destruct Hwf as (H0 & H1 & H2 & H3).
  unfold is_u8 in *. cbn [oct0 oct1 oct2 oct3] in *. split; [|done]. clearbody n.
  f_equal; Z.div_mod_to_equations; lia.
Qed.

(** Two switches of one host never publish from the same address.  The
    built-in plan serves exactly eight switches; the loopback slices of two
    different ones share no address; and the slice derived back from a
    switch's own subnet is the one the plan paired it with, for exactly the
    subnets the plan serves. *)
Theorem plan_slices_disjoint :
  (forall i, 0 <= i -> is_Some (switch_slice DEFAULT_ADDRESS_PLAN i) <-> i < 8) /\
  (forall i j s t a, 0 <= i -> 0 <= j -> i <> j ->
     switch_slice DEFAULT_ADDRESS_PLAN i = Some s -> switch_slice DEFAULT_ADDRESS_PLAN j = Some t ->
     ~ (slice_contains (ss_loopback s) a = true /\ slice_contains (ss_loopback t) a = true)) /\
  (forall i s, 0 <= i -> switch_slice DEFAULT_ADDRESS_PLAN i = Some s ->
     loopback_slice_for_switch DEFAULT_ADDRESS_PLAN (ss_subnet s) = Some (ss_loopback s)) /\
  (forall base prefix net l, ip4_wf base -> switch_subnet_new base prefix = inl net ->
     loopback_slice_for_switch DEFAULT_ADDRESS_PLAN net = Some l ->
     exists i, 0 <= i /\ switch_slice DEFAULT_ADDRESS_PLAN i = Some {| ss_subnet := net; ss_loopback := l |}).
Proof.
  split; [|split; [|split]].
  - intros i Hi. rewrite switch_slice_spec by done. pose proof (slice_at_spec i Hi) as Hs. case_decide.
    + destruct Hs as (l & -> & _). split; [done|]. eauto.
    + rewrite Hs. split; [by intros []|lia].
  - intros i j s t a Hi Hj Hij. rewrite !switch_slice_spec by done.
    pose proof (slice_at_spec i Hi) as Hsi. pose proof (slice_at_spec j Hj) as Hsj.
    destruct (decide (i < 8)); [|by rewrite Hsi]. destruct (decide (j < 8)); [|by rewrite Hsj].
    destruct Hsi as (li & -> & Hi1 & Hi2), Hsj as (lj & -> & Hj1 & Hj2). intros [= <-] [= <-]. cbn [ss_loopback].
    rewrite (slice_contains_spec _ _ _ Hi1 Hi2), (slice_contains_spec _ _ _ Hj1 Hj2). unfold plan_first in *. lia.
  - intros i s Hi. rewrite switch_slice_spec by done. pose proof (slice_at_spec i Hi) as Hs.
    case_decide as H8; [|by rewrite Hs].
    assert (Hc := for_each_switch (fun i => match slice_at P i, loopback_slice_for_switch P (slice_subnet i) with
      | Some l, Some l' => bool_decide (ls_first l = ls_first l' /\ ls_last l = ls_last l') | _, _ => false end)
      i (conj Hi H8) eq_refl). cbv beta in Hc.
    destruct (slice_at P i) as [l|]; [|discriminate Hc]. intros [= <-]. cbn [ss_loopback ss_subnet].
    destruct (loopback_slice_for_switch _ _) as [l'|]; [|discriminate Hc].
    apply bool_decide_eq_true in Hc as [H1 H2]. destruct l, l'; simpl in *. by subst.
  - intros base prefix net l Hb Hnew. unfold loopback_slice_for_switch.
    case_bool_decide as Hdef.
    { intros Hl. exists 0. split; [done|]. rewrite switch_slice_spec, Hl by done. by rewrite Hdef. }
    destruct (sn_prefix net =? 24) eqn:H24; bool_to_prop; [|done].
    destruct (Z.land _ _ =? _) eqn:Hin; bool_to_prop; [|done]. cbn [negb].
    destruct (carved_subnet _ _ _ Hb Hnew H24 Hin) as [Hbase Hr].
    destruct (_ || _) eqn:Hoct; [done|]. bool_to_prop. intros Hl. exists (oct2 (network net)). split; [lia|].
    rewrite switch_slice_spec, Hl by lia. unfold slice_subnet.
    destruct (oct2 (network net) =? 0) eqn:E0; bool_to_prop; [lia|]. rewrite <- Hbase, <- H24. by destruct net.
Qed.
