(* ===== verification/Loopback.v ===== *)
(** * Published addresses (crates/boxes/src/core/loopback.rs)

    The answerer's owned set over the reserved local range: a bit per
    grantable address in eight [u32] words, with the operations that restore,
    grant, return and read it.  The set of held addresses is the abstract
    state; the bit arithmetic is proved to implement it. *)

From stdpp Require Import base list gmap numbers.
From Stdlib Require Import ZArith Lia.
From S2P Require Import Prelude Text Egress EgressProps Switch.
Open Scope Z_scope.

Definition RESERVED_LOCAL_RANGE : ip4 * Z := (Ip4 127 0 64 0, 24).
Definition ANSWERER_ADDRESS : ip4 := Ip4 127 0 64 1.
Definition POOL_FIRST : ip4 := Ip4 127 0 64 2.
Definition POOL_LAST : ip4 := Ip4 127 0 64 254.
Definition POOL_LEN : Z := 253.
Definition MASK_WORDS : Z := 8.
Definition LAST_WORD_BITS : Z := POOL_LEN - POOL_LEN / 32 * 32.
Definition LAST_WORD_USABLE : Z := u32_sub (u32_shl 1 LAST_WORD_BITS) 1.

(** [bits]: an address as a plain [u32]. *)
Definition bits (address : ip4) : Z :=
  Z.lor (Z.lor (Z.lor (u32_shl (oct0 address) 24) (u32_shl (oct1 address) 16)) (u32_shl (oct2 address) 8))
        (oct3 address).

(** The build-time assertions on these constants. *)
Example pool_assertions :
  POOL_LEN <= MASK_WORDS * 32 /\ bits POOL_LAST - bits POOL_FIRST + 1 = POOL_LEN /\
  bits ANSWERER_ADDRESS < bits POOL_FIRST /\ bits RESERVED_LOCAL_RANGE.1 < bits POOL_FIRST /\
  bits POOL_LAST < bits RESERVED_LOCAL_RANGE.1 + Z.shiftl 1 (32 - RESERVED_LOCAL_RANGE.2).
Proof. by vm_compute. Qed.

Record LoopbackAllocator : Type := { leased : list Z }.

(** [LoopbackAllocator::new]. *)
Definition allocator_new : LoopbackAllocator := {| leased := replicate (Z.to_nat MASK_WORDS) 0 |}.

(** [u32::trailing_zeros]: 32 for zero. *)
Fixpoint trailing_zeros_from (fuel : nat) (n : Z) : Z :=
  match fuel with
  | O => 0
  | S fuel => if Z.odd n then 0 else 1 + trailing_zeros_from fuel (Z.div2 n)
  end.
Definition trailing_zeros (n : Z) : Z := trailing_zeros_from 32 n.

(** [LoopbackAllocator::free_in]. *)
Definition free_in (leased word : Z) : Z :=
  let free := u32_not leased in
  if word + 1 =? MASK_WORDS then Z.land free LAST_WORD_USABLE else free.

(** [LoopbackAllocator::offset_of]. *)
Definition offset_of (addr : ip4) : option Z :=
  let value := ip4_u32 addr in
  if negb ((ip4_u32 POOL_FIRST <=? value) && (value <=? ip4_u32 POOL_LAST)) then None
  else Some (u32_sub value (ip4_u32 POOL_FIRST)).

(** [LoopbackAllocator::mark]. *)
Definition mark (a : LoopbackAllocator) (addr : ip4) : outcome LoopbackAllocator :=
  match offset_of addr with
  | None => Done a
  | Some offset =>
      let i := Z.to_nat (offset / 32) in
      slot ← index (leased a) i;
      Done {| leased := <[i := Z.lor slot (u32_shl 1 (offset mod 32))]> (leased a) |}
  end.

(** [LoopbackAllocator::restore]. *)
Definition restore (owned : list ip4) : outcome LoopbackAllocator := foldM mark allocator_new owned.

(** The loop of [LoopbackAllocator::lease] over the words still to try. *)
Fixpoint lease_in (words : list nat) (a : LoopbackAllocator) : outcome (LoopbackAllocator * option ip4) :=
  match words with
  | [] => Done (a, None)
  | word :: words =>
      slot ← index (leased a) word;
      let free := free_in slot (Z.of_nat word) in
      if negb (free =? 0) then
        let bit := trailing_zeros free in
        let offset := Z.of_nat word * 32 + bit in
        Done ({| leased := <[word := Z.lor slot (u32_shl 1 bit)]> (leased a) |},
              Some (ip4_of_u32 (u32_add (ip4_u32 POOL_FIRST) offset)))
      else lease_in words a
  end.

(** [LoopbackAllocator::lease]. *)
Definition lease (a : LoopbackAllocator) : outcome (LoopbackAllocator * option ip4) :=
  lease_in (seq 0 (Z.to_nat MASK_WORDS)) a.

(** [LoopbackAllocator::release]. *)
Definition release (a : LoopbackAllocator) (addr : ip4) : outcome (LoopbackAllocator * bool) :=
  match offset_of addr with
  | None => Done (a, false)
  | Some offset =>
      let i := Z.to_nat (offset / 32) in
      slot ← index (leased a) i;
      let bit := u32_shl 1 (offset mod 32) in
      if Z.land slot bit =? 0 then Done (a, false)
      else Done ({| leased := <[i := Z.land slot (u32_not bit)]> (leased a) |}, true)
  end.

(** [LoopbackAllocator::is_leased]. *)
Definition is_leased (a : LoopbackAllocator) (addr : ip4) : outcome bool :=
  match offset_of addr with
  | Some offset =>
      slot ← index (leased a) (Z.to_nat (offset / 32));
      Done (negb (Z.land slot (u32_shl 1 (offset mod 32)) =? 0))
  | None => Done false
  end.

(** The operations a holder of the allocator performs, with their answers. *)
Inductive alloc_op : Type := OpLease | OpRelease (addr : ip4) | OpIsLeased (addr : ip4).
Inductive alloc_answer : Type := AnsLease (a : option ip4) | AnsBool (b : bool).

#[global] Instance alloc_op_eq_dec : EqDecision alloc_op.
Proof. solve_decision. Defined.

Definition alloc_step (a : LoopbackAllocator) (op : alloc_op) : outcome (LoopbackAllocator * alloc_answer) :=
  match op with
  | OpLease => r ← lease a; Done (r.1, AnsLease r.2)
  | OpRelease addr => r ← release a addr; Done (r.1, AnsBool r.2)
  | OpIsLeased addr => b ← is_leased a addr; Done (a, AnsBool b)
  end.

Fixpoint alloc_run (a : LoopbackAllocator) (ops : list alloc_op) : outcome (LoopbackAllocator * list alloc_answer) :=
  match ops with
  | [] => Done (a, [])
  | op :: ops =>
      r ← alloc_step a op;
      rs ← alloc_run r.1 ops;
      Done (rs.1, r.2 :: rs.2)
  end.

(** ** The abstract owned set

    A set of offsets below 253; offset [o] stands for 127.0.64.(2+o). *)

Definition pool_address (o : Z) : ip4 := Ip4 127 0 64 (2 + o).

Definition pool_offset (addr : ip4) : option Z :=
  match addr with
  | Ip4 a b c d =>
      if bool_decide ((a, b, c) = (127, 0, 64) /\ 2 <= d <= 254) then Some (d - 2) else None
  end.

Definition owned_of (addrs : list ip4) : gset Z := list_to_set (omap pool_offset addrs).

Definition owned_lease (held : gset Z) : gset Z * option ip4 :=
  match list_find (fun o => o ∉ held) (seqZ 0 253) with
  | Some (_, o) => ({[o]} ∪ held, Some (pool_address o))
  | None => (held, None)
  end.

Definition owned_step (held : gset Z) (op : alloc_op) : gset Z * alloc_answer :=
  match op with
  | OpLease => let '(held', r) := owned_lease held in (held', AnsLease r)
  | OpRelease addr =>
      match pool_offset addr with
      | Some o => (held ∖ {[o]}, AnsBool (bool_decide (o ∈ held)))
      | None => (held, AnsBool false)
      end
  | OpIsLeased addr =>
      (held, AnsBool (match pool_offset addr with Some o => bool_decide (o ∈ held) | None => false end))
  end.

(** The bits of the words, read as offsets. *)
Definition bit_at (l : list Z) (o : Z) : bool :=
  match l !! Z.to_nat (o / 32) with Some w => Z.testbit w (o mod 32) | None => false end.

Record represents (a : LoopbackAllocator) (held : gset Z) : Prop := {
  rp_words : length (leased a) = 8%nat;
  rp_u32 : Forall is_u32 (leased a);
  rp_pool : forall o, o ∈ held -> 0 <= o < 253;
  rp_bits : forall o, 0 <= o < 256 -> bit_at (leased a) o = bool_decide (o ∈ held);
}.

(** ** Bit lemmas *)

Lemma u32_bit_high w b : is_u32 w -> 32 <= b -> Z.testbit w b = false.
Proof.
  intros Hw Hb. rewrite <- (Z.mod_small w (2 ^ 32)) by exact Hw. apply Z.mod_pow2_bits_high. lia.
Qed.

Lemma u32_of_bits w : 0 <= w -> (forall b, 32 <= b -> Z.testbit w b = false) -> is_u32 w.
Proof.
  intros Hw Hb. assert (E : Z.land w (Z.ones 32) = w).
  { apply Z.bits_inj'. intros b Hb0. rewrite Z.land_spec. destruct (decide (b < 32)).
    - rewrite Z.ones_spec_low by lia. apply andb_true_r.
    - rewrite Hb by lia. done. }
  rewrite <- E, Z.land_ones by lia. apply Z.mod_pos_bound. lia.
Qed.

Lemma u32_shl_1 b : 0 <= b < 32 -> u32_shl 1 b = 2 ^ b.
Proof.
  intros Hb. unfold u32_shl, u32_MAX. change 4294967295 with (Z.ones 32).
  rewrite Z.land_ones, Z.shiftl_1_l by lia. apply Z.mod_small. split; [lia|].
  apply Z.pow_lt_mono_r; lia.
Qed.

Lemma u32_not_bits w b : 0 <= b < 32 -> Z.testbit (u32_not w) b = negb (Z.testbit w b).
Proof.
  intros Hb. unfold u32_not, u32_MAX. change 4294967295 with (Z.ones 32).
  rewrite Z.lxor_spec, Z.ones_spec_low by lia. by destruct (Z.testbit w b).
Qed.

Lemma u32_not_u32 w : is_u32 w -> is_u32 (u32_not w).
Proof.
  intros Hw. apply u32_of_bits.
  - unfold u32_not. apply Z.lxor_nonneg. unfold is_u32 in Hw. unfold u32_MAX. lia.
  - intros b Hb. unfold u32_not. rewrite Z.lxor_spec, (u32_bit_high w) by done.
    change u32_MAX with (Z.ones 32). by rewrite Z.ones_spec_high by lia.
Qed.

Lemma pow2_bit b c : 0 <= b -> Z.testbit (2 ^ b) c = bool_decide (c = b).
Proof.
  intros Hb. rewrite Z.pow2_bits_eqb by done. destruct (Z.eqb_spec b c); case_bool_decide; by subst || lia.
Qed.

Lemma lor_bit_u32 w b : is_u32 w -> 0 <= b < 32 -> is_u32 (Z.lor w (2 ^ b)).
Proof.
  intros Hw Hb. apply u32_of_bits.
  - apply Z.lor_nonneg. split; [apply Hw|lia].
  - intros c Hc. rewrite Z.lor_spec, u32_bit_high, pow2_bit by (done || lia). case_bool_decide; [lia|done].
Qed.

Lemma land_u32 w v : is_u32 w -> is_u32 (Z.land w v).
Proof.
  intros Hw. apply u32_of_bits.
  - apply Z.land_nonneg. left. apply Hw.
  - intros c Hc. by rewrite Z.land_spec, u32_bit_high.
Qed.

Lemma land_bit_zero w b : 0 <= b -> (Z.land w (2 ^ b) =? 0) = negb (Z.testbit w b).
Proof.
  intros Hb. destruct (Z.testbit w b) eqn:E; simpl.
  - apply Z.eqb_neq. intros H0. assert (Hb' : Z.testbit (Z.land w (2 ^ b)) b = false) by (rewrite H0; apply Z.bits_0).
    rewrite Z.land_spec, E, Z.pow2_bits_true in Hb' by done. done.
  - apply Z.eqb_eq. apply Z.bits_inj'. intros c Hc. rewrite Z.bits_0, Z.land_spec, pow2_bit by done.
    case_bool_decide; [by subst; rewrite E|apply andb_false_r].
Qed.

Lemma trailing_zeros_from_spec fuel n :
  n <> 0 -> 0 <= n < 2 ^ Z.of_nat fuel ->
  0 <= trailing_zeros_from fuel n < Z.of_nat fuel /\ Z.testbit n (trailing_zeros_from fuel n) = true /\
  (forall c, 0 <= c < trailing_zeros_from fuel n -> Z.testbit n c = false).
Proof.
  revert n. induction fuel as [|fuel IH]; intros n Hn Hr; [simpl in Hr; lia|].
  cbn [trailing_zeros_from]. destruct (Z.odd n) eqn:Ho.
  - rewrite Z.bit0_odd. split; [lia|]. split; [done|lia].
  - rewrite Nat2Z.inj_succ, Z.pow_succ_r in Hr by lia.
    assert (E : n = 2 * Z.div2 n) by (rewrite (Z.div2_odd n) at 1; rewrite Ho; simpl; lia).
    destruct (IH (Z.div2 n)) as (H1 & H2 & H3); [lia|lia|].
    split; [lia|]. rewrite E at 1. split.
    + rewrite Z.add_1_l, Z.testbit_even_succ by lia. done.
    + intros c Hc. rewrite E. destruct (decide (c = 0)) as [->|]; [apply Z.testbit_even_0|].
      replace c with (Z.succ (c - 1)) by lia. rewrite Z.testbit_even_succ by lia. apply H3. lia.
Qed.

Lemma free_in_bits w (i : nat) b :
  (i < 8)%nat -> 0 <= b < 32 ->
  Z.testbit (free_in w (Z.of_nat i)) b = negb (Z.testbit w b) && (Z.of_nat i * 32 + b <? 253).
Proof.
  intros Hi Hb. unfold free_in, MASK_WORDS. destruct (Z.eqb_spec (Z.of_nat i + 1) 8) as [E|E].
  - rewrite Z.land_spec, u32_not_bits by done. f_equal.
    change LAST_WORD_USABLE with (Z.ones 29). replace (Z.of_nat i) with 7 by lia.
    destruct (Z.ltb_spec (7 * 32 + b) 253); [apply Z.ones_spec_low|apply Z.ones_spec_high]; lia.
  - rewrite u32_not_bits by done. replace (_ <? 253) with true; [by rewrite andb_true_r|].
    symmetry. apply Z.ltb_lt. lia.
Qed.

Lemma free_in_u32 w i : is_u32 w -> is_u32 (free_in w i).
Proof.
  intros Hw. unfold free_in. destruct (_ =? _); [apply land_u32|]; by apply u32_not_u32.
Qed.

(** ** Offsets *)

Lemma offset_of_pool addr : ip4_wf addr -> offset_of addr = pool_offset addr.
Proof.
  intros Hwf. pose proof (ip4_u32_val _ Hwf) as Hv. unfold offset_of.
  change (ip4_u32 POOL_FIRST) with 2130722818. change (ip4_u32 POOL_LAST) with 2130723070.
  destruct addr as [a b c d]. destruct Hwf as (Ha & Hb & Hc & Hd). unfold is_u8 in *. simpl in *.
  rewrite Hv. case_bool_decide as E.
  - destruct E as [[= -> -> ->] Hr]. replace (_ && _) with true by (symmetry; apply andb_true_iff; split; apply Z.leb_le; lia).
    cbn [negb]. unfold u32_sub. rewrite Z.mod_small by lia. f_equal. lia.
  - replace (_ && _) with false; [done|]. symmetry. apply andb_false_iff. rewrite !Z.leb_gt.
    destruct (decide (2130722818 <= a * 16777216 + b * 65536 + c * 256 + d <= 2130723070)) as [Hin|]; [|lia].
    exfalso. apply E. assert (a = 127) by lia. subst. assert (b = 0) by lia. subst. assert (c = 64) by lia. subst.
    split; [done|lia].
Qed.

Lemma pool_offset_range addr o : pool_offset addr = Some o -> 0 <= o < 253 /\ addr = pool_address o.
Proof.
  destruct addr as [a b c d]. simpl. case_bool_decide as E; [|done]. intros [= <-].
  destruct E as [[= -> -> ->] Hr]. split; [lia|]. unfold pool_address. f_equal. lia.
Qed.

Lemma pool_address_offset o : 0 <= o < 253 -> pool_offset (pool_address o) = Some o.
Proof.
  intros Ho. unfold pool_address, pool_offset. rewrite bool_decide_eq_true_2 by (split; [done|lia]). f_equal. lia.
Qed.

Lemma granted_address o : 0 <= o < 253 -> ip4_of_u32 (u32_add (ip4_u32 POOL_FIRST) o) = pool_address o.
Proof.
  intros Ho. change (ip4_u32 POOL_FIRST) with 2130722818. unfold u32_add, ip4_of_u32, pool_address.
  rewrite (Z.mod_small (2130722818 + o)) by lia. f_equal; Z.div_mod_to_equations; lia.
Qed.

Lemma offset_split o : o = o / 32 * 32 + o mod 32 /\ 0 <= o mod 32 < 32.
Proof. Z.div_mod_to_equations; lia. Qed.

Lemma word_index o : 0 <= o < 256 -> 0 <= o / 32 < 8.
Proof. intros Ho. Z.div_mod_to_equations; lia. Qed.

Lemma bit_at_insert l o w c :
  length l = 8%nat -> 0 <= o < 256 -> 0 <= c < 256 ->
  bit_at (<[Z.to_nat (o / 32) := w]> l) c =
  if bool_decide (c / 32 = o / 32) then Z.testbit w (c mod 32) else bit_at l c.
Proof.
  intros Hl Ho Hc. pose proof (word_index o Ho). pose proof (word_index c Hc).
  unfold bit_at. case_bool_decide as E.
  - rewrite E, list_lookup_insert_eq; [done|]. rewrite Hl. lia.
  - rewrite list_lookup_insert_ne; [done|]. intros E'. apply E. lia.
Qed.

(** ** The words represent the set *)

Section Represented.
Context (a : LoopbackAllocator) (held : gset Z).
Hypothesis Hr : represents a held.

(** The word an offset falls in, with the bit read through it. *)
Lemma word_at o : 0 <= o < 256 ->
  exists w, leased a !! Z.to_nat (o / 32) = Some w /\ index (leased a) (Z.to_nat (o / 32)) = Done w /\ is_u32 w /\
    (forall c, 0 <= c < 256 -> c / 32 = o / 32 -> Z.testbit w (c mod 32) = bool_decide (c ∈ held)).
Proof.
  intros Ho. destruct (index_lt (leased a) (Z.to_nat (o / 32))) as (w & Hw & Hi).
  { rewrite (rp_words _ _ Hr). pose proof (word_index o Ho). lia. }
  exists w. split; [done|]. split; [done|]. split.
  - eapply list.Forall_lookup_1; [apply (rp_u32 _ _ Hr)|exact Hw].
  - intros c Hc E. rewrite <- (rp_bits _ _ Hr c Hc). unfold bit_at. by rewrite E, Hw.
Qed.

(** Replacing a word by one that differs in a single bit. *)
Lemma represents_update o w w' (held' : gset Z) :
  0 <= o < 253 -> leased a !! Z.to_nat (o / 32) = Some w -> is_u32 w' ->
  (forall b, 0 <= b < 32 -> b <> o mod 32 -> Z.testbit w' b = Z.testbit w b) ->
  Z.testbit w' (o mod 32) = bool_decide (o ∈ held') ->
  (forall c, c <> o -> c ∈ held' <-> c ∈ held) ->
  represents {| leased := <[Z.to_nat (o / 32) := w']> (leased a) |} held'.
Proof.
  intros Ho Hw Hw' Hsame Hbit Hheld. split; cbn [leased].
  - by rewrite length_insert, (rp_words _ _ Hr).
  - apply list.Forall_insert; [apply (rp_u32 _ _ Hr)|done].
  - intros c Hc. destruct (decide (c = o)) as [->|Hne]; [done|]. by apply (rp_pool _ _ Hr), Hheld.
  - intros c Hc. rewrite bit_at_insert by (apply (rp_words _ _ Hr) || lia).
    destruct (decide (c = o)) as [->|Hne]; [by rewrite (bool_decide_eq_true_2 (o / 32 = o / 32))|].
    transitivity (bit_at (leased a) c).
    + destruct (bool_decide_reflect (c / 32 = o / 32)) as [E|]; [|done]. unfold bit_at. rewrite E, Hw. apply Hsame; [apply offset_split|].
      pose proof (offset_split c). pose proof (offset_split o). lia.
    + rewrite (rp_bits _ _ Hr c Hc). apply bool_decide_ext. symmetry. by apply Hheld.
Qed.

Lemma represents_set o w :
  0 <= o < 253 -> leased a !! Z.to_nat (o / 32) = Some w -> is_u32 w ->
  represents {| leased := <[Z.to_nat (o / 32) := Z.lor w (u32_shl 1 (o mod 32))]> (leased a) |} ({[o]} ∪ held).
Proof.
  intros Ho Hw Hu. pose proof (offset_split o) as [_ Hm]. rewrite u32_shl_1 by done.
  eapply represents_update; [done|exact Hw|by apply lor_bit_u32| | |set_solver].
  - intros b Hb Hne. rewrite Z.lor_spec, pow2_bit, bool_decide_eq_false_2, orb_false_r by (done || lia). done.
  - rewrite Z.lor_spec, Z.pow2_bits_true, orb_true_r by lia. symmetry. apply bool_decide_eq_true_2. set_solver.
Qed.

Lemma represents_clear o w :
  0 <= o < 253 -> leased a !! Z.to_nat (o / 32) = Some w -> is_u32 w ->
  represents {| leased := <[Z.to_nat (o / 32) := Z.land w (u32_not (u32_shl 1 (o mod 32)))]> (leased a) |} (held ∖ {[o]}).
Proof.
  intros Ho Hw Hu. pose proof (offset_split o) as [_ Hm]. rewrite u32_shl_1 by done.
  eapply represents_update; [done|exact Hw|by apply land_u32| | |set_solver].
  - intros b Hb Hne. rewrite Z.land_spec, u32_not_bits, pow2_bit, bool_decide_eq_false_2, andb_true_r by (done || lia). done.
  - rewrite Z.land_spec, u32_not_bits, Z.pow2_bits_true, andb_false_r by lia. symmetry. apply bool_decide_eq_false_2. set_solver.
Qed.

End Represented.

Lemma mark_represents a held addr :
  represents a held -> ip4_wf addr ->
  exists a', mark a addr = Done a' /\ represents a' (owned_of [addr] ∪ held).
Proof.
  intros Hr Hwf. unfold mark, owned_of. rewrite offset_of_pool by done. simpl.
  destruct (pool_offset addr) as [o|] eqn:E; simpl.
  - apply pool_offset_range in E as [Ho _].
    destruct (word_at a held Hr o) as (w & Hw & -> & Hu & _); [lia|]. eexists. split; [done|].
    rewrite (right_id_L ∅ (∪)). by apply represents_set.
  - exists a. split; [done|]. by rewrite (left_id_L ∅ (∪)).
Qed.

Lemma new_represents : represents allocator_new ∅.
Proof.
  split; [done| | |].
  - by apply (bool_decide_unpack _); vm_compute.
  - set_solver.
  - intros o Ho. rewrite bool_decide_eq_false_2 by set_solver. unfold bit_at, allocator_new, MASK_WORDS. cbn [leased].
    rewrite lookup_replicate_2 by (pose proof (word_index o Ho); lia). apply Z.bits_0.
Qed.

Lemma owned_of_cons addr addrs : owned_of (addr :: addrs) = owned_of [addr] ∪ owned_of addrs.
Proof. unfold owned_of. simpl. destruct (pool_offset addr); simpl; set_solver. Qed.

Lemma marks_represent addrs a held :
  represents a held -> Forall ip4_wf addrs ->
  exists a', foldM mark a addrs = Done a' /\ represents a' (owned_of addrs ∪ held).
Proof.
  intros Hr Hwf. revert a held Hr. induction Hwf as [|addr addrs Hw _ IH]; intros a held Hr; simpl.
  - exists a. split; [done|]. unfold owned_of. simpl. by rewrite (left_id_L ∅ (∪)).
  - destruct (mark_represents a held addr Hr Hw) as (a1 & -> & Hr1). simpl.
    destruct (IH _ _ Hr1) as (a2 & -> & Hr2). exists a2. split; [done|].
    rewrite owned_of_cons. by replace (owned_of [addr] ∪ owned_of addrs ∪ held)
      with (owned_of addrs ∪ (owned_of [addr] ∪ held)) by set_solver.
Qed.

(** The lowest free offset is the one the abstract lease finds. *)
Lemma owned_lease_lowest held o :
  0 <= o < 253 -> o ∉ held -> (forall c, 0 <= c < o -> c ∈ held) ->
  owned_lease held = ({[o]} ∪ held, Some (pool_address o)).
Proof.
  intros Ho Hfree Hlow. unfold owned_lease.
  assert (H : list_find (fun o => o ∉ held) (seqZ 0 253) = Some (Z.to_nat o, o)).
  { apply list_find_Some. split; [apply lookup_seqZ; lia|]. split; [done|].
    intros j y Hj Hlt Hy. apply lookup_seqZ in Hj. apply Hy, Hlow. lia. }
  by rewrite H.
Qed.

Lemma owned_lease_full held :
  (forall c, 0 <= c < 253 -> c ∈ held) -> owned_lease held = (held, None).
Proof.
  intros Hfull. unfold owned_lease.
  assert (H : list_find (fun o => o ∉ held) (seqZ 0 253) = None).
  { apply list_find_None, list.Forall_forall. intros y Hy. apply elem_of_seqZ in Hy.
    intros Hn. apply Hn, Hfull. lia. }
  by rewrite H.
Qed.

Definition lease_refines a held (words : list nat) : Prop :=
  exists a', lease_in words a = Done (a', (owned_lease held).2) /\ represents a' (owned_lease held).1.

Lemma lease_in_represents a held k n :
  represents a held -> (k + n = 8)%nat -> (forall c, 0 <= c < Z.of_nat k * 32 -> c < 253 -> c ∈ held) ->
  lease_refines a held (seq k n).
Proof.
  intros Hr. unfold lease_refines. revert k. induction n as [|n IH]; intros k Hk Hlow; simpl.
  - rewrite owned_lease_full; [by exists a|]. intros c Hc. apply Hlow; lia.
  - destruct (word_at a held Hr (Z.of_nat k * 32)) as (w & Hw & Hi & Hu & Hbits); [lia|].
    rewrite Z.div_mul, Nat2Z.id in Hw, Hi by lia. rewrite Hi. simpl.
    assert (Hbit : forall b, 0 <= b < 32 -> Z.testbit w b = bool_decide (Z.of_nat k * 32 + b ∈ held)).
    { intros b Hb. rewrite <- Hbits; [|lia|Z.div_mod_to_equations; lia]. f_equal. Z.div_mod_to_equations; lia. }
    pose proof (free_in_bits w k) as Hfree.
    assert (Hheld : forall c, 0 <= c < Z.of_nat (S k) * 32 -> c < 253 ->
      (Z.of_nat k * 32 <= c -> Z.testbit (free_in w (Z.of_nat k)) (c - Z.of_nat k * 32) = false) -> c ∈ held).
    { intros c Hc Hc' Hf. destruct (decide (c < Z.of_nat k * 32)); [apply Hlow; lia|].
      specialize (Hf ltac:(lia)). rewrite Hfree, Hbit in Hf by lia.
      replace (Z.of_nat k * 32 + (c - Z.of_nat k * 32)) with c in Hf by lia.
      destruct (bool_decide_reflect (c ∈ held)); [done|]. simpl in Hf. apply Z.ltb_ge in Hf. lia. }
    destruct (Z.eqb_spec (free_in w (Z.of_nat k)) 0) as [E|E]; cbn [negb].
    + apply IH; [lia|]. intros c Hc Hc'. apply Hheld; [lia|done|]. intros _. rewrite E. apply Z.bits_0.
    + destruct (trailing_zeros_from_spec 32 (free_in w (Z.of_nat k)) E) as (Hb & Hset & Hclear);
        [by apply free_in_u32|]. change (trailing_zeros_from 32) with trailing_zeros in *.
      set (b := trailing_zeros _) in *. set (o := Z.of_nat k * 32 + b).
      rewrite Hfree, Hbit in Hset by lia. apply andb_true_iff in Hset as [Hno Ho%Z.ltb_lt].
      apply negb_true_iff, bool_decide_eq_false_1 in Hno.
      rewrite (owned_lease_lowest held o); [|lia|done|].
      * rewrite granted_address by lia. eexists. split; [done|]. cbn [fst].
        assert (Ek : Z.to_nat (o / 32) = k) by (assert (o / 32 = Z.of_nat k) by (Z.div_mod_to_equations; lia); lia).
        assert (Eb : o mod 32 = b) by (Z.div_mod_to_equations; lia).
        rewrite <- Ek, <- Eb. apply represents_set; [done|lia|by rewrite Ek|done].
      * intros c Hc. apply Hheld; [lia|lia|]. intros Hk'. apply Hclear. lia.
Qed.

(** ** Histories *)

Definition op_wf (op : alloc_op) : Prop :=
  match op with OpLease => True | OpRelease addr | OpIsLeased addr => ip4_wf addr end.

#[global] Instance op_wf_dec op : Decision (op_wf op).
Proof. destruct op; simpl; apply _. Defined.

Lemma alloc_step_refines a held op :
  represents a held -> op_wf op ->
  exists a', alloc_step a op = Done (a', (owned_step held op).2) /\ represents a' (owned_step held op).1.
Proof.
  intros Hr Hwf. destruct op as [|addr|addr]; cbn [alloc_step owned_step op_wf] in *.
  - destruct (lease_in_represents a held 0 8 Hr) as (a' & Hl & Hr'); [lia|lia|].
    unfold lease, MASK_WORDS. change (Z.to_nat 8) with 8%nat. rewrite Hl. simpl.
    destruct (owned_lease held). eauto.
  - unfold release. rewrite offset_of_pool by done. destruct (pool_offset addr) as [o|] eqn:E; [|by exists a].
    apply pool_offset_range in E as [Ho _].
    destruct (word_at a held Hr o) as (w & Hw & -> & Hu & Hbit); [lia|]. simpl.
    pose proof (offset_split o) as [_ Hm]. rewrite u32_shl_1, land_bit_zero, Hbit by lia.
    case_bool_decide as Hin; simpl.
    + eexists. split; [done|]. rewrite <- u32_shl_1 by done. by apply represents_clear.
    + exists a. split; [done|]. by rewrite difference_disjoint_L by set_solver.
  - unfold is_leased. rewrite offset_of_pool by done. destruct (pool_offset addr) as [o|] eqn:E; [|by exists a].
    apply pool_offset_range in E as [Ho _].
    destruct (word_at a held Hr o) as (w & Hw & -> & Hu & Hbit); [lia|]. simpl.
    pose proof (offset_split o) as [_ Hm]. rewrite u32_shl_1, land_bit_zero, Hbit, negb_involutive by lia. eauto.
Qed.

Lemma alloc_run_refines a held ops :
  represents a held -> Forall op_wf ops ->
  exists a', alloc_run a ops = Done (a', (run owned_step held ops).2) /\ represents a' (run_state owned_step held ops).
Proof.
  intros Hr Hwf. revert a held Hr. induction Hwf as [|op ops Hop _ IH]; intros a held Hr; simpl; [by exists a|].
  destruct (alloc_step_refines a held op Hr Hop) as (a1 & -> & Hr1). simpl.
  destruct (IH _ _ Hr1) as (a2 & -> & Hr2). simpl. rewrite run_state_cons. exists a2. split; [|done].
  destruct (owned_step held op) as [h e]. simpl. by destruct (run owned_step h ops).
Qed.

Lemma restore_represents owned :
  Forall ip4_wf owned -> exists a, restore owned = Done a /\ represents a (owned_of owned).
Proof.
  intros Hwf. destruct (marks_represent owned _ _ new_represents Hwf) as (a & Ha & Hr).
  exists a. split; [done|]. by rewrite (right_id_L ∅ (∪)) in Hr.
Qed.

Lemma owned_lease_fresh held addr :
  (owned_lease held).2 = Some addr ->
  exists o, 0 <= o < 253 /\ addr = pool_address o /\ o ∉ held /\ (owned_lease held).1 = {[o]} ∪ held.
Proof.
  unfold owned_lease. destruct (list_find _ _) as [[i o]|] eqn:E; [|done]. intros [= <-].
  apply list_find_Some in E as (Hi & Hno & _). apply lookup_seqZ in Hi. exists o. by split; [lia|].
Qed.

Lemma owned_step_keeps held op o :
  o ∈ held -> 0 <= o < 253 -> op <> OpRelease (pool_address o) -> o ∈ (owned_step held op).1.
Proof.
  intros Ho Hr Hop. destruct op as [|addr|addr]; simpl; [|destruct (pool_offset addr) as [c|] eqn:E; simpl|done].
  - unfold owned_lease. destruct (list_find _ _) as [[? ?]|]; simpl; set_solver.
  - apply pool_offset_range in E as [_ ->]. assert (c <> o) by (intros ->; by apply Hop). set_solver.
  - done.
Qed.

(** A held address is granted again only after it is released. *)
Lemma held_not_granted held ops o j :
  o ∈ held -> 0 <= o < 253 -> (run owned_step held ops).2 !! j = Some (AnsLease (Some (pool_address o))) ->
  exists k, (k < j)%nat /\ ops !! k = Some (OpRelease (pool_address o)).
Proof.
  intros Ho Hr. revert held Ho j. induction ops as [|op ops IH]; intros held Ho j; [done|]. cbn [run].
  destruct (decide (op = OpRelease (pool_address o))) as [->|Hop].
  - destruct j as [|j]; [|by intros _; exists 0%nat; split; [lia|]].
    cbn [owned_step]. rewrite pool_address_offset by done. by destruct (run owned_step _ ops).
  - pose proof (owned_step_keeps _ _ _ Ho Hr Hop) as Hk.
    destruct (owned_step held op) as [h e] eqn:E. destruct (run owned_step h ops) as [h' es] eqn:Er. simpl in *.
    destruct j as [|j]; simpl.
    + intros [= ->]. destruct op as [|addr|addr]; simpl in E; [|by destruct (pool_offset addr)|done].
      destruct (owned_lease held) as [h0 r0] eqn:El. injection E as -> ->.
      destruct (owned_lease_fresh held (pool_address o)) as (o' & _ & Heq & Hno & _); [by rewrite El|].
      injection Heq as Heq. by assert (o' = o) as -> by lia.
    + intros Hj. destruct (IH h Hk j) as (k & Hkj & Hop'); [by rewrite Er|]. exists (S k). split; [lia|done].
Qed.

(** A history split at the answer of index [i]. *)
Lemma run_split held ops i e :
  (run owned_step held ops).2 !! i = Some e ->
  exists op, ops !! i = Some op /\ e = (owned_step (run_state owned_step held (take i ops)) op).2 /\
    (run owned_step (owned_step (run_state owned_step held (take i ops)) op).1 (drop (S i) ops)).2 =
    drop (S i) (run owned_step held ops).2.
Proof.
  revert held i. induction ops as [|op ops IH]; intros held i; [done|]. cbn [run].
  destruct (owned_step held op) as [h e'] eqn:E. destruct (run owned_step h ops) as [h' es] eqn:Er. cbn [snd].
  destruct i as [|i]; simpl.
  - intros [= ->]. exists op. cbn. rewrite E. cbn [fst snd]. by rewrite !drop_0, Er.
  - intros Hi. rewrite run_state_cons, E. specialize (IH h i). rewrite Er in IH. by apply IH.
Qed.

(** C6: the bitmask implements the owned set.  Restoring the record and then
    any sequence of leases, releases and reads never indexes out of range;
    every answer is the one the set of held addresses gives (a lease grants
    the lowest free address of the pool, and none only when all 253 are
    held; a release succeeds exactly on a held address), and the bits are
    that set afterwards. *)
Theorem allocator_refines_owned_set owned ops :
  Forall ip4_wf owned -> Forall op_wf ops ->
  exists a a', restore owned = Done a /\
    alloc_run a ops = Done (a', (run owned_step (owned_of owned) ops).2) /\
    represents a' (run_state owned_step (owned_of owned) ops).
Proof.
  intros Ho Hops. destruct (restore_represents owned Ho) as (a & Ha & Hr).
  destruct (alloc_run_refines a _ ops Hr Hops) as (a' & Hrun & Hr'). by exists a, a'.
Qed.

(** No two published namespaces hold one address.  In any history of
    the restored allocator, a granted address lies in the pool, so it is
    never the answerer's; it was in the record, or was granted before, only
    if a release of it came in between. *)
Theorem grants_are_exclusive owned ops a a' answers addr j :
  Forall ip4_wf owned -> Forall op_wf ops ->
  restore owned = Done a -> alloc_run a ops = Done (a', answers) ->
  answers !! j = Some (AnsLease (Some addr)) ->
  (exists o, 0 <= o < POOL_LEN /\ addr = pool_address o) /\ addr <> ANSWERER_ADDRESS /\
  (addr ∈ owned -> exists k, (k < j)%nat /\ ops !! k = Some (OpRelease addr)) /\
  (forall i, (i < j)%nat -> answers !! i = Some (AnsLease (Some addr)) ->
     exists k, (i < k < j)%nat /\ ops !! k = Some (OpRelease addr)).
Proof.
  intros Hwf Hops Ha Hrun Hj. destruct (restore_represents owned Hwf) as (a0 & Ha0 & Hr).
  rewrite Ha in Ha0. injection Ha0 as <-.
  destruct (alloc_run_refines a _ ops Hr Hops) as (a1 & Hrun1 & _). rewrite Hrun in Hrun1. injection Hrun1 as _ ->.
  assert (Hgrant : forall i, (run owned_step (owned_of owned) ops).2 !! i = Some (AnsLease (Some addr)) ->
    exists o, 0 <= o < 253 /\ addr = pool_address o /\
      (run owned_step ({[o]} ∪ run_state owned_step (owned_of owned) (take i ops)) (drop (S i) ops)).2 =
      drop (S i) (run owned_step (owned_of owned) ops).2).
  { intros i Hi. apply run_split in Hi as (op & Hop & He & Hrest).
    destruct op as [|b|b]; simpl in He; [|by destruct (pool_offset b)|done].
    destruct (owned_lease _) as [h r] eqn:El. injection He as <-.
    destruct (owned_lease_fresh _ addr ltac:(by rewrite El)) as (o & Ho & -> & _ & Hset). exists o.
    split; [done|]. split; [done|]. rewrite <- Hset, El. rewrite <- Hrest. simpl. by rewrite El. }
  destruct (Hgrant j Hj) as (o & Ho & -> & _). split; [by exists o|]. split; [|split].
  - intros [= E]. lia.
  - intros Hin. apply (held_not_granted (owned_of owned)); [|done|done].
    unfold owned_of. apply elem_of_list_to_set, list_elem_of_omap. exists (pool_address o).
    split; [done|by apply pool_address_offset].
  - intros i Hij Hi. destruct (Hgrant i Hi) as (o' & Ho' & Heq & Hrest). injection Heq as Heq.
    assert (o' = o) as -> by lia.
    destruct (held_not_granted ({[o]} ∪ run_state owned_step (owned_of owned) (take i ops)) (drop (S i) ops) o (j - S i)%nat)
      as (k & Hk & Hop); [set_solver|done| |].
    + rewrite Hrest, lookup_drop, <- Hj. f_equal. lia.
    + rewrite lookup_drop in Hop. exists (S i + k)%nat. split; [lia|done].
Qed.

(** ** A sample history

    A record with one pool address and one foreign address, then a lease, a
    refused foreign release, a release and a lease of the address returned. *)
Module LoopbackSample.

Definition record : list ip4 := [Ip4 127 0 64 2; Ip4 10 0 0 1].
Definition history : list alloc_op :=
  [OpLease; OpRelease (Ip4 10 0 0 1); OpIsLeased (Ip4 127 0 64 3); OpRelease (Ip4 127 0 64 3); OpLease].

Definition answers : list alloc_answer :=
  [AnsLease (Some (Ip4 127 0 64 3)); AnsBool false; AnsBool true; AnsBool true; AnsLease (Some (Ip4 127 0 64 3))].

Lemma allocator_refines_owned_set_witness :
  exists a a', restore record = Done a /\ alloc_run a history = Done (a', answers) /\
    represents a' {[0; 1]}.
Proof.
  destruct (allocator_refines_owned_set record history) as (a & a' & Ha & Hrun & Hr);
    [by apply (bool_decide_unpack _); vm_compute..|].
  exists a, a'. split; [exact Ha|]. split; [exact Hrun|].
  replace ({[0; 1]} : gset Z) with (run_state owned_step (owned_of record) history)
    by (apply (bool_decide_unpack _); vm_compute; exact I).
  exact Hr.
Defined.

Definition before : LoopbackAllocator := {| leased := [1; 0; 0; 0; 0; 0; 0; 0] |}.
Definition after : LoopbackAllocator := {| leased := [3; 0; 0; 0; 0; 0; 0; 0] |}.

Lemma grants_are_exclusive_witness :
  restore record = Done before /\ alloc_run before history = Done (after, answers) /\
  exists k, (0 < k < 4)%nat /\ history !! k = Some (OpRelease (Ip4 127 0 64 3)).
Proof.
  assert (Ha : restore record = Done before) by (vm_compute; reflexivity).
  assert (Hr : alloc_run before history = Done (after, answers)) by (vm_compute; reflexivity).
  split; [exact Ha|]. split; [exact Hr|].
  destruct (grants_are_exclusive record history before after answers (Ip4 127 0 64 3) 4) as (_ & _ & _ & Hx);
    [by apply (bool_decide_unpack _); vm_compute..|exact Ha|exact Hr|reflexivity|].
  apply (Hx 0%nat); [lia|reflexivity].
Defined.

(** All 253 addresses of the pool are granted before a lease is refused. *)
Example pool_exhausted :
  match alloc_run allocator_new (replicate 254 OpLease) with
  | Done (_, rs) => list.last rs = Some (AnsLease None) /\ rs !! 252%nat = Some (AnsLease (Some POOL_LAST))
  | _ => False
  end.
Proof. vm_compute. by split. Qed.

End LoopbackSample.
