(* ===== verification/SwitchRequest.v ===== *)
(** * Switch control requests (crates/boxes/src/core/switch_request.rs)

    The gate's apply-or-refuse decision for one control request of the daemon
    (publish a forwarder, retract one, publish names), against the rows
    published on the host and the plan's lease bounds. *)

From stdpp Require Import base list numbers strings.
From Stdlib Require Import ZArith Lia.
From S2P Require Import Prelude Text Egress EgressProps Switch.
Open Scope Z_scope.

(** ** Data *)

(** [EgressDefaultPhase] (crates/boxes/src/lib.rs). *)
Inductive EgressDefaultPhase : Type := Announced | InForce.
Definition EGRESS_DEFAULT_PHASE : EgressDefaultPhase := InForce.

#[global] Instance EgressDefaultPhase_eq_dec : EqDecision EgressDefaultPhase.
Proof. solve_decision. Defined.

Definition MAX_REQUEST_RECORDS : nat := 4.

Inductive SwitchVerb : Type := Publish | Retract | PublishName.

Inductive Record_ : Type := RcPort (port : Z) | RcName (name : Z).

#[global] Instance Record_eq_dec : EqDecision Record_.
Proof. solve_decision. Defined.

Record SwitchRequest : Type := {
  sr_verb : SwitchVerb;
  sr_switch_addr : ip4;
  sr_records : list (option Record_);
}.

(** [slots.iter_mut().zip(records)]: the slots of the shorter prefix are set. *)
Fixpoint fill_slots (slots : list (option Record_)) (records : list Record_) : list (option Record_) :=
  match slots, records with
  | _ :: slots, record :: records => Some record :: fill_slots slots records
  | slots, _ => slots
  end.

(** [SwitchRequest::of]. *)
Definition switch_request_of (verb : SwitchVerb) (switch_addr : ip4) (records : list Record_) : option SwitchRequest :=
  if bool_decide (MAX_REQUEST_RECORDS < length records)%nat then None
  else
    let slots := replicate MAX_REQUEST_RECORDS None in
    Some {| sr_verb := verb; sr_switch_addr := switch_addr; sr_records := fill_slots slots records |}.

(** [SwitchRequest::records]: the filled slots, in order. *)
Definition request_records (r : SwitchRequest) : list Record_ := omap id (sr_records r).

Record SwitchRow : Type := {
  sw_switch_addr : ip4;
  sw_ports : list Z;
  sw_names : list Z;
  sw_published : list Z;
}.

(** [SwitchRow::of] and [SwitchRow::with_published]. *)
Definition switch_row_of (switch_addr : ip4) (ports names : list Z) : SwitchRow :=
  {| sw_switch_addr := switch_addr; sw_ports := ports; sw_names := names; sw_published := [] |}.
Definition with_published (row : SwitchRow) (published : list Z) : SwitchRow :=
  {| sw_switch_addr := sw_switch_addr row; sw_ports := sw_ports row; sw_names := sw_names row;
     sw_published := published |}.

(** [SwitchRow::holds] and [SwitchRow::publishes]. *)
Definition row_holds (row : SwitchRow) (record : Record_) : bool :=
  match record with
  | RcPort port => bool_decide (port ∈ sw_ports row)
  | RcName name => bool_decide (name ∈ sw_names row)
  end.
Definition row_publishes (row : SwitchRow) (record : Record_) : bool :=
  match record with
  | RcPort port => bool_decide (port ∈ sw_published row)
  | RcName _ => false
  end.

Record SwitchTable : Type := {
  st_rows : list SwitchRow;
  st_first_ptask : ip4;
  st_last_ptask : ip4;
}.

(** [SwitchTable::row_at] and [SwitchTable::in_plan]. *)
Definition row_at (t : SwitchTable) (addr : ip4) : option SwitchRow :=
  List.find (fun row => bool_decide (sw_switch_addr row = addr)) (st_rows t).
Definition in_plan (t : SwitchTable) (addr : ip4) : bool :=
  ip4_leb (st_first_ptask t) addr && ip4_leb addr (st_last_ptask t).

Inductive Applied : Type := AppliedRow | AppliedInterim.

Inductive SwitchRefusal : Type :=
| UnknownAddress (addr : ip4)
| Undeclared (addr : ip4) (record : Record_)
| Unheld (addr : ip4) (record : option Record_).

(** [<Refusal as Display>::fmt]. *)
Definition switch_refusal_text (r : SwitchRefusal) : string :=
  match r with
  | UnknownAddress _ => "no published namespace holds the address it publishes at"
  | Undeclared _ _ => "the namespace holding its address does not admit it"
  | Unheld _ (Some _) => "nothing published at its address admits what it retracts"
  | Unheld _ None => "nothing is published at the address it retracts at"
  end.

(** ** The decision *)

(** [applied]. *)
Definition applied (request : SwitchRequest) (table : SwitchTable) (phase : EgressDefaultPhase)
    : Applied + SwitchRefusal :=
  match sr_verb request with
  | Publish | PublishName =>
      let addr := sr_switch_addr request in
      match row_at table addr with
      | None =>
          if bool_decide (phase = Announced) && in_plan table addr then inl AppliedInterim
          else inr (UnknownAddress addr)
      | Some row =>
          match List.find (fun record => negb (row_holds row record)) (request_records request) with
          | None => inl AppliedRow
          | Some record => inr (Undeclared addr record)
          end
      end
  | Retract =>
      let addr := sr_switch_addr request in
      match row_at table addr with
      | None =>
          if bool_decide (phase = Announced) && in_plan table addr then inl AppliedInterim
          else inr (Unheld addr (head (request_records request)))
      | Some row =>
          match List.find (fun record => negb (row_publishes row record)) (request_records request) with
          | None => inl AppliedRow
          | Some record => inr (Unheld addr (Some record))
          end
      end
  end.

(** ** What a decision means *)

(** The row that decides an address: the first one published for it. *)
Definition deciding_row (t : SwitchTable) (addr : ip4) (row : SwitchRow) : Prop :=
  exists earlier later, st_rows t = earlier ++ row :: later /\ sw_switch_addr row = addr /\
    Forall (fun r => sw_switch_addr r <> addr) earlier.

Definition unpublished (t : SwitchTable) (addr : ip4) : Prop :=
  Forall (fun r => sw_switch_addr r <> addr) (st_rows t).

(** What a row lets a verb carry: its declarations for a publish, what its
    runtime published for a retraction. *)
Definition row_admits (verb : SwitchVerb) (row : SwitchRow) (record : Record_) : Prop :=
  match verb, record with
  | (Publish | PublishName), RcPort port => port ∈ sw_ports row
  | (Publish | PublishName), RcName name => name ∈ sw_names row
  | Retract, RcPort port => port ∈ sw_published row
  | Retract, RcName _ => False
  end.

(** The first record of a request that a row does not admit. *)
Definition first_refused (verb : SwitchVerb) (row : SwitchRow) (records : list Record_) (record : Record_) : Prop :=
  exists before after, records = before ++ record :: after /\ Forall (row_admits verb row) before /\
    ~ row_admits verb row record.

Definition interim (t : SwitchTable) (phase : EgressDefaultPhase) (addr : ip4) : Prop :=
  phase = Announced /\ ip4_u32 (st_first_ptask t) <= ip4_u32 addr <= ip4_u32 (st_last_ptask t).

(** The decision the gate owes a request of [verb] at [addr] carrying
    [records]. *)
Inductive decision (t : SwitchTable) (phase : EgressDefaultPhase) (verb : SwitchVerb) (addr : ip4)
    (records : list Record_) : Applied + SwitchRefusal -> Prop :=
| DecideRow row :
    deciding_row t addr row -> Forall (row_admits verb row) records ->
    decision t phase verb addr records (inl AppliedRow)
| DecideUndeclared row record :
    deciding_row t addr row -> verb <> Retract -> first_refused verb row records record ->
    decision t phase verb addr records (inr (Undeclared addr record))
| DecideUnpublished row record :
    deciding_row t addr row -> verb = Retract -> first_refused verb row records record ->
    decision t phase verb addr records (inr (Unheld addr (Some record)))
| DecideInterim :
    unpublished t addr -> interim t phase addr ->
    decision t phase verb addr records (inl AppliedInterim)
| DecideUnknown :
    unpublished t addr -> ~ interim t phase addr -> verb <> Retract ->
    decision t phase verb addr records (inr (UnknownAddress addr))
| DecideUnheld :
    unpublished t addr -> ~ interim t phase addr -> verb = Retract ->
    decision t phase verb addr records (inr (Unheld addr (head records))).

(** ** Lemmas *)

Lemma find_first {A} (p : A -> bool) l x :
  List.find p l = Some x <->
  exists before after, l = before ++ x :: after /\ Forall (fun y => p y = false) before /\ p x = true.
Proof.
  induction l as [|y l IH]; simpl.
  - split; [done|]. by intros ([|? ?] & ? & ? & _).
  - destruct (p y) eqn:E.
    + split.
      * intros [= ->]. exists [], l. by split; [|split].
      * intros ([|z before] & after & Heq & Hb & Hx); injection Heq as -> ->; [done|].
        apply list.Forall_cons in Hb as [Hz _]. congruence.
    + rewrite IH. split.
      * intros (before & after & -> & Hb & Hx). exists (y :: before), after. by split; [|split; [constructor|]].
      * intros ([|z before] & after & Heq & Hb & Hx); injection Heq as -> ->; [congruence|].
        apply list.Forall_cons in Hb as [_ Hb]. eauto.
Qed.

Lemma find_none {A} (p : A -> bool) l : List.find p l = None <-> Forall (fun y => p y = false) l.
Proof.
  induction l as [|y l IH]; simpl; [by split|]. rewrite list.Forall_cons. destruct (p y); [by split; [|intros []]|].
  rewrite IH. by split; [|intros []].
Qed.

Lemma row_at_Some t addr row : row_at t addr = Some row <-> deciding_row t addr row.
Proof.
  unfold row_at, deciding_row. rewrite find_first. setoid_rewrite bool_decide_eq_false.
  setoid_rewrite bool_decide_eq_true. naive_solver.
Qed.

Lemma row_at_None t addr : row_at t addr = None <-> unpublished t addr.
Proof. unfold row_at, unpublished. rewrite find_none. by setoid_rewrite bool_decide_eq_false. Qed.

(** The code's test for a verb, and the records it refuses. *)
Definition admits_b (verb : SwitchVerb) : SwitchRow -> Record_ -> bool :=
  match verb with Retract => row_publishes | _ => row_holds end.

Lemma admits_b_spec verb row record : admits_b verb row record = true <-> row_admits verb row record.
Proof. destruct verb, record; simpl; by rewrite ?bool_decide_eq_true. Qed.

Lemma refused_none verb row records :
  List.find (fun r => negb (admits_b verb row r)) records = None <-> Forall (row_admits verb row) records.
Proof.
  rewrite find_none. setoid_rewrite negb_false_iff. by setoid_rewrite admits_b_spec.
Qed.

Lemma refused_some verb row records record :
  List.find (fun r => negb (admits_b verb row r)) records = Some record <-> first_refused verb row records record.
Proof.
  rewrite find_first. unfold first_refused. setoid_rewrite negb_false_iff. setoid_rewrite negb_true_iff.
  setoid_rewrite <- not_true_iff_false. by setoid_rewrite admits_b_spec.
Qed.

Lemma interim_b t phase addr :
  bool_decide (phase = Announced) && in_plan t addr = true <-> interim t phase addr.
Proof.
  unfold in_plan, ip4_leb, interim. rewrite !andb_true_iff, bool_decide_eq_true, !Z.leb_le. done.
Qed.

Lemma fill_slots_records n records :
  (length records <= n)%nat -> omap id (fill_slots (replicate n None) records) = records.
Proof.
  revert n. induction records as [|r records IH]; intros [|n] Hn; simpl in *; try lia; [done| |].
  - induction n; [done|]. simpl. apply IHn. lia.
  - f_equal. apply IH. lia.
Qed.

Lemma request_of_records verb addr records r :
  switch_request_of verb addr records = Some r ->
  sr_verb r = verb /\ sr_switch_addr r = addr /\ request_records r = records.
Proof.
  unfold switch_request_of. case_bool_decide; [done|]. intros [= <-]. simpl.
  split; [done|]. split; [done|]. apply (fill_slots_records MAX_REQUEST_RECORDS). lia.
Qed.

(** The two arms of [applied] are one decision in the row's test. *)
Lemma applied_arms r t phase :
  applied r t phase =
  match row_at t (sr_switch_addr r) with
  | None =>
      if bool_decide (phase = Announced) && in_plan t (sr_switch_addr r) then inl AppliedInterim
      else inr (match sr_verb r with
                | Retract => Unheld (sr_switch_addr r) (head (request_records r))
                | _ => UnknownAddress (sr_switch_addr r)
                end)
  | Some row =>
      match List.find (fun record => negb (admits_b (sr_verb r) row record)) (request_records r) with
      | None => inl AppliedRow
      | Some record =>
          inr (match sr_verb r with
               | Retract => Unheld (sr_switch_addr r) (Some record)
               | _ => Undeclared (sr_switch_addr r) record
               end)
      end
  end.
Proof. unfold applied. by destruct (sr_verb r). Qed.

(** C7: the gate's decision is exact.  A request of up to four records is
    summarised without loss, and it is applied or refused, with that class
    and that record, exactly when the decision table says so: by the first
    row of its address when there is one (a publish by the row's
    declarations, a retraction by what its runtime published), and by the
    announced interim inside the lease run only when there is none. *)
Theorem applied_iff_decision verb addr records r t phase d :
  switch_request_of verb addr records = Some r ->
  applied r t phase = d <-> decision t phase verb addr records d.
Proof.
  intros Hr. apply request_of_records in Hr as (Hverb & Haddr & Hrec).
  rewrite applied_arms, Hverb, Haddr, Hrec. split.
  - intros <-. destruct (row_at t addr) as [row|] eqn:Hrow.
    + apply row_at_Some in Hrow. destruct (List.find _ records) as [record|] eqn:Hf.
      * apply refused_some in Hf. destruct verb; by econstructor.
      * apply refused_none in Hf. by econstructor.
    + apply row_at_None in Hrow. destruct (_ && _) eqn:Hi.
      * apply interim_b in Hi. by constructor.
      * assert (~ interim t phase addr) by (rewrite <- interim_b; congruence). destruct verb; by constructor.
  - intros [row Hrow Hall|row record Hrow Hv Hf|row record Hrow Hv Hf|Hrow Hi|Hrow Hi Hv|Hrow Hi Hv].
    + apply row_at_Some in Hrow as ->. by apply refused_none in Hall as ->.
    + apply row_at_Some in Hrow as ->. apply refused_some in Hf as ->. by destruct verb.
    + apply row_at_Some in Hrow as ->. apply refused_some in Hf as ->. by rewrite Hv.
    + apply row_at_None in Hrow as ->. by apply interim_b in Hi as ->.
    + apply row_at_None in Hrow as ->. rewrite <- interim_b in Hi. apply not_true_is_false in Hi as ->. by destruct verb.
    + apply row_at_None in Hrow as ->. rewrite <- interim_b in Hi. apply not_true_is_false in Hi as ->. by rewrite Hv.
Qed.

Lemma request_of_width verb addr records :
  is_Some (switch_request_of verb addr records) <-> (length records <= MAX_REQUEST_RECORDS)%nat.
Proof.
  unfold switch_request_of. case_bool_decide; [|split; [lia|eauto]]. split; [by intros []|lia].
Qed.

(** With the default in force, nothing is applied at an address no row holds,
    and a guest's retraction never withdraws a port its runtime did not
    publish, whatever the row declares. *)
Lemma in_force_applies_by_row verb addr records r t :
  switch_request_of verb addr records = Some r ->
  forall how, applied r t EGRESS_DEFAULT_PHASE = inl how ->
  how = AppliedRow /\ exists row, deciding_row t addr row /\ Forall (row_admits verb row) records.
Proof.
  intros Hr how Ha. apply request_of_records in Hr as (Hverb & Haddr & Hrec).
  rewrite applied_arms, Hverb, Haddr, Hrec in Ha. destruct (row_at t addr) as [row|] eqn:Hrow; [|done].
  apply row_at_Some in Hrow. destruct (List.find _ records) eqn:Hf; [done|]. injection Ha as <-.
  split; [done|]. exists row. split; [done|]. by apply refused_none.
Qed.

(** ** A sample table: a row that declares port 80 and published 8080. *)
Module SwitchRequestSample.

Definition box_addr : ip4 := Ip4 100 64 0 9.
Definition box_row : SwitchRow := with_published (switch_row_of box_addr [80] [0]) [8080].
Definition table : SwitchTable :=
  {| st_rows := [box_row]; st_first_ptask := Ip4 100 64 0 2; st_last_ptask := Ip4 100 64 0 200 |}.
Definition retraction : SwitchRequest :=
  {| sr_verb := Retract; sr_switch_addr := box_addr; sr_records := [Some (RcPort 8080); Some (RcPort 80); None; None] |}.

Lemma applied_iff_decision_witness :
  decision table InForce Retract box_addr [RcPort 8080; RcPort 80] (inr (Unheld box_addr (Some (RcPort 80)))).
Proof.
  apply (applied_iff_decision Retract box_addr [RcPort 8080; RcPort 80] retraction table InForce); reflexivity.
Defined.

(** A retraction at an address no row holds names its first record, and its
    text is the one of a row that did not publish it. *)
Example unattributed_retraction :
  applied {| sr_verb := Retract; sr_switch_addr := Ip4 0 0 0 0; sr_records := [Some (RcPort 80)] |} table InForce
    = inr (Unheld (Ip4 0 0 0 0) (Some (RcPort 80))) /\
  switch_refusal_text (Unheld (Ip4 0 0 0 0) (Some (RcPort 80)))
    = "nothing published at its address admits what it retracts"%string.
Proof. by split. Qed.

(** A retraction that carries no record is applied by the row there. *)
Example empty_retraction_applied :
  applied {| sr_verb := Retract; sr_switch_addr := box_addr; sr_records := [] |} table InForce = inl AppliedRow.
Proof. reflexivity. Qed.

End SwitchRequestSample.
