(* ===== verification/BoxRecord.v ===== *)
(** * The state of a box record (crates/boxes/src/core/record.rs)

    The five states of a box with the endings of the stopped and exited ones,
    how a state is read from the four stored fields and written back, and the
    records a daemon restart reaps. *)

From stdpp Require Import base list numbers strings.
From Stdlib Require Import ZArith Lia.
From S2P Require Import Prelude Text.
Open Scope Z_scope.

Definition OOM_EXIT_CODE : Z := 137.

(** [BoxState] (crates/boxes/src/lib.rs): the stored [status]. *)
Inductive BoxState : Type := BsPending | BsMaterializing | BsActive | BsStopped | BsExited.

Inductive EndReason : Type := ErExit | ErTimeout | ErOom | ErStopped.

(** [EndReason::name]. *)
Definition end_reason_name (r : EndReason) : string :=
  match r with ErExit => "exit" | ErTimeout => "timeout" | ErOom => "oom" | ErStopped => "stopped" end.

Inductive StoredReason : Type := Known (reason : EndReason) | Unknown (text : string).

(** [StoredReason::as_str] and [StoredReason::known]. *)
Definition stored_reason_str (r : StoredReason) : string :=
  match r with Known reason => end_reason_name reason | Unknown text => text end.
Definition known (r : StoredReason) : option EndReason :=
  match r with Known reason => Some reason | Unknown _ => None end.

Record UnreadableEnding : Type := {
  ue_state : string;
  ue_reason : option string;
  ue_exit_code : option Z;
  ue_signal : option Z;
}.

Record StoredState : Type := {
  ss_status : BoxState;
  ss_reason : option StoredReason;
  ss_exit_code : option Z;
  ss_signal : option Z;
}.

Inductive StopEnding : Type := ExitedFirst (exit_code : Z) | Signalled (signal : Z) | AtDaemonStart.
Inductive ExitEnding : Type := ExitedOnItsOwn (exit_code : Z) | TimedOut | OomKilled.
Inductive RecordState : Type := Pending | Materializing | Running | Stopped (e : StopEnding) | Exited (e : ExitEnding).

#[global] Instance BoxState_eq_dec : EqDecision BoxState.
Proof. solve_decision. Defined.
#[global] Instance EndReason_eq_dec : EqDecision EndReason.
Proof. solve_decision. Defined.
#[global] Instance StoredReason_eq_dec : EqDecision StoredReason.
Proof. solve_decision. Defined.
#[global] Instance StopEnding_eq_dec : EqDecision StopEnding.
Proof. solve_decision. Defined.
#[global] Instance ExitEnding_eq_dec : EqDecision ExitEnding.
Proof. solve_decision. Defined.
#[global] Instance RecordState_eq_dec : EqDecision RecordState.
Proof. solve_decision. Defined.

(** [RecordState::name], [reason], [exit_code], [signal] and
    [reaped_at_restart]. *)
Definition record_name (s : RecordState) : string :=
  match s with
  | Pending => "pending" | Materializing => "materializing" | Running => "running"
  | Stopped _ => "stopped" | Exited _ => "exited"
  end.
Definition record_reason (s : RecordState) : option EndReason :=
  match s with
  | Pending | Materializing | Running => None
  | Stopped _ => Some ErStopped
  | Exited (ExitedOnItsOwn _) => Some ErExit
  | Exited TimedOut => Some ErTimeout
  | Exited OomKilled => Some ErOom
  end.
Definition record_exit_code (s : RecordState) : option Z :=
  match s with
  | Stopped (ExitedFirst exit_code) | Exited (ExitedOnItsOwn exit_code) => Some exit_code
  | Exited OomKilled => Some OOM_EXIT_CODE
  | Pending | Materializing | Running | Stopped (Signalled _ | AtDaemonStart) | Exited TimedOut => None
  end.
Definition record_signal (s : RecordState) : option Z :=
  match s with Stopped (Signalled signal) => Some signal | _ => None end.
Definition reaped_at_restart (s : RecordState) : bool :=
  match s with Pending | Materializing => true | _ => false end.

(** [RecordState::from_stored]. *)
Definition from_stored (status : BoxState) (reason : option StoredReason) (exit_code signal : option Z)
    : RecordState + UnreadableEnding :=
  let known := known <$> reason in
  let state :=
    match status with
    | BsPending => Some Pending
    | BsMaterializing => Some Materializing
    | BsActive => Some Running
    | BsStopped =>
        match known, exit_code, signal with
        | Some (Some ErStopped), Some exit_code, None => Some (Stopped (ExitedFirst exit_code))
        | Some (Some ErStopped), None, Some signal => Some (Stopped (Signalled signal))
        | Some (Some ErStopped), None, None => Some (Stopped AtDaemonStart)
        | _, _, _ => None
        end
    | BsExited =>
        match known, exit_code, signal with
        | Some (Some ErExit), Some exit_code, None => Some (Exited (ExitedOnItsOwn exit_code))
        | Some (Some ErTimeout), None, None => Some (Exited TimedOut)
        | Some (Some ErOom), Some code, None => if code =? OOM_EXIT_CODE then Some (Exited OomKilled) else None
        | _, _, _ => None
        end
    end in
  match state with
  | Some s => inl s
  | None =>
      inr {| ue_state := (if bool_decide (status = BsStopped) then "stopped" else "exited")%string;
             ue_reason := stored_reason_str <$> reason; ue_exit_code := exit_code; ue_signal := signal |}
  end.

(** [RecordState::to_stored]. *)
Definition to_stored (s : RecordState) : StoredState :=
  {| ss_status := match s with
                  | Pending => BsPending | Materializing => BsMaterializing | Running => BsActive
                  | Stopped _ => BsStopped | Exited _ => BsExited
                  end;
     ss_reason := Known <$> record_reason s;
     ss_exit_code := record_exit_code s;
     ss_signal := record_signal s |}.

Record RestartReap (T : Type) : Type := { kept : list T; reaped : list T }.
Arguments kept {T} _.
Arguments reaped {T} _.

(** [Iterator::partition]: the items a predicate accepts and the rest, each in order. *)
Fixpoint partition_by {T} (p : T -> bool) (l : list T) : list T * list T :=
  match l with
  | [] => ([], [])
  | x :: l => let '(yes, no) := partition_by p l in if p x then (x :: yes, no) else (yes, x :: no)
  end.

(** [restart_reap]. *)
Definition restart_reap {T} (records : list T) (state_of : T -> RecordState) : RestartReap T :=
  let '(reaped, kept) := partition_by (fun record => reaped_at_restart (state_of record)) records in
  {| kept := kept; reaped := reaped |}.

(** ** What the stored fields hold *)

(** The table of endings: a record carries an ending only when it is stopped
    or exited, and then its three fields are one of these rows. *)
Inductive ending_row : BoxState -> EndReason -> option Z -> option Z -> RecordState -> Prop :=
| RowExitedFirst code : ending_row BsStopped ErStopped (Some code) None (Stopped (ExitedFirst code))
| RowSignalled sig : ending_row BsStopped ErStopped None (Some sig) (Stopped (Signalled sig))
| RowDaemonStart : ending_row BsStopped ErStopped None None (Stopped AtDaemonStart)
| RowExit code : ending_row BsExited ErExit (Some code) None (Exited (ExitedOnItsOwn code))
| RowTimeout : ending_row BsExited ErTimeout None None (Exited TimedOut)
| RowOom : ending_row BsExited ErOom (Some 137) None (Exited OomKilled).

Definition live_row (status : BoxState) (s : RecordState) : Prop :=
  match status with
  | BsPending => s = Pending | BsMaterializing => s = Materializing | BsActive => s = Running
  | _ => False
  end.

Definition reads_as (f : StoredState) (s : RecordState) : Prop :=
  live_row (ss_status f) s \/
  exists r, ss_reason f = Some (Known r) /\ ending_row (ss_status f) r (ss_exit_code f) (ss_signal f) s.

Definition read (f : StoredState) : RecordState + UnreadableEnding :=
  from_stored (ss_status f) (ss_reason f) (ss_exit_code f) (ss_signal f).

Definition is_ended (status : BoxState) : Prop := status = BsStopped \/ status = BsExited.

Lemma read_iff_row f s : read f = inl s <-> reads_as f s.
Proof.
  destruct f as [status reason code sig]. unfold read, reads_as. cbn [ss_status ss_reason ss_exit_code ss_signal]. split.
  - unfold from_stored. destruct status; cbn [live_row]; try (intros [= <-]; by left); intros H; right;
      (destruct reason as [[[]|]|], code as [code|], sig as [sig|]; simpl in H; try discriminate;
       try (destruct (Z.eqb_spec code OOM_EXIT_CODE) as [->|]; try discriminate);
       injection H as <-; eexists; (split; [reflexivity|]); constructor).
  - intros [Hl|(r & -> & Hr)]; [by destruct status; simpl in Hl; subst|]. by destruct Hr.
Qed.

Lemma read_unreadable f e :
  read f = inr e ->
  is_ended (ss_status f) /\ (forall s, ~ reads_as f s) /\
  ue_state e = (if bool_decide (ss_status f = BsStopped) then "stopped" else "exited")%string /\
  ue_reason e = stored_reason_str <$> ss_reason f /\ ue_exit_code e = ss_exit_code f /\ ue_signal e = ss_signal f.
Proof.
  intros H. assert (Hn : forall s, ~ reads_as f s) by (intros s; rewrite <- read_iff_row; congruence).
  split; [|split; [done|]].
  - unfold is_ended. destruct (ss_status f) eqn:E; auto; exfalso;
      [apply (Hn Pending)|apply (Hn Materializing)|apply (Hn Running)]; left; by rewrite E.
  - unfold read, from_stored in H. cbv zeta in H. destruct (match ss_status f with BsPending => _ | _ => _ end); [done|].
    by injection H as <-.
Qed.

(** Storing a state loses nothing and reading accepts nothing else.  The
    fields a state is written to read back as that state; any other fields
    of an ended record (an unknown reason, a combination no write produces)
    are an error that repeats them as written, and a live record reads as
    its status whatever its other fields. *)
Theorem stored_state_exact s f :
  read (to_stored s) = inl s /\
  (read f = inl s <-> reads_as f s) /\
  (is_ended (ss_status f) -> read f = inl s -> f = to_stored s) /\
  ((exists e, read f = inr e /\ ue_reason e = stored_reason_str <$> ss_reason f /\
              ue_exit_code e = ss_exit_code f /\ ue_signal e = ss_signal f)
   <-> forall s', ~ reads_as f s').
Proof.
  split; [by destruct s as [| | |[]|[]]|]. split; [apply read_iff_row|]. split.
  - intros He Hr. apply read_iff_row in Hr. destruct f as [status reason code sig]. unfold reads_as in Hr. simpl in *.
    destruct Hr as [Hl|(r & -> & Hr)]; [by destruct He as [-> | ->]|]. by destruct Hr.
  - split.
    + intros (e & He & _). by apply read_unreadable in He as (_ & ? & _).
    + intros Hn. destruct (read f) as [s'|e] eqn:E; [by apply read_iff_row, Hn in E|].
      exists e. split; [done|]. by apply read_unreadable in E as (_ & _ & _ & ? & ? & ?).
Qed.

Lemma partition_by_filter {T} (p : T -> bool) l :
  partition_by p l = (List.filter p l, List.filter (fun x => negb (p x)) l).
Proof. induction l as [|x l IH]; simpl; [done|]. rewrite IH. by destruct (p x). Qed.

Lemma filter_sublist_of {T} (p : T -> bool) l : List.filter p l `sublist_of` l.
Proof. induction l as [|x l IH]; simpl; [done|]. destruct (p x); by constructor. Qed.

Lemma filter_complement {T} (p : T -> bool) l : List.filter (fun x => negb (p x)) l ++ List.filter p l ≡ₚ l.
Proof.
  induction l as [|x l IH]; simpl; [done|]. destruct (p x); simpl; [|by rewrite IH].
  by rewrite <- Permutation_middle, IH.
Qed.

(** A restart reaps exactly the records whose composition it lost, and keeps
    the rest in store order. *)
Lemma restart_reap_spec {T} (records : list T) state_of :
  kept (restart_reap records state_of) ++ reaped (restart_reap records state_of) ≡ₚ records /\
  kept (restart_reap records state_of) `sublist_of` records /\
  reaped (restart_reap records state_of) `sublist_of` records /\
  (forall x, x ∈ reaped (restart_reap records state_of) <->
     x ∈ records /\ (state_of x = Pending \/ state_of x = Materializing)).
Proof.
  unfold restart_reap. rewrite partition_by_filter. cbn [kept reaped].
  split; [apply filter_complement|]. split; [apply filter_sublist_of|]. split; [apply filter_sublist_of|].
  intros x. rewrite !list_elem_of_In, filter_In. destruct (state_of x); simpl; naive_solver.
Qed.
