(* ===== verification/Classifier.v ===== *)
(** * The host-address classifier (crates/minimald/src/net/classifier.rs)

    Where a box that shares the host's address is placed (the leaf its name
    is sanitised to, under the subtree its declaration picks), which
    declarations a host refuses because it could not enforce them, and when a
    host counts as deciding per box: the mount table, the records of the
    privileged step and the reading of the probe. *)

From stdpp Require Import base list strings numbers pretty.
From Stdlib Require Import ZArith Lia Ascii String.
From S2P Require Import Prelude Text Egress EgressProps.
Open Scope Z_scope.

(** ** Leaves (crates/sandbox/src/lib.rs, crates/sandbox/src/config.rs) *)

Definition DENY_DIR : string := "deny".
Definition ALLOW_DIR : string := "allow".
Definition BOXES_DIR : string := "boxes".
Definition RESERVED_PREFIX : string := "cgroup.".
Definition QUIC443_BLOCKED_DIR : string := "quic443-blocked".

Inductive Verdict : Type := Deny | Allow.

(** [Verdict::dir_name]. *)
Definition dir_name (v : Verdict) : string := match v with Deny => DENY_DIR | Allow => ALLOW_DIR end.

(** [char::is_ascii_alphanumeric]. *)
Definition is_ascii_alphanumeric (c : ascii) : bool :=
  let n := nat_of_ascii c in
  (bool_decide (48 <= n <= 57) || bool_decide (65 <= n <= 90) || bool_decide (97 <= n <= 122))%nat.

Definition name_mark (c : ascii) : bool := bool_decide (c = "_"%char \/ c = "."%char \/ c = "-"%char).

(** The loop of [sanitize_box_id].  A character outside ASCII is dropped
    whole, so the bytes of the name may be read one by one. *)
Fixpoint sanitize_loop (id name : string) : string :=
  match name with
  | EmptyString => id
  | String c name =>
      let ok := is_ascii_alphanumeric c || (name_mark c && negb (bool_decide (id = EmptyString))) in
      if negb ok then sanitize_loop id name
      else if (64 <=? String.length id + 1)%nat then id
      else sanitize_loop (id ++ String c EmptyString) name
  end.

(** [sanitize_box_id]. *)
Definition sanitize_box_id (name : string) : string :=
  let id := sanitize_loop EmptyString name in
  let id := if bool_decide (id = EmptyString) then "box"%string else id in
  match strip_prefix RESERVED_PREFIX id with
  | Some _ => ("box-" ++ id)%string
  | None => id
  end.

(** [Path::join] of a single relative component. *)
Definition path_join (path component : string) : string := (path ++ "/" ++ component)%string.

(** [box_leaf] and [quic443_blocked_leaf]. *)
Definition box_leaf (root box_id : string) (verdict : Verdict) : string :=
  path_join (path_join (path_join root BOXES_DIR) (dir_name verdict)) (sanitize_box_id box_id).
Definition quic443_blocked_leaf (root : string) : string :=
  path_join (path_join root BOXES_DIR) QUIC443_BLOCKED_DIR.

(** ** What a host can enforce *)

Inductive NetworkMode : Type := NoNet | HostNet | OwnIp.

(** [EgressPolicy::admits_nothing] (crates/boxes/src/lib.rs). *)
Definition is_some_and {A} (p : A -> bool) (o : option A) : bool := match o with Some a => p a | None => false end.
Definition is_empty {A} (l : list A) : bool := match l with [] => true | _ => false end.
Definition admits_nothing (p : EgressPolicy) : bool :=
  is_some_and is_empty (ep_allow_subnets p) && is_some_and is_empty (ep_allow_dns_hosts p).

(** [verdict_of]. *)
Definition verdict_of (declaration : option EgressPolicy) : Verdict :=
  if is_some_and admits_nothing declaration then Deny else Allow.

Inductive UnenforceableRule : Type :=
| DenySubnets (entry : string) | AllowSubnets | AllowDnsHosts | AllowProtocols.

(** [UnenforceableRule::describe]. *)
Definition describe_rule (r : UnenforceableRule) : string :=
  match r with
  | DenySubnets entry => "deny_subnets " ++ entry
  | AllowSubnets => "allow_subnets"
  | AllowDnsHosts => "allow_dns_hosts"
  | AllowProtocols => "allow_protocols"
  end%string.

(** [unenforceable_rules]. *)
Definition list_declares {A} (list : option (list A)) : bool := is_some_and (fun l => negb (is_empty l)) list.
Definition names_a_rule {A} (list other : option (list A)) : bool :=
  bool_decide (is_Some list) && (list_declares list || negb (list_declares other)).
Definition unenforceable_rules (declaration : option EgressPolicy) : list UnenforceableRule :=
  match declaration with
  | None => []
  | Some section =>
      if admits_nothing section then []
      else
        map DenySubnets (default [] (ep_deny_subnets section)) ++
        (if names_a_rule (ep_allow_subnets section) (ep_allow_dns_hosts section) then [AllowSubnets] else []) ++
        (if names_a_rule (ep_allow_dns_hosts section) (ep_allow_subnets section) then [AllowDnsHosts] else []) ++
        (if bool_decide (is_Some (ep_allow_protocols section)) then [AllowProtocols] else [])
  end.

(** [refuses_unenforceable_declaration]. *)
Definition refuses_unenforceable_declaration (network_mode : NetworkMode) (can_decide_per_box : bool)
    (declaration : option EgressPolicy) : option (list UnenforceableRule) :=
  if (match network_mode with HostNet => false | _ => true end) || negb can_decide_per_box then None
  else
    let rules := unenforceable_rules declaration in
    if is_empty rules then None else Some rules.

(** [Vec<String>::join] and [unenforceable_declaration_words]. *)
Fixpoint join_strings (sep : string) (l : list string) : string :=
  match l with
  | [] => EmptyString
  | [s] => s
  | s :: l => (s ++ sep ++ join_strings sep l)%string
  end.
Definition unenforceable_declaration_words (rules : list UnenforceableRule) : string :=
  ("with --network host_ip this machine can only block all network access; it " ++
   "cannot apply these rules: " ++ join_strings ", " (map describe_rule rules) ++
   ". Remove them, use --network own_ip to " ++
   "apply them, or use --deny-all-egress to block everything (in minimal.toml: " ++
   "an egress section with every allow list empty).")%string.

Inductive Cause : Type :=
| StepNotInstalled | CannotConfine | GuestTableNotLoaded | TableNotEffective | ProbeUnreadable.

(** [Cause::host_ip_box_outcome]: what happens to a host-address box, by
    what the words say. *)
Definition host_ip_box_outcome (cause : Cause) (guest : bool) : string :=
  if guest then
    match cause with
    | CannotConfine => "its host-address boxes are refused: it cannot place one in a leaf that confines"
    | _ => "its deny-all host-address boxes are refused and its other host-address boxes run unenforced"
    end%string
  else
    match cause with
    | StepNotInstalled | CannotConfine | GuestTableNotLoaded => "its host-address boxes run unenforced"
    | TableNotEffective | ProbeUnreadable =>
        "its deny-all host-address boxes are refused and its other host-address boxes run unenforced"
    end%string.

(** [install_hint] (crates/sandbox/src/lib.rs) and [Cause::install_command]. *)
Definition install_hint : string := "min finalize-install".
Definition install_command (cause : Cause) : option string :=
  match cause with StepNotInstalled => Some install_hint | _ => None end.

Record ClassifierDecision : Type := {
  dc_decided : bool;
  dc_cause : option Cause;
  dc_carve_out : option (ip4 * Z);
}.
Definition decided : ClassifierDecision := {| dc_decided := true; dc_cause := None; dc_carve_out := None |}.
Definition undecidable (cause : Cause) : ClassifierDecision :=
  {| dc_decided := false; dc_cause := Some cause; dc_carve_out := None |}.
Definition with_carve_out (d : ClassifierDecision) (carve_out : option (ip4 * Z)) : ClassifierDecision :=
  {| dc_decided := dc_decided d; dc_cause := dc_cause d; dc_carve_out := carve_out |}.

(** ** The probe's reading *)

Inductive Family : Type := V4 | V6.
Definition family_name (f : Family) : string := match f with V4 => "127.0.0.1" | V6 => "::1" end.

(** EHOSTUNREACH, EACCES and EPERM. *)
Definition REJECT_SET : list Z := [113; 13; 1].

Inductive Observed : Type :=
| Connected | ObRefused (errno : Z) | TimedOut | Unplaced (errno : Z) | Silent.

(** The [Display] of an [i32], and [Observed::describe]. *)
Definition show_i32 (n : Z) : string := pretty n.
Definition describe_observed (o : Observed) : string :=
  match o with
  | Connected => "connected"
  | ObRefused errno => "refused, errno " ++ show_i32 errno
  | TimedOut => "did not report within the deadline"
  | Unplaced errno => "was not placed, errno " ++ show_i32 errno
  | Silent => "reported nothing legible"
  end%string.

Inductive Reading : Type :=
| RdRefused (families : list (Family * Observed))
| NotRefused (because : string) (families : list (Family * Observed))
| Inconclusive (because : string).

Definition leg_name (l : Family * Observed) : string := (family_name l.1 ++ " " ++ describe_observed l.2)%string.

(** [Reading::of]. *)
Definition not_the_table (o : Observed) : bool :=
  match o with
  | Connected | TimedOut => true
  | ObRefused errno => negb (bool_decide (errno ∈ REJECT_SET))
  | _ => false
  end.
Definition unread (o : Observed) : bool := match o with Unplaced _ | Silent => true | _ => false end.
Definition reading_of (observations : list (Family * Observed)) : Reading :=
  match List.find (fun l => not_the_table l.2) observations with
  | Some l => NotRefused (leg_name l) observations
  | None =>
      match List.find (fun l => unread l.2) observations with
      | Some l => Inconclusive ("the leg on " ++ leg_name l)
      | None =>
          if is_empty observations then Inconclusive "no loopback family could be probed on this host"
          else RdRefused observations
      end
  end.

(** [Reading::legs], [Reading::record] and [Reading::leg_names]. *)
Definition legs (r : Reading) : list (Family * Observed) :=
  match r with RdRefused l | NotRefused _ l => l | Inconclusive _ => [] end.
Definition leg_names (families : list (Family * Observed)) : string := join_strings ", " (map leg_name families).
Definition reading_record (r : Reading) : string :=
  match r with
  | RdRefused families =>
      "the table refused the probe out of a deny leaf on every family read (" ++ leg_names families ++ ")"
  | NotRefused because families =>
      "the table did not refuse the probe: " ++ because ++ " (" ++ leg_names families ++ ")"
  | Inconclusive because => "the table's effect could not be read: " ++ because
  end%string.

(** ** The facts a decision rests on *)

(** [str::lines]: split at line feeds, a carriage return before one dropped,
    and no line after the last. *)
Definition LF : ascii := ascii_of_nat 10.
Definition CR : string := String (ascii_of_nat 13) EmptyString.
Definition lines (s : string) : list string :=
  let parts := str_split LF s in
  let parts := match list.last parts with Some EmptyString => removelast parts | _ => parts end in
  map (fun l => default l (strip_suffix CR l)) parts.

(** [str::split_once] at a string. *)
Fixpoint split_once_str (sep s : string) : option (string * string) :=
  match strip_prefix sep s with
  | Some rest => Some (EmptyString, rest)
  | None =>
      match s with
      | EmptyString => None
      | String c s => match split_once_str sep s with Some (a, b) => Some (String c a, b) | None => None end
      end
  end.

(** [host_cgroup2_mounts] (crates/sandbox/src/lib.rs). *)
Definition cgroup2_mount_of (line : string) : option (string * bool) :=
  match split_once_str " - " line with
  | None => None
  | Some (lhs, rhs) =>
      match split_whitespace lhs !! 4%nat, split_whitespace rhs with
      | Some mountpoint, fstype :: _ :: rest =>
          if bool_decide (fstype = "cgroup2"%string) then
            let superoptions := default EmptyString (head rest) in
            Some (mountpoint, existsb (fun option => bool_decide (option = "nsdelegate"%string)) (str_split ","%char superoptions))
          else None
      | _, _ => None
      end
  end.
Definition host_cgroup2_mounts (mountinfo : string) : list (string * bool) := filter_map cgroup2_mount_of (lines mountinfo).

(** [Path::components]: a root, then the parts between slashes; empty parts
    are no component, and a dot is one only at the start of a relative path. *)
Definition components (path : string) : list string :=
  let parts := List.filter (fun p => negb (bool_decide (p = EmptyString))) (str_split "/"%char path) in
  match path with
  | String "/"%char _ => "/"%string :: List.filter (fun p => negb (bool_decide (p = "."%string))) parts
  | _ =>
      match parts with
      | [] => []
      | first :: parts => first :: List.filter (fun p => negb (bool_decide (p = "."%string))) parts
      end
  end.
Definition path_starts_with (path base : string) : bool :=
  bool_decide (take (List.length (components base)) (components path) = components base).

(** [Iterator::max_by_key]: the last of the greatest. *)
Fixpoint max_by_key {A} (key : A -> nat) (l : list A) : option A :=
  match l with
  | [] => None
  | x :: l =>
      match max_by_key key l with
      | Some y => if (key x <=? key y)%nat then Some y else Some x
      | None => Some x
      end
  end.

(** [cgroup2_covering] and [tree_is_real] (crates/sandbox/src/lib.rs). *)
Definition cgroup2_covering (root mountinfo : string) : option (string * bool) :=
  max_by_key (fun m => List.length (components m.1))
    (List.filter (fun m => path_starts_with root m.1) (host_cgroup2_mounts mountinfo)).
Definition tree_is_real (root : string) (mountinfo : option string) (guest : bool) : bool :=
  match mountinfo ≫= cgroup2_covering root with
  | Some (_, true) => true
  | Some (_, false) => negb guest
  | None => false
  end.

(** [u32::from_str_radix(_, 16)]. *)
Definition hex_digit (c : ascii) : option Z :=
  let n := Z.of_nat (nat_of_ascii c) in
  if (48 <=? n) && (n <=? 57) then Some (n - 48)
  else if (97 <=? n) && (n <=? 102) then Some (n - 87)
  else if (65 <=? n) && (n <=? 70) then Some (n - 55) else None.
Fixpoint parse_hex_digits (acc : Z) (s : string) : option Z :=
  match s with
  | EmptyString => Some acc
  | String c s =>
      match hex_digit c with
      | Some d => let acc := acc * 16 + d in if 4294967295 <? acc then None else parse_hex_digits acc s
      | None => None
      end
  end.
Definition parse_hex_u32 (s : string) : option Z :=
  let s := default s (strip_prefix "+" s) in
  match s with EmptyString => None | _ => parse_hex_digits 0 s end.

Definition TABLE_MARKER : string := "classifier-table".
Definition MASK_RECORD_PREFIX : string := "ct-mark-mask-".
Definition CARVE_OUT_RECORD_PREFIX : string := "carve-out-".

(** The loops of [recorded_ct_mark_mask] and [recorded_carve_out] over the
    names in the tree's root: one value every record agrees on, or none. *)
Fixpoint agreed {A} `{EqDecision A} (prefix : string) (value : string -> option A) (found : option A)
    (names : list string) : option A :=
  match names with
  | [] => found
  | name :: names =>
      match strip_prefix prefix name with
      | None => agreed prefix value found names
      | Some text =>
          match value text with
          | None => None
          | Some this =>
              if is_some_and (fun other => negb (bool_decide (other = this))) found then None
              else agreed prefix value (Some this) names
          end
      end
  end.

Definition mask_value (text : string) : option Z :=
  match strip_prefix "0x" text with Some hex => parse_hex_u32 hex | None => None end.
Definition carve_out_value (text : string) : option (ip4 * Z) :=
  match rsplit_once "-"%char text with
  | None => None
  | Some (address, port) =>
      match parse_ipv4 address, parse_uint 65535 port with
      | Some a, Some p => Some (a, p)
      | _, _ => None
      end
  end.

(** [recorded_ct_mark_mask] and [recorded_carve_out], over the readable
    names in the root ([None]: the directory cannot be read). *)
Definition recorded_ct_mark_mask (entries : option (list string)) : option Z :=
  entries ≫= agreed MASK_RECORD_PREFIX mask_value None.
Definition recorded_carve_out (entries : option (list string)) : option (ip4 * Z) :=
  entries ≫= agreed CARVE_OUT_RECORD_PREFIX carve_out_value None.

Inductive Listing : Type := Listed | Gone (why : string).

(** What the file system says of the tree: the delegation files of the two
    subtrees, the marker directory, and the names in the root. *)
Record TreeFacts : Type := {
  tf_delegated : Verdict -> string -> bool;
  tf_marker : bool;
  tf_entries : option (list string);
}.

Definition DELEGATION_FILES : list string := ["cgroup.procs"; "cgroup.threads"; "cgroup.subtree_control"]%string.

(** [subtrees_delegated] and [table_marker_present]. *)
Definition subtrees_delegated (t : TreeFacts) : bool :=
  forallb (fun v => forallb (tf_delegated t v) DELEGATION_FILES) [Deny; Allow].
Definition table_marker_present (t : TreeFacts) : bool :=
  tf_marker t && bool_decide (is_Some (recorded_ct_mark_mask (tf_entries t))).

(** [decide_over]. *)
Definition decide_over (root : string) (mountinfo : option string) (guest : bool) (tree : TreeFacts)
    (read : Reading) (list : Listing) : ClassifierDecision :=
  let confining := is_some_and snd (cgroup2_covering root (default EmptyString mountinfo)) in
  if negb confining then undecidable CannotConfine
  else if negb (subtrees_delegated tree) || negb (table_marker_present tree) then
    undecidable (if guest then GuestTableNotLoaded else StepNotInstalled)
  else if guest && (match list with Gone _ => true | Listed => false end) then undecidable TableNotEffective
  else
    match read with
    | RdRefused _ => if guest then decided else with_carve_out decided (recorded_carve_out (tf_entries tree))
    | NotRefused _ _ => undecidable TableNotEffective
    | Inconclusive _ => undecidable ProbeUnreadable
    end.

(** ** Names of leaves *)

Definition name_char (c : ascii) : bool := is_ascii_alphanumeric c || name_mark c.

(** A single path component that starts with a letter or a digit. *)
Definition leaf_name (s : string) : Prop :=
  exists c r, s = String c r /\ is_ascii_alphanumeric c = true /\ str_all name_char r = true.

Lemma leaf_name_snoc id c : leaf_name id -> name_char c = true -> leaf_name (id ++ String c EmptyString).
Proof.
  intros (d & r & -> & Hd & Hr) Hc. exists d, (r ++ String c EmptyString)%string. split; [done|]. split; [done|].
  rewrite str_all_app, Hr. simpl. by rewrite Hc.
Qed.

Lemma sanitize_loop_ok name id :
  (id = EmptyString \/ leaf_name id) -> (String.length id <= 63)%nat ->
  (sanitize_loop id name = EmptyString \/ leaf_name (sanitize_loop id name)) /\
  (String.length (sanitize_loop id name) <= 63)%nat.
Proof.
  revert id. induction name as [|c name IH]; intros id Hid Hlen; cbn [sanitize_loop]; [done|].
  destruct (_ || _) eqn:Hok; cbn [negb]; [|by apply IH].
  destruct (Nat.leb_spec 64 (String.length id + 1)); [done|]. apply IH.
  - right. destruct Hid as [->|Hid].
    + apply orb_true_iff in Hok as [Hok|Hok]; [|by rewrite bool_decide_eq_true_2, andb_false_r in Hok].
      by exists c, EmptyString.
    + apply leaf_name_snoc; [done|]. unfold name_char. apply orb_true_iff in Hok as [->|Hok]; [done|].
      apply andb_true_iff in Hok as [-> _]. apply orb_true_r.
  - rewrite string_length_app. simpl. lia.
Qed.

Lemma sanitize_loop_id name id :
  id <> EmptyString -> str_all name_char name = true -> (String.length id + String.length name <= 63)%nat ->
  sanitize_loop id name = (id ++ name)%string.
Proof.
  revert id. induction name as [|c name IH]; intros id Hid Hall Hlen; cbn [sanitize_loop]; [by rewrite string_app_nil|].
  simpl in Hall, Hlen. apply andb_true_iff in Hall as [Hc Hall]. unfold name_char in Hc.
  rewrite (bool_decide_eq_false_2 (id = EmptyString)), andb_true_r, Hc by done. cbn [negb].
  destruct (Nat.leb_spec 64 (String.length id + 1)); [lia|]. rewrite IH.
  - by rewrite string_app_assoc.
  - by destruct id.
  - done.
  - rewrite string_length_app. simpl. lia.
Qed.

Lemma leaf_name_sanitize_loop name : leaf_name name -> (String.length name <= 63)%nat -> sanitize_loop EmptyString name = name.
Proof.
  intros (c & r & -> & Hc & Hr) Hlen. cbn [sanitize_loop]. rewrite Hc. cbn [orb negb].
  change ((64 <=? String.length EmptyString + 1)%nat) with false. cbv iota.
  rewrite sanitize_loop_id; [done|done|done|]. simpl in *. lia.
Qed.

Lemma sanitize_fixed name :
  leaf_name name -> strip_prefix RESERVED_PREFIX name = None -> (String.length name <= 63)%nat -> sanitize_box_id name = name.
Proof.
  intros Hn Hr Hlen. unfold sanitize_box_id. rewrite leaf_name_sanitize_loop by done.
  rewrite bool_decide_eq_false_2; [by rewrite Hr|]. by destruct Hn as (c & r & -> & _).
Qed.

(** The leaves of two boxes whose names are kept as they are differ. *)
Lemma box_leaf_inj root v x y :
  sanitize_box_id x = x -> sanitize_box_id y = y -> box_leaf root x v = box_leaf root y v -> x = y.
Proof.
  intros Hx Hy E. unfold box_leaf in E. rewrite Hx, Hy in E. unfold path_join in E.
  by apply (inj (String.append _)), (inj (String.append _)) in E.
Qed.

(** A box's name never escapes its subtree.  Whatever the name, the
    component of its leaf is non-empty, starts with a letter or a digit, has
    only letters, digits, underscores, dots and dashes, is never one of the
    kernel's own files and has at most 67 bytes; a name that already is such
    a component of at most 63 bytes is kept, so two such boxes never share a
    leaf. *)
Theorem sanitized_name_confined name :
  leaf_name (sanitize_box_id name) /\
  strip_prefix RESERVED_PREFIX (sanitize_box_id name) = None /\
  (String.length (sanitize_box_id name) <= 67)%nat /\
  (leaf_name name /\ strip_prefix RESERVED_PREFIX name = None /\ (String.length name <= 63)%nat ->
   sanitize_box_id name = name /\
   forall root v other, sanitize_box_id other = other -> box_leaf root name v = box_leaf root other v -> name = other).
Proof.
  destruct (sanitize_loop_ok name EmptyString) as [Hok Hlen]; [by left|simpl; lia|].
  rewrite (and_assoc (leaf_name (sanitize_box_id name))), (and_assoc (_ /\ _) (_ <= _)%nat). split.
  - unfold sanitize_box_id. set (id := if bool_decide _ then _ else _).
    assert (Hid : leaf_name id /\ (String.length id <= 63)%nat).
    { unfold id. case_bool_decide as E; [split; [by exists "b"%char, "ox"%string|simpl; lia]|].
      destruct Hok as [Hok|Hok]; [done|]. split; [done|lia]. }
    destruct Hid as [(c & r & -> & Hc & Hr) Hl]. destruct (strip_prefix RESERVED_PREFIX (String c r)) as [t|] eqn:Ep.
    + split; [split|].
      * exists "b"%char, ("ox-" ++ String c r)%string. split; [done|]. split; [done|].
        rewrite str_all_app. simpl. unfold name_char at 1. rewrite Hc. simpl. exact Hr.
      * reflexivity.
      * rewrite string_length_app. simpl in *. lia.
    + split; [split; [by exists c, r|done]|lia].
  - intros (Hn & Hp & Hl). split; [by apply sanitize_fixed|]. intros root v other Ho. apply box_leaf_inj; [by apply sanitize_fixed|done].
Qed.

Example reserved_name_too_long :
  String.length (sanitize_box_id ("cgroup.aaaaaaaaaaaaaaaaaaaaaaaaaaaaaaaaaaaaaaaaaaaaaaaaaaaaaaaaaa")) = 67%nat.
Proof. vm_compute. reflexivity. Qed.

(** ** Placement *)

Lemma is_empty_nil {A} (l : list A) : is_empty l = true <-> l = [].
Proof. by destruct l. Qed.

(** Two lists of which neither names a rule are both absent. *)
Lemma names_a_rule_false {A} (a b : option (list A)) :
  names_a_rule a b = false -> names_a_rule b a = false -> a = None /\ b = None.
Proof. unfold names_a_rule, list_declares. by destruct a as [[|x a]|], b as [[|y b]|]. Qed.

Lemma unenforceable_none section :
  unenforceable_rules (Some section) = [] <->
  admits_nothing section = true \/
  (ep_allow_subnets section = None /\ ep_allow_dns_hosts section = None /\ ep_allow_protocols section = None /\
   default [] (ep_deny_subnets section) = []).
Proof.
  cbn [unenforceable_rules]. destruct (admits_nothing section) eqn:Ea; [by split; [left|]|]. split.
  - intros H. right. apply app_nil in H as [Hd H]. apply app_nil in H as [Hs H]. apply app_nil in H as [Hh Hp].
    destruct (names_a_rule (ep_allow_subnets section) (ep_allow_dns_hosts section)) eqn:E1; [done|].
    destruct (names_a_rule (ep_allow_dns_hosts section) (ep_allow_subnets section)) eqn:E2; [done|].
    destruct (names_a_rule_false _ _ E1 E2) as [-> ->]. split; [done|]. split; [done|].
    split; [by destruct (ep_allow_protocols section)|by apply map_eq_nil in Hd].
  - intros [?|(-> & -> & -> & ->)]; done.
Qed.

(** A placement enforces the declaration or is refused.  On a host that
    decides per box, a host-address declaration that is not refused is one
    the two subtrees express: placed under deny, the section itself admits
    only ARP and the query to the resolver; placed under allow, it gives
    every frame the verdict of no section at all.  A refused declaration is
    neither deny-all nor free of restrictions. *)
Theorem placement_enforces_declaration declaration resolver lease s :
  match refuses_unenforceable_declaration HostNet true declaration with
  | None =>
      match verdict_of declaration with
      | Deny =>
          verdict s (egress_from_policy declaration resolver lease) = Admit ->
          fs_family s = Arp \/
          (fs_proto s = Some IPPROTO_UDP /\ fs_dst s = Some resolver /\ fs_dst_port s = DNS_PORT)
      | Allow =>
          verdict s (egress_from_policy declaration resolver lease) = verdict s (egress_from_policy None resolver lease)
      end
  | Some rules =>
      verdict_of declaration = Allow /\
      exists section, declaration = Some section /\
        (is_Some (ep_allow_subnets section) \/ is_Some (ep_allow_dns_hosts section) \/
         is_Some (ep_allow_protocols section) \/ default [] (ep_deny_subnets section) <> [])
  end.
Proof.
  unfold refuses_unenforceable_declaration. cbn [orb negb]. destruct declaration as [section|]; [|done].
  destruct (is_empty (unenforceable_rules (Some section))) eqn:Ee.
  - apply is_empty_nil, unenforceable_none in Ee. unfold verdict_of. cbn [is_some_and].
    destruct (admits_nothing section) eqn:Ea.
    + unfold admits_nothing in Ea. apply andb_true_iff in Ea as [Es _].
      destruct (ep_allow_subnets section) as [[|? ?]|] eqn:Eps; try done.
      rewrite verdict_admit_iff. intros [Hf _ | dst proto Hf _ Hd Hp [Hq|[Hq|Hq]]]; [by left|right..]; cbn in *.
      * destruct Hq as (-> & -> & Hq). done.
      * by destruct Hq.
      * destruct Hq as (_ & _ & _ & _ & [Hsub|(o & Ho & _)]); [|done]. cbn in Hsub. rewrite Eps in Hsub.
        destruct Hsub as (c & Hc & _). by apply elem_of_nil in Hc.
    + destruct Ee as [?|(E1 & E2 & E3 & E4)]; [done|]. unfold verdict, verdict_ipv4. cbn. rewrite E1, E3. cbn.
      by destruct (ep_deny_subnets section) as [[|? ?]|].
  - assert (Hn : ~ unenforceable_rules (Some section) = []) by (intros Hn; by rewrite Hn in Ee).
    rewrite unenforceable_none in Hn. unfold verdict_of. cbn [is_some_and].
    destruct (admits_nothing section); [by destruct Hn; left|]. split; [done|]. exists section. split; [done|].
    destruct (ep_allow_subnets section); [eauto|]. destruct (ep_allow_dns_hosts section); [eauto|].
    destruct (ep_allow_protocols section); [eauto 6|]. do 3 right. intros Hd. apply Hn. by right.
Qed.

(** ** Deciding per box *)

Lemma reading_of_refused obs :
  (exists l, reading_of obs = RdRefused l) <->
  obs <> [] /\ Forall (fun o => exists errno, o.2 = ObRefused errno /\ errno ∈ REJECT_SET) obs.
Proof.
  unfold reading_of. split.
  - intros [l Hl]. destruct (List.find (fun l => not_the_table l.2) obs) eqn:E1; [done|].
    destruct (List.find (fun l => unread l.2) obs) eqn:E2; [done|]. split; [by intros ->|].
    apply list.Forall_forall. intros o Ho. apply list_elem_of_In in Ho.
    pose proof (find_none _ _ E1 _ Ho) as H1. pose proof (find_none _ _ E2 _ Ho) as H2. cbv beta in H1, H2.
    destruct o.2 as [|errno| |errno|]; try done. exists errno. split; [done|].
    apply negb_false_iff, bool_decide_eq_true in H1. done.
  - intros [Hne Hall]. assert (Hin : forall o, In o obs -> not_the_table o.2 = false /\ unread o.2 = false).
    { intros o Ho. apply list_elem_of_In in Ho. eapply list.Forall_forall in Hall as (errno & -> & He); [|exact Ho].
      simpl. by rewrite bool_decide_eq_true_2. }
    destruct (List.find (fun l => not_the_table l.2) obs) eqn:E1.
    { apply find_some in E1 as [Hx Hy]. destruct (Hin _ Hx). congruence. }
    destruct (List.find (fun l => unread l.2) obs) eqn:E2.
    { apply find_some in E2 as [Hx Hy]. destruct (Hin _ Hx). congruence. }
    destruct obs; [done|]. simpl. eauto.
Qed.

(** One leg that met what a refusing table never lets through settles the
    reading, whatever the other legs met. *)
Lemma reading_of_bypass obs o :
  o ∈ obs -> not_the_table o.2 = true -> exists because, reading_of obs = NotRefused because obs.
Proof.
  intros Ho Hn. unfold reading_of. destruct (List.find (fun l => not_the_table l.2) obs) eqn:E; [eauto|].
  apply list_elem_of_In in Ho. pose proof (find_none _ _ E _ Ho). simpl in *. congruence.
Qed.

(** The tree confines, is delegated, and carries a marker with a mask. *)
Definition tree_installed (root : string) (mountinfo : option string) (tree : TreeFacts) : Prop :=
  (exists mount, cgroup2_covering root (default EmptyString mountinfo) = Some (mount, true)) /\
  (forall v file, file ∈ DELEGATION_FILES -> tf_delegated tree v file = true) /\
  tf_marker tree = true /\ is_Some (recorded_ct_mark_mask (tf_entries tree)).

(** A host counts as deciding per box only on evidence.  It does exactly
    when a cgroup2 mount with nsdelegate covers the tree, both subtrees are
    delegated, the marker and its mask are recorded, a guest's table is
    listed, and the probe ran at least one leg and every leg was refused the
    way the table refuses; one leg that connected, timed out or was refused
    otherwise makes the table not effective. *)
Theorem decided_only_on_refusal root mountinfo guest tree obs listing :
  (dc_decided (decide_over root mountinfo guest tree (reading_of obs) listing) = true <->
   tree_installed root mountinfo tree /\ (guest = true -> listing = Listed) /\
   obs <> [] /\ Forall (fun o => exists errno, o.2 = ObRefused errno /\ errno ∈ REJECT_SET) obs) /\
  (tree_installed root mountinfo tree -> (exists o, o ∈ obs /\ not_the_table o.2 = true) ->
   decide_over root mountinfo guest tree (reading_of obs) listing = undecidable TableNotEffective).
Proof.
  assert (Hconf : is_some_and snd (cgroup2_covering root (default EmptyString mountinfo)) = true <->
    exists mount, cgroup2_covering root (default EmptyString mountinfo) = Some (mount, true)).
  { destruct (cgroup2_covering root _) as [[m []]|]; simpl; naive_solver. }
  assert (Hdel : subtrees_delegated tree = true <-> forall v file, file ∈ DELEGATION_FILES -> tf_delegated tree v file = true).
  { unfold subtrees_delegated. cbn [forallb]. rewrite !andb_true_iff, !forallb_forall. setoid_rewrite <- list_elem_of_In.
    split; [intros (H1 & H2 & _) [] f Hf; [by apply H1|by apply H2]|intros H; by split; [|split]; [intros f Hf; by apply H..|]]. }
  assert (Hmark : table_marker_present tree = true <-> tf_marker tree = true /\ is_Some (recorded_ct_mark_mask (tf_entries tree))).
  { unfold table_marker_present. by rewrite andb_true_iff, bool_decide_eq_true. }
  assert (Htree : tree_installed root mountinfo tree <->
    is_some_and snd (cgroup2_covering root (default EmptyString mountinfo)) = true /\ subtrees_delegated tree = true /\
    table_marker_present tree = true) by (unfold tree_installed; rewrite Hconf, Hdel, Hmark; tauto).
  rewrite Htree, <- reading_of_refused. unfold decide_over. clear Htree Hconf Hdel Hmark.
  destruct (is_some_and snd _), (subtrees_delegated tree), (table_marker_present tree); cbn [negb orb];
    try (split; [|naive_solver]; split; [by destruct guest|naive_solver]). split.
  - destruct guest, listing as [|why], (reading_of obs); simpl; naive_solver.
  - intros _ (o & Ho & Hn). destruct (reading_of_bypass obs o Ho Hn) as [because ->].
    by destruct guest, listing.
Qed.
