(* ===== verification/Cohort.v ===== *)
(** * The host-address cohort (crates/minimald/src/net/classifier.rs)

    The stance on UDP to port 443 that the boxes sharing the host's address
    have together: who is a member, which leaves the packet filter lists as
    blocked and as lanes, and which processes sit in the blocked leaf.  The
    kernel and the privileged helper are the [CgroupMoves] interface; every
    call may also change the world in ways the daemon does not control, such
    as a fork in between.  The second part holds the theorems. *)

From stdpp Require Import base list gmap sets strings sorting numbers.
From Stdlib Require Import ZArith Lia.
From S2P Require Import Prelude Text Classifier.
Open Scope Z_scope.

(** ** The interface to the kernel *)

Record IoError : Type := { raw_os_error : option Z }.
Definition ESRCH : Z := 3.
Definition is_gone (e : IoError) : bool := bool_decide (raw_os_error e = Some ESRCH).

(** [CgroupMoves], with the two questions asked of the file system beside it:
    [Path::exists] and [Path::is_dir]. *)
Class CgroupMoves (W : Type) : Type := {
  procs : W -> string -> W * (list Z + IoError);
  migrate : W -> Z -> string -> W * (unit + IoError);
  parent : W -> Z -> W * option Z;
  add_blocked_leaf : W -> string -> W * (unit + IoError);
  remove_blocked_leaf : W -> string -> W * (unit + IoError);
  add_lane_leaf : W -> string -> W * (unit + IoError);
  remove_lane_leaf : W -> string -> W * (unit + IoError);
  path_exists : W -> string -> bool;
  path_is_dir : W -> string -> bool;
}.

(** The default of the four set changes: no set changes, and the call fails
    with [ErrorKind::Unsupported]. *)
Definition unsupported_change {W} (w : W) (leaf : string) : W * (unit + IoError) :=
  (w, inr {| raw_os_error := None |}).

(** ** State *)

Definition COHORT_MOVE_PASSES : nat := 8.
Definition COHORT_OWNER_DEPTH : nat := 64.

Inductive CohortPlaceError : Type :=
| NoBlockedLeaf
| PlaceRead (leaf : string) (error : IoError)
| PlaceMigrate (pid : Z) (leaf : string) (error : IoError)
| StillStarting (leaf : string)
| Unlisted (leaf : string) (error : IoError).

Record CohortQuic443 : Type := {
  members : gmap string bool;
  blocked_leaf : option string;
  homes : gmap string string;
  moved : gmap string (gset Z);
  listed : gmap string string;
  lanes : gset string;
  lane_listed : gmap string string;
}.

(** [CohortQuic443::new]. *)
Definition cohort_new : CohortQuic443 :=
  {| members := ∅; blocked_leaf := None; homes := ∅; moved := ∅; listed := ∅; lanes := ∅; lane_listed := ∅ |}.

Definition set_members (m : gmap string bool) (c : CohortQuic443) : CohortQuic443 :=
  {| members := m; blocked_leaf := blocked_leaf c; homes := homes c; moved := moved c; listed := listed c;
     lanes := lanes c; lane_listed := lane_listed c |}.
Definition set_blocked_leaf (l : option string) (c : CohortQuic443) : CohortQuic443 :=
  {| members := members c; blocked_leaf := l; homes := homes c; moved := moved c; listed := listed c;
     lanes := lanes c; lane_listed := lane_listed c |}.
Definition set_homes (h : gmap string string) (c : CohortQuic443) : CohortQuic443 :=
  {| members := members c; blocked_leaf := blocked_leaf c; homes := h; moved := moved c; listed := listed c;
     lanes := lanes c; lane_listed := lane_listed c |}.
Definition set_moved (m : gmap string (gset Z)) (c : CohortQuic443) : CohortQuic443 :=
  {| members := members c; blocked_leaf := blocked_leaf c; homes := homes c; moved := m; listed := listed c;
     lanes := lanes c; lane_listed := lane_listed c |}.
Definition set_listed (l : gmap string string) (c : CohortQuic443) : CohortQuic443 :=
  {| members := members c; blocked_leaf := blocked_leaf c; homes := homes c; moved := moved c; listed := l;
     lanes := lanes c; lane_listed := lane_listed c |}.
Definition set_lanes (l : gset string) (c : CohortQuic443) : CohortQuic443 :=
  {| members := members c; blocked_leaf := blocked_leaf c; homes := homes c; moved := moved c; listed := listed c;
     lanes := l; lane_listed := lane_listed c |}.
Definition set_lane_listed (l : gmap string string) (c : CohortQuic443) : CohortQuic443 :=
  {| members := members c; blocked_leaf := blocked_leaf c; homes := homes c; moved := moved c; listed := listed c;
     lanes := lanes c; lane_listed := l |}.

(** [join], [leave], [blocked], [blocking_members], [learn_blocked_leaf] and
    [injection_leaf]. *)
Definition join (c : CohortQuic443) (box_id : string) (blocked : bool) : CohortQuic443 :=
  set_members (<[box_id := blocked]> (members c)) c.
Definition leave (c : CohortQuic443) (box_id : string) : CohortQuic443 :=
  set_lanes (lanes c ∖ {[box_id]}) (set_members (delete box_id (members c)) c).
Definition blocked (c : CohortQuic443) : bool := existsb snd (btree_iter (members c)).
Definition blocking_members (c : CohortQuic443) : list string :=
  fst <$> List.filter snd (btree_iter (members c)).
Definition injection_leaf (c : CohortQuic443) (box_id : string) : option string :=
  if blocked c && bool_decide (is_Some (homes c !! box_id)) && negb (bool_decide (box_id ∈ lanes c))
  then blocked_leaf c else None.

Section Ops.
Context {W : Type} `{CgroupMoves W}.

Definition learn_blocked_leaf (c : CohortQuic443) (w : W) (leaf : string) : CohortQuic443 :=
  set_blocked_leaf (if path_is_dir w leaf then Some leaf else None) c.

(** ** The two sets of the packet filter

    The loops of [sync_leaf_set] and [sync_lane_set]: take the stale leaves
    out, then add the missing ones, keeping the book of what is listed. *)

Fixpoint drop_stale (remove : W -> string -> W * (unit + IoError)) (stale : list (string * string))
    (w : W) (book : gmap string string) : W * gmap string string :=
  match stale with
  | [] => (w, book)
  | (id, leaf) :: stale =>
      let '(w, r) := remove w leaf in
      match r with
      | inl _ => drop_stale remove stale w (delete id book)
      | inr _ =>
          if negb (path_exists w leaf) then drop_stale remove stale w (delete id book)
          else drop_stale remove stale w book
      end
  end.

Fixpoint add_missing (add : W -> string -> W * (unit + IoError)) (want : list (string * string))
    (w : W) (book : gmap string string) (refused : option (string * IoError))
    : W * gmap string string * option (string * IoError) :=
  match want with
  | [] => (w, book, refused)
  | (id, leaf) :: want =>
      if bool_decide (is_Some (book !! id)) then add_missing add want w book refused
      else
        let '(w, r) := add w leaf in
        match r with
        | inl _ => add_missing add want w (<[id := leaf]> book) refused
        | inr error =>
            add_missing add want w book
              (match refused with Some _ => refused | None => Some (leaf, error) end)
        end
  end.

Definition sync_book (add remove : W -> string -> W * (unit + IoError)) (want : gmap string string)
    (w : W) (book : gmap string string) : W * gmap string string * option (string * IoError) :=
  let stale := List.filter (fun e => negb (bool_decide (want !! e.1 = Some e.2))) (btree_iter book) in
  let '(w, book) := drop_stale remove stale w book in
  add_missing add (btree_iter want) w book None.

(** [sync_lane_set]. *)
Definition sync_lane_set (c : CohortQuic443) (w : W) : CohortQuic443 * W :=
  let want := filter (fun e => e.1 ∈ lanes c) (homes c) in
  let '(w, book, _) := sync_book add_lane_leaf remove_lane_leaf want w (lane_listed c) in
  (set_lane_listed book c, w).

(** [sync_leaf_set]. *)
Definition sync_leaf_set (c : CohortQuic443) (w : W) : CohortQuic443 * W * (unit + CohortPlaceError) :=
  let want := if blocked c then homes c else ∅ in
  let '(w, book, refused) := sync_book add_blocked_leaf remove_blocked_leaf want w (listed c) in
  (set_listed book c, w, match refused with Some (leaf, error) => inr (Unlisted leaf error) | None => inl () end).

(** ** Moving processes *)

(** One pass of [move_in]: the processes read, moved until one is refused. *)
Fixpoint migrate_all (pids : list Z) (to : string) (w : W) (taken : gset Z)
    : W * gset Z * (unit + CohortPlaceError) :=
  match pids with
  | [] => (w, taken, inl ())
  | pid :: pids =>
      let '(w, r) := migrate w pid to in
      match r with
      | inl _ => migrate_all pids to w ({[pid]} ∪ taken)
      | inr error =>
          if is_gone error then migrate_all pids to w taken
          else (w, taken, inr (PlaceMigrate pid to error))
      end
  end.

Fixpoint move_passes (passes : nat) (home blocked_leaf : string) (w : W) (taken : gset Z)
    : W * gset Z * (unit + CohortPlaceError) :=
  let '(w, r) := procs w home in
  match r with
  | inr error => (w, taken, inr (PlaceRead home error))
  | inl pids =>
      match passes with
      | O => (w, taken, if bool_decide (pids = []) then inl () else inr (StillStarting home))
      | S passes =>
          if bool_decide (pids = []) then (w, taken, inl ())
          else
            let '(w, taken, r) := migrate_all pids blocked_leaf w taken in
            match r with
            | inr error => (w, taken, inr error)
            | inl _ => move_passes passes home blocked_leaf w taken
            end
      end
  end.

(** [move_in]. *)
Definition move_in (c : CohortQuic443) (w : W) (box_id : string)
    : CohortQuic443 * W * (unit + CohortPlaceError) :=
  match homes c !! box_id with
  | None => (c, w, inl ())
  | Some home =>
      if bool_decide (box_id ∈ lanes c) then (c, w, inl ())
      else
        match blocked_leaf c with
        | None => (c, w, inr NoBlockedLeaf)
        | Some leaf =>
            let '(w, taken, r) := move_passes COHORT_MOVE_PASSES home leaf w (default ∅ (moved c !! box_id)) in
            (set_moved (<[box_id := taken]> (moved c)) c, w, r)
        end
  end.

(** [owner_of]: the walk up the parents, [depth] steps at most. *)
Fixpoint owner_within (depth : nat) (m : gmap string (gset Z)) (w : W) (current : Z) : W * option string :=
  match depth with
  | O => (w, None)
  | S depth =>
      match List.find (fun e => bool_decide (current ∈ e.2)) (btree_iter m) with
      | Some (id, _) => (w, Some id)
      | None =>
          let '(w, p) := parent w current in
          match p with
          | None => (w, None)
          | Some current => if current <=? 1 then (w, None) else owner_within depth m w current
          end
      end
  end.
Definition owner_of (c : CohortQuic443) (w : W) (pid : Z) : W * option string :=
  owner_within COHORT_OWNER_DEPTH (moved c) w pid.

(** One pass of [move_all_home], with whether it moved anything. *)
Fixpoint send_home (c : CohortQuic443) (pids : list Z) (w : W) (any : bool) : W * bool :=
  match pids with
  | [] => (w, any)
  | pid :: pids =>
      let '(w, owner) := owner_of c w pid in
      match owner ≫= fun id => homes c !! id with
      | None => send_home c pids w any
      | Some home =>
          let '(w, r) := migrate w pid home in
          send_home c pids w (match r with inl _ => true | inr _ => any end)
      end
  end.

Fixpoint home_passes (passes : nat) (c : CohortQuic443) (leaf : string) (w : W) : W :=
  match passes with
  | O => w
  | S passes =>
      let '(w, r) := procs w leaf in
      match r with
      | inr _ => w
      | inl pids =>
          let '(w, any) := send_home c pids w false in
          if any : bool then home_passes passes c leaf w else w
      end
  end.

(** [move_all_home]. *)
Definition move_all_home (c : CohortQuic443) (w : W) : CohortQuic443 * W :=
  match blocked_leaf c with
  | None => (set_moved ∅ c, w)
  | Some leaf => (set_moved ∅ c, home_passes COHORT_MOVE_PASSES c leaf w)
  end.

(** [adopt_injected]. *)
Definition adopt_injected (c : CohortQuic443) (w : W) (box_id : string) (pid : Z) : CohortQuic443 * W :=
  match homes c !! box_id with
  | None => (c, w)
  | Some home =>
      let c := set_moved (<[box_id := {[pid]} ∪ default ∅ (moved c !! box_id)]> (moved c)) c in
      if blocked c then (c, w) else (c, (migrate w pid home).1)
  end.

(** ** Arrivals and departures *)

(** The loop of [admit_with_lane] over every member, when the cohort turns
    blocked. *)
Fixpoint move_all_in (ids : list string) (c : CohortQuic443) (w : W)
    : CohortQuic443 * W * (unit + CohortPlaceError) :=
  match ids with
  | [] => (c, w, inl ())
  | id :: ids =>
      let '(c, w, r) := move_in c w id in
      match r with
      | inr error => (c, w, inr error)
      | inl _ => move_all_in ids c w
      end
  end.

(** The bookkeeping [admit_with_lane] starts with. *)
Definition enrol (c : CohortQuic443) (box_id : string) (home : option string) (stance lane : bool) : CohortQuic443 :=
  let c := join c box_id stance in
  let c := set_lanes (if lane then {[box_id]} ∪ lanes c else lanes c ∖ {[box_id]}) c in
  set_homes (match home with Some home => <[box_id := home]> (homes c) | None => delete box_id (homes c) end) c.

(** [admit_with_lane]. *)
Definition admit_with_lane (c : CohortQuic443) (w : W) (box_id : string) (home : option string)
    (stance lane : bool) : CohortQuic443 * W * (unit + CohortPlaceError) :=
  let was := blocked c in
  let c := enrol c box_id home stance lane in
  let now := blocked c in
  let '(c, w, listed) := sync_leaf_set c w in
  let '(c, w) := sync_lane_set c w in
  if negb now then
    let '(c, w) := if was then move_all_home c w else (c, w) in (c, w, listed)
  else
    let '(c, w, r) := if was then move_in c w box_id else move_all_in (btree_iter (homes c)).*1 c w in
    match r with
    | inr error => (c, w, inr error)
    | inl _ => (c, w, listed)
    end.

(** [depart]. *)
Definition depart (c : CohortQuic443) (w : W) (box_id : string) : CohortQuic443 * W :=
  if negb (bool_decide (is_Some (members c !! box_id))) then (c, w)
  else
    let was := blocked c in
    let c := leave c box_id in
    let c := set_homes (delete box_id (homes c)) c in
    let '(c, w, _) := sync_leaf_set c w in
    let '(c, w) := sync_lane_set c w in
    if was && negb (blocked c) then move_all_home c w
    else (set_moved (delete box_id (moved c)) c, w).

(** [cohort_quic443_admit_over] and [cohort_quic443_depart_over], under the
    cohort's lock. *)
Definition cohort_quic443_admit_over (c : CohortQuic443) (w : W) (root box_id : string) (stance lane : bool)
    : CohortQuic443 * W * (unit + CohortPlaceError) :=
  let home := box_leaf root box_id Allow in
  let home := if path_is_dir w home then Some home else None in
  let c := learn_blocked_leaf c w (quic443_blocked_leaf root) in
  admit_with_lane c w box_id home stance lane.
Definition cohort_quic443_depart_over (c : CohortQuic443) (w : W) (box_id : string) : CohortQuic443 * W :=
  depart c w box_id.

End Ops.

(** * Properties of the host-address cohort

    What the kernel and the helper promise ([CgroupLaws]), the books of the
    two sets, and the guarantees of an admission: a cohort that blocks never
    admits a box whose leaf is not refused. *)

Lemma blocked_spec c : blocked c = true <-> exists id, members c !! id = Some true.
Proof.
  unfold blocked. rewrite existsb_exists. split.
  - intros ([id b] & Hin & Hb). simpl in Hb. subst b. exists id. by apply elem_of_btree_iter, list_elem_of_In.
  - intros [id Hid]. exists (id, true). split; [|done]. by apply list_elem_of_In, elem_of_btree_iter.
Qed.

(** ** What the interface promises

    [blocked_set] and [lane_set] are the leaves the packet filter holds,
    [populated] whether a cgroup has a process.  A set change that succeeds
    is made, one that fails is not; no other call changes a set.  A process
    enters a cgroup by a fork in it or by a migration, so an empty cgroup
    stays empty under every call but a migration into it. *)

Record lawful_change {W} (change : W -> string -> W * (unit + IoError)) (on off : W -> gset string)
    (f : gset string -> gset string -> gset string) (populated : W -> string -> Prop) : Prop := {
  change_made w l w' : change w l = (w', inl ()) -> on w' = f {[l]} (on w);
  change_refused w l w' e : change w l = (w', inr e) -> on w' = on w;
  change_off w l w' r : change w l = (w', r) -> off w' = off w;
  change_quiet w l w' r k : change w l = (w', r) -> ~ populated w k -> ~ populated w' k;
}.

Class CgroupLaws (W : Type) `{CgroupMoves W} : Type := {
  blocked_set : W -> gset string;
  lane_set : W -> gset string;
  populated : W -> string -> Prop;
  add_blocked_law : lawful_change add_blocked_leaf blocked_set lane_set union populated;
  remove_blocked_law : lawful_change remove_blocked_leaf blocked_set lane_set (fun x s => s ∖ x) populated;
  add_lane_law : lawful_change add_lane_leaf lane_set blocked_set union populated;
  remove_lane_law : lawful_change remove_lane_leaf lane_set blocked_set (fun x s => s ∖ x) populated;
  procs_sets w l w' r : procs w l = (w', r) -> blocked_set w' = blocked_set w /\ lane_set w' = lane_set w;
  procs_empty w l w' : procs w l = (w', inl []) -> ~ populated w' l;
  procs_quiet w l w' r k : procs w l = (w', r) -> ~ populated w k -> ~ populated w' k;
  migrate_sets w pid l w' r : migrate w pid l = (w', r) -> blocked_set w' = blocked_set w /\ lane_set w' = lane_set w;
  migrate_quiet w pid l w' r k : migrate w pid l = (w', r) -> k <> l -> ~ populated w k -> ~ populated w' k;
  parent_sets w pid w' r : parent w pid = (w', r) -> blocked_set w' = blocked_set w /\ lane_set w' = lane_set w;
}.

Section Cohort.
Context {W : Type} `{CgroupLaws W}.

(** Each box has a leaf of its own: [valid] are the box ids whose leaves are
    told apart. *)
Context (leaf_of : string -> string) (valid : string -> Prop).
Hypothesis leaf_inj : forall x y, valid x -> valid y -> leaf_of x = leaf_of y -> x = y.

Definition own (id l : string) : Prop := l = leaf_of id /\ valid id.

Definition same_sets (w w' : W) : Prop := blocked_set w' = blocked_set w /\ lane_set w' = lane_set w.

#[global] Instance same_sets_preorder : PreOrder same_sets.
Proof. split; [by intros ?|]. intros w1 w2 w3 [E1 E2] [E3 E4]. split; congruence. Qed.

Definition quiet_but (leaf : string) (w w' : W) : Prop :=
  forall k, k <> leaf -> ~ populated w k -> ~ populated w' k.

(** ** The books *)

(** A book lists leaves under their own boxes, and the set holds them. *)
Definition own_leaves (book : gmap string string) : Prop := forall id l, book !! id = Some l -> own id l.
Definition book_ok (on : W -> gset string) (book : gmap string string) (w : W) : Prop :=
  forall id l, book !! id = Some l -> own id l /\ l ∈ on w.

Definition refused_removal (remove : W -> string -> W * (unit + IoError)) (l : string) : Prop :=
  exists w w' e, remove w l = (w', inr e).

Section Book.
Context (add remove : W -> string -> W * (unit + IoError)) (on off : W -> gset string).
Hypothesis Hadd : lawful_change add on off union populated.
Hypothesis Hrem : lawful_change remove on off (fun x s => s ∖ x) populated.

(** What a loop of changes leaves alone. *)
Definition framed (w w' : W) : Prop := off w' = off w /\ forall k, ~ populated w k -> ~ populated w' k.

Lemma framed_change change f w l w' r :
  lawful_change change on off f populated -> change w l = (w', r) -> framed w w'.
Proof. intros Hc E. split; [by eapply change_off|]. intros k. by eapply change_quiet. Qed.

Lemma framed_trans w1 w2 w3 : framed w1 w2 -> framed w2 w3 -> framed w1 w3.
Proof. intros [E1 Q1] [E2 Q2]. split; [congruence|]. intros k Hk. by apply Q2, Q1. Qed.

Lemma framed_refl w : framed w w.
Proof. by split. Qed.

Lemma drop_stale_spec stale w book w' book' :
  Forall (fun e => own e.1 e.2) stale -> book_ok on book w ->
  drop_stale remove stale w book = (w', book') ->
  book_ok on book' w' /\ framed w w' /\ book' ⊆ book /\
  (forall id l, book !! id = Some l -> id ∉ stale.*1 -> book' !! id = Some l) /\
  (forall id l, book' !! id = Some l -> id ∈ stale.*1 -> refused_removal remove l).
Proof.
  intros Hs. revert w book. induction Hs as [|[id l] stale Hl _ IH]; intros w book Hok; cbn [drop_stale].
  { intros [= <- <-]. split; [done|]. split; [apply framed_refl|]. split; [done|]. split; [done|]. set_solver. }
  simpl in Hl. destruct Hl as [-> Hv]. destruct (remove w (leaf_of id)) as [w1 r] eqn:Er. intros E.
  pose proof (framed_change _ _ _ _ _ _ Hrem Er) as Hf.
  assert (Hdel : forall b, b = delete id book -> drop_stale remove stale w1 b = (w', book') -> book_ok on b w1 ->
    book_ok on book' w' /\ framed w w' /\ book' ⊆ book /\
    (forall id' l, book !! id' = Some l -> id' ∉ ((id, leaf_of id) :: stale).*1 -> book' !! id' = Some l) /\
    (forall id' l, book' !! id' = Some l -> id' ∈ ((id, leaf_of id) :: stale).*1 -> refused_removal remove l)).
  { intros b -> Eb Hok1. destruct (IH _ _ Hok1 Eb) as (H1 & H2 & H3 & H4 & H5).
    split; [done|]. split; [by eapply framed_trans|]. split; [etrans; [exact H3|apply delete_subseteq]|]. split.
    - intros id' l Hl Hin. simpl in Hin. apply H4; [|set_solver]. rewrite lookup_delete_ne; [done|set_solver].
    - intros id' l Hl Hin. simpl in Hin. apply elem_of_cons in Hin as [->|Hin]; [|by eapply H5].
      exfalso. eapply lookup_weaken in Hl; [|exact H3]. by rewrite lookup_delete_eq in Hl. }
  assert (Hokd : forall s, on w1 = s -> (forall id' l, book !! id' = Some l -> id' <> id -> l ∈ s) -> book_ok on (delete id book) w1).
  { intros s Es Hin id' l Hl. apply lookup_delete_Some in Hl as [Hne Hl]. split; [by eapply Hok|].
    rewrite Es. by eapply Hin. }
  destruct r as [[]|e].
  - eapply Hdel; [done|exact E|]. eapply Hokd; [by eapply change_made|]. intros id' l Hl Hne.
    apply Hok in Hl as [[-> Hv'] Hl]. apply elem_of_difference. split; [done|]. rewrite elem_of_singleton.
    intros Heq. by apply leaf_inj in Heq.
  - assert (Hon : on w1 = on w) by (by eapply change_refused). destruct (path_exists w1 (leaf_of id)); cbn [negb] in E.
    + assert (Hok1 : book_ok on book w1) by (intros id' l; rewrite Hon; apply Hok).
      destruct (IH _ _ Hok1 E) as (H1 & H2 & H3 & H4 & H5).
      split; [done|]. split; [by eapply framed_trans|]. split; [done|]. split.
      * intros id' l Hl Hin. apply H4; [done|set_solver].
      * intros id' l Hl Hin. simpl in Hin. apply elem_of_cons in Hin as [->|Hin]; [|by eapply H5].
        assert (l = leaf_of id) as -> by (eapply Hok; by eapply lookup_weaken). by exists w, w1, e.
    + eapply Hdel; [done|exact E|]. eapply Hokd; [exact Hon|]. intros id' l Hl _. by eapply Hok.
Qed.

Lemma add_missing_spec want w book refused w' book' refused' :
  Forall (fun e => own e.1 e.2) want -> book_ok on book w ->
  add_missing add want w book refused = (w', book', refused') ->
  book_ok on book' w' /\ framed w w' /\ book ⊆ book' /\
  (forall id, is_Some (book' !! id) -> is_Some (book !! id) \/ id ∈ want.*1) /\
  (refused' = None -> refused = None /\ forall id, id ∈ want.*1 -> is_Some (book' !! id)).
Proof.
  intros Hs. revert w book refused. induction Hs as [|[id l] want Hl _ IH]; intros w book refused Hok; cbn [add_missing].
  { intros [= <- <- <-]. split; [done|]. split; [apply framed_refl|]. split; [done|]. split; [tauto|]. set_solver. }
  simpl in Hl. destruct Hl as [-> Hv]. case_bool_decide as Hb.
  { intros E. destruct (IH _ _ _ Hok E) as (H1 & H2 & H3 & H4 & H5). split; [done|]. split; [done|]. split; [done|].
    split; [intros id' Hid'; destruct (H4 id' Hid'); [tauto|right; by right]|]. intros Hn. destruct (H5 Hn) as [H6 H7].
    split; [done|]. intros id' Hin. simpl in Hin. apply elem_of_cons in Hin as [->|Hin]; [|by apply H7].
    destruct Hb as [l Hl]. exists l. by eapply lookup_weaken. }
  apply eq_None_not_Some in Hb. destruct (add w (leaf_of id)) as [w1 r] eqn:Er. intros E.
  pose proof (framed_change _ _ _ _ _ _ Hadd Er) as Hf. destruct r as [[]|e].
  - assert (Hok1 : book_ok on (<[id := leaf_of id]> book) w1).
    { intros id' l. rewrite (change_made _ _ _ _ _ Hadd _ _ _ Er). rewrite lookup_insert_Some.
      intros [[<- <-]|[_ Hl]]; [by split; [|set_solver]|]. apply Hok in Hl as [Ho Hl]. split; [done|set_solver]. }
    destruct (IH _ _ _ Hok1 E) as (H1 & H2 & H3 & H4 & H5). split; [done|]. split; [by eapply framed_trans|].
    split; [etrans; [by apply insert_subseteq|exact H3]|]. split.
    + intros id' Hid'. destruct (decide (id' = id)) as [->|Hne]; [right; left|].
      destruct (H4 id' Hid') as [Hx|]; [left|right; by right]. by rewrite lookup_insert_ne in Hx.
    + intros Hn. destruct (H5 Hn) as [H6 H7]. split; [done|]. intros id' Hin. simpl in Hin.
      apply elem_of_cons in Hin as [->|Hin]; [|by apply H7]. exists (leaf_of id). eapply lookup_weaken; [|exact H3].
      apply lookup_insert_eq.
  - assert (Hok1 : book_ok on book w1) by (intros id' l; rewrite (change_refused _ _ _ _ _ Hadd _ _ _ _ Er); apply Hok).
    destruct (IH _ _ _ Hok1 E) as (H1 & H2 & H3 & H4 & H5). split; [done|]. split; [by eapply framed_trans|].
    split; [done|]. split; [intros id' Hid'; destruct (H4 id' Hid'); [tauto|right; by right]|].
    intros Hn. destruct (H5 Hn) as [H6 _]. by destruct refused.
Qed.

Lemma own_leaves_iter book : own_leaves book -> Forall (fun e => own e.1 e.2) (btree_iter book).
Proof. intros Ho. apply list.Forall_forall. intros [id l] Hin. apply elem_of_btree_iter in Hin. by apply Ho. Qed.

(** What a synchronised book holds: the wanted leaves, unless an add was
    refused, and beyond them only leaves whose removal was refused. *)
Lemma sync_book_spec want w book w' book' refused :
  own_leaves want -> book_ok on book w -> sync_book add remove want w book = (w', book', refused) ->
  book_ok on book' w' /\ framed w w' /\
  (forall id l, book' !! id = Some l -> want !! id = Some l \/ refused_removal remove l) /\
  (refused = None -> want ⊆ book').
Proof.
  intros Hw Hok. unfold sync_book. set (stale := List.filter _ (btree_iter book)).
  assert (Hstale : forall id l, (id, l) ∈ stale <-> book !! id = Some l /\ want !! id <> Some l).
  { intros id l. unfold stale. rewrite list_elem_of_In, filter_In, <- list_elem_of_In, elem_of_btree_iter, negb_true_iff.
    by rewrite bool_decide_eq_false. }
  assert (Hown : Forall (fun e => own e.1 e.2) stale).
  { apply list.Forall_forall. intros [id l] Hin. apply Hstale in Hin as [Hl _]. by eapply Hok. }
  destruct (drop_stale remove stale w book) as [w1 book1] eqn:Ed. intros Ea.
  destruct (drop_stale_spec _ _ _ _ _ Hown Hok Ed) as (D1 & D2 & D3 & D4 & D5).
  destruct (add_missing_spec _ _ _ _ _ _ _ (own_leaves_iter _ Hw) D1 Ea) as (A1 & A2 & A3 & A4 & A5).
  split; [done|]. split; [by eapply framed_trans|]. split.
  - intros id l Hl. destruct (decide (want !! id = Some l)) as [|Hnw]; [by left|right].
    destruct (A4 id) as [[l1 Hl1]|Hin]; [eauto| |].
    + assert (l1 = l) as -> by (eapply lookup_weaken in Hl1; [|exact A3]; congruence).
      eapply D5; [exact Hl1|]. apply list_elem_of_fmap. exists (id, l). split; [done|]. apply Hstale.
      split; [by eapply lookup_weaken|done].
    + apply elem_of_btree_keys in Hin as [l2 Hl2]. exfalso. apply Hnw. rewrite Hl2. f_equal.
      destruct (Hw _ _ Hl2) as [-> _]. symmetry. by eapply A1.
  - intros Hn. apply map_subseteq_spec. intros id l Hl. destruct (A5 Hn) as [_ A6].
    destruct (A6 id) as [l' Hl']; [apply elem_of_btree_keys; eauto|]. rewrite Hl'. f_equal.
    destruct (Hw _ _ Hl) as [-> _]. by eapply A1.
Qed.

End Book.
(** ** Moves *)

Definition quiet_cohort (c : CohortQuic443) (w w' : W) : Prop :=
  forall k, blocked_leaf c <> Some k -> ~ populated w k -> ~ populated w' k.

Lemma procs_same w l w' r : procs w l = (w', r) -> same_sets w w'.
Proof. apply procs_sets. Qed.
Lemma migrate_same w pid l w' r : migrate w pid l = (w', r) -> same_sets w w'.
Proof. apply migrate_sets. Qed.
Lemma parent_same w pid w' r : parent w pid = (w', r) -> same_sets w w'.
Proof. apply parent_sets. Qed.

Lemma migrate_all_spec pids to w taken w' taken' r :
  migrate_all pids to w taken = (w', taken', r) ->
  same_sets w w' /\ forall k, k <> to -> ~ populated w k -> ~ populated w' k.
Proof.
  revert w taken. induction pids as [|pid pids IH]; intros w taken; cbn [migrate_all].
  { intros [= <- <- <-]. by split. }
  destruct (migrate w pid to) as [w1 r1] eqn:Em. intros E.
  assert (Hstep : forall t, migrate_all pids to w1 t = (w', taken', r) ->
    same_sets w w' /\ forall k, k <> to -> ~ populated w k -> ~ populated w' k).
  { intros t Et. destruct (IH _ _ Et) as [H1 H2]. split; [etrans; [by eapply migrate_same|done]|].
    intros k Hk Hp. apply H2; [done|]. by eapply migrate_quiet. }
  destruct r1 as [|e]; [by eapply Hstep|]. destruct (is_gone e); [by eapply Hstep|]. injection E as <- <- <-.
  split; [by eapply migrate_same|]. intros k Hk. by eapply migrate_quiet.
Qed.

Lemma move_passes_spec n home leaf w taken w' taken' r :
  move_passes n home leaf w taken = (w', taken', r) ->
  same_sets w w' /\ (forall k, k <> leaf -> ~ populated w k -> ~ populated w' k) /\
  (r = inl () -> ~ populated w' home).
Proof.
  revert w taken. induction n as [|n IH]; intros w taken; cbn [move_passes];
    destruct (procs w home) as [w1 [pids|e]] eqn:Ep.
  - intros [= <- <- <-]. split; [by eapply procs_same|]. split; [intros k _; by eapply procs_quiet|].
    case_bool_decide; [|done]. subst. intros _. by eapply procs_empty.
  - intros [= <- <- <-]. split; [by eapply procs_same|]. split; [intros k _; by eapply procs_quiet|done].
  - case_bool_decide as Hp.
    { intros [= <- <- <-]. subst. split; [by eapply procs_same|]. split; [intros k _; by eapply procs_quiet|].
      intros _. by eapply procs_empty. }
    destruct (migrate_all pids leaf w1 taken) as [[w2 t2] r2] eqn:Em. intros E.
    apply migrate_all_spec in Em as [M1 M2].
    assert (Hpre : same_sets w w2 /\ forall k, k <> leaf -> ~ populated w k -> ~ populated w2 k).
    { split; [etrans; [by eapply procs_same|done]|]. intros k Hk Hn. apply M2; [done|]. by eapply procs_quiet. }
    destruct r2 as [|e].
    + destruct (IH _ _ E) as (H1 & H2 & H3). split; [by etrans; [apply Hpre|]|]. split; [|done].
      intros k Hk Hn. by apply H2, Hpre.
    + injection E as <- <- <-. by split; [apply Hpre|split; [apply Hpre|]].
  - intros [= <- <- <-]. split; [by eapply procs_same|]. split; [intros k _; by eapply procs_quiet|done].
Qed.

(** A box whose processes must be out of its own leaf. *)
Definition must_move (c : CohortQuic443) (id home : string) : Prop :=
  homes c !! id = Some home /\ id ∉ lanes c /\ blocked_leaf c <> Some home.

Lemma move_in_spec c w id c' w' r :
  move_in c w id = (c', w', r) ->
  (exists m, c' = set_moved m c) /\ same_sets w w' /\ quiet_cohort c w w' /\
  (r = inl () -> forall home, must_move c id home -> ~ populated w' home).
Proof.
  unfold move_in, must_move, quiet_cohort. destruct (homes c !! id) as [home|] eqn:Eh.
  2: { intros [= <- <- <-]. split; [by exists (moved c); destruct c|]. split; [done|]. split; [done|]. by intros _ ? []. }
  case_bool_decide as El.
  { intros [= <- <- <-]. split; [by exists (moved c); destruct c|]. split; [done|]. split; [done|]. by intros _ ? (_ & ? & _). }
  destruct (blocked_leaf c) as [leaf|].
  2: { intros [= <- <- <-]. split; [by exists (moved c); destruct c|]. by split; [|split]. }
  destruct (move_passes _ home leaf w _) as [[w1 t] r1] eqn:Em. intros [= <- <- <-].
  apply move_passes_spec in Em as (M1 & M2 & M3). split; [by eexists|]. split; [done|]. split.
  - intros k Hk. apply M2. congruence.
  - intros -> h ([= <-] & _ & _). by apply M3.
Qed.

Lemma move_all_in_spec ids c w c' w' r :
  move_all_in ids c w = (c', w', r) ->
  (exists m, c' = set_moved m c) /\ same_sets w w' /\ quiet_cohort c w w' /\
  (r = inl () -> forall id home, id ∈ ids -> must_move c id home -> ~ populated w' home).
Proof.
  revert c w. induction ids as [|id ids IH]; intros c w; cbn [move_all_in].
  { intros [= <- <- <-]. split; [by exists (moved c); destruct c|]. split; [done|]. split; [by intros k|]. set_solver. }
  destruct (move_in c w id) as [[c1 w1] r1] eqn:Em. apply move_in_spec in Em as ([m1 ->] & M1 & M2 & M3).
  destruct r1 as [[]|e].
  - intros E. apply IH in E as ([m2 ->] & I1 & I2 & I3). split; [by exists m2|]. split; [by etrans|]. split.
    + intros k Hk Hn. apply I2; [done|]. by apply M2.
    + intros -> id' home Hin Hm. apply elem_of_cons in Hin as [->|Hin]; [|by eapply I3].
      apply I2; [apply Hm|]. by eapply M3.
  - intros [= <- <- <-]. split; [by exists m1|]. by split; [|split].
Qed.

Lemma owner_within_same depth m w pid w' r : owner_within depth m w pid = (w', r) -> same_sets w w'.
Proof.
  revert w pid. induction depth as [|depth IH]; intros w pid; cbn [owner_within]; [by intros [= <- <-]|].
  destruct (List.find _ _) as [[id ?]|]; [by intros [= <- <-]|].
  destruct (parent w pid) as [w1 [p|]] eqn:Ep; [|intros [= <- <-]; by eapply parent_same].
  destruct (p <=? 1); [intros [= <- <-]; by eapply parent_same|].
  intros E. etrans; [by eapply parent_same|by eapply IH].
Qed.

Lemma send_home_same c pids w any w' any' : send_home c pids w any = (w', any') -> same_sets w w'.
Proof.
  revert w any. induction pids as [|pid pids IH]; intros w any; cbn [send_home]; [by intros [= <- <-]|].
  destruct (owner_of c w pid) as [w1 owner] eqn:Eo. apply owner_within_same in Eo.
  destruct (owner ≫= _) as [home|]; [|intros E; etrans; [done|by eapply IH]].
  destruct (migrate w1 pid home) as [w2 r] eqn:Em. apply migrate_same in Em.
  intros E. etrans; [done|]. etrans; [done|by eapply IH].
Qed.

Lemma home_passes_same n c leaf w : same_sets w (home_passes n c leaf w).
Proof.
  revert w. induction n as [|n IH]; intros w; cbn [home_passes]; [done|].
  destruct (procs w leaf) as [w1 [pids|e]] eqn:Ep; apply procs_same in Ep; [|done].
  destruct (send_home c pids w1 false) as [w2 any] eqn:Es. apply send_home_same in Es.
  etrans; [exact Ep|]. destruct any; [by etrans|done].
Qed.

Lemma move_all_home_spec c w c' w' :
  move_all_home c w = (c', w') -> c' = set_moved ∅ c /\ same_sets w w'.
Proof.
  unfold move_all_home. destruct (blocked_leaf c) as [leaf|]; intros [<- <-]%pair_equal_spec; (split; [done|]);
    [apply home_passes_same|done].
Qed.

(** ** The invariant *)

(** Boxes are at home in their own leaves, only residents have a home or a
    lane, and what the books list is in the sets for a reason: the cohort
    wants it there, or its removal was refused. *)
Record cohort_ok (c : CohortQuic443) (w : W) : Prop := {
  ok_homes : own_leaves (homes c);
  ok_resident : forall id, is_Some (homes c !! id) \/ id ∈ lanes c -> is_Some (members c !! id);
  ok_listed : book_ok blocked_set (listed c) w;
  ok_lanes : book_ok lane_set (lane_listed c) w;
  ok_listed_why : forall id l, listed c !! id = Some l ->
    (blocked c = true /\ homes c !! id = Some l) \/ refused_removal remove_blocked_leaf l;
  ok_lanes_why : forall id l, lane_listed c !! id = Some l ->
    (id ∈ lanes c /\ homes c !! id = Some l) \/ refused_removal remove_lane_leaf l;
}.

Lemma cohort_ok_new w : cohort_ok cohort_new w.
Proof. split; [by intros ? ?| |by intros ? ?..]. intros id [[? ?]|?]; [done|set_solver]. Qed.

Lemma book_ok_same on book w w' : on w' = on w -> book_ok on book w -> book_ok on book w'.
Proof. intros E Hok id l Hl. rewrite E. by apply Hok. Qed.

(** A step that only touches the moved pids, in a world with the same sets. *)
Lemma cohort_ok_moved m c w w' : same_sets w w' -> cohort_ok c w -> cohort_ok (set_moved m c) w'.
Proof.
  intros [E1 E2] []. split; try done; by eapply book_ok_same.
Qed.

Record synced (c : CohortQuic443) (c' : CohortQuic443) (w w' : W) (r : unit + CohortPlaceError) : Prop := {
  sy_state : exists b1 b2, c' = set_lane_listed b2 (set_listed b1 c);
  sy_ok : cohort_ok c' w';
  sy_quiet : forall k, ~ populated w k -> ~ populated w' k;
  sy_listed : r = inl () -> blocked c = true -> homes c ⊆ listed c';
  sy_refused : forall e, r = inr e -> blocked c = true;
}.

Lemma sync_spec c w c1 w1 r c2 w2 :
  own_leaves (homes c) -> (forall id, is_Some (homes c !! id) \/ id ∈ lanes c -> is_Some (members c !! id)) ->
  book_ok blocked_set (listed c) w -> book_ok lane_set (lane_listed c) w ->
  sync_leaf_set c w = (c1, w1, r) -> sync_lane_set c1 w1 = (c2, w2) -> synced c c2 w w2 r.
Proof.
  intros Hh Hres Hb Hl. unfold sync_leaf_set, sync_lane_set.
  set (want := if blocked c then homes c else ∅).
  assert (Hw : own_leaves want) by (unfold want; destruct (blocked c); [done|by intros ? ?]).
  destruct (sync_book add_blocked_leaf remove_blocked_leaf want w (listed c)) as [[w1' b1] ref1] eqn:E1.
  intros [= <- <- <-]. cbn [lanes homes lane_listed set_listed].
  destruct (sync_book_spec _ _ _ _ add_blocked_law remove_blocked_law _ _ _ _ _ _ Hw Hb E1) as (B1 & [F1 Q1] & W1 & N1).
  set (lwant := filter (fun e => e.1 ∈ lanes c) (homes c)).
  assert (Hlw : own_leaves lwant) by (intros id l [Hx _]%map_lookup_filter_Some; by apply Hh).
  destruct (sync_book add_lane_leaf remove_lane_leaf lwant w1' (lane_listed c)) as [[w2' b2] ref2] eqn:E2.
  intros [= <- <-].
  assert (Hl1 : book_ok lane_set (lane_listed c) w1') by (by eapply book_ok_same).
  destruct (sync_book_spec _ _ _ _ add_lane_law remove_lane_law _ _ _ _ _ _ Hlw Hl1 E2) as (B2 & [F2 Q2] & W2 & _).
  split.
  - by exists b1, b2.
  - split; try done.
    + by eapply book_ok_same.
    + intros id l Hx. destruct (W1 _ _ Hx) as [Hx'|]; [left|by right]. unfold want in Hx'.
      change (blocked (set_lane_listed b2 (set_listed b1 c))) with (blocked c). by destruct (blocked c).
    + intros id l Hx. destruct (W2 _ _ Hx) as [Hx'|]; [left|by right].
      unfold lwant in Hx'. by apply map_lookup_filter_Some in Hx' as [? ?].
  - intros k Hk. by apply Q2, Q1.
  - intros Hr Hbl. destruct ref1 as [[? ?]|]; [done|]. specialize (N1 eq_refl). unfold want in N1. by rewrite Hbl in N1.
  - intros e He. unfold want in E1. destruct (blocked c); [done|]. destruct ref1 as [[l x]|]; [|done]. exfalso.
    unfold sync_book in E1. destruct (drop_stale _ _ _ _). change (btree_iter ∅) with (@nil (string * string)) in E1. done.
Qed.

(** [home] is where a launch places the box: its own leaf, or none that moves. *)
Definition home_of (id : string) (home : option string) : Prop := home = None \/ (valid id /\ home = Some (leaf_of id)).

Lemma enrol_ok c w id home stance lane :
  cohort_ok c w -> home_of id home ->
  let c' := enrol c id home stance lane in
  own_leaves (homes c') /\ (forall i, is_Some (homes c' !! i) \/ i ∈ lanes c' -> is_Some (members c' !! i)).
Proof.
  intros [Hh Hres _ _ _ _] Hhome. cbn. split.
  - intros i l. destruct Hhome as [->|[Hv ->]].
    + intros [_ Hl]%lookup_delete_Some. by apply Hh.
    + intros [[<- <-]|[_ Hl]]%lookup_insert_Some; [done|by apply Hh].
  - intros i Hi. destruct (decide (i = id)) as [->|Hne]; [by rewrite lookup_insert_eq|].
    rewrite lookup_insert_ne by done. apply Hres. destruct Hi as [Hi|Hi].
    + left. destruct home; [by rewrite lookup_insert_ne in Hi|by rewrite lookup_delete_ne in Hi].
    + right. destruct lane; set_solver.
Qed.

(** What an admission of [id] to [c], enrolled as [e], leaves behind. *)
Record admission (c : CohortQuic443) (id : string) (e c' : CohortQuic443) (w' : W) (r : unit + CohortPlaceError) : Prop := {
  ad_ok : cohort_ok c' w';
  ad_homes : homes c' = homes e;
  ad_lanes : lanes c' = lanes e;
  ad_members : members c' = members e;
  ad_leaf : blocked_leaf c' = blocked_leaf c;
  ad_refused : forall err, r = inr err -> blocked c' = true;
  ad_listed : r = inl () -> blocked c' = true -> homes c' ⊆ listed c';
  ad_moved : r = inl () -> blocked c' = true ->
    forall i h, i = id \/ blocked c = false -> must_move c' i h -> ~ populated w' h;
}.

Lemma admit_spec c w id home stance lane c' w' r :
  cohort_ok c w -> home_of id home -> admit_with_lane c w id home stance lane = (c', w', r) ->
  admission c id (enrol c id home stance lane) c' w' r.
Proof.
  intros Hok Hhome. unfold admit_with_lane. set (e := enrol c id home stance lane).
  destruct (enrol_ok c w id home stance lane Hok Hhome) as [Hh Hres]. fold e in Hh, Hres.
  destruct (sync_leaf_set e w) as [[c1 w1] l1] eqn:E1. destruct (sync_lane_set c1 w1) as [c2 w2] eqn:E2.
  destruct (sync_spec e w c1 w1 l1 c2 w2 Hh Hres (ok_listed _ _ Hok) (ok_lanes _ _ Hok) E1 E2)
    as [(b1 & b2 & ->) Sok _ Slisted Sref].
  set (s := set_lane_listed b2 (set_listed b1 e)) in *. cbv zeta.
  assert (Hmoved : forall m wx (rx : unit + CohortPlaceError), same_sets w2 wx ->
    (forall err, rx = inr err -> blocked e = true) -> (rx = inl () -> l1 = inl ()) ->
    (rx = inl () -> blocked e = true -> forall i h, i = id \/ blocked c = false -> must_move s i h -> ~ populated wx h) ->
    admission c id e (set_moved m s) wx rx).
  { intros m wx rx Hsame Herr Hl Hp. split; [by eapply cohort_ok_moved|done..|exact Herr| |exact Hp].
    intros Hr Hb. apply Slisted; [by apply Hl|done]. }
  destruct (blocked e) eqn:Eb; cbn [negb].
  - destruct (blocked c) eqn:Ec.
    + destruct (move_in s w2 id) as [[c3 w3] r3] eqn:Em. apply move_in_spec in Em as ([m ->] & M1 & _ & M3).
      intros E. destruct r3 as [[]|err]; injection E as <- <- <-; apply Hmoved; try done.
      intros Hl _ i h [->|?] Hm; [by apply (M3 eq_refl)|done].
    + destruct (move_all_in _ s w2) as [[c3 w3] r3] eqn:Em. apply move_all_in_spec in Em as ([m ->] & M1 & _ & M3).
      intros E. destruct r3 as [[]|err]; injection E as <- <- <-; apply Hmoved; try done.
      intros Hl _ i h _ Hm. apply (M3 eq_refl i h); [|done]. apply elem_of_btree_keys. exists h. apply Hm.
  - assert (Hl1 : forall err, l1 = inr err -> false = true) by (intros err Hr; by eapply Sref).
    destruct (blocked c).
    + destruct (move_all_home s w2) as [c3 w3] eqn:Em. apply move_all_home_spec in Em as [-> M1].
      intros [= <- <- <-]. by apply Hmoved.
    + intros [= <- <- <-]. by apply (Hmoved (moved s)).
Qed.

Lemma depart_ok c w id c' w' : cohort_ok c w -> depart c w id = (c', w') -> cohort_ok c' w'.
Proof.
  intros Hok. unfold depart. case_bool_decide as Hm; cbn [negb]; [|by intros [= <- <-]].
  set (d := set_homes (delete id (homes (leave c id))) (leave c id)).
  assert (Hh : own_leaves (homes d)) by (cbn; intros i l [_ Hl]%lookup_delete_Some; by apply (ok_homes _ _ Hok)).
  assert (Hres : forall i, is_Some (homes d !! i) \/ i ∈ lanes d -> is_Some (members d !! i)).
  { cbn. intros i Hi. assert (Hne : i <> id).
    { intros ->. rewrite lookup_delete_eq in Hi. destruct Hi as [[? ?]|?]; [done|set_solver]. }
    rewrite lookup_delete_ne by done. apply (ok_resident _ _ Hok). rewrite lookup_delete_ne in Hi by done. set_solver. }
  destruct (sync_leaf_set d w) as [[c1 w1] r] eqn:E1. destruct (sync_lane_set c1 w1) as [c2 w2] eqn:E2.
  destruct (sync_spec d w c1 w1 r c2 w2 Hh Hres (ok_listed _ _ Hok) (ok_lanes _ _ Hok) E1 E2) as [_ Sok _ _ _].
  destruct (blocked c && negb (blocked c2)).
  - intros [-> Hs]%move_all_home_spec. by eapply cohort_ok_moved.
  - intros [= <- <-]. by eapply cohort_ok_moved.
Qed.

Lemma adopt_ok c w id pid c' w' : cohort_ok c w -> adopt_injected c w id pid = (c', w') -> cohort_ok c' w'.
Proof.
  intros Hok. unfold adopt_injected. destruct (homes c !! id) as [home|]; [|by intros [= <- <-]].
  destruct (blocked _); intros [= <- <-].
  - by eapply cohort_ok_moved.
  - destruct (migrate w pid home) as [w1 r] eqn:Em. eapply cohort_ok_moved; [|done]. by eapply migrate_same.
Qed.

Lemma learn_ok c w leaf : cohort_ok c w -> cohort_ok (learn_blocked_leaf c w leaf) w.
Proof. by intros []. Qed.

(** ** Histories

    The daemon's calls in any order, with the outcomes the world gives them;
    in between the world changes as it likes, its sets excepted. *)
Inductive reachable : CohortQuic443 -> W -> Prop :=
| ReachNew w : reachable cohort_new w
| ReachWorld c w w' : reachable c w -> same_sets w w' -> reachable c w'
| ReachLearn c w leaf : reachable c w -> reachable (learn_blocked_leaf c w leaf) w
| ReachAdmit c w id home stance lane c' w' r :
    reachable c w -> home_of id home -> admit_with_lane c w id home stance lane = (c', w', r) -> reachable c' w'
| ReachDepart c w id c' w' : reachable c w -> depart c w id = (c', w') -> reachable c' w'
| ReachAdopt c w id pid c' w' : reachable c w -> adopt_injected c w id pid = (c', w') -> reachable c' w'.

Lemma cohort_reachable_ok c w : reachable c w -> cohort_ok c w.
Proof.
  induction 1 as [w|c w w' _ IH Hs|c w leaf _ IH|c w id home stance lane c' w' r _ IH Hh E|c w id c' w' _ IH E|c w id pid c' w' _ IH E].
  - apply cohort_ok_new.
  - pose proof (cohort_ok_moved (moved c) c w w' Hs IH) as Hc. by destruct c.
  - by apply learn_ok.
  - by eapply ad_ok, admit_spec.
  - by eapply depart_ok.
  - by eapply adopt_ok.
Qed.

(** C8: a blocked stance never fails open.  Whatever happened before, when an
    admission succeeds and the cohort blocks, the own leaf of every member
    that has one is in the packet filter's blocked set; the joining box, and
    every box when the cohort has just turned blocked, has left its own leaf
    unless it holds a lane.  An admission fails only while the cohort
    blocks. *)
Theorem blocked_stance_fails_closed c w id home stance lane c' w' r :
  reachable c w -> home_of id home -> admit_with_lane c w id home stance lane = (c', w', r) ->
  match r with
  | inl _ => blocked c' = true ->
      (forall i l, homes c' !! i = Some l -> l ∈ blocked_set w') /\
      (forall i h, i = id \/ blocked c = false -> must_move c' i h -> ~ populated w' h)
  | inr _ => blocked c' = true
  end.
Proof.
  intros Hr Hh E. destruct (admit_spec _ _ _ _ _ _ _ _ _ (cohort_reachable_ok _ _ Hr) Hh E) as [Hok _ _ _ _ Href Hlis Hmov].
  destruct r as [[]|err]; [|by eapply Href]. intros Hb. split; [|by apply Hmov].
  intros i l Hl. eapply (ok_listed _ _ Hok). by eapply lookup_weaken; [|apply Hlis].
Qed.

(** The books tell the truth about the packet filter.  In every
    reachable state each leaf a book lists is its box's own and is in the
    set; a leaf is listed as blocked only while the cohort blocks and its
    box is at home there, and as a lane only for a resident that declares
    one, unless the helper refused its removal. *)
Theorem books_match_sets c w :
  reachable c w ->
  (forall id l, listed c !! id = Some l -> l = leaf_of id /\ l ∈ blocked_set w /\
     ((blocked c = true /\ homes c !! id = Some l /\ is_Some (members c !! id)) \/ refused_removal remove_blocked_leaf l)) /\
  (forall id l, lane_listed c !! id = Some l -> l = leaf_of id /\ l ∈ lane_set w /\
     ((id ∈ lanes c /\ homes c !! id = Some l /\ is_Some (members c !! id)) \/ refused_removal remove_lane_leaf l)).
Proof.
  intros [Hh Hres Hb Hl Hbw Hlw]%cohort_reachable_ok. split; intros id l Hx.
  - destruct (Hb _ _ Hx) as [[? _] ?]. split; [done|]. split; [done|].
    destruct (Hbw _ _ Hx) as [[? ?]|]; [left|by right]. split; [done|]. split; [done|]. apply Hres. left. eauto.
  - destruct (Hl _ _ Hx) as [[? _] ?]. split; [done|]. split; [done|].
    destruct (Hlw _ _ Hx) as [[? ?]|]; [left|by right]. split; [done|]. split; [done|]. apply Hres. by right.
Qed.

End Cohort.

(** ** The daemon's own calls

    Under one tree root, boxes whose ids are kept as leaf names. *)
Section Daemon.
Context {W : Type} `{CgroupLaws W} (root : string).

Definition cohort_leaf (id : string) : string := box_leaf root id Allow.
Definition kept_id (id : string) : Prop := sanitize_box_id id = id.

Lemma cohort_leaf_inj x y : kept_id x -> kept_id y -> cohort_leaf x = cohort_leaf y -> x = y.
Proof. apply box_leaf_inj. Qed.

Lemma admit_over_reachable c w id stance lane c' w' r :
  reachable cohort_leaf kept_id c w -> kept_id id ->
  cohort_quic443_admit_over c w root id stance lane = (c', w', r) -> reachable cohort_leaf kept_id c' w'.
Proof.
  intros Hr Hid E. eapply ReachAdmit; [by apply ReachLearn| |exact E].
  destruct (path_is_dir w _); [right; by split|by left].
Qed.

End Daemon.
