(* ===== verification/CohortStandin.v ===== *)
(** * A world the cohort runs in

    The stand-in tree of crates/minimald/src/net/classifier.rs, a cgroup
    hierarchy with the kernel's meaning and a helper that may refuse.  It
    satisfies [CgroupLaws]; in it, blocking the cohort and lifting the block
    again puts every process back where it was. *)

From stdpp Require Import base list gmap sets strings sorting numbers.
From Stdlib Require Import ZArith Lia.
From S2P Require Import Prelude Text Classifier Cohort.
Open Scope Z_scope.

Record StandinMoves : Type := {
  placed : gmap Z string;
  parents : gmap Z Z;
  refused : gset Z;
  set_of_listed : gset string;
  unlistable : gset string;
  unremovable : gset string;
  lane : gset string;
  directories : gset string;
}.

Definition EACCES : Z := 13.
Definition EBUSY : Z := 16.
Definition os_error (n : Z) : IoError := {| raw_os_error := Some n |}.

Definition set_placed (p : gmap Z string) (w : StandinMoves) : StandinMoves :=
  {| placed := p; parents := parents w; refused := refused w; set_of_listed := set_of_listed w;
     unlistable := unlistable w; unremovable := unremovable w; lane := lane w; directories := directories w |}.
Definition set_set_of_listed (s : gset string) (w : StandinMoves) : StandinMoves :=
  {| placed := placed w; parents := parents w; refused := refused w; set_of_listed := s;
     unlistable := unlistable w; unremovable := unremovable w; lane := lane w; directories := directories w |}.
Definition set_lane (s : gset string) (w : StandinMoves) : StandinMoves :=
  {| placed := placed w; parents := parents w; refused := refused w; set_of_listed := set_of_listed w;
     unlistable := unlistable w; unremovable := unremovable w; lane := s; directories := directories w |}.

(** The pids placed in a leaf, in the order of a [BTreeMap<i32, _>]. *)
Definition standin_procs (w : StandinMoves) (leaf : string) : list Z :=
  merge_sort (≤) (map_to_list (filter (fun e => e.2 = leaf) (placed w))).*1.

Definition standin_migrate (w : StandinMoves) (pid : Z) (to : string) : StandinMoves * (unit + IoError) :=
  if bool_decide (pid ∈ refused w) then (w, inr (os_error EACCES))
  else
    match placed w !! pid with
    | Some _ => (set_placed (<[pid := to]> (placed w)) w, inl ())
    | None => (w, inr (os_error ESRCH))
    end.

Definition standin_add_blocked (w : StandinMoves) (leaf : string) : StandinMoves * (unit + IoError) :=
  if bool_decide (leaf ∈ unlistable w) then (w, inr (os_error EACCES))
  else (set_set_of_listed ({[leaf]} ∪ set_of_listed w) w, inl ()).

Definition standin_remove_blocked (w : StandinMoves) (leaf : string) : StandinMoves * (unit + IoError) :=
  if bool_decide (leaf ∈ unremovable w) then (w, inr (os_error EBUSY))
  else (set_set_of_listed (set_of_listed w ∖ {[leaf]}) w, inl ()).

#[global] Instance standin_moves : CgroupMoves StandinMoves := {
  procs w leaf := (w, inl (standin_procs w leaf));
  migrate := standin_migrate;
  parent w pid := (w, parents w !! pid);
  add_blocked_leaf := standin_add_blocked;
  remove_blocked_leaf := standin_remove_blocked;
  add_lane_leaf w leaf := (set_lane ({[leaf]} ∪ lane w) w, inl ());
  remove_lane_leaf w leaf := (set_lane (lane w ∖ {[leaf]}) w, inl ());
  path_exists w leaf := bool_decide (leaf ∈ directories w);
  path_is_dir w leaf := bool_decide (leaf ∈ directories w);
}.

(** ** The laws hold *)

Lemma elem_of_standin_procs w leaf pid : pid ∈ standin_procs w leaf <-> placed w !! pid = Some leaf.
Proof.
  unfold standin_procs. rewrite merge_sort_Permutation, list_elem_of_fmap. split.
  - intros ([p l] & -> & Hin). apply elem_of_map_to_list, map_lookup_filter_Some in Hin as [Hp Hl]. simpl in Hl. by subst.
  - intros Hp. exists (pid, leaf). split; [done|]. by apply elem_of_map_to_list, map_lookup_filter_Some.
Qed.

Definition standin_populated (w : StandinMoves) (leaf : string) : Prop := exists pid, placed w !! pid = Some leaf.

#[global] Program Instance standin_laws : CgroupLaws StandinMoves :=
  {| blocked_set := set_of_listed; lane_set := lane; populated := standin_populated |}.
Next Obligation.
  split; unfold add_blocked_leaf, standin_moves, standin_add_blocked; intros w l w';
    [|intros e|intros r|intros r k]; case_bool_decide; by intros [= <- <-] || intros [= <-].
Qed.
Next Obligation.
  split; unfold remove_blocked_leaf, standin_moves, standin_remove_blocked; intros w l w';
    [|intros e|intros r|intros r k]; case_bool_decide; by intros [= <- <-] || intros [= <-].
Qed.
Next Obligation. split; intros w l w'; [intros [= <-]|intros e [=]|intros r [= <- <-]|intros r k [= <- <-]]; done. Qed.
Next Obligation. split; intros w l w'; [intros [= <-]|intros e [=]|intros r [= <- <-]|intros r k [= <- <-]]; done. Qed.
Next Obligation. by intros w l w' r [= <- <-]. Qed.
Next Obligation.
  intros w l w' [= <- Hn] [pid Hp]. apply elem_of_standin_procs in Hp. rewrite Hn in Hp. by apply elem_of_nil in Hp.
Qed.
Next Obligation. by intros w l w' r k [= <- <-]. Qed.
Next Obligation.
  intros w pid l w' r. unfold migrate, standin_moves, standin_migrate.
  case_bool_decide; [by intros [= <- <-]|]. destruct (placed w !! pid); by intros [= <- <-].
Qed.
Next Obligation.
  intros w pid l w' r k. unfold migrate, standin_moves, standin_migrate.
  case_bool_decide; [by intros [= <- <-]|]. destruct (placed w !! pid); intros [= <- <-]; [|done].
  intros Hk Hn [q Hq]. cbn in Hq. apply lookup_insert_Some in Hq as [[_ ->]|[_ Hq]]; [done|]. apply Hn. by exists q.
Qed.
Next Obligation. by intros w pid w' r [= <- <-]. Qed.

(** ** Blocking and lifting the block *)

Definition pids_in (w : StandinMoves) (leaf : string) : gset Z := list_to_set (standin_procs w leaf).

Lemma elem_of_pids_in w leaf pid : pid ∈ pids_in w leaf <-> placed w !! pid = Some leaf.
Proof. unfold pids_in. rewrite elem_of_list_to_set. apply elem_of_standin_procs. Qed.

Lemma migrate_placed w pid to :
  refused w = ∅ -> is_Some (placed w !! pid) -> standin_migrate w pid to = (set_placed (<[pid := to]> (placed w)) w, inl ()).
Proof. intros Hr [l Hl]. unfold standin_migrate. rewrite Hr, Hl. by rewrite bool_decide_eq_false_2 by set_solver. Qed.

Lemma migrate_all_placed pids to w taken :
  refused w = ∅ -> (forall pid, pid ∈ pids -> is_Some (placed w !! pid)) ->
  exists p, migrate_all pids to w taken = (set_placed p w, list_to_set pids ∪ taken, inl ()) /\
    forall q, p !! q = if bool_decide (q ∈ pids) then Some to else placed w !! q.
Proof.
  intros Hr. revert w taken Hr. induction pids as [|pid pids IH]; intros w taken Hr Hp.
  { exists (placed w). split; [|done]. simpl. rewrite (left_id_L ∅ (∪)). by destruct w. }
  cbn [migrate_all]. unfold migrate at 1, standin_moves at 1.
  rewrite migrate_placed by (done || apply Hp; left). cbn [fst snd].
  destruct (IH (set_placed (<[pid := to]> (placed w)) w) ({[pid]} ∪ taken) Hr) as (p & E & Hq).
  { intros q Hin. cbn. destruct (decide (q = pid)) as [->|]; [by rewrite lookup_insert_eq|].
    rewrite lookup_insert_ne by done. apply Hp. by right. }
  exists p. split.
  - etransitivity; [exact E|]. f_equal. f_equal. simpl. set_solver.
  - intros q. rewrite Hq. cbn. destruct (decide (q = pid)) as [->|Hne].
    + rewrite lookup_insert_eq. rewrite (bool_decide_eq_true_2 (pid ∈ pid :: pids)) by left. by case_bool_decide.
    + rewrite lookup_insert_ne by done. rewrite (bool_decide_ext (q ∈ pid :: pids) (q ∈ pids)) by set_solver. done.
Qed.

(** Emptying one leaf into another. *)
Definition rehome (h to l : string) : string := if bool_decide (l = h) then to else l.

Lemma standin_procs_nil w leaf : standin_procs w leaf = [] <-> forall pid, placed w !! pid <> Some leaf.
Proof.
  split.
  - intros E pid Hp. apply elem_of_standin_procs in Hp. rewrite E in Hp. by apply elem_of_nil in Hp.
  - intros Hn. destruct (standin_procs w leaf) as [|pid l] eqn:E; [done|]. exfalso. apply (Hn pid).
    apply elem_of_standin_procs. rewrite E. left.
Qed.

Lemma move_passes_placed n home leaf w taken :
  refused w = ∅ -> home <> leaf ->
  exists p, move_passes (S n) home leaf w taken = (set_placed p w, pids_in w home ∪ taken, inl ()) /\
    forall q, p !! q = rehome home leaf <$> placed w !! q.
Proof.
  intros Hr Hne. cbn [move_passes procs standin_moves]. case_bool_decide as Hp.
  { exists (placed w). split.
    - unfold pids_in. rewrite Hp. simpl. rewrite (left_id_L ∅ (∪)). by destruct w.
    - intros q. destruct (placed w !! q) as [l|] eqn:E; [|done]. simpl. unfold rehome.
      rewrite bool_decide_eq_false_2; [done|]. intros ->. by apply (proj1 (standin_procs_nil w home) Hp q). }
  destruct (migrate_all_placed (standin_procs w home) leaf w taken Hr) as (p & -> & Hq).
  { intros pid Hin. apply elem_of_standin_procs in Hin. eauto. }
  exists p. assert (Hq' : forall q, p !! q = rehome home leaf <$> placed w !! q).
  { intros q. rewrite Hq. case_bool_decide as Hin.
    - apply elem_of_standin_procs in Hin. rewrite Hin. simpl. unfold rehome. by rewrite bool_decide_eq_true_2.
    - rewrite elem_of_standin_procs in Hin. destruct (placed w !! q) as [l|]; [|done]. simpl. unfold rehome.
      rewrite bool_decide_eq_false_2 by congruence. done. }
  split; [|exact Hq']. assert (Hnil : standin_procs (set_placed p w) home = []).
  { apply standin_procs_nil. intros q. cbn. rewrite Hq'. destruct (placed w !! q) as [l|]; [|done]. simpl.
    unfold rehome. case_bool_decide; congruence. }
  destruct n as [|n]; cbn [move_passes procs standin_moves]; by rewrite Hnil.
Qed.

(** The set changes leave the tree of processes alone. *)
Definition same_tree (w w' : StandinMoves) : Prop :=
  placed w' = placed w /\ refused w' = refused w /\ unlistable w' = unlistable w.

#[global] Instance same_tree_preorder : PreOrder same_tree.
Proof. split; [by intros ?|]. intros w1 w2 w3 (? & ? & ?) (? & ? & ?). split; [|split]; congruence. Qed.

Definition tree_change (change : StandinMoves -> string -> StandinMoves * (unit + IoError)) : Prop :=
  forall w l, same_tree w (change w l).1.

Lemma drop_stale_tree remove stale w book :
  tree_change remove -> same_tree w (drop_stale remove stale w book).1.
Proof.
  intros Hc. revert w book. induction stale as [|[id l] stale IH]; intros w book; cbn [drop_stale]; [done|].
  pose proof (Hc w l) as H1. destruct (remove w l) as [w1 [?|e]]; [by etrans|]. destruct (negb _); by etrans.
Qed.

Lemma add_missing_tree add want w book r :
  tree_change add -> (forall w l, unlistable w = ∅ -> (add w l).2 = inl ()) -> unlistable w = ∅ ->
  same_tree w (add_missing add want w book r).1.1 /\ (add_missing add want w book r).2 = r.
Proof.
  intros Hc Hok. revert w book. induction want as [|[id l] want IH]; intros w book Hu; cbn [add_missing]; [done|].
  case_bool_decide; [by apply IH|]. pose proof (Hc w l) as H1. pose proof (Hok w l Hu) as H2.
  destruct (add w l) as [w1 r1]. simpl in *. subst r1.
  destruct (IH w1 (<[id := l]> book)) as [H3 H4]; [destruct H1 as (_ & _ & ->); done|]. split; [by etrans|done].
Qed.

Lemma sync_book_tree add remove want w book :
  tree_change add -> tree_change remove -> (forall w l, unlistable w = ∅ -> (add w l).2 = inl ()) -> unlistable w = ∅ ->
  exists w' book', sync_book add remove want w book = (w', book', None) /\ same_tree w w'.
Proof.
  intros Ha Hr Hok Hu. unfold sync_book. set (stale := List.filter _ _).
  pose proof (drop_stale_tree remove stale w book Hr) as H1. destruct (drop_stale remove stale w book) as [w1 b1]. simpl in H1.
  destruct (add_missing_tree add (btree_iter want) w1 b1 None Ha Hok) as [H2 H3]; [destruct H1 as (_ & _ & ->); done|].
  destruct (add_missing add (btree_iter want) w1 b1 None) as [[w2 b2] r2]. simpl in *. subst r2.
  exists w2, b2. split; [done|by etrans].
Qed.

Lemma syncs_tree c w :
  unlistable w = ∅ ->
  exists b1 b2 w1 w2, sync_leaf_set c w = (set_listed b1 c, w1, inl ()) /\
    sync_lane_set (set_listed b1 c) w1 = (set_lane_listed b2 (set_listed b1 c), w2) /\ same_tree w w2.
Proof.
  intros Hu. unfold sync_leaf_set, sync_lane_set.
  destruct (sync_book_tree add_blocked_leaf remove_blocked_leaf (if blocked c then homes c else ∅) w (listed c))
    as (w1 & b1 & -> & H1); [|  | |done|].
  { intros x l. unfold add_blocked_leaf, standin_moves, standin_add_blocked. by case_bool_decide. }
  { intros x l. unfold remove_blocked_leaf, standin_moves, standin_remove_blocked. by case_bool_decide. }
  { intros x l E. unfold add_blocked_leaf, standin_moves, standin_add_blocked. rewrite E. by rewrite bool_decide_eq_false_2 by set_solver. }
  destruct (sync_book_tree add_lane_leaf remove_lane_leaf (filter (fun e => e.1 ∈ lanes c) (homes c)) w1 (lane_listed c))
    as (w2 & b2 & E2 & H2); [done..|destruct H1 as (_ & _ & ->); done|].
  exists b1, b2, w1, w2. split; [done|]. cbn [lanes homes lane_listed set_listed]. rewrite E2. split; [done|]. by etrans.
Qed.

(** ** Emptying the boxes into the blocked leaf *)

Definition movable (c : CohortQuic443) (id h : string) : Prop := homes c !! id = Some h /\ id ∉ lanes c.

Definition moves_from (c : CohortQuic443) (ids : list string) (l : string) : Prop :=
  exists id, id ∈ ids /\ movable c id l.

#[global] Instance movable_dec c id h : Decision (movable c id h).
Proof. unfold movable. apply _. Defined.

#[global] Instance moves_from_dec c ids l : Decision (moves_from c ids l).
Proof.
  destruct (decide (Exists (fun id => movable c id l) ids)) as [He|He]; [left|right].
  - by apply list.Exists_exists in He.
  - intros Hm. apply He, list.Exists_exists. exact Hm.
Defined.

(** No two boxes share a leaf, and none is at home in the blocked leaf. *)
Definition apart (c : CohortQuic443) (leaf : string) : Prop :=
  (forall id, homes c !! id <> Some leaf) /\
  (forall id id' h, homes c !! id = Some h -> homes c !! id' = Some h -> id = id').

(** The processes of every box of [ids] that moves are in [leaf] and are
    recorded under it in [m]; the others are where they were. *)
Record moved_out (c : CohortQuic443) (w : StandinMoves) (leaf : string) (ids : list string)
    (m : gmap string (gset Z)) (p : gmap Z string) : Prop := {
  mo_out : forall q l, placed w !! q = Some l -> moves_from c ids l -> p !! q = Some leaf;
  mo_stay : forall q l, placed w !! q = Some l -> ~ moves_from c ids l -> p !! q = Some l;
  mo_none : forall q, placed w !! q = None -> p !! q = None;
  mo_pids : forall id h, id ∈ ids -> movable c id h -> m !! id = Some (pids_in w h ∪ default ∅ (moved c !! id));
  mo_rest : forall id, id ∉ ids \/ (forall h, ~ movable c id h) -> m !! id = moved c !! id;
}.

Lemma moved_out_skip c w leaf id ids m p :
  (forall h, ~ movable c id h) -> moved_out c w leaf ids m p -> moved_out c w leaf (id :: ids) m p.
Proof.
  intros Hn [H1 H2 H3 H4 H5].
  assert (Hmf : forall l, moves_from c (id :: ids) l <-> moves_from c ids l).
  { intros l. split; intros (i & Hi & Hm); [|exists i; by split; [right|]].
    apply elem_of_cons in Hi as [->|Hi]; [by apply Hn in Hm|by exists i]. }
  split.
  - intros q l Hq Hm. apply (H1 q l); [done|by apply Hmf].
  - intros q l Hq Hm. apply H2; [done|by rewrite <- Hmf].
  - done.
  - intros i h Hi Hm. apply elem_of_cons in Hi as [->|Hi]; [by apply Hn in Hm|by apply H4].
  - intros i Hi. apply H5. destruct (decide (i = id)) as [->|]; [by right|set_solver].
Qed.

(** One box emptied first. *)
Lemma moved_out_step c w leaf id h ids m p1 p taken :
  apart c leaf -> id ∉ ids -> movable c id h -> taken = pids_in w h ∪ default ∅ (moved c !! id) ->
  (forall q, p1 !! q = rehome h leaf <$> placed w !! q) ->
  moved_out (set_moved (<[id := taken]> (moved c)) c) (set_placed p1 w) leaf ids m p ->
  moved_out c w leaf (id :: ids) m p.
Proof.
  intros [Hb Hinj] Hid Hm -> Hp1 [H1 H2 H3 H4 H5]. cbn [placed set_placed homes lanes moved set_moved] in *.
  assert (Hmf : forall i l, movable c i l -> l <> leaf) by (intros i l [Hl _] ->; by eapply Hb).
  assert (Hh : forall l, moves_from c ids l -> l <> h).
  { intros l (i & Hi & Hmi) ->. assert (i = id) as -> by (eapply Hinj; [apply Hmi|apply Hm]). done. }
  assert (Hstay : forall q l, placed w !! q = Some l -> l <> h -> p1 !! q = Some l).
  { intros q l Hq Hne. rewrite Hp1, Hq. simpl. unfold rehome. by rewrite bool_decide_eq_false_2. }
  split.
  - intros q l Hq (i & Hi & Hmi). apply elem_of_cons in Hi as [->|Hi].
    + assert (l = h) as -> by (destruct Hmi, Hm; congruence). apply H2.
      * rewrite Hp1, Hq. simpl. unfold rehome. by rewrite bool_decide_eq_true_2.
      * intros (j & _ & Hmj). by eapply Hmf.
    + apply (H1 q l); [|by exists i]. apply Hstay; [done|]. apply Hh. by exists i.
  - intros q l Hq Hn. apply H2.
    + apply Hstay; [done|]. intros ->. apply Hn. exists id. split; [left|done].
    + intros (i & Hi & Hmi). apply Hn. exists i. split; [by right|done].
  - intros q Hq. apply H3. by rewrite Hp1, Hq.
  - intros i l Hi Hmi. apply elem_of_cons in Hi as [->|Hi].
    + rewrite H5 by (by left). rewrite lookup_insert_eq. by assert (l = h) as -> by (destruct Hmi, Hm; congruence).
    + assert (Hne : i <> id) by (by intros ->). rewrite (H4 i l Hi Hmi), lookup_insert_ne by done. do 2 f_equal.
      apply set_eq. intros q. rewrite !elem_of_pids_in. cbn [placed set_placed]. rewrite Hp1.
      assert (Hlh : l <> h) by (apply Hh; by exists i). assert (Hll : l <> leaf) by (by eapply Hmf).
      destruct (placed w !! q) as [x|]; [|done]. simpl. unfold rehome. case_bool_decide; naive_solver.
  - intros i Hi. assert (Hne : i <> id) by (intros ->; destruct Hi as [Hi|Hi]; [apply Hi; left|by eapply Hi]).
    rewrite H5, lookup_insert_ne; [done|done|]. destruct Hi; [left; set_solver|by right].
Qed.

Lemma move_all_in_placed ids c w leaf :
  refused w = ∅ -> blocked_leaf c = Some leaf -> apart c leaf -> NoDup ids ->
  exists m p, move_all_in ids c w = (set_moved m c, set_placed p w, inl ()) /\ moved_out c w leaf ids m p.
Proof.
  intros Hr Hb Hap Hnd. revert c w Hr Hb Hap. induction Hnd as [|id ids Hid Hnd IH]; intros c w Hr Hb Hap.
  { exists (moved c), (placed w). cbn [move_all_in]. split; [by destruct c, w|].
    split; try done; [intros q l _ (i & Hi & _)|intros i h Hi]; by apply elem_of_nil in Hi. }
  cbn [move_all_in]. destruct (homes c !! id) as [h|] eqn:Hh; [destruct (decide (id ∈ lanes c)) as [Hl|Hl]|].
  - assert (E : move_in c w id = (c, w, inl ())) by (unfold move_in; rewrite Hh; by rewrite bool_decide_eq_true_2).
    rewrite E. destruct (IH c w Hr Hb Hap) as (m & p & -> & Ho). exists m, p. split; [done|].
    apply moved_out_skip; [by intros ? []|done].
  - assert (Hne : h <> leaf) by (intros ->; by eapply (proj1 Hap)).
    destruct (move_passes_placed 7 h leaf w (default ∅ (moved c !! id)) Hr Hne) as (p1 & Ep & Hp1).
    assert (E : move_in c w id = (set_moved (<[id := pids_in w h ∪ default ∅ (moved c !! id)]> (moved c)) c, set_placed p1 w, inl ())).
    { unfold move_in. rewrite Hh, Hb, bool_decide_eq_false_2 by done. change COHORT_MOVE_PASSES with 8%nat. by rewrite Ep. }
    rewrite E. destruct (IH (set_moved (<[id := pids_in w h ∪ default ∅ (moved c !! id)]> (moved c)) c) (set_placed p1 w) Hr Hb Hap)
      as (m & p & -> & Ho). exists m, p. split; [done|]. by eapply moved_out_step.
  - assert (E : move_in c w id = (c, w, inl ())) by (unfold move_in; by rewrite Hh).
    rewrite E. destruct (IH c w Hr Hb Hap) as (m & p & -> & Ho). exists m, p. split; [done|].
    apply moved_out_skip; [intros ? []; congruence|done].
Qed.

(** ** Sending the processes home *)

(** The one box a moved process is recorded under. *)
Definition recorded_under (m : gmap string (gset Z)) (pid : Z) (id : string) : Prop :=
  (exists s, m !! id = Some s /\ pid ∈ s) /\ (forall id' s, m !! id' = Some s -> pid ∈ s -> id' = id).

Lemma owner_recorded c (w : StandinMoves) pid id :
  recorded_under (moved c) pid id -> owner_of c w pid = (w, Some id).
Proof.
  intros [(s & Hs & Hin) Huniq]. unfold owner_of. change COHORT_OWNER_DEPTH with (S 63). cbn [owner_within].
  destruct (List.find _ (btree_iter (moved c))) as [[id' s']|] eqn:E.
  - apply find_some in E as [Hx Hy]. apply list_elem_of_In, elem_of_btree_iter in Hx. apply bool_decide_eq_true in Hy.
    by rewrite (Huniq _ _ Hx Hy).
  - exfalso. eapply find_none in E; [|by apply list_elem_of_In, elem_of_btree_iter].
    by rewrite bool_decide_eq_true_2 in E.
Qed.

(** [dest] says where each process of [pids] goes: the home of its box. *)
Definition bound_for (c : CohortQuic443) (dest : Z -> option string) (pids : list Z) : Prop :=
  forall pid, pid ∈ pids -> exists id, recorded_under (moved c) pid id /\ homes c !! id = dest pid.

Lemma send_home_placed c dest pids w any :
  refused w = ∅ -> bound_for c dest pids -> (forall pid, pid ∈ pids -> is_Some (placed w !! pid)) ->
  exists p, send_home c pids w any = (set_placed p w, any || existsb (fun q => bool_decide (is_Some (dest q))) pids) /\
    forall q, p !! q = if bool_decide (q ∈ pids) then (match dest q with Some h => Some h | None => placed w !! q end)
                       else placed w !! q.
Proof.
  revert w any. induction pids as [|pid pids IH]; intros w any Hr Hb Hp.
  { exists (placed w). cbn [send_home existsb]. rewrite orb_false_r. split; [by destruct w|done]. }
  cbn [send_home existsb]. destruct (Hb pid) as (id & Hrec & Hdest); [left|]. rewrite (owner_recorded _ _ _ _ Hrec). simpl.
  rewrite Hdest. assert (Hb' : bound_for c dest pids) by (intros q Hq; apply Hb; by right).
  assert (Hne : forall q, q <> pid -> bool_decide (q ∈ pid :: pids) = bool_decide (q ∈ pids))
    by (intros q Hq; apply bool_decide_ext; set_solver).
  destruct (dest pid) as [h|] eqn:Ed.
  - rewrite migrate_placed by (done || apply Hp; left). simpl.
    destruct (IH (set_placed (<[pid := h]> (placed w)) w) true Hr Hb') as (p & -> & Hq).
    { intros q Hq. cbn. destruct (decide (q = pid)) as [->|]; [by rewrite lookup_insert_eq|].
      rewrite lookup_insert_ne by done. apply Hp. by right. }
    exists p. split; [by rewrite orb_true_r|]. intros q. rewrite Hq. cbn [placed set_placed].
    destruct (decide (q = pid)) as [->|Hqp]; [|by rewrite Hne, lookup_insert_ne].
    rewrite lookup_insert_eq, Ed. rewrite (bool_decide_eq_true_2 (pid ∈ pid :: pids)) by left. by case_bool_decide.
  - destruct (IH w any Hr Hb') as (p & -> & Hq); [intros q Hq; apply Hp; by right|].
    exists p. split; [done|]. intros q. rewrite Hq. destruct (decide (q = pid)) as [->|Hqp]; [|by rewrite Hne].
    rewrite Ed. by repeat case_bool_decide.
Qed.

Lemma set_placed_same p w : (forall q, p !! q = placed w !! q) -> set_placed p w = w.
Proof. intros Hq. apply map_eq in Hq. subst p. by destruct w. Qed.

Lemma home_passes_stable n c dest leaf w :
  refused w = ∅ -> bound_for c dest (standin_procs w leaf) -> (forall q, placed w !! q = Some leaf -> dest q = None) ->
  home_passes n c leaf w = w.
Proof.
  intros Hr Hb Hd. destruct n as [|n]; cbn [home_passes procs standin_moves]; [done|].
  destruct (send_home_placed c dest (standin_procs w leaf) w false Hr Hb) as (p & -> & Hq).
  { intros pid Hin. apply elem_of_standin_procs in Hin. eauto. }
  simpl. replace (existsb _ _) with false; cbv iota.
  - apply set_placed_same. intros q. rewrite Hq. case_bool_decide as Hin; [|done].
    by rewrite Hd by (by apply elem_of_standin_procs).
  - symmetry. apply not_true_iff_false. rewrite existsb_exists. intros (q & Hin%list_elem_of_In & Hx).
    apply bool_decide_eq_true in Hx as [h Hh]. rewrite Hd in Hh; [done|]. by apply elem_of_standin_procs.
Qed.

(** Every process in the blocked leaf whose box has a home goes there. *)
Lemma home_passes_placed n c dest leaf w :
  refused w = ∅ -> bound_for c dest (standin_procs w leaf) -> (forall q, dest q <> Some leaf) ->
  forall q, placed (home_passes (S n) c leaf w) !! q =
    if bool_decide (placed w !! q = Some leaf) then Some (default leaf (dest q)) else placed w !! q.
Proof.
  intros Hr Hb Hd. cbn [home_passes procs standin_moves].
  destruct (send_home_placed c dest (standin_procs w leaf) w false Hr Hb) as (p & -> & Hq).
  { intros pid Hin. apply elem_of_standin_procs in Hin. eauto. }
  assert (Hp : forall q, p !! q = if bool_decide (placed w !! q = Some leaf) then Some (default leaf (dest q)) else placed w !! q).
  { intros q. rewrite Hq. rewrite (bool_decide_ext (q ∈ standin_procs w leaf) (placed w !! q = Some leaf)) by apply elem_of_standin_procs.
    case_bool_decide as E; [|done]. rewrite E. by destruct (dest q). }
  assert (Hleft : forall q, p !! q = Some leaf -> placed w !! q = Some leaf /\ dest q = None).
  { intros q. rewrite Hp. case_bool_decide as E; [|done]. intros [= Hx]. split; [done|].
    destruct (dest q) as [h|] eqn:Ed; [|done]. simpl in Hx. subst h. by apply Hd in Ed. }
  intros q. cbn [orb]. destruct (existsb _ _); [|exact (Hp q)].
  rewrite (home_passes_stable n c dest leaf (set_placed p w)); [exact (Hp q)|done| |].
  - intros pid Hin. apply Hb. apply elem_of_standin_procs in Hin. apply elem_of_standin_procs. by apply Hleft.
  - intros x Hx. by apply Hleft.
Qed.

Lemma btree_keys_NoDup {A} (m : gmap string A) : NoDup (btree_iter m).*1.
Proof. rewrite btree_iter_perm. apply NoDup_fst_map_to_list. Qed.

Lemma blocked_enrol c id home lane : blocked (enrol c id home true lane) = true.
Proof. apply blocked_spec. exists id. cbn. apply lookup_insert_eq. Qed.

(** The cohort turned blocked by one box: where the processes are. *)
Lemma admit_blocker_placed c w id home lane leaf :
  refused w = ∅ -> unlistable w = ∅ -> blocked c = false -> blocked_leaf c = Some leaf ->
  let e := enrol c id (Some home) true lane in
  apart e leaf ->
  exists b1 b2 m w1, admit_with_lane c w id (Some home) true lane = (set_moved m (set_lane_listed b2 (set_listed b1 e)), w1, inl ()) /\
    refused w1 = ∅ /\ unlistable w1 = ∅ /\ moved_out e w leaf (btree_iter (homes e)).*1 m (placed w1).
Proof.
  intros Hr Hu Hbl Hleaf e Hap. unfold admit_with_lane. assert (Hbe : blocked e = true) by apply blocked_enrol.
  fold e. rewrite Hbl, Hbe.
  destruct (syncs_tree e w Hu) as (b1 & b2 & w1 & w2 & -> & -> & Ht). cbn [negb].
  set (s := set_lane_listed b2 (set_listed b1 e)). destruct Ht as (T1 & T2 & T3).
  destruct (move_all_in_placed (btree_iter (homes s)).*1 s w2 leaf) as (m & p & -> & Ho);
    [by rewrite T2|done|exact Hap|apply btree_keys_NoDup|].
  exists b1, b2, m, (set_placed p w2). split; [done|]. split; [by rewrite <- T2 in Hr|]. split; [by rewrite <- T3 in Hu|].
  destruct Ho as [H1 H2 H3 H4 H5]. rewrite T1 in H1, H2, H3. split; [exact H1|exact H2|exact H3| |exact H5].
  intros i h Hi Hm. rewrite (H4 i h Hi Hm). unfold pids_in, standin_procs. by rewrite T1.
Qed.

(** What a box's departure sends its neighbours home by: each moved process
    is bound for the leaf it came from. *)
Definition came_from (w : StandinMoves) (home : string) (q : Z) : option string :=
  match placed w !! q with Some l => if bool_decide (l = home) then None else Some l | None => None end.

Lemma moved_out_bound e w leaf m id home pids c :
  apart e leaf -> moved e = ∅ -> homes e !! id = Some home -> ~ standin_populated w leaf ->
  forall p, moved_out e w leaf (btree_iter (homes e)).*1 m p ->
  (forall q, q ∈ pids -> p !! q = Some leaf) -> moved c = m -> homes c = delete id (homes e) ->
  bound_for c (came_from w home) pids.
Proof.
  intros [_ Hinj] Hm0 Hid Hnp p [H1 H2 H3 H4 H5] Hpids Hmc Hhc q Hq. specialize (Hpids q Hq).
  destruct (placed w !! q) as [l|] eqn:El; [|by rewrite H3 in Hpids].
  destruct (decide (moves_from e (btree_iter (homes e)).*1 l)) as [(i & Hi & Hmi)|Hn].
  2: { rewrite (H2 q l El Hn) in Hpids. injection Hpids as ->. destruct Hnp. by exists q. }
  exists i. split; [split|].
  - exists (pids_in w l ∪ default ∅ (moved e !! i)). rewrite Hmc. split; [by apply H4|].
    apply elem_of_union_l. by apply elem_of_pids_in.
  - intros i' s Hs Hqs. rewrite Hmc in Hs.
    destruct (homes e !! i') as [h'|] eqn:Eh'; [destruct (decide (i' ∈ lanes e)) as [Hl|Hl]|].
    1,3: rewrite H5, Hm0 in Hs by (right; intros h [? ?]; congruence || done); done.
    rewrite (H4 i' h'), Hm0 in Hs; [|apply elem_of_btree_keys; eauto|done]. injection Hs as <-.
    rewrite lookup_empty in Hqs. simpl in Hqs. rewrite (right_id_L ∅ (∪)) in Hqs. apply elem_of_pids_in in Hqs.
    apply (Hinj i' i l); [congruence|apply Hmi].
  - rewrite Hhc. unfold came_from. rewrite El. case_bool_decide as Hl.
    + subst l. assert (i = id) as -> by (apply (Hinj i id home); [apply Hmi|done]). apply lookup_delete_eq.
    + rewrite lookup_delete_ne; [apply Hmi|]. intros ->. destruct Hmi. congruence.
Qed.

(** Lifting a block undoes it.  When a box with a blocking stance joins
    a cohort that did not block and later departs, every process of the
    other boxes that had been moved into the blocked leaf is back in the
    leaf it was in, no process is lost or gained, and the cohort no longer
    blocks nor remembers a moved process. *)
Theorem block_then_lift_restores c w id home lane leaf :
  refused w = ∅ -> unlistable w = ∅ -> blocked c = false -> moved c = ∅ -> blocked_leaf c = Some leaf ->
  apart (enrol c id (Some home) true lane) leaf -> ~ standin_populated w leaf ->
  exists c1 w1 c2 w2,
    admit_with_lane c w id (Some home) true lane = (c1, w1, inl ()) /\ depart c1 w1 id = (c2, w2) /\
    (forall i h q, movable c1 i h -> placed w !! q = Some h -> placed w1 !! q = Some leaf) /\
    (forall q l, placed w !! q = Some l -> l <> home -> placed w2 !! q = Some l) /\
    (forall q, placed w2 !! q = None <-> placed w !! q = None) /\
    blocked c2 = false /\ moved c2 = ∅.
Proof.
  intros Hr Hu Hbl Hm0 Hleaf Hap Hnp. set (e := enrol c id (Some home) true lane) in *.
  destruct (admit_blocker_placed c w id home lane leaf Hr Hu Hbl Hleaf Hap) as (b1 & b2 & m & w1 & E & Hr1 & Hu1 & Ho).
  fold e in E, Ho. set (c1 := set_moved m (set_lane_listed b2 (set_listed b1 e))) in *.
  set (d := set_homes (delete id (homes (leave c1 id))) (leave c1 id)).
  destruct (syncs_tree d w1 Hu1) as (d1 & d2 & w2 & w3 & E2 & E3 & T1 & T2 & T3).
  set (c2 := set_lane_listed d2 (set_listed d1 d)) in *.
  assert (Hb2 : blocked c2 = false).
  { apply not_true_iff_false. rewrite blocked_spec. intros [i Hi]. cbn in Hi.
    apply lookup_delete_Some in Hi as [Hne Hi]. rewrite lookup_insert_ne in Hi by done.
    apply not_true_iff_false in Hbl. apply Hbl, blocked_spec. by exists i. }
  assert (Ed : depart c1 w1 id = (set_moved ∅ c2, home_passes COHORT_MOVE_PASSES c2 leaf w3)).
  { unfold depart. rewrite bool_decide_eq_true_2 by (cbn; rewrite lookup_insert_eq; eauto). cbn [negb].
    fold d. rewrite E2, E3. fold c2. assert (Hb1 : blocked c1 = true) by apply blocked_enrol.
    rewrite Hb1, Hb2. simpl. unfold move_all_home. cbn [blocked_leaf c2 set_lane_listed set_listed d set_homes leave set_lanes set_members c1 set_moved e enrol join].
    by rewrite Hleaf. }
  exists c1, w1, (set_moved ∅ c2), (home_passes COHORT_MOVE_PASSES c2 leaf w3).
  split; [exact E|]. split; [exact Ed|].
  assert (Hid : homes e !! id = Some home) by apply lookup_insert_eq.
  assert (Hfin : forall q, placed (home_passes COHORT_MOVE_PASSES c2 leaf w3) !! q =
    if bool_decide (placed w3 !! q = Some leaf) then Some (default leaf (came_from w home q)) else placed w3 !! q).
  { apply home_passes_placed; [by rewrite T2| |].
    - eapply (moved_out_bound e w leaf m id home); [done|exact Hm0|done|done|exact Ho| |done|done].
      intros q Hq. apply elem_of_standin_procs in Hq. by rewrite T1 in Hq.
    - intros q. unfold came_from. destruct (placed w !! q) as [l|] eqn:El; [|done]. case_bool_decide; [done|].
      intros [= ->]. apply Hnp. by exists q. }
  rewrite T1 in Hfin. destruct Ho as [H1 H2 H3 _ _]. split; [|split; [|split; [|done]]].
  - intros i h q Hm Hq. apply (H1 q h Hq). exists i. split; [apply elem_of_btree_keys; exists h; apply Hm|exact Hm].
  - intros q l Hq Hl. rewrite Hfin. destruct (decide (moves_from e (btree_iter (homes e)).*1 l)) as [Hmf|Hmf].
    + rewrite bool_decide_eq_true_2 by (by apply (H1 q l)). unfold came_from. rewrite Hq. by rewrite bool_decide_eq_false_2.
    + rewrite (H2 q l Hq Hmf). rewrite bool_decide_eq_false_2; [done|]. intros [= ->]. apply Hnp. by exists q.
  - intros q. rewrite Hfin. case_bool_decide as Hx; split; try done; [intros Hq; by rewrite H3 in Hx| |by apply H3].
    intros Hn. destruct (placed w !! q) as [l|] eqn:El; [|done].
    destruct (decide (moves_from e (btree_iter (homes e)).*1 l)) as [Hmf|Hmf]; [by rewrite (H1 q l El Hmf) in Hn|].
    by rewrite (H2 q l El Hmf) in Hn.
Qed.

(** ** A sample cohort

    Box "a" holds two processes and no stance; box "b" blocks and holds one;
    the helper can list both leaves. *)
Module CohortSample.

Definition leaf_of : string -> string := cohort_leaf "/t".
Definition blocked_dir : string := quic443_blocked_leaf "/t".

Definition tree : StandinMoves :=
  {| placed := <[10 := leaf_of "a"]> (<[11 := leaf_of "a"]> (<[20 := leaf_of "b"]> ∅));
     parents := <[11 := 10]> ∅; refused := ∅; set_of_listed := ∅; unlistable := ∅; unremovable := ∅;
     lane := ∅; directories := {[blocked_dir; leaf_of "a"; leaf_of "b"]} |}.

Definition with_a : CohortQuic443 * StandinMoves * (unit + CohortPlaceError) :=
  cohort_quic443_admit_over cohort_new tree "/t" "a" false false.
Definition with_b : CohortQuic443 * StandinMoves * (unit + CohortPlaceError) :=
  admit_with_lane with_a.1.1 with_a.1.2 "b" (Some (leaf_of "b")) true false.

Lemma a_reachable : reachable leaf_of kept_id with_a.1.1 with_a.1.2.
Proof.
  eapply (admit_over_reachable "/t" cohort_new tree "a" false false _ _ with_a.2).
  - apply ReachNew.
  - vm_compute; reflexivity.
  - unfold with_a. by destruct (cohort_quic443_admit_over _ _ _ _ _ _) as [[? ?] ?].
Qed.

Lemma b_step :
  admit_with_lane with_a.1.1 with_a.1.2 "b" (Some (leaf_of "b")) true false = (with_b.1.1, with_b.1.2, inl ()).
Proof.
  assert (Hr : with_b.2 = inl ()) by (vm_compute; reflexivity). rewrite <- Hr.
  unfold with_b. by destruct (admit_with_lane _ _ _ _ _ _) as [[? ?] ?].
Qed.

Lemma b_home : home_of leaf_of kept_id "b" (Some (leaf_of "b")).
Proof. right. split; [vm_compute|]; reflexivity. Qed.

Lemma b_reachable : reachable leaf_of kept_id with_b.1.1 with_b.1.2.
Proof. eapply ReachAdmit; [exact a_reachable|exact b_home|exact b_step]. Qed.

Lemma blocked_stance_fails_closed_witness :
  blocked with_b.1.1 = true /\ leaf_of "a" ∈ blocked_set with_b.1.2 /\ ~ populated with_b.1.2 (leaf_of "a").
Proof.
  assert (Hb : blocked with_b.1.1 = true) by (vm_compute; reflexivity).
  destruct (blocked_stance_fails_closed leaf_of kept_id (cohort_leaf_inj "/t") with_a.1.1 with_a.1.2 "b" (Some (leaf_of "b")) true false
    with_b.1.1 with_b.1.2 (inl ()) a_reachable b_home b_step Hb) as [Hlisted Hmoved].
  split; [exact Hb|]. split; [apply (Hlisted "a"); vm_compute; reflexivity|].
  apply (Hmoved "a" (leaf_of "a")); [right; vm_compute; reflexivity|].
  split; [vm_compute; reflexivity|]. split; [by apply (bool_decide_unpack _); vm_compute|vm_compute; discriminate].
Defined.

Lemma books_match_sets_witness :
  listed with_b.1.1 !! "a" = Some (leaf_of "a") /\ leaf_of "a" ∈ blocked_set with_b.1.2.
Proof.
  assert (Hl : listed with_b.1.1 !! "a" = Some (leaf_of "a")) by (vm_compute; reflexivity).
  split; [exact Hl|].
  by destruct (proj1 (books_match_sets leaf_of kept_id (cohort_leaf_inj "/t") with_b.1.1 with_b.1.2 b_reachable) "a" _ Hl)
    as (_ & ? & _).
Defined.

Lemma block_then_lift_restores_witness :
  exists c1 w1 c2 w2,
    admit_with_lane with_a.1.1 with_a.1.2 "b" (Some (leaf_of "b")) true false = (c1, w1, inl ()) /\
    depart c1 w1 "b" = (c2, w2) /\ placed w1 !! 11 = Some blocked_dir /\ placed w2 !! 11 = Some (leaf_of "a").
Proof.
  destruct (block_then_lift_restores with_a.1.1 with_a.1.2 "b" (leaf_of "b") false blocked_dir)
    as (c1 & w1 & c2 & w2 & E1 & E2 & Hout & Hback & _).
  1-5: vm_compute; reflexivity.
  - assert (Hh : homes (enrol with_a.1.1 "b" (Some (leaf_of "b")) true false) =
      <["b" := leaf_of "b"]> (<["a" := leaf_of "a"]> ∅)) by (vm_compute; reflexivity).
    assert (Hown : forall id h, homes (enrol with_a.1.1 "b" (Some (leaf_of "b")) true false) !! id = Some h -> h = leaf_of id).
    { rewrite Hh. intros id h [[<- <-]|[_ Hl]]%lookup_insert_Some; [done|].
      by apply lookup_insert_Some in Hl as [[<- <-]|[_ Hl]]. }
    split.
    + intros id Hid%Hown. discriminate.
    + assert (Hkept : forall id, is_Some (homes (enrol with_a.1.1 "b" (Some (leaf_of "b")) true false) !! id) -> kept_id id).
      { rewrite Hh. intros id [h [[<- _]|[_ Hl]]%lookup_insert_Some]; [vm_compute; reflexivity|].
        apply lookup_insert_Some in Hl as [[<- _]|[_ Hl]]; [vm_compute; reflexivity|done]. }
      intros id id' h H1 H2. apply (cohort_leaf_inj "/t"); [apply Hkept; eauto..|].
      apply Hown in H1, H2. unfold leaf_of in *. congruence.
  - intros [q Hq]. apply elem_of_standin_procs in Hq. assert (Hn : standin_procs with_a.1.2 blocked_dir = []) by (vm_compute; reflexivity).
    rewrite Hn in Hq. by apply elem_of_nil in Hq.
  - exists c1, w1, c2, w2. split; [exact E1|]. split; [exact E2|].
    assert (Hc1 : c1 = with_b.1.1) by (rewrite b_step in E1; congruence).
    split; [apply (Hout "a" (leaf_of "a")); [rewrite Hc1|]|apply Hback].
    + split; [vm_compute; reflexivity|by apply (bool_decide_unpack _); vm_compute].
    + vm_compute; reflexivity.
    + vm_compute; reflexivity.
    + vm_compute; discriminate.
Defined.

End CohortSample.
