(* ===== verification/Expansion.v ===== *)
(** * Patch source expansion (crates/boxes/src/core/expansion.rs)

    How the pattern of a patch source or of a policy rule is expanded: the
    tilde prefix, [$VAR] references, the escaping of substituted values, and
    the normalisation that rejects parent components.  Strings are their
    UTF-8 bytes: every character the code tests for is ASCII, so a character
    copied whole and its bytes copied one by one are the same text. *)

From stdpp Require Import base list sets strings numbers.
From Stdlib Require Import ZArith Lia Ascii String.
From S2P Require Import Prelude Text Classifier.
Open Scope nat_scope.
#[local] Close Scope Z_scope.

Definition LOADOUT_ROOT : string := "LOADOUT_ROOT".

Record Anchors : Type := {
  an_home : option string;
  an_loadout_root : option string;
  an_project_root : option string;
}.

(** [Anchors::home], [with_loadout_root] and [with_project_root]. *)
Definition anchors_home (home : option string) : Anchors :=
  {| an_home := home; an_loadout_root := None; an_project_root := None |}.
Definition with_loadout_root (a : Anchors) (root : option string) : Anchors :=
  {| an_home := an_home a; an_loadout_root := root; an_project_root := an_project_root a |}.
Definition with_project_root (a : Anchors) (root : option string) : Anchors :=
  {| an_home := an_home a; an_loadout_root := an_loadout_root a; an_project_root := root |}.

Inductive ExpandError : Type :=
| MalformedSyntax (at_ : nat) (reason : string)
| UndefinedVar (name : string)
| PostExpansionInvalid (pattern : string)
| PathTraversal (pattern : string)
| NotAbsolute (pattern : string)
| UnsupportedTildeUser (pattern : string)
| LoadoutRootUnavailable (pattern : string).

Inductive RequireAbsolute : Type := AbsYes | AbsNo.
Definition require_yes (r : RequireAbsolute) : bool := match r with AbsYes => true | AbsNo => false end.

(** A [FileSet] is its pattern, once globset accepts it. *)
Definition FileSet : Type := string.

(** [VarLookup for [ResolvedVar]]: the first variable of that name. *)
Fixpoint lookup_var (vars : list (string * string)) (name : string) : option string :=
  match vars with
  | [] => None
  | (n, v) :: vars => if bool_decide (n = name) then Some v else lookup_var vars name
  end.

(** [escape_glob_metas]. *)
Definition is_escaped_meta (c : ascii) : bool :=
  existsb (Ascii.eqb c) ["*"; "?"; "["; "]"; "{"; "}"; ","]%char.
Definition BACKSLASH : ascii := ascii_of_nat 92.
Definition escape_char (c : ascii) : string :=
  if is_escaped_meta c then String "["%char (String c (String "]"%char EmptyString))
  else if Ascii.eqb c BACKSLASH then String BACKSLASH (String BACKSLASH EmptyString)
  else String c EmptyString.
Fixpoint escape_glob_metas (value : string) : string :=
  match value with
  | EmptyString => EmptyString
  | String c value => (escape_char c ++ escape_glob_metas value)%string
  end.

(** [literal_policy_pattern]. *)
Definition literal_policy_pattern (path : string) : string :=
  join_strings "$$" (map escape_glob_metas (str_split "$"%char path)).

(** [is_name_byte] and [validate_strict_var_name] ([Some]: the reason). *)
Definition is_name_byte (c : ascii) : bool := is_ascii_alphanumeric c || Ascii.eqb c "_"%char.
Definition is_ascii_uppercase (c : ascii) : bool :=
  let n := nat_of_ascii c in bool_decide (65 <= n <= 90).
Definition validate_strict_var_name (name : string) : option string :=
  match name with
  | EmptyString => Some "empty variable name"%string
  | String first rest =>
      if negb (is_ascii_uppercase first || Ascii.eqb first "_"%char)
      then Some "variable name must start with uppercase letter or `_`"%string
      else if negb (str_all (fun c => is_ascii_uppercase c || is_ascii_digit c || Ascii.eqb c "_"%char) rest)
      then Some "variable name contains a non-POSIX character"%string
      else None
  end.

Fixpoint take_name (s : string) : string :=
  match s with
  | String c s => if is_name_byte c then String c (take_name s) else EmptyString
  | EmptyString => EmptyString
  end.
Fixpoint until_brace (s : string) : option string :=
  match s with
  | EmptyString => None
  | String c s =>
      if Ascii.eqb c "}"%char then Some EmptyString
      else match until_brace s with Some n => Some (String c n) | None => None end
  end.

(** [parse_var_ref]: the name and the bytes consumed, the dollar included;
    [after] is the text behind the dollar at byte [at_]. *)
Definition parse_var_ref (at_ : nat) (after : string) : (string * nat) + ExpandError :=
  let checked (braced : bool) (name : string) (total : nat) :=
    if bool_decide (name = EmptyString) then
      inr (MalformedSyntax at_ (if braced then "empty `${}` reference" else "`$` not followed by a valid identifier"))
    else
      match validate_strict_var_name name with
      | Some reason => inr (MalformedSyntax at_ reason)
      | None => inl (name, total)
      end in
  match after with
  | String "{"%char rest =>
      match until_brace rest with
      | None => inr (MalformedSyntax at_ "unterminated `${`")
      | Some name => checked true name (String.length name + 3)
      end
  | _ => let name := take_name after in checked false name (String.length name + 1)
  end.

(** What one expansion accumulates: the pattern, the real path, and whether
    the raw text has active glob syntax. *)
Record Expanded : Type := { ex_out : string; ex_unescaped : string; ex_glob : bool }.
Definition push (o u : string) (g : bool) (e : Expanded) : Expanded :=
  {| ex_out := (o ++ ex_out e)%string; ex_unescaped := (u ++ ex_unescaped e)%string; ex_glob := g || ex_glob e |}.

Definition is_active_meta (c : ascii) : bool := existsb (Ascii.eqb c) ["*"; "?"; "["; "{"]%char.

Section Expand.
Context (lookup : string -> option string) (anchors : Anchors) (raw : string).

Definition ref_value (name : string) : string + ExpandError :=
  if bool_decide (name = LOADOUT_ROOT) then
    match an_loadout_root anchors with Some v => inl v | None => inr (LoadoutRootUnavailable raw) end
  else match lookup name with Some v => inl v | None => inr (UndefinedVar name) end.

(** The loop of [expand_pattern] from byte [i]; [skip] bytes of the text are
    already consumed. *)
Fixpoint expand_from (skip i : nat) (s : string) : Expanded + ExpandError :=
  match s with
  | EmptyString => inl {| ex_out := EmptyString; ex_unescaped := EmptyString; ex_glob := false |}
  | String c rest =>
      match skip with
      | S skip => expand_from skip (S i) rest
      | O =>
          let emit (o u : string) (g : bool) (r : Expanded + ExpandError) :=
            match r with inl e => inl (push o u g e) | inr err => inr err end in
          if Ascii.eqb c "$"%char then
            match rest with
            | String "$"%char _ => emit "$"%string "$"%string false (expand_from 1 (S i) rest)
            | _ =>
                match parse_var_ref i rest with
                | inr err => inr err
                | inl (name, consumed) =>
                    match ref_value name with
                    | inr err => inr err
                    | inl value => emit (escape_glob_metas value) value false (expand_from (consumed - 1) (S i) rest)
                    end
                end
            end
          else emit (String c EmptyString) (String c EmptyString) (is_active_meta c) (expand_from 0 (S i) rest)
      end
  end.
End Expand.

(** [normalize_path]. *)
Definition is_dot (c : string) : bool := bool_decide (c = EmptyString) || bool_decide (c = "."%string).
Definition starts_slash (s : string) : bool := match s with String "/"%char _ => true | _ => false end.
Definition ends_slash (s : string) : bool := bool_decide (is_Some (strip_suffix "/" s)).
Definition normalize_path (s : string) : string + ExpandError :=
  let parts := str_split "/"%char s in
  if existsb (fun c => bool_decide (c = ".."%string)) parts then inr (PathTraversal s)
  else
    let components := List.filter (fun c => negb (is_dot c)) parts in
    let trailing_slash := (1 <? String.length s) && ends_slash s in
    inl ((if starts_slash s then "/" else "") ++ join_strings "/" components ++
         (if trailing_slash && negb (is_empty components) then "/" else ""))%string.

Section Finish.
(** globset's parser, and the file system's [is_dir]. *)
Context (glob_ok : string -> bool) (is_dir : string -> bool).

(** [finish_expand]. *)
Definition finish_expand (normalized unescaped_normalized : string) (raw_has_glob_meta : bool)
    (require_absolute : RequireAbsolute) : (FileSet * bool) + ExpandError :=
  let plain_directory :=
    require_yes require_absolute && negb raw_has_glob_meta && is_dir unescaped_normalized in
  let pattern :=
    if plain_directory then (normalized ++ (if ends_slash normalized then "**/*" else "/**/*"))%string
    else normalized in
  if glob_ok pattern then inl (pattern, plain_directory) else inr (PostExpansionInvalid pattern).

(** The tail of [expand_pattern], once the references are substituted: both
    texts are normalised, and a relative pattern is joined onto the project's
    root where one is known. *)
Definition expand_tail (anchors : Anchors) (require_absolute : RequireAbsolute) (e : Expanded)
    : (FileSet * bool) + ExpandError :=
  match normalize_path (ex_out e) with
  | inr err => inr err
  | inl normalized =>
      match normalize_path (ex_unescaped e) with
      | inr err => inr err
      | inl unescaped =>
          if require_yes require_absolute && negb (starts_slash normalized) then
            match an_project_root anchors with
            | None => inr (NotAbsolute normalized)
            | Some root =>
                if negb (starts_slash root) then inr (NotAbsolute root)
                else
                  let sep := (if ends_slash root then "" else "/")%string in
                  finish_expand (escape_glob_metas root ++ sep ++ normalized)%string (root ++ sep ++ unescaped)%string
                    (ex_glob e) require_absolute
            end
          else finish_expand normalized unescaped (ex_glob e) require_absolute
      end
  end.

(** [expand_pattern]. *)
Definition expand_pattern (raw : string) (lookup : string -> option string) (anchors : Anchors)
    (require_absolute : RequireAbsolute) : (FileSet * bool) + ExpandError :=
  let finish (e : Expanded + ExpandError) :=
    match e with inr err => inr err | inl e => expand_tail anchors require_absolute e end in
  match raw with
  | String "~"%char rest =>
      match rest with
      | EmptyString | String "/"%char _ =>
          match (match lookup "HOME"%string with Some h => Some h | None => an_home anchors end) with
          | None => inr (UndefinedVar "HOME")
          | Some home =>
              finish (match expand_from lookup anchors raw 0 1 rest with
                      | inl e => inl (push (escape_glob_metas home) home false e)
                      | inr err => inr err
                      end)
          end
      | _ => inr (UnsupportedTildeUser raw)
      end
  | _ => finish (expand_from lookup anchors raw 0 0 raw)
  end.

(** [expand_source_with_plain_dir], [expand_source] and
    [expand_policy_pattern]. *)
Definition expand_source_with_plain_dir (raw : string) (lookup : string -> option string) (anchors : Anchors)
    : (FileSet * bool) + ExpandError := expand_pattern raw lookup anchors AbsYes.
Definition drop_flag (r : (FileSet * bool) + ExpandError) : FileSet + ExpandError :=
  match r with inl (fs, _) => inl fs | inr e => inr e end.
Definition expand_source (raw : string) (lookup : string -> option string) (anchors : Anchors) : FileSet + ExpandError :=
  drop_flag (expand_source_with_plain_dir raw lookup anchors).
Definition expand_policy_pattern (raw : string) (lookup : string -> option string) (home_fallback : option string)
    : FileSet + ExpandError :=
  drop_flag (expand_pattern raw lookup (anchors_home home_fallback) AbsNo).
End Finish.

(** ** Splitting and joining *)

Lemma str_split_join c l :
  l <> [] -> Forall (fun p => str_contains c p = false) l ->
  str_split c (join_strings (String c EmptyString) l) = l.
Proof.
  intros Hne Hall. induction Hall as [|p l Hp Hl IH]; [done|].
  destruct l as [|q l]; [by apply str_split_single|].
  change (str_split c (p ++ String c (join_strings (String c EmptyString) (q :: l))) = p :: q :: l).
  by rewrite str_split_app_sep, IH, (str_split_single c p).
Qed.

(** ** Escaping *)

(** Escaping works byte by byte, and neither makes nor hides a separator. *)
Lemma escape_app (a b : string) :
  escape_glob_metas (a ++ b) = (escape_glob_metas a ++ escape_glob_metas b)%string.
Proof. induction a as [|c a IH]; cbn; [done|]. by rewrite IH, string_app_assoc. Qed.

Lemma escape_char_cases c :
  escape_char c = String "["%char (String c "]"%string) /\ is_escaped_meta c = true \/
  c = BACKSLASH /\ escape_char c = String BACKSLASH (String BACKSLASH EmptyString) \/
  escape_char c = String c EmptyString /\ is_escaped_meta c = false /\ c <> BACKSLASH.
Proof.
  unfold escape_char. destruct (is_escaped_meta c) eqn:E; [by left|right].
  destruct (Ascii.eqb_spec c BACKSLASH); [by left|by right].
Qed.

Lemma escape_char_plain c : is_escaped_meta c = false -> c <> BACKSLASH -> escape_char c = String c EmptyString.
Proof. intros Hm Hb. unfold escape_char. rewrite Hm. by destruct (Ascii.eqb_spec c BACKSLASH). Qed.

Lemma contains_escape_char d c :
  is_escaped_meta d = false -> d <> BACKSLASH -> str_contains d (escape_char c) = bool_decide (c = d).
Proof.
  intros Hm Hb.
  assert (H1 : d <> "["%char) by (intros ->; done). assert (H2 : d <> "]"%char) by (intros ->; done).
  destruct (escape_char_cases c) as [[-> Hc]|[[-> ->]|[-> _]]]; cbn.
  - rewrite (bool_decide_false ("["%char = d)), (bool_decide_false ("]"%char = d)) by congruence.
    by rewrite !orb_false_r.
  - by rewrite !(bool_decide_false (BACKSLASH = d)) by congruence.
  - by rewrite orb_false_r.
Qed.

(** Splitting at a plain byte commutes with escaping. *)
Lemma str_split_app_nosep c (a b : string) piece rest :
  str_contains c a = false -> str_split c b = piece :: rest ->
  str_split c (a ++ b)%string = (a ++ piece)%string :: rest.
Proof.
  intros Ha Hb. induction a as [|d a IH]; [done|]. cbn in Ha |- *.
  apply orb_false_iff in Ha as [Hd Ha]. rewrite Hd. by rewrite (IH Ha).
Qed.

Lemma str_split_escape d s :
  is_escaped_meta d = false -> d <> BACKSLASH ->
  str_split d (escape_glob_metas s) = map escape_glob_metas (str_split d s).
Proof.
  intros Hm Hb. induction s as [|c s IH]; [done|].
  cbn [escape_glob_metas]. pose proof (contains_escape_char d c Hm Hb) as Hc. cbn [str_split].
  case_bool_decide as Hd.
  - subst c. rewrite escape_char_plain by done. cbn. by rewrite bool_decide_true, IH.
  - destruct (str_split d s) as [|p l] eqn:E; [by destruct (str_split_nonempty d s)|].
    exact (str_split_app_nosep d _ _ _ _ Hc IH).
Qed.

Lemma join_escape sep l :
  escape_glob_metas sep = sep ->
  join_strings sep (map escape_glob_metas l) = escape_glob_metas (join_strings sep l).
Proof.
  intros Hsep. induction l as [|p [|q l] IH]; [done..|].
  change (join_strings sep (map escape_glob_metas (p :: q :: l)))
    with (escape_glob_metas p ++ sep ++ join_strings sep (map escape_glob_metas (q :: l)))%string.
  rewrite IH. change (join_strings sep (p :: q :: l)) with (p ++ sep ++ join_strings sep (q :: l))%string.
  by rewrite !escape_app, Hsep.
Qed.

(** *** The literal a pattern stands for

    [glob_literal] reads the part of the glob syntax that matches one text
    only: a byte that is no metacharacter, a bracket class of one byte, and a
    backslash followed by the byte it quotes; anything else is no literal. *)
Fixpoint glob_literal (pattern : string) : option string :=
  match pattern with
  | EmptyString => Some EmptyString
  | String c rest =>
      if Ascii.eqb c "["%char then
        match rest with
        | String d (String e rest) =>
            if Ascii.eqb e "]"%char && negb (Ascii.eqb d "!"%char || Ascii.eqb d "^"%char) then String d <$> glob_literal rest else None
        | _ => None
        end
      else if Ascii.eqb c BACKSLASH then
        match rest with String d rest => String d <$> glob_literal rest | EmptyString => None end
      else if is_escaped_meta c then None
      else String c <$> glob_literal rest
  end.

Lemma glob_literal_escape v : glob_literal (escape_glob_metas v) = Some v.
Proof.
  induction v as [|c v IH]; [done|]. cbn [escape_glob_metas].
  destruct (escape_char_cases c) as [[-> Hc]|[[-> ->]|[-> [Hm Hb]]]].
  - cbn. rewrite IH. destruct (Ascii.eqb_spec c "!"); [by subst|]. by destruct (Ascii.eqb_spec c "^"); [subst|].
  - cbn. by rewrite IH.
  - cbn [append glob_literal]. assert (c <> "["%char) by (intros ->; done).
    destruct (Ascii.eqb_spec c "["); [done|]. destruct (Ascii.eqb_spec c BACKSLASH); [done|].
    by rewrite Hm, IH.
Qed.

Lemma escape_inj a b : escape_glob_metas a = escape_glob_metas b -> a = b.
Proof. intros H. apply (f_equal glob_literal) in H. rewrite !glob_literal_escape in H. congruence. Qed.

(** ** Normalisation *)

Definition kept_parts (s : string) : list string := List.filter (fun c => negb (is_dot c)) (str_split "/"%char s).

(** A part normalisation keeps: no separator in it, not empty, not a dot. *)
Definition kept_part (p : string) : Prop := str_contains "/"%char p = false /\ is_dot p = false.

Lemma kept_parts_ok s : Forall kept_part (kept_parts s).
Proof.
  apply list.Forall_forall. intros p [Hp Hf]%list_elem_of_In%filter_In.
  split; [|by destruct (is_dot p)].
  apply list_elem_of_In in Hp. clear Hf. revert p Hp. apply list.Forall_forall, str_split_parts.
Qed.

Lemma normalize_path_eq s q :
  normalize_path s = inl q <->
  ".."%string ∉ str_split "/"%char s /\
  q = ((if starts_slash s then "/" else "") ++ join_strings "/" (kept_parts s) ++
       (if (1 <? String.length s)%nat && ends_slash s && negb (is_empty (kept_parts s)) then "/" else ""))%string.
Proof.
  unfold normalize_path. fold (kept_parts s).
  destruct (existsb _ _) eqn:E.
  - split; [done|]. intros [Hin _]. apply existsb_exists in E as (p & Hp & ->%bool_decide_eq_true).
    by apply list_elem_of_In in Hp.
  - split.
    + intros [= <-]. split; [|done]. intros Hin%list_elem_of_In.
      assert (H : existsb (fun c => bool_decide (c = ".."%string)) (str_split "/"%char s) = true)
        by (apply existsb_exists; exists ".."%string; by rewrite bool_decide_true). congruence.
    + by intros [_ ->].
Qed.

Lemma ends_slash_app a b : b <> EmptyString -> ends_slash (a ++ b) = ends_slash b.
Proof.
  intros Hb. unfold ends_slash. apply bool_decide_ext. split.
  - intros [r Hr]. apply strip_suffix_iff in Hr.
    assert (Hrev := f_equal str_rev Hr). rewrite !str_rev_app in Hrev. cbn in Hrev.
    destruct (str_rev b) as [|c b'] eqn:E.
    { apply (f_equal str_rev) in E. rewrite str_rev_involutive in E. done. }
    cbn in Hrev. injection Hrev as -> Hrev. exists (str_rev b'). apply strip_suffix_iff.
    apply (f_equal str_rev) in E. rewrite str_rev_involutive in E. rewrite E.
    change (String "/"%char b') with ("/" ++ b')%string. by rewrite str_rev_app.
  - intros [r Hr]. apply strip_suffix_iff in Hr as ->. exists (a ++ r)%string. apply strip_suffix_iff.
    by rewrite string_app_assoc.
Qed.

Lemma ends_slash_none s : str_contains "/"%char s = false -> ends_slash s = false.
Proof.
  intros H. apply bool_decide_false. intros [r Hr]. apply strip_suffix_iff in Hr as ->.
  rewrite str_contains_app in H. cbn in H. by rewrite orb_true_r in H.
Qed.

Lemma starts_slash_none s : str_contains "/"%char s = false -> starts_slash s = false.
Proof. destruct s as [|c s]; [done|]. cbn. case_bool_decide as Hc; [done|]. intros _. by destruct c as [[] [] [] [] [] [] [] []]. Qed.

Lemma kept_part_not_empty p : kept_part p -> p <> EmptyString.
Proof. intros [_ H] ->. done. Qed.

Lemma join_kept l :
  l <> [] -> Forall kept_part l ->
  join_strings "/" l <> EmptyString /\ starts_slash (join_strings "/" l) = false /\ ends_slash (join_strings "/" l) = false.
Proof.
  intros Hne Hall. induction Hall as [|p l Hp Hl IH]; [done|].
  pose proof (kept_part_not_empty _ Hp) as Hpne. destruct Hp as [Hp _].
  destruct l as [|q l]; [cbn; auto using starts_slash_none, ends_slash_none|].
  destruct IH as (IHne & _ & IHe); [done|].
  change (join_strings "/" (p :: q :: l)) with (p ++ "/" ++ join_strings "/" (q :: l))%string.
  split; [|split].
  - by destruct p.
  - destruct p as [|c p]; [done|]. apply starts_slash_none in Hp. exact Hp.
  - rewrite !ends_slash_app; [done|exact IHne|done].
Qed.

(** The text normalisation writes: an optional root, the kept parts and an
    optional trailing slash. *)
Definition render (absolute trailing : bool) (l : list string) : string :=
  ((if absolute then "/" else "") ++ join_strings "/" l ++ (if trailing && negb (is_empty l) then "/" else ""))%string.

Lemma render_split absolute trailing l :
  Forall kept_part l ->
  str_split "/"%char (render absolute trailing l) =
  (if absolute then [EmptyString] else []) ++ (if is_empty l then [EmptyString] else l) ++
  (if trailing && negb (is_empty l) then [EmptyString] else []).
Proof.
  intros Hl.
  assert (Hj : forall l', l' <> [] -> Forall kept_part l' -> str_split "/"%char (join_strings "/" l') = l').
  { intros l' Hne Hl'. apply str_split_join; [done|]. eapply list.Forall_impl; [exact Hl'|]. by intros p [H _]. }
  unfold render. destruct l as [|p l]; [by destruct absolute, trailing|].
  set (j := join_strings "/" (p :: l)). cbn [is_empty negb].
  assert (Hjs : str_split "/"%char j = p :: l) by (by apply Hj).
  assert (Ht : str_split "/"%char (j ++ (if trailing && true then "/" else ""))%string =
               (p :: l) ++ (if trailing && true then [EmptyString] else [])).
  { destruct trailing; cbn [andb]; [by rewrite str_split_app_sep, Hjs|by rewrite string_app_nil, Hjs, app_nil_r]. }
  destruct absolute; [|exact Ht]. cbn. rewrite bool_decide_true by done. cbn. f_equal. exact Ht.
Qed.

Lemma filter_kept l : Forall kept_part l -> List.filter (fun c => negb (is_dot c)) l = l.
Proof. induction 1 as [|p l [_ Hp] _ IH]; [done|]. cbn. by rewrite Hp, IH. Qed.

Lemma render_kept absolute trailing l : Forall kept_part l -> kept_parts (render absolute trailing l) = l.
Proof.
  intros Hl. unfold kept_parts. rewrite render_split by done. rewrite !filter_app.
  destruct l as [|p l]; [by destruct absolute, trailing|]. cbn [is_empty negb].
  rewrite (filter_kept _ Hl). destruct absolute, trailing; cbn [List.filter app andb]; by rewrite ?app_nil_r.
Qed.

Lemma render_starts absolute trailing l : Forall kept_part l -> starts_slash (render absolute trailing l) = absolute.
Proof.
  intros Hl. unfold render. destruct absolute; [done|].
  destruct l as [|p l]; [by destruct trailing|]. destruct (join_kept (p :: l)) as (Hne & Hs & _); [done..|].
  destruct (join_strings "/" (p :: l)) eqn:E; [done|]. exact Hs.
Qed.

Lemma render_ends absolute trailing l :
  Forall kept_part l -> l <> [] -> ends_slash (render absolute trailing l) = trailing.
Proof.
  intros Hl Hne. destruct (join_kept l Hne Hl) as (Hj & _ & He). unfold render.
  assert (Hm : is_empty l = false) by (by destruct l). rewrite Hm.
  destruct trailing; cbn [andb negb].
  - rewrite !ends_slash_app; [done..|]. by destruct (join_strings "/" l).
  - by rewrite string_app_nil, ends_slash_app.
Qed.

Lemma normalize_render s q :
  normalize_path s = inl q ->
  q = render (starts_slash s) ((1 <? String.length s)%nat && ends_slash s) (kept_parts s).
Proof. by intros [_ ->]%normalize_path_eq. Qed.

(** No part of a normalised text is a parent reference. *)
Lemma dotdot_kept s : ".."%string ∉ str_split "/"%char s -> ".."%string ∉ kept_parts s.
Proof. intros H Hin. apply H. apply list_elem_of_In in Hin. apply filter_In in Hin as [Hin _]. by apply list_elem_of_In. Qed.

Lemma normalized_no_parent s q : normalize_path s = inl q -> ".."%string ∉ str_split "/"%char q.
Proof.
  intros Hn. rewrite (normalize_render _ _ Hn), render_split by apply kept_parts_ok.
  apply normalize_path_eq in Hn as [Hs%dotdot_kept _].
  rewrite !not_elem_of_app. split; [|split].
  - destruct (starts_slash s); set_solver.
  - destruct (kept_parts s); cbn [is_empty]; set_solver.
  - destruct (_ && _); set_solver.
Qed.

(** Normalising twice is normalising once. *)
Lemma normalize_idempotent s q : normalize_path s = inl q -> normalize_path q = inl q.
Proof.
  intros Hn. pose proof (kept_parts_ok s) as Hk. pose proof (normalize_render _ _ Hn) as Hq.
  apply normalize_path_eq. split; [by eapply normalized_no_parent|].
  set (a := starts_slash s) in *. set (t := (1 <? String.length s) && ends_slash s) in *.
  assert (Ha : starts_slash q = a) by (rewrite Hq; by apply render_starts).
  assert (Hkq : kept_parts q = kept_parts s) by (rewrite Hq; by apply render_kept).
  rewrite Ha, Hkq. rewrite Hq at 1. unfold render.
  destruct (kept_parts s) as [|p l] eqn:El; [by rewrite !andb_false_r|]. cbn [is_empty negb].
  rewrite !andb_true_r.
  assert (He : ends_slash q = t) by (rewrite Hq; by apply render_ends).
  rewrite He. destruct (1 <? String.length q) eqn:Hlen; [done|].
  destruct t; [|done]. exfalso. apply Nat.ltb_ge in Hlen.
  rewrite Hq in Hlen. unfold render in Hlen. cbn [is_empty negb andb] in Hlen.
  destruct (join_kept (p :: l)) as (Hj & _ & _); [done..|].
  rewrite !string_length_app in Hlen. destruct (join_strings "/" (p :: l)); [done|]. cbn in Hlen. lia.
Qed.

(** ** What an expanded source can be *)

Section ExpandProps.
Context (glob_ok is_dir : string -> bool).

(** Every successful expansion goes through the tail. *)
Lemma expand_pattern_tail raw lookup anchors abs r :
  expand_pattern glob_ok is_dir raw lookup anchors abs = inl r ->
  exists e, expand_tail glob_ok is_dir anchors abs e = inl r.
Proof.
  unfold expand_pattern. intros H.
  repeat match type of H with
  | match ?x with _ => _ end = inl r => destruct x eqn:?; simplify_eq
  | expand_tail _ _ _ _ _ = inl r => by eexists
  end.
Qed.

Lemma no_parent_escape s : ".."%string ∉ str_split "/"%char s -> ".."%string ∉ str_split "/"%char (escape_glob_metas s).
Proof.
  intros H Hin. apply H. rewrite str_split_escape in Hin by done.
  apply list_elem_of_In, in_map_iff in Hin as (p & Hp & Hin).
  apply (escape_inj p "..") in Hp as ->. by apply list_elem_of_In.
Qed.

Lemma no_parent_join a b :
  ".."%string ∉ str_split "/"%char a -> ".."%string ∉ str_split "/"%char b ->
  ".."%string ∉ str_split "/"%char (a ++ String "/"%char b).
Proof. intros Ha Hb. rewrite str_split_app_sep. by apply not_elem_of_app. Qed.

(** A text that ends in a slash, cut there. *)
Lemma ends_slash_cut s : ends_slash s = true -> exists r, s = (r ++ "/")%string.
Proof. unfold ends_slash. intros [r Hr]%bool_decide_eq_true. exists r. by apply strip_suffix_iff. Qed.

Lemma starts_slash_app a b : starts_slash a = true -> starts_slash (a ++ b) = true.
Proof. by destruct a. Qed.

Lemma starts_slash_escape s : starts_slash s = true -> starts_slash (escape_glob_metas s) = true.
Proof. destruct s as [|c s]; [done|]. by destruct c as [[] [] [] [] [] [] [] []]. Qed.

Definition confined (pattern : string) : Prop :=
  starts_slash pattern = true /\ ".."%string ∉ str_split "/"%char pattern.

Lemma finish_confined n u g pat plain :
  confined n -> finish_expand glob_ok is_dir n u g AbsYes = inl (pat, plain) ->
  confined pat /\ glob_ok pat = true /\
  (plain = true <-> g = false /\ is_dir u = true) /\
  pat = if plain then (n ++ (if ends_slash n then "**/*" else "/**/*"))%string else n.
Proof.
  intros [Hs Hd] H. unfold finish_expand in H. cbn [require_yes andb] in H.
  set (pl := negb g && is_dir u) in H.
  set (pt := if pl then _ else _) in H. destruct (glob_ok pt) eqn:Hg; [|done]. injection H as Hp Hl. rewrite <- Hp, <- Hl. clear Hp Hl pat plain.
  assert (Hpl : pl = true <-> g = false /\ is_dir u = true) by (unfold pl; rewrite andb_true_iff, negb_true_iff; done).
  split; [|done]. subst pt. destruct pl; [|done]. split; [by apply starts_slash_app|].
  destruct (ends_slash n) eqn:He; [|by apply no_parent_join; [|apply (bool_decide_unpack _); vm_compute]].
  apply ends_slash_cut in He as [r ->]. rewrite string_app_assoc.
  rewrite str_split_app_sep in Hd. apply not_elem_of_app in Hd as [Hd _].
  by apply no_parent_join; [|apply (bool_decide_unpack _); vm_compute].
Qed.

Lemma normalized_confined s q : normalize_path s = inl q -> starts_slash q = true -> confined q.
Proof. intros Hn Hq. split; [done|]. by eapply normalized_no_parent. Qed.

Lemma joined_confined root q :
  starts_slash root = true -> ".."%string ∉ str_split "/"%char root -> ".."%string ∉ str_split "/"%char q ->
  confined (escape_glob_metas root ++ (if ends_slash root then "" else "/") ++ q).
Proof.
  intros Hs Hr Hq. split; [by apply starts_slash_app, starts_slash_escape|].
  destruct (ends_slash root) eqn:He.
  - apply ends_slash_cut in He as [r ->]. rewrite escape_app, string_app_assoc.
    rewrite str_split_app_sep in Hr. apply not_elem_of_app in Hr as [Hr _].
    apply no_parent_join; [by apply no_parent_escape|done].
  - apply no_parent_join; [by apply no_parent_escape|done].
Qed.

(** Whatever the pattern's text and the values of the variables, an expanded
    patch source is absolute and has no parent component, provided the
    project's root, the one text that is not normalised, has none; it is a
    glob globset accepts; and it is reported a plain directory only when it
    was rewritten to everything below one. *)
Theorem expanded_source_confined raw lookup anchors pat plain :
  (forall root, an_project_root anchors = Some root -> ".."%string ∉ str_split "/"%char root) ->
  expand_source_with_plain_dir glob_ok is_dir raw lookup anchors = inl (pat, plain) ->
  starts_slash pat = true /\ ".."%string ∉ str_split "/"%char pat /\ glob_ok pat = true /\
  (plain = true -> is_Some (strip_suffix "/**/*" pat)).
Proof.
  intros Hroot [e H]%expand_pattern_tail. unfold expand_tail in H.
  destruct (normalize_path (ex_out e)) as [n|] eqn:Hn; [|done].
  destruct (normalize_path (ex_unescaped e)) as [u|] eqn:Hu; [|done].
  assert (Hfin : exists n u, confined n /\ finish_expand glob_ok is_dir n u (ex_glob e) AbsYes = inl (pat, plain)).
  { cbn [require_yes andb] in H. destruct (starts_slash n) eqn:Hs; cbn [negb] in H.
    - exists n, u. eauto using normalized_confined.
    - destruct (an_project_root anchors) as [root|]; [|done]. specialize (Hroot root eq_refl).
      destruct (starts_slash root) eqn:Hr; [|done]. eexists _, _. split; [|exact H].
      apply joined_confined; [done..|]. by eapply normalized_no_parent. }
  clear H Hn Hu n u. destruct Hfin as (n & u & Hc & H).
  apply (finish_confined _ _ _ _ _ Hc) in H as ([Hs Hd] & Hg & _ & Hpat).
  split; [done|]. split; [done|]. split; [done|]. intros ->.
  subst pat. destruct (ends_slash n) eqn:He; [|exists n; by apply strip_suffix_iff].
  apply ends_slash_cut in He as [r ->]. exists r. apply strip_suffix_iff. by rewrite string_app_assoc.
Qed.
End ExpandProps.

(** ** The literal pattern round trip *)

Lemma literal_policy_pattern_cons c s :
  literal_policy_pattern (String c s) =
  ((if bool_decide (c = "$"%char) then "$$" else escape_char c) ++ literal_policy_pattern s)%string.
Proof.
  unfold literal_policy_pattern. cbn [str_split]. pose proof (str_split_nonempty "$"%char s) as Hne.
  destruct (str_split "$"%char s) as [|p l] eqn:E; [done|]. case_bool_decide as Hc; [done|].
  cbn [map escape_glob_metas]. destruct l as [|q l]; [done|].
  change (join_strings "$$" ((escape_char c ++ escape_glob_metas p)%string :: map escape_glob_metas (q :: l)))
    with ((escape_char c ++ escape_glob_metas p) ++ "$$" ++ join_strings "$$" (map escape_glob_metas (q :: l)))%string.
  by rewrite string_app_assoc.
Qed.

Section LiteralProps.
Context (lookup : string -> option string) (anchors : Anchors) (raw : string).

(** Text without a dollar is copied as it is. *)
Lemma expand_from_plain a s i e :
  str_contains "$"%char a = false ->
  expand_from lookup anchors raw 0 (i + String.length a) s = inl e ->
  exists g, expand_from lookup anchors raw 0 i (a ++ s) =
            inl {| ex_out := (a ++ ex_out e)%string; ex_unescaped := (a ++ ex_unescaped e)%string; ex_glob := g |}.
Proof.
  intros Ha. revert i. induction a as [|c a IH]; intros i He.
  - cbn [String.length] in He. rewrite Nat.add_0_r in He. exists (ex_glob e). cbn [append]. rewrite He. by destruct e.
  - cbn [str_contains] in Ha. apply orb_false_iff in Ha as [Hc Ha]. apply bool_decide_eq_false in Hc.
    destruct (IH Ha (S i)) as [g Hg]; [by replace (S i + String.length a) with (i + String.length (String c a)) by (cbn; lia)|].
    cbn [append expand_from]. destruct (Ascii.eqb_spec c "$"); [done|]. rewrite Hg. by eexists.
Qed.

Lemma expand_from_literal s i :
  exists g, expand_from lookup anchors raw 0 i (literal_policy_pattern s) =
            inl {| ex_out := escape_glob_metas s; ex_unescaped := escape_glob_metas s; ex_glob := g |}.
Proof.
  revert i. induction s as [|c s IH]; intros i; [by eexists|].
  rewrite literal_policy_pattern_cons. case_bool_decide as Hc.
  - subst c. destruct (IH (S (S i))) as [g Hg]. exists g.
    cbn [append expand_from]. change (Ascii.eqb "$" "$") with true. cbn iota. rewrite Hg. done.
  - destruct (IH (i + String.length (escape_char c))) as [g Hg].
    apply expand_from_plain in Hg; [exact Hg|].
    rewrite contains_escape_char by done. by apply bool_decide_false.
Qed.
End LiteralProps.

Lemma starts_slash_escape_iff s : starts_slash (escape_glob_metas s) = starts_slash s.
Proof. destruct s as [|c s]; [done|]. by destruct c as [[] [] [] [] [] [] [] []]. Qed.

Lemma ends_slash_escape s : ends_slash (escape_glob_metas s) = ends_slash s.
Proof.
  induction s as [|c s IH]; [done|]. cbn [escape_glob_metas]. destruct (decide (s = EmptyString)) as [->|Hs].
  - cbn [escape_glob_metas]. rewrite string_app_nil. by destruct c as [[] [] [] [] [] [] [] []].
  - rewrite ends_slash_app by (intros E; apply Hs, (escape_inj s EmptyString), E).
    rewrite IH. symmetry. exact (ends_slash_app (String c EmptyString) s Hs).
Qed.

Lemma escape_length s : (1 <? String.length (escape_glob_metas s))%nat && ends_slash s = (1 <? String.length s)%nat && ends_slash s.
Proof.
  destruct s as [|c s]; [done|]. cbn [escape_glob_metas]. destruct (decide (s = EmptyString)) as [->|Hs].
  - cbn [escape_glob_metas]. rewrite string_app_nil. by destruct c as [[] [] [] [] [] [] [] []].
  - f_equal. transitivity true; [|symmetry]; apply Nat.ltb_lt.
    + rewrite string_length_app. assert (escape_glob_metas s <> EmptyString) by (intros E; apply Hs, (escape_inj s EmptyString), E).
      destruct (escape_glob_metas s); [done|]. destruct (escape_char_cases c) as [[-> _]|[[_ ->]|[-> _]]]; cbn; lia.
    + destruct s; [done|]. cbn. lia.
Qed.

Lemma is_dot_escape p : is_dot (escape_glob_metas p) = is_dot p.
Proof.
  unfold is_dot. f_equal; apply bool_decide_ext; split; [|by intros ->| |by intros ->]; intros H.
  - exact (escape_inj p EmptyString H).
  - exact (escape_inj p "." H).
Qed.

Lemma kept_parts_escape s : kept_parts (escape_glob_metas s) = map escape_glob_metas (kept_parts s).
Proof.
  unfold kept_parts. rewrite str_split_escape by done.
  induction (str_split "/"%char s) as [|p l IH]; [done|]. cbn [map List.filter]. rewrite is_dot_escape, IH. by destruct (is_dot p).
Qed.

(** Normalising an escaped text is escaping the normalised one. *)
Lemma normalize_escape s q : normalize_path s = inl q -> normalize_path (escape_glob_metas s) = inl (escape_glob_metas q).
Proof.
  intros [Hd ->]%normalize_path_eq. apply normalize_path_eq. split; [by apply no_parent_escape|].
  rewrite starts_slash_escape_iff, kept_parts_escape, ends_slash_escape, escape_length, !escape_app, join_escape by done.
  destruct (starts_slash s), (kept_parts s), ((1 <? String.length s)%nat && ends_slash s); done.
Qed.

(** A literal path stored as a policy pattern expands, whatever the variables
    and the home, to the pattern that stands for that path and no other: the
    escaped form of the normalised path, which reads back as the path. *)
Theorem literal_policy_roundtrip glob_ok is_dir path normal lookup home :
  starts_slash path = true -> normalize_path path = inl normal ->
  glob_ok (escape_glob_metas normal) = true ->
  exists pattern, expand_policy_pattern glob_ok is_dir (literal_policy_pattern path) lookup home = inl pattern /\
                  glob_literal pattern = Some normal.
Proof.
  intros Hs Hn Hg. exists (escape_glob_metas normal). split; [|apply glob_literal_escape].
  set (raw := literal_policy_pattern path).
  destruct (expand_from_literal lookup (anchors_home home) raw path 0) as [g Hexp].
  assert (Hpat : expand_pattern glob_ok is_dir raw lookup (anchors_home home) AbsNo =
                 expand_tail glob_ok is_dir (anchors_home home) AbsNo
                   {| ex_out := escape_glob_metas path; ex_unescaped := escape_glob_metas path; ex_glob := g |}).
  { unfold expand_pattern. fold raw in Hexp. rewrite Hexp. unfold raw. destruct path as [|c path]; [done|].
    assert (c = "/"%char) as -> by (destruct c as [[] [] [] [] [] [] [] []]; done).
    by rewrite literal_policy_pattern_cons. }
  unfold expand_policy_pattern. rewrite Hpat. unfold expand_tail. cbn [ex_out ex_unescaped require_yes andb].
  rewrite (normalize_escape _ _ Hn). unfold finish_expand. cbn [require_yes andb]. by rewrite Hg.
Qed.

(** [literal_policy_roundtrip] on a path with metacharacters and a dollar. *)
Lemma literal_policy_roundtrip_witness :
  exists pattern, expand_policy_pattern (fun _ => true) (fun _ => false) (literal_policy_pattern "/srv//a[1]/$x,*") (fun _ => None) None
                  = inl pattern /\ glob_literal pattern = Some "/srv/a[1]/$x,*"%string.
Proof.
  exact (literal_policy_roundtrip (fun _ => true) (fun _ => false) "/srv//a[1]/$x,*" "/srv/a[1]/$x,*" (fun _ => None) None
           eq_refl eq_refl eq_refl).
Defined.

(** [expanded_source_confined] on a directory below the home. *)
Lemma expanded_source_confined_witness :
  starts_slash "/h[*]/cfg/**/*" = true /\ ".."%string ∉ str_split "/"%char "/h[*]/cfg/**/*" /\ true = true /\
  (true = true -> is_Some (strip_suffix "/**/*" "/h[*]/cfg/**/*")).
Proof.
  refine (expanded_source_confined (fun _ => true) (fun _ => true) "~/./cfg" (fun _ => None)
            (anchors_home (Some "/h*"%string)) "/h[*]/cfg/**/*" true _ _); [done|vm_compute; reflexivity].
Defined.

(** The project's root is joined as it is: a parent component in it reaches
    the expanded source, where one in the pattern or in a variable is
    refused. *)
Example project_root_keeps_parent :
  expand_source (fun _ => true) (fun _ => false) "cfg/rc" (fun _ => None)
    (with_project_root (anchors_home None) (Some "/srv/../p"%string)) = inl "/srv/../p/cfg/rc"%string /\
  expand_source (fun _ => true) (fun _ => false) "$ROOT/cfg/rc" (fun _ => Some "/srv/../p"%string) (anchors_home None)
    = inr (PathTraversal "/srv/../p/cfg/rc").
Proof. split; vm_compute; reflexivity. Qed.

(** ** Errors *)

(** What each error says of the input it was given for. *)
Definition justified (glob_ok : string -> bool) (raw : string) (lookup : string -> option string) (anchors : Anchors)
    (abs : RequireAbsolute) (err : ExpandError) : Prop :=
  match err with
  | MalformedSyntax _ _ => str_contains "$"%char raw = true
  | UndefinedVar name => name <> LOADOUT_ROOT /\ lookup name = None
  | PostExpansionInvalid pattern => glob_ok pattern = false
  | PathTraversal pattern => ".."%string ∈ str_split "/"%char pattern
  | NotAbsolute pattern => abs = AbsYes /\ starts_slash pattern = false
  | UnsupportedTildeUser pattern => pattern = raw /\ exists c rest, raw = String "~"%char (String c rest) /\ c <> "/"%char
  | LoadoutRootUnavailable pattern => pattern = raw /\ an_loadout_root anchors = None
  end.

Section Errors.
Context (glob_ok is_dir : string -> bool) (raw : string) (lookup : string -> option string) (anchors : Anchors)
        (abs : RequireAbsolute).
#[local] Notation just := (justified glob_ok raw lookup anchors abs).

Lemma normalize_error s err : normalize_path s = inr err -> just err.
Proof.
  unfold normalize_path. destruct (existsb _ _) eqn:E; [|done]. intros [= <-]. cbn.
  apply existsb_exists in E as (p & Hp & ->%bool_decide_eq_true). by apply list_elem_of_In.
Qed.

Lemma finish_error n u g err : finish_expand glob_ok is_dir n u g abs = inr err -> just err.
Proof. unfold finish_expand. destruct (glob_ok _) eqn:E; [done|]. by intros [= <-]. Qed.

Lemma tail_error e err : expand_tail glob_ok is_dir anchors abs e = inr err -> just err.
Proof.
  unfold expand_tail. destruct (normalize_path (ex_out e)) as [n|] eqn:Hn; [|intros [= <-]; by eapply normalize_error].
  destruct (normalize_path (ex_unescaped e)) as [u|] eqn:Hu; [|intros [= <-]; by eapply normalize_error].
  destruct abs eqn:Ha; cbn [require_yes andb]; [|rewrite <- Ha; apply finish_error].
  destruct (starts_slash n) eqn:Hs; cbn [negb]; [rewrite <- Ha; apply finish_error|].
  destruct (an_project_root anchors) as [root|]; [|by intros [= <-]].
  destruct (starts_slash root) eqn:Hr; cbn [negb]; [rewrite <- Ha; apply finish_error|by intros [= <-]].
Qed.

Lemma parse_var_ref_error i s err : parse_var_ref i s = inr err -> exists a r, err = MalformedSyntax a r.
Proof.
  unfold parse_var_ref. intros H.
  repeat match type of H with
  | match ?x with _ => _ end = inr err => destruct x; simplify_eq
  end; by do 2 eexists.
Qed.

Lemma ref_value_error name err : ref_value lookup anchors raw name = inr err -> just err.
Proof.
  unfold ref_value. case_bool_decide as Hn.
  - destruct (an_loadout_root anchors) eqn:E; [done|]. by intros [= <-].
  - destruct (lookup name) eqn:E; [done|]. by intros [= <-].
Qed.

Lemma expand_from_error s skip i err :
  (str_contains "$"%char s = true -> str_contains "$"%char raw = true) ->
  expand_from lookup anchors raw skip i s = inr err -> just err.
Proof.
  revert skip i. induction s as [|c s IH]; intros skip i Hraw; [done|]. cbn [expand_from].
  assert (Hrec : str_contains "$"%char s = true -> str_contains "$"%char raw = true)
    by (intros H; apply Hraw; cbn; by rewrite H, orb_true_r).
  destruct skip as [|skip]; [|by apply IH].
  destruct (Ascii.eqb_spec c "$"%char) as [->|Hc].
  - specialize (Hraw eq_refl). intros H.
    repeat match type of H with
    | match expand_from _ _ _ _ _ _ with _ => _ end = inr err => destruct (expand_from _ _ _ _ _ _) eqn:?; simplify_eq; by eapply IH
    | match parse_var_ref ?i ?s with _ => _ end = inr err => destruct (parse_var_ref i s) as [[??]|] eqn:Hp
    | match ref_value _ _ _ _ with _ => _ end = inr err => destruct (ref_value _ _ _ _) eqn:Hv
    | inr _ = inr _ => simplify_eq
    | match ?x with _ => _ end = inr err => destruct x
    end; solve [by eapply ref_value_error | apply parse_var_ref_error in Hp as (? & ? & ->); done].
  - destruct (expand_from lookup anchors raw 0 (S i) s) eqn:E; [done|]. intros [= <-]. by eapply IH.
Qed.
End Errors.

(** Every refusal to expand is justified by the input: a syntax error only
    where a dollar is written, an undefined variable only for a name that has
    no value, a parent component only where the text has one, a relative
    pattern only where an absolute one is required, and the loadout's root
    unavailable only where there is none. *)
Theorem expansion_errors_justified glob_ok is_dir raw lookup anchors abs err :
  expand_pattern glob_ok is_dir raw lookup anchors abs = inr err ->
  justified glob_ok raw lookup anchors abs err.
Proof.
  assert (Hfin : forall r, (forall e', r = inr e' -> justified glob_ok raw lookup anchors abs e') ->
    match r with inr e' => inr e' | inl e => expand_tail glob_ok is_dir anchors abs e end = inr err ->
    justified glob_ok raw lookup anchors abs err).
  { intros [e|e'] Hr H; [by eapply tail_error|]. simplify_eq. by apply Hr. }
  unfold expand_pattern. intros H.
  destruct raw as [|c rest] eqn:Eraw; [exact (Hfin _ (fun e' => expand_from_error glob_ok "" lookup anchors abs "" 0 0 e' id) H)|].
  rewrite <- Eraw in *.
  destruct (Ascii.eqb_spec c "~"%char) as [->|Hc].
  - assert (Hloop : forall e', expand_from lookup anchors raw 0 1 rest = inr e' -> justified glob_ok raw lookup anchors abs e').
    { intros e'. apply expand_from_error. rewrite Eraw. cbn. intros ->. by rewrite ?orb_true_r. }
    assert (Hhome : match (match lookup "HOME"%string with Some h => Some h | None => an_home anchors end) with
      | None => inr (UndefinedVar "HOME")
      | Some home =>
          match (match expand_from lookup anchors raw 0 1 rest with
                 | inl e => inl (push (escape_glob_metas home) home false e) | inr err => inr err end) with
          | inr err => inr err | inl e => expand_tail glob_ok is_dir anchors abs e end
      end = inr err -> justified glob_ok raw lookup anchors abs err).
    { intros H'. destruct (lookup "HOME"%string) as [h|] eqn:Eh; [|destruct (an_home anchors) as [h|] eqn:Ea].
      1, 2: revert H'; apply Hfin; intros e' He; destruct (expand_from lookup anchors raw 0 1 rest) eqn:E; simplify_eq; by apply Hloop.
      simplify_eq. done. }
    destruct rest as [|d rest]; [exact (Hhome H)|].
    destruct (Ascii.eqb_spec d "/"%char) as [->|Hd]; [exact (Hhome H)|].
    assert (err = UnsupportedTildeUser raw) as -> by (destruct d as [[] [] [] [] [] [] [] []]; congruence).
    split; [done|]. by exists d, rest.
  - assert (Hf : match expand_from lookup anchors raw 0 0 raw with
                 | inr e' => inr e' | inl e => expand_tail glob_ok is_dir anchors abs e end = inr err)
      by (destruct c as [[] [] [] [] [] [] [] []]; exact H || done).
    revert Hf. apply Hfin. intros e'. by apply expand_from_error.
Qed.

(** [expansion_errors_justified] for a reference no variable has. *)
Lemma expansion_errors_justified_witness : "NOPE"%string <> LOADOUT_ROOT /\ @None string = None.
Proof.
  exact (expansion_errors_justified (fun _ => true) (fun _ => false) "/a/${NOPE}" (fun _ => None) (anchors_home None) AbsNo
           (UndefinedVar "NOPE") eq_refl).
Defined.

Section Reserved.
Context (glob_ok is_dir : string -> bool).

(** The loop reads [lookup] at no name but the ones it resolves. *)
Lemma expand_from_ext lookup lookup' anchors raw skip i s :
  (forall name, name <> LOADOUT_ROOT -> lookup name = lookup' name) ->
  expand_from lookup anchors raw skip i s = expand_from lookup' anchors raw skip i s.
Proof.
  intros Hagree.
  assert (Hr : forall name, ref_value lookup anchors raw name = ref_value lookup' anchors raw name).
  { intros name. unfold ref_value. case_bool_decide as Hn; [done|]. by rewrite Hagree. }
  revert skip i. induction s as [|c s IH]; intros skip i; [done|]. cbn [expand_from].
  destruct skip as [|skip]; [|apply IH].
  rewrite !IH. destruct (Ascii.eqb c "$"); [|done].
  assert (Href : forall i,
    match parse_var_ref i s with
    | inr err => inr err
    | inl (name, consumed) =>
        match ref_value lookup anchors raw name with
        | inr err => inr err
        | inl value => match expand_from lookup anchors raw (consumed - 1) (S i) s with
                       | inl e => inl (push (escape_glob_metas value) value false e) | inr err => inr err end
        end
    end =
    match parse_var_ref i s with
    | inr err => inr err
    | inl (name, consumed) =>
        match ref_value lookup' anchors raw name with
        | inr err => inr err
        | inl value => match expand_from lookup' anchors raw (consumed - 1) (S i) s with
                       | inl e => inl (push (escape_glob_metas value) value false e) | inr err => inr err end
        end
    end).
  { intros j. destruct (parse_var_ref j s) as [[name consumed]|]; [|done]. rewrite Hr. destruct (ref_value _ _ _ _); [|done]. by rewrite IH. }
  destruct s as [|d s]; [apply Href|]. by destruct d as [[] [] [] [] [] [] [] []]; try apply Href.
Qed.

(** A variable by the reserved name changes no expansion, of a policy pattern
    or of a source. *)
Theorem reserved_name_ignored raw lookup lookup' home :
  (forall name, name <> LOADOUT_ROOT -> lookup name = lookup' name) ->
  expand_policy_pattern glob_ok is_dir raw lookup home = expand_policy_pattern glob_ok is_dir raw lookup' home /\
  (forall anchors, expand_source glob_ok is_dir raw lookup anchors = expand_source glob_ok is_dir raw lookup' anchors).
Proof.
  intros Hagree.
  assert (H : forall anchors abs, expand_pattern glob_ok is_dir raw lookup anchors abs = expand_pattern glob_ok is_dir raw lookup' anchors abs).
  { intros anchors abs. unfold expand_pattern.
    rewrite (Hagree "HOME"%string) by done.
    destruct raw as [|c rest]; [done|].
    rewrite (expand_from_ext lookup lookup' anchors (String c rest) 0 0 (String c rest) Hagree).
    rewrite (expand_from_ext lookup lookup' anchors (String c rest) 0 1 rest Hagree). done. }
  split; [|intros anchors]; unfold expand_policy_pattern, expand_source, expand_source_with_plain_dir; by rewrite H.
Qed.
End Reserved.
