(* ===== verification/Policy.v ===== *)
(** * The user's policy (crates/boxes/src/core/policy.rs, decision.rs, hooks.rs, source.rs)

    Who declared an item, what a policy decides about it, and what is asked
    of the user when it decides nothing.  Globs are globset's: whether a
    pattern matches a name or a path is a parameter.  The wire forms of a
    source have its constructors and are the source itself here. *)

From stdpp Require Import base list strings numbers.
From Stdlib Require Import ZArith Lia Ascii String.
From S2P Require Import Prelude Text Classifier Expansion.
Open Scope nat_scope.
#[local] Close Scope Z_scope.

(** ** Provenance *)

Inductive Source : Type :=
| UserLoadout (name : string)
| Project (path : string)
| Package (name : string).
#[global] Instance Source_eq_dec : EqDecision Source.
Proof. solve_decision. Defined.

Definition is_user (s : Source) : bool := match s with UserLoadout _ => true | _ => false end.
Definition is_package (s : Source) : bool := match s with Package _ => true | _ => false end.

(** [Provenanced]. *)
Class Provenanced (T : Type) := source : T -> Source.

(** ** Decisions *)

Inductive Decision (T : Type) : Type :=
| Allowed (item : T)
| Ignored
| Denied (item : T).
Arguments Allowed {T} item.
Arguments Ignored {T}.
Arguments Denied {T} item.

Inductive CheckOutcome (T : Type) : Type :=
| Decided (d : Decision T)
| NeedsApproval (item : T).
Arguments Decided {T} d.
Arguments NeedsApproval {T} item.

Inductive ItemDecision : Type := AllowOnce | IgnoreOnce | UseRule.

(** ** Policies *)

Record VarsPolicy : Type := { vp_allow : list string; vp_deny : list string; vp_ignore : list string }.
Record PatchesPolicy : Type := { pp_allow : list string; pp_deny : list string; pp_ignore : list string }.
Record HooksPolicy : Type := { hp_allow : list string; hp_deny : list string; hp_ignore : list string }.
Record UserPolicy : Type := { up_vars : VarsPolicy; up_patches : PatchesPolicy; up_hooks : HooksPolicy }.
Record ExpandedPatchesPolicy : Type := { ep_allow : list FileSet; ep_deny : list FileSet; ep_ignore : list FileSet }.
Record ExpandedHooksPolicy : Type := { eh_allow : list FileSet; eh_deny : list FileSet; eh_ignore : list FileSet }.

Section Check.
(** globset: a pattern against a variable's name, and a set against a path. *)
Context (glob_match : string -> string -> bool) (fs_match : FileSet -> string -> bool).

(** [VarNameGlobs::is_match] and [VarsPolicy::check]. *)
Definition globs_match (patterns : list string) (name : string) : bool := existsb (fun p => glob_match p name) patterns.
Definition vars_check {T} `{Provenanced T} (p : VarsPolicy) (name : string) (item : T) : CheckOutcome T :=
  if globs_match (vp_deny p) name then Decided (Denied item)
  else if globs_match (vp_ignore p) name then Decided Ignored
  else if is_user (source item) then Decided (Allowed item)
  else if globs_match (vp_allow p) name then Decided (Allowed item)
  else NeedsApproval item.

(** [filesets_match], [PathDecision] and [PathDecision::combine]. *)
Definition filesets_match (sets : list FileSet) (path : string) : bool := existsb (fun fs => fs_match fs path) sets.
Inductive PathDecision : Type := PAllowed | PIgnored | PDenied | PNeedsApproval.
#[global] Instance PathDecision_eq_dec : EqDecision PathDecision.
Proof. solve_decision. Defined.
Definition combine (a b : PathDecision) : PathDecision :=
  if bool_decide (a = PDenied) || bool_decide (b = PDenied) then PDenied
  else if bool_decide (a = PIgnored) || bool_decide (b = PIgnored) then PIgnored
  else if bool_decide (a = PNeedsApproval) || bool_decide (b = PNeedsApproval) then PNeedsApproval
  else PAllowed.
Definition attach_decision {T} (d : PathDecision) (item : T) : CheckOutcome T :=
  match d with
  | PAllowed => Decided (Allowed item)
  | PIgnored => Decided Ignored
  | PDenied => Decided (Denied item)
  | PNeedsApproval => NeedsApproval item
  end.

(** [ExpandedPatchesPolicy::decide] and [check]. *)
Definition path_decide (p : ExpandedPatchesPolicy) (path : string) (src : Source) : PathDecision :=
  if filesets_match (ep_deny p) path then PDenied
  else if filesets_match (ep_ignore p) path then PIgnored
  else if is_user src then PAllowed
  else if filesets_match (ep_allow p) path then PAllowed
  else PNeedsApproval.
Definition patches_check {T} `{Provenanced T} (p : ExpandedPatchesPolicy) (link : option string) (target : string)
    (item : T) : CheckOutcome T :=
  let target_decision := path_decide p target (source item) in
  let combined :=
    match link with
    | Some l => combine (path_decide p l (source item)) target_decision
    | None => target_decision
    end in
  attach_decision combined item.

(** [ExpandedHooksPolicy::check]. *)
Definition hooks_check {T} `{Provenanced T} (p : ExpandedHooksPolicy) (item : T) : CheckOutcome T :=
  match source item with
  | UserLoadout _ => Decided (Allowed item)
  | Package _ => Decided (Denied item)
  | Project path =>
      if filesets_match (eh_deny p) path then Decided (Denied item)
      else if filesets_match (eh_ignore p) path then Decided Ignored
      else if filesets_match (eh_allow p) path then Decided (Allowed item)
      else NeedsApproval item
  end.
End Check.

(** [iter().map().collect::<Result<Vec<_>, _>>()]: the first error, else every
    value. *)
Fixpoint collect {A B E} (f : A -> B + E) (l : list A) : list B + E :=
  match l with
  | [] => inl []
  | a :: l =>
      match f a with
      | inr e => inr e
      | inl b => match collect f l with inl bs => inl (b :: bs) | inr e => inr e end
      end
  end.

Section ExpandPolicies.
Context (glob_ok is_dir : string -> bool).

(** [PatchesPolicy::expand_with] and [HooksPolicy::expand_with]. *)
Definition expand_all (lookup : string -> option string) (home : option string) (raws : list string) : list FileSet + ExpandError :=
  collect (fun r => expand_policy_pattern glob_ok is_dir r lookup home) raws.
Definition patches_expand_with (p : PatchesPolicy) (lookup : string -> option string) (home : option string)
    : ExpandedPatchesPolicy + ExpandError :=
  match expand_all lookup home (pp_allow p) with
  | inr e => inr e
  | inl allow =>
      match expand_all lookup home (pp_deny p) with
      | inr e => inr e
      | inl deny =>
          match expand_all lookup home (pp_ignore p) with
          | inr e => inr e
          | inl ignore => inl {| ep_allow := allow; ep_deny := deny; ep_ignore := ignore |}
          end
      end
  end.
Definition hooks_expand_with (p : HooksPolicy) (lookup : string -> option string) (home : option string)
    : ExpandedHooksPolicy + ExpandError :=
  match expand_all lookup home (hp_allow p) with
  | inr e => inr e
  | inl allow =>
      match expand_all lookup home (hp_deny p) with
      | inr e => inr e
      | inl deny =>
          match expand_all lookup home (hp_ignore p) with
          | inr e => inr e
          | inl ignore => inl {| eh_allow := allow; eh_deny := deny; eh_ignore := ignore |}
          end
      end
  end.
End ExpandPolicies.

(** ** What the user is asked *)

(** [Unapproved]: an item and who declared it. *)
Definition Unapproved : Type := string * Source.

Inductive HookResult (P : Type) : Type :=
| HookDecided (decisions : list ItemDecision) (updated_policy : option P)
| HookAbort.
Arguments HookDecided {P} decisions updated_policy.
Arguments HookAbort {P}.

(** [PolicyHooks]: each callback answers one batch. *)
Record PolicyHooks : Type := {
  on_var_unapproved : VarsPolicy -> list Unapproved -> HookResult VarsPolicy;
  on_patch_unapproved : PatchesPolicy -> list Unapproved -> HookResult PatchesPolicy;
  on_hook_unapproved : HooksPolicy -> list Unapproved -> HookResult HooksPolicy;
}.
