(* ===== verification/LifecycleHook.v ===== *)
(** * Lifecycle hooks (crates/boxes/src/core/lifecyclehook.rs, wire/primitives.rs)

    The scripts a loadout or a project declares for the transitions of a box:
    their construction, their form on the wire, and where an external script
    is staged.  Durations are nanoseconds. *)

From stdpp Require Import base list sets strings numbers.
From Stdlib Require Import ZArith Lia Ascii String.
From S2P Require Import Prelude Text Classifier Expansion Policy.
Open Scope Z_scope.

Definition NANOS : Z := 1000000000.
Definition DEFAULT_HOOK_TIMEOUT : Z := 60 * NANOS.
Definition MAX_HOOK_TIMEOUT : Z := 300 * NANOS.
Definition from_secs (s : Z) : Z := s * NANOS.
Definition as_secs (d : Z) : Z := d / NANOS.

(** ** Relative paths ([paths::RelPath]) *)

Inductive RelPathError : Type := IsAbsolute (p : string) | ContainsParentDir (p : string).
Definition relpath_try_new (p : string) : string + RelPathError :=
  if starts_slash p then inr (IsAbsolute p)
  else if existsb (fun c => bool_decide (c = ".."%string)) (components p) then inr (ContainsParentDir p)
  else inl p.

(** [Utf8PathBuf::join]. *)
Definition utf8_join (a b : string) : string :=
  if starts_slash b then b
  else if bool_decide (a = EmptyString) || ends_slash a then (a ++ b)%string
  else (a ++ "/" ++ b)%string.

(** ** Scripts *)

Inductive HookError : Type :=
| EmptyLifecycleHook
| OnFailureRemoved
| TimeoutTooLarge (got : Z)
| TimeoutZero
| HookPath (e : RelPathError).

Inductive HookScriptType : Type := TInline | TExternal.
Inductive HookScriptBody : Type := Inline (body : string) | External (path : string).
Record HookScript : Type := { hs_body : HookScriptBody; hs_timeout : Z }.

Definition hook_inline (s : string) : HookScript := {| hs_body := Inline s; hs_timeout := DEFAULT_HOOK_TIMEOUT |}.
Definition try_external (p : string) : HookScript + HookError :=
  match relpath_try_new p with
  | inl p => inl {| hs_body := External p; hs_timeout := DEFAULT_HOOK_TIMEOUT |}
  | inr e => inr (HookPath e)
  end.

(** [validate_timeout]: [Some] is the error. *)
Definition validate_timeout (timeout : Z) : option HookError :=
  if timeout =? 0 then Some TimeoutZero
  else if MAX_HOOK_TIMEOUT <? timeout then Some (TimeoutTooLarge (as_secs timeout))
  else None.
Definition with_timeout (s : HookScript) (timeout : Z) : HookScript + HookError :=
  match validate_timeout timeout with
  | Some e => inr e
  | None => inl {| hs_body := hs_body s; hs_timeout := timeout |}
  end.

Record HookScriptRepr : Type := { hr_type : HookScriptType; hr_value : string; hr_timeout : option Z }.
Definition script_try_from (r : HookScriptRepr) : HookScript + HookError :=
  let timeout := match hr_timeout r with Some t => from_secs t | None => DEFAULT_HOOK_TIMEOUT end in
  match validate_timeout timeout with
  | Some e => inr e
  | None =>
      match hr_type r with
      | TInline => inl {| hs_body := Inline (hr_value r); hs_timeout := timeout |}
      | TExternal =>
          match relpath_try_new (hr_value r) with
          | inl p => inl {| hs_body := External p; hs_timeout := timeout |}
          | inr e => inr (HookPath e)
          end
      end
  end.
Definition script_into_repr (s : HookScript) : HookScriptRepr :=
  let '(t, v) := match hs_body s with Inline body => (TInline, body) | External path => (TExternal, path) end in
  {| hr_type := t; hr_value := v;
     hr_timeout := if hs_timeout s =? DEFAULT_HOOK_TIMEOUT then None else Some (as_secs (hs_timeout s)) |}.

(** ** Hooks *)

Record LifecycleHook : Type := {
  lh_description : option string;
  lh_on_activate : option HookScript;
  lh_on_destroy : option HookScript;
  lh_on_attach : option HookScript;
  lh_on_detach : option HookScript;
}.
Record LifecycleHookBuilder : Type := {
  lb_description : option string;
  lb_on_activate : option HookScript;
  lb_on_destroy : option HookScript;
  lb_on_attach : option HookScript;
  lb_on_detach : option HookScript;
  lb_on_failure : option HookScript;
}.
Definition is_none {A} (o : option A) : bool := match o with None => true | Some _ => false end.
Definition build (b : LifecycleHookBuilder) : LifecycleHook + HookError :=
  if negb (is_none (lb_on_failure b)) then inr OnFailureRemoved
  else if is_none (lb_on_activate b) && is_none (lb_on_destroy b) && is_none (lb_on_attach b) && is_none (lb_on_detach b)
  then inr EmptyLifecycleHook
  else inl {| lh_description := lb_description b; lh_on_activate := lb_on_activate b; lh_on_destroy := lb_on_destroy b;
              lh_on_attach := lb_on_attach b; lh_on_detach := lb_on_detach b |}.
Definition into_builder (h : LifecycleHook) : LifecycleHookBuilder :=
  {| lb_description := lh_description h; lb_on_activate := lh_on_activate h; lb_on_destroy := lh_on_destroy h;
     lb_on_attach := lh_on_attach h; lb_on_detach := lh_on_detach h; lb_on_failure := None |}.

(** ** The wire form *)

Inductive WireHookScript : Type :=
| WireInline (body : string) (timeout_secs : Z)
| WireExternal (path : string) (timeout_secs : Z).
Record WireLifecycleHook : Type := {
  wh_description : option string;
  wh_on_activate : option WireHookScript;
  wh_on_destroy : option WireHookScript;
  wh_on_attach : option WireHookScript;
  wh_on_detach : option WireHookScript;
  wh_on_failure : option WireHookScript;
}.

Definition t_clamped (secs : Z) : Z := Z.min (Z.max secs 1) (as_secs MAX_HOOK_TIMEOUT).
Definition script_from_wire (s : WireHookScript) : HookScript :=
  let '(body, timeout_secs) := match s with WireInline b t => (Inline b, t) | WireExternal p t => (External p, t) end in
  {| hs_body := body; hs_timeout := from_secs (t_clamped timeout_secs) |}.
Definition script_to_wire (s : HookScript) : WireHookScript :=
  match hs_body s with
  | Inline body => WireInline body (as_secs (hs_timeout s))
  | External path => WireExternal path (as_secs (hs_timeout s))
  end.

(** [LifecycleHook::try_from] (the removed transition is dropped, not
    refused) and the conversion back. *)
Definition hook_from_wire (h : WireLifecycleHook) : LifecycleHook + HookError :=
  build {| lb_description := wh_description h;
           lb_on_activate := option_map script_from_wire (wh_on_activate h);
           lb_on_destroy := option_map script_from_wire (wh_on_destroy h);
           lb_on_attach := option_map script_from_wire (wh_on_attach h);
           lb_on_detach := option_map script_from_wire (wh_on_detach h);
           lb_on_failure := None |}.
Definition hook_to_wire (h : LifecycleHook) : WireLifecycleHook :=
  {| wh_description := lh_description h;
     wh_on_activate := option_map script_to_wire (lh_on_activate h);
     wh_on_destroy := option_map script_to_wire (lh_on_destroy h);
     wh_on_attach := option_map script_to_wire (lh_on_attach h);
     wh_on_detach := option_map script_to_wire (lh_on_detach h);
     wh_on_failure := None |}.

(** ** Staging *)

Definition NUL : ascii := ascii_of_nat 0.
Definition safe_path_component (s : string) : bool :=
  negb (bool_decide (s = EmptyString)) && negb (bool_decide (s = "."%string)) && negb (bool_decide (s = ".."%string)) &&
  negb (str_contains "/"%char s || str_contains BACKSLASH s || str_contains NUL s).

(** [staged_script_path]. *)
Definition staged_script_path (src : Source) (script : string) : option string :=
  match src with
  | UserLoadout name => if safe_path_component name then Some (utf8_join (utf8_join "loadout" name) script) else None
  | Project _ => Some (utf8_join "project" script)
  | Package _ => None
  end.

(** [Source::loadout_dir], with [AbsPath::sub_path_unchecked]. *)
Definition loadout_dir (src : Source) (loadouts_dir : string) : option string :=
  match src with
  | UserLoadout name => if safe_path_component name then Some (utf8_join loadouts_dir name) else None
  | Project _ | Package _ => None
  end.

(** ** Timeouts on the wire *)

(** What every constructor establishes of a script. *)
Definition script_ok (s : HookScript) : Prop :=
  0 < hs_timeout s <= MAX_HOOK_TIMEOUT /\
  match hs_body s with Inline _ => True | External p => relpath_try_new p = inl p end.
Definition whole_seconds (s : HookScript) : Prop := from_secs (as_secs (hs_timeout s)) = hs_timeout s.
Definition hook_scripts (h : LifecycleHook) : list HookScript :=
  omap id [lh_on_activate h; lh_on_destroy h; lh_on_attach h; lh_on_detach h].

Lemma t_clamped_range secs : 1 <= t_clamped secs <= 300.
Proof. unfold t_clamped, as_secs, MAX_HOOK_TIMEOUT, NANOS. change (300 * 1000000000 / 1000000000) with 300. lia. Qed.

Lemma t_clamped_id secs : 1 <= secs <= 300 -> t_clamped secs = secs.
Proof. unfold t_clamped, as_secs, MAX_HOOK_TIMEOUT, NANOS. change (300 * 1000000000 / 1000000000) with 300. lia. Qed.

Lemma whole_seconds_range s : script_ok s -> whole_seconds s -> 1 <= as_secs (hs_timeout s) <= 300.
Proof.
  intros [[Hlo Hhi] _] Hw. unfold whole_seconds, from_secs in Hw. unfold MAX_HOOK_TIMEOUT, NANOS in *. lia.
Qed.

Lemma script_wire_roundtrip s : script_ok s -> whole_seconds s -> script_from_wire (script_to_wire s) = s.
Proof.
  intros Hok Hw. pose proof (whole_seconds_range s Hok Hw) as Hr. destruct s as [[b|p] t]; cbn in *;
    unfold script_from_wire, script_to_wire; cbn; rewrite t_clamped_id by exact Hr; unfold whole_seconds in Hw; cbn in Hw; by rewrite Hw.
Qed.

Lemma script_repr_roundtrip s : script_ok s -> whole_seconds s -> script_try_from (script_into_repr s) = inl s.
Proof.
  intros Hok Hw. pose proof (whole_seconds_range s Hok Hw) as Hr.
  destruct Hok as [[Hlo Hhi] Hb]. destruct s as [b t]. cbn [hs_timeout hs_body] in *.
  unfold whole_seconds in Hw. cbn [hs_timeout] in Hw.
  assert (Hv : validate_timeout t = None).
  { unfold validate_timeout. destruct (Z.eqb_spec t 0); [lia|]. by destruct (Z.ltb_spec MAX_HOOK_TIMEOUT t); [lia|]. }
  assert (Ht : match (if t =? DEFAULT_HOOK_TIMEOUT then None else Some (as_secs t)) with
               | Some t => from_secs t | None => DEFAULT_HOOK_TIMEOUT end = t)
    by (destruct (Z.eqb_spec t DEFAULT_HOOK_TIMEOUT); [by symmetry|exact Hw]).
  destruct b as [b|p]; unfold script_try_from, script_into_repr; cbn [hs_body hs_timeout hr_timeout hr_type hr_value];
    rewrite Ht, Hv; [done|]. by rewrite Hb.
Qed.

Lemma option_map_id_on {A} (f : A -> A) (o : option A) : (forall a, o = Some a -> f a = a) -> option_map f o = o.
Proof. destruct o as [a|]; [|done]. intros H. cbn. f_equal. by apply H. Qed.

(** A hook that came in over the wire has timeouts between one second and the
    cap, whatever the peer wrote. *)
Lemma hook_from_wire_capped w h :
  hook_from_wire w = inl h -> Forall (fun s => from_secs 1 <= hs_timeout s <= MAX_HOOK_TIMEOUT) (hook_scripts h).
Proof.
  assert (Hs : forall s, from_secs 1 <= hs_timeout (script_from_wire s) <= MAX_HOOK_TIMEOUT).
  { intros s. assert (H := t_clamped_range). unfold from_secs, MAX_HOOK_TIMEOUT, NANOS in *.
    destruct s as [b t|p t]; cbn; unfold from_secs, NANOS; specialize (H t); lia. }
  unfold hook_from_wire, build. cbn [lb_on_failure is_none negb]. destruct (_ && _); [done|]. intros [= <-].
  unfold hook_scripts. cbn [lh_on_activate lh_on_destroy lh_on_attach lh_on_detach lb_on_activate lb_on_destroy lb_on_attach lb_on_detach].
  destruct w as [d [a|] [b|] [c|] [e|] f]; cbn; repeat constructor; apply Hs.
Qed.

(** A hook whose scripts keep whole seconds comes back from its wire form,
    and each script from its stored form; and whatever a peer sends, no
    script runs longer than the cap. *)
Theorem hook_wire_roundtrip h :
  hook_scripts h <> [] -> Forall (fun s => script_ok s /\ whole_seconds s) (hook_scripts h) ->
  hook_from_wire (hook_to_wire h) = inl h /\
  Forall (fun s => script_try_from (script_into_repr s) = inl s) (hook_scripts h) /\
  (forall w h', hook_from_wire w = inl h' -> Forall (fun s => hs_timeout s <= MAX_HOOK_TIMEOUT) (hook_scripts h')).
Proof.
  intros Hne Hall. split; [|split].
  - unfold hook_from_wire, hook_to_wire.
    cbn [wh_description wh_on_activate wh_on_destroy wh_on_attach wh_on_detach].
    assert (Hid : forall o, (forall s, o = Some s -> s ∈ hook_scripts h) ->
              option_map script_from_wire (option_map script_to_wire o) = o).
    { intros [s|] Ho; [|done]. cbn. f_equal.
      destruct (proj1 (list.Forall_forall _ _) Hall s (Ho s eq_refl)) as [??]. by apply script_wire_roundtrip. }
    destruct h as [d a b c e]. unfold hook_scripts in *.
    cbn [lh_on_activate lh_on_destroy lh_on_attach lh_on_detach lh_description] in *.
    rewrite !Hid; [|intros s Hs; destruct a, b, c, e; simplify_eq; cbn; set_solver..].
    unfold build. cbn [lb_on_failure lb_on_activate lb_on_destroy lb_on_attach lb_on_detach lb_description is_none negb].
    by destruct a, b, c, e.
  - eapply list.Forall_impl; [exact Hall|]. intros s [??]. by apply script_repr_roundtrip.
  - intros w h' Hw. eapply list.Forall_impl; [exact (hook_from_wire_capped w h' Hw)|]. by intros s [_ ?].
Qed.

(** A script with a timeout of half a second is accepted, but neither of its
    stored forms gives it back: seconds are truncated. *)
Example subsecond_timeout_lost :
  with_timeout (hook_inline "x") 500000000 = inl {| hs_body := Inline "x"; hs_timeout := 500000000 |} /\
  hs_timeout (script_from_wire (script_to_wire {| hs_body := Inline "x"; hs_timeout := 500000000 |})) = 1000000000 /\
  script_try_from (script_into_repr {| hs_body := Inline "x"; hs_timeout := 500000000 |}) = inr TimeoutZero.
Proof. repeat split. Qed.

(** ** Where a script is staged *)

(** The directories a source's scripts are staged below. *)
Definition staged_under (src : Source) : option (list string) :=
  match src with
  | UserLoadout name => if safe_path_component name then Some ["loadout"; name]%string else None
  | Project _ => Some ["project"%string]
  | Package _ => None
  end.

Lemma dotdot_components p : starts_slash p = false -> ".."%string ∉ components p -> ".."%string ∉ str_split "/"%char p.
Proof.
  intros Hs Hc Hin. apply Hc. unfold components.
  set (parts := List.filter (fun p => negb (bool_decide (p = EmptyString))) (str_split "/"%char p)).
  assert (Hp : In ".."%string parts) by (apply filter_In; split; [by apply list_elem_of_In|done]).
  assert (Hd : forall l, In ".."%string l -> In ".."%string (List.filter (fun p => negb (bool_decide (p = "."%string))) l))
    by (intros l Hl; by apply filter_In).
  assert (Hrel : In ".."%string match parts with [] => [] | first :: parts =>
                   first :: List.filter (fun p => negb (bool_decide (p = "."%string))) parts end).
  { destruct parts as [|f l]; [done|]. destruct Hp as [->|Hp]; [by left|right; by apply Hd]. }
  apply list_elem_of_In. destruct p as [|c p]; [exact Hrel|].
  by destruct c as [[] [] [] [] [] [] [] []].
Qed.

Lemma relpath_ok p : relpath_try_new p = inl p -> starts_slash p = false /\ ".."%string ∉ str_split "/"%char p.
Proof.
  unfold relpath_try_new. destruct (starts_slash p) eqn:Hs; [done|]. destruct (existsb _ _) eqn:E; [done|].
  intros _. split; [done|]. apply dotdot_components; [done|]. intros Hin%list_elem_of_In.
  assert (existsb (fun c => bool_decide (c = ".."%string)) (components p) = true)
    by (apply existsb_exists; exists ".."%string; by rewrite bool_decide_true). congruence.
Qed.

Lemma safe_component_ok s :
  safe_path_component s = true -> s <> EmptyString /\ s <> ".."%string /\ str_contains "/"%char s = false.
Proof.
  unfold safe_path_component. rewrite !andb_true_iff, !negb_true_iff, !orb_false_iff.
  intros [[[H1%bool_decide_eq_false _] H2%bool_decide_eq_false] [[H3 _] _]]. done.
Qed.

Lemma utf8_join_rel a b :
  a <> EmptyString -> ends_slash a = false -> starts_slash b = false -> utf8_join a b = (a ++ String "/"%char b)%string.
Proof. intros Ha He Hb. unfold utf8_join. rewrite Hb, He, bool_decide_false by done. done. Qed.

(** The parts of a staged path are its source's directories, then the
    script's own. *)
Lemma staged_parts src script p :
  starts_slash script = false -> staged_script_path src script = Some p ->
  exists dirs, staged_under src = Some dirs /\ str_split "/"%char p = dirs ++ str_split "/"%char script /\
               starts_slash p = false.
Proof.
  intros Hs. destruct src as [name|path|name]; cbn [staged_script_path staged_under]; [|intros [= <-]|done].
  - destruct (safe_path_component name) eqn:Hn; [|done]. intros [= <-].
    apply safe_component_ok in Hn as (Hne & _ & Hc).
    assert (Hj : utf8_join "loadout" name = ("loadout" ++ String "/"%char name)%string)
      by (apply utf8_join_rel; [done|done|by apply starts_slash_none]).
    exists ["loadout"; name]%string. split; [done|]. rewrite Hj, utf8_join_rel; [|done| |done].
    + split; [|done]. rewrite !str_split_app_sep. by rewrite (str_split_single _ name).
    + change ("loadout" ++ String "/"%char name)%string with ("loadout/" ++ name)%string.
      rewrite ends_slash_app by done. by apply ends_slash_none.
  - exists ["project"%string]. split; [done|]. rewrite utf8_join_rel by done.
    split; [by rewrite str_split_app_sep|done].
Qed.

(** A staged script stays below the staging directory, in the part of its
    own source: its path is relative, has no parent component, and two
    scripts with one staged path are the same script of the same loadout, or
    both of the project. *)
Theorem staged_scripts_apart src src' script script' p :
  relpath_try_new script = inl script -> relpath_try_new script' = inl script' ->
  staged_script_path src script = Some p ->
  starts_slash p = false /\ ".."%string ∉ str_split "/"%char p /\
  (staged_script_path src' script' = Some p ->
   staged_under src = staged_under src' /\ str_split "/"%char script = str_split "/"%char script').
Proof.
  intros [Hs Hd]%relpath_ok [Hs' _]%relpath_ok Hp.
  apply staged_parts in Hp as (dirs & Hu & Hparts & Hrel); [|done].
  assert (Hdirs : ".."%string ∉ dirs).
  { destruct src as [name|path|name]; cbn in Hu; [|simplify_eq|done].
    - destruct (safe_path_component name) eqn:Hn; [|done]. apply safe_component_ok in Hn as (_ & Hn & _).
      simplify_eq. set_solver.
    - set_solver. }
  split; [done|]. split; [rewrite Hparts; by apply not_elem_of_app|].
  intros Hp'. apply staged_parts in Hp' as (dirs' & Hu' & Hparts' & _); [|done].
  assert (Hsplit : dirs ++ str_split "/"%char script = dirs' ++ str_split "/"%char script') by congruence.
  assert (Hl : dirs = dirs').
  { clear Hdirs Hparts Hparts'. destruct src as [n|?|?], src' as [n'|?|?]; cbn in Hu, Hu'; try done;
      repeat (destruct (safe_path_component _); try done); simplify_eq; try done; cbn in Hsplit; by simplify_eq. }
  rewrite Hu, Hu', Hl. split; [done|]. rewrite Hl in Hsplit. by apply app_inv_head in Hsplit.
Qed.

(** [hook_wire_roundtrip] at a hook with two scripts. *)
Lemma hook_wire_roundtrip_witness :
  exists h, List.length (hook_scripts h) = 2%nat /\ hook_from_wire (hook_to_wire h) = inl h.
Proof.
  set (h := {| lh_description := Some "d"%string; lh_on_activate := Some (hook_inline "a");
               lh_on_destroy := None; lh_on_attach := None;
               lh_on_detach := Some {| hs_body := External "x/y.sh"; hs_timeout := 5000000000 |} |}).
  exists h. split; [reflexivity|].
  apply (hook_wire_roundtrip h); [discriminate|].
  repeat constructor; vm_compute; try reflexivity; discriminate.
Defined.

(** [staged_scripts_apart] at a loadout's script. *)
Lemma staged_scripts_apart_witness :
  starts_slash "loadout/dev/a.sh" = false /\ ".."%string ∉ str_split "/"%char "loadout/dev/a.sh".
Proof.
  destruct (staged_scripts_apart (UserLoadout "dev") (Project "/p") "a.sh" "a.sh" "loadout/dev/a.sh"
              eq_refl eq_refl eq_refl) as (H1 & H2 & _).
  exact (conj H1 H2).
Defined.
