(* ===== verification/Compose.v ===== *)
(** * The composition (crates/boxes/src/core/compose.rs, compose/conflict.rs)

    What the contributions to a session are made of, the rules under which
    two contributions conflict, and the composition the accepted items end up
    in.  The wire forms of vars, patches, packages and sources repeat the
    fields of the domain types and are modelled by them; the wire form of a
    resolved var, which drops the spec, and of a hook, whose conversion can
    fail, are their own types.  Paths compare by their components, as
    [Utf8Path] does. *)

From stdpp Require Import base list sets strings numbers pretty.
From Stdlib Require Import ZArith Lia Ascii String.
From S2P Require Import Prelude Text Classifier Expansion Policy LifecycleHook.
Open Scope nat_scope.
#[local] Close Scope Z_scope.

(** ** Items *)

Inductive VarValue : Type := Inherit | InheritWithDefault (default : string) | Specified (value : string).
Inductive EnvError : Type := NotPresent | NotUnicode.
Record ResolvedVar : Type := { rv_name : string; rv_value : string; rv_user_data : bool; rv_spec : VarValue }.

(** [ResolvedVar::resolve_with]; the error is the variable's name and the
    lookup's error. *)
Definition resolve_with (name : string) (value : VarValue) (lookup : string -> string + EnvError)
    : ResolvedVar + (string * EnvError) :=
  let resolved v user := inl {| rv_name := name; rv_value := v; rv_user_data := user; rv_spec := value |} in
  match value with
  | Specified v => resolved v false
  | Inherit => match lookup name with inl v => resolved v true | inr e => inr (name, e) end
  | InheritWithDefault d =>
      match lookup name with
      | inl v => resolved v true
      | inr NotPresent => resolved d false
      | inr NotUnicode => inr (name, NotUnicode)
      end
  end.

Record WireResolvedVar : Type := { wv_name : string; wv_value : string; wv_user_data : bool }.
Definition var_to_wire (v : ResolvedVar) : WireResolvedVar :=
  {| wv_name := rv_name v; wv_value := rv_value v; wv_user_data := rv_user_data v |}.
Definition var_from_wire (v : WireResolvedVar) : ResolvedVar :=
  {| rv_name := wv_name v; rv_value := wv_value v; rv_user_data := wv_user_data v; rv_spec := Specified (wv_value v) |}.

Record ProvenancedVar : Type := { pv_var : ResolvedVar; pv_source : Source }.
(** [SessionVar] is a newtype of it. *)
Definition SessionVar : Type := ProvenancedVar.
Record Patch : Type := { pt_source : string; pt_dest : string }.
Record ProvenancedPatch : Type := { pn_patch : Patch; pn_source : Source; pn_follow : option bool }.
Record ResolvedPatch : Type := { rp_host_path : string; rp_dest : string }.
Record SessionPatch : Type := { sp_patch : ResolvedPatch; sp_source : Source }.
Record ProvenancedPackage : Type := { pk_package : string; pk_source : Source }.
Record ProvenancedHook : Type := { ph_hook : LifecycleHook; ph_source : Source }.
Record WireProvenancedHook : Type := { wp_hook : WireLifecycleHook; wp_source : Source }.

#[global] Instance var_provenanced : Provenanced ProvenancedVar := pv_source.
#[global] Instance patch_provenanced : Provenanced ProvenancedPatch := pn_source.
#[global] Instance session_patch_provenanced : Provenanced SessionPatch := sp_source.

(** [VarLookup for [SessionVar]]: the first var of that name. *)
Definition session_lookup (vars : list SessionVar) (name : string) : option string :=
  option_map (fun v => rv_value (pv_var v)) (List.find (fun v => bool_decide (rv_name (pv_var v) = name)) vars).

Record Contribution : Type := {
  ct_vars : list ProvenancedVar;
  ct_patches : list ProvenancedPatch;
  ct_packages : list ProvenancedPackage;
  ct_hooks : list ProvenancedHook;
}.

(** ** Conflicts *)

Inductive Conflict : Type :=
| VarValueMismatch (name : string) (disagreeing_values : list (Source * string))
| PatchSourceMismatch (dest : string) (disagreeing_sources : list (Source * string))
| PatchDestPrefixCollision (shorter longer : string) (contributors : (Source * string) * (Source * string)).

(** [Utf8Path] equality. *)
Definition same_path (a b : string) : bool := bool_decide (components a = components b).

(** [group_by_key]: the buckets in the order their keys are first seen. *)
Section Group.
Context {T K : Type} (keq : K -> K -> bool) (key : T -> K).
Fixpoint bucket_push (acc : list (K * list T)) (k : K) (item : T) : list (K * list T) :=
  match acc with
  | [] => [(k, [item])]
  | (g, bucket) :: acc => if keq g k then (g, bucket ++ [item]) :: acc else (g, bucket) :: bucket_push acc k item
  end.
Definition group_by_key (items : list T) : list (K * list T) :=
  fold_left (fun acc item => bucket_push acc (key item) item) items [].
End Group.

(** [disagreement] and [collect_contributions]. *)
Definition disagreement {T} (extract : T -> string) (group : list T) : bool :=
  match group with
  | [] => false
  | first :: rest => existsb (fun x => negb (bool_decide (extract x = extract first))) rest
  end.
Definition collect_contributions {T} `{Provenanced T} (extract : T -> string) (group : list T) : list (Source * string) :=
  map (fun x => (source x, extract x)) group.

(** [check_var_mismatches] and [check_patch_mismatches]: [Some] is the
    conflict. *)
Definition check_var_mismatches {T} `{Provenanced T} (name value : T -> string) (items : list T) : option Conflict :=
  match List.find (fun g => disagreement value g.2) (group_by_key (fun a b => bool_decide (a = b)) name items) with
  | Some (n, group) => Some (VarValueMismatch n (collect_contributions value group))
  | None => None
  end.
Definition check_patch_mismatches {T} `{Provenanced T} (dest pattern : T -> string) (items : list T) : option Conflict :=
  match List.find (fun g => disagreement pattern g.2) (group_by_key same_path dest items) with
  | Some (d, group) => Some (PatchSourceMismatch d (collect_contributions pattern group))
  | None => None
  end.

(** [is_component_prefix]. *)
Fixpoint proper_prefix (s l : list string) : bool :=
  match s, l with
  | a :: s, b :: l => if bool_decide (a = b) then proper_prefix s l else false
  | _ :: _, [] | [], [] => false
  | [], _ :: _ => true
  end.
Definition is_component_prefix (shorter longer : string) : bool := proper_prefix (components shorter) (components longer).

(** [check_patch_prefix_collisions]. *)
Section Prefix.
Context {T : Type} `{Provenanced T} (dest : T -> string).
Fixpoint collision_with (a : T) (rest : list T) : option Conflict :=
  match rest with
  | [] => None
  | b :: rest =>
      if same_path (dest a) (dest b) then collision_with a rest
      else if is_component_prefix (dest a) (dest b) then
        Some (PatchDestPrefixCollision (dest a) (dest b) ((source a, dest a), (source b, dest b)))
      else if is_component_prefix (dest b) (dest a) then
        Some (PatchDestPrefixCollision (dest b) (dest a) ((source b, dest b), (source a, dest a)))
      else collision_with a rest
  end.
Fixpoint check_patch_prefix_collisions (items : list T) : option Conflict :=
  match items with
  | [] => None
  | a :: rest =>
      match collision_with a rest with
      | Some c => Some c
      | None => check_patch_prefix_collisions rest
      end
  end.
End Prefix.

(** [dedupe_by_name]: the first of each name stays. *)
Fixpoint dedupe_from {T} (name : T -> string) (seen : list string) (items : list T) : list T :=
  match items with
  | [] => []
  | item :: items =>
      if existsb (fun s => bool_decide (s = name item)) seen then dedupe_from name seen items
      else item :: dedupe_from name (seen ++ [name item]) items
  end.
Definition dedupe_by_name {T} (name : T -> string) (items : list T) : list T := dedupe_from name [] items.

(** [Contribution::merge] and [drop_package_supplied_patches_and_user_data_vars]. *)
Definition merge (c other : Contribution) : Contribution :=
  {| ct_vars := ct_vars c ++ ct_vars other;
     ct_patches := ct_patches c ++ ct_patches other;
     ct_packages := dedupe_by_name pk_package (ct_packages c ++ ct_packages other);
     ct_hooks := ct_hooks c ++ ct_hooks other |}.
Definition drop_package_supplied (c : Contribution) : Contribution :=
  {| ct_vars := List.filter (fun v => negb (is_package (pv_source v) && rv_user_data (pv_var v))) (ct_vars c);
     ct_patches := List.filter (fun p => negb (is_package (pn_source p))) (ct_patches c);
     ct_packages := ct_packages c;
     ct_hooks := ct_hooks c |}.

(** ** Errors *)

Inductive PatchError : Type :=
| InvalidGlob (pattern : string)
| EmptyDest
| DestTraversal (path : string)
| AbsoluteDestPath (e : RelPathError)
| WalkFailure (root what : string)
| NonUtf8Path (path_lossy : string)
| NoWalkRoot (pattern : string)
| CanonicalizeFailure (path what : string)
| NonUtf8CanonicalPath (path_lossy : string)
| SizeCapExceeded (root : string) (limit_bytes : Z)
| SizeMetadataFailure (path what : string).

Inductive ComposeError : Type :=
| ErrDenied (what : string) (from : Source)
| ErrAborted
| ErrHookContract (kind context : string)
| ErrHookRequired (what : string) (from : Source)
| ErrPatchWalk (sources : list PatchError)
| ErrInvalidWireItem (what context : string)
| ErrInvalidPendingPatchDest (e : PatchError)
| ErrExpansion (e : ExpandError)
| ErrVarResolution (name : string) (e : EnvError)
| ErrConflict (c : Conflict).

Inductive HookDomain : Type := DomainVar | DomainPatch | DomainHook.
Definition use_rule_undecided (domain : HookDomain) (item_label : string) : ComposeError :=
  ErrHookContract
    (match domain with
     | DomainVar => "UseRule returned for a var the policy still cannot decide"
     | DomainPatch => "UseRule returned for a patch file the policy still cannot decide"
     | DomainHook => "UseRule returned for a project whose hooks the policy still cannot decide"
     end) item_label.
Definition hook_decision_count_mismatch (domain : HookDomain) (expected got : nat) : ComposeError :=
  ErrHookContract
    (match domain with
     | DomainVar => "var-domain hook returned the wrong number of decisions"
     | DomainPatch => "patch-domain hook returned the wrong number of decisions"
     | DomainHook => "lifecycle-hook-domain hook returned the wrong number of decisions"
     end) ("expected " ++ pretty expected ++ ", got " ++ pretty got).

(** ** The composition *)

Record Composition : Type := {
  cp_vars : list SessionVar;
  cp_patches : list SessionPatch;
  cp_packages : list ProvenancedPackage;
  cp_hooks : list ProvenancedHook;
  cp_orientation : string;
}.
Record WireContribution : Type := {
  wc_vars : list (WireResolvedVar * Source);
  wc_patches : list SessionPatch;
  wc_hooks : list WireProvenancedHook;
  wc_packages : list ProvenancedPackage;
  wc_orientation : string;
}.

(** [Composition::check_incoming_conflicts]. *)
Definition var_name (v : SessionVar) : string := rv_name (pv_var v).
Definition var_value (v : SessionVar) : string := rv_value (pv_var v).
Definition patch_dest (p : SessionPatch) : string := rp_dest (sp_patch p).
Definition patch_host (p : SessionPatch) : string := rp_host_path (sp_patch p).
Definition check_conflicts (vars : list SessionVar) (patches : list SessionPatch) : option Conflict :=
  match check_var_mismatches var_name var_value vars with
  | Some c => Some c
  | None =>
      match check_patch_mismatches patch_dest patch_host patches with
      | Some c => Some c
      | None => check_patch_prefix_collisions patch_dest patches
      end
  end.
Definition check_incoming_conflicts (c : Composition) (vars : list SessionVar) (patches : list SessionPatch) : option Conflict :=
  check_conflicts (cp_vars c ++ vars) (cp_patches c ++ patches).

(** [Composition::from_daemon_passthrough], [extend_with] and
    [extend_from_wire]. *)
Definition from_daemon_passthrough (packages : list ProvenancedPackage) (hooks : list ProvenancedHook) : Composition :=
  {| cp_vars := []; cp_patches := []; cp_packages := dedupe_by_name pk_package packages; cp_hooks := hooks;
     cp_orientation := EmptyString |}.
Definition extend_with (c : Composition) (vars : list SessionVar) (patches : list SessionPatch) : Composition + ComposeError :=
  match check_incoming_conflicts c vars patches with
  | Some conflict => inr (ErrConflict conflict)
  | None => inl {| cp_vars := cp_vars c ++ vars; cp_patches := cp_patches c ++ patches; cp_packages := cp_packages c;
                   cp_hooks := cp_hooks c; cp_orientation := cp_orientation c |}
  end.

Definition show_relpath_error (e : RelPathError) : string :=
  match e with
  | IsAbsolute p => "expected a relative path, got: " ++ p
  | ContainsParentDir p => "path contains a `..` traversal component: " ++ p
  end%string.
Definition show_hook_error (e : HookError) : string :=
  match e with
  | EmptyLifecycleHook => "at least one of on_activate, on_destroy, on_attach, or on_detach must be specified"
  | OnFailureRemoved => "`on_failure` is no longer a lifecycle transition; use `on_destroy` instead"
  | TimeoutTooLarge got => "hook timeout of " ++ pretty got ++ "s exceeds the maximum of " ++ pretty (as_secs MAX_HOOK_TIMEOUT) ++ "s"
  | TimeoutZero => "hook timeout must be greater than zero"
  | HookPath e => "external hook script path: " ++ show_relpath_error e
  end%string.
Definition provenanced_hook_from_wire (h : WireProvenancedHook) : ProvenancedHook + ComposeError :=
  match hook_from_wire (wp_hook h) with
  | inl hook => inl {| ph_hook := hook; ph_source := wp_source h |}
  | inr e => inr (ErrInvalidWireItem "lifecycle hook with no callbacks" (show_hook_error e))
  end.
Definition session_var_from_wire (v : WireResolvedVar * Source) : SessionVar :=
  {| pv_var := var_from_wire v.1; pv_source := v.2 |}.
Definition extend_from_wire (c : Composition) (wire : WireContribution) : Composition + ComposeError :=
  match collect provenanced_hook_from_wire (wc_hooks wire) with
  | inr e => inr e
  | inl incoming_hooks =>
      let incoming_vars := map session_var_from_wire (wc_vars wire) in
      let incoming_patches := wc_patches wire in
      match check_incoming_conflicts c incoming_vars incoming_patches with
      | Some conflict => inr (ErrConflict conflict)
      | None =>
          inl {| cp_vars := cp_vars c ++ incoming_vars;
                 cp_patches := cp_patches c ++ incoming_patches;
                 cp_packages := dedupe_by_name pk_package (cp_packages c ++ wc_packages wire);
                 cp_hooks := cp_hooks c ++ incoming_hooks;
                 cp_orientation := wc_orientation wire |}
      end
  end.

(** ** What the conflict checks decide *)

(** Both key equalities compare an image of the key. *)
Section GroupProps.
Context {T K C : Type} (keq : K -> K -> bool) (f : K -> C) (Hkeq : forall a b, keq a b = true <-> f a = f b) (key : T -> K).

Lemma bucket_push_keys (acc : list (K * list T)) (k : K) (x : T) :
  NoDup (map (fun g => f g.1) acc) -> NoDup (map (fun g => f g.1) (bucket_push keq acc k x)).
Proof.
  induction acc as [|[g b] acc IH]; cbn; intros Hnd; [repeat constructor; set_solver|].
  apply NoDup_cons in Hnd as [Hg Hnd]. destruct (keq g k) eqn:E; cbn; [by constructor|].
  constructor; [|by apply IH]. intros Hin. apply Hg. clear IH Hg Hnd.
  induction acc as [|[g' b'] acc IH]; cbn in *.
  - apply list_elem_of_singleton in Hin. apply Hkeq in Hin. congruence.
  - destruct (keq g' k); cbn in *; set_solver.
Qed.

Lemma bucket_push_in (acc : list (K * list T)) (k : K) (x : T) :
  exists g, g ∈ bucket_push keq acc k x /\ x ∈ g.2 /\ f g.1 = f k.
Proof.
  induction acc as [|[g b] acc IH]; cbn.
  - exists (k, [x]). cbn. set_solver.
  - destruct (keq g k) eqn:E.
    + exists (g, b ++ [x]). apply Hkeq in E. cbn. set_solver.
    + destruct IH as (h & Hh & Hx & Hf). exists h. set_solver.
Qed.

Lemma bucket_push_mono (acc : list (K * list T)) (k : K) (x : T) g :
  g ∈ acc -> exists g', g' ∈ bucket_push keq acc k x /\ g'.1 = g.1 /\ forall y, y ∈ g.2 -> y ∈ g'.2.
Proof.
  induction acc as [|[h b] acc IH]; [set_solver|]. intros [->|Hin]%elem_of_cons; cbn.
  - destruct (keq h k); [exists (h, b ++ [x])|exists (h, b)]; cbn; set_solver.
  - destruct (IH Hin) as (g' & Hg' & ? & ?). destruct (keq h k); [exists g|exists g']; set_solver.
Qed.

Lemma bucket_push_sound (acc : list (K * list T)) (k : K) (x : T) g y :
  g ∈ bucket_push keq acc k x -> y ∈ g.2 -> (y = x /\ f g.1 = f k) \/ exists h, h ∈ acc /\ h.1 = g.1 /\ y ∈ h.2.
Proof.
  induction acc as [|[h b] acc IH]; cbn.
  - intros ->%list_elem_of_singleton. cbn. intros ->%list_elem_of_singleton. by left.
  - destruct (keq h k) eqn:E; intros [->|Hin]%elem_of_cons Hy.
    + cbn in *. apply elem_of_app in Hy as [Hy|Hy].
      * right. exists (h, b). set_solver.
      * apply list_elem_of_singleton in Hy. apply Hkeq in E. by left.
    + right. exists g. set_solver.
    + right. exists (h, b). set_solver.
    + destruct (IH Hin Hy) as [?|(h' & ? & ? & ?)]; [by left|right; exists h'; set_solver].
Qed.

(** The buckets of a list: every bucket holds items of one key, and two items
    of one key share a bucket. *)
Lemma group_by_key_spec items :
  (forall g y, g ∈ group_by_key keq key items -> y ∈ g.2 -> y ∈ items /\ f (key y) = f g.1) /\
  (forall a b, a ∈ items -> b ∈ items -> f (key a) = f (key b) ->
    exists g, g ∈ group_by_key keq key items /\ a ∈ g.2 /\ b ∈ g.2).
Proof.
  set (groups := group_by_key keq key items).
  assert (H : NoDup (map (fun g => f g.1) groups) /\
              (forall y, y ∈ items -> exists g, g ∈ groups /\ y ∈ g.2 /\ f g.1 = f (key y)) /\
              (forall g y, g ∈ groups -> y ∈ g.2 -> y ∈ items /\ f (key y) = f g.1)).
  { unfold groups, group_by_key. induction items as [|x items IH] using rev_ind; [cbn; split; [constructor|set_solver]|].
    rewrite fold_left_app. cbn. destruct IH as (Hnd & Hcov & Hsnd).
    set (acc := fold_left _ items []) in *. split; [by apply bucket_push_keys|]. split.
    - intros y [Hy|Hy]%elem_of_app.
      + destruct (Hcov y Hy) as (g & Hg & Hyg & Hf). destruct (bucket_push_mono acc (key x) x g Hg) as (g' & ? & Hk & ?).
        exists g'. rewrite Hk. auto.
      + apply list_elem_of_singleton in Hy as ->. apply bucket_push_in.
    - intros g y Hg Hy. destruct (bucket_push_sound _ _ _ _ _ Hg Hy) as [[-> Hf]|(h & Hh & Hk & Hy')].
      + split; [set_solver|done].
      + destruct (Hsnd h y Hh Hy') as [? ?]. rewrite <- Hk. split; [set_solver|done]. }
  destruct H as (Hnd & Hcov & Hsnd). split; [exact Hsnd|].
  intros a b Ha Hb Hab. destruct (Hcov a Ha) as (g & Hg & Hag & Hfg), (Hcov b Hb) as (g' & Hg' & Hbg & Hfg').
  assert (g = g') as <-; [|by exists g].
  apply list_elem_of_lookup in Hg as [i Hi]. apply list_elem_of_lookup in Hg' as [j Hj].
  assert (i = j) as <-; [|congruence].
  apply (NoDup_lookup (map (fun g => f g.1) groups) i j (f (key a))); [done| |].
  - rewrite list_lookup_fmap, Hi. cbn. congruence.
  - rewrite list_lookup_fmap, Hj. cbn. congruence.
Qed.

Lemma disagreement_false (extract : T -> string) group :
  disagreement extract group = false <-> forall a b, a ∈ group -> b ∈ group -> extract a = extract b.
Proof.
  destruct group as [|x l]; cbn; [set_solver|]. split.
  - intros H. assert (Hx : forall y, y ∈ x :: l -> extract y = extract x).
    { intros y [->|Hy]%elem_of_cons; [done|]. destruct (decide (extract y = extract x)) as [|Hne]; [done|].
      assert (existsb (fun y => negb (bool_decide (extract y = extract x))) l = true); [|congruence].
      apply existsb_exists. exists y. split; [by apply list_elem_of_In|]. by rewrite bool_decide_false. }
    intros a b Ha Hb. rewrite (Hx a Ha), (Hx b Hb). done.
  - intros H. destruct (existsb _ l) eqn:E; [|done]. apply existsb_exists in E as (y & Hy & Hne).
    apply list_elem_of_In in Hy. rewrite bool_decide_true in Hne; [done|]. apply H; set_solver.
Qed.

(** No bucket disagrees exactly when items of one key agree. *)
Lemma find_disagreement_none (extract : T -> string) items :
  List.find (fun g => disagreement extract g.2) (group_by_key keq key items) = None <->
  forall a b, a ∈ items -> b ∈ items -> f (key a) = f (key b) -> extract a = extract b.
Proof.
  destruct (group_by_key_spec items) as [Hsnd Hcov]. split.
  - intros Hnone a b Ha Hb Hab. destruct (Hcov a b Ha Hb Hab) as (g & Hg & Hag & Hbg).
    apply list_elem_of_In in Hg. pose proof (find_none _ _ Hnone g Hg) as Hd.
    apply (proj1 (disagreement_false extract g.2) Hd); done.
  - intros H. destruct (List.find _ _) as [g|] eqn:E; [|done]. apply find_some in E as [Hg Hd].
    apply list_elem_of_In in Hg.
    assert (disagreement extract g.2 = false); [|congruence]. apply disagreement_false.
    intros a b Ha Hb. destruct (Hsnd g a Hg Ha) as [? ?], (Hsnd g b Hg Hb) as [? ?]. apply H; congruence.
Qed.
End GroupProps.

Lemma proper_prefix_iff s l : proper_prefix s l = true <-> exists t, t <> [] /\ l = s ++ t.
Proof.
  revert l. induction s as [|a s IH]; intros [|b l]; cbn.
  - split; [done|]. intros (t & Ht & H). by destruct t.
  - split; [|done]. intros _. by exists (b :: l).
  - split; [done|]. by intros (t & Ht & H).
  - case_bool_decide as Hab; [subst b; rewrite IH|split; [done|]].
    + split; intros (t & Ht & H); exists t; split; [done|congruence|done|congruence].
    + intros (t & _ & H). congruence.
Qed.

Lemma proper_prefix_irrefl l : proper_prefix l l = false.
Proof. induction l as [|a l IH]; [done|]. cbn. by rewrite bool_decide_true. Qed.

Section PrefixProps.
Context {T : Type} `{Provenanced T} (dest : T -> string).

Lemma collision_with_none a rest :
  collision_with dest a rest = None <->
  forall b, b ∈ rest -> is_component_prefix (dest a) (dest b) = false /\ is_component_prefix (dest b) (dest a) = false.
Proof.
  induction rest as [|b rest IH]; cbn; [split; [set_solver|done]|].
  assert (Hsame : same_path (dest a) (dest b) = true ->
            is_component_prefix (dest a) (dest b) = false /\ is_component_prefix (dest b) (dest a) = false).
  { unfold same_path, is_component_prefix. intros ->%bool_decide_eq_true. by rewrite proper_prefix_irrefl. }
  assert (Hcons : forall P : T -> Prop, (forall x, x ∈ b :: rest -> P x) <-> P b /\ forall x, x ∈ rest -> P x).
  { intros P. split; [intros Hall; split; [|intros x Hx]; apply Hall; by constructor|].
    intros [Hb Hr] x [->|Hx]%elem_of_cons; auto. }
  rewrite Hcons. destruct (same_path (dest a) (dest b)); [rewrite IH; naive_solver|].
  destruct (is_component_prefix (dest a) (dest b)) eqn:E1.
  { split; [done|]. by intros [[? _] _]. }
  destruct (is_component_prefix (dest b) (dest a)) eqn:E2.
  { split; [done|]. by intros [[_ ?] _]. }
  rewrite IH. naive_solver.
Qed.

Lemma prefix_collisions_none items :
  check_patch_prefix_collisions dest items = None <->
  forall a b, a ∈ items -> b ∈ items -> is_component_prefix (dest a) (dest b) = false.
Proof.
  induction items as [|a rest IH]; cbn; [split; [set_solver|done]|].
  pose proof (collision_with_none a rest) as Hc. destruct (collision_with dest a rest) as [c|].
  - split; [done|]. intros Hall. assert (Some c = None); [|done]. apply Hc. intros b Hb. split; apply Hall; set_solver.
  - rewrite IH. assert (Hr := proj1 Hc eq_refl).
    assert (Ha : is_component_prefix (dest a) (dest a) = false) by apply proper_prefix_irrefl. split.
    + intros Hall x y [->|Hx]%elem_of_cons [->|Hy]%elem_of_cons; [done|by apply Hr|by apply Hr|by apply Hall].
    + intros Hall x y Hx Hy. apply Hall; set_solver.
Qed.
End PrefixProps.

(** The vars and patches a composition may hold together: one value per name,
    one host file per destination, and no destination below another. *)
Definition agree (vars : list SessionVar) (patches : list SessionPatch) : Prop :=
  (forall a b, a ∈ vars -> b ∈ vars -> var_name a = var_name b -> var_value a = var_value b) /\
  (forall a b, a ∈ patches -> b ∈ patches -> components (patch_dest a) = components (patch_dest b) -> patch_host a = patch_host b) /\
  (forall a b t, a ∈ patches -> b ∈ patches -> t <> [] -> components (patch_dest b) <> components (patch_dest a) ++ t).

Lemma check_conflicts_none vars patches : check_conflicts vars patches = None <-> agree vars patches.
Proof.
  unfold check_conflicts, agree, check_var_mismatches, check_patch_mismatches.
  assert (Hid : forall a b : string, bool_decide (a = b) = true <-> id a = id b) by (intros; apply bool_decide_eq_true).
  assert (Hpath : forall a b, same_path a b = true <-> components a = components b) by (intros; apply bool_decide_eq_true).
  pose proof (find_disagreement_none _ id Hid var_name var_value vars) as Hv.
  pose proof (find_disagreement_none _ components Hpath patch_dest patch_host patches) as Hp.
  pose proof (prefix_collisions_none patch_dest patches) as Hc.
  assert (Hpre : (forall a b, a ∈ patches -> b ∈ patches -> is_component_prefix (patch_dest a) (patch_dest b) = false) <->
    forall a b t, a ∈ patches -> b ∈ patches -> t <> [] -> components (patch_dest b) <> components (patch_dest a) ++ t).
  { unfold is_component_prefix. split.
    - intros H a b t Ha Hb Ht E. specialize (H a b Ha Hb).
      assert (proper_prefix (components (patch_dest a)) (components (patch_dest b)) = true); [|congruence].
      apply proper_prefix_iff. by exists t.
    - intros H a b Ha Hb. destruct (proper_prefix _ _) eqn:E; [|done]. apply proper_prefix_iff in E as (t & Ht & E).
      destruct (H a b t Ha Hb Ht E). }
  destruct (List.find _ (group_by_key _ var_name vars)) as [[n g]|]; [split; [done|]; intros (H & _); by apply Hv in H|].
  destruct (List.find _ (group_by_key _ patch_dest patches)) as [[n g]|]; [split; [done|]; intros (_ & H & _); by apply Hp in H|].
  rewrite Hc, Hpre. split; [|by intros (_ & _ & ?)]. intros H. split; [by apply Hv|]. split; [by apply Hp|done].
Qed.

(** ** Deduplicated packages *)

Lemma dedupe_from_spec {T} (name : T -> string) seen items :
  dedupe_from name seen items `sublist_of` items /\
  NoDup (map name (dedupe_from name seen items)) /\
  (forall x, x ∈ map name (dedupe_from name seen items) <-> x ∈ map name items /\ x ∉ seen).
Proof.
  revert seen. induction items as [|a items IH]; intros seen; cbn; [split; [done|]; split; [constructor|set_solver]|].
  destruct (existsb _ seen) eqn:E.
  - destruct (IH seen) as (Hs & Hn & Hx). split; [by constructor|]. split; [done|].
    apply existsb_exists in E as (s & Hs' & ->%bool_decide_eq_true). apply list_elem_of_In in Hs'. set_solver.
  - assert (Ha : name a ∉ seen).
    { intros Hin%list_elem_of_In. assert (existsb (fun s => bool_decide (s = name a)) seen = true); [|congruence].
      apply existsb_exists. exists (name a). by rewrite bool_decide_true. }
    destruct (IH (seen ++ [name a])) as (Hs & Hn & Hx). cbn. split; [by constructor|]. split.
    + constructor; [|done]. rewrite Hx. set_solver.
    + intros x. rewrite !elem_of_cons, Hx. destruct (decide (x = name a)) as [->|]; set_solver.
Qed.

(** The invariant of a composition. *)
Definition consistent (c : Composition) : Prop :=
  agree (cp_vars c) (cp_patches c) /\ NoDup (map pk_package (cp_packages c)).

Lemma passthrough_consistent packages hooks : consistent (from_daemon_passthrough packages hooks).
Proof.
  split; [by repeat split; intros; set_solver|]. destruct (dedupe_from_spec pk_package [] packages) as (_ & H & _). exact H.
Qed.

Lemma extend_with_consistent c vars patches c' : consistent c -> extend_with c vars patches = inl c' -> consistent c'.
Proof.
  intros [_ Hp] H. unfold extend_with in H. destruct (check_incoming_conflicts c vars patches) eqn:E; [done|].
  injection H as <-. split; [by apply check_conflicts_none|done].
Qed.

Lemma extend_from_wire_consistent c wire c' : extend_from_wire c wire = inl c' -> consistent c'.
Proof.
  intros H. unfold extend_from_wire in H. destruct (collect _ _) as [hs|]; [|done].
  destruct (check_incoming_conflicts _ _ _) eqn:E; [done|]. injection H as <-. split; [by apply check_conflicts_none|].
  by destruct (dedupe_from_spec pk_package [] (cp_packages c ++ wc_packages wire)) as (_ & Hn & _).
Qed.

(** Extending a composition with a client's contribution succeeds exactly
    when everything it holds and everything that comes in agree; what it then
    holds is both in order, consistent, with each package name once and the
    first declaration of it kept. *)
Theorem extend_exact c wire :
  Forall (fun h => exists ph, provenanced_hook_from_wire h = inl ph) (wc_hooks wire) ->
  let vars := cp_vars c ++ map session_var_from_wire (wc_vars wire) in
  let patches := cp_patches c ++ wc_patches wire in
  ((exists c', extend_from_wire c wire = inl c') <-> agree vars patches) /\
  forall c', extend_from_wire c wire = inl c' ->
    consistent c' /\ cp_vars c' = vars /\ cp_patches c' = patches /\
    cp_packages c' `sublist_of` cp_packages c ++ wc_packages wire /\
    (forall n, n ∈ map pk_package (cp_packages c') <-> n ∈ map pk_package (cp_packages c ++ wc_packages wire)).
Proof.
  intros Hh vars patches.
  assert (exists hs, collect provenanced_hook_from_wire (wc_hooks wire) = inl hs) as [hs Hhs].
  { induction Hh as [|h l [ph Hph] _ [hs IH]]; [by eexists|]. cbn. rewrite Hph, IH. by eexists. }
  split.
  - unfold extend_from_wire. rewrite Hhs, <- check_conflicts_none. unfold check_incoming_conflicts. fold vars patches.
    destruct (check_conflicts vars patches); split; [by intros [??]|done|done|by eexists].
  - intros c' Hc. split; [by eapply extend_from_wire_consistent|]. unfold extend_from_wire in Hc. rewrite Hhs in Hc.
    destruct (check_incoming_conflicts _ _ _); [done|]. injection Hc as <-. cbn [cp_vars cp_patches cp_packages].
    destruct (dedupe_from_spec pk_package [] (cp_packages c ++ wc_packages wire)) as (Hs & _ & Hx).
    split; [done|]. split; [done|]. split; [exact Hs|]. intros n. unfold dedupe_by_name. rewrite Hx. set_solver.
Qed.

(** A contribution that repeats a var and a package. *)
Definition sample_wire : WireContribution :=
  {| wc_vars := [({| wv_name := "X"; wv_value := "1"; wv_user_data := false |}, UserLoadout "d");
                 ({| wv_name := "X"; wv_value := "1"; wv_user_data := false |}, UserLoadout "e")];
     wc_patches := []; wc_hooks := [];
     wc_packages := [{| pk_package := "p"; pk_source := UserLoadout "d" |}]; wc_orientation := "" |}.
Definition sample_base : Composition := from_daemon_passthrough [{| pk_package := "p"; pk_source := Project "/a" |}] [].

(** [extend_exact] at that contribution. *)
Lemma extend_exact_witness : exists c', extend_from_wire sample_base sample_wire = inl c' /\ consistent c'.
Proof.
  eexists. split; [reflexivity|].
  exact (proj1 (proj2 (extend_exact sample_base sample_wire (List.Forall_nil _)) _ eq_refl)).
Defined.
