(* ===== verification/Enumerate.v ===== *)
(** * Patch enumeration (crates/boxes/src/core/enumerate.rs, primitives.rs)

    From a patch's expanded source to the files it copies: where the walk
    starts, which of the walker's entries are files of the patch, the size
    cap on plain directories, the target of a symlink, and the destination of
    each file.  The walker, file sizes and canonicalisation are parameters:
    they are the file system. *)

From stdpp Require Import base list sets strings numbers pretty.
From Stdlib Require Import ZArith Lia Ascii String.
From S2P Require Import Prelude Text Classifier Expansion Policy LifecycleHook Compose.
Open Scope nat_scope.
#[local] Close Scope Z_scope.

(** ** The walk root *)

(** [EitherPath::try_new]. *)
Definition hostpath_try_new (p : string) : option string :=
  if starts_slash p then Some p else match relpath_try_new p with inl p => Some p | inr _ => None end.

(** The loop of [FileSet::walk_root]: [skip] bytes are already consumed. *)
Fixpoint walk_from (literal : string) (last_slash : option nat) (skip : nat) (s : string) : option string :=
  let cut := match last_slash with Some n => hostpath_try_new (substring 0 n literal) | None => None end in
  match s with
  | EmptyString => hostpath_try_new literal
  | String c rest =>
      match skip with
      | S skip => walk_from literal last_slash skip rest
      | O =>
          if Ascii.eqb c "/"%char then walk_from (literal ++ "/") (Some (String.length literal)) 0 rest
          else if Ascii.eqb c "*"%char || Ascii.eqb c "?"%char || Ascii.eqb c "{"%char then cut
          else if Ascii.eqb c "["%char then
            match rest with
            | String d (String e _) =>
                if Ascii.eqb e "]"%char then walk_from (literal ++ String d EmptyString) last_slash 2 rest else cut
            | _ => cut
            end
          else walk_from (literal ++ String c EmptyString) last_slash 0 rest
      end
  end.
Definition walk_root (fs : FileSet) : option string := walk_from EmptyString None 0 fs.

(** ** Destinations *)

(** [PatchDest::try_new]. *)
Fixpoint normalize_dest (acc : string) (cs : list string) : option string :=
  match cs with
  | [] => Some acc
  | c :: cs =>
      if bool_decide (c = "."%string) then normalize_dest acc cs
      else if bool_decide (c = ".."%string) then None
      else normalize_dest (utf8_join acc c) cs
  end.
Definition patchdest_try_new (path : string) : string + PatchError :=
  if bool_decide (path = EmptyString) then inr EmptyDest
  else
    let path :=
      match strip_prefix "~/" path with
      | Some rest => rest
      | None => if bool_decide (path = "~"%string) then EmptyString else path
      end in
    if bool_decide (path = EmptyString) then inr EmptyDest
    else
      match normalize_dest EmptyString (components path) with
      | None => inr (DestTraversal path)
      | Some normalized =>
          match relpath_try_new normalized with inl p => inl p | inr e => inr (AbsoluteDestPath e) end
      end.

(** [Utf8Path::strip_prefix]: what is left of the components, as a path. *)
Definition path_strip_prefix (path prefix : string) : option string :=
  let n := List.length (components prefix) in
  if bool_decide (take n (components path) = components prefix) then Some (join_strings "/" (drop n (components path)))
  else None.

(** [compute_dest]; its two panics are the outcome [Panicked]. *)
Definition compute_dest (source_path walk_root dest_root : string) : outcome string :=
  let joined :=
    if same_path source_path walk_root then Done dest_root
    else
      match path_strip_prefix source_path walk_root with
      | None => Panicked
      | Some suffix => Done (if bool_decide (dest_root = EmptyString) then suffix else utf8_join dest_root suffix)
      end in
  match joined with
  | Done joined => match relpath_try_new joined with inl p => Done p | inr _ => Panicked end
  | Panicked => Panicked
  | OutOfFuel => OutOfFuel
  end.

(** ** The walk *)

Definition DEFAULT_EXCLUDED_DIRS : list string := [".git"; ".hg"; ".svn"; "CVS"; ".jj"; "node_modules"]%string.
Definition MAX_PLAIN_DIR_TOTAL_BYTES : Z := (100 * 1024 * 1024)%Z.

Record PatchFile : Type := {
  pf_link_path : option string;
  pf_target_path : string;
  pf_dest : string;
  pf_provenance : Source;
}.
#[global] Instance patch_file_provenanced : Provenanced PatchFile := pf_provenance.
Definition user_facing (pf : PatchFile) : string := default (pf_target_path pf) (pf_link_path pf).

Record ExpandedProvenancedPatch : Type := {
  ex_source : FileSet;
  ex_dest : string;
  ex_provenance : Source;
  ex_follow_symlinks : bool;
  ex_plain_directory : bool;
}.

(** What the walker yields: an error, which may be a missing path, or an
    entry, whose path may not be UTF-8. *)
Record WalkEntry : Type := { we_path : string + string; we_is_file : bool; we_is_symlink : bool; we_depth : nat }.
Inductive WalkItem : Type := WalkErr (not_found : bool) (what : string) | WalkOk (e : WalkEntry).

Section Enumerate.
(** The walk of a root (following links or not, pruning the excluded
    directories or not), the size of a file, the canonical form of a path,
    the directory test, and whether a set matches a path. *)
Context (walk : string -> bool -> bool -> list WalkItem) (file_len : string -> Z + string)
        (canonicalize : string -> string + PatchError) (is_dir : string -> bool)
        (fs_match : FileSet -> string -> bool).

(** [classify_entry]. *)
Inductive EntryClass : Type := Skip | WarnSymlinkDrop | Process.
Definition classify_entry (e : WalkEntry) (follow_symlinks : bool) (walk_root_path : string) : EntryClass :=
  if we_is_file e then Process
  else if negb follow_symlinks && (we_depth e =? 0) && we_is_symlink e && negb (is_dir walk_root_path) then WarnSymlinkDrop
  else Skip.

(** [accumulate_size]: the new total, saturating at 64 bits, and the error. *)
Definition u64_max : Z := (2 ^ 64 - 1)%Z.
Definition accumulate_size (total : Z) (path root : string) : Z * option PatchError :=
  match file_len path with
  | inr what => (total, Some (SizeMetadataFailure path what))
  | inl len =>
      let total := Z.min (total + len) u64_max in
      (total, if (MAX_PLAIN_DIR_TOTAL_BYTES <? total)%Z then Some (SizeCapExceeded root MAX_PLAIN_DIR_TOTAL_BYTES) else None)
  end.

(** [resolve_symlink_target]. *)
Definition resolve_symlink_target (follow_symlinks : bool) (link_path : string) : (option string * string) + PatchError :=
  if negb follow_symlinks then inl (None, link_path)
  else
    match canonicalize link_path with
    | inr e => inr e
    | inl target => inl (if same_path target link_path then None else Some link_path, target)
    end.

(** The walk of one patch: the files it emits and the errors it collects,
    from the entries left and the bytes counted so far. *)
Fixpoint walk_loop (pp : ExpandedProvenancedPatch) (root : string) (total : Z) (items : list WalkItem)
    : outcome (list PatchFile * list PatchError) :=
  match items with
  | [] => Done ([], [])
  | item :: items =>
      let skip := walk_loop pp root total items in
      let fail err := '(fs, es) ← walk_loop pp root total items; Done (fs, err :: es) in
      match item with
      | WalkErr not_found what => if not_found then skip else fail (WalkFailure root what)
      | WalkOk e =>
          match classify_entry e (ex_follow_symlinks pp) root with
          | Skip | WarnSymlinkDrop => skip
          | Process =>
              match we_path e with
              | inr lossy => fail (NonUtf8Path lossy)
              | inl link_path =>
                  if negb (fs_match (ex_source pp) link_path) then skip
                  else
                    let '(total, size_error) :=
                      if ex_plain_directory pp then accumulate_size total link_path root else (total, None) in
                    match size_error with
                    | Some err => Done ([], [err])
                    | None =>
                        match resolve_symlink_target (ex_follow_symlinks pp) link_path with
                        | inr err => '(fs, es) ← walk_loop pp root total items; Done (fs, err :: es)
                        | inl (link, target) =>
                            dest ← compute_dest (default target link) root (ex_dest pp);
                            '(fs, es) ← walk_loop pp root total items;
                            Done ({| pf_link_path := link; pf_target_path := target; pf_dest := dest;
                                     pf_provenance := ex_provenance pp |} :: fs, es)
                        end
                    end
              end
          end
      end
  end.

(** [enumerate_patch_files]. *)
Definition walk_patch (pp : ExpandedProvenancedPatch) : outcome (list PatchFile * list PatchError) :=
  match walk_root (ex_source pp) with
  | None => Done ([], [NoWalkRoot (ex_source pp)])
  | Some root => walk_loop pp root 0 (walk root (ex_follow_symlinks pp) (ex_plain_directory pp))
  end.
Fixpoint walk_patches (items : list ExpandedProvenancedPatch) : outcome (list PatchFile * list PatchError) :=
  match items with
  | [] => Done ([], [])
  | pp :: items =>
      '(fs, es) ← walk_patch pp;
      '(fs', es') ← walk_patches items;
      Done (fs ++ fs', es ++ es')
  end.
Definition enumerate_patch_files (items : list ExpandedProvenancedPatch) : outcome (list PatchFile + ComposeError) :=
  '(fs, es) ← walk_patches items;
  Done (match es with [] => inl fs | _ => inr (ErrPatchWalk es) end).
End Enumerate.

(** ** Where the walk starts *)

Lemma walk_from_escape v tail lit ls :
  str_contains BACKSLASH v = false ->
  exists ls', walk_from lit ls 0 (escape_glob_metas v ++ tail) = walk_from (lit ++ v) ls' 0 tail /\
              (ls' = ls \/ exists n, ls' = Some n /\ n < String.length (lit ++ v)).
Proof.
  revert lit ls. induction v as [|c v IH]; intros lit ls Hb.
  - exists ls. rewrite string_app_nil. auto.
  - cbn [str_contains] in Hb. apply orb_false_iff in Hb as [Hc Hb]. apply bool_decide_eq_false in Hc.
    assert (Hstep : forall ls1, exists ls', walk_from (lit ++ String c EmptyString) ls1 0 (escape_glob_metas v ++ tail) =
                walk_from (lit ++ String c v) ls' 0 tail /\
                (ls' = ls1 \/ exists n, ls' = Some n /\ n < String.length (lit ++ String c v))).
    { intros ls1. destruct (IH (lit ++ String c EmptyString)%string ls1 Hb) as (ls' & H & Hl). exists ls'.
      rewrite string_app_assoc in H, Hl. exact (conj H Hl). }
    cbn [escape_glob_metas]. rewrite string_app_assoc.
    destruct (escape_char_cases c) as [[-> Hm]|[[-> _]|[-> [Hm _]]]]; [|done|].
    + cbn [append walk_from]. change (Ascii.eqb "[" "/") with false. change (Ascii.eqb "[" "*") with false.
      change (Ascii.eqb "[" "?") with false. change (Ascii.eqb "[" "{") with false. cbn [orb]. exact (Hstep ls).
    + cbn [append walk_from].
      destruct (Ascii.eqb_spec c "/"%char) as [->|Hs].
      * destruct (Hstep (Some (String.length lit))) as (ls' & H & Hl). exists ls'. split; [exact H|]. right.
        destruct Hl as [->|Hl]; [|done]. exists (String.length lit). split; [done|]. rewrite string_length_app. cbn. lia.
      * assert (Hq : Ascii.eqb c "*" || Ascii.eqb c "?" || Ascii.eqb c "{" = false).
        { unfold is_escaped_meta in Hm. cbn [existsb] in Hm. rewrite !orb_false_iff in Hm. rewrite !orb_false_iff. tauto. }
        assert (Ho : Ascii.eqb c "[" = false).
        { unfold is_escaped_meta in Hm. cbn [existsb] in Hm. rewrite !orb_false_iff in Hm. tauto. }
        rewrite Hq, Ho. exact (Hstep ls).
Qed.

(** The walk of a literal path starts at that path, and the walk of
    everything below a literal directory at that directory, as long as the
    path has no backslash. *)
Lemma walk_root_escaped v :
  starts_slash v = true -> str_contains BACKSLASH v = false -> walk_root (escape_glob_metas v) = Some v.
Proof.
  intros Hs Hb. destruct (walk_from_escape v EmptyString EmptyString None Hb) as (ls' & H & _).
  rewrite string_app_nil in H. unfold walk_root. rewrite H. cbn. unfold hostpath_try_new. by rewrite Hs.
Qed.
Lemma substring_app_full a b : substring 0 (String.length a) (a ++ b) = a.
Proof. induction a as [|c a IH]; cbn; [by destruct b|]. by rewrite IH. Qed.
Lemma walk_root_below v :
  starts_slash v = true -> str_contains BACKSLASH v = false -> walk_root (escape_glob_metas v ++ "/**/*")%string = Some v.
Proof.
  intros Hs Hb. destruct (walk_from_escape v "/**/*" EmptyString None Hb) as (ls' & H & _).
  unfold walk_root. rewrite H. cbn [append walk_from]. change (Ascii.eqb "/" "/") with true. cbn iota.
  cbn [walk_from]. change (Ascii.eqb "*" "/") with false. change (Ascii.eqb "*" "*") with true. cbn [orb].
  rewrite substring_app_full. unfold hostpath_try_new. by rewrite Hs.
Qed.

(** A backslash in a substituted value is doubled for the glob, and the walk
    root keeps both: the walk starts at a path that is not the value. *)
Example walk_root_doubles_backslash :
  let home := ("/home/a" ++ String BACKSLASH "b")%string in
  expand_source (fun _ => true) (fun _ => true) "~" (fun _ => None) (anchors_home (Some home)) =
    inl (escape_glob_metas home ++ "/**/*")%string /\
  walk_root (escape_glob_metas home ++ "/**/*")%string = Some ("/home/a" ++ String BACKSLASH (String BACKSLASH "b"))%string.
Proof. split; vm_compute; reflexivity. Qed.

(** A pattern directly below the root directory starts its walk at the empty
    path. *)
Example walk_root_of_root : walk_root "/*.conf" = Some EmptyString.
Proof. reflexivity. Qed.

(** ** What the walk emits *)

(** A part of a path the walker appends: a file name. *)
Definition file_name (c : string) : Prop := kept_part c /\ c <> ".."%string.

(** What walkdir documents of the entries below a root. *)
Definition walks_below (walk : string -> bool -> bool -> list WalkItem) : Prop :=
  forall root follow plain e path, WalkOk e ∈ walk root follow plain -> we_path e = inl path ->
    exists suffix, components path = components root ++ suffix /\ Forall file_name suffix.

Lemma components_no_parent p : starts_slash p = false -> ".."%string ∉ str_split "/"%char p -> ".."%string ∉ components p.
Proof.
  intros Hs Hd Hin. apply Hd. unfold components in Hin.
  assert (Hf : forall (P : string -> bool) (l : list string), ".."%string ∈ List.filter P l -> ".."%string ∈ l).
  { intros P l H%list_elem_of_In. apply filter_In in H as [H _]. by apply list_elem_of_In. }
  assert (Hrel : ".."%string ∈ match List.filter (fun p => negb (bool_decide (p = EmptyString))) (str_split "/"%char p) with
                  | [] => [] | first :: parts => first :: List.filter (fun p => negb (bool_decide (p = "."%string))) parts end).
  { destruct p as [|c p]; [exact Hin|]. by destruct c as [[] [] [] [] [] [] [] []]. }
  destruct (List.filter _ (str_split "/"%char p)) as [|f l] eqn:E; [by apply elem_of_nil in Hrel|].
  apply (Hf (fun p => negb (bool_decide (p = EmptyString)))). rewrite E.
  apply elem_of_cons in Hrel as [->|H]; [by constructor|]. constructor. by apply Hf in H.
Qed.

Lemma relpath_intro p : starts_slash p = false -> ".."%string ∉ str_split "/"%char p -> relpath_try_new p = inl p.
Proof.
  intros Hs Hd. unfold relpath_try_new. rewrite Hs. apply components_no_parent in Hd; [|done].
  destruct (existsb _ _) eqn:E; [|done]. apply existsb_exists in E as (c & Hc & ->%bool_decide_eq_true).
  by apply list_elem_of_In in Hc.
Qed.

Lemma join_file_names l :
  Forall file_name l -> starts_slash (join_strings "/" l) = false /\ ".."%string ∉ str_split "/"%char (join_strings "/" l).
Proof.
  intros Hl. destruct (decide (l = [])) as [->|Hne]; [split; [done|set_solver]|].
  assert (Hk : Forall kept_part l) by (eapply list.Forall_impl; [exact Hl|]; by intros x [? _]).
  destruct (join_kept l Hne Hk) as (_ & Hs & _). split; [done|].
  rewrite str_split_join; [|done|eapply list.Forall_impl; [exact Hk|]; by intros x [? _]].
  intros Hin. rewrite list.Forall_forall in Hl. by destruct (Hl _ Hin).
Qed.

(** The destination of a file below the root is the patch's, or below it. *)
Lemma compute_dest_below root dest path suffix :
  relpath_try_new dest = inl dest -> components path = components root ++ suffix -> Forall file_name suffix ->
  exists d, compute_dest path root dest = Done d /\ relpath_try_new d = inl d.
Proof.
  intros Hdest Hc Hsuf. pose proof (relpath_ok _ Hdest) as [Hds Hdd].
  destruct (join_file_names suffix Hsuf) as [Hjs Hjd].
  assert (Hjoin : exists j, relpath_try_new j = inl j /\
      (if bool_decide (dest = EmptyString) then join_strings "/" suffix else utf8_join dest (join_strings "/" suffix)) = j).
  { eexists. split; [|done]. case_bool_decide as He; [by apply relpath_intro|].
    unfold utf8_join. rewrite Hjs, bool_decide_false by done. cbn [orb].
    destruct (ends_slash dest) eqn:Hes.
    - apply ends_slash_cut in Hes as [r ->]. rewrite str_split_app_sep in Hdd. apply not_elem_of_app in Hdd as [Hr _].
      apply relpath_intro; [rewrite string_app_assoc; by destruct r|].
      rewrite string_app_assoc. by apply no_parent_join.
    - apply relpath_intro; [by destruct dest|]. by apply no_parent_join. }
  destruct Hjoin as (j & Hj & Ej). unfold compute_dest. destruct (same_path path root) eqn:Es.
  - exists dest. by rewrite Hdest.
  - unfold path_strip_prefix. rewrite Hc, take_app_length, drop_app_length, bool_decide_true by done.
    cbv iota beta. rewrite Ej, Hj. by exists j.
Qed.

Section EnumerateProps.
Context (walk : string -> bool -> bool -> list WalkItem) (file_len : string -> Z + string)
        (canonicalize : string -> string + PatchError) (is_dir : string -> bool)
        (fs_match : FileSet -> string -> bool).
Context (Hwalk : walks_below walk) (Hlen : forall p n, file_len p = inl n -> (0 <= n)%Z).
#[local] Notation loop := (walk_loop file_len canonicalize is_dir fs_match).

(** The size of a path, where it can be read. *)
Definition len_of (p : string) : Z := match file_len p with inl n => n | inr _ => 0%Z end.
Definition total_len (ps : list string) : Z := foldr (fun p acc => (len_of p + acc)%Z) 0%Z ps.

(** What a file the walk emits satisfies, for the walker's path [p]. *)
Definition emitted (pp : ExpandedProvenancedPatch) (pf : PatchFile) (p : string) : Prop :=
  fs_match (ex_source pp) p = true /\ components (user_facing pf) = components p /\
  relpath_try_new (pf_dest pf) = inl (pf_dest pf) /\ pf_provenance pf = ex_provenance pp /\
  (ex_follow_symlinks pp = false -> pf_link_path pf = None /\ pf_target_path pf = p) /\
  (ex_follow_symlinks pp = true -> canonicalize p = inl (pf_target_path pf)).

Lemma resolve_components follow p link target :
  resolve_symlink_target canonicalize follow p = inl (link, target) -> components (default target link) = components p.
Proof.
  unfold resolve_symlink_target. destruct follow; cbn [negb]; [|by intros [= <- <-]].
  destruct (canonicalize p) as [t|]; [|done]. destruct (same_path t p) eqn:E; intros [= <- <-]; [|done].
  by apply bool_decide_eq_true in E.
Qed.

Lemma accumulate_size_ok total p root total' :
  accumulate_size file_len total p root = (total', None) -> (0 <= total)%Z ->
  (total' <= MAX_PLAIN_DIR_TOTAL_BYTES)%Z /\ total' = (total + len_of p)%Z /\ (0 <= total')%Z.
Proof.
  unfold accumulate_size, len_of. destruct (file_len p) as [n|] eqn:E; [|done]. intros H Ht.
  injection H as H1 H2. pose proof (Hlen _ _ E). destruct (Z.ltb_spec MAX_PLAIN_DIR_TOTAL_BYTES (Z.min (total + n) u64_max)); [done|].
  unfold MAX_PLAIN_DIR_TOTAL_BYTES, u64_max in *. lia.
Qed.

Lemma walk_loop_ok pp root total items :
  relpath_try_new (ex_dest pp) = inl (ex_dest pp) ->
  (forall e path, WalkOk e ∈ items -> we_path e = inl path ->
    exists suffix, components path = components root ++ suffix /\ Forall file_name suffix) ->
  (0 <= total <= MAX_PLAIN_DIR_TOTAL_BYTES)%Z ->
  exists fs es ps, loop pp root total items = Done (fs, es) /\ Forall2 (emitted pp) fs ps /\
    (ex_plain_directory pp = true -> (total + total_len ps <= MAX_PLAIN_DIR_TOTAL_BYTES)%Z).
Proof.
  intros Hdest. revert total. induction items as [|item items IH]; intros total Hbelow Ht.
  { exists [], [], []. split; [done|]. split; [constructor|]. cbn. lia. }
  assert (Hrec : forall t, (0 <= t <= MAX_PLAIN_DIR_TOTAL_BYTES)%Z -> exists fs es ps,
      loop pp root t items = Done (fs, es) /\ Forall2 (emitted pp) fs ps /\
      (ex_plain_directory pp = true -> (t + total_len ps <= MAX_PLAIN_DIR_TOTAL_BYTES)%Z)).
  { intros t Hb. apply IH; [|done]. intros e path He. apply Hbelow. by constructor. }
  assert (Hskip := Hrec total Ht). destruct Hskip as (fs & es & ps & Hl & Hem & Hsz).
  assert (Hfail : forall err, exists fs es ps, (r ← loop pp root total items; let '(fs, es) := r in Done (fs, err :: es)) = Done (fs, es) /\
      Forall2 (emitted pp) fs ps /\ (ex_plain_directory pp = true -> (total + total_len ps <= MAX_PLAIN_DIR_TOTAL_BYTES)%Z)).
  { intros err. exists fs, (err :: es), ps. rewrite Hl. done. }
  cbn [walk_loop]. destruct item as [[] what|e]; [by exists fs, es, ps|apply Hfail|].
  destruct (classify_entry _ _ _ _); [by exists fs, es, ps|by exists fs, es, ps|].
  destruct (we_path e) as [p|lossy] eqn:Ep; [|apply Hfail].
  destruct (fs_match (ex_source pp) p) eqn:Em; cbn [negb]; [|by exists fs, es, ps].
  destruct (Hbelow e p) as (suffix & Hc & Hsuf); [by constructor|done|].
  destruct (if ex_plain_directory pp then accumulate_size file_len total p root else (total, None)) as [total' [err|]] eqn:Ea.
  { exists [], [err], []. split; [done|]. split; [constructor|]. cbn. lia. }
  assert (Hsize : (0 <= total' <= MAX_PLAIN_DIR_TOTAL_BYTES)%Z /\ (ex_plain_directory pp = true -> total' = (total + len_of p)%Z)).
  { destruct (ex_plain_directory pp); [|by injection Ea as <-]. apply accumulate_size_ok in Ea; lia. }
  clear fs es ps Hl Hem Hsz Hfail. destruct Hsize as [Htb Hte].
  destruct (Hrec total' Htb) as (fs & es & ps & Hl & Hem & Hsz).
  destruct (resolve_symlink_target canonicalize (ex_follow_symlinks pp) p) as [[link target]|err] eqn:Er.
  - pose proof (resolve_components _ _ _ _ Er) as Hcomp.
    destruct (compute_dest_below root (ex_dest pp) (default target link) suffix) as (d & Hd & Hrel); [done|congruence|done|].
    rewrite Hd, bind_Done, Hl, bind_Done. eexists _, es, (p :: ps). split; [done|]. split.
    + constructor; [|done]. unfold emitted, user_facing. cbn [pf_link_path pf_target_path pf_dest pf_provenance].
      split; [done|]. split; [done|]. split; [done|]. split; [done|].
      unfold resolve_symlink_target in Er. split; intros Hf; rewrite Hf in Er; cbn [negb] in Er; [by injection Er as <- <-|].
      destruct (canonicalize p); [|done]. by injection Er as _ <-.
    + intros Hpl. change (total_len (p :: ps)) with (len_of p + total_len ps)%Z. specialize (Hsz Hpl). specialize (Hte Hpl). lia.
  - rewrite Hl, bind_Done. exists fs, (err :: es), ps. split; [done|]. split; [done|].
    intros Hpl. specialize (Hsz Hpl). specialize (Hte Hpl).
    assert (0 <= len_of p)%Z by (unfold len_of; destruct (file_len p) eqn:El; [by eapply Hlen|lia]). lia.
Qed.
End EnumerateProps.

(** Enumerating a patch never panics where the walker yields what lies below
    its root: every file it emits is one the pattern matches, under its
    target's canonical path, with a destination that stays relative and
    climbs nowhere; and the files of a plain directory are within the size
    cap together. *)
Theorem enumeration_confined walk file_len canonicalize is_dir fs_match pp :
  walks_below walk -> (forall p n, file_len p = inl n -> (0 <= n)%Z) ->
  relpath_try_new (ex_dest pp) = inl (ex_dest pp) ->
  exists fs es ps, walk_patch walk file_len canonicalize is_dir fs_match pp = Done (fs, es) /\
    Forall2 (emitted canonicalize fs_match pp) fs ps /\
    (ex_plain_directory pp = true -> (total_len file_len ps <= MAX_PLAIN_DIR_TOTAL_BYTES)%Z).
Proof.
  intros Hwalk Hlen Hdest. unfold walk_patch. destruct (walk_root (ex_source pp)) as [root|].
  - destruct (walk_loop_ok file_len canonicalize is_dir fs_match Hlen pp root 0
                (walk root (ex_follow_symlinks pp) (ex_plain_directory pp)) Hdest) as (fs & es & ps & H & He & Hs);
      [intros e path; apply Hwalk|unfold MAX_PLAIN_DIR_TOTAL_BYTES; lia|]. exists fs, es, ps. auto.
  - exists [], [NoWalkRoot (ex_source pp)], []. split; [done|]. split; [constructor|]. cbn. unfold MAX_PLAIN_DIR_TOTAL_BYTES. lia.
Qed.

(** A tree with one file and one link to it. *)
Definition sample_walk (root : string) (follow plain : bool) : list WalkItem :=
  if bool_decide (root = "/h/c"%string) then
    map (fun p => WalkOk {| we_path := inl p; we_is_file := true; we_is_symlink := false; we_depth := 1 |}) ["/h/c/a"; "/h/c/b"]%string
  else [].
Definition sample_patch : ExpandedProvenancedPatch :=
  {| ex_source := "/h/c/**/*"; ex_dest := ".c"; ex_provenance := Project "/p"; ex_follow_symlinks := true; ex_plain_directory := true |}.

(** [enumeration_confined] on that tree. *)
Lemma enumeration_confined_witness :
  exists fs es ps, walk_patch sample_walk (fun _ => inl 7%Z) (fun _ => inl "/h/c/a"%string) (fun _ => false) (fun _ _ => true) sample_patch
      = Done (fs, es) /\
    Forall2 (emitted (fun _ => inl "/h/c/a"%string) (fun _ _ => true) sample_patch) fs ps /\
    (ex_plain_directory sample_patch = true -> (total_len (fun _ => inl 7%Z) ps <= MAX_PLAIN_DIR_TOTAL_BYTES)%Z).
Proof.
  apply (enumeration_confined sample_walk (fun _ => inl 7%Z) (fun _ => inl "/h/c/a"%string) (fun _ => false) (fun _ _ => true) sample_patch).
  - intros root follow plain e path He Hp. unfold sample_walk in He.
    case_bool_decide; [subst root|by apply elem_of_nil in He].
    assert (path = "/h/c/a"%string \/ path = "/h/c/b"%string) as [->| ->].
    { apply elem_of_cons in He as [He|He]; [left|right]; [|apply list_elem_of_singleton in He];
        injection He as ->; by injection Hp as <-. }
    + exists ["a"%string]. split; [reflexivity|]. by repeat constructor.
    + exists ["b"%string]. split; [reflexivity|]. by repeat constructor.
  - intros p n [= <-]. lia.
  - reflexivity.
Defined.

(** A validated destination is relative and climbs nowhere. *)
Lemma patchdest_ok path d : patchdest_try_new path = inl d -> relpath_try_new d = inl d.
Proof.
  unfold patchdest_try_new. destruct (bool_decide (path = EmptyString)); [done|].
  set (path' := match strip_prefix "~/" path with Some rest => rest | None => _ end).
  destruct (bool_decide (path' = EmptyString)); [done|].
  destruct (normalize_dest EmptyString (components path')) as [n|]; [|done].
  destruct (relpath_try_new n) as [p|e] eqn:E; [|done]. intros [= <-].
  assert (p = n) as -> by (unfold relpath_try_new in E; repeat case_match; congruence). done.
Qed.

(** A destination of dots alone passes as the empty one. *)
Example patchdest_dot : patchdest_try_new "./." = inl EmptyString /\ patchdest_try_new "" = inr EmptyDest.
Proof. split; reflexivity. Qed.
