(* ===== verification/Gate.v ===== *)
(** * The consent gate (crates/boxes/src/core/compose.rs)

    How the policy is applied to a batch of items: every item is classified,
    a denial ends the batch, what is undecided is put to the user once, and
    the answers are applied.  Variables are gated by name, patches per file.
    The file system under the walk of a patch is a parameter. *)

From stdpp Require Import base list sets strings numbers pretty.
From Stdlib Require Import ZArith Lia Ascii String.
From S2P Require Import Prelude Text Classifier Expansion Policy LifecycleHook Compose Enumerate.
Open Scope nat_scope.
#[local] Close Scope Z_scope.

(** ** Prompts *)

(** [prompt_var_hook], [prompt_patch_hook] and [prompt_hook_hook]. *)
Definition prompt_var_hook (hooks : PolicyHooks) (policy : VarsPolicy) (view : list Unapproved)
    : (list ItemDecision * VarsPolicy) + ComposeError :=
  match on_var_unapproved hooks policy view with
  | HookAbort => inr ErrAborted
  | HookDecided decisions updated =>
      if negb (List.length decisions =? List.length view) then
        inr (hook_decision_count_mismatch DomainVar (List.length view) (List.length decisions))
      else inl (decisions, default policy updated)
  end.
Definition prompt_patch_hook (hooks : PolicyHooks) (policy : PatchesPolicy) (view : list Unapproved)
    : (list ItemDecision * PatchesPolicy * bool) + ComposeError :=
  match on_patch_unapproved hooks policy view with
  | HookAbort => inr ErrAborted
  | HookDecided decisions updated =>
      if negb (List.length decisions =? List.length view) then
        inr (hook_decision_count_mismatch DomainPatch (List.length view) (List.length decisions))
      else
        match updated with
        | Some new => inl (decisions, new, true)
        | None => inl (decisions, policy, false)
        end
  end.
Definition prompt_hook_hook (hooks : PolicyHooks) (policy : HooksPolicy) (view : list Unapproved)
    : (list ItemDecision * HooksPolicy) + ComposeError :=
  match on_hook_unapproved hooks policy view with
  | HookAbort => inr ErrAborted
  | HookDecided decisions updated =>
      if negb (List.length decisions =? List.length view) then
        inr (hook_decision_count_mismatch DomainHook (List.length view) (List.length decisions))
      else inl (decisions, default policy updated)
  end.

(** [apply_decision]: what is appended, or the denial. *)
Definition apply_decision {T} (d : Decision T) (allowed : list T) (name_of : T -> string) (source_of : T -> Source)
    : list T + ComposeError :=
  match d with
  | Allowed t => inl (allowed ++ [t])
  | Ignored => inl allowed
  | Denied t => inr (ErrDenied (name_of t) (source_of t))
  end.

(** ** Names *)

Inductive NameVerdict : Type := VAllowed | VIgnored.
(** [NameItem] carries a source and nothing else. *)
Record NameItem : Type := { ni_source : Source }.
#[global] Instance name_item_provenanced : Provenanced NameItem := ni_source.

Section Gate.
Context (glob_match : string -> string -> bool).

Definition check_name (policy : VarsPolicy) (item : Unapproved) : CheckOutcome NameItem :=
  vars_check glob_match policy item.1 {| ni_source := item.2 |}.
Definition verdict_of_name (d : Decision NameItem) : option NameVerdict :=
  match d with Allowed _ => Some VAllowed | Ignored => Some VIgnored | Denied _ => None end.

(** Pass 1 of [gate_names] from index [i]: the verdicts, the undecided ones
    seeded, and the queue of what is undecided with its index. *)
Fixpoint categorize (policy : VarsPolicy) (i : nat) (items : list Unapproved)
    : (list NameVerdict * list (nat * Unapproved)) + ComposeError :=
  match items with
  | [] => inl ([], [])
  | item :: items =>
      match check_name policy item with
      | Decided d =>
          match verdict_of_name d with
          | None => inr (ErrDenied item.1 item.2)
          | Some v =>
              match categorize policy (S i) items with
              | inl (vs, un) => inl (v :: vs, un)
              | inr e => inr e
              end
          end
      | NeedsApproval _ =>
          match categorize policy (S i) items with
          | inl (vs, un) => inl (VIgnored :: vs, (i, item) :: un)
          | inr e => inr e
          end
      end
  end.

(** One answer of the hook, under the policy as it may have amended it. *)
Definition answer (policy : VarsPolicy) (item : Unapproved) (decision : ItemDecision) : NameVerdict + ComposeError :=
  match decision with
  | AllowOnce => inl VAllowed
  | IgnoreOnce => inl VIgnored
  | UseRule =>
      match check_name policy item with
      | Decided d => match verdict_of_name d with Some v => inl v | None => inr (ErrDenied item.1 item.2) end
      | NeedsApproval _ => inr (use_rule_undecided DomainVar ("variable `" ++ item.1 ++ "`"))
      end
  end.

(** Pass 3 of [gate_names]: [verdicts[i]] is overwritten. *)
Fixpoint apply_answers (policy : VarsPolicy) (verdicts : list NameVerdict) (queue : list ((nat * Unapproved) * ItemDecision))
    : list NameVerdict + ComposeError :=
  match queue with
  | [] => inl verdicts
  | ((i, item), d) :: queue =>
      match answer policy item d with
      | inr e => inr e
      | inl v => apply_answers policy (<[i := v]> verdicts) queue
      end
  end.

(** [gate_names]. *)
Definition gate_names (items : list Unapproved) (policy : VarsPolicy) (hooks : option PolicyHooks)
    : (list NameVerdict * VarsPolicy) + ComposeError :=
  match categorize policy 0 items with
  | inr e => inr e
  | inl (verdicts, unapproved) =>
      match unapproved with
      | [] => inl (verdicts, policy)
      | (_, first) :: _ =>
          match hooks with
          | None => inr (ErrHookRequired first.1 first.2)
          | Some hooks =>
              match prompt_var_hook hooks policy (map snd unapproved) with
              | inr e => inr e
              | inl (decisions, policy) =>
                  match apply_answers policy verdicts (zip unapproved decisions) with
                  | inr e => inr e
                  | inl verdicts => inl (verdicts, policy)
                  end
              end
          end
      end
  end.

(** ** Variables *)

(** The indices of the items that carry user data, with the items. *)
Definition gated_items (items : list ProvenancedVar) : list (nat * ProvenancedVar) :=
  List.filter (fun e => rv_user_data (pv_var e.2)) (imap pair items).

(** [gate_vars]. *)
Definition gate_vars (items : list ProvenancedVar) (policy : VarsPolicy) (hooks : option PolicyHooks)
    : (list SessionVar * VarsPolicy) + ComposeError :=
  let gated := gated_items items in
  match gate_names (map (fun e => (var_name e.2, pv_source e.2)) gated) policy hooks with
  | inr e => inr e
  | inl (verdicts, policy) =>
      let verdict_at :=
        fold_left (fun at_ e => <[e.1.1 := Some e.2]> at_) (zip gated verdicts) (replicate (List.length items) None) in
      let allowed :=
        List.flat_map (fun e => match e.2 with None | Some VAllowed => [e.1] | Some VIgnored => [] end)
          (zip items verdict_at) in
      inl (allowed, policy)
  end.

(** ** A reference for the gate *)

Definition denied_name (policy : VarsPolicy) (item : Unapproved) : bool := globs_match glob_match (vp_deny policy) item.1.
Definition undecided_name (policy : VarsPolicy) (item : Unapproved) : bool :=
  match check_name policy item with NeedsApproval _ => true | Decided _ => false end.

(** One pass over the items, taking an answer for each undecided one. *)
Fixpoint weave (policy : VarsPolicy) (items : list Unapproved) (answers : list NameVerdict) : list NameVerdict :=
  match items with
  | [] => []
  | item :: items =>
      match check_name policy item with
      | Decided (Allowed _) => VAllowed :: weave policy items answers
      | Decided _ => VIgnored :: weave policy items answers
      | NeedsApproval _ =>
          match answers with
          | [] => VIgnored :: weave policy items []
          | a :: answers => a :: weave policy items answers
          end
      end
  end.

Definition gate_names_ref (items : list Unapproved) (policy : VarsPolicy) (hooks : option PolicyHooks)
    : (list NameVerdict * VarsPolicy) + ComposeError :=
  match List.find (denied_name policy) items with
  | Some item => inr (ErrDenied item.1 item.2)
  | None =>
      match List.filter (undecided_name policy) items with
      | [] => inl (weave policy items [], policy)
      | (first :: _) as asked =>
          match hooks with
          | None => inr (ErrHookRequired first.1 first.2)
          | Some hooks =>
              match prompt_var_hook hooks policy asked with
              | inr e => inr e
              | inl (decisions, policy') =>
                  match collect (fun e => answer policy' e.1 e.2) (zip asked decisions) with
                  | inr e => inr e
                  | inl answers => inl (weave policy items answers, policy')
                  end
              end
          end
      end
  end.

(** The vars that stay: those that carry no user data, and those whose
    verdict allows them. *)
Fixpoint keep (items : list ProvenancedVar) (verdicts : list NameVerdict) : list ProvenancedVar :=
  match items with
  | [] => []
  | pv :: items =>
      if rv_user_data (pv_var pv) then
        match verdicts with
        | VAllowed :: verdicts => pv :: keep items verdicts
        | VIgnored :: verdicts => keep items verdicts
        | [] => pv :: keep items []
        end
      else pv :: keep items verdicts
  end.

(** ** The gate is the reference *)

Lemma check_name_denied policy item :
  denied_name policy item = true -> exists x, check_name policy item = Decided (Denied x).
Proof. unfold denied_name, check_name, vars_check. intros ->. by eexists. Qed.

Lemma check_name_not_denied policy item x : denied_name policy item = false -> check_name policy item <> Decided (Denied x).
Proof. unfold denied_name, check_name, vars_check. intros ->. by repeat case_match. Qed.

(** The queue of pass 1: what is undecided, with its index. *)
Fixpoint queue (policy : VarsPolicy) (i : nat) (items : list Unapproved) : list (nat * Unapproved) :=
  match items with
  | [] => []
  | item :: items => (if undecided_name policy item then [(i, item)] else []) ++ queue policy (S i) items
  end.

Lemma queue_items policy i items : map snd (queue policy i items) = List.filter (undecided_name policy) items.
Proof.
  revert i. induction items as [|item items IH]; intros i; [done|]. cbn. rewrite map_app, IH.
  by destruct (undecided_name policy item).
Qed.

Lemma categorize_eq policy i items :
  categorize policy i items =
  match List.find (denied_name policy) items with
  | Some item => inr (ErrDenied item.1 item.2)
  | None => inl (weave policy items [], queue policy i items)
  end.
Proof.
  revert i. induction items as [|item items IH]; intros i; [done|]. cbn [categorize List.find weave queue].
  destruct (denied_name policy item) eqn:Hd.
  - destruct (check_name_denied _ _ Hd) as [x ->]. done.
  - pose proof (fun x => check_name_not_denied policy item x Hd) as Hn. unfold undecided_name.
    rewrite IH. destruct (check_name policy item) as [[x| |x]|x]; cbn [verdict_of_name]; try by destruct (List.find _ items).
    by destruct (Hn x).
Qed.

Lemma apply_answers_weave policy policy' items pre ds :
  apply_answers policy' (pre ++ weave policy items []) (zip (queue policy (List.length pre) items) ds) =
  match collect (fun e => answer policy' e.1 e.2) (zip (List.filter (undecided_name policy) items) ds) with
  | inr e => inr e
  | inl answers => inl (pre ++ weave policy items answers)
  end.
Proof.
  revert pre ds. induction items as [|item items IH]; intros pre ds; [done|].
  cbn [queue List.filter weave].
  assert (Hstep : forall v ds, apply_answers policy' ((pre ++ [v]) ++ weave policy items [])
      (zip (queue policy (S (List.length pre)) items) ds) =
    match collect (fun e => answer policy' e.1 e.2) (zip (List.filter (undecided_name policy) items) ds) with
    | inr e => inr e
    | inl answers => inl (pre ++ v :: weave policy items answers)
    end).
  { intros v ds'. replace (S (List.length pre)) with (List.length (pre ++ [v])) by (rewrite length_app; cbn; lia).
    rewrite IH. destruct (collect _ _); [|done]. by rewrite <- app_assoc. }
  assert (Hdec : forall v, apply_answers policy' (pre ++ v :: weave policy items [])
      (zip (queue policy (S (List.length pre)) items) ds) =
    match collect (fun e => answer policy' e.1 e.2) (zip (List.filter (undecided_name policy) items) ds) with
    | inr e => inr e
    | inl answers => inl (pre ++ v :: weave policy items answers)
    end) by (intros v; rewrite <- Hstep, <- app_assoc; done).
  destruct (undecided_name policy item) eqn:Hu; unfold undecided_name in Hu;
    destruct (check_name policy item) as [[x| |x]|x]; try done; try apply Hdec.
  destruct ds as [|d ds]; [done|]. cbn [app zip_with apply_answers collect fst snd].
  destruct (answer policy' item d) as [v|e]; [|done].
  rewrite insert_app_r_alt by lia. rewrite Nat.sub_diag. cbn [list_insert insert].
  specialize (Hstep v ds). rewrite <- app_assoc in Hstep. cbn [app] in Hstep. rewrite Hstep.
  by destruct (collect _ _).
Qed.

Lemma gate_names_exact items policy hooks : gate_names items policy hooks = gate_names_ref items policy hooks.
Proof.
  unfold gate_names, gate_names_ref. rewrite categorize_eq. destruct (List.find _ _) as [item|]; [done|].
  pose proof (queue_items policy 0 items) as Hq. pose proof (fun p' => apply_answers_weave policy p' items []) as Hw.
  cbn [app List.length] in Hw. rewrite <- Hq in *.
  destruct (queue policy 0 items) as [|[i first] rest]; [done|]. cbn [map snd] in *.
  destruct hooks as [hooks|]; [|done].
  destruct (prompt_var_hook hooks policy (first :: map snd rest)) as [[ds p']|e]; [|done].
  rewrite Hw. by destruct (collect _ _).
Qed.

(** The index plumbing of [gate_vars] is one pass. *)
Fixpoint gated_from (k : nat) (items : list ProvenancedVar) : list (nat * ProvenancedVar) :=
  match items with
  | [] => []
  | pv :: items => (if rv_user_data (pv_var pv) then [(k, pv)] else []) ++ gated_from (S k) items
  end.
Lemma gated_items_from items : gated_items items = gated_from 0 items.
Proof.
  unfold gated_items. change (@pair nat ProvenancedVar) with (fun i x => (0 + i, x) : nat * ProvenancedVar).
  generalize 0 as k. induction items as [|pv items IH]; intros k; [done|]. cbn. rewrite Nat.add_0_r.
  rewrite (imap_ext _ (fun i x => (S k + i, x))) by (intros i x _; cbn; f_equal; lia).
  rewrite IH. by destruct (rv_user_data (pv_var pv)).
Qed.

Fixpoint marks (items : list ProvenancedVar) (vs : list NameVerdict) : list (option NameVerdict) :=
  match items with
  | [] => []
  | pv :: items =>
      if rv_user_data (pv_var pv) then
        match vs with v :: vs => Some v :: marks items vs | [] => None :: marks items [] end
      else None :: marks items vs
  end.

Lemma marks_nil items : marks items [] = replicate (List.length items) None.
Proof. induction items as [|pv items IH]; [done|]. cbn. rewrite IH. by destruct (rv_user_data (pv_var pv)). Qed.

Lemma verdict_at_marks items vs (pre : list (option NameVerdict)) :
  fold_left (fun at_ (e : (nat * ProvenancedVar) * NameVerdict) => <[e.1.1 := Some e.2]> at_)
    (zip (gated_from (List.length pre) items) vs) (pre ++ replicate (List.length items) None) = pre ++ marks items vs.
Proof.
  revert pre vs. induction items as [|pv items IH]; intros pre vs; [done|]. cbn [gated_from marks List.length replicate].
  assert (Hstep : forall m vs, fold_left (fun at_ (e : (nat * ProvenancedVar) * NameVerdict) => <[e.1.1 := Some e.2]> at_)
      (zip (gated_from (S (List.length pre)) items) vs) (pre ++ m :: replicate (List.length items) None) = pre ++ m :: marks items vs).
  { intros m vs'. specialize (IH (pre ++ [m]) vs'). rewrite length_app, <- !app_assoc in IH. cbn [List.length app] in IH.
    rewrite Nat.add_1_r in IH. exact IH. }
  destruct (rv_user_data (pv_var pv)); [|apply Hstep].
  destruct vs as [|v vs]; [cbn; by rewrite marks_nil|]. cbn [app zip_with fold_left fst snd].
  rewrite insert_app_r_alt by lia. rewrite Nat.sub_diag. apply Hstep.
Qed.

Lemma keep_marks items vs :
  List.flat_map (fun e : ProvenancedVar * option NameVerdict => match e.2 with None | Some VAllowed => [e.1] | Some VIgnored => [] end)
    (zip items (marks items vs)) = keep items vs.
Proof.
  revert vs. induction items as [|pv items IH]; intros vs; [done|]. cbn [marks keep].
  destruct (rv_user_data (pv_var pv)); [destruct vs as [|[] vs]|]; cbn; by rewrite IH.
Qed.

Lemma gated_names k items :
  map (fun e : nat * ProvenancedVar => (var_name e.2, pv_source e.2)) (gated_from k items) =
  map (fun pv => (var_name pv, pv_source pv)) (List.filter (fun pv => rv_user_data (pv_var pv)) items).
Proof.
  revert k. induction items as [|pv items IH]; intros k; [done|]. cbn. rewrite map_app, IH. by destruct (rv_user_data (pv_var pv)).
Qed.

Lemma gate_vars_ref_eq items policy hooks :
  gate_vars items policy hooks =
  match gate_names_ref (map (fun pv => (var_name pv, pv_source pv)) (List.filter (fun pv => rv_user_data (pv_var pv)) items))
          policy hooks with
  | inr e => inr e
  | inl (verdicts, policy') => inl (keep items verdicts, policy')
  end.
Proof.
  unfold gate_vars. rewrite gated_items_from, gated_names, gate_names_exact.
  destruct (gate_names_ref _ _ _) as [[vs p']|e]; [|done].
  pose proof (verdict_at_marks items vs []) as H. cbn [List.length app] in H. rewrite H, keep_marks. done.
Qed.

(** Gating variables is a single pass over them: the names that carry user
    data and only those are put to the gate, a denied one ends the batch
    before anything is asked, and what stays is, in input order, what carries
    no user data and what the policy or the user's answer allows. *)
Theorem gate_vars_exact items policy hooks :
  gate_vars items policy hooks =
  match gate_names_ref (map (fun pv => (var_name pv, pv_source pv)) (List.filter (fun pv => rv_user_data (pv_var pv)) items))
          policy hooks with
  | inr e => inr e
  | inl (verdicts, policy') => inl (keep items verdicts, policy')
  end.
Proof. apply gate_vars_ref_eq. Qed.

(** A name the policy denies ends the batch, whoever would have been asked. *)
Lemma denied_before_prompt items policy hooks pv :
  pv ∈ items -> rv_user_data (pv_var pv) = true -> globs_match glob_match (vp_deny policy) (var_name pv) = true ->
  exists what from, gate_vars items policy hooks = inr (ErrDenied what from).
Proof.
  intros Hin Hu Hd. rewrite gate_vars_ref_eq. unfold gate_names_ref.
  destruct (List.find _ _) as [item|] eqn:E; [by eexists _, _|]. exfalso.
  assert (Hf := find_none _ _ E (var_name pv, pv_source pv)). unfold denied_name in Hf. cbn in Hf. rewrite Hd in Hf.
  discriminate Hf. apply in_map_iff. exists pv. split; [done|]. apply filter_In. split; [by apply list_elem_of_In|done].
Qed.

(** What is emitted was declared, in the declared order. *)
Lemma keep_sublist items vs : keep items vs `sublist_of` items.
Proof.
  revert vs. induction items as [|pv items IH]; intros vs; [done|]. cbn.
  destruct (rv_user_data (pv_var pv)); [destruct vs as [|[] vs]|]; by constructor.
Qed.
End Gate.

(** ** Patches *)

Record PatchAnchors : Type := { pa_home : option string; pa_loadouts_dir : option string }.
Definition loadout_root (a : PatchAnchors) (provenance : Source) : option string :=
  match pa_loadouts_dir a with Some d => loadout_dir provenance d | None => None end.

Section GatePatches.
Context (glob_match : string -> string -> bool) (glob_ok is_dir : string -> bool) (fs_match : FileSet -> string -> bool)
        (walk : string -> bool -> bool -> list WalkItem) (file_len : string -> Z + string)
        (canonicalize : string -> string + PatchError).

(** [expand_patch_sources]. *)
Definition expand_patch_source (gated_vars : list SessionVar) (anchors : PatchAnchors) (default_follow : bool)
    (pp : ProvenancedPatch) : ExpandedProvenancedPatch + ComposeError :=
  let project_root := match pn_source pp with Project path => Some path | _ => None end in
  let pattern_anchors :=
    with_project_root (with_loadout_root (anchors_home (pa_home anchors)) (loadout_root anchors (pn_source pp))) project_root in
  match expand_source_with_plain_dir glob_ok is_dir (pt_source (pn_patch pp)) (session_lookup gated_vars) pattern_anchors with
  | inr e => inr (ErrExpansion e)
  | inl (fs, plain_directory) =>
      inl {| ex_source := fs; ex_dest := pt_dest (pn_patch pp); ex_provenance := pn_source pp;
             ex_follow_symlinks := default default_follow (pn_follow pp); ex_plain_directory := plain_directory |}
  end.
Definition expand_patch_sources (patches : list ProvenancedPatch) (gated_vars : list SessionVar) (anchors : PatchAnchors)
    (default_follow : bool) : list ExpandedProvenancedPatch + ComposeError :=
  collect (expand_patch_source gated_vars anchors default_follow) patches.

Definition enumerate_files (items : list ExpandedProvenancedPatch) : outcome (list PatchFile + ComposeError) :=
  enumerate_patch_files walk file_len canonicalize is_dir fs_match items.

Definition check_file (policy : ExpandedPatchesPolicy) (pf : PatchFile) : CheckOutcome PatchFile :=
  patches_check fs_match policy (pf_link_path pf) (pf_target_path pf) pf.

(** Pass 1 of [gate_patches]. *)
Fixpoint categorize_files (policy : ExpandedPatchesPolicy) (allowed unapproved : list PatchFile) (files : list PatchFile)
    : (list PatchFile * list PatchFile) + ComposeError :=
  match files with
  | [] => inl (allowed, unapproved)
  | pf :: files =>
      match check_file policy pf with
      | Decided d =>
          match apply_decision d allowed user_facing pf_provenance with
          | inr e => inr e
          | inl allowed => categorize_files policy allowed unapproved files
          end
      | NeedsApproval pf => categorize_files policy allowed (unapproved ++ [pf]) files
      end
  end.

(** Pass 3 of [gate_patches]. *)
Fixpoint apply_file_answers (policy : ExpandedPatchesPolicy) (allowed : list PatchFile) (queue : list (PatchFile * ItemDecision))
    : list PatchFile + ComposeError :=
  match queue with
  | [] => inl allowed
  | (pf, d) :: queue =>
      match d with
      | AllowOnce => apply_file_answers policy (allowed ++ [pf]) queue
      | IgnoreOnce => apply_file_answers policy allowed queue
      | UseRule =>
          match check_file policy pf with
          | Decided d =>
              match apply_decision d allowed user_facing pf_provenance with
              | inr e => inr e
              | inl allowed => apply_file_answers policy allowed queue
              end
          | NeedsApproval pf => inr (use_rule_undecided DomainPatch ("source path `" ++ user_facing pf ++ "`"))
          end
      end
  end.

Definition to_session_patch (pf : PatchFile) : SessionPatch :=
  {| sp_patch := {| rp_host_path := pf_target_path pf; rp_dest := pf_dest pf |}; sp_source := pf_provenance pf |}.

(** The gate over files already enumerated, under the policy [policy] and its
    expansion. *)
Definition gate_files (files : list PatchFile) (policy : PatchesPolicy) (expanded : ExpandedPatchesPolicy)
    (hooks : option PolicyHooks) (lookup : string -> option string) (home : option string)
    : (list SessionPatch * PatchesPolicy) + ComposeError :=
  match categorize_files expanded [] [] files with
  | inr e => inr e
  | inl (allowed, unapproved) =>
      match unapproved with
      | [] => inl (map to_session_patch allowed, policy)
      | first :: _ =>
          match hooks with
          | None => inr (ErrHookRequired (user_facing first) (pf_provenance first))
          | Some hooks =>
              match prompt_patch_hook hooks policy (map (fun pf => (user_facing pf, pf_provenance pf)) unapproved) with
              | inr e => inr e
              | inl (decisions, policy, policy_updated) =>
                  match (if policy_updated then patches_expand_with glob_ok is_dir policy lookup home else inl expanded) with
                  | inr e => inr (ErrExpansion e)
                  | inl expanded =>
                      match apply_file_answers expanded allowed (zip unapproved decisions) with
                      | inr e => inr e
                      | inl allowed => inl (map to_session_patch allowed, policy)
                      end
                  end
              end
          end
      end
  end.

(** [gate_patches]. *)
Definition gate_patches (items : list ProvenancedPatch) (policy : PatchesPolicy) (hooks : option PolicyHooks)
    (follow_symlinks : bool) (gated_vars : list SessionVar) (anchors : PatchAnchors)
    : outcome ((list SessionPatch * PatchesPolicy) + ComposeError) :=
  match patches_expand_with glob_ok is_dir policy (session_lookup gated_vars) (pa_home anchors) with
  | inr e => Done (inr (ErrExpansion e))
  | inl expanded =>
      match expand_patch_sources items gated_vars anchors follow_symlinks with
      | inr e => Done (inr e)
      | inl expanded_patches =>
          files ← enumerate_files expanded_patches;
          Done (match files with
                | inr e => inr e
                | inl files => gate_files files policy expanded hooks (session_lookup gated_vars) (pa_home anchors)
                end)
      end
  end.

(** [compose_contribution]. *)
Definition compose_contribution (contribution : Contribution) (expansion_vars : list SessionVar) (policy : UserPolicy)
    (hooks : option PolicyHooks) (follow_symlinks : bool) (anchors : PatchAnchors)
    : outcome ((Composition * UserPolicy) + ComposeError) :=
  match gate_vars glob_match (ct_vars contribution) (up_vars policy) hooks with
  | inr e => Done (inr e)
  | inl (gated_vars, vars_policy) =>
      match check_var_mismatches var_name var_value gated_vars with
      | Some c => Done (inr (ErrConflict c))
      | None =>
          patches ← gate_patches (ct_patches contribution) (up_patches policy) hooks follow_symlinks
                      (expansion_vars ++ gated_vars) anchors;
          Done (match patches with
                | inr e => inr e
                | inl (gated_patches, patches_policy) =>
                    match check_patch_mismatches patch_dest patch_host gated_patches with
                    | Some c => inr (ErrConflict c)
                    | None =>
                        match check_patch_prefix_collisions patch_dest gated_patches with
                        | Some c => inr (ErrConflict c)
                        | None =>
                            inl ({| cp_vars := gated_vars; cp_patches := gated_patches; cp_packages := ct_packages contribution;
                                    cp_hooks := ct_hooks contribution; cp_orientation := EmptyString |},
                                 {| up_vars := vars_policy; up_patches := patches_policy; up_hooks := up_hooks policy |})
                        end
                    end
                end)
      end
  end.

(** *** What the patch gate lets through *)

(** Whether a rule set matches a file under either of its paths. *)
Definition either_path (sets : list FileSet) (pf : PatchFile) : bool :=
  filesets_match fs_match sets (pf_target_path pf) ||
  match pf_link_path pf with Some l => filesets_match fs_match sets l | None => false end.
Definition denied_file (p : ExpandedPatchesPolicy) (pf : PatchFile) : bool := either_path (ep_deny p) pf.
Definition undecided_file (p : ExpandedPatchesPolicy) (pf : PatchFile) : bool :=
  match check_file p pf with NeedsApproval _ => true | Decided _ => false end.
Definition allowed_file (p : ExpandedPatchesPolicy) (pf : PatchFile) : bool :=
  match check_file p pf with Decided (Allowed _) => true | _ => false end.

(** The check hands back the file it was given. *)
Lemma check_file_cases p pf :
  check_file p pf = Decided (Denied pf) /\ denied_file p pf = true \/
  denied_file p pf = false /\
  (check_file p pf = Decided (Allowed pf) \/ check_file p pf = Decided Ignored \/ check_file p pf = NeedsApproval pf).
Proof.
  unfold check_file, patches_check, denied_file, either_path, path_decide.
  destruct (filesets_match fs_match (ep_deny p) (pf_target_path pf)) eqn:Et.
  - left. split; [|done]. destruct (pf_link_path pf) as [l|]; [|done].
    unfold combine. rewrite (bool_decide_true (PDenied = PDenied)) by done. by rewrite orb_true_r.
  - destruct (pf_link_path pf) as [l|].
    + destruct (filesets_match fs_match (ep_deny p) l); [by left|right; split; [done|]].
      repeat case_match; cbn; auto.
    + right. split; [done|]. repeat case_match; cbn; auto.
Qed.

Lemma categorize_files_eq p allowed unapproved files :
  categorize_files p allowed unapproved files =
  match List.find (denied_file p) files with
  | Some pf => inr (ErrDenied (user_facing pf) (pf_provenance pf))
  | None => inl (allowed ++ List.filter (allowed_file p) files, unapproved ++ List.filter (undecided_file p) files)
  end.
Proof.
  revert allowed unapproved. induction files as [|pf files IH]; intros allowed unapproved; [by cbn; rewrite !app_nil_r|].
  cbn [categorize_files List.find List.filter]. unfold allowed_file at 1, undecided_file at 1.
  destruct (check_file_cases p pf) as [[-> ->]|[-> [->|[->| ->]]]]; cbn [apply_decision]; [done|rewrite IH..];
    destruct (List.find _ files); try done; by rewrite <- app_assoc.
Qed.

(** One answer about a file. *)
Definition file_answer (p : ExpandedPatchesPolicy) (pf : PatchFile) (d : ItemDecision) : list PatchFile + ComposeError :=
  match d with
  | AllowOnce => inl [pf]
  | IgnoreOnce => inl []
  | UseRule =>
      if denied_file p pf then inr (ErrDenied (user_facing pf) (pf_provenance pf))
      else if undecided_file p pf then inr (use_rule_undecided DomainPatch ("source path `" ++ user_facing pf ++ "`"))
      else inl (if allowed_file p pf then [pf] else [])
  end.
Lemma apply_file_answers_eq p allowed queue :
  apply_file_answers p allowed queue =
  match collect (fun e => file_answer p e.1 e.2) queue with
  | inr e => inr e
  | inl answers => inl (allowed ++ List.concat answers)
  end.
Proof.
  revert allowed. induction queue as [|[pf d] queue IH]; intros allowed; [by cbn; rewrite app_nil_r|].
  cbn [apply_file_answers collect fst snd]. destruct d; cbn [file_answer].
  - rewrite IH. destruct (collect _ _); [|done]. cbn. by rewrite <- app_assoc.
  - rewrite IH. by destruct (collect _ _).
  - unfold undecided_file, allowed_file.
    destruct (check_file_cases p pf) as [[-> ->]|[-> [->|[->| ->]]]]; cbn [apply_decision]; [done|rewrite IH..|done];
      destruct (collect _ _); try done. cbn. by rewrite <- app_assoc.
Qed.

(** What the hook's answers let through is part of what was asked. *)
Lemma answers_sublist p q answers :
  collect (fun e => file_answer p e.1 e.2) q = inl answers -> List.concat answers `sublist_of` map fst q.
Proof.
  revert answers. induction q as [|[pf d] q IH]; intros answers H; cbn in H; [by injection H as <-|].
  destruct (file_answer p pf d) as [a|] eqn:Ea; [|done]. destruct (collect _ q) as [as_|]; [|done].
  injection H as <-. cbn. specialize (IH as_ eq_refl).
  assert (a = [pf] \/ a = []) as [->| ->]; [|cbn; by constructor..].
  destruct d; cbn in Ea; [injection Ea as <-; auto..|]. repeat case_match; simplify_eq; auto.
Qed.

(** The gate over files: no file it saw is denied under either path, and it
    emits the files the policy allows, in order, followed by some of those
    that were asked about. *)
Lemma gate_files_lets_through files policy expanded hooks lookup home out policy' :
  gate_files files policy expanded hooks lookup home = inl (out, policy') ->
  Forall (fun pf => denied_file expanded pf = false) files /\
  exists approved, approved `sublist_of` List.filter (undecided_file expanded) files /\
    out = map to_session_patch (List.filter (allowed_file expanded) files ++ approved) /\
    (hooks = None -> approved = []).
Proof.
  unfold gate_files. rewrite categorize_files_eq. cbn [app]. destruct (List.find _ files) as [pf|] eqn:Ef; [done|].
  assert (Hden : Forall (fun pf => denied_file expanded pf = false) files).
  { apply list.Forall_forall. intros pf Hpf%list_elem_of_In. exact (find_none _ _ Ef pf Hpf). }
  set (asked := List.filter (undecided_file expanded) files).
  intros H. split; [exact Hden|]. destruct asked as [|first rest] eqn:Ea.
  - injection H as <- <-. exists []. rewrite app_nil_r. by split; [constructor|].
  - destruct hooks as [hooks|]; [|done]. destruct (prompt_patch_hook _ _ _) as [[[ds pol] upd]|]; [|done].
    destruct (if upd then _ else _) as [ex'|]; [|done]. rewrite apply_file_answers_eq in H.
    destruct (collect _ _) as [answers|] eqn:Ec; [|done]. injection H as <- <-.
    exists (List.concat answers). split; [|by split].
    apply answers_sublist in Ec. etransitivity; [exact Ec|].
    generalize (first :: rest) as l. clear. intros l. revert ds.
    induction l as [|x l IH]; intros ds; [done|]. destruct ds as [|d ds]; [apply sublist_nil_l|]. cbn. constructor. apply IH.
Qed.

(** *** What a composition holds *)

Definition denied_var (p : VarsPolicy) (pv : ProvenancedVar) : bool :=
  rv_user_data (pv_var pv) && globs_match glob_match (vp_deny p) (var_name pv).

Lemma gate_vars_lets_through items policy hooks out policy' :
  gate_vars glob_match items policy hooks = inl (out, policy') ->
  out `sublist_of` items /\ Forall (fun pv => denied_var policy pv = false) items.
Proof.
  intros H. split.
  - rewrite gate_vars_ref_eq in H. destruct (gate_names_ref _ _ _ _) as [[vs p']|]; [|done]. injection H as <- _. apply keep_sublist.
  - apply list.Forall_forall. intros pv Hpv. unfold denied_var.
    destruct (rv_user_data (pv_var pv)) eqn:Hu; [|done]. destruct (globs_match _ _ _) eqn:Hd; [|done].
    destruct (denied_before_prompt glob_match items policy hooks pv Hpv Hu Hd) as (w & f & E). congruence.
Qed.

Lemma gate_patches_lets_through items policy hooks follow vars anchors out policy' :
  gate_patches items policy hooks follow vars anchors = Done (inl (out, policy')) ->
  exists expanded, patches_expand_with glob_ok is_dir policy (session_lookup vars) (pa_home anchors) = inl expanded /\
    Forall (fun sp => filesets_match fs_match (ep_deny expanded) (patch_host sp) = false) out.
Proof.
  unfold gate_patches. destruct (patches_expand_with _ _ _ _ _) as [expanded|]; [|done].
  destruct (expand_patch_sources _ _ _ _) as [eps|]; [|done]. intros H.
  apply bind_Done_inv in H as ([files|] & _ & H); [|done]. injection H as H.
  apply gate_files_lets_through in H as (Hden & approved & Hsub & -> & _). exists expanded. split; [done|].
  apply list.Forall_forall. intros sp Hsp. apply list_elem_of_In, in_map_iff in Hsp as (pf & <- & Hpf).
  cbn [patch_host sp_patch to_session_patch rp_host_path].
  assert (Hin : pf ∈ files).
  { apply list_elem_of_In, elem_of_app in Hpf as [Hpf|Hpf].
    - apply list_elem_of_In, filter_In in Hpf as [? _]. by apply list_elem_of_In.
    - assert (Hu : pf ∈ List.filter (undecided_file expanded) files) by (eapply elem_of_submseteq; [exact Hpf|by apply sublist_submseteq]).
      apply list_elem_of_In, filter_In in Hu as [? _]. by apply list_elem_of_In. }
  rewrite list.Forall_forall in Hden. specialize (Hden pf Hin). unfold denied_file, either_path in Hden.
  by apply orb_false_iff in Hden as [? _].
Qed.

(** C33: a composed contribution is one the policy lets through: its vars are
    among those declared and agree with one another, its patches agree, no
    declared var that carries user data is denied, whatever the hooks
    answered, and no patch copies a file the policy denies. *)
Theorem composition_consented contribution vars policy hooks follow anchors c policy' :
  compose_contribution contribution vars policy hooks follow anchors = Done (inl (c, policy')) ->
  cp_vars c `sublist_of` ct_vars contribution /\
  agree (cp_vars c) (cp_patches c) /\
  Forall (fun pv => denied_var (up_vars policy) pv = false) (ct_vars contribution) /\
  exists expanded, patches_expand_with glob_ok is_dir (up_patches policy) (session_lookup (vars ++ cp_vars c)) (pa_home anchors) = inl expanded /\
    Forall (fun sp => filesets_match fs_match (ep_deny expanded) (patch_host sp) = false) (cp_patches c).
Proof.
  unfold compose_contribution. destruct (gate_vars _ _ _ _) as [[gv vp]|] eqn:Ev; [|done].
  destruct (check_var_mismatches _ _ _) eqn:Em; [done|]. intros H.
  apply bind_Done_inv in H as ([[gp pp]|] & Hp & H); [|done].
  destruct (check_patch_mismatches _ _ _) eqn:Epm; [done|]. destruct (check_patch_prefix_collisions _ _) eqn:Epc; [done|].
  injection H as <- _. cbn [cp_vars cp_patches].
  apply gate_vars_lets_through in Ev as [Hsub Hden]. apply gate_patches_lets_through in Hp.
  split; [done|]. split; [|done]. apply check_conflicts_none. unfold check_conflicts. by rewrite Em, Epm.
Qed.
End GatePatches.

(** ** Examples *)

Module GateSample.
Definition exact_glob (p n : string) : bool := bool_decide (p = n).
Definition user_var (name value : string) (src : Source) : ProvenancedVar :=
  {| pv_var := {| rv_name := name; rv_value := value; rv_user_data := true; rv_spec := Inherit |}; pv_source := src |}.
Definition literal_var (name value : string) (src : Source) : ProvenancedVar :=
  {| pv_var := {| rv_name := name; rv_value := value; rv_user_data := false; rv_spec := Specified value |}; pv_source := src |}.
Definition policy : UserPolicy :=
  {| up_vars := {| vp_allow := ["LANG"]; vp_deny := ["SECRET"]; vp_ignore := ["NOISE"] |}%string;
     up_patches := {| pp_allow := []; pp_deny := ["/h/.ssh"]%string; pp_ignore := [] |};
     up_hooks := {| hp_allow := []; hp_deny := []; hp_ignore := [] |} |}.
(** A user who approves the first item asked about and drops the others. *)
Definition hooks : PolicyHooks :=
  {| on_var_unapproved := fun _ items => HookDecided (imap (fun i _ => if (i =? 0)%nat then AllowOnce else IgnoreOnce) items) None;
     on_patch_unapproved := fun _ _ => HookAbort;
     on_hook_unapproved := fun _ _ => HookAbort |}.
Definition items : list ProvenancedVar :=
  [user_var "TERM" "xterm" (Project "/p"); literal_var "SECRET" "s" (Project "/p"); user_var "NOISE" "n" (Project "/p");
   user_var "LANG" "C" (Project "/p"); user_var "EDITOR" "vi" (Project "/p")].

(** The user is asked about two names; a literal is never asked about. *)
Example gate_vars_sample :
  gate_vars exact_glob items (up_vars policy) (Some hooks) =
  inl ([user_var "TERM" "xterm" (Project "/p"); literal_var "SECRET" "s" (Project "/p"); user_var "LANG" "C" (Project "/p")], up_vars policy).
Proof. vm_compute. reflexivity. Qed.

Definition contribution : Contribution := {| ct_vars := items; ct_patches := []; ct_packages := []; ct_hooks := [] |}.

(** [composition_consented] at those items. *)
Lemma composition_consented_witness :
  exists c policy', compose_contribution exact_glob (fun _ => true) (fun _ => false) (fun _ _ => false) (fun _ _ _ => [])
      (fun _ => inl 0%Z) (fun p => inl p) contribution [] policy (Some hooks) false {| pa_home := None; pa_loadouts_dir := None |}
      = Done (inl (c, policy')) /\ agree (cp_vars c) (cp_patches c).
Proof.
  eexists _, _. split; [vm_compute; reflexivity|].
  eapply (composition_consented exact_glob (fun _ => true) (fun _ => false) (fun _ _ => false) (fun _ _ _ => [])
      (fun _ => inl 0%Z) (fun p => inl p) contribution [] policy (Some hooks) false {| pa_home := None; pa_loadouts_dir := None |}).
  vm_compute. reflexivity.
Defined.
End GateSample.
