(* ===== verification/Verdict.v ===== *)
(** * The verdict exchange (crates/boxes/src/daemon/composer.rs, client/handler.rs)

    The daemon collects what projects and packages declare, stashes it under
    ids and asks the client; the client gates every pending item with the
    user's policy and answers with verdicts; the daemon assembles the
    composition from its stash and the verdicts.  Both ends are here, the
    daemon's maps as finite maps iterated in id order. *)

From stdpp Require Import base list sets gmap sorting strings numbers pretty.
From Stdlib Require Import ZArith Lia Ascii String.
From S2P Require Import Prelude Text Classifier Expansion Policy LifecycleHook Compose Enumerate Gate.
Open Scope nat_scope.
#[local] Close Scope Z_scope.

(** ** The wire *)

Definition PendingId : Type := nat.
Definition show_id (id : PendingId) : string := ("PendingId(" ++ pretty id ++ ")")%string.

Record WirePendingVar : Type := {
  wpv_id : PendingId; wpv_name : string; wpv_spec : VarValue; wpv_source : Source; wpv_user_data : bool }.
Record WirePendingPatch : Type := {
  wpp_id : PendingId; wpp_source_pattern : string; wpp_destination : string; wpp_source : Source }.
Record WirePendingHook : Type := { wph_id : PendingId; wph_hook : WireLifecycleHook; wph_source : Source }.

Inductive WireVarVerdict : Type :=
| VarApproved (id : PendingId) (value : WireResolvedVar)
| VarDenied (id : PendingId) (name : string)
| VarIgnored (id : PendingId) (name : string).
Inductive WirePatchVerdict : Type :=
| PatchApproved (id : PendingId) (host_path destination : string)
| PatchDenied (id : PendingId) (host_path : string)
| PatchIgnored (id : PendingId) (host_path : string).
Inductive WireHookVerdict : Type :=
| HookApproved (id : PendingId)
| HookDenied (id : PendingId)
| HookIgnored (id : PendingId).

Record ContributionResponse : Type := {
  cr_session_id : string;
  cr_vars : list WirePendingVar;
  cr_patches : list WirePendingPatch;
  cr_hooks : list WirePendingHook;
}.
Record ContributionVerdict : Type := {
  cv_session_id : string;
  cv_vars : list WireVarVerdict;
  cv_patches : list WirePatchVerdict;
  cv_hooks : list WireHookVerdict;
}.

(** ** The daemon: what it stashes *)

Record PendingComposeState : Type := {
  ps_packages : list ProvenancedPackage;
  ps_vars : gmap PendingId ProvenancedVar;
  ps_patches : gmap PendingId ProvenancedPatch;
  ps_hooks : gmap PendingId ProvenancedHook;
  ps_client : WireContribution;
}.
Inductive ComposeOutcome : Type :=
| Ready (c : Composition)
| Pending (response : ContributionResponse) (state : PendingComposeState).

(** [u32::try_from(i).expect(..)]. *)
Definition pending_id (i : nat) : outcome PendingId := if (Z.of_nat i <? 2 ^ 32)%Z then Done i else Panicked.

(** One domain of [contribution_to_pending]: the wire items and the stash,
    from index [i]. *)
Section Pend.
Context {A W : Type} (wire : PendingId -> A -> W).
Fixpoint pend (i : nat) (items : list A) : outcome (list W * gmap PendingId A) :=
  match items with
  | [] => Done ([], ∅)
  | item :: items =>
      id ← pending_id i;
      '(ws, stash) ← pend (S i) items;
      Done (wire id item :: ws, <[id := item]> stash)
  end.
End Pend.
Definition wire_pending_var (id : PendingId) (pv : ProvenancedVar) : WirePendingVar :=
  {| wpv_id := id; wpv_name := var_name pv; wpv_spec := rv_spec (pv_var pv); wpv_source := pv_source pv;
     wpv_user_data := rv_user_data (pv_var pv) |}.
Definition wire_pending_patch (id : PendingId) (pp : ProvenancedPatch) : WirePendingPatch :=
  {| wpp_id := id; wpp_source_pattern := pt_source (pn_patch pp); wpp_destination := pt_dest (pn_patch pp);
     wpp_source := pn_source pp |}.
Definition wire_pending_hook (id : PendingId) (ph : ProvenancedHook) : WirePendingHook :=
  {| wph_id := id; wph_hook := hook_to_wire (ph_hook ph); wph_source := ph_source ph |}.

(** [SessionComposer::compose] with [contribution_to_pending]. *)
Definition compose (client : WireContribution) (contribution : Contribution) (session_id : string)
    : outcome (ComposeOutcome + ComposeError) :=
  let c := drop_package_supplied contribution in
  if is_empty (ct_vars c) && is_empty (ct_patches c) && is_empty (ct_hooks c) then
    Done (match extend_from_wire (from_daemon_passthrough (ct_packages c) []) client with
          | inl comp => inl (Ready comp)
          | inr e => inr e
          end)
  else
    '(vars, pending_vars) ← pend wire_pending_var 0 (ct_vars c);
    '(patches, pending_patches) ← pend wire_pending_patch 0 (ct_patches c);
    '(hooks, pending_hooks) ← pend wire_pending_hook 0 (ct_hooks c);
    Done (inl (Pending
      {| cr_session_id := session_id; cr_vars := vars; cr_patches := patches; cr_hooks := hooks |}
      {| ps_packages := ct_packages c; ps_vars := pending_vars; ps_patches := pending_patches; ps_hooks := pending_hooks;
         ps_client := client |})).

(** ** The daemon: what it makes of a verdict *)

(** [BTreeMap::iter]. *)
Definition id_le {A} (p q : PendingId * A) : Prop := p.1 <= q.1.
#[global] Instance id_le_dec {A} (p q : PendingId * A) : base.Decision (id_le p q).
Proof. unfold id_le. apply _. Defined.
Definition id_iter {A} (m : gmap PendingId A) : list (PendingId * A) := merge_sort id_le (map_to_list m).

Definition unknown_hook (id : PendingId) : ComposeError :=
  ErrInvalidWireItem "hook verdict for an unknown pending id" ("id " ++ pretty id).

(** [apply_hook_verdicts]. *)
Fixpoint apply_hook_verdicts (pending : gmap PendingId ProvenancedHook) (verdicts : list WireHookVerdict)
    : list ProvenancedHook + ComposeError :=
  match verdicts with
  | [] => inl []
  | HookDenied id :: _ =>
      inr (match pending !! id with
           | Some h => ErrDenied "lifecycle hook" (ph_source h)
           | None => unknown_hook id
           end)
  | (HookApproved id | HookIgnored id) as v :: verdicts =>
      match pending !! id with
      | None => inr (unknown_hook id)
      | Some hook =>
          match apply_hook_verdicts (delete id pending) verdicts with
          | inr e => inr e
          | inl accepted => inl (match v with HookApproved _ => hook :: accepted | _ => accepted end)
          end
      end
  end.

Definition var_verdict_id (v : WireVarVerdict) : PendingId :=
  match v with VarApproved id _ | VarDenied id _ | VarIgnored id _ => id end.
Definition unknown_var (id : PendingId) : ComposeError :=
  ErrInvalidWireItem "verdict references unknown pending id" ("var id " ++ show_id id).

(** [apply_var_verdicts]: [sources] is the snapshot taken before the walk, and
    [seen] the ids met so far. *)
Fixpoint walk_var_verdicts (sources : gmap PendingId Source) (pending : gmap PendingId ProvenancedVar)
    (seen : gset PendingId) (verdicts : list WireVarVerdict)
    : (list SessionVar * gmap PendingId ProvenancedVar) + ComposeError :=
  match verdicts with
  | [] => inl ([], pending)
  | v :: verdicts =>
      let id := var_verdict_id v in
      if bool_decide (id ∈ seen) then
        inr (ErrInvalidWireItem "verdict contains duplicate var entry" ("pending id " ++ show_id id))
      else
        let rest (pending : gmap PendingId ProvenancedVar) := walk_var_verdicts sources pending ({[id]} ∪ seen) verdicts in
        match v with
        | VarApproved _ value =>
            match pending !! id with
            | None => inr (unknown_var id)
            | Some pv =>
                match rest (delete id pending) with
                | inr e => inr e
                | inl (accepted, leftover) => inl ({| pv_var := var_from_wire value; pv_source := pv_source pv |} :: accepted, leftover)
                end
            end
        | VarIgnored _ _ =>
            match pending !! id with
            | None => inr (unknown_var id)
            | Some _ => rest (delete id pending)
            end
        | VarDenied _ name =>
            inr (match sources !! id with
                 | None => ErrInvalidWireItem "verdict references unknown pending var id"
                             ("denied var id " ++ show_id id ++ " (`" ++ name ++ "`)")
                 | Some from => ErrDenied name from
                 end)
        end
  end.
Definition apply_var_verdicts (pending : gmap PendingId ProvenancedVar) (verdicts : list WireVarVerdict)
    : list SessionVar + ComposeError :=
  match walk_var_verdicts (pv_source <$> pending) pending ∅ verdicts with
  | inr e => inr e
  | inl (accepted, leftover) =>
      match id_iter leftover with
      | [] => inl accepted
      | (id, pv) :: _ =>
          inr (ErrInvalidWireItem "verdict missing entry for pending var"
                 ("pending id " ++ show_id id ++ " (`" ++ var_name pv ++ "`)"))
      end
  end.

Definition patch_verdict_key (v : WirePatchVerdict) : PendingId * string :=
  match v with PatchApproved id h _ | PatchDenied id h | PatchIgnored id h => (id, h) end.
Definition unknown_patch (id : PendingId) : ComposeError :=
  ErrInvalidWireItem "verdict references unknown pending patch id" ("pending id " ++ show_id id).

(** [apply_patch_verdicts]: [touched] the ids mentioned and [seen] the entries
    met so far; paths compare by their components. *)
Definition entry_seen (key : PendingId * string) (seen : list (PendingId * string)) : bool :=
  existsb (fun s => bool_decide (s.1 = key.1) && same_path s.2 key.2) seen.
Fixpoint walk_patch_verdicts (pending : gmap PendingId ProvenancedPatch) (touched : gset PendingId)
    (seen : list (PendingId * string)) (verdicts : list WirePatchVerdict)
    : (list SessionPatch * gset PendingId) + ComposeError :=
  match verdicts with
  | [] => inl ([], touched)
  | v :: verdicts =>
      let key := patch_verdict_key v in
      if entry_seen key seen then
        inr (ErrInvalidWireItem "verdict contains duplicate patch entry"
               ("pending id " ++ show_id key.1 ++ ", host_path `" ++ key.2 ++ "`"))
      else
        match pending !! key.1 with
        | None => inr (unknown_patch key.1)
        | Some pp =>
            let rest := walk_patch_verdicts pending ({[key.1]} ∪ touched) (key :: seen) verdicts in
            match v with
            | PatchApproved _ host destination =>
                match rest with
                | inr e => inr e
                | inl (accepted, touched) =>
                    inl ({| sp_patch := {| rp_host_path := host; rp_dest := destination |}; sp_source := pn_source pp |} :: accepted, touched)
                end
            | PatchIgnored _ _ => rest
            | PatchDenied _ host => inr (ErrDenied host (pn_source pp))
            end
        end
  end.
Definition apply_patch_verdicts (pending : gmap PendingId ProvenancedPatch) (verdicts : list WirePatchVerdict)
    : list SessionPatch + ComposeError :=
  match walk_patch_verdicts pending ∅ [] verdicts with
  | inr e => inr e
  | inl (accepted, touched) =>
      match List.find (fun e => negb (bool_decide (e.1 ∈ touched))) (id_iter pending) with
      | None => inl accepted
      | Some (id, pp) =>
          inr (ErrInvalidWireItem "verdict missing entry for pending patch"
                 ("pending id " ++ show_id id ++ " (source pattern `" ++ pt_source (pn_patch pp) ++ "`)"))
      end
  end.

(** [resume_from_verdict]. *)
Definition resume_from_verdict (state : PendingComposeState) (verdict : ContributionVerdict) : Composition + ComposeError :=
  match apply_hook_verdicts (ps_hooks state) (cv_hooks verdict) with
  | inr e => inr e
  | inl hooks =>
      match apply_var_verdicts (ps_vars state) (cv_vars verdict) with
      | inr e => inr e
      | inl vars =>
          match apply_patch_verdicts (ps_patches state) (cv_patches verdict) with
          | inr e => inr e
          | inl patches =>
              match extend_with (from_daemon_passthrough (ps_packages state) hooks) vars patches with
              | inr e => inr e
              | inl composition => extend_from_wire composition (ps_client state)
              end
          end
      end
  end.

(** ** The client *)

Section Client.
Context (glob_match : string -> string -> bool) (glob_ok is_dir : string -> bool) (fs_match : FileSet -> string -> bool)
        (walk : string -> bool -> bool -> list WalkItem) (file_len : string -> Z + string)
        (canonicalize : string -> string + PatchError).
(** The user's environment. *)
Context (env : string -> string + EnvError).

(** *** Variables *)

Definition PendingVar : Type := PendingId * ProvenancedVar.
(** [PendingVar::from_wire]: the spec is resolved in the user's environment. *)
Definition pending_from_wire (w : WirePendingVar) : PendingVar + ComposeError :=
  match resolve_with (wpv_name w) (wpv_spec w) env with
  | inr (name, e) => inr (ErrVarResolution name e)
  | inl resolved => inl (wpv_id w, {| pv_var := resolved; pv_source := wpv_source w |})
  end.

Record VarOutcome : Type := { vo_verdict : WireVarVerdict; vo_approval : option SessionVar }.
Inductive VarClassification : Type := VarDecided (o : VarOutcome) | VarPending (p : PendingVar).
Definition approved_var (p : PendingVar) : VarOutcome :=
  {| vo_verdict := VarApproved p.1 (var_to_wire (pv_var p.2)); vo_approval := Some p.2 |}.

(** [classify_var]. *)
Definition classify_var (policy : VarsPolicy) (p : PendingVar) : VarClassification :=
  if negb (rv_user_data (pv_var p.2)) then VarDecided (approved_var p)
  else
    match vars_check glob_match policy (var_name p.2) p.2 with
    | Decided (Allowed pv) => VarDecided (approved_var (p.1, pv))
    | Decided (Denied pv) => VarDecided {| vo_verdict := VarDenied p.1 (var_name pv); vo_approval := None |}
    | Decided Ignored => VarDecided {| vo_verdict := VarIgnored p.1 (var_name p.2); vo_approval := None |}
    | NeedsApproval pv => VarPending (p.1, pv)
    end.

(** [apply_var_decision]. *)
Definition apply_var_decision (policy : VarsPolicy) (p : PendingVar) (d : ItemDecision) : VarOutcome + ComposeError :=
  match d with
  | AllowOnce => inl (approved_var p)
  | IgnoreOnce => inl {| vo_verdict := VarIgnored p.1 (var_name p.2); vo_approval := None |}
  | UseRule =>
      match classify_var policy p with
      | VarDecided o => inl o
      | VarPending p => inr (use_rule_undecided DomainVar ("variable `" ++ var_name p.2 ++ "`"))
      end
  end.

(** [partition_var_classifications]. *)
Definition decided_outcomes (cs : list VarClassification) : list VarOutcome :=
  omap (fun c => match c with VarDecided o => Some o | VarPending _ => None end) cs.
Definition pending_vars_of (cs : list VarClassification) : list PendingVar :=
  omap (fun c => match c with VarDecided _ => None | VarPending p => Some p end) cs.

(** [gate_pending_vars]: the outcomes in the order they are pushed. *)
Definition gate_pending_vars (pending : list WirePendingVar) (policy : VarsPolicy) (hooks : PolicyHooks)
    : (list VarOutcome * VarsPolicy) + ComposeError :=
  match collect pending_from_wire pending with
  | inr e => inr e
  | inl pending =>
      let cs := map (classify_var policy) pending in
      let out := decided_outcomes cs in
      let unapproved := pending_vars_of cs in
      match unapproved with
      | [] => inl (out, policy)
      | _ =>
          match prompt_var_hook hooks policy (map (fun p => (var_name p.2, pv_source p.2)) unapproved) with
          | inr e => inr e
          | inl (decisions, policy) =>
              match collect (fun e => apply_var_decision policy e.1 e.2) (zip unapproved decisions) with
              | inr e => inr e
              | inl outcomes => inl (out ++ outcomes, policy)
              end
          end
      end
  end.

(** *** Patches *)

Definition PendingPatchFile : Type := PendingId * PatchFile.
Inductive PatchClassification : Type := PatchDecided (v : WirePatchVerdict) | PatchPending (p : PendingPatchFile).
Definition approved_patch (p : PendingPatchFile) : WirePatchVerdict := PatchApproved p.1 (pf_target_path p.2) (pf_dest p.2).

(** [classify_patch_file]. *)
Definition classify_patch_file (policy : ExpandedPatchesPolicy) (p : PendingPatchFile) : PatchClassification :=
  match patches_check fs_match policy (pf_link_path p.2) (pf_target_path p.2) p.2 with
  | Decided (Allowed pf) => PatchDecided (approved_patch (p.1, pf))
  | Decided (Denied pf) => PatchDecided (PatchDenied p.1 (pf_target_path pf))
  | Decided Ignored => PatchDecided (PatchIgnored p.1 (pf_target_path p.2))
  | NeedsApproval pf => PatchPending (p.1, pf)
  end.

(** [apply_patch_decision]. *)
Definition apply_patch_decision (policy : ExpandedPatchesPolicy) (p : PendingPatchFile) (d : ItemDecision)
    : WirePatchVerdict + ComposeError :=
  match d with
  | AllowOnce => inl (approved_patch p)
  | IgnoreOnce => inl (PatchIgnored p.1 (pf_target_path p.2))
  | UseRule =>
      match classify_patch_file policy p with
      | PatchDecided v => inl v
      | PatchPending p => inr (use_rule_undecided DomainPatch ("path `" ++ pf_target_path p.2 ++ "`"))
      end
  end.

Definition no_root_context (p : WirePendingPatch) : string :=
  ("pending id " ++ show_id (wpp_id p) ++ ", source pattern `" ++ wpp_source_pattern p ++
   "` — the pattern's literal prefix is not an absolute host path, so no Ignored verdict can be emitted; " ++
   "make the source pattern host-anchored (e.g. `/…` or `~/…`)")%string.

(** One pending patch of [enumerate_and_classify_patches]: its files, or the
    stand-in verdict when it has none. *)
Definition synthetic_host_path (fs : FileSet) : option string :=
  match walk_root fs with Some r => if starts_slash r then Some r else None | None => None end.
Definition enumerate_pending (combined_vars : list SessionVar) (anchors : PatchAnchors) (follow_symlinks : bool)
    (p : WirePendingPatch) : outcome (list PendingPatchFile * list WirePatchVerdict + ComposeError) :=
  match patchdest_try_new (wpp_destination p) with
  | inr e => Done (inr (ErrInvalidPendingPatchDest e))
  | inl dest =>
      match expand_patch_sources glob_ok is_dir
              [{| pn_patch := {| pt_source := wpp_source_pattern p; pt_dest := dest |}; pn_source := wpp_source p; pn_follow := None |}]
              combined_vars anchors follow_symlinks with
      | inr e => Done (inr e)
      | inl expanded =>
          files ← enumerate_files is_dir fs_match walk file_len canonicalize expanded;
          Done (match files with
                | inr e => inr e
                | inl [] =>
                    match (match expanded with epp :: _ => synthetic_host_path (ex_source epp) | [] => None end) with
                    | Some host_path => inl ([], [PatchIgnored (wpp_id p) host_path])
                    | None => inr (ErrInvalidWireItem "pending patch has no host-anchored walk root" (no_root_context p))
                    end
                | inl files => inl (map (pair (wpp_id p)) files, [])
                end)
      end
  end.

(** [enumerate_and_classify_patches]. *)
Definition classified_verdicts (cs : list PatchClassification) : list WirePatchVerdict :=
  omap (fun c => match c with PatchDecided v => Some v | PatchPending _ => None end) cs.
Definition pending_files_of (cs : list PatchClassification) : list PendingPatchFile :=
  omap (fun c => match c with PatchDecided _ => None | PatchPending p => Some p end) cs.
Fixpoint enumerate_and_classify_patches (policy : ExpandedPatchesPolicy) (combined_vars : list SessionVar)
    (anchors : PatchAnchors) (follow_symlinks : bool) (pending : list WirePendingPatch)
    : outcome (list WirePatchVerdict * list PendingPatchFile + ComposeError) :=
  match pending with
  | [] => Done (inl ([], []))
  | p :: pending =>
      r ← enumerate_pending combined_vars anchors follow_symlinks p;
      match r with
      | inr e => Done (inr e)
      | inl (files, synthetic) =>
          let cs := map (classify_patch_file policy) files in
          rest ← enumerate_and_classify_patches policy combined_vars anchors follow_symlinks pending;
          Done (match rest with
                | inr e => inr e
                | inl (verdicts, unapproved) =>
                    inl (classified_verdicts cs ++ synthetic ++ verdicts, pending_files_of cs ++ unapproved)
                end)
      end
  end.

(** [gate_pending_patches]. *)
Definition env_home : option string := match env "HOME" with inl h => Some h | inr _ => None end.
Definition gate_pending_patches (pending : list WirePendingPatch) (policy : PatchesPolicy) (hooks : PolicyHooks)
    (follow_symlinks : bool) (combined_vars : list SessionVar)
    : outcome (list WirePatchVerdict * PatchesPolicy + ComposeError) :=
  if is_empty pending then Done (inl ([], policy))
  else
    let lookup := session_lookup combined_vars in
    match patches_expand_with glob_ok is_dir policy lookup env_home with
    | inr e => Done (inr (ErrExpansion e))
    | inl expanded =>
        r ← enumerate_and_classify_patches expanded combined_vars {| pa_home := env_home; pa_loadouts_dir := None |}
              follow_symlinks pending;
        Done (match r with
              | inr e => inr e
              | inl (verdicts, unapproved) =>
                  match unapproved with
                  | [] => inl (verdicts, policy)
                  | _ =>
                      match prompt_patch_hook hooks policy (map (fun p => (user_facing p.2, pf_provenance p.2)) unapproved) with
                      | inr e => inr e
                      | inl (decisions, policy, policy_updated) =>
                          match (if policy_updated then patches_expand_with glob_ok is_dir policy lookup env_home else inl expanded) with
                          | inr e => inr (ErrExpansion e)
                          | inl expanded =>
                              match collect (fun e => apply_patch_decision expanded e.1 e.2) (zip unapproved decisions) with
                              | inr e => inr e
                              | inl answers => inl (verdicts ++ answers, policy)
                              end
                          end
                      end
                  end
              end)
    end.

(** *** Lifecycle hooks *)

Definition HookRef : Type := PendingId * Source.
#[local] Instance hook_ref_provenanced : Provenanced HookRef := snd.
(** A project that needs a decision: its root, its source, and the ids that
    wait for it. *)
Definition UndecidedProject : Type := string * Source * list PendingId.

(** The debug form of a source, for a name without characters to escape. *)
Definition QUOTE : string := String (ascii_of_nat 34) EmptyString.
Definition debug_source (s : Source) : string :=
  match s with
  | UserLoadout name => "UserLoadout { name: " ++ QUOTE ++ name ++ QUOTE ++ " }"
  | Project path => "Project { path: " ++ path ++ " }"
  | Package name => "Package { name: " ++ QUOTE ++ name ++ QUOTE ++ " }"
  end%string.

Fixpoint wait_for (unapproved : list UndecidedProject) (root : string) (src : Source) (id : PendingId) : list UndecidedProject :=
  match unapproved with
  | [] => [(root, src, [id])]
  | (r, s, ids) :: unapproved =>
      if same_path r root then (r, s, ids ++ [id]) :: unapproved else (r, s, ids) :: wait_for unapproved root src id
  end.

(** Pass 1 of [gate_pending_hooks]. *)
Fixpoint classify_hooks (policy : ExpandedHooksPolicy) (verdicts : list WireHookVerdict) (unapproved : list UndecidedProject)
    (pending : list WirePendingHook) : list WireHookVerdict * list UndecidedProject + ComposeError :=
  match pending with
  | [] => inl (verdicts, unapproved)
  | p :: pending =>
      match hooks_check fs_match policy ((wph_id p, wph_source p) : HookRef) with
      | Decided (Allowed h) => classify_hooks policy (verdicts ++ [HookApproved h.1]) unapproved pending
      | Decided (Denied h) => classify_hooks policy (verdicts ++ [HookDenied h.1]) unapproved pending
      | Decided Ignored => classify_hooks policy (verdicts ++ [HookIgnored (wph_id p)]) unapproved pending
      | NeedsApproval h =>
          match h.2 with
          | Project path => classify_hooks policy verdicts (wait_for unapproved path h.2 h.1) pending
          | other => inr (ErrInvalidWireItem "lifecycle hook needing approval from a non-project source" (debug_source other))
          end
      end
  end.

(** Pass 3 of [gate_pending_hooks]: one project's answer, for each of its
    ids. *)
Definition hook_answer (policy : ExpandedHooksPolicy) (root : string) (src : Source) (d : ItemDecision) (id : PendingId)
    : WireHookVerdict + ComposeError :=
  match d with
  | AllowOnce => inl (HookApproved id)
  | IgnoreOnce => inl (HookIgnored id)
  | UseRule =>
      match hooks_check fs_match policy ((id, src) : HookRef) with
      | Decided (Allowed h) => inl (HookApproved h.1)
      | Decided (Denied h) => inl (HookDenied h.1)
      | Decided Ignored => inl (HookIgnored id)
      | NeedsApproval _ => inr (use_rule_undecided DomainHook ("lifecycle hooks from project `" ++ root ++ "`"))
      end
  end.
Definition project_answers (policy : ExpandedHooksPolicy) (e : UndecidedProject * ItemDecision) : list WireHookVerdict + ComposeError :=
  let '((root, src, ids), d) := e in collect (hook_answer policy root src d) ids.

(** [gate_pending_hooks]. *)
Definition gate_pending_hooks (pending : list WirePendingHook) (policy : HooksPolicy) (hooks : PolicyHooks)
    (combined_vars : list SessionVar) : list WireHookVerdict * HooksPolicy + ComposeError :=
  if is_empty pending then inl ([], policy)
  else
    let expand p := hooks_expand_with glob_ok is_dir p (session_lookup combined_vars) env_home in
    match expand policy with
    | inr e => inr (ErrExpansion e)
    | inl expanded =>
        match classify_hooks expanded [] [] pending with
        | inr e => inr e
        | inl (verdicts, unapproved) =>
            match unapproved with
            | [] => inl (verdicts, policy)
            | _ =>
                match prompt_hook_hook hooks policy (map (fun u => u.1) unapproved) with
                | inr e => inr e
                | inl (decisions, policy) =>
                    match expand policy with
                    | inr e => inr (ErrExpansion e)
                    | inl expanded =>
                        match collect (project_answers expanded) (zip unapproved decisions) with
                        | inr e => inr e
                        | inl answers => inl (verdicts ++ List.concat answers, policy)
                        end
                    end
                end
            end
        end
    end.

(** [handle_response]. *)
Definition handle_response (response : ContributionResponse) (gated_vars : list SessionVar) (policy : UserPolicy)
    (hooks : PolicyHooks) (follow_symlinks : bool) : outcome (ContributionVerdict * UserPolicy + ComposeError) :=
  match gate_pending_vars (cr_vars response) (up_vars policy) hooks with
  | inr e => Done (inr e)
  | inl (var_out, vars_policy) =>
      let combined_vars := gated_vars ++ omap vo_approval var_out in
      patches ← gate_pending_patches (cr_patches response) (up_patches policy) hooks follow_symlinks combined_vars;
      Done (match patches with
            | inr e => inr e
            | inl (patch_verdicts, patches_policy) =>
                match gate_pending_hooks (cr_hooks response) (up_hooks policy) hooks combined_vars with
                | inr e => inr e
                | inl (hook_verdicts, hooks_policy) =>
                    inl ({| cv_session_id := cr_session_id response; cv_vars := map vo_verdict var_out;
                            cv_patches := patch_verdicts; cv_hooks := hook_verdicts |},
                         {| up_vars := vars_policy; up_patches := patches_policy; up_hooks := hooks_policy |})
                end
            end)
  end.
End Client.
