(* ===== verification/VerdictProps.v ===== *)
(** * What the verdict exchange guarantees (see Verdict.v) *)

From stdpp Require Import base list sets gmap sorting strings numbers pretty.
From Stdlib Require Import ZArith Lia Ascii String.
From S2P Require Import Prelude Text Classifier Expansion Policy LifecycleHook Compose Enumerate Gate Verdict.
Open Scope nat_scope.
#[local] Close Scope Z_scope.

(** ** Collecting *)

Lemma collect_map {A B E C} (f : A -> B + E) (g : B -> C) (h : A -> C) l bs :
  (forall a b, f a = inl b -> g b = h a) -> collect f l = inl bs -> map g bs = map h l.
Proof.
  intros Hf. revert bs. induction l as [|a l IH]; intros bs H; cbn in H; [by injection H as <-|].
  destruct (f a) as [b|] eqn:Ea; [|done]. destruct (collect f l) as [bs'|]; [|done]. injection H as <-.
  cbn. f_equal; [by apply Hf|by apply IH].
Qed.

Lemma collect_elem {A B E} (f : A -> B + E) l bs b : collect f l = inl bs -> b ∈ bs -> exists a, a ∈ l /\ f a = inl b.
Proof.
  revert bs. induction l as [|a l IH]; intros bs H Hb; cbn in H; [injection H as <-; by apply elem_of_nil in Hb|].
  destruct (f a) as [b'|] eqn:Ea; [|done]. destruct (collect f l) as [bs'|]; [|done]. injection H as <-.
  apply elem_of_cons in Hb as [->|Hb]; [exists a; split; [by constructor|done]|].
  destruct (IH bs' eq_refl Hb) as (a' & ? & ?). exists a'. split; [by constructor|done].
Qed.

Lemma omap_map {A B C} (f : B -> option C) (g : A -> B) l : omap f (map g l) = omap (fun a => f (g a)) l.
Proof. induction l as [|a l IH]; [done|]. cbn. by rewrite IH. Qed.

Lemma zip_fst_length {A B} (l : list A) (k : list B) : List.length k = List.length l -> map fst (zip l k) = l.
Proof. intros H. rewrite <- (fst_zip l k) at 2 by lia. done. Qed.

(** A list cut in two by a classification is a permutation of its parts. *)
Lemma omap_split {A B C D} (f : A -> option B) (g : A -> option C) (h : A -> D) (hb : B -> D) (hc : C -> D) l :
  (forall a, (exists b, f a = Some b /\ g a = None /\ hb b = h a) \/ (exists c, f a = None /\ g a = Some c /\ hc c = h a)) ->
  map hb (omap f l) ++ map hc (omap g l) ≡ₚ map h l.
Proof.
  intros H. induction l as [|a l IH]; [done|]. cbn. destruct (H a) as [(b & -> & -> & Hb)|(c & -> & -> & Hc)]; cbn.
  - by rewrite Hb, IH.
  - by rewrite <- Permutation_middle, Hc, IH.
Qed.

(** ** The stash *)

Lemma pend_spec {A W} (wire : PendingId -> A -> W) i items ws stash :
  pend wire i items = Done (ws, stash) ->
  ws = imap (fun k a => wire (i + k) a) items /\
  forall id, stash !! id = if bool_decide (i <= id) then items !! (id - i) else None.
Proof.
  revert i ws stash. induction items as [|a items IH]; intros i ws stash H.
  - injection H as <- <-. split; [done|]. intros id. rewrite lookup_empty. by case_bool_decide.
  - cbn [pend] in H. unfold pending_id in H. destruct (_ <? _)%Z; [|done]. rewrite bind_Done in H.
    apply bind_Done_inv in H as ([ws' stash'] & H & E). injection E as <- <-. destruct (IH _ _ _ H) as [-> Hs].
    split.
    + cbn. rewrite Nat.add_0_r. f_equal. apply imap_ext. intros k x _. cbn. f_equal. lia.
    + intros id. destruct (decide (id = i)) as [->|Hne].
      * rewrite lookup_insert_eq, bool_decide_true, Nat.sub_diag by lia. done.
      * rewrite lookup_insert_ne, Hs by done. destruct (decide (S i <= id)).
        -- rewrite !bool_decide_true by lia. replace (id - i) with (S (id - S i)) by lia. done.
        -- rewrite !bool_decide_false by lia. done.
Qed.

Lemma pend_ids {A W} (wire : PendingId -> A -> W) (idof : W -> PendingId) items ws stash :
  (forall id a, idof (wire id a) = id) -> pend wire 0 items = Done (ws, stash) ->
  NoDup (map idof ws) /\ (forall id, id ∈ map idof ws <-> is_Some (stash !! id)) /\
  (forall w, w ∈ ws -> exists a, stash !! idof w = Some a /\ w = wire (idof w) a).
Proof.
  intros Hid H. apply pend_spec in H as [-> Hs].
  change (imap (fun k a => wire (0 + k) a) items) with (imap wire items).
  assert (Hids : map idof (imap wire items) = seq 0 (List.length items)).
  { change (map idof (imap wire items)) with (idof <$> imap wire items). rewrite fmap_imap.
    rewrite (imap_ext _ (fun k _ => k)) by (intros k a _; cbn; apply Hid). rewrite imap_seq_0. apply list_fmap_id. }
  rewrite Hids. split; [apply NoDup_seq|]. split.
  - intros id. rewrite Hs, bool_decide_true by lia. rewrite Nat.sub_0_r, elem_of_seq, lookup_lt_is_Some. lia.
  - intros w Hw. apply elem_of_lookup_imap in Hw as (k & a & -> & Ha). exists a. rewrite Hid, Hs, bool_decide_true by lia.
    by rewrite Nat.sub_0_r.
Qed.

(** ** The daemon's side *)

(** *** Variables *)

Definition var_denied (v : WireVarVerdict) : bool := match v with VarDenied _ _ => true | _ => false end.
Definition accepted_var (stash : gmap PendingId ProvenancedVar) (v : WireVarVerdict) : option SessionVar :=
  match v with
  | VarApproved id value => pv ← stash !! id; Some {| pv_var := var_from_wire value; pv_source := pv_source pv |}
  | _ => None
  end.

(** The walk over verdicts with distinct ids that are all pending. *)
Lemma walk_var_verdicts_ok sources pending seen vs :
  NoDup (map var_verdict_id vs) -> (forall v, v ∈ vs -> var_verdict_id v ∉ seen /\ is_Some (pending !! var_verdict_id v)) ->
  (forall id pv, pending !! id = Some pv -> sources !! id = Some (pv_source pv)) ->
  if existsb var_denied vs then exists what from, walk_var_verdicts sources pending seen vs = inr (ErrDenied what from)
  else exists leftover, walk_var_verdicts sources pending seen vs = inl (omap (accepted_var pending) vs, leftover) /\
       forall id, leftover !! id = if bool_decide (id ∈ map var_verdict_id vs) then None else pending !! id.
Proof.
  revert pending seen. induction vs as [|v vs IH]; intros pending seen Hnd Hin Hsrc.
  { cbn. exists pending. split; [done|]. intros id. by rewrite bool_decide_false by set_solver. }
  apply NoDup_cons in Hnd as [Hv Hnd]. destruct (Hin v) as [Hseen [pv Hpv]]; [by constructor|].
  cbn [walk_var_verdicts existsb]. rewrite bool_decide_false by done.
  set (id := var_verdict_id v) in *.
  assert (Hrest := IH (delete id pending) ({[id]} ∪ seen) Hnd). clear IH.
  assert (Hpre : forall v', v' ∈ vs -> var_verdict_id v' ∉ {[id]} ∪ seen /\ is_Some (delete id pending !! var_verdict_id v')).
  { intros v' Hv'. destruct (Hin v') as [? ?]; [by constructor|].
    assert (var_verdict_id v' <> id) by (intros E; apply Hv; rewrite <- E; by apply list_elem_of_fmap_2).
    split; [set_solver|]. by rewrite lookup_delete_ne. }
  assert (Hsrc' : forall id' pv', delete id pending !! id' = Some pv' -> sources !! id' = Some (pv_source pv')).
  { intros id' pv' [_ H]%lookup_delete_Some. by apply Hsrc. }
  specialize (Hrest Hpre Hsrc').
  assert (Hacc : forall v', v' ∈ vs -> accepted_var (delete id pending) v' = accepted_var pending v').
  { intros v' Hv'. destruct v'; cbn; try done. rewrite lookup_delete_ne; [done|].
    intros E. apply Hv. unfold id in *. rewrite E. by apply (list_elem_of_fmap_2 var_verdict_id) in Hv'. }
  assert (Homap : omap (accepted_var (delete id pending)) vs = omap (accepted_var pending) vs).
  { clear -Hacc. induction vs as [|v' vs IH]; [done|]. cbn. rewrite Hacc by constructor.
    destruct (accepted_var pending v'); rewrite IH; try done; intros; apply Hacc; by constructor. }
  assert (Hleft : forall leftover : gmap PendingId ProvenancedVar, (forall id', leftover !! id' = if bool_decide (id' ∈ map var_verdict_id vs) then None else delete id pending !! id') ->
            forall id', leftover !! id' = if bool_decide (id' ∈ id :: map var_verdict_id vs) then None else pending !! id').
  { intros leftover Hl id'. rewrite Hl. destruct (decide (id' = id)) as [->|Hne].
    - rewrite (bool_decide_true (id ∈ id :: _)) by constructor. rewrite lookup_delete_eq. by case_bool_decide.
    - rewrite lookup_delete_ne by done. rewrite (bool_decide_ext _ (id' ∈ id :: map var_verdict_id vs)); [done|]. set_solver. }
  unfold id in *. destruct v as [i value|i name|i name]; cbn [var_denied var_verdict_id orb] in *.
  - rewrite Hpv. destruct (existsb var_denied vs).
    + destruct Hrest as (w & f & ->). by eexists _, _.
    + destruct Hrest as (lo & -> & Hl). exists lo. cbn [omap list_omap accepted_var]. rewrite Hpv. cbn. rewrite Homap.
      split; [done|]. by apply Hleft.
  - rewrite (Hsrc _ _ Hpv). by eexists _, _.
  - rewrite Hpv. destruct (existsb var_denied vs).
    + destruct Hrest as (w & f & ->). by eexists _, _.
    + destruct Hrest as (lo & -> & Hl). exists lo. cbn [omap list_omap accepted_var]. rewrite Homap. split; [done|]. by apply Hleft.
Qed.

Lemma id_iter_nil {A} (m : gmap PendingId A) : (forall id, m !! id = None) -> id_iter m = [].
Proof. intros H. apply map_empty in H as ->. reflexivity. Qed.

(** The daemon accepts verdicts that cover its stash once each, unless one
    denies. *)
Lemma apply_var_verdicts_ok stash vs :
  NoDup (map var_verdict_id vs) -> (forall id, id ∈ map var_verdict_id vs <-> is_Some (stash !! id)) ->
  if existsb var_denied vs then exists what from, apply_var_verdicts stash vs = inr (ErrDenied what from)
  else apply_var_verdicts stash vs = inl (omap (accepted_var stash) vs).
Proof.
  intros Hnd Hdom.
  assert (Hin : forall v, v ∈ vs -> var_verdict_id v ∉ (∅ : gset PendingId) /\ is_Some (stash !! var_verdict_id v)).
  { intros v Hv. split; [set_solver|]. apply Hdom. by apply list_elem_of_fmap_2. }
  assert (Hsrc : forall id pv, stash !! id = Some pv -> (pv_source <$> stash) !! id = Some (pv_source pv)).
  { intros id pv Hpv. by rewrite lookup_fmap, Hpv. }
  pose proof (walk_var_verdicts_ok (pv_source <$> stash) stash ∅ vs Hnd Hin Hsrc) as H. clear Hin Hsrc.
  unfold apply_var_verdicts. destruct (existsb var_denied vs).
  - destruct H as (w & f & ->). by eexists _, _.
  - destruct H as (lo & -> & Hl). rewrite id_iter_nil; [done|]. intros id. rewrite Hl. case_bool_decide as Hin; [done|].
    destruct (stash !! id) eqn:E; [|done]. exfalso. apply Hin, Hdom. by rewrite E.
Qed.

(** *** Hooks *)

Definition hook_verdict_id (v : WireHookVerdict) : PendingId := match v with HookApproved id | HookDenied id | HookIgnored id => id end.
Definition hook_denied (v : WireHookVerdict) : bool := match v with HookDenied _ => true | _ => false end.
Definition accepted_hook (stash : gmap PendingId ProvenancedHook) (v : WireHookVerdict) : option ProvenancedHook :=
  match v with HookApproved id => stash !! id | _ => None end.

Lemma apply_hook_verdicts_ok stash vs :
  NoDup (map hook_verdict_id vs) -> (forall v, v ∈ vs -> is_Some (stash !! hook_verdict_id v)) ->
  if existsb hook_denied vs then exists what from, apply_hook_verdicts stash vs = inr (ErrDenied what from)
  else apply_hook_verdicts stash vs = inl (omap (accepted_hook stash) vs).
Proof.
  revert stash. induction vs as [|v vs IH]; intros stash Hnd Hin; [done|].
  apply NoDup_cons in Hnd as [Hv Hnd]. destruct (Hin v) as [h Hh]; [by constructor|].
  assert (Hne : forall v', v' ∈ vs -> hook_verdict_id v' <> hook_verdict_id v).
  { intros v' Hv' E. apply Hv. rewrite <- E. by apply list_elem_of_fmap_2. }
  assert (Hpre : forall v', v' ∈ vs -> is_Some (delete (hook_verdict_id v) stash !! hook_verdict_id v')).
  { intros v' Hv'. rewrite lookup_delete_ne by (by apply not_eq_sym, Hne). apply Hin. by constructor. }
  assert (Homap : omap (accepted_hook (delete (hook_verdict_id v) stash)) vs = omap (accepted_hook stash) vs).
  { clear -Hne. induction vs as [|v' vs IH]; [done|].
    assert (Hv' : accepted_hook (delete (hook_verdict_id v) stash) v' = accepted_hook stash v').
    { destruct v'; cbn; try done. rewrite lookup_delete_ne; [done|]. apply not_eq_sym. apply (Hne (HookApproved id)). by constructor. }
    cbn. rewrite Hv'. destruct (accepted_hook stash v'); rewrite IH; try done; intros; apply Hne; by constructor. }
  specialize (IH (delete (hook_verdict_id v) stash) Hnd Hpre).
  cbn [apply_hook_verdicts existsb]. destruct v as [id|id|id]; cbn [hook_denied hook_verdict_id orb] in *; rewrite Hh.
  - destruct (existsb hook_denied vs); [destruct IH as (w & f & ->); by eexists _, _|].
    rewrite IH. cbn. by rewrite Hh, Homap.
  - by eexists _, _.
  - destruct (existsb hook_denied vs); [destruct IH as (w & f & ->); by eexists _, _|].
    rewrite IH. cbn. by rewrite Homap.
Qed.

(** Whatever a verdict says, the hooks the daemon keeps are its own, each
    approved by the verdict under its id and at most once. *)
Lemma apply_hook_verdicts_stash stash vs hooks :
  apply_hook_verdicts stash vs = inl hooks ->
  exists ids, NoDup ids /\ (forall id, id ∈ ids -> HookApproved id ∈ vs) /\ Forall2 (fun id h => stash !! id = Some h) ids hooks.
Proof.
  revert stash hooks. induction vs as [|v vs IH]; intros stash hooks H; cbn in H.
  { injection H as <-. exists []. split; [constructor|]. split; [set_solver|constructor]. }
  assert (Hdel : forall id ids hs, Forall2 (fun i h => delete id stash !! i = Some h) ids hs ->
            id ∉ ids /\ Forall2 (fun i h => stash !! i = Some h) ids hs).
  { intros id ids hs HF. induction HF as [|i h ids hs Hi _ [IH1 IH2]]; [split; [set_solver|constructor]|].
    apply lookup_delete_Some in Hi as [Hne Hi]. split; [set_solver|by constructor]. }
  destruct v as [id|id|id]; [| |].
  - destruct (stash !! id) as [h|] eqn:E; [|done]. destruct (apply_hook_verdicts _ vs) as [acc|] eqn:Er; [|done].
    injection H as <-. apply IH in Er as (ids & Hnd & Hin & HF). destruct (Hdel id _ _ HF) as [Hid HF'].
    exists (id :: ids). split; [by constructor|]. split; [|by constructor].
    intros i [->|Hi]%elem_of_cons; [by constructor|constructor; auto].
  - by destruct (stash !! id).
  - destruct (stash !! id) as [h|]; [|done]. destruct (apply_hook_verdicts _ vs) as [acc|] eqn:Er; [|done].
    injection H as <-. apply IH in Er as (ids & Hnd & Hin & HF). destruct (Hdel id _ _ HF) as [_ HF'].
    exists ids. split; [done|]. split; [|done]. intros i Hi. constructor. auto.
Qed.

(** *** Patches *)

Definition patch_key (v : WirePatchVerdict) : PendingId * list string :=
  ((patch_verdict_key v).1, components (patch_verdict_key v).2).
Definition patch_denied (v : WirePatchVerdict) : bool := match v with PatchDenied _ _ => true | _ => false end.
Definition accepted_patch (stash : gmap PendingId ProvenancedPatch) (v : WirePatchVerdict) : option SessionPatch :=
  match v with
  | PatchApproved id host dest =>
      pp ← stash !! id; Some {| sp_patch := {| rp_host_path := host; rp_dest := dest |}; sp_source := pn_source pp |}
  | _ => None
  end.

Lemma walk_patch_verdicts_ok stash touched seen vs :
  NoDup (map patch_key vs) -> (forall v s, v ∈ vs -> s ∈ seen -> (s.1, components s.2) <> patch_key v) ->
  (forall v, v ∈ vs -> is_Some (stash !! (patch_verdict_key v).1)) ->
  if existsb patch_denied vs then exists what from, walk_patch_verdicts stash touched seen vs = inr (ErrDenied what from)
  else walk_patch_verdicts stash touched seen vs =
       inl (omap (accepted_patch stash) vs, list_to_set (rev (map (fun v => (patch_verdict_key v).1) vs)) ∪ touched).
Proof.
  revert touched seen. induction vs as [|v vs IH]; intros touched seen Hnd Hseen Hin.
  { cbn. f_equal. f_equal. set_solver. }
  apply NoDup_cons in Hnd as [Hv Hnd]. destruct (Hin v) as [pp Hpp]; [by constructor|].
  cbn [walk_patch_verdicts existsb].
  assert (Hns : entry_seen (patch_verdict_key v) seen = false).
  { destruct (entry_seen _ _) eqn:E; [|done]. apply existsb_exists in E as (s & Hs & Hk).
    apply andb_true_iff in Hk as [H1%bool_decide_eq_true H2%bool_decide_eq_true]. apply list_elem_of_In in Hs.
    destruct (Hseen v s); [by constructor|done|]. unfold patch_key. congruence. }
  rewrite Hns, Hpp.
  specialize (IH ({[(patch_verdict_key v).1]} ∪ touched) (patch_verdict_key v :: seen) Hnd).
  assert (Hs' : forall v' s, v' ∈ vs -> s ∈ patch_verdict_key v :: seen -> (s.1, components s.2) <> patch_key v').
  { intros v' s Hv' [->|Hs]%elem_of_cons; [|apply Hseen; [by constructor|done]].
    intros E. apply Hv. change ((patch_verdict_key v).1, components (patch_verdict_key v).2) with (patch_key v) in E.
    rewrite E. by apply list_elem_of_fmap_2. }
  specialize (IH Hs' (fun v' Hv' => Hin v' (list_elem_of_further _ _ _ Hv'))).
  assert (Hset : forall X : gset PendingId, X = list_to_set (rev (map (fun v => (patch_verdict_key v).1) vs)) ∪ ({[(patch_verdict_key v).1]} ∪ touched) ->
            X = list_to_set (rev (map (fun v => (patch_verdict_key v).1) (v :: vs))) ∪ touched).
  { intros X ->. cbn [map rev]. rewrite list_to_set_app_L. set_solver. }
  destruct v as [id h d|id h|id h]; cbn [patch_denied orb]; [| |].
  - destruct (existsb patch_denied vs); [destruct IH as (w & f & ->); by eexists _, _|].
    rewrite IH. cbn [omap list_omap accepted_patch]. cbn [patch_verdict_key fst] in Hpp. rewrite Hpp. cbn [mbind option_bind].
    f_equal. f_equal. by apply Hset.
  - by eexists _, _.
  - destruct (existsb patch_denied vs); [destruct IH as (w & f & ->); by eexists _, _|].
    rewrite IH. cbn [omap list_omap accepted_patch]. f_equal. f_equal. by apply Hset.
Qed.

Lemma apply_patch_verdicts_ok stash vs :
  NoDup (map patch_key vs) -> (forall id, id ∈ map (fun v => (patch_verdict_key v).1) vs <-> is_Some (stash !! id)) ->
  if existsb patch_denied vs then exists what from, apply_patch_verdicts stash vs = inr (ErrDenied what from)
  else apply_patch_verdicts stash vs = inl (omap (accepted_patch stash) vs).
Proof.
  intros Hnd Hdom.
  assert (Hin : forall v, v ∈ vs -> is_Some (stash !! (patch_verdict_key v).1)).
  { intros v Hv. apply Hdom. by apply (list_elem_of_fmap_2 (fun v => (patch_verdict_key v).1)). }
  pose proof (walk_patch_verdicts_ok stash ∅ [] vs Hnd (fun v s _ Hs => False_ind _ (not_elem_of_nil s Hs)) Hin) as H.
  unfold apply_patch_verdicts. destruct (existsb patch_denied vs).
  - destruct H as (w & f & ->). by eexists _, _.
  - rewrite H. destruct (List.find _ _) as [[id pp]|] eqn:E; [|done]. exfalso.
    apply find_some in E as [Hit Ht]. cbn in Ht. apply negb_true_iff, bool_decide_eq_false in Ht. apply Ht.
    apply elem_of_union_l, elem_of_list_to_set. rewrite list_elem_of_In, <- in_rev, <- list_elem_of_In. apply Hdom.
    unfold id_iter in Hit. apply list_elem_of_In in Hit. rewrite merge_sort_Permutation in Hit.
    apply elem_of_map_to_list in Hit. by exists pp.
Qed.

(** *** Any verdict at all *)

(** A walk that succeeds met every id once, found it pending, and no denial. *)
Lemma walk_var_verdicts_inv sources pending seen vs acc leftover :
  walk_var_verdicts sources pending seen vs = inl (acc, leftover) ->
  NoDup (map var_verdict_id vs) /\ (forall v, v ∈ vs -> var_verdict_id v ∉ seen /\ is_Some (pending !! var_verdict_id v)) /\
  existsb var_denied vs = false /\
  forall id, leftover !! id = if bool_decide (id ∈ map var_verdict_id vs) then None else pending !! id.
Proof.
  revert pending seen acc. induction vs as [|v vs IH]; intros pending seen acc H; cbn [walk_var_verdicts] in H.
  { injection H as <- <-. split; [constructor|]. split; [set_solver|]. split; [done|]. intros id. by rewrite bool_decide_false by set_solver. }
  set (id := var_verdict_id v) in *. destruct (bool_decide (id ∈ seen)) eqn:Es; [done|]. apply bool_decide_eq_false in Es.
  assert (Hrest : exists acc', walk_var_verdicts sources (delete id pending) ({[id]} ∪ seen) vs = inl (acc', leftover) /\
            is_Some (pending !! id) /\ var_denied v = false).
  { clearbody id. destruct v; cbn [var_denied]; [|done|].
    - destruct (pending !! id) as [pv|]; [|done].
      destruct (walk_var_verdicts sources (delete id pending) ({[id]} ∪ seen) vs) as [[a l]|]; [|done].
      injection H as <- <-. by exists a.
    - destruct (pending !! id) as [pv|]; [|done]. by exists acc. }
  destruct Hrest as (acc' & Hw & Hp & Hd). destruct (IH _ _ _ Hw) as (Hnd & Hin & Hden & Hl).
  assert (Hnot : id ∉ map var_verdict_id vs).
  { intros Hid. apply list_elem_of_fmap in Hid as (v' & E & Hv'). destruct (Hin v' Hv') as [Hs _]. set_solver. }
  split; [by constructor|]. split; [|split].
  - intros v' [->|Hv']%elem_of_cons; [done|]. destruct (Hin v' Hv') as [Hs [pv Hpv]]. split; [set_solver|].
    apply lookup_delete_Some in Hpv as [_ Hpv]. by exists pv.
  - cbn. by rewrite Hd.
  - intros id'. rewrite Hl. destruct (decide (id' = id)) as [->|Hne].
    + rewrite (bool_decide_false (id ∈ map _ vs)), (bool_decide_true (id ∈ map _ (v :: vs))) by (done || by constructor).
      apply lookup_delete_eq.
    + rewrite lookup_delete_ne by done. rewrite (bool_decide_ext _ (id' ∈ map var_verdict_id (v :: vs))); [done|]. cbn. set_solver.
Qed.

Lemma id_iter_nil_inv {A} (m : gmap PendingId A) : id_iter m = [] -> m = ∅.
Proof.
  intros H. apply map_to_list_empty_iff. apply Permutation_nil_r. rewrite <- H. symmetry. apply merge_sort_Permutation.
Qed.

Lemma apply_var_verdicts_inv stash vs acc :
  apply_var_verdicts stash vs = inl acc ->
  NoDup (map var_verdict_id vs) /\ (forall id, id ∈ map var_verdict_id vs <-> is_Some (stash !! id)) /\ existsb var_denied vs = false.
Proof.
  unfold apply_var_verdicts. destruct (walk_var_verdicts _ _ _ _) as [[a l]|] eqn:Ew; [|done].
  apply walk_var_verdicts_inv in Ew as (Hnd & Hin & Hden & Hl).
  destruct (id_iter l) as [|[]] eqn:Ei; [|done]. intros _. apply id_iter_nil_inv in Ei as ->.
  split; [done|]. split; [|done]. intros id. split.
  - intros Hid. apply list_elem_of_fmap in Hid as (v & -> & Hv). by apply Hin.
  - intros [pv Hpv]. specialize (Hl id). rewrite lookup_empty in Hl. case_bool_decide; [done|congruence].
Qed.

(** C26: whatever verdict comes back, a resumed composition is consistent, every
    stashed var was answered exactly once and none was denied, and the hooks
    it runs are the daemon's own, each approved by the verdict under its id
    and at most once, followed by the client's. *)
Theorem resume_fails_closed state verdict c :
  resume_from_verdict state verdict = inl c ->
  consistent c /\
  NoDup (map var_verdict_id (cv_vars verdict)) /\
  (forall id, id ∈ map var_verdict_id (cv_vars verdict) <-> is_Some (ps_vars state !! id)) /\
  existsb var_denied (cv_vars verdict) = false /\
  exists ids own incoming, cp_hooks c = own ++ incoming /\ NoDup ids /\ (forall id, id ∈ ids -> HookApproved id ∈ cv_hooks verdict) /\
    Forall2 (fun id h => ps_hooks state !! id = Some h) ids own /\
    collect provenanced_hook_from_wire (wc_hooks (ps_client state)) = inl incoming.
Proof.
  unfold resume_from_verdict. intros H.
  destruct (apply_hook_verdicts _ _) as [own|] eqn:Eh; [|done]. destruct (apply_var_verdicts _ _) as [vars|] eqn:Ev; [|done].
  destruct (apply_patch_verdicts _ _) as [patches|]; [|done]. destruct (extend_with _ _ _) as [c0|] eqn:Ee; [|done].
  split; [by eapply extend_from_wire_consistent|].
  apply apply_var_verdicts_inv in Ev as (Hnd & Hdom & Hden). split; [done|]. split; [done|]. split; [done|].
  apply apply_hook_verdicts_stash in Eh as (ids & Hids & Happ & HF). unfold extend_from_wire in H.
  destruct (collect _ _) as [incoming|]; [|done]. destruct (check_incoming_conflicts _ _ _); [done|]. injection H as <-.
  exists ids, own, incoming. split; [|done]. cbn [cp_hooks]. f_equal.
  unfold extend_with in Ee. destruct (check_incoming_conflicts _ _ _); [done|]. by injection Ee as <-.
Qed.

(** ** The client's side *)

Section ClientProps.
Context (glob_match : string -> string -> bool) (glob_ok is_dir : string -> bool) (fs_match : FileSet -> string -> bool)
        (walk : string -> bool -> bool -> list WalkItem) (file_len : string -> Z + string)
        (canonicalize : string -> string + PatchError) (env : string -> string + EnvError).

(** *** Variables *)

(** An outcome about a pending var: approved with its own value, or refused
    one way or the other under its own id. *)
Definition outcome_of (p : PendingVar) (o : VarOutcome) : Prop :=
  o = approved_var p \/
  vo_approval o = None /\ exists name, vo_verdict o = VarDenied p.1 name \/ vo_verdict o = VarIgnored p.1 name.

Lemma outcome_of_id p o : outcome_of p o -> var_verdict_id (vo_verdict o) = p.1.
Proof. by intros [->|[_ (n & [->| ->])]]. Qed.

Lemma classify_var_ok policy p :
  match classify_var glob_match policy p with VarDecided o => outcome_of p o | VarPending p' => p' = p end.
Proof.
  destruct p as [id pv]. unfold classify_var. cbn [fst snd]. destruct (rv_user_data (pv_var pv)); cbn [negb]; [|by left].
  unfold vars_check. repeat case_match; simplify_eq; try (by left); try done; right; cbn; eauto.
Qed.

Lemma apply_var_decision_ok policy p d o : apply_var_decision glob_match policy p d = inl o -> outcome_of p o.
Proof.
  destruct d; cbn.
  - intros [= <-]. by left.
  - intros [= <-]. right. cbn. eauto.
  - pose proof (classify_var_ok policy p) as H. destruct (classify_var _ _ _); [|done]. intros [= <-]. exact H.
Qed.

(** The outcomes the client produces are, in some order, one for each pending
    var. *)
Lemma gate_pending_vars_ok pending policy hooks out policy' :
  gate_pending_vars glob_match env pending policy hooks = inl (out, policy') ->
  map (fun o => var_verdict_id (vo_verdict o)) out ≡ₚ map wpv_id pending /\
  (forall o, o ∈ out -> exists w p, w ∈ pending /\ pending_from_wire env w = inl p /\ outcome_of p o).
Proof.
  unfold gate_pending_vars. destruct (collect _ pending) as [ps|] eqn:Ec; [|done].
  assert (Hids : map fst ps = map wpv_id pending).
  { eapply collect_map; [|exact Ec]. intros w p. unfold pending_from_wire. by repeat case_match; intros [= <-]. }
  assert (Hsrc : forall p, p ∈ ps -> exists w, w ∈ pending /\ pending_from_wire env w = inl p).
  { intros p Hp. exact (collect_elem _ _ _ _ Ec Hp). }
  set (cs := map (classify_var glob_match policy) ps).
  assert (Hsplit : map (fun o => var_verdict_id (vo_verdict o)) (decided_outcomes cs) ++ map fst (pending_vars_of cs) ≡ₚ map wpv_id pending).
  { rewrite <- Hids. unfold decided_outcomes, pending_vars_of, cs.
    rewrite !omap_map. apply omap_split. intros p. pose proof (classify_var_ok policy p) as H. cbn.
    destruct (classify_var glob_match policy p) as [o|p'].
    - left. exists o. split; [done|]. split; [done|]. by apply outcome_of_id.
    - right. exists p'. by subst p'. }
  assert (Hdec : forall o, o ∈ decided_outcomes cs -> exists w p, w ∈ pending /\ pending_from_wire env w = inl p /\ outcome_of p o).
  { intros o Ho. apply list_elem_of_omap in Ho as (c & Hc & Hco). apply list_elem_of_fmap in Hc as (p & -> & Hp).
    pose proof (classify_var_ok policy p) as H. destruct (classify_var _ _ _); [|done]. injection Hco as ->.
    destruct (Hsrc p Hp) as (w & ? & ?). by exists w, p. }
  assert (Hpend : forall p, p ∈ pending_vars_of cs -> p ∈ ps).
  { intros p Hpv. apply list_elem_of_omap in Hpv as (c & Hc & Hco). apply list_elem_of_fmap in Hc as (p0 & -> & Hp0).
    pose proof (classify_var_ok policy p0) as H. destruct (classify_var _ _ _); [done|]. injection Hco as ->. by subst. }
  intros H. destruct (pending_vars_of cs) as [|u us] eqn:Eu.
  { injection H as <- <-. cbn in Hsplit. rewrite app_nil_r in Hsplit. done. }
  rewrite <- Eu in *. destruct (prompt_var_hook _ _ _) as [[ds pol]|] eqn:Ep; [|done].
  destruct (collect _ (zip _ ds)) as [answers|] eqn:Ea; [|done]. injection H as <- <-.
  assert (Hlen : List.length ds = List.length (pending_vars_of cs)).
  { unfold prompt_var_hook in Ep. destruct (on_var_unapproved _ _ _); [|done].
    destruct (negb _) eqn:El; [done|]. injection Ep as <- _. apply negb_false_iff, Nat.eqb_eq in El. by rewrite length_map in El. }
  assert (Hans : map (fun o => var_verdict_id (vo_verdict o)) answers = map fst (pending_vars_of cs)).
  { rewrite <- (zip_fst_length (pending_vars_of cs) ds Hlen). rewrite map_map.
    eapply collect_map; [|exact Ea]. intros [p d] o Ho. cbn in *. apply apply_var_decision_ok in Ho. by apply outcome_of_id. }
  split; [by rewrite map_app, Hans|].
  intros o [Ho|Ho]%elem_of_app; [by apply Hdec|].
  destruct (collect_elem _ _ _ _ Ea Ho) as ([p d] & Hz & Hd). cbn in Hd. apply elem_of_zip_l in Hz. apply apply_var_decision_ok in Hd.
  destruct (Hsrc p (Hpend p Hz)) as (w & ? & ?). by exists w, p.
Qed.

(** *** Lifecycle hooks *)

#[local] Existing Instance hook_ref_provenanced.

Definition waiting (u : list UndecidedProject) : list PendingId := List.concat (map snd u).

Lemma wait_for_ids u root src id : waiting (wait_for u root src id) ≡ₚ id :: waiting u.
Proof.
  induction u as [|[[r s] ids] u IH]; [done|]. cbn [wait_for]. unfold waiting in *.
  destruct (same_path r root); cbn [map snd List.concat].
  - rewrite <- app_assoc. cbn. by rewrite <- Permutation_middle.
  - rewrite IH. by rewrite <- Permutation_middle.
Qed.

(** The roots that wait are pairwise different paths. *)
Lemma wait_for_roots u root src id :
  NoDup (map (fun e => components e.1.1) u) -> NoDup (map (fun e => components e.1.1) (wait_for u root src id)).
Proof.
  induction u as [|[[r s] ids] u IH]; cbn; [intros _; repeat constructor; set_solver|].
  intros [Hr Hnd]%NoDup_cons. destruct (same_path r root) eqn:E; cbn; [by constructor|].
  constructor; [|by apply IH]. intros Hin. apply Hr. clear -Hin E.
  induction u as [|[[r' s'] ids'] u IH]; cbn in *.
  - apply list_elem_of_singleton in Hin. apply bool_decide_eq_false in E. congruence.
  - destruct (same_path r' root); cbn in *; [done|]. apply elem_of_cons in Hin as [->|Hin]; [by constructor|constructor; auto].
Qed.

(** An id that waits belongs to a hook of that root's project. *)
Lemma wait_for_sound u root src id e i :
  e ∈ wait_for u root src id -> i ∈ e.2 ->
  (i = id /\ components e.1.1 = components root) \/ exists e', e' ∈ u /\ e'.1 = e.1 /\ i ∈ e'.2.
Proof.
  induction u as [|[[r s] ids] u IH]; cbn [wait_for].
  - intros ->%list_elem_of_singleton. cbn. intros ->%list_elem_of_singleton. by left.
  - destruct (same_path r root) eqn:E; intros [->|He]%elem_of_cons Hi.
    + cbn in *. apply bool_decide_eq_true in E. apply elem_of_app in Hi as [Hi|Hi%list_elem_of_singleton]; [|by left].
      right. exists (r, s, ids). split; [by constructor|done].
    + right. exists e. split; [by constructor|done].
    + right. exists (r, s, ids). split; [by constructor|done].
    + destruct (IH He Hi) as [?|(e' & ? & ? & ?)]; [by left|]. right. exists e'. split; [by constructor|done].
Qed.

(** What pass 1 establishes of its verdicts and its queue. *)
Definition hook_kind_of {T} (d : Decision T) (id : PendingId) : WireHookVerdict :=
  match d with Allowed _ => HookApproved id | Denied _ => HookDenied id | Ignored => HookIgnored id end.
Definition from_policy (policy : ExpandedHooksPolicy) (p : WirePendingHook) (v : WireHookVerdict) : Prop :=
  exists d, hooks_check fs_match policy ((wph_id p, wph_source p) : HookRef) = Decided d /\ v = hook_kind_of d (wph_id p).
Definition waits_at (policy : ExpandedHooksPolicy) (p : WirePendingHook) (e : UndecidedProject) : Prop :=
  exists h path, hooks_check fs_match policy ((wph_id p, wph_source p) : HookRef) = NeedsApproval h /\
                 wph_source p = Project path /\ components path = components e.1.1.
Definition pass1 (policy : ExpandedHooksPolicy) (pending : list WirePendingHook) (verdicts : list WireHookVerdict)
    (u : list UndecidedProject) : Prop :=
  map hook_verdict_id verdicts ++ waiting u ≡ₚ map wph_id pending /\
  NoDup (map (fun e => components e.1.1) u) /\
  (forall v, v ∈ verdicts -> exists p, p ∈ pending /\ from_policy policy p v) /\
  (forall e i, e ∈ u -> i ∈ e.2 -> exists p, p ∈ pending /\ wph_id p = i /\ waits_at policy p e).

Lemma hooks_check_ref policy (h : HookRef) :
  match hooks_check fs_match policy h with Decided (Allowed h') | Decided (Denied h') | NeedsApproval h' => h' = h | Decided Ignored => True end.
Proof. unfold hooks_check. by repeat case_match; simplify_eq. Qed.

Lemma classify_hooks_pass1 policy done_ verdicts u pending verdicts' u' :
  pass1 policy done_ verdicts u -> classify_hooks fs_match policy verdicts u pending = inl (verdicts', u') ->
  pass1 policy (done_ ++ pending) verdicts' u'.
Proof.
  revert done_ verdicts u. induction pending as [|p pending IH]; intros done_ verdicts u Hp H; cbn [classify_hooks] in H.
  { injection H as <- <-. by rewrite app_nil_r. }
  rewrite (cons_middle p done_ pending), app_assoc. pose proof (hooks_check_ref policy ((wph_id p, wph_source p) : HookRef)) as Href.
  destruct Hp as (Hids & Hnd & Hv & Hu).
  assert (Hv' : forall v, v ∈ verdicts -> exists q, q ∈ done_ ++ [p] /\ from_policy policy q v).
  { intros v Hin. destruct (Hv v Hin) as (q & ? & ?). exists q. split; [by apply elem_of_app; left|done]. }
  assert (Hu' : forall e i, e ∈ u -> i ∈ e.2 -> exists q, q ∈ done_ ++ [p] /\ wph_id q = i /\ waits_at policy q e).
  { intros e i He Hi. destruct (Hu e i He Hi) as (q & ? & ? & ?). exists q. split; [by apply elem_of_app; left|done]. }
  assert (Hdec : forall d, hooks_check fs_match policy ((wph_id p, wph_source p) : HookRef) = Decided d ->
            pass1 policy (done_ ++ [p]) (verdicts ++ [hook_kind_of d (wph_id p)]) u).
  { intros d Hd. split; [|split; [done|]]; [|split; [|exact Hu']].
    - rewrite !map_app. cbn [map]. replace (hook_verdict_id (hook_kind_of d (wph_id p))) with (wph_id p) by (by destruct d).
      rewrite <- app_assoc, <- Hids. cbn. by rewrite <- Permutation_middle, <- Permutation_cons_append.
    - intros v [Hin|Hin%list_elem_of_singleton]%elem_of_app; [by apply Hv'|]. exists p. split; [set_solver|]. by exists d. }
  destruct (hooks_check fs_match policy _) as [[h| |h]|h] eqn:E; [| | |].
  - subst h. exact (IH _ _ _ (Hdec _ eq_refl) H).
  - exact (IH _ _ _ (Hdec _ eq_refl) H).
  - subst h. exact (IH _ _ _ (Hdec _ eq_refl) H).
  - subst h. cbn [fst snd] in H. destruct (wph_source p) as [?|path|?] eqn:Es; [done| |done].
    refine (IH _ _ _ _ H). split; [|split; [by apply wait_for_roots|split; [exact Hv'|]]].
    + rewrite wait_for_ids, map_app, <- Hids. cbn. by rewrite <- Permutation_middle, <- Permutation_cons_append.
    + intros e i He Hi. destruct (wait_for_sound _ _ _ _ _ _ He Hi) as [[-> Hc]|(e' & He' & E1 & Hi')].
      * exists p. split; [set_solver|]. split; [done|]. exists (wph_id p, Project path), path. rewrite Es. auto.
      * destruct (Hu' e' i He' Hi') as (q & ? & ? & h & pa & ? & ? & ?). exists q. split; [done|]. split; [done|].
        exists h, pa. by rewrite <- E1.
Qed.

(** What a policy decides about a hook depends on its source alone. *)
Definition erase {T} (d : Decision T) : Decision unit :=
  match d with Allowed _ => Allowed () | Ignored => Ignored | Denied _ => Denied () end.
Definition source_decision (policy : ExpandedHooksPolicy) (src : Source) : option (Decision unit) :=
  match hooks_check fs_match policy ((0, src) : HookRef) with Decided d => Some (erase d) | NeedsApproval _ => None end.
Lemma source_decision_eq policy id src :
  match hooks_check fs_match policy ((id, src) : HookRef) with
  | Decided d => source_decision policy src = Some (erase d)
  | NeedsApproval _ => source_decision policy src = None
  end.
Proof. unfold source_decision, hooks_check. cbn. by repeat case_match; simplify_eq. Qed.
Lemma hook_kind_erase {T} (d : Decision T) id : hook_kind_of (erase d) id = hook_kind_of d id.
Proof. by destruct d. Qed.

(** The decision a project's answer stands for. *)
Definition answered (policy : ExpandedHooksPolicy) (src : Source) (d : ItemDecision) : Decision unit :=
  match d with AllowOnce => Allowed () | IgnoreOnce => Ignored | UseRule => default Ignored (source_decision policy src) end.
Lemma hook_answer_ok policy root src d id v :
  hook_answer fs_match policy root src d id = inl v -> v = hook_kind_of (answered policy src d) id.
Proof.
  destruct d; cbn; [by intros [= <-]..|]. pose proof (source_decision_eq policy id src) as H.
  pose proof (hooks_check_ref policy ((id, src) : HookRef)) as Hr.
  destruct (hooks_check fs_match policy _) as [[h| |h]|h]; rewrite H; try done; cbn; intros [= <-]; by subst.
Qed.
Lemma hook_kind_id {T} (d : Decision T) id : hook_verdict_id (hook_kind_of d id) = id.
Proof. by destruct d. Qed.

(** The verdicts on hooks are one for each pending hook, and hooks of one
    source get one decision. *)
Lemma gate_pending_hooks_ok pending policy hooks vars vs policy' :
  gate_pending_hooks glob_ok is_dir fs_match env pending policy hooks vars = inl (vs, policy') ->
  map hook_verdict_id vs ≡ₚ map wph_id pending /\
  exists decision : Source -> Decision unit,
    forall v, v ∈ vs -> exists p, p ∈ pending /\ v = hook_kind_of (decision (wph_source p)) (wph_id p).
Proof.
  unfold gate_pending_hooks. destruct (is_empty pending) eqn:Ee.
  { apply is_empty_nil in Ee as ->. intros [= <- <-]. split; [done|]. exists (fun _ => Ignored). set_solver. }
  destruct (hooks_expand_with _ _ policy _ _) as [ex|]; [|done].
  destruct (classify_hooks _ _ _ _ _) as [[verdicts u]|] eqn:Ec; [|done].
  assert (H0 : pass1 ex [] [] []) by (split; [done|]; split; [constructor|]; set_solver).
  apply (classify_hooks_pass1 _ _ _ _ _ _ _ H0) in Ec as (Hids & Hnd & Hv & Hu). cbn [app] in Hids, Hv, Hu.
  intros H. destruct u as [|u0 us] eqn:Eu.
  { injection H as <- <-. unfold waiting in Hids. cbn in Hids. rewrite app_nil_r in Hids. split; [done|].
    exists (fun src => default Ignored (source_decision ex src)). intros v Hin. destruct (Hv v Hin) as (p & Hp & d & Hd & ->).
    exists p. split; [done|]. pose proof (source_decision_eq ex (wph_id p) (wph_source p)) as He. rewrite Hd in He. rewrite He. cbn.
    by rewrite hook_kind_erase. }
  rewrite <- Eu in *. clear Eu u0 us. destruct (prompt_hook_hook _ _ _) as [[ds pol]|] eqn:Ep; [|done].
  destruct (hooks_expand_with _ _ pol _ _) as [ex'|]; [|done].
  destruct (collect _ (zip u ds)) as [answers|] eqn:Ea; [|done]. injection H as <- <-.
  assert (Hlen : List.length ds = List.length u).
  { unfold prompt_hook_hook in Ep. destruct (on_hook_unapproved _ _ _); [|done].
    destruct (negb _) eqn:El; [done|]. injection Ep as <- _. apply negb_false_iff, Nat.eqb_eq in El. by rewrite length_map in El. }
  assert (Hans : map (map hook_verdict_id) answers = map snd u).
  { rewrite <- (zip_fst_length u ds Hlen). rewrite map_map. eapply collect_map; [|exact Ea].
    intros [[[root src] ids] d] l Hl. cbn in Hl |- *.
    assert (Hl' : map hook_verdict_id l = map id ids); [|by rewrite Hl', map_id].
    eapply collect_map; [|exact Hl]. intros i v Hiv. rewrite (hook_answer_ok _ _ _ _ _ _ Hiv). apply hook_kind_id. }
  split.
  { rewrite map_app, concat_map, Hans. exact Hids. }
  (* the decision of a source: the policy's, or its project's answer *)
  set (entry path := List.find (fun e : UndecidedProject * ItemDecision => bool_decide (components e.1.1.1 = components path)) (zip u ds)).
  exists (fun src => match source_decision ex src with
                     | Some d => d
                     | None => match src with
                               | Project path => match entry path with Some (e, d) => answered ex' e.1.2 d | None => Ignored end
                               | _ => Ignored
                               end
                     end).
  intros v [Hin|Hin]%elem_of_app.
  { destruct (Hv v Hin) as (p & Hp & d & Hd & ->). exists p. split; [done|].
    pose proof (source_decision_eq ex (wph_id p) (wph_source p)) as He. rewrite Hd in He. rewrite He. by rewrite hook_kind_erase. }
  apply list_elem_of_In, in_concat in Hin as (l & Hl & Hvl). apply list_elem_of_In in Hl, Hvl.
  destruct (collect_elem _ _ _ _ Ea Hl) as ([[[root src] ids] d] & Hz & Hc). cbn in Hc.
  destruct (collect_elem _ _ _ _ Hc Hvl) as (i & Hi & Hiv). apply hook_answer_ok in Hiv as ->.
  assert (Heu := elem_of_zip_l _ _ _ _ Hz).
  destruct (Hu (root, src, ids) i Heu Hi) as (p & Hp & <- & h & path & Hchk & Hsrc & Hcomp). exists p. split; [done|].
  pose proof (source_decision_eq ex (wph_id p) (wph_source p)) as He. rewrite Hchk in He. rewrite He, Hsrc.
  cbn [fst] in Hcomp.
  assert (Hfind : entry path = Some ((root, src, ids), d)); [|by rewrite Hfind].
  unfold entry. clear -Hz Hcomp Hnd. revert ds Hz. induction u as [|e u IH]; intros ds Hz; [by apply elem_of_nil in Hz|].
  destruct ds as [|d0 ds]; [by apply elem_of_nil in Hz|]. cbn [zip_with List.find fst]. cbn in Hnd. apply NoDup_cons in Hnd as [He Hnd].
  cbn in Hz. apply elem_of_cons in Hz as [[= <- <-]|Hz].
  - cbn. by rewrite bool_decide_true.
  - rewrite bool_decide_false; [by apply IH|]. intros E. apply He. rewrite E, Hcomp.
    apply elem_of_zip_l in Hz. by apply (list_elem_of_fmap_2 (fun e : UndecidedProject => components e.1.1)) in Hz.
Qed.

(** *** Patches *)

Definition patch_id (v : WirePatchVerdict) : PendingId := (patch_verdict_key v).1.

Lemma classify_patch_ok policy p :
  match classify_patch_file fs_match policy p with PatchDecided v => patch_id v = p.1 | PatchPending p' => p' = p end.
Proof.
  destruct p as [id pf]. unfold classify_patch_file, patches_check, attach_decision. cbn [fst snd].
  by repeat case_match; simplify_eq.
Qed.

Lemma apply_patch_decision_ok policy p d v : apply_patch_decision fs_match policy p d = inl v -> patch_id v = p.1.
Proof.
  destruct d; cbn; [by intros [= <-]..|]. pose proof (classify_patch_ok policy p) as H.
  destruct (classify_patch_file _ _ _); [|done]. by intros [= <-].
Qed.

Lemma enumerate_pending_ok vars anchors follow p files syn :
  enumerate_pending glob_ok is_dir fs_match walk file_len canonicalize vars anchors follow p = Done (inl (files, syn)) ->
  Forall (fun f => f.1 = wpp_id p) files /\ Forall (fun v => patch_id v = wpp_id p) syn /\ (files <> [] \/ syn <> []).
Proof.
  unfold enumerate_pending. destruct (patchdest_try_new _); [|done]. destruct (expand_patch_sources _ _ _ _ _ _) as [ex|]; [|done].
  intros H. apply bind_Done_inv in H as ([[|f fs]|] & _ & H); [| |done].
  - destruct (match ex with [] => None | _ => _ end); [|done]. injection H as <- <-.
    split; [constructor|]. split; [by repeat constructor|by right].
  - injection H as <- <-. split; [|split; [constructor|by left]]. change (?a :: map ?g fs) with (map g (f :: fs)).
    apply list.Forall_forall. intros x Hx. apply list_elem_of_fmap in Hx as (y & -> & _). done.
Qed.

Lemma enumerate_classify_ids policy vars anchors follow pending verdicts u :
  enumerate_and_classify_patches glob_ok is_dir fs_match walk file_len canonicalize policy vars anchors follow pending
    = Done (inl (verdicts, u)) ->
  forall id, id ∈ map patch_id verdicts ++ map fst u <-> id ∈ map wpp_id pending.
Proof.
  revert verdicts u. induction pending as [|p pending IH]; intros verdicts u H; cbn [enumerate_and_classify_patches] in H.
  { injection H as <- <-. done. }
  apply bind_Done_inv in H as ([[files syn]|] & Hp & H); [|done].
  apply bind_Done_inv in H as ([[vs' u']|] & Hrest & H); [|done]. injection H as <- <-.
  apply enumerate_pending_ok in Hp as (Hf & Hs & Hne). specialize (IH _ _ Hrest).
  set (cs := map (classify_patch_file fs_match policy) files).
  assert (Hsplit : map patch_id (classified_verdicts cs) ++ map fst (pending_files_of cs) ≡ₚ map fst files).
  { unfold classified_verdicts, pending_files_of, cs. rewrite !omap_map. apply omap_split. intros x.
    pose proof (classify_patch_ok policy x) as H. cbn. destruct (classify_patch_file fs_match policy x) as [v|p'].
    - left. by exists v.
    - right. exists p'. by subst. }
  assert (Hown : forall id, id ∈ map fst files ++ map patch_id syn <-> id = wpp_id p).
  { intros id. split.
    - intros [Hin|Hin]%elem_of_app; apply list_elem_of_fmap in Hin as (x & -> & Hx).
      + by apply (proj1 (list.Forall_forall _ _) Hf).
      + by apply (proj1 (list.Forall_forall _ _) Hs).
    - intros ->. apply elem_of_app. destruct Hne as [Hne|Hne].
      + left. destruct files as [|x files]; [done|]. apply list.Forall_cons in Hf as [<- _]. by constructor.
      + right. destruct syn as [|x syn]; [done|]. apply list.Forall_cons in Hs as [<- _]. by constructor. }
  intros id. cbn [map]. rewrite elem_of_cons, <- IH, <- Hown. rewrite !map_app, !elem_of_app, <- Hsplit, !elem_of_app. tauto.
Qed.

(** Every pending patch gets a verdict, and every verdict is about one. *)
Lemma gate_pending_patches_ok pending policy hooks follow vars vs policy' :
  gate_pending_patches glob_ok is_dir fs_match walk file_len canonicalize env pending policy hooks follow vars = Done (inl (vs, policy')) ->
  forall id, id ∈ map patch_id vs <-> id ∈ map wpp_id pending.
Proof.
  unfold gate_pending_patches. destruct (is_empty pending) eqn:Ee.
  { apply is_empty_nil in Ee as ->. intros [= <- <-]. done. }
  destruct (patches_expand_with _ _ policy _ _) as [ex|]; [|done]. intros H.
  apply bind_Done_inv in H as ([[verdicts u]|] & Hc & H); [|done]. injection H as H.
  pose proof (enumerate_classify_ids _ _ _ _ _ _ _ Hc) as Hids. destruct u as [|u0 us] eqn:Eu.
  { injection H as <- <-. cbn in Hids. intros id. rewrite <- Hids, elem_of_app. set_solver. }
  rewrite <- Eu in *. destruct (prompt_patch_hook _ _ _) as [[[ds pol] upd]|] eqn:Ep; [|done].
  destruct (if upd then _ else _) as [ex'|]; [|done].
  destruct (collect _ _) as [answers|] eqn:Ea; [|done]. injection H as <- <-.
  assert (Hlen : List.length ds = List.length u).
  { unfold prompt_patch_hook in Ep. destruct (on_patch_unapproved _ _ _) as [ds' upd'|]; [|done].
    destruct (negb _) eqn:El; [done|]. apply negb_false_iff, Nat.eqb_eq in El. rewrite length_map in El.
    destruct upd'; injection Ep as <- _ _; done. }
  assert (Hans : map patch_id answers = map fst u).
  { rewrite <- (zip_fst_length u ds Hlen). rewrite map_map. eapply collect_map; [|exact Ea].
    intros [p d] v Hv. cbn in *. by apply apply_patch_decision_ok in Hv. }
  intros id. rewrite map_app, Hans. apply Hids.
Qed.

(** ** The exchange *)

(** C25: a verdict the client sends for what the daemon asked settles the
    composition: unless it denies an item, or names one file twice under one
    patch, the daemon accepts every entry, and the outcome is the assembly of
    exactly what was approved with the client's own contribution, which may
    itself end in a conflict or an invalid item ([extend_with],
    [extend_from_wire]); a denial ends it; an accepted var has the source the
    daemon stashed and the value the user's environment gives its spec; and
    hooks that share a source are decided alike. *)
Theorem verdict_settles client contribution session_id response state gated_vars policy hooks follow verdict policy' :
  compose client contribution session_id = Done (inl (Pending response state)) ->
  handle_response glob_match glob_ok is_dir fs_match walk file_len canonicalize env response gated_vars policy hooks follow
    = Done (inl (verdict, policy')) ->
  NoDup (map patch_key (cv_patches verdict)) ->
  (if existsb var_denied (cv_vars verdict) || existsb patch_denied (cv_patches verdict) || existsb hook_denied (cv_hooks verdict)
   then exists what from, resume_from_verdict state verdict = inr (ErrDenied what from)
   else resume_from_verdict state verdict =
     match extend_with (from_daemon_passthrough (ps_packages state) (omap (accepted_hook (ps_hooks state)) (cv_hooks verdict)))
             (omap (accepted_var (ps_vars state)) (cv_vars verdict)) (omap (accepted_patch (ps_patches state)) (cv_patches verdict)) with
     | inr e => inr e
     | inl c => extend_from_wire c client
     end) /\
  (forall sv, sv ∈ omap (accepted_var (ps_vars state)) (cv_vars verdict) ->
     exists id pv rv, ps_vars state !! id = Some pv /\ pv_source sv = pv_source pv /\
       resolve_with (var_name pv) (rv_spec (pv_var pv)) env = inl rv /\ pv_var sv = var_from_wire (var_to_wire rv)) /\
  exists decision : Source -> Decision unit, forall v, v ∈ cv_hooks verdict ->
    exists h, ps_hooks state !! hook_verdict_id v = Some h /\ v = hook_kind_of (decision (ph_source h)) (hook_verdict_id v).
Proof.
  intros Hc Hh Hkeys. unfold compose in Hc. destruct (_ && _) in Hc; [by repeat case_match|].
  apply bind_Done_inv in Hc as ([wv sv] & Hv & Hc). apply bind_Done_inv in Hc as ([wp sp] & Hp & Hc).
  apply bind_Done_inv in Hc as ([wh sh] & Hhk & Hc). injection Hc as <- <-.
  apply (pend_ids _ wpv_id) in Hv as (Hvn & Hvd & Hvw); [|done].
  apply (pend_ids _ wpp_id) in Hp as (Hpn & Hpd & _); [|done].
  apply (pend_ids _ wph_id) in Hhk as (Hhn & Hhd & Hhw); [|done].
  unfold handle_response in Hh. cbn [cr_vars cr_patches cr_hooks cr_session_id] in Hh.
  destruct (gate_pending_vars _ _ _ _ _) as [[out vpol]|] eqn:Egv; [|done].
  apply bind_Done_inv in Hh as ([[pvs ppol]|] & Egp & Hh); [|done].
  destruct (gate_pending_hooks _ _ _ _ _ _ _ _) as [[hvs hpol]|] eqn:Egh; [|done]. injection Hh as <- <-.
  apply gate_pending_vars_ok in Egv as [Hvids Hvout]. pose proof (gate_pending_patches_ok _ _ _ _ _ _ _ Egp) as Hpids.
  apply gate_pending_hooks_ok in Egh as [Hhids [decision Hdec]]. cbn [cv_vars cv_patches cv_hooks] in *.
  assert (Hv := apply_var_verdicts_ok sv (map vo_verdict out)). rewrite map_map in Hv.
  specialize (Hv ltac:(by rewrite Hvids) ltac:(intros id; by rewrite Hvids, Hvd)).
  assert (Hp := apply_patch_verdicts_ok sp pvs Hkeys ltac:(intros id; rewrite <- Hpd; apply Hpids)).
  assert (Hhin : forall v, v ∈ hvs -> is_Some (sh !! hook_verdict_id v)).
  { intros v Hin. apply Hhd. rewrite <- Hhids. by apply list_elem_of_fmap_2. }
  assert (Hk := apply_hook_verdicts_ok sh hvs ltac:(by rewrite Hhids) Hhin).
  split; [|split].
  - unfold resume_from_verdict. cbn [ps_hooks ps_vars ps_patches ps_packages ps_client cv_vars cv_patches cv_hooks].
    destruct (existsb hook_denied hvs); [destruct Hk as (w & f & ->); rewrite !orb_true_r; by eexists _, _|]. rewrite Hk.
    destruct (existsb var_denied _); cbn [orb]; [destruct Hv as (w & f & ->); by eexists _, _|]. rewrite Hv.
    destruct (existsb patch_denied pvs); cbn [orb]; [destruct Hp as (w & f & ->); by eexists _, _|]. by rewrite Hp.
  - cbn [ps_vars]. intros sv' Hsv. apply list_elem_of_omap in Hsv as (v & Hvin & Hacc).
    apply list_elem_of_fmap in Hvin as (o & -> & Ho). destruct (Hvout o Ho) as (w & p & Hw & Hpw & Hoo).
    destruct (Hvw w Hw) as (pv & Hpv & Hwire). unfold pending_from_wire in Hpw.
    destruct (resolve_with _ _ _) as [rv|[]] eqn:Er; [|done]. injection Hpw as <-.
    destruct Hoo as [->|[_ (n & [E|E])]]; [|by rewrite E in Hacc..]. cbn in Hacc. rewrite Hpv in Hacc. injection Hacc as <-.
    exists (wpv_id w), pv, rv. split; [done|]. split; [done|]. split; [|done].
    rewrite Hwire in Er. exact Er.
  - exists decision. intros v Hin. destruct (Hdec v Hin) as (p & Hpin & Hvk).
    destruct (Hhw p Hpin) as (h & Hsh & Hw). assert (Hid : hook_verdict_id v = wph_id p) by (rewrite Hvk; apply hook_kind_id).
    exists h. cbn [ps_hooks]. rewrite Hid. split; [done|]. rewrite Hvk at 1.
    replace (wph_source p) with (ph_source h) by (by rewrite Hw). done.
Qed.
End ClientProps.

(** ** Examples *)

Module VerdictSample.
Definition no_client : WireContribution := {| wc_vars := []; wc_patches := []; wc_hooks := []; wc_packages := []; wc_orientation := "" |}.
Definition term : ProvenancedVar :=
  {| pv_var := {| rv_name := "TERM"; rv_value := ""; rv_user_data := true; rv_spec := Inherit |}; pv_source := Project "/p" |}.
Definition hook : ProvenancedHook :=
  {| ph_hook := {| lh_description := None; lh_on_activate := Some (hook_inline "true"); lh_on_destroy := None;
                   lh_on_attach := None; lh_on_detach := None |}; ph_source := Project "/p" |}.
Definition config : ProvenancedPatch :=
  {| pn_patch := {| pt_source := "~/c"; pt_dest := ".c" |}; pn_source := Project "/p"; pn_follow := None |}.
Definition contribution (patches : list ProvenancedPatch) : Contribution :=
  {| ct_vars := [term]; ct_patches := patches; ct_packages := []; ct_hooks := [hook; hook] |}.
Definition env (name : string) : string + EnvError := if bool_decide (name = "HOME"%string) then inl "/h"%string else inl "xterm"%string.
Definition hooks : PolicyHooks :=
  {| on_var_unapproved := fun _ items => HookDecided (map (fun _ => AllowOnce) items) None;
     on_patch_unapproved := fun _ items => HookDecided (map (fun _ => AllowOnce) items) None;
     on_hook_unapproved := fun _ items => HookDecided (map (fun _ => AllowOnce) items) None |}.
Definition policy : UserPolicy :=
  {| up_vars := {| vp_allow := []; vp_deny := []; vp_ignore := [] |};
     up_patches := {| pp_allow := []; pp_deny := []; pp_ignore := [] |};
     up_hooks := {| hp_allow := []; hp_deny := []; hp_ignore := [] |} |}.
Definition answer_all (follow : bool) (response : ContributionResponse) : outcome (ContributionVerdict * UserPolicy + ComposeError) :=
  handle_response (fun _ _ => false) (fun _ => true) (fun p => bool_decide (p = "/h/c"%string)) (fun _ _ => true)
    sample_walk (fun _ => inl 7%Z) (fun _ => inl "/h/c/a"%string) env response [] policy hooks follow.
Definition daemon (patches : list ProvenancedPatch) : outcome (ComposeOutcome + ComposeError) := compose no_client (contribution patches) "s".

(** [verdict_settles] for a project with a var, a directory and two hooks. *)
Lemma verdict_settles_witness :
  exists response state verdict policy', daemon [config] = Done (inl (Pending response state)) /\
    answer_all false response = Done (inl (verdict, policy')) /\
    exists decision : Source -> Decision unit, forall v, v ∈ cv_hooks verdict ->
      exists h, ps_hooks state !! hook_verdict_id v = Some h /\ v = hook_kind_of (decision (ph_source h)) (hook_verdict_id v).
Proof.
  eexists _, _, _, _. split; [vm_compute; reflexivity|]. split; [vm_compute; reflexivity|].
  eapply (verdict_settles (fun _ _ => false) (fun _ => true) (fun p => bool_decide (p = "/h/c"%string)) (fun _ _ => true)
    sample_walk (fun _ => inl 7%Z) (fun _ => inl "/h/c/a"%string) env no_client (contribution [config]) "s" _ _ [] policy hooks false).
  - vm_compute. reflexivity.
  - vm_compute. reflexivity.
  - apply (bool_decide_unpack _). vm_compute. exact I.
Defined.

(** [resume_fails_closed] for that project's exchange. *)
Lemma resume_fails_closed_witness :
  exists state verdict c, resume_from_verdict state verdict = inl c /\ consistent c.
Proof.
  set (state := {| ps_packages := []; ps_vars := {[0 := term]}; ps_patches := ∅; ps_hooks := {[0 := hook; 1 := hook]}; ps_client := no_client |}).
  set (verdict := {| cv_session_id := "s"; cv_vars := [VarApproved 0 {| wv_name := "TERM"; wv_value := "xterm"; wv_user_data := true |}];
                     cv_patches := []; cv_hooks := [HookApproved 1] |}).
  assert (H : exists c, resume_from_verdict state verdict = inl c) by (eexists; vm_compute; reflexivity).
  destruct H as [c Hc]. exists state, verdict, c. split; [exact Hc|]. exact (proj1 (resume_fails_closed state verdict c Hc)).
Defined.

(** Two links to one file under one patch: the client's verdict names the file
    twice, and the daemon refuses the exchange. *)
Example duplicate_target_refused :
  exists response state verdict policy', daemon [config] = Done (inl (Pending response state)) /\
    answer_all true response = Done (inl (verdict, policy')) /\
    resume_from_verdict state verdict =
      inr (ErrInvalidWireItem "verdict contains duplicate patch entry" "pending id PendingId(0), host_path `/h/c/a`").
Proof. eexists _, _, _, _. split; [vm_compute; reflexivity|]. split; vm_compute; reflexivity. Qed.
End VerdictSample.
