(* ===== verification/L4.v ===== *)
(** * The host table's own frame parse (crates/minvmd/src/net/dns_pins.rs)

    The parse the DNS admission table does beside the shared frame summary:
    ports, TCP flags and the UDP payload.  Indexing is checked, so an
    out-of-bounds read would be [Panicked]; [slice::get] answers [None]. *)

From stdpp Require Import base list strings numbers.
From Stdlib Require Import ZArith Lia.
From S2P Require Import Prelude Text Egress EgressProps ReplyFlows.
Open Scope Z_scope.

Record SocketAddrV4 : Type := { sa_ip : ip4; sa_port : Z }.

Record L4Packet : Type := {
  l4_src : SocketAddrV4;
  l4_dst : SocketAddrV4;
  l4_proto : Z;
  l4_tcp_flags : Z;
  l4_tcp_seq : Z;
  l4_tcp_ack : Z;
  l4_tcp_payload_len : Z;
}.

(** The closure [tcp_word]: [l4.get(at..at + 4)] as a big-endian word, or 0. *)
Definition tcp_word (l4 : list Z) (at_ : nat) : Z :=
  match index4 l4 at_ with Done w => ip4_u32 w | _ => 0 end.

(** [parse_ipv4_l4]. *)
Definition parse_ipv4_l4 (frame : list Z) : outcome (option L4Packet) :=
  if (length frame <? ETH_HDR + 20)%nat then Done None
  else
    e0 ← index frame 12; e1 ← index frame 13;
    if negb (be16 e0 e1 =? ETHERTYPE_IPV4) then Done None
    else
      let ip := drop ETH_HDR frame in
      b0 ← index ip 0;
      let ihl := (Z.to_nat (Z.land b0 15) * 4)%nat in
      if (ihl <? 20)%nat || (length ip <? ihl)%nat then Done None
      else
        proto ← index ip 9;
        if negb (proto =? IPPROTO_TCP) && negb (proto =? IPPROTO_UDP) then Done None
        else
          b6 ← index ip 6; b7 ← index ip 7;
          if negb (Z.land (be16 b6 b7) 8191 =? 0) then Done None
          else
            let l4 := drop ihl ip in
            let need := if proto =? IPPROTO_TCP then 14%nat else 8%nat in
            if (length l4 <? need)%nat then Done None
            else
              tcp ←
                (if proto =? IPPROTO_TCP then
                   b2 ← index ip 2; b3 ← index ip 3; l12 ← index l4 12;
                   let total := Z.to_nat (be16 b2 b3) in
                   let data_offset := (Z.to_nat (Z.shiftr l12 4) * 4)%nat in
                   let carried := Nat.min (length l4) (total - ihl) in
                   Done (tcp_word l4 4, tcp_word l4 8, Z.min 65535 (Z.of_nat (carried - data_offset)))
                 else Done (0, 0, 0));
              let '(tcp_seq, tcp_ack, tcp_payload_len) := tcp : Z * Z * Z in
              src ← index4 ip 12; s0 ← index l4 0; s1 ← index l4 1;
              dst ← index4 ip 16; d0 ← index l4 2; d1 ← index l4 3;
              tcp_flags ← (if proto =? IPPROTO_TCP then index l4 13 else Done 0);
              Done (Some {| l4_src := {| sa_ip := src; sa_port := be16 s0 s1 |};
                            l4_dst := {| sa_ip := dst; sa_port := be16 d0 d1 |};
                            l4_proto := proto; l4_tcp_flags := tcp_flags;
                            l4_tcp_seq := tcp_seq; l4_tcp_ack := tcp_ack;
                            l4_tcp_payload_len := tcp_payload_len |}).

(** [is_ipv4_udp]. *)
Definition is_ipv4_udp (frame : list Z) : bool :=
  match frame !! 12%nat, frame !! 13%nat with
  | Some h, Some l => be16 h l =? ETHERTYPE_IPV4
  | _, _ => false
  end
  && match frame !! (ETH_HDR + 9)%nat with Some proto => proto =? IPPROTO_UDP | None => false end.

(** [slice.get(from..to)]. *)
Definition get_range {A} (l : list A) (from to : nat) : option (list A) :=
  if (from <=? to)%nat && (to <=? length l)%nat then Some (take (to - from) (drop from l)) else None.

(** [usize] subtraction with its overflow check. *)
Definition usize_sub (a b : nat) : outcome nat := if (b <=? a)%nat then Done (a - b)%nat else Panicked.

(** [udp_payload]. *)
Definition udp_payload (frame : list Z) (pkt : L4Packet) : outcome (option (list Z)) :=
  if negb (l4_proto pkt =? IPPROTO_UDP) then Done None
  else
    match get_range frame ETH_HDR (length frame) with
    | None => Done None
    | Some ip =>
    match ip !! 0%nat, ip !! 2%nat, ip !! 3%nat with
    | Some b0, Some b2, Some b3 =>
      let ihl := (Z.to_nat (Z.land b0 15) * 4)%nat in
      let total := Z.to_nat (be16 b2 b3) in
      if (total <? ihl + 8)%nat then Done None
      else match get_range ip ihl (length ip) with
      | None => Done None
      | Some udp =>
        match udp !! 4%nat, udp !! 5%nat with
        | Some u4, Some u5 =>
          let udp_len := Z.to_nat (be16 u4 u5) in
          if (udp_len <? 8)%nat then Done None
          else
            let end_ := Nat.min total (length ip) in
            let payload_end := Nat.min (ihl + udp_len) end_ in
            n ← usize_sub payload_end ihl;
            Done (get_range udp 8 n)
        | _, _ => Done None
        end
      end
    | _, _, _ => Done None
    end
    end.

(** [udp_datagram]. *)
Definition udp_datagram (frame : list Z) : outcome (option (L4Packet * list Z)) :=
  r ← parse_ipv4_l4 frame;
  match r with
  | Some pkt =>
      if l4_proto pkt =? IPPROTO_UDP then
        payload ← udp_payload frame pkt;
        Done (option_map (fun p => (pkt, p)) payload)
      else Done None
  | None => Done None
  end.

(** ** Lemmas *)

(** The read at the head of the goal succeeds. *)
Ltac next_byte :=
  match goal with
  | |- context [index ?l ?i ≫= _] =>
      let x := fresh "b" in let H := fresh "Hb" in
      destruct (index_lt l i) as (x & H & ->); [unfold ETH_HDR in *; lia|]; rewrite bind_Done
  | |- context [index4 ?l ?i ≫= _] =>
      let x := fresh "a" in let H := fresh "Ha" in
      destruct (index4_lt l i) as (x & H); [unfold ETH_HDR in *; lia|]; rewrite H, bind_Done
  end.

Lemma parse_total frame : exists r, parse_ipv4_l4 frame = Done r.
Proof.
  unfold parse_ipv4_l4. destruct (_ <? _)%nat eqn:E; [eauto|]. nat_tests. unfold ETH_HDR in E.
  assert (Hip : (20 <= length (drop ETH_HDR frame))%nat) by (rewrite length_drop; unfold ETH_HDR; lia).
  do 2 next_byte. destruct (negb (be16 _ _ =? _)); [eauto|]. next_byte.
  destruct ((_ <? 20)%nat || _) eqn:E1; [eauto|]. apply orb_false_iff in E1 as [E1 E2]. nat_tests.
  next_byte. destruct (negb _ && negb _); [eauto|]. do 2 next_byte. destruct (negb _); [eauto|].
  destruct (_ =? IPPROTO_TCP); (destruct (_ <? _)%nat eqn:E3; [eauto|]); nat_tests;
    repeat first [next_byte | rewrite bind_Done]; eauto.
Qed.

Lemma get_range_Some {A} (l : list A) from to r :
  get_range l from to = Some r -> (from <= to <= length l)%nat /\ r = take (to - from) (drop from l).
Proof. unfold get_range. destruct (_ && _) eqn:E; [|done]. intros [= <-]. bool_to_prop. nat_tests. split; [lia|done]. Qed.

Lemma get_range_infix {A} (l : list A) from to r :
  get_range l from to = Some r -> exists a b, l = a ++ r ++ b.
Proof.
  intros [_ ->]%get_range_Some. exists (take from l), (drop (to - from) (drop from l)).
  by rewrite take_drop, take_drop.
Qed.

Lemma infix_trans {A} (l m n : list A) :
  (exists a b, l = a ++ m ++ b) -> (exists a b, m = a ++ n ++ b) -> exists a b, l = a ++ n ++ b.
Proof. intros (a & b & ->) (c & d & ->). exists (a ++ c), (d ++ b). by rewrite <- !(assoc_L (++)). Qed.

Lemma udp_payload_total frame pkt : exists r, udp_payload frame pkt = Done r /\
  forall p, r = Some p -> exists a b, frame = a ++ p ++ b.
Proof.
  unfold udp_payload. destruct (negb _); [by exists None|].
  destruct (get_range frame _ _) as [ip|] eqn:Hip; [|by exists None].
  destruct (ip !! 0%nat), (ip !! 2%nat), (ip !! 3%nat); try by exists None. cbv zeta.
  destruct (_ <? _)%nat eqn:Ht; [by exists None|].
  destruct (get_range ip _ _) as [udp|] eqn:Hudp; [|by exists None].
  destruct (udp !! 4%nat), (udp !! 5%nat); try by exists None.
  destruct (_ <? 8)%nat eqn:Hl; [by exists None|]. nat_tests.
  pose proof (get_range_Some _ _ _ _ Hudp) as [Hu _].
  unfold usize_sub. destruct (_ <=? _)%nat eqn:Hs; nat_tests; [|lia].
  eexists. split; [reflexivity|]. intros p Hp.
  eapply infix_trans; [by eapply get_range_infix|]. eapply infix_trans; by eapply get_range_infix.
Qed.

(** What a parsed packet says of the frame's shared summary. *)
Definition agrees (pkt : L4Packet) (s : FrameSummary) : Prop :=
  fs_family s = Ipv4 /\ fs_src s = Some (sa_ip (l4_src pkt)) /\ fs_dst s = Some (sa_ip (l4_dst pkt)) /\
  fs_proto s = Some (l4_proto pkt) /\ fs_dst_port s = sa_port (l4_dst pkt) /\
  (l4_proto pkt = IPPROTO_TCP \/ l4_proto pkt = IPPROTO_UDP).

Lemma index_drop (l : list Z) n i : index (drop n l) i = index l (n + i).
Proof. unfold index. by rewrite lookup_drop. Qed.

Lemma parse_agrees frame pkt :
  parse_ipv4_l4 frame = Done (Some pkt) ->
  is_ipv4_udp frame = (l4_proto pkt =? IPPROTO_UDP) /\ exists s, summarize frame = Done s /\ agrees pkt s.
Proof.
  unfold parse_ipv4_l4. destruct (_ <? _)%nat eqn:E; [done|]. intros H. nat_tests. unfold ETH_HDR in E.
  inv_bind H. inv_bind H. destruct (be16 x x0 =? ETHERTYPE_IPV4) eqn:Et; [|done]. cbn [negb] in H.
  inv_bind H. destruct (_ || _) eqn:E1; [done|]. apply orb_false_iff in E1 as [E1 E2]. nat_tests.
  inv_bind H. destruct (negb _ && negb _) eqn:Ep; [done|]. inv_bind H. inv_bind H.
  destruct (Z.land (be16 x3 x4) 8191 =? 0) eqn:Ef; [|done]. cbn [negb] in H.
  destruct (_ <? _)%nat eqn:E3; [done|]. nat_tests. inv_bind H. destruct x5 as [[sq ak] pl].
  do 7 inv_bind H. injection H as <-. cbn [l4_proto l4_src l4_dst sa_ip sa_port].
  assert (Hlen : (Z.to_nat (Z.land x1 15) * 4 + 4 <= length (drop ETH_HDR frame))%nat).
  { rewrite length_drop in E3. destruct (x2 =? IPPROTO_TCP); lia. }
  split.
  - unfold is_ipv4_udp. apply index_Done in Hx, Hx0. rewrite Hx, Hx0, Et.
    apply drop_index in Hx2. by rewrite Hx2.
  - unfold summarize. destruct (_ <? ETH_HDR)%nat eqn:E4; nat_tests; [unfold ETH_HDR in E4; lia|].
    rewrite Hx, bind_Done, Hx0, bind_Done. apply Z.eqb_eq in Et. rewrite Et. cbn [Z.eqb].
    change (ETHERTYPE_IPV4 =? ETHERTYPE_ARP) with false. change (ETHERTYPE_IPV4 =? ETHERTYPE_IPV6) with false.
    change (ETHERTYPE_IPV4 =? ETHERTYPE_IPV4) with true. cbv iota zeta.
    destruct (_ <? 20)%nat eqn:E5; nat_tests; [rewrite length_drop in E5; unfold ETH_HDR in *; lia|].
    rewrite Hx1, bind_Done, Hx3, bind_Done, Hx4, bind_Done, Ef.
    rewrite (proj2 (Nat.leb_le _ _) E1), (proj2 (Nat.leb_le _ _) Hlen). cbn [andb].
    rewrite index_drop in Hx10, Hx11. rewrite Hx10, bind_Done, Hx11, bind_Done, bind_Done.
    rewrite Hx6, bind_Done, Hx9, bind_Done, Hx2, bind_Done.
    destruct (index_lt (drop ETH_HDR frame) 1) as (tos & _ & ->); [lia|]. rewrite bind_Done.
    eexists. split; [reflexivity|]. repeat split. cbn [l4_proto].
    apply andb_false_iff in Ep as [Ep|Ep]; apply negb_false_iff, Z.eqb_eq in Ep; auto.
Qed.

(** ** Claims *)

(** The host table's parse never reads out of bounds.  For every byte
    string, [parse_ipv4_l4] and [udp_datagram] return; [udp_payload] returns
    for every frame and packet, even a packet parsed from another frame; a
    payload it returns is a contiguous run of the frame's own bytes; and the
    cheap pre-check [is_ipv4_udp] never hides a frame that carries a
    datagram. *)
Theorem l4_reads_in_bounds (frame : list Z) :
  (exists r, parse_ipv4_l4 frame = Done r) /\
  (forall pkt, exists r, udp_payload frame pkt = Done r) /\
  (exists r, udp_datagram frame = Done r /\
     forall pkt payload, r = Some (pkt, payload) ->
       is_ipv4_udp frame = true /\ exists a b, frame = a ++ payload ++ b).
Proof.
  split; [apply parse_total|]. split.
  { intros pkt. destruct (udp_payload_total frame pkt) as (r & Hr & _). by exists r. }
  unfold udp_datagram. destruct (parse_total frame) as (r & Hr). rewrite Hr, bind_Done.
  destruct r as [pkt|]; [|by exists None]. destruct (_ =? _) eqn:Hu; [|by exists None].
  destruct (udp_payload_total frame pkt) as (p & Hp & Hin). rewrite Hp, bind_Done.
  eexists. split; [reflexivity|]. intros pkt' payload Heq.
  destruct p as [p|]; [|done]. injection Heq as <- <-. split; [|by apply Hin].
  by rewrite (proj1 (parse_agrees _ _ Hr)).
Qed.

(** The host table and the shared verdict read the same frame.  Whenever
    [parse_ipv4_l4] yields a packet, [summarize] reads the same source,
    destination, protocol and destination port from the same bytes, so a pin
    is looked up for exactly the destination the verdict decided on. *)
Theorem l4_parse_agrees_with_summary (frame : list Z) (pkt : L4Packet)
    (Hparse : parse_ipv4_l4 frame = Done (Some pkt)) :
  exists s, summarize frame = Done s /\ agrees pkt s.
Proof. exact (proj2 (parse_agrees frame pkt Hparse)). Qed.

(** A UDP query to 100.64.0.1:53 with a two-byte payload. *)
Definition demo_frame : list Z :=
  [0;0;0;0;0;0; 0;0;0;0;0;0; 8;0;
   69;0;0;30; 0;0;0;0; 64;17;0;0; 100;64;0;9; 100;64;0;1;
   156;64;0;53; 0;10;0;0; 171;205].

Example demo_datagram :
  match udp_datagram demo_frame with
  | Done (Some (pkt, payload)) => sa_port (l4_dst pkt) = 53 /\ payload = [171; 205]
  | _ => False
  end.
Proof. vm_compute. split; reflexivity. Qed.

Lemma l4_parse_agrees_with_summary_witness :
  exists s, summarize demo_frame = Done s /\ fs_dst_port s = 53.
Proof.
  destruct (l4_parse_agrees_with_summary demo_frame
    {| l4_src := {| sa_ip := Ip4 100 64 0 9; sa_port := 40000 |};
       l4_dst := {| sa_ip := Ip4 100 64 0 1; sa_port := 53 |};
       l4_proto := 17; l4_tcp_flags := 0; l4_tcp_seq := 0; l4_tcp_ack := 0; l4_tcp_payload_len := 0 |})
    as (s & Hs & Ha).
  - vm_compute. reflexivity.
  - exists s. split; [exact Hs|]. apply Ha.
Defined.
