(* ===== verification/Refusal.v ===== *)
(** * The answer to a refused connection (crates/switch/src/refusal.rs)

    The one frame parser of the refusing legs, the internet checksums, and the
    TCP reset a refusal is answered with.  Indexing is checked, so an
    out-of-bounds read would be [Panicked]; the carry loop of a checksum has
    fuel, so a loop that does not end would be [OutOfFuel].  The
    second part holds the theorems. *)

From stdpp Require Import base list strings numbers.
From Stdlib Require Import ZArith Lia.
From S2P Require Import Prelude Text Egress EgressProps ReplyFlows Switch L4.
Open Scope Z_scope.

(** ** Segments *)

Record Segment : Type := {
  sg_src : SocketAddrV4;
  sg_dst : SocketAddrV4;
  sg_proto : Z;
  sg_tcp_flags : Z;
  sg_seq : Z;
  sg_ack : Z;
  sg_payload_len : Z;
}.

Definition is_tcp (s : Segment) : bool := sg_proto s =? IPPROTO_TCP.
Definition is_udp (s : Segment) : bool := sg_proto s =? IPPROTO_UDP.
Definition carries_reset (s : Segment) : bool := is_tcp s && negb (Z.land (sg_tcp_flags s) TCP_RST =? 0).
Definition carries_ack (s : Segment) : bool := is_tcp s && negb (Z.land (sg_tcp_flags s) TCP_ACK =? 0).
Definition is_bare_syn (s : Segment) : bool :=
  is_tcp s && negb (Z.land (sg_tcp_flags s) TCP_SYN =? 0) && (Z.land (sg_tcp_flags s) TCP_ACK =? 0).
Definition is_first_packet (s : Segment) : bool := is_bare_syn s || is_udp s.

(** [u32::from_be_bytes] of four consecutive bytes. *)
Definition index_be32 (l : list Z) (i : nat) : outcome Z := a ← index4 l i; Done (ip4_u32 a).

(** [classify]. *)
Definition classify (frame : list Z) : outcome (option Segment) :=
  if (length frame <? ETH_HDR + 20)%nat then Done None
  else
    e0 ← index frame 12; e1 ← index frame 13;
    if negb (be16 e0 e1 =? ETHERTYPE_IPV4) then Done None
    else
      let ip := drop ETH_HDR frame in
      b0 ← index ip 0;
      let ihl := (Z.to_nat (Z.land b0 15) * 4)%nat in
      if (ihl <? 20)%nat || (length ip <? ihl)%nat then Done None
      else
        proto ← index ip 9;
        if negb (proto =? IPPROTO_TCP) && negb (proto =? IPPROTO_UDP) then Done None
        else
          b6 ← index ip 6; b7 ← index ip 7;
          if negb (Z.land (be16 b6 b7) 8191 =? 0) then Done None
          else
            let l4 := drop ihl ip in
            let need := if proto =? IPPROTO_TCP then 14%nat else 8%nat in
            if (length l4 <? need)%nat then Done None
            else
              numbers ←
                (if proto =? IPPROTO_TCP then seq ← index_be32 l4 4; ack ← index_be32 l4 8; Done (seq, ack)
                 else Done (0, 0));
              payload_len ←
                (if proto =? IPPROTO_TCP then
                   l12 ← index l4 12; b2 ← index ip 2; b3 ← index ip 3;
                   let data_offset := (Z.to_nat (Z.shiftr l12 4) * 4)%nat in
                   let claimed := (Z.to_nat (be16 b2 b3) - ihl - data_offset)%nat in
                   let present := (length ip - ihl - data_offset)%nat in
                   Done (Nat.min claimed present)
                 else Done 0%nat);
              src ← index4 ip 12; s0 ← index l4 0; s1 ← index l4 1;
              dst ← index4 ip 16; d0 ← index l4 2; d1 ← index l4 3;
              tcp_flags ← (if proto =? IPPROTO_TCP then index l4 13 else Done 0);
              Done (Some {| sg_src := {| sa_ip := src; sa_port := be16 s0 s1 |};
                            sg_dst := {| sa_ip := dst; sa_port := be16 d0 d1 |};
                            sg_proto := proto; sg_tcp_flags := tcp_flags;
                            sg_seq := (numbers : Z * Z).1; sg_ack := numbers.2;
                            sg_payload_len := Z.min 65535 (Z.of_nat payload_len) |}).

(** ** Checksums *)

(** [u16::to_be_bytes], [u32::to_be_bytes]. *)
Definition be16_bytes (n : Z) : list Z := [Z.land (Z.shiftr n 8) 255; Z.land n 255].
Definition be32_bytes (n : Z) : list Z :=
  [Z.land (Z.shiftr n 24) 255; Z.land (Z.shiftr n 16) 255; Z.land (Z.shiftr n 8) 255; Z.land n 255].

(** [slice::as_chunks::<2>]: the pairs, and the bytes left over. *)
Fixpoint as_chunks2 (l : list Z) : list (Z * Z) * list Z :=
  match l with
  | a :: b :: l => let '(words, tail) := as_chunks2 l in ((a, b) :: words, tail)
  | tail => ([], tail)
  end.

(** [ones_sum], in [u32] arithmetic. *)
Definition ones_sum (bs : list Z) : Z :=
  let '(words, tail) := as_chunks2 bs in
  let sum := fold_left (fun sum w => u32_add sum (be16 w.1 w.2)) words 0 in
  match tail with
  | t :: _ => u32_add sum (Z.shiftl t 8)
  | [] => sum
  end.

(** The loop of [ones_complement], which adds the carries back in. *)
Fixpoint fold_carries (fuel : nat) (sum : Z) : outcome Z :=
  match fuel with
  | O => OutOfFuel
  | S fuel =>
      if negb (Z.shiftr sum 16 =? 0) then fold_carries fuel (u32_add (Z.land sum 65535) (Z.shiftr sum 16))
      else Done sum
  end.

(** [ones_complement]: three rounds settle every [u32]. *)
Definition ones_complement (sum : Z) : outcome Z :=
  sum ← fold_carries 3 sum;
  Done (Z.lxor (Z.land sum 65535) 65535).

Definition ipv4_checksum (header : list Z) : outcome Z := ones_complement (ones_sum header).

Definition tcp_checksum (segment : list Z) (src dst : ip4) : outcome Z :=
  let sum := ones_sum (octets src) in
  let sum := u32_add sum (ones_sum (octets dst)) in
  let sum := u32_add sum IPPROTO_TCP in
  let sum := u32_add sum (Z.min 65535 (Z.of_nat (length segment))) in
  let sum := u32_add sum (ones_sum segment) in
  ones_complement sum.

(** ** The reset *)

Definition seq_acknowledging (seq payload_len flags : Z) : Z :=
  u32_add (u32_add (u32_add seq payload_len) (Z.b2z (negb (Z.land flags TCP_SYN =? 0))))
    (Z.b2z (negb (Z.land flags TCP_FIN =? 0))).

(** [l[at..at + bs.len()].copy_from_slice(bs)]. *)
Definition splice (l : list Z) (at_ : nat) (bs : list Z) : list Z :=
  take at_ l ++ bs ++ drop (at_ + length bs) l.

(** The IPv4 header of a reset, its checksum field still zero. *)
Definition reset_ip_header (src dst : ip4) : list Z :=
  let header := replicate 20 0 in
  let header := <[0%nat := 69]> header in
  let header := splice header 2 (be16_bytes 40) in
  let header := <[8%nat := 64]> header in
  let header := <[9%nat := IPPROTO_TCP]> header in
  let header := splice header 12 (octets src) in
  splice header 16 (octets dst).

(** The TCP header of a reset, its checksum field still zero. *)
Definition reset_tcp_header (src dst : SocketAddrV4) (seq ack : Z) (acknowledges : bool) : list Z :=
  let tcp := replicate 20 0 in
  let tcp := splice tcp 0 (be16_bytes (sa_port src)) in
  let tcp := splice tcp 2 (be16_bytes (sa_port dst)) in
  let tcp := splice tcp 4 (be32_bytes seq) in
  let tcp := splice tcp 8 (be32_bytes ack) in
  let tcp := <[12%nat := 80]> tcp in
  <[13%nat := if acknowledges then Z.lor TCP_RST TCP_ACK else TCP_RST]> tcp.

(** [tcp_reset_frame]. *)
Definition tcp_reset_frame (eth_dst eth_src : list Z) (src dst : SocketAddrV4) (seq ack : Z) (acknowledges : bool)
    : outcome (list Z) :=
  let header := reset_ip_header (sa_ip src) (sa_ip dst) in
  checksum ← ipv4_checksum header;
  let header := splice header 10 (be16_bytes checksum) in
  let tcp := reset_tcp_header src dst seq ack acknowledges in
  checksum ← tcp_checksum tcp (sa_ip src) (sa_ip dst);
  let tcp := splice tcp 16 (be16_bytes checksum) in
  Done (eth_dst ++ eth_src ++ be16_bytes ETHERTYPE_IPV4 ++ header ++ tcp).

(** [slice::split_first_chunk::<6>]. *)
Definition split_first_chunk6 (l : list Z) : option (list Z * list Z) :=
  if (6 <=? length l)%nat then Some (take 6 l, drop 6 l) else None.

(** [refused_tcp_reset_from]. *)
Definition refused_tcp_reset_from (leg_mac frame : list Z) (segment : Segment) : outcome (option (list Z)) :=
  if carries_reset segment then Done None
  else
    match split_first_chunk6 frame with
    | None => Done None
    | Some (_, rest) =>
        match split_first_chunk6 rest with
        | None => Done None
        | Some (peer_mac, _) =>
            let '(seq, ack, acknowledges) :=
              if carries_ack segment then (sg_ack segment, 0, false)
              else (0, seq_acknowledging (sg_seq segment) (sg_payload_len segment) (sg_tcp_flags segment), true) in
            reset ← tcp_reset_frame peer_mac leg_mac (sg_dst segment) (sg_src segment) seq ack acknowledges;
            Done (Some reset)
        end
    end.

Definition refused_tcp_reset (frame : list Z) (segment : Segment) : outcome (option (list Z)) :=
  match split_first_chunk6 frame with
  | None => Done None
  | Some (leg_mac, _) => refused_tcp_reset_from leg_mac frame segment
  end.

(** * Theorems on the answer to a refused connection

    The refusing legs' parser is the host table's parser; the checksums are
    the internet checksum of the standard; the reset answers the refused
    segment, is itself a well-formed segment, and is never answered. *)

(** ** One parser *)

Definition segment_of (p : L4Packet) : Segment :=
  {| sg_src := l4_src p; sg_dst := l4_dst p; sg_proto := l4_proto p; sg_tcp_flags := l4_tcp_flags p;
     sg_seq := l4_tcp_seq p; sg_ack := l4_tcp_ack p; sg_payload_len := l4_tcp_payload_len p |}.

(** Reads the next byte on both sides. *)
Ltac both_read := first [next_byte; rewrite ?bind_Done | rewrite !bind_Done].

Lemma classify_parse frame :
  classify frame = (r ← parse_ipv4_l4 frame; Done (option_map segment_of r)).
Proof.
  unfold classify, parse_ipv4_l4. destruct (_ <? _)%nat eqn:E; [done|]. nat_tests. unfold ETH_HDR in E.
  assert (Hip : (20 <= length (drop ETH_HDR frame))%nat) by (rewrite length_drop; unfold ETH_HDR; lia).
  do 2 both_read. destruct (negb (be16 _ _ =? _)); [done|]. both_read.
  destruct ((_ <? 20)%nat || _) eqn:E1; [done|]. apply orb_false_iff in E1 as [E1 E2]. nat_tests.
  both_read. destruct (negb _ && negb _); [done|]. do 2 both_read. destruct (negb _); [done|].
  destruct (_ =? IPPROTO_TCP); (destruct (_ <? _)%nat eqn:E3; [done|]); nat_tests.
  - unfold index_be32, tcp_word.
    destruct (index4_lt (drop (Z.to_nat (Z.land b1 15) * 4) (drop ETH_HDR frame)) 4) as (sq & ->); [lia|].
    destruct (index4_lt (drop (Z.to_nat (Z.land b1 15) * 4) (drop ETH_HDR frame)) 8) as (ak & ->); [lia|].
    repeat both_read. unfold segment_of. cbn. do 5 f_equal. rewrite !length_drop. lia.
  - repeat both_read. done.
Qed.

(** ** The internet checksum *)

(** The sum of the 16-bit words of a byte string, an odd last byte padded
    with a zero byte (RFC 1071). *)
Fixpoint word_total (l : list Z) : Z :=
  match l with
  | a :: b :: l => a * 256 + b + word_total l
  | [a] => a * 256
  | [] => 0
  end.

(** A byte string carries a good checksum when the ones' complement sum of
    its words is zero: a multiple of [0xffff] that is not all zero bits. *)
Definition checksum_ok (l : list Z) : Prop := 0 < word_total l /\ word_total l mod 65535 = 0.

Lemma list_pair_ind {A} (P : list A -> Prop) :
  P [] -> (forall a, P [a]) -> (forall a b l, P l -> P (a :: b :: l)) -> forall l, P l.
Proof.
  intros H0 H1 H2 l. enough (P l /\ forall a, P (a :: l)) by tauto.
  induction l as [|b l [IH IH']]; [by split|]. split; [apply IH'|]. intros a. by apply H2.
Qed.

Lemma word_total_bounds l : Forall is_u8 l -> 0 <= word_total l <= 65535 * Z.of_nat (length l).
Proof.
  induction l as [|a|a b l IH] using list_pair_ind; intros H; [simpl; lia| |].
  - apply list.Forall_cons in H as [H _]. unfold is_u8 in H. cbn [word_total length]. lia.
  - apply list.Forall_cons in H as [Ha H]. apply list.Forall_cons in H as [Hb H].
    specialize (IH H). unfold is_u8 in *. cbn [word_total length]. lia.
Qed.

Lemma u32_add_small a b : 0 <= a + b < 4294967296 -> u32_add a b = a + b.
Proof. intros H. unfold u32_add. by apply Z.mod_small. Qed.

(** The sum the code computes, on every string it cannot overflow on. *)
Lemma ones_sum_total l : Forall is_u8 l -> Z.of_nat (length l) <= 65536 -> ones_sum l = word_total l.
Proof.
  intros Hu Hl. unfold ones_sum.
  cut (forall acc, 0 <= acc -> acc + 65535 * Z.of_nat (length l) < 4294967296 ->
    match (as_chunks2 l).2 with
    | t :: _ => u32_add (fold_left (fun sum w => u32_add sum (be16 w.1 w.2)) (as_chunks2 l).1 acc) (Z.shiftl t 8)
    | [] => fold_left (fun sum w => u32_add sum (be16 w.1 w.2)) (as_chunks2 l).1 acc
    end = acc + word_total l).
  { intros H. specialize (H 0). destruct (as_chunks2 l). cbn [fst snd] in H. rewrite H; lia. }
  clear Hl. induction l as [|a|a b l IH] using list_pair_ind; intros acc Hacc Hlen.
  - simpl. lia.
  - apply list.Forall_cons in Hu as [Hu _]. unfold is_u8 in Hu. cbn [as_chunks2 fst snd fold_left word_total].
    rewrite Z.shiftl_mul_pow2 by lia. change (2 ^ 8) with 256. cbn [length] in Hlen. rewrite u32_add_small; lia.
  - apply list.Forall_cons in Hu as [Ha Hu]. apply list.Forall_cons in Hu as [Hb Hu]. cbn [length] in Hlen.
    cbn [as_chunks2 word_total]. destruct (as_chunks2 l) as [words tail] eqn:E. cbn [fst snd fold_left] in *.
    rewrite (be16_val a b) by done. unfold is_u8 in *.
    rewrite u32_add_small by lia. rewrite IH by (try done; lia). lia.
Qed.

(** One round of the carry loop keeps the sum's residue. *)
Lemma carry_round s : 65536 <= s < 4294967296 ->
  u32_add (Z.land s 65535) (Z.shiftr s 16) = s mod 65536 + s / 65536 /\
  (s mod 65536 + s / 65536) mod 65535 = s mod 65535 /\ 0 < s mod 65536 + s / 65536 < s.
Proof.
  intros Hs. change 65535 with (Z.ones 16) at 1. rewrite Z.land_ones, Z.shiftr_div_pow2 by lia.
  change (2 ^ 16) with 65536.
  pose proof (Z.div_mod s 65536 ltac:(lia)) as Hd. pose proof (Z.mod_pos_bound s 65536 ltac:(lia)).
  assert (1 <= s / 65536 < 65536) by (split; [apply Z.div_le_lower_bound|apply Z.div_lt_upper_bound]; lia).
  rewrite u32_add_small by lia. split; [done|]. split; [|lia].
  rewrite Hd at 3. replace (65536 * (s / 65536) + s mod 65536) with (s mod 65536 + s / 65536 + s / 65536 * 65535) by lia.
  by rewrite Z_mod_plus_full.
Qed.

Lemma fold_carries_S fuel s : 0 <= s < 4294967296 ->
  fold_carries (S fuel) s =
  if 65536 <=? s then fold_carries fuel (u32_add (Z.land s 65535) (Z.shiftr s 16)) else Done s.
Proof.
  intros Hs. cbn [fold_carries]. rewrite Z.shiftr_div_pow2 by lia. change (2 ^ 16) with 65536.
  destruct (65536 <=? s) eqn:E; bool_to_prop.
  - destruct (s / 65536 =? 0) eqn:E2; [|done]. apply Z.eqb_eq in E2. apply Z.div_small_iff in E2; lia.
  - by rewrite Z.div_small by lia.
Qed.

(** The carry loop ends within three rounds. *)
Lemma fold_carries_spec s : 0 <= s < 4294967296 ->
  exists f, fold_carries 3 s = Done f /\ is_u16 f /\ f mod 65535 = s mod 65535 /\ (0 < s -> 0 < f).
Proof.
  intros Hs. unfold is_u16.
  rewrite fold_carries_S by done. destruct (65536 <=? s) eqn:E; bool_to_prop; [|exists s; split; [done|lia]].
  destruct (carry_round s ltac:(lia)) as (-> & Hm & Hb).
  assert (Hb1 : s mod 65536 + s / 65536 <= 131070).
  { pose proof (Z.mod_pos_bound s 65536 ltac:(lia)).
    assert (s / 65536 < 65536) by (apply Z.div_lt_upper_bound; lia). lia. }
  revert Hm Hb Hb1. generalize (s mod 65536 + s / 65536). intros t Hm Hb Hb1.
  rewrite fold_carries_S by lia. destruct (65536 <=? t) eqn:E1; bool_to_prop; [|exists t; split; [done|lia]].
  destruct (carry_round t ltac:(lia)) as (-> & Hm2 & Hb2).
  assert (t mod 65536 + t / 65536 < 65536).
  { replace (t / 65536) with 1 by (apply Z.div_unique with (t - 65536); lia).
    replace (t mod 65536) with (t - 65536) by (apply Z.mod_unique with 1; lia). lia. }
  rewrite fold_carries_S by lia. destruct (_ <=? _) eqn:E2; bool_to_prop; [lia|].
  eexists. split; [reflexivity|]. split; [lia|]. split; [congruence|lia].
Qed.

Lemma complement_val f : is_u16 f -> Z.lxor (Z.land f 65535) 65535 = 65535 - f.
Proof.
  unfold is_u16. intros Hf. change 65535 with (Z.ones 16).
  rewrite Z.land_ones, Z.mod_small by lia.
  assert (Hlog : Z.log2 f < 16) by (destruct (decide (f = 0)) as [->|]; [done|apply Z.log2_lt_pow2; lia]).
  rewrite Z.sub_nocarry_ldiff by (apply Z.ldiff_ones_r_low; lia).
  apply Z.bits_inj'. intros i Hi. rewrite Z.lxor_spec, Z.ldiff_spec.
  destruct (decide (i < 16)).
  - rewrite Z.ones_spec_low by lia. by destruct (Z.testbit f i).
  - rewrite Z.ones_spec_high, (Z.bits_above_log2 f i) by lia. done.
Qed.

(** [ones_complement] ends on every [u32] and yields what the sum lacks. *)
Lemma ones_complement_spec s : 0 <= s < 4294967296 ->
  exists c, ones_complement s = Done c /\ is_u16 c /\ (s + c) mod 65535 = 0 /\ (0 < s -> c < 65535).
Proof.
  intros Hs. destruct (fold_carries_spec s Hs) as (f & Hf & Hu & Hm & Hpos).
  exists (65535 - f). unfold ones_complement. rewrite Hf, bind_Done, complement_val by done. unfold is_u16 in *.
  split; [done|]. split; [lia|]. split; [|lia].
  rewrite <- Zplus_mod_idemp_l, <- Hm, Zplus_mod_idemp_l. by replace (f + (65535 - f)) with 65535 by lia.
Qed.

(** A sum that carries its own checksum complements to zero. *)
Lemma ones_complement_zero s : 0 < s < 4294967296 -> s mod 65535 = 0 -> ones_complement s = Done 0.
Proof.
  intros Hs Hm. destruct (ones_complement_spec s ltac:(lia)) as (c & -> & Hu & Hc & Hlt).
  rewrite <- Zplus_mod_idemp_l, Hm, Z.add_0_l in Hc. unfold is_u16 in Hu.
  rewrite Z.mod_small in Hc by lia. by subst c.
Qed.

Lemma be_byte n k : is_u8 (Z.land (Z.shiftr n k) 255).
Proof. unfold is_u8. change 255 with (Z.ones 8). rewrite Z.land_ones by lia. apply Z.mod_pos_bound. lia. Qed.

Lemma low_byte n : is_u8 (Z.land n 255).
Proof. rewrite <- (Z.shiftr_0_r n). apply be_byte. Qed.

Lemma be16_bytes_val n : is_u16 n -> Z.land (Z.shiftr n 8) 255 * 256 + Z.land n 255 = n.
Proof.
  unfold is_u16. intros Hn. change 255 with (Z.ones 8). rewrite !Z.land_ones, Z.shiftr_div_pow2 by lia.
  change (2 ^ 8) with 256. rewrite (Z.mod_small (n / 256)) by (split; [apply Z.div_pos|apply Z.div_lt_upper_bound]; lia).
  pose proof (Z.div_mod n 256 ltac:(lia)). lia.
Qed.

Lemma be16_be16_bytes n : is_u16 n -> be16 (Z.land (Z.shiftr n 8) 255) (Z.land n 255) = n.
Proof. intros Hn. rewrite be16_val by auto using be_byte, low_byte. by apply be16_bytes_val. Qed.

Lemma be32_bytes_val n : is_u32 n ->
  ip4_u32 (Ip4 (Z.land (Z.shiftr n 24) 255) (Z.land (Z.shiftr n 16) 255) (Z.land (Z.shiftr n 8) 255) (Z.land n 255)) = n.
Proof.
  unfold is_u32. intros Hn. rewrite ip4_u32_val by (unfold ip4_wf; cbn [oct0 oct1 oct2 oct3]; auto using be_byte, low_byte).
  cbn [oct0 oct1 oct2 oct3].
  change 255 with (Z.ones 8). rewrite !Z.land_ones, !Z.shiftr_div_pow2 by lia.
  change (2 ^ 8) with 256. change (2 ^ 16) with (256 * 256). change (2 ^ 24) with (256 * 256 * 256).
  rewrite <- !Z.div_div by lia.
  pose proof (Z.div_mod n 256 ltac:(lia)). pose proof (Z.div_mod (n / 256) 256 ltac:(lia)).
  pose proof (Z.div_mod (n / 256 / 256) 256 ltac:(lia)).
  rewrite (Z.mod_small (n / 256 / 256 / 256)); [lia|].
  split; [repeat apply Z.div_pos; lia|]. do 3 (apply Z.div_lt_upper_bound; [lia|]). lia.
Qed.

(** ** The reset's bytes *)

Definition sock_wf (s : SocketAddrV4) : Prop := ip4_wf (sa_ip s) /\ is_u16 (sa_port s).

(** The pseudo-header TCP's checksum covers (RFC 793): addresses, protocol,
    length. *)
Definition pseudo_header (src dst : ip4) (len : Z) : list Z := octets src ++ octets dst ++ [0; 6] ++ be16_bytes len.

Lemma octets_u8 a : ip4_wf a -> Forall is_u8 (octets a).
Proof. destruct a. unfold ip4_wf, octets. simpl. intros (? & ? & ? & ?). rewrite !list.Forall_cons. auto. Qed.

Lemma reset_ip_header_bytes src dst c :
  splice (reset_ip_header src dst) 10 (be16_bytes c) = [69; 0; 0; 40; 0; 0; 0; 0; 64; 6] ++ be16_bytes c ++ octets src ++ octets dst.
Proof. reflexivity. Qed.

Lemma reset_tcp_header_bytes src dst seq ack b c :
  splice (reset_tcp_header src dst seq ack b) 16 (be16_bytes c) =
  be16_bytes (sa_port src) ++ be16_bytes (sa_port dst) ++ be32_bytes seq ++ be32_bytes ack ++
  [80; if b then 20 else 4; 0; 0] ++ be16_bytes c ++ [0; 0].
Proof. by destruct b. Qed.

Lemma splice_zero_ip src dst : reset_ip_header src dst = splice (reset_ip_header src dst) 10 (be16_bytes 0).
Proof. reflexivity. Qed.

Lemma splice_zero_tcp src dst seq ack b :
  reset_tcp_header src dst seq ack b = splice (reset_tcp_header src dst seq ack b) 16 (be16_bytes 0).
Proof. by destruct b. Qed.

Lemma be16_bytes_u8 n : Forall is_u8 (be16_bytes n).
Proof. unfold be16_bytes. rewrite !list.Forall_cons. auto using be_byte, low_byte. Qed.
Lemma be32_bytes_u8 n : Forall is_u8 (be32_bytes n).
Proof. unfold be32_bytes. rewrite !list.Forall_cons. auto using be_byte, low_byte. Qed.

(** The words of an even prefix add up. *)
Lemma word_total_app l1 l2 : Nat.Even (length l1) -> word_total (l1 ++ l2) = word_total l1 + word_total l2.
Proof.
  induction l1 as [|a|a b l1 IH] using list_pair_ind; intros He; [done| |].
  - destruct He as [k Hk]. simpl in Hk. lia.
  - cbn [app word_total]. rewrite IH; [lia|]. cbn [length] in He. destruct He as [k Hk]. exists (k - 1)%nat. lia.
Qed.

Lemma word_total_be16 n : is_u16 n -> word_total (be16_bytes n) = n.
Proof. intros Hn. unfold be16_bytes. cbn [word_total]. rewrite be16_bytes_val by done. lia. Qed.

(** Splits the words of an appended list, part by part. *)
Ltac split_words :=
  rewrite !word_total_app by first [by exists 1%nat | by exists 2%nat | by exists 5%nat | by exists 10%nat].

Lemma reset_ip_total src dst c : is_u16 c ->
  word_total (splice (reset_ip_header src dst) 10 (be16_bytes c)) = c + word_total (reset_ip_header src dst).
Proof.
  intros Hc. rewrite (splice_zero_ip src dst) at 2. rewrite !reset_ip_header_bytes. split_words.
  rewrite (word_total_be16 c) by done. change (word_total (be16_bytes 0)) with 0. lia.
Qed.

Lemma reset_tcp_total src dst seq ack b c : is_u16 c ->
  word_total (splice (reset_tcp_header src dst seq ack b) 16 (be16_bytes c)) = c + word_total (reset_tcp_header src dst seq ack b).
Proof.
  intros Hc. rewrite (splice_zero_tcp src dst seq ack b) at 2. rewrite !reset_tcp_header_bytes. split_words.
  rewrite (word_total_be16 c) by done. change (word_total (be16_bytes 0)) with 0. lia.
Qed.

Lemma reset_ip_u8 src dst c : ip4_wf src -> ip4_wf dst -> Forall is_u8 (splice (reset_ip_header src dst) 10 (be16_bytes c)).
Proof.
  intros Hs Hd. rewrite reset_ip_header_bytes, !list.Forall_app.
  split; [by apply (bool_decide_unpack _); vm_compute|]. auto using be16_bytes_u8, octets_u8.
Qed.

Lemma reset_tcp_u8 src dst seq ack b c : Forall is_u8 (splice (reset_tcp_header src dst seq ack b) 16 (be16_bytes c)).
Proof.
  rewrite reset_tcp_header_bytes, !list.Forall_app. split_and!; auto using be16_bytes_u8, be32_bytes_u8.
  - apply (bool_decide_unpack _). by destruct b.
  - by apply (bool_decide_unpack _).
Qed.

Lemma ipv4_checksum_spec src dst : ip4_wf src -> ip4_wf dst ->
  exists c, ipv4_checksum (reset_ip_header src dst) = Done c /\ is_u16 c /\
    checksum_ok (splice (reset_ip_header src dst) 10 (be16_bytes c)).
Proof.
  intros Hs Hd. pose proof (reset_ip_u8 src dst 0 Hs Hd) as Hu. rewrite <- splice_zero_ip in Hu.
  pose proof (word_total_bounds _ Hu) as Hb. change (length (reset_ip_header src dst)) with 20%nat in Hb.
  assert (Hpos : 0 < word_total (reset_ip_header src dst)).
  { rewrite splice_zero_ip, reset_ip_header_bytes. split_words. change (word_total (be16_bytes 0)) with 0.
    pose proof (word_total_bounds _ (octets_u8 _ Hs)). pose proof (word_total_bounds _ (octets_u8 _ Hd)). 
    change (word_total [69; 0; 0; 40; 0; 0; 0; 0; 64; 6]) with 34094. lia. }
  unfold ipv4_checksum. rewrite ones_sum_total; [|done|simpl; lia].
  destruct (ones_complement_spec (word_total (reset_ip_header src dst)) ltac:(lia)) as (c & -> & Hc & Hm & _).
  exists c. split; [done|]. split; [done|]. split; rewrite reset_ip_total by done; [unfold is_u16 in *; lia|].
  by rewrite Z.add_comm.
Qed.

Lemma tcp_checksum_total seg src dst : ip4_wf src -> ip4_wf dst -> Forall is_u8 seg -> length seg = 20%nat ->
  tcp_checksum seg src dst = ones_complement (word_total (pseudo_header src dst 20 ++ seg)) /\
  20 <= word_total (pseudo_header src dst 20 ++ seg) < 4000000.
Proof.
  intros Hs Hd Hu Hl. unfold tcp_checksum, pseudo_header.
  pose proof (word_total_bounds _ (octets_u8 _ Hs)) as B1. pose proof (word_total_bounds _ (octets_u8 _ Hd)) as B2.
  pose proof (word_total_bounds _ Hu) as B3. rewrite Hl in *. change (length (octets src)) with 4%nat in B1.
  change (length (octets dst)) with 4%nat in B2. rewrite !ones_sum_total by (auto using octets_u8; simpl; lia).
  rewrite <- !app_assoc. split_words. change (word_total [0; 6]) with 6. change (word_total (be16_bytes 20)) with 20.
  unfold IPPROTO_TCP. change (Z.min 65535 (Z.of_nat 20)) with 20.
  unfold u32_add. rewrite !Zplus_mod_idemp_l, (Z.mod_small (_ + _ + 6)), Z.mod_small by lia. split; [f_equal; lia|lia].
Qed.

Lemma tcp_checksum_spec src dst seq ack b : ip4_wf (sa_ip src) -> ip4_wf (sa_ip dst) ->
  exists c, tcp_checksum (reset_tcp_header src dst seq ack b) (sa_ip src) (sa_ip dst) = Done c /\ is_u16 c /\
    checksum_ok (pseudo_header (sa_ip src) (sa_ip dst) 20 ++ splice (reset_tcp_header src dst seq ack b) 16 (be16_bytes c)).
Proof.
  intros Hs Hd. pose proof (reset_tcp_u8 src dst seq ack b 0) as Hu. rewrite <- splice_zero_tcp in Hu.
  assert (Hl : length (reset_tcp_header src dst seq ack b) = 20%nat) by (by destruct b).
  destruct (tcp_checksum_total _ _ _ Hs Hd Hu Hl) as [-> Hb].
  destruct (ones_complement_spec _ ltac:(split; [|]; [apply (Z.le_trans _ 20); [lia|apply Hb]|lia])) as (c & -> & Hc & Hm & _).
  assert (He : Nat.Even (length (pseudo_header (sa_ip src) (sa_ip dst) 20))) by (by exists 6%nat).
  exists c. split; [done|]. split; [done|]. unfold checksum_ok.
  rewrite word_total_app in Hb, Hm by done. rewrite word_total_app, reset_tcp_total by done. unfold is_u16 in Hc.
  split; [lia|]. rewrite <- Hm. f_equal. lia.
Qed.

Lemma tcp_reset_frame_spec eth_dst eth_src src dst seq ack b : ip4_wf (sa_ip src) -> ip4_wf (sa_ip dst) ->
  exists c1 c2, tcp_reset_frame eth_dst eth_src src dst seq ack b =
    Done (eth_dst ++ eth_src ++ [8; 0] ++ splice (reset_ip_header (sa_ip src) (sa_ip dst)) 10 (be16_bytes c1) ++
          splice (reset_tcp_header src dst seq ack b) 16 (be16_bytes c2)) /\
    checksum_ok (splice (reset_ip_header (sa_ip src) (sa_ip dst)) 10 (be16_bytes c1)) /\
    checksum_ok (pseudo_header (sa_ip src) (sa_ip dst) 20 ++ splice (reset_tcp_header src dst seq ack b) 16 (be16_bytes c2)).
Proof.
  intros Hs Hd. destruct (ipv4_checksum_spec _ _ Hs Hd) as (c1 & H1 & _ & Ho1).
  destruct (tcp_checksum_spec src dst seq ack b Hs Hd) as (c2 & H2 & _ & Ho2).
  exists c1, c2. unfold tcp_reset_frame. cbv zeta. rewrite H1, bind_Done, H2, bind_Done. done.
Qed.

(** ** The reset as a segment *)

Lemma classify_bytes d0 d1 d2 d3 d4 d5 s0 s1 s2 s3 s4 s5 k0 k1 a0 a1 a2 a3 b0 b1 b2 b3 p0 p1 q0 q1
    n0 n1 n2 n3 m0 m1 m2 m3 flags j0 j1 :
  classify [d0; d1; d2; d3; d4; d5; s0; s1; s2; s3; s4; s5; 8; 0;
            69; 0; 0; 40; 0; 0; 0; 0; 64; 6; k0; k1; a0; a1; a2; a3; b0; b1; b2; b3;
            p0; p1; q0; q1; n0; n1; n2; n3; m0; m1; m2; m3; 80; flags; 0; 0; j0; j1; 0; 0] =
  Done (Some {| sg_src := {| sa_ip := Ip4 a0 a1 a2 a3; sa_port := be16 p0 p1 |};
                sg_dst := {| sa_ip := Ip4 b0 b1 b2 b3; sa_port := be16 q0 q1 |};
                sg_proto := 6; sg_tcp_flags := flags;
                sg_seq := ip4_u32 (Ip4 n0 n1 n2 n3); sg_ack := ip4_u32 (Ip4 m0 m1 m2 m3); sg_payload_len := 0 |}).
Proof. reflexivity. Qed.

(** The segment a reset frame carries. *)
Definition reset_segment (src dst : SocketAddrV4) (seq ack : Z) (b : bool) : Segment :=
  {| sg_src := src; sg_dst := dst; sg_proto := IPPROTO_TCP; sg_tcp_flags := if b then 20 else 4;
     sg_seq := seq; sg_ack := ack; sg_payload_len := 0 |}.

Lemma classify_reset eth_dst eth_src src dst seq ack b c1 c2 :
  length eth_dst = 6%nat -> length eth_src = 6%nat -> is_u16 (sa_port src) -> is_u16 (sa_port dst) ->
  is_u32 seq -> is_u32 ack ->
  classify (eth_dst ++ eth_src ++ [8; 0] ++ splice (reset_ip_header (sa_ip src) (sa_ip dst)) 10 (be16_bytes c1) ++
            splice (reset_tcp_header src dst seq ack b) 16 (be16_bytes c2)) = Done (Some (reset_segment src dst seq ack b)).
Proof.
  intros Hd Hs Hp Hq Hn Hm. rewrite reset_ip_header_bytes, reset_tcp_header_bytes.
  do 7 (destruct eth_dst as [|? eth_dst]; try discriminate Hd). do 7 (destruct eth_src as [|? eth_src]; try discriminate Hs).
  destruct src as [[a0 a1 a2 a3] p], dst as [[b0 b1 b2 b3] q]. cbn [sa_ip sa_port] in *.
  etransitivity; [apply classify_bytes|]. unfold reset_segment. by rewrite !be16_be16_bytes, !be32_bytes_val.
Qed.

Lemma index4_wf l i a : Forall is_u8 l -> index4 l i = Done a -> ip4_wf a.
Proof.
  intros Hu H. unfold index4 in H. repeat (inv_bind H). injection H as <-.
  rewrite list.Forall_forall in Hu. unfold ip4_wf. cbn [oct0 oct1 oct2 oct3].
  split_and!; eapply Hu, list_elem_of_lookup_2, index_Done; eassumption.
Qed.

Lemma index_u8 l i b : Forall is_u8 l -> index l i = Done b -> is_u8 b.
Proof. intros Hu H. rewrite list.Forall_forall in Hu. eapply Hu, list_elem_of_lookup_2, index_Done. exact H. Qed.

(** What the types hold of a segment read from bytes. *)
Lemma classify_wf frame seg : Forall is_u8 frame -> classify frame = Done (Some seg) ->
  (34 <= length frame)%nat /\ sock_wf (sg_src seg) /\ sock_wf (sg_dst seg) /\ is_u32 (sg_seq seg) /\ is_u32 (sg_ack seg).
Proof.
  intros Hu. unfold classify. destruct (_ <? _)%nat eqn:E; [done|]. intros H. nat_tests. unfold ETH_HDR in E.
  inv_bind H. inv_bind H. destruct (negb _); [done|]. inv_bind H. destruct (_ || _); [done|].
  inv_bind H. destruct (negb _ && negb _); [done|]. inv_bind H. inv_bind H. destruct (negb _); [done|].
  destruct (_ <? _)%nat; [done|]. inv_bind H. inv_bind H. do 7 inv_bind H. injection H as <-.
  assert (Hip : Forall is_u8 (drop ETH_HDR frame)) by (by apply list.Forall_drop).
  assert (Hl4 : Forall is_u8 (drop (Z.to_nat (Z.land x1 15) * 4) (drop ETH_HDR frame))) by (by apply list.Forall_drop).
  assert (Hnum : is_u32 x5.1 /\ is_u32 x5.2).
  { destruct (x2 =? IPPROTO_TCP); [|injection Hx5 as <-; unfold is_u32; simpl; lia].
    inv_bind Hx5. inv_bind Hx5. injection Hx5 as <-. unfold index_be32 in *. inv_bind Hx14. injection Hx14 as <-.
    inv_bind Hx15. injection Hx15 as <-. split; apply ip4_u32_range; (eapply index4_wf; [|eassumption]; done). }
  unfold sock_wf. cbn [sg_src sg_dst sa_ip sa_port sg_seq sg_ack].
  split; [lia|]. split_and!; first [apply Hnum | eapply index4_wf; [|eassumption]; done | apply be16_u16];
    (eapply index_u8; [|eassumption]; done).
Qed.

Lemma reset_carries b src dst seq ack :
  carries_reset (reset_segment src dst seq ack b) = true /\ carries_ack (reset_segment src dst seq ack b) = b.
Proof. by destruct b. Qed.

Lemma seq_acknowledging_val seq len flags :
  seq_acknowledging seq len flags =
  (seq + len + (if Z.testbit flags 1 then 1 else 0) + (if Z.testbit flags 0 then 1 else 0)) mod 4294967296.
Proof.
  assert (Hbit : forall n, 0 <= n -> Z.b2z (negb (Z.land flags (2 ^ n) =? 0)) = if Z.testbit flags n then 1 else 0).
  { intros n Hn. destruct (Z.testbit flags n) eqn:E.
    - replace (Z.land flags (2 ^ n) =? 0) with false; [done|]. symmetry. apply Z.eqb_neq. intros H.
      assert (Hb : Z.testbit (Z.land flags (2 ^ n)) n = true) by (by rewrite Z.land_spec, E, Z.pow2_bits_true).
      by rewrite H, Z.bits_0 in Hb.
    - replace (Z.land flags (2 ^ n)) with 0; [done|]. symmetry. apply Z.bits_inj'. intros i Hi.
      rewrite Z.land_spec, Z.bits_0, Z.pow2_bits_eqb by done. destruct (Z.eqb_spec n i) as [->|]; [by rewrite E|].
      apply andb_false_r. }
  unfold seq_acknowledging, u32_add, TCP_SYN, TCP_FIN. rewrite !Zplus_mod_idemp_l.
  rewrite <- (Hbit 1 ltac:(lia)), <- (Hbit 0 ltac:(lia)). by rewrite <- Z.add_assoc, Zplus_mod_idemp_l, Z.add_assoc.
Qed.

(** ** Claims *)

(** A refusal is answered once, to its own sender, in terms the sender
    accepts.  For every frame that parses: a segment that is itself a reset
    gets no answer.  Any other gets one frame, sent to the hardware address
    the frame came from and from the leg's own, which parses as a reset from
    the refused endpoint back to the refusing one, without payload.  If the
    segment carried an acknowledgement, the reset has that number as its
    sequence and acknowledges nothing; otherwise it starts at zero and
    acknowledges the segment's sequence, data, SYN and FIN modulo 2^32.  The
    reset itself, refused by any leg, is answered with nothing. *)
Theorem reset_answers_segment (leg_mac frame : list Z) (seg : Segment)
    (Hmac : length leg_mac = 6%nat) (Hbytes : Forall is_u8 frame) (Hparse : classify frame = Done (Some seg)) :
  if carries_reset seg then refused_tcp_reset_from leg_mac frame seg = Done None
  else exists reset reply,
    refused_tcp_reset_from leg_mac frame seg = Done (Some reset) /\
    take 6 reset = take 6 (drop 6 frame) /\ take 6 (drop 6 reset) = leg_mac /\
    classify reset = Done (Some reply) /\ carries_reset reply = true /\
    sg_src reply = sg_dst seg /\ sg_dst reply = sg_src seg /\ sg_payload_len reply = 0 /\
    carries_ack reply = negb (carries_ack seg) /\
    sg_seq reply = (if carries_ack seg then sg_ack seg else 0) /\
    (carries_ack seg = false ->
       sg_ack reply = (sg_seq seg + sg_payload_len seg + (if Z.testbit (sg_tcp_flags seg) 1 then 1 else 0) +
                       (if Z.testbit (sg_tcp_flags seg) 0 then 1 else 0)) mod 4294967296) /\
    forall mac, refused_tcp_reset_from mac reset reply = Done None.
Proof.
  unfold refused_tcp_reset_from at 1 2. destruct (carries_reset seg) eqn:Hr; [done|].
  destruct (classify_wf _ _ Hbytes Hparse) as (Hlen & [Hsi Hsp] & [Hdi Hdp] & Hseq & Hack).
  unfold split_first_chunk6.
  rewrite (proj2 (Nat.leb_le 6 (length frame))) by lia. rewrite length_drop, (proj2 (Nat.leb_le 6 (length frame - 6))) by lia.
  set (numbers := if carries_ack seg then _ else _).
  assert (Hn : is_u32 numbers.1.1 /\ is_u32 numbers.1.2).
  { unfold numbers. destruct (carries_ack seg); cbn [fst snd]; [split; [done|unfold is_u32; lia]|].
    rewrite seq_acknowledging_val. unfold is_u32. split; [lia|]. apply Z.mod_pos_bound. lia. }
  destruct numbers as [[seq ack] b] eqn:En. cbn [fst snd] in Hn. destruct Hn as [Hn Hm].
  destruct (tcp_reset_frame_spec (take 6 (drop 6 frame)) leg_mac (sg_dst seg) (sg_src seg) seq ack b Hdi Hsi)
    as (c1 & c2 & -> & _). rewrite bind_Done.
  assert (H6 : length (take 6 (drop 6 frame)) = 6%nat) by (rewrite length_take, length_drop; lia).
  pose proof (classify_reset _ _ (sg_dst seg) (sg_src seg) seq ack b c1 c2 H6 Hmac Hdp Hsp Hn Hm) as Hcl.
  destruct (reset_carries b (sg_dst seg) (sg_src seg) seq ack) as [Hcr Hca].
  eexists _, _. split; [reflexivity|]. split; [by rewrite take_app_length'|].
  split; [by rewrite drop_app_length', take_app_length'|].
  split; [exact Hcl|]. split; [done|]. do 3 (split; [done|]).
  unfold numbers in En. unfold refused_tcp_reset_from. rewrite Hca, Hcr.
  destruct (carries_ack seg); injection En as <- <- <-; (split; [done|]); (split; [done|]); split; try done.
  intros _. apply seq_acknowledging_val.
Qed.

(** The reset is a frame every stack accepts.  Between any two endpoints
    and with any numbers, building it never fails; it is 54 bytes, its IPv4
    header carries a good internet checksum, its TCP header carries a good
    checksum over the pseudo-header, and the module's own checksum routines
    verify both. *)
Theorem reset_checksums_verify (eth_dst eth_src : list Z) (src dst : SocketAddrV4) (seq ack : Z) (acknowledges : bool)
    (Hd : length eth_dst = 6%nat) (Hs : length eth_src = 6%nat) (Hsrc : sock_wf src) (Hdst : sock_wf dst) :
  exists frame, tcp_reset_frame eth_dst eth_src src dst seq ack acknowledges = Done frame /\
    length frame = 54%nat /\
    let ip := take 20 (drop 14 frame) in let tcp := drop 34 frame in
    checksum_ok ip /\ ipv4_checksum ip = Done 0 /\
    checksum_ok (pseudo_header (sa_ip src) (sa_ip dst) 20 ++ tcp) /\ tcp_checksum tcp (sa_ip src) (sa_ip dst) = Done 0.
Proof.
  destruct Hsrc as [Hsi _], Hdst as [Hdi _].
  destruct (tcp_reset_frame_spec eth_dst eth_src src dst seq ack acknowledges Hsi Hdi) as (c1 & c2 & -> & Ho1 & Ho2).
  set (ip := splice (reset_ip_header _ _) 10 _) in *. set (tcp := splice (reset_tcp_header _ _ _ _ _) 16 _) in *.
  assert (Hip : length ip = 20%nat) by done. assert (Htcp : length tcp = 20%nat) by (by destruct acknowledges).
  eexists. split; [reflexivity|]. split; [rewrite !length_app, Hd, Hs, Hip, Htcp; done|].
  replace (eth_dst ++ eth_src ++ [8; 0] ++ ip ++ tcp) with ((eth_dst ++ eth_src ++ [8; 0]) ++ ip ++ tcp)
    by (by rewrite <- !app_assoc).
  assert (Heth : length (eth_dst ++ eth_src ++ [8; 0]) = 14%nat) by (by rewrite !length_app, Hd, Hs).
  cbv zeta. rewrite drop_app_length', take_app_length' by done.
  rewrite (app_assoc _ ip tcp), drop_app_length' by (by rewrite length_app, Heth, Hip).
  pose proof (reset_ip_u8 _ _ c1 Hsi Hdi) as Hiu. pose proof (reset_tcp_u8 src dst seq ack acknowledges c2) as Htu.
  split; [done|]. split.
  { destruct Ho1 as [Hp Hm]. pose proof (word_total_bounds _ Hiu) as Hb. fold ip in Hb. rewrite Hip in Hb.
    unfold ipv4_checksum. rewrite ones_sum_total; [|done|rewrite Hip; lia]. apply ones_complement_zero; [lia|done]. }
  split; [done|]. destruct (tcp_checksum_total tcp (sa_ip src) (sa_ip dst) Hsi Hdi Htu Htcp) as [-> Hb].
  apply ones_complement_zero; [lia|apply Ho2].
Qed.

(** Every leg reads the same frame.  On every byte string the refusing
    legs' [classify] and the host table's [parse_ipv4_l4] both return, and
    return the same addresses, ports, protocol, flags, numbers and payload
    length; and whenever they yield a packet, [summarize], which the verdict
    reads, names the same source, destination, protocol and port. *)
Theorem parsers_agree (frame : list Z) :
  exists r, parse_ipv4_l4 frame = Done r /\ classify frame = Done (option_map segment_of r) /\
    forall pkt, r = Some pkt -> exists s, summarize frame = Done s /\ agrees pkt s.
Proof.
  destruct (parse_total frame) as [r Hr]. exists r. split; [done|]. split; [by rewrite classify_parse, Hr|].
  intros pkt ->. exact (proj2 (parse_agrees frame pkt Hr)).
Qed.

(** ** A refused SYN *)

Definition syn_frame : list Z :=
  [82;84;0;64;0;9; 82;84;0;64;0;7; 8;0;
   69;0;0;43; 0;0;0;0; 64;6;0;0; 100;64;0;7; 100;64;0;9;
   156;64;0;80; 255;255;255;254; 0;0;0;0; 80;2;0;0; 0;0;0;0; 1;2;3].
Definition syn_segment : Segment :=
  {| sg_src := {| sa_ip := Ip4 100 64 0 7; sa_port := 40000 |};
     sg_dst := {| sa_ip := Ip4 100 64 0 9; sa_port := 80 |};
     sg_proto := 6; sg_tcp_flags := 2; sg_seq := 4294967294; sg_ack := 0; sg_payload_len := 3 |}.

(** The acknowledgement wraps: sequence -2, three bytes and a SYN give 2. *)
Lemma reset_answers_segment_witness :
  exists reset reply, refused_tcp_reset_from [82; 84; 0; 64; 0; 9] syn_frame syn_segment = Done (Some reset) /\
    classify reset = Done (Some reply) /\ sg_dst reply = sg_src syn_segment /\ sg_ack reply = 2.
Proof.
  destruct (reset_answers_segment [82; 84; 0; 64; 0; 9] syn_frame syn_segment) as
    (reset & reply & H1 & _ & _ & H2 & _ & _ & H3 & _ & _ & _ & H4 & _).
  - reflexivity.
  - by apply (bool_decide_unpack _); vm_compute.
  - vm_compute. reflexivity.
  - exists reset, reply. split; [exact H1|]. split; [exact H2|]. split; [exact H3|]. rewrite H4; [|reflexivity]. reflexivity.
Defined.

Lemma reset_checksums_verify_witness :
  exists frame, tcp_reset_frame [1; 2; 3; 4; 5; 6] [6; 5; 4; 3; 2; 1] (sg_dst syn_segment) (sg_src syn_segment) 0 2 true = Done frame /\
    length frame = 54%nat.
Proof.
  destruct (reset_checksums_verify [1; 2; 3; 4; 5; 6] [6; 5; 4; 3; 2; 1] (sg_dst syn_segment) (sg_src syn_segment) 0 2 true)
    as (frame & H & Hl & _).
  - reflexivity.
  - reflexivity.
  - unfold sock_wf, ip4_wf, is_u8, is_u16. simpl. lia.
  - unfold sock_wf, ip4_wf, is_u8, is_u16. simpl. lia.
  - exists frame. split; [exact H|exact Hl].
Defined.
