(* ===== verification/ForwardRevoke.v ===== *)
(** * Ingress revocation at box end (crates/minvmd/src/net/forward_revoke.rs)

    The forwarded connections the host's gate tracks, the resets that end
    them at the switch when their box is gone, and the exchange that writes
    the resets and answers challenge acknowledgements.  The iteration order
    of the map is that of [HashIter], so the theorems hold for every order,
    the sorted one of the source included; they are the second part. *)

From stdpp Require Import base list gmap strings numbers.
From Stdlib Require Import ZArith Lia.
From S2P Require Import Prelude Text Egress EgressProps ReplyFlows Switch L4 Refusal.
Open Scope Z_scope.

Definition FORWARDED_FLOWS_TRACKED : nat := N.to_nat 4096.
Definition ARP_REQUEST : Z := 1.
Definition ARP_REPLY : Z := 2.

(** [FlowKey]: the box's address and port, then the peer's. *)
Definition ForwardKey : Type := ip4 * Z * ip4 * Z.

Record FlowTail : Type := {
  tl_box_mac : list Z;
  tl_peer_mac : list Z;
  tl_peer_ack : option Z;
  tl_box_next : option Z;
  tl_seen : Z;
}.

Record TcpSegment : Type := {
  ts_dst_mac : list Z;
  ts_src_mac : list Z;
  ts_src : ip4;
  ts_dst : ip4;
  ts_src_port : Z;
  ts_dst_port : Z;
  ts_seq : Z;
  ts_ack : Z;
  ts_flags : Z;
  ts_advance : Z;
}.

(** ** Reading a frame *)

(** Four bytes as an address, when [get] has them. *)
Definition get4 (l : list Z) (i : nat) : option ip4 :=
  a ← l !! i; b ← l !! (i + 1)%nat; c ← l !! (i + 2)%nat; d ← l !! (i + 3)%nat; Some (Ip4 a b c d).

(** [parse_tcp_segment]. *)
Definition parse_tcp_segment (frame : list Z) : option TcpSegment :=
  eth ← get_range frame 0 ETH_HDR;
  e12 ← eth !! 12%nat; e13 ← eth !! 13%nat;
  if negb (be16 e12 e13 =? ETHERTYPE_IPV4) then None
  else
    ip ← get_range frame ETH_HDR (length frame);
    b0 ← ip !! 0%nat;
    let ihl := (Z.to_nat (Z.land b0 15) * 4)%nat in
    if (ihl <? 20)%nat then None
    else
    proto ← ip !! 9%nat;
    if negb (proto =? IPPROTO_TCP) then None
    else
      f0 ← ip !! 6%nat; f1 ← ip !! 7%nat;
      if negb (Z.land (be16 f0 f1) 16383 =? 0) then None
      else
        t0 ← ip !! 2%nat; t1 ← ip !! 3%nat;
        let total := Z.to_nat (be16 t0 t1) in
        tcp ← get_range ip ihl (Nat.min total (length ip));
        o ← tcp !! 12%nat;
        let data_offset := (Z.to_nat (Z.shiftr o 4) * 4)%nat in
        if (data_offset <? 20)%nat || (length tcp <? data_offset)%nat then None
        else
          flags ← tcp !! 13%nat;
          let payload := Z.of_nat (length tcp - data_offset) in
          let advance := u32_add (u32_add payload (Z.b2z (negb (Z.land flags TCP_SYN =? 0))))
                           (Z.b2z (negb (Z.land flags TCP_FIN =? 0))) in
          dst_mac ← get_range eth 0 6;
          src_mac ← get_range eth 6 12;
          src ← get4 ip 12;
          dst ← get4 ip 16;
          p0 ← tcp !! 0%nat; p1 ← tcp !! 1%nat;
          q0 ← tcp !! 2%nat; q1 ← tcp !! 3%nat;
          seq ← get4 tcp 4;
          ack ← get4 tcp 8;
          Some {| ts_dst_mac := dst_mac; ts_src_mac := src_mac; ts_src := src; ts_dst := dst;
                  ts_src_port := be16 p0 p1; ts_dst_port := be16 q0 q1;
                  ts_seq := ip4_u32 seq; ts_ack := ip4_u32 ack; ts_flags := flags; ts_advance := advance |}.

(** ** The table *)

Definition toward_key (seg : TcpSegment) : ForwardKey := (ts_dst seg, ts_dst_port seg, ts_src seg, ts_src_port seg).
Definition from_key (seg : TcpSegment) : ForwardKey := (ts_src seg, ts_src_port seg, ts_dst seg, ts_dst_port seg).

(** [ForwardedFlows]. *)
Notation ForwardedFlows := (gmap ForwardKey FlowTail).

Section table.
Context `{HashIter}.

(** [flows.iter().min_by_key(|(_, tail)| tail.seen)]. *)
Definition oldest_flow (flows : ForwardedFlows) : option ForwardKey :=
  match hash_iter flows with
  | [] => None
  | x :: l => Some (fold_left (fun best y => if tl_seen y.2 <? tl_seen best.2 then y else best) l x).1
  end.

(** [ForwardedFlows::observe_toward_box]. *)
Definition observe_toward_box (flows : ForwardedFlows) (seg : TcpSegment) (now : Z) : ForwardedFlows :=
  let key := toward_key seg in
  if has_flag (ts_flags seg) TCP_RST then delete key flows
  else
    let flows :=
      if bool_decide (flows !! key = None) && (FORWARDED_FLOWS_TRACKED <=? size flows)%nat then
        match oldest_flow flows with Some oldest => delete oldest flows | None => flows end
      else flows in
    let tail := default {| tl_box_mac := ts_dst_mac seg; tl_peer_mac := ts_src_mac seg;
                           tl_peer_ack := None; tl_box_next := None; tl_seen := now |} (flows !! key) in
    <[key := {| tl_box_mac := ts_dst_mac seg; tl_peer_mac := ts_src_mac seg;
                tl_peer_ack := if has_flag (ts_flags seg) TCP_ACK then Some (ts_ack seg) else tl_peer_ack tail;
                tl_box_next := tl_box_next tail; tl_seen := now |}]> flows.

(** [ForwardedFlows::observe_from_box]. *)
Definition observe_from_box (flows : ForwardedFlows) (seg : TcpSegment) (now : Z) : ForwardedFlows :=
  let key := from_key seg in
  if has_flag (ts_flags seg) TCP_RST then delete key flows
  else match flows !! key with
       | Some tail => <[key := {| tl_box_mac := tl_box_mac tail; tl_peer_mac := tl_peer_mac tail;
                                  tl_peer_ack := tl_peer_ack tail;
                                  tl_box_next := Some (u32_add (ts_seq seg) (ts_advance seg)); tl_seen := now |}]> flows
       | None => flows
       end.

(** [ForwardedFlows::take_at] and [take_at_port]: what is taken, and the
    rest. *)
Definition take_where (P : ForwardKey -> bool) (flows : ForwardedFlows) : ForwardedFlows * list (ForwardKey * FlowTail) :=
  let taken := filter (fun key => P key) (hash_iter flows).*1 in
  fold_left (fun acc key =>
    match acc.1 !! key with Some tail => (delete key acc.1, acc.2 ++ [(key, tail)]) | None => acc end) taken (flows, []).
Definition take_at (flows : ForwardedFlows) (addr : ip4) : ForwardedFlows * list (ForwardKey * FlowTail) :=
  take_where (fun key => bool_decide (key.1.1.1 = addr)) flows.
Definition take_at_port (flows : ForwardedFlows) (addr : ip4) (port : Z) : ForwardedFlows * list (ForwardKey * FlowTail) :=
  take_where (fun key => bool_decide (key.1.1.1 = addr) && bool_decide (key.1.1.2 = port)) flows.
End table.

(** ** Resets *)

(** [slice::chunks(2)], each chunk as its big-endian word. *)
Fixpoint chunk_words (l : list Z) : list Z :=
  match l with
  | high :: low :: l => be16 high low :: chunk_words l
  | [high] => [be16 high 0]
  | [] => []
  end.

(** The carry loop of [checksum]. *)
Fixpoint fold_sum (fuel : nat) (sum : Z) : outcome Z :=
  match fuel with
  | O => OutOfFuel
  | S fuel => if 65535 <? sum then fold_sum fuel (u32_add (Z.land sum 65535) (Z.shiftr sum 16)) else Done sum
  end.

(** [checksum]: three rounds settle every [u32]. *)
Definition checksum (bs : list Z) (initial : Z) : outcome Z :=
  let sum := fold_left u32_add (chunk_words bs) initial in
  sum ← fold_sum 3 sum;
  sum ← unwrap (if sum <=? 65535 then Some sum else None);
  Done (Z.lxor sum 65535).

Definition addr_words (a : ip4) : Z := be16 (oct0 a) (oct1 a) + be16 (oct2 a) (oct3 a).
Definition pseudo_header_sum (src dst : ip4) (tcp_len : Z) : Z :=
  addr_words src + addr_words dst + IPPROTO_TCP + tcp_len.

(** The headers [rst_frame] builds, with the given checksums. *)
Definition rst_ip_header (box_addr peer_addr : ip4) (sum : Z) : list Z :=
  [69; 0] ++ be16_bytes 40 ++ be16_bytes 0 ++ be16_bytes 16384 ++ [64; IPPROTO_TCP] ++ be16_bytes sum ++
  octets box_addr ++ octets peer_addr.
Definition rst_tcp_header (box_port peer_port seq sum : Z) : list Z :=
  be16_bytes box_port ++ be16_bytes peer_port ++ be32_bytes seq ++ be32_bytes 0 ++ [80; TCP_RST] ++ be16_bytes 0 ++
  be16_bytes sum ++ be16_bytes 0.

(** [rst_frame]. *)
Definition rst_frame (key : ForwardKey) (tail : FlowTail) (seq : Z) : outcome (list Z) :=
  let '(box_addr, box_port, peer_addr, peer_port) := key in
  ip_sum ← checksum (rst_ip_header box_addr peer_addr 0) 0;
  let pseudo := pseudo_header_sum box_addr peer_addr 20 in
  tcp_sum ← checksum (rst_tcp_header box_port peer_port seq 0) pseudo;
  Done (tl_peer_mac tail ++ tl_box_mac tail ++ be16_bytes ETHERTYPE_IPV4 ++
        rst_ip_header box_addr peer_addr ip_sum ++ rst_tcp_header box_port peer_port seq tcp_sum).

Definition opt_list {A} (o : option A) : list A := match o with Some a => [a] | None => [] end.

(** [reset_frames]. *)
Definition reset_seqs (tail : FlowTail) : list Z := vec_dedup (opt_list (tl_box_next tail) ++ opt_list (tl_peer_ack tail)).
Definition reset_frames (key : ForwardKey) (tail : FlowTail) : outcome (list (list Z)) :=
  foldM (fun acc seq => f ← rst_frame key tail seq; Done (acc ++ [f])) [] (reset_seqs tail).

(** [challenge_reset]: the reset, and the flows answered so far. *)
Definition challenge_reset (frame : list Z) (flows : list (ForwardKey * FlowTail)) (answered : gset ForwardKey)
    : outcome (gset ForwardKey * option (list Z)) :=
  match parse_tcp_segment frame with
  | None => Done (answered, None)
  | Some seg =>
      if negb (has_flag (ts_flags seg) TCP_ACK) || has_flag (ts_flags seg) (Z.lor TCP_RST TCP_SYN) then Done (answered, None)
      else
        let key := toward_key seg in
        match List.find (fun p => bool_decide (p.1 = key)) flows with
        | None => Done (answered, None)
        | Some (_, tail) =>
            if bool_decide (key ∈ answered) then Done (answered, None)
            else
              let tail := {| tl_box_mac := ts_dst_mac seg; tl_peer_mac := ts_src_mac seg;
                             tl_peer_ack := tl_peer_ack tail; tl_box_next := tl_box_next tail; tl_seen := tl_seen tail |} in
              f ← rst_frame key tail (ts_ack seg);
              Done ({[key]} ∪ answered, Some f)
        end
  end.

(** ** The exchange *)

(** [u16::to_le_bytes]. *)
Definition le16_bytes (n : Z) : list Z := [Z.land n 255; Z.land (Z.shiftr n 8) 255].

(** [frame_onto]: [None] when a frame is too long for its length field. *)
Fixpoint frame_onto (stream : list Z) (frames : list (list Z)) : option (list Z) :=
  match frames with
  | [] => Some stream
  | frame :: frames =>
      if (65535 <? Z.of_nat (length frame)) then None
      else frame_onto (stream ++ le16_bytes (Z.of_nat (length frame)) ++ frame) frames
  end.

(** [take_frame]: the frame and what is left of the buffer. *)
Definition take_frame (buf : list Z) : option (list Z * list Z) :=
  l0 ← buf !! 0%nat; l1 ← buf !! 1%nat;
  let len := Z.to_nat (be16 l1 l0) in
  frame ← get_range buf 2 (2 + len);
  Some (frame, drop (2 + len) buf).

(** [arp_probe]. *)
Definition arp_probe (key : ForwardKey) (tail : FlowTail) : list Z :=
  let '(box_addr, _, peer_addr, _) := key in
  replicate 6 255 ++ tl_box_mac tail ++ be16_bytes ETHERTYPE_ARP ++ be16_bytes 1 ++ be16_bytes ETHERTYPE_IPV4 ++ [6; 4] ++
  be16_bytes ARP_REQUEST ++ tl_box_mac tail ++ octets box_addr ++ replicate 6 0 ++ octets peer_addr.

(** [is_probe_answer]. *)
Definition is_probe_answer (frame : list Z) (key : ForwardKey) (tail : FlowTail) : bool :=
  let '(_, _, peer_addr, _) := key in
  bool_decide (get_range frame 12 14 = Some (be16_bytes ETHERTYPE_ARP)) &&
  bool_decide (get_range frame (ETH_HDR + 6) (ETH_HDR + 8) = Some (be16_bytes ARP_REPLY)) &&
  bool_decide (get_range frame (ETH_HDR + 14) (ETH_HDR + 18) = Some (octets peer_addr)) &&
  bool_decide (get_range frame (ETH_HDR + 18) (ETH_HDR + 24) = Some (tl_box_mac tail)).

(** The inner loop of [inject]: every whole frame in the buffer is taken, and
    each challenge answered.  The buffer left, the flows answered, and the
    bytes written; [None] when a reset would not fit its length field. *)
Fixpoint answer_frames (fuel : nat) (flows : list (ForwardKey * FlowTail)) (buf : list Z) (answered : gset ForwardKey)
    (written : list Z) : outcome (option (list Z * gset ForwardKey * list Z)) :=
  match fuel with
  | O => OutOfFuel
  | S fuel =>
      match take_frame buf with
      | None => Done (Some (buf, answered, written))
      | Some (frame, buf) =>
          r ← challenge_reset frame flows answered;
          match r.2 with
          | Some reset =>
              match frame_onto [] [reset] with
              | None => Done None
              | Some framed => answer_frames fuel flows buf r.1 (written ++ framed)
              end
          | None => answer_frames fuel flows buf r.1 written
          end
      end
  end.

(** The outer loop: the reads until the window closes (the list ends), the
    switch closes (an empty read), or every flow is answered. *)
Fixpoint answer_challenges (flows : list (ForwardKey * FlowTail)) (reads : list (list Z)) (buf : list Z)
    (answered : gset ForwardKey) (written : list Z) : outcome (option (gset ForwardKey * list Z)) :=
  if (length flows <=? size answered)%nat then Done (Some (answered, written))
  else match reads with
       | [] | [] :: _ => Done (Some (answered, written))
       | chunk :: reads =>
           let buf := buf ++ chunk in
           r ← answer_frames (S (length buf)) flows buf answered written;
           match r with
           | Some (buf, answered, written) => answer_challenges flows reads buf answered written
           | None => Done None
           end
       end.

(** [inject], over a dialled connection that has already read [buf]: what is
    written, and how many challenges are answered. *)
Definition inject (flows : list (ForwardKey * FlowTail)) (buf : list Z) (reads : list (list Z))
    : outcome (option (nat * list Z)) :=
  match flows with
  | [] => Done (Some (0%nat, []))
  | _ =>
      resets ← foldM (fun (acc : list (list Z)) (p : ForwardKey * FlowTail) => fs ← reset_frames p.1 p.2; Done (acc ++ fs)) [] flows;
      match frame_onto [] resets with
      | None => Done None
      | Some stream =>
          r ← answer_challenges flows reads buf ∅ stream;
          Done ((fun x : gset ForwardKey * list Z => (size x.1, x.2)) <$> r)
      end
  end.

(** * Theorems on ingress revocation

    What the table knows of a connection is what the frames last said; a
    box's end takes every connection of that box and no other; each reset is
    a well-formed frame the switch reads as the end of that connection; and
    a challenge is answered once. *)

(** ** The bytes of a reset *)

Lemma chunk_words_sum bs : forall init, Forall is_u8 bs -> 0 <= init ->
  init + 65535 * Z.of_nat (length bs) < 4294967296 ->
  fold_left u32_add (chunk_words bs) init = init + word_total bs.
Proof.
  induction bs as [|a|a b bs IH] using list_pair_ind; intros init Hu Hi Hb; cbn [chunk_words fold_left word_total].
  - lia.
  - apply list.Forall_cons in Hu as [Ha _]. rewrite be16_val by (done || unfold is_u8; lia).
    unfold is_u8 in Ha. cbn [length] in Hb. rewrite u32_add_small; lia.
  - apply list.Forall_cons in Hu as [Ha Hu]. apply list.Forall_cons in Hu as [Hb' Hu]. cbn [length] in Hb.
    rewrite be16_val by done. unfold is_u8 in Ha, Hb'. rewrite u32_add_small by lia. rewrite IH by (done || lia). lia.
Qed.

Lemma fold_sum_carries fuel : forall s, 0 <= s < 4294967296 -> fold_sum fuel s = fold_carries fuel s.
Proof.
  induction fuel as [|fuel IH]; intros s Hs; [done|]. rewrite fold_carries_S by done. cbn [fold_sum].
  destruct (65535 <? s) eqn:E1, (65536 <=? s) eqn:E2; bool_to_prop; try lia; [|done].
  apply IH. destruct (carry_round s ltac:(lia)) as (-> & _ & Hb). lia.
Qed.

(** [checksum] returns what the words and the seed lack to a multiple of
    [0xffff]. *)
Lemma checksum_spec bs init : Forall is_u8 bs -> 0 <= init ->
  init + 65535 * Z.of_nat (length bs) < 4294967296 ->
  exists c, checksum bs init = Done c /\ is_u16 c /\ (init + word_total bs + c) mod 65535 = 0.
Proof.
  intros Hu Hi Hb. pose proof (word_total_bounds bs Hu). unfold checksum. rewrite chunk_words_sum by done.
  destruct (ones_complement_spec (init + word_total bs) ltac:(lia)) as (c & Hc & Hu16 & Hm & _).
  exists c. split; [|done]. unfold ones_complement in Hc. cbv zeta. rewrite fold_sum_carries by lia.
  destruct (fold_carries_spec (init + word_total bs) ltac:(lia)) as (f & Hf & Hfu & _). rewrite Hf in *.
  rewrite bind_Done in *. unfold is_u16 in Hfu. rewrite (proj2 (Z.leb_le f 65535)) by lia. cbn [unwrap]. rewrite bind_Done.
  rewrite <- Hc. do 2 f_equal. change 65535 with (Z.ones 16). rewrite Z.land_ones by lia. by rewrite Z.mod_small.
Qed.

Lemma rst_ip_u8 box_addr peer_addr sum : ip4_wf box_addr -> ip4_wf peer_addr -> Forall is_u8 (rst_ip_header box_addr peer_addr sum).
Proof.
  intros Hb Hp. unfold rst_ip_header. rewrite !list.Forall_app.
  split_and!; auto using be16_bytes_u8, octets_u8; apply (bool_decide_unpack _); by vm_compute.
Qed.

Lemma rst_tcp_u8 box_port peer_port seq sum : Forall is_u8 (rst_tcp_header box_port peer_port seq sum).
Proof.
  unfold rst_tcp_header. rewrite !list.Forall_app.
  split_and!; auto using be16_bytes_u8, be32_bytes_u8; apply (bool_decide_unpack _); by vm_compute.
Qed.

Lemma rst_ip_total box_addr peer_addr sum : is_u16 sum ->
  word_total (rst_ip_header box_addr peer_addr sum) = sum + word_total (rst_ip_header box_addr peer_addr 0) /\
  word_total (rst_ip_header box_addr peer_addr 0) = 50478 + word_total (octets box_addr) + word_total (octets peer_addr).
Proof.
  intros Hs. unfold rst_ip_header. split_words. rewrite (word_total_be16 sum) by done.
  change (word_total [69; 0]) with 17664. change (word_total (be16_bytes 40)) with 40. change (word_total (be16_bytes 0)) with 0.
  change (word_total (be16_bytes 16384)) with 16384. change (word_total [64; IPPROTO_TCP]) with 16390. lia.
Qed.

Lemma rst_tcp_total box_port peer_port seq sum : is_u16 sum ->
  word_total (rst_tcp_header box_port peer_port seq sum) = sum + word_total (rst_tcp_header box_port peer_port seq 0).
Proof.
  intros Hs. unfold rst_tcp_header. split_words. rewrite (word_total_be16 sum) by done.
  change (word_total (be16_bytes 0)) with 0. lia.
Qed.

Lemma addr_words_total a : ip4_wf a -> addr_words a = word_total (octets a).
Proof. intros (H0 & H1 & H2 & H3). unfold addr_words, octets. rewrite !be16_val by done. cbn [word_total]. lia. Qed.

(** What the types hold of a key and a tail. *)
Definition key_wf (k : ForwardKey) : Prop :=
  ip4_wf k.1.1.1 /\ is_u16 k.1.1.2 /\ ip4_wf k.1.2 /\ is_u16 k.2.
Definition macs_wf (tail : FlowTail) : Prop := length (tl_box_mac tail) = 6%nat /\ length (tl_peer_mac tail) = 6%nat.

(** The segment a reset for a connection is. *)
Definition rst_segment (k : ForwardKey) (tail : FlowTail) (seq : Z) : TcpSegment :=
  {| ts_dst_mac := tl_peer_mac tail; ts_src_mac := tl_box_mac tail; ts_src := k.1.1.1; ts_dst := k.1.2;
     ts_src_port := k.1.1.2; ts_dst_port := k.2; ts_seq := seq; ts_ack := 0; ts_flags := TCP_RST; ts_advance := 0 |}.

Lemma parse_rst_bytes d0 d1 d2 d3 d4 d5 s0 s1 s2 s3 s4 s5 k0 k1 a0 a1 a2 a3 b0 b1 b2 b3 p0 p1 q0 q1 n0 n1 n2 n3 j0 j1 :
  parse_tcp_segment [d0; d1; d2; d3; d4; d5; s0; s1; s2; s3; s4; s5; 8; 0;
            69; 0; 0; 40; 0; 0; 64; 0; 64; 6; k0; k1; a0; a1; a2; a3; b0; b1; b2; b3;
            p0; p1; q0; q1; n0; n1; n2; n3; 0; 0; 0; 0; 80; 4; 0; 0; j0; j1; 0; 0] =
  Some {| ts_dst_mac := [d0; d1; d2; d3; d4; d5]; ts_src_mac := [s0; s1; s2; s3; s4; s5];
          ts_src := Ip4 a0 a1 a2 a3; ts_dst := Ip4 b0 b1 b2 b3; ts_src_port := be16 p0 p1; ts_dst_port := be16 q0 q1;
          ts_seq := ip4_u32 (Ip4 n0 n1 n2 n3); ts_ack := 0; ts_flags := 4; ts_advance := 0 |}.
Proof. reflexivity. Qed.

Lemma parse_rst k tail seq c1 c2 : is_u16 k.1.1.2 -> is_u16 k.2 -> macs_wf tail -> is_u32 seq ->
  parse_tcp_segment (tl_peer_mac tail ++ tl_box_mac tail ++ be16_bytes ETHERTYPE_IPV4 ++
    rst_ip_header k.1.1.1 k.1.2 c1 ++ rst_tcp_header k.1.1.2 k.2 seq c2) = Some (rst_segment k tail seq).
Proof.
  destruct k as [[[[a0 a1 a2 a3] p] [b0 b1 b2 b3]] q]. destruct tail as [bm pm pa bn seen]. unfold macs_wf, rst_segment.
  cbn [fst snd tl_box_mac tl_peer_mac]. intros Hp Hq [Hb Hm] Hs.
  do 7 (destruct bm as [|? bm]; try discriminate Hb). do 7 (destruct pm as [|? pm]; try discriminate Hm).
  etransitivity; [apply parse_rst_bytes|]. by rewrite !be16_be16_bytes, be32_bytes_val.
Qed.

Definition ip_of (f : list Z) : list Z := take 20 (drop 14 f).
Definition tcp_of (f : list Z) : list Z := drop 34 f.

(** A reset is a frame the switch's stack reads as the end of exactly that
    connection, at exactly that number, with checksums that verify. *)
Lemma rst_frame_spec k tail seq : key_wf k -> macs_wf tail -> is_u32 seq ->
  exists f, rst_frame k tail seq = Done f /\ length f = 54%nat /\ parse_tcp_segment f = Some (rst_segment k tail seq) /\
    checksum_ok (ip_of f) /\ checksum_ok (pseudo_header k.1.1.1 k.1.2 20 ++ tcp_of f).
Proof.
  intros (Hba & Hbp & Hpa & Hpp) Hm Hs. unfold rst_frame.
  pose proof (word_total_bounds _ (octets_u8 _ Hba)) as Wb. pose proof (word_total_bounds _ (octets_u8 _ Hpa)) as Wp.
  change (length (octets k.1.1.1)) with 4%nat in Wb. change (length (octets k.1.2)) with 4%nat in Wp.
  destruct (checksum_spec (rst_ip_header k.1.1.1 k.1.2 0) 0 (rst_ip_u8 _ _ 0 Hba Hpa)) as (c1 & Hc1 & U1 & M1);
    [lia|change (length (rst_ip_header k.1.1.1 k.1.2 0)) with 20%nat; lia|].
  set (pseudo := pseudo_header_sum k.1.1.1 k.1.2 20).
  assert (Hps : pseudo = word_total (pseudo_header k.1.1.1 k.1.2 20)).
  { unfold pseudo, pseudo_header_sum, pseudo_header. rewrite !addr_words_total by done. split_words.
    change (word_total [0; 6]) with 6. change (word_total (be16_bytes 20)) with 20. unfold IPPROTO_TCP. lia. }
  assert (Hpb : 26 <= pseudo <= 600000).
  { unfold pseudo, pseudo_header_sum. rewrite !addr_words_total by done. unfold IPPROTO_TCP. lia. }
  destruct (checksum_spec (rst_tcp_header k.1.1.2 k.2 seq 0) pseudo (rst_tcp_u8 _ _ _ 0)) as (c2 & Hc2 & U2 & M2);
    [lia|change (length (rst_tcp_header k.1.1.2 k.2 seq 0)) with 20%nat; lia|].
  destruct k as [[[ba bp] pa] pp]. cbn [fst snd] in *. fold pseudo. rewrite Hc1, bind_Done, Hc2, bind_Done.
  destruct (rst_ip_total ba pa c1 U1) as [T1 T0]. pose proof (rst_tcp_total bp pp seq c2 U2) as T2.
  pose proof (word_total_bounds _ (rst_tcp_u8 bp pp seq 0)) as Wt.
  eexists. split; [reflexivity|]. destruct Hm as [Hbm Hpm].
  split; [by rewrite !length_app, Hbm, Hpm|]. split; [by apply (parse_rst (ba, bp, pa, pp) tail seq c1 c2)|].
  assert (Hcut : forall ip tcp, length ip = 20%nat ->
    ip_of (tl_peer_mac tail ++ tl_box_mac tail ++ be16_bytes ETHERTYPE_IPV4 ++ ip ++ tcp) = ip /\
    tcp_of (tl_peer_mac tail ++ tl_box_mac tail ++ be16_bytes ETHERTYPE_IPV4 ++ ip ++ tcp) = tcp).
  { intros ip tcp Hip. unfold ip_of, tcp_of. rewrite (app_assoc (tl_peer_mac tail)), (app_assoc (_ ++ _) (be16_bytes _)).
    split; [by rewrite drop_app_length', take_app_length' by (by rewrite ?length_app, ?Hpm, ?Hbm)|].
    rewrite app_assoc. by rewrite drop_app_length' by (by rewrite !length_app, Hpm, Hbm, Hip). }
  destruct (Hcut (rst_ip_header ba pa c1) (rst_tcp_header bp pp seq c2) eq_refl) as [-> ->].
  unfold checksum_ok. rewrite word_total_app by (by exists 6%nat). rewrite T1, T2, <- Hps. unfold is_u16 in *.
  split; (split; [lia|]).
  - etransitivity; [|exact M1]. f_equal. lia.
  - etransitivity; [|exact M2]. f_equal. lia.
Qed.

(** ** Histories of the table *)

Inductive FlowOp : Type :=
| OToward (seg : TcpSegment) (now : Z)
| OFrom (seg : TcpSegment) (now : Z)
| OTakeAt (addr : ip4)
| OTakeAtPort (addr : ip4) (port : Z).

(** The segments of one connection in a history: the switch's, those of them
    that acknowledge, and the box's. *)
Definition toward_of (k : ForwardKey) (o : FlowOp) : option TcpSegment :=
  match o with OToward seg _ => if decide (toward_key seg = k) then Some seg else None | _ => None end.
Definition acked_of (k : ForwardKey) (o : FlowOp) : option TcpSegment :=
  match o with
  | OToward seg _ => if decide (toward_key seg = k) then if has_flag (ts_flags seg) TCP_ACK then Some seg else None else None
  | _ => None
  end.
Definition from_of (k : ForwardKey) (o : FlowOp) : option TcpSegment :=
  match o with OFrom seg _ => if decide (from_key seg = k) then Some seg else None | _ => None end.

Definition last_such {A} (f : FlowOp -> option A) (ops : list FlowOp) : option A := list.last (filter_map f ops).

(** What the table knows of a connection is what its frames last said. *)
Record tracked (ops : list FlowOp) (k : ForwardKey) (tail : FlowTail) : Prop := {
  tk_macs : exists seg, last_such (toward_of k) ops = Some seg /\
    tl_box_mac tail = ts_dst_mac seg /\ tl_peer_mac tail = ts_src_mac seg;
  tk_next : forall n, tl_box_next tail = Some n -> exists seg,
    last_such (from_of k) ops = Some seg /\ n = u32_add (ts_seq seg) (ts_advance seg);
  tk_ack : forall a, tl_peer_ack tail = Some a -> exists seg, last_such (acked_of k) ops = Some seg /\ a = ts_ack seg;
}.


Lemma last_such_snoc {A} (f : FlowOp -> option A) ops o :
  last_such f (ops ++ [o]) = match f o with Some a => Some a | None => last_such f ops end.
Proof. unfold last_such. rewrite filter_map_app. simpl. destruct (f o); [apply list.last_snoc|by rewrite app_nil_r]. Qed.

(** An operation that says nothing of a connection leaves it as it was. *)
Lemma tracked_other ops o k tail :
  toward_of k o = None -> acked_of k o = None -> from_of k o = None -> tracked ops k tail -> tracked (ops ++ [o]) k tail.
Proof. intros Ht Ha Hf [Hm Hn Hk]. constructor; rewrite last_such_snoc, ?Ht, ?Ha, ?Hf; assumption. Qed.

Section history.
Context `{HashIter}.

Lemma decide_cons_ne {B} (k x : ForwardKey) ks (a b : B) : k <> x ->
  (if decide (k ∈ x :: ks) then a else b) = (if decide (k ∈ ks) then a else b).
Proof.
  intros Hne. destruct (decide (k ∈ ks)).
  - by rewrite decide_True by (by right).
  - rewrite decide_False; [done|]. by intros [?|?]%elem_of_cons.
Qed.

Lemma take_fold ks : forall (m : ForwardedFlows) acc,
  let r := fold_left (fun a key => match a.1 !! key with Some t => (delete key a.1, a.2 ++ [(key, t)]) | None => a end) ks (m, acc) in
  (forall k, r.1 !! k = if decide (k ∈ ks) then None else m !! k) /\
  (forall k t, (k, t) ∈ r.2 <-> (k, t) ∈ acc \/ (k ∈ ks /\ m !! k = Some t)).
Proof.
  induction ks as [|x ks IH]; intros m acc; cbn [fold_left fst snd].
  { split; [done|]. intros k t. split; [by left|]. intros [?|[Hin _]]; [done|by apply elem_of_nil in Hin]. }
  destruct (m !! x) as [t|] eqn:Hx.
  - destruct (IH (delete x m) (acc ++ [(x, t)])) as [H1 H2]. split.
    + intros k. rewrite H1. destruct (decide (k = x)) as [->|Hne].
      * rewrite lookup_delete_eq, (decide_True (P := x ∈ x :: ks)) by (by left). by destruct (decide _).
      * rewrite lookup_delete_ne by done. by rewrite (decide_cons_ne k x ks).
    + intros k t'. rewrite H2, elem_of_app, list_elem_of_singleton, elem_of_cons.
      destruct (decide (k = x)) as [->|Hne]; [rewrite lookup_delete_eq|rewrite lookup_delete_ne by done]; naive_solver.
  - destruct (IH m acc) as [H1 H2]. split.
    + intros k. rewrite H1. destruct (decide (k = x)) as [->|Hne].
      * rewrite (decide_True (P := x ∈ x :: ks)) by (by left). by destruct (decide _).
      * by rewrite (decide_cons_ne k x ks).
    + intros k t'. rewrite H2, elem_of_cons. naive_solver.
Qed.

Lemma elem_of_keys (m : ForwardedFlows) k : k ∈ (hash_iter m).*1 <-> is_Some (m !! k).
Proof.
  rewrite list_elem_of_fmap. split.
  - intros ([k' t] & -> & Hin). apply elem_of_hash_iter in Hin. by exists t.
  - intros [t Ht]. exists (k, t). split; [done|]. by apply elem_of_hash_iter.
Qed.

Lemma take_where_spec (P : ForwardKey -> bool) (m : ForwardedFlows) :
  (forall k, (take_where P m).1 !! k = if P k then None else m !! k) /\
  (forall k t, (k, t) ∈ (take_where P m).2 <-> P k = true /\ m !! k = Some t).
Proof.
  unfold take_where. destruct (take_fold (filter (fun key => P key) (hash_iter m).*1) m []) as [H1 H2]. split.
  - intros k. rewrite H1. destruct (P k) eqn:Hp.
    + destruct (decide _) as [|Hn]; [done|]. destruct (m !! k) as [t|] eqn:Hk; [|done]. destruct Hn.
      apply list_elem_of_filter. rewrite Hp. split; [done|]. apply elem_of_keys. by exists t.
    + rewrite decide_False; [done|]. intros [Hin _]%list_elem_of_filter. by rewrite Hp in Hin.
  - intros k t. rewrite H2, elem_of_nil, list_elem_of_filter, Is_true_true, elem_of_keys. split.
    + intros [[]|[[? _] ?]]. done.
    + intros [? Ht]. right. split; [split; [done|by exists t]|done].
Qed.

Definition flows_step (m : ForwardedFlows) (o : FlowOp) : ForwardedFlows * list (ForwardKey * FlowTail) :=
  match o with
  | OToward seg now => (observe_toward_box m seg now, [])
  | OFrom seg now => (observe_from_box m seg now, [])
  | OTakeAt addr => take_at m addr
  | OTakeAtPort addr port => take_at_port m addr port
  end.

Record flows_inv (ops : list FlowOp) (m : ForwardedFlows) : Prop := {
  fi_size : (size m <= FORWARDED_FLOWS_TRACKED)%nat;
  fi_tracked : forall k t, m !! k = Some t -> tracked ops k t;
}.

Lemma oldest_flow_spec (m : ForwardedFlows) : (0 < size m)%nat -> exists k, oldest_flow m = Some k /\ is_Some (m !! k).
Proof.
  intros Hsz. unfold oldest_flow. destruct (hash_iter m) as [|x l] eqn:E.
  - assert (Hnil : map_to_list m = []) by (apply Permutation_nil; rewrite <- E; apply hash_iter_perm).
    apply map_to_list_empty_iff in Hnil. rewrite Hnil, map_size_empty in Hsz. lia.
  - eexists. split; [reflexivity|]. set (best := fold_left _ l x).
    assert (Hin : best ∈ x :: l).
    { unfold best. clear best E. revert x. induction l as [|y l IH]; intros x; cbn [fold_left]; [by left|].
      specialize (IH (if tl_seen y.2 <? tl_seen x.2 then y else x)).
      apply elem_of_cons in IH as [->|IH]; [|by do 2 right]. destruct (_ <? _); [right; left|left]. }
    rewrite <- E in Hin. destruct best as [k t]. apply elem_of_hash_iter in Hin. by exists t.
Qed.

(** The table after room is made for a new connection. *)
Definition make_room (m : ForwardedFlows) (key : ForwardKey) : ForwardedFlows :=
  if bool_decide (m !! key = None) && (FORWARDED_FLOWS_TRACKED <=? size m)%nat then
    match oldest_flow m with Some oldest => delete oldest m | None => m end
  else m.

Lemma make_room_spec (m : ForwardedFlows) key : (size m <= FORWARDED_FLOWS_TRACKED)%nat ->
  (forall k t, make_room m key !! k = Some t -> m !! k = Some t) /\
  (forall tail, (size (<[key := tail]> (make_room m key)) <= FORWARDED_FLOWS_TRACKED)%nat).
Proof.
  intros Hsz. assert (Hcap : (0 < FORWARDED_FLOWS_TRACKED)%nat) by (unfold FORWARDED_FLOWS_TRACKED; lia).
  unfold make_room. case_bool_decide as Hk; cbn [andb].
  - destruct (_ <=? _)%nat eqn:E; nat_tests.
    + destruct (oldest_flow_spec m ltac:(lia)) as (old & -> & [t Ht]). split.
      * intros k t' Hl. by apply lookup_delete_Some in Hl as [_ ?].
      * intros tail. rewrite map_size_insert_None by (apply lookup_delete_None; auto).
        rewrite map_size_delete, Ht. lia.
    + split; [done|]. intros tail. rewrite map_size_insert_None by done. lia.
  - split; [done|]. intros tail. destruct (m !! key) as [t|] eqn:E; [|done]. rewrite map_size_insert, E. done.
Qed.

Lemma step_toward ops m seg now : flows_inv ops m -> flows_inv (ops ++ [OToward seg now]) (observe_toward_box m seg now).
Proof.
  intros [Hsz Htr]. unfold observe_toward_box. fold (make_room m (toward_key seg)).
  assert (Hother : forall k t, k <> toward_key seg -> m !! k = Some t -> tracked (ops ++ [OToward seg now]) k t)
    by (intros k t Hne Hl; apply tracked_other; [cbn; by rewrite decide_False by done..|done|by apply Htr]).
  destruct (has_flag (ts_flags seg) TCP_RST).
  { constructor; [etransitivity; [apply map_subseteq_size, delete_subseteq|done]|]. intros k t [Hne Hl]%lookup_delete_Some. auto. }
  destruct (make_room_spec m (toward_key seg) Hsz) as [Hsub Hsize]. constructor; [apply Hsize|].
  intros k t Hl. apply lookup_insert_Some in Hl as [[<- <-]|[Hne Hl]]; [|by auto].
  set (old := make_room m (toward_key seg) !! toward_key seg). constructor; rewrite last_such_snoc; cbn [toward_of acked_of from_of].
  - rewrite decide_True by done. by exists seg.
  - cbn [tl_box_next]. intros n Hn. destruct old as [t|] eqn:E; [|done]. apply Hsub, Htr in E. by apply (tk_next _ _ _ E).
  - rewrite decide_True by done. cbn [tl_peer_ack]. destruct (has_flag _ TCP_ACK); [intros a [= <-]; by exists seg|].
    intros a Ha. destruct old as [t|] eqn:E; [|done]. apply Hsub, Htr in E. by apply (tk_ack _ _ _ E).
Qed.

Lemma step_from ops m seg now : flows_inv ops m -> flows_inv (ops ++ [OFrom seg now]) (observe_from_box m seg now).
Proof.
  intros [Hsz Htr]. unfold observe_from_box.
  assert (Hother : forall k t, k <> from_key seg -> m !! k = Some t -> tracked (ops ++ [OFrom seg now]) k t)
    by (intros k t Hne Hl; apply tracked_other; [done|done|cbn; by rewrite decide_False by done|by apply Htr]).
  destruct (has_flag (ts_flags seg) TCP_RST).
  { constructor; [etransitivity; [apply map_subseteq_size, delete_subseteq|done]|]. intros k t [Hne Hl]%lookup_delete_Some. auto. }
  destruct (m !! from_key seg) as [old|] eqn:E.
  - constructor; [rewrite map_size_insert, E; done|]. intros k t Hl.
    apply lookup_insert_Some in Hl as [[<- <-]|[Hne Hl]]; [|by auto]. pose proof (Htr _ _ E) as [Hm Hn Ha].
    constructor; rewrite last_such_snoc; cbn [toward_of acked_of from_of]; [done| |done].
    rewrite decide_True by done. cbn [tl_box_next]. intros n [= <-]. by exists seg.
  - constructor; [done|]. intros k t Hl. apply Hother; [|done]. intros ->. by rewrite E in Hl.
Qed.

Lemma step_take ops m o P : (forall k, toward_of k o = None /\ acked_of k o = None /\ from_of k o = None) ->
  flows_inv ops m -> flows_inv (ops ++ [o]) (take_where P m).1.
Proof.
  intros Ho [Hsz Htr]. destruct (take_where_spec P m) as [H1 _].
  assert (Hsub : (take_where P m).1 ⊆ m).
  { apply map_subseteq_spec. intros k t. rewrite H1. by destruct (P k). }
  constructor; [apply map_subseteq_size in Hsub; lia|]. intros k t Hl. destruct (Ho k) as (? & ? & ?).
  apply tracked_other; [done..|]. apply Htr. by apply (lookup_weaken _ _ _ _ Hl Hsub).
Qed.

Lemma flows_history ops : flows_inv ops (run_state flows_step ∅ ops).
Proof.
  induction ops as [|o ops IH] using rev_ind.
  - unfold run_state. cbn [run fst]. constructor; [rewrite map_size_empty; unfold FORWARDED_FLOWS_TRACKED; lia|]. intros k t Hl. by rewrite lookup_empty in Hl.
  - rewrite run_state_app. rewrite run_state_cons. unfold run_state at 1. cbn [run fst].
    destruct o as [seg now|seg now|addr|addr port]; cbn [flows_step fst].
    + by apply step_toward.
    + by apply step_from.
    + by apply step_take.
    + by apply step_take.
Qed.

(** ** Segments read from frames *)

Record seg_wf (seg : TcpSegment) : Prop := {
  sw_dst_mac : length (ts_dst_mac seg) = 6%nat;
  sw_src_mac : length (ts_src_mac seg) = 6%nat;
  sw_src : ip4_wf (ts_src seg);
  sw_dst : ip4_wf (ts_dst seg);
  sw_src_port : is_u16 (ts_src_port seg);
  sw_dst_port : is_u16 (ts_dst_port seg);
  sw_ack : is_u32 (ts_ack seg);
}.

Lemma get_range_u8 l a b r : Forall is_u8 l -> get_range l a b = Some r -> Forall is_u8 r /\ length r = (b - a)%nat.
Proof.
  intros Hu [Hb ->]%get_range_Some. split; [by apply list.Forall_take, list.Forall_drop|].
  rewrite length_take, length_drop. lia.
Qed.

Lemma lookup_u8 (l : list Z) i b : Forall is_u8 l -> l !! i = Some b -> is_u8 b.
Proof. intros Hu Hl. by apply (Forall_lookup_1 _ _ _ _ Hu Hl). Qed.

Lemma get4_wf l i a : Forall is_u8 l -> get4 l i = Some a -> ip4_wf a.
Proof.
  intros Hu H1. unfold get4 in H1. repeat (apply bind_Some in H1 as (? & ? & H1)). injection H1 as <-.
  unfold ip4_wf. cbn [oct0 oct1 oct2 oct3]. split_and!; by eapply lookup_u8.
Qed.

Lemma parse_tcp_segment_wf frame seg : Forall is_u8 frame -> parse_tcp_segment frame = Some seg -> seg_wf seg.
Proof.
  intros Hu H1. unfold parse_tcp_segment in H1.
  apply bind_Some in H1 as (eth & Heth & H1). apply (get_range_u8 _ _ _ _ Hu) in Heth as [Heth _].
  do 2 (apply bind_Some in H1 as (? & _ & H1)). destruct (negb _); [done|].
  apply bind_Some in H1 as (ip & Hip & H1). apply (get_range_u8 _ _ _ _ Hu) in Hip as [Hip _].
  apply bind_Some in H1 as (? & _ & H1). destruct (_ <? 20)%nat; [done|].
  apply bind_Some in H1 as (? & _ & H1). destruct (negb _); [done|].
  do 2 (apply bind_Some in H1 as (? & _ & H1)). destruct (negb _); [done|].
  do 2 (apply bind_Some in H1 as (? & _ & H1)).
  apply bind_Some in H1 as (tcp & Htcp & H1). apply (get_range_u8 _ _ _ _ Hip) in Htcp as [Htcp _].
  apply bind_Some in H1 as (? & _ & H1). destruct (_ || _); [done|]. apply bind_Some in H1 as (? & _ & H1).
  apply bind_Some in H1 as (dm & Hdm & H1). apply (get_range_u8 _ _ _ _ Heth) in Hdm as [_ Hdm].
  apply bind_Some in H1 as (sm & Hsm & H1). apply (get_range_u8 _ _ _ _ Heth) in Hsm as [_ Hsm].
  apply bind_Some in H1 as (src & Hsrc & H1). apply (get4_wf _ _ _ Hip) in Hsrc.
  apply bind_Some in H1 as (dst & Hdst & H1). apply (get4_wf _ _ _ Hip) in Hdst.
  do 4 (apply bind_Some in H1 as (? & ?%(lookup_u8 _ _ _ Htcp) & H1)).
  apply bind_Some in H1 as (sq & _ & H1).
  apply bind_Some in H1 as (ak & Hak & H1). apply (get4_wf _ _ _ Htcp) in Hak. injection H1 as <-.
  constructor; cbn; try done; by first [apply be16_u16 | apply ip4_u32_range].
Qed.

(** The segments of a history were read from frames. *)
Definition read_from_frame (seg : TcpSegment) : Prop :=
  exists frame, Forall is_u8 frame /\ parse_tcp_segment frame = Some seg.
Definition op_wf (o : FlowOp) : Prop :=
  match o with OToward seg _ | OFrom seg _ => read_from_frame seg | _ => True end.

Lemma last_such_elem {A} (f : FlowOp -> option A) ops a : last_such f ops = Some a -> exists o, o ∈ ops /\ f o = Some a.
Proof.
  unfold last_such. intros Hl. apply list.last_Some in Hl as [l' Hl]. apply elem_of_filter_map. rewrite Hl.
  apply elem_of_snoc_new.
Qed.

Lemma toward_wf ops k seg : Forall op_wf ops -> last_such (toward_of k) ops = Some seg -> toward_key seg = k /\ seg_wf seg.
Proof.
  intros Hops Hl. apply last_such_elem in Hl as (o & Ho & Hf). rewrite list.Forall_forall in Hops. apply Hops in Ho.
  destruct o as [s now| | |]; try done. cbn in Hf. destruct (decide _) as [Hk|]; [|done]. injection Hf as ->.
  split; [done|]. destruct Ho as (frame & Hu & Hp). by eapply parse_tcp_segment_wf.
Qed.

Lemma acked_wf ops k seg : Forall op_wf ops -> last_such (acked_of k) ops = Some seg -> seg_wf seg.
Proof.
  intros Hops Hl. apply last_such_elem in Hl as (o & Ho & Hf). rewrite list.Forall_forall in Hops. apply Hops in Ho.
  destruct o as [s now| | |]; try done. cbn in Hf. destruct (decide _); [|done]. destruct (has_flag _ _); [|done].
  injection Hf as ->. destruct Ho as (frame & Hu & Hp). by eapply parse_tcp_segment_wf.
Qed.

Lemma tracked_wf ops k tail : Forall op_wf ops -> tracked ops k tail ->
  key_wf k /\ macs_wf tail /\ Forall is_u32 (reset_seqs tail).
Proof.
  intros Hops [(seg & Hl & Hbm & Hpm) Hnext Hack]. apply (toward_wf _ _ _ Hops) in Hl as [<- Hw].
  split; [destruct Hw; by split_and!|]. split; [destruct Hw; unfold macs_wf; rewrite Hbm, Hpm; done|].
  apply list.Forall_forall. intros seq Hin. unfold reset_seqs in Hin. rewrite elem_of_vec_dedup, elem_of_app in Hin.
  destruct Hin as [Hin|Hin].
  - destruct (tl_box_next tail) as [n|]; [|by apply elem_of_nil in Hin]. apply list_elem_of_singleton in Hin as ->.
    destruct (Hnext n eq_refl) as (s & _ & ->). unfold is_u32, u32_add. apply Z.mod_pos_bound. lia.
  - destruct (tl_peer_ack tail) as [a|]; [|by apply elem_of_nil in Hin]. apply list_elem_of_singleton in Hin as ->.
    destruct (Hack a eq_refl) as (s & Hs & ->). by apply (acked_wf _ _ _ Hops) in Hs as [].
Qed.
End history.

(** ** The exchange *)

(** The bytes of frames, each behind its little-endian length. *)
Definition encode (frames : list (list Z)) : list Z :=
  frames ≫= (fun f => le16_bytes (Z.of_nat (length f)) ++ f).
Definition fits (f : list Z) : Prop := Z.of_nat (length f) <= 65535.

Lemma encode_cons f frames : encode (f :: frames) = le16_bytes (Z.of_nat (length f)) ++ f ++ encode frames.
Proof. unfold encode. cbn [mbind list_bind]. by rewrite <- app_assoc. Qed.

Lemma encode_app fs1 fs2 : encode (fs1 ++ fs2) = encode fs1 ++ encode fs2.
Proof. apply bind_app. Qed.

Lemma frame_onto_encode frames : forall stream, Forall fits frames -> frame_onto stream frames = Some (stream ++ encode frames).
Proof.
  induction frames as [|f frames IH]; intros stream Hf; cbn [frame_onto encode mbind list_bind]; [by rewrite app_nil_r|].
  apply list.Forall_cons in Hf as [Hf Hfs]. unfold fits in Hf. rewrite (proj2 (Z.ltb_ge _ _)) by lia.
  rewrite IH by done. by rewrite <- !app_assoc.
Qed.

Lemma le16_val n : is_u16 n -> be16 (Z.land (Z.shiftr n 8) 255) (Z.land n 255) = n.
Proof. apply be16_be16_bytes. Qed.

(** A frame comes off the buffer exactly when the buffer starts with one. *)
Lemma take_frame_encode f rest : fits f -> take_frame (le16_bytes (Z.of_nat (length f)) ++ f ++ rest) = Some (f, rest).
Proof.
  intros Hf. unfold take_frame, le16_bytes. cbn [app lookup list_lookup mbind option_bind].
  rewrite le16_val by (unfold is_u16, fits in *; lia). rewrite Nat2Z.id. unfold get_range.
  rewrite (proj2 (Nat.leb_le _ _)) by lia. rewrite (proj2 (Nat.leb_le _ _)) by (cbn [length]; rewrite length_app; lia).
  cbn [andb]. replace (2 + length f - 2)%nat with (length f) by lia. cbn [option_bind drop Nat.add].
  rewrite drop_0, take_app_length, drop_app_length. done.
Qed.

Lemma take_frame_Some buf f rest : Forall is_u8 buf -> take_frame buf = Some (f, rest) ->
  buf = le16_bytes (Z.of_nat (length f)) ++ f ++ rest /\ fits f.
Proof.
  intros Hu H. unfold take_frame in H. destruct buf as [|l0 [|l1 buf]]; try done. cbn [lookup list_lookup mbind option_bind] in H.
  apply list.Forall_cons in Hu as [H0 Hu]. apply list.Forall_cons in Hu as [H1 Hu].
  apply bind_Some in H as (f' & Hr & H). apply get_range_Some in Hr as [Hb Hf]. injection H as <- <-.
  cbn [drop length] in *. set (len := Z.to_nat (be16 l1 l0)) in *.
  replace (2 + len - 2)%nat with len in Hf by lia. cbn [drop Nat.add].
  assert (Hl : length f' = len) by (rewrite Hf, length_take, ?length_drop; lia).
  assert (Hv : Z.of_nat len = l1 * 256 + l0) by (unfold len; rewrite be16_val by done; unfold is_u8 in *; lia).
  split; [|unfold fits, is_u8 in *; lia]. rewrite Hl, Hv. unfold le16_bytes. change 255 with (Z.ones 8).
  rewrite !Z.land_ones, Z.shiftr_div_pow2 by lia. change (2 ^ 8) with 256. unfold is_u8 in *.
  rewrite Z.div_add_l, (Z.div_small l0), Z.add_0_r, (Z.mod_small l1) by lia.
  rewrite Z.add_comm, Z.mod_add, (Z.mod_small l0) by lia. cbn [app]. do 2 f_equal. by rewrite Hf, take_drop.
Qed.

(** Frames framed onto a stream come off it again, in order, with nothing
    lost. *)
Fixpoint take_frames (n : nat) (buf : list Z) : option (list (list Z) * list Z) :=
  match n with
  | O => Some ([], buf)
  | S n => '(f, buf) ← take_frame buf; '(fs, rest) ← take_frames n buf; Some (f :: fs, rest)
  end.

Lemma frames_roundtrip frames rest : Forall fits frames ->
  take_frames (length frames) (encode frames ++ rest) = Some (frames, rest).
Proof.
  induction frames as [|f frames IH]; intros Hf; [done|]. apply list.Forall_cons in Hf as [Hf Hfs].
  cbn [length take_frames]. rewrite encode_cons, <- !app_assoc, take_frame_encode by done.
  cbn [mbind option_bind]. by rewrite IH.
Qed.

(** The challenges in a sequence of frames, answered in order. *)
Fixpoint challenges (flows : list (ForwardKey * FlowTail)) (answered : gset ForwardKey) (frames : list (list Z))
    : outcome (gset ForwardKey * list (list Z)) :=
  match frames with
  | [] => Done (answered, [])
  | f :: frames =>
      r ← challenge_reset f flows answered;
      s ← challenges flows r.1 frames;
      Done (s.1, opt_list r.2 ++ s.2)
  end.

(** One answer: a challenge on a tracked flow that was not answered before. *)
Record answers (flows : list (ForwardKey * FlowTail)) (frame reset : list Z) (key : ForwardKey) : Prop := {
  an_tracked : key ∈ flows.*1;
  an_seg : exists seg tail, parse_tcp_segment frame = Some seg /\ toward_key seg = key /\
    has_flag (ts_flags seg) TCP_ACK = true /\ has_flag (ts_flags seg) (Z.lor TCP_RST TCP_SYN) = false /\
    parse_tcp_segment reset = Some (rst_segment key tail (ts_ack seg)) /\
    tl_box_mac tail = ts_dst_mac seg /\ tl_peer_mac tail = ts_src_mac seg;
  an_fits : fits reset;
}.

Lemma challenge_reset_spec frame flows answered : Forall is_u8 frame ->
  exists r, challenge_reset frame flows answered = Done r /\
    match r.2 with
    | None => r.1 = answered
    | Some reset => exists key, answers flows frame reset key /\ key ∉ answered /\ r.1 = {[key]} ∪ answered
    end.
Proof.
  intros Hu. unfold challenge_reset. destruct (parse_tcp_segment frame) as [seg|] eqn:Hp; [|by eexists].
  destruct (_ || _) eqn:Hf; [by eexists|]. apply orb_false_iff in Hf as [Ha Hr]. apply negb_false_iff in Ha.
  destruct (List.find _ flows) as [[k tail]|] eqn:Hfind; [|by eexists].
  apply List.find_some in Hfind as [Hin Hk]. apply bool_decide_eq_true in Hk. cbn [fst] in Hk. subst k.
  case_bool_decide as Hans; [by eexists|]. pose proof (parse_tcp_segment_wf _ _ Hu Hp) as [].
  set (tail' := {| tl_box_mac := _; tl_peer_mac := _; tl_peer_ack := _; tl_box_next := _; tl_seen := _ |}).
  destruct (rst_frame_spec (toward_key seg) tail' (ts_ack seg)) as (f & -> & Hlen & Hpf & _); [by split_and!|by split|done|].
  rewrite bind_Done. eexists. split; [reflexivity|]. cbn [fst snd]. exists (toward_key seg). split; [|done].
  constructor; [|by exists seg, tail'|unfold fits; lia].
  apply list_elem_of_fmap. exists (toward_key seg, tail). split; [done|]. by apply list_elem_of_In.
Qed.

Definition answered_in (flows : list (ForwardKey * FlowTail)) (frames : list (list Z)) (key : ForwardKey) (reset : list Z) : Prop :=
  exists frame, frame ∈ frames /\ answers flows frame reset key.

Lemma challenges_spec flows frames : forall answered, Forall (Forall is_u8) frames ->
  exists keys fs, challenges flows answered frames = Done (list_to_set keys ∪ answered, fs) /\
    NoDup keys /\ (forall k, k ∈ keys -> k ∉ answered) /\ Forall2 (answered_in flows frames) keys fs.
Proof.
  induction frames as [|f frames IH]; intros answered Hu; cbn [challenges].
  { exists [], []. split; [by rewrite list_to_set_nil, union_empty_l_L|]. split; [apply NoDup_nil_2|].
    split; [|constructor]. by intros k Hk%elem_of_nil. }
  apply list.Forall_cons in Hu as [Hf Hu]. destruct (challenge_reset_spec f flows answered Hf) as (r & -> & Hr). rewrite bind_Done.
  assert (Hmono : forall k x, answered_in flows frames k x -> answered_in flows (f :: frames) k x)
    by (intros k x (g & Hg & Ha); exists g; split; [by right|done]).
  destruct (IH r.1 Hu) as (keys & fs & -> & Hnd & Hfresh & Hall). rewrite bind_Done. cbn [fst snd].
  destruct r.2 as [reset|]; cbn [opt_list app].
  - destruct Hr as (key & Ha & Hk & Hr1). exists (key :: keys), (reset :: fs).
    split; [|split; [|split]].
    + rewrite Hr1, list_to_set_cons. do 2 f_equal. set_solver.
    + constructor; [|done]. intros Hin. apply (Hfresh _ Hin). rewrite Hr1. set_solver.
    + intros k [->|Hin]%elem_of_cons; [done|]. intros Hn. apply (Hfresh _ Hin). rewrite Hr1. set_solver.
    + constructor; [exists f; split; [by left|done]|]. eapply Forall2_impl; [exact Hmono|exact Hall].
  - exists keys, fs. rewrite <- Hr. split; [done|]. split; [done|]. split; [done|]. eapply Forall2_impl; [exact Hmono|exact Hall].
Qed.

Lemma challenges_app flows fs1 fs2 : forall answered,
  challenges flows answered (fs1 ++ fs2) =
  (r ← challenges flows answered fs1; s ← challenges flows r.1 fs2; Done (s.1, r.2 ++ s.2)).
Proof.
  induction fs1 as [|f fs1 IH]; intros answered; cbn [app challenges].
  - rewrite bind_Done. cbn [fst snd]. by destruct (challenges flows answered fs2) as [[? ?]| |].
  - destruct (challenge_reset f flows answered) as [r| |]; [rewrite !bind_Done|done|done]. rewrite IH.
    destruct (challenges flows r.1 fs1) as [s| |]; [rewrite !bind_Done|done|done]. cbn [fst snd].
    destruct (challenges flows s.1 fs2) as [t| |]; [rewrite !bind_Done|done|done]. cbn [fst snd]. by rewrite app_assoc.
Qed.

(** The inner loop takes every whole frame in the buffer, and ends. *)
Lemma answer_frames_spec flows fuel : forall buf answered written, (length buf < fuel)%nat -> Forall is_u8 buf ->
  exists frames rest a fs, buf = encode frames ++ rest /\ Forall (Forall is_u8) frames /\ Forall is_u8 rest /\
    challenges flows answered frames = Done (a, fs) /\ Forall fits fs /\
    answer_frames fuel flows buf answered written = Done (Some (rest, a, written ++ encode fs)).
Proof.
  induction fuel as [|fuel IH]; intros buf answered written Hl Hu; [lia|]. cbn [answer_frames].
  destruct (take_frame buf) as [[f rest]|] eqn:Ht.
  2: { exists [], buf, answered, []. split_and!; try done. by rewrite app_nil_r. }
  apply (take_frame_Some _ _ _ Hu) in Ht as [-> Hfit]. rewrite !list.Forall_app in Hu. destruct Hu as (_ & Hf & Hrest).
  rewrite !length_app in Hl. cbn [le16_bytes length] in Hl.
  destruct (challenge_reset_spec f flows answered Hf) as (r & Hr & Hspec). rewrite Hr, bind_Done.
  assert (Hreset : Forall fits (opt_list r.2)).
  { destruct r.2; cbn; [|constructor]. destruct Hspec as (? & [] & _). by repeat constructor. }
  destruct (IH rest r.1 (written ++ encode (opt_list r.2)) ltac:(lia) Hrest) as (frames & rest' & a & fs & -> & H1 & H2 & H3 & H4 & H5).
  exists (f :: frames), rest', a, (opt_list r.2 ++ fs). rewrite encode_cons, encode_app, <- !app_assoc.
  split; [done|]. split; [by constructor|]. split; [done|]. cbn [challenges]. rewrite Hr, bind_Done, H3, bind_Done.
  split; [done|]. split; [by apply list.Forall_app|]. rewrite <- app_assoc in H5.
  destruct r.2 as [reset|]; cbn [opt_list] in *; [|by rewrite app_nil_r in H5].
  rewrite frame_onto_encode by done. exact H5.
Qed.

(** The exchange so far: the bytes received, up to some read, are whole frames
    and a rest, and what was written answers the challenges among them. *)
Definition exchanged (flows : list (ForwardKey * FlowTail)) (reads : list (list Z)) (buf : list Z) (answered : gset ForwardKey)
    (written : list Z) (result : outcome (option (gset ForwardKey * list Z))) : Prop :=
  exists n frames rest a fs, buf ++ concat (take n reads) = encode frames ++ rest /\ Forall (Forall is_u8) frames /\
    challenges flows answered frames = Done (a, fs) /\ Forall fits fs /\ result = Done (Some (a, written ++ encode fs)).

Lemma exchanged_stop flows reads buf answered written :
  exchanged flows reads buf answered written (Done (Some (answered, written))).
Proof.
  exists 0%nat, [], buf, answered, []. cbn [take concat]. split_and!; try done; by rewrite app_nil_r.
Qed.

Lemma answer_challenges_spec flows reads : forall buf answered written,
  Forall is_u8 buf -> Forall (Forall is_u8) reads ->
  exchanged flows reads buf answered written (answer_challenges flows reads buf answered written).
Proof.
  induction reads as [|chunk reads IH]; intros buf answered written Hb Hr; cbn [answer_challenges].
  { destruct (_ <=? _)%nat; apply exchanged_stop. }
  destruct (_ <=? _)%nat; [apply exchanged_stop|]. destruct chunk as [|b chunk]; [apply exchanged_stop|].
  apply list.Forall_cons in Hr as [Hc Hr].
  destruct (answer_frames_spec flows (S (length (buf ++ b :: chunk))) (buf ++ b :: chunk) answered written) as
    (frames & rest & a & fs & Hbuf & Hfr & Hrest & Hch & Hfit & ->); [lia|by apply list.Forall_app|]. rewrite bind_Done.
  destruct (IH rest a (written ++ encode fs) Hrest Hr) as (n & frames2 & rest2 & a2 & fs2 & E2 & Hfr2 & Hch2 & Hfit2 & ->).
  exists (S n), (frames ++ frames2), rest2, a2, (fs ++ fs2). cbn [take concat].
  rewrite encode_app, (app_assoc buf), Hbuf, <- !app_assoc, E2, challenges_app, Hch, bind_Done.
  cbn [fst snd]. rewrite Hch2, bind_Done, encode_app, <- ?app_assoc.
  split_and!; try done; by apply list.Forall_app.
Qed.

Lemma foldM_collect {A B} (g : A -> outcome B) (Q : A -> B -> Prop) l : forall acc,
  (forall x, x ∈ l -> exists y, g x = Done y /\ Q x y) ->
  exists ys, foldM (fun acc x => y ← g x; Done (acc ++ [y])) acc l = Done (acc ++ ys) /\ Forall2 Q l ys.
Proof.
  induction l as [|x l IH]; intros acc Hg; cbn [foldM].
  { exists []. by rewrite app_nil_r. }
  destruct (Hg x) as (y & -> & Hq); [by left|]. rewrite !bind_Done.
  destruct (IH (acc ++ [y])) as (ys & -> & Hall); [intros; apply Hg; by right|].
  exists (y :: ys). split; [by rewrite <- app_assoc|by constructor].
Qed.

Lemma foldM_concat {A B} (g : A -> outcome (list B)) (Q : A -> list B -> Prop) l : forall acc,
  (forall x, x ∈ l -> exists y, g x = Done y /\ Q x y) ->
  exists ys, foldM (fun acc x => y ← g x; Done (acc ++ y)) acc l = Done (acc ++ concat ys) /\ Forall2 Q l ys.
Proof.
  induction l as [|x l IH]; intros acc Hg; cbn [foldM].
  { exists []. cbn. by rewrite app_nil_r. }
  destruct (Hg x) as (y & -> & Hq); [by left|]. rewrite !bind_Done.
  destruct (IH (acc ++ y)) as (ys & -> & Hall); [intros; apply Hg; by right|].
  exists (y :: ys). split; [by rewrite <- app_assoc|by constructor].
Qed.

(** What ends one connection: for each reading of the number the switch
    expects, a frame it reads as that reset, with good checksums. *)
Definition ends_at (k : ForwardKey) (tail : FlowTail) (seq : Z) (f : list Z) : Prop :=
  length f = 54%nat /\ parse_tcp_segment f = Some (rst_segment k tail seq) /\
  checksum_ok (ip_of f) /\ checksum_ok (pseudo_header k.1.1.1 k.1.2 20 ++ tcp_of f).

Lemma reset_frames_spec k tail : key_wf k -> macs_wf tail -> Forall is_u32 (reset_seqs tail) ->
  exists fs, reset_frames k tail = Done fs /\ Forall2 (ends_at k tail) (reset_seqs tail) fs.
Proof.
  intros Hk Hm Hs. unfold reset_frames.
  destruct (foldM_collect (rst_frame k tail) (ends_at k tail) (reset_seqs tail) []) as (fs & Hfs & Hall).
  - intros seq Hin. rewrite list.Forall_forall in Hs. destruct (rst_frame_spec k tail seq Hk Hm (Hs _ Hin)) as (f & Hf & H1).
    by exists f.
  - by exists fs.
Qed.

(** ** Claims *)

(** The end of a box ends its forwarded connections, and only those.
    After any frames read from the wire, the table holds at most its cap of
    connections.  Taking a box's address leaves exactly the other boxes'
    connections and returns exactly that box's.  Each returned connection was
    opened by the switch's side; its hardware addresses are those of the
    switch's last frame on it, and each sequence number the gate resets it at
    is the number past the box's last segment on it or the last
    acknowledgement the switch sent on it.  Building its resets never fails,
    and each is a frame that parses as a reset of that connection at that
    number, with good IP and TCP checksums. *)
Theorem box_end_resets `{HashIter} (ops : list FlowOp) (addr : ip4) (Hops : Forall op_wf ops) :
  let m := run_state flows_step ∅ ops in
  (size m <= FORWARDED_FLOWS_TRACKED)%nat /\
  (forall k, (take_at m addr).1 !! k = if decide (k.1.1.1 = addr) then None else m !! k) /\
  (forall k tail, (k, tail) ∈ (take_at m addr).2 <-> k.1.1.1 = addr /\ m !! k = Some tail) /\
  (forall k tail, (k, tail) ∈ (take_at m addr).2 -> tracked ops k tail /\
     exists fs, reset_frames k tail = Done fs /\ Forall2 (ends_at k tail) (reset_seqs tail) fs).
Proof.
  cbv zeta. destruct (flows_history ops) as [Hsz Htr].
  destruct (take_where_spec (fun k => bool_decide (k.1.1.1 = addr)) (run_state flows_step ∅ ops)) as [H1 H2].
  assert (Htaken : forall k tail, (k, tail) ∈ (take_at (run_state flows_step ∅ ops) addr).2 <->
                     k.1.1.1 = addr /\ run_state flows_step ∅ ops !! k = Some tail)
    by (intros k tail; unfold take_at; by rewrite H2, bool_decide_eq_true).
  split; [done|]. split; [|split; [done|]].
  - intros k. unfold take_at. rewrite H1. by destruct (decide (k.1.1.1 = addr)) as [E|E];
      [rewrite bool_decide_eq_true_2|rewrite bool_decide_eq_false_2].
  - intros k tail [_ Hk]%Htaken. pose proof (Htr _ _ Hk) as Ht. split; [done|].
    destruct (tracked_wf _ _ _ Hops Ht) as (Hkw & Hmw & Hs). by apply reset_frames_spec.
Qed.

(** What the code holds of the connections a box's end takes. *)
Definition flow_wf (p : ForwardKey * FlowTail) : Prop :=
  key_wf p.1 /\ macs_wf p.2 /\ Forall is_u32 (reset_seqs p.2).

Lemma ends_at_fits k tail seqs fs : Forall2 (ends_at k tail) seqs fs -> Forall fits fs.
Proof. induction 1 as [|seq f seqs fs (Hl & _) _ IH]; [constructor|]. constructor; [unfold fits; lia|done]. Qed.

Lemma resets_fit flows fss :
  Forall2 (fun p fs => Forall2 (ends_at p.1 p.2) (reset_seqs p.2) fs) flows fss -> Forall fits (concat fss).
Proof. induction 1 as [|p fs flows fss Hp _ IH]; [constructor|]. apply list.Forall_app. split; [by eapply ends_at_fits|done]. Qed.

(** The reset exchange ends, and answers each connection at most once.
    For every list of connections and however the switch's bytes arrive, the
    exchange returns.  It writes, each behind its length, first the resets of
    every connection and then its answers.  The bytes it received, up to some
    read, are whole frames and a rest; the answers are to distinct
    connections of the list, each to a frame among those that is a bare
    acknowledgement on that connection, and each resets it at the
    acknowledged number.  So a peer that keeps acknowledging gets no more
    answers than there are connections. *)
Theorem inject_answers_once (flows : list (ForwardKey * FlowTail)) (buf : list Z) (reads : list (list Z))
    (Hne : flows <> []) (Hflows : Forall flow_wf flows) (Hbuf : Forall is_u8 buf) (Hreads : Forall (Forall is_u8) reads) :
  exists resets n frames rest keys answers,
    inject flows buf reads = Done (Some (length keys, encode (concat resets ++ answers))) /\
    Forall2 (fun p fs => Forall2 (ends_at p.1 p.2) (reset_seqs p.2) fs) flows resets /\
    buf ++ concat (take n reads) = encode frames ++ rest /\
    NoDup keys /\ (length keys <= length flows)%nat /\ Forall2 (answered_in flows frames) keys answers.
Proof.
  destruct flows as [|p0 flows0]; [done|]. unfold inject. cbv beta iota. set (flows := p0 :: flows0) in *.
  destruct (foldM_concat (fun p : ForwardKey * FlowTail => reset_frames p.1 p.2)
    (fun p fs => Forall2 (ends_at p.1 p.2) (reset_seqs p.2) fs) flows []) as (fss & -> & Hall).
  { intros p Hin. rewrite list.Forall_forall in Hflows. destruct (Hflows p Hin) as (? & ? & ?). by apply reset_frames_spec. }
  rewrite bind_Done. cbn [app]. rewrite frame_onto_encode by (by eapply resets_fit). cbn [app].
  destruct (answer_challenges_spec flows reads buf ∅ (encode (concat fss)) Hbuf Hreads)
    as (n & frames & rest & a & fs & Hcut & Hu & Hch & Hfit & ->). rewrite bind_Done. cbn [fmap option_fmap option_map fst snd].
  destruct (challenges_spec flows frames ∅ Hu) as (keys & fs' & Hch' & Hnd & _ & Hans).
  rewrite Hch in Hch'. injection Hch' as -> ->.
  exists fss, n, frames, rest, keys, fs'. rewrite encode_app, union_empty_r_L, size_list_to_set by done.
  split_and!; try done. rewrite <- (length_fmap fst flows). apply submseteq_length, NoDup_submseteq; [done|].
  intros k Hk. apply list_elem_of_lookup in Hk as [i Hi]. destruct (Forall2_lookup_l _ _ _ _ _ Hans Hi) as (r & _ & f & _ & []). done.
Qed.

(** ** A box that ends with a connection open *)

Module RevokeSample.

Definition tcp_frame (dst_mac src_mac src dst : list Z) (ports : list Z) (seq ack flags : Z) (payload : list Z) : list Z :=
  dst_mac ++ src_mac ++ [8; 0] ++ [69; 0] ++ be16_bytes (40 + Z.of_nat (length payload)) ++ [0; 0; 64; 0; 64; 6; 0; 0] ++ src ++ dst ++
  ports ++ be32_bytes seq ++ be32_bytes ack ++ [80; flags; 0; 0; 0; 0; 0; 0] ++ payload.

Definition box_mac : list Z := [82; 84; 0; 64; 0; 9].
Definition gw_mac : list Z := [90; 148; 239; 228; 12; 238].
Definition to_box : list Z := tcp_frame box_mac gw_mac [100; 64; 0; 1] [100; 64; 0; 9] [200; 0; 0; 80] 500 1001 16 [].
Definition from_box : list Z := tcp_frame gw_mac box_mac [100; 64; 0; 9] [100; 64; 0; 1] [0; 80; 200; 0] 1001 500 24 [7; 7; 7].

Definition to_box_seg : TcpSegment :=
  {| ts_dst_mac := box_mac; ts_src_mac := gw_mac; ts_src := Ip4 100 64 0 1; ts_dst := Ip4 100 64 0 9;
     ts_src_port := 51200; ts_dst_port := 80; ts_seq := 500; ts_ack := 1001; ts_flags := 16; ts_advance := 0 |}.
Definition from_box_seg : TcpSegment :=
  {| ts_dst_mac := gw_mac; ts_src_mac := box_mac; ts_src := Ip4 100 64 0 9; ts_dst := Ip4 100 64 0 1;
     ts_src_port := 80; ts_dst_port := 51200; ts_seq := 1001; ts_ack := 500; ts_flags := 24; ts_advance := 3 |}.
Definition history : list FlowOp := [OToward to_box_seg 1; OFrom from_box_seg 2].
Definition key : ForwardKey := (Ip4 100 64 0 9, 80, Ip4 100 64 0 1, 51200).
Definition tail : FlowTail :=
  {| tl_box_mac := box_mac; tl_peer_mac := gw_mac; tl_peer_ack := Some 1001; tl_box_next := Some 1004; tl_seen := 2 |}.

Lemma history_wf : Forall op_wf history.
Proof.
  apply Forall_cons_2; [|apply Forall_cons_2; [|apply Forall_nil_2]].
  - exists to_box. split; [by apply (bool_decide_unpack _); vm_compute|vm_compute; reflexivity].
  - exists from_box. split; [by apply (bool_decide_unpack _); vm_compute|vm_compute; reflexivity].
Qed.

Lemma box_end_resets_witness :
  (key, tail) ∈ (take_at (run_state flows_step ∅ history) (Ip4 100 64 0 9)).2 /\
  exists fs, reset_frames key tail = Done fs /\ Forall2 (ends_at key tail) [1004; 1001] fs.
Proof.
  destruct (box_end_resets history (Ip4 100 64 0 9) history_wf) as (_ & _ & H3 & H4).
  assert (Hin : (key, tail) ∈ (take_at (run_state flows_step ∅ history) (Ip4 100 64 0 9)).2)
    by (apply H3; split; [reflexivity|vm_compute; reflexivity]).
  split; [exact Hin|]. destruct (H4 key tail Hin) as (_ & fs & H5 & H6). exists fs. split; [exact H5|exact H6].
Defined.

(** The switch's challenge arrives cut in two, and again after it. *)
Definition challenge : list Z := tcp_frame box_mac gw_mac [100; 64; 0; 1] [100; 64; 0; 9] [200; 0; 0; 80] 500 1002 16 [].
Definition reads : list (list Z) := [take 30 (encode [challenge]); drop 30 (encode [challenge]); encode [challenge]].

Lemma inject_answers_once_witness :
  exists resets n frames rest (keys : list ForwardKey) answers,
    inject [(key, tail)] [] reads = Done (Some (length keys, encode (concat resets ++ answers))) /\
    concat (take n reads) = encode frames ++ rest /\ (length keys <= 1)%nat.
Proof.
  destruct (inject_answers_once [(key, tail)] [] reads) as (resets & n & frames & rest & keys & answers & H1 & _ & H2 & _ & H3 & _).
  - discriminate.
  - apply Forall_cons_2; [|apply Forall_nil_2]. split; [|split].
    + by apply (bool_decide_unpack _); vm_compute.
    + split; reflexivity.
    + by apply (bool_decide_unpack _); vm_compute.
  - apply Forall_nil_2.
  - by apply (bool_decide_unpack _); vm_compute.
  - exists resets, n, frames, rest, keys, answers. split; [exact H1|]. split; [exact H2|exact H3].
Defined.

Example challenge_answered :
  match inject [(key, tail)] [] reads with
  | Done (Some (n, out)) => n = 1%nat /\ length out = (3 * 56)%nat
  | _ => False
  end.
Proof. vm_compute. split; reflexivity. Qed.
End RevokeSample.
