(* ===== verification/RefusalEmitter.v ===== *)
(** * The refusal audit (crates/switch/src/refusal.rs)

    The bounded, rate-limited limiter every refusal goes through: a table of
    per-(source, rule) windows, the overflow buckets per rule, the lines
    evicted windows still owe, and the two flushes.  The
    second part holds the theorems. *)

From stdpp Require Import base list gmap strings numbers.
From Stdlib Require Import ZArith Lia Ascii.
From S2P Require Import Prelude Text Switch.
Open Scope Z_scope.

(** ** Classes of refusals *)

Record RefusalClass : Type := { cl_rule : string; cl_reason : string }.

Definition NO_INGRESS_MAPPING_RULE : string := "no ingress mapping".
Definition REVOKED_INGRESS_PORT_RULE : string := "revoked ingress port".
Definition NO_REGISTERED_ROW_RULE : string := "no registered row".
Definition FOREIGN_SOURCE_MAC_RULE : string := "foreign source mac".
Definition SHARE_SPENT_RULE : string := "per-source share spent".
Definition NO_ATTACHMENT_RULE : string := "no box attachment".

Definition UNPUBLISHED_PORT : RefusalClass :=
  {| cl_rule := NO_INGRESS_MAPPING_RULE; cl_reason := "no listener is published for the port" |}.
Definition REVOKED_PORT : RefusalClass :=
  {| cl_rule := REVOKED_INGRESS_PORT_RULE; cl_reason := "the port's published ingress was revoked" |}.
Definition NO_REGISTERED_ROW : RefusalClass :=
  {| cl_rule := NO_REGISTERED_ROW_RULE; cl_reason := "the source's box has no registered row" |}.
Definition FOREIGN_SOURCE_MAC : RefusalClass :=
  {| cl_rule := FOREIGN_SOURCE_MAC_RULE; cl_reason := "the source MAC is not the address's switch-derived MAC" |}.
Definition SHARE_SPENT : RefusalClass :=
  {| cl_rule := SHARE_SPENT_RULE; cl_reason := "the source already holds its share of the pool" |}.
Definition NO_ATTACHMENT : RefusalClass :=
  {| cl_rule := NO_ATTACHMENT_RULE; cl_reason := "the source's box holds no proxy attachment" |}.

Inductive About : Type :=
| AboutPort (port : Z)
| AboutName (name : string).

Record Refusal : Type := {
  rf_class : RefusalClass;
  rf_source : ip4;
  rf_address : ip4;
  rf_about : About;
}.

Inductive Outcome : Type :=
| Emit (line : string)
| Quiet
| Suppressed.

(** ** The limiter's state *)

Definition REFUSAL_ROWS : nat := 512.
Definition REFUSALS_PER_WINDOW : Z := 16.
Definition REFUSAL_WINDOW : Z := from_secs 1.

Record Owed : Type := { ow_class : RefusalClass; ow_source : ip4; ow_address : ip4; ow_about : About }.

Record Window : Type := {
  w_started : Z;
  w_written : Z;
  w_since_line : Z;
  w_said : bool;
  w_owed : option Owed;
}.

Record Row : Type := { row_key : ip4 * string; row_window : Window; row_last : Z }.
Record Overflow : Type := { ov_window : Window }.
Record Limiter : Type := {
  lm_rows : list Row;
  lm_overflow : gmap string Overflow;
  lm_owed : list string;
}.
Record RefusalEmitter : Type := {
  re_state : Limiter;
  re_rows : nat;
  re_per_window : Z;
  re_window : Z;
}.

(** [RefusalEmitter::new] and [Default]. *)
Definition emitter_new (rows : nat) (per_window window : Z) : RefusalEmitter :=
  {| re_state := {| lm_rows := []; lm_overflow := ∅; lm_owed := [] |};
     re_rows := rows; re_per_window := per_window; re_window := window |}.
Definition emitter_default : RefusalEmitter := emitter_new REFUSAL_ROWS REFUSALS_PER_WINDOW REFUSAL_WINDOW.

(** ** Lines *)

(** The decimal [Display] of an unsigned integer. *)
Fixpoint show_digits (fuel : nat) (n : Z) (acc : string) : string :=
  match fuel with
  | O => acc
  | S fuel => if n =? 0 then acc else show_digits fuel (n / 10) (String (digit_char (n mod 10)) acc)
  end.
Definition show_uint (n : Z) : string := if n =? 0 then "0" else show_digits 20 n "".

Definition quote : string := String (ascii_of_nat 34) EmptyString.

(** [RefusalEmitter::line]. *)
Definition audit_line (refusal : Refusal) (refusals : Z) : string :=
  let about := match rf_about refusal with
               | AboutPort port => "port=" ++ show_uint port
               | AboutName name => "name=" ++ quote ++ name ++ quote
               end%string in
  ("rule_matched=" ++ quote ++ cl_rule (rf_class refusal) ++ quote ++ " address=" ++ show_ip4 (rf_address refusal) ++ " " ++
  about ++ " reason=" ++ quote ++ cl_reason (rf_class refusal) ++ quote ++ " source=" ++ show_ip4 (rf_source refusal) ++
  " refusals=" ++ show_uint refusals)%string.

(** ** One window *)

Definition fresh_window (now : Z) : Window :=
  {| w_started := now; w_written := 0; w_since_line := 0; w_said := false; w_owed := None |}.

(** Whether a window's time is out at an instant. *)
Definition expired (window now : Z) (w : Window) : bool := window <=? duration_since now (w_started w).

(** [RefusalEmitter::account]. *)
Definition account (e : RefusalEmitter) (w : Window) (refusal : Refusal) (answered : bool) (now : Z) : Window * Outcome :=
  let w := if expired (re_window e) now w then
             {| w_started := now; w_written := 0; w_since_line := w_since_line w; w_said := false; w_owed := None |}
           else w in
  let owed := Some {| ow_class := rf_class refusal; ow_source := rf_source refusal;
                      ow_address := rf_address refusal; ow_about := rf_about refusal |} in
  if negb (w_said w) then
    let refusals := u32_add (w_since_line w) 1 in
    let line := audit_line refusal refusals in
    let written := if answered && (w_written w <? re_per_window e) then u32_add (w_written w) 1 else w_written w in
    ({| w_started := w_started w; w_written := written; w_since_line := 0; w_said := true; w_owed := owed |}, Emit line)
  else
    let since_line := u32_add (w_since_line w) 1 in
    let counted written :=
      {| w_started := w_started w; w_written := written; w_since_line := since_line; w_said := w_said w; w_owed := owed |} in
    if negb answered then (counted (w_written w), Quiet)
    else if re_per_window e <=? w_written w then (counted (w_written w), Suppressed)
    else (counted (u32_add (w_written w) 1), Quiet).

(** [RefusalEmitter::take_owed]. *)
Definition take_owed (w : Window) : Window * option string :=
  if w_since_line w =? 0 then (w, None)
  else
    let count := u32_add (w_since_line w) 1 in
    let w' := {| w_started := w_started w; w_written := w_written w; w_since_line := 0; w_said := w_said w; w_owed := None |} in
    match w_owed w with
    | None => (w', None)
    | Some owed =>
        let refusal := {| rf_class := ow_class owed; rf_source := ow_source owed;
                          rf_address := ow_address owed; rf_about := ow_about owed |} in
        (w', Some (audit_line refusal count))
    end.

(** ** The table *)

(** [Iterator::min_by_key] on the recency: the first of the least. *)
Definition min_by_last (l : list (nat * Row)) : option (nat * Row) :=
  match l with
  | [] => None
  | x :: l => Some (fold_left (fun best y => if row_last y.2 <? row_last best.2 then y else best) l x)
  end.

(** [expired_lru_index]. *)
Definition expired_lru_index (rows : list Row) (now window : Z) : option nat :=
  fst <$> min_by_last (filter (fun p => expired window now (row_window p.2)) (imap pair rows)).

(** [RefusalEmitter::hold]. *)
Definition hold (e : RefusalEmitter) (owed : list string) (line : string) : list string :=
  if (length owed <? re_rows e)%nat then owed ++ [line] else owed.

Definition set_state (e : RefusalEmitter) (s : Limiter) : RefusalEmitter :=
  {| re_state := s; re_rows := re_rows e; re_per_window := re_per_window e; re_window := re_window e |}.

(** [rows.iter_mut().find(|row| row.key == key)]: its index and itself. *)
Definition find_row (rows : list Row) (key : ip4 * string) : option (nat * Row) :=
  list_find (fun row => row_key row = key) rows.

(** [RefusalEmitter::refuse]. *)
Definition refuse (e : RefusalEmitter) (refusal : Refusal) (answered : bool) (now : Z) : RefusalEmitter * Outcome :=
  let s := re_state e in
  let rule := cl_rule (rf_class refusal) in
  let key := (rf_source refusal, rule) in
  let charge w := account e w refusal answered now in
  match find_row (lm_rows s) key with
  | Some (i, row) =>
      let '(w, out) := charge (row_window row) in
      (set_state e {| lm_rows := <[i := {| row_key := row_key row; row_window := w; row_last := now |}]> (lm_rows s);
                      lm_overflow := lm_overflow s; lm_owed := lm_owed s |}, out)
  | None =>
      if (length (lm_rows s) <? re_rows e)%nat then
        let '(w, out) := charge (fresh_window now) in
        (set_state e {| lm_rows := lm_rows s ++ [{| row_key := key; row_window := w; row_last := now |}];
                        lm_overflow := lm_overflow s; lm_owed := lm_owed s |}, out)
      else
        match expired_lru_index (lm_rows s) now (re_window e) with
        | Some i =>
            let owed := match lm_rows s !! i with
                        | Some row => match (take_owed (row_window row)).2 with
                                      | Some line => hold e (lm_owed s) line
                                      | None => lm_owed s
                                      end
                        | None => lm_owed s
                        end in
            let '(w, out) := charge (fresh_window now) in
            (set_state e {| lm_rows := <[i := {| row_key := key; row_window := w; row_last := now |}]> (lm_rows s);
                            lm_overflow := lm_overflow s; lm_owed := owed |}, out)
        | None =>
            let bucket := default (fresh_window now) (ov_window <$> lm_overflow s !! rule) in
            let '(w, out) := charge bucket in
            (set_state e {| lm_rows := lm_rows s; lm_overflow := <[rule := {| ov_window := w |}]> (lm_overflow s);
                            lm_owed := lm_owed s |}, out)
        end
  end.

Section flush.
Context `{HashIter}.

(** One window of [RefusalEmitter::drain]. *)
Definition drain_window (e : RefusalEmitter) (expired_at : option Z) (w : Window) : Window * option string :=
  if match expired_at with Some now => negb (expired (re_window e) now w) | None => false end then (w, None)
  else take_owed w.

(** [RefusalEmitter::drain]. *)
Definition drain (e : RefusalEmitter) (expired_at : option Z) : RefusalEmitter * list string :=
  let s := re_state e in
  let rows := map (fun row => {| row_key := row_key row; row_window := (drain_window e expired_at (row_window row)).1;
                                 row_last := row_last row |}) (lm_rows s) in
  let overflow := (fun b => {| ov_window := (drain_window e expired_at (ov_window b)).1 |}) <$> lm_overflow s in
  let lines := lm_owed s ++
    filter_map (fun row => (drain_window e expired_at (row_window row)).2) (lm_rows s) ++
    filter_map (fun p => (drain_window e expired_at (ov_window p.2)).2) (hash_iter (lm_overflow s)) in
  (set_state e {| lm_rows := rows; lm_overflow := overflow; lm_owed := [] |}, lines).

Definition flush_expired (e : RefusalEmitter) (now : Z) : RefusalEmitter * list string := drain e (Some now).
Definition flush_pending (e : RefusalEmitter) : RefusalEmitter * list string := drain e None.
End flush.

(** * Theorems on the refusal audit

    No refusal is lost to the audit: the counts the lines carry add up.  No
    source spends another's quota: while its window lives, what a source is
    answered depends on its own refusals alone. *)

(** ** Histories *)

Inductive EmitterOp : Type :=
| ORefuse (refusal : Refusal) (answered : bool) (now : Z)
| OFlush (expired_at : option Z).

Inductive EmitterEv : Type :=
| EvOutcome (out : Outcome)
| EvLines (lines : list string).

Definition op_refusal (o : EmitterOp) : bool := match o with ORefuse _ _ _ => true | OFlush _ => false end.
Definition refusals (ops : list EmitterOp) : Z := Z.of_nat (length (filter (fun o => op_refusal o) ops)).
Definition refusal_key (r : Refusal) : ip4 * string := (rf_source r, cl_rule (rf_class r)).

(** The count a line carries: the digits after its last equals sign. *)
Fixpoint count_from (acc : Z) (s : string) : Z :=
  match s with
  | EmptyString => acc
  | String c s =>
      count_from (if bool_decide (c = "="%char) then 0
                  else match to_digit c with Some d => acc * 10 + d | None => acc end) s
  end.
Definition line_count (l : string) : Z := count_from 0 l.

Fixpoint zsum (l : list Z) : Z := match l with [] => 0 | x :: l => x + zsum l end.

(** The lines an event says, and those of a flush among them. *)
Definition ev_lines (ev : EmitterEv) : list string :=
  match ev with EvOutcome (Emit l) => [l] | EvOutcome _ => [] | EvLines ls => ls end.
Definition ev_flushed (ev : EmitterEv) : list string := match ev with EvLines ls => ls | EvOutcome _ => [] end.

Section props.
Context `{HashIter}.

Definition emitter_step (e : RefusalEmitter) (o : EmitterOp) : RefusalEmitter * EmitterEv :=
  match o with
  | ORefuse r answered now => let '(e', out) := refuse e r answered now in (e', EvOutcome out)
  | OFlush (Some now) => let '(e', ls) := flush_expired e now in (e', EvLines ls)
  | OFlush None => let '(e', ls) := flush_pending e in (e', EvLines ls)
  end.

(** At most [cap] refusals between two flushes. *)
Fixpoint paced (cap k : nat) (ops : list EmitterOp) : bool :=
  match ops with
  | [] => true
  | ORefuse _ _ _ :: ops => (k <? cap)%nat && paced cap (S k) ops
  | OFlush _ :: ops => paced cap 0 ops
  end.
End props.

(** ** The count in a line *)

Lemma count_from_app acc s1 s2 : count_from acc (s1 ++ s2)%string = count_from (count_from acc s1) s2.
Proof. revert acc. induction s1 as [|c s1 IH]; intros acc; [done|]. simpl. apply IH. Qed.

Lemma digit_char_eq d : 0 <= d < 10 -> digit_char d <> "="%char.
Proof. intros Hd Heq. pose proof (to_digit_digit_char d Hd) as H. rewrite Heq in H. discriminate H. Qed.

Lemma count_show_digits fuel : forall n acc, 0 <= n < 10 ^ Z.of_nat fuel ->
  count_from 0 (show_digits fuel n acc) = count_from n acc.
Proof.
  induction fuel as [|fuel IH]; intros n acc Hn; cbn [show_digits].
  - change (10 ^ Z.of_nat 0) with 1 in Hn. by replace n with 0 by lia.
  - destruct (n =? 0) eqn:E; bool_to_prop; [by subst|].
    rewrite Nat2Z.inj_succ, Z.pow_succ_r in Hn by lia.
    pose proof (Z.div_mod n 10 ltac:(lia)). pose proof (Z.mod_pos_bound n 10 ltac:(lia)).
    rewrite IH by (split; [apply Z.div_pos|apply Z.div_lt_upper_bound]; lia).
    cbn [count_from]. rewrite bool_decide_eq_false_2 by (by apply digit_char_eq).
    rewrite to_digit_digit_char by done. f_equal. lia.
Qed.

Lemma line_count_audit_line r n : is_u32 n -> line_count (audit_line r n) = n.
Proof.
  intros Hn. unfold line_count, audit_line. rewrite !count_from_app.
  set (acc := count_from _ " refusals="). change acc with (count_from 0 "="). clear acc. cbn [count_from].
  rewrite bool_decide_eq_true_2 by done.
  unfold show_uint. destruct (n =? 0) eqn:E; bool_to_prop; [by subst|].
  rewrite count_show_digits; [done|]. unfold is_u32 in Hn. change (10 ^ Z.of_nat 20) with 100000000000000000000. lia.
Qed.

(** ** Sums *)

Lemma zsum_app l1 l2 : zsum (l1 ++ l2) = zsum l1 + zsum l2.
Proof. induction l1 as [|x l1 IH]; simpl; [done|rewrite IH; lia]. Qed.

#[export] Instance zsum_perm : Proper ((≡ₚ) ==> eq) zsum.
Proof. induction 1; simpl; lia. Qed.

Lemma zsum_insert {A} (f : A -> Z) l i x y :
  l !! i = Some x -> zsum (map f (<[i := y]> l)) = zsum (map f l) - f x + f y.
Proof.
  revert i. induction l as [|z l IH]; intros [|i] H; simpl in *; try done.
  - injection H as <-. lia.
  - rewrite (IH i H). lia.
Qed.

Lemma zsum_nonneg {A} (f : A -> Z) l : Forall (fun x => 0 <= f x) l -> 0 <= zsum (map f l).
Proof. induction 1; simpl; lia. Qed.

Lemma zsum_elem {A} (f : A -> Z) l x : Forall (fun x => 0 <= f x) l -> x ∈ l -> f x <= zsum (map f l).
Proof.
  induction 1 as [|y l Hy Hl IH]; intros Hx; [by apply elem_of_nil in Hx|].
  pose proof (zsum_nonneg f l Hl). apply elem_of_cons in Hx as [->|Hx]; simpl; [lia|]. specialize (IH Hx). lia.
Qed.

(** ** Counts still to be said *)

(** A window that holds a count knows what its line is about. *)
Definition window_ok (n : Z) (w : Window) : Prop :=
  0 <= w_since_line w <= n /\ (w_since_line w <> 0 -> w_owed w <> None).

Lemma take_owed_count n w : window_ok n w -> n < 4294967295 ->
  window_ok n (take_owed w).1 /\ w_since_line (take_owed w).1 = 0 /\
  w_since_line w = match (take_owed w).2 with Some l => line_count l - 1 | None => 0 end.
Proof.
  intros [Hb Ho] Hn. unfold take_owed. destruct (w_since_line w =? 0) eqn:E; bool_to_prop.
  - split; [by split|]. done.
  - destruct (w_owed w) as [o|] eqn:Eo; [|by destruct (Ho E)].
    split; [split; cbn; lia|]. split; [done|]. cbn [snd].
    unfold u32_add. rewrite Z.mod_small by lia. rewrite line_count_audit_line by (unfold is_u32; lia). lia.
Qed.

Lemma account_count n e w r answered now : window_ok n w -> n < 4294967295 ->
  let '(w', out) := account e w r answered now in
  window_ok (n + 1) w' /\
  zsum (map line_count (ev_lines (EvOutcome out))) + w_since_line w' = w_since_line w + 1.
Proof.
  intros [Hb Ho] Hn. unfold account. set (w0 := if expired _ _ _ then _ else _).
  assert (Hw : w_since_line w0 = w_since_line w) by (unfold w0; by destruct (expired _ _ _)).
  unfold u32_add. rewrite Hw. rewrite (Z.mod_small (w_since_line w + 1)) by lia.
  destruct (negb (w_said w0)).
  - split; [split; cbn [w_since_line w_owed]; [lia|done]|]. cbn [ev_lines map zsum w_since_line]. rewrite line_count_audit_line by (unfold is_u32; lia). lia.
  - destruct (negb answered); [|destruct (_ <=? _)]; (split; [split; cbn; [lia|done]|cbn; lia]).
Qed.

Definition row_count (row : Row) : Z := w_since_line (row_window row).
Definition bucket_count (p : string * Overflow) : Z := w_since_line (ov_window p.2).
Definition line_rest (l : string) : Z := line_count l - 1.

Definition pending (s : Limiter) : Z :=
  zsum (map row_count (lm_rows s)) + zsum (map bucket_count (map_to_list (lm_overflow s))) +
  zsum (map line_rest (lm_owed s)).

(** [n] refusals at most are unsaid, [k] of the lines are in the queue. *)
Record limiter_ok (n : Z) (k : nat) (s : Limiter) : Prop := {
  lo_rows : Forall (fun row => window_ok n (row_window row)) (lm_rows s);
  lo_over : forall rule b, lm_overflow s !! rule = Some b -> window_ok n (ov_window b);
  lo_owed : Forall (fun l => 0 <= line_rest l) (lm_owed s);
  lo_queue : (length (lm_owed s) <= k)%nat;
}.

Lemma window_ok_mono n n' w : n <= n' -> window_ok n w -> window_ok n' w.
Proof. intros Hn [Hb Ho]. split; [lia|done]. Qed.

Lemma fresh_ok n now : 0 <= n -> window_ok n (fresh_window now).
Proof. intros Hn. split; cbn; [lia|done]. Qed.

Lemma bucket_insert m rule w :
  zsum (map bucket_count (map_to_list (<[rule := {| ov_window := w |}]> m))) =
  zsum (map bucket_count (map_to_list m)) - (match m !! rule with Some b => w_since_line (ov_window b) | None => 0 end) + w_since_line w.
Proof.
  destruct (m !! rule) as [b|] eqn:E.
  - rewrite <- insert_delete_eq.
    rewrite (map_to_list_insert (delete rule m)) by apply lookup_delete_eq.
    rewrite <- (map_to_list_delete m rule b E). unfold bucket_count. cbn [map zsum snd ov_window]. lia.
  - rewrite map_to_list_insert by done. unfold bucket_count. cbn [map zsum snd ov_window]. lia.
Qed.

(** ** The row an eviction takes *)

Lemma min_by_last_elem l x : min_by_last l = Some x -> x ∈ l.
Proof.
  destruct l as [|y l]; simpl; [done|]. intros [= <-]. revert y.
  induction l as [|z l IH]; intros y; simpl; [by left|].
  specialize (IH (if row_last z.2 <? row_last y.2 then z else y)).
  apply elem_of_cons in IH as [->|IH]; [|by do 2 right].
  destruct (_ <? _); [right; left|left].
Qed.

Lemma min_by_last_None l : min_by_last l = None -> l = [].
Proof. by destruct l. Qed.

(** Only a row whose window is out is ever evicted. *)
Lemma expired_lru_spec rows now window i :
  expired_lru_index rows now window = Some i ->
  exists row, rows !! i = Some row /\ expired window now (row_window row) = true.
Proof.
  unfold expired_lru_index. intros H. apply fmap_Some in H as ([j row] & Hm & ->).
  apply min_by_last_elem, list_elem_of_filter in Hm as [He Hin]. apply elem_of_lookup_imap in Hin as (i & row' & [= <- <-] & Hl).
  exists row. split; [done|]. by apply Is_true_true.
Qed.

(** ** One step *)

Definition same_limits (e e' : RefusalEmitter) : Prop :=
  re_rows e' = re_rows e /\ re_per_window e' = re_per_window e /\ re_window e' = re_window e.

(** The queue after an eviction holds what the evicted window had to say. *)
Lemma evicted_queue n k e w :
  window_ok n w -> n < 4294967295 -> limiter_ok n k (re_state e) -> (k < re_rows e)%nat ->
  let owed := match (take_owed w).2 with Some line => hold e (lm_owed (re_state e)) line | None => lm_owed (re_state e) end in
  Forall (fun l => 0 <= line_rest l) owed /\ (length owed <= S k)%nat /\
  zsum (map line_rest owed) = zsum (map line_rest (lm_owed (re_state e))) + w_since_line w.
Proof.
  intros Hw Hn [_ _ Howed Hq] Hk. destruct (take_owed_count n w Hw Hn) as (_ & _ & Ht).
  assert (Hb : 0 <= w_since_line w) by apply Hw.
  destruct (take_owed w).2 as [l|]; cbv zeta; [|split; [done|]; split; lia].
  unfold hold. rewrite (proj2 (Nat.ltb_lt _ _)) by lia.
  rewrite list.Forall_app, length_app, map_app, zsum_app, list.Forall_singleton. unfold line_rest. simpl.
  split; [split; [done|lia]|lia].
Qed.

Lemma refuse_count n k e r answered now :
  limiter_ok n k (re_state e) -> 0 <= n < 4294967295 -> (k < re_rows e)%nat ->
  let '(e', out) := refuse e r answered now in
  limiter_ok (n + 1) (S k) (re_state e') /\
  zsum (map line_count (ev_lines (EvOutcome out))) + pending (re_state e') = pending (re_state e) + 1.
Proof.
  intros Hok Hn Hk. pose proof Hok as [Hrows Hover Howed Hq]. unfold refuse.
  assert (Hrows' : Forall (fun row => window_ok (n + 1) (row_window row)) (lm_rows (re_state e)))
    by (apply (list.Forall_impl _ _ _ Hrows); intros ? ?; by apply (window_ok_mono n); [lia|]).
  assert (Hover' : forall rule b, lm_overflow (re_state e) !! rule = Some b -> window_ok (n + 1) (ov_window b))
    by (intros ? ? ?; apply (window_ok_mono n); [lia|eauto]).
  pose proof (account_count n e (fresh_window now) r answered now (fresh_ok n now ltac:(lia)) ltac:(lia)) as Hfresh.
  destruct (find_row _ _) as [[i row]|] eqn:Hf.
  { apply list_find_Some in Hf as (Hi & _ & _).
    pose proof (account_count n e (row_window row) r answered now) as Ha.
    destruct (account e (row_window row) r answered now) as [w out].
    destruct Ha as [Hw Hc]; [by apply (Forall_lookup_1 _ _ _ _ Hrows Hi)|lia|]. split.
    - constructor; cbn; [by apply Forall_insert|done|done|lia].
    - unfold pending. cbn [re_state set_state lm_rows lm_overflow lm_owed]. rewrite (zsum_insert row_count _ _ _ _ Hi).
      unfold row_count. cbn [row_window]. lia. }
  destruct (_ <? _)%nat.
  { destruct (account e (fresh_window now) r answered now) as [w out]. destruct Hfresh as [Hw Hc]. split.
    - constructor; cbn; [|done|done|lia]. rewrite list.Forall_app. split; [done|]. by rewrite list.Forall_singleton.
    - unfold pending. cbn [re_state set_state lm_rows lm_overflow lm_owed]. rewrite map_app, zsum_app. cbn [map zsum].
      unfold row_count. cbn [row_window]. cbn [fresh_window w_since_line] in Hc. lia. }
  destruct (expired_lru_index _ _ _) as [i|] eqn:Hx.
  - apply expired_lru_spec in Hx as (row & Hi & _). rewrite Hi.
    destruct (evicted_queue n k e (row_window row) (Forall_lookup_1 _ _ _ _ Hrows Hi) ltac:(lia) Hok Hk) as (Ho1 & Ho2 & Ho3).
    destruct (account e (fresh_window now) r answered now) as [w out]. destruct Hfresh as [Hw Hc]. split.
    + constructor; cbn; [by apply Forall_insert|done|done|lia].
    + unfold pending. cbn [re_state set_state lm_rows lm_overflow lm_owed]. rewrite (zsum_insert row_count _ _ _ _ Hi), Ho3.
      unfold row_count. cbn [row_window]. cbn [fresh_window w_since_line] in Hc. lia.
  - set (rule := cl_rule (rf_class r)). set (b := default _ _).
    assert (Hb : window_ok n b /\ w_since_line b =
      match lm_overflow (re_state e) !! rule with Some b => w_since_line (ov_window b) | None => 0 end).
    { unfold b. destruct (lm_overflow (re_state e) !! rule) as [o|] eqn:E; cbn; [by eauto|].
      split; [apply fresh_ok; lia|done]. }
    destruct Hb as [Hb Hbc]. pose proof (account_count n e b r answered now Hb ltac:(lia)) as Ha.
    destruct (account e b r answered now) as [w out]. destruct Ha as [Hw Hc]. split.
    + constructor; cbn; [done| |done|lia]. intros rule' o Hl. apply lookup_insert_Some in Hl as [[_ <-]|[_ Hl]]; eauto.
    + unfold pending. cbn [re_state set_state lm_rows lm_overflow lm_owed]. rewrite bucket_insert. lia.
Qed.

Lemma drain_window_count n e at_ w : window_ok n w -> n < 4294967295 ->
  window_ok n (drain_window e at_ w).1 /\ (at_ = None -> w_since_line (drain_window e at_ w).1 = 0) /\
  w_since_line w = match (drain_window e at_ w).2 with Some l => line_rest l | None => 0 end + w_since_line (drain_window e at_ w).1.
Proof.
  intros Hw Hn. destruct (take_owed_count n w Hw Hn) as (Hok & H0 & Hc). unfold drain_window.
  destruct (match at_ with Some _ => _ | None => _ end) eqn:E.
  - split; [done|]. split; [by intros ->|done].
  - split; [done|]. split; [done|]. rewrite Hc, H0. unfold line_rest. lia.
Qed.

Lemma zsum_filter_map {A B} (f : A -> option B) (g : B -> Z) l :
  zsum (map g (filter_map f l)) = zsum (map (fun x => match f x with Some y => g y | None => 0 end) l).
Proof. induction l as [|x l IH]; [done|]. simpl. destruct (f x); simpl; lia. Qed.

Lemma zsum_split {A} (f g h : A -> Z) l :
  (forall x, x ∈ l -> f x = g x + h x) -> zsum (map f l) = zsum (map g l) + zsum (map h l).
Proof.
  induction l as [|x l IH]; intros Hx; [done|]. simpl. rewrite (Hx x) by (by left).
  rewrite IH by (intros; apply Hx; by right). lia.
Qed.

Lemma zsum_zero {A} (f : A -> Z) l : (forall x, x ∈ l -> f x = 0) -> zsum (map f l) = 0.
Proof.
  induction l as [|x l IH]; intros Hx; [done|]. simpl. rewrite (Hx x) by (by left). rewrite IH; [done|].
  intros; apply Hx; by right.
Qed.

Lemma drained_rows (f : Window -> Window) rows :
  map row_count (map (fun row => {| row_key := row_key row; row_window := f (row_window row); row_last := row_last row |}) rows) =
  map (fun row => w_since_line (f (row_window row))) rows.
Proof. by rewrite map_map. Qed.

Lemma drained_buckets (f : Window -> Window) (l : list (string * Overflow)) :
  map bucket_count (prod_map id (fun b => {| ov_window := f (ov_window b) |}) <$> l) =
  map (fun p => w_since_line (f (ov_window p.2))) l.
Proof. induction l as [|[k b] l IH]; [done|]. cbn. by rewrite IH. Qed.

Section steps.
Context `{HashIter}.

Lemma drain_count n k e at_ : limiter_ok n k (re_state e) -> n < 4294967295 ->
  let '(e', ls) := drain e at_ in
  limiter_ok n 0 (re_state e') /\ zsum (map line_rest ls) + pending (re_state e') = pending (re_state e) /\
  (at_ = None -> pending (re_state e') = 0).
Proof.
  intros [Hrows Hover Howed Hq] Hn. unfold drain.
  assert (Hr : forall row, row ∈ lm_rows (re_state e) -> window_ok n (row_window row))
    by (rewrite list.Forall_forall in Hrows; exact Hrows).
  assert (Hb : forall p, p ∈ map_to_list (lm_overflow (re_state e)) -> window_ok n (ov_window p.2))
    by (intros [? ?] Hp; apply elem_of_map_to_list in Hp; eauto).
  split; [|split].
  - constructor; cbn; [| |done|done].
    + apply list.Forall_fmap. apply (list.Forall_impl _ _ _ Hrows). intros row Hw. by apply drain_window_count.
    + intros rule b Hl. rewrite lookup_fmap in Hl. apply fmap_Some in Hl as (b0 & Hl & ->). apply drain_window_count; eauto.
  - unfold pending. cbn [re_state set_state lm_rows lm_overflow lm_owed]. rewrite !map_app, !zsum_app, !zsum_filter_map.
    rewrite map_to_list_fmap, (hash_iter_perm (lm_overflow (re_state e))).
    rewrite (zsum_split row_count _ (fun row => w_since_line (drain_window e at_ (row_window row)).1) (lm_rows (re_state e)))
      by (intros row Hin; unfold row_count; by apply (drain_window_count n e at_ (row_window row)); auto).
    rewrite (zsum_split bucket_count _ (fun p => w_since_line (drain_window e at_ (ov_window p.2)).1) (map_to_list _))
      by (intros p Hin; unfold bucket_count; by apply (drain_window_count n e at_ (ov_window p.2)); auto).
    rewrite (drained_rows (fun w => (drain_window e at_ w).1)), (drained_buckets (fun w => (drain_window e at_ w).1)).
    cbn [map zsum]. lia.
  - intros ->. unfold pending. cbn [re_state set_state lm_rows lm_overflow lm_owed].
    rewrite map_to_list_fmap, (drained_rows (fun w => (drain_window e None w).1)), (drained_buckets (fun w => (drain_window e None w).1)).
    rewrite (zsum_zero _ (lm_rows _)) by (intros row Hin; by apply (drain_window_count n e None (row_window row)); auto).
    rewrite (zsum_zero _ (map_to_list _)) by (intros p Hin; by apply (drain_window_count n e None (ov_window p.2)); auto).
    done.
Qed.

Lemma step_limits e o : same_limits e (emitter_step e o).1.
Proof.
  destruct o as [r a now|[now|]]; [|done..]. unfold emitter_step, refuse.
  destruct (find_row _ _) as [[i row]|]; [by destruct (account _ _ _ _ _)|].
  destruct (_ <? _)%nat; [by destruct (account _ _ _ _ _)|].
  destruct (expired_lru_index _ _ _); by destruct (account _ _ _ _ _).
Qed.

Lemma flush_drain e at_ : emitter_step e (OFlush at_) = let '(e', ls) := drain e at_ in (e', EvLines ls).
Proof. by destruct at_. Qed.

Lemma zsum_rest ls : zsum (map line_rest ls) = zsum (map line_count ls) - Z.of_nat (length ls).
Proof. induction ls as [|l ls IH]; [done|]. cbn [map zsum length]. unfold line_rest at 1. lia. Qed.

Lemma run_count ops : forall n k e,
  limiter_ok n k (re_state e) -> 0 <= n -> n + refusals ops < 4294967295 -> paced (re_rows e) k ops = true ->
  let evs := (run emitter_step e (ops ++ [OFlush None])).2 in
  zsum (map line_count (evs ≫= ev_lines)) = pending (re_state e) + refusals ops + Z.of_nat (length (evs ≫= ev_flushed)).
Proof.
  induction ops as [|o ops IH]; intros n k e Hok Hn Hb Hp; cbn [app run].
  - rewrite flush_drain. pose proof (drain_count n k e None Hok) as Hd. destruct (drain e None) as [e' ls].
    destruct Hd as (_ & Hs & H0); [unfold refusals in Hb; simpl in Hb; lia|]. specialize (H0 eq_refl).
    simpl. rewrite !app_nil_r. rewrite zsum_rest in Hs. unfold refusals. simpl. lia.
  - pose proof (step_limits e o) as (Hl & _ & _). destruct o as [r answered now|at_].
    + cbn [paced] in Hp. apply andb_true_iff in Hp as [Hk Hp]. apply Nat.ltb_lt in Hk.
      assert (Hr : refusals (ORefuse r answered now :: ops) = refusals ops + 1) by (unfold refusals; simpl; lia).
      rewrite Hr in *. cbn [emitter_step] in *. pose proof (refuse_count n k e r answered now Hok) as Hc.
      assert (Hnn : 0 <= refusals ops) by (unfold refusals; lia).
      destruct (refuse e r answered now) as [e' out]. destruct Hc as [Hok' Hc]; [lia|done|]. cbn [fst] in Hl.
      specialize (IH (n + 1) (S k) e' Hok' ltac:(lia) ltac:(lia)). rewrite Hl in IH. specialize (IH Hp).
      destruct (run emitter_step e' _) as [e2 evs]. cbn [snd] in *.
      cbn [mbind list_bind]. rewrite map_app, zsum_app, IH. cbn [ev_flushed app]. lia.
    + change (refusals (OFlush at_ :: ops)) with (refusals ops) in *. rewrite flush_drain in *.
      assert (Hnn : 0 <= refusals ops) by (unfold refusals; lia).
      pose proof (drain_count n k e at_ Hok ltac:(lia)) as Hd. destruct (drain e at_) as [e' ls].
      destruct Hd as (Hok' & Hs & _). cbn [fst] in Hl. cbn [paced] in Hp.
      specialize (IH n 0%nat e' Hok' Hn Hb). rewrite Hl in IH. specialize (IH Hp).
      destruct (run emitter_step e' _) as [e2 evs]. cbn [snd] in *.
      cbn [mbind list_bind]. rewrite map_app, zsum_app, IH, length_app. cbn [ev_flushed ev_lines].
      rewrite zsum_rest in Hs. lia.
Qed.
End steps.

(** ** One source's window among the others *)

Definition row_ok (per_window : Z) (row : Row) : Prop :=
  w_said (row_window row) = true /\ 0 <= w_written (row_window row) <= per_window.

Record rows_ok (e : RefusalEmitter) : Prop := {
  ro_keys : NoDup (map row_key (lm_rows (re_state e)));
  ro_rows : Forall (row_ok (re_per_window e)) (lm_rows (re_state e));
}.

(** The instant an operation reads the clock at, if it does. *)
Definition op_time (o : EmitterOp) : option Z := match o with ORefuse _ _ now => Some now | OFlush at_ => at_ end.

(** An operation while a window that started at [t] lives. *)
Definition within (t window : Z) (o : EmitterOp) : Prop := forall now, op_time o = Some now -> now < t + window.

Lemma not_expired window now w : 0 < window -> now < w_started w + window -> expired window now w = false.
Proof. intros Hw Hn. unfold expired, duration_since. apply Z.leb_gt. lia. Qed.

Lemma account_ok e w r answered now : is_u32 (re_per_window e) -> 0 <= w_written w <= re_per_window e ->
  let w' := (account e w r answered now).1 in w_said w' = true /\ 0 <= w_written w' <= re_per_window e.
Proof.
  intros Hp Hw. unfold is_u32 in Hp. unfold account. set (w0 := if expired _ _ _ then _ else _).
  assert (Hw0 : 0 <= w_written w0 <= re_per_window e) by (unfold w0; destruct (expired _ _ _); cbn; lia).
  unfold u32_add. destruct (w_said w0) eqn:Es; cbn [negb].
  - destruct (negb answered); [done|]. destruct (_ <=? _) eqn:E; bool_to_prop; [done|].
    cbn [fst w_said w_written]. rewrite Z.mod_small by lia. split; [done|lia].
  - cbn [fst w_said w_written]. destruct (answered && _) eqn:E; [|done]. apply andb_true_iff in E as [_ E]. bool_to_prop.
    rewrite Z.mod_small by lia. split; [done|lia].
Qed.

(** What a refusal gets from a live window whose line is said. *)
Lemma account_live e w r answered now :
  w_said w = true -> expired (re_window e) now w = false -> is_u32 (re_per_window e) -> 0 <= w_written w <= re_per_window e ->
  account e w r answered now =
  ({| w_started := w_started w;
      w_written := if answered && (w_written w <? re_per_window e) then w_written w + 1 else w_written w;
      w_since_line := u32_add (w_since_line w) 1; w_said := true;
      w_owed := Some {| ow_class := rf_class r; ow_source := rf_source r; ow_address := rf_address r; ow_about := rf_about r |} |},
   if answered && (re_per_window e <=? w_written w) then Suppressed else Quiet).
Proof.
  intros Hs He Hp Hw. unfold is_u32 in Hp. unfold account. rewrite He, Hs. cbn [negb].
  destruct answered; cbn [negb andb]; [|done].
  destruct (re_per_window e <=? w_written w) eqn:E; bool_to_prop.
  - by rewrite (proj2 (Z.ltb_ge _ _)) by lia.
  - rewrite (proj2 (Z.ltb_lt _ _)) by lia. 
    by replace (u32_add (w_written w) 1) with (w_written w + 1) by (unfold u32_add; rewrite Z.mod_small; lia).
Qed.

Lemma drain_window_keeps e at_ w :
  let w' := (drain_window e at_ w).1 in
  w_started w' = w_started w /\ w_written w' = w_written w /\ w_said w' = w_said w.
Proof.
  unfold drain_window, take_owed. destruct (match at_ with Some _ => _ | None => _ end); [done|].
  destruct (_ =? 0); [done|]. by destruct (w_owed w).
Qed.

Section isolation.
Context `{HashIter}.

Lemma find_row_None rows key : find_row rows key = None -> key ∉ map row_key rows.
Proof.
  intros Hf Hin. apply list_find_None in Hf. apply list_elem_of_fmap in Hin as (row & -> & Hin).
  rewrite list.Forall_forall in Hf. by apply (Hf row).
Qed.

Lemma find_row_Some rows key i row :
  NoDup (map row_key rows) -> (find_row rows key = Some (i, row) <-> rows !! i = Some row /\ row_key row = key).
Proof.
  intros Hnd. unfold find_row. rewrite list_find_Some. split; [tauto|]. intros [Hi Hk]. split; [done|]. split; [done|].
  intros j row' Hj Hlt Hk'. assert (j = i); [|lia].
  apply (NoDup_lookup (map row_key rows) j i key); [done| |]; rewrite list_lookup_fmap.
  - by rewrite Hj; cbn; rewrite Hk'.
  - by rewrite Hi; cbn; rewrite Hk.
Qed.

Lemma nodup_insert {A} (l : list A) i x : NoDup l -> x ∉ l -> NoDup (<[i := x]> l).
Proof.
  intros Hnd Hx. apply NoDup_alt. intros j k y Hj Hk.
  apply list_lookup_insert_Some in Hj as [(<- & <- & ?)|[Hne Hj]]; apply list_lookup_insert_Some in Hk as [(<- & ? & ?)|[Hne' Hk]].
  - done.
  - destruct Hx. by eapply list_elem_of_lookup_2.
  - subst. destruct Hx. by eapply list_elem_of_lookup_2.
  - by eapply NoDup_lookup.
Qed.

Lemma map_insert_row (f : Row -> ip4 * string) rows i row : map f (<[i := row]> rows) = <[i := f row]> (map f rows).
Proof. apply list_fmap_insert. Qed.

Lemma refuse_rows_ok e r answered now : is_u32 (re_per_window e) -> rows_ok e -> rows_ok (refuse e r answered now).1.
Proof.
  intros Hp [Hnd Hrows]. unfold refuse.
  assert (Hfresh : row_ok (re_per_window e) {| row_key := refusal_key r; row_window := (account e (fresh_window now) r answered now).1; row_last := now |}).
  { apply account_ok; [done|]. cbn [fresh_window w_written]. unfold is_u32 in Hp. lia. }
  destruct (find_row _ _) as [[i row]|] eqn:Hf.
  { apply (find_row_Some _ _ _ _ Hnd) in Hf as [Hi Hk].
    pose proof (account_ok e (row_window row) r answered now Hp (proj2 (Forall_lookup_1 _ _ _ _ Hrows Hi))) as Ha.
    destruct (account e (row_window row) r answered now) as [w out].
    constructor; cbn [fst set_state re_state lm_rows re_per_window]; [|by apply Forall_insert].
    rewrite map_insert_row. cbn [row_key]. rewrite list_insert_id; [done|]. rewrite list_lookup_fmap, Hi. done. }
  apply find_row_None in Hf. destruct (_ <? _)%nat.
  { destruct (account e (fresh_window now) r answered now) as [w out].
    constructor; cbn [fst set_state re_state lm_rows re_per_window].
    - rewrite map_app. apply list.NoDup_app. split; [done|]. split; [|apply NoDup_singleton].
      intros x Hx ->%list_elem_of_singleton. by apply Hf.
    - apply list.Forall_app. split; [done|]. by apply list.Forall_singleton. }
  destruct (expired_lru_index _ _ _) as [i|].
  - destruct (account e (fresh_window now) r answered now) as [w out].
    constructor; cbn [fst set_state re_state lm_rows re_per_window]; [|by apply Forall_insert].
    rewrite map_insert_row. by apply nodup_insert.
  - set (b := default _ _). by destruct (account e b r answered now).
Qed.

Lemma drain_rows_ok e at_ : rows_ok e -> rows_ok (drain e at_).1.
Proof.
  intros [Hnd Hrows]. constructor; cbn [drain fst set_state re_state lm_rows re_per_window].
  - by rewrite map_map.
  - apply list.Forall_fmap. apply (list.Forall_impl _ _ _ Hrows). intros row [Hs Hw].
    destruct (drain_window_keeps e at_ (row_window row)) as (_ & Hw' & Hs'). unfold row_ok, compose. cbn [row_window].
    by rewrite Hw', Hs'.
Qed.

Lemma step_rows_ok e o : is_u32 (re_per_window e) -> rows_ok e -> rows_ok (emitter_step e o).1.
Proof.
  intros Hp Hok. destruct o as [r a now|at_].
  - pose proof (refuse_rows_ok e r a now Hp Hok) as Hr. cbn [emitter_step]. by destruct (refuse e r a now).
  - pose proof (drain_rows_ok e at_ Hok) as Hr. rewrite flush_drain. by destruct (drain e at_).
Qed.

(** The quota a live row has left, and the answer a refusal of its own gets. *)
Definition quota_left (e : RefusalEmitter) (row : Row) : Z := re_per_window e - w_written (row_window row).
Definition own_answer (left : Z) (answered : bool) : Outcome := if answered && (left <=? 0) then Suppressed else Quiet.
Definition own_spend (left : Z) (answered : bool) : Z := if answered && (0 <? left) then left - 1 else left.

Lemma quota_spent per written : (per - written <=? 0) = (per <=? written).
Proof. apply eq_bool_prop_intro. rewrite !Is_true_true, !Z.leb_le. lia. Qed.
Lemma quota_left_pos per written : (0 <? per - written) = (written <? per).
Proof. apply eq_bool_prop_intro. rewrite !Is_true_true, !Z.ltb_lt. lia. Qed.

(** What one operation does to a live row and answers about it. *)
Definition row_step (e : RefusalEmitter) (j : nat) (row : Row) (o : EmitterOp) (e' : RefusalEmitter) (ev : EmitterEv) : Prop :=
  exists row', lm_rows (re_state e') !! j = Some row' /\ row_key row' = row_key row /\
    w_started (row_window row') = w_started (row_window row) /\
    match o with
    | ORefuse r answered _ =>
        if decide (refusal_key r = row_key row)
        then ev = EvOutcome (own_answer (quota_left e row) answered) /\ quota_left e' row' = own_spend (quota_left e row) answered
        else quota_left e' row' = quota_left e row
    | OFlush _ => quota_left e' row' = quota_left e row
    end.

(** A refusal of another source that leaves the row in its place. *)
Lemma row_kept e e' ev j row r answered now :
  lm_rows (re_state e') !! j = Some row -> re_per_window e' = re_per_window e -> refusal_key r <> row_key row ->
  row_step e j row (ORefuse r answered now) e' ev.
Proof.
  intros Hj Hp Hne. exists row. do 3 (split; [done|]). rewrite decide_False by done. unfold quota_left. by rewrite Hp.
Qed.

Lemma live_row_step e j row o :
  rows_ok e -> is_u32 (re_per_window e) -> 0 < re_window e -> lm_rows (re_state e) !! j = Some row ->
  within (w_started (row_window row)) (re_window e) o ->
  row_step e j row o (emitter_step e o).1 (emitter_step e o).2.
Proof.
  intros [Hnd Hrows] Hp Hw Hj Hin. destruct (Forall_lookup_1 _ _ _ _ Hrows Hj) as [Hs Hb].
  destruct o as [r answered now|at_].
  2: { rewrite flush_drain. destruct (drain_window_keeps e at_ (row_window row)) as (Hst & Hwr & _).
       eexists. cbn [drain fst set_state re_state lm_rows]. split; [by rewrite list_lookup_fmap, Hj|].
       split; [done|]. split; [exact Hst|]. unfold quota_left. cbn [row_window re_per_window]. by rewrite Hwr. }
  pose proof (not_expired (re_window e) now (row_window row) Hw (Hin now eq_refl)) as Hlive.
  cbn [emitter_step]. unfold refuse.
  destruct (find_row _ _) as [[i row0]|] eqn:Hf.
  - apply (find_row_Some _ _ _ _ Hnd) in Hf as [Hi Hk]. destruct (decide (i = j)) as [->|Hne].
    + rewrite Hj in Hi. injection Hi as <-. rewrite (account_live e _ _ _ _ Hs Hlive Hp Hb).
      unfold row_step. cbn [fst snd set_state re_state lm_rows]. eexists.
      split; [by rewrite list_lookup_insert_eq by (by eapply lookup_lt_Some)|]. split; [done|]. split; [done|].
      rewrite decide_True by done. unfold quota_left, own_answer, own_spend. cbn [row_window w_written set_state re_per_window].
      rewrite quota_spent, quota_left_pos. split; [done|]. by destruct (answered && _); lia.
    + destruct (account e (row_window row0) r answered now) as [w out].
      apply row_kept; [cbn [fst set_state re_state lm_rows]; by rewrite list_lookup_insert_ne|done|].
      intros Heq. apply Hne.
      apply (NoDup_lookup (map row_key (lm_rows (re_state e))) i j (row_key row)); [done| |]; rewrite list_lookup_fmap.
      * rewrite Hi. cbn. f_equal. by rewrite Hk, <- Heq.
      * by rewrite Hj.
  - apply find_row_None in Hf. assert (Hne : refusal_key r <> row_key row).
    { intros Heq. apply Hf. unfold refusal_key in Heq. rewrite Heq. apply list_elem_of_fmap. exists row. split; [done|].
      by eapply list_elem_of_lookup_2. }
    destruct (_ <? _)%nat.
    { destruct (account e (fresh_window now) r answered now) as [w out]. apply row_kept; [|done..].
      cbn [fst set_state re_state lm_rows]. by apply lookup_app_l_Some. }
    destruct (expired_lru_index _ _ _) as [i|] eqn:Hx.
    + apply expired_lru_spec in Hx as (row0 & Hi & He).
      destruct (account e (fresh_window now) r answered now) as [w out]. apply row_kept; [|done..].
      cbn [fst set_state re_state lm_rows]. rewrite list_lookup_insert_ne; [done|]. intros ->. congruence.
    + set (b := default _ _). destruct (account e b r answered now) as [w out]. by apply row_kept.
Qed.

(** ** Claims *)

(** The flags of a source's own refusals, and what it was answered. *)
Fixpoint own_flags (key : ip4 * string) (ops : list EmitterOp) : list bool :=
  match ops with
  | [] => []
  | ORefuse r answered _ :: ops =>
      if decide (refusal_key r = key) then answered :: own_flags key ops else own_flags key ops
  | OFlush _ :: ops => own_flags key ops
  end.
Fixpoint own_outcomes (key : ip4 * string) (ops : list EmitterOp) (evs : list EmitterEv) : list EmitterEv :=
  match ops, evs with
  | ORefuse r _ _ :: ops, ev :: evs =>
      if decide (refusal_key r = key) then ev :: own_outcomes key ops evs else own_outcomes key ops evs
  | OFlush _ :: ops, _ :: evs => own_outcomes key ops evs
  | _, _ => []
  end.

(** A quota of [left] replies: those that ask for one get one while it lasts. *)
Fixpoint quota (left : Z) (flags : list bool) : list EmitterEv :=
  match flags with
  | [] => []
  | answered :: flags => EvOutcome (own_answer left answered) :: quota (own_spend left answered) flags
  end.

Lemma live_row_run ops : forall e j row,
  rows_ok e -> is_u32 (re_per_window e) -> 0 < re_window e -> lm_rows (re_state e) !! j = Some row ->
  Forall (within (w_started (row_window row)) (re_window e)) ops ->
  own_outcomes (row_key row) ops (run emitter_step e ops).2 = quota (quota_left e row) (own_flags (row_key row) ops).
Proof.
  induction ops as [|o ops IH]; intros e j row Hok Hp Hw Hj Hin; [done|].
  apply list.Forall_cons in Hin as [Ho Hin].
  pose proof (live_row_step e j row o Hok Hp Hw Hj Ho) as (row' & Hj' & Hk & Hs & Hstep).
  pose proof (step_rows_ok e o Hp Hok) as Hok'. destruct (step_limits e o) as (_ & Hp' & Hw').
  specialize (IH (emitter_step e o).1 j row' Hok'). rewrite Hp', Hw', Hk, Hs in IH. specialize (IH Hp Hw Hj' Hin).
  cbn [run]. destruct (emitter_step e o) as [e' ev]. cbn [fst snd] in *. destruct (run emitter_step e' ops) as [e2 evs].
  destruct o as [r answered now|at_]; cbn [own_outcomes own_flags snd] in *.
  - destruct (decide _); [|by rewrite IH, Hstep]. destruct Hstep as [-> Hq]. cbn [quota]. by rewrite IH, Hq.
  - by rewrite IH, Hstep.
Qed.

Lemma new_rows_ok rows per window : rows_ok (emitter_new rows per window).
Proof. constructor; cbn; [apply NoDup_nil_2|done]. Qed.

Lemma reach_rows_ok rows per window ops : is_u32 per ->
  let e := run_state emitter_step (emitter_new rows per window) ops in
  rows_ok e /\ re_per_window e = per /\ re_window e = window.
Proof.
  intros Hp. apply (run_state_ind emitter_step (fun e => rows_ok e /\ re_per_window e = per /\ re_window e = window)).
  - split; [apply new_rows_ok|done].
  - intros e o _ (Hok & He & Hw). destruct (step_limits e o) as (_ & Hp' & Hw'). rewrite Hp', Hw'.
    split; [|done]. apply step_rows_ok; [by rewrite He|done].
Qed.

(** The audit accounts for every refusal.  On every history with a
    flush at least every [rows] refusals, as the callers flush before each
    one, and a teardown flush at its end, the counts the lines carry add up
    to the number of refusals, plus one for every line a flush said, since
    such a line counts again the refusal its window opened with.  So no count
    is lost to an eviction, a roll of a window or the end. *)
Theorem emitter_counts_conserved (rows : nat) (per_window window : Z) (ops : list EmitterOp)
    (Hpaced : paced rows 0 ops = true) (Hfew : refusals ops < 4294967295) :
  let evs := (run emitter_step (emitter_new rows per_window window) (ops ++ [OFlush None])).2 in
  zsum (map line_count (evs ≫= ev_lines)) = refusals ops + Z.of_nat (length (evs ≫= ev_flushed)).
Proof.
  apply (run_count ops 0 0 (emitter_new rows per_window window)); [|lia|lia|done].
  constructor; cbn; [done|by intros|done|lia].
Qed.

(** No source spends another's quota.  Take any emitter a history leads
    to, and any (source, rule) row in it.  While that row's window lives,
    whatever else happens (other sources' refusals in any number and order,
    evictions, overflow, flushes), that source's own refusals under the rule
    are answered as its own quota alone says: each that asks for a reply is
    answered until what is left of the window's quota is spent, the rest are
    suppressed, and none says another line. *)
Theorem source_keeps_own_quota (rows : nat) (per_window window : Z) (past ops : list EmitterOp) (row : Row)
    (Hper : is_u32 per_window) (Hwindow : 0 < window)
    (Hrow : row ∈ lm_rows (re_state (run_state emitter_step (emitter_new rows per_window window) past)))
    (Hlive : Forall (within (w_started (row_window row)) window) ops) :
  let e := run_state emitter_step (emitter_new rows per_window window) past in
  own_outcomes (row_key row) ops (run emitter_step e ops).2 =
  quota (per_window - w_written (row_window row)) (own_flags (row_key row) ops).
Proof.
  cbv zeta. destruct (reach_rows_ok rows per_window window past Hper) as (Hok & Hp & Hw).
  apply list_elem_of_lookup in Hrow as [j Hj].
  rewrite (live_row_run ops _ j row Hok); [|by rewrite Hp|by rewrite Hw|done|by rewrite Hw].
  unfold quota_left. by rewrite Hp.
Qed.
End isolation.

(** ** A flood beside a quiet source *)

Module EmitterSample.

Definition from (a : Z) : Refusal :=
  {| rf_class := UNPUBLISHED_PORT; rf_source := Ip4 100 64 0 a; rf_address := Ip4 100 64 0 9; rf_about := AboutPort 80 |}.

(** Two rows; a third source while both live, then again once they are out. *)
Definition flood : list EmitterOp :=
  [OFlush (Some 0); ORefuse (from 1) true 0; OFlush (Some 1); ORefuse (from 1) true 1;
   OFlush (Some 2); ORefuse (from 2) true 2; OFlush (Some 3); ORefuse (from 3) true 3;
   OFlush (Some 4); ORefuse (from 1) true 4; ORefuse (from 3) true 20].

Lemma emitter_counts_conserved_witness :
  let evs := (run emitter_step (emitter_new 2 2 10) (flood ++ [OFlush None])).2 in
  zsum (map line_count (evs ≫= ev_lines)) = 6 + Z.of_nat (length (evs ≫= ev_flushed)).
Proof. apply (emitter_counts_conserved 2 2 10 flood); [reflexivity|]. vm_compute. reflexivity. Defined.

(** The one line a flush says here counts a refusal a line already counted. *)
Example flood_lines :
  map line_count ((run emitter_step (emitter_new 2 2 10) (flood ++ [OFlush None])).2 ≫= ev_lines) = [1; 1; 1; 1; 3].
Proof. vm_compute. reflexivity. Qed.

Definition quiet_row : Row :=
  {| row_key := refusal_key (from 1);
     row_window := {| w_started := 0; w_written := 1; w_since_line := 0; w_said := true;
                      w_owed := Some {| ow_class := UNPUBLISHED_PORT; ow_source := Ip4 100 64 0 1;
                                        ow_address := Ip4 100 64 0 9; ow_about := AboutPort 80 |} |};
     row_last := 0 |}.

Lemma source_keeps_own_quota_witness :
  own_outcomes (refusal_key (from 1)) (drop 2 (take 10 flood))
    (run emitter_step (run_state emitter_step (emitter_new 2 2 10) (take 2 flood)) (drop 2 (take 10 flood))).2 =
  [EvOutcome Quiet; EvOutcome Suppressed].
Proof.
  rewrite (source_keeps_own_quota 2 2 10 (take 2 flood) (drop 2 (take 10 flood)) quiet_row).
  - vm_compute. reflexivity.
  - unfold is_u32. lia.
  - lia.
  - vm_compute. left.
  - repeat (apply Forall_cons_2; [intros now Hnow; injection Hnow as <-; vm_compute; reflexivity|]). apply Forall_nil_2.
Defined.
End EmitterSample.
