(* ===== verification/Baseline.v ===== *)
(** * The node-plane baseline (crates/minvmd/src/net/baseline.rs)

    The set of services the in-VM daemon's own traffic may reach: categories
    with their endpoints, the rules they compile to, and the deployment's
    environment variables that re-point a category.  The live host-exposure
    table the set also carries is outside the model, as are the log lines. *)

From stdpp Require Import base list gmap strings numbers.
From Stdlib Require Import ZArith Lia Ascii.
From S2P Require Import Prelude Text Egress EgressProps Switch.
Open Scope Z_scope.

Inductive BaselineCategory : Type := CatRegistry | CatCache.

#[global] Instance BaselineCategory_eq_dec : EqDecision BaselineCategory.
Proof. solve_decision. Defined.

Definition category_as_str (c : BaselineCategory) : string :=
  match c with CatRegistry => "registry" | CatCache => "cache" end.

Record BaselineEntry : Type := { be_category : BaselineCategory; be_endpoints : list string }.

#[global] Instance BaselineEntry_eq_dec : EqDecision BaselineEntry.
Proof. solve_decision. Defined.

(** [BaselineEntry::cidrs]. *)
Definition entry_cidrs (e : BaselineEntry) : list Ipv4Cidr := filter_map cidr_parse (be_endpoints e).

(** The normalization closure of [BaselineEntry::names]. *)
Definition endpoint_name (name : string) : string :=
  let lowered := to_ascii_lowercase (trim name) in
  match strip_suffix "." lowered with Some s => s | None => lowered end.

(** [BaselineEntry::names]. *)
Definition entry_names (e : BaselineEntry) : list string :=
  filter (fun name => name <> EmptyString)
    (map endpoint_name (filter (fun endpoint => cidr_parse endpoint = None) (be_endpoints e))).

Inductive NodeBaselinePhase : Type := Announced | InForce.
#[global] Instance NodeBaselinePhase_eq_dec : EqDecision NodeBaselinePhase.
Proof. solve_decision. Defined.

Definition NODE_BASELINE_PHASE : NodeBaselinePhase := InForce.
Definition DAEMON_REGISTRY_ENDPOINT : string := "github.com".
Definition DAEMON_CACHE_ENDPOINT : string := "cache.minimal.dev".
Definition BASELINE_REGISTRY_ENV : string := "MINVMD_BASELINE_REGISTRY".
Definition BASELINE_CACHE_ENV : string := "MINVMD_BASELINE_CACHE".
Definition HOST_ALIAS_NAME : string := "host.min.internal".
Definition ALIAS_FETCH_PORTS : list Z := [443].

(** [std::env::var]. *)
Inductive EnvVar : Type := EnvOk (raw : string) | EnvNotPresent | EnvNotUnicode.

Definition is_ascii_alphanumeric (c : ascii) : bool :=
  let n := Z.of_nat (nat_of_ascii c) in
  is_ascii_digit c || ((65 <=? n) && (n <=? 90)) || ((97 <=? n) && (n <=? 122)).

(** The host-name test of [baseline_endpoints_from_raw]. *)
Definition is_host_label (label : string) : bool :=
  negb (bool_decide (label = EmptyString)) && (String.length label <=? 63)%nat
  && str_all (fun b => is_ascii_alphanumeric b || bool_decide (b = "-"%char)) label.
Definition is_host_name (term : string) : bool :=
  forallb is_host_label (str_split "." (trim_end_matches "." term)).

(** The filter of [baseline_endpoints_from_raw]. *)
Definition endpoint_valid (term : string) : bool :=
  if bool_decide (is_Some (parse_ipv4 term)) then false
  else if str_contains "/" term then bool_decide (is_Some (cidr_parse term))
  else is_host_name term.

(** [baseline_endpoints_from_raw]. *)
Definition baseline_endpoints_from_raw (raw : string) : list string :=
  filter (fun term => endpoint_valid term = true)
    (filter (fun term => term <> EmptyString) (map trim (str_split "," raw))).

(** [baseline_endpoints_from_env]. *)
Definition baseline_endpoints_from_env (env : string -> EnvVar) (var : string) : option (list string) :=
  match env var with
  | EnvOk raw => Some (baseline_endpoints_from_raw raw)
  | EnvNotPresent | EnvNotUnicode => None
  end.

Record NodePlaneBaseline : Type := {
  nb_node_addr : ip4;
  nb_resolver : ip4;
  nb_entries : list BaselineEntry;
  nb_rules : EgressRules;
  nb_phase : NodeBaselinePhase;
  nb_alias : ip4;
  nb_alias_ports : list (Z * Z);
}.

(** [NodePlaneBaseline::compile_rules]. *)
Definition compile_rules (entries : list BaselineEntry) (resolver node_addr : ip4) : EgressRules :=
  egress_rules_new None (Some (mjoin (map entry_cidrs entries))) None resolver node_addr.

(** [NodePlaneBaseline::compile_alias_ports]. *)
Definition compile_alias_ports (entries : list BaselineEntry) (alias : ip4) : list (Z * Z) :=
  let names_alias := existsb (fun entry =>
    existsb (fun cidr => cidr_contains cidr alias) (entry_cidrs entry)
    || existsb (fun name => bool_decide (name = HOST_ALIAS_NAME)) (entry_names entry)) entries in
  if names_alias then map (fun port => (port, port)) ALIAS_FETCH_PORTS else [].

(** [NodePlaneBaseline::from_entries]. *)
Definition from_entries (node_addr resolver alias : ip4) (entries : list BaselineEntry) : NodePlaneBaseline :=
  {| nb_node_addr := node_addr; nb_resolver := resolver; nb_entries := entries;
     nb_rules := compile_rules entries resolver node_addr;
     nb_phase := NODE_BASELINE_PHASE; nb_alias := alias;
     nb_alias_ports := compile_alias_ports entries alias |}.

(** [entries.iter_mut().find(..)] with its endpoints replaced, or a new entry
    at the end. *)
Fixpoint repoint (category : BaselineCategory) (endpoints : list string) (entries : list BaselineEntry)
    : list BaselineEntry :=
  match entries with
  | [] => [{| be_category := category; be_endpoints := endpoints |}]
  | e :: rest =>
      if bool_decide (be_category e = category)
      then {| be_category := be_category e; be_endpoints := endpoints |} :: rest
      else e :: repoint category endpoints rest
  end.

(** [NodePlaneBaseline::replace]. *)
Definition baseline_replace (b : NodePlaneBaseline) (category : BaselineCategory) (endpoints : list string)
    : NodePlaneBaseline :=
  let entries := repoint category endpoints (nb_entries b) in
  {| nb_node_addr := nb_node_addr b; nb_resolver := nb_resolver b; nb_entries := entries;
     nb_rules := compile_rules entries (nb_resolver b) (nb_node_addr b);
     nb_phase := nb_phase b; nb_alias := nb_alias b;
     nb_alias_ports := compile_alias_ports entries (nb_alias b) |}.

Definition with_registry (b : NodePlaneBaseline) (endpoints : list string) : NodePlaneBaseline :=
  baseline_replace b CatRegistry endpoints.
Definition with_cache (b : NodePlaneBaseline) (endpoints : list string) : NodePlaneBaseline :=
  baseline_replace b CatCache endpoints.

(** [NodePlaneBaseline::built_in]. *)
Definition built_in (env : string -> EnvVar) (subnet : SwitchSubnet) : NodePlaneBaseline :=
  let baseline := from_entries (daemon_ip subnet) (dns_server subnet) (host_alias subnet)
    [{| be_category := CatRegistry; be_endpoints := [DAEMON_REGISTRY_ENDPOINT] |};
     {| be_category := CatCache; be_endpoints := [DAEMON_CACHE_ENDPOINT] |}] in
  let baseline := match baseline_endpoints_from_env env BASELINE_REGISTRY_ENV with
                  | Some endpoints => with_registry baseline endpoints
                  | None => baseline
                  end in
  match baseline_endpoints_from_env env BASELINE_CACHE_ENV with
  | Some endpoints => with_cache baseline endpoints
  | None => baseline
  end.

(** One name of one entry, in [NodePlaneBaseline::named_endpoints]. *)
Fixpoint add_name (name : string) (category : BaselineCategory)
    (named : list (string * list BaselineCategory)) : list (string * list BaselineCategory) :=
  match named with
  | [] => [(name, [category])]
  | (known, categories) :: rest =>
      if bool_decide (known = name)
      then (known, if bool_decide (category ∈ categories) then categories else categories ++ [category]) :: rest
      else (known, categories) :: add_name name category rest
  end.

(** [NodePlaneBaseline::named_endpoints]. *)
Definition named_endpoints (b : NodePlaneBaseline) : list (string * list BaselineCategory) :=
  foldl (fun named entry =>
    foldl (fun named name => add_name name (be_category entry) named) named (entry_names entry))
    [] (nb_entries b).

(** ** Lemmas *)

(** A baseline compiled from its entries, for one fabric. *)
Record compiled (subnet : SwitchSubnet) (b : NodePlaneBaseline) : Prop := {
  co_node : nb_node_addr b = daemon_ip subnet;
  co_resolver : nb_resolver b = gateway subnet;
  co_alias : nb_alias b = host_alias subnet;
  co_rules : nb_rules b = compile_rules (nb_entries b) (nb_resolver b) (nb_node_addr b);
  co_ports : nb_alias_ports b = compile_alias_ports (nb_entries b) (nb_alias b);
  co_phase : nb_phase b = InForce;
}.

Lemma replace_compiled subnet b c endpoints : compiled subnet b -> compiled subnet (baseline_replace b c endpoints).
Proof. by intros []. Qed.

Lemma built_in_compiled env subnet : compiled subnet (built_in env subnet).
Proof.
  unfold built_in, with_registry, with_cache.
  destruct (baseline_endpoints_from_env env BASELINE_REGISTRY_ENV),
           (baseline_endpoints_from_env env BASELINE_CACHE_ENV); by repeat apply replace_compiled.
Qed.

Lemma built_in_categories env subnet : map be_category (nb_entries (built_in env subnet)) = [CatRegistry; CatCache].
Proof.
  unfold built_in. by destruct (baseline_endpoints_from_env env BASELINE_REGISTRY_ENV),
           (baseline_endpoints_from_env env BASELINE_CACHE_ENV).
Qed.

Lemma elem_of_baseline_cidrs entries c :
  c ∈ mjoin (map entry_cidrs entries) <->
  exists e endpoint, e ∈ entries /\ endpoint ∈ be_endpoints e /\ cidr_parse endpoint = Some c.
Proof.
  rewrite list_elem_of_join. setoid_rewrite list_elem_of_fmap. unfold entry_cidrs. split.
  - intros (l & Hc & e & -> & He). apply elem_of_filter_map in Hc as (x & Hx & Hp). by exists e, x.
  - intros (e & x & He & Hx & Hp). exists (entry_cidrs e). split; [apply elem_of_filter_map; by exists x|by exists e].
Qed.

(** What [named_endpoints] accumulates: each name once, with the categories
    that name it, each once. *)
Definition names_ok (named : list (string * list BaselineCategory)) (R : string -> BaselineCategory -> Prop) : Prop :=
  NoDup named.*1 /\
  (forall name cats, (name, cats) ∈ named -> NoDup cats /\ cats <> [] /\ forall c, c ∈ cats <-> R name c) /\
  (forall name c, R name c -> name ∈ named.*1).

Lemma names_ok_ext named R R' : (forall n c, R n c <-> R' n c) -> names_ok named R -> names_ok named R'.
Proof.
  intros HR (H1 & H2 & H3). split; [done|]. split; [|intros n c Hn; apply (H3 n c); by apply HR].
  intros n cs Hn. destruct (H2 n cs Hn) as (? & ? & Hc). split; [done|]. split; [done|].
  intros c. by rewrite Hc, HR.
Qed.

Lemma add_name_keys name c named :
  (add_name name c named).*1 = if decide (name ∈ named.*1) then named.*1 else named.*1 ++ [name].
Proof.
  induction named as [|[k cs] rest IH].
  { case_decide as H; [by apply elem_of_nil in H|done]. }
  cbn [add_name]. case_bool_decide as Hk.
  - subst. rewrite decide_True by (left). done.
  - rewrite !fmap_cons, IH. cbn [fst].
    destruct (decide (name ∈ rest.*1)) as [Hin|Hin].
    + by rewrite decide_True by (by right).
    + rewrite decide_False; [done|]. rewrite elem_of_cons. naive_solver.
Qed.

Lemma add_name_elem name c named k cs :
  NoDup named.*1 -> (k, cs) ∈ add_name name c named ->
  (k <> name /\ (k, cs) ∈ named) \/
  (k = name /\ ((name ∉ named.*1 /\ cs = [c]) \/
     exists old, (name, old) ∈ named /\ cs = if bool_decide (c ∈ old) then old else old ++ [c])).
Proof.
  induction named as [|[k' cs'] rest IH]; simpl.
  - intros _ [= -> ->]%list_elem_of_singleton. right. split; [done|]. left. split; [apply not_elem_of_nil|done].
  - intros [Hnot Hnd]%list.NoDup_cons. case_bool_decide as Hk; rewrite !elem_of_cons.
    + subst k'. intros [[= -> ->]|Hin].
      * right. split; [done|]. right. exists cs'. split; [by left|done].
      * left. split; [|by right]. intros ->. apply Hnot. apply list_elem_of_fmap. by exists (name, cs).
    + intros [[= -> ->]|Hin]; [left; split; [done|by left]|].
      destruct (IH Hnd Hin) as [[? ?]|[-> [[? ->]|(old & ? & ->)]]].
      * left. split; [done|by right].
      * right. split; [done|]. left. split; [|done]. intros [?|?]; [congruence|done].
      * right. split; [done|]. right. exists old. split; [by right|done].
Qed.

Lemma add_name_ok name c named R :
  names_ok named R -> names_ok (add_name name c named) (fun n d => R n d \/ (n = name /\ d = c)).
Proof.
  intros (Hnd & Hin & Hall). split; [|split].
  - rewrite add_name_keys. case_decide as Hk; [done|]. apply list.NoDup_app. split; [done|].
    split; [intros x Hx ->%list_elem_of_singleton; done|]. apply NoDup_singleton.
  - intros n cs [[Hne Hn]|[-> [[Hnot ->]|(old & Hold & ->)]]]%add_name_elem; [..|done].
    + destruct (Hin n cs Hn) as (? & ? & Hc). split; [done|]. split; [done|]. intros d. rewrite Hc. naive_solver.
    + split; [apply NoDup_singleton|]. split; [done|]. intros d. rewrite list_elem_of_singleton.
      split; [intros ->; by right|intros [HR|[_ ->]]; [by apply Hall in HR|done]].
    + destruct (Hin name old Hold) as (Hod & Hon & Hc). case_bool_decide as Hcin.
      * split; [done|]. split; [done|]. intros d. rewrite Hc. split; [by left|]. intros [?|[_ ->]]; [done|by apply Hc].
      * split; [|split; [by destruct old|]].
        -- apply list.NoDup_app. split; [done|]. split; [by intros x Hx ->%list_elem_of_singleton|apply NoDup_singleton].
        -- intros d. rewrite elem_of_app, list_elem_of_singleton, Hc. naive_solver.
  - intros n d Hn. rewrite add_name_keys. case_decide as Hk.
    + destruct Hn as [Hn|[-> ->]]; [by apply (Hall n d)|done].
    + apply elem_of_app. destruct Hn as [Hn|[-> ->]]; [left; by apply (Hall n d)|right; by left].
Qed.

Lemma entry_names_ok e names named R :
  names_ok named R ->
  names_ok (foldl (fun named name => add_name name (be_category e) named) named names)
    (fun n d => R n d \/ (n ∈ names /\ d = be_category e)).
Proof.
  revert named R. induction names as [|name names IH]; intros named R Hok; simpl.
  - eapply names_ok_ext; [|exact Hok]. intros n d. rewrite elem_of_nil. tauto.
  - eapply names_ok_ext; [|apply IH, add_name_ok, Hok]. intros n d. cbv beta. rewrite elem_of_cons. naive_solver.
Qed.

Lemma entries_names_ok entries named R :
  names_ok named R ->
  names_ok (foldl (fun named entry =>
      foldl (fun named name => add_name name (be_category entry) named) named (entry_names entry)) named entries)
    (fun n d => R n d \/ exists e, e ∈ entries /\ n ∈ entry_names e /\ d = be_category e).
Proof.
  revert named R. induction entries as [|e entries IH]; intros named R Hok; simpl.
  - eapply names_ok_ext; [|exact Hok]. intros n d. setoid_rewrite elem_of_nil. naive_solver.
  - eapply names_ok_ext; [|apply IH, entry_names_ok, Hok]. intros n d. cbv beta. setoid_rewrite elem_of_cons. naive_solver.
Qed.

(** ** Claims *)

(** The node plane reaches the enumerated services and nothing else.
    Whatever the deployment's environment says, the built-in baseline carries
    exactly the registry and the cache category, and its compiled rules admit
    from the daemon's own address exactly ARP, the query to the fabric's
    resolver, and frames to an address some category's subnet endpoint
    covers. *)
Theorem baseline_admits_enumeration (env : string -> EnvVar) (subnet : SwitchSubnet) (s : FrameSummary) :
  let b := built_in env subnet in
  map be_category (nb_entries b) = [CatRegistry; CatCache] /\
  (verdict s (nb_rules b) = Admit <->
   (forall a, fs_src s = Some a -> a = daemon_ip subnet) /\
   (fs_family s = Arp \/
    exists dst proto, fs_family s = Ipv4 /\ fs_dst s = Some dst /\ fs_proto s = Some proto /\
      ((dst = gateway subnet /\ proto = IPPROTO_UDP /\ fs_dst_port s = DNS_PORT) \/
       exists e endpoint c, e ∈ nb_entries b /\ endpoint ∈ be_endpoints e /\
         cidr_parse endpoint = Some c /\ cidr_contains c dst = true))).
Proof.
  cbv zeta. split; [apply built_in_categories|].
  destruct (built_in_compiled env subnet) as [Hn Hr _ -> _ _]. rewrite Hn, Hr, verdict_admit_iff.
  set (entries := nb_entries _). clearbody entries. split.
  - intros [Hf Hl | dst proto Hf Hl Hd Hp Hq]; simpl in *; (split; [done|]); [by left|right].
    exists dst, proto. split; [done|]. split; [done|]. split; [done|]. destruct Hq as [Hq|[Hq|Hq]].
    + left. destruct Hq as (? & ? & ?). done.
    + by destruct Hq as (? & _).
    + right. destruct Hq as (_ & _ & _ & _ & [Hq|Hq]); [|by destruct Hq as (? & ? & _)].
      simpl in Hq. destruct Hq as (c & Hc & Hin). apply elem_of_baseline_cidrs in Hc as (e & x & ? & ? & ?).
      by exists e, x, c.
  - intros [Hl [Hf|(dst & proto & Hf & Hd & Hp & Hq)]]; [by apply admitted_arp|].
    eapply admitted_ipv4; [done..|]. destruct Hq as [(? & ? & ?)|(e & x & c & He & Hx & Hc & Hin)]; [by left|].
    right. right. split; [by intros l Hl'|]. split; [done|].
    split; [done|]. split; [done|]. left. simpl. exists c. split; [|done]. apply elem_of_baseline_cidrs. by exists e, x.
Qed.

(** The names the node plane may pin.  [named_endpoints] lists each host
    name of the set exactly once, normalized, with exactly the categories
    whose entries name it, each once. *)
Theorem named_endpoints_exact (b : NodePlaneBaseline) :
  NoDup (named_endpoints b).*1 /\
  (forall name cats, (name, cats) ∈ named_endpoints b ->
     NoDup cats /\ forall c, c ∈ cats <-> exists e, e ∈ nb_entries b /\ name ∈ entry_names e /\ c = be_category e) /\
  (forall e name, e ∈ nb_entries b -> name ∈ entry_names e -> name ∈ (named_endpoints b).*1).
Proof.
  assert (Hnil : names_ok [] (fun _ _ => False)).
  { split; [apply NoDup_nil_2|]. split; [by intros n cs ?%elem_of_nil|done]. }
  destruct (entries_names_ok (nb_entries b) [] _ Hnil) as (H1 & H2 & H3). split; [exact H1|]. split.
  - intros name cats Hin. destruct (H2 name cats Hin) as (? & _ & Hc). split; [done|].
    intros c. rewrite Hc. tauto.
  - intros e name He Hn. apply (H3 name (be_category e)). right. by exists e.
Qed.

(** A deployment that points both categories at one mirror and a subnet. *)
Definition demo_env (var : string) : EnvVar :=
  if bool_decide (var = BASELINE_REGISTRY_ENV) then EnvOk " Mirror.example. ,10.9.0.0/16, 10.1.2.3,,bad_name"
  else EnvOk "mirror.example".

Example demo_baseline :
  named_endpoints (built_in demo_env DEFAULT_SUBNET) = [("mirror.example", [CatRegistry; CatCache])%string] /\
  er_allow_subnets (nb_rules (built_in demo_env DEFAULT_SUBNET)) =
    Some [{| cidr_addr := Ip4 10 9 0 0; cidr_prefix := 16 |}].
Proof. split; vm_compute; reflexivity. Qed.
