(* ===== verification/ZoneAnswer.v ===== *)
(** * The box-zone answer decision (crates/boxes/src/core/zone_answer.rs)

    Which lookup gets which answer class, over a snapshot of the held names.
    A [BTreeMap] read only by key is a finite map. *)

From stdpp Require Import base list gmap strings numbers.
From Stdlib Require Import ZArith Lia Ascii.
From S2P Require Import Prelude Text.
Open Scope Z_scope.

Definition ZONE_APEX : string := "min.internal".
Definition ANSWER_TTL_SECS : Z := 15.
Definition HOST_ROW_LABEL : string := "host".
Definition HOST_ROW_NAME : string := "host.min.internal".
Definition NODE_ROW_LABEL : string := "minimald".
Definition NODE_ROW_LABELS : list string := [HOST_ROW_LABEL; NODE_ROW_LABEL].

(** [zone_answer::RecordType] and [Origin]. *)
Inductive LookupType : Type := LtA | LtOther.
Inductive Origin : Type := OnMachine | OffMachine.

Definition is_a (r : LookupType) : bool := match r with LtA => true | LtOther => false end.
Definition on_machine (o : Origin) : bool := match o with OnMachine => true | OffMachine => false end.

Record Lookup_ : Type := { lk_name : string; lk_record : LookupType; lk_origin : Origin }.

Record ZoneRow : Type := { zr_address : option ip4; zr_live : bool }.

(** [ZoneView], its rows under their canonical names. *)
Record ZoneView : Type := { zv_rows : gmap string ZoneRow }.

Inductive ZoneVerdict : Type :=
| ZvSilent
| ZvRefused
| ZvNodata
| ZvNxdomain
| ZvAddress (address : ip4).

(** [normalize]. *)
Definition normalize (name : string) : string :=
  let lowered := to_ascii_lowercase name in
  default lowered (strip_suffix "." lowered).

(** [in_zone]. *)
Definition in_zone (name : string) : bool :=
  match strip_suffix ("." ++ ZONE_APEX)%string name with
  | Some label => negb (bool_decide (label = EmptyString))
  | None => false
  end.

Definition zone_new : ZoneView := {| zv_rows := ∅ |}.
Definition zone_hold (v : ZoneView) (name : string) (row : ZoneRow) : ZoneView :=
  {| zv_rows := <[normalize name := row]> (zv_rows v) |}.
Definition zone_is_empty (v : ZoneView) : bool := bool_decide (zv_rows v = ∅).
Definition zone_held (v : ZoneView) (name : string) : option ZoneRow := zv_rows v !! name.

(** [decide], the whole decision. *)
Definition zone_decide (lookup : Lookup_) (view : ZoneView) : ZoneVerdict :=
  if negb (on_machine (lk_origin lookup)) then ZvSilent
  else
    let name := normalize (lk_name lookup) in
    if bool_decide (name = ZONE_APEX) then ZvNodata
    else if negb (in_zone name) then ZvRefused
    else match zone_held view name with
         | None => ZvNxdomain
         | Some row =>
             match zr_address row, lk_record lookup with
             | Some address, LtA => if zr_live row then ZvAddress address else ZvNodata
             | _, _ => ZvNodata
             end
         end.

Record OutOfZoneSoa : Type := {
  soa_owner : string;
  soa_mname : string;
  soa_rname : string;
  soa_serial : Z;
  soa_refresh : Z;
  soa_retry : Z;
  soa_expire : Z;
  soa_minimum : Z;
  soa_ttl : Z;
}.
Definition out_of_zone_soa : OutOfZoneSoa :=
  {| soa_owner := "."; soa_mname := "ns.min.internal."; soa_rname := "hostmaster.min.internal."; soa_serial := 1;
     soa_refresh := ANSWER_TTL_SECS; soa_retry := ANSWER_TTL_SECS; soa_expire := ANSWER_TTL_SECS;
     soa_minimum := ANSWER_TTL_SECS; soa_ttl := ANSWER_TTL_SECS |}.

(** ** The decision as a table *)

(** The row a name resolves to after a sequence of holds: the last one held
    under the same canonical name. *)
Definition last_held (holds : list (string * ZoneRow)) (name : string) : option ZoneRow :=
  snd <$> List.find (fun p => bool_decide (normalize p.1 = name)) (rev holds).

Definition zone_of (holds : list (string * ZoneRow)) : ZoneView :=
  fold_left (fun v p => zone_hold v p.1 p.2) holds zone_new.

Lemma zone_held_last holds name : zone_held (zone_of holds) name = last_held holds name.
Proof.
  unfold last_held, zone_of. induction holds as [|[n row] holds IH] using rev_ind; [done|].
  rewrite fold_left_app, rev_app_distr. cbn [fold_left rev app List.find fst snd].
  unfold zone_held, zone_hold at 1. cbn [zv_rows]. case_bool_decide as Hn.
  - subst. by rewrite lookup_insert_eq.
  - rewrite lookup_insert_ne by done. apply IH.
Qed.

Lemma in_zone_iff name :
  in_zone name = true <-> exists label, label <> EmptyString /\ name = (label ++ ".min.internal")%string.
Proof.
  unfold in_zone. destruct (strip_suffix _ name) as [label|] eqn:E.
  - apply strip_suffix_iff in E. rewrite negb_true_iff, bool_decide_eq_false. split; [by exists label|].
    intros (label' & Hne & Hname). assert (strip_suffix ("." ++ ZONE_APEX)%string name = Some label') by (by apply strip_suffix_iff).
    apply strip_suffix_iff in E. congruence.
  - split; [done|]. intros (label & _ & Hname).
    assert (strip_suffix ("." ++ ZONE_APEX)%string name = Some label) by (by apply strip_suffix_iff). congruence.
Qed.

(** An address leaves the zone only on this machine, for an A lookup of a
    name strictly below the apex, and it is the address of the row last held
    under that name, in any letter case and with or without the root dot,
    while that row's namespace runs; a held name is never denied to exist,
    and a name outside the zone is refused. *)
Theorem zone_answer_exact (holds : list (string * ZoneRow)) (lookup : Lookup_) :
  let name := normalize (lk_name lookup) in
  let answer := zone_decide lookup (zone_of holds) in
  let below := exists label, label <> EmptyString /\ name = (label ++ ".min.internal")%string in
  (forall a, answer = ZvAddress a <->
     lk_origin lookup = OnMachine /\ lk_record lookup = LtA /\ below /\
     last_held holds name = Some {| zr_address := Some a; zr_live := true |}) /\
  (answer = ZvSilent <-> lk_origin lookup = OffMachine) /\
  (answer = ZvNxdomain <-> lk_origin lookup = OnMachine /\ below /\ last_held holds name = None) /\
  (answer = ZvRefused <-> lk_origin lookup = OnMachine /\ name <> ZONE_APEX /\ ~ below).
Proof.
  intros name answer below. subst answer. unfold zone_decide. rewrite zone_held_last. fold name.
  assert (Hapex : name = ZONE_APEX -> in_zone name = false) by (intros ->; vm_compute; done).
  assert (Hz : in_zone name = true <-> below) by apply in_zone_iff. clearbody below name.
  destruct (lk_origin lookup), (lk_record lookup); cbn [on_machine negb]; destruct (bool_decide_reflect (name = ZONE_APEX)) as [Ha|Ha]; destruct (in_zone name);
    cbn [negb]; destruct (last_held holds name) as [[[a|] [|]]|]; cbn [zr_address zr_live];
    repeat split; intros; intuition congruence.
Qed.

Example stopped_box_is_nodata :
  let holds := [("web.min.internal", {| zr_address := Some (Ip4 127 0 0 9); zr_live := true |});
                ("Web.Min.Internal.", {| zr_address := Some (Ip4 127 0 0 9); zr_live := false |})]%string in
  zone_decide {| lk_name := "WEB.min.internal."; lk_record := LtA; lk_origin := OnMachine |} (zone_of holds) = ZvNodata.
Proof. vm_compute. reflexivity. Qed.
