(* ===== verification/DnsPins.v ===== *)
(** * The host-side DNS admission table (crates/minvmd/src/net/dns_pins.rs)

    One entry per registered box that declared DNS hosts, holding the
    addresses the box's own lookups resolved to and the flows it opened to
    them.  The DNS message parser is a third-party crate, so it is the class
    [DnsCodec]; the registry's rows are records with an identity, which is
    what [Arc::ptr_eq] compares.  Log lines are outside the model. *)

From stdpp Require Import base list gmap strings numbers.
From Stdlib Require Import ZArith Lia Ascii.
From S2P Require Import Prelude Text Egress Ingress Rebinding ReplyFlows DropLimiter Switch L4 Baseline ZoneAnswer.
Open Scope Z_scope.

(** ** Constants *)

Definition DNS_ADMISSION_WINDOW : Z := from_mins 5.
Definition DNS_MAX_ADDRESSES_PER_NAME : nat := 32.
Definition DNS_FLOW_IDLE_CAP : Z := from_hours 24.
Definition DNS_MAX_FLOWS_PER_BOX : nat := 4096.
Definition DNS_OUTSTANDING_QUERY_CAP : nat := 16.
Definition DNS_QUERY_EXPIRY : Z := from_secs 30.
Definition MAX_DATAGRAM : nat := 4096.
Definition ADMISSION_SWEEP_AT : nat := 4096.
Definition FLOW_SWEEP_INTERVAL : Z := from_secs 1.
Definition AT_CAP_LINE_INTERVAL : Z := from_secs 60.

(** ** The DNS message parser *)

Inductive MessageType : Type := MtQuery | MtResponse.
Inductive OpCode : Type := OcQuery | OcOther.
Inductive RecordType : Type := RtA | RtOther (code : Z).
Inductive RData (N : Type) : Type :=
| RdA (address : ip4)
| RdCname (target : N)
| RdOther.
Arguments RdA {N} _.
Arguments RdCname {N} _.
Arguments RdOther {N}.

#[global] Instance MessageType_eq_dec : EqDecision MessageType.
Proof. solve_decision. Defined.
#[global] Instance OpCode_eq_dec : EqDecision OpCode.
Proof. solve_decision. Defined.
#[global] Instance RecordType_eq_dec : EqDecision RecordType.
Proof. solve_decision. Defined.

(** What the code reads of a parsed message: [name_text] is
    [name.to_lowercase().to_string()], [name_labels] the labels [Name::iter]
    yields. *)
Class DnsCodec := {
  DName : Type;
  name_text : DName -> string;
  name_labels : DName -> list string;
  Message : Type;
  from_vec : list Z -> option Message;
  msg_id : Message -> Z;
  msg_type : Message -> MessageType;
  msg_op_code : Message -> OpCode;
  msg_queries : Message -> list (DName * RecordType);
  msg_answers : Message -> list (DName * RData DName);
}.

(** ** Rows *)

(** What the gate reads of a row; [rec_id] is the identity of the shared
    record, which [Arc::ptr_eq] compares. *)
Record BoxRecord : Type := {
  rec_id : nat;
  rec_box_id : nat;
  rec_name : string;
  rec_switch_addr : ip4;
  rec_loopback_addr : ip4;
  rec_admitted_ports : list Z;
  rec_declared_names : list string;
  rec_egress : EgressRules;
  rec_resolves_names : bool;
  rec_dns_hosts : list string;
  rec_deny_all : bool;
  rec_credentialed_upstream : bool;
  rec_dynamic_ingress : DynamicIngress;
  rec_dynamic_range : option (Z * Z);
  rec_task_row_of : option ip4;
  rec_task_addrs : list ip4;
}.

(** [HostIpBoxRules]: a resident [host_ip] box's compiled egress. *)
Record HostIpBoxRules : Type := {
  hi_session_id : string;
  hi_credentialed_upstream : bool;
  hi_egress : EgressRules;
  hi_dns_hosts : list string;
}.
Definition hi_resolves_names (r : HostIpBoxRules) : bool := negb (bool_decide (hi_dns_hosts r = [])).

Definition ptr_eq (a b : BoxRecord) : bool := Nat.eqb (rec_id a) (rec_id b).

(** [BoxTable]: the rows by switch address, the resident [host_ip] boxes in
    session order, the record of their names, the plan, and the count of
    rows filed so far. *)
Record BoxTable : Type := {
  bt_rows : gmap ip4 BoxRecord;
  bt_host_ip_boxes : list HostIpBoxRules;
  bt_host_ip_cohort : option BoxRecord;
  bt_subnet : SwitchSubnet;
  bt_row_epoch : Z;
}.

Definition by_source (t : BoxTable) (src : ip4) : option BoxRecord := bt_rows t !! src.
Definition table_gateway (t : BoxTable) : ip4 := gateway (bt_subnet t).

(** ** One box's entry *)

Record Admission : Type := { adm_name : string; adm_expires : Z }.

Record FlowKey : Type := { fk_proto : Z; fk_src_port : Z; fk_dst : ip4; fk_dst_port : Z }.
#[global] Instance FlowKey_eq_dec : EqDecision FlowKey.
Proof. solve_decision. Defined.
#[global] Instance FlowKey_countable : Countable FlowKey.
Proof.
  refine (inj_countable' (fun k => (fk_proto k, fk_src_port k, fk_dst k, fk_dst_port k))
            (fun t => let '(a, b, c, d) := t in Build_FlowKey a b c d) _).
  by intros [].
Defined.

Record FlowTable : Type := {
  ftb_flows : gmap FlowKey Z;
  ftb_last_sweep : option Z;
  ftb_last_at_cap_line : option Z;
}.

Definition flow_table_new : FlowTable :=
  {| ftb_flows := ∅; ftb_last_sweep := None; ftb_last_at_cap_line := None |}.

(** [FlowTable::sweep_due], [FlowTable::sweep], [FlowTable::claim_at_cap_line]. *)
Definition sweep_due (t : FlowTable) (now : Z) : bool :=
  match ftb_last_sweep t with
  | None => true
  | Some at_ => FLOW_SWEEP_INTERVAL <=? duration_since now at_
  end.
Definition flow_sweep (t : FlowTable) (now : Z) : FlowTable :=
  {| ftb_flows := filter (fun p => duration_since now p.2 < DNS_FLOW_IDLE_CAP) (ftb_flows t);
     ftb_last_sweep := Some now; ftb_last_at_cap_line := ftb_last_at_cap_line t |}.
Definition claim_at_cap_line (t : FlowTable) (now : Z) : FlowTable * bool :=
  let due := match ftb_last_at_cap_line t with
             | None => true
             | Some at_ => AT_CAP_LINE_INTERVAL <=? duration_since now at_
             end in
  (if due then {| ftb_flows := ftb_flows t; ftb_last_sweep := ftb_last_sweep t;
                  ftb_last_at_cap_line := Some now |} else t, due).
Definition set_ftb_flows (t : FlowTable) (f : gmap FlowKey Z) : FlowTable :=
  {| ftb_flows := f; ftb_last_sweep := ftb_last_sweep t; ftb_last_at_cap_line := ftb_last_at_cap_line t |}.

Record QueryKey : Type := { qk_txid : Z; qk_src_port : Z; qk_name : string }.
#[global] Instance QueryKey_eq_dec : EqDecision QueryKey.
Proof. solve_decision. Defined.
#[global] Instance QueryKey_countable : Countable QueryKey.
Proof.
  refine (inj_countable' (fun k => (qk_txid k, qk_src_port k, qk_name k))
            (fun t => let '(a, b, c) := t in Build_QueryKey a b c) _).
  by intros [].
Defined.

(** [NodePlaneNames], with the identity of the shared grant. *)
Record NodePlaneNames : Type := {
  npn_id : nat;
  npn_node_addr : ip4;
  npn_names : gmap string (list BaselineCategory);
  npn_allow : list Ipv4Cidr;
  npn_entries : list BaselineEntry;
}.

(** [NodePlaneNames::of]. *)
Definition node_plane_names_of (id : nat) (b : NodePlaneBaseline) : NodePlaneNames :=
  {| npn_id := id; npn_node_addr := nb_node_addr b;
     npn_names := list_to_map (rev (named_endpoints b));
     npn_allow := match er_allow_subnets (nb_rules b) with Some l => l | None => [] end;
     npn_entries := nb_entries b |}.

Record BoxPins : Type := {
  bp_record : BoxRecord;
  bp_names : gset string;
  bp_infrastructure : InfrastructureDenySet;
  bp_outstanding : gmap QueryKey Z;
  bp_admitted : gmap ip4 Admission;
  bp_node_plane : option NodePlaneNames;
  bp_flows : FlowTable;
  bp_at_cap_admitted : Z;
  bp_sweeps : Z;
  bp_logged_first_pin : bool;
}.

Definition set_outstanding (p : BoxPins) (o : gmap QueryKey Z) : BoxPins :=
  {| bp_record := bp_record p; bp_names := bp_names p; bp_infrastructure := bp_infrastructure p;
     bp_outstanding := o; bp_admitted := bp_admitted p; bp_node_plane := bp_node_plane p;
     bp_flows := bp_flows p; bp_at_cap_admitted := bp_at_cap_admitted p; bp_sweeps := bp_sweeps p;
     bp_logged_first_pin := bp_logged_first_pin p |}.
Definition set_admitted (p : BoxPins) (a : gmap ip4 Admission) : BoxPins :=
  {| bp_record := bp_record p; bp_names := bp_names p; bp_infrastructure := bp_infrastructure p;
     bp_outstanding := bp_outstanding p; bp_admitted := a; bp_node_plane := bp_node_plane p;
     bp_flows := bp_flows p; bp_at_cap_admitted := bp_at_cap_admitted p; bp_sweeps := bp_sweeps p;
     bp_logged_first_pin := bp_logged_first_pin p |}.
Definition set_logged (p : BoxPins) : BoxPins :=
  {| bp_record := bp_record p; bp_names := bp_names p; bp_infrastructure := bp_infrastructure p;
     bp_outstanding := bp_outstanding p; bp_admitted := bp_admitted p; bp_node_plane := bp_node_plane p;
     bp_flows := bp_flows p; bp_at_cap_admitted := bp_at_cap_admitted p; bp_sweeps := bp_sweeps p;
     bp_logged_first_pin := true |}.
Definition set_flow_state (p : BoxPins) (t : FlowTable) (at_cap sweeps : Z) : BoxPins :=
  {| bp_record := bp_record p; bp_names := bp_names p; bp_infrastructure := bp_infrastructure p;
     bp_outstanding := bp_outstanding p; bp_admitted := bp_admitted p; bp_node_plane := bp_node_plane p;
     bp_flows := t; bp_at_cap_admitted := at_cap; bp_sweeps := sweeps;
     bp_logged_first_pin := bp_logged_first_pin p |}.

(** [normalized]. *)
Definition normalized (name : string) : string :=
  let lowered := to_ascii_lowercase name in
  match strip_suffix "." lowered with Some s => s | None => lowered end.

(** [AtomicU64::fetch_add(1)]. *)
Definition u64_wrapping_succ (n : Z) : Z := (n + 1) mod 18446744073709551616.

(** [BoxPins::built]. *)
Definition box_pins_built (record : BoxRecord) (subnet : SwitchSubnet) (node_plane : option NodePlaneNames)
    : outcome BoxPins :=
  infrastructure ← deny_set_new (er_resolver (rec_egress record)) (host_alias subnet);
  Done {| bp_record := record;
          bp_names := list_to_set (map normalized (rec_dns_hosts record)) ∪
                      match node_plane with Some grant => dom (npn_names grant) | None => ∅ end;
          bp_infrastructure := infrastructure;
          bp_outstanding := ∅; bp_admitted := ∅; bp_node_plane := node_plane;
          bp_flows := flow_table_new; bp_at_cap_admitted := 0; bp_sweeps := 0;
          bp_logged_first_pin := false |}.

Section entry.
Context `{DnsCodec}.

(** [normalized(&name.to_lowercase().to_string())]. *)
Definition wire_name (n : DName) : string := normalized (name_text n).

(** [BoxPins::record_query]. *)
Definition record_query (p : BoxPins) (pkt : L4Packet) (datagram : list Z) (now : Z) : BoxPins :=
  if (MAX_DATAGRAM <? length datagram)%nat then p
  else match from_vec datagram with
  | None => p
  | Some message =>
    if negb (bool_decide (msg_type message = MtQuery)) then p
    else match msg_queries message with
    | [] => p
    | (question, _) :: _ =>
      let key := {| qk_txid := msg_id message; qk_src_port := sa_port (l4_src pkt);
                    qk_name := wire_name question |} in
      let outstanding := filter (fun e => duration_since now e.2 < DNS_QUERY_EXPIRY) (bp_outstanding p) in
      if (DNS_OUTSTANDING_QUERY_CAP <=? size outstanding)%nat
         && negb (bool_decide (is_Some (outstanding !! key)))
      then set_outstanding p outstanding
      else set_outstanding p (<[key := now]> outstanding)
    end
  end.

(** The walk of a reply's answer section: the chain so far and the addresses
    taken. *)
Definition chain_step (acc : gset string * list ip4) (record : DName * RData DName)
    : gset string * list ip4 :=
  let owner := wire_name record.1 in
  match record.2 with
  | RdA address => if bool_decide (owner ∈ acc.1) then (acc.1, acc.2 ++ [address]) else acc
  | RdCname cname => if bool_decide (owner ∈ acc.1) then ({[wire_name cname]} ∪ acc.1, acc.2) else acc
  | RdOther => acc
  end.
Definition chain_answers (asked : string) (answers : list (DName * RData DName)) : list ip4 :=
  (foldl chain_step ({[asked]}, []) answers).2.

(** One address of [BoxPins::admit]: the table, the addresses the name holds,
    and whether any address was admitted. *)
Definition admit_address (name : string) (expires : Z) (acc : gmap ip4 Admission * nat * bool) (address : ip4)
    : gmap ip4 Admission * nat * bool :=
  let '(admitted, held, any) := acc in
  match admitted !! address with
  | Some existing =>
      (<[address := {| adm_name := adm_name existing; adm_expires := expires |}]> admitted, held, true)
  | None =>
      if (DNS_MAX_ADDRESSES_PER_NAME <=? held)%nat then (admitted, held, any)
      else (<[address := {| adm_name := name; adm_expires := expires |}]> admitted, S held, true)
  end.

(** The addresses a name owns. *)
Definition owned (name : string) (admitted : gmap ip4 Admission) : gmap ip4 Admission :=
  filter (fun e => adm_name e.2 = name) admitted.

(** [BoxPins::admit]. *)
Definition admit_answers (p : BoxPins) (name : string) (addresses : list ip4) (now : Z) : BoxPins :=
  match addresses with
  | [] => p
  | _ =>
    let expires := now + DNS_ADMISSION_WINDOW in
    let admitted := filter (fun e => adm_name e.2 <> name \/ now < adm_expires e.2) (bp_admitted p) in
    let held := size (owned name admitted) in
    let '(admitted, _, any) := foldl (admit_address name expires) (admitted, held, false) addresses in
    let admitted := if (ADMISSION_SWEEP_AT <? size admitted)%nat
                    then filter (fun e => now < adm_expires e.2) admitted else admitted in
    let p := set_admitted p admitted in
    if negb any then p
    else match bp_node_plane p with
         | Some grant => if bool_decide (is_Some (npn_names grant !! name)) then p else set_logged p
         | None => set_logged p
         end
  end.

(** [BoxPins::observe].  Each refusal's line reads the clock of its own. *)
Definition observe (p : BoxPins) (pkt : L4Packet) (datagram : list Z) (limiter : DropLimiter)
    (clock : nat -> Z) (now : Z) : BoxPins * DropLimiter :=
  if bool_decide (sa_ip (l4_src pkt) <> er_resolver (rec_egress (bp_record p)))
     || negb (sa_port (l4_src pkt) =? DNS_PORT) then (p, limiter)
  else if (MAX_DATAGRAM <? length datagram)%nat then (p, limiter)
  else match from_vec datagram with
  | None => (p, limiter)
  | Some message =>
    if negb (bool_decide (msg_type message = MtResponse)) then (p, limiter)
    else match msg_queries message with
    | [] => (p, limiter)
    | (question, _) :: _ =>
      let asked := wire_name question in
      if negb (bool_decide (asked ∈ bp_names p)) then (p, limiter)
      else
        let key := {| qk_txid := msg_id message; qk_src_port := sa_port (l4_dst pkt); qk_name := asked |} in
        let answered := match bp_outstanding p !! key with
                        | Some at_ => duration_since now at_ <? DNS_QUERY_EXPIRY
                        | None => false
                        end in
        let p := set_outstanding p (delete key (bp_outstanding p)) in
        if negb answered then (p, limiter)
        else
          let answers := chain_answers asked (msg_answers message) in
          let allow := match bp_node_plane p with
                       | Some grant => if bool_decide (is_Some (npn_names grant !! asked))
                                       then Some (npn_allow grant)
                                       else er_allow_subnets (rec_egress (bp_record p))
                       | None => er_allow_subnets (rec_egress (bp_record p))
                       end in
          let split := rebinding_intersection answers false allow
                         (er_deny_subnets (rec_egress (bp_record p))) (bp_infrastructure p) in
          let p := admit_answers p asked (rs_admitted split) now in
          (p, foldl (fun l e => (warn_dns_refusal l (rec_switch_addr (bp_record p)) asked
                                   (refusal_rule e.2.2) (clock e.1)).1)
                limiter (imap pair (rs_refused split)))
    end
  end.
End entry.

(** [BoxPins::admits_destination]. *)
Definition admits_destination (p : BoxPins) (dst : ip4) (now : Z) : bool :=
  match bp_admitted p !! dst with Some a => now <? adm_expires a | None => false end.

Definition flow_key (dst : ip4) (pkt : L4Packet) : FlowKey :=
  {| fk_proto := l4_proto pkt; fk_src_port := sa_port (l4_src pkt); fk_dst := dst;
     fk_dst_port := sa_port (l4_dst pkt) |}.

(** The second half of [BoxPins::admits]: the window, and the new flow. *)
Definition admits_by_window (p : BoxPins) (dst : ip4) (key : FlowKey) (ends : bool) (now : Z)
    : BoxPins * bool :=
  if negb (admits_destination p dst now) then (p, false)
  else if ends then (p, true)
  else
    let '(table, sweeps) :=
      if (DNS_MAX_FLOWS_PER_BOX <=? size (ftb_flows (bp_flows p)))%nat && sweep_due (bp_flows p) now
      then (flow_sweep (bp_flows p) now, u64_wrapping_succ (bp_sweeps p))
      else (bp_flows p, bp_sweeps p) in
    if (DNS_MAX_FLOWS_PER_BOX <=? size (ftb_flows table))%nat then
      (set_flow_state p (claim_at_cap_line table now).1 (u64_wrapping_succ (bp_at_cap_admitted p)) sweeps, true)
    else
      (set_flow_state p (set_ftb_flows table (<[key := now]> (ftb_flows table))) (bp_at_cap_admitted p) sweeps, true).

(** [BoxPins::admits]. *)
Definition admits (p : BoxPins) (dst : ip4) (pkt : option L4Packet) (now : Z) : BoxPins * bool :=
  match pkt with
  | None => (p, admits_destination p dst now)
  | Some pkt =>
    let key := flow_key dst pkt in
    let ends := has_flag (l4_tcp_flags pkt) (Z.lor TCP_FIN TCP_RST) in
    let flows := ftb_flows (bp_flows p) in
    let with_flows f := set_flow_state p (set_ftb_flows (bp_flows p) f) (bp_at_cap_admitted p) (bp_sweeps p) in
    match flows !! key with
    | Some seen =>
        if duration_since now seen <? DNS_FLOW_IDLE_CAP then
          (with_flows (if ends then delete key flows else <[key := now]> flows), true)
        else admits_by_window (with_flows (delete key flows)) dst key ends now
    | None => admits_by_window p dst key ends now
    end
  end.

(** ** The table *)

Record DnsPins : Type := {
  dp_subnet : SwitchSubnet;
  dp_boxes : gmap ip4 BoxPins;
  dp_refused : gmap ip4 BoxRecord;
  dp_node_plane : option NodePlaneNames;
  dp_host_ip : option BoxPins;
  dp_grants : nat;                (* identities handed to adopted grants *)
  dp_admitted_by_pin : Z;
  dp_refused_for_want_of_pin : Z;
}.

(** [DnsPins::new]. *)
Definition dns_pins_new (subnet : SwitchSubnet) : DnsPins :=
  {| dp_subnet := subnet; dp_boxes := ∅; dp_refused := ∅; dp_node_plane := None; dp_host_ip := None;
     dp_grants := 0; dp_admitted_by_pin := 0; dp_refused_for_want_of_pin := 0 |}.

Definition set_boxes (d : DnsPins) (b : gmap ip4 BoxPins) : DnsPins :=
  {| dp_subnet := dp_subnet d; dp_boxes := b; dp_refused := dp_refused d; dp_node_plane := dp_node_plane d;
     dp_host_ip := dp_host_ip d; dp_grants := dp_grants d; dp_admitted_by_pin := dp_admitted_by_pin d;
     dp_refused_for_want_of_pin := dp_refused_for_want_of_pin d |}.
Definition set_refused (d : DnsPins) (r : gmap ip4 BoxRecord) : DnsPins :=
  {| dp_subnet := dp_subnet d; dp_boxes := dp_boxes d; dp_refused := r; dp_node_plane := dp_node_plane d;
     dp_host_ip := dp_host_ip d; dp_grants := dp_grants d; dp_admitted_by_pin := dp_admitted_by_pin d;
     dp_refused_for_want_of_pin := dp_refused_for_want_of_pin d |}.
Definition set_grant (d : DnsPins) (g : option NodePlaneNames) (grants : nat) : DnsPins :=
  {| dp_subnet := dp_subnet d; dp_boxes := dp_boxes d; dp_refused := dp_refused d; dp_node_plane := g;
     dp_host_ip := dp_host_ip d; dp_grants := grants; dp_admitted_by_pin := dp_admitted_by_pin d;
     dp_refused_for_want_of_pin := dp_refused_for_want_of_pin d |}.
Definition set_host_ip (d : DnsPins) (e : option BoxPins) : DnsPins :=
  {| dp_subnet := dp_subnet d; dp_boxes := dp_boxes d; dp_refused := dp_refused d;
     dp_node_plane := dp_node_plane d; dp_host_ip := e; dp_grants := dp_grants d;
     dp_admitted_by_pin := dp_admitted_by_pin d; dp_refused_for_want_of_pin := dp_refused_for_want_of_pin d |}.
Definition count_decision (d : DnsPins) (admitted : bool) : DnsPins :=
  {| dp_subnet := dp_subnet d; dp_boxes := dp_boxes d; dp_refused := dp_refused d;
     dp_node_plane := dp_node_plane d; dp_host_ip := dp_host_ip d; dp_grants := dp_grants d;
     dp_admitted_by_pin := if admitted then u64_wrapping_succ (dp_admitted_by_pin d) else dp_admitted_by_pin d;
     dp_refused_for_want_of_pin :=
       if admitted then dp_refused_for_want_of_pin d else u64_wrapping_succ (dp_refused_for_want_of_pin d) |}.

(** [DnsPins::node_plane_of]. *)
Definition node_plane_of (d : DnsPins) (record : BoxRecord) : option NodePlaneNames :=
  match dp_node_plane d with
  | Some grant => if bool_decide (npn_node_addr grant = rec_switch_addr record) then Some grant else None
  | None => None
  end.

(** [DnsPins::refuse_resolver]. *)
Definition refuse_resolver (d : DnsPins) (record : BoxRecord) : DnsPins :=
  let key := rec_switch_addr record in
  if match dp_refused d !! key with Some seen => ptr_eq seen record | None => false end then d
  else set_refused d (<[key := record]> (dp_refused d)).

(** The closure [same_grant] of [DnsPins::entry]. *)
Definition same_grant (held now : option NodePlaneNames) : bool :=
  match held, now with
  | None, None => true
  | Some held, Some now => Nat.eqb (npn_id held) (npn_id now)
  | _, _ => false
  end.

(** [DnsPins::entry]: the entry, which the table then holds under the row's
    switch address. *)
Definition entry (d : DnsPins) (record : BoxRecord) : outcome (DnsPins * option BoxPins) :=
  let node_plane := node_plane_of d record in
  if bool_decide (rec_dns_hosts record = []) && bool_decide (node_plane = None) then Done (d, None)
  else if bool_decide (er_resolver (rec_egress record) <> dns_server (dp_subnet d)) then
    Done (refuse_resolver d record, None)
  else
    let key := rec_switch_addr record in
    match dp_boxes d !! key with
    | Some e =>
        if ptr_eq (bp_record e) record && same_grant (bp_node_plane e) node_plane then Done (d, Some e)
        else e ← box_pins_built record (dp_subnet d) node_plane; Done (set_boxes d (<[key := e]> (dp_boxes d)), Some e)
    | None => e ← box_pins_built record (dp_subnet d) node_plane; Done (set_boxes d (<[key := e]> (dp_boxes d)), Some e)
    end.

(** [DnsPins::adopt_baseline]. *)
Definition adopt_baseline (d : DnsPins) (b : NodePlaneBaseline) : DnsPins :=
  if bool_decide (nb_phase b <> InForce) then set_grant d None (dp_grants d)
  else if match dp_node_plane d with
          | Some grant => bool_decide (npn_node_addr grant = nb_node_addr b)
                          && bool_decide (npn_entries grant = nb_entries b)
          | None => false
          end then d
  else set_grant d (Some (node_plane_names_of (dp_grants d) b)) (S (dp_grants d)).

(** [DnsPins::host_ip_entry]. *)
Definition host_ip_entry (d : DnsPins) (table : BoxTable) : outcome (DnsPins * option BoxPins) :=
  match bt_host_ip_cohort table with
  | None => Done (set_host_ip d None, None)
  | Some record =>
      if bool_decide (er_resolver (rec_egress record) <> dns_server (dp_subnet d)) then
        Done (refuse_resolver (set_host_ip d None) record, None)
      else
        match dp_host_ip d with
        | Some e =>
            if ptr_eq (bp_record e) record then Done (d, Some e)
            else e ← box_pins_built record (dp_subnet d) None; Done (set_host_ip d (Some e), Some e)
        | None => e ← box_pins_built record (dp_subnet d) None; Done (set_host_ip d (Some e), Some e)
        end
  end.

(** [DnsPins::admits_frame]. *)
Definition admits_frame (d : DnsPins) (record : BoxRecord) (dst : ip4) (pkt : option L4Packet) (now : Z)
    : outcome (DnsPins * bool) :=
  r ← entry d record;
  let '(d, e) := r : DnsPins * option BoxPins in
  match e with
  | None => Done (count_decision d false, false)
  | Some e =>
      let '(e, ok) := admits e dst pkt now in
      Done (count_decision (set_boxes d (<[rec_switch_addr record := e]> (dp_boxes d))) ok, ok)
  end.

(** [DnsPins::admits_host_ip_frame]. *)
Definition admits_host_ip_frame (d : DnsPins) (table : BoxTable) (dst : ip4) (pkt : option L4Packet) (now : Z)
    : outcome (DnsPins * bool) :=
  r ← host_ip_entry d table;
  let '(d, e) := r : DnsPins * option BoxPins in
  match e with
  | None => Done (count_decision d false, false)
  | Some e =>
      let '(e, ok) := admits e dst pkt now in
      Done (count_decision (set_host_ip d (Some e)) ok, ok)
  end.

(** [DnsPins::admits_node_frame]. *)
Definition admits_node_frame (d : DnsPins) (table : BoxTable) (b : NodePlaneBaseline) (dst : ip4)
    (pkt : option L4Packet) (now : Z) : outcome (DnsPins * bool) :=
  let d := adopt_baseline d b in
  match by_source table (nb_node_addr b) with
  | Some record => admits_frame d record dst pkt now
  | None => Done (d, false)
  end.

(** [DnsPins::retire]. *)
Definition retire (d : DnsPins) (sources : list ip4) : DnsPins :=
  foldl (fun d src => set_refused (set_boxes d (delete src (dp_boxes d))) (delete src (dp_refused d))) d sources.

Section table.
Context `{DnsCodec}.

(** [DnsPins::observe_reply]. *)
Definition observe_reply (d : DnsPins) (table : BoxTable) (pkt : L4Packet) (datagram : list Z)
    (limiter : DropLimiter) (clock clock' : nat -> Z) (now : Z) : outcome (DnsPins * DropLimiter) :=
  if negb (sa_port (l4_src pkt) =? DNS_PORT) then Done (d, limiter)
  else
    r ← (if bool_decide (sa_ip (l4_dst pkt) = daemon_ip (bt_subnet table)) then
           r ← host_ip_entry d table;
           let '(d, e) := r : DnsPins * option BoxPins in
           match e with
           | Some e => let '(e, limiter) := observe e pkt datagram limiter clock now in
                       Done (set_host_ip d (Some e), limiter)
           | None => Done (d, limiter)
           end
         else Done (d, limiter));
    let '(d, limiter) := r : DnsPins * DropLimiter in
    match by_source table (sa_ip (l4_dst pkt)) with
    | None => Done (d, limiter)
    | Some record =>
        r ← entry d record;
        let '(d, e) := r : DnsPins * option BoxPins in
        match e with
        | None => Done (d, limiter)
        | Some e => let '(e, limiter) := observe e pkt datagram limiter clock' now in
                    Done (set_boxes d (<[rec_switch_addr record := e]> (dp_boxes d)), limiter)
        end
    end.

(** [DnsPins::observe_query]. *)
Definition observe_query (d : DnsPins) (table : BoxTable) (pkt : L4Packet) (datagram : list Z)
    (box_cohort_marked : bool) (now : Z) : outcome DnsPins :=
  if negb (l4_proto pkt =? IPPROTO_UDP) || negb (sa_port (l4_dst pkt) =? DNS_PORT)
     || bool_decide (sa_ip (l4_dst pkt) <> table_gateway table) then Done d
  else if bool_decide (sa_ip (l4_src pkt) = daemon_ip (bt_subnet table)) && box_cohort_marked then
    r ← host_ip_entry d table;
    let '(d, e) := r : DnsPins * option BoxPins in
    match e with
    | Some e => Done (set_host_ip d (Some (record_query e pkt datagram now)))
    | None => Done d
    end
  else
    match by_source table (sa_ip (l4_src pkt)) with
    | None => Done d
    | Some record =>
        r ← entry d record;
        let '(d, e) := r : DnsPins * option BoxPins in
        match e with
        | None => Done d
        | Some e => Done (set_boxes d (<[rec_switch_addr record := record_query e pkt datagram now]> (dp_boxes d)))
        end
    end.

(** ** The deny-all gate *)

Record DenyAllRefusal : Type := {
  dar_record : BoxRecord;
  dar_name : string;
  dar_query_type : option RecordType;
}.

(** [is_zone_name]: the apex's labels from the right, then one more. *)
Fixpoint strip_labels (apex labels : list string) : option (list string) :=
  match apex with
  | [] => Some labels
  | a :: apex => match labels with
                 | l :: labels => if bool_decide (l = a) then strip_labels apex labels else None
                 | [] => None
                 end
  end.
Definition is_zone_name (name : DName) : bool :=
  match strip_labels (rev (str_split "." ZONE_APEX)) (rev (name_labels name)) with
  | Some (_ :: _) => true
  | _ => false
  end.

(** [deny_all_refusal]. *)
Definition deny_all_refusal (table : BoxTable) (pkt : L4Packet) (datagram : list Z) : option DenyAllRefusal :=
  if negb (l4_proto pkt =? IPPROTO_UDP) || negb (sa_port (l4_dst pkt) =? DNS_PORT) then None
  else match by_source table (sa_ip (l4_src pkt)) with
  | None => None
  | Some record =>
    if negb (rec_deny_all record) then None
    else
      let refused name query_type :=
        Some {| dar_record := record; dar_name := name; dar_query_type := query_type |} in
      match from_vec datagram with
      | None => refused "<unparseable>"%string None
      | Some message =>
        if negb (bool_decide (msg_type message = MtQuery)) || negb (bool_decide (msg_op_code message = OcQuery))
        then refused "<not a standard query>"%string None
        else match msg_queries message with
        | [] => refused "<no question>"%string None
        | queries =>
          match List.find (fun q => negb (bool_decide (q.2 = RtA) && is_zone_name q.1)) queries with
          | Some q => refused (wire_name q.1) (Some q.2)
          | None => None
          end
        end
      end
  end.
End table.
