(* ===== verification/DnsPinsProps.v ===== *)
(** * What one box's pins admit (crates/minvmd/src/net/dns_pins.rs)

    Histories of one entry of the DNS admission table: the box's queries, the
    replies the switch returned toward it, and the frames it sent.  The
    theorems say where every admission comes from and bound what the entry
    holds. *)

From stdpp Require Import base list gmap strings numbers.
From Stdlib Require Import ZArith Lia.
From S2P Require Import Prelude Text Egress Ingress Rebinding ReplyFlows DropLimiter Switch L4 Baseline ZoneAnswer DnsPins.
Open Scope Z_scope.

Section pins.
Context `{DnsCodec}.
Implicit Types (p : BoxPins) (dst a : ip4) (now : Z) (key : QueryKey).

(** ** Histories *)

(** The reply's effect on the entry, which the limiter has no part in. *)
Definition observe_pins p (pkt : L4Packet) (datagram : list Z) now : BoxPins :=
  (observe p pkt datagram limiter_new (fun _ => 0) now).1.

Lemma observe_observe_pins p pkt dg l clock now : (observe p pkt dg l clock now).1 = observe_pins p pkt dg now.
Proof.
  unfold observe_pins, observe. destruct (_ || _); [done|]. destruct (_ <? _)%nat; [done|].
  destruct (from_vec dg) as [m|]; [|done]. destruct (negb _); [done|].
  destruct (msg_queries m) as [|[q rt] rest]; [done|]. destruct (negb _); [done|]. cbv zeta.
  by destruct (negb _).
Qed.

Inductive PinOp : Type :=
| PQuery (pkt : L4Packet) (datagram : list Z) (now : Z)
| PReply (pkt : L4Packet) (datagram : list Z) (now : Z)
| PFrame (dst : ip4) (pkt : option L4Packet) (now : Z).

Definition pin_step p (op : PinOp) : BoxPins * bool :=
  match op with
  | PQuery pkt datagram now => (record_query p pkt datagram now, false)
  | PReply pkt datagram now => (observe_pins p pkt datagram now, false)
  | PFrame dst pkt now => admits p dst pkt now
  end.

(** ** Where a pin comes from *)

(** A datagram that is one of the box's questions. *)
Definition is_query (pkt : L4Packet) (datagram : list Z) key : Prop :=
  (length datagram <= MAX_DATAGRAM)%nat /\
  exists m q rt rest, from_vec datagram = Some m /\ msg_type m = MtQuery /\ msg_queries m = (q, rt) :: rest /\
    key = {| qk_txid := msg_id m; qk_src_port := sa_port (l4_src pkt); qk_name := wire_name q |}.

(** A datagram from the box's resolver that answers a declared name, and the
    addresses on its answer chain. *)
Definition is_reply p (pkt : L4Packet) (datagram : list Z) key (answers : list ip4) : Prop :=
  sa_ip (l4_src pkt) = er_resolver (rec_egress (bp_record p)) /\ sa_port (l4_src pkt) = DNS_PORT /\
  (length datagram <= MAX_DATAGRAM)%nat /\
  exists m q rt rest, from_vec datagram = Some m /\ msg_type m = MtResponse /\ msg_queries m = (q, rt) :: rest /\
    key = {| qk_txid := msg_id m; qk_src_port := sa_port (l4_dst pkt); qk_name := wire_name q |} /\
    wire_name q ∈ bp_names p /\ answers = chain_answers (wire_name q) (msg_answers m).

(** The allowance a name's answers are cut by. *)
Definition allowance p (name : string) : option (list Ipv4Cidr) :=
  match bp_node_plane p with
  | Some grant => if bool_decide (is_Some (npn_names grant !! name)) then Some (npn_allow grant)
                  else er_allow_subnets (rec_egress (bp_record p))
  | None => er_allow_subnets (rec_egress (bp_record p))
  end.

(** The rebinding decision of this row on an address. *)
Definition reachable_address p (name : string) a : Prop :=
  rebinding_admits a false (allowance p name) (er_deny_subnets (rec_egress (bp_record p)))
    (bp_infrastructure p) = None.

(** [a] was pinned at [t]: a reply at [t] to a question the box asked less
    than the expiry before carried it on its answer chain, and the row may
    reach it. *)
Definition pinned p (ops : list PinOp) a (t : Z) : Prop :=
  exists pre post pkt dg key answers,
    ops = pre ++ PReply pkt dg t :: post /\ is_reply p pkt dg key answers /\
    a ∈ answers /\ reachable_address p (qk_name key) a /\
    exists qpkt qdg tq, PQuery qpkt qdg tq ∈ pre /\ is_query qpkt qdg key /\
      duration_since t tq < DNS_QUERY_EXPIRY.

Definition live_pin p (ops : list PinOp) a now : Prop :=
  exists t, pinned p ops a t /\ now < t + DNS_ADMISSION_WINDOW.

(** A flow last ridden at [s]: opened by a frame under a live pin of its
    destination, and ridden again each time before the idle cap. *)
Inductive rides p : list PinOp -> FlowKey -> Z -> Prop :=
| rides_open ops dst pkt now :
    live_pin p ops dst now -> rides p (ops ++ [PFrame dst (Some pkt) now]) (flow_key dst pkt) now
| rides_again ops dst pkt s now :
    rides p ops (flow_key dst pkt) s -> duration_since now s < DNS_FLOW_IDLE_CAP ->
    rides p (ops ++ [PFrame dst (Some pkt) now]) (flow_key dst pkt) now
| rides_later ops op k s : rides p ops k s -> rides p (ops ++ [op]) k s.

(** ** The declaration does not change *)

Definition same_decl p p' : Prop :=
  bp_record p' = bp_record p /\ bp_names p' = bp_names p /\
  bp_infrastructure p' = bp_infrastructure p /\ bp_node_plane p' = bp_node_plane p.

Lemma same_decl_trans p p' p'' : same_decl p p' -> same_decl p' p'' -> same_decl p p''.
Proof. unfold same_decl. intros (?&?&?&?) (?&?&?&?). repeat split; congruence. Qed.

Lemma is_reply_decl p p' pkt dg key answers :
  same_decl p p' -> is_reply p' pkt dg key answers <-> is_reply p pkt dg key answers.
Proof. intros (Hr & Hn & _ & _). unfold is_reply. by rewrite Hr, Hn. Qed.

Lemma reachable_decl p p' name a : same_decl p p' -> reachable_address p' name a <-> reachable_address p name a.
Proof. intros (Hr & _ & Hi & Hg). unfold reachable_address, allowance. by rewrite Hr, Hi, Hg. Qed.

Lemma admit_decl p name addrs now : same_decl p (admit_answers p name addrs now).
Proof.
  unfold admit_answers. destruct addrs as [|a addrs]; [done|]. cbv zeta.
  destruct (foldl _ _ _) as [[m h] any]. destruct (negb any); [done|]. simpl.
  destruct (bp_node_plane p) as [g|] eqn:Hg; [|done]. by destruct (bool_decide _).
Qed.

Lemma record_query_decl p pkt dg now : same_decl p (record_query p pkt dg now).
Proof. unfold record_query. by repeat case_match. Qed.

Lemma admits_by_window_decl p dst k ends now : same_decl p (admits_by_window p dst k ends now).1.
Proof. unfold admits_by_window. by repeat case_match. Qed.

Lemma admits_decl p dst pkt now : same_decl p (admits p dst pkt now).1.
Proof.
  unfold admits. destruct pkt as [pkt|]; [|done]. cbv zeta. destruct (_ !! _) as [seen|].
  - destruct (_ <? _); [done|]. eapply same_decl_trans; [|apply admits_by_window_decl]. done.
  - apply admits_by_window_decl.
Qed.

(** [observe] either leaves the entry, or consumes the reply's question and,
    when it was outstanding, admits what the row may reach. *)
Lemma observe_pins_cases p pkt dg now :
  (observe_pins p pkt dg now = p /\ forall key answers, ~ is_reply p pkt dg key answers) \/
  exists key answers, is_reply p pkt dg key answers /\
    let p1 := set_outstanding p (delete key (bp_outstanding p)) in
    observe_pins p pkt dg now =
      (if match bp_outstanding p !! key with Some tq => duration_since now tq <? DNS_QUERY_EXPIRY | None => false end
       then admit_answers p1 (qk_name key)
              (rs_admitted (rebinding_intersection answers false (allowance p (qk_name key))
                 (er_deny_subnets (rec_egress (bp_record p))) (bp_infrastructure p))) now
       else p1).
Proof.
  unfold observe_pins, observe, is_reply.
  destruct (bool_decide (_ <> _) || _) eqn:E1.
  { left. split; [done|]. intros key answers (Hip & Hport & _). apply orb_true_iff in E1 as [E1|E1].
    - by apply bool_decide_eq_true in E1.
    - by rewrite Hport in E1. }
  apply orb_false_iff in E1 as [Hip Hport]. apply bool_decide_eq_false, dec_stable in Hip.
  apply negb_false_iff, Z.eqb_eq in Hport.
  destruct (_ <? _)%nat eqn:E2.
  { left. split; [done|]. intros key answers (_ & _ & Hlen & _). apply Nat.ltb_lt in E2. lia. }
  apply Nat.ltb_ge in E2. destruct (from_vec dg) as [m|] eqn:Hm.
  2: { left. split; [done|]. intros key answers (_ & _ & _ & m & q & rt & rest & ? & _). done. }
  destruct (bool_decide (msg_type m = MtResponse)) eqn:E3; simpl.
  2: { apply bool_decide_eq_false in E3. left. split; [done|].
       intros key answers (_ & _ & _ & m' & q & rt & rest & [= <-] & ? & _). done. }
  apply bool_decide_eq_true in E3. destruct (msg_queries m) as [|[q rt] rest] eqn:Hq.
  { left. split; [done|]. intros key answers (_ & _ & _ & m' & q & rt & rest & [= <-] & _ & ? & _). congruence. }
  destruct (bool_decide (wire_name q ∈ bp_names p)) eqn:E4; simpl.
  2: { apply bool_decide_eq_false in E4. left. split; [done|].
       intros key answers (_ & _ & _ & m' & q' & rt' & rest' & [= <-] & _ & Hq' & _ & ? & _).
       rewrite Hq in Hq'. by injection Hq' as <- <- <-. }
  apply bool_decide_eq_true in E4. right.
  exists {| qk_txid := msg_id m; qk_src_port := sa_port (l4_dst pkt); qk_name := wire_name q |},
    (chain_answers (wire_name q) (msg_answers m)).
  split.
  { repeat split; try done. exists m, q, rt, rest. repeat split; try done. }
  cbv zeta. destruct (match bp_outstanding p !! _ with Some _ => _ | None => _ end); reflexivity.
Qed.

Lemma elem_of_rs_admitted a answers zone allow deny infra :
  a ∈ rs_admitted (rebinding_intersection answers zone allow deny infra) <->
  rebinding_admits a zone allow deny infra = None /\ a ∈ answers.
Proof. unfold rebinding_intersection. rewrite rebinding_intersection_app. simpl. by rewrite list_elem_of_filter. Qed.

Lemma length_rs_admitted answers zone allow deny infra :
  (length (rs_admitted (rebinding_intersection answers zone allow deny infra)) <= length answers)%nat.
Proof. unfold rebinding_intersection. rewrite rebinding_intersection_app. simpl. apply length_filter. Qed.

(** ** Admitting one name's answers *)

Lemma owned_refresh n (m : gmap ip4 Admission) a old new :
  m !! a = Some old -> adm_name new = adm_name old ->
  size (owned n (<[a := new]> m)) = size (owned n m).
Proof.
  intros Ha Hn. unfold owned. destruct (decide (adm_name old = n)) as [E|E].
  - rewrite map_filter_insert_True by (simpl; congruence). rewrite map_size_insert.
    assert (Hl : filter (fun e : ip4 * Admission => adm_name e.2 = n) m !! a = Some old).
    { by apply map_lookup_filter_Some. }
    by rewrite Hl.
  - rewrite map_filter_insert_False by (simpl; congruence). rewrite map_filter_delete_not; [done|].
    intros y Hy. rewrite Hy in Ha. injection Ha as ->. exact E.
Qed.

Lemma owned_fresh n (m : gmap ip4 Admission) a new :
  m !! a = None ->
  size (owned n (<[a := new]> m)) = ((if decide (adm_name new = n) then 1 else 0) + size (owned n m))%nat.
Proof.
  intros Ha. unfold owned. destruct (decide _) as [E|E].
  - rewrite map_filter_insert_True by done. rewrite map_size_insert.
    assert (Hl : filter (fun e : ip4 * Admission => adm_name e.2 = n) m !! a = None).
    { apply map_lookup_filter_None. by left. }
    by rewrite Hl.
  - rewrite map_filter_insert_False by done. by rewrite (delete_id m a Ha).
Qed.

Lemma owned_filter_le n (P : ip4 * Admission -> Prop) `{forall x, Decision (P x)} (m : gmap ip4 Admission) :
  (size (owned n (filter P m)) <= size (owned n m))%nat.
Proof.
  apply map_subseteq_size. unfold owned. apply map_subseteq_spec. intros a x.
  rewrite !map_lookup_filter_Some. intros [[Hx _] Hn]. done.
Qed.

(** What the loop of [admit_answers] keeps: the running count is the name's own, no
    name passes the cap, and every entry is the old one or an answer's. *)
Definition admit_loop_inv (name : string) (expires : Z) (m0 : gmap ip4 Admission) (addrs : list ip4)
    (acc : gmap ip4 Admission * nat * bool) : Prop :=
  let '(m, held, _) := acc in
  held = size (owned name m) /\
  (forall n, size (owned n m) <= DNS_MAX_ADDRESSES_PER_NAME)%nat /\
  (forall a ad, m !! a = Some ad ->
     m0 !! a = Some ad \/
     a ∈ addrs /\ adm_expires ad = expires /\
     (adm_name ad = name \/ exists old, m0 !! a = Some old /\ adm_name ad = adm_name old)).

Lemma admit_loop name expires m0 addrs any :
  (forall n, size (owned n m0) <= DNS_MAX_ADDRESSES_PER_NAME)%nat ->
  admit_loop_inv name expires m0 addrs
    (foldl (admit_address name expires) (m0, size (owned name m0), any) addrs).
Proof.
  intros Hcap. induction addrs as [|a addrs IH] using rev_ind; simpl.
  { split; [done|]. split; [done|]. intros a ad Ha. by left. }
  rewrite foldl_snoc. destruct (foldl _ _ addrs) as [[m held] b]. destruct IH as (Hheld & Hle & Hprov).
  assert (Hmono : forall x ad, m !! x = Some ad ->
     m0 !! x = Some ad \/ x ∈ addrs ++ [a] /\ adm_expires ad = expires /\
     (adm_name ad = name \/ exists old, m0 !! x = Some old /\ adm_name ad = adm_name old)).
  { intros x ad Hx. destruct (Hprov x ad Hx) as [Hx'|(Hx' & Hrest)]; [by left|right].
    split; [|done]. auto with minimal. }
  assert (Hin : a ∈ addrs ++ [a]) by auto with minimal.
  unfold admit_address at 1. destruct (m !! a) as [old|] eqn:Ha.
  - assert (Hr : forall n, size (owned n (<[a := {| adm_name := adm_name old; adm_expires := expires |}]> m)) =
                           size (owned n m)) by (intros n; by apply owned_refresh with old).
    split; [by rewrite Hr|]. split; [intros n; by rewrite Hr|]. intros x ad Hx.
    destruct (decide (x = a)) as [->|Hne]; [|rewrite lookup_insert_ne in Hx by done; by apply Hmono].
    rewrite lookup_insert_eq in Hx. injection Hx as <-. right. split; [done|]. split; [done|].
    simpl. destruct (Hprov a old Ha) as [Ho|(_ & _ & Hn)]; [|done]. right. by exists old.
  - destruct (Nat.leb_spec DNS_MAX_ADDRESSES_PER_NAME held) as [Hge|Hlt]; [exact (conj Hheld (conj Hle Hmono))|].
    assert (Hr := fun n => owned_fresh n m a {| adm_name := name; adm_expires := expires |} Ha). simpl in Hr.
    split; [rewrite Hr, decide_True by done; lia|]. split.
    + intros n. rewrite Hr. destruct (decide (name = n)) as [<-|]; [lia|apply Hle].
    + intros x ad Hx.
      destruct (decide (x = a)) as [->|Hne]; [|rewrite lookup_insert_ne in Hx by done; by apply Hmono].
      rewrite lookup_insert_eq in Hx. injection Hx as <-. right. split; [done|]. split; [done|]. by left.
Qed.

(** Within the cap, every answer is held until the new expiry. *)
Lemma admit_loop_covers name expires addrs m held any m' held' any' :
  foldl (admit_address name expires) (m, held, any) addrs = (m', held', any') ->
  (held + length addrs <= DNS_MAX_ADDRESSES_PER_NAME)%nat ->
  (forall a, a ∈ addrs -> exists ad, m' !! a = Some ad /\ adm_expires ad = expires) /\
  (held' <= held + length addrs)%nat.
Proof.
  revert m' held' any'. induction addrs as [|a addrs IH] using rev_ind; intros m' held' any' Hf Hcap.
  { injection Hf as <- <- <-. split; [|simpl; lia]. intros a Ha. by apply not_elem_of_nil in Ha. }
  rewrite foldl_snoc in Hf. rewrite length_app in *. simpl in *.
  destruct (foldl _ _ addrs) as [[m1 h1] b1] eqn:E1.
  destruct (IH m1 h1 b1 eq_refl ltac:(lia)) as [Hall Hle]. unfold admit_address at 1 in Hf.
  assert (Hkeep : forall new, adm_expires new = expires ->
    forall x, x ∈ addrs ++ [a] -> exists ad, <[a := new]> m1 !! x = Some ad /\ adm_expires ad = expires).
  { intros new Hnew x Hx. destruct (decide (x = a)) as [->|Hne].
    - exists new. by rewrite lookup_insert_eq.
    - rewrite lookup_insert_ne by done. apply Hall. apply elem_of_app in Hx as [Hx|Hx]; [done|].
      by apply list_elem_of_singleton in Hx. }
  destruct (m1 !! a) as [old|].
  - injection Hf as <- <- <-. split; [by apply Hkeep|lia].
  - destruct (Nat.leb_spec DNS_MAX_ADDRESSES_PER_NAME h1); [lia|].
    injection Hf as <- <- <-. split; [by apply Hkeep|lia].
Qed.

Definition name_capped (m : gmap ip4 Admission) : Prop :=
  forall n, (size (owned n m) <= DNS_MAX_ADDRESSES_PER_NAME)%nat.

(** [admit_answers] touches only the admissions (and the once-per-box log flag). *)
Lemma admit_frame p name addrs now :
  bp_outstanding (admit_answers p name addrs now) = bp_outstanding p /\
  bp_flows (admit_answers p name addrs now) = bp_flows p.
Proof.
  unfold admit_answers. destruct addrs as [|a addrs]; [done|]. cbv zeta.
  destruct (foldl _ _ _) as [[m h] any]. destruct (negb any); [done|]. simpl.
  destruct (bp_node_plane p) as [g|]; [|done]. by destruct (bool_decide _).
Qed.

(** The admissions [admit_answers] leaves, whichever way the log goes. *)
Lemma admit_admitted p name addrs now :
  addrs <> [] ->
  let m0 := filter (fun e : ip4 * Admission => adm_name e.2 <> name \/ now < adm_expires e.2) (bp_admitted p) in
  let m := (foldl (admit_address name (now + DNS_ADMISSION_WINDOW)) (m0, size (owned name m0), false) addrs).1.1 in
  bp_admitted (admit_answers p name addrs now) =
    if (ADMISSION_SWEEP_AT <? size m)%nat
    then filter (fun e : ip4 * Admission => now < adm_expires e.2) m else m.
Proof.
  intros Hne. cbv zeta. unfold admit_answers. destruct addrs as [|a addrs]; [done|]. cbv zeta.
  destruct (foldl _ _ _) as [[m h] any]. simpl fst. destruct (negb any); [done|]. simpl.
  destruct (bp_node_plane p) as [g|]; [|done]. by destruct (bool_decide _).
Qed.

Lemma admit_prov p name addrs now :
  name_capped (bp_admitted p) ->
  name_capped (bp_admitted (admit_answers p name addrs now)) /\
  (forall a ad, bp_admitted (admit_answers p name addrs now) !! a = Some ad ->
     bp_admitted p !! a = Some ad \/
     a ∈ addrs /\ adm_expires ad = now + DNS_ADMISSION_WINDOW /\
     (adm_name ad = name \/ exists old, bp_admitted p !! a = Some old /\ adm_name ad = adm_name old)).
Proof.
  intros Hcap. destruct (decide (addrs = [])) as [->|Hne]; [split; [done|by left]|].
  rewrite admit_admitted by done. cbv zeta.
  set (m0 := filter _ (bp_admitted p)).
  assert (Hcap0 : name_capped m0).
  { intros n. etransitivity; [apply owned_filter_le|apply Hcap]. }
  assert (Hsub : forall a ad, m0 !! a = Some ad -> bp_admitted p !! a = Some ad).
  { intros a ad. unfold m0. rewrite map_lookup_filter_Some. by intros [? _]. }
  pose proof (admit_loop name (now + DNS_ADMISSION_WINDOW) m0 addrs false Hcap0) as Hinv.
  destruct (foldl _ _ addrs) as [[m h] any]. destruct Hinv as (_ & Hle & Hprov). simpl fst.
  assert (Hprov' : forall a ad, m !! a = Some ad ->
     bp_admitted p !! a = Some ad \/
     a ∈ addrs /\ adm_expires ad = now + DNS_ADMISSION_WINDOW /\
     (adm_name ad = name \/ exists old, bp_admitted p !! a = Some old /\ adm_name ad = adm_name old)).
  { intros a ad Ha. destruct (Hprov a ad Ha) as [Ho|(Hin & He & [Hn|(old & Ho & Hn)])];
      [by left; apply Hsub|by right; auto|].
    right. split; [done|]. split; [done|]. right. exists old. auto. }
  destruct (_ <? _)%nat.
  - split; [intros n; etransitivity; [apply owned_filter_le|apply Hle]|].
    intros a ad Ha. apply map_lookup_filter_Some in Ha as [Ha _]. by apply Hprov'.
  - split; [exact Hle|exact Hprov'].
Qed.

(** ** Recording a question, deciding a frame *)

Lemma record_query_keeps p pkt dg now :
  bp_admitted (record_query p pkt dg now) = bp_admitted p /\ bp_flows (record_query p pkt dg now) = bp_flows p.
Proof. unfold record_query. by repeat case_match. Qed.

Lemma record_query_outstanding p pkt dg now :
  (forall key t, bp_outstanding (record_query p pkt dg now) !! key = Some t ->
     bp_outstanding p !! key = Some t \/ t = now /\ is_query pkt dg key) /\
  ((size (bp_outstanding p) <= DNS_OUTSTANDING_QUERY_CAP)%nat ->
   (size (bp_outstanding (record_query p pkt dg now)) <= DNS_OUTSTANDING_QUERY_CAP)%nat).
Proof.
  unfold record_query. destruct (_ <? length dg)%nat eqn:Hlen; [by auto|]. apply Nat.ltb_ge in Hlen.
  destruct (from_vec dg) as [m|] eqn:Hm; [|by auto].
  destruct (bool_decide (msg_type m = MtQuery)) eqn:Ht; [|by auto]. apply bool_decide_eq_true in Ht.
  destruct (msg_queries m) as [|[q rt] rest] eqn:Hq; [by auto|]. cbn [negb]. cbv zeta.
  set (key0 := {| qk_txid := _ |}). set (out := filter _ _).
  assert (Hsub : forall k t, out !! k = Some t -> bp_outstanding p !! k = Some t).
  { intros k t Hk. by apply map_lookup_filter_Some in Hk as [? _]. }
  assert (Hsize : (size out <= size (bp_outstanding p))%nat).
  { apply map_subseteq_size, map_subseteq_spec. exact Hsub. }
  destruct (_ && _) eqn:Hcap; simpl bp_outstanding.
  { split; [auto|lia]. }
  split.
  - intros k t. rewrite lookup_insert_Some. intros [[<- <-]|[_ Hk]]; [right|left; auto].
    split; [done|]. split; [done|]. by exists m, q, rt, rest.
  - intros Hle. rewrite map_size_insert. destruct (out !! key0) eqn:Hk; [simpl; lia|].
    apply andb_false_iff in Hcap as [Hcap|Hcap]; [apply Nat.leb_gt in Hcap; lia|].
    apply negb_false_iff, bool_decide_eq_true in Hcap as [t Ht']. congruence.
Qed.

(** The ways a frame is admitted. *)
Definition admit_reason p dst (pkt : option L4Packet) now : Prop :=
  admits_destination p dst now = true \/
  exists pk s, pkt = Some pk /\ ftb_flows (bp_flows p) !! flow_key dst pk = Some s /\
    duration_since now s < DNS_FLOW_IDLE_CAP.

(** One frame: what it may leave in the flow table, and why it is admitted. *)
Definition frame_effect p dst (pkt : option L4Packet) now (r : BoxPins * bool) : Prop :=
  bp_outstanding r.1 = bp_outstanding p /\ bp_admitted r.1 = bp_admitted p /\
  (forall k s, ftb_flows (bp_flows r.1) !! k = Some s ->
     ftb_flows (bp_flows p) !! k = Some s \/
     s = now /\ admit_reason p dst pkt now /\ exists pk, pkt = Some pk /\ k = flow_key dst pk) /\
  ((size (ftb_flows (bp_flows p)) <= DNS_MAX_FLOWS_PER_BOX)%nat ->
   (size (ftb_flows (bp_flows r.1)) <= DNS_MAX_FLOWS_PER_BOX)%nat) /\
  (r.2 = true -> admit_reason p dst pkt now).

Lemma size_filter_flows now (f : gmap FlowKey Z) :
  (size (filter (fun e : FlowKey * Z => (duration_since now e.2 < DNS_FLOW_IDLE_CAP)%Z) f) <= size f)%nat.
Proof. apply map_subseteq_size, map_subseteq_spec. intros k s Hk. by apply map_lookup_filter_Some in Hk as [? _]. Qed.

Lemma window_effect p dst pk ends now :
  frame_effect p dst (Some pk) now (admits_by_window p dst (flow_key dst pk) ends now).
Proof.
  unfold admits_by_window. destruct (admits_destination p dst now) eqn:Hd; cbn [negb].
  2: { unfold frame_effect. simpl. repeat split; auto. done. }
  assert (Hr : admit_reason p dst (Some pk) now) by (by left).
  destruct ends; [unfold frame_effect; simpl; repeat split; auto|].
  set (t := if (_ && _) then _ else (bp_flows p, bp_sweeps p)).
  assert (Ht : forall k s, ftb_flows t.1 !! k = Some s -> ftb_flows (bp_flows p) !! k = Some s).
  { subst t. destruct (_ && _); [|done]. simpl. intros k s Hk. by apply map_lookup_filter_Some in Hk as [? _]. }
  assert (Hs : (size (ftb_flows t.1) <= size (ftb_flows (bp_flows p)))%nat).
  { subst t. destruct (_ && _); [apply size_filter_flows|done]. }
  destruct t as [t sw]. cbn [fst] in Ht, Hs.
  destruct (Nat.leb_spec DNS_MAX_FLOWS_PER_BOX (size (ftb_flows t))) as [Hge|Hlt].
  - split; [done|]. split; [done|]. cbn [fst snd].
    assert (Hc : ftb_flows (bp_flows (set_flow_state p (claim_at_cap_line t now).1
                   (u64_wrapping_succ (bp_at_cap_admitted p)) sw)) = ftb_flows t).
    { simpl. unfold claim_at_cap_line. simpl. by destruct (match ftb_last_at_cap_line t with Some _ => _ | None => _ end). }
    rewrite Hc. split; [auto|]. split; [lia|auto].
  - split; [done|]. split; [done|]. cbn [fst snd]. simpl ftb_flows. split.
    + intros k s. rewrite lookup_insert_Some. intros [[<- <-]|[_ Hk]]; [right|left; auto].
      split; [done|]. split; [done|]. by exists pk.
    + split; [|auto]. intros _. rewrite map_size_insert. destruct (_ !! _); simpl; lia.
Qed.

Lemma admits_effect p dst pkt now : frame_effect p dst pkt now (admits p dst pkt now).
Proof.
  destruct pkt as [pk|]; unfold admits; cbv zeta.
  2: { unfold frame_effect, admit_reason. simpl. repeat split; auto. }
  destruct (ftb_flows (bp_flows p) !! flow_key dst pk) as [seen|] eqn:Hk; [|apply window_effect].
  destruct (Z.ltb_spec (duration_since now seen) DNS_FLOW_IDLE_CAP) as [Hlive|Hdead].
  - assert (Hr : admit_reason p dst (Some pk) now) by (right; by exists pk, seen).
    split; [done|]. split; [done|]. cbn [fst snd]. simpl ftb_flows.
    destruct (has_flag _ _); (split; [|split; [|auto]]).
    + intros k s Hs. apply lookup_delete_Some in Hs as [_ ?]. by left.
    + intros Hle. rewrite map_size_delete, Hk. simpl. lia.
    + intros k s. rewrite lookup_insert_Some. intros [[<- <-]|[_ ?]]; [right|by left].
      split; [done|]. split; [done|]. by exists pk.
    + intros Hle. rewrite map_size_insert, Hk. simpl. lia.
  - set (p1 := set_flow_state p _ _ _).
    destruct (window_effect p1 dst pk (has_flag (l4_tcp_flags pk) (Z.lor TCP_FIN TCP_RST)) now)
      as (Ho & Ha & Hf & Hs & Hr).
    assert (Hreason : admit_reason p1 dst (Some pk) now -> admit_reason p dst (Some pk) now).
    { intros [Hd|(pk' & s & [= <-] & Hl & _)]; [by left|]. simpl in Hl. by rewrite lookup_delete_eq in Hl. }
    split; [done|]. split; [done|]. split.
    + intros k s Hks. destruct (Hf k s Hks) as [Hl|(-> & Hr' & Hpk)]; [|by right; auto].
      simpl in Hl. apply lookup_delete_Some in Hl as [_ ?]. by left.
    + split; [|by auto]. intros Hle. apply Hs. simpl. rewrite map_size_delete, Hk. simpl. lia.
Qed.

(** ** Provenance *)

Lemma pinned_snoc p ops op a t : pinned p ops a t -> pinned p (ops ++ [op]) a t.
Proof.
  intros (pre & post & pkt & dg & key & answers & -> & Hrest). exists pre, (post ++ [op]), pkt, dg, key, answers.
  split; [|exact Hrest]. by rewrite <- app_assoc.
Qed.

(** What the history explains of an entry built for the row [p0]. *)
Record PinsInv p0 (ops : list PinOp) p : Prop := {
  pi_decl : same_decl p0 p;
  pi_out : forall key t, bp_outstanding p !! key = Some t ->
    exists pkt dg, PQuery pkt dg t ∈ ops /\ is_query pkt dg key;
  pi_adm : forall a ad, bp_admitted p !! a = Some ad ->
    adm_name ad ∈ bp_names p0 /\ exists t, pinned p0 ops a t /\ adm_expires ad = t + DNS_ADMISSION_WINDOW;
  pi_flows : forall k s, ftb_flows (bp_flows p) !! k = Some s -> rides p0 ops k s;
  pi_capped : name_capped (bp_admitted p);
  pi_out_size : (size (bp_outstanding p) <= DNS_OUTSTANDING_QUERY_CAP)%nat;
  pi_flow_size : (size (ftb_flows (bp_flows p)) <= DNS_MAX_FLOWS_PER_BOX)%nat;
}.

Lemma live_pin_of p0 ops p dst now :
  PinsInv p0 ops p -> admits_destination p dst now = true -> live_pin p0 ops dst now.
Proof.
  intros Hi. unfold admits_destination. destruct (bp_admitted p !! dst) as [ad|] eqn:Ha; [|done].
  intros Hlt%Z.ltb_lt. destruct (pi_adm _ _ _ Hi dst ad Ha) as (_ & t & Hp & He). exists t. split; [done|lia].
Qed.

Lemma pins_inv_later p0 ops op p : PinsInv p0 ops p -> PinsInv p0 (ops ++ [op]) p.
Proof.
  intros [Hd Ho Ha Hf Hc Hos Hfs]. constructor; try assumption.
  - intros key t Hk. destruct (Ho key t Hk) as (pkt & dg & Hin & Hq). exists pkt, dg. auto with minimal.
  - intros a ad Hx. destruct (Ha a ad Hx) as (? & t & ? & ?). split; [done|]. exists t. auto using pinned_snoc.
  - intros k s Hk. by apply rides_later, Hf.
Qed.

Lemma pins_inv_query p0 ops p pkt dg now :
  PinsInv p0 ops p -> PinsInv p0 (ops ++ [PQuery pkt dg now]) (record_query p pkt dg now).
Proof.
  intros Hi%(pins_inv_later _ _ (PQuery pkt dg now)). destruct Hi as [Hd Ho Ha Hf Hc Hos Hfs].
  destruct (record_query_keeps p pkt dg now) as [Ea Ef].
  destruct (record_query_outstanding p pkt dg now) as [Hout Hsize].
  constructor; rewrite ?Ea, ?Ef; auto.
  - eapply same_decl_trans; [exact Hd|apply record_query_decl].
  - intros key t Hk. destruct (Hout key t Hk) as [Hk'|[-> Hq]]; [auto|]. exists pkt, dg. auto with minimal.
Qed.

Lemma pins_inv_frame p0 ops p dst pkt now :
  PinsInv p0 ops p -> PinsInv p0 (ops ++ [PFrame dst pkt now]) (admits p dst pkt now).1.
Proof.
  intros Hi. pose proof (pins_inv_later _ _ (PFrame dst pkt now) _ Hi) as [Hd Ho Ha Hf Hc Hos Hfs].
  destruct (admits_effect p dst pkt now) as (Eo & Ea & Hflow & Hsize & _).
  constructor; rewrite ?Ea, ?Eo; auto.
  - eapply same_decl_trans; [exact Hd|apply admits_decl].
  - intros k s Hk. destruct (Hflow k s Hk) as [Hk'|(-> & Hr & pk & -> & ->)]; [by apply Hf|].
    destruct Hr as [Hr|(pk' & s & [= <-] & Hs & Hlt)].
    + apply rides_open. by eapply live_pin_of.
    + apply rides_again with s; [by apply (pi_flows _ _ _ Hi)|done].
Qed.

Lemma pins_inv_reply p0 ops p pkt dg now :
  PinsInv p0 ops p -> PinsInv p0 (ops ++ [PReply pkt dg now]) (observe_pins p pkt dg now).
Proof.
  intros Hi. pose proof (pins_inv_later _ _ (PReply pkt dg now) _ Hi) as Hl.
  pose proof Hl as [Hd Ho Ha Hf Hc Hos Hfs].
  destruct (observe_pins_cases p pkt dg now) as [[-> _]|(key & answers & Hrep & Hobs)]; [exact Hl|].
  cbv zeta in Hobs. set (p1 := set_outstanding p (delete key (bp_outstanding p))) in Hobs.
  assert (Hi1 : PinsInv p0 (ops ++ [PReply pkt dg now]) p1).
  { constructor; try assumption.
    - intros k t Hk. simpl in Hk. apply lookup_delete_Some in Hk as [_ Hk]. by apply Ho.
    - simpl. etransitivity; [|exact Hos]. apply map_subseteq_size, delete_subseteq. }
  rewrite Hobs. destruct (bp_outstanding p !! key) as [tq|] eqn:Hkey; [|exact Hi1].
  destruct (Z.ltb_spec (duration_since now tq) DNS_QUERY_EXPIRY) as [Hlive|_]; [|exact Hi1].
  set (good := rs_admitted _). destruct (admit_frame p1 (qk_name key) good now) as [Eo Ef].
  destruct (admit_prov p1 (qk_name key) good now Hc) as [Hcap Hprov].
  assert (Hname : qk_name key ∈ bp_names p0).
  { destruct Hrep as (_ & _ & _ & m & q & rt & rest & _ & _ & _ & -> & Hin & _).
    destruct Hd as (_ & Hn & _). simpl. by rewrite <- Hn. }
  constructor; rewrite ?Eo, ?Ef; try apply Hi1; [|intros a ad Hx|exact Hcap].
  { eapply same_decl_trans; [exact Hd|apply (admit_decl p1)]. }
  destruct (Hprov a ad Hx) as [Hx'|(Hin & He & Hn)]; [by apply Ha|]. split.
  { destruct Hn as [->|(old & Hold & ->)]; [exact Hname|]. by destruct (Ha a old Hold) as [? _]. }
  exists now. split; [|exact He]. apply elem_of_rs_admitted in Hin as [Hreach Hin].
  destruct (pi_out _ _ _ Hi key tq Hkey) as (qpkt & qdg & Hq & His).
  exists ops, [], pkt, dg, key, answers. split; [done|]. split; [by apply (is_reply_decl p0 p)|].
  split; [done|]. split; [by apply (reachable_decl p0 p)|]. by exists qpkt, qdg, tq.
Qed.

Lemma pins_inv record subnet grant p0 ops :
  box_pins_built record subnet grant = Done p0 -> PinsInv p0 ops (run_state pin_step p0 ops).
Proof.
  unfold box_pins_built. rewrite deny_set_new_value. intros [= Hp0].
  induction ops as [|op ops IH] using rev_ind.
  - subst p0. constructor; simpl; try done; [|rewrite ?map_size_empty; unfold DNS_OUTSTANDING_QUERY_CAP; lia..].
    intros n. unfold owned. rewrite map_filter_empty, map_size_empty. lia.
  - rewrite run_state_app, run_state_cons. change (run_state pin_step ?s []) with s.
    destruct op; [by apply pins_inv_query|by apply pins_inv_reply|by apply pins_inv_frame].
Qed.

(** Why a frame is admitted, in terms of the history. *)
Definition history_admits p0 (ops : list PinOp) dst (pkt : option L4Packet) now : Prop :=
  live_pin p0 ops dst now \/
  exists pk s, pkt = Some pk /\ rides p0 ops (flow_key dst pk) s /\ duration_since now s < DNS_FLOW_IDLE_CAP.

Lemma admitted_explained p0 ops p dst pkt now :
  PinsInv p0 ops p -> (admits p dst pkt now).2 = true -> history_admits p0 ops dst pkt now.
Proof.
  intros Hi Hadm. destruct (admits_effect p dst pkt now) as (_ & _ & _ & _ & Hr).
  destruct (Hr Hadm) as [Hd|(pk & s & -> & Hs & Hlt)]; [left; by eapply live_pin_of|right].
  exists pk, s. split; [done|]. split; [by eapply pi_flows|done].
Qed.

(** C35: every frame the table admits is explained by the box's own lookups.
    Over any history of an entry, a frame is admitted only when its
    destination was pinned and the pin's window has not passed, or when its
    flow was opened under such a pin and ridden since without an idle gap of
    the cap.  A pin at an instant is a reply at that instant from the row's
    resolver, answering by transaction id, port and name a question the box
    sent less than the expiry before, for a name the row declared, with the
    address on its answer chain and not refused by the rebinding decision. *)
Theorem pin_provenance record subnet grant p0 ops dst pkt now :
  box_pins_built record subnet grant = Done p0 ->
  (admits (run_state pin_step p0 ops) dst pkt now).2 = true ->
  history_admits p0 ops dst pkt now.
Proof. intros Hp. apply admitted_explained. by eapply pins_inv. Qed.

(** ** Bounds *)

Lemma capped_size (names : gset string) (m : gmap ip4 Admission) :
  name_capped m -> (forall a ad, m !! a = Some ad -> adm_name ad ∈ names) ->
  (size m <= DNS_MAX_ADDRESSES_PER_NAME * size names)%nat.
Proof.
  revert m. induction names as [|n names Hn IH] using set_ind_L; intros m Hcap Hnames.
  - assert (m = ∅) as ->; [|rewrite map_size_empty; lia].
    apply map_eq. intros a. rewrite lookup_empty. destruct (m !! a) as [ad|] eqn:Ha; [|done].
    by apply Hnames, not_elem_of_empty in Ha.
  - rewrite <- (map_filter_union_complement (fun e : ip4 * Admission => adm_name e.2 = n) m).
    rewrite map_size_disj_union by apply map_disjoint_filter_complement.
    rewrite size_union, size_singleton by (rewrite disjoint_singleton_l; done).
    specialize (IH (filter (fun e : ip4 * Admission => ~ adm_name e.2 = n) m)).
    assert (Hrest : (size (filter (fun e : ip4 * Admission => ~ adm_name e.2 = n) m) <=
                     DNS_MAX_ADDRESSES_PER_NAME * size names)%nat).
    { apply IH; [intros n'; etransitivity; [apply owned_filter_le|apply Hcap]|].
      intros a ad Ha. apply map_lookup_filter_Some in Ha as [Ha Hne].
      apply Hnames in Ha. apply elem_of_union in Ha as [Ha|Ha]; [|exact Ha].
      by apply elem_of_singleton in Ha. }
    pose proof (Hcap n) as Hc. unfold owned in Hc. lia.
Qed.

(** An entry's memory is bounded whatever the box and its resolver send.
    At most sixteen questions are outstanding, at most 4096 flows are held,
    and the addresses admitted number at most 32 for each name the row
    declared, every one owned by such a name. *)
Theorem pins_bounded record subnet grant p0 ops :
  box_pins_built record subnet grant = Done p0 ->
  let p := run_state pin_step p0 ops in
  (size (bp_outstanding p) <= DNS_OUTSTANDING_QUERY_CAP)%nat /\
  (size (ftb_flows (bp_flows p)) <= DNS_MAX_FLOWS_PER_BOX)%nat /\
  (forall n, size (owned n (bp_admitted p)) <= DNS_MAX_ADDRESSES_PER_NAME)%nat /\
  (size (bp_admitted p) <= DNS_MAX_ADDRESSES_PER_NAME * size (bp_names p0))%nat.
Proof.
  intros Hp. destruct (pins_inv _ _ _ _ ops Hp) as [_ _ Ha _ Hc Ho Hf]. cbv zeta.
  split; [exact Ho|]. split; [exact Hf|]. split; [exact Hc|]. apply capped_size; [exact Hc|].
  intros a ad Hx. by destruct (Ha a ad Hx) as [? _].
Qed.

(** ** Replays *)

Lemma is_reply_fun p pkt dg key answers key' answers' :
  is_reply p pkt dg key answers -> is_reply p pkt dg key' answers' -> key' = key /\ answers' = answers.
Proof.
  intros (_ & _ & _ & m & q & rt & rest & Hm & _ & Hq & -> & _ & ->)
         (_ & _ & _ & m' & q' & rt' & rest' & Hm' & _ & Hq' & -> & _ & ->).
  rewrite Hm in Hm'. injection Hm' as <-. rewrite Hq in Hq'. by injection Hq' as <- <- <-.
Qed.

Lemma is_query_fun pkt dg key key' : is_query pkt dg key -> is_query pkt dg key' -> key' = key.
Proof.
  intros (_ & m & q & rt & rest & Hm & _ & Hq & ->) (_ & m' & q' & rt' & rest' & Hm' & _ & Hq' & ->).
  rewrite Hm in Hm'. injection Hm' as <-. rewrite Hq in Hq'. by injection Hq' as <- <- <-.
Qed.

Lemma observe_reply_pins p pkt dg key answers now :
  is_reply p pkt dg key answers ->
  let p1 := set_outstanding p (delete key (bp_outstanding p)) in
  observe_pins p pkt dg now =
    (if match bp_outstanding p !! key with Some tq => duration_since now tq <? DNS_QUERY_EXPIRY | None => false end
     then admit_answers p1 (qk_name key)
            (rs_admitted (rebinding_intersection answers false (allowance p (qk_name key))
               (er_deny_subnets (rec_egress (bp_record p))) (bp_infrastructure p))) now
     else p1).
Proof.
  intros Hr. destruct (observe_pins_cases p pkt dg now) as [[_ Hn]|(key' & answers' & Hr' & Hobs)].
  - by destruct (Hn key answers).
  - by destruct (is_reply_fun _ _ _ _ _ _ _ Hr Hr') as [-> ->].
Qed.

Lemma set_outstanding_id p : set_outstanding p (bp_outstanding p) = p.
Proof. by destruct p. Qed.

(** A reply to no outstanding question leaves the entry as it is. *)
Lemma unsolicited p pkt dg key answers now :
  is_reply p pkt dg key answers -> bp_outstanding p !! key = None -> observe_pins p pkt dg now = p.
Proof.
  intros Hr Hk. rewrite (observe_reply_pins _ _ _ _ _ _ Hr), Hk. cbv zeta.
  by rewrite delete_id, set_outstanding_id.
Qed.

Lemma observe_consumes p pkt dg key answers now :
  is_reply p pkt dg key answers -> bp_outstanding (observe_pins p pkt dg now) !! key = None.
Proof.
  intros Hr. rewrite (observe_reply_pins _ _ _ _ _ _ Hr). cbv zeta. destruct (match _ with Some _ => _ | None => _ end).
  - destruct (admit_frame (set_outstanding p (delete key (bp_outstanding p))) (qk_name key)
      (rs_admitted (rebinding_intersection answers false (allowance p (qk_name key))
               (er_deny_subnets (rec_egress (bp_record p))) (bp_infrastructure p))) now) as [-> _].
    apply lookup_delete_eq.
  - apply lookup_delete_eq.
Qed.

Lemma observe_outstanding_sub p pkt dg now key t :
  bp_outstanding (observe_pins p pkt dg now) !! key = Some t -> bp_outstanding p !! key = Some t.
Proof.
  destruct (observe_pins_cases p pkt dg now) as [[-> _]|(k & answers & Hr & ->)]; [done|]. cbv zeta.
  destruct (match _ with Some _ => _ | None => _ end).
  - rewrite (proj1 (admit_frame _ _ _ _)). simpl. intros Hl. by apply lookup_delete_Some in Hl as [_ ?].
  - simpl. intros Hl. by apply lookup_delete_Some in Hl as [_ ?].
Qed.

Lemma pin_step_decl p op : same_decl p (pin_step p op).1.
Proof.
  destruct op as [pkt dg now|pkt dg now|dst pkt now]; simpl; [apply record_query_decl| |apply admits_decl].
  destruct (observe_pins_cases p pkt dg now) as [[-> _]|(k & answers & Hr & ->)]; [done|]. cbv zeta.
  destruct (match _ with Some _ => _ | None => _ end); [|done].
  apply (admit_decl (set_outstanding p (delete k (bp_outstanding p)))).
Qed.

Lemma pin_step_unasked p op key :
  (forall qpkt qdg tq, op = PQuery qpkt qdg tq -> ~ is_query qpkt qdg key) ->
  bp_outstanding p !! key = None -> bp_outstanding (pin_step p op).1 !! key = None.
Proof.
  intros Hop Hk. apply eq_None_not_Some. intros [t Ht]. destruct op as [pkt dg now|pkt dg now|dst pkt now]; simpl in Ht.
  - destruct (record_query_outstanding p pkt dg now) as [Hout _].
    destruct (Hout key t Ht) as [Ht'|[_ Hq]]; [congruence|]. by apply (Hop pkt dg now eq_refl).
  - apply observe_outstanding_sub in Ht. congruence.
  - destruct (admits_effect p dst pkt now) as (Eo & _). rewrite Eo in Ht. congruence.
Qed.

(** A reply is good once.  After a reply was observed, and until the box
    sends its question again, any number of copies of it at any instants
    change nothing at all: no pin, no refreshed window. *)
Theorem replay_pins_nothing p pkt dg key answers t ops t' :
  is_reply p pkt dg key answers ->
  (forall qpkt qdg tq, PQuery qpkt qdg tq ∈ ops -> ~ is_query qpkt qdg key) ->
  let p' := run_state pin_step (observe_pins p pkt dg t) ops in
  observe_pins p' pkt dg t' = p'.
Proof.
  intros Hr Hops. cbv zeta.
  assert (Hinv : same_decl p (run_state pin_step (observe_pins p pkt dg t) ops) /\
                 bp_outstanding (run_state pin_step (observe_pins p pkt dg t) ops) !! key = None).
  { apply run_state_ind.
    - split; [apply (pin_step_decl p (PReply pkt dg t))|by eapply observe_consumes].
    - intros s op Hin [Hd Hk]. split; [eapply same_decl_trans; [exact Hd|apply pin_step_decl]|].
      apply pin_step_unasked; [|done]. intros qpkt qdg tq ->. by apply Hops with tq. }
  destruct Hinv as [Hd Hk]. apply unsolicited with key answers; [|done]. by apply (is_reply_decl p).
Qed.

(** ** What a lookup opens *)

Definition op_time (op : PinOp) : Z :=
  match op with PQuery _ _ now | PReply _ _ now | PFrame _ _ now => now end.

(** The addresses a name owns whose window holds at [t]. *)
Definition live_owned (name : string) (t : Z) (m : gmap ip4 Admission) : gmap ip4 Admission :=
  filter (fun e : ip4 * Admission => adm_name e.2 = name /\ t < adm_expires e.2) m.

Lemma owned_released name t (m : gmap ip4 Admission) :
  owned name (filter (fun e : ip4 * Admission => adm_name e.2 <> name \/ t < adm_expires e.2) m) =
  live_owned name t m.
Proof.
  unfold owned, live_owned. rewrite map_filter_filter. apply map_filter_ext. intros a ad _. simpl. tauto.
Qed.

Lemma record_query_records p pkt dg key now :
  is_query pkt dg key ->
  (size (filter (fun e : QueryKey * Z => (duration_since now e.2 < DNS_QUERY_EXPIRY)%Z) (bp_outstanding p))
     < DNS_OUTSTANDING_QUERY_CAP)%nat ->
  bp_outstanding (record_query p pkt dg now) !! key = Some now.
Proof.
  intros (Hlen & m & q & rt & rest & Hm & Ht & Hq & ->) Hroom. unfold record_query.
  destruct (Nat.ltb_spec MAX_DATAGRAM (length dg)); [lia|].
  rewrite Hm, Ht, Hq, bool_decide_eq_true_2 by done. cbn [negb]. cbv zeta.
  destruct (Nat.leb_spec DNS_OUTSTANDING_QUERY_CAP
    (size (filter (fun e : QueryKey * Z => duration_since now e.2 < DNS_QUERY_EXPIRY) (bp_outstanding p)))); [lia|].
  simpl. apply lookup_insert_eq.
Qed.

(** [a] is admitted at least until [until]. *)
Definition held_until (m : gmap ip4 Admission) a (until : Z) : Prop :=
  exists ad, m !! a = Some ad /\ until <= adm_expires ad.

Lemma held_filter (P : ip4 * Admission -> Prop) `{forall x, Decision (P x)} (m : gmap ip4 Admission) a until :
  (forall ad, until <= adm_expires ad -> P (a, ad)) -> held_until m a until -> held_until (filter P m) a until.
Proof. intros HP (ad & Ha & Hle). exists ad. rewrite map_lookup_filter_Some. auto. Qed.

Lemma admit_held p name addrs now a until :
  now < until <= now + DNS_ADMISSION_WINDOW ->
  held_until (bp_admitted p) a until -> held_until (bp_admitted (admit_answers p name addrs now)) a until.
Proof.
  intros Hnow Hh. destruct (decide (addrs = [])) as [->|Hne]; [done|].
  rewrite admit_admitted by done. cbv zeta. set (m0 := filter _ (bp_admitted p)).
  assert (Hh0 : held_until m0 a until).
  { apply held_filter; [|done]. intros ad Hle. right. simpl. lia. }
  assert (Hloop : held_until (foldl (admit_address name (now + DNS_ADMISSION_WINDOW))
                                (m0, size (owned name m0), false) addrs).1.1 a until).
  { clear Hne. induction addrs as [|x addrs IH] using rev_ind; [exact Hh0|]. rewrite foldl_snoc.
    destruct (foldl _ _ addrs) as [[m h] b]. simpl fst in IH. unfold admit_address at 1.
    assert (Hins : forall n, held_until (<[x := {| adm_name := n; adm_expires := now + DNS_ADMISSION_WINDOW |}]> m) a until).
    { intros n. destruct (decide (x = a)) as [->|Hne].
      - eexists. rewrite lookup_insert_eq. split; [reflexivity|simpl; lia].
      - unfold held_until. rewrite lookup_insert_ne by done. exact IH. }
    destruct (m !! x); [apply Hins|]. destruct (_ <=? _)%nat; [exact IH|apply Hins]. }
  destruct (_ <? _)%nat; [|exact Hloop]. apply held_filter; [|exact Hloop]. intros ad Hle. simpl. lia.
Qed.

Lemma pin_step_held p op a until :
  op_time op < until <= op_time op + DNS_ADMISSION_WINDOW ->
  held_until (bp_admitted p) a until -> held_until (bp_admitted (pin_step p op).1) a until.
Proof.
  intros Ht Hh. destruct op as [pkt dg now|pkt dg now|dst pkt now]; simpl in *.
  - by rewrite (proj1 (record_query_keeps p pkt dg now)).
  - destruct (observe_pins_cases p pkt dg now) as [[-> _]|(k & answers & Hr & ->)]; [done|]. cbv zeta.
    destruct (match _ with Some _ => _ | None => _ end); [|done].
    by apply (admit_held (set_outstanding p (delete k (bp_outstanding p)))).
  - destruct (admits_effect p dst pkt now) as (_ & Ea & _). by rewrite Ea.
Qed.

Lemma admits_held p dst pkt now : admits_destination p dst now = true -> (admits p dst pkt now).2 = true.
Proof.
  intros Hd.
  assert (Hw : forall p' k ends, bp_admitted p' = bp_admitted p -> (admits_by_window p' dst k ends now).2 = true).
  { intros p' k ends Ha. unfold admits_by_window.
    assert (Hd' : admits_destination p' dst now = true) by (unfold admits_destination; by rewrite Ha).
    rewrite Hd'. cbn [negb]. destruct ends; [done|]. destruct (if _ && _ then _ else _) as [tb sw].
    by destruct (_ <=? _)%nat. }
  unfold admits. destruct pkt as [pk|]; [|exact Hd]. cbv zeta.
  destruct (_ !! _) as [seen|]; [|by apply Hw]. destruct (_ <? _); [done|]. by apply Hw.
Qed.

Lemma admit_covers p name addrs t a :
  (size (live_owned name t (bp_admitted p)) + length addrs <= DNS_MAX_ADDRESSES_PER_NAME)%nat -> a ∈ addrs ->
  held_until (bp_admitted (admit_answers p name addrs t)) a (t + DNS_ADMISSION_WINDOW).
Proof.
  intros Hroom Ha. rewrite admit_admitted by (intros ->; by apply not_elem_of_nil in Ha). cbv zeta.
  rewrite <- owned_released in Hroom. set (m0 := filter _ (bp_admitted p)) in *.
  destruct (foldl _ _ addrs) as [[m h] any] eqn:Hf. simpl fst.
  destruct (admit_loop_covers _ _ _ _ _ _ _ _ _ Hf Hroom) as [Hall _].
  assert (Hheld : held_until m a (t + DNS_ADMISSION_WINDOW)).
  { destruct (Hall a Ha) as (ad & Hm & He). exists ad. split; [done|lia]. }
  destruct (_ <? _)%nat; [|exact Hheld]. apply held_filter; [|exact Hheld].
  intros ad Hle. simpl. unfold DNS_ADMISSION_WINDOW, from_mins, from_secs in Hle. lia.
Qed.

(** A question stays outstanding while it is fresh and no reply takes it. *)
Lemma record_query_keeps_key p pkt dg now key tq t :
  tq <= now <= t -> duration_since t tq < DNS_QUERY_EXPIRY ->
  (exists s, bp_outstanding p !! key = Some s /\ tq <= s <= t) ->
  exists s, bp_outstanding (record_query p pkt dg now) !! key = Some s /\ tq <= s <= t.
Proof.
  intros Hnow Hexp (s & Hs & Hb). unfold record_query. destruct (_ <? _)%nat; [by exists s|].
  destruct (from_vec dg) as [m|]; [|by exists s]. destruct (negb _); [by exists s|].
  destruct (msg_queries m) as [|[q rt] rest]; [by exists s|]. cbv zeta.
  set (out := filter _ (bp_outstanding p)). set (k := Build_QueryKey _ _ _).
  assert (out !! key = Some s) as Hout.
  { apply map_lookup_filter_Some. split; [done|]. cbn. unfold duration_since in *. lia. }
  destruct (_ && _); cbn; [by exists s|]. destruct (decide (k = key)) as [->|Hne].
  - exists now. by rewrite lookup_insert_eq.
  - exists s. by rewrite lookup_insert_ne.
Qed.
Lemma pin_step_keeps_key p op key tq t :
  tq <= op_time op <= t -> duration_since t tq < DNS_QUERY_EXPIRY ->
  (forall pkt dg now answers, op = PReply pkt dg now -> ~ is_reply p pkt dg key answers) ->
  (exists s, bp_outstanding p !! key = Some s /\ tq <= s <= t) ->
  exists s, bp_outstanding (pin_step p op).1 !! key = Some s /\ tq <= s <= t.
Proof.
  intros Ht Hexp Hno Hs. destruct op as [pkt dg now|pkt dg now|dst pkt now]; simpl in *.
  - by apply record_query_keeps_key.
  - destruct (observe_pins_cases p pkt dg now) as [[-> _]|(k & answers & Hr & ->)]; [done|]. cbv zeta.
    assert (k <> key) as Hne by (intros ->; by eapply Hno). destruct Hs as (s & Hs & Hb). exists s. split; [|done].
    assert (delete k (bp_outstanding p) !! key = Some s) as Hd by (by rewrite lookup_delete_ne).
    destruct (match _ with Some _ => _ | None => _ end); [|done]. by rewrite (proj1 (admit_frame _ _ _ _)).
  - destruct (admits_effect p dst pkt now) as (Eo & _). by rewrite Eo.
Qed.

(** C38: a declared lookup opens its answers, for the whole window.  A
    question the box sends while fewer than [DNS_OUTSTANDING_QUERY_CAP] fresh
    ones are outstanding, answered by its resolver within [DNS_QUERY_EXPIRY],
    whatever the entry meets in between but another reply to that very
    question, and when the name's live addresses and the answers together are
    at most [DNS_MAX_ADDRESSES_PER_NAME], admits every answer the row may
    reach: whatever else happens to the entry during the window (other
    questions and replies, other frames, flows at their cap), each frame to
    the address is admitted until the window closes. *)
Theorem lookup_opens_window p qpkt qdg tq mid pkt dg key answers t ops a frame now :
  is_query qpkt qdg key -> is_reply p pkt dg key answers -> tq <= t -> duration_since t tq < DNS_QUERY_EXPIRY ->
  (size (filter (fun e : QueryKey * Z => (duration_since tq e.2 < DNS_QUERY_EXPIRY)%Z) (bp_outstanding p))
     < DNS_OUTSTANDING_QUERY_CAP)%nat ->
  Forall (fun op => tq <= op_time op <= t /\
    forall pkt' dg' now' answers', op = PReply pkt' dg' now' -> ~ is_reply p pkt' dg' key answers') mid ->
  (size (live_owned (qk_name key) t (bp_admitted (run_state pin_step p (PQuery qpkt qdg tq :: mid)))) + length answers
     <= DNS_MAX_ADDRESSES_PER_NAME)%nat ->
  a ∈ answers -> reachable_address p (qk_name key) a ->
  Forall (fun op => t <= op_time op < t + DNS_ADMISSION_WINDOW) ops ->
  now < t + DNS_ADMISSION_WINDOW ->
  (admits (run_state pin_step p ((PQuery qpkt qdg tq :: mid) ++ PReply pkt dg t :: ops)) a frame now).2 = true.
Proof.
  intros Hq Hr Htt Hexp Hroom Hmid Hcap Ha Hreach Hops Hnow. rewrite run_state_app, (run_state_cons _ _ (PReply pkt dg t)). simpl fst.
  set (p1 := run_state pin_step p (PQuery qpkt qdg tq :: mid)) in *.
  assert (same_decl p p1 /\ exists s, bp_outstanding p1 !! key = Some s /\ tq <= s <= t) as [Hd (s & Hout & Hs)].
  { unfold p1. rewrite run_state_cons. apply run_state_ind.
    - split; [apply record_query_decl|]. exists tq. split; [by apply record_query_records|lia].
    - intros st op Hin [Hd Hk]. destruct (proj1 (list.Forall_forall _ _) Hmid op Hin) as [Ht Hno].
      split; [eapply same_decl_trans; [exact Hd|apply pin_step_decl]|]. apply pin_step_keeps_key; [done|done| |done].
      intros pkt' dg' now' answers' E Hr'. eapply (Hno pkt' dg' now' answers' E). by apply (is_reply_decl p st). }
  assert (Hheld : held_until (bp_admitted (observe_pins p1 pkt dg t)) a (t + DNS_ADMISSION_WINDOW)).
  { apply (is_reply_decl p p1) in Hr; [|exact Hd]. rewrite (observe_reply_pins _ _ _ _ _ _ Hr), Hout. cbv zeta.
    rewrite (proj2 (Z.ltb_lt _ _)) by (unfold duration_since in *; lia). apply admit_covers.
    - simpl bp_admitted. etransitivity; [|exact Hcap]. apply Nat.add_le_mono_l, length_rs_admitted.
    - apply elem_of_rs_admitted. split; [|done]. by apply (reachable_decl p p1) in Hreach. }
  apply admits_held.
  assert (Hrun : held_until (bp_admitted (run_state pin_step (observe_pins p1 pkt dg t) ops)) a
                   (t + DNS_ADMISSION_WINDOW)).
  { apply run_state_ind; [exact Hheld|]. intros st op Hin Hst. apply pin_step_held; [|exact Hst].
    pose proof (proj1 (list.Forall_forall _ _) Hops op Hin) as Ht. cbv beta in Ht. lia. }
  destruct Hrun as (ad & Had & Hle). unfold admits_destination. rewrite Had. apply Z.ltb_lt. lia.
Qed.

(** ** The deny-all gate *)

Lemma strip_labels_spec apex labels rest : strip_labels apex labels = Some rest <-> labels = apex ++ rest.
Proof.
  revert labels. induction apex as [|a apex IH]; intros labels; simpl; [naive_solver|].
  destruct labels as [|l labels]; [done|]. case_bool_decide as E; [subst; rewrite IH; naive_solver|naive_solver].
Qed.

Lemma is_zone_name_spec n :
  is_zone_name n = true <-> exists below, below <> [] /\ name_labels n = below ++ ["min"; "internal"]%string.
Proof.
  unfold is_zone_name. change (rev (str_split _ ZONE_APEX)) with ["internal"; "min"]%string.
  split.
  - destruct (strip_labels _ _) as [[|x rest]|] eqn:E; [done| |done]. intros _.
    apply strip_labels_spec in E. exists (rev (x :: rest)). split.
    + intros Hnil. apply (f_equal (@length _)) in Hnil. rewrite length_rev in Hnil. done.
    + rewrite <- (rev_involutive (name_labels n)), E. change ["min"; "internal"]%string with (rev ["internal"; "min"]%string).
      by rewrite rev_app_distr.
  - intros (below & Hne & E).
    assert (Hs : strip_labels ["internal"; "min"]%string (rev (name_labels n)) = Some (rev below)).
    { apply strip_labels_spec. rewrite E, rev_app_distr. done. }
    rewrite Hs. destruct (rev below) as [|x l] eqn:Hb; [|done].
    apply (f_equal (@rev _)) in Hb. rewrite rev_involutive in Hb. done.
Qed.

(** A datagram the gate leaves alone, and one it refuses outright. *)
Local Ltac not_gate :=
  cbn; split; [done|split; [done|intros (? & ? & (? & ? & ?) & _); congruence]].
Local Ltac gate :=
  split; [by intros r [= <-]|split; [intros _|done]];
  do 3 (split; [done|]); intros (? & ? & ? & ? & ? & ?); congruence.

(** What a deny-all row may ask the switch's resolver. *)
Definition zone_only (datagram : list Z) : Prop :=
  exists m, from_vec datagram = Some m /\ msg_type m = MtQuery /\ msg_op_code m = OcQuery /\ msg_queries m <> [] /\
    forall q, q ∈ msg_queries m ->
      q.2 = RtA /\ exists below, below <> [] /\ name_labels q.1 = below ++ ["min"; "internal"]%string.

(** A deny-all box's DNS carries nothing out.  A datagram is dropped by
    the gate exactly when its source is a deny-all row, it is UDP to the DNS
    port, and it is anything but a standard query each of whose questions is
    an A lookup of a name with a label below the lowercase apex; the refusal
    names that row. *)
Theorem deny_all_refusal_exact table pkt datagram :
  (forall r, deny_all_refusal table pkt datagram = Some r ->
     by_source table (sa_ip (l4_src pkt)) = Some (dar_record r)) /\
  (deny_all_refusal table pkt datagram <> None <->
   l4_proto pkt = IPPROTO_UDP /\ sa_port (l4_dst pkt) = DNS_PORT /\
   (exists record, by_source table (sa_ip (l4_src pkt)) = Some record /\ rec_deny_all record = true) /\
   ~ zone_only datagram).
Proof.
  unfold deny_all_refusal, zone_only. destruct (Z.eqb_spec (l4_proto pkt) IPPROTO_UDP) as [Hu|Hu]; [|by not_gate].
  destruct (Z.eqb_spec (sa_port (l4_dst pkt)) DNS_PORT) as [Hp|Hp]; [|by not_gate]. cbn [negb orb].
  destruct (by_source table _) as [rec|]; [|by not_gate].
  destruct (rec_deny_all rec) eqn:Hda; cbn [negb]; [|by not_gate].
  assert (Hrec : exists record, Some rec = Some record /\ rec_deny_all record = true) by eauto.
  destruct (from_vec datagram) as [m|]; [|by gate].
  destruct (decide (msg_type m = MtQuery)) as [Ht|Ht];
    [rewrite bool_decide_eq_true_2 by done|
     rewrite bool_decide_eq_false_2 by done; by gate].
  destruct (decide (msg_op_code m = OcQuery)) as [Ho|Ho];
    [rewrite bool_decide_eq_true_2 by done|
     rewrite bool_decide_eq_false_2 by done; by gate].
  cbn [negb orb].
  destruct (msg_queries m) as [|q0 qs] eqn:Hq; [by gate|].
  destruct (List.find _ (q0 :: qs)) as [q|] eqn:Hf.
  - split; [by intros r [= <-]|]. split; [|done]. intros _. split; [done|]. split; [done|]. split; [done|].
    intros (m' & [= <-] & _ & _ & _ & Hall). apply List.find_some in Hf as [Hin Hbad].
    rewrite Hq in Hall. apply list_elem_of_In in Hin. destruct (Hall q Hin) as [Ha Hz].
    rewrite bool_decide_eq_true_2 in Hbad by done. by rewrite (proj2 (is_zone_name_spec q.1) Hz) in Hbad.
  - split; [done|]. split; [done|]. intros (_ & _ & _ & Hn). destruct Hn. exists m.
    split; [done|]. split; [done|]. split; [done|]. rewrite Hq. split; [done|]. intros q Hin.
    pose proof (List.find_none _ _ Hf q (proj1 (list_elem_of_In _ _) Hin)) as Hgood. cbv beta in Hgood.
    apply negb_false_iff, andb_true_iff in Hgood as [Ha Hz]. apply bool_decide_eq_true in Ha.
    split; [exact Ha|]. by apply is_zone_name_spec.
Qed.
End pins.

(** ** A history to evaluate *)

Module Sample.

(** A codec for two messages: [[0; id]] asks for the A record of
    [github.com], and [[1; id; a; b; c; d]] answers it through one alias. *)
Record SampleMessage : Type := {
  sm_id : Z;
  sm_type : MessageType;
  sm_queries : list (list string * RecordType);
  sm_answers : list (list string * RData (list string));
}.
Definition asked_name : list string := ["github"; "com"].
Definition alias_name : list string := ["lb"; "github"; "com"].
Definition sample_from_vec (d : list Z) : option SampleMessage :=
  match d with
  | [0; id] => Some {| sm_id := id; sm_type := MtQuery; sm_queries := [(asked_name, RtA)]; sm_answers := [] |}
  | [1; id; a; b; c; e] =>
      Some {| sm_id := id; sm_type := MtResponse; sm_queries := [(asked_name, RtA)];
              sm_answers := [(asked_name, RdCname alias_name); (alias_name, RdA (Ip4 a b c e))] |}
  | _ => None
  end.
#[export] Instance codec : DnsCodec :=
  {| DName := list string; name_text := fun n => String.concat "." n; name_labels := fun n => n;
     Message := SampleMessage; from_vec := sample_from_vec; msg_id := sm_id; msg_type := sm_type;
     msg_op_code := fun _ => OcQuery; msg_queries := sm_queries; msg_answers := sm_answers |}.

Definition record : BoxRecord :=
  {| rec_id := 1; rec_box_id := 1; rec_name := "build"; rec_switch_addr := Ip4 100 64 0 2; rec_loopback_addr := Ip4 127 0 64 2; rec_admitted_ports := []; rec_declared_names := [];
     rec_egress := {| er_allow_protocols := None; er_allow_subnets := None; er_deny_subnets := None;
                      er_resolver := dns_server DEFAULT_SUBNET; er_proxy := None;
                      er_credentialed_upstream := false; er_lease := Ip4 100 64 0 2; er_switch_own := None |};
     rec_resolves_names := true; rec_dns_hosts := ["GitHub.com"]; rec_deny_all := false;
     rec_credentialed_upstream := false; rec_dynamic_ingress := IngressDeny; rec_dynamic_range := None; rec_task_row_of := None; rec_task_addrs := [] |}.
Definition entry0 : BoxPins :=
  {| bp_record := record; bp_names := {["github.com"]};
     bp_infrastructure := deny_set_value (dns_server DEFAULT_SUBNET) (host_alias DEFAULT_SUBNET);
     bp_outstanding := ∅; bp_admitted := ∅; bp_node_plane := None; bp_flows := flow_table_new;
     bp_at_cap_admitted := 0; bp_sweeps := 0; bp_logged_first_pin := false |}.
Definition udp (src : ip4) (sp : Z) (dst : ip4) (dp : Z) : L4Packet :=
  {| l4_src := {| sa_ip := src; sa_port := sp |}; l4_dst := {| sa_ip := dst; sa_port := dp |};
     l4_proto := IPPROTO_UDP; l4_tcp_flags := 0; l4_tcp_seq := 0; l4_tcp_ack := 0; l4_tcp_payload_len := 0 |}.
Definition question : L4Packet := udp (Ip4 100 64 0 2) 4000 (Ip4 100 64 0 1) 53.
Definition answer : L4Packet := udp (Ip4 100 64 0 1) 53 (Ip4 100 64 0 2) 4000.
Definition github : ip4 := Ip4 140 82 112 3.
Definition key : QueryKey := {| qk_txid := 7; qk_src_port := 4000; qk_name := "github.com" |}.
Definition history : list PinOp := [PQuery question [0; 7] 0; PReply answer [1; 7; 140; 82; 112; 3] (from_secs 1)].

Lemma built : box_pins_built record DEFAULT_SUBNET None = Done entry0.
Proof. vm_compute. reflexivity. Qed.

Lemma asked : is_query question [0; 7] key.
Proof. split; [cbn; unfold MAX_DATAGRAM; lia|]. by eexists _, asked_name, RtA, []. Qed.

Lemma answered : is_reply entry0 answer [1; 7; 140; 82; 112; 3] key [github].
Proof.
  do 2 (split; [vm_compute; reflexivity|]). split; [cbn; unfold MAX_DATAGRAM; lia|].
  eexists _, asked_name, RtA, []. split; [reflexivity|]. split; [reflexivity|]. split; [reflexivity|].
  split; [vm_compute; reflexivity|]. split; [|vm_compute; reflexivity].
  apply (bool_decide_unpack _). vm_compute. exact I.
Qed.

Lemma pin_provenance_witness :
  history_admits entry0 history github None (from_secs 2).
Proof. apply (pin_provenance record DEFAULT_SUBNET None); [exact built|vm_compute; reflexivity]. Defined.

Lemma pins_bounded_witness :
  (size (bp_admitted (run_state pin_step entry0 history)) <= DNS_MAX_ADDRESSES_PER_NAME * size (bp_names entry0))%nat.
Proof. apply (pins_bounded record DEFAULT_SUBNET None entry0 history built). Defined.

Lemma replay_pins_nothing_witness :
  let p' := run_state pin_step (observe_pins (record_query entry0 question [0; 7] 0) answer
              [1; 7; 140; 82; 112; 3] (from_secs 1)) [PFrame github None (from_secs 2)] in
  observe_pins p' answer [1; 7; 140; 82; 112; 3] (from_secs 3) = p'.
Proof.
  apply (replay_pins_nothing (record_query entry0 question [0; 7] 0) answer [1; 7; 140; 82; 112; 3] key [github]).
  - apply (is_reply_decl entry0); [apply record_query_decl|exact answered].
  - intros qpkt qdg tq Hin. by apply list_elem_of_singleton in Hin.
Defined.

Lemma lookup_opens_window_witness :
  (admits (run_state pin_step entry0 ((PQuery question [0; 7] 0 :: [PQuery question [0; 9] 0]) ++
     PReply answer [1; 7; 140; 82; 112; 3] (from_secs 1) :: [PQuery question [0; 9] (from_secs 200)])) github
     (Some (udp (Ip4 100 64 0 2) 5000 github 443)) (from_secs 300)).2 = true.
Proof.
  apply (lookup_opens_window entry0 question [0; 7] 0 [PQuery question [0; 9] 0] answer [1; 7; 140; 82; 112; 3] key [github] (from_secs 1)
           [PQuery question [0; 9] (from_secs 200)]);
    [exact asked|exact answered|vm_compute; discriminate|vm_compute; reflexivity|vm_compute; lia| |vm_compute; lia|by left|
     vm_compute; reflexivity| |vm_compute; reflexivity].
  - apply list.Forall_singleton. split; [vm_compute; split; discriminate|]. intros ? ? ? ? [=].
  - apply list.Forall_singleton. vm_compute. by split.
Defined.
End Sample.
