(* ===== verification/DnsTableProps.v ===== *)
(** * The DNS admission table keeps rows apart (crates/minvmd/src/net/dns_pins.rs)

    Histories of the whole table: queries, replies and frames of every box,
    the node plane's and the resident boxes' frames, baseline adoptions and
    retirements, as a step relation.  The entry under an address is always one
    registration's, built from its record and moved only by its events. *)

From stdpp Require Import base list gmap strings numbers.
From Stdlib Require Import ZArith Lia.
From S2P Require Import Prelude Text Egress Rebinding ReplyFlows DropLimiter Switch L4 Baseline DnsPins DnsPinsProps.
Open Scope Z_scope.

Section table_history.
Context `{DnsCodec} (subnet : SwitchSubnet).
Implicit Types (d : DnsPins) (e : BoxPins) (a : ip4).

(** ** Histories *)

Inductive TableOp : Type :=
| TQuery (table : BoxTable) (pkt : L4Packet) (datagram : list Z) (box_cohort_marked : bool) (now : Z)
| TReply (table : BoxTable) (pkt : L4Packet) (datagram : list Z) (limiter : DropLimiter) (clock clock' : nat -> Z)
    (now : Z)
| TFrame (record : BoxRecord) (dst : ip4) (pkt : option L4Packet) (now : Z)
| TNodeFrame (table : BoxTable) (b : NodePlaneBaseline) (dst : ip4) (pkt : option L4Packet) (now : Z)
| THostIpFrame (table : BoxTable) (dst : ip4) (pkt : option L4Packet) (now : Z)
| TAdopt (b : NodePlaneBaseline)
| TRetire (sources : list ip4).

Definition table_step d (op : TableOp) : outcome DnsPins :=
  match op with
  | TQuery table pkt datagram marked now => observe_query d table pkt datagram marked now
  | TReply table pkt datagram limiter clock clock' now =>
      r ← observe_reply d table pkt datagram limiter clock clock' now; Done r.1
  | TFrame record dst pkt now => r ← admits_frame d record dst pkt now; Done r.1
  | TNodeFrame table b dst pkt now => r ← admits_node_frame d table b dst pkt now; Done r.1
  | THostIpFrame table dst pkt now => r ← admits_host_ip_frame d table dst pkt now; Done r.1
  | TAdopt b => Done (adopt_baseline d b)
  | TRetire sources => Done (retire d sources)
  end.

(** The record an operation is processed under, and the event it is for that
    record's entry. *)
Definition op_record (op : TableOp) : option BoxRecord :=
  match op with
  | TQuery table pkt _ _ _ => by_source table (sa_ip (l4_src pkt))
  | TReply table pkt _ _ _ _ _ => by_source table (sa_ip (l4_dst pkt))
  | TFrame record _ _ _ => Some record
  | TNodeFrame table b _ _ _ => by_source table (nb_node_addr b)
  | THostIpFrame _ _ _ _ | TAdopt _ | TRetire _ => None
  end.
Definition op_event (op : TableOp) : list PinOp :=
  match op with
  | TQuery _ pkt dg _ now => [PQuery pkt dg now]
  | TReply _ pkt dg _ _ _ now => [PReply pkt dg now]
  | TFrame _ dst pkt now | TNodeFrame _ _ dst pkt now => [PFrame dst pkt now]
  | THostIpFrame _ _ _ _ | TAdopt _ | TRetire _ => []
  end.
(** The events of one registration: those of the operations that met that very
    record at its address. *)
Definition row_events (record : BoxRecord) (op : TableOp) : list PinOp :=
  match op_record op with
  | Some r => if decide (rec_id r = rec_id record /\ rec_switch_addr r = rec_switch_addr record) then op_event op else []
  | None => []
  end.

Inductive table_reach : list TableOp -> DnsPins -> Prop :=
| table_start : table_reach [] (dns_pins_new subnet)
| table_next ops d op d' :
    table_reach ops d -> table_step d op = Done d' -> table_reach (ops ++ [op]) d'.

(** ** The invariant *)

(** An entry is one registration's: built from one of the records [rs] that
    the history met, at that record's address, whose resolver is the plan's,
    then moved by events of that registration. *)
Definition explained (rs : list BoxRecord) (ops : list TableOp) a e : Prop :=
  bp_record e ∈ rs /\ rec_switch_addr (bp_record e) = a /\
  er_resolver (rec_egress (bp_record e)) = dns_server subnet /\
  exists p0 evs, box_pins_built (bp_record e) subnet (bp_node_plane e) = Done p0 /\
    e = run_state pin_step p0 evs /\ evs `sublist_of` (ops ≫= row_events (bp_record e)).

Definition table_inv (rs : list BoxRecord) (ops : list TableOp) d : Prop :=
  dp_subnet d = subnet /\ forall a e, dp_boxes d !! a = Some e -> explained rs ops a e.
(** The records the operations met. *)
Definition met (ops : list TableOp) : list BoxRecord := omap op_record ops.

Lemma explained_more rs rs' ops op a e : rs ⊆ rs' -> explained rs ops a e -> explained rs' (ops ++ [op]) a e.
Proof.
  intros Hrs (Hin & Ha & Hr & p0 & evs & Hb & He & Hs). split; [by apply Hrs|]. split; [done|]. split; [done|].
  exists p0, evs. split; [done|]. split; [done|]. rewrite bind_app. by apply sublist_inserts_r.
Qed.

Lemma explained_event rs ops op a e ev :
  explained rs ops a e -> row_events (bp_record e) op = [ev] -> explained rs (ops ++ [op]) a (pin_step e ev).1.
Proof.
  intros (Hin & Ha & Hr & p0 & evs & Hb & He & Hs) Hev. destruct (pin_step_decl e ev) as (Hrec & _ & _ & Hnp).
  unfold explained. rewrite Hrec, Hnp. split; [done|]. split; [done|]. split; [done|].
  exists p0, (evs ++ [ev]). split; [done|]. split.
  - rewrite run_state_app, run_state_cons, <- He. reflexivity.
  - rewrite bind_app. apply sublist_app; [done|]. simpl. by rewrite Hev.
Qed.

Lemma table_inv_more rs rs' ops op d : rs ⊆ rs' -> table_inv rs ops d -> table_inv rs' (ops ++ [op]) d.
Proof. intros Hrs [Hs Hb]. split; [done|]. intros a e He. by apply (explained_more rs), Hb. Qed.

Lemma table_inv_insert rs ops op d a e ev :
  table_inv rs ops d -> dp_boxes d !! a = Some e -> row_events (bp_record e) op = [ev] ->
  table_inv rs (ops ++ [op]) (set_boxes d (<[a := (pin_step e ev).1]> (dp_boxes d))).
Proof.
  intros [Hs Hb] He Hev. split; [done|]. intros a' e' Hl. simpl in Hl.
  apply lookup_insert_Some in Hl as [[<- <-]|[_ Hl]]; [by apply explained_event; [apply Hb|]|].
  by apply (explained_more rs), Hb.
Qed.

(** What [entry] finds for a record: an entry of that very record and of the
    grant in force for it. *)
Definition entry_of d (record : BoxRecord) e : Prop :=
  rec_id (bp_record e) = rec_id record /\ rec_switch_addr (bp_record e) = rec_switch_addr record /\
  same_grant (bp_node_plane e) (node_plane_of d record) = true.
Lemma entry_of_events d record e op ev :
  entry_of d record e -> op_record op = Some record -> op_event op = [ev] -> row_events (bp_record e) op = [ev].
Proof. intros (Hid & Ha & _) Hr Hev. unfold row_events. by rewrite Hr, decide_True. Qed.
Lemma same_grant_refl g : same_grant g g = true.
Proof. destruct g as [g|]; [|done]. apply Nat.eqb_refl. Qed.

(** [entry] never panics; it builds the record's entry or finds one of the
    same record. *)
Lemma entry_spec rs ops d record :
  table_inv rs ops d ->
  exists d' eo, entry d record = Done (d', eo) /\ table_inv (rs ++ [record]) ops d' /\
    (forall e, eo = Some e -> dp_boxes d' !! rec_switch_addr record = Some e /\ entry_of d record e).
Proof.
  intros [Hs Hb].
  assert (forall a e, dp_boxes d !! a = Some e -> explained (rs ++ [record]) ops a e) as Hb'.
  { intros a e Hl. destruct (Hb a e Hl) as (Hin & Hrest). split; [set_solver|done]. }
  unfold entry. cbv zeta. destruct (_ && _); [by exists d, None|].
  destruct (decide (er_resolver (rec_egress record) = dns_server (dp_subnet d))) as [Hr|Hr].
  2: { rewrite bool_decide_eq_true_2 by done. exists (refuse_resolver d record), None. split; [done|].
       split; [|done]. unfold refuse_resolver. cbv zeta. by destruct (match _ with Some _ => _ | None => _ end). }
  rewrite bool_decide_eq_false_2 by tauto.
  assert (Hbuilt : exists d' eo,
    (e ← box_pins_built record (dp_subnet d) (node_plane_of d record);
     Done (set_boxes d (<[rec_switch_addr record := e]> (dp_boxes d)), Some e)) = Done (d', eo) /\ table_inv (rs ++ [record]) ops d' /\
    (forall e, eo = Some e -> dp_boxes d' !! rec_switch_addr record = Some e /\ entry_of d record e)).
  { unfold box_pins_built. rewrite deny_set_new_value. simpl. eexists _, _. split; [reflexivity|]. split.
    - split; [done|]. intros a' e' Hl. simpl in Hl. apply lookup_insert_Some in Hl as [[<- <-]|[_ Hl]]; [|auto].
      split; [set_solver|]. split; [done|]. split; [simpl; by rewrite <- Hs|]. eexists _, [].
      split; [|split; [reflexivity|apply sublist_nil_l]]. simpl. unfold box_pins_built. rewrite deny_set_new_value. simpl. by rewrite Hs.
    - intros e' [= <-]. simpl. rewrite lookup_insert_eq. split; [done|]. split; [done|]. split; [done|apply same_grant_refl]. }
  destruct (dp_boxes d !! rec_switch_addr record) as [e|] eqn:He; [|exact Hbuilt].
  destruct (_ && _) eqn:Hsame; [|exact Hbuilt]. apply andb_true_iff in Hsame as [Hptr Hgr].
  apply Nat.eqb_eq in Hptr. exists d, (Some e). split; [done|]. split; [done|]. intros e' [= <-]. split; [done|].
  split; [done|]. split; [|done]. by destruct (Hb _ _ He) as (_ & ? & _).
Qed.

Lemma host_ip_entry_spec rs ops d table :
  table_inv rs ops d -> exists d' eo, host_ip_entry d table = Done (d', eo) /\ table_inv rs ops d'.
Proof.
  intros Hi. unfold host_ip_entry. destruct (bt_host_ip_cohort table) as [record|].
  2: { eexists _, _. split; [reflexivity|exact Hi]. }
  destruct (bool_decide _).
  { eexists _, _. split; [reflexivity|]. unfold refuse_resolver. cbv zeta.
    by destruct (match _ with Some _ => _ | None => _ end). }
  unfold box_pins_built. rewrite deny_set_new_value.
  destruct (dp_host_ip d) as [e|]; [destruct (ptr_eq _ _)|]; eexists _, _; (split; [reflexivity|exact Hi]).
Qed.

Lemma adopt_inv rs ops d b : table_inv rs ops d -> table_inv rs ops (adopt_baseline d b).
Proof. intros Hi. unfold adopt_baseline. by repeat case_match. Qed.

Lemma retire_inv rs ops d sources : table_inv rs ops d -> table_inv rs ops (retire d sources).
Proof.
  unfold retire. revert d. induction sources as [|src sources IH]; intros d Hi; [done|]. simpl.
  apply IH. destruct Hi as [Hs Hb]. split; [done|]. intros a e Hl. simpl in Hl.
  apply lookup_delete_Some in Hl as [_ Hl]. by apply Hb.
Qed.

(** [admits_frame] under the invariant: it answers, and what it writes is the
    frame's event on the record's entry. *)
Lemma admits_frame_spec rs ops op d record dst pkt now :
  table_inv rs ops d -> op_record op = Some record -> op_event op = [PFrame dst pkt now] ->
  exists d' ok, admits_frame d record dst pkt now = Done (d', ok) /\ table_inv (rs ++ [record]) (ops ++ [op]) d' /\
    (ok = true -> exists e, explained (rs ++ [record]) ops (rec_switch_addr record) e /\ entry_of d record e /\
                            (admits e dst pkt now).2 = true).
Proof.
  intros Hi Hrec Hev. destruct (entry_spec rs ops d record Hi) as (d1 & eo & He & Hi1 & Hsome).
  unfold admits_frame. rewrite He. simpl. destruct eo as [e|].
  - destruct (Hsome e eq_refl) as [Hl Hof].
    pose proof (table_inv_insert _ ops op d1 _ e _ Hi1 Hl (entry_of_events _ _ _ _ _ Hof Hrec Hev)) as Hi2. simpl in Hi2.
    destruct (admits e dst pkt now) as [e' ok] eqn:Ha. eexists _, ok. split; [reflexivity|]. split; [exact Hi2|].
    intros ->. exists e. split; [by apply Hi1|]. split; [done|]. by rewrite Ha.
  - eexists _, false. split; [reflexivity|]. split; [|done]. by apply (table_inv_more (rs ++ [record])).
Qed.

Lemma observe_query_spec ops d table pkt dg marked now :
  table_inv (met ops) ops d ->
  exists d', observe_query d table pkt dg marked now = Done d' /\
    table_inv (met (ops ++ [TQuery table pkt dg marked now])) (ops ++ [TQuery table pkt dg marked now]) d'.
Proof.
  set (op := TQuery table pkt dg marked now). intros Hi.
  assert (met ops ⊆ met (ops ++ [op])) as Hmet by (unfold met; rewrite omap_app; set_solver).
  assert (forall d, table_inv (met ops) ops d -> table_inv (met (ops ++ [op])) (ops ++ [op]) d) as Hsn by (intros ?; by apply table_inv_more).
  unfold observe_query. destruct (_ || _); [eauto|]. destruct (_ && _).
  - destruct (host_ip_entry_spec _ ops d table Hi) as (d1 & eo & -> & Hi1). simpl.
    destruct eo as [e|]; eexists; (split; [reflexivity|]); [apply (Hsn d1 Hi1)|by apply Hsn].
  - destruct (by_source table (sa_ip (l4_src pkt))) as [record|] eqn:Hrec; [|eauto].
    assert (met (ops ++ [op]) = met ops ++ [record]) as -> by (unfold met, op; rewrite omap_app; cbn; by rewrite Hrec).
    destruct (entry_spec _ ops d record Hi) as (d1 & eo & -> & Hi1 & Hsome). simpl.
    destruct eo as [e|]; [|eexists; split; [reflexivity|]; by apply (table_inv_more (met ops ++ [record]))].
    destruct (Hsome e eq_refl) as [Hl Hof]. eexists. split; [reflexivity|].
    apply (table_inv_insert _ ops op d1 _ e (PQuery pkt dg now)); [done|done|]. by eapply entry_of_events.
Qed.

Lemma observe_reply_spec ops d table pkt dg limiter clock clock' now :
  table_inv (met ops) ops d ->
  exists d' l', observe_reply d table pkt dg limiter clock clock' now = Done (d', l') /\
    table_inv (met (ops ++ [TReply table pkt dg limiter clock clock' now])) (ops ++ [TReply table pkt dg limiter clock clock' now]) d'.
Proof.
  set (op := TReply table pkt dg limiter clock clock' now). intros Hi.
  assert (met ops ⊆ met (ops ++ [op])) as Hmet by (unfold met; rewrite omap_app; set_solver).
  assert (forall d, table_inv (met ops) ops d -> table_inv (met (ops ++ [op])) (ops ++ [op]) d) as Hsn by (intros ?; by apply table_inv_more).
  unfold observe_reply. destruct (negb _); [eauto|].
  set (first := if bool_decide _ then _ else Done (d, limiter)).
  assert (Hfirst : exists d1 l1, first = Done (d1, l1) /\ table_inv (met ops) ops d1).
  { subst first. destruct (bool_decide _); [|eauto].
    destruct (host_ip_entry_spec _ ops d table Hi) as (d1 & eo & -> & Hi1). simpl. destruct eo as [e|]; [|eauto].
    destruct (observe e pkt dg limiter clock now) as [e' l']. eauto. }
  destruct Hfirst as (d1 & l1 & -> & Hi1). simpl.
  destruct (by_source table (sa_ip (l4_dst pkt))) as [record|] eqn:Hrec; [|eauto].
  assert (met (ops ++ [op]) = met ops ++ [record]) as -> by (unfold met, op; rewrite omap_app; cbn; by rewrite Hrec).
  destruct (entry_spec _ ops d1 record Hi1) as (d2 & eo & -> & Hi2 & Hsome). simpl.
  destruct eo as [e|]; [|eexists _, _; split; [reflexivity|]; by apply (table_inv_more (met ops ++ [record]))].
  destruct (Hsome e eq_refl) as [Hl Hof].
  pose proof (observe_observe_pins e pkt dg l1 clock' now) as Hobs.
  destruct (observe e pkt dg l1 clock' now) as [e' l']. simpl in Hobs. subst e'. eexists _, _. split; [reflexivity|].
  apply (table_inv_insert _ ops op d2 _ e (PReply pkt dg now)); [done|done|]. by eapply entry_of_events.
Qed.

Lemma table_step_inv ops d op :
  table_inv (met ops) ops d -> exists d', table_step d op = Done d' /\ table_inv (met (ops ++ [op])) (ops ++ [op]) d'.
Proof.
  intros Hi.
  assert (forall d, table_inv (met ops) ops d -> table_inv (met (ops ++ [op])) (ops ++ [op]) d) as Hsn.
  { intros ?. apply table_inv_more. unfold met. rewrite omap_app. set_solver. }
  assert (forall r, op_record op = Some r -> met (ops ++ [op]) = met ops ++ [r]) as Hmet.
  { intros r Hr. unfold met. rewrite omap_app. cbn. by rewrite Hr. }
  destruct op as [t pkt dg marked now|t pkt dg l c c' now|record dst pkt now|t b dst pkt now|t dst pkt now|b|srcs]; simpl.
  - by apply observe_query_spec.
  - destruct (observe_reply_spec ops d t pkt dg l c c' now Hi) as (d' & l' & -> & Hi'). simpl. eauto.
  - destruct (admits_frame_spec _ ops (TFrame record dst pkt now) d record dst pkt now Hi) as (d' & ok & -> & Hi' & _); [done|done|].
    simpl. rewrite (Hmet record) by done. eauto.
  - unfold admits_node_frame. cbv zeta. apply (adopt_inv _ _ _ b) in Hi.
    destruct (by_source t (nb_node_addr b)) as [record|] eqn:Hrec.
    + destruct (admits_frame_spec _ ops (TNodeFrame t b dst pkt now) (adopt_baseline d b) record dst pkt now Hi)
        as (d' & ok & -> & Hi' & _); [done|done|]. simpl. rewrite (Hmet record) by done. eauto.
    + simpl. eexists. split; [reflexivity|]. by apply Hsn.
  - destruct (host_ip_entry_spec _ ops d t Hi) as (d1 & eo & He & Hi1). unfold admits_host_ip_frame. rewrite He. simpl.
    apply Hsn in Hi1. destruct eo as [e|]; [|simpl; eauto].
    destruct (admits e dst pkt now) as [e' ok]. simpl. eexists. split; [reflexivity|exact Hi1].
  - eexists. split; [reflexivity|]. by apply Hsn, adopt_inv.
  - eexists. split; [reflexivity|]. by apply Hsn, retire_inv.
Qed.

Lemma table_reach_inv ops d : table_reach ops d -> table_inv (met ops) ops d.
Proof.
  induction 1 as [|ops d op d' _ IH Hstep]; [by split|].
  destruct (table_step_inv ops d op IH) as (d'' & Hstep' & Hi). rewrite Hstep in Hstep'. by injection Hstep' as <-.
Qed.

(** C40: the table keeps its rows apart and never fails.  In every reachable
    table a frame gets a decision, and it is admitted only on the strength of
    the traffic of the very registration that sent it: of the entry its own
    record builds under the grant now in force for it, with a resolver that
    is the plan's, and of events of the history that met that record, by its
    identity, at its address.  An identity names one record in the history,
    as a record behind a shared pointer never changes.  So no other box's
    lookups, and none of another registration at the same address, can open a
    destination. *)
Theorem table_keeps_rows_apart ops d record dst pkt now :
  table_reach ops d -> (forall r, r ∈ met ops -> rec_id r = rec_id record -> r = record) ->
  exists d' ok, admits_frame d record dst pkt now = Done (d', ok) /\
    (ok = true -> exists grant p0 evs,
       same_grant grant (node_plane_of d record) = true /\
       er_resolver (rec_egress record) = dns_server subnet /\
       box_pins_built record subnet grant = Done p0 /\
       evs `sublist_of` (ops ≫= row_events record) /\
       history_admits p0 evs dst pkt now).
Proof.
  intros Hreach Hone. apply table_reach_inv in Hreach as Hi.
  destruct (admits_frame_spec _ ops (TFrame record dst pkt now) d record dst pkt now Hi) as (d' & ok & Hf & _ & Hok); [done|done|].
  exists d', ok. split; [exact Hf|]. intros Ht.
  destruct (Hok Ht) as (e & (Hin & _ & Hres & p0 & evs & Hb & He & Hs) & (Hid & _ & Hgr) & Hadm).
  assert (bp_record e = record) as Hrec by (apply elem_of_app in Hin as [Hin|Hin%list_elem_of_singleton]; [by apply Hone|done]).
  rewrite Hrec in Hb, Hres, Hs. exists (bp_node_plane e), p0, evs. do 4 (split; [assumption|]). rewrite He in Hadm.
  eapply admitted_explained; [|exact Hadm]. by eapply pins_inv.
Qed.
End table_history.

(** ** A history to evaluate *)

Import Sample.

Definition sample_table : BoxTable :=
  {| bt_rows := {[Ip4 100 64 0 2 := record]}; bt_host_ip_boxes := []; bt_host_ip_cohort := None; bt_subnet := DEFAULT_SUBNET; bt_row_epoch := 0 |}.
Definition sample_ops : list TableOp :=
  [TQuery sample_table question [0; 7] false 0;
   TReply sample_table answer [1; 7; 140; 82; 112; 3] limiter_new (fun _ => 0) (fun _ => 0) (from_secs 1)].
Definition sample_run : DnsPins :=
  match foldM table_step (dns_pins_new DEFAULT_SUBNET) sample_ops with
  | Done d => d
  | _ => dns_pins_new DEFAULT_SUBNET
  end.

Lemma sample_reach : table_reach DEFAULT_SUBNET sample_ops sample_run.
Proof.
  change sample_ops with (([] ++ [TQuery sample_table question [0; 7] false 0]) ++
    [TReply sample_table answer [1; 7; 140; 82; 112; 3] limiter_new (fun _ => 0) (fun _ => 0) (from_secs 1)]).
  eapply table_next; [eapply table_next; [apply table_start|vm_compute; reflexivity]|vm_compute; reflexivity].
Qed.

Lemma table_keeps_rows_apart_witness :
  (exists d', admits_frame sample_run record github None (from_secs 2) = Done (d', true)) /\
  exists d' ok, admits_frame sample_run record github None (from_secs 2) = Done (d', ok) /\
    (ok = true -> exists grant p0 evs,
       same_grant grant (node_plane_of sample_run record) = true /\
       er_resolver (rec_egress record) = dns_server DEFAULT_SUBNET /\
       box_pins_built record DEFAULT_SUBNET grant = Done p0 /\
       evs `sublist_of` (sample_ops ≫= row_events record) /\
       history_admits p0 evs github None (from_secs 2)).
Proof.
  split; [eexists; vm_compute; reflexivity|].
  apply (table_keeps_rows_apart DEFAULT_SUBNET sample_ops sample_run record github None (from_secs 2)).
  - exact sample_reach.
  - intros r Hr _. change (met sample_ops) with [record; record] in Hr. apply elem_of_cons in Hr as [Hr|Hr]; [exact Hr|].
    apply list_elem_of_singleton in Hr. exact Hr.
Defined.
