(* ===== verification/HostExposures.v ===== *)
(** * Host exposures (crates/minvmd/src/net/host_exposures.rs)

    The table of host ports the user opens to boxes, held against the
    program's own listeners at each flow.  The file and its reader are
    outside the model: what the reader answers at each check is a list. *)

From stdpp Require Import base list strings numbers.
From Stdlib Require Import ZArith Lia.
From S2P Require Import Prelude Text Egress.
Open Scope Z_scope.

Record HostExposure : Type := { hx_protocol : Z; hx_port : Z }.
#[global] Instance HostExposure_eq_dec : EqDecision HostExposure.
Proof. solve_decision. Defined.

(** [HostExposure::admits]. *)
Definition exposure_admits (e : HostExposure) (protocol port : Z) : bool :=
  (hx_protocol e =? protocol) && (hx_port e =? port).

Record Entry : Type := { he_name : string; he_exposure : HostExposure }.
#[global] Instance Entry_eq_dec : EqDecision Entry.
Proof. solve_decision. Defined.

Record Holder : Type := { ho_ports : Z * Z; ho_protocol : option Z; ho_name : string }.
#[global] Instance Holder_eq_dec : EqDecision Holder.
Proof. solve_decision. Defined.

(** [Holder::holds_port] and [Holder::holds]. *)
Definition holds_port (h : Holder) (protocol port : Z) : bool :=
  (fst (ho_ports h) <=? port) && (port <=? snd (ho_ports h))
  && match ho_protocol h with None => true | Some held => held =? protocol end.
Definition holds (h : Holder) (e : HostExposure) : bool := holds_port h (hx_protocol e) (hx_port e).

Definition HOSTNAME_PROXY : string := "the hostname proxy".
Definition ANSWERER : string := "the box-name answerer".
Definition BOX_EGRESS_PROXY : string := "the Box Egress Proxy".
Definition BASELINE_ENDPOINT : string := "a node-plane baseline endpoint at host.min.internal".
Definition DEFAULT_ANSWERER_PORT : Z := 7656.

(** [minimal_listeners]. *)
Definition minimal_listeners (hostname_proxy : list Z) (baseline_alias_ports : list (Z * Z))
    (baseline_protocol : Z) : list Holder :=
  map (fun port => {| ho_ports := (port, port); ho_protocol := None; ho_name := HOSTNAME_PROXY |}) hostname_proxy
  ++ [{| ho_ports := (DEFAULT_ANSWERER_PORT, DEFAULT_ANSWERER_PORT); ho_protocol := None; ho_name := ANSWERER |}]
  ++ [{| ho_ports := (PROXY_LISTENER_PORT, PROXY_LISTENER_PORT); ho_protocol := None; ho_name := BOX_EGRESS_PROXY |}]
  ++ map (fun ports => {| ho_ports := ports; ho_protocol := Some baseline_protocol; ho_name := BASELINE_ENDPOINT |})
       baseline_alias_ports.

(** [State] behind a [HostExposures] handle; [hs_reads] is what the shared
    reader answers at the next checks, and nothing once it is spent. *)
Record HostExposures : Type := {
  hs_entries : list Entry;
  hs_held : list Holder;
  hs_open : list HostExposure;
  hs_reported : list (string * HostExposure * string);
  hs_reads : list (option (list Entry));
}.

(** [HostExposures::reload]. *)
Definition reload (x : HostExposures) : HostExposures * option (list Entry) :=
  match hs_reads x with
  | [] => (x, None)
  | r :: rest =>
      ({| hs_entries := hs_entries x; hs_held := hs_held x; hs_open := hs_open x;
          hs_reported := hs_reported x; hs_reads := rest |}, r)
  end.

(** The loop of [HostExposures::current]: what is open, and what is said to
    be held. *)
Fixpoint sort_entries (held : list Holder) (entries : list Entry)
    : list HostExposure * list (string * HostExposure * string) :=
  match entries with
  | [] => ([], [])
  | e :: entries =>
      let '(open_, reported) := sort_entries held entries in
      match List.find (fun h => holds h (he_exposure e)) held with
      | None => (he_exposure e :: open_, reported)
      | Some h => (open_, (he_name e, he_exposure e, ho_name h) :: reported)
      end
  end.

(** [HostExposures::current]. *)
Definition current (x : HostExposures) (held : list Holder) : HostExposures * list HostExposure :=
  let '(x, loaded) := reload x in
  match loaded with
  | None =>
      if bool_decide (hs_held x = held) then (x, hs_open x)
      else
        let '(open_, reported) := sort_entries held (hs_entries x) in
        ({| hs_entries := hs_entries x; hs_held := held; hs_open := open_;
            hs_reported := reported; hs_reads := hs_reads x |}, open_)
  | Some entries =>
      let '(open_, reported) := sort_entries held entries in
      ({| hs_entries := entries; hs_held := held; hs_open := open_;
          hs_reported := reported; hs_reads := hs_reads x |}, open_)
  end.

(** [HostExposures::new]: no listener is held yet. *)
Definition exposures_new (entries : list Entry) (reads : list (option (list Entry))) : HostExposures :=
  {| hs_entries := entries; hs_held := []; hs_open := map he_exposure entries; hs_reported := []; hs_reads := reads |}.
