(* ===== verification/ReplyTables.v ===== *)
(** * The gate's reply tables (crates/minvmd/src/net/egress_gate.rs)

    One entry per box the ingress leg has delivered to: the shared reply-flow
    table, and the connects a box may refuse.  An entry belongs to one
    registration of its address and goes with it.  The second part
    holds the theorems. *)

From stdpp Require Import base list gmap strings numbers pretty.
From Stdlib Require Import ZArith Lia.
From S2P Require Import Prelude Text Egress ReplyFlows DropLimiter Switch L4 Refusal DnsPins.
Open Scope Z_scope.

Definition REFUSAL_WINDOW : Z := from_secs 5.
Definition REFUSAL_NOTES_PER_SOURCE : nat := REPLY_MAX_FLOWS_PER_BOX / 8.
Definition INBOUND_FLOW_CAP_RULE : string := "egress-inbound-flow-cap".

(** [RefusalNotes]: the acknowledgement the refusal carries, the end of its
    window and the client. *)
Notation RefusalNotes := (gmap FlowTuple (Z * Z * ip4)).

Record BoxReplies : Type := {
  br_record : BoxRecord;
  br_flows : ReplyFlows;
  br_refusals : RefusalNotes;
  br_first_record : bool;
  br_table_filled : bool;
}.

(** [BoxReplies::new]. *)
Definition box_replies_new (record : BoxRecord) : BoxReplies :=
  {| br_record := record; br_flows := reply_flows_new; br_refusals := ∅; br_first_record := false; br_table_filled := false |}.

(** Assignment to one field of an entry. *)
Definition set_br_flows (e : BoxReplies) (f : ReplyFlows) : BoxReplies :=
  {| br_record := br_record e; br_flows := f; br_refusals := br_refusals e;
     br_first_record := br_first_record e; br_table_filled := br_table_filled e |}.
Definition set_br_refusals (e : BoxReplies) (r : RefusalNotes) : BoxReplies :=
  {| br_record := br_record e; br_flows := br_flows e; br_refusals := r;
     br_first_record := br_first_record e; br_table_filled := br_table_filled e |}.

(** [claim_first_record] and [claim_table_filled]: whether this call is the
    first. *)
Definition claim_first_record (e : BoxReplies) : BoxReplies * bool :=
  ({| br_record := br_record e; br_flows := br_flows e; br_refusals := br_refusals e;
      br_first_record := true; br_table_filled := br_table_filled e |}, negb (br_first_record e)).
Definition claim_table_filled (e : BoxReplies) : BoxReplies * bool :=
  ({| br_record := br_record e; br_flows := br_flows e; br_refusals := br_refusals e;
      br_first_record := br_first_record e; br_table_filled := true |}, negb (br_table_filled e)).

(** [ReplyTables]: the entries by switch address. *)
Notation ReplyTables := (gmap ip4 BoxReplies).
Definition reply_tables_new : ReplyTables := ∅.

(** [reply_tuple_of]. *)
Definition reply_tuple_of (pkt : L4Packet) : FlowTuple :=
  {| ft_proto := l4_proto pkt; ft_src := sa_ip (l4_src pkt); ft_src_port := sa_port (l4_src pkt);
     ft_dst := sa_ip (l4_dst pkt); ft_dst_port := sa_port (l4_dst pkt) |}.

(** [ReplyTables::entry]: the entry the address holds, built or rebuilt for
    [record]. *)
Definition replies_entry (t : ReplyTables) (record : BoxRecord) : BoxReplies :=
  match t !! rec_switch_addr record with
  | Some e => if ptr_eq (br_record e) record then e else box_replies_new record
  | None => box_replies_new record
  end.

(** [DropLimiter::warn_inbound_flow_refused]. *)
Definition warn_inbound_flow_refused (l : DropLimiter) (src client : ip4) (now : Z) : DropLimiter * WarnDecision :=
  should_warn_refusal_at l src (show_ip4 client) INBOUND_FLOW_CAP_RULE now.

(** [ReplyTables::observe_delivered].  The count of ended records that the
    debug line carries is an unsigned subtraction; [warn_now] is the
    limiter's own reading of the clock. *)
Definition observe_delivered (t : ReplyTables) (record : BoxRecord) (pkt : L4Packet) (limiter : DropLimiter)
    (subnet : SwitchSubnet) (now warn_now : Z) : outcome (ReplyTables * DropLimiter * option InboundFlow) :=
  if bool_decide (sa_ip (l4_src pkt) = box_egress_proxy_address subnet) then Done (t, limiter, None)
  else
    let entry := replies_entry t record in
    let before := size (rf_flows (br_flows entry)) in
    let '(flows, outcome_) := observe_inbound (br_flows entry) (reply_tuple_of pkt) (l4_tcp_flags pkt) now in
    let recorded := match outcome_ with Recorded _ => 1%nat | _ => 0%nat end in
    ended ← usize_sub (before + recorded) (size (rf_flows flows));
    let entry := set_br_flows entry flows in
    let '(entry, limiter) :=
      match outcome_ with
      | Recorded filled =>
          let '(entry, _) := claim_first_record entry in
          (if filled then (claim_table_filled entry).1 else entry, limiter)
      | RefusedAtCap =>
          (entry, (warn_inbound_flow_refused limiter (rec_switch_addr record) (sa_ip (l4_src pkt)) warn_now).1)
      | Refreshed | Ended | Untracked => (entry, limiter)
      end in
    Done (<[rec_switch_addr record := entry]> t, limiter, Some outcome_).

(** [ReplyTables::reply_admits]. *)
Definition box_reply_admits (t : ReplyTables) (record : BoxRecord) (pkt : L4Packet) (now : Z)
    : outcome (ReplyTables * bool) :=
  match t !! rec_switch_addr record with
  | None => Done (t, false)
  | Some entry =>
      if negb (ptr_eq (br_record entry) record) then Done (t, false)
      else
        let before := size (rf_flows (br_flows entry)) in
        let '(flows, admits) := reply_admits (br_flows entry) (reply_tuple_of pkt) (l4_tcp_flags pkt) now in
        ended ← usize_sub before (size (rf_flows flows));
        Done (<[rec_switch_addr record := set_br_flows entry flows]> t, admits)
  end.

(** The closure [full] of [observe_refusable]. *)
Definition notes_full (refusals : RefusalNotes) (client : ip4) : bool :=
  (REPLY_MAX_FLOWS_PER_BOX <=? size refusals)%nat
  || (REFUSAL_NOTES_PER_SOURCE <=? size (filter (fun p => snd p.2 = client) refusals))%nat.

(** [ReplyTables::observe_refusable]. *)
Definition observe_refusable (t : ReplyTables) (record : BoxRecord) (pkt : L4Packet) (subnet : SwitchSubnet) (now : Z)
    : ReplyTables :=
  if negb (l4_proto pkt =? IPPROTO_TCP)
     || negb (Z.land (l4_tcp_flags pkt) (Z.lor (Z.lor TCP_SYN TCP_ACK) TCP_RST) =? TCP_SYN)
     || bool_decide (sa_ip (l4_src pkt) = box_egress_proxy_address subnet) then t
  else
    let entry := replies_entry t record in
    let put (r : RefusalNotes) : ReplyTables := <[rec_switch_addr record := set_br_refusals entry r]> t in
    let refusals := br_refusals entry in
    let tuple := reply_tuple_of pkt in
    let client := sa_ip (l4_src pkt) in
    let ack := seq_acknowledging (l4_tcp_seq pkt) (l4_tcp_payload_len pkt) (l4_tcp_flags pkt) in
    let noted (r : RefusalNotes) : RefusalNotes := <[tuple := (ack, now + REFUSAL_WINDOW, client)]> r in
    if bool_decide (refusals !! tuple = None) && notes_full refusals client then
      let refusals : RefusalNotes := filter (fun p => now < snd (fst p.2)) refusals in
      if notes_full refusals client then put refusals else put (noted refusals)
    else put (noted refusals).

(** [ReplyTables::refusal_admits]. *)
Definition refusal_admits (t : ReplyTables) (record : BoxRecord) (pkt : L4Packet) (now : Z) : ReplyTables * bool :=
  if negb (l4_proto pkt =? IPPROTO_TCP) || negb (l4_tcp_flags pkt =? Z.lor TCP_RST TCP_ACK)
     || negb (l4_tcp_seq pkt =? 0) || negb (l4_tcp_payload_len pkt =? 0) then (t, false)
  else
    match t !! rec_switch_addr record with
    | None => (t, false)
    | Some entry =>
        if negb (ptr_eq (br_record entry) record) then (t, false)
        else
          let connect := reversed (reply_tuple_of pkt) in
          let without := <[rec_switch_addr record := set_br_refusals entry (delete connect (br_refusals entry))]> t in
          match br_refusals entry !! connect with
          | Some (ack, until, _) =>
              if until <=? now then (without, false)
              else if ack =? l4_tcp_ack pkt then (without, true)
              else (t, false)
          | None => (t, false)
          end
    end.

(** [ReplyTables::retire] and [ReplyTables::end_port_at]. *)
Definition replies_retire (t : ReplyTables) (sources : list ip4) : ReplyTables :=
  foldl (fun t src => delete src t) t sources.
Definition end_port_at (t : ReplyTables) (src : ip4) (proto port : Z) : outcome ReplyTables :=
  match t !! src with
  | None => Done t
  | Some entry =>
      let flows := end_port (br_flows entry) proto port in
      ended ← usize_sub (size (rf_flows (br_flows entry))) (size (rf_flows flows));
      Done (<[src := set_br_flows entry flows]> t)
  end.

(** [ReplyTables::live_flows] and [ReplyTables::refused_at_cap_of]. *)
Definition live_flows (t : ReplyTables) : nat :=
  sum_list (map (fun p => size (rf_flows (br_flows p.2))) (map_to_list t)).
Definition refused_at_cap_of (t : ReplyTables) (src : ip4) : option Z :=
  option_map (fun e => rf_refused_at_cap (br_flows e)) (t !! src).

(** * Properties of the gate's reply tables

    The tables refine a log: for every address, the registration that owns
    its entry and what happened to it since.  A box is let out as an answer
    exactly under a live conversation of its own log, and one delivered
    connect buys at most one reset. *)

(** ** Histories *)

Inductive RepliesOp : Type :=
| RDeliver (record : BoxRecord) (pkt : L4Packet) (limiter : DropLimiter) (subnet : SwitchSubnet) (now warn_now : Z)
| RNote (record : BoxRecord) (pkt : L4Packet) (subnet : SwitchSubnet) (now : Z)
| RReply (record : BoxRecord) (pkt : L4Packet) (now : Z)
| RRefusal (record : BoxRecord) (pkt : L4Packet) (now : Z)
| RRetire (sources : list ip4)
| REndPort (src : ip4) (proto port : Z).

Definition replies_step (t : ReplyTables) (op : RepliesOp) : outcome ReplyTables :=
  match op with
  | RDeliver record pkt limiter subnet now warn_now =>
      r ← observe_delivered t record pkt limiter subnet now warn_now; Done r.1.1
  | RNote record pkt subnet now => Done (observe_refusable t record pkt subnet now)
  | RReply record pkt now => r ← box_reply_admits t record pkt now; Done r.1
  | RRefusal record pkt now => Done (refusal_admits t record pkt now).1
  | RRetire sources => Done (replies_retire t sources)
  | REndPort src proto port => end_port_at t src proto port
  end.

(** ** The log *)

Notation Log := (gmap ip4 (BoxRecord * list FlowOp)).

(** The row's log so far, and the registration it is kept under. *)
Definition log_row (lg : Log) (record : BoxRecord) : BoxRecord * list FlowOp :=
  match lg !! rec_switch_addr record with
  | Some (r, evs) => if ptr_eq r record then (r, evs) else (record, [])
  | None => (record, [])
  end.
Definition log_add (lg : Log) (record : BoxRecord) (evs : list FlowOp) : Log :=
  <[rec_switch_addr record := ((log_row lg record).1, (log_row lg record).2 ++ evs)]> lg.

(** A connect the table would note. *)
Definition notable (pkt : L4Packet) (subnet : SwitchSubnet) : bool :=
  (l4_proto pkt =? IPPROTO_TCP)
  && (Z.land (l4_tcp_flags pkt) (Z.lor (Z.lor TCP_SYN TCP_ACK) TCP_RST) =? TCP_SYN)
  && negb (bool_decide (sa_ip (l4_src pkt) = box_egress_proxy_address subnet)).

Definition log_step (lg : Log) (op : RepliesOp) : Log :=
  match op with
  | RDeliver record pkt _ subnet now _ =>
      if bool_decide (sa_ip (l4_src pkt) = box_egress_proxy_address subnet) then lg
      else log_add lg record [OpInbound (reply_tuple_of pkt) (l4_tcp_flags pkt) now]
  | RNote record pkt subnet _ => if notable pkt subnet then log_add lg record [] else lg
  | RReply record pkt now =>
      match lg !! rec_switch_addr record with
      | Some (r, evs) =>
          if ptr_eq r record
          then <[rec_switch_addr record := (r, evs ++ [OpReply (reply_tuple_of pkt) (l4_tcp_flags pkt) now])]> lg else lg
      | None => lg
      end
  | RRefusal _ _ _ => lg
  | RRetire sources => foldl (fun lg src => delete src lg) lg sources
  | REndPort src proto port =>
      match lg !! src with Some (r, evs) => <[src := (r, evs ++ [OpEndPort proto port])]> lg | None => lg end
  end.

(** What the table holds of a log entry. *)
Definition logged (e : BoxReplies) : BoxRecord * ReplyFlows := (br_record e, br_flows e).
Definition replayed (p : BoxRecord * list FlowOp) : BoxRecord * ReplyFlows := (p.1, run_state flow_step reply_flows_new p.2).
Definition refines (t : ReplyTables) (lg : Log) : Prop := logged <$> t = replayed <$> lg.

(** ** One operation *)

Lemma usize_sub_le a b : (b <= a)%nat -> usize_sub a b = Done (a - b)%nat.
Proof. intros H. unfold usize_sub. by apply Nat.leb_le in H as ->. Qed.

Lemma observe_inbound_grows s t fl now :
  (size (rf_flows (observe_inbound s t fl now).1) <=
   size (rf_flows s) + match (observe_inbound s t fl now).2 with Recorded _ => 1 | _ => 0 end)%nat.
Proof.
  assert (Ho : forall s, (size (rf_flows (open_flow s t fl now).1) <=
     size (rf_flows s) + match (open_flow s t fl now).2 with Recorded _ => 1 | _ => 0 end)%nat).
  { intros s0. unfold open_flow. destruct (negb _); [simpl; lia|]. pose proof (sweep_size s0 now) as Hs.
    destruct (_ <=? _)%nat; [destruct (sweep s0 now) as [s1 []]|]; simpl in *; try lia;
      rewrite map_size_insert; case_match; simpl in *; lia. }
  unfold observe_inbound. destruct (rf_flows s !! t) as [r|] eqn:Hr; [|apply Ho].
  pose proof (delete_size_le (rf_flows s) t) as Hd.
  destruct (_ <=? now); [specialize (Ho (set_flows s (delete t (rf_flows s)))); simpl in Ho; lia|].
  destruct (_ && _); simpl; [lia|]. rewrite (insert_live_size _ _ r) by done. lia.
Qed.

Lemma reply_admits_shrinks s t fl now : (size (rf_flows (reply_admits s t fl now).1) <= size (rf_flows s))%nat.
Proof.
  unfold reply_admits. pose proof (delete_size_le (rf_flows s) (reversed t)).
  destruct (rf_flows s !! reversed t) as [r|] eqn:Hr; [|done].
  code_cases; simpl; try lia; by rewrite (insert_live_size _ _ r).
Qed.

Lemma refines_lookup t lg a :
  refines t lg -> match t !! a, lg !! a with
                  | Some e, Some p => br_record e = p.1 /\ br_flows e = run_state flow_step reply_flows_new p.2
                  | None, None => True
                  | _, _ => False
                  end.
Proof.
  intros H. pose proof (f_equal (fun m => m !! a) H) as Ha. cbn in Ha. rewrite !lookup_fmap in Ha.
  destruct (t !! a) as [e|], (lg !! a) as [p|]; try done. unfold logged, replayed in Ha. cbn in Ha. by simplify_eq.
Qed.

Lemma refines_insert t lg a e p :
  refines t lg -> logged e = replayed p -> refines (<[a := e]> t) (<[a := p]> lg).
Proof. intros H He. unfold refines. by rewrite !fmap_insert, He, H. Qed.

Lemma refines_delete t lg a : refines t lg -> refines (delete a t) (delete a lg).
Proof. intros H. unfold refines. by rewrite !fmap_delete, H. Qed.

Lemma refines_keep t lg a e p :
  refines t lg -> lg !! a = Some p -> logged e = replayed p -> refines (<[a := e]> t) lg.
Proof. intros H Hp He. rewrite <- (insert_id lg a p) by done. by apply refines_insert. Qed.

(** The entry an operation on [record] finds. *)
Lemma refines_row t lg record :
  refines t lg -> logged (replies_entry t record) = replayed (log_row lg record).
Proof.
  intros H. pose proof (refines_lookup t lg (rec_switch_addr record) H) as Hl.
  unfold replies_entry, log_row. destruct (t !! rec_switch_addr record) as [e|], (lg !! rec_switch_addr record) as [[r evs]|];
    cbn in Hl; try done. destruct Hl as [Hr Hf]. rewrite Hr.
  destruct (ptr_eq r record); [|done]. unfold logged, replayed. cbn. by rewrite Hr, Hf.
Qed.

Lemma replies_step_refines t lg op :
  refines t lg -> exists t', replies_step t op = Done t' /\ refines t' (log_step lg op).
Proof.
  intros H. destruct op as [record pkt limiter subnet now warn_now|record pkt subnet now|record pkt now|record pkt now|sources|src proto port]; cbn [replies_step log_step].
  - pose proof (refines_row t lg record H) as Hrow. unfold observe_delivered.
    case_bool_decide as Hp; [rewrite bind_Done; by eexists|].
    set (e := replies_entry t record) in *.
    pose proof (observe_inbound_grows (br_flows e) (reply_tuple_of pkt) (l4_tcp_flags pkt) now) as Hg.
    assert (Hs : forall e', br_record e' = br_record e ->
               br_flows e' = (observe_inbound (br_flows e) (reply_tuple_of pkt) (l4_tcp_flags pkt) now).1 ->
               refines (<[rec_switch_addr record := e']> t)
                 (log_add lg record [OpInbound (reply_tuple_of pkt) (l4_tcp_flags pkt) now])).
    { intros e' Hr Hf. apply refines_insert; [done|]. unfold logged, replayed in *. injection Hrow as Hr0 Hf0.
      cbn [fst snd]. rewrite Hr, Hf, Hr0, Hf0, run_state_app, run_state_cons. cbn [flow_step].
      destruct (observe_inbound (run_state _ _ _) _ _ _). reflexivity. }
    destruct (observe_inbound (br_flows e) _ _ now) as [flows flow] eqn:Eo. cbn [fst snd] in *.
    rewrite usize_sub_le by done. rewrite bind_Done.
    destruct flow as [filled| | | |]; [destruct filled| | | |]; eexists;
      (split; [reflexivity|by apply Hs]).
  - eexists. split; [done|]. unfold observe_refusable, notable.
    rewrite <- (negb_involutive (_ && _ && _)), !negb_andb, !negb_involutive.
    destruct (_ || _ || _); cbn [negb]; [done|]. pose proof (refines_row t lg record H) as Hrow.
    assert (Hs : forall r, refines (<[rec_switch_addr record := set_br_refusals (replies_entry t record) r]> t) (log_add lg record [])).
    { intros r. apply refines_insert; [done|]. unfold logged, replayed in *. injection Hrow as Hr0 Hf0.
      cbn [fst snd]. rewrite app_nil_r. cbn. by rewrite Hr0, Hf0. }
    destruct (_ && notes_full _ _); [destruct (notes_full _ _)|]; apply Hs.
  - pose proof (refines_lookup t lg (rec_switch_addr record) H) as Hl. unfold box_reply_admits.
    destruct (t !! rec_switch_addr record) as [e|], (lg !! rec_switch_addr record) as [[r evs]|]; try done;
      [|rewrite bind_Done; by eexists].
    cbn [fst snd] in Hl. destruct Hl as [Hr Hf]. rewrite Hr.
    destruct (ptr_eq r record); cbn [negb]; [|rewrite bind_Done; by eexists].
    pose proof (reply_admits_shrinks (br_flows e) (reply_tuple_of pkt) (l4_tcp_flags pkt) now) as Hg.
    destruct (reply_admits (br_flows e) _ _ now) as [flows ok] eqn:Eo. cbn [fst] in Hg.
    rewrite usize_sub_le, !bind_Done by done. eexists. split; [reflexivity|]. apply refines_insert; [done|].
    unfold logged, replayed. cbn [fst snd br_record br_flows set_br_flows]. rewrite Hr, run_state_app, run_state_cons, <- Hf.
    cbn [flow_step]. by rewrite Eo.
  - eexists. split; [done|]. unfold refusal_admits. destruct (_ || _); [done|].
    pose proof (refines_lookup t lg (rec_switch_addr record) H) as Hl.
    destruct (t !! rec_switch_addr record) as [e|], (lg !! rec_switch_addr record) as [p|] eqn:Hp; try done.
    destruct (negb _); [done|]. destruct (br_refusals e !! _) as [[[ack until] c]|]; [|done].
    assert (Hk : forall r, refines (<[rec_switch_addr record := set_br_refusals e r]> t) lg).
    { intros r. apply (refines_keep _ _ _ _ p); [done..|]. unfold logged, replayed. cbn. by destruct Hl as [-> ->]. }
    destruct (until <=? now); [apply Hk|]. destruct (_ =? _); [apply Hk|done].
  - eexists. split; [done|]. unfold replies_retire. revert t lg H. induction sources as [|a sources IH]; intros t lg H; [done|].
    cbn. by apply IH, refines_delete.
  - pose proof (refines_lookup t lg src H) as Hl. unfold end_port_at.
    destruct (t !! src) as [e|], (lg !! src) as [[r evs]|]; try done; [|by eexists].
    cbn [fst snd] in Hl. destruct Hl as [Hr Hf].
    rewrite usize_sub_le by (apply map_subseteq_size, map_filter_subseteq). rewrite bind_Done.
    eexists. split; [reflexivity|]. apply refines_insert; [done|].
    unfold logged, replayed. cbn [fst snd br_record br_flows set_br_flows]. by rewrite Hr, run_state_app, run_state_cons, <- Hf.
Qed.

Definition log_of (ops : list RepliesOp) : Log := fold_left log_step ops ∅.

Lemma replies_run_refines ops :
  exists t, foldM replies_step reply_tables_new ops = Done t /\ refines t (log_of ops).
Proof.
  induction ops as [|op ops IH] using rev_ind; [by exists ∅|].
  destruct IH as (t & Ht & Hr). destruct (replies_step_refines t _ op Hr) as (t' & Hs & Hr').
  exists t'. unfold log_of. rewrite foldM_app, Ht, bind_Done, fold_left_app. cbn. by rewrite Hs, bind_Done.
Qed.

(** ** Answers *)

(** C13: whatever the gate did before, a frame of the box is let out as an answer
    exactly when the log of its own registration holds a live conversation
    that the frame answers: one a client opened toward the box since the
    entry was built, not from the proxy, never closed or withdrawn.  The
    lookup never panics, and a registration without a log answers nothing. *)
Theorem answers_earned ops record pkt now :
  exists t t' ok,
    foldM replies_step reply_tables_new ops = Done t /\ box_reply_admits t record pkt now = Done (t', ok) /\
    match log_of ops !! rec_switch_addr record with
    | Some (r, evs) =>
        if ptr_eq r record then
          let answered := exists c, conversation (reversed (reply_tuple_of pkt)) evs c /\ now < rr_deadline c in
          (ok = true -> answered) /\ (monotone_from 0 evs -> last_time 0 evs <= now -> answered -> ok = true)
        else ok = false
    | None => ok = false
    end.
Proof.
  destruct (replies_run_refines ops) as (t & Ht & Hr).
  pose proof (refines_lookup t _ (rec_switch_addr record) Hr) as Hl. exists t. rewrite Ht. unfold box_reply_admits.
  destruct (t !! rec_switch_addr record) as [e|], (log_of ops !! rec_switch_addr record) as [[r evs]|]; try done; [|by eexists _, _].
  cbn [fst snd] in Hl. destruct Hl as [-> Hf]. destruct (ptr_eq r record); cbn [negb]; [|by eexists _, _].
  pose proof (reply_admits_shrinks (br_flows e) (reply_tuple_of pkt) (l4_tcp_flags pkt) now) as Hg.
  pose proof (fun Hm Hl => proj2 (reply_admits_iff evs (reply_tuple_of pkt) (l4_tcp_flags pkt) now Hm Hl)) as Hif.
  pose proof (reply_admits_self (run_state flow_step reply_flows_new evs) (reversed (reply_tuple_of pkt)) (l4_tcp_flags pkt) now
                (run_config evs)) as Hself.
  rewrite reversed_involutive, <- Hf in Hself. rewrite <- Hf in Hif.
  destruct (reply_admits (br_flows e) _ _ now) as [flows ok] eqn:Eo. cbn [fst snd] in *.
  rewrite usize_sub_le, bind_Done by done. eexists _, _. split; [done|]. split; [reflexivity|].
  cbv zeta. split; [|done]. intros ->.
  destruct (rf_flows (br_flows e) !! reversed (reply_tuple_of pkt)) as [c|] eqn:Hc; [|by simplify_eq].
  destruct Hself as [Hd _]. symmetry in Hd. exists c. split; [|bool_to_prop; lia].
  apply record_has_conversation. by rewrite <- Hf.
Qed.

(** ** Resets *)

(** The notes of a registration at an address. *)
Definition notes_at (t : ReplyTables) (a : ip4) (rid : nat) : RefusalNotes :=
  match t !! a with
  | Some e => if Nat.eqb (rec_id (br_record e)) rid then br_refusals e else ∅
  | None => ∅
  end.
Definition pending (t : ReplyTables) (a : ip4) (rid : nat) (k : FlowTuple) : nat :=
  match notes_at t a rid !! k with Some _ => 1 | None => 0 end.

(** The connects noted for a tuple, and the resets admitted for it. *)
Definition is_connect (a : ip4) (rid : nat) (k : FlowTuple) (op : RepliesOp) : bool :=
  match op with
  | RNote record pkt subnet _ =>
      bool_decide (rec_switch_addr record = a) && Nat.eqb (rec_id record) rid
      && bool_decide (reply_tuple_of pkt = k) && notable pkt subnet
  | _ => false
  end.
Definition is_reset (a : ip4) (rid : nat) (k : FlowTuple) (t : ReplyTables) (op : RepliesOp) : bool :=
  match op with
  | RRefusal record pkt now =>
      bool_decide (rec_switch_addr record = a) && Nat.eqb (rec_id record) rid
      && bool_decide (reversed (reply_tuple_of pkt) = k) && (refusal_admits t record pkt now).2
  | _ => false
  end.
Definition connects (a : ip4) (rid : nat) (k : FlowTuple) (ops : list RepliesOp) : nat :=
  length (List.filter (is_connect a rid k) ops).
Fixpoint resets (a : ip4) (rid : nat) (k : FlowTuple) (t : ReplyTables) (ops : list RepliesOp) : nat :=
  match ops with
  | [] => 0
  | op :: ops =>
      (if is_reset a rid k t op then 1 else 0) +
      match replies_step t op with Done t => resets a rid k t ops | _ => 0%nat end
  end.

(** The notes an operation on [record]'s entry leaves at an address. *)
Lemma notes_at_insert t a rid record e :
  br_record e = br_record (replies_entry t record) ->
  notes_at (<[rec_switch_addr record := e]> t) a rid =
  if decide (rec_switch_addr record = a) then
    if Nat.eqb (rec_id record) rid then br_refusals e else ∅
  else notes_at t a rid.
Proof.
  intros He. unfold notes_at. destruct (decide _) as [<-|Hne]; [|by rewrite lookup_insert_ne].
  rewrite lookup_insert_eq, He. unfold replies_entry. destruct (t !! _) as [e0|]; [|done].
  destruct (ptr_eq (br_record e0) record) eqn:Hp; [|done]. unfold ptr_eq in Hp. apply Nat.eqb_eq in Hp. by rewrite Hp.
Qed.

(** Those of the entry an operation finds or builds. *)
Lemma notes_at_entry t record :
  br_refusals (replies_entry t record) = notes_at t (rec_switch_addr record) (rec_id record).
Proof. unfold notes_at, replies_entry, ptr_eq. destruct (t !! _) as [e|]; [|done]. by destruct (Nat.eqb _ _). Qed.

(** The note of a connect. *)
Definition note_of (pkt : L4Packet) (now : Z) : Z * Z * ip4 :=
  (seq_acknowledging (l4_tcp_seq pkt) (l4_tcp_payload_len pkt) (l4_tcp_flags pkt), now + REFUSAL_WINDOW, sa_ip (l4_src pkt)).

(** What an operation does to the notes of a registration: it drops some, or
    it notes one connect where there is room. *)
Definition noted (notes notes' : RefusalNotes) (a : ip4) (rid : nat) (op : RepliesOp) : Prop :=
  exists record pkt subnet now m, op = RNote record pkt subnet now /\
    is_connect a rid (reply_tuple_of pkt) op = true /\ m ⊆ notes /\
    notes' = <[reply_tuple_of pkt := note_of pkt now]> m /\
    (is_Some (m !! reply_tuple_of pkt) \/ notes_full m (sa_ip (l4_src pkt)) = false).

Lemma notable_guard pkt subnet :
  negb (l4_proto pkt =? IPPROTO_TCP)
  || negb (Z.land (l4_tcp_flags pkt) (Z.lor (Z.lor TCP_SYN TCP_ACK) TCP_RST) =? TCP_SYN)
  || bool_decide (sa_ip (l4_src pkt) = box_egress_proxy_address subnet) = negb (notable pkt subnet).
Proof. unfold notable. by rewrite !negb_andb, negb_involutive. Qed.

Lemma insert_noted record pkt subnet now (m notes : RefusalNotes) :
  notable pkt subnet = true -> m ⊆ notes ->
  (is_Some (m !! reply_tuple_of pkt) \/ notes_full m (sa_ip (l4_src pkt)) = false) ->
  noted notes (<[reply_tuple_of pkt := note_of pkt now]> m) (rec_switch_addr record) (rec_id record) (RNote record pkt subnet now).
Proof.
  intros Hn Hm Hr. exists record, pkt, subnet, now, m. split; [done|]. split; [|done].
  cbn. rewrite Hn, Nat.eqb_refl. by rewrite !bool_decide_eq_true_2.
Qed.

Lemma notes_refusable t record pkt subnet now a rid :
  let t' := observe_refusable t record pkt subnet now in
  notes_at t' a rid ⊆ notes_at t a rid \/ noted (notes_at t a rid) (notes_at t' a rid) a rid (RNote record pkt subnet now).
Proof.
  cbv zeta. unfold observe_refusable. rewrite notable_guard. destruct (notable pkt subnet) eqn:Hn; cbn [negb]; [|by left].
  assert (Hput : forall r, notes_at (<[rec_switch_addr record := set_br_refusals (replies_entry t record) r]> t) a rid =
             if decide (rec_switch_addr record = a) then if Nat.eqb (rec_id record) rid then r else ∅ else notes_at t a rid).
  { intros r. by rewrite notes_at_insert. }
  assert (Hsub : forall r, r ⊆ notes_at t (rec_switch_addr record) (rec_id record) ->
             notes_at (<[rec_switch_addr record := set_br_refusals (replies_entry t record) r]> t) a rid ⊆ notes_at t a rid).
  { intros r Hr. rewrite Hput. destruct (decide _) as [<-|]; [|done].
    destruct (Nat.eqb _ _) eqn:E; [|apply map_empty_subseteq]. by apply Nat.eqb_eq in E as <-. }
  assert (Hadd : forall m, m ⊆ notes_at t (rec_switch_addr record) (rec_id record) ->
             (is_Some (m !! reply_tuple_of pkt) \/ notes_full m (sa_ip (l4_src pkt)) = false) ->
             let t' := <[rec_switch_addr record :=
               set_br_refusals (replies_entry t record) (<[reply_tuple_of pkt := note_of pkt now]> m)]> t in
             notes_at t' a rid ⊆ notes_at t a rid \/
             noted (notes_at t a rid) (notes_at t' a rid) a rid (RNote record pkt subnet now)).
  { intros m Hm Hr. cbv zeta. rewrite Hput. destruct (decide _) as [<-|]; [|by left].
    destruct (Nat.eqb _ _) eqn:E; [|left; apply map_empty_subseteq]. apply Nat.eqb_eq in E as <-. right. by apply insert_noted. }
  rewrite notes_at_entry. set (notes := notes_at t (rec_switch_addr record) (rec_id record)) in *.
  destruct (bool_decide (notes !! reply_tuple_of pkt = None)) eqn:Eb; cbn [andb].
  - destruct (notes_full notes _) eqn:Ef; [|apply Hadd; auto].
    destruct (notes_full (filter _ notes) _) eqn:Ef'; [left; apply Hsub, map_filter_subseteq|].
    apply Hadd; [apply map_filter_subseteq|auto].
  - apply bool_decide_eq_false in Eb. apply Hadd; [done|]. left. by apply not_eq_None_Some.
Qed.

Lemma notes_refusal t record pkt now a rid :
  let '(t', ok) := refusal_admits t record pkt now in
  let k := reversed (reply_tuple_of pkt) in
  notes_at t' a rid ⊆ notes_at t a rid /\
  (ok = true -> rec_switch_addr record = a -> rec_id record = rid ->
     notes_at t' a rid = delete k (notes_at t a rid) /\
     exists until c, notes_at t a rid !! k = Some (l4_tcp_ack pkt, until, c) /\ now < until).
Proof.
  unfold refusal_admits. destruct (_ || _); [done|]. destruct (t !! rec_switch_addr record) as [e|] eqn:He; [|done].
  destruct (negb (ptr_eq _ _)) eqn:Hp; [done|]. apply negb_false_iff in Hp. unfold ptr_eq in Hp. apply Nat.eqb_eq in Hp.
  assert (Hent : replies_entry t record = e).
  { unfold replies_entry, ptr_eq. by rewrite He, Hp, Nat.eqb_refl. }
  set (k := reversed (reply_tuple_of pkt)).
  assert (Hdel : notes_at (<[rec_switch_addr record := set_br_refusals e (delete k (br_refusals e))]> t) a rid ⊆ notes_at t a rid /\
    (rec_switch_addr record = a -> rec_id record = rid ->
      notes_at (<[rec_switch_addr record := set_br_refusals e (delete k (br_refusals e))]> t) a rid = delete k (notes_at t a rid))).
  { rewrite notes_at_insert by (by rewrite Hent). cbn [br_refusals set_br_refusals]. rewrite <- Hent, notes_at_entry.
    destruct (decide _) as [<-|]; [|done].
    destruct (Nat.eqb _ _) eqn:E; [apply Nat.eqb_eq in E as <-; split; [apply delete_subseteq|done]|].
    split; [apply map_empty_subseteq|]. intros _ <-. by rewrite Nat.eqb_refl in E. }
  pose proof (notes_at_entry t record) as Hn. rewrite Hent in Hn.
  destruct (br_refusals e !! k) as [[[ack until] c]|] eqn:Hk; [|done].
  destruct (until <=? now) eqn:Eu; [by destruct Hdel|]. destruct (ack =? l4_tcp_ack pkt) eqn:Ea; [|done].
  destruct Hdel as [Hs Hd]. split; [done|]. intros _ Hra Hri. split; [by apply Hd|].
  subst a rid. rewrite <- Hn. exists until, c. bool_to_prop. subst ack. split; [done|lia].
Qed.

Lemma notes_set_flows t x e f a rid : t !! x = Some e -> notes_at (<[x := set_br_flows e f]> t) a rid = notes_at t a rid.
Proof.
  intros He. unfold notes_at. destruct (decide (x = a)) as [<-|Hne]; [|by rewrite lookup_insert_ne].
  by rewrite lookup_insert_eq, He.
Qed.

Lemma notes_delivered t record e a rid :
  br_record e = br_record (replies_entry t record) -> br_refusals e = br_refusals (replies_entry t record) ->
  notes_at (<[rec_switch_addr record := e]> t) a rid ⊆ notes_at t a rid.
Proof.
  intros Hr Hf. rewrite notes_at_insert by done. destruct (decide _) as [<-|]; [|done].
  destruct (Nat.eqb _ _) eqn:E; [|apply map_empty_subseteq]. apply Nat.eqb_eq in E as <-. by rewrite Hf, notes_at_entry.
Qed.

Lemma notes_retired t sources a rid : notes_at (replies_retire t sources) a rid ⊆ notes_at t a rid.
Proof.
  unfold replies_retire. revert t. induction sources as [|x sources IH]; intros t; [done|]. cbn. etrans; [apply IH|].
  unfold notes_at. destruct (decide (x = a)) as [<-|Hne]; [|by rewrite lookup_delete_ne].
  rewrite lookup_delete_eq. apply map_empty_subseteq.
Qed.

Lemma notes_step t op t' a rid :
  replies_step t op = Done t' ->
  notes_at t' a rid ⊆ notes_at t a rid \/ noted (notes_at t a rid) (notes_at t' a rid) a rid op.
Proof.
  destruct op as [record pkt limiter subnet now warn_now|record pkt subnet now|record pkt now|record pkt now|sources|src proto port]; cbn [replies_step].
  - intros H. left. apply bind_Done_inv in H as ([[t1 l1] flow] & Ho & H). injection H as <-. revert Ho. unfold observe_delivered.
    case_bool_decide; [by intros [= <- <- <-]|].
    destruct (observe_inbound _ _ _ _) as [flows f]. intros Hb. apply bind_Done_inv in Hb as (? & _ & Ho).
    destruct f as [[]| | | |]; cbn in Ho; injection Ho as <- <- <-; by apply notes_delivered.
  - intros [= <-]. apply notes_refusable.
  - intros H. left. apply bind_Done_inv in H as ([t1 ok] & Ho & H). injection H as <-. revert Ho. unfold box_reply_admits.
    destruct (t !! _) as [e|] eqn:He; [|by intros [= <- <-]]. destruct (negb _); [by intros [= <- <-]|].
    destruct (reply_admits _ _ _ _) as [flows b]. intros (? & _ & [= <- <-])%bind_Done_inv. by rewrite notes_set_flows.
  - intros [= <-]. left. pose proof (notes_refusal t record pkt now a rid) as H. destruct (refusal_admits _ _ _ _). apply H.
  - intros [= <-]. left. apply notes_retired.
  - intros H. left. revert H. unfold end_port_at. destruct (t !! src) as [e|] eqn:He; [|by intros [= <-]].
    intros (? & _ & [= <-])%bind_Done_inv. by rewrite notes_set_flows.
Qed.

(** One operation moves the count of resets by at most what it notes. *)
Lemma pending_step t op t' a rid k :
  replies_step t op = Done t' ->
  ((if is_reset a rid k t op then 1 else 0) + pending t' a rid k <=
   pending t a rid k + if is_connect a rid k op then 1 else 0)%nat.
Proof.
  intros Hs. pose proof (notes_step _ _ _ a rid Hs) as Hn. unfold pending. destruct (is_reset a rid k t op) eqn:Er.
  - destruct op; try done. cbn in Er, Hs. injection Hs as <-. rewrite !andb_true_iff in Er.
    destruct Er as [[[Ha%bool_decide_eq_true Hi%Nat.eqb_eq] Hk%bool_decide_eq_true] Hok].
    pose proof (notes_refusal t record pkt now a rid) as Hr. destruct (refusal_admits t record pkt now) as [t1 ok]. cbn in *.
    destruct Hr as [_ Hr]. destruct (Hr Hok Ha Hi) as [Hd (until & c & Hl & _)].
    rewrite Hd, Hk, lookup_delete_eq. rewrite Hk in Hl. rewrite Hl. lia.
  - destruct Hn as [Hn|(record & pkt & subnet & now & m & -> & Hc & Hm & Hn & _)].
    + destruct (notes_at t' a rid !! k) as [x|] eqn:Hk; [|lia]. rewrite (lookup_weaken _ _ _ _ Hk Hn). lia.
    + rewrite Hn. destruct (decide (reply_tuple_of pkt = k)) as [<-|Hne]; [rewrite Hc; case_match; case_match; lia|].
      rewrite lookup_insert_ne by done. destruct (m !! k) as [x|] eqn:Hk; [|lia]. rewrite (lookup_weaken _ _ _ _ Hk Hm). lia.
Qed.

(** Where a note comes from. *)
Definition note_earned (ops : list RepliesOp) (a : ip4) (rid : nat) (k : FlowTuple) (note : Z * Z * ip4) : Prop :=
  exists record pkt subnet now, RNote record pkt subnet now ∈ ops /\
    is_connect a rid k (RNote record pkt subnet now) = true /\ note = note_of pkt now /\ snd note = ft_src k.

Definition notes_ok (ops : list RepliesOp) (t : ReplyTables) : Prop :=
  forall a rid, let notes := notes_at t a rid in
    (forall k note, notes !! k = Some note -> note_earned ops a rid k note) /\
    (size notes <= REPLY_MAX_FLOWS_PER_BOX)%nat /\
    forall client, (size (filter (fun p => snd p.2 = client) notes) <= REFUSAL_NOTES_PER_SOURCE)%nat.

Lemma notes_count_insert (m : RefusalNotes) k note client :
  (size (filter (fun p => snd p.2 = client) (<[k := note]> m)) <=
   size (filter (fun p => snd p.2 = client) m) + if decide (snd note = client) then 1 else 0)%nat.
Proof.
  rewrite map_filter_insert. destruct (decide (snd _ = client)); cbn.
  - rewrite map_size_insert. case_match; cbn; lia.
  - etrans; [apply map_subseteq_size, map_filter_subseteq_mono, delete_subseteq|lia].
Qed.

Lemma notes_count_replace (m : RefusalNotes) k note old client :
  m !! k = Some old -> snd old = snd note ->
  size (filter (fun p => snd p.2 = client) (<[k := note]> m)) = size (filter (fun p => snd p.2 = client) m).
Proof.
  intros Hk Ho. rewrite map_filter_insert. destruct (decide (snd _ = client)) as [Hc|Hc]; cbn in Hc.
  - apply map_size_insert_Some. exists old. apply map_lookup_filter_Some. cbn. split; [done|]. by rewrite Ho.
  - f_equal. apply map_eq. intros i. rewrite !map_lookup_filter. destruct (decide (i = k)) as [->|Hi].
    + rewrite lookup_delete_eq, Hk. cbn. destruct (decide (snd old = client)); [congruence|]. by rewrite option_guard_False.
    + by rewrite lookup_delete_ne.
Qed.

Lemma note_earned_snoc ops op a rid k note : note_earned ops a rid k note -> note_earned (ops ++ [op]) a rid k note.
Proof. intros (record & pkt & subnet & now & Hin & H). exists record, pkt, subnet, now. split; [set_solver|done]. Qed.

(** The room of a client's share, where [notes_full] found some. *)
Lemma not_full_room m client :
  notes_full m client = false ->
  (size m < REPLY_MAX_FLOWS_PER_BOX)%nat /\ (size (filter (fun p => snd p.2 = client) m) < REFUSAL_NOTES_PER_SOURCE)%nat.
Proof. unfold notes_full. rewrite orb_false_iff, !Nat.leb_gt. done. Qed.

Lemma notes_ok_step ops t op t' : notes_ok ops t -> replies_step t op = Done t' -> notes_ok (ops ++ [op]) t'.
Proof.
  intros Hok Hs a rid. destruct (Hok a rid) as (He & Hsz & Hcl).
  assert (Hsub : forall m, m ⊆ notes_at t a rid -> (size m <= REPLY_MAX_FLOWS_PER_BOX)%nat /\
            forall client, (size (filter (fun p => snd p.2 = client) m) <= REFUSAL_NOTES_PER_SOURCE)%nat).
  { intros m Hm. split; [etrans; [by apply map_subseteq_size|done]|]. intros client.
    etrans; [by apply map_subseteq_size, map_filter_subseteq_mono|apply Hcl]. }
  destruct (notes_step _ _ _ a rid Hs) as [Hn|(record & pkt & subnet & now & m & -> & Hc & Hm & Hn & Hroom)]; cbv zeta.
  - split; [|by apply Hsub]. intros k note Hk. by apply note_earned_snoc, He, (lookup_weaken _ _ _ _ Hk).
  - rewrite Hn. destruct (Hsub m Hm) as [Hsm Hcm]. set (k := reply_tuple_of pkt) in *.
    assert (Hsrc : snd (note_of pkt now) = ft_src k) by done. split.
    + intros k' note Hk. apply lookup_insert_Some in Hk as [[<- <-]|[_ Hk]].
      * exists record, pkt, subnet, now. split; [set_solver|done].
      * by apply note_earned_snoc, He, (lookup_weaken _ _ _ _ Hk).
    + destruct Hroom as [[old Hold]|Hroom].
      * rewrite (map_size_insert_Some _ _ _ (mk_is_Some _ _ Hold)). split; [done|]. intros client.
        rewrite (notes_count_replace _ _ _ old) by (done || (destruct (He k old (lookup_weaken _ _ _ _ Hold Hm)) as (? & ? & ? & ? & _ & _ & _ & ->); done)).
        apply Hcm.
      * destruct (not_full_room _ _ Hroom) as [H1 H2]. rewrite map_size_insert. split; [case_match; cbn; lia|]. intros client.
        pose proof (notes_count_insert m k (note_of pkt now) client) as Hi. specialize (Hcm client).
        destruct (decide (snd (note_of pkt now) = client)) as [<-|]; [|lia]. cbn [snd note_of] in *. lia.
Qed.

Lemma notes_run_ok ops : exists t, foldM replies_step reply_tables_new ops = Done t /\ notes_ok ops t.
Proof.
  induction ops as [|op ops IH] using rev_ind.
  - exists ∅. split; [done|]. intros a rid. unfold notes_at. rewrite lookup_empty. split; [by intros ??|].
    split; [rewrite map_size_empty; lia|]. intros client. rewrite map_filter_empty, map_size_empty. lia.
  - destruct IH as (t & Ht & Hok). destruct (replies_run_refines (ops ++ [op])) as (t' & Ht' & _). exists t'. split; [done|].
    rewrite foldM_app, Ht, bind_Done in Ht'. cbn in Ht'. apply bind_Done_inv in Ht' as (t1 & Hs & [= <-]). by eapply notes_ok_step.
Qed.

Lemma resets_bounded a rid k ops t t' :
  foldM replies_step t ops = Done t' ->
  (resets a rid k t ops + pending t' a rid k <= pending t a rid k + connects a rid k ops)%nat.
Proof.
  revert t. induction ops as [|op ops IH]; intros t H; cbn in H |- *; [injection H as <-; lia|].
  apply bind_Done_inv in H as (t1 & Hs & H). rewrite Hs. specialize (IH t1 H). pose proof (pending_step t op t1 a rid k Hs) as Hp.
  unfold connects in *. cbn [List.filter]. destruct (is_connect a rid k op); cbn [length]; lia.
Qed.

(** C30: a reset a box sends is let out only as the refusal of a connect the gate
    delivered to that registration at most five seconds before, with the
    tuple reversed and the connect acknowledged; over any history the
    resets let out for a tuple are no more than the connects noted for it;
    and a registration never holds more than 1024 notes, nor more than 128
    of one client. *)
Theorem resets_earned ops record pkt now :
  exists t, foldM replies_step reply_tables_new ops = Done t /\
    ((refusal_admits t record pkt now).2 = true ->
       exists record' pkt' subnet now', RNote record' pkt' subnet now' ∈ ops /\
         rec_id record' = rec_id record /\ rec_switch_addr record' = rec_switch_addr record /\
         reply_tuple_of pkt' = reversed (reply_tuple_of pkt) /\ notable pkt' subnet = true /\
         now < now' + REFUSAL_WINDOW /\
         l4_tcp_ack pkt = seq_acknowledging (l4_tcp_seq pkt') (l4_tcp_payload_len pkt') (l4_tcp_flags pkt')) /\
    (forall a rid k, (resets a rid k reply_tables_new ops <= connects a rid k ops)%nat) /\
    (forall a e, t !! a = Some e -> (size (br_refusals e) <= 1024)%nat /\
       forall client, (size (filter (fun p => snd p.2 = client) (br_refusals e)) <= 128)%nat).
Proof.
  destruct (notes_run_ok ops) as (t & Ht & Hok). exists t. split; [done|]. split; [|split].
  - intros Hadm. pose proof (notes_refusal t record pkt now (rec_switch_addr record) (rec_id record)) as H.
    destruct (refusal_admits t record pkt now) as [t1 ok]. cbn in Hadm. destruct H as [_ H].
    destruct (H Hadm eq_refl eq_refl) as [_ (until & c & Hl & Hd)].
    destruct (Hok (rec_switch_addr record) (rec_id record)) as (He & _).
    destruct (He _ _ Hl) as (record' & pkt' & subnet & now' & Hin & Hc & Hnote & _).
    exists record', pkt', subnet, now'. cbn in Hc. rewrite !andb_true_iff in Hc.
    destruct Hc as [[[Ha%bool_decide_eq_true Hi%Nat.eqb_eq] Hk%bool_decide_eq_true] Hn].
    unfold note_of in Hnote. injection Hnote as -> -> ->. done.
  - intros a rid k. pose proof (resets_bounded a rid k ops _ _ Ht) as H.
    assert (pending reply_tables_new a rid k = 0%nat) as E by (unfold pending, notes_at, reply_tables_new; by rewrite !lookup_empty).
    lia.
  - intros a e He. destruct (Hok a (rec_id (br_record e))) as (_ & Hsz & Hcl). unfold notes_at in *. rewrite He, Nat.eqb_refl in *.
    done.
Qed.
