(* ===== verification/RowCarry.v ===== *)
(** * Rows and the relays that carry them (crates/minvmd/src/box_registry.rs)

    A relay marks the row of every source it carries; a row is withdrawn
    some time after its last carrier ends.  A row's liveness is kept by the
    identity of its registration. *)

From stdpp Require Import base list gmap strings numbers.
From Stdlib Require Import ZArith Lia.
From S2P Require Import Prelude Text Egress Switch DnsPins.
Open Scope Z_scope.

(** [RowLiveness] with the [attributed] mark of its row. *)
Record RowLiveness : Type := {
  lv_carriers : Z;
  lv_detached_since : option Z;
  lv_resumed_since : option Z;
  lv_attributed : bool;
}.
Definition liveness_new : RowLiveness :=
  {| lv_carriers := 0; lv_detached_since := None; lv_resumed_since := None; lv_attributed := false |}.
Definition usize_max : Z := 18446744073709551615.

(** The rows' interior state, by registration. *)
Notation Livenesses := (gmap nat RowLiveness).
Definition liveness (v : Livenesses) (r : BoxRecord) : RowLiveness := default liveness_new (v !! rec_id r).

(** [record.attributed.store(true)], the clearing of the bounds, and the
    count. *)
Definition set_attributed (v : Livenesses) (r : BoxRecord) : Livenesses :=
  let l := liveness v r in
  <[rec_id r := {| lv_carriers := lv_carriers l; lv_detached_since := lv_detached_since l;
                   lv_resumed_since := lv_resumed_since l; lv_attributed := true |}]> v.
Definition clear_bounds (v : Livenesses) (r : BoxRecord) : Livenesses :=
  let l := liveness v r in
  <[rec_id r := {| lv_carriers := lv_carriers l; lv_detached_since := None; lv_resumed_since := None;
                   lv_attributed := lv_attributed l |}]> v.
Definition add_carrier (v : Livenesses) (r : BoxRecord) : Livenesses :=
  let l := liveness v r in
  <[rec_id r := {| lv_carriers := Z.min (lv_carriers l + 1) usize_max; lv_detached_since := lv_detached_since l;
                   lv_resumed_since := lv_resumed_since l; lv_attributed := lv_attributed l |}]> v.

(** [box_row_of]. *)
Definition box_row_of (rows : gmap ip4 BoxRecord) (r : BoxRecord) : option BoxRecord :=
  match rec_task_row_of r with
  | None => None
  | Some addr =>
      match rows !! addr with
      | Some parent => if Nat.eqb (rec_box_id parent) (rec_box_id r) then Some parent else None
      | None => None
      end
  end.

(** [mark_row].  The liveness of the box's row stays locked while a task
    row's is taken; taking the lock of the same row twice does not return. *)
Definition mark_row (rows : gmap ip4 BoxRecord) (v : Livenesses) (r : BoxRecord) : outcome Livenesses :=
  let v := set_attributed v r in
  let parent := default r (box_row_of rows r) in
  let v := clear_bounds v parent in
  match rec_task_row_of r with
  | Some _ => if ptr_eq parent r then Panicked else Done (add_carrier v r)
  | None => Done (add_carrier v parent)
  end.

(** [RelayCarry]: [None] in [rc_marked] is the dangling [Weak]. *)
Record RelayCarry : Type := {
  rc_epoch : Z;
  rc_marked : list (ip4 * option nat);
  rc_carried : list (ip4 * nat);
}.
Definition relay_carry_new : RelayCarry := {| rc_epoch := 0; rc_marked := []; rc_carried := [] |}.

(** The loop of [BoxTable::carry] over the marks. *)
Fixpoint carry_marks (rows : gmap ip4 BoxRecord) (stale : bool) (src : ip4) (v : Livenesses) (carried : list (ip4 * nat))
    (marks : list (ip4 * option nat)) : outcome (Livenesses * list (ip4 * nat) * list (ip4 * option nat)) :=
  match marks with
  | [] => Done (v, carried, [])
  | (addr, mark) :: marks =>
      r ← (if negb stale && negb (bool_decide (addr = src)) then Done (v, carried, mark)
           else match rows !! addr with
                | None => Done (v, carried, mark)
                | Some record =>
                    if bool_decide (mark = Some (rec_id record)) then Done (v, carried, mark)
                    else
                      v ← mark_row rows v record;
                      Done (v, if bool_decide ((addr, rec_box_id record) ∈ carried) then carried
                               else carried ++ [(addr, rec_box_id record)], Some (rec_id record))
                end);
      let '(v, carried, mark) := r : Livenesses * list (ip4 * nat) * option nat in
      rest ← carry_marks rows stale src v carried marks;
      let '(v, carried, marks) := rest : Livenesses * list (ip4 * nat) * list (ip4 * option nat) in
      Done (v, carried, (addr, mark) :: marks)
  end.

(** [BoxTable::carry]. *)
Definition carry (table : BoxTable) (v : Livenesses) (src : ip4) (relay : RelayCarry) : outcome (Livenesses * RelayCarry) :=
  let epoch := bt_row_epoch table in
  let seen := existsb (fun m => bool_decide (fst m = src)) (rc_marked relay) in
  if seen && (epoch =? rc_epoch relay) then Done (v, relay)
  else
    let stale := negb (epoch =? rc_epoch relay) in
    let marked := if seen then rc_marked relay else rc_marked relay ++ [(src, None)] in
    r ← carry_marks (bt_rows table) stale src v (rc_carried relay) marked;
    let '(v, carried, marked) := r : Livenesses * list (ip4 * nat) * list (ip4 * option nat) in
    Done (v, {| rc_epoch := epoch; rc_marked := marked; rc_carried := carried |}).

(** ** Where the carriage returns *)

(** Every task row's box row stands, and is another row. *)
Definition rows_stand (rows : gmap ip4 BoxRecord) : Prop :=
  forall addr r, rows !! addr = Some r -> is_Some (rec_task_row_of r) ->
    exists parent, box_row_of rows r = Some parent /\ rec_id parent <> rec_id r.

Lemma mark_row_total rows v addr r : rows_stand rows -> rows !! addr = Some r -> exists v', mark_row rows v r = Done v'.
Proof.
  intros Hs Hr. unfold mark_row. cbv zeta. destruct (rec_task_row_of r) as [t|] eqn:Ht; [|by eexists].
  destruct (Hs addr r Hr) as (parent & -> & Hne); [by rewrite Ht|]. change (default r (Some parent)) with parent. unfold ptr_eq.
  destruct (Nat.eqb_spec (rec_id parent) (rec_id r)); [done|by eexists].
Qed.

Lemma carry_marks_total rows stale src v carried marks :
  rows_stand rows -> exists v' carried' marks', carry_marks rows stale src v carried marks = Done (v', carried', marks').
Proof.
  intros Hs. revert v carried. induction marks as [|[addr mark] marks IH]; intros v carried; cbn [carry_marks]; [by eexists _, _, _|].
  assert (Hone : exists v' carried' mark',
    (if negb stale && negb (bool_decide (addr = src)) then Done (v, carried, mark)
     else match rows !! addr with
          | None => Done (v, carried, mark)
          | Some record =>
              if bool_decide (mark = Some (rec_id record)) then Done (v, carried, mark)
              else v ← mark_row rows v record;
                   Done (v, if bool_decide ((addr, rec_box_id record) ∈ carried) then carried
                            else carried ++ [(addr, rec_box_id record)], Some (rec_id record))
          end) = Done (v', carried', mark')).
  { destruct (_ && _); [by eexists _, _, _|]. destruct (rows !! addr) as [r|] eqn:Hr; [|by eexists _, _, _].
    destruct (bool_decide (mark = _)); [by eexists _, _, _|]. destruct (mark_row_total rows v addr r Hs Hr) as [v' ->].
    rewrite bind_Done. by eexists _, _, _. }
  destruct Hone as (v1 & c1 & m1 & ->). rewrite bind_Done. destruct (IH v1 c1) as (v' & c' & m' & ->). rewrite bind_Done. by eexists _, _, _.
Qed.

Lemma carry_total table v src relay : rows_stand (bt_rows table) -> exists v' relay', carry table v src relay = Done (v', relay').
Proof.
  intros Hs. unfold carry. cbv zeta. destruct (_ && _); [by eexists _, _|].
  match goal with |- context [carry_marks ?r ?st ?s ?v ?c ?m] =>
    destruct (carry_marks_total r st s v c m Hs) as (v' & c' & m' & ->) end.
  rewrite bind_Done. by eexists _, _.
Qed.
