(* ===== verification/AddressBook.v ===== *)
(** * The book of switch addresses (crates/minvmd/src/box_registry.rs)

    The addresses the host hands to boxes and their tasks: which are out,
    which came back and from when on they may be handed again.  An address is
    its 32-bit number. *)

From stdpp Require Import base list gmap sets numbers.
From Stdlib Require Import ZArith Lia.
From S2P Require Import Prelude Text Egress Switch.
Open Scope Z_scope.

(** [SWITCH_ADDRESS_REUSE_QUARANTINE], which [SWITCH_REUSE_QUARANTINE] names. *)
Definition SWITCH_REUSE_QUARANTINE : Z := from_secs 300.

(** [Instant::checked_add]: seconds in 64 signed bits. *)
Definition INSTANT_MAX : Z := from_secs 9223372036854775807 + 999999999.
Definition instant_checked_add (now d : Z) : option Z := if now + d <=? INSTANT_MAX then Some (now + d) else None.

(** [u32::div_ceil]. *)
Definition div_ceil (a b : Z) : Z := (a + b - 1) / b.

(** [hand_out_run]. *)
Definition hand_out_run (subnet : SwitchSubnet) : Z * Z :=
  let first := first_ptask subnet in
  let last := last_ptask subnet in
  let reserve_len := div_ceil (u32_sub last first) 2 in
  (u32_add first reserve_len, last).

Record SwitchAddressBook : Type := {
  bk_first : Z;
  bk_last : Z;
  bk_next : option Z;
  bk_out : gset Z;
  bk_free : list (Z * Z * nat);   (* address, eligible from, returned by *)
}.

Record HandOutCounts : Type := {
  hc_live : nat; hc_quarantined : nat; hc_capacity : Z; hc_next_free_in : option Z }.

(** [SwitchAddressBook::new]. *)
Definition book_new (subnet : SwitchSubnet) : SwitchAddressBook :=
  let '(first, last) := hand_out_run subnet in
  {| bk_first := first; bk_last := last; bk_next := if first <=? last then Some first else None;
     bk_out := ∅; bk_free := [] |}.

Definition set_book (b : SwitchAddressBook) (next : option Z) (out : gset Z) (free : list (Z * Z * nat)) : SwitchAddressBook :=
  {| bk_first := bk_first b; bk_last := bk_last b; bk_next := next; bk_out := out; bk_free := free |}.

(** [self.free.iter().any(|&(addr, ..)| addr == next)]. *)
Definition is_free (free : list (Z * Z * nat)) (addr : Z) : bool := existsb (fun e => e.1.1 =? addr) free.

(** [next.checked_add(1).filter(|after| *after <= self.last)]. *)
Definition next_after (last n : Z) : option Z :=
  if (n + 1 <=? u32_MAX) && (n + 1 <=? last) then Some (n + 1) else None.

(** The loop of [draw] over the never-drawn addresses: where the cursor ends,
    and the address it found.  The cursor advances each round, so the room
    before [last] bounds the rounds. *)
Fixpoint draw_cursor (rounds : nat) (last : Z) (next : option Z) (out : gset Z) (free : list (Z * Z * nat))
    : option Z * option Z :=
  match next, rounds with
  | Some n, S rounds =>
      let after := next_after last n in
      if negb (is_free free n) && bool_decide (n ∉ out) then (after, Some n) else draw_cursor rounds last after out free
  | next, _ => (next, None)
  end.

(** [position] and [remove] of the first returned address that qualifies. *)
Fixpoint remove_reusable (ok : Z * Z * nat -> bool) (free : list (Z * Z * nat)) : option (Z * list (Z * Z * nat)) :=
  match free with
  | [] => None
  | e :: free =>
      if ok e then Some (e.1.1, free)
      else match remove_reusable ok free with Some (a, rest) => Some (a, e :: rest) | None => None end
  end.
Definition reusable (now : Z) (held : Z -> bool) (e : Z * Z * nat) : bool := (e.1.2 <=? now) && negb (held e.1.1).

(** [SwitchAddressBook::draw]. *)
Definition draw (b : SwitchAddressBook) (now : Z) (held : Z -> bool) : SwitchAddressBook * (Z + HandOutCounts) :=
  let rounds := match bk_next b with Some n => Z.to_nat (bk_last b - n + 1) | None => O end in
  let '(next, found) := draw_cursor rounds (bk_last b) (bk_next b) (bk_out b) (bk_free b) in
  match found with
  | Some a => (set_book b next ({[a]} ∪ bk_out b) (bk_free b), inl a)
  | None =>
      match remove_reusable (reusable now held) (bk_free b) with
      | Some (a, rest) => (set_book b next ({[a]} ∪ bk_out b) rest, inl a)
      | None =>
          (set_book b next (bk_out b) (bk_free b),
           inr {| hc_live := size (bk_out b); hc_quarantined := length (bk_free b);
                  hc_capacity := Z.max (bk_last b - bk_first b) 0 + 1;
                  hc_next_free_in :=
                    foldr (fun wait least => Some (match least with Some l => Z.min wait l | None => wait end)) None
                      (List.filter (fun wait => negb (wait =? 0)) (map (fun e => Z.max (e.1.2 - now) 0) (bk_free b))) |})
      end
  end.

(** [SwitchAddressBook::spare]. *)
Definition spare (b : SwitchAddressBook) (now : Z) (held : Z -> bool) : nat :=
  let never_drawn :=
    match bk_next b with
    | None => O
    | Some next =>
        let ahead := (Z.to_nat (bk_last b - next) + 1)%nat in
        let taken := (size (filter (fun a => (next <= a)%Z) (bk_out b))
                      + length (List.filter (fun e => Z.leb next e.1.1) (bk_free b)))%nat in
        (ahead - taken)%nat
    end in
  (never_drawn + length (List.filter (reusable now held) (bk_free b)))%nat.

(** [SwitchAddressBook::give_back]. *)
Definition give_back (b : SwitchAddressBook) (addr now : Z) (quarantine : bool) (returned_by : nat) : SwitchAddressBook * bool :=
  match (if quarantine then instant_checked_add now SWITCH_REUSE_QUARANTINE else Some now) with
  | None => (b, false)
  | Some eligible =>
      if bool_decide (addr ∈ bk_out b)
      then (set_book b (bk_next b) (bk_out b ∖ {[addr]}) (bk_free b ++ [(addr, eligible, returned_by)]), true)
      else (b, false)
  end.

(** The entry of an address among the returned ones, and the rest. *)
Fixpoint remove_entry (addr : Z) (free : list (Z * Z * nat)) : option (Z * Z * nat * list (Z * Z * nat)) :=
  match free with
  | [] => None
  | e :: free =>
      if e.1.1 =? addr then Some (e, free)
      else match remove_entry addr free with Some (x, rest) => Some (x, e :: rest) | None => None end
  end.

(** [SwitchAddressBook::take]. *)
Definition take_addr (b : SwitchAddressBook) (addr now : Z) (taker : nat) : SwitchAddressBook * bool :=
  if (addr <? bk_first b) || (bk_last b <? addr) || bool_decide (addr ∈ bk_out b) then (b, false)
  else
    match remove_entry addr (bk_free b) with
    | Some (e, rest) =>
        if (now <? e.1.2) && negb (Nat.eqb e.2 taker) then (b, false)
        else (set_book b (bk_next b) ({[addr]} ∪ bk_out b) rest, true)
    | None => (set_book b (bk_next b) ({[addr]} ∪ bk_out b) (bk_free b), true)
    end.

(** ** Histories *)

Inductive BookOp : Type :=
| BDraw (now : Z) (held : Z -> bool)
| BGiveBack (addr now : Z) (quarantine : bool) (returned_by : nat)
| BTake (addr now : Z) (taker : nat).
Definition book_step (b : SwitchAddressBook) (op : BookOp) : SwitchAddressBook :=
  match op with
  | BDraw now held => (draw b now held).1
  | BGiveBack addr now quarantine by_ => (give_back b addr now quarantine by_).1
  | BTake addr now taker => (take_addr b addr now taker).1
  end.
Definition book_run (subnet : SwitchSubnet) (ops : list BookOp) : SwitchAddressBook :=
  fold_left book_step ops (book_new subnet).

Definition in_run (b : SwitchAddressBook) (a : Z) : Prop := bk_first b <= a <= bk_last b.
Definition rests (b : SwitchAddressBook) (a : Z) : Prop := a ∈ map (fun e => e.1.1) (bk_free b).
(** Never handed, and not taken by name. *)
Definition fresh_addr (b : SwitchAddressBook) (a : Z) : Prop := in_run b a /\ a ∉ bk_out b /\ ~ rests b a.
(** The cursor has passed the address. *)
Definition passed (b : SwitchAddressBook) (a : Z) : Prop := match bk_next b with Some n => a < n | None => True end.

Record book_ok (b : SwitchAddressBook) : Prop := {
  bo_last : bk_last b <= u32_MAX;
  bo_next : forall n, bk_next b = Some n -> in_run b n;
  bo_out : forall a, a ∈ bk_out b -> in_run b a /\ ~ rests b a;
  bo_free : forall a, rests b a -> in_run b a;
  bo_once : NoDup (map (fun e => e.1.1) (bk_free b));
  bo_passed : forall a, in_run b a -> passed b a -> a ∈ bk_out b \/ rests b a;
}.

(** ** Lists *)

Lemma is_free_iff free a : is_free free a = true <-> a ∈ map (fun e : Z * Z * nat => e.1.1) free.
Proof.
  unfold is_free. rewrite existsb_exists, list_elem_of_In, in_map_iff. split.
  - intros (e & He & <-%Z.eqb_eq). by exists e.
  - intros (e & <- & He). exists e. split; [done|]. apply Z.eqb_refl.
Qed.

Lemma remove_reusable_Some ok free a rest :
  remove_reusable ok free = Some (a, rest) ->
  exists l1 e l2, free = l1 ++ e :: l2 /\ rest = l1 ++ l2 /\ ok e = true /\ e.1.1 = a.
Proof.
  revert rest. induction free as [|e free IH]; intros rest; cbn; [done|]. destruct (ok e) eqn:He.
  - intros [= <- <-]. by exists [], e, free.
  - destruct (remove_reusable ok free) as [[x r]|]; [|done]. intros [= -> <-].
    destruct (IH r eq_refl) as (l1 & e' & l2 & -> & -> & Ho & Ha). by exists (e :: l1), e', l2.
Qed.

Lemma remove_reusable_None ok free : remove_reusable ok free = None -> forall e, e ∈ free -> ok e = false.
Proof.
  induction free as [|x free IH]; cbn; [set_solver|]. destruct (ok x) eqn:Hx; [done|].
  destruct (remove_reusable ok free) as [[]|]; [done|]. intros _ e [->|He]%elem_of_cons; [done|by apply IH].
Qed.

Lemma remove_entry_Some addr free e rest :
  remove_entry addr free = Some (e, rest) -> exists l1 l2, free = l1 ++ e :: l2 /\ rest = l1 ++ l2 /\ e.1.1 = addr.
Proof.
  revert rest. induction free as [|x free IH]; intros rest; cbn; [done|]. destruct (Z.eqb_spec x.1.1 addr) as [Hx|Hx].
  - intros [= <- <-]. by exists [], free.
  - destruct (remove_entry addr free) as [[y r]|]; [|done]. intros [= <- <-].
    destruct (IH r eq_refl) as (l1 & l2 & -> & -> & Ha). by exists (x :: l1), l2.
Qed.

Lemma remove_entry_None addr free : remove_entry addr free = None -> addr ∉ map (fun e : Z * Z * nat => e.1.1) free.
Proof.
  induction free as [|x free IH]; cbn; [set_solver|]. destruct (Z.eqb_spec x.1.1 addr) as [Hx|Hx]; [done|].
  destruct (remove_entry addr free) as [[]|]; [done|]. intros _ [->|He]%elem_of_cons; [done|by apply IH].
Qed.

(** One entry goes out of the returned ones. *)
Lemma free_removed (l1 l2 : list (Z * Z * nat)) e :
  NoDup (map (fun e => e.1.1) (l1 ++ e :: l2)) ->
  NoDup (map (fun e => e.1.1) (l1 ++ l2)) /\
  forall a, a ∈ map (fun e => e.1.1) (l1 ++ l2) <-> a ∈ map (fun e => e.1.1) (l1 ++ e :: l2) /\ a <> e.1.1.
Proof.
  rewrite !map_app. cbn [map]. rewrite (Permutation_app_comm (map _ l1) (_ :: _)). cbn [app].
  intros [Hn1 Hn2]%list.NoDup_cons. rewrite Permutation_app_comm in Hn2. split; [done|].
  intros a. rewrite !elem_of_app, elem_of_cons in *. split; [|naive_solver]. intros Ha. split; [tauto|].
  intros ->. apply Hn1. tauto.
Qed.

(** ** Drawing *)

Lemma next_after_spec last n :
  last <= u32_MAX -> n <= last -> next_after last n = if decide (n = last) then None else Some (n + 1).
Proof.
  intros Hl Hn. unfold next_after. destruct (decide (n = last)) as [->|Hne].
  - rewrite (proj2 (Z.leb_gt (last + 1) last)) by lia. by rewrite andb_false_r.
  - by rewrite !(proj2 (Z.leb_le _ _)) by lia.
Qed.

(** The cursor stops at the least address that is neither out nor returned,
    or runs through. *)
Lemma draw_cursor_spec last out free n :
  last <= u32_MAX -> n <= last ->
  let skipped x := x ∈ out \/ x ∈ map (fun e : Z * Z * nat => e.1.1) free in
  match draw_cursor (Z.to_nat (last - n + 1)) last (Some n) out free with
  | (next, Some a) => n <= a <= last /\ ~ skipped a /\ next = next_after last a /\ forall x, n <= x < a -> skipped x
  | (next, None) => next = None /\ forall x, n <= x <= last -> skipped x
  end.
Proof.
  intros Hl Hn. cbv zeta. remember (Z.to_nat (last - n + 1)) as rounds eqn:Hr. revert n Hn Hr.
  induction rounds as [|rounds IH]; intros n Hn Hr; [lia|]. cbn [draw_cursor].
  destruct (negb (is_free free n) && bool_decide (n ∉ out)) eqn:Hok.
  - apply andb_true_iff in Hok as [Hf%negb_true_iff Ho%bool_decide_eq_true]. split; [lia|]. split.
    + intros [?|Hin]; [done|]. apply is_free_iff in Hin. congruence.
    + split; [done|]. lia.
  - assert (Hsk : n ∈ out \/ n ∈ map (fun e : Z * Z * nat => e.1.1) free).
    { apply andb_false_iff in Hok as [Hf%negb_false_iff|Ho%bool_decide_eq_false]; [right; by apply is_free_iff|left].
      by destruct (decide (n ∈ out)). }
    rewrite next_after_spec by done. destruct (decide (n = last)) as [->|Hne].
    + destruct rounds; cbn [draw_cursor]; (split; [done|]); intros x Hx; assert (x = last) as -> by lia; done.
    + specialize (IH (n + 1) ltac:(lia) ltac:(lia)).
      destruct (draw_cursor rounds last (Some (n + 1)) out free) as [next [a|]].
      * destruct IH as (Ha & Hs & Hnx & Hlow). split; [lia|]. split; [done|]. split; [done|].
        intros x Hx. destruct (decide (x = n)) as [->|]; [done|]. apply Hlow. lia.
      * destruct IH as (-> & Hall). split; [done|]. intros x Hx. destruct (decide (x = n)) as [->|]; [done|]. apply Hall. lia.
Qed.

(** What a draw does: the least fresh address, else the longest returned one
    that qualifies, else nothing. *)
Lemma draw_spec b now held :
  book_ok b ->
  match draw b now held with
  | (b', inl a) =>
      book_ok b' /\ in_run b a /\ a ∉ bk_out b /\ bk_out b' = {[a]} ∪ bk_out b /\
      ((fresh_addr b a /\ bk_free b' = bk_free b /\ forall x, fresh_addr b x -> a <= x) \/
       ((forall x, ~ fresh_addr b x) /\ exists l1 e l2, bk_free b = l1 ++ e :: l2 /\ bk_free b' = l1 ++ l2 /\
          e.1.1 = a /\ reusable now held e = true))
  | (b', inr counts) =>
      book_ok b' /\ bk_out b' = bk_out b /\ bk_free b' = bk_free b /\ (forall x, ~ fresh_addr b x) /\
      (forall e, e ∈ bk_free b -> reusable now held e = false) /\
      hc_live counts = size (bk_out b) /\ hc_quarantined counts = length (bk_free b)
  end.
Proof.
  intros [H1 H2 H3 H4 H5 H6]. unfold draw.
  assert (Hcur : match draw_cursor (match bk_next b with Some n => Z.to_nat (bk_last b - n + 1) | None => O end)
                         (bk_last b) (bk_next b) (bk_out b) (bk_free b) with
                 | (next, Some a) => fresh_addr b a /\ (forall x, fresh_addr b x -> a <= x) /\ next = next_after (bk_last b) a /\
                     (forall x, in_run b x -> x < a -> x ∈ bk_out b \/ rests b x)
                 | (next, None) => next = None /\ forall x, ~ fresh_addr b x
                 end).
  { destruct (bk_next b) as [n|] eqn:Hn.
    - destruct (H2 n eq_refl) as [Hf Hl]. pose proof (draw_cursor_spec (bk_last b) (bk_out b) (bk_free b) n H1 Hl) as Hs. cbv zeta in Hs.
      unfold passed in H6. rewrite Hn in H6. destruct (draw_cursor _ _ _ _ _) as [next [a|]].
      + destruct Hs as (Ha & Hs & -> & Hlow). split; [split; [unfold in_run; lia|tauto]|].
        assert (Hbelow : forall x, in_run b x -> x < a -> x ∈ bk_out b \/ rests b x).
        { intros x Hx Hxa. destruct (decide (x < n)); [by apply H6|]. apply Hlow. lia. }
        split; [|done]. intros x (Hx & Ho & Hr). destruct (decide (a <= x)); [done|].
        destruct (Hbelow x Hx) as [?|?]; [lia|done..].
      + destruct Hs as (-> & Hall). split; [done|]. intros x (Hx & Ho & Hr).
        destruct (decide (x < n)) as [Hxn|Hxn]; [destruct (H6 x Hx Hxn)|destruct (Hall x)]; unfold in_run in *; try done; lia.
    - cbn. split; [done|]. intros x (Hx & Ho & Hr). destruct (H6 x Hx) as [?|?]; [unfold passed; by rewrite Hn|done..]. }
  destruct (draw_cursor _ _ _ _ _) as [next [a|]].
  - destruct Hcur as ([Hrun [Ho Hr]] & Hleast & -> & Hbelow). split; [|by split_and!; [..|left]].
    split; cbn [set_book bk_first bk_last bk_next bk_out bk_free]; try done.
    + intros n Hn. rewrite next_after_spec in Hn by (unfold in_run in *; lia). destruct (decide _); [done|]. injection Hn as <-.
      unfold in_run in *. cbn. lia.
    + intros x [->%elem_of_singleton|Hx]%elem_of_union; [done|by apply H3].
    + intros x Hx Hp. unfold passed in Hp. cbn [bk_next set_book] in Hp. rewrite next_after_spec in Hp by (unfold in_run in *; lia).
      destruct (decide (x = a)) as [->|Hne]; [set_solver|].
      enough (x ∈ bk_out b \/ rests b x) as [?|?] by (set_solver || by right).
      apply Hbelow; [done|]. unfold in_run in *. cbn in Hx. destruct (decide (a = bk_last b)); lia.
  - destruct Hcur as [-> Hnone].
    assert (Hall : forall x, in_run b x -> x ∈ bk_out b \/ rests b x).
    { intros x Hx. destruct (decide (x ∈ bk_out b)) as [?|Ho]; [by left|]. right. unfold rests.
      destruct (decide (x ∈ map (fun e => e.1.1) (bk_free b))) as [?|Hr]; [done|]. by destruct (Hnone x). }
    destruct (remove_reusable (reusable now held) (bk_free b)) as [[a rest]|] eqn:Hre.
    + apply remove_reusable_Some in Hre as (l1 & e & l2 & Hfree & -> & Hok & Ha).
      assert (Hra : rests b a) by (unfold rests; rewrite Hfree, map_app; cbn; subst a; set_solver).
      assert (Hoa : a ∉ bk_out b) by (intros Hin; by destruct (H3 a Hin)).
      rewrite Hfree in H5. destruct (free_removed l1 l2 e H5) as [Hn' Hiff].
      split; [|split_and!; [by apply H4|done|done|right; split; [done|]; by exists l1, e, l2]].
      split; cbn [set_book bk_first bk_last bk_next bk_out bk_free]; try done; unfold rests in *; cbn [set_book bk_free].
      * intros x [->%elem_of_singleton|Hx]%elem_of_union.
        -- split; [by apply H4|]. rewrite Hiff. by intros [_ ?].
        -- split; [by apply H3|]. rewrite Hiff. intros [Hin _]. rewrite <- Hfree in Hin. by destruct (H3 x Hx).
      * intros x Hx. apply H4. rewrite Hiff in Hx. rewrite Hfree. tauto.
      * intros x Hx _. destruct (Hall x Hx) as [?|Hr]; [set_solver|]. destruct (decide (x = a)) as [->|Hne]; [set_solver|].
        right. rewrite Hiff, <- Hfree. by split; [|congruence].
    + split; [|split_and!; try done; by apply remove_reusable_None].
      split; cbn [set_book bk_first bk_last bk_next bk_out bk_free]; try done. intros x Hx _. by apply Hall.
Qed.

Lemma give_back_ok b addr now quarantine by_ : book_ok b -> book_ok (give_back b addr now quarantine by_).1.
Proof.
  intros Hok. unfold give_back. destruct (if quarantine then _ else _) as [eligible|]; [|done].
  case_bool_decide as Hin; [|done]. destruct Hok as [H1 H2 H3 H4 H5 H6].
  assert (Hr : forall x, rests (set_book b (bk_next b) (bk_out b ∖ {[addr]}) (bk_free b ++ [(addr, eligible, by_)])) x <-> rests b x \/ x = addr).
  { intros x. unfold rests. cbn [set_book bk_free]. rewrite map_app. cbn. rewrite elem_of_app, list_elem_of_singleton. done. }
  split; cbn [fst set_book bk_first bk_last bk_next bk_out bk_free]; try done.
  - intros x [Hx Hne]%elem_of_difference. split; [by apply H3|]. rewrite Hr. intros [?| ->]; [by destruct (H3 x Hx)|set_solver].
  - intros x [Hx| ->]%Hr; [by apply H4|by apply H3].
  - rewrite map_app. apply list.NoDup_app. split_and!; [done| |apply NoDup_singleton]. intros x Hx ->%list_elem_of_singleton.
    by destruct (H3 addr Hin) as [_ []].
  - intros x Hx Hp. rewrite Hr. destruct (H6 x Hx Hp) as [?|?]; [|tauto]. destruct (decide (x = addr)); [tauto|set_solver].
Qed.

Lemma take_addr_spec b addr now taker :
  book_ok b ->
  match take_addr b addr now taker with
  | (b', true) => book_ok b' /\ in_run b addr /\ addr ∉ bk_out b /\ bk_out b' = {[addr]} ∪ bk_out b /\
      (forall e, e ∈ bk_free b' -> e ∈ bk_free b) /\
      (forall e, e ∈ bk_free b -> e.1.1 = addr -> e.1.2 <= now \/ e.2 = taker)
  | (b', false) => b' = b
  end.
Proof.
  intros Hok. unfold take_addr. destruct ((addr <? bk_first b) || (bk_last b <? addr) || bool_decide (addr ∈ bk_out b)) eqn:Hg; [done|].
  apply orb_false_iff in Hg as [Hg Ho%bool_decide_eq_false]. apply orb_false_iff in Hg as [Hf%Z.ltb_ge Hl%Z.ltb_ge].
  assert (Hrun : in_run b addr) by (unfold in_run; lia). destruct Hok as [H1 H2 H3 H4 H5 H6].
  destruct (remove_entry addr (bk_free b)) as [[e rest]|] eqn:He.
  - apply remove_entry_Some in He as (l1 & l2 & Hfree & -> & Ha).
    destruct ((now <? e.1.2) && _) eqn:Hq; [done|]. rewrite Hfree in H5. destruct (free_removed l1 l2 e H5) as [Hn Hiff].
    split; [|split_and!; [done..| |]].
    + split; cbn [set_book bk_first bk_last bk_next bk_out bk_free]; try done; unfold rests in *; cbn [set_book bk_free].
      * intros x [->%elem_of_singleton|Hx]%elem_of_union.
        -- split; [done|]. rewrite Hiff. by intros [_ ?].
        -- split; [by apply H3|]. rewrite Hiff. intros [Hin _]. rewrite <- Hfree in Hin. by destruct (H3 x Hx).
      * intros x Hx. apply H4. rewrite Hiff in Hx. rewrite Hfree. tauto.
      * intros x Hx Hp. destruct (H6 x Hx Hp) as [?|Hr]; [set_solver|]. destruct (decide (x = addr)) as [->|Hne]; [set_solver|].
        right. rewrite Hiff, <- Hfree. by split; [|congruence].
    + intros x Hx. rewrite Hfree. cbn in Hx. set_solver.
    + intros x Hx Hxa. assert (x = e) as ->.
      { rewrite Hfree in Hx. apply elem_of_app in Hx as [Hx|[->|Hx]%elem_of_cons]; [exfalso|done|exfalso];
          (assert (Hin : x.1.1 ∈ map (fun e => e.1.1) (l1 ++ l2)) by (apply list_elem_of_fmap; exists x; split; [done|set_solver]));
          apply Hiff in Hin as [_ Hne]; congruence. }
      apply andb_false_iff in Hq as [Hq%Z.ltb_ge|Hq%negb_false_iff]; [by left|right]. by apply Nat.eqb_eq.
  - apply remove_entry_None in He. split; [|split_and!; [done..| |]].
    + split; cbn [set_book bk_first bk_last bk_next bk_out bk_free]; try done.
      * intros x [->%elem_of_singleton|Hx]%elem_of_union; [done|by apply H3].
      * intros x Hx Hp. destruct (H6 x Hx Hp); [set_solver|by right].
    + done.
    + intros x Hx Hxa. destruct He. apply list_elem_of_fmap. by exists x.
Qed.

(** Every returned entry is the return of its address in the history, with
    its quarantine counted from that instant. *)
Definition returns_logged (ops : list BookOp) (b : SwitchAddressBook) : Prop :=
  forall addr eligible by_, (addr, eligible, by_) ∈ bk_free b ->
    exists now quarantine, BGiveBack addr now quarantine by_ ∈ ops /\
      eligible = now + (if quarantine then SWITCH_REUSE_QUARANTINE else 0).

Lemma book_new_ok subnet : book_ok (book_new subnet).
Proof.
  unfold book_new. destruct (hand_out_run subnet) as [first last] eqn:Hr. unfold hand_out_run in Hr. injection Hr as <- <-.
  split; cbn [bk_first bk_last bk_next bk_out bk_free]; unfold rests, in_run, passed; cbn.
  - unfold last_ptask, u32_sub, u32_MAX. pose proof (Z.mod_pos_bound (ip4_u32 (box_egress_proxy_address subnet) - 1) 4294967296). lia.
  - intros n Hn. destruct (Z.leb_spec (u32_add (first_ptask subnet) (div_ceil (u32_sub (last_ptask subnet) (first_ptask subnet)) 2)) (last_ptask subnet));
      [injection Hn as <-; lia|done].
  - set_solver.
  - set_solver.
  - apply NoDup_nil_2.
  - intros a Ha Hp. destruct (Z.leb_spec (u32_add (first_ptask subnet) (div_ceil (u32_sub (last_ptask subnet) (first_ptask subnet)) 2)) (last_ptask subnet)); lia.
Qed.

Lemma book_step_ok ops b op :
  book_ok b -> returns_logged ops b -> book_ok (book_step b op) /\ returns_logged (ops ++ [op]) (book_step b op).
Proof.
  intros Hok Hlog.
  assert (Hmono : forall b', (forall e, e ∈ bk_free b' -> e ∈ bk_free b) -> returns_logged (ops ++ [op]) b').
  { intros b' Hsub addr eligible by_ Hin. destruct (Hlog _ _ _ (Hsub _ Hin)) as (now & q & Hop & He). exists now, q. set_solver. }
  destruct op as [now held|addr now quarantine by_|addr now taker]; cbn [book_step].
  - pose proof (draw_spec b now held Hok) as Hd. destruct (draw b now held) as [b' [a|counts]]; cbn [fst].
    + destruct Hd as (Hok' & _ & _ & _ & Hd). split; [done|]. apply Hmono.
      destruct Hd as [(_ & -> & _)|(_ & l1 & e & l2 & -> & -> & _)]; set_solver.
    + destruct Hd as (Hok' & _ & Hf & _). split; [done|]. apply Hmono. by rewrite Hf.
  - split; [by apply give_back_ok|]. revert Hmono. unfold give_back. intros Hmono.
    destruct (if quarantine then _ else _) as [eligible|] eqn:He; [|by apply Hmono].
    case_bool_decide; [|by apply Hmono]. intros addr' eligible' by' [Hin|Hin]%elem_of_app.
    + destruct (Hlog _ _ _ Hin) as (now' & q & Hop & He'). exists now', q. set_solver.
    + apply list_elem_of_singleton in Hin as [= -> -> ->]. exists now, quarantine. split; [set_solver|].
      destruct quarantine; [|injection He as <-; lia]. unfold instant_checked_add in He. destruct (_ <=? _); [by injection He as <-|done].
  - pose proof (take_addr_spec b addr now taker Hok) as Ht. destruct (take_addr b addr now taker) as [b' []]; cbn [fst].
    + destruct Ht as (Hok' & _ & _ & _ & Hf & _). split; [done|]. by apply Hmono.
    + subst b'. split; [done|]. by apply Hmono.
Qed.

Lemma book_run_ok subnet ops : book_ok (book_run subnet ops) /\ returns_logged ops (book_run subnet ops).
Proof.
  induction ops as [|op ops [IH1 IH2]] using rev_ind.
  - split; [apply book_new_ok|]. intros addr eligible by_ Hin. unfold book_run, book_new in Hin. cbn in Hin. set_solver.
  - unfold book_run. rewrite fold_left_app. by apply book_step_ok.
Qed.

(** ** Counting *)

Definition never_drawn (b : SwitchAddressBook) : nat :=
  match bk_next b with
  | None => O
  | Some next => (Z.to_nat (bk_last b - next) + 1 - (size (filter (fun a => (next <= a)%Z) (bk_out b))
                  + length (List.filter (fun e => Z.leb next e.1.1) (bk_free b))))%nat
  end.

Lemma size_list_set (l : list Z) : NoDup l -> size (list_to_set l : gset Z) = length l.
Proof. apply size_list_to_set. Qed.

Lemma frees_above next free :
  map (fun e : Z * Z * nat => e.1.1) (List.filter (fun e => Z.leb next e.1.1) free)
  = List.filter (Z.leb next) (map (fun e => e.1.1) free).
Proof. induction free as [|e free IH]; [done|]. cbn. destruct (next <=? e.1.1); cbn; by rewrite IH. Qed.

(** [spare] counts the fresh addresses. *)
Lemma never_drawn_size b : book_ok b -> exists F : gset Z, (forall x, x ∈ F <-> fresh_addr b x) /\ never_drawn b = size F.
Proof.
  intros [H1 H2 H3 H4 H5 H6]. unfold never_drawn. unfold passed in H6. destruct (bk_next b) as [n|].
  2: { exists ∅. split; [|done]. intros x. split; [set_solver|]. intros (Hx & Ho & Hr). by destruct (H6 x Hx I). }
  destruct (H2 n eq_refl) as [Hf Hl].
  set (S := list_to_set (seqZ n (bk_last b - n + 1)) : gset Z).
  set (ups := List.filter (Z.leb n) (map (fun e : Z * Z * nat => e.1.1) (bk_free b))).
  set (T1 := filter (fun a => n <= a) (bk_out b)). set (T2 := list_to_set ups : gset Z).
  assert (Hups : forall x, x ∈ ups <-> rests b x /\ n <= x).
  { intros x. unfold ups, rests. rewrite list_elem_of_In, filter_In, <- list_elem_of_In, Z.leb_le. done. }
  assert (HS : forall x, x ∈ S <-> n <= x <= bk_last b) by (intros x; unfold S; rewrite elem_of_list_to_set, elem_of_seqZ; lia).
  assert (HT1 : forall x, x ∈ T1 <-> x ∈ bk_out b /\ n <= x) by (intros x; unfold T1; rewrite elem_of_filter; tauto).
  assert (HT2 : forall x, x ∈ T2 <-> rests b x /\ n <= x) by (intros x; unfold T2; by rewrite elem_of_list_to_set).
  exists (S ∖ (T1 ∪ T2)). split.
  - intros x. rewrite elem_of_difference, elem_of_union, HS, HT1, HT2. unfold fresh_addr, in_run. split.
    + intros (Hx & Hn). split; [lia|]. split; intros ?; apply Hn; [left|right]; (split; [done|lia]).
    + intros (Hx & Ho & Hr). destruct (decide (x < n)) as [Hlt|Hge]; [by destruct (H6 x Hx Hlt)|]. split; [lia|]. tauto.
  - assert (Hsub : T1 ∪ T2 ⊆ S).
    { intros x [Hx|Hx]%elem_of_union; apply HS; [apply HT1 in Hx as [Hx ?]; apply H3 in Hx as [Hx _]|apply HT2 in Hx as [Hx ?]; apply H4 in Hx];
        unfold in_run in Hx; lia. }
    rewrite size_difference by done. rewrite size_union by (intros x [Hx _]%HT1 [Hr _]%HT2; by destruct (H3 x Hx)).
    f_equal; [|f_equal].
    + unfold S. rewrite size_list_set by apply NoDup_seqZ. rewrite length_seqZ. lia.
    + unfold T2. rewrite size_list_set by by apply base.NoDup_ListNoDup, List.NoDup_filter, base.NoDup_ListNoDup.
      unfold ups. by rewrite <- frees_above, length_map.
Qed.

Lemma spare_eq b now held : spare b now held = (never_drawn b + length (List.filter (reusable now held) (bk_free b)))%nat.
Proof. reflexivity. Qed.

Lemma no_fresh_zero b : book_ok b -> (forall x, ~ fresh_addr b x) -> never_drawn b = 0%nat.
Proof.
  intros Hok Hnone. destruct (never_drawn_size b Hok) as (F & HF & ->). apply size_empty_iff. intros x. split; [|set_solver].
  intros Hx. apply HF in Hx. by destruct (Hnone x).
Qed.

(** A draw takes one off the count, and only an empty count hands nothing. *)
Lemma spare_step b now held :
  book_ok b ->
  match draw b now held with
  | (b', inl _) => spare b now held = S (spare b' now held)
  | (_, inr _) => spare b now held = 0%nat
  end.
Proof.
  intros Hok. pose proof (draw_spec b now held Hok) as Hd. destruct (draw b now held) as [b' [a|counts]] eqn:Hdr.
  - destruct Hd as (Hok' & Hrun & Ha & Hout & Hd). rewrite !spare_eq.
    assert (Hb : bk_first b' = bk_first b /\ bk_last b' = bk_last b).
    { unfold draw in Hdr. destruct (draw_cursor _ _ _ _ _) as [next [x|]]; [by injection Hdr as <- _|].
      destruct (remove_reusable _ _) as [[]|]; by injection Hdr as <- _. }
    destruct Hb as [Hb1 Hb2]. destruct Hd as [(Hfa & Hfree & _)|(Hnone & l1 & e & l2 & Hf & Hf' & He & Hre)].
    + rewrite Hfree. enough (never_drawn b = S (never_drawn b')) by lia.
      destruct (never_drawn_size b Hok) as (F & HF & ->), (never_drawn_size b' Hok') as (F' & HF' & ->).
      assert (F = {[a]} ∪ F') as ->.
      { apply set_eq. intros x. rewrite elem_of_union, elem_of_singleton, HF, HF'. unfold fresh_addr, in_run, rests.
        rewrite Hb1, Hb2, Hout, Hfree. destruct Hfa as (Hfa1 & Hfa2 & Hfa3). unfold in_run, rests in *.
        destruct (decide (x = a)) as [->|Hne]; [tauto|]. rewrite elem_of_union, elem_of_singleton. tauto. }
      rewrite size_union, size_singleton; [done|]. intros x ->%elem_of_singleton Hx%HF'. destruct Hx as (_ & Hx & _). rewrite Hout in Hx. set_solver.
    + rewrite (no_fresh_zero b Hok Hnone). rewrite (no_fresh_zero b' Hok').
      2: { intros x (Hx & Ho & Hr). apply (Hnone x). unfold fresh_addr, in_run, rests in *. rewrite Hb1, Hb2 in Hx. split; [done|].
           rewrite Hout in Ho. split; [set_solver|]. intros Hin. apply Hr. rewrite Hf' , map_app. rewrite Hf, map_app in Hin. cbn [map] in Hin.
           rewrite He in Hin. set_solver. }
      rewrite Hf, Hf', !List.filter_app, !length_app. cbn [List.filter]. rewrite Hre. cbn [length]. lia.
  - destruct Hd as (_ & _ & _ & Hnone & Hfree & _). rewrite spare_eq, (no_fresh_zero b Hok Hnone).
    destruct (List.filter (reusable now held) (bk_free b)) as [|e l] eqn:E; [done|].
    assert (In e (List.filter (reusable now held) (bk_free b))) as [Hin He]%filter_In by (rewrite E; by left).
    apply list_elem_of_In in Hin. by rewrite Hfree in He.
Qed.

(** A number of draws at one instant. *)
Fixpoint draw_many (n : nat) (b : SwitchAddressBook) (now : Z) (held : Z -> bool) : SwitchAddressBook * list Z :=
  match n with
  | O => (b, [])
  | S n =>
      match draw b now held with
      | (b, inl a) => let '(b, l) := draw_many n b now held in (b, a :: l)
      | (b, inr _) => (b, [])
      end
  end.

Lemma draw_many_spec n b now held :
  book_ok b -> n = spare b now held ->
  let '(b', l) := draw_many n b now held in
  book_ok b' /\ spare b' now held = 0%nat /\ length l = n /\ NoDup l /\ forall a, a ∈ l -> in_run b a /\ a ∉ bk_out b.
Proof.
  revert b. induction n as [|n IH]; intros b Hok Hn; cbn [draw_many].
  { split_and!; try done; [apply NoDup_nil_2|set_solver]. }
  pose proof (spare_step b now held Hok) as Hs. pose proof (draw_spec b now held Hok) as Hd.
  destruct (draw b now held) as [b1 [a|counts]] eqn:Hdr; [|lia]. destruct Hd as (Hok1 & Hrun & Ha & Hout & _).
  assert (Hb : in_run b1 = in_run b).
  { unfold draw in Hdr. destruct (draw_cursor _ _ _ _ _) as [next [x|]]; [by injection Hdr as <- _|].
    destruct (remove_reusable _ _) as [[]|]; by injection Hdr as <- _. }
  specialize (IH b1 Hok1 ltac:(lia)). destruct (draw_many n b1 now held) as [b' l]. rewrite Hb, Hout in IH.
  destruct IH as (Hok' & Hz & Hlen & Hnd & Hin). split_and!; [done|done|cbn; lia| |].
  - apply list.NoDup_cons. split; [|done]. intros Hal%Hin. set_solver.
  - intros x [->|Hx]%elem_of_cons; [done|]. destruct (Hin x Hx). split; [done|set_solver].
Qed.

(** The book never shares an address, in any history.  A draw hands an
    address of the run that is not out: the least never handed, and only when
    there is none a returned one that no row or revocation holds, whose
    return lies a full quarantine back where the box spoke under it.  It
    hands nothing only when every address is out or not yet eligible.  And
    [spare] is exactly the number of addresses the next draws hand, all
    different, before one hands nothing. *)
Theorem book_never_shares subnet ops now held :
  let b := book_run subnet ops in
  match draw b now held with
  | (_, inl a) =>
      in_run b a /\ a ∉ bk_out b /\
      (fresh_addr b a \/ (forall x, ~ fresh_addr b x) /\ held a = false /\
         exists since quarantine by_, BGiveBack a since quarantine by_ ∈ ops /\
           since + (if quarantine then SWITCH_REUSE_QUARANTINE else 0) <= now)
  | (_, inr _) =>
      forall a, in_run b a -> a ∈ bk_out b \/
        exists eligible by_, (a, eligible, by_) ∈ bk_free b /\ (now < eligible \/ held a = true)
  end /\
  let '(b', l) := draw_many (spare b now held) b now held in
  length l = spare b now held /\ NoDup l /\ (forall a, a ∈ l -> in_run b a /\ a ∉ bk_out b) /\
  exists counts, (draw b' now held).2 = inr counts.
Proof.
  intros b. destruct (book_run_ok subnet ops) as [Hok Hlog]. fold b in Hok, Hlog. split.
  - pose proof (draw_spec b now held Hok) as Hd. destruct (draw b now held) as [b' [a|counts]].
    + destruct Hd as (_ & Hrun & Ha & _ & Hd). split; [done|]. split; [done|].
      destruct Hd as [(? & _)|(Hnone & l1 & [[a' eligible] by_] & l2 & Hf & _ & He & Hre)]; [by left|right]. cbn in He. subst a'.
      unfold reusable in Hre. cbn in Hre. apply andb_true_iff in Hre as [Hle%Z.leb_le Hh%negb_true_iff].
      split; [done|]. split; [done|]. destruct (Hlog a eligible by_) as (since & q & Hin & ->); [rewrite Hf; set_solver|]. eauto 8.
    + destruct Hd as (_ & _ & _ & Hnone & Hfree & _). intros a Hrun. destruct (decide (a ∈ bk_out b)) as [?|Ho]; [by left|right].
      destruct (decide (a ∈ map (fun e => e.1.1) (bk_free b))) as [Hin|Hn]; [|by destruct (Hnone a)].
      apply list_elem_of_fmap in Hin as ([[a' eligible] by_] & -> & Hin). exists eligible, by_. split; [done|].
      apply Hfree in Hin. unfold reusable in Hin. cbn in *. apply andb_false_iff in Hin as [?%Z.leb_gt|?%negb_false_iff]; auto.
  - pose proof (draw_many_spec _ b now held Hok eq_refl) as Hm. destruct (draw_many _ b now held) as [b' l].
    destruct Hm as (Hok' & Hz & Hlen & Hnd & Hin). split_and!; try done.
    pose proof (spare_step b' now held Hok') as Hs. destruct (draw b' now held) as [b2 [a|counts]]; [lia|]. by exists counts.
Qed.
