(* ===== verification/HostGate.v ===== *)
(** * The host's egress gate (crates/minvmd/src/net/egress_gate.rs)

    The decision on one frame leaving the VM, made outside it: the answers
    to delivered flows, the switch's own address, the node plane, the
    resident [host_ip] boxes, and a published row with its lane, its pins
    and its names.  Operations run over the gate's shared state; [clock]
    gives the readings of the clock one decision makes. *)

From stdpp Require Import base list gmap strings numbers.
From Stdlib Require Import ZArith Lia Ascii.
From S2P Require Import Prelude Text Egress Rebinding ReplyFlows DropLimiter Switch L4 Baseline ZoneAnswer DnsPins HostExposures ReplyTables.
Open Scope Z_scope.

Definition NODE_PLANE_FETCH_PROTOCOL : Z := IPPROTO_TCP.
Definition NODE_PLANE_FETCH_PORTS : list Z := [443].
Definition ALIAS_FETCH_PROTOCOL : Z := IPPROTO_TCP.
Definition RESOLVER_PORT : Z := 53.
Definition RESOLVER_PROTOCOLS : list Z := [6; 17].

(** ** Infrastructure *)

(** [InfrastructureRanges] and [INFRASTRUCTURE_RANGES]. *)
Record InfrastructureRanges : Type := {
  ir_fixed : list Ipv4Cidr;
  ir_plane : Ipv4Cidr;
  ir_rfc1918 : list Ipv4Cidr;
}.
Definition INFRASTRUCTURE_RANGES : outcome InfrastructureRanges :=
  link_local ← const_cidr "169.254.0.0/16"; loopback ← const_cidr "127.0.0.0/8";
  plane ← const_cidr "100.64.0.0/10";
  ten ← const_cidr "10.0.0.0/8"; oneseventwo ← const_cidr "172.16.0.0/12"; oneninetwo ← const_cidr "192.168.0.0/16";
  Done {| ir_fixed := [link_local; loopback]; ir_plane := plane; ir_rfc1918 := [ten; oneseventwo; oneninetwo] |}.

Inductive AliasRow : Type := RowNode | RowCohort | RowBox.
#[global] Instance AliasRow_eq_dec : EqDecision AliasRow.
Proof. solve_decision. Defined.

Record AliasOpenings : Type := {
  ao_row : AliasRow;
  ao_baseline : NodePlaneBaseline;
  ao_table : BoxTable;
  ao_names_host : bool;
}.

(** [names_host_by_name]. *)
Definition names_host_by_name (allow_dns_hosts : list string) : bool :=
  existsb (fun host => bool_decide (to_ascii_lowercase (trim_end_matches "." host) = to_ascii_lowercase HOST_ALIAS_NAME))
    allow_dns_hosts.

(** [AliasOpenings::new] and [AliasOpenings::for_box]. *)
Definition alias_openings_new (row : AliasRow) (b : NodePlaneBaseline) (table : BoxTable) : AliasOpenings :=
  {| ao_row := row; ao_baseline := b; ao_table := table; ao_names_host := true |}.
Definition for_box (b : NodePlaneBaseline) (table : BoxTable) (record : BoxRecord) : AliasOpenings :=
  let alias := host_alias (bt_subnet table) in
  {| ao_row := RowBox; ao_baseline := b; ao_table := table;
     ao_names_host := names_host_by_name (rec_dns_hosts record)
                      || match er_allow_subnets (rec_egress record) with
                         | None => true
                         | Some l => any_contains l alias
                         end |}.

(** [AliasOpenings::listeners]. *)
Definition listeners (a : AliasOpenings) : list Holder :=
  let node := by_source (ao_table a) (daemon_ip (bt_subnet (ao_table a))) in
  minimal_listeners (match node with Some r => rec_admitted_ports r | None => [] end)
    (nb_alias_ports (ao_baseline a)) ALIAS_FETCH_PROTOCOL.

(** The closure [within] of [AliasOpenings::admit]. *)
Definition within (ranges : list (Z * Z)) (port : Z) : bool :=
  existsb (fun r => (fst r <=? port) && (port <=? snd r)) ranges.

(** [AliasOpenings::admit]. *)
Definition alias_admit (x : HostExposures) (a : AliasOpenings) (transport : option (Z * Z)) : HostExposures * bool :=
  match transport with
  | None => (x, false)
  | Some (protocol, port) =>
      if bool_decide (ao_row a = RowNode) && (protocol =? ALIAS_FETCH_PROTOCOL)
         && within (nb_alias_ports (ao_baseline a)) port then (x, true)
      else
        let held := listeners a in
        let '(x, exposures) := current x held in
        if existsb (fun h => holds_port h protocol port) held then (x, false)
        else (x, ao_names_host a && existsb (fun e => exposure_admits e protocol port) exposures)
  end.

(** [alias_transport]. *)
Definition alias_transport (s : FrameSummary) : option (Z * Z) :=
  match fs_proto s with
  | Some protocol =>
      if (protocol =? IPPROTO_TCP) || (protocol =? IPPROTO_UDP) then Some (protocol, fs_dst_port s) else None
  | None => None
  end.

Inductive InfrastructureHit : Type := HitSet | HitHostAlias.

(** [infrastructure_destination]. *)
Definition infrastructure_destination (x : HostExposures) (dst : ip4) (transport : option (Z * Z))
    (own_block : SwitchSubnet) (allow : option (list Ipv4Cidr)) (alias : AliasOpenings)
    : outcome (HostExposures * option InfrastructureHit) :=
  ranges ← INFRASTRUCTURE_RANGES;
  if any_contains (ir_fixed ranges) dst then Done (x, Some HitSet)
  else if bool_decide (dst = host_alias own_block) then
    let '(x, admitted) := alias_admit x alias transport in
    Done (x, if admitted then None else Some HitHostAlias)
  else
    let in_own_block := Z.land (ip4_u32 dst) (ip4_u32 (netmask own_block)) =? ip4_u32 (network own_block) in
    if cidr_contains (ir_plane ranges) dst && negb in_own_block then Done (x, Some HitSet)
    else
      Done (x, if any_contains (ir_rfc1918 ranges) dst
                  && negb (match allow with None => true | Some l => any_contains l dst end)
               then Some HitSet else None).

(** ** Names of boxes *)

(** [canonical_box_name] of crates/minvmd/src/box_registry.rs. *)
Definition canonical_box_name (name : string) : string := to_ascii_lowercase name.

(** [box_zone_entries]. *)
Definition box_zone_entries (allow_dns_hosts : list string) : list string :=
  let suffix := ("." ++ ZONE_APEX)%string in
  List.filter (fun host => (String.length suffix <? String.length host)%nat
                           && bool_decide (is_Some (strip_suffix suffix host))
                           && negb (bool_decide (to_ascii_lowercase host = to_ascii_lowercase HOST_ALIAS_NAME)))
    (map (fun host => to_ascii_lowercase (trim_end_matches "." host)) allow_dns_hosts).

(** [box_name_verdict]. *)
Definition box_name_verdict (table : BoxTable) (record : BoxRecord) (dst : ip4) : option bool :=
  let entries := box_zone_entries (rec_dns_hosts record) in
  if bool_decide (entries = []) || bool_decide (dst = daemon_ip (bt_subnet table)) then None
  else
    match by_source table dst with
    | None => None
    | Some target =>
        if bool_decide (rec_switch_addr target = rec_switch_addr record) then None
        else if bool_decide (is_Some (rec_task_row_of target)) then Some false
        else Some (bool_decide ((canonical_box_name (rec_name target) ++ "." ++ ZONE_APEX)%string ∈ entries))
    end.

(** [BoxTable::is_allocatable]. *)
Definition is_allocatable (table : BoxTable) (src : ip4) : bool :=
  (first_ptask (bt_subnet table) <=? ip4_u32 src) && (ip4_u32 src <=? last_ptask (bt_subnet table)).

(** ** Decisions *)

Inductive GateAdmit : Type := AdmitBaseline | AdmitRow | AdmitProxyLane | AdmitHostIpBox.

Inductive GateDrop : Type :=
| DropVerdict (reason : DropReason)
| UnknownSource (src : ip4)
| UnregisteredSource (src : ip4)
| SwitchControlSurface (src : ip4) (dst_port : Z)
| Infrastructure (src dst : ip4) (dst_port : Z)
| DropHostAlias (src : ip4) (dst_port : Z) (row : AliasRow)
| DropBoxName (src dst : ip4) (dst_port : Z)
| DropProxyLane (src dst : ip4) (dst_port : Z)
| NodePlaneUnpinned (src dst : ip4) (dst_port : Z)
| HostIpUnbounded (src dst : ip4) (dst_port : Z) (resident : nat).

Definition UNKNOWN_SOURCE_RULE : string := "egress-unknown-source".
Definition NODE_PLANE_UNPINNED_RULE : string := "egress-node-plane-unpinned".
Definition SWITCH_CONTROL_RULE : string := "egress-switch-control-surface".
Definition INFRASTRUCTURE_RULE : string := "egress-infrastructure-destination".
Definition HOST_ALIAS_RULE : string := "host-alias".
Definition BOX_NAME_RULE : string := "box-name".
Definition PROXY_LANE_RULE : string := "egress-uncredentialed-proxy-destination".
Definition UNREGISTERED_SOURCE_RULE : string := "egress-unregistered-source".
Definition HOST_IP_BOXES_RULE : string := "egress-host-ip-boxes".

(** [GateDrop::rule]. *)
Definition gate_drop_rule (d : GateDrop) : string :=
  match d with
  | DropVerdict reason => drop_rule reason
  | Infrastructure _ _ _ => INFRASTRUCTURE_RULE
  | DropHostAlias _ _ _ => HOST_ALIAS_RULE
  | DropBoxName _ _ _ => BOX_NAME_RULE
  | UnknownSource _ => UNKNOWN_SOURCE_RULE
  | UnregisteredSource _ => UNREGISTERED_SOURCE_RULE
  | SwitchControlSurface _ _ => SWITCH_CONTROL_RULE
  | DropProxyLane _ _ _ => PROXY_LANE_RULE
  | NodePlaneUnpinned _ _ _ => NODE_PLANE_UNPINNED_RULE
  | HostIpUnbounded _ _ _ _ => HOST_IP_BOXES_RULE
  end.

(** [family_drop]. *)
Definition family_drop (family : FrameFamily) : DropReason :=
  match family with
  | Ipv6 => DropIpv6
  | UndeclaredFamily ethertype => DropUndeclaredFamily ethertype
  | Truncated | Arp | Ipv4 => DropTruncated
  end.

(** The state a decision reads and moves. *)
Record GateState : Type := { gs_pins : DnsPins; gs_replies : ReplyTables; gs_exposures : HostExposures }.
Definition set_gs_pins (g : GateState) (p : DnsPins) : GateState :=
  {| gs_pins := p; gs_replies := gs_replies g; gs_exposures := gs_exposures g |}.
Definition set_gs_replies (g : GateState) (r : ReplyTables) : GateState :=
  {| gs_pins := gs_pins g; gs_replies := r; gs_exposures := gs_exposures g |}.
Definition set_gs_exposures (g : GateState) (x : HostExposures) : GateState :=
  {| gs_pins := gs_pins g; gs_replies := gs_replies g; gs_exposures := x |}.

(** The default of [Option<[u8; 4]>::unwrap_or_default]. *)
Definition no_addr : ip4 := Ip4 0 0 0 0.

(** [matches!(reason, DropReason::UndeclaredSubnet { .. })]. *)
Definition is_undeclared_subnet (reason : DropReason) : bool :=
  match reason with UndeclaredSubnet _ _ => true | _ => false end.

(** The verdict as a result. *)
Definition of_verdict (v : FrameVerdict) (how : GateAdmit) : GateAdmit + GateDrop :=
  match v with Admit => inl how | Drop reason => inr (DropVerdict reason) end.

(** [node_plane_verdict]; [now] is read where the pins are asked. *)
Definition node_plane_verdict (g : GateState) (s : FrameSummary) (l4 : option L4Packet) (table : BoxTable)
    (b : NodePlaneBaseline) (now : Z) : outcome (GateState * (GateAdmit + GateDrop)) :=
  match fs_src s with
  | None => Done (g, inr (DropVerdict (family_drop (fs_family s))))
  | Some src =>
      match fs_dst s with
      | None => Done (g, of_verdict (verdict s (nb_rules b)) AdmitBaseline)
      | Some dst =>
          let dst_port := fs_dst_port s in
          let subnet := bt_subnet table in
          if bool_decide (dst = box_egress_proxy_address subnet) then Done (g, inr (DropProxyLane src dst dst_port))
          else
            r ← infrastructure_destination (gs_exposures g) dst (alias_transport s) subnet
                  (er_allow_subnets (nb_rules b)) (alias_openings_new RowNode b table);
            let '(x, hit) := r : HostExposures * option InfrastructureHit in
            let g := set_gs_exposures g x in
            match hit with
            | Some HitSet => Done (g, inr (Infrastructure src dst dst_port))
            | Some HitHostAlias => Done (g, inr (DropHostAlias src dst_port RowNode))
            | None =>
                if bool_decide (dst = host_alias subnet) then Done (g, inl AdmitBaseline)
                else if bool_decide (dst <> src)
                        && match by_source table dst with
                           | Some record => bool_decide (rec_switch_addr record = dst)
                           | None => false
                           end then Done (g, inl AdmitBaseline)
                else
                  match verdict s (nb_rules b) with
                  | Admit => Done (g, inl AdmitBaseline)
                  | Drop reason =>
                      if negb (is_undeclared_subnet reason) then Done (g, inr (DropVerdict reason))
                      else if bool_decide (fs_proto s = Some NODE_PLANE_FETCH_PROTOCOL)
                              && bool_decide (dst_port ∈ NODE_PLANE_FETCH_PORTS) then
                        r ← admits_node_frame (gs_pins g) table b dst l4 now;
                        let '(p, ok) := r : DnsPins * bool in
                        Done (set_gs_pins g p,
                              if ok then inl AdmitBaseline else inr (NodePlaneUnpinned src dst dst_port))
                      else Done (g, inr (NodePlaneUnpinned src dst dst_port))
                  end
            end
      end
  end.

(** One resident box's part of [host_ip_verdict]: the state, whether its
    check put the destination in the infrastructure set, whether it leaves
    the frame to the pins, and whether it admits it. *)
Definition resident_decides (x : HostExposures) (s : FrameSummary) (table : BoxTable) (openings : AliasOpenings)
    (rules : HostIpBoxRules) : outcome (HostExposures * bool * bool * bool) :=
  r ← match fs_dst s with
      | Some dst => infrastructure_destination x dst (alias_transport s) (bt_subnet table)
                      (er_allow_subnets (hi_egress rules)) openings
      | None => Done (x, None)
      end;
  let '(x, hit) := r : HostExposures * option InfrastructureHit in
  match hit with
  | Some _ => Done (x, true, false, false)
  | None =>
      match verdict s (hi_egress rules) with
      | Admit => Done (x, false, false, true)
      | Drop reason => Done (x, false, is_undeclared_subnet reason && hi_resolves_names rules, false)
      end
  end.

(** The loop over the resident boxes: it ends at the first that admits. *)
Fixpoint residents_loop (x : HostExposures) (s : FrameSummary) (table : BoxTable) (openings : AliasOpenings)
    (infrastructure ask_pins : bool) (resident : list HostIpBoxRules) : outcome (HostExposures * bool * bool * bool) :=
  match resident with
  | [] => Done (x, infrastructure, ask_pins, false)
  | rules :: resident =>
      r ← resident_decides x s table openings rules;
      let '(x, infra, asks, admits) := r : HostExposures * bool * bool * bool in
      if admits : bool then Done (x, infrastructure, ask_pins, true)
      else residents_loop x s table openings (infrastructure || infra) (ask_pins || asks) resident
  end.

(** [resident.iter().all(..)] of the last check. *)
Fixpoint all_infrastructure (x : HostExposures) (dst : ip4) (s : FrameSummary) (table : BoxTable) (openings : AliasOpenings)
    (resident : list HostIpBoxRules) : outcome (HostExposures * bool) :=
  match resident with
  | [] => Done (x, true)
  | rules :: resident =>
      r ← infrastructure_destination x dst (alias_transport s) (bt_subnet table) (er_allow_subnets (hi_egress rules)) openings;
      let '(x, hit) := r : HostExposures * option InfrastructureHit in
      match hit with
      | Some _ => all_infrastructure x dst s table openings resident
      | None => Done (x, false)
      end
  end.

(** [host_ip_verdict]. *)
Definition host_ip_verdict (g : GateState) (s : FrameSummary) (l4 : option L4Packet) (table : BoxTable)
    (b : NodePlaneBaseline) (src : ip4) (now : Z) : outcome (GateState * (GateAdmit + GateDrop)) :=
  let dst := fs_dst s in
  let dst_port := fs_dst_port s in
  let resident := bt_host_ip_boxes table in
  let unbounded (n : nat) := HostIpUnbounded src (default no_addr dst) dst_port n in
  if bool_decide (resident = []) then Done (g, inr (unbounded 0%nat))
  else
    let subnet := bt_subnet table in
    if bool_decide (dst = Some (box_egress_proxy_address subnet)) then
      let declaring := List.filter hi_credentialed_upstream resident in
      let proxy := box_egress_proxy_address subnet in
      if proxy_lane_admits (negb (bool_decide (declaring = []))) (proxy_listener_at proxy) s
      then Done (g, inl AdmitProxyLane) else Done (g, inr (DropProxyLane src proxy dst_port))
    else
      let openings := alias_openings_new RowCohort b table in
      let '(x, alias_refused) :=
        if bool_decide (dst = Some (host_alias subnet)) then
          let '(x, admitted) := alias_admit (gs_exposures g) openings (alias_transport s) in (x, negb admitted)
        else (gs_exposures g, false) in
      let g := set_gs_exposures g x in
      if alias_refused : bool then Done (g, inr (DropHostAlias src dst_port RowCohort))
      else
        r ← residents_loop (gs_exposures g) s table openings false false resident;
        let '(x, infrastructure, ask_pins, admits) := r : HostExposures * bool * bool * bool in
        let g := set_gs_exposures g x in
        if admits : bool then Done (g, inl AdmitHostIpBox)
        else
          r ← (if ask_pins : bool then admits_host_ip_frame (gs_pins g) table (default no_addr dst) l4 now
               else Done (gs_pins g, false));
          let '(p, ok) := r : DnsPins * bool in
          let g := set_gs_pins g p in
          if ok : bool then Done (g, inl AdmitHostIpBox)
          else
            r ← match (if infrastructure : bool then dst else None) with
                | Some dst => all_infrastructure (gs_exposures g) dst s table openings resident
                | None => Done (gs_exposures g, false)
                end;
            let '(x, all_) := r : HostExposures * bool in
            let g := set_gs_exposures g x in
            Done (g, inr (if all_ : bool then Infrastructure src (default no_addr dst) dst_port
                          else unbounded (length resident))).

(** The last arms of [row_verdict]: a frame the row's rules refuse. *)
Definition row_refused (g : GateState) (s : FrameSummary) (table : BoxTable) (record : BoxRecord) (row : AliasRow)
    (src : ip4) (reason : DropReason) : GateState * (GateAdmit + GateDrop) :=
  if is_undeclared_subnet reason && bool_decide (row = RowBox)
     && bool_decide (fs_dst s = Some (host_alias (bt_subnet table))) && names_host_by_name (rec_dns_hosts record)
  then (g, inl AdmitRow)
  else
    match (if is_undeclared_subnet reason && bool_decide (row = RowBox) then fs_dst s else None) with
    | None => (g, inr (DropVerdict reason))
    | Some dst =>
        match box_name_verdict table record dst with
        | None => (g, inr (DropVerdict reason))
        | Some true => (g, inl AdmitRow)
        | Some false => (g, inr (DropBoxName src dst (fs_dst_port s)))
        end
    end.

(** [row_verdict] past the source's row: the proxy lane, the row's rules,
    the pins and the names. *)
Definition row_rules (g : GateState) (s : FrameSummary) (l4 : option L4Packet) (table : BoxTable) (record : BoxRecord)
    (row : AliasRow) (src : ip4) (now : Z) : outcome (GateState * (GateAdmit + GateDrop)) :=
  let proxy := box_egress_proxy_address (bt_subnet table) in
  if bool_decide (fs_dst s = Some proxy) then
    if proxy_lane_admits (rec_credentialed_upstream record) (proxy_listener_at proxy) s
    then Done (g, inl AdmitProxyLane) else Done (g, inr (DropProxyLane src proxy (fs_dst_port s)))
  else
    match verdict s (rec_egress record) with
    | Admit => Done (g, inl AdmitRow)
    | Drop reason =>
        if is_undeclared_subnet reason && rec_resolves_names record then
          r ← admits_frame (gs_pins g) record (default no_addr (fs_dst s)) l4 now;
          let '(p, ok) := r : DnsPins * bool in
          let g := set_gs_pins g p in
          if ok : bool then Done (g, inl AdmitRow) else Done (row_refused g s table record row src reason)
        else Done (row_refused g s table record row src reason)
    end.

(** [row_verdict]. *)
Definition row_verdict (g : GateState) (s : FrameSummary) (l4 : option L4Packet) (table : BoxTable)
    (b : NodePlaneBaseline) (src : ip4) (now : Z) : outcome (GateState * (GateAdmit + GateDrop)) :=
  match by_source table src with
  | None => Done (g, inr (if is_allocatable table src then UnregisteredSource src else UnknownSource src))
  | Some record =>
      let row := if bool_decide (src = daemon_ip (bt_subnet table)) then RowCohort else RowBox in
      let openings := match row with RowBox => for_box b table record | _ => alias_openings_new row b table end in
      r ← match fs_dst s with
          | Some dst => infrastructure_destination (gs_exposures g) dst (alias_transport s) (bt_subnet table)
                          (er_allow_subnets (rec_egress record)) openings
          | None => Done (gs_exposures g, None)
          end;
      let '(x, hit) := r : HostExposures * option InfrastructureHit in
      let g := set_gs_exposures g x in
      match hit with
      | Some HitSet => Done (g, inr (Infrastructure src (default no_addr (fs_dst s)) (fs_dst_port s)))
      | Some HitHostAlias => Done (g, inr (DropHostAlias src (fs_dst_port s) row))
      | None => row_rules g s l4 table record row src now
      end
  end.

(** The first check of [gate_verdict]: whether the frame answers a flow or
    refuses a connect the gate delivered. *)
Definition answers (g : GateState) (s : FrameSummary) (l4 : option L4Packet) (table : BoxTable) (src : ip4) (now now' : Z)
    : outcome (GateState * bool) :=
  match l4 with
  | None => Done (g, false)
  | Some pkt =>
      if bool_decide (fs_dst s = Some (box_egress_proxy_address (bt_subnet table))) then Done (g, false)
      else
        match by_source table src with
        | None => Done (g, false)
        | Some record =>
            r ← box_reply_admits (gs_replies g) record pkt now;
            let '(t, ok) := r : ReplyTables * bool in
            if ok : bool then Done (set_gs_replies g t, true)
            else let '(t, ok) := refusal_admits t record pkt now' in Done (set_gs_replies g t, ok)
        end
  end.

(** [gate_verdict]. *)
Definition gate_verdict (g : GateState) (s : FrameSummary) (l4 : option L4Packet) (table : BoxTable)
    (b : NodePlaneBaseline) (clock : nat -> Z) : outcome (GateState * (GateAdmit + GateDrop)) :=
  match fs_src s with
  | None => Done (g, inr (DropVerdict (family_drop (fs_family s))))
  | Some src =>
      r ← answers g s l4 table src (clock 0%nat) (clock 1%nat);
      let '(g, answered) := r : GateState * bool in
      if answered : bool then Done (g, inl AdmitRow)
      else
        let resolver_query := match fs_proto s with Some p => bool_decide (p ∈ RESOLVER_PROTOCOLS) | None => false end
                              && (fs_dst_port s =? RESOLVER_PORT) in
        if bool_decide (fs_dst s = Some (table_gateway table)) && negb resolver_query then
          Done (g, inr (SwitchControlSurface src (fs_dst_port s)))
        else if bool_decide (nb_phase b = InForce) && bool_decide (src = nb_node_addr b) then
          if box_cohort_marked s then host_ip_verdict g s l4 table b src (clock 2%nat)
          else node_plane_verdict g s l4 table b (clock 2%nat)
        else row_verdict g s l4 table b src (clock 2%nat)
  end.
