(* ===== verification/HostGateProps.v ===== *)
(** * What the host's gate lets out (crates/minvmd/src/net/egress_gate.rs)

    The decision never panics; a box's row admits exactly what its
    declaration permits; and whoever speaks, no frame but an answer reaches
    the switch's own surfaces, the host's ranges or the proxy outside what is
    declared for its source. *)

From stdpp Require Import base list gmap strings numbers.
From Stdlib Require Import ZArith Lia.
From S2P Require Import Prelude Text Egress Ingress Rebinding ReplyFlows DropLimiter Switch L4 Baseline ZoneAnswer DnsPins DnsPinsProps HostExposures ReplyTables HostGate.
Open Scope Z_scope.

(** ** Ranges *)

Definition cidr (a b c d prefix : Z) : Ipv4Cidr := {| cidr_addr := Ip4 a b c d; cidr_prefix := prefix |}.
Definition own_ranges : InfrastructureRanges :=
  {| ir_fixed := [cidr 169 254 0 0 16; cidr 127 0 0 0 8]; ir_plane := cidr 100 64 0 0 10;
     ir_rfc1918 := [cidr 10 0 0 0 8; cidr 172 16 0 0 12; cidr 192 168 0 0 16] |}.

Lemma ranges_parse : INFRASTRUCTURE_RANGES = Done own_ranges.
Proof. vm_compute. reflexivity. Qed.

Definition in_own_block (sn : SwitchSubnet) (dst : ip4) : bool :=
  Z.land (ip4_u32 dst) (ip4_u32 (netmask sn)) =? ip4_u32 (network sn).

(** A destination the infrastructure set leaves open: no loopback or
    link-local address, the alias where an opening of it answers, an address
    of the plane only in the switch's own block, and a private one only where
    the allowed subnets cover it. *)
Definition clear_of (x : HostExposures) (dst : ip4) (transport : option (Z * Z)) (sn : SwitchSubnet)
    (allow : option (list Ipv4Cidr)) (alias : AliasOpenings) : Prop :=
  any_contains (ir_fixed own_ranges) dst = false /\
  if decide (dst = host_alias sn) then (alias_admit x alias transport).2 = true
  else (cidr_contains (ir_plane own_ranges) dst = true -> in_own_block sn dst = true) /\
       (any_contains (ir_rfc1918 own_ranges) dst = true ->
        match allow with None => True | Some l => any_contains l dst = true end).

Lemma infrastructure_spec x dst transport sn allow alias :
  exists x' hit, infrastructure_destination x dst transport sn allow alias = Done (x', hit) /\
    (hit = None <-> clear_of x dst transport sn allow alias).
Proof.
  unfold infrastructure_destination, clear_of. rewrite ranges_parse, bind_Done.
  destruct (any_contains (ir_fixed own_ranges) dst); [eexists _, _; naive_solver|].
  destruct (decide (dst = host_alias sn)) as [->|Hne].
  - rewrite bool_decide_eq_true_2 by done. destruct (alias_admit x alias transport) as [x' []]; eexists _, _; naive_solver.
  - rewrite bool_decide_eq_false_2 by done. fold (in_own_block sn dst).
    destruct (cidr_contains (ir_plane own_ranges) dst && negb (in_own_block sn dst)) eqn:Hp.
    { apply andb_true_iff in Hp as [Hp Ho%negb_true_iff]. eexists _, _. split; [done|]. split; [done|].
      intros (_ & H & _). specialize (H Hp). congruence. }
    assert (cidr_contains (ir_plane own_ranges) dst = true -> in_own_block sn dst = true).
    { intros E. rewrite E in Hp. by apply negb_false_iff in Hp. }
    eexists _, _. split; [done|]. destruct (any_contains (ir_rfc1918 own_ranges) dst); cbn [andb]; [|done].
    destruct allow as [l|]; cbn [negb]; [|done]. destruct (any_contains l dst); cbn [negb]; naive_solver.
Qed.

(** ** The parts never panic *)

Lemma built_total record subnet grant : exists e, box_pins_built record subnet grant = Done e.
Proof. unfold box_pins_built. rewrite deny_set_new_value. by eexists. Qed.

Lemma entry_total d record : exists d' e, entry d record = Done (d', e).
Proof.
  unfold entry. destruct (built_total record (dp_subnet d) (node_plane_of d record)) as [e He].
  rewrite He, !bind_Done. destruct (_ && _); [by eexists _, _|]. destruct (bool_decide _); [by eexists _, _|].
  destruct (dp_boxes d !! _) as [e'|]; [destruct (_ && _)|]; by eexists _, _.
Qed.

Lemma host_ip_entry_total d table : exists d' e, host_ip_entry d table = Done (d', e).
Proof.
  unfold host_ip_entry. destruct (bt_host_ip_cohort table) as [record|]; [|by eexists _, _].
  destruct (built_total record (dp_subnet d) None) as [e He]. rewrite He, !bind_Done.
  destruct (bool_decide _); [by eexists _, _|].
  destruct (dp_host_ip d) as [e'|]; [destruct (ptr_eq _ _)|]; by eexists _, _.
Qed.

Lemma admits_frame_total d record dst pkt now : exists d' ok, admits_frame d record dst pkt now = Done (d', ok).
Proof.
  unfold admits_frame. destruct (entry_total d record) as (d' & e & ->). rewrite bind_Done.
  destruct e as [e|]; [|by eexists _, _]. destruct (admits _ dst pkt now). by eexists _, _.
Qed.

Lemma admits_node_total d table b dst pkt now : exists d' ok, admits_node_frame d table b dst pkt now = Done (d', ok).
Proof. unfold admits_node_frame. destruct (by_source _ _); [apply admits_frame_total|by eexists _, _]. Qed.

Lemma admits_host_ip_total d table dst pkt now : exists d' ok, admits_host_ip_frame d table dst pkt now = Done (d', ok).
Proof.
  unfold admits_host_ip_frame. destruct (host_ip_entry_total d table) as (d' & e & ->). rewrite bind_Done.
  destruct e as [e|]; [|by eexists _, _]. destruct (admits _ dst pkt now). by eexists _, _.
Qed.

Lemma reply_lookup_total t record pkt now : exists t' ok, box_reply_admits t record pkt now = Done (t', ok).
Proof.
  unfold box_reply_admits. destruct (t !! _) as [e|]; [|by eexists _, _]. destruct (negb _); [by eexists _, _|].
  pose proof (reply_admits_shrinks (br_flows e) (reply_tuple_of pkt) (l4_tcp_flags pkt) now) as Hs. cbv zeta.
  destruct (reply_admits _ _ _ _) as [flows ok]. cbn [fst] in Hs. rewrite usize_sub_le by done. by eexists _, _.
Qed.

(** ** Box rows *)

Definition lane_open (declared : bool) (proxy : ip4) (s : FrameSummary) : Prop :=
  declared = true /\ fs_proto s = Some IPPROTO_TCP /\
  (fs_dst_port s = PROXY_LISTENER_PORT \/ fs_dst_port s = PROXY_DIRECT_TLS_PORT).

Lemma lane_open_iff declared proxy s :
  fs_dst s = Some proxy -> proxy_lane_admits declared (proxy_listener_at proxy) s = true <-> lane_open declared proxy s.
Proof.
  intros Hd. unfold proxy_lane_admits, lane_open, proxy_listener_at. cbn [pl_addr pl_proto pl_port].
  rewrite !andb_true_iff, orb_true_iff, !bool_decide_eq_true, !Z.eqb_eq. tauto.
Qed.

(** The address of another box that the row names: not the daemon's, not
    the row's own, not a task's. *)
Definition names_box (table : BoxTable) (record : BoxRecord) (dst : ip4) : Prop :=
  dst <> daemon_ip (bt_subnet table) /\
  exists target, by_source table dst = Some target /\ rec_switch_addr target <> rec_switch_addr record /\
    rec_task_row_of target = None /\
    (canonical_box_name (rec_name target) ++ "." ++ ZONE_APEX)%string ∈ box_zone_entries (rec_dns_hosts record).

Lemma names_box_iff table record dst : box_name_verdict table record dst = Some true <-> names_box table record dst.
Proof.
  unfold box_name_verdict, names_box. cbv zeta.
  destruct (decide (box_zone_entries (rec_dns_hosts record) = [])) as [He|He].
  { rewrite bool_decide_eq_true_2 by done. split; [done|]. intros (_ & target & _ & _ & _ & Hin). rewrite He in Hin. set_solver. }
  rewrite (bool_decide_eq_false_2 _ He). cbn [orb]. case_bool_decide as Hd; [naive_solver|].
  destruct (by_source table dst) as [target|]; [|naive_solver].
  case_bool_decide as Ha; [naive_solver|]. destruct (rec_task_row_of target) as [t|] eqn:Ht.
  - rewrite bool_decide_eq_true_2 by eauto. naive_solver.
  - rewrite bool_decide_eq_false_2 by (intros []; congruence). split.
    + intros [= Hin%bool_decide_eq_true]. eauto 10.
    + intros (_ & t' & [= <-] & _ & _ & Hin). by rewrite bool_decide_eq_true_2.
Qed.

(** The frame's only fault is a destination outside the allowed subnets. *)
Definition only_undeclared (s : FrameSummary) (rules : EgressRules) : Prop :=
  exists dst proto, verdict s rules = Drop (UndeclaredSubnet dst proto).

(** What a row permits: the lane where it declares one, and elsewhere what
    its rules admit, what its names were answered, the alias it names and the
    boxes it names. *)
Definition row_permits (g : GateState) (s : FrameSummary) (l4 : option L4Packet) (table : BoxTable) (record : BoxRecord)
    (row : AliasRow) (now : Z) : Prop :=
  let proxy := box_egress_proxy_address (bt_subnet table) in
  if decide (fs_dst s = Some proxy) then lane_open (rec_credentialed_upstream record) proxy s
  else verdict s (rec_egress record) = Admit \/
    only_undeclared s (rec_egress record) /\
    ((rec_resolves_names record = true /\
      exists d', admits_frame (gs_pins g) record (default no_addr (fs_dst s)) l4 now = Done (d', true)) \/
     (row = RowBox /\ fs_dst s = Some (host_alias (bt_subnet table)) /\ names_host_by_name (rec_dns_hosts record) = true) \/
     (row = RowBox /\ exists dst, fs_dst s = Some dst /\ names_box table record dst)).

Lemma row_refused_iff g s table record row src reason how :
  (row_refused g s table record row src reason).2 = inl how <->
  how = AdmitRow /\ is_undeclared_subnet reason = true /\ row = RowBox /\
  ((fs_dst s = Some (host_alias (bt_subnet table)) /\ names_host_by_name (rec_dns_hosts record) = true) \/
   exists dst, fs_dst s = Some dst /\ names_box table record dst).
Proof.
  unfold row_refused. destruct (is_undeclared_subnet reason); cbn [andb]; [|naive_solver].
  case_bool_decide as Hrow; cbn [andb]; [|naive_solver].
  destruct (bool_decide (fs_dst s = _) && _) eqn:Ha.
  { apply andb_true_iff in Ha as [Ha%bool_decide_eq_true Hn]. naive_solver. }
  apply andb_false_iff in Ha. rewrite bool_decide_eq_false in Ha.
  destruct (fs_dst s) as [dst|]; [|naive_solver].
  pose proof (names_box_iff table record dst) as Hp. destruct (box_name_verdict table record dst) as [[]|]; cbn [snd].
  - assert (names_box table record dst) by by apply Hp. naive_solver.
  - assert (~ names_box table record dst) by (intros ?%Hp; done). split; [done|].
    intros (_ & _ & _ & [[? ?]|(? & [= <-] & ?)]); [destruct Ha; congruence|done].
  - assert (~ names_box table record dst) by (intros ?%Hp; done). split; [done|].
    intros (_ & _ & _ & [[? ?]|(? & [= <-] & ?)]); [destruct Ha; congruence|done].
Qed.

Lemma undeclared_reason s rules reason :
  verdict s rules = Drop reason -> is_undeclared_subnet reason = true <-> only_undeclared s rules.
Proof. intros Hv. unfold only_undeclared. rewrite Hv. destruct reason; naive_solver. Qed.

Lemma row_rules_exact g s l4 table record row src now :
  exists g' d, row_rules g s l4 table record row src now = Done (g', d) /\
    ((exists how, d = inl how) <-> row_permits g s l4 table record row now).
Proof.
  unfold row_rules, row_permits. cbv zeta. set (proxy := box_egress_proxy_address (bt_subnet table)).
  destruct (decide (fs_dst s = Some proxy)) as [Hp|Hp].
  { rewrite bool_decide_eq_true_2 by done. pose proof (lane_open_iff (rec_credentialed_upstream record) proxy s Hp) as Hl.
    destruct (proxy_lane_admits _ _ _); eexists _, _; (split; [done|]; rewrite <- Hl; naive_solver). }
  rewrite bool_decide_eq_false_2 by done. destruct (verdict s (rec_egress record)) as [|reason] eqn:Hv; [eexists _, _; naive_solver|].
  pose proof (undeclared_reason _ _ _ Hv) as Hu.
  assert (Hrest : forall g, (exists how, (row_refused g s table record row src reason).2 = inl how) <->
            only_undeclared s (rec_egress record) /\
            ((row = RowBox /\ fs_dst s = Some (host_alias (bt_subnet table)) /\ names_host_by_name (rec_dns_hosts record) = true) \/
             (row = RowBox /\ exists dst, fs_dst s = Some dst /\ names_box table record dst))).
  { intros g0. setoid_rewrite row_refused_iff. rewrite <- Hu. naive_solver. }
  destruct (is_undeclared_subnet reason && rec_resolves_names record) eqn:Hr.
  - apply andb_true_iff in Hr as [Hr Hn].
    destruct (admits_frame_total (gs_pins g) record (default no_addr (fs_dst s)) l4 now) as (d' & ok & Ha).
    rewrite Ha, bind_Done. destruct ok; [eexists _, _; split; [done|]; apply Hu in Hr; split; eauto 8|].
    specialize (Hrest (set_gs_pins g d')). destruct (row_refused _ s table record row src reason) as [g' d] eqn:E. cbn [snd] in Hrest.
    eexists _, _. split; [done|]. rewrite Hrest. split; [tauto|]. intros [?|(? & [(_ & ? & ?)|?])]; [done|congruence|tauto].
  - specialize (Hrest g). destruct (row_refused g s table record row src reason) as [g' d] eqn:E. cbn [snd] in Hrest.
    eexists _, _. split; [done|]. rewrite Hrest. apply andb_false_iff in Hr. split; [tauto|].
    intros [?|(HU & [(? & _)|?])]; [done| |tauto]. apply Hu in HU. destruct Hr; congruence.
Qed.

(** ** The gate *)

(** A frame that answers a conversation, or refuses a connect, the gate
    delivered to the source's row; never one to the proxy. *)
Definition answered (g : GateState) (s : FrameSummary) (l4 : option L4Packet) (table : BoxTable) (src : ip4)
    (clock : nat -> Z) : Prop :=
  fs_dst s <> Some (box_egress_proxy_address (bt_subnet table)) /\
  exists pkt record t ok, l4 = Some pkt /\ by_source table src = Some record /\
    box_reply_admits (gs_replies g) record pkt (clock 0%nat) = Done (t, ok) /\
    (ok = true \/ (refusal_admits t record pkt (clock 1%nat)).2 = true).

Lemma answers_spec g s l4 table src clock :
  exists g' ok, answers g s l4 table src (clock 0%nat) (clock 1%nat) = Done (g', ok) /\
    gs_pins g' = gs_pins g /\ gs_exposures g' = gs_exposures g /\ (ok = true <-> answered g s l4 table src clock).
Proof.
  unfold answers, answered. destruct l4 as [pkt|]; [|eexists _, _; naive_solver].
  case_bool_decide as Hp; [eexists _, _; naive_solver|].
  destruct (by_source table src) as [record|]; [|eexists _, _; naive_solver].
  destruct (reply_lookup_total (gs_replies g) record pkt (clock 0%nat)) as (t & ok & Ht). rewrite Ht, bind_Done.
  destruct ok; [eexists _, _; do 3 (split; [done|]); split; [|done]; intros _; split; [done|]; eauto 10|].
  destruct (refusal_admits t record pkt (clock 1%nat)) as [t' ok] eqn:Hr. eexists _, _. do 3 (split; [done|]). split.
  - intros ->. split; [done|]. exists pkt, record, t, false. by rewrite Hr; auto.
  - intros (_ & pkt' & record' & t2 & ok2 & [= <-] & [= <-] & E & Hor). rewrite Ht in E. injection E as <- <-.
    destruct Hor as [?|Hor]; [done|]. by rewrite Hr in Hor.
Qed.

(** A query of the switch's resolver. *)
Definition resolver_query (s : FrameSummary) : Prop :=
  (fs_proto s = Some IPPROTO_TCP \/ fs_proto s = Some IPPROTO_UDP) /\ fs_dst_port s = RESOLVER_PORT.

Lemma resolver_query_iff s :
  match fs_proto s with Some p => bool_decide (p ∈ RESOLVER_PROTOCOLS) | None => false end
  && (fs_dst_port s =? RESOLVER_PORT) = true <-> resolver_query s.
Proof.
  unfold resolver_query. rewrite andb_true_iff, Z.eqb_eq. destruct (fs_proto s) as [p|]; [|naive_solver].
  rewrite bool_decide_eq_true. unfold RESOLVER_PROTOCOLS, IPPROTO_TCP, IPPROTO_UDP. set_solver.
Qed.

Definition is_node (b : NodePlaneBaseline) (src : ip4) : Prop := nb_phase b = InForce /\ src = nb_node_addr b.

(** The decision, past the answers. *)
Lemma gate_verdict_cases g s l4 table b clock src :
  fs_src s = Some src ->
  exists g1, gs_pins g1 = gs_pins g /\ gs_exposures g1 = gs_exposures g /\
    ((answered g s l4 table src clock /\ gate_verdict g s l4 table b clock = Done (g1, inl AdmitRow)) \/
     (~ answered g s l4 table src clock /\
      ((fs_dst s = Some (table_gateway table) /\ ~ resolver_query s /\
        gate_verdict g s l4 table b clock = Done (g1, inr (SwitchControlSurface src (fs_dst_port s)))) \/
       ((fs_dst s = Some (table_gateway table) -> resolver_query s) /\
        gate_verdict g s l4 table b clock =
          if decide (is_node b src) then
            if box_cohort_marked s then host_ip_verdict g1 s l4 table b src (clock 2%nat)
            else node_plane_verdict g1 s l4 table b (clock 2%nat)
          else row_verdict g1 s l4 table b src (clock 2%nat))))).
Proof.
  intros Hs. destruct (answers_spec g s l4 table src clock) as (g1 & ok & Ha & Hp & Hx & Hok). exists g1.
  split; [done|]. split; [done|]. unfold gate_verdict. rewrite Hs, Ha, bind_Done. destruct ok.
  { left. split; [by apply Hok|done]. }
  right. split; [by intros ?%Hok|]. pose proof (resolver_query_iff s) as Hq. cbv zeta.
  destruct (match fs_proto s with Some p => _ | None => _ end && _) eqn:Eq.
  - right. split; [by intros _; apply Hq|]. rewrite andb_false_r. destruct (decide (is_node b src)) as [[Hi Hn]|Hn].
    + by rewrite !bool_decide_eq_true_2.
    + destruct (bool_decide (nb_phase b = InForce) && _) eqn:E; [|done].
      apply andb_true_iff in E as [?%bool_decide_eq_true ?%bool_decide_eq_true]. by destruct Hn.
  - case_bool_decide as Hg; cbn [andb negb].
    + left. split; [done|]. split; [|done]. by rewrite <- Hq.
    + right. split; [done|]. destruct (decide (is_node b src)) as [[Hi Hn]|Hn].
      * by rewrite !bool_decide_eq_true_2.
      * destruct (bool_decide (nb_phase b = InForce) && _) eqn:E; [|done].
        apply andb_true_iff in E as [?%bool_decide_eq_true ?%bool_decide_eq_true]. by destruct Hn.
Qed.

(** The openings of the alias a row speaks with. *)
Definition row_kind (table : BoxTable) (src : ip4) : AliasRow :=
  if bool_decide (src = daemon_ip (bt_subnet table)) then RowCohort else RowBox.
Definition row_openings (b : NodePlaneBaseline) (table : BoxTable) (record : BoxRecord) (src : ip4) : AliasOpenings :=
  match row_kind table src with RowBox => for_box b table record | _ => alias_openings_new (row_kind table src) b table end.

(** The destination, where the frame has one, is left open. *)
Definition clear_frame (x : HostExposures) (s : FrameSummary) (table : BoxTable) (rules : EgressRules)
    (openings : AliasOpenings) : Prop :=
  forall dst, fs_dst s = Some dst ->
    clear_of x dst (alias_transport s) (bt_subnet table) (er_allow_subnets rules) openings.

Lemma row_verdict_exact g s l4 table b src record now :
  by_source table src = Some record ->
  exists g' d, row_verdict g s l4 table b src now = Done (g', d) /\
    ((exists how, d = inl how) <->
     clear_frame (gs_exposures g) s table (rec_egress record) (row_openings b table record src) /\
     row_permits g s l4 table record (row_kind table src) now).
Proof.
  intros Hr. unfold row_verdict. rewrite Hr. cbv zeta. fold (row_kind table src). fold (row_openings b table record src).
  unfold clear_frame. destruct (fs_dst s) as [dst|] eqn:Hd.
  - destruct (infrastructure_spec (gs_exposures g) dst (alias_transport s) (bt_subnet table)
                (er_allow_subnets (rec_egress record)) (row_openings b table record src)) as (x & hit & Hi & Hh).
    rewrite Hi, bind_Done. destruct hit as [[]|].
    1, 2: eexists _, _; split; [done|]; split; [by intros []|]; intros [Hc _]; specialize (Hc dst eq_refl); by apply Hh in Hc.
    destruct (row_rules_exact (set_gs_exposures g x) s l4 table record (row_kind table src) src now) as (g' & d & Hrr & Hd').
    eexists _, _. split; [exact Hrr|]. rewrite Hd'. split; [|by intros [_ ?]]. intros Hp. split; [|done].
    intros dst' [= <-]. by apply Hh.
  - rewrite bind_Done. destruct (row_rules_exact (set_gs_exposures g (gs_exposures g)) s l4 table record (row_kind table src) src now)
      as (g' & d & Hrr & Hd').
    eexists _, _. split; [exact Hrr|]. rewrite Hd'. split; [|by intros [_ ?]]. intros Hp. by split.
Qed.

(** C9: a published row's frame, whatever state the gate is in: the decision is
    made, and the frame leaves exactly when it answers a conversation the
    gate delivered, or is no frame to the switch's own address but a resolver
    query, goes where the infrastructure set leaves open, and is one the row
    permits: the proxy's listener on a declared lane, what the rules admit,
    an address a declared name was answered with, the host by its name, or
    another box by its name. *)
Theorem row_admits_exact g s l4 table b clock src record :
  fs_src s = Some src -> by_source table src = Some record -> ~ is_node b src ->
  exists g' d, gate_verdict g s l4 table b clock = Done (g', d) /\
    ((exists how, d = inl how) <->
     answered g s l4 table src clock \/
     ((fs_dst s = Some (table_gateway table) -> resolver_query s) /\
      clear_frame (gs_exposures g) s table (rec_egress record) (row_openings b table record src) /\
      row_permits g s l4 table record (row_kind table src) (clock 2%nat))).
Proof.
  intros Hs Hr Hn. destruct (gate_verdict_cases g s l4 table b clock src Hs) as (g1 & Hp & Hx & Hc).
  destruct Hc as [(Ha & ->)|(Ha & [(Hg & Hq & ->)|(Hg & ->)])].
  - eexists _, _. split; [done|]. split; eauto.
  - eexists _, _. split; [done|]. split; [by intros []|]. intros [?|(H & _)]; [done|]. by apply H in Hg.
  - rewrite decide_False by done. destruct (row_verdict_exact g1 s l4 table b src record (clock 2%nat) Hr) as (g' & d & -> & Hd).
    eexists _, _. split; [done|]. rewrite Hd, Hx. unfold row_permits. rewrite Hp. tauto.
Qed.

(** ** Confinement *)

(** Whose openings and rules a frame is held to. *)
Inductive speaker (table : BoxTable) (b : NodePlaneBaseline) (s : FrameSummary) (src : ip4)
    : AliasOpenings -> EgressRules -> Prop :=
| speaker_row record :
    ~ is_node b src -> by_source table src = Some record ->
    speaker table b s src (row_openings b table record src) (rec_egress record)
| speaker_node :
    is_node b src -> box_cohort_marked s = false -> speaker table b s src (alias_openings_new RowNode b table) (nb_rules b)
| speaker_resident rules :
    is_node b src -> box_cohort_marked s = true -> rules ∈ bt_host_ip_boxes table ->
    speaker table b s src (alias_openings_new RowCohort b table) (hi_egress rules).

(** The declaration of a credentialed lane. *)
Definition lane_declared (table : BoxTable) (b : NodePlaneBaseline) (s : FrameSummary) (src : ip4) : Prop :=
  (exists record, ~ is_node b src /\ by_source table src = Some record /\ rec_credentialed_upstream record = true) \/
  (exists rules, is_node b src /\ box_cohort_marked s = true /\ rules ∈ bt_host_ip_boxes table /\
                 hi_credentialed_upstream rules = true).

(** What a speaker's rules let out: what they admit, or a frame whose only
    fault is its undeclared destination; and, of the node plane's own frames,
    those to the alias and to a published row. *)
Definition let_out (table : BoxTable) (s : FrameSummary) (src : ip4) (openings : AliasOpenings) (rules : EgressRules) : Prop :=
  verdict s rules = Admit \/ only_undeclared s rules \/
  (ao_row openings = RowNode /\ exists dst, fs_dst s = Some dst /\
     (dst = host_alias (bt_subnet table) \/ (dst <> src /\ is_Some (by_source table dst)))).

Definition confined (table : BoxTable) (b : NodePlaneBaseline) (s : FrameSummary) (src : ip4) : Prop :=
  let proxy := box_egress_proxy_address (bt_subnet table) in
  if decide (fs_dst s = Some proxy) then lane_declared table b s src /\ lane_open true proxy s
  else exists openings rules, speaker table b s src openings rules /\ let_out table s src openings rules /\
         forall dst, fs_dst s = Some dst ->
           exists x, clear_of x dst (alias_transport s) (bt_subnet table) (er_allow_subnets rules) openings.

(** A resident box whose check admits the frame or leaves it to the pins. *)
Definition resident_lets (s : FrameSummary) (table : BoxTable) (openings : AliasOpenings) (rules : HostIpBoxRules) : Prop :=
  (verdict s (hi_egress rules) = Admit \/ only_undeclared s (hi_egress rules)) /\
  forall dst, fs_dst s = Some dst ->
    exists x, clear_of x dst (alias_transport s) (bt_subnet table) (er_allow_subnets (hi_egress rules)) openings.

Lemma resident_spec x s table openings rules :
  exists x' infra asks admits, resident_decides x s table openings rules = Done (x', infra, asks, admits) /\
    (admits = true \/ asks = true -> resident_lets s table openings rules).
Proof.
  unfold resident_decides, resident_lets.
  assert (exists x' hit, match fs_dst s with
            | Some dst => infrastructure_destination x dst (alias_transport s) (bt_subnet table) (er_allow_subnets (hi_egress rules)) openings
            | None => Done (x, None)
            end = Done (x', hit) /\
            (hit = None -> forall dst, fs_dst s = Some dst ->
               clear_of x dst (alias_transport s) (bt_subnet table) (er_allow_subnets (hi_egress rules)) openings)) as (x' & hit & -> & Hc).
  { destruct (fs_dst s) as [dst|]; [|by eexists _, _].
    destruct (infrastructure_spec x dst (alias_transport s) (bt_subnet table) (er_allow_subnets (hi_egress rules)) openings)
      as (x' & hit & Hi & Hh). exists x', hit. split; [done|]. intros E dst' [= <-]. by apply Hh. }
  rewrite bind_Done. destruct hit as [h|]; [eexists _, _, _, _; split; [done|]; naive_solver|].
  destruct (verdict s (hi_egress rules)) as [|reason] eqn:Hv; eexists _, _, _, _; (split; [done|]).
  - intros _. split; [by left|]. intros dst Hd. exists x. by apply Hc.
  - intros [?|Ha]; [done|]. apply andb_true_iff in Ha as [Ha _]. split; [right; by apply (undeclared_reason _ _ reason)|].
    intros dst Hd. exists x. by apply Hc.
Qed.

Lemma residents_spec x s table openings infra asks resident :
  exists x' infra' asks' admits, residents_loop x s table openings infra asks resident = Done (x', infra', asks', admits) /\
    (admits = true -> exists rules, rules ∈ resident /\ resident_lets s table openings rules) /\
    (asks' = true -> asks = true \/ exists rules, rules ∈ resident /\ resident_lets s table openings rules).
Proof.
  revert x infra asks. induction resident as [|rules resident IH]; intros x infra asks; cbn [residents_loop].
  { eexists _, _, _, _. split; [done|]. split; [done|tauto]. }
  destruct (resident_spec x s table openings rules) as (x1 & i1 & a1 & ad & -> & Hl). rewrite bind_Done. destruct ad.
  - eexists _, _, _, _. split; [done|]. split; [|tauto]. intros _. exists rules. split; [set_solver|auto].
  - destruct (IH x1 (infra || i1) (asks || a1)) as (x' & i' & a' & ad' & -> & Had & Has). eexists _, _, _, _. split; [done|]. split.
    + intros (r & Hr & Hlr)%Had. exists r. split; [set_solver|done].
    + intros [Ho|(r & Hr & Hlr)]%Has.
      * apply orb_true_iff in Ho as [?|?]; [by left|]. right. exists rules. split; [set_solver|auto].
      * right. exists r. split; [set_solver|done].
Qed.

Lemma all_infrastructure_total x dst s table openings resident :
  exists x' ok, all_infrastructure x dst s table openings resident = Done (x', ok).
Proof.
  revert x. induction resident as [|rules resident IH]; intros x; cbn [all_infrastructure]; [by eexists _, _|].
  destruct (infrastructure_spec x dst (alias_transport s) (bt_subnet table) (er_allow_subnets (hi_egress rules)) openings)
    as (x' & hit & -> & _). rewrite bind_Done. destruct hit; [apply IH|by eexists _, _].
Qed.

Lemma declaring_resident resident :
  bool_decide (List.filter hi_credentialed_upstream resident = []) = false ->
  exists rules, rules ∈ resident /\ hi_credentialed_upstream rules = true.
Proof.
  intros H%bool_decide_eq_false. destruct (List.filter hi_credentialed_upstream resident) as [|r l] eqn:E; [done|].
  exists r. assert (In r (List.filter hi_credentialed_upstream resident)) as [Hin Hc]%filter_In by (rewrite E; by left).
  split; [by apply list_elem_of_In|done].
Qed.

Lemma resident_confined table b s src rules :
  is_node b src -> box_cohort_marked s = true -> rules ∈ bt_host_ip_boxes table ->
  fs_dst s <> Some (box_egress_proxy_address (bt_subnet table)) ->
  resident_lets s table (alias_openings_new RowCohort b table) rules -> confined table b s src.
Proof.
  intros Hn Hm Hin Hp [Hv Hc]. unfold confined. rewrite decide_False by done.
  exists (alias_openings_new RowCohort b table), (hi_egress rules). split; [by apply speaker_resident|]. split; [|done].
  unfold let_out. tauto.
Qed.

Lemma host_ip_confined g s l4 table b src now :
  is_node b src -> box_cohort_marked s = true ->
  exists g' d, host_ip_verdict g s l4 table b src now = Done (g', d) /\
    forall how, d = inl how -> confined table b s src.
Proof.
  intros Hn Hm. unfold host_ip_verdict. cbv zeta. case_bool_decide as He; [by eexists _, _|].
  set (proxy := box_egress_proxy_address (bt_subnet table)). case_bool_decide as Hp.
  { destruct (proxy_lane_admits _ _ _) eqn:Hl; eexists _, _; (split; [done|]); [|done]. intros how _.
    apply (lane_open_iff _ proxy s Hp) in Hl as [Hd Hl]. apply negb_true_iff, declaring_resident in Hd as (rules & Hin & Hc).
    unfold confined. fold proxy. rewrite decide_True by done. split; [by right; exists rules|]. by split. }
  destruct (if bool_decide (fs_dst s = Some (host_alias (bt_subnet table))) then _ else _) as [x refused].
  destruct refused; [by eexists _, _|].
  destruct (residents_spec (gs_exposures (set_gs_exposures g x)) s table (alias_openings_new RowCohort b table) false false
              (bt_host_ip_boxes table)) as (x' & infra & asks & admits & -> & Had & Has).
  rewrite bind_Done. destruct admits.
  { eexists _, _. split; [done|]. intros how _. destruct (Had eq_refl) as (rules & Hin & Hl). by eapply resident_confined. }
  assert (exists p ok, (if asks then admits_host_ip_frame (gs_pins (set_gs_exposures (set_gs_exposures g x) x')) table
                           (default no_addr (fs_dst s)) l4 now
                         else Done (gs_pins (set_gs_exposures (set_gs_exposures g x) x'), false)) = Done (p, ok) /\
            (ok = true -> asks = true)) as (p & ok & -> & Hok).
  { destruct asks; [|by eexists _, _].
    destruct (admits_host_ip_total (gs_pins (set_gs_exposures (set_gs_exposures g x) x')) table (default no_addr (fs_dst s)) l4 now)
      as (p & ok & ->). by eexists _, _. }
  rewrite bind_Done. destruct ok.
  { eexists _, _. split; [done|]. intros how _. destruct (Has (Hok eq_refl)) as [?|(rules & Hin & Hl)]; [done|].
    by eapply resident_confined. }
  destruct (if infra then fs_dst s else None) as [dst|]; [|by eexists _, _].
  match goal with |- context [all_infrastructure ?x ?d ?s ?t ?o ?r] =>
    destruct (all_infrastructure_total x d s t o r) as (x2 & a & ->) end.
  rewrite bind_Done. by eexists _, _.
Qed.

Lemma node_confined g s l4 table b src now :
  is_node b src -> fs_src s = Some src -> box_cohort_marked s = false ->
  exists g' d, node_plane_verdict g s l4 table b now = Done (g', d) /\
    forall how, d = inl how -> confined table b s src.
Proof.
  intros Hn Hs Hm. unfold node_plane_verdict. rewrite Hs. cbv zeta.
  set (proxy := box_egress_proxy_address (bt_subnet table)).
  assert (Hok : fs_dst s <> Some proxy ->
    (forall dst, fs_dst s = Some dst -> exists x, clear_of x dst (alias_transport s) (bt_subnet table)
        (er_allow_subnets (nb_rules b)) (alias_openings_new RowNode b table)) ->
    let_out table s src (alias_openings_new RowNode b table) (nb_rules b) -> confined table b s src).
  { intros Hp Hc Ho. unfold confined. fold proxy. rewrite decide_False by done.
    exists (alias_openings_new RowNode b table), (nb_rules b). by split; [apply speaker_node|]. }
  unfold let_out in Hok. cbn [ao_row alias_openings_new] in Hok.
  destruct (fs_dst s) as [dst|] eqn:Hd.
  2: { eexists _, _. split; [done|]. intros how. destruct (verdict s (nb_rules b)); [|done]. intros _. apply Hok; [done..|by left]. }
  case_bool_decide as Hp; [by eexists _, _|]. assert (Hp' : Some dst <> Some proxy) by congruence.
  destruct (infrastructure_spec (gs_exposures g) dst (alias_transport s) (bt_subnet table) (er_allow_subnets (nb_rules b))
              (alias_openings_new RowNode b table)) as (x & hit & -> & Hh).
  rewrite bind_Done. destruct hit as [[]|]; [by eexists _, _..|]. specialize (Hok Hp').
  assert (Hc : forall dst', Some dst = Some dst' -> exists x, clear_of x dst' (alias_transport s) (bt_subnet table)
        (er_allow_subnets (nb_rules b)) (alias_openings_new RowNode b table)).
  { intros dst' [= <-]. exists (gs_exposures g). by apply Hh. }
  specialize (Hok Hc). case_bool_decide as Ha.
  { eexists _, _. split; [done|]. intros how _. apply Hok. eauto 8. }
  destruct (bool_decide (dst <> src) && _) eqn:Hrow.
  { eexists _, _. split; [done|]. intros how _. apply Hok. right. right. split; [done|]. exists dst. split; [done|]. right.
    apply andb_true_iff in Hrow as [Hne%bool_decide_eq_true Hr]. split; [done|]. by destruct (by_source table dst). }
  destruct (verdict s (nb_rules b)) as [|reason] eqn:Hv.
  { eexists _, _. split; [done|]. intros how _. apply Hok. by left. }
  destruct (is_undeclared_subnet reason) eqn:Hu; cbn [negb]; [|by eexists _, _].
  clear Hrow. destruct (_ && _); [|by eexists _, _].
  destruct (admits_node_total (gs_pins (set_gs_exposures g x)) table b dst l4 now) as (p & ok & ->). rewrite bind_Done.
  eexists _, _. split; [done|]. intros how _. apply Hok. right. left. apply (undeclared_reason _ _ reason Hv) in Hu. exact Hu.
Qed.

Lemma row_confined g s l4 table b src record now :
  ~ is_node b src -> by_source table src = Some record ->
  clear_frame (gs_exposures g) s table (rec_egress record) (row_openings b table record src) ->
  row_permits g s l4 table record (row_kind table src) now -> confined table b s src.
Proof.
  intros Hn Hr Hc. unfold row_permits, confined. cbv zeta.
  destruct (decide (fs_dst s = Some (box_egress_proxy_address (bt_subnet table)))) as [Hp|Hp].
  - intros [Hd Hl]. split; [left; eauto|]. by split.
  - intros Hv. exists (row_openings b table record src), (rec_egress record). split; [by apply speaker_row|]. split.
    + unfold let_out. tauto.
    + intros dst Hd. exists (gs_exposures g). by apply Hc.
Qed.

Lemma gate_confined g s l4 table b clock :
  exists g' d, gate_verdict g s l4 table b clock = Done (g', d) /\
    forall how, d = inl how -> exists src, fs_src s = Some src /\
      (answered g s l4 table src clock \/
       ((fs_dst s = Some (table_gateway table) -> resolver_query s) /\ confined table b s src)).
Proof.
  destruct (fs_src s) as [src|] eqn:Hs.
  2: { unfold gate_verdict. rewrite Hs. by eexists _, _. }
  destruct (gate_verdict_cases g s l4 table b clock src Hs) as (g1 & Hp & Hx & Hc).
  destruct Hc as [(Ha & ->)|(Ha & [(Hg & Hq & ->)|(Hg & ->)])]; [eexists _, _; split; [done|]; eauto|by eexists _, _|].
  destruct (decide (is_node b src)) as [Hn|Hn].
  - destruct (box_cohort_marked s) eqn:Hm.
    + destruct (host_ip_confined g1 s l4 table b src (clock 2%nat) Hn Hm) as (g' & d & -> & Hd). eexists _, _. split; [done|]. eauto 6.
    + destruct (node_confined g1 s l4 table b src (clock 2%nat) Hn Hs Hm) as (g' & d & -> & Hd). eexists _, _. split; [done|]. eauto 6.
  - destruct (by_source table src) as [record|] eqn:Hr.
    + destruct (row_verdict_exact g1 s l4 table b src record (clock 2%nat) Hr) as (g' & d & -> & Hd). eexists _, _. split; [done|].
      intros how ->. exists src. split; [done|]. right. split; [done|]. destruct Hd as [(Hcl & Hper) _]; [eauto|]. by eapply row_confined.
    + unfold row_verdict. rewrite Hr. eexists _, _. split; [done|]. by destruct (is_allocatable table src).
Qed.

(** C11: whoever sends the frame and whatever state the gate is in, the decision
    is made, and a frame that leaves has a source and is an answer, or else:
    goes to the switch's own address only as a resolver query; goes to the
    proxy only at its listener, on a lane its own declaration opens; and
    elsewhere has a published row, the node's baseline or a resident box
    whose rules let it out and whose check of the infrastructure set leaves
    its destination open.  A source no row holds sends nothing. *)
Theorem gate_confines g s l4 table b clock :
  exists g' d, gate_verdict g s l4 table b clock = Done (g', d) /\
    forall how, d = inl how -> exists src, fs_src s = Some src /\
      (answered g s l4 table src clock \/
       ((fs_dst s = Some (table_gateway table) -> resolver_query s) /\ confined table b s src)).
Proof. apply gate_confined. Qed.

(** ** The host alias *)

(** The cached openings are those of the cached table and listeners. *)
Definition coherent (x : HostExposures) : Prop := (hs_open x, hs_reported x) = sort_entries (hs_held x) (hs_entries x).

(** The table a check reads: a new one the reader found, or the one held. *)
Definition table_read (x : HostExposures) : list Entry :=
  match hs_reads x with Some entries :: _ => entries | _ => hs_entries x end.

Lemma sort_entries_open held entries e :
  e ∈ (sort_entries held entries).1 <-> (exists n, n ∈ entries /\ he_exposure n = e) /\ forall h, h ∈ held -> holds h e = false.
Proof.
  induction entries as [|n entries IH]; cbn [sort_entries].
  { cbn. split; [set_solver|]. intros ((? & ?%elem_of_nil & _) & _). done. }
  destruct (sort_entries held entries) as [open_ reported]. cbn [fst] in *.
  destruct (List.find _ held) as [h|] eqn:Hf; cbn [fst].
  - apply List.find_some in Hf as [Hin%list_elem_of_In Hh]. rewrite IH. split.
    + intros ((n' & Hn & He) & Hh'). split; [|done]. exists n'. split; [by apply elem_of_cons; right|done].
    + intros ((n' & [->|Hn]%elem_of_cons & He) & Hh'); [|by split; [exists n'|]]. subst e. by rewrite Hh' in Hh.
  - rewrite elem_of_cons, IH. split.
    + intros [->|((n' & Hn & He) & Hh)].
      * split; [exists n; split; [by apply elem_of_cons; left|done]|]. intros h Hh%list_elem_of_In.
        by apply (List.find_none _ _ Hf).
      * split; [|done]. exists n'. split; [by apply elem_of_cons; right|done].
    + intros ((n' & [->|Hn]%elem_of_cons & He) & Hh); [by left|]. right. by split; [exists n'|].
Qed.

(** [current] answers from what was last read, whatever it held before. *)
Lemma current_exact x held :
  coherent x ->
  (current x held).2 = (sort_entries held (table_read x)).1 /\ coherent (current x held).1 /\
  hs_entries (current x held).1 = table_read x /\ hs_held (current x held).1 = held.
Proof.
  intros Hc. unfold current, reload, table_read, coherent in *. destruct (hs_reads x) as [|[entries|] rest]; cbn [hs_held hs_open hs_entries].
  2: destruct (sort_entries held entries) eqn:E; cbn; by rewrite E.
  all: case_bool_decide as Hh; [subst held; rewrite <- Hc|destruct (sort_entries held (hs_entries x)) eqn:E]; cbn; by rewrite ?E.
Qed.

(** The host alias, from a coherent cache: a flow is open exactly when it is
    TCP or UDP, and either the node plane's fetch at a baseline endpoint, or
    to a port that none of the program's own listeners holds, that the table
    last read exposes in its protocol, from a row that names the host.  The
    cache stays coherent. *)
Theorem alias_opens_exact x a transport :
  coherent x ->
  coherent (alias_admit x a transport).1 /\
  ((alias_admit x a transport).2 = true <->
   exists protocol port, transport = Some (protocol, port) /\
     ((ao_row a = RowNode /\ protocol = ALIAS_FETCH_PROTOCOL /\
       exists first last, (first, last) ∈ nb_alias_ports (ao_baseline a) /\ first <= port <= last) \/
      ((forall h, h ∈ listeners a -> holds_port h protocol port = false) /\ ao_names_host a = true /\
       exists e, e ∈ table_read x /\ he_exposure e = {| hx_protocol := protocol; hx_port := port |}))).
Proof.
  intros Hc. unfold alias_admit. destruct transport as [[protocol port]|]; [|split; [done|]; naive_solver].
  assert (Hw : within (nb_alias_ports (ao_baseline a)) port = true <->
            exists first last, (first, last) ∈ nb_alias_ports (ao_baseline a) /\ first <= port <= last).
  { unfold within. rewrite existsb_exists. split.
    - intros ([f l] & Hin%list_elem_of_In & Hr). cbn in Hr. apply andb_true_iff in Hr. exists f, l. split; [done|lia].
    - intros (f & l & Hin & Hr). exists (f, l). split; [by apply list_elem_of_In|]. cbn. apply andb_true_iff. lia. }
  destruct (bool_decide (ao_row a = RowNode) && (protocol =? ALIAS_FETCH_PROTOCOL) && within _ port) eqn:Hn.
  { rewrite !andb_true_iff, bool_decide_eq_true, Z.eqb_eq, Hw in Hn. split; [done|]. split; [|done]. intros _.
    exists protocol, port. split; [done|]. left. tauto. }
  rewrite <- not_true_iff_false, !andb_true_iff, bool_decide_eq_true, Z.eqb_eq, Hw in Hn.
  destruct (current_exact x (listeners a) Hc) as (Hcur & Hc' & _). cbv zeta.
  destruct (current x (listeners a)) as [x' exposures]. cbn [fst snd] in *. subst exposures.
  destruct (existsb _ (listeners a)) eqn:Hh; (split; [done|]).
  - apply existsb_exists in Hh as (h & Hin%list_elem_of_In & Hh). split; [done|].
    intros (p & q & [= <- <-] & [?|(H & _)]); [tauto|]. by rewrite H in Hh.
  - assert (Hfree : forall h, h ∈ listeners a -> holds_port h protocol port = false).
    { intros h Hin%list_elem_of_In. destruct (holds_port h protocol port) eqn:E; [|done].
      rewrite <- not_true_iff_false, existsb_exists in Hh. destruct Hh. by exists h. }
    cbn [snd]. rewrite andb_true_iff, existsb_exists. split.
    + intros (Hnames & e & He%list_elem_of_In & Hadm). apply sort_entries_open in He as ((n & Hn' & <-) & _).
      unfold exposure_admits in Hadm. apply andb_true_iff in Hadm as [<-%Z.eqb_eq <-%Z.eqb_eq].
      eexists _, _. split; [done|]. right. split; [done|]. split; [done|]. exists n. split; [done|]. by destruct (he_exposure n).
    + intros (p & q & [= <- <-] & [?|(_ & Hnames & e & Hin & He)]); [tauto|]. split; [done|].
      exists (he_exposure e). rewrite He. unfold exposure_admits. cbn. rewrite !Z.eqb_refl. split; [|done].
      apply list_elem_of_In, sort_entries_open. split; [by exists e|]. intros h Hh'. by apply Hfree.
Qed.

(** ** A table to evaluate *)

Module GateSample.
(** A box that may reach one subnet and names another box, its neighbour,
    and a table that exposes one port of the host. *)
Definition rules : EgressRules :=
  {| er_allow_protocols := None; er_allow_subnets := Some [cidr 140 82 112 0 20; cidr 100 64 255 254 32]; er_deny_subnets := None;
     er_resolver := dns_server DEFAULT_SUBNET; er_proxy := None; er_credentialed_upstream := false;
     er_lease := Ip4 100 64 0 2; er_switch_own := None |}.
Definition box : BoxRecord :=
  {| rec_id := 1; rec_box_id := 1; rec_name := "build"; rec_switch_addr := Ip4 100 64 0 2; rec_loopback_addr := Ip4 127 0 64 2; rec_admitted_ports := []; rec_declared_names := [];
     rec_egress := rules; rec_resolves_names := false; rec_dns_hosts := ["Web.min.internal."]; rec_deny_all := false;
     rec_credentialed_upstream := false; rec_dynamic_ingress := IngressDeny; rec_dynamic_range := None; rec_task_row_of := None; rec_task_addrs := [] |}.
Definition web : BoxRecord :=
  {| rec_id := 2; rec_box_id := 2; rec_name := "Web"; rec_switch_addr := Ip4 100 64 0 3; rec_loopback_addr := Ip4 127 0 64 3; rec_admitted_ports := []; rec_declared_names := [];
     rec_egress := rules; rec_resolves_names := false; rec_dns_hosts := []; rec_deny_all := false;
     rec_credentialed_upstream := false; rec_dynamic_ingress := IngressDeny; rec_dynamic_range := None; rec_task_row_of := None; rec_task_addrs := [] |}.
Definition table : BoxTable :=
  {| bt_rows := <[Ip4 100 64 0 3 := web]> {[Ip4 100 64 0 2 := box]}; bt_host_ip_boxes := []; bt_host_ip_cohort := None;
     bt_subnet := DEFAULT_SUBNET; bt_row_epoch := 0 |}.
Definition baseline : NodePlaneBaseline := built_in (fun _ => EnvNotPresent) DEFAULT_SUBNET.
Definition exposures : HostExposures :=
  exposures_new [{| he_name := "db"; he_exposure := {| hx_protocol := 6; hx_port := 5432 |} |};
                 {| he_name := "bad"; he_exposure := {| hx_protocol := 17; hx_port := DEFAULT_ANSWERER_PORT |} |}] [].
Definition state : GateState :=
  {| gs_pins := dns_pins_new DEFAULT_SUBNET; gs_replies := ∅; gs_exposures := exposures |}.
Definition frame (src dst : ip4) (proto port : Z) : FrameSummary :=
  {| fs_family := Ipv4; fs_src := Some src; fs_dst := Some dst; fs_proto := Some proto; fs_dst_port := port; fs_dscp := 0 |}.
Definition decide_frame (s : FrameSummary) : option (GateAdmit + GateDrop) :=
  match gate_verdict state s None table baseline (fun _ => 0) with Done (_, d) => Some d | _ => None end.

Example gate_decides :
  let src := Ip4 100 64 0 2 in
  decide_frame (frame src (Ip4 140 82 112 3) 6 443) = Some (inl AdmitRow) /\
  decide_frame (frame src (Ip4 100 64 0 3) 6 80) = Some (inl AdmitRow) /\
  decide_frame (frame src (host_alias DEFAULT_SUBNET) 6 5432) = Some (inl AdmitRow) /\
  decide_frame (frame src (host_alias DEFAULT_SUBNET) 17 DEFAULT_ANSWERER_PORT)
    = Some (inr (DropHostAlias src DEFAULT_ANSWERER_PORT RowBox)) /\
  decide_frame (frame src (Ip4 8 8 8 8) 6 443) = Some (inr (DropVerdict (UndeclaredSubnet (Ip4 8 8 8 8) 6))) /\
  decide_frame (frame src (Ip4 127 0 0 1) 6 80) = Some (inr (Infrastructure src (Ip4 127 0 0 1) 80)) /\
  decide_frame (frame src (gateway DEFAULT_SUBNET) 6 80) = Some (inr (SwitchControlSurface src 80)) /\
  decide_frame (frame src (box_egress_proxy_address DEFAULT_SUBNET) 6 PROXY_LISTENER_PORT)
    = Some (inr (DropProxyLane src (box_egress_proxy_address DEFAULT_SUBNET) PROXY_LISTENER_PORT)) /\
  decide_frame (frame (Ip4 100 64 0 9) (Ip4 140 82 112 3) 6 443) = Some (inr (UnregisteredSource (Ip4 100 64 0 9))).
Proof. vm_compute. repeat split. Qed.

Lemma row_admits_exact_witness :
  exists g' d, gate_verdict state (frame (Ip4 100 64 0 2) (Ip4 140 82 112 3) 6 443) None table baseline (fun _ => 0) = Done (g', d) /\
    ((exists how, d = inl how) <->
     answered state (frame (Ip4 100 64 0 2) (Ip4 140 82 112 3) 6 443) None table (Ip4 100 64 0 2) (fun _ => 0) \/
     ((Some (Ip4 140 82 112 3) = Some (table_gateway table) -> resolver_query (frame (Ip4 100 64 0 2) (Ip4 140 82 112 3) 6 443)) /\
      clear_frame exposures (frame (Ip4 100 64 0 2) (Ip4 140 82 112 3) 6 443) table rules (row_openings baseline table box (Ip4 100 64 0 2)) /\
      row_permits state (frame (Ip4 100 64 0 2) (Ip4 140 82 112 3) 6 443) None table box (row_kind table (Ip4 100 64 0 2)) 0)).
Proof.
  apply (row_admits_exact state (frame (Ip4 100 64 0 2) (Ip4 140 82 112 3) 6 443) None table baseline (fun _ => 0)
           (Ip4 100 64 0 2) box).
  - reflexivity.
  - vm_compute. reflexivity.
  - intros [_ H]. vm_compute in H. discriminate H.
Defined.

Lemma alias_opens_exact_witness :
  coherent (alias_admit exposures (for_box baseline table box) (Some (6, 5432))).1 /\
  ((alias_admit exposures (for_box baseline table box) (Some (6, 5432))).2 = true <->
   exists protocol port, Some (6, 5432) = Some (protocol, port) /\
     ((ao_row (for_box baseline table box) = RowNode /\ protocol = ALIAS_FETCH_PROTOCOL /\
       exists first last, (first, last) ∈ nb_alias_ports baseline /\ first <= port <= last) \/
      ((forall h, h ∈ listeners (for_box baseline table box) -> holds_port h protocol port = false) /\
       ao_names_host (for_box baseline table box) = true /\
       exists e, e ∈ table_read exposures /\ he_exposure e = {| hx_protocol := protocol; hx_port := port |}))).
Proof. apply (alias_opens_exact exposures (for_box baseline table box) (Some (6, 5432))). reflexivity. Defined.
End GateSample.
