(* ===== verification/PublishLedger.v ===== *)
(** * The publish ledger (crates/minvmd/src/net/egress_gate.rs)

    Which forwarder listeners stand on the host, for which box address, and
    which declared forwards wait for one: every operation of
    [PublishedForwards].  A [Vec] under its lock is a list; operations run
    one after another, as the ledger's lock makes them. *)

From stdpp Require Import base list gmap strings numbers.
From Stdlib Require Import ZArith Lia.
From S2P Require Import Prelude Text Egress SwitchRequest.
Open Scope Z_scope.

Definition PUBLISHED_FORWARDS_TRACKED : nat := 1024.
Definition INTERIM_PUBLISHES_TRACKED : nat := 1024.
Definition LEASES_VOUCHED_TRACKED : nat := 1024.

(** [Listener]: a loopback address and a port. *)
Definition Listener : Type := ip4 * Z.

#[global] Instance Applied_eq_dec : EqDecision Applied.
Proof. solve_decision. Defined.

Record AppliedPublish : Type := {
  ap_listener : Listener; ap_addr : ip4; ap_inside : Z; ap_proto : Z; ap_by : Applied }.
#[global] Instance AppliedPublish_eq_dec : EqDecision AppliedPublish.
Proof. solve_decision. Defined.

Record WaitingForward : Type := {
  wf_listener : Listener; wf_addr : ip4; wf_inside : Z; wf_proto : Z; wf_box_id : nat }.
#[global] Instance WaitingForward_eq_dec : EqDecision WaitingForward.
Proof. solve_decision. Defined.

(** [Admitted]: what an admitted publish becomes. *)
Inductive PublishOutcome : Type := Noted | Held | Bound | Waiting | HeldElsewhere.

Inductive LedgerFull : Type := MkLedgerFull.

(** [ProbeSlot]. *)
Record ProbeSlot : Type := { ps_outstanding : option (Listener * Z); ps_next : Z }.

(** [PublishedForwards], less the flow table it also carries. *)
Record PublishedForwards : Type := {
  pf_applied : list AppliedPublish;
  pf_waiting : list WaitingForward;
  pf_claiming : list Listener;
  pf_handed : list Listener;
  pf_vouched : list ip4;
  pf_probe : ProbeSlot;
}.

(** [PublishedForwards::new]. *)
Definition forwards_new : PublishedForwards :=
  {| pf_applied := []; pf_waiting := []; pf_claiming := []; pf_handed := []; pf_vouched := [];
     pf_probe := {| ps_outstanding := None; ps_next := 0 |} |}.

(** Assignment to one field of the ledger. *)
Definition set_applied (f : PublishedForwards) (l : list AppliedPublish) : PublishedForwards :=
  {| pf_applied := l; pf_waiting := pf_waiting f; pf_claiming := pf_claiming f; pf_handed := pf_handed f;
     pf_vouched := pf_vouched f; pf_probe := pf_probe f |}.
Definition set_waiting (f : PublishedForwards) (l : list WaitingForward) : PublishedForwards :=
  {| pf_applied := pf_applied f; pf_waiting := l; pf_claiming := pf_claiming f; pf_handed := pf_handed f;
     pf_vouched := pf_vouched f; pf_probe := pf_probe f |}.
Definition set_claiming (f : PublishedForwards) (l : list Listener) : PublishedForwards :=
  {| pf_applied := pf_applied f; pf_waiting := pf_waiting f; pf_claiming := l; pf_handed := pf_handed f;
     pf_vouched := pf_vouched f; pf_probe := pf_probe f |}.
Definition set_handed (f : PublishedForwards) (l : list Listener) : PublishedForwards :=
  {| pf_applied := pf_applied f; pf_waiting := pf_waiting f; pf_claiming := pf_claiming f; pf_handed := l;
     pf_vouched := pf_vouched f; pf_probe := pf_probe f |}.
Definition set_vouched (f : PublishedForwards) (l : list ip4) : PublishedForwards :=
  {| pf_applied := pf_applied f; pf_waiting := pf_waiting f; pf_claiming := pf_claiming f; pf_handed := pf_handed f;
     pf_vouched := l; pf_probe := pf_probe f |}.
Definition set_probe (f : PublishedForwards) (p : ProbeSlot) : PublishedForwards :=
  {| pf_applied := pf_applied f; pf_waiting := pf_waiting f; pf_claiming := pf_claiming f; pf_handed := pf_handed f;
     pf_vouched := pf_vouched f; pf_probe := p |}.

(** ** Lookups *)

(** [applied.iter().find(|entry| entry.0 == listener)]. *)
Definition holder_of (applied : list AppliedPublish) (l : Listener) : option AppliedPublish :=
  List.find (fun e => bool_decide (ap_listener e = l)) applied.
(** [address_of] and [protocol_of]. *)
Definition address_of (f : PublishedForwards) (l : Listener) : option ip4 := option_map ap_addr (holder_of (pf_applied f) l).
Definition protocol_of (f : PublishedForwards) (l : Listener) : option Z := option_map ap_proto (holder_of (pf_applied f) l).
(** [inside_published], [still_published] and [published_at]. *)
Definition inside_published (f : PublishedForwards) (addr : ip4) (port : Z) : bool :=
  existsb (fun e => bool_decide (ap_addr e = addr) && (ap_inside e =? port)) (pf_applied f).
Definition still_published (f : PublishedForwards) (addr : ip4) (inside proto : Z) : bool :=
  existsb (fun e => bool_decide (ap_addr e = addr) && (ap_inside e =? inside) && (ap_proto e =? proto)) (pf_applied f).
Definition published_at (f : PublishedForwards) (addr : ip4) : list (Listener * Z * Z) :=
  map (fun e => (ap_listener e, ap_inside e, ap_proto e))
    (List.filter (fun e => bool_decide (ap_addr e = addr)) (pf_applied f)).
(** [holds_loopback_address], [lease_live_at] and [claim_in_flight]. *)
Definition holds_loopback_address (f : PublishedForwards) (addr : ip4) : bool :=
  existsb (fun e => bool_decide (fst (ap_listener e) = addr)) (pf_applied f)
  || existsb (fun w => bool_decide (fst (wf_listener w) = addr)) (pf_waiting f).
Definition lease_live_at (f : PublishedForwards) (addr : ip4) : bool :=
  bool_decide (addr ∈ pf_vouched f) || existsb (fun e => bool_decide (ap_addr e = addr)) (pf_applied f).
Definition claim_in_flight (f : PublishedForwards) (l : Listener) : bool := bool_decide (l ∈ pf_claiming f).

(** ** Publishes *)

(** [applied.iter().position(p)] with [applied.remove(at)]: what is removed,
    and the rest. *)
Fixpoint remove_first (p : AppliedPublish -> bool) (l : list AppliedPublish) : option (AppliedPublish * list AppliedPublish) :=
  match l with
  | [] => None
  | e :: l => if p e then Some (e, l) else match remove_first p l with Some (x, r) => Some (x, e :: r) | None => None end
  end.

(** [applied.iter().filter(|entry| entry.4 == by).count()]. *)
Definition held_by (by_ : Applied) (applied : list AppliedPublish) : nat :=
  length (List.filter (fun e => bool_decide (ap_by e = by_)) applied).

(** [PublishedForwards::push_applied]. *)
Definition push_applied (applied : list AppliedPublish) (e : AppliedPublish) : list AppliedPublish + LedgerFull :=
  match ap_by e with
  | AppliedRow =>
      if (PUBLISHED_FORWARDS_TRACKED <=? held_by AppliedRow applied)%nat then inr MkLedgerFull else inl (applied ++ [e])
  | AppliedInterim =>
      let applied :=
        if (INTERIM_PUBLISHES_TRACKED <=? held_by AppliedInterim applied)%nat then
          match remove_first (fun e => bool_decide (ap_by e = AppliedInterim)) applied with
          | Some (_, rest) => rest
          | None => applied
          end
        else applied in
      inl (applied ++ [e])
  end.

(** [PublishedForwards::admit_publish]. *)
Definition admit_publish (f : PublishedForwards) (l : Listener) (addr : ip4) (inside proto : Z) (by_ : Applied)
    (declared_by : option nat) : PublishedForwards * (PublishOutcome + LedgerFull) :=
  match holder_of (pf_applied f) l with
  | None =>
      match push_applied (pf_applied f)
              {| ap_listener := l; ap_addr := addr; ap_inside := inside; ap_proto := proto; ap_by := by_ |} with
      | inr full => (f, inr full)
      | inl applied =>
          (set_waiting (set_applied f applied)
             (List.filter (fun w => negb (bool_decide (wf_listener w = l) && bool_decide (wf_addr w = addr))) (pf_waiting f)),
           inl Noted)
      end
  | Some h =>
      if bool_decide (ap_addr h = addr) then
        (f, inl (if (ap_inside h =? inside) && (ap_proto h =? proto) && bool_decide (l ∈ pf_handed f) then Bound else Held))
      else
        match declared_by with
        | None => (f, inl HeldElsewhere)
        | Some box_id =>
            let waiting :=
              List.filter (fun w => negb (bool_decide (wf_listener w = l)) || bool_decide (wf_addr w = ap_addr h)) (pf_waiting f) in
            if (PUBLISHED_FORWARDS_TRACKED <=? length waiting)%nat then (set_waiting f waiting, inr MkLedgerFull)
            else (set_waiting f (waiting ++ [{| wf_listener := l; wf_addr := addr; wf_inside := inside;
                                                wf_proto := proto; wf_box_id := box_id |}]), inl Waiting)
        end
  end.

(** [retain(|x| *x != listener)]. *)
Definition without (l : Listener) (ls : list Listener) : list Listener := List.filter (fun x => negb (bool_decide (x = l))) ls.

(** [PublishedForwards::note_retracted]. *)
Definition note_retracted (f : PublishedForwards) (l : Listener) : PublishedForwards * option (ip4 * Z * Z) :=
  match remove_first (fun e => bool_decide (ap_listener e = l)) (pf_applied f) with
  | None => (f, None)
  | Some (e, rest) =>
      (set_handed (set_applied f rest) (without l (pf_handed f)), Some (ap_addr e, ap_inside e, ap_proto e))
  end.

(** [PublishedForwards::note_vouched]. *)
Definition note_vouched (f : PublishedForwards) (addr : ip4) : PublishedForwards :=
  if bool_decide (addr ∈ pf_vouched f) then f
  else
    let vouched := if (LEASES_VOUCHED_TRACKED <=? length (pf_vouched f))%nat then tl (pf_vouched f) else pf_vouched f in
    set_vouched f (vouched ++ [addr]).

(** ** Waiting forwards *)

(** [PublishedForwards::claim_in] and [PublishedForwards::claim_waiting]. *)
Definition claim_waiting (f : PublishedForwards) (l : Listener) : PublishedForwards * (option WaitingForward + LedgerFull) :=
  match holder_of (pf_applied f) l with
  | Some h =>
      if bool_decide (l ∈ pf_claiming f) then (f, inl None)
      else
        match List.find (fun w => bool_decide (wf_listener w = l) && bool_decide (wf_addr w = ap_addr h)) (pf_waiting f) with
        | Some w => (set_claiming f (pf_claiming f ++ [l]), inl (Some w))
        | None => (f, inl None)
        end
  | None =>
      match List.find (fun w => bool_decide (wf_listener w = l)) (rev (pf_waiting f)) with
      | None => (f, inl None)
      | Some next =>
          if (PUBLISHED_FORWARDS_TRACKED <=? held_by AppliedRow (pf_applied f))%nat then (f, inr MkLedgerFull)
          else
            (set_claiming
               (set_applied f (pf_applied f ++ [{| ap_listener := l; ap_addr := wf_addr next; ap_inside := wf_inside next;
                                                   ap_proto := wf_proto next; ap_by := AppliedRow |}]))
               (pf_claiming f ++ [l]), inl (Some next))
      end
  end.

(** The predicate of [position(|(held, at, ..)| *held == listener && *at == addr)]. *)
Definition held_at (l : Listener) (addr : ip4) (e : AppliedPublish) : bool :=
  bool_decide (ap_listener e = l) && bool_decide (ap_addr e = addr).

(** [PublishedForwards::hand_over_at]. *)
Definition hand_over_at (f : PublishedForwards) (l : Listener) (addr : ip4)
    : PublishedForwards * (bool * (option WaitingForward + LedgerFull)) :=
  match remove_first (held_at l addr) (pf_applied f) with
  | None => (f, (false, inl None))
  | Some (_, rest) =>
      let '(f, next) := claim_waiting (set_handed (set_applied f rest) (without l (pf_handed f))) l in
      (f, (true, next))
  end.

(** [settle_claim], [keep_unanswered_claim], [release_claim] and
    [drop_waiting_at]. *)
Definition settle_claim (f : PublishedForwards) (w : WaitingForward) : PublishedForwards :=
  let handed := if bool_decide (wf_listener w ∈ pf_handed f) then pf_handed f else pf_handed f ++ [wf_listener w] in
  set_waiting (set_handed (set_claiming f (without (wf_listener w) (pf_claiming f))) handed)
    (List.filter (fun x => negb (bool_decide (wf_listener x = wf_listener w) && bool_decide (wf_addr x = wf_addr w))) (pf_waiting f)).
Definition keep_unanswered_claim (f : PublishedForwards) (w : WaitingForward) : PublishedForwards :=
  set_claiming f (without (wf_listener w) (pf_claiming f)).
Definition release_claim (f : PublishedForwards) (w : WaitingForward) : PublishedForwards * bool :=
  let f := set_claiming f (without (wf_listener w) (pf_claiming f)) in
  match remove_first (held_at (wf_listener w) (wf_addr w)) (pf_applied f) with
  | None => (f, false)
  | Some (_, rest) => (set_handed (set_applied f rest) (without (wf_listener w) (pf_handed f)), true)
  end.
Definition drop_waiting_at (f : PublishedForwards) (addr : ip4) : PublishedForwards :=
  set_waiting f (List.filter (fun w => negb (bool_decide (wf_addr w = addr))) (pf_waiting f)).

(** ** The range probe *)

(** [begin_probe], [probe_listener] and [end_probe]. *)
Definition begin_probe (f : PublishedForwards) (l : Listener) : PublishedForwards * (Z + Listener) :=
  match ps_outstanding (pf_probe f) with
  | Some (held, _) => (f, inr held)
  | None =>
      let generation := ps_next (pf_probe f) + 1 in
      (set_probe f {| ps_outstanding := Some (l, generation); ps_next := generation |}, inl generation)
  end.
Definition probe_listener (f : PublishedForwards) (generation : Z) : option Listener :=
  match ps_outstanding (pf_probe f) with
  | Some (l, held) => if held =? generation then Some l else None
  | None => None
  end.
Definition end_probe (f : PublishedForwards) (generation : Z) : PublishedForwards :=
  match ps_outstanding (pf_probe f) with
  | Some (_, held) =>
      if held =? generation then set_probe f {| ps_outstanding := None; ps_next := ps_next (pf_probe f) |} else f
  | None => f
  end.

(** ** Histories *)

Inductive LedgerOp : Type :=
| LPublish (l : Listener) (addr : ip4) (inside proto : Z) (by_ : Applied) (declared_by : option nat)
| LRetract (l : Listener)
| LVouch (addr : ip4)
| LClaim (l : Listener)
| LHandOver (l : Listener) (addr : ip4)
| LSettle (w : WaitingForward)
| LKeep (w : WaitingForward)
| LRelease (w : WaitingForward)
| LDropWaiting (addr : ip4)
| LBeginProbe (l : Listener)
| LEndProbe (generation : Z).

Definition ledger_step (f : PublishedForwards) (op : LedgerOp) : PublishedForwards :=
  match op with
  | LPublish l addr inside proto by_ declared_by => (admit_publish f l addr inside proto by_ declared_by).1
  | LRetract l => (note_retracted f l).1
  | LVouch addr => note_vouched f addr
  | LClaim l => (claim_waiting f l).1
  | LHandOver l addr => (hand_over_at f l addr).1
  | LSettle w => settle_claim f w
  | LKeep w => keep_unanswered_claim f w
  | LRelease w => (release_claim f w).1
  | LDropWaiting addr => drop_waiting_at f addr
  | LBeginProbe l => (begin_probe f l).1
  | LEndProbe generation => end_probe f generation
  end.
Definition ledger_run (ops : list LedgerOp) : PublishedForwards := fold_left ledger_step ops forwards_new.

(** The forwards waiting on a listener. *)
Definition waiting_on (l : Listener) (ws : list WaitingForward) : list WaitingForward :=
  List.filter (fun w => bool_decide (wf_listener w = l)) ws.

(** What every ledger satisfies: one attribution per listener, at most two
    forwards waiting on one, each side within its bound. *)
Record ledger_ok (f : PublishedForwards) : Prop := {
  lo_listeners : NoDup (map ap_listener (pf_applied f));
  lo_row : (held_by AppliedRow (pf_applied f) <= PUBLISHED_FORWARDS_TRACKED)%nat;
  lo_interim : (held_by AppliedInterim (pf_applied f) <= INTERIM_PUBLISHES_TRACKED)%nat;
  lo_waiting : (length (pf_waiting f) <= PUBLISHED_FORWARDS_TRACKED)%nat;
  lo_once : NoDup (map (fun w => (wf_listener w, wf_addr w)) (pf_waiting f));
  lo_two : forall l, (length (waiting_on l (pf_waiting f)) <= 2)%nat;
  lo_vouched : (length (pf_vouched f) <= LEASES_VOUCHED_TRACKED)%nat /\ NoDup (pf_vouched f);
}.

(** ** Lists *)

Lemma remove_first_Some p l x r :
  remove_first p l = Some (x, r) -> p x = true /\ exists l1 l2, l = l1 ++ x :: l2 /\ r = l1 ++ l2.
Proof.
  revert r. induction l as [|e l IH]; intros r; cbn; [done|]. destruct (p e) eqn:Hp.
  - intros [= <- <-]. split; [done|]. by exists [], l.
  - destruct (remove_first p l) as [[y r']|]; [|done]. intros [= <- <-].
    destruct (IH r' eq_refl) as (Hx & l1 & l2 & -> & ->). split; [done|]. by exists (e :: l1), l2.
Qed.

Lemma remove_first_sublist p l x r : remove_first p l = Some (x, r) -> r `sublist_of` l.
Proof. intros (_ & l1 & l2 & -> & ->)%remove_first_Some. apply sublist_app; [done|]. by apply sublist_cons. Qed.

(** Only the first entry that satisfies [p] goes. *)
Lemma remove_first_keeps p l x r e : remove_first p l = Some (x, r) -> e ∈ l -> p e = false -> e ∈ r.
Proof. intros (Hx & l1 & l2 & -> & ->)%remove_first_Some He Hp. destruct (decide (e = x)); [congruence|set_solver]. Qed.

Lemma filter_sublist {A} (p : A -> bool) (l : list A) : List.filter p l `sublist_of` l.
Proof. induction l as [|x l IH]; cbn; [done|]. destruct (p x); by constructor. Qed.

Lemma map_sublist {A B} (g : A -> B) (l k : list A) : l `sublist_of` k -> map g l `sublist_of` map g k.
Proof. induction 1; cbn; by constructor. Qed.

Lemma filter_sublist_mono {A} (p : A -> bool) (l k : list A) :
  l `sublist_of` k -> List.filter p l `sublist_of` List.filter p k.
Proof.
  induction 1 as [|x l k H IH|x l k H IH]; cbn; [done| |]; destruct (p x); try done; by constructor.
Qed.

Lemma held_by_sublist by_ l k : l `sublist_of` k -> (held_by by_ l <= held_by by_ k)%nat.
Proof. intros H. by apply sublist_length, filter_sublist_mono. Qed.

Lemma held_by_app by_ l e : held_by by_ (l ++ [e]) = (held_by by_ l + if decide (ap_by e = by_) then 1 else 0)%nat.
Proof.
  unfold held_by. rewrite List.filter_app, length_app. cbn. destruct (decide (ap_by e = by_)) as [E|E].
  - by rewrite bool_decide_eq_true_2.
  - by rewrite bool_decide_eq_false_2.
Qed.

Lemma holder_of_None l ls : holder_of ls l = None -> l ∉ map ap_listener ls.
Proof.
  intros H Hin. apply list_elem_of_fmap in Hin as (e & -> & He).
  apply list_elem_of_In, (List.find_none _ _ H) in He. cbn in He. by rewrite bool_decide_eq_true_2 in He.
Qed.

Lemma holder_of_Some l ls e : holder_of ls l = Some e -> e ∈ ls /\ ap_listener e = l.
Proof. intros (Hin & Hl)%List.find_some. split; [by apply list_elem_of_In|by apply bool_decide_eq_true in Hl]. Qed.

Lemma waiting_on_sublist l ws vs : ws `sublist_of` vs -> (length (waiting_on l ws) <= length (waiting_on l vs))%nat.
Proof. intros H. by apply sublist_length, filter_sublist_mono. Qed.

(** ** The invariant *)

(** A step that only drops attributions and waiting forwards. *)
Lemma ledger_ok_shrink f f' :
  ledger_ok f -> pf_applied f' `sublist_of` pf_applied f -> pf_waiting f' `sublist_of` pf_waiting f -> pf_vouched f' = pf_vouched f ->
  ledger_ok f'.
Proof.
  intros [H1 H2 H3 H4 H5 H6 H7] Ha Hw Hv. split.
  - eapply sublist_NoDup; [done|by apply map_sublist].
  - etrans; [by apply held_by_sublist|done].
  - etrans; [by apply held_by_sublist|done].
  - etrans; [by apply sublist_length|done].
  - eapply sublist_NoDup; [done|by apply map_sublist].
  - intros l. etrans; [by apply waiting_on_sublist|done].
  - by rewrite Hv.
Qed.

(** A step that files one attribution for a listener nobody holds. *)
Lemma ledger_ok_push f f' rest e :
  ledger_ok f -> rest `sublist_of` pf_applied f -> pf_applied f' = rest ++ [e] -> ap_listener e ∉ map ap_listener (pf_applied f) ->
  (held_by (ap_by e) rest < PUBLISHED_FORWARDS_TRACKED)%nat -> pf_waiting f' `sublist_of` pf_waiting f -> pf_vouched f' = pf_vouched f ->
  ledger_ok f'.
Proof.
  intros Hok Hr Ha Hn Hb Hw Hv. pose proof (map_sublist ap_listener _ _ Hr) as Hm.
  assert (ledger_ok (set_waiting (set_applied f rest) (pf_waiting f'))) as [H1 H2 H3 H4 H5 H6 H7].
  { by eapply ledger_ok_shrink. }
  cbn -[held_by] in *. split; try done.
  - rewrite Ha, map_app. apply list.NoDup_app. split; [done|]. split; [|apply NoDup_singleton].
    intros l Hl Hl'. apply list_elem_of_singleton in Hl' as ->. apply Hn. eapply elem_of_submseteq; [done|by apply sublist_submseteq].
  - rewrite Ha, held_by_app. destruct (decide _) as [E|]; [rewrite E in Hb|]; lia.
  - change INTERIM_PUBLISHES_TRACKED with PUBLISHED_FORWARDS_TRACKED in *.
    rewrite Ha, held_by_app. destruct (decide _) as [E|]; [rewrite E in Hb|]; lia.
  - by rewrite Hv.
Qed.


(** The eviction an interim publish makes room with. *)
Lemma push_applied_rest applied e applied' :
  push_applied applied e = inl applied' -> (held_by AppliedInterim applied <= INTERIM_PUBLISHES_TRACKED)%nat ->
  exists rest, applied' = rest ++ [e] /\ rest `sublist_of` applied /\ (held_by (ap_by e) rest < PUBLISHED_FORWARDS_TRACKED)%nat /\
    (forall x, x ∈ applied -> ap_by x = AppliedRow -> x ∈ rest).
Proof.
  unfold push_applied. change INTERIM_PUBLISHES_TRACKED with PUBLISHED_FORWARDS_TRACKED.
  destruct (ap_by e); destruct (PUBLISHED_FORWARDS_TRACKED <=? _)%nat eqn:Hc; [done| | |]; intros [= <-] Hb.
  1, 3: apply Nat.leb_gt in Hc; by exists applied.
  destruct (remove_first _ applied) as [[x r]|] eqn:Hr.
  - exists r. split_and!; [done|by eapply remove_first_sublist| |].
    + pose proof Hr as (Hx & l1 & l2 & -> & ->)%remove_first_Some. apply bool_decide_eq_true in Hx. unfold held_by in *.
      rewrite List.filter_app, length_app in Hb |- *. cbn [List.filter] in Hb. rewrite bool_decide_eq_true_2 in Hb by done.
      cbn [length] in Hb. lia.
    + intros y Hy Hrow. eapply remove_first_keeps; [done..|]. apply bool_decide_eq_false. congruence.
  - apply Nat.leb_le in Hc. exfalso. clear Hb.
    assert (held_by AppliedInterim applied = 0%nat) as E; [|rewrite E in Hc; unfold PUBLISHED_FORWARDS_TRACKED in Hc; lia].
    clear Hc. unfold held_by. induction applied as [|y applied IH]; cbn in *; [done|]. destruct (bool_decide _); [done|].
    apply IH. by destruct (remove_first _ applied) as [[]|].
Qed.

(** Of the forwards waiting on a listener, those at one address are at most
    one. *)
Lemma waiting_at_most_one ws l a :
  NoDup (map (fun w => (wf_listener w, wf_addr w)) ws) ->
  (length (List.filter (fun w => bool_decide (wf_listener w = l) && bool_decide (wf_addr w = a)) ws) <= 1)%nat.
Proof.
  induction ws as [|w ws IH]; cbn; [lia|]. intros [Hw Hn]%list.NoDup_cons. specialize (IH Hn).
  destruct (bool_decide (wf_listener w = l) && _) eqn:E; [|done]. apply andb_true_iff in E as [<-%bool_decide_eq_true <-%bool_decide_eq_true].
  cbn. enough (List.filter (fun x => bool_decide (wf_listener x = wf_listener w) && bool_decide (wf_addr x = wf_addr w)) ws = []) as -> by (cbn; lia).
  destruct (List.filter _ ws) as [|x r] eqn:Hf; [done|]. exfalso. apply Hw.
  assert (In x (List.filter (fun x => bool_decide (wf_listener x = wf_listener w) && bool_decide (wf_addr x = wf_addr w)) ws))
    as (Hin & E)%filter_In by (rewrite Hf; by left).
  apply andb_true_iff in E as [E1%bool_decide_eq_true E2%bool_decide_eq_true].
  apply list_elem_of_fmap. exists x. split; [congruence|by apply list_elem_of_In].
Qed.

(** A forward put on the waiting list after the others' went. *)
Lemma ledger_ok_wait f l holder w ws :
  ledger_ok f -> wf_listener w = l -> wf_addr w <> holder ->
  ws = List.filter (fun w => negb (bool_decide (wf_listener w = l)) || bool_decide (wf_addr w = holder)) (pf_waiting f) ->
  (length ws < PUBLISHED_FORWARDS_TRACKED)%nat -> ledger_ok (set_waiting f (ws ++ [w])).
Proof.
  intros [H1 H2 H3 H4 H5 H6 H7] Hl Ha Hws Hb. assert (Hs : ws `sublist_of` pf_waiting f) by (rewrite Hws; apply filter_sublist).
  assert (Hn : NoDup (map (fun w => (wf_listener w, wf_addr w)) ws)) by (eapply sublist_NoDup; [exact H5|by apply map_sublist]).
  assert (Hk : forall x, x ∈ ws -> wf_listener x = l -> wf_addr x = holder).
  { intros x Hx E. rewrite Hws in Hx. apply list_elem_of_In, filter_In in Hx as [_ Hx]. 
    rewrite bool_decide_eq_true_2 in Hx by done. by apply bool_decide_eq_true in Hx. }
  split; cbn; try done.
  - rewrite length_app. cbn. lia.
  - rewrite map_app. apply list.NoDup_app. split_and!; [done| |apply NoDup_singleton].
    intros x (y & -> & Hy)%list_elem_of_fmap E%list_elem_of_singleton. injection E as E1 E2.
    apply Ha. rewrite <- E2. apply Hk; [done|congruence].
  - intros k. unfold waiting_on. rewrite List.filter_app, length_app. cbn. destruct (decide (k = l)) as [->|Hkl].
    + rewrite bool_decide_eq_true_2 by done. cbn.
      enough (length (List.filter (fun w => bool_decide (wf_listener w = l)) ws) <= 1)%nat by lia.
      etrans; [|exact (waiting_at_most_one ws l holder Hn)]. apply Nat.eq_le_incl. f_equal. apply filter_ext_in.
      intros x Hx%list_elem_of_In. case_bool_decide; [|done]. by rewrite bool_decide_eq_true_2 by auto.
    + rewrite bool_decide_eq_false_2 by congruence. cbn. rewrite Nat.add_0_r. etrans; [by apply waiting_on_sublist|apply H6].
Qed.

Lemma admit_publish_ok f l addr inside proto by_ d : ledger_ok f -> ledger_ok (admit_publish f l addr inside proto by_ d).1.
Proof.
  intros Hok. unfold admit_publish. destruct (holder_of (pf_applied f) l) as [h|] eqn:Hh.
  - destruct (bool_decide (ap_addr h = addr)) eqn:Ha; [done|]. apply bool_decide_eq_false in Ha.
    destruct d as [b|]; [|done]. destruct (PUBLISHED_FORWARDS_TRACKED <=? _)%nat eqn:Hc.
    + eapply ledger_ok_shrink; [done|done|apply filter_sublist|done].
    + apply Nat.leb_gt in Hc. by eapply (ledger_ok_wait f l (ap_addr h)).
  - destruct (push_applied _ _) as [applied|] eqn:Hp; [|done].
    destruct (push_applied_rest _ _ _ Hp (lo_interim f Hok)) as (rest & -> & Hr & Hb & _).
    by eapply ledger_ok_push; [done|exact Hr|done|by apply holder_of_None|done|apply filter_sublist|].
Qed.

Lemma claim_waiting_ok f l : ledger_ok f -> ledger_ok (claim_waiting f l).1.
Proof.
  intros Hok. unfold claim_waiting. destruct (holder_of (pf_applied f) l) as [h|] eqn:Hh.
  - destruct (bool_decide _); [done|]. destruct (List.find _ _); [|done]. by eapply ledger_ok_shrink.
  - destruct (List.find _ _) as [w|]; [|done]. destruct (PUBLISHED_FORWARDS_TRACKED <=? _)%nat eqn:Hc; [done|].
    apply Nat.leb_gt in Hc. apply holder_of_None in Hh.
    by eapply (ledger_ok_push f _ (pf_applied f)).
Qed.

(** Every operation keeps the invariant. *)
Lemma ledger_step_ok f op : ledger_ok f -> ledger_ok (ledger_step f op).
Proof.
  intros Hok. destruct op; cbn [ledger_step].
  - by apply admit_publish_ok.
  - unfold note_retracted. destruct (remove_first _ _) as [[e r]|] eqn:Hr; [|done].
    eapply ledger_ok_shrink; [done|by eapply remove_first_sublist|done..].
  - destruct Hok as [H1 H2 H3 H4 H5 H6 [H7 H8]]. unfold note_vouched. case_bool_decide as Hin; [by split|].
    split; cbn [pf_applied pf_waiting pf_vouched set_vouched]; try done.
    destruct (LEASES_VOUCHED_TRACKED <=? _)%nat eqn:Hc.
    + destruct (pf_vouched f) as [|v vs]; [done|]. cbn [tl]. apply list.NoDup_cons in H8 as [Hv H8].
      rewrite length_app, list.NoDup_app. cbn [length] in *. split; [lia|]. split_and!; [done|set_solver|apply NoDup_singleton].
    + apply Nat.leb_gt in Hc. rewrite length_app, list.NoDup_app. cbn [length].
      split; [lia|]. split_and!; [done|set_solver|apply NoDup_singleton].
  - by apply claim_waiting_ok.
  - unfold hand_over_at. destruct (remove_first _ _) as [[e r]|] eqn:Hr; [|done].
    destruct (claim_waiting _ l) as [f' res] eqn:Hc. cbn [fst]. change f' with (f', res).1. rewrite <- Hc. apply claim_waiting_ok.
    eapply ledger_ok_shrink; [done|by eapply remove_first_sublist|done..].
  - eapply ledger_ok_shrink; [done|done|apply filter_sublist|done].
  - by eapply ledger_ok_shrink.
  - unfold release_claim. destruct (remove_first _ _) as [[e r]|] eqn:Hr; [|by eapply ledger_ok_shrink].
    eapply ledger_ok_shrink; [done|by eapply remove_first_sublist|done..].
  - eapply ledger_ok_shrink; [done|done|apply filter_sublist|done].
  - unfold begin_probe. destruct (ps_outstanding _) as [[]|]; [done|]. by eapply ledger_ok_shrink.
  - unfold end_probe. destruct (ps_outstanding _) as [[? held]|]; [|done]. destruct (held =? _); [|done]. by eapply ledger_ok_shrink.
Qed.

(** Whether an operation may take the attribution [e] away: it names the
    listener's end, at its address or, for a retraction, whatever its
    address. *)
Definition ends_attribution (e : AppliedPublish) (op : LedgerOp) : bool :=
  match op with
  | LRetract l => bool_decide (ap_listener e = l)
  | LHandOver l addr => held_at l addr e
  | LRelease w => held_at (wf_listener w) (wf_addr w) e
  | _ => false
  end.

Lemma claim_waiting_keeps f l e : e ∈ pf_applied f -> e ∈ pf_applied (claim_waiting f l).1.
Proof.
  intros He. unfold claim_waiting. destruct (holder_of _ _).
  - destruct (bool_decide _); [done|]. by destruct (List.find _ _).
  - destruct (List.find _ _); [|done]. destruct (PUBLISHED_FORWARDS_TRACKED <=? _)%nat; [done|]. cbn. set_solver.
Qed.

(** A row's attribution outlives every operation that does not end it. *)
Lemma ledger_step_keeps f op e :
  ledger_ok f -> e ∈ pf_applied f -> ap_by e = AppliedRow -> ends_attribution e op = false -> e ∈ pf_applied (ledger_step f op).
Proof.
  intros Hok He Hrow Hop. destruct op; cbn [ledger_step ends_attribution] in *; try done.
  - unfold admit_publish. destruct (holder_of _ _) as [h|].
    + destruct (bool_decide _); [done|]. destruct declared_by; [|done]. by destruct (PUBLISHED_FORWARDS_TRACKED <=? _)%nat.
    + destruct (push_applied _ _) as [applied|] eqn:Hp; [|done].
      destruct (push_applied_rest _ _ _ Hp (lo_interim f Hok)) as (rest & -> & _ & _ & Hk). cbn. set_solver.
  - unfold note_retracted. destruct (remove_first _ _) as [[x r]|] eqn:Hr; [|done]. by eapply remove_first_keeps.
  - unfold note_vouched. by case_bool_decide.
  - by apply claim_waiting_keeps.
  - unfold hand_over_at. destruct (remove_first _ _) as [[x r]|] eqn:Hr; [|done].
    destruct (claim_waiting _ l) as [f' res] eqn:Hc. cbn [fst]. change f' with (f', res).1. rewrite <- Hc.
    apply claim_waiting_keeps. by eapply remove_first_keeps.
  - unfold release_claim. destruct (remove_first _ _) as [[x r]|] eqn:Hr; [|done]. by eapply remove_first_keeps.
  - unfold begin_probe. by destruct (ps_outstanding _) as [[]|].
  - unfold end_probe. destruct (ps_outstanding _) as [[? held]|]; [|done]. by destruct (held =? _).
Qed.

Lemma ledger_run_app ops ops' : ledger_run (ops ++ ops') = fold_left ledger_step ops' (ledger_run ops).
Proof. apply fold_left_app. Qed.

Lemma ledger_run_ok ops : ledger_ok (ledger_run ops).
Proof.
  induction ops as [|op ops IH] using rev_ind; [|rewrite ledger_run_app; by apply ledger_step_ok].
  split; cbn; try lia; try apply NoDup_nil_2. split; [lia|apply NoDup_nil_2].
Qed.

Lemma holder_of_unique applied e :
  NoDup (map ap_listener applied) -> e ∈ applied -> holder_of applied (ap_listener e) = Some e.
Proof.
  intros Hn He. destruct (holder_of applied (ap_listener e)) as [x|] eqn:Hh.
  - apply holder_of_Some in Hh as [Hx Hl]. f_equal.
    apply list_elem_of_lookup in Hx as [i Hi], He as [j Hj].
    assert (i = j) as ->; [|congruence]. eapply (NoDup_lookup (map ap_listener applied)); [done| |].
    + by rewrite list_lookup_fmap, Hi.
    + by rewrite list_lookup_fmap, Hj, Hl.
  - apply holder_of_None in Hh. destruct Hh. apply list_elem_of_fmap. by exists e.
Qed.

(** C24: whatever the order of publishes, retractions, hand-overs, claims and
    probes: the ledger holds one attribution per listener, at most 1024 of
    each kind, at most 1024 forwards wait and no more than two on one
    listener; and the attribution a declared row holds stays the one the
    ledger answers for its listener until an operation ends it at its
    listener, however many publishes arrive meanwhile. *)
Theorem ledger_keeps_listeners ops e ops' :
  ledger_ok (ledger_run (ops ++ ops')) /\
  (e ∈ pf_applied (ledger_run ops) -> ap_by e = AppliedRow -> Forall (fun op => ends_attribution e op = false) ops' ->
   holder_of (pf_applied (ledger_run (ops ++ ops'))) (ap_listener e) = Some e).
Proof.
  split; [apply ledger_run_ok|]. intros He Hrow Hops. apply holder_of_unique; [apply lo_listeners, ledger_run_ok|].
  induction ops' as [|op ops' IH] using rev_ind; [by rewrite app_nil_r|].
  apply list.Forall_app in Hops as [Hops [Hop _]%list.Forall_cons]. rewrite app_assoc, ledger_run_app.
  apply ledger_step_keeps; [apply ledger_run_ok|by apply IH|done..].
Qed.

(** Two boxes publish one loopback port; the second is kept waiting, and
    takes the listener over when the first one's row ends. *)
Definition sample_listener : Listener := (Ip4 127 0 0 2, 8080).
Definition sample_held (addr : ip4) : AppliedPublish :=
  {| ap_listener := sample_listener; ap_addr := addr; ap_inside := 80; ap_proto := 6; ap_by := AppliedRow |}.
Definition sample_a : ip4 := Ip4 100 64 0 5.
Definition sample_b : ip4 := Ip4 100 64 0 6.

Lemma ledger_keeps_listeners_witness :
  holder_of (pf_applied (ledger_run ([LPublish sample_listener sample_a 80 6 AppliedRow (Some 1%nat)]
    ++ [LPublish sample_listener sample_b 80 6 AppliedRow (Some 2%nat); LHandOver sample_listener sample_b;
        LClaim sample_listener; LPublish (Ip4 127 0 0 3, 90) sample_b 90 6 AppliedInterim None])))
    sample_listener = Some (sample_held sample_a).
Proof.
  apply (proj2 (ledger_keeps_listeners [LPublish sample_listener sample_a 80 6 AppliedRow (Some 1%nat)] (sample_held sample_a)
    [LPublish sample_listener sample_b 80 6 AppliedRow (Some 2%nat); LHandOver sample_listener sample_b;
     LClaim sample_listener; LPublish (Ip4 127 0 0 3, 90) sample_b 90 6 AppliedInterim None])).
  - cbn. apply list_elem_of_singleton. reflexivity.
  - reflexivity.
  - repeat constructor.
Defined.

Example waiting_forward_takes_over :
  let f := ledger_run [LPublish sample_listener sample_a 80 6 AppliedRow (Some 1%nat);
                       LPublish sample_listener sample_b 80 6 AppliedRow (Some 2%nat)] in
  (hand_over_at f sample_listener sample_a).2
    = (true, inl (Some {| wf_listener := sample_listener; wf_addr := sample_b; wf_inside := 80; wf_proto := 6; wf_box_id := 2 |}))
  /\ address_of (hand_over_at f sample_listener sample_a).1 sample_listener = Some sample_b.
Proof. split; reflexivity. Qed.

(** [note_retracted] names the listener alone: the release of a refused
    publish's note, taken when its answer arrives, drops whoever holds the
    listener then.  Here the first box's publish is in flight, the guest
    retracts it, the second box's publish is noted, and the refusal of the
    first takes the second one's attribution. *)
Example late_refusal_drops_another :
  let f := ledger_run [LPublish sample_listener sample_a 80 6 AppliedRow (Some 1%nat);
                       LRetract sample_listener;
                       LPublish sample_listener sample_b 80 6 AppliedRow (Some 2%nat)] in
  address_of f sample_listener = Some sample_b
  /\ (note_retracted f sample_listener).2 = Some (sample_b, 80, 6)
  /\ address_of (note_retracted f sample_listener).1 sample_listener = None.
Proof. split_and!; reflexivity. Qed.
