(* ===== verification/GateRelay.v ===== *)
(** * The frame relay of the host's gate (crates/minvmd/src/net/egress_gate.rs)

    The two legs of a frame connection: guest to switch through the verdict,
    switch to guest read on the way through.  What a leg shares with the
    rest of the gate is its state; what it meets at one frame (the registry's
    table, the ledger, the clock, the room of its queue) is given per frame,
    since other tasks change it in between.  The second part holds the
    guarantees of whole streams. *)

From stdpp Require Import base list gmap strings numbers.
From Stdlib Require Import ZArith Lia.
From S2P Require Import Prelude Text Egress EgressProps Ingress ReplyFlows DropLimiter Switch L4 Refusal ForwardRevoke Baseline ZoneAnswer DnsPins DnsPinsProps HostExposures ReplyTables RowCarry HostGate HostGateProps PublishLedger.
Open Scope Z_scope.

Definition DEFAULT_MTU : nat := 1500.
Definition max_frame : nat := DEFAULT_MTU + 14 + 4.

Definition UNREGISTERED_LIVE_LEASE_RULE : string := "egress-unregistered-live-lease".
Definition DENY_ALL_DNS_RULE : string := "egress-deny-all-dns-query".
Definition PROXY_OPENING_RULE : string := "egress-proxy-opening-toward-box".

Inductive QueueDirection : Type := TowardSwitch | TowardGuest.
(** [QueueDirection::rule]. *)
Definition queue_rule (d : QueueDirection) : string :=
  match d with TowardSwitch => "egress-backpressure" | TowardGuest => "ingress-backpressure" end.

(** ** The lines *)

(** Whether a line is written. *)
Definition wrote (r : DropLimiter * WarnDecision) : DropLimiter * bool :=
  (r.1, match r.2 with Silent => false | Named | Overflow => true end).

(** [DropLimiter::emit] and the [warn_*] of a drop: each keys its window by
    the source and the rule. *)
Definition emit (l : DropLimiter) (src : option ip4) (rule : string) (now : Z) : DropLimiter * bool :=
  wrote (should_warn_at l src rule now).
Definition warn_switch_surface (l : DropLimiter) (src : ip4) (now : Z) : DropLimiter * bool :=
  wrote (should_warn_at l (Some src) SWITCH_CONTROL_RULE now).
Definition warn_backpressure (l : DropLimiter) (d : QueueDirection) (addr : option ip4) (now : Z) : DropLimiter * bool :=
  wrote (should_warn_at l addr (queue_rule d) now).
Definition warn_infrastructure (l : DropLimiter) (src : ip4) (now : Z) : DropLimiter * bool :=
  wrote (should_warn_at l (Some src) INFRASTRUCTURE_RULE now).
Definition warn_host_alias (l : DropLimiter) (src : ip4) (now : Z) : DropLimiter * bool :=
  wrote (should_warn_at l (Some src) HOST_ALIAS_RULE now).
Definition warn_box_name (l : DropLimiter) (src : ip4) (now : Z) : DropLimiter * bool :=
  wrote (should_warn_at l (Some src) BOX_NAME_RULE now).
Definition warn_proxy_lane (l : DropLimiter) (src : ip4) (now : Z) : DropLimiter * bool :=
  wrote (should_warn_at l (Some src) PROXY_LANE_RULE now).
Definition warn_unregistered (l : DropLimiter) (src : ip4) (now : Z) : DropLimiter * bool :=
  wrote (should_warn_at l (Some src) UNREGISTERED_SOURCE_RULE now).
Definition warn_live_lease (l : DropLimiter) (src : ip4) (now : Z) : DropLimiter * bool :=
  wrote (should_warn_at l (Some src) UNREGISTERED_LIVE_LEASE_RULE now).
Definition warn_host_ip_unbounded (l : DropLimiter) (src : ip4) (now : Z) : DropLimiter * bool :=
  wrote (should_warn_at l (Some src) HOST_IP_BOXES_RULE now).
Definition warn_node_plane_unpinned (l : DropLimiter) (src : ip4) (now : Z) : DropLimiter * bool :=
  wrote (should_warn_at l (Some src) NODE_PLANE_UNPINNED_RULE now).
Definition warn_undeclared_subnet (l : DropLimiter) (src : option ip4) (rule : string) (now : Z) : DropLimiter * bool :=
  wrote (should_warn_at l src rule now).
Definition warn_deny_all_query (l : DropLimiter) (r : DenyAllRefusal) (now : Z) : DropLimiter * bool :=
  wrote (should_warn_refusal_at l (rec_switch_addr (dar_record r)) (dar_name r) DENY_ALL_DNS_RULE now).
Definition warn_proxy_opening (l : DropLimiter) (box_addr : ip4) (now : Z) : DropLimiter * bool :=
  wrote (should_warn_at l (Some box_addr) PROXY_OPENING_RULE now).

(** The drop's line, as [relay_frames_to_switch] picks it. *)
Definition say_drop (l : DropLimiter) (forwards : PublishedForwards) (s : FrameSummary) (d : GateDrop) (now : Z) : DropLimiter * bool :=
  match d with
  | SwitchControlSurface src _ => warn_switch_surface l src now
  | Infrastructure src _ _ => warn_infrastructure l src now
  | DropHostAlias src _ _ => warn_host_alias l src now
  | DropBoxName src _ _ => warn_box_name l src now
  | DropProxyLane src _ _ => warn_proxy_lane l src now
  | UnregisteredSource src =>
      if lease_live_at forwards src then warn_live_lease l src now else warn_unregistered l src now
  | NodePlaneUnpinned src _ _ => warn_node_plane_unpinned l src now
  | HostIpUnbounded src _ _ _ => warn_host_ip_unbounded l src now
  | DropVerdict (UndeclaredSubnet _ _ as reason) => warn_undeclared_subnet l (fs_src s) (drop_rule reason) now
  | DropVerdict _ | UnknownSource _ => emit l (fs_src s) (gate_drop_rule d) now
  end.

(** ** The legs *)

(** What the legs of a relay move. *)
Record RelayState : Type := {
  rs_gate : GateState;
  rs_limiter : DropLimiter;
  rs_flows : ForwardedFlows;
  rs_live : Livenesses;
  rs_attributed : list ip4;
  rs_carried : RelayCarry;
}.
Definition set_rs_gate (st : RelayState) (g : GateState) : RelayState :=
  {| rs_gate := g; rs_limiter := rs_limiter st; rs_flows := rs_flows st; rs_live := rs_live st;
     rs_attributed := rs_attributed st; rs_carried := rs_carried st |}.
Definition set_rs_limiter (st : RelayState) (l : DropLimiter) : RelayState :=
  {| rs_gate := rs_gate st; rs_limiter := l; rs_flows := rs_flows st; rs_live := rs_live st;
     rs_attributed := rs_attributed st; rs_carried := rs_carried st |}.
Definition set_rs_flows (st : RelayState) (f : ForwardedFlows) : RelayState :=
  {| rs_gate := rs_gate st; rs_limiter := rs_limiter st; rs_flows := f; rs_live := rs_live st;
     rs_attributed := rs_attributed st; rs_carried := rs_carried st |}.
Definition set_rs_pins (st : RelayState) (p : DnsPins) : RelayState := set_rs_gate st (set_gs_pins (rs_gate st) p).
Definition set_rs_replies (st : RelayState) (t : ReplyTables) : RelayState := set_rs_gate st (set_gs_replies (rs_gate st) t).

(** The room of the far end's queue. *)
Inductive QueueRoom : Type := QueueTakes | QueueFull | QueueClosed.

(** What one frame meets; [fe_meanwhile] is what the other leg and the other
    relays did to the shared state since the frame before. *)
Record FrameEnv : Type := {
  fe_meanwhile : RelayState -> RelayState;
  fe_table : BoxTable;
  fe_baseline : NodePlaneBaseline;
  fe_forwards : PublishedForwards;
  fe_clock : nat -> Z;
  fe_limiter_clock : nat -> Z;
  fe_limiter_clock' : nat -> Z;
  fe_room : QueueRoom;
}.

(** How a leg goes on after one frame, with what it wrote. *)
Inductive LegStep : Type := LegNext (sent : option (list Z)) | LegError (what : string).

(** [(n as u16).to_le_bytes()] before the frame. *)
Definition framed (frame : list Z) : list Z :=
  let n := Z.of_nat (length frame) mod 65536 in Z.land n 255 :: Z.shiftr n 8 :: frame.

Section legs.
Context `{DnsCodec}.

(** The attribution of an admitted frame. *)
Definition attribute (st : RelayState) (env : FrameEnv) (src : option ip4) : outcome RelayState :=
  match src with
  | None => Done st
  | Some src =>
      if bool_decide (src = nb_node_addr (fe_baseline env)) then Done st
      else
        r ← carry (fe_table env) (rs_live st) src (rs_carried st);
        let '(live, carried) := r : Livenesses * RelayCarry in
        Done {| rs_gate := rs_gate st; rs_limiter := rs_limiter st; rs_flows := rs_flows st; rs_live := live;
                rs_attributed := if bool_decide (src ∈ rs_attributed st) then rs_attributed st
                                 else rs_attributed st ++ [src];
                rs_carried := carried |}
  end.

(** What follows an admission in [relay_frames_to_switch]: the deny-all
    check, the queue and the observations. *)
Definition forward_admitted (st : RelayState) (env : FrameEnv) (frame : list Z) (s : FrameSummary) (l4 : option L4Packet)
    : outcome (RelayState * LegStep) :=
  dns ← (if is_ipv4_udp frame && match l4 with Some p => sa_port (l4_dst p) =? RESOLVER_PORT | None => false end
         then udp_datagram frame else Done None);
  match (match dns with
         | Some (query, datagram) => deny_all_refusal (fe_table env) query datagram
         | None => None
         end) with
  | Some refusal =>
      Done (set_rs_limiter st (warn_deny_all_query (rs_limiter st) refusal (fe_clock env 3%nat)).1, LegNext None)
  | None =>
      match fe_room env with
      | QueueFull =>
          Done (set_rs_limiter st (warn_backpressure (rs_limiter st) TowardSwitch (fs_src s) (fe_clock env 3%nat)).1, LegNext None)
      | QueueClosed => Done (st, LegError "the relay's switch writer is gone")
      | QueueTakes =>
          let st :=
            if match l4 with Some p => l4_proto p =? IPPROTO_TCP | None => false end then
              match parse_tcp_segment frame with
              | Some segment => set_rs_flows st (observe_from_box (rs_flows st) segment (fe_clock env 4%nat))
              | None => st
              end
            else st in
          match dns with
          | Some (query, datagram) =>
              p ← observe_query (gs_pins (rs_gate st)) (fe_table env) query datagram (box_cohort_marked s) (fe_clock env 5%nat);
              Done (set_rs_pins st p, LegNext (Some (framed frame)))
          | None => Done (st, LegNext (Some (framed frame)))
          end
      end
  end.

(** One frame of [relay_frames_to_switch]. *)
Definition egress_frame (st : RelayState) (env : FrameEnv) (frame : list Z) : outcome (RelayState * LegStep) :=
  s ← summarize frame;
  l4 ← parse_ipv4_l4 frame;
  r ← gate_verdict (rs_gate st) s l4 (fe_table env) (fe_baseline env) (fe_clock env);
  let '(g, decided) := r : GateState * (GateAdmit + GateDrop) in
  let st := set_rs_gate st g in
  match decided with
  | inr dropped =>
      Done (set_rs_limiter st (say_drop (rs_limiter st) (fe_forwards env) s dropped (fe_clock env 3%nat)).1, LegNext None)
  | inl _ =>
      st ← attribute st env (fs_src s);
      forward_admitted st env frame s l4
  end.

(** The part of [relay_switch_frames_to_guest] that a delivery to a registered
    box runs: [false] is a frame that is not delivered. *)
Definition observe_delivery (st : RelayState) (env : FrameEnv) (frame : list Z) (pkt : L4Packet) (record : BoxRecord)
    : outcome (RelayState * bool) :=
  let subnet := bt_subnet (fe_table env) in
  let replies := gs_replies (rs_gate st) in
  if negb (inside_published (fe_forwards env) (rec_switch_addr record) (sa_port (l4_dst pkt))) then
    Done (set_rs_replies st (observe_refusable replies record pkt subnet (fe_clock env 0%nat)), true)
  else if bool_decide (sa_ip (l4_src pkt) = box_egress_proxy_address subnet) && (l4_proto pkt =? IPPROTO_TCP)
          && has_flag (l4_tcp_flags pkt) TCP_SYN && negb (has_flag (l4_tcp_flags pkt) TCP_ACK) then
    Done (set_rs_limiter st (warn_proxy_opening (rs_limiter st) (rec_switch_addr record) (fe_clock env 1%nat)).1, false)
  else
    r ← observe_delivered replies record pkt (rs_limiter st) subnet (fe_clock env 0%nat) (fe_clock env 1%nat);
    let '(t, l, flow) := r : ReplyTables * DropLimiter * option InboundFlow in
    let st := set_rs_limiter (set_rs_replies st t) l in
    match flow with
    | Some RefusedAtCap => Done (st, false)
    | _ =>
        match parse_tcp_segment frame with
        | Some segment => Done (set_rs_flows st (observe_toward_box (rs_flows st) segment (fe_clock env 0%nat)), true)
        | None => Done (st, true)
        end
    end.

(** One frame of [relay_switch_frames_to_guest]. *)
Definition ingress_frame (st : RelayState) (env : FrameEnv) (frame : list Z) : outcome (RelayState * LegStep) :=
  l4 ← parse_ipv4_l4 frame;
  match fe_room env with
  | QueueFull =>
      Done (set_rs_limiter st (warn_backpressure (rs_limiter st) TowardGuest (option_map (fun p => sa_ip (l4_dst p)) l4)
                                 (fe_clock env 1%nat)).1, LegNext None)
  | QueueClosed => Done (st, LegError "the relay's guest writer is gone")
  | QueueTakes =>
      r ← match l4 with
          | Some pkt =>
              match by_source (fe_table env) (sa_ip (l4_dst pkt)) with
              | Some record => observe_delivery st env frame pkt record
              | None => Done (st, true)
              end
          | None => Done (st, true)
          end;
      let '(st, delivers) := r : RelayState * bool in
      if negb delivers then Done (st, LegNext None)
      else
        dns ← (if is_ipv4_udp frame then udp_datagram frame else Done None);
        match dns with
        | Some (pkt, datagram) =>
            r ← observe_reply (gs_pins (rs_gate st)) (fe_table env) pkt datagram (rs_limiter st)
                  (fe_limiter_clock env) (fe_limiter_clock' env) (fe_clock env 2%nat);
            let '(p, l) := r : DnsPins * DropLimiter in
            Done (set_rs_limiter (set_rs_pins st p) l, LegNext (Some (framed frame)))
        | None => Done (st, LegNext (Some (framed frame)))
        end
  end.

(** A socket half: the bytes it still yields, and whether it then closes or
    fails. *)
Record Stream : Type := { sm_bytes : list Z; sm_closes : bool }.
Inductive LegEnd : Type := LegDone | LegFailed (what : string).

(** [u16::from_le_bytes]. *)
Definition le16 (a b : Z) : Z := a + 256 * b.

(** The loop both legs run: two bytes of length, then the frame.  A round
    consumes at least two bytes, so one unit of fuel per byte, and one, is
    enough. *)
Fixpoint leg_loop (step : RelayState -> FrameEnv -> list Z -> outcome (RelayState * LegStep)) (side : string)
    (fuel : nat) (envs : nat -> FrameEnv) (st : RelayState) (s : Stream)
    : outcome (RelayState * list (list Z) * LegEnd) :=
  match fuel with
  | O => OutOfFuel
  | S fuel =>
      match sm_bytes s with
      | a :: b :: bytes =>
          let n := Z.to_nat (le16 a b) in
          if (n =? 0)%nat then leg_loop step side fuel envs st {| sm_bytes := bytes; sm_closes := sm_closes s |}
          else if (max_frame <? n)%nat then Done (st, [], LegFailed (side ++ " frame length exceeds max")%string)
          else if (length bytes <? n)%nat then Done (st, [], LegFailed "read")
          else
            r ← step (fe_meanwhile (envs 0%nat) st) (envs 0%nat) (take n bytes);
            let '(st, next) := r : RelayState * LegStep in
            match next with
            | LegError what => Done (st, [], LegFailed what)
            | LegNext sent =>
                r ← leg_loop step side fuel (fun i => envs (S i)) st {| sm_bytes := drop n bytes; sm_closes := sm_closes s |};
                let '(st, out, end_) := r : RelayState * list (list Z) * LegEnd in
                Done (st, match sent with Some f => f :: out | None => out end, end_)
            end
      | _ => Done (st, [], if sm_closes s then LegDone else LegFailed "read")
      end
  end.

(** [relay_frames_to_switch] and [relay_switch_frames_to_guest]. *)
Definition relay_frames_to_switch (envs : nat -> FrameEnv) (st : RelayState) (s : Stream) :=
  leg_loop egress_frame "guest" (S (length (sm_bytes s))) envs st s.
Definition relay_switch_frames_to_guest (envs : nat -> FrameEnv) (st : RelayState) (s : Stream) :=
  leg_loop ingress_frame "switch" (S (length (sm_bytes s))) envs st s.
End legs.

(** * The frame relay's guarantees (crates/minvmd/src/net/egress_gate.rs)

    Each leg is run over a whole stream: what it writes are whole frames of
    what it read, in order, framed so that the far end reads the same frames
    back; and every frame of the egress leg was admitted by the gate, in the
    state and against the table of its own round. *)

(** ** Framing *)

(** The frames of a stream, up to the first whose length is over the bound or
    that the stream cuts short. *)
Fixpoint stream_frames (fuel : nat) (bytes : list Z) : list (list Z) :=
  match fuel with
  | O => []
  | S fuel =>
      match bytes with
      | a :: b :: bytes =>
          let n := Z.to_nat (le16 a b) in
          if (n =? 0)%nat then stream_frames fuel bytes
          else if (max_frame <? n)%nat then []
          else if (length bytes <? n)%nat then []
          else take n bytes :: stream_frames fuel (drop n bytes)
      | _ => []
      end
  end.
Definition frames_of (bytes : list Z) : list (list Z) := stream_frames (length bytes) bytes.

Definition frame_fits (frame : list Z) : Prop := (0 < length frame <= max_frame)%nat.

Lemma le16_framed n : (n <= max_frame)%nat ->
  let m := Z.of_nat n mod 65536 in Z.to_nat (le16 (Z.land m 255) (Z.shiftr m 8)) = n.
Proof.
  unfold max_frame, DEFAULT_MTU. intros Hn. cbv zeta. unfold le16. rewrite Z.mod_small by lia.
  rewrite (Z.land_ones _ 8), Z.shiftr_div_pow2 by lia. change (2 ^ 8) with 256.
  pose proof (Z.div_mod (Z.of_nat n) 256). lia.
Qed.

Lemma stream_frames_fits fuel bytes : Forall frame_fits (stream_frames fuel bytes).
Proof.
  revert bytes. induction fuel as [|fuel IH]; intros bytes; [constructor|]. cbn [stream_frames].
  destruct bytes as [|a [|b bytes]]; [constructor..|]. cbv zeta. destruct (_ =? 0)%nat eqn:E0; [apply IH|].
  destruct (max_frame <? _)%nat eqn:E1; [constructor|].
  destruct (length bytes <? _)%nat eqn:E2; [constructor|].
  constructor; [|apply IH]. apply Nat.eqb_neq in E0. apply Nat.ltb_ge in E1, E2. unfold frame_fits. rewrite length_take. lia.
Qed.

(** One unit of fuel per byte is enough. *)
Lemma stream_frames_agree n m bs : (length bs <= n)%nat -> (length bs <= m)%nat -> stream_frames n bs = stream_frames m bs.
Proof.
  revert m bs. induction n as [|n IHn]; intros m bs Hn Hm; [destruct bs; [by destruct m|cbn in Hn; lia]|].
  destruct m as [|m]; [destruct bs; [done|cbn in Hm; lia]|]. cbn [stream_frames].
  destruct bs as [|a [|b bs]]; [done..|]. cbn [length] in Hn, Hm. cbv zeta.
  assert (Hd : (length (drop (Z.to_nat (le16 a b)) bs) <= length bs)%nat) by (rewrite length_drop; lia).
  by rewrite (IHn m bs), (IHn m (drop _ bs)) by lia.
Qed.

Lemma stream_frames_enough n bs : (length bs <= n)%nat -> stream_frames n bs = stream_frames (length bs) bs.
Proof. intros H. by apply stream_frames_agree. Qed.

Lemma stream_frames_step a b bs :
  stream_frames (length (a :: b :: bs)) (a :: b :: bs) =
  let n := Z.to_nat (le16 a b) in
  if (n =? 0)%nat then stream_frames (length bs) bs
  else if (max_frame <? n)%nat then []
  else if (length bs <? n)%nat then []
  else take n bs :: stream_frames (length (drop n bs)) (drop n bs).
Proof.
  cbn [length]. assert (Hk : (length bs <= S (length bs))%nat) by lia. remember (S (length bs)) as k eqn:E. clear E.
  cbn [stream_frames]. cbv zeta.
  assert (Hd : (length (drop (Z.to_nat (le16 a b)) bs) <= length bs)%nat) by (rewrite length_drop; lia).
  by rewrite !(stream_frames_enough k) by lia.
Qed.

Lemma stream_frames_cons frame rest fuel :
  frame_fits frame -> stream_frames (S fuel) (framed frame ++ rest) = frame :: stream_frames fuel rest.
Proof.
  intros [H0 H1]. unfold framed. cbv zeta. cbn [app stream_frames]. rewrite le16_framed by done.
  destruct (length frame =? 0)%nat eqn:E0; [apply Nat.eqb_eq in E0; lia|].
  destruct (max_frame <? length frame)%nat eqn:E1; [apply Nat.ltb_lt in E1; lia|].
  rewrite length_app. destruct (length frame + _ <? length frame)%nat eqn:E2; [apply Nat.ltb_lt in E2; lia|].
  by rewrite take_app_length, drop_app_length.
Qed.

(** What is framed is read back. *)
Lemma framed_read_back frames : Forall frame_fits frames -> frames_of (concat (map framed frames)) = frames.
Proof.
  intros Hf. unfold frames_of.
  enough (forall fuel, (length frames <= fuel)%nat -> stream_frames fuel (concat (map framed frames)) = frames) as H.
  { apply H. clear H. induction Hf as [|f frames [Hf _] _ IH]; [done|]. cbn. rewrite length_app. lia. }
  induction Hf as [|f frames Hf _ IH]; intros fuel Hl; [by destruct fuel|]. destruct fuel as [|fuel]; [cbn in Hl; lia|].
  cbn [map concat]. rewrite stream_frames_cons by done. f_equal. apply IH. cbn in Hl. lia.
Qed.

(** ** The egress leg *)

Section egress.
Context `{DnsCodec}.

Lemma observe_query_total d table pkt dg marked now : exists d', observe_query d table pkt dg marked now = Done d'.
Proof.
  unfold observe_query. destruct (_ || _); [by eexists|]. destruct (_ && _).
  - destruct (host_ip_entry_total d table) as (d' & [e|] & ->); rewrite bind_Done; by eexists.
  - destruct (by_source _ _) as [record|]; [|by eexists].
    destruct (entry_total d record) as (d' & [e|] & ->); rewrite bind_Done; by eexists.
Qed.

Lemma udp_datagram_total frame : exists r, udp_datagram frame = Done r.
Proof.
  unfold udp_datagram. destruct (parse_total frame) as (r & ->). rewrite bind_Done. destruct r as [pkt|]; [|by eexists].
  destruct (_ =? _); [|by eexists]. destruct (udp_payload_total frame pkt) as (p & -> & _). rewrite bind_Done. by eexists.
Qed.

(** The frame was admitted in the state [st] of the relay: by the gate's
    verdict in that state, as an answer it has earned there or confined to
    what its source declares in the table, and not as a lookup that a deny-all
    row may not make. *)
Definition relayed (st : RelayState) (env : FrameEnv) (frame : list Z) : Prop :=
  exists s l4 src g how, summarize frame = Done s /\ parse_ipv4_l4 frame = Done l4 /\ fs_src s = Some src /\
    gate_verdict (rs_gate st) s l4 (fe_table env) (fe_baseline env) (fe_clock env) = Done (g, inl how) /\
    (answered (rs_gate st) s l4 (fe_table env) src (fe_clock env) \/
     ((fs_dst s = Some (table_gateway (fe_table env)) -> resolver_query s) /\
      confined (fe_table env) (fe_baseline env) s src)) /\
    forall query datagram, is_ipv4_udp frame = true -> sa_port (l4_dst query) = RESOLVER_PORT ->
      udp_datagram frame = Done (Some (query, datagram)) -> deny_all_refusal (fe_table env) query datagram = None.

Lemma egress_frame_spec st env frame :
  rows_stand (bt_rows (fe_table env)) ->
  exists st' next, egress_frame st env frame = Done (st', next) /\
    forall sent, next = LegNext (Some sent) -> sent = framed frame /\ relayed st env frame.
Proof.
  intros Hrows. unfold egress_frame. destruct (summarize_never_panics frame) as [s Hs]. destruct (parse_total frame) as [l4 Hl4].
  rewrite Hs, bind_Done, Hl4, bind_Done.
  destruct (gate_confined (rs_gate st) s l4 (fe_table env) (fe_baseline env) (fe_clock env)) as (g & d & Hv & Hd).
  rewrite Hv, bind_Done. destruct d as [how|dropped]; [|by eexists _, _]. destruct (Hd how eq_refl) as (src & Hsrc & Hconf).
  assert (exists st', attribute (set_rs_gate st g) env (fs_src s) = Done st') as [st' ->].
  { rewrite Hsrc. unfold attribute. destruct (bool_decide _); [by eexists|].
    destruct (carry_total (fe_table env) (rs_live (set_rs_gate st g)) src (rs_carried (set_rs_gate st g)) Hrows) as (v & c & ->).
    rewrite bind_Done. by eexists. }
  rewrite bind_Done. unfold forward_admitted.
  set (asks := is_ipv4_udp frame && match l4 with Some p => sa_port (l4_dst p) =? RESOLVER_PORT | None => false end).
  destruct (udp_datagram_total frame) as [dg Hdg].
  assert (Hdns : (if asks then udp_datagram frame else Done None) = Done (if asks then dg else None)) by by destruct asks.
  rewrite Hdns, bind_Done.
  destruct (match (if asks then dg else None) with Some (query, datagram) => deny_all_refusal (fe_table env) query datagram | None => None end)
    as [refusal|] eqn:Hden; [by eexists _, _|].
  destruct (fe_room env); [|by eexists _, _..].
  assert (Hr : relayed st env frame).
  { exists s, l4, src, g, how. do 5 (split; [done|]). intros query datagram Hudp Hport Hq.
    rewrite Hdg in Hq. injection Hq as ->. enough (asks = true) as -> by done. unfold asks. rewrite Hudp.
    unfold udp_datagram in Hdg. rewrite Hl4, bind_Done in Hdg. destruct l4 as [pkt|]; [|done].
    destruct (l4_proto pkt =? _); [|done]. destruct (udp_payload_total frame pkt) as (p & Hp & _). rewrite Hp, bind_Done in Hdg.
    destruct p; [|done]. injection Hdg as <- _. by rewrite Hport. }
  clear Hden. cbv zeta. destruct (if asks then dg else None) as [[query datagram]|].
  - match goal with |- context [observe_query ?d ?t ?p ?dg ?m ?n] => destruct (observe_query_total d t p dg m n) as [d' ->] end.
    rewrite bind_Done. eexists _, _. split; [done|]. by intros sent [= <-].
  - eexists _, _. split; [done|]. by intros sent [= <-].
Qed.

(** ** The ingress leg *)

Lemma observe_delivered_total t record pkt limiter subnet now warn_now :
  exists t' l' flow, observe_delivered t record pkt limiter subnet now warn_now = Done (t', l', flow).
Proof.
  unfold observe_delivered. destruct (bool_decide _); [by eexists _, _, _|]. cbv zeta. set (e := replies_entry t record).
  pose proof (observe_inbound_grows (br_flows e) (reply_tuple_of pkt) (l4_tcp_flags pkt) now) as Hg.
  destruct (observe_inbound (br_flows e) _ _ now) as [flows flow]. cbn [fst snd] in Hg. rewrite usize_sub_le, bind_Done by done.
  destruct flow as [filled| | | |]; by eexists _, _, _.
Qed.

Lemma observe_reply_total d table pkt dg l clock clock' now : exists d' l', observe_reply d table pkt dg l clock clock' now = Done (d', l').
Proof.
  unfold observe_reply. destruct (negb _); [by eexists _, _|].
  assert (exists d' l', (if bool_decide (sa_ip (l4_dst pkt) = daemon_ip (bt_subnet table)) then
           r ← host_ip_entry d table;
           let '(d, e) := r : DnsPins * option BoxPins in
           match e with
           | Some e => let '(e, limiter) := observe e pkt dg l clock now in Done (set_host_ip d (Some e), limiter)
           | None => Done (d, l)
           end
         else Done (d, l)) = Done (d', l')) as (d' & l' & ->).
  { destruct (bool_decide _); [|by eexists _, _].
    destruct (host_ip_entry_total d table) as (d' & [e|] & ->); rewrite bind_Done; [destruct (observe e _ _ _ _ _)|]; by eexists _, _. }
  rewrite bind_Done. destruct (by_source _ _) as [record|]; [|by eexists _, _].
  destruct (entry_total d' record) as (d2 & [e|] & ->); rewrite bind_Done; [destruct (observe e _ _ _ _ _)|]; by eexists _, _.
Qed.

(** An opening of the proxy toward a port a publish of the box dials. *)
Definition proxy_opening (env : FrameEnv) (frame : list Z) : Prop :=
  exists pkt record, parse_ipv4_l4 frame = Done (Some pkt) /\ by_source (fe_table env) (sa_ip (l4_dst pkt)) = Some record /\
    inside_published (fe_forwards env) (rec_switch_addr record) (sa_port (l4_dst pkt)) = true /\
    sa_ip (l4_src pkt) = box_egress_proxy_address (bt_subnet (fe_table env)) /\ l4_proto pkt = IPPROTO_TCP /\
    has_flag (l4_tcp_flags pkt) TCP_SYN = true /\ has_flag (l4_tcp_flags pkt) TCP_ACK = false.

Lemma ingress_frame_spec st env frame :
  exists st' next, ingress_frame st env frame = Done (st', next) /\
    forall sent, next = LegNext (Some sent) -> sent = framed frame /\ ~ proxy_opening env frame.
Proof.
  unfold ingress_frame. destruct (parse_total frame) as [l4 Hl4]. rewrite Hl4, bind_Done. destruct (fe_room env); [|by eexists _, _..].
  assert (exists st' delivers,
    match l4 with
    | Some pkt => match by_source (fe_table env) (sa_ip (l4_dst pkt)) with
                  | Some record => observe_delivery st env frame pkt record
                  | None => Done (st, true)
                  end
    | None => Done (st, true)
    end = Done (st', delivers) /\ (delivers = true -> ~ proxy_opening env frame)) as (st' & delivers & -> & Hdel).
  { unfold proxy_opening. rewrite Hl4. destruct l4 as [pkt|]; [|eexists _, _; split; [done|]; intros _ (? & ? & ? & _); congruence].
    destruct (by_source (fe_table env) (sa_ip (l4_dst pkt))) as [record|] eqn:Hsrc.
    2: { eexists _, _. split; [done|]. intros _ (? & ? & [= <-] & ? & _). congruence. }
    unfold observe_delivery. cbv zeta. destruct (inside_published _ _ _) eqn:Hpub; cbn [negb].
    2: { eexists _, _. split; [done|]. intros _ (? & ? & [= <-] & Hs & Hi & _). rewrite Hsrc in Hs. injection Hs as <-. congruence. }
    destruct (bool_decide _ && _ && _ && _) eqn:Hopen; [by eexists _, _|].
    match goal with |- context [observe_delivered ?a ?b ?c ?d ?e ?f ?g] =>
      destruct (observe_delivered_total a b c d e f g) as (t' & l' & flow & ->) end.
    rewrite bind_Done.
    assert (Hno : ~ proxy_opening env frame).
    { intros (pkt' & record' & Hp & _ & _ & Ha & Hb & Hc & Hd). rewrite Hl4 in Hp. injection Hp as <-.
      rewrite Ha, Hb, Hc, Hd, bool_decide_eq_true_2 in Hopen by done. done. }
    unfold proxy_opening in Hno. rewrite Hl4 in Hno.
    destruct flow as [[]|]; try destruct (parse_tcp_segment frame); eexists _, _; (split; [reflexivity|]; first [done|intros _; exact Hno]). }
  rewrite bind_Done. destruct delivers; cbn [negb]; [|by eexists _, _]. specialize (Hdel eq_refl).
  destruct (udp_datagram_total frame) as [dg Hdg].
  assert ((if is_ipv4_udp frame then udp_datagram frame else Done None) = Done (if is_ipv4_udp frame then dg else None)) as ->
    by by destruct (is_ipv4_udp frame).
  rewrite bind_Done. destruct (if is_ipv4_udp frame then dg else None) as [[pkt datagram]|].
  - match goal with |- context [observe_reply ?d ?t ?p ?g ?l ?c ?c' ?n] =>
      destruct (observe_reply_total d t p g l c c' n) as (d' & l' & ->) end.
    rewrite bind_Done. eexists _, _. split; [done|]. by intros sent [= <-].
  - eexists _, _. split; [done|]. by intros sent [= <-].
Qed.
End egress.

(** ** A whole stream *)

(** The rounds of a leg over the frames of a stream: each frame meets its own
    environment, in the state the round before left as other tasks changed it;
    it is dropped, or written as it was read, and then [ok] holds of it there;
    or the leg fails at it. *)
Inductive leg_trace (step : RelayState -> FrameEnv -> list Z -> outcome (RelayState * LegStep))
    (ok : RelayState -> FrameEnv -> list Z -> Prop) : (nat -> FrameEnv) -> RelayState -> list (list Z) -> list (list Z) -> RelayState -> Prop :=
| lt_end envs st : leg_trace step ok envs st [] [] st
| lt_failed envs st frame frames what st' :
    step (fe_meanwhile (envs 0%nat) st) (envs 0%nat) frame = Done (st', LegError what) -> leg_trace step ok envs st (frame :: frames) [] st'
| lt_dropped envs st frame frames st1 sent st' :
    step (fe_meanwhile (envs 0%nat) st) (envs 0%nat) frame = Done (st1, LegNext None) ->
    leg_trace step ok (fun i => envs (S i)) st1 frames sent st' -> leg_trace step ok envs st (frame :: frames) sent st'
| lt_sent envs st frame frames st1 sent st' :
    step (fe_meanwhile (envs 0%nat) st) (envs 0%nat) frame = Done (st1, LegNext (Some (framed frame))) ->
    ok (fe_meanwhile (envs 0%nat) st) (envs 0%nat) frame ->
    leg_trace step ok (fun i => envs (S i)) st1 frames sent st' -> leg_trace step ok envs st (frame :: frames) (frame :: sent) st'.

Lemma leg_trace_sublist step ok envs st frames sent st' : leg_trace step ok envs st frames sent st' -> sent `sublist_of` frames.
Proof. induction 1; [done|apply sublist_nil_l|by apply sublist_cons|by apply sublist_skip]. Qed.

Lemma leg_loop_spec (step : RelayState -> FrameEnv -> list Z -> outcome (RelayState * LegStep)) side
    (good : FrameEnv -> Prop) (ok : RelayState -> FrameEnv -> list Z -> Prop) fuel envs st s :
  (forall st env frame, good env -> exists st' next, step st env frame = Done (st', next) /\
     forall sent, next = LegNext (Some sent) -> sent = framed frame /\ ok st env frame) ->
  (forall i, good (envs i)) -> (length (sm_bytes s) < fuel)%nat ->
  exists st' sent end_, leg_loop step side fuel envs st s = Done (st', map framed sent, end_) /\
    leg_trace step ok envs st (stream_frames (length (sm_bytes s)) (sm_bytes s)) sent st'.
Proof.
  intros Hstep. revert envs st s. induction fuel as [|fuel IH]; intros envs st [bytes closes] Hg Hf; cbn [sm_bytes] in *; [lia|].
  cbn [leg_loop sm_bytes sm_closes]. destruct bytes as [|a [|b bytes]].
  1, 2: eexists _, [], _; split; [done|]; constructor.
  rewrite stream_frames_step. cbn [length] in Hf. cbv zeta. destruct (Z.to_nat (le16 a b) =? 0)%nat.
  { apply (IH envs st {| sm_bytes := bytes; sm_closes := closes |}); [done|cbn; lia]. }
  destruct (max_frame <? Z.to_nat (le16 a b))%nat; [eexists _, [], _; split; [done|]; constructor|].
  destruct (length bytes <? Z.to_nat (le16 a b))%nat; [eexists _, [], _; split; [done|]; constructor|].
  destruct (Hstep (fe_meanwhile (envs 0%nat) st) (envs 0%nat) (take (Z.to_nat (le16 a b)) bytes) (Hg 0%nat)) as (st1 & next & Hs & Hsent).
  rewrite Hs, bind_Done. destruct next as [sent|what]; [|eexists _, [], _; split; [done|]; by eapply lt_failed].
  assert (Hlen : (length (drop (Z.to_nat (le16 a b)) bytes) <= length bytes)%nat) by (rewrite length_drop; lia).
  destruct (IH (fun i => envs (S i)) st1 {| sm_bytes := drop (Z.to_nat (le16 a b)) bytes; sm_closes := closes |})
    as (st' & rest & end_ & -> & Htr); [by intros i|cbn [sm_bytes]; lia|]. rewrite bind_Done. cbn [sm_bytes] in Htr.
  destruct sent as [sent|].
  - destruct (Hsent sent eq_refl) as [-> Hk]. eexists _, (_ :: rest), _. split; [done|]. by eapply lt_sent.
  - eexists _, rest, _. split; [done|]. by eapply lt_dropped.
Qed.

(** C37: both legs of a relay, over any stream and any sequence of tables,
    ledgers and clocks the rounds meet, whatever the other leg and the other
    relays do to the shared state between them: the leg returns; what it
    wrote are whole frames it read, in the order it read them, and the far
    end reads exactly those frames back.  Every frame written to the switch
    was admitted by the gate's verdict in the relay's own state at that frame,
    as an answer that state has earned or confined to what its source
    declares in the table of that round, and is no lookup a deny-all row may
    not make; no frame written to the guest is an opening of the proxy at a
    port published in the ledger of that round.  Both legs ask that in every
    table met each task row's box row stands: [mark_row] locks the same row
    twice otherwise, and the egress leg never returns. *)
Theorem legs_relay_frames `{DnsCodec} envs st s :
  (forall i, rows_stand (bt_rows (fe_table (envs i)))) ->
  (exists st' sent end_, relay_frames_to_switch envs st s = Done (st', map framed sent, end_) /\
     leg_trace egress_frame relayed envs st (frames_of (sm_bytes s)) sent st' /\
     sent `sublist_of` frames_of (sm_bytes s) /\ frames_of (concat (map framed sent)) = sent) /\
  (exists st' sent end_, relay_switch_frames_to_guest envs st s = Done (st', map framed sent, end_) /\
     leg_trace ingress_frame (fun _ env frame => ~ proxy_opening env frame) envs st (frames_of (sm_bytes s)) sent st' /\
     sent `sublist_of` frames_of (sm_bytes s) /\ frames_of (concat (map framed sent)) = sent).
Proof.
  intros Hrows.
  assert (Hround : forall sent, sent `sublist_of` frames_of (sm_bytes s) -> frames_of (concat (map framed sent)) = sent).
  { intros sent Hs. apply framed_read_back. apply list.Forall_forall. intros f Hf.
    eapply list.Forall_forall; [apply stream_frames_fits|]. eapply elem_of_submseteq; [exact Hf|by apply sublist_submseteq]. }
  split.
  - destruct (leg_loop_spec egress_frame "guest" (fun env => rows_stand (bt_rows (fe_table env))) relayed
                (S (length (sm_bytes s))) envs st s) as (st' & sent & end_ & Hl & Htr); [apply egress_frame_spec|done|lia|].
    exists st', sent, end_. pose proof (leg_trace_sublist _ _ _ _ _ _ _ Htr). auto.
  - destruct (leg_loop_spec ingress_frame "switch" (fun _ => True) (fun _ env frame => ~ proxy_opening env frame)
                (S (length (sm_bytes s))) envs st s) as (st' & sent & end_ & Hl & Htr); [intros; apply ingress_frame_spec|done|lia|].
    exists st', sent, end_. pose proof (leg_trace_sublist _ _ _ _ _ _ _ Htr). auto.
Qed.

(** ** A relay to evaluate *)

Module RelaySample.
Import GateSample.
#[local] Existing Instance Sample.codec.

(** A TCP frame between two addresses, with no payload. *)
Definition tcp_frame (src dst : ip4) (port flags : Z) : list Z :=
  let octets a := match a with Ip4 x y z w => [x; y; z; w] end in
  [0;0;0;0;0;0; 0;0;0;0;0;0; 8;0; 69;0;0;40; 0;0;0;0; 64;6;0;0] ++ octets src ++ octets dst
  ++ [156;64; Z.shiftr port 8; Z.land port 255; 0;0;0;1; 0;0;0;0; 80;flags;0;0; 0;0;0;0].
Definition env : FrameEnv :=
  {| fe_meanwhile := fun st => st; fe_table := table; fe_baseline := baseline; fe_forwards := forwards_new; fe_clock := fun _ => 0;
     fe_limiter_clock := fun _ => 0; fe_limiter_clock' := fun _ => 0; fe_room := QueueTakes |}.
Definition relay : RelayState :=
  {| rs_gate := state; rs_limiter := limiter_new; rs_flows := ∅; rs_live := ∅; rs_attributed := [];
     rs_carried := relay_carry_new |}.
Definition let_through : list Z := tcp_frame (Ip4 100 64 0 2) (Ip4 140 82 112 3) 443 2.
Definition kept : list Z := tcp_frame (Ip4 100 64 0 2) (Ip4 127 0 0 1) 443 2.
Definition stream : Stream := {| sm_bytes := [0; 0] ++ framed kept ++ framed let_through; sm_closes := true |}.

Example relay_decides :
  match relay_frames_to_switch (fun _ => env) relay stream with
  | Done (st, out, end_) => out = [framed let_through] /\ end_ = LegDone /\ rs_attributed st = [Ip4 100 64 0 2]
  | _ => False
  end.
Proof. vm_compute. repeat split. Qed.

(** A task row whose box row is gone: the first frame it sends stops the
    relay in [mark_row]. *)
Definition orphan : BoxRecord :=
  {| rec_id := 3; rec_box_id := 3; rec_name := "task"; rec_switch_addr := Ip4 100 64 0 4; rec_loopback_addr := Ip4 127 0 64 4; rec_admitted_ports := []; rec_declared_names := [];
     rec_egress := rules; rec_resolves_names := false; rec_dns_hosts := []; rec_deny_all := false;
     rec_credentialed_upstream := false; rec_dynamic_ingress := IngressDeny; rec_dynamic_range := None; rec_task_row_of := Some (Ip4 100 64 0 7); rec_task_addrs := [] |}.
Example orphan_task_row_blocks : mark_row {[Ip4 100 64 0 4 := orphan]} ∅ orphan = Panicked.
Proof. reflexivity. Qed.

Lemma sample_rows_stand : rows_stand (bt_rows table).
Proof.
  intros addr r Hr [a Ha]. unfold table in Hr. cbn [bt_rows] in Hr.
  apply lookup_insert_Some in Hr as [[_ <-]|[_ Hr]]; [done|]. by apply lookup_singleton_Some in Hr as [_ <-].
Qed.

Lemma legs_relay_frames_witness :
  exists st' sent end_, relay_frames_to_switch (fun _ => env) relay stream = Done (st', map framed sent, end_) /\
     leg_trace egress_frame relayed (fun _ => env) relay (frames_of (sm_bytes stream)) sent st' /\
     sent `sublist_of` frames_of (sm_bytes stream) /\ frames_of (concat (map framed sent)) = sent.
Proof. exact (proj1 (legs_relay_frames (fun _ => env) relay stream (fun _ => sample_rows_stand))). Defined.
End RelaySample.
