(* ===== verification/RowRegistry.v ===== *)
(** * The registry of box rows (crates/minvmd/src/box_registry.rs)

    Registration of a box with its task rows, withdrawal, the detachment of a
    row when the last relay that carries it ends, and the withdrawal of the
    rows whose grace is over.  An operation runs under the registry's row
    lock; the proxy's attachments, persistence, pending asks and pings are
    outside the model. *)

From stdpp Require Import base list gmap sets strings numbers.
From Stdlib Require Import ZArith Lia.
From S2P Require Import Prelude Text Egress Ingress Switch Classifier DnsPins RowCarry AddressBook HostGate.
Open Scope Z_scope.

Definition DETACH_GRACE : Z := from_secs 45.
Definition RESUME_ATTACH_BOUND : Z := from_secs 300.

(** [in_reserved_local_range]. *)
Definition in_reserved_local_range (addr : ip4) : bool :=
  let '(network, prefix) := RESERVED_LOCAL_RANGE in
  let host_bits := 32 - prefix in
  if 32 <=? host_bits then true
  else
    let mask := Z.land (Z.shiftl u32_MAX host_bits) u32_MAX in
    Z.land (ip4_u32 network) mask =? Z.land (ip4_u32 addr) mask.

(** [revocation_addrs] and [BoxRecord::revocation_addrs]. *)
Definition revocation_addrs (switch_addr loopback_addr : ip4) : list ip4 :=
  switch_addr :: if in_reserved_local_range loopback_addr then [loopback_addr] else [].
Definition is_task_row (r : BoxRecord) : bool := bool_decide (is_Some (rec_task_row_of r)).
Definition record_revocation_addrs (r : BoxRecord) : list ip4 :=
  if is_task_row r then [rec_switch_addr r] else revocation_addrs (rec_switch_addr r) (rec_loopback_addr r).

(** ** Revocation holds *)

(** [Revoking]: holds are counted. *)
Notation Revoking := (gmap ip4 Z).
Definition first_held (held : Revoking) (addrs : list ip4) : option ip4 :=
  List.find (fun a => bool_decide (is_Some (held !! a))) addrs.
Definition hold_addrs (held : Revoking) (addrs : list ip4) : Revoking :=
  foldl (fun held a => <[a := default 0 (held !! a) + 1]> held) held addrs.
Definition release_addrs (held : Revoking) (addrs : list ip4) : Revoking :=
  foldl (fun held a =>
    match held !! a with
    | Some count => let count := Z.max (count - 1) 0 in if count =? 0 then delete a held else <[a := count]> held
    | None => held
    end) held addrs.

(** ** Registrations *)

Record BoxRegistration : Type := {
  br_name : string;
  br_box_id : option nat;
  br_switch_addr : ip4;
  br_loopback_addr : ip4;
  br_admitted_ports : list Z;
  br_declared_names : list string;
  br_egress : option EgressPolicy;
  br_credentialed_upstream : bool;
  br_dynamic_ingress : option DynamicIngress;
  br_dynamic_allowed_range : option (Z * Z);
  br_task_addrs : list ip4;
}.

(** What the registry reads of a [Creation]. *)
Record Creation : Type := { cr_name : string; cr_id : nat; cr_standing : bool }.

Inductive AllocationError : Type := RevocationPending (addr : ip4) | WithdrawnWhileAllocating.

(** The registry; [rg_next] is the identity of the next record. *)
Record BoxRegistry : Type := {
  rg_subnet : SwitchSubnet;
  rg_rows : gmap ip4 BoxRecord;
  rg_live : Livenesses;
  rg_epoch : Z;
  rg_revoking : Revoking;
  rg_subscribed : bool;
  rg_generations : gmap string Z;
  rg_creations : gmap string Creation;
  rg_superseded : list Creation;
  rg_book : SwitchAddressBook;
  rg_stopped : gset ip4;
  rg_next : nat;
}.

Definition set_rg_rows (g : BoxRegistry) (rows : gmap ip4 BoxRecord) : BoxRegistry :=
  {| rg_subnet := rg_subnet g; rg_rows := rows; rg_live := rg_live g; rg_epoch := rg_epoch g; rg_revoking := rg_revoking g;
     rg_subscribed := rg_subscribed g; rg_generations := rg_generations g; rg_creations := rg_creations g;
     rg_superseded := rg_superseded g; rg_book := rg_book g; rg_stopped := rg_stopped g; rg_next := rg_next g |}.
Definition set_rg_live (g : BoxRegistry) (live : Livenesses) : BoxRegistry :=
  {| rg_subnet := rg_subnet g; rg_rows := rg_rows g; rg_live := live; rg_epoch := rg_epoch g; rg_revoking := rg_revoking g;
     rg_subscribed := rg_subscribed g; rg_generations := rg_generations g; rg_creations := rg_creations g;
     rg_superseded := rg_superseded g; rg_book := rg_book g; rg_stopped := rg_stopped g; rg_next := rg_next g |}.
Definition set_rg_revoking (g : BoxRegistry) (held : Revoking) : BoxRegistry :=
  {| rg_subnet := rg_subnet g; rg_rows := rg_rows g; rg_live := rg_live g; rg_epoch := rg_epoch g; rg_revoking := held;
     rg_subscribed := rg_subscribed g; rg_generations := rg_generations g; rg_creations := rg_creations g;
     rg_superseded := rg_superseded g; rg_book := rg_book g; rg_stopped := rg_stopped g; rg_next := rg_next g |}.
Definition set_rg_creations (g : BoxRegistry) (generations : gmap string Z) (creations : gmap string Creation) : BoxRegistry :=
  {| rg_subnet := rg_subnet g; rg_rows := rg_rows g; rg_live := rg_live g; rg_epoch := rg_epoch g; rg_revoking := rg_revoking g;
     rg_subscribed := rg_subscribed g; rg_generations := generations; rg_creations := creations;
     rg_superseded := rg_superseded g; rg_book := rg_book g; rg_stopped := rg_stopped g; rg_next := rg_next g |}.
Definition set_rg_book (g : BoxRegistry) (book : SwitchAddressBook) : BoxRegistry :=
  {| rg_subnet := rg_subnet g; rg_rows := rg_rows g; rg_live := rg_live g; rg_epoch := rg_epoch g; rg_revoking := rg_revoking g;
     rg_subscribed := rg_subscribed g; rg_generations := rg_generations g; rg_creations := rg_creations g;
     rg_superseded := rg_superseded g; rg_book := book; rg_stopped := rg_stopped g; rg_next := rg_next g |}.
Definition set_rg_stopped (g : BoxRegistry) (stopped : gset ip4) : BoxRegistry :=
  {| rg_subnet := rg_subnet g; rg_rows := rg_rows g; rg_live := rg_live g; rg_epoch := rg_epoch g; rg_revoking := rg_revoking g;
     rg_subscribed := rg_subscribed g; rg_generations := rg_generations g; rg_creations := rg_creations g;
     rg_superseded := rg_superseded g; rg_book := rg_book g; rg_stopped := stopped; rg_next := rg_next g |}.

(** [withdrawal_generation]. *)
Definition withdrawal_generation (g : BoxRegistry) (name : string) : Z :=
  default 0 (rg_generations g !! canonical_box_name name).
(** [bump_withdrawal_generation]. *)
Definition bump_withdrawal_generation (g : BoxRegistry) (name : string) : gmap string Z :=
  match rg_generations g !! canonical_box_name name with
  | Some generation => <[canonical_box_name name := u64_wrapping_succ generation]> (rg_generations g)
  | None => rg_generations g
  end.

(** The rows [try_register_since] compiles: the box's own and its tasks'. *)
Definition compiled_row (subnet : SwitchSubnet) (reg : BoxRegistration) (box_id id : nat) : BoxRecord :=
  let dns_hosts := default [] (p ← br_egress reg; ep_allow_dns_hosts p) in
  {| rec_id := id; rec_box_id := box_id; rec_name := br_name reg; rec_switch_addr := br_switch_addr reg;
     rec_loopback_addr := br_loopback_addr reg; rec_admitted_ports := br_admitted_ports reg;
     rec_declared_names := br_declared_names reg;
     rec_egress := egress_from_policy (br_egress reg) (dns_server subnet) (br_switch_addr reg);
     rec_resolves_names := negb (bool_decide (dns_hosts = [])); rec_dns_hosts := dns_hosts;
     rec_deny_all := is_some_and admits_nothing (br_egress reg);
     rec_credentialed_upstream := br_credentialed_upstream reg;
     rec_dynamic_ingress := default IngressDeny (br_dynamic_ingress reg); rec_dynamic_range := br_dynamic_allowed_range reg;
     rec_task_row_of := None; rec_task_addrs := br_task_addrs reg |}.
Definition compiled_task (subnet : SwitchSubnet) (reg : BoxRegistration) (box_id id : nat) (task_addr : ip4) : BoxRecord :=
  let dns_hosts := default [] (p ← br_egress reg; ep_allow_dns_hosts p) in
  {| rec_id := id; rec_box_id := box_id; rec_name := br_name reg; rec_switch_addr := task_addr;
     rec_loopback_addr := br_loopback_addr reg; rec_admitted_ports := []; rec_declared_names := [];
     rec_egress := egress_from_policy (br_egress reg) (dns_server subnet) task_addr;
     rec_resolves_names := negb (bool_decide (dns_hosts = [])); rec_dns_hosts := dns_hosts;
     rec_deny_all := is_some_and admits_nothing (br_egress reg);
     rec_credentialed_upstream := false; rec_dynamic_ingress := IngressDeny; rec_dynamic_range := None;
     rec_task_row_of := Some (br_switch_addr reg); rec_task_addrs := [] |}.

(** [rows.insert] of the box's row and then of its task rows. *)
Definition insert_rows (rows : gmap ip4 BoxRecord) (rs : list BoxRecord) : gmap ip4 BoxRecord :=
  foldl (fun rows r => <[rec_switch_addr r := r]> rows) rows rs.

(** [try_register_since]; [minted] is the id [mint_box_id] would give. *)
Definition try_register_since (g : BoxRegistry) (reg : BoxRegistration) (minted : nat) (generation : option Z)
    (creation : option Creation) : BoxRegistry * (BoxRecord + AllocationError) :=
  let box_id := default minted (br_box_id reg) in
  let record := compiled_row (rg_subnet g) reg box_id (rg_next g) in
  let task_rows := imap (fun i => compiled_task (rg_subnet g) reg box_id (rg_next g + 1 + i)%nat) (br_task_addrs reg) in
  match first_held (rg_revoking g) (mjoin (map record_revocation_addrs (record :: task_rows))) with
  | Some addr => (g, inr (RevocationPending addr))
  | None =>
      if match generation with Some read => negb (read =? withdrawal_generation g (br_name reg)) | None => false end
      then (g, inr WithdrawnWhileAllocating)
      else
        let creations :=
          match creation with
          | Some c => <[canonical_box_name (cr_name c) := c]> (rg_creations g)
          | None => rg_creations g
          end in
        let superseded :=
          match creation with
          | Some c =>
              List.filter (fun k => negb (Nat.eqb (cr_id k) (cr_id c))) (rg_superseded g)
              ++ match rg_creations g !! canonical_box_name (cr_name c) with
                 | Some old => if negb (Nat.eqb (cr_id old) (cr_id c)) && negb (cr_standing old) then [old] else []
                 | None => []
                 end
          | None => rg_superseded g
          end in
        ({| rg_subnet := rg_subnet g; rg_rows := insert_rows (rg_rows g) (record :: task_rows); rg_live := rg_live g;
            rg_epoch := u64_wrapping_succ (rg_epoch g); rg_revoking := rg_revoking g; rg_subscribed := rg_subscribed g;
            rg_generations := rg_generations g; rg_creations := creations; rg_superseded := superseded;
            rg_book := rg_book g; rg_stopped := rg_stopped g ∖ {[br_switch_addr reg]};
            rg_next := (rg_next g + 1 + length (br_task_addrs reg))%nat |}, inl record)
  end.

(** ** Withdrawal *)

(** [begin_revocation]: the hold, and whether there is a withdrawal to send. *)
Definition begin_revocation (g : BoxRegistry) (r : BoxRecord) : BoxRegistry * bool :=
  if rg_subscribed g then (set_rg_revoking g (hold_addrs (rg_revoking g) (record_revocation_addrs r)), true) else (g, false).

(** One address of the loop of [remove_task_rows], and the loop. *)
Definition remove_task_row (record : BoxRecord) (acc : BoxRegistry * list BoxRecord) (addr : ip4) : BoxRegistry * list BoxRecord :=
  let '(g, removed) := acc in
  let ours := match rg_rows g !! addr with
              | Some task => bool_decide (rec_task_row_of task = Some (rec_switch_addr record))
                             && Nat.eqb (rec_box_id task) (rec_box_id record)
              | None => false
              end in
  let at_ := rg_rows g !! addr in
  let g := set_rg_rows g (delete addr (rg_rows g)) in
  match at_ with
  | Some task => if ours then ((begin_revocation g task).1, removed ++ [task]) else (g, removed)
  | None => (g, removed)
  end.
Definition remove_task_rows (g : BoxRegistry) (record : BoxRecord) : BoxRegistry * list BoxRecord :=
  foldl (remove_task_row record) (g, []) (rec_task_addrs record).

(** [give_back_switch_addr]. *)
Definition give_back_switch_addr (g : BoxRegistry) (addr : ip4) (quarantine : bool) (by_ : nat) (now : Z) : BoxRegistry :=
  set_rg_book g (give_back (rg_book g) (ip4_u32 addr) now quarantine by_).1.

(** [retired]: the stopped mark goes. *)
Definition retired (g : BoxRegistry) (r : BoxRecord) : BoxRegistry := set_rg_stopped g (rg_stopped g ∖ {[rec_switch_addr r]}).

Definition was_attributed (g : BoxRegistry) (r : BoxRecord) : bool := lv_attributed (liveness (rg_live g) r).

(** [retire_task_rows]. *)
Definition retire_task_rows (g : BoxRegistry) (task_rows : list BoxRecord) (give : bool) (now : Z) : BoxRegistry :=
  foldl (fun g task =>
    let g := retired g task in
    if give then give_back_switch_addr g (rec_switch_addr task) (was_attributed g task) (rec_box_id task) now else g) g task_rows.

(** [creation_rowless]. *)
Definition creation_rowless (g : BoxRegistry) (r : BoxRecord) : BoxRegistry * bool :=
  match rg_creations g !! canonical_box_name (rec_name r) with
  | Some c =>
      if Nat.eqb (cr_id c) (rec_box_id r) && cr_standing c
      then (set_rg_creations g (rg_generations g)
              (<[canonical_box_name (rec_name r) := {| cr_name := cr_name c; cr_id := cr_id c; cr_standing := false |}]>
                 (rg_creations g)), true)
      else (g, false)
  | None => (g, false)
  end.

(** [withdraw_where]; [now] is the book's reading of the clock. *)
Definition withdraw_where (g : BoxRegistry) (addr : ip4) (ended_at : BoxRegistry -> BoxRecord -> option Z) (now : Z)
    : BoxRegistry * option BoxRecord :=
  match rg_rows g !! addr with
  | None => (g, None)
  | Some record =>
      match ended_at g record with
      | None => (g, None)
      | Some _ =>
          let g := set_rg_rows g (delete addr (rg_rows g)) in
          let '(g, rowless, task_rows) :=
            if is_task_row record then (g, false, [])
            else
              let g := set_rg_creations g (bump_withdrawal_generation g (rec_name record)) (rg_creations g) in
              let '(g, rowless) := creation_rowless g record in
              let '(g, task_rows) := remove_task_rows g record in (g, rowless, task_rows) in
          let g := (begin_revocation g record).1 in
          let g := retired g record in
          let g := retire_task_rows g task_rows (negb rowless) now in
          (if rowless : bool then g
           else give_back_switch_addr g (rec_switch_addr record) (was_attributed g record) (rec_box_id record) now,
           Some record)
      end
  end.

(** [draw_switch_addr] and [draw_task_addr]. *)
Definition TASK_SLOT_FLOOR : nat := 16.
Definition address_held (g : BoxRegistry) (addr : Z) : bool :=
  bool_decide (is_Some (rg_rows g !! ip4_of_u32 addr)) || bool_decide (is_Some (first_held (rg_revoking g) [ip4_of_u32 addr])).
Definition draw_switch_addr (g : BoxRegistry) (now : Z) : BoxRegistry * (ip4 + HandOutCounts) :=
  let '(book, drawn) := draw (rg_book g) now (address_held g) in
  (set_rg_book g book, match drawn with inl a => inl (ip4_of_u32 a) | inr counts => inr counts end).
Definition draw_task_addr (g : BoxRegistry) (now : Z) : BoxRegistry * option ip4 :=
  if (spare (rg_book g) now (address_held g) <=? TASK_SLOT_FLOOR)%nat then (g, None)
  else
    let '(book, drawn) := draw (rg_book g) now (address_held g) in
    (set_rg_book g book, match drawn with inl a => Some (ip4_of_u32 a) | inr _ => None end).

(** ** Liveness *)

(** [task_rows_carried]. *)
Definition task_rows_carried (rows : gmap ip4 BoxRecord) (v : Livenesses) (parent : BoxRecord) : bool :=
  existsb (fun addr =>
    match rows !! addr with
    | Some task => Nat.eqb (rec_box_id task) (rec_box_id parent) && is_task_row task && (0 <? lv_carriers (liveness v task))
    | None => false
    end) (rec_task_addrs parent).

(** [past_its_bound]. *)
Definition past_its_bound (g : BoxRegistry) (now : Z) (r : BoxRecord) : option Z :=
  if is_task_row r then None
  else
    let l := liveness (rg_live g) r in
    let past since bound := match since with
                            | Some s => if bound <=? Z.max (now - s) 0 then Some s else None
                            | None => None
                            end in
    match past (lv_detached_since l) DETACH_GRACE with
    | Some s => Some s
    | None =>
        if (lv_carriers l =? 0) && negb (task_rows_carried (rg_rows g) (rg_live g) r)
        then match past (lv_resumed_since l) RESUME_ATTACH_BOUND with Some _ => Some now | None => None end
        else None
    end.

Definition set_carriers (v : Livenesses) (r : BoxRecord) (n : Z) : Livenesses :=
  let l := liveness v r in
  <[rec_id r := {| lv_carriers := n; lv_detached_since := lv_detached_since l; lv_resumed_since := lv_resumed_since l;
                   lv_attributed := lv_attributed l |}]> v.
Definition set_detached (v : Livenesses) (r : BoxRecord) (now : Z) : Livenesses :=
  let l := liveness v r in
  <[rec_id r := {| lv_carriers := lv_carriers l; lv_detached_since := Some now; lv_resumed_since := lv_resumed_since l;
                   lv_attributed := lv_attributed l |}]> v.

(** The end of [detach]: the box's row is detached once nothing carries it. *)
Definition detach_parent (rows : gmap ip4 BoxRecord) (v : Livenesses) (parent : BoxRecord) (now : Z) : Livenesses :=
  let l := liveness v parent in
  if (lv_carriers l =? 0) && bool_decide (lv_detached_since l = None) && negb (task_rows_carried rows v parent)
  then set_detached v parent now else v.

(** [detach]. *)
Definition detach (g : BoxRegistry) (addr : ip4) (box_id : nat) (now : Z) : BoxRegistry :=
  match rg_rows g !! addr with
  | None => g
  | Some record =>
      if negb (Nat.eqb (rec_box_id record) box_id) then g
      else
        let v := set_carriers (rg_live g) record (Z.max (lv_carriers (liveness (rg_live g) record) - 1) 0) in
        set_rg_live g
          (match rec_task_row_of record with
           | None => detach_parent (rg_rows g) v record now
           | Some _ => match box_row_of (rg_rows g) record with
                       | None => v
                       | Some parent => detach_parent (rg_rows g) v parent now
                       end
           end)
  end.

(** [withdraw_expired_detached]: the scan, and each withdrawal decided again. *)
Definition withdraw_expired_detached (g : BoxRegistry) (expired : list ip4) (now : Z) : BoxRegistry * list BoxRecord :=
  foldl (fun '(g, withdrawn) addr =>
    let '(g, r) := withdraw_where g addr (fun g r => past_its_bound g now r) now in
    (g, withdrawn ++ match r with Some r => [r] | None => [] end)) (g, []) expired.
Definition expired_rows (g : BoxRegistry) (now : Z) : list ip4 :=
  map (fun p => rec_switch_addr p.2) (List.filter (fun p => bool_decide (is_Some (past_its_bound g now p.2))) (map_to_list (rg_rows g))).

(** ** Histories *)

(** [record.liveness().resumed_since = Some(now)] of [resume_client_box]. *)
Definition set_resumed (v : Livenesses) (r : BoxRecord) (now : Z) : Livenesses :=
  let l := liveness v r in
  <[rec_id r := {| lv_carriers := lv_carriers l; lv_detached_since := lv_detached_since l; lv_resumed_since := Some now;
                   lv_attributed := lv_attributed l |}]> v.

(** A registration at addresses no row holds, all different. *)
Definition registers_free (g : BoxRegistry) (reg : BoxRegistration) : Prop :=
  NoDup (br_switch_addr reg :: br_task_addrs reg) /\
  forall a, a ∈ br_switch_addr reg :: br_task_addrs reg -> rg_rows g !! a = None.

Definition registry_new (subnet : SwitchSubnet) (subscribed : bool) : BoxRegistry :=
  {| rg_subnet := subnet; rg_rows := ∅; rg_live := ∅; rg_epoch := 0; rg_revoking := ∅; rg_subscribed := subscribed;
     rg_generations := ∅; rg_creations := ∅; rg_superseded := []; rg_book := book_new subnet; rg_stopped := ∅; rg_next := 0 |}.

(** What happens to the registry: registrations, withdrawals of a box, the
    end of a revocation, a relay that carries a source or reports its end,
    the sweep of expired rows, and a resume. *)
Inductive reg_step (g : BoxRegistry) : BoxRegistry -> Prop :=
| step_register reg minted generation creation :
    registers_free g reg -> reg_step g (try_register_since g reg minted generation creation).1
| step_withdraw addr now :
    (forall r, rg_rows g !! addr = Some r -> rec_task_row_of r = None) ->
    reg_step g (withdraw_where g addr (fun _ _ => Some now) now).1
| step_release addrs : reg_step g (set_rg_revoking g (release_addrs (rg_revoking g) addrs))
| step_carry table src relay v relay' :
    bt_rows table = rg_rows g -> carry table (rg_live g) src relay = Done (v, relay') -> reg_step g (set_rg_live g v)
| step_detach addr box_id now : reg_step g (detach g addr box_id now)
| step_draw now : reg_step g (draw_switch_addr g now).1
| step_draw_task now : reg_step g (draw_task_addr g now).1
| step_expire addr now : reg_step g (withdraw_where g addr (fun g r => past_its_bound g now r) now).1
| step_resume addr r now : rg_rows g !! addr = Some r -> reg_step g (set_rg_live g (set_resumed (rg_live g) r now)).

Inductive reg_reach (subnet : SwitchSubnet) (subscribed : bool) : BoxRegistry -> Prop :=
| reach_new : reg_reach subnet subscribed (registry_new subnet subscribed)
| reach_step g g' : reg_reach subnet subscribed g -> reg_step g g' -> reg_reach subnet subscribed g'.

(** Nothing carries the row or its tasks. *)
Definition uncarried (g : BoxRegistry) (r : BoxRecord) : Prop :=
  lv_carriers (liveness (rg_live g) r) = 0 /\ task_rows_carried (rg_rows g) (rg_live g) r = false.

Record registry_ok (g : BoxRegistry) : Prop := {
  ro_keyed : forall a r, rg_rows g !! a = Some r -> rec_switch_addr r = a;
  ro_ids : forall a r, rg_rows g !! a = Some r -> (rec_id r < rg_next g)%nat;
  ro_apart : forall a r a' r', rg_rows g !! a = Some r -> rg_rows g !! a' = Some r' -> rec_id r = rec_id r' -> a = a';
  ro_task : forall a t p, rg_rows g !! a = Some t -> rec_task_row_of t = Some p ->
    exists r, rg_rows g !! p = Some r /\ rec_task_row_of r = None /\ rec_box_id r = rec_box_id t /\ a ∈ rec_task_addrs r;
  ro_box : forall p r a, rg_rows g !! p = Some r -> rec_task_row_of r = None -> a ∈ rec_task_addrs r ->
    exists t, rg_rows g !! a = Some t /\ rec_task_row_of t = Some p /\ rec_box_id t = rec_box_id r;
  ro_fresh : forall id, (rg_next g <= id)%nat -> rg_live g !! id = None;
  ro_counts : forall id l, rg_live g !! id = Some l -> 0 <= lv_carriers l;
  ro_detached : forall a r, rg_rows g !! a = Some r -> rec_task_row_of r = None ->
    lv_detached_since (liveness (rg_live g) r) <> None -> uncarried g r;
}.

(** ** Rows *)

Lemma insert_rows_lookup rows rs a r :
  NoDup (map rec_switch_addr rs) ->
  insert_rows rows rs !! a = Some r <->
  (r ∈ rs /\ rec_switch_addr r = a) \/ (a ∉ map rec_switch_addr rs /\ rows !! a = Some r).
Proof.
  unfold insert_rows. revert rows. induction rs as [|x rs IH]; intros rows Hn; cbn [foldl map] in *; [set_solver|].
  apply list.NoDup_cons in Hn as [Hx Hn]. rewrite IH by done. rewrite !elem_of_cons. destruct (decide (a = rec_switch_addr x)) as [->|Hne].
  - rewrite lookup_insert_eq. split.
    + intros [[Hr He]|[_ [= ->]]]; [|tauto]. destruct Hx. rewrite <- He. apply list_elem_of_fmap. by exists r.
    + intros [[[->|Hr] He]|[Hn' _]]; [tauto| |tauto]. destruct Hx. rewrite <- He. apply list_elem_of_fmap. by exists r.
  - rewrite lookup_insert_ne by done. split; [tauto|]. intros [[[->|Hr] He]|[Hn' ?]]; [congruence|tauto..].
Qed.

Lemma deletes_lookup (rows : gmap ip4 BoxRecord) addrs a :
  foldl (fun m x => delete x m) rows addrs !! a = if decide (a ∈ addrs) then None else rows !! a.
Proof.
  revert rows. induction addrs as [|x addrs IH]; intros rows; cbn [foldl]; [by rewrite decide_False by set_solver|].
  rewrite IH. destruct (decide (a ∈ addrs)); [by rewrite decide_True by set_solver|].
  destruct (decide (a = x)) as [->|Hne]; [rewrite lookup_delete_eq, decide_True by set_solver; done|].
  rewrite lookup_delete_ne by done. by rewrite decide_False by set_solver.
Qed.

Lemma remove_task_row_rows record acc addr :
  let g' := (remove_task_row record acc addr).1 in
  rg_rows g' = delete addr (rg_rows acc.1) /\ rg_live g' = rg_live acc.1 /\ rg_next g' = rg_next acc.1.
Proof.
  destruct acc as [g removed]. unfold remove_task_row, begin_revocation. cbv zeta. cbn [fst].
  destruct (rg_rows g !! addr) as [task|]; [|done]. destruct (_ && _); [|done]. by destruct (rg_subscribed _).
Qed.

Lemma remove_task_rows_rows g record :
  let g' := (remove_task_rows g record).1 in
  rg_rows g' = foldl (fun m x => delete x m) (rg_rows g) (rec_task_addrs record) /\
  rg_live g' = rg_live g /\ rg_next g' = rg_next g.
Proof.
  unfold remove_task_rows. cbv zeta.
  assert (H : forall addrs acc, let g' := (foldl (remove_task_row record) acc addrs).1 in
    rg_rows g' = foldl (fun m x => delete x m) (rg_rows acc.1) addrs /\ rg_live g' = rg_live acc.1 /\ rg_next g' = rg_next acc.1).
  { intros addrs. induction addrs as [|a addrs IH]; intros acc; cbn [foldl]; [done|].
    destruct (IH (remove_task_row record acc a)) as (-> & -> & ->). destruct (remove_task_row_rows record acc a) as (-> & -> & ->). done. }
  exact (H (rec_task_addrs record) (g, [])).
Qed.

Lemma retire_task_rows_rows g ts give now :
  let g' := retire_task_rows g ts give now in rg_rows g' = rg_rows g /\ rg_live g' = rg_live g /\ rg_next g' = rg_next g.
Proof.
  unfold retire_task_rows. cbv zeta. revert g. induction ts as [|t ts IH]; intros g; cbn [foldl]; [done|].
  match goal with |- context [foldl _ ?g1 ts] => destruct (IH g1) as (-> & -> & ->) end. by destruct give.
Qed.

(** What a withdrawal takes from the rows: the row, and with a box's own row
    everything at its task addresses. *)
Lemma withdraw_where_rows g addr ended_at now :
  match withdraw_where g addr ended_at now with
  | (g', None) => g' = g
  | (g', Some r) =>
      rg_rows g !! addr = Some r /\ is_Some (ended_at g r) /\
      rg_rows g' = foldl (fun m x => delete x m) (delete addr (rg_rows g)) (if is_task_row r then [] else rec_task_addrs r) /\
      rg_live g' = rg_live g /\ rg_next g' = rg_next g
  end.
Proof.
  unfold withdraw_where. destruct (rg_rows g !! addr) as [r|] eqn:Hr; [|done]. destruct (ended_at g r) as [t|] eqn:He; [|done].
  set (g1 := set_rg_rows g (delete addr (rg_rows g))).
  set (mid := if is_task_row r then (g1, false, []) else _).
  assert (Hmid : rg_rows mid.1.1 = foldl (fun m x => delete x m) (delete addr (rg_rows g)) (if is_task_row r then [] else rec_task_addrs r) /\
                 rg_live mid.1.1 = rg_live g /\ rg_next mid.1.1 = rg_next g).
  { unfold mid. destruct (is_task_row r); [done|].
    set (g2 := set_rg_creations g1 _ _). destruct (creation_rowless g2 r) as [g3 rowless] eqn:Hc.
    assert (rg_rows g3 = delete addr (rg_rows g) /\ rg_live g3 = rg_live g /\ rg_next g3 = rg_next g) as (E1 & E2 & E3).
    { unfold creation_rowless in Hc. destruct (rg_creations g2 !! _) as [c|]; [destruct (_ && _)|]; injection Hc as <- _; done. }
    pose proof (remove_task_rows_rows g3 r) as (F1 & F2 & F3). destruct (remove_task_rows g3 r) as [g4 ts]. cbn [fst] in *.
    by rewrite F1, F2, F3, E1, E2, E3. }
  clearbody mid. destruct mid as [[g5 rowless] ts]. cbn [fst] in Hmid.
  pose proof (retire_task_rows_rows (retired (begin_revocation g5 r).1 r) ts (negb rowless) now) as (E1 & E2 & E3).
  assert (rg_rows (retired (begin_revocation g5 r).1 r) = rg_rows g5 /\ rg_live (retired (begin_revocation g5 r).1 r) = rg_live g5 /\
          rg_next (retired (begin_revocation g5 r).1 r) = rg_next g5) as (F1 & F2 & F3).
  { unfold begin_revocation. by destruct (rg_subscribed g5). }
  destruct Hmid as (H1 & H2 & H3). split; [done|]. split; [rewrite He; by eexists|].
  destruct rowless; cbn [rg_rows rg_live rg_next give_back_switch_addr set_rg_book]; (split; [congruence|split; congruence]).
Qed.

(** ** The invariant *)

Lemma carried_false rows v r :
  task_rows_carried rows v r = false <->
  forall a t, a ∈ rec_task_addrs r -> rows !! a = Some t -> rec_box_id t = rec_box_id r -> is_task_row t = true ->
    lv_carriers (liveness v t) <= 0.
Proof.
  unfold task_rows_carried. rewrite <- not_true_iff_false, existsb_exists. split.
  - intros H a t Ha Ht Hb Hi. destruct (decide (lv_carriers (liveness v t) <= 0)); [done|]. destruct H. exists a.
    split; [by apply list_elem_of_In|]. rewrite Ht, Hb, Nat.eqb_refl, Hi. cbn. apply Z.ltb_lt. lia.
  - intros H (a & Ha & Hc). destruct (rows !! a) as [t|] eqn:Ht; [|done].
    apply andb_true_iff in Hc as [Hc Hl%Z.ltb_lt]. apply andb_true_iff in Hc as [Hb%Nat.eqb_eq Hi].
    specialize (H a t (proj2 (list_elem_of_In _ _) Ha) Ht Hb Hi). lia.
Qed.

Lemma liveness_insert v id l r : liveness (<[id := l]> v) r = if decide (rec_id r = id) then l else liveness v r.
Proof. unfold liveness. destruct (decide (rec_id r = id)) as [<-|Hne]; [by rewrite lookup_insert_eq|by rewrite lookup_insert_ne]. Qed.

(** The liveness of the rows moves and nothing else: what the invariant asks
    of the new one. *)
Lemma registry_ok_live g v :
  registry_ok g ->
  (forall id, (rg_next g <= id)%nat -> v !! id = None) -> (forall id l, v !! id = Some l -> 0 <= lv_carriers l) ->
  (forall a r, rg_rows g !! a = Some r -> rec_task_row_of r = None -> lv_detached_since (liveness v r) <> None ->
     uncarried (set_rg_live g v) r) ->
  registry_ok (set_rg_live g v).
Proof. intros [] ???. by split. Qed.

Lemma fresh_insert g (v : Livenesses) a r l :
  registry_ok g -> rg_rows g !! a = Some r -> (forall id, (rg_next g <= id)%nat -> v !! id = None) ->
  forall id, (rg_next g <= id)%nat -> <[rec_id r := l]> v !! id = None.
Proof. intros Hok Hr Hv id Hid. pose proof (ro_ids g Hok a r Hr). rewrite lookup_insert_ne by lia. by apply Hv. Qed.

Lemma counts_insert (v : Livenesses) i l :
  0 <= lv_carriers l -> (forall id l, v !! id = Some l -> 0 <= lv_carriers l) ->
  forall id x, <[i := l]> v !! id = Some x -> 0 <= lv_carriers x.
Proof. intros Hl Hv id x [[_ <-]|[_ Hx]]%lookup_insert_Some; [done|by eapply Hv]. Qed.

Lemma carriers_nonneg (v : Livenesses) r :
  (forall id l, v !! id = Some l -> 0 <= lv_carriers l) -> 0 <= lv_carriers (liveness v r).
Proof. intros Hv. unfold liveness. destruct (v !! rec_id r) as [l|] eqn:E; [by eapply Hv|done]. Qed.

Lemma registry_new_ok subnet subscribed : registry_ok (registry_new subnet subscribed).
Proof. split; cbn; intros *; by rewrite lookup_empty. Qed.

Lemma tasks_addrs subnet reg box_id k addrs :
  map rec_switch_addr (imap (fun i => compiled_task subnet reg box_id (k + i)%nat) addrs) = addrs.
Proof.
  revert k. induction addrs as [|a addrs IH]; intros k; [done|]. rewrite imap_cons. cbn [map]. f_equal.
  rewrite <- (IH (S k)) at 2. f_equal. apply imap_ext. intros i x _. cbn. f_equal. lia.
Qed.

Lemma register_ok g reg minted generation creation :
  registry_ok g -> registers_free g reg -> registry_ok (try_register_since g reg minted generation creation).1.
Proof.
  intros Hok [Hn Hfree]. unfold try_register_since. cbv zeta.
  set (b := default minted (br_box_id reg)). set (record := compiled_row _ reg b (rg_next g)).
  set (tasks := imap _ (br_task_addrs reg)).
  destruct (first_held _ _); [done|]. destruct (match generation with Some _ => _ | None => _ end); [done|]. cbn [fst].
  destruct Hok as [H1 H2 H3 H4 H5 H6 H7 H8].
  assert (Hmap : map rec_switch_addr (record :: tasks) = br_switch_addr reg :: br_task_addrs reg).
  { cbn [map]. f_equal. unfold tasks. apply tasks_addrs. }
  assert (Hl : forall a r, insert_rows (rg_rows g) (record :: tasks) !! a = Some r <->
            (r ∈ record :: tasks /\ rec_switch_addr r = a) \/ (a ∉ br_switch_addr reg :: br_task_addrs reg /\ rg_rows g !! a = Some r)).
  { intros a r. rewrite insert_rows_lookup, Hmap by by rewrite Hmap. done. }
  assert (Hold : forall a r, rg_rows g !! a = Some r -> insert_rows (rg_rows g) (record :: tasks) !! a = Some r).
  { intros a r Hr. apply Hl. right. split; [|done]. intros Ha. rewrite (Hfree a Ha) in Hr. done. }
  assert (Htask : forall t, t ∈ tasks -> exists i a, br_task_addrs reg !! i = Some a /\ t = compiled_task (rg_subnet g) reg b (rg_next g + 1 + i) a).
  { intros t (i & Hi)%list_elem_of_lookup. unfold tasks in Hi. rewrite list_lookup_imap in Hi.
    destruct (br_task_addrs reg !! i) as [a|] eqn:Ha; [|done]. injection Hi as <-. by exists i, a. }
  assert (Hnew : forall r, r ∈ record :: tasks -> (rg_next g <= rec_id r < rg_next g + 1 + length (br_task_addrs reg))%nat).
  { intros r [->|Ht]%elem_of_cons; [cbn; lia|]. destruct (Htask r Ht) as (i & a & Ha & ->). apply lookup_lt_Some in Ha. cbn. lia. }
  split; cbn [rg_rows rg_next rg_live].
  - intros a r [[_ ?]|[_ Hr]]%Hl; [done|by apply H1].
  - intros a r [[Hr _]|[_ Hr]]%Hl; [apply Hnew in Hr; lia|]. apply H2 in Hr. lia.
  - intros a r a' r' [[Hr Ha]|[_ Hr]]%Hl [[Hr' Ha']|[_ Hr']]%Hl He.
    + rewrite <- Ha, <- Ha'. apply elem_of_cons in Hr as [->|Ht], Hr' as [->|Ht']; [done| | |].
      * destruct (Htask r' Ht') as (i & x & _ & ->). cbn in He. lia.
      * destruct (Htask r Ht) as (i & x & _ & ->). cbn in He. lia.
      * destruct (Htask r Ht) as (i & x & Hx & ->), (Htask r' Ht') as (i' & x' & Hx' & ->). cbn in He |- *.
        assert (i = i') as -> by lia. congruence.
    + apply Hnew in Hr. apply H2 in Hr'. lia.
    + apply Hnew in Hr'. apply H2 in Hr. lia.
    + by eapply H3.
  - intros a t p [[Ht Ha]|[_ Ht]]%Hl Hp.
    + apply elem_of_cons in Ht as [->|Ht]; [done|]. destruct (Htask t Ht) as (i & x & Hx & ->). cbn in Hp. injection Hp as <-.
      exists record. split; [apply Hl; left; split; [apply elem_of_cons; by left|done]|]. split; [done|]. split; [done|].
      cbn in Ha |- *. subst x. by eapply list_elem_of_lookup_2.
    + destruct (H4 a t p Ht Hp) as (r & Hr & ? & ? & ?). exists r. split; [by apply Hold|done].
  - intros p r a [[Hr Hp]|[_ Hr]]%Hl Hbox Ha.
    + apply elem_of_cons in Hr as [->|Ht]; [|by destruct (Htask r Ht) as (i & x & Hx & ->)].
      cbn in Ha, Hp. apply list_elem_of_lookup in Ha as [i Hi].
      exists (compiled_task (rg_subnet g) reg b (rg_next g + 1 + i) a). split; [|cbn; by rewrite Hp].
      apply Hl. left. split; [|done]. apply elem_of_cons. right. apply list_elem_of_lookup. exists i.
      unfold tasks. rewrite list_lookup_imap, Hi. done.
    + destruct (H5 p r a Hr Hbox Ha) as (t & Ht & ? & ?). exists t. split; [by apply Hold|done].
  - intros id Hid. apply H6. lia.
  - done.
  - intros a r [[Hr _]|[_ Hr]]%Hl Hbox Hd.
    + apply Hnew in Hr. unfold liveness in Hd. rewrite H6 in Hd by lia. done.
    + destruct (H8 a r Hr Hbox Hd) as [Hc Ht]. split; [done|]. cbn [rg_rows rg_live]. rewrite carried_false in *.
      intros a' t Ha' Ht' Hb Hi. destruct (H5 a r a' Hr Hbox Ha') as (t' & Ht2 & _ & _).
      rewrite (Hold _ _ Ht2) in Ht'. injection Ht' as ->. by eapply Ht.
Qed.

(** A box's row and everything at its task addresses goes. *)
Lemma withdraw_ok g addr ended_at now :
  registry_ok g -> (forall r, rg_rows g !! addr = Some r -> is_Some (ended_at g r) -> rec_task_row_of r = None) ->
  registry_ok (withdraw_where g addr ended_at now).1.
Proof.
  intros Hok Hbox. pose proof (withdraw_where_rows g addr ended_at now) as Hw.
  destruct (withdraw_where g addr ended_at now) as [g' [r|]]; cbn [fst]; [|by subst].
  destruct Hw as (Hr & He & Hrows & Hlive & Hnext). specialize (Hbox r Hr He). destruct Hok as [H1 H2 H3 H4 H5 H6 H7 H8].
  unfold is_task_row in Hrows. rewrite bool_decide_eq_false_2 in Hrows by (rewrite Hbox; by intros []).
  assert (Hl : forall a x, rg_rows g' !! a = Some x -> a <> addr /\ a ∉ rec_task_addrs r /\ rg_rows g !! a = Some x).
  { intros a x Hx. rewrite Hrows, deletes_lookup in Hx. destruct (decide _); [done|]. apply lookup_delete_Some in Hx as [? ?]. done. }
  assert (Hk : forall a x, rg_rows g !! a = Some x -> a <> addr -> a ∉ rec_task_addrs r -> rg_rows g' !! a = Some x).
  { intros a x Hx Hne Hn. rewrite Hrows, deletes_lookup, decide_False by done. by rewrite lookup_delete_ne. }
  split; rewrite ?Hlive, ?Hnext; try done.
  - intros a x (_ & _ & Hx)%Hl. by apply H1.
  - intros a x (_ & _ & Hx)%Hl. by eapply H2.
  - intros a x a' x' (_ & _ & Hx)%Hl (_ & _ & Hx')%Hl. by eapply H3.
  - intros a t p (Hne & Hn & Ht)%Hl Hp. destruct (H4 a t p Ht Hp) as (q & Hq & Hqb & Hid & Hin). exists q. split; [|done].
    apply Hk; [done| |].
    + intros ->. rewrite Hr in Hq. by injection Hq as ->.
    + intros Hpin. destruct (H5 addr r p Hr Hbox Hpin) as (t' & Ht' & Htt & _). congruence.
  - intros p q a (Hne & Hn & Hq)%Hl Hqb Ha. destruct (H5 p q a Hq Hqb Ha) as (t & Ht & Htp & Hid). exists t. split; [|done].
    apply Hk; [done| |].
    + intros ->. congruence.
    + intros Hain. destruct (H5 addr r a Hr Hbox Hain) as (t' & Ht' & Htt & _). congruence.
  - intros a x (Hne & Hn & Hx)%Hl Hxb Hd. destruct (H8 a x Hx Hxb Hd) as [Hc Ht]. unfold uncarried. rewrite Hlive. split; [done|].
    rewrite carried_false in *. intros a' t Ha' (_ & _ & Ht')%Hl. by eapply Ht.
Qed.

(** A row that is marked is no longer detached, and neither is its box's. *)
Lemma mark_row_ok g a r v :
  registry_ok g -> rg_rows g !! a = Some r -> mark_row (rg_rows g) (rg_live g) r = Done v -> registry_ok (set_rg_live g v).
Proof.
  intros Hok Hr. pose proof Hok as [H1 H2 H3 H4 H5 H6 H7 H8]. unfold mark_row.
  assert (Hp : exists pa, rg_rows g !! pa = Some (default r (box_row_of (rg_rows g) r)) /\
            rec_task_row_of (default r (box_row_of (rg_rows g) r)) = None /\
            (forall p, rec_task_row_of r = Some p -> pa = p)).
  { unfold box_row_of. destruct (rec_task_row_of r) as [p|] eqn:Ht.
    - destruct (H4 a r p Hr Ht) as (q & Hq & Hqb & Hid & _). rewrite Hq, Hid, Nat.eqb_refl. exists p. cbn. by split_and!; [..|intros ? [= ->]].
    - exists a. by cbn. }
  destruct Hp as (pa & Hpar & Hpb & Hpa). set (parent := default r (box_row_of (rg_rows g) r)) in *. cbv zeta.
  set (v1 := clear_bounds (set_attributed (rg_live g) r) parent).
  assert (Hdet : forall x, lv_detached_since (liveness v1 x) <> None -> rec_id x <> rec_id parent /\ lv_detached_since (liveness (rg_live g) x) <> None).
  { intros x. unfold v1, clear_bounds. rewrite liveness_insert. destruct (decide (rec_id x = rec_id parent)) as [E|E]; [done|].
    unfold set_attributed. rewrite liveness_insert. destruct (decide (rec_id x = rec_id r)) as [E'|E']; cbn; [|done].
    intros Hd. split; [done|]. unfold liveness in *. by rewrite E'. }
  assert (Hcar : forall x, lv_carriers (liveness v1 x) = lv_carriers (liveness (rg_live g) x)).
  { intros x. unfold v1, clear_bounds. rewrite liveness_insert. destruct (decide (rec_id x = rec_id parent)) as [E|E]; cbn.
    - unfold set_attributed. rewrite liveness_insert. unfold liveness. rewrite E. by destruct (decide _) as [->|].
    - unfold set_attributed. rewrite liveness_insert. destruct (decide (rec_id x = rec_id r)) as [E'|]; cbn; [|done]. unfold liveness. by rewrite E'. }
  assert (Hf1 : forall id, (rg_next g <= id)%nat -> v1 !! id = None).
  { unfold v1, clear_bounds, set_attributed. eapply fresh_insert; [done..|]. by eapply fresh_insert. }
  assert (Hc1 : forall id l, v1 !! id = Some l -> 0 <= lv_carriers l).
  { assert (Hnn : forall x, 0 <= lv_carriers (liveness (rg_live g) x)) by (intros x; by apply carriers_nonneg).
    unfold v1, clear_bounds, set_attributed. apply counts_insert; cbn.
    - rewrite liveness_insert. destruct (decide _); apply Hnn.
    - apply counts_insert; [apply Hnn|done]. }
  assert (Hdone : registry_ok (set_rg_live g (add_carrier v1 r))).
  { apply registry_ok_live; [done| | |].
    - unfold add_carrier. by eapply fresh_insert.
    - unfold add_carrier. apply counts_insert; [cbn; pose proof (carriers_nonneg v1 r Hc1); unfold usize_max; lia|done].
    - intros a' x Hx Hxb Hd. unfold add_carrier in Hd. rewrite liveness_insert in Hd.
      assert (Hd1 : lv_detached_since (liveness v1 x) <> None).
      { destruct (decide (rec_id x = rec_id r)) as [E|E]; [|done]. cbn in Hd. unfold liveness in *. by rewrite E. }
      apply Hdet in Hd1 as [Hne Hd0]. destruct (H8 a' x Hx Hxb Hd0) as [Hc Ht].
      assert (Hxr : rec_id x <> rec_id r).
      { intros E. pose proof (H3 a' x a r Hx Hr E) as ->. rewrite Hr in Hx. injection Hx as <-. apply Hne.
        unfold parent, box_row_of. by rewrite Hxb. }
      split; cbn [set_rg_live rg_live rg_rows].
      + unfold add_carrier. rewrite liveness_insert, decide_False by done. by rewrite Hcar.
      + rewrite carried_false in *. intros b t Hb Ht' Hid Hi. unfold add_carrier. rewrite liveness_insert.
        destruct (decide (rec_id t = rec_id r)) as [E|E]; [|rewrite Hcar; by eapply Ht]. exfalso.
        pose proof (H3 b t a r Ht' Hr E) as ->. destruct (H5 a' x a Hx Hxb Hb) as (t2 & Ht2 & Htp & _).
        rewrite Hr in Ht2. injection Ht2 as <-. apply Hpa in Htp as ->. rewrite Hpar in Hx. by injection Hx as ->. }
  destruct (rec_task_row_of r) as [p|] eqn:Htr.
  - destruct (ptr_eq parent r); [done|]. intros [= <-]. exact Hdone.
  - assert (parent = r) as Heq by (unfold parent, box_row_of; by rewrite Htr). intros [= <-].
    fold v1. rewrite Heq. exact Hdone.
Qed.

Lemma set_rg_live_live g v v' : set_rg_live (set_rg_live g v) v' = set_rg_live g v'.
Proof. reflexivity. Qed.

Lemma carry_marks_ok g stale src v carried marks v' carried' marks' :
  registry_ok (set_rg_live g v) -> carry_marks (rg_rows g) stale src v carried marks = Done (v', carried', marks') ->
  registry_ok (set_rg_live g v').
Proof.
  revert v carried v' carried' marks'. induction marks as [|[addr mark] marks IH]; intros v carried v' carried' marks' Hok Hc; cbn [carry_marks] in Hc.
  { by injection Hc as <- _ _. }
  apply bind_Done_inv in Hc as ([[v1 c1] m1] & Hone & Hc).
  apply bind_Done_inv in Hc as ([[v2 c2] m2] & Hrest & Hc). injection Hc as <- _ _.
  eapply (IH v1 c1); [|exact Hrest]. destruct (_ && _); [by injection Hone as <- _ _|].
  destruct (rg_rows g !! addr) as [r|] eqn:Hr; [|by injection Hone as <- _ _].
  destruct (bool_decide (mark = _)); [by injection Hone as <- _ _|].
  apply bind_Done_inv in Hone as (v3 & Hm & Hone). injection Hone as <- _ _.
  rewrite <- (set_rg_live_live g v). by eapply (mark_row_ok (set_rg_live g v) addr r).
Qed.

Lemma carry_ok g table src relay v relay' :
  registry_ok g -> bt_rows table = rg_rows g -> carry table (rg_live g) src relay = Done (v, relay') -> registry_ok (set_rg_live g v).
Proof.
  intros Hok Ht. unfold carry. cbv zeta. rewrite Ht.
  assert (Hsame : registry_ok (set_rg_live g (rg_live g))) by (by destruct g).
  destruct (_ && _); [by intros [= <- _]|].
  intros Hc. apply bind_Done_inv in Hc as ([[v1 c1] m1] & Hm & Hc). injection Hc as <- _. by eapply carry_marks_ok.
Qed.

(** Detachment: the row is uncarried when the mark is set. *)
Lemma detach_parent_ok g v pa parent now :
  registry_ok (set_rg_live g v) -> rg_rows g !! pa = Some parent -> rec_task_row_of parent = None ->
  registry_ok (set_rg_live g (detach_parent (rg_rows g) v parent now)).
Proof.
  intros Hok Hp Hb. unfold detach_parent. cbv zeta.
  destruct ((lv_carriers (liveness v parent) =? 0) && _ && _) eqn:Hc; [|done].
  apply andb_true_iff in Hc as [Hc Ht%negb_true_iff]. apply andb_true_iff in Hc as [Hc%Z.eqb_eq _].
  rewrite <- (set_rg_live_live g v). pose proof Hok as [H1 H2 H3 H4 H5 H6 H7 H8].
  assert (Hsame : forall x, lv_carriers (liveness (set_detached v parent now) x) = lv_carriers (liveness v x)).
  { intros x. unfold set_detached. rewrite liveness_insert. destruct (decide _) as [E|]; [|done]. cbn. unfold liveness. by rewrite E. }
  apply registry_ok_live; [done| | |].
  - unfold set_detached. by eapply (fresh_insert (set_rg_live g v)).
  - unfold set_detached. apply counts_insert; [cbn; by apply carriers_nonneg|done].
  - intros a x Hx Hxb Hd. unfold uncarried. cbn [set_rg_live rg_live rg_rows]. rewrite Hsame, carried_false.
    enough (uncarried (set_rg_live g v) x) as [? Hx']; [split; [done|]|].
    { cbn [set_rg_live rg_live rg_rows] in Hx'. rewrite carried_false in Hx'. intros *. rewrite Hsame. apply Hx'. }
    unfold set_detached in Hd. rewrite liveness_insert in Hd. destruct (decide (rec_id x = rec_id parent)) as [E|E]; [|by eapply H8].
    pose proof (H3 a x pa parent Hx Hp E) as ->. cbn in Hx. rewrite Hp in Hx. by injection Hx as <-.
Qed.

Lemma detach_ok g addr box_id now : registry_ok g -> registry_ok (detach g addr box_id now).
Proof.
  intros Hok. unfold detach. destruct (rg_rows g !! addr) as [r|] eqn:Hr; [|done]. destruct (negb _); [done|]. cbv zeta.
  set (v := set_carriers (rg_live g) r _).
  pose proof Hok as [H1 H2 H3 H4 H5 H6 H7 H8].
  assert (Hle : forall x, 0 <= lv_carriers (liveness v x) <= lv_carriers (liveness (rg_live g) x)).
  { intros x. pose proof (carriers_nonneg (rg_live g) x H7) as Hx. unfold v, set_carriers. rewrite liveness_insert.
    destruct (decide (rec_id x = rec_id r)) as [E|]; [|lia]. cbn. unfold liveness in *. rewrite E in *. lia. }
  assert (Hv : registry_ok (set_rg_live g v)).
  { apply registry_ok_live; [done| | |].
    - unfold v, set_carriers. by eapply fresh_insert.
    - unfold v, set_carriers. apply counts_insert; [cbn; lia|done].
    - intros a x Hx Hxb Hd. assert (Hd0 : lv_detached_since (liveness (rg_live g) x) <> None).
      { unfold v, set_carriers in Hd. rewrite liveness_insert in Hd. destruct (decide (rec_id x = rec_id r)) as [E|]; [|done].
        cbn in Hd. unfold liveness in *. by rewrite E. }
      destruct (H8 a x Hx Hxb Hd0) as [Hc Ht]. split; cbn [set_rg_live rg_live rg_rows]; [specialize (Hle x); lia|].
      rewrite carried_false in *. intros b t Hb Ht' Hid Hi. specialize (Ht b t Hb Ht' Hid Hi). specialize (Hle t). lia. }
  destruct (rec_task_row_of r) as [p|] eqn:Htr; [|by eapply detach_parent_ok].
  destruct (H4 addr r p Hr Htr) as (q & Hq & Hqb & Hid & _). unfold box_row_of. rewrite Htr, Hq, Hid, Nat.eqb_refl.
  by eapply detach_parent_ok.
Qed.

Lemma resume_ok g addr r now :
  registry_ok g -> rg_rows g !! addr = Some r -> registry_ok (set_rg_live g (set_resumed (rg_live g) r now)).
Proof.
  intros Hok Hr. pose proof Hok as [H1 H2 H3 H4 H5 H6 H7 H8].
  assert (Hsame : forall x, lv_carriers (liveness (set_resumed (rg_live g) r now) x) = lv_carriers (liveness (rg_live g) x) /\
            lv_detached_since (liveness (set_resumed (rg_live g) r now) x) = lv_detached_since (liveness (rg_live g) x)).
  { intros x. unfold set_resumed. rewrite liveness_insert. destruct (decide _) as [E|]; [|done]. cbn. unfold liveness. by rewrite E. }
  apply registry_ok_live; [done| | |].
  - unfold set_resumed. by eapply fresh_insert.
  - unfold set_resumed. apply counts_insert; [cbn; by apply carriers_nonneg|done].
  - intros a x Hx Hxb Hd. destruct (Hsame x) as [Hc Hd']. rewrite Hd' in Hd. destruct (H8 a x Hx Hxb Hd) as [Hc0 Ht].
    split; cbn [set_rg_live rg_live rg_rows]; [congruence|]. rewrite carried_false in *. intros b t Hb Ht' Hid Hi.
    destruct (Hsame t) as [-> _]. by eapply Ht.
Qed.

Lemma past_is_box g now r : is_Some (past_its_bound g now r) -> rec_task_row_of r = None.
Proof.
  unfold past_its_bound, is_task_row. case_bool_decide as Ht; [by intros []|]. intros _.
  destruct (rec_task_row_of r); [destruct Ht; by eexists|done].
Qed.

Lemma reg_step_ok g g' : registry_ok g -> reg_step g g' -> registry_ok g'.
Proof.
  intros Hok Hs. destruct Hs as [reg minted generation creation Hf|addr now Hb|addrs|table src relay v relay' Ht Hc|addr box_id now|now|now|addr now|addr r now Hr].
  - by apply register_ok.
  - apply withdraw_ok; [done|]. intros r Hr _. by apply Hb.
  - by destruct Hok.
  - by eapply carry_ok.
  - by apply detach_ok.
  - unfold draw_switch_addr. destruct (draw _ _ _). by destruct Hok.
  - unfold draw_task_addr. destruct (_ <=? _)%nat; [done|]. destruct (draw _ _ _). by destruct Hok.
  - apply withdraw_ok; [done|]. intros r Hr. apply past_is_box.
  - by eapply resume_ok.
Qed.

Lemma reg_reach_ok subnet subscribed g : reg_reach subnet subscribed g -> registry_ok g.
Proof. induction 1 as [|g g' _ IH Hs]; [apply registry_new_ok|by eapply reg_step_ok]. Qed.

Lemma ok_rows_stand g : registry_ok g -> rows_stand (rg_rows g).
Proof.
  intros [H1 H2 H3 H4 H5 H6 H7 H8] a t Ht [p Hp]. destruct (H4 a t p Ht Hp) as (r & Hr & Hb & Hid & _). exists r. split.
  - unfold box_row_of. by rewrite Hp, Hr, Hid, Nat.eqb_refl.
  - intros E. pose proof (H3 p r a t Hr Ht E) as ->. rewrite Ht in Hr. injection Hr as ->. congruence.
Qed.

(** Why a row is past its bound. *)
Definition bound_passed (g : BoxRegistry) (r : BoxRecord) (now : Z) : Prop :=
  let l := liveness (rg_live g) r in
  (exists since, lv_detached_since l = Some since /\ since + DETACH_GRACE <= now) \/
  (exists since, lv_resumed_since l = Some since /\ since + RESUME_ATTACH_BOUND <= now).

Lemma past_bound_spec g now a r :
  registry_ok g -> rg_rows g !! a = Some r -> is_Some (past_its_bound g now r) ->
  rec_task_row_of r = None /\ uncarried g r /\ bound_passed g r now.
Proof.
  intros Hok Hr Hp. pose proof (past_is_box g now r Hp) as Hb. split; [done|].
  unfold past_its_bound, is_task_row in Hp. rewrite bool_decide_eq_false_2 in Hp by (rewrite Hb; by intros []). cbv zeta in Hp.
  assert (Hpast : forall since bound s, 0 < bound ->
    match since with Some s => if bound <=? Z.max (now - s) 0 then Some s else None | None => None end = Some s -> since = Some s /\ s + bound <= now).
  { intros [x|] bound s Hbd; [|done]. destruct (Z.leb_spec bound (Z.max (now - x) 0)); [|done]. intros [= ->]. split; [done|lia]. }
  destruct (match lv_detached_since (liveness (rg_live g) r) with Some _ => _ | None => _ end) as [s|] eqn:Hd.
  - apply Hpast in Hd as [Hd Hle]; [|unfold DETACH_GRACE, from_secs; lia]. split; [|left; by exists s].
    apply (ro_detached g Hok a r Hr Hb). by rewrite Hd.
  - destruct ((lv_carriers _ =? 0) && _) eqn:Hc; [|by destruct Hp]. apply andb_true_iff in Hc as [Hc%Z.eqb_eq Ht%negb_true_iff].
    split; [done|]. destruct (match lv_resumed_since (liveness (rg_live g) r) with Some _ => _ | None => _ end) as [s|] eqn:Hs; [|by destruct Hp].
    apply Hpast in Hs as [Hs Hle]; [|unfold RESUME_ATTACH_BOUND, from_secs; lia]. right. by exists s.
Qed.

(** C36: in every history of registrations at free addresses, withdrawals of
    boxes, carriages, reports and resumes: a row is held under its own
    address, a box's task rows and its own row stand together, and the
    carriage of a row always returns.  A row the sweep withdraws is carried
    by no relay, neither itself nor a task of it, has stood detached for the
    grace or resumed for its bound, and leaves with its task rows and nothing
    else. *)
Theorem rows_stand_together subnet subscribed g addr now :
  reg_reach subnet subscribed g ->
  (forall a r, rg_rows g !! a = Some r -> rec_switch_addr r = a) /\
  (forall p r a, rg_rows g !! p = Some r -> rec_task_row_of r = None -> a ∈ rec_task_addrs r ->
     exists t, rg_rows g !! a = Some t /\ rec_task_row_of t = Some p /\ rec_box_id t = rec_box_id r) /\
  (forall table v src relay, bt_rows table = rg_rows g -> exists v' relay', carry table v src relay = Done (v', relay')) /\
  match withdraw_where g addr (fun g r => past_its_bound g now r) now with
  | (g', None) => g' = g
  | (g', Some r) =>
      rg_rows g !! addr = Some r /\ uncarried g r /\ bound_passed g r now /\
      forall a, rg_rows g' !! a = if decide (a = addr \/ a ∈ rec_task_addrs r) then None else rg_rows g !! a
  end.
Proof.
  intros Hok%reg_reach_ok. split; [by apply ro_keyed|]. split; [by apply ro_box|]. split.
  { intros table v src relay Ht. apply carry_total. rewrite Ht. by apply ok_rows_stand. }
  pose proof (withdraw_where_rows g addr (fun g r => past_its_bound g now r) now) as Hw.
  destruct (withdraw_where g addr _ now) as [g' [r|]]; [|done]. destruct Hw as (Hr & Hp & Hrows & _).
  destruct (past_bound_spec g now addr r Hok Hr Hp) as (Hb & Hu & Hbd). split_and!; try done. intros a.
  unfold is_task_row in Hrows. rewrite Hrows, bool_decide_eq_false_2 by (rewrite Hb; by intros []). rewrite deletes_lookup.
  destruct (decide (a ∈ rec_task_addrs r)); [by rewrite decide_True by auto|]. destruct (decide (a = addr)) as [->|Hne].
  - by rewrite lookup_delete_eq, decide_True by auto.
  - rewrite lookup_delete_ne by done. by rewrite decide_False by tauto.
Qed.

(** ** A registry to evaluate *)

Module RegistrySample.
Definition reg (name : string) (addr : ip4) (tasks : list ip4) : BoxRegistration :=
  {| br_name := name; br_box_id := None; br_switch_addr := addr; br_loopback_addr := Ip4 127 0 64 9; br_admitted_ports := []; br_declared_names := [];
     br_egress := None; br_credentialed_upstream := false; br_dynamic_ingress := None; br_dynamic_allowed_range := None; br_task_addrs := tasks |}.
Definition start : BoxRegistry := registry_new DEFAULT_SUBNET true.
Definition web : BoxRegistration := reg "web" (Ip4 100 64 128 1) [Ip4 100 64 128 2].
Definition one : BoxRegistry := (try_register_since start web 7 None None).1.
Definition table_of (g : BoxRegistry) : BoxTable :=
  {| bt_rows := rg_rows g; bt_host_ip_boxes := []; bt_host_ip_cohort := None; bt_subnet := rg_subnet g; bt_row_epoch := rg_epoch g |}.
(** A relay carries the task's address, and ends. *)
Definition carried : BoxRegistry :=
  match carry (table_of one) (rg_live one) (Ip4 100 64 128 2) relay_carry_new with Done (v, _) => set_rg_live one v | _ => one end.
Definition detached : BoxRegistry := detach carried (Ip4 100 64 128 2) 7 (from_secs 10).

Example task_run_keeps_its_box :
  let swept g now := (withdraw_where g (Ip4 100 64 128 1) (fun g r => past_its_bound g now r) now) in
  option_map rec_name (swept carried (from_secs 1000)).2 = None /\
  option_map rec_name (swept detached (from_secs 54)).2 = None /\
  option_map rec_name (swept detached (from_secs 55)).2 = Some "web"%string /\
  size (rg_rows (swept detached (from_secs 55)).1) = 0%nat.
Proof. vm_compute. repeat split. Qed.

(** [remove_task_rows] drops a row at a task address that is not the box's:
    it leaves the table with no revocation and is not handed on. *)
Example foreign_task_row_dropped :
  let other := reg "api" (Ip4 100 64 128 2) [] in
  let two := (try_register_since one other 8 None None).1 in
  let r := compiled_row DEFAULT_SUBNET web 7 0 in
  option_map rec_name (rg_rows two !! Ip4 100 64 128 2) = Some "api"%string /\
  rg_rows (remove_task_rows two r).1 !! Ip4 100 64 128 2 = None /\ (remove_task_rows two r).2 = [] /\
  first_held (rg_revoking (remove_task_rows two r).1) [Ip4 100 64 128 2] = None.
Proof. vm_compute. repeat split. Qed.

Lemma one_reached : reg_reach DEFAULT_SUBNET true one.
Proof.
  apply (reach_step _ _ start); [apply reach_new|]. apply step_register. split.
  - apply (bool_decide_unpack _). vm_compute. exact I.
  - intros a _. reflexivity.
Qed.
Lemma carried_reached : reg_reach DEFAULT_SUBNET true carried.
Proof.
  apply (reach_step _ _ one); [apply one_reached|]. unfold carried.
  destruct (carry (table_of one) (rg_live one) (Ip4 100 64 128 2) relay_carry_new) as [[v relay']| |] eqn:E.
  - by eapply (step_carry one (table_of one)).
  - vm_compute in E. discriminate E.
  - vm_compute in E. discriminate E.
Qed.
Lemma detached_reached : reg_reach DEFAULT_SUBNET true detached.
Proof. apply (reach_step _ _ carried); [apply carried_reached|apply step_detach]. Qed.

Lemma rows_stand_together_witness :
  (forall a r, rg_rows detached !! a = Some r -> rec_switch_addr r = a) /\
  match withdraw_where detached (Ip4 100 64 128 1) (fun g r => past_its_bound g (from_secs 55) r) (from_secs 55) with
  | (g', None) => g' = detached
  | (g', Some r) =>
      rg_rows detached !! Ip4 100 64 128 1 = Some r /\ uncarried detached r /\ bound_passed detached r (from_secs 55) /\
      forall a, rg_rows g' !! a = if decide (a = Ip4 100 64 128 1 \/ a ∈ rec_task_addrs r) then None else rg_rows detached !! a
  end.
Proof.
  pose proof (rows_stand_together DEFAULT_SUBNET true detached (Ip4 100 64 128 1) (from_secs 55) detached_reached) as H.
  exact (conj (proj1 H) (proj2 (proj2 (proj2 H)))).
Defined.
End RegistrySample.
