(* ===== verification/ControlHead.v ===== *)
(** * The first request head of a guest connection
    (crates/minvmd/src/net/egress_gate.rs)

    What the guest's first request head says it came for, and the reads a
    control connection makes: the head, exactly the body the head counts,
    and one byte more.  A socket half is the list of what its reads would
    yield; past the list nothing comes before the bound on the read.  The
    second part proves what the reads guarantee. *)

From stdpp Require Import base list strings numbers sets.
From Stdlib Require Import ZArith Lia Ascii.
From S2P Require Import Prelude Text Bytes.
Open Scope Z_scope.

(** ** Text of the standard library *)

(** [u8::is_ascii_whitespace] and [<[u8]>::trim_ascii]. *)
Definition is_ascii_whitespace (b : Z) : bool := bool_decide (b ∈ [32; 9; 10; 12; 13]).
Fixpoint trim_ascii_start (l : list Z) : list Z :=
  match l with
  | b :: l' => if is_ascii_whitespace b then trim_ascii_start l' else l
  | [] => []
  end.
Definition trim_ascii (l : list Z) : list Z := rev (trim_ascii_start (rev (trim_ascii_start l))).

Definition usize_MAX : Z := 18446744073709551615.
Definition u16_MAX : Z := 65535.

(** ** Classification *)

Inductive ControlVerb : Type := Expose | Unexpose | DnsAdd.
#[global] Instance ControlVerb_eq_dec : EqDecision ControlVerb.
Proof. solve_decision. Defined.

Definition CONNECT_PATH : list Z := bytes "/connect".
Definition CONTROL_VERBS : list (ControlVerb * list Z) :=
  [(Expose, bytes "/services/forwarder/expose"); (Unexpose, bytes "/services/forwarder/unexpose");
   (DnsAdd, bytes "/services/dns/add")].
Definition CONTROL_READ : nat := 4 * 1024.
Definition MAX_CONTROL_BODY : Z := 8 * 1024.
Definition HEAD_END : list Z := CRLF ++ CRLF.
Definition MAX_HEAD : nat := 4 * 1024.
Definition HEAD_READ_CHUNK : nat := 512.
Definition MAX_NAMED_TARGET : nat := 64.
Definition MAX_STATUS_LINE : nat := 256.

Inductive GuestSpeak : Type := Frames | Control (verb : ControlVerb) (body : nat).

(** [RefusedHead] and [RefusedHead::new]. *)
Record RefusedHead : Type := { rh_target : list Z }.
Definition refused_head (what : list Z) : RefusedHead := {| rh_target := take MAX_NAMED_TARGET what |}.

(** [strip_cr]. *)
Definition strip_cr (line : list Z) : list Z :=
  match rev line with
  | b :: rest => if b =? CR then rev rest else line
  | [] => line
  end.

(** The loop of [framed_body]: the lines left and the count found so far. *)
Fixpoint framed_lines (lines : list (list Z)) (found : option Z) : option Z :=
  match lines with
  | [] => Some (default 0 found)
  | line :: lines =>
      let line := strip_cr line in
      match line with
      | [] => Some (default 0 found)
      | _ =>
          match position (Z.eqb COLON) line with
          | None => framed_lines lines found
          | Some colon =>
              let name := take colon line in
              let rest := drop colon line in
              if eq_ignore_case name (bytes "Transfer-Encoding") then None
              else if negb (eq_ignore_case name (bytes "Content-Length")) then framed_lines lines found
              else
                value ← (match rest with b :: value => if b =? COLON then Some value else None | [] => None end);
                text ← from_utf8 (trim_ascii value);
                count ← parse_uint usize_MAX text;
                match found with
                | Some _ => None
                | None => framed_lines lines (Some count)
                end
          end
      end
  end.
(** [framed_body]. *)
Definition framed_body (request_head : list Z) : option Z := framed_lines (tl (split_byte LF request_head)) None.

(** [GuestSpeak::of_head]. *)
Definition of_head (request_head : list Z) : GuestSpeak + RefusedHead :=
  let line := strip_cr (default [] (head (split_byte LF request_head))) in
  match split_byte SP line with
  | [_; target; _] =>
      let path := default target (head (split_byte 63 target)) in
      if bool_decide (path = CONNECT_PATH) then inl Frames
      else
        match List.find (fun v => bool_decide (v.2 = path)) CONTROL_VERBS with
        | None => inr (refused_head target)
        | Some (verb, _) =>
            match framed_body request_head with
            | Some body => if body <=? MAX_CONTROL_BODY then inl (Control verb (Z.to_nat body)) else inr (refused_head target)
            | None => inr (refused_head target)
            end
        end
  | _ => inr (refused_head line)
  end.

(** ** Reads *)

(** What a read of a socket half meets. *)
Inductive SocketEvent : Type := SData (bs : list Z) | SEnd | SFail.
Notation Socket := (list SocketEvent).

(** What one read yields: bytes (none at the end of the stream), an error,
    or nothing before the bound. *)
Inductive ReadOutcome : Type := ReadBytes (bs : list Z) | ReadFailed | ReadPending.

(** [read] into a buffer of [room] bytes. *)
Definition socket_read (room : nat) (s : Socket) : ReadOutcome * Socket :=
  match s with
  | [] => (ReadPending, [])
  | SEnd :: _ => (ReadBytes [], s)
  | SFail :: s => (ReadFailed, s)
  | SData bs :: s =>
      (ReadBytes (take room bs), match drop room bs with [] => s | rest => SData rest :: s end)
  end.

(** An event a read can yield holds at least a byte. *)
Definition socket_size (s : Socket) : nat :=
  list_sum (map (fun e => match e with SData bs => S (length bs) | _ => 1%nat end) s).

Inductive HeadError : Type := HeadClosed | HeadTooLong | HeadIo | HeadTimeout.

(** The loop of [read_request_head]: every round takes a byte or ends. *)
Fixpoint head_loop (fuel : nat) (request_head : list Z) (s : Socket)
    : outcome (Socket * (list Z * list Z + HeadError)) :=
  match fuel with
  | O => OutOfFuel
  | S fuel =>
      match socket_read HEAD_READ_CHUNK s with
      | (ReadPending, s) => Done (s, inr HeadTimeout)
      | (ReadFailed, s) => Done (s, inr HeadIo)
      | (ReadBytes [], s) => Done (s, inr HeadClosed)
      | (ReadBytes bs, s) =>
          let request_head := request_head ++ bs in
          match find_window HEAD_END request_head with
          | Some end_ =>
              let cut := (end_ + length HEAD_END)%nat in
              Done (s, inl (take cut request_head, drop cut request_head))
          | None => if (MAX_HEAD <? length request_head)%nat then Done (s, inr HeadTooLong) else head_loop fuel request_head s
          end
      end
  end.
(** [read_request_head]. *)
Definition read_request_head (s : Socket) : outcome (Socket * (list Z * list Z + HeadError)) :=
  head_loop (S (socket_size s)) [] s.

(** [Prefixed] and its [poll_read]. *)
Record Prefixed : Type := { px_carry : list Z; px_pos : nat; px_inner : Socket }.
Definition prefixed_new (carry : list Z) (inner : Socket) : Prefixed :=
  {| px_carry := carry; px_pos := 0; px_inner := inner |}.
Definition prefixed_read (room : nat) (p : Prefixed) : ReadOutcome * Prefixed :=
  if (px_pos p <? length (px_carry p))%nat then
    let n := Nat.min (length (px_carry p) - px_pos p) room in
    (ReadBytes (take n (drop (px_pos p) (px_carry p))),
     {| px_carry := px_carry p; px_pos := px_pos p + n; px_inner := px_inner p |})
  else
    let '(r, inner) := socket_read room (px_inner p) in
    (r, {| px_carry := px_carry p; px_pos := px_pos p; px_inner := inner |}).

Inductive BodyRead : Type := BodyWhole (body : list Z) | BodyEnded | BodyWithheld.

(** The loop of [read_control_body], under the bound [relay_control] gives
    it: every round takes a byte the body still owes, or ends. *)
Fixpoint body_loop (fuel : nat) (want : nat) (got : list Z) (p : Prefixed) : outcome (Prefixed * BodyRead) :=
  if (want <=? length got)%nat then Done (p, BodyWhole got)
  else
    match fuel with
    | O => OutOfFuel
    | S fuel =>
        match prefixed_read (Nat.min (want - length got) CONTROL_READ) p with
        | (ReadPending, p) => Done (p, BodyWithheld)
        | (ReadFailed, p) | (ReadBytes [], p) => Done (p, BodyEnded)
        | (ReadBytes bs, p) => body_loop fuel want (got ++ bs) p
        end
    end.
(** [read_control_body]. *)
Definition read_control_body (p : Prefixed) (body : nat) : outcome (Prefixed * BodyRead) := body_loop body body [] p.

Inductive ControlEnd : Type := GuestClosed | SpokePastRequest | GuestSilent.

(** [control_request_probe]. *)
Definition control_request_probe (p : Prefixed) : ControlEnd :=
  match (prefixed_read 1 p).1 with
  | ReadBytes [] | ReadFailed => GuestClosed
  | ReadBytes _ => SpokePastRequest
  | ReadPending => GuestSilent
  end.

(** ** The switch's answer *)

(** [status_code]. *)
Definition status_code (answer : list Z) : option Z :=
  end_ ← position (Z.eqb LF) answer;
  text ← from_utf8 (take end_ answer);
  word ← nth_error (split_whitespace text) 1;
  parse_uint u16_MAX word.

(** [copy_switch_to_guest]: what reaches the guest, and the status read on
    the way.  [takes] is how many writes the guest's side still takes. *)
Fixpoint copy_loop (fuel takes : nat) (s : Socket) (seen : list Z) (status : option Z) : outcome (list Z * option Z) :=
  match fuel with
  | O => OutOfFuel
  | S fuel =>
      match socket_read CONTROL_READ s with
      | (ReadPending, _) | (ReadFailed, _) | (ReadBytes [], _) => Done ([], status)
      | (ReadBytes bs, s) =>
          let '(seen, status) :=
            match status with
            | None => if (length seen <? MAX_STATUS_LINE)%nat then (seen ++ bs, status_code (seen ++ bs)) else (seen, None)
            | Some _ => (seen, status)
            end in
          match takes with
          | O => Done ([], status)
          | S takes =>
              r ← copy_loop fuel takes s seen status;
              let '(sent, status) := r : list Z * option Z in
              Done (bs ++ sent, status)
          end
      end
  end.
Definition copy_switch_to_guest (takes : nat) (s : Socket) : outcome (list Z * option Z) :=
  copy_loop (S (socket_size s)) takes s [] None.

(** * What the reads of a control connection guarantee

    The head and the body are read exactly, whatever the cut of the stream
    into reads, and within their bounds.  The count of a head comes from the
    lines before its first blank line; a head whose lines all end in CRLF
    has its only blank line at its end, so what is written on is one
    message. *)

(** ** Bytes a socket still yields *)

Fixpoint stream_bytes (s : Socket) : list Z :=
  match s with
  | SData (b :: bs) :: s => (b :: bs) ++ stream_bytes s
  | _ => []
  end.
Definition prefixed_bytes (p : Prefixed) : list Z := drop (px_pos p) (px_carry p) ++ stream_bytes (px_inner p).

Lemma socket_size_data d s : socket_size (SData d :: s) = (S (length d) + socket_size s)%nat.
Proof. done. Qed.

Lemma socket_read_bytes room s b bs s' :
  (0 < room)%nat -> socket_read room s = (ReadBytes (b :: bs), s') ->
  stream_bytes s = (b :: bs) ++ stream_bytes s' /\ (socket_size s' < socket_size s)%nat /\ (length (b :: bs) <= room)%nat.
Proof.
  intros Hr. destruct s as [|[d| |] s]; cbn [socket_read]; try done. intros [= Ht <-].
  assert (d = (b :: bs) ++ drop room d) as Hd by (rewrite <- Ht; symmetry; apply take_drop).
  assert (length (b :: bs) <= room)%nat as Hlen by (rewrite <- Ht, length_take; lia).
  destruct (drop room d) as [|x rest]; rewrite Hd, !socket_size_data, ?length_app; cbn [app stream_bytes length] in *.
  - rewrite app_nil_r. repeat split; lia.
  - rewrite <- app_assoc. repeat split; lia.
Qed.

Lemma prefixed_read_bytes room p b bs p' :
  (0 < room)%nat -> prefixed_read room p = (ReadBytes (b :: bs), p') ->
  prefixed_bytes p = (b :: bs) ++ prefixed_bytes p' /\ (length (b :: bs) <= room)%nat.
Proof.
  intros Hr. unfold prefixed_read, prefixed_bytes. destruct (Nat.ltb_spec (px_pos p) (length (px_carry p))) as [Hp|Hp].
  - intros [= Ht <-]. cbn [px_carry px_pos px_inner]. rewrite <- Ht. split; [|rewrite length_take; lia].
    rewrite app_assoc. f_equal. rewrite <- drop_drop. symmetry. apply take_drop.
  - destruct (socket_read room (px_inner p)) as [o inner] eqn:Hs. intros [= -> <-]. cbn [px_carry px_pos px_inner].
    destruct (socket_read_bytes _ _ _ _ _ Hr Hs) as (E & _ & Hl). rewrite drop_ge by lia. rewrite E. done.
Qed.

(** ** The head *)

(** A head ends at its first blank line of two CRLFs. *)
Definition whole_head (h : list Z) : Prop := exists before, h = before ++ HEAD_END /\ find_window HEAD_END h = Some (length before).

Lemma find_window_prefix pat a r : find_window pat (a ++ pat ++ r) = Some (length a) -> find_window pat (a ++ pat) = Some (length a).
Proof.
  induction a as [|x a IH]; intros Hf.
  - cbn [app]. destruct pat as [|y pat]; [done|]. cbn [find_window].
    assert (starts_with (y :: pat) (y :: pat) = true) as -> by (apply starts_with_iff; exists []; by rewrite app_nil_r). done.
  - cbn [app find_window] in Hf |- *. destruct (starts_with pat (x :: (a ++ pat) ++ r)) eqn:Hs.
    + rewrite <- app_assoc in Hs. rewrite Hs in Hf. done.
    + rewrite <- app_assoc in Hs. rewrite Hs in Hf. destruct (starts_with pat (x :: a ++ pat)) eqn:Hs'.
      * apply starts_with_iff in Hs' as [r' Hr']. assert (starts_with pat (x :: a ++ pat ++ r) = true) as Hc; [|by rewrite Hc in Hs].
        apply starts_with_iff. exists (r' ++ r). rewrite (app_assoc pat r' r), <- Hr'. cbn. by rewrite <- app_assoc.
      * destruct (find_window pat (a ++ pat ++ r)) as [n|] eqn:Hn; [|done]. cbn in Hf. injection Hf as ->. by rewrite IH.
Qed.

Lemma head_loop_spec fuel : forall acc s, (socket_size s < fuel)%nat -> (length acc <= MAX_HEAD)%nat ->
  exists s' r, head_loop fuel acc s = Done (s', r) /\
    match r with
    | inl (h, carry) => acc ++ stream_bytes s = h ++ carry ++ stream_bytes s' /\ whole_head h /\
                        (length (h ++ carry) <= MAX_HEAD + HEAD_READ_CHUNK)%nat
    | inr _ => True
    end.
Proof.
  induction fuel as [|fuel IH]; intros acc s Hf Hacc; [lia|]. cbn [head_loop].
  destruct (socket_read HEAD_READ_CHUNK s) as [[[|b bs]| |] s'] eqn:Hs;
    [by exists s', (inr HeadClosed)| |by exists s', (inr HeadIo)|by exists s', (inr HeadTimeout)].
  apply socket_read_bytes in Hs as (E & Hsize & Hlen); [|unfold HEAD_READ_CHUNK; lia].
  destruct (find_window HEAD_END (acc ++ b :: bs)) as [n|] eqn:Hw.
  - destruct (find_window_Some _ _ _ Hw) as (a & r & Ha & <-).
    exists s', (inl (take (length a + length HEAD_END) (acc ++ b :: bs), drop (length a + length HEAD_END) (acc ++ b :: bs))).
    split; [done|]. rewrite E, app_assoc, (app_assoc (take _ _)), take_drop. split; [done|]. split.
    + exists a. rewrite Ha, app_assoc, take_app_length' by (by rewrite length_app). split; [done|].
      eapply find_window_prefix. rewrite <- Ha. done.
    + rewrite length_app in *. lia.
  - destruct (Nat.ltb_spec MAX_HEAD (length (acc ++ b :: bs))) as [Hlong|Hshort]; [by exists s', (inr HeadTooLong)|].
    destruct (IH (acc ++ b :: bs) s') as (s'' & r & Hl & Hr); [lia|lia|]. exists s'', r. split; [done|].
    destruct r as [[h carry]|e]; [|done]. destruct Hr as (Hb & Hr). split; [|done]. by rewrite <- Hb, E, <- app_assoc.
Qed.

Lemma read_request_head_spec s : exists s' r, read_request_head s = Done (s', r) /\
  match r with
  | inl (h, carry) => stream_bytes s = h ++ carry ++ stream_bytes s' /\ whole_head h /\
                      (length (h ++ carry) <= MAX_HEAD + HEAD_READ_CHUNK)%nat
  | inr _ => True
  end.
Proof. unfold read_request_head. apply (head_loop_spec _ [] s); [lia|cbn; lia]. Qed.

(** ** The body *)

Lemma body_loop_spec fuel : forall want got p, (want - length got <= fuel)%nat -> (length got <= want)%nat ->
  exists p' r, body_loop fuel want got p = Done (p', r) /\
    match r with
    | BodyWhole body => got ++ prefixed_bytes p = body ++ prefixed_bytes p' /\ length body = want
    | _ => True
    end.
Proof.
  induction fuel as [|fuel IH]; intros want got p Hf Hgot; cbn [body_loop].
  - destruct (Nat.leb_spec want (length got)); [|lia]. exists p, (BodyWhole got). repeat split. lia.
  - destruct (Nat.leb_spec want (length got)); [exists p, (BodyWhole got); repeat split; lia|].
    destruct (prefixed_read _ p) as [[[|b bs]| |] p'] eqn:Hp;
      [by exists p', BodyEnded| |by exists p', BodyEnded|by exists p', BodyWithheld].
    apply prefixed_read_bytes in Hp as (E & Hlen); [|unfold CONTROL_READ; lia].
    destruct (IH want (got ++ b :: bs) p') as (p'' & r & Hl & Hr); [rewrite length_app; cbn [length] in *; lia..|].
    exists p'', r. split; [done|]. destruct r; try done. destruct Hr as [Hr Hn]. split; [|done]. by rewrite <- Hr, E, <- app_assoc.
Qed.

Lemma read_control_body_spec p n : exists p' r, read_control_body p n = Done (p', r) /\
  match r with
  | BodyWhole body => prefixed_bytes p = body ++ prefixed_bytes p' /\ length body = n
  | _ => True
  end.
Proof. unfold read_control_body. apply (body_loop_spec n n [] p); cbn; lia. Qed.

(** ** Lines *)

Definition lf_unlines (ls : list (list Z)) : list Z := concat (map (fun l => l ++ [LF]) ls).
Definition line_free (ls : list (list Z)) : Prop := Forall (fun l => LF ∉ l) ls.
Definition blank_line (l : list Z) : bool := bool_decide (strip_cr l = []).

Lemma lf_unlines_app a b : lf_unlines (a ++ b) = lf_unlines a ++ lf_unlines b.
Proof. unfold lf_unlines. by rewrite map_app, concat_app. Qed.

Lemma lines_of l : exists ls r, l = lf_unlines ls ++ r /\ line_free ls /\ LF ∉ r.
Proof.
  induction l as [|b l (ls & r & -> & Hls & Hr)]; [exists [], []; repeat split; [constructor|set_solver]|].
  destruct (decide (b = LF)) as [->|Hb].
  - exists ([] :: ls), r. repeat split; [|done]. constructor; [set_solver|done].
  - destruct ls as [|p ps].
    + exists [], (b :: r). repeat split; [constructor|set_solver].
    + apply list.Forall_cons in Hls as [Hp Hps]. exists ((b :: p) :: ps), r. repeat split; [|done]. constructor; [set_solver|done].
Qed.

Lemma split_unlines ls x : line_free ls -> split_byte LF (lf_unlines ls ++ x) = ls ++ split_byte LF x.
Proof.
  induction 1 as [|l ls Hl _ IH]; [done|]. unfold lf_unlines. cbn [map concat].
  rewrite <- !app_assoc. cbn [app]. rewrite split_byte_app by done. f_equal. exact IH.
Qed.

(** ** Where the counted head ends *)

(** The bytes through the first blank line after the request line, which is
    where [framed_body] stops. *)
Fixpoint span_lines (ls : list (list Z)) : nat :=
  match ls with
  | [] => 0
  | l :: ls => S (length l) + if blank_line l then 0 else span_lines ls
  end.
Definition header_end (l : list Z) : nat :=
  match split_byte LF l with
  | first :: rest => S (length first) + span_lines rest
  | [] => 0
  end.
(** The message a reader of lines by LF takes off a stream, by the count
    [framed_body] reads there, and what it leaves for the next one. *)
Definition lf_message (stream : list Z) : option (list Z * list Z) :=
  n ← framed_body stream;
  let end_ := (header_end stream + Z.to_nat n)%nat in
  Some (take end_ stream, drop end_ stream).

Lemma framed_stops ls more found : existsb blank_line ls = true -> framed_lines (ls ++ more) found = framed_lines ls found.
Proof.
  revert found. induction ls as [|l ls IH]; intros found Hb; [done|]. cbn [existsb] in Hb. cbn [app framed_lines].
  unfold blank_line in Hb at 1. destruct (strip_cr l) as [|c l'] eqn:Hl; [done|].
  rewrite bool_decide_false in Hb by done. cbn [orb] in Hb.
  destruct (position _ _); [|by apply IH]. destruct (eq_ignore_case _ _); [done|].
  destruct (negb _); [by apply IH|]. destruct (match drop _ _ with [] => None | _ => _ end); [|done]. cbn [mbind option_bind].
  destruct (from_utf8 _); [|done]. cbn. destruct (parse_uint _ _); [|done]. cbn. destruct found; [done|]. by apply IH.
Qed.

Lemma span_stops ls more : existsb blank_line ls = true -> span_lines (ls ++ more) = span_lines ls.
Proof.
  induction ls as [|l ls IH]; intros Hb; [done|]. cbn [existsb] in Hb. cbn [app span_lines]. destruct (blank_line l); [done|].
  by rewrite IH.
Qed.

Lemma span_le ls : (span_lines ls <= length (lf_unlines ls))%nat.
Proof.
  induction ls as [|l ls IH]; [cbn; lia|]. unfold lf_unlines in *. cbn [span_lines map concat].
  rewrite !length_app. cbn [length]. destruct (blank_line l); lia.
Qed.

Lemma span_full ls b : existsb blank_line ls = false -> span_lines (ls ++ [b]) = length (lf_unlines (ls ++ [b])).
Proof.
  induction ls as [|l ls IH]; intros Hb.
  - unfold lf_unlines. cbn [app span_lines map concat]. rewrite app_nil_r, length_app. cbn [length]. destruct (blank_line b); lia.
  - cbn [existsb] in Hb. apply orb_false_iff in Hb as [Hl Hb]. cbn [app span_lines]. rewrite Hl, (IH Hb).
    unfold lf_unlines. cbn [map concat]. rewrite !length_app. cbn [length]. lia.
Qed.

(** A whole head is lines, the last of which is a CR. *)
Lemma whole_head_lines h : whole_head h ->
  exists first ls, h = lf_unlines (first :: ls ++ [[CR]]) /\ line_free (first :: ls ++ [[CR]]).
Proof.
  intros (before & -> & _). destruct (lines_of (before ++ [CR])) as (ls & r & E & Hls & Hr).
  assert (line_free (ls ++ [r] ++ [[CR]])) as Hfree.
  { apply Forall_app_2; [done|]. constructor; [done|]. constructor; [|constructor]. unfold CR, LF. set_solver. }
  assert (before ++ HEAD_END = lf_unlines (ls ++ [r] ++ [[CR]])) as Hh.
  { rewrite !lf_unlines_app. change (lf_unlines [r]) with ((r ++ [LF]) ++ []). change (lf_unlines [[CR]]) with [CR; LF].
    rewrite app_nil_r. unfold HEAD_END, CRLF. change ([CR; LF] ++ [CR; LF]) with ([CR] ++ ([LF] ++ [CR; LF])).
    rewrite app_assoc, E, !app_assoc. done. }
  rewrite Hh. destruct ls as [|first ls]; [exists r, []; done|]. exists first, (ls ++ [r]).
  cbn [app] in *. rewrite <- app_assoc. done.
Qed.

Lemma blank_last ls : existsb blank_line (ls ++ [[CR]]) = true.
Proof. rewrite existsb_app. apply orb_true_iff. by right. Qed.

(** What a head counts, and where, does not depend on what follows it. *)
Lemma whole_head_reads h x : whole_head h -> framed_body (h ++ x) = framed_body h /\ header_end (h ++ x) = header_end h
  /\ (header_end h <= length h)%nat.
Proof.
  intros (first & ls & -> & Hfree)%whole_head_lines.
  pose proof (blank_last ls) as Hb. unfold framed_body, header_end.
  rewrite (split_unlines _ x Hfree), <- (app_nil_r (lf_unlines _)), (split_unlines _ [] Hfree), app_nil_r.
  cbn [app tl split_byte]. rewrite <- !app_assoc. cbn [app].
  change (ls ++ [CR] :: split_byte LF x) with (ls ++ [[CR]] ++ split_byte LF x).
  change (ls ++ [[CR]; []]) with (ls ++ [[CR]] ++ [[]]).
  rewrite !(app_assoc ls), (framed_stops _ (split_byte LF x)), (framed_stops _ [[]]), (span_stops _ (split_byte LF x)),
    (span_stops _ [[]]) by done.
  split; [done|]. split; [done|]. pose proof (span_le (ls ++ [[CR]])). unfold lf_unlines in *. cbn [map concat].
  rewrite !length_app in *. cbn [length]. lia.
Qed.

(** ** One message *)

(** A LF that does not end a CRLF. *)
Definition bare_lf (l : list Z) : Prop := exists a r, l = a ++ LF :: r /\ list.last a <> Some CR.

Lemma strip_cr_nil l : strip_cr l = [] -> l = [] \/ l = [CR].
Proof.
  unfold strip_cr. destruct (rev l) as [|b rest] eqn:E; [by left|]. intros Hs.
  assert (l = rev rest ++ [b]) as -> by (rewrite <- (rev_involutive l), E; done).
  destruct (Z.eqb_spec b CR) as [->|]; [rewrite Hs; by right|]. by destruct (rev rest).
Qed.

(** A line that its CR does not end leaves its LF bare. *)
Lemma crlf_line pre j post : ~ bare_lf (lf_unlines pre ++ j ++ LF :: post) -> pre <> [] \/ j <> [] -> exists q, j = q ++ [CR].
Proof.
  intros Hb Hne. destruct (decide (list.last (lf_unlines pre ++ j) = Some CR)) as [Hl|Hl].
  - destruct j as [|b j _] using rev_ind.
    + destruct Hne as [Hne|]; [|done]. destruct pre as [|p pre _] using rev_ind; [done|].
      rewrite app_nil_r, lf_unlines_app in Hl. change (lf_unlines [p]) with ((p ++ [LF]) ++ []) in Hl.
      rewrite app_nil_r, app_assoc, list.last_snoc in Hl. done.
    + exists j. rewrite app_assoc, list.last_snoc in Hl. by injection Hl as ->.
  - destruct Hb. exists (lf_unlines pre ++ j), post. by rewrite <- app_assoc.
Qed.

Lemma no_early_blank first ls : whole_head (lf_unlines (first :: ls ++ [[CR]])) ->
  ~ bare_lf (lf_unlines (first :: ls ++ [[CR]])) -> existsb blank_line ls = false.
Proof.
  intros (before & Hh & Hw) Hb. destruct (existsb blank_line ls) eqn:Hex; [|done]. exfalso.
  apply existsb_exists in Hex as (i & Hin & Hi). apply bool_decide_eq_true, strip_cr_nil in Hi.
  apply list_elem_of_In, list_elem_of_split in Hin as (pre & post & ->).
  destruct (exists_last (l := first :: pre) ltac:(done)) as (pre' & j & Hj).
  assert (lf_unlines (first :: (pre ++ i :: post) ++ [[CR]])
          = lf_unlines pre' ++ j ++ LF :: i ++ LF :: lf_unlines (post ++ [[CR]])) as E.
  { replace (first :: (pre ++ i :: post) ++ [[CR]]) with (pre' ++ [j] ++ [i] ++ post ++ [[CR]])
      by (rewrite (app_assoc pre' [j]), <- Hj; cbn; by rewrite <- app_assoc).
    rewrite lf_unlines_app. f_equal. unfold lf_unlines. cbn [app map concat]. by rewrite <- !app_assoc. }
  rewrite E in Hb.
  assert (i = [CR]) as ->.
  { destruct Hi as [->|Hi]; [|done]. destruct (crlf_line (pre' ++ [j]) [] (lf_unlines (post ++ [[CR]]))) as [q Hq].
    - rewrite lf_unlines_app. change (lf_unlines [j]) with ((j ++ [LF]) ++ []). rewrite app_nil_r, <- !app_assoc. exact Hb.
    - left. by destruct pre'.
    - by destruct q. }
  assert (exists q, j = q ++ [CR]) as [q ->].
  { destruct (decide (pre' = [] /\ j = [])) as [[-> ->]|Hne].
    - destruct Hb. exists [], (CR :: LF :: lf_unlines (post ++ [[CR]])). done.
    - eapply crlf_line; [exact Hb|]. destruct pre'; [right; naive_solver|by left]. }
  rewrite E in Hw. assert (length before <= length (lf_unlines pre' ++ q))%nat as Hfirst.
  { eapply find_window_first; [exact Hw|]. unfold HEAD_END, CRLF.
    instantiate (1 := lf_unlines (post ++ [[CR]])). rewrite <- !app_assoc. done. }
  apply (f_equal length) in Hh. rewrite E in Hh. unfold HEAD_END, CRLF in Hh. rewrite lf_unlines_app in Hh. change (lf_unlines [[CR]]) with [CR; LF] in Hh.
  repeat first [rewrite length_app in Hh | progress cbn [length] in Hh]. rewrite length_app in Hfirst. lia.
Qed.

(** A head whose every LF ends a CRLF, with the body it counts, is one
    message to a reader of lines; and whatever the head, such a reader takes
    the head up to its first blank line and as many bytes as it counts of
    what follows, and is left with the rest. *)
Lemma one_message h body n :
  whole_head h -> framed_body h = Some n -> length body = Z.to_nat n ->
  let past := drop (header_end h) h ++ body in
  lf_message (h ++ body) = Some (take (header_end h) h ++ take (Z.to_nat n) past, drop (Z.to_nat n) past) /\
  (~ bare_lf h -> lf_message (h ++ body) = Some (h ++ body, [])).
Proof.
  intros Hh Hn Hlen. cbn zeta. destruct (whole_head_reads h body Hh) as (Hf & He & Hle).
  assert (lf_message (h ++ body) = Some (take (header_end h + length body) (h ++ body), drop (header_end h + length body) (h ++ body))) as Hm.
  { unfold lf_message. rewrite Hf, Hn. cbn [mbind option_bind]. by rewrite He, Hlen. }
  assert (h ++ body = take (header_end h) h ++ drop (header_end h) h ++ body) as Hcut by (by rewrite app_assoc, take_drop).
  assert (length (take (header_end h) h) = header_end h) as Hl by (rewrite length_take; lia).
  split.
  { rewrite Hm, <- Hlen. rewrite Hcut at 1 2. by rewrite take_app_add', drop_app_add' by done. }
  intros Hb.
  assert (header_end h = length h) as Hend.
  { pose proof Hh as (first & ls & -> & Hfree)%whole_head_lines. pose proof (no_early_blank _ _ Hh Hb) as Hno.
    unfold header_end. rewrite <- (app_nil_r (lf_unlines _)), (split_unlines _ [] Hfree), app_nil_r. cbn [app split_byte].
    rewrite (span_stops (ls ++ [[CR]]) [[]]) by apply blank_last. rewrite span_full by done.
    unfold lf_unlines. cbn [map concat]. rewrite !length_app. cbn [length]. lia. }
  rewrite Hm, Hend. rewrite take_ge, drop_ge by (rewrite length_app; lia). done.
Qed.
