(* ===== verification/RuntimePorts.v ===== *)
(** * Ports published at run time (crates/minvmd/src/box_registry.rs)

    The in-VM daemon reports the ports a box listens on while it runs; the
    host records one only within the grant the box's row was registered
    with, up to a cap and a rate.  What a row records lives inside the
    shared row, so it is keyed by the row's identity. *)

From stdpp Require Import base list gmap strings numbers.
From Stdlib Require Import ZArith Lia.
From S2P Require Import Prelude Text Egress Ingress DnsPins RowCarry.
Open Scope Z_scope.

Definition RUNTIME_PORT_CAP : nat := 256.
Definition ROW_ADMIT_RATE_PER_SECOND : nat := 10.
Definition ADMIT_RATE_WINDOW : Z := from_secs 1.

Record RuntimePort : Type := { rp_port : Z; rp_proto : IpProto }.
#[global] Instance RuntimePort_eq_dec : EqDecision RuntimePort.
Proof. solve_decision. Defined.

Record RowRuntime : Type := { rt_ports : list RuntimePort; rt_admits : list Z }.
Definition row_runtime_new : RowRuntime := {| rt_ports := []; rt_admits := [] |}.

(** The [runtime_ports] of every row, by the identity of the row. *)
Notation Runtimes := (gmap nat RowRuntime).
Definition runtime_of (v : Runtimes) (r : BoxRecord) : RowRuntime := default row_runtime_new (v !! rec_id r).

Inductive PortReportRefusal : Type :=
| NoRow (switch_addr : ip4) (port : Z) (proto : IpProto)
| DenyStance (name : string) (port : Z) (proto : IpProto)
| AskNotHostRecorded (name : string) (port : Z) (proto : IpProto)
| NoAllowedRange (name : string) (port : Z) (proto : IpProto)
| OutsideAllowedRange (name : string) (port : Z) (proto : IpProto) (range : Z * Z)
| RowCapReached (name : string) (port : Z) (proto : IpProto) (cap : nat)
| RateExceeded (name : string) (port : Z) (proto : IpProto) (rate : nat).

(** [BoxRecord::runtime_port_numbers_in]. *)
Definition runtime_port_numbers_in (v : Runtimes) (r : BoxRecord) (proto : IpProto) : list Z :=
  map rp_port (List.filter (fun p => bool_decide (rp_proto p = proto)) (rt_ports (runtime_of v r))).

(** The [while] loop that empties the window's front. *)
Fixpoint expire_admits (now : Z) (admits : list Z) : list Z :=
  match admits with
  | t :: rest => if ADMIT_RATE_WINDOW <=? duration_since now t then expire_admits now rest else admits
  | [] => []
  end.

(** [BoxRegistry::admit_runtime_port]. *)
Definition admit_runtime_port (rows : gmap ip4 BoxRecord) (v : Runtimes) (switch_addr : ip4) (port : Z) (proto : IpProto)
    (now : Z) : Runtimes * (BoxRecord + PortReportRefusal) :=
  match rows !! switch_addr with
  | None => (v, inr (NoRow switch_addr port proto))
  | Some record =>
      let name := rec_name record in
      match rec_dynamic_ingress record with
      | IngressDeny => (v, inr (DenyStance name port proto))
      | IngressAsk => (v, inr (AskNotHostRecorded name port proto))
      | IngressAllow =>
          match rec_dynamic_range record with
          | None => (v, inr (NoAllowedRange name port proto))
          | Some range =>
              if (port <? fst range) || (snd range <? port) then (v, inr (OutsideAllowedRange name port proto range))
              else
                let reported := {| rp_port := port; rp_proto := proto |} in
                let runtime := runtime_of v record in
                if bool_decide (reported ∈ rt_ports runtime) then (v, inl record)
                else if (RUNTIME_PORT_CAP <=? length (rt_ports runtime))%nat
                then (v, inr (RowCapReached name port proto RUNTIME_PORT_CAP))
                else
                  let admits := expire_admits now (rt_admits runtime) in
                  if (ROW_ADMIT_RATE_PER_SECOND <=? length admits)%nat
                  then (<[rec_id record := {| rt_ports := rt_ports runtime; rt_admits := admits |}]> v,
                        inr (RateExceeded name port proto ROW_ADMIT_RATE_PER_SECOND))
                  else (<[rec_id record := {| rt_ports := rt_ports runtime ++ [reported]; rt_admits := admits ++ [now] |}]> v,
                        inl record)
          end
      end
  end.

(** [BoxRegistry::withdraw_runtime_port]. *)
Definition withdraw_runtime_port (rows : gmap ip4 BoxRecord) (v : Runtimes) (switch_addr : ip4) (port : Z) (proto : IpProto)
    : Runtimes * option BoxRecord :=
  match rows !! switch_addr with
  | None => (v, None)
  | Some record =>
      let runtime := runtime_of v record in
      (<[rec_id record := {| rt_ports := List.filter (fun p => negb ((rp_port p =? port) && bool_decide (rp_proto p = proto)))
                                           (rt_ports runtime);
                             rt_admits := rt_admits runtime |}]> v, Some record)
  end.

(** ** Histories *)

Inductive PortOp : Type :=
| PAdmit (rows : gmap ip4 BoxRecord) (addr : ip4) (port : Z) (proto : IpProto) (now : Z)
| PWithdraw (rows : gmap ip4 BoxRecord) (addr : ip4) (port : Z) (proto : IpProto).

(** Whether a report recorded a new port, and in which row when. *)
Definition records_now (v : Runtimes) (op : PortOp) : option (nat * Z) :=
  match op with
  | PAdmit rows addr port proto now =>
      match admit_runtime_port rows v addr port proto now with
      | (v', inl r) => if bool_decide (length (rt_ports (runtime_of v r)) = length (rt_ports (runtime_of v' r))) then None
                       else Some (rec_id r, now)
      | _ => None
      end
  | PWithdraw _ _ _ _ => None
  end.
Definition port_step (v : Runtimes) (op : PortOp) : Runtimes :=
  match op with
  | PAdmit rows addr port proto now => (admit_runtime_port rows v addr port proto now).1
  | PWithdraw rows addr port proto => (withdraw_runtime_port rows v addr port proto).1
  end.
Fixpoint port_run (v : Runtimes) (log : list (nat * Z)) (ops : list PortOp) : Runtimes * list (nat * Z) :=
  match ops with
  | [] => (v, log)
  | op :: ops => port_run (port_step v op) (log ++ match records_now v op with Some e => [e] | None => [] end) ops
  end.

(** The reports' clock does not run backwards. *)
Fixpoint clocked (last : Z) (ops : list PortOp) : Prop :=
  match ops with
  | [] => True
  | PAdmit _ _ _ _ now :: ops => last <= now /\ clocked now ops
  | PWithdraw _ _ _ _ :: ops => clocked last ops
  end.

(** When a row's grant admits a port. *)
Definition grants (r : BoxRecord) (port : Z) : Prop :=
  rec_dynamic_ingress r = IngressAllow /\ exists lo hi, rec_dynamic_range r = Some (lo, hi) /\ lo <= port <= hi.
(** A report of the port reached a row of that identity, which granted it. *)
Definition reported_to (ops : list PortOp) (id : nat) (p : RuntimePort) : Prop :=
  exists rows addr now r, PAdmit rows addr (rp_port p) (rp_proto p) now ∈ ops /\ rows !! addr = Some r /\
    rec_id r = id /\ grants r (rp_port p).

(** The recordings of one row, and those of a window. *)
Definition times_of (id : nat) (log : list (nat * Z)) : list Z := map snd (List.filter (fun e => Nat.eqb e.1 id) log).
Definition in_window (t : Z) (l : list Z) : nat := length (List.filter (fun x => (t <=? x) && (x <? t + ADMIT_RATE_WINDOW)) l).

Lemma in_window_app t a b : in_window t (a ++ b) = (in_window t a + in_window t b)%nat.
Proof. unfold in_window. by rewrite List.filter_app, length_app. Qed.
Lemma in_window_le t l : (in_window t l <= length l)%nat.
Proof. unfold in_window. induction l as [|x l IH]; [done|]. cbn [List.filter]. destruct (_ && _); cbn [length]; lia. Qed.
Lemma in_window_old t now l : (forall x, x ∈ l -> x + ADMIT_RATE_WINDOW <= now) -> now < t + ADMIT_RATE_WINDOW -> in_window t l = 0%nat.
Proof.
  intros Hl Ht. unfold in_window. induction l as [|x l IH]; [done|]. cbn [List.filter].
  assert (x + ADMIT_RATE_WINDOW <= now) by (apply Hl; left).
  replace (t <=? x) with false by (symmetry; apply Z.leb_gt; lia). cbn [andb]. apply IH. intros y Hy. apply Hl. by right.
Qed.
Lemma times_of_app id a b : times_of id (a ++ b) = times_of id a ++ times_of id b.
Proof. unfold times_of. by rewrite List.filter_app, map_app. Qed.

(** What the front of the window gives up is at least a window old. *)
Lemma expire_splits now l : exists gone, l = gone ++ expire_admits now l /\ forall x, x ∈ gone -> x + ADMIT_RATE_WINDOW <= now.
Proof.
  induction l as [|t l (gone & Hl & Hg)]; [exists []; split; [done|set_solver]|]. cbn [expire_admits].
  destruct (Z.leb_spec ADMIT_RATE_WINDOW (duration_since now t)) as [Hw|Hw].
  - exists (t :: gone). split; [by rewrite <- app_comm_cons, <- Hl|]. intros x [->|Hx]%elem_of_cons; [|by apply Hg].
    revert Hw. unfold duration_since, ADMIT_RATE_WINDOW, from_secs. lia.
  - exists []. split; [done|set_solver].
Qed.

(** ** What every history keeps *)

Record runtime_ok (ops : list PortOp) (log : list (nat * Z)) (last : Z) (id : nat) (rt : RowRuntime) : Prop := {
  ro_ports : NoDup (rt_ports rt) /\ (length (rt_ports rt) <= RUNTIME_PORT_CAP)%nat;
  ro_granted : forall p, p ∈ rt_ports rt -> reported_to ops id p;
  ro_log : exists gone, times_of id log = gone ++ rt_admits rt /\ (forall x, x ∈ gone -> x + ADMIT_RATE_WINDOW <= last);
  ro_latest : forall x, x ∈ rt_admits rt -> x <= last;
  ro_rate : forall t, (in_window t (times_of id log) <= ROW_ADMIT_RATE_PER_SECOND)%nat;
}.
Definition runtimes_ok (ops : list PortOp) (log : list (nat * Z)) (last : Z) (v : Runtimes) : Prop :=
  forall id, runtime_ok ops log last id (default row_runtime_new (v !! id)).

Lemma reported_mono ops ops' id p : (forall o, o ∈ ops -> o ∈ ops') -> reported_to ops id p -> reported_to ops' id p.
Proof. intros Hs (rows & addr & now & r & Hin & Hr). exists rows, addr, now, r. auto. Qed.

Lemma runtime_ok_mono ops ops' log last last' id rt :
  (forall o, o ∈ ops -> o ∈ ops') -> last <= last' -> runtime_ok ops log last id rt -> runtime_ok ops' log last' id rt.
Proof.
  intros Hs Hl [Hp Hg (gone & Hlog & Hold) Hlat Hr]. split; [done| | | |done].
  - intros p Hin. eapply reported_mono; eauto.
  - exists gone. split; [done|]. intros x Hx. specialize (Hold x Hx). lia.
  - intros x Hx. specialize (Hlat x Hx). lia.
Qed.

(** A row no operation touches keeps its state under a longer log. *)
Lemma runtime_ok_other ops log last id id' now rt :
  id <> id' -> runtime_ok ops log last id rt -> runtime_ok ops (log ++ [(id', now)]) last id rt.
Proof.
  intros Hne [Hp Hg Hlog Hlat Hr].
  assert (times_of id (log ++ [(id', now)]) = times_of id log) as E.
  { rewrite times_of_app. unfold times_of at 2. cbn [List.filter fst]. destruct (Nat.eqb_spec id' id); [congruence|]. by rewrite app_nil_r. }
  by split; rewrite ?E.
Qed.

(** The front of the window may be given up at any later time. *)
Lemma runtime_ok_expire ops log last id rt now :
  last <= now -> runtime_ok ops log last id rt ->
  runtime_ok ops log now id {| rt_ports := rt_ports rt; rt_admits := expire_admits now (rt_admits rt) |}.
Proof.
  intros Hn [Hp Hg (gone & Hlog & Hold) Hlat Hr]. destruct (expire_splits now (rt_admits rt)) as (gone' & He & Hgone').
  split; [done|done| | |done]; cbn [rt_admits].
  - exists (gone ++ gone'). rewrite <- app_assoc, <- He. split; [done|].
    intros x [Hx|Hx]%elem_of_app; [specialize (Hold x Hx); lia|by apply Hgone'].
  - intros x Hx. assert (x ∈ rt_admits rt) as Hin by (rewrite He; set_solver). specialize (Hlat x Hin). lia.
Qed.

(** A recording within the cap and the rate keeps the row's state. *)
Lemma runtime_ok_record ops log id rt now p :
  runtime_ok ops log now id rt -> p ∉ rt_ports rt -> (length (rt_ports rt) < RUNTIME_PORT_CAP)%nat ->
  (length (rt_admits rt) < ROW_ADMIT_RATE_PER_SECOND)%nat -> reported_to ops id p ->
  runtime_ok ops (log ++ [(id, now)]) now id {| rt_ports := rt_ports rt ++ [p]; rt_admits := rt_admits rt ++ [now] |}.
Proof.
  intros [[Hnd Hcap] Hg (gone & Hlog & Hold) Hlat Hr] Hnew Hlen Hrate Hrep.
  assert (times_of id (log ++ [(id, now)]) = times_of id log ++ [now]) as E.
  { rewrite times_of_app. unfold times_of at 2. cbn [List.filter fst]. by rewrite Nat.eqb_refl. }
  split; cbn [rt_ports rt_admits]; rewrite ?E.
  - rewrite length_app. cbn [length]. split; [|lia]. apply list.NoDup_app. split; [done|]. split; [set_solver|].
    apply NoDup_singleton.
  - intros q [Hq|Hq%list_elem_of_singleton]%elem_of_app; [by apply Hg|by subst].
  - exists gone. split; [by rewrite Hlog, app_assoc|done].
  - intros x [Hx|Hx%list_elem_of_singleton]%elem_of_app; [by apply Hlat|lia].
  - intros t. destruct (Z.ltb_spec now (t + ADMIT_RATE_WINDOW)) as [Ht|Ht].
    + rewrite Hlog, !in_window_app, (in_window_old t now gone) by done.
      pose proof (in_window_le t (rt_admits rt)). pose proof (in_window_le t [now]). cbn [length] in *. lia.
    + rewrite in_window_app. assert (in_window t [now] = 0%nat) as ->; [|specialize (Hr t); lia].
      unfold in_window. cbn [List.filter]. replace (now <? t + ADMIT_RATE_WINDOW) with false by (symmetry; apply Z.ltb_ge; lia).
      by rewrite andb_false_r.
Qed.

Lemma runtime_of_insert v r rt : runtime_of (<[rec_id r := rt]> v) r = rt.
Proof. unfold runtime_of. by rewrite lookup_insert_eq. Qed.

Lemma runtimes_ok_insert ops log last v id rt :
  runtimes_ok ops log last v -> runtime_ok ops log last id rt -> runtimes_ok ops log last (<[id := rt]> v).
Proof.
  intros Hv Hrt id'. destruct (decide (id = id')) as [->|Hne]; [by rewrite lookup_insert_eq|].
  rewrite lookup_insert_ne by done. apply Hv.
Qed.

Lemma admit_step_ok ops log last v rows addr port proto now :
  last <= now -> runtimes_ok ops log last v ->
  let op := PAdmit rows addr port proto now in
  runtimes_ok (ops ++ [op]) (log ++ match records_now v op with Some e => [e] | None => [] end) now (port_step v op).
Proof.
  intros Hn Hv op.
  assert (runtimes_ok (ops ++ [op]) log now v) as Hm.
  { intros id. eapply runtime_ok_mono; [|exact Hn|apply Hv]. set_solver. }
  unfold op, records_now, port_step, admit_runtime_port.
  destruct (rows !! addr) as [r|] eqn:Hrow; [|by rewrite app_nil_r].
  destruct (rec_dynamic_ingress r) eqn:Hst; [|by rewrite app_nil_r|by rewrite app_nil_r].
  destruct (rec_dynamic_range r) as [[lo hi]|] eqn:Hrange; [|by rewrite app_nil_r].
  cbn [fst snd]. destruct ((port <? lo) || (hi <? port)) eqn:Hin; [by rewrite app_nil_r|].
  case_bool_decide as Hheld; [by rewrite bool_decide_true, app_nil_r by done|].
  destruct (RUNTIME_PORT_CAP <=? _)%nat eqn:Hcap; [by rewrite app_nil_r|].
  assert (runtime_ok (ops ++ [op]) log now (rec_id r)
            {| rt_ports := rt_ports (runtime_of v r); rt_admits := expire_admits now (rt_admits (runtime_of v r)) |}) as Hx.
  { apply runtime_ok_expire with (last := now); [lia|]. apply Hm. }
  destruct (ROW_ADMIT_RATE_PER_SECOND <=? _)%nat eqn:Hrate; [rewrite app_nil_r; by apply runtimes_ok_insert|].
  rewrite runtime_of_insert. cbn [rt_ports]. rewrite length_app. cbn [length].
  rewrite bool_decide_false by lia. cbn [fst].
  apply orb_false_iff in Hin as [Hlo%Z.ltb_ge Hhi%Z.ltb_ge].
  apply Nat.leb_gt in Hcap. apply Nat.leb_gt in Hrate. intros id. destruct (decide (rec_id r = id)) as [<-|Hne].
  - rewrite lookup_insert_eq. cbn [default]. apply (runtime_ok_record _ _ _ _ _ _ Hx Hheld Hcap Hrate).
    exists rows, addr, now, r. split; [set_solver|]. split; [done|]. split; [done|]. split; [done|].
    exists lo, hi. split; [done|]. cbn [rp_port]. lia.
  - rewrite lookup_insert_ne by done. apply runtime_ok_other; [congruence|]. apply Hm.
Qed.

Lemma withdraw_step_ok ops log last v rows addr port proto :
  runtimes_ok ops log last v ->
  let op := PWithdraw rows addr port proto in runtimes_ok (ops ++ [op]) (log ++ []) last (port_step v op).
Proof.
  intros Hv op. rewrite app_nil_r.
  assert (runtimes_ok (ops ++ [op]) log last v) as Hm.
  { intros id. eapply runtime_ok_mono; [|reflexivity|apply Hv]. set_solver. }
  unfold op, port_step, withdraw_runtime_port. destruct (rows !! addr) as [r|]; [|done]. cbn [fst].
  apply runtimes_ok_insert; [done|]. destruct (Hm (rec_id r)) as [[Hnd Hcap] Hg Hlog Hlat Hr]. split; cbn [rt_ports rt_admits]; [|intros p Hp|done|done|done].
  - split; [apply base.NoDup_ListNoDup, List.NoDup_filter; by apply base.NoDup_ListNoDup|].
    etransitivity; [|exact Hcap]. apply List.filter_length_le.
  - apply Hg. apply list_elem_of_In, List.filter_In in Hp as [Hp _]. by apply list_elem_of_In.
Qed.

Lemma port_run_ok ops : forall done_ log last v v' log',
  clocked last ops -> runtimes_ok done_ log last v -> port_run v log ops = (v', log') ->
  exists last', runtimes_ok (done_ ++ ops) log' last' v'.
Proof.
  induction ops as [|op ops IH]; intros done_ log last v v' log' Hc Hv Hrun.
  - injection Hrun as <- <-. exists last. by rewrite app_nil_r.
  - cbn [port_run] in Hrun. rewrite cons_middle, app_assoc. destruct op as [rows addr port proto now|rows addr port proto].
    + destruct Hc as [Hn Hc]. eapply IH; [exact Hc| |exact Hrun]. by eapply admit_step_ok.
    + eapply IH; [exact Hc| |exact Hrun]. by apply withdraw_step_ok.
Qed.

(** C32: the ports a row holds at run time are distinct, at most the cap, and
    each was reported while a row of that identity granted it; no second
    records more than the rate; a held port is answered as recorded whatever
    the rate; and a withdrawn port is gone. *)
Theorem runtime_ports_granted ops t0 v log (r : BoxRecord) :
  clocked t0 ops -> port_run ∅ [] ops = (v, log) ->
  let held := rt_ports (runtime_of v r) in
  NoDup held /\ (length held <= RUNTIME_PORT_CAP)%nat /\
  (forall p, p ∈ held -> reported_to ops (rec_id r) p) /\
  (forall t, (in_window t (times_of (rec_id r) log) <= ROW_ADMIT_RATE_PER_SECOND)%nat) /\
  (forall rows addr p now, rows !! addr = Some r -> grants r (rp_port p) -> p ∈ held ->
     admit_runtime_port rows v addr (rp_port p) (rp_proto p) now = (v, inl r)) /\
  (forall rows addr port proto, rows !! addr = Some r ->
     port ∉ runtime_port_numbers_in (withdraw_runtime_port rows v addr port proto).1 r proto).
Proof.
  intros Hc Hrun held. destruct (port_run_ok ops [] [] t0 ∅ v log Hc) as [last Hok]; [|exact Hrun|].
  { intros id. rewrite lookup_empty. split; cbn; [split; [constructor|unfold RUNTIME_PORT_CAP; lia]|set_solver| |set_solver|unfold in_window; cbn; lia].
    exists []. split; [done|set_solver]. }
  destruct (Hok (rec_id r)) as [[Hnd Hcap] Hg _ _ Hr]. fold (runtime_of v r) in *.
  repeat (split; [done|]). split.
  - intros rows addr [port proto] now Hrow [Hst (lo & hi & Hrange & Hin)] Hheld. unfold admit_runtime_port.
    cbn [rp_port rp_proto] in *. rewrite Hrow, Hst, Hrange. cbn [fst snd].
    replace (port <? lo) with false by (symmetry; apply Z.ltb_ge; lia).
    replace (hi <? port) with false by (symmetry; apply Z.ltb_ge; lia). cbn [orb].
    by rewrite bool_decide_true by done.
  - intros rows addr port proto Hrow. unfold withdraw_runtime_port, runtime_port_numbers_in. rewrite Hrow. cbn [fst].
    rewrite runtime_of_insert. cbn [rt_ports]. intros Hin. apply list_elem_of_In, List.in_map_iff in Hin as (p & Hp & Hin).
    apply List.filter_In in Hin as [Hin Hproto]. apply List.filter_In in Hin as [_ Hneg].
    apply bool_decide_eq_true in Hproto. rewrite Hp, Z.eqb_refl, bool_decide_true in Hneg by done. done.
Qed.

Module RuntimeSample.
Definition box : BoxRecord :=
  {| rec_id := 1; rec_box_id := 1; rec_name := "web"; rec_switch_addr := Ip4 100 64 0 2; rec_loopback_addr := Ip4 127 0 64 2;
     rec_admitted_ports := []; rec_declared_names := []; rec_egress := egress_from_policy None (Ip4 100 64 0 1) (Ip4 100 64 0 2);
     rec_resolves_names := false; rec_dns_hosts := []; rec_deny_all := false; rec_credentialed_upstream := false;
     rec_dynamic_ingress := IngressAllow; rec_dynamic_range := Some (9000, 9100); rec_task_row_of := None; rec_task_addrs := [] |}.
Definition rows : gmap ip4 BoxRecord := {[Ip4 100 64 0 2 := box]}.
Definition report (port : Z) (now : Z) : PortOp := PAdmit rows (Ip4 100 64 0 2) port Tcp now.
(** Twelve ports within one second, one port off the grant, and a withdrawal. *)
Definition history : list PortOp :=
  map (fun i => report (9000 + Z.of_nat i) (Z.of_nat i)) (seq 0 12) ++ [report 80 20; report 9000 20; PWithdraw rows (Ip4 100 64 0 2) 9003 Tcp].

Lemma runtime_ports_granted_witness :
  let v := (port_run ∅ [] history).1 in
  runtime_port_numbers_in v box Tcp = [9000; 9001; 9002; 9004; 9005; 9006; 9007; 9008; 9009] /\
  NoDup (rt_ports (runtime_of v box)) /\ (in_window 0 (times_of 1 (port_run ∅ [] history).2) <= ROW_ADMIT_RATE_PER_SECOND)%nat.
Proof.
  assert (clocked 0 history) as Hc by (vm_compute; repeat (split; [discriminate|]); exact I).
  assert (port_run ∅ [] history = ((port_run ∅ [] history).1, (port_run ∅ [] history).2)) as E by (vm_compute; reflexivity).
  destruct (runtime_ports_granted history 0 (port_run ∅ [] history).1 (port_run ∅ [] history).2 box Hc E) as (Hnd & _ & _ & Hr & _).
  split; [vm_compute; reflexivity|]. split; [exact Hnd|exact (Hr 0)].
Defined.
End RuntimeSample.
