(* ===== verification/ControlRequest.v ===== *)
(** * Control requests at the host's gate
    (crates/minvmd/src/net/egress_gate.rs)

    What a control request asks of the switch and whether the host's rows
    allow it: the three bodies of the daemon's client, their summaries, the
    rows as the pure decision reads them, and the range probe's exact shape.
    The JSON reader is the class [JsonBodies]. *)

From stdpp Require Import base list gmap sorting strings numbers.
From Stdlib Require Import ZArith Lia Ascii.
From S2P Require Import Prelude Text Bytes Egress Ingress Switch Loopback SwitchRequest RefusalEmitter Classifier DnsPins HostGate PublishLedger RowRegistry RuntimePorts ControlHead.
Open Scope Z_scope.

Definition UNDECLARED_VERB_RULE : string := "egress-undeclared-verb".
Definition UNREGISTERED_PUBLISH_RULE : string := "egress-unregistered-publish".
Definition UNKNOWN_PUBLISH_ADDRESS_RULE : string := "egress-unknown-publish-address".
Definition UNDECLARED_PUBLISH_RECORD_RULE : string := "egress-undeclared-publish-record".
Definition REVOKING_ADDRESS_RULE : string := "egress-publish-at-revoking-address".
Definition PUBLISH_LEDGER_FULL_RULE : string := "egress-publish-ledger-full".
Definition LISTENER_HELD_RULE : string := "egress-publish-listener-held".
Definition UNDECLARED_RETRACT_RULE : string := "egress-undeclared-retract".
Definition MALFORMED_PUBLISH_RULE : string := "egress-malformed-publish".
Definition CONTROL_UPGRADE_RULE : string := "egress-control-upgrade".
Definition RANGE_PROBE_RULE : string := "egress-range-probe".
Definition MAX_REQUEST_NAME_INDEX : nat := 255.
Definition MAX_ZONE_RECORDS : nat := MAX_REQUEST_RECORDS.

(** ** Bodies *)

(** [ExposeBody] and [ProbeExposeBody]; [UnexposeBody] and
    [ProbeUnexposeBody]; [DnsRecordBody]. *)
Record ExposeBody : Type := { eb_local : string; eb_remote : string; eb_protocol : string }.
Record UnexposeBody : Type := { ub_local : string; ub_protocol : string }.
Record DnsRecordBody : Type := { dr_name : string; dr_ip : string }.

(** What the gate asks of its JSON library: the three bodies, a plain
    object's string fields, the two strict reads, and the two writers. *)
Class JsonBodies : Type := {
  read_expose : list Z -> option ExposeBody;
  read_unexpose : list Z -> option UnexposeBody;
  read_dns_add : list Z -> option (list DnsRecordBody);
  read_object : list Z -> option (string -> option string);
  strict_expose : list Z -> bool;
  strict_unexpose : list Z -> bool;
  write_expose : ExposeBody -> list Z;
  write_unexpose : UnexposeBody -> list Z;
}.

(** What a refusal line names. *)
Inductive RefusedWhat : Type :=
| NamedPort (port : Z)
| NamedName (name : string)
| UnknownName (index : Z)
| Spelled (text : string).
Record RefusedRequest : Type := {
  rq_rule : string; rq_addr : option ip4; rq_what : option RefusedWhat; rq_reason : string }.
Record ControlDecision : Type := { cd_applied : Applied; cd_request : SwitchRequest; cd_dictionary : list string }.

(** [forward_revoke::listener_local]. *)
Definition listener_local (addr : ip4) (port : Z) : string := (show_ip4 addr ++ ":" ++ show_uint port)%string.
Definition LOCALHOST : ip4 := Ip4 127 0 0 1.
Definition parse_u16 (s : string) : option Z := parse_uint u16_MAX s.

(** [host_port]. *)
Definition host_port (remote : string) : option (ip4 * Z) :=
  '(host, port) ← rsplit_once ":" remote;
  addr ← parse_ipv4 host;
  port ← parse_u16 port;
  Some (addr, port).

(** [loopback_listener] and [loopback_port]. *)
Definition loopback_listener (local : string) : option Listener :=
  '(host, port) ← rsplit_once ":" local;
  addr ← parse_ipv4 host;
  if negb (bool_decide (addr = LOCALHOST)) && negb (in_reserved_local_range addr) then None
  else
    port ← parse_u16 port;
    if negb (bool_decide (listener_local addr port = local)) then None else Some (addr, port).
Definition loopback_port (local : string) : option Z := option_map snd (loopback_listener local).

(** [is_client_protocol]. *)
Definition is_client_protocol (protocol : string) : bool := bool_decide (protocol ∈ ["tcp"; "udp"]%string).
Definition protocol_number (protocol : string) : option Z :=
  if bool_decide (protocol = "tcp"%string) then Some IPPROTO_TCP
  else if bool_decide (protocol = "udp"%string) then Some IPPROTO_UDP else None.

(** [BoxTable::rows], [BoxTable::ptask_run] and [BoxTable::revocation_pending]. *)
Definition addr_le (a b : ip4 * BoxRecord) : Prop := ip4_u32 a.1 <= ip4_u32 b.1.
#[global] Instance addr_le_dec a b : Decision (addr_le a b) := Z_le_dec _ _.
Definition table_rows (table : BoxTable) : list BoxRecord := map snd (merge_sort addr_le (map_to_list (bt_rows table))).
Definition ptask_run (table : BoxTable) : ip4 * ip4 :=
  (ip4_of_u32 (first_ptask (bt_subnet table)), ip4_of_u32 (last_ptask (bt_subnet table))).
Definition revocation_pending (held : Revoking) (addr : ip4) : bool := bool_decide (is_Some (first_held held [addr])).

(** ** The rows the decision reads *)

(** The loop over one row's names in [switch_rows_of]. *)
Fixpoint intern_names (names : list string) (seen : gmap string Z) (dictionary : list string)
    : option (list Z * gmap string Z * list string) :=
  match names with
  | [] => Some ([], seen, dictionary)
  | name :: names =>
      match seen !! name with
      | Some index =>
          '(indices, seen, dictionary) ← intern_names names seen dictionary;
          Some (index :: indices, seen, dictionary)
      | None =>
          let index := Z.of_nat (length dictionary) in
          if 255 <? index then None
          else
            '(indices, seen, dictionary) ← intern_names names (<[name := index]> seen) (dictionary ++ [name]);
            Some (index :: indices, seen, dictionary)
      end
  end.
Definition row_names (record : BoxRecord) : list string :=
  canonical_box_name (rec_name record) :: rec_declared_names record.
Definition runtime_in (v : Runtimes) (record : BoxRecord) (request_proto : option Z) : list Z :=
  match request_proto with
  | Some proto => if proto =? IPPROTO_TCP then runtime_port_numbers_in v record Tcp
                  else if proto =? IPPROTO_UDP then runtime_port_numbers_in v record Udp else []
  | None => []
  end.
Fixpoint rows_loop (v : Runtimes) (rows : list BoxRecord) (request_proto : option Z) (seen : gmap string Z)
    (dictionary : list string) : option (list SwitchRow * list string) :=
  match rows with
  | [] => Some ([], dictionary)
  | record :: rows =>
      '(names, seen, dictionary) ← intern_names (row_names record) seen dictionary;
      let runtime := runtime_in v record request_proto in
      let ports := rec_admitted_ports record ++ runtime in
      '(switch_rows, dictionary) ← rows_loop v rows request_proto seen dictionary;
      Some (with_published (switch_row_of (rec_switch_addr record) ports names) runtime :: switch_rows, dictionary)
  end.
(** [switch_rows_of]. *)
Definition switch_rows_of (v : Runtimes) (rows : list BoxRecord) (request_proto : option Z) (dictionary : list string)
    : option (list SwitchRow * list string) := rows_loop v rows request_proto ∅ dictionary.

(** [render_record]. *)
Definition render_record (record : Record_) (dictionary : list string) : RefusedWhat :=
  match record with
  | RcPort port => NamedPort port
  | RcName index => match dictionary !! Z.to_nat index with Some name => NamedName name | None => UnknownName index end
  end.

Section requests.
Context `{JsonBodies}.

(** ** Summaries *)

Definition malformed (verb : string) (what : option RefusedWhat) : RefusedRequest :=
  {| rq_rule := MALFORMED_PUBLISH_RULE; rq_addr := None; rq_what := what;
     rq_reason := ("the body is not the JSON shape the daemon's own client sends for " ++ verb)%string |}.
Definition or_malformed (verb : string) (r : option SwitchRequest) : SwitchRequest + RefusedRequest :=
  match r with Some request => inl request | None => inr (malformed verb None) end.

(** [summarize_expose]. *)
Definition summarize_expose (body : list Z) : SwitchRequest + RefusedRequest :=
  let malformed := malformed "an expose" in
  match read_expose body with
  | None => inr (malformed None)
  | Some parsed =>
      match loopback_port (eb_local parsed) with
      | None => inr (malformed (Some (Spelled (eb_local parsed))))
      | Some local_port =>
          match host_port (eb_remote parsed) with
          | None => inr (malformed (Some (Spelled (eb_remote parsed))))
          | Some (remote_addr, _) =>
              if negb (is_client_protocol (eb_protocol parsed)) then inr (malformed (Some (Spelled (eb_protocol parsed))))
              else or_malformed "an expose" (switch_request_of Publish remote_addr [RcPort local_port])
          end
      end
  end.

(** [summarize_unexpose]. *)
Definition summarize_unexpose (body : list Z) (forwards : PublishedForwards) : SwitchRequest + RefusedRequest :=
  let malformed := malformed "an unexpose" in
  match read_unexpose body with
  | None => inr (malformed None)
  | Some parsed =>
      match loopback_listener (ub_local parsed) with
      | None => inr (malformed (Some (Spelled (ub_local parsed))))
      | Some listener =>
          if negb (is_client_protocol (ub_protocol parsed)) then inr (malformed (Some (Spelled (ub_protocol parsed))))
          else or_malformed "an unexpose"
                 (switch_request_of Retract (default (Ip4 0 0 0 0) (address_of forwards listener)) [RcPort (snd listener)])
      end
  end.

(** The index of a record's name: a held name, else a name it extends by a
    dot, else a new one. *)
Fixpoint name_position (p : string -> bool) (dictionary : list string) : option nat :=
  match dictionary with
  | [] => None
  | held :: dictionary => if p held then Some 0%nat else S <$> name_position p dictionary
  end.
Definition dot_extends (name held : string) : bool :=
  match strip_prefix held name with Some (String "." _) => true | _ => false end.
Definition name_index (name : string) (dictionary : list string) : nat * list string :=
  match name_position (fun held => bool_decide (held = name)) dictionary with
  | Some index => (index, dictionary)
  | None =>
      match name_position (dot_extends name) dictionary with
      | Some index => (index, dictionary)
      | None => (length dictionary, dictionary ++ [name])
      end
  end.
(** The loop of [summarize_dns_add]. *)
Fixpoint dns_records (parsed : list DnsRecordBody) (addr : option ip4) (dictionary : list string)
    : outcome (list Record_ * option ip4 * list string + RefusedRequest) :=
  let malformed := malformed "a zone-add" in
  match parsed with
  | [] => Done (inl ([], addr, dictionary))
  | record :: parsed =>
      match parse_ipv4 (dr_ip record) with
      | None => Done (inr (malformed (Some (Spelled (dr_ip record)))))
      | Some record_addr =>
          if match addr with Some seen => negb (bool_decide (seen = record_addr)) | None => false end
          then Done (inr (malformed (Some (Spelled (dr_ip record)))))
          else if (MAX_REQUEST_NAME_INDEX <=? length dictionary)%nat
          then Done (inr (malformed (Some (Spelled (dr_name record)))))
          else
            let '(index, dictionary) := name_index (dr_name record) dictionary in
            if (255 <? index)%nat then Panicked
            else
              r ← dns_records parsed (Some record_addr) dictionary;
              Done (match r with
                    | inl (records, addr, dictionary) => inl (RcName (Z.of_nat index) :: records, addr, dictionary)
                    | inr refused => inr refused
                    end)
      end
  end.
(** [summarize_dns_add]. *)
Definition summarize_dns_add (body : list Z) (dictionary : list string)
    : outcome (SwitchRequest * list string + RefusedRequest) :=
  let malformed := malformed "a zone-add" in
  match read_dns_add body with
  | None => Done (inr (malformed None))
  | Some parsed =>
      if bool_decide (parsed = []) || (MAX_ZONE_RECORDS <? length parsed)%nat then Done (inr (malformed None))
      else
        r ← dns_records parsed None dictionary;
        Done (match r with
              | inr refused => inr refused
              | inl (records, addr, dictionary) =>
                  match switch_request_of PublishName (default (Ip4 0 0 0 0) addr) records with
                  | Some request => inl (request, dictionary)
                  | None => inr (malformed None)
                  end
              end)
  end.

(** [forward_listener], [published_inside], [published_protocol] and
    [retracted_protocol]. *)
Definition forward_listener (verb : ControlVerb) (body : list Z) : option Listener :=
  match verb with
  | Expose => parsed ← read_expose body; loopback_listener (eb_local parsed)
  | Unexpose => parsed ← read_unexpose body; loopback_listener (ub_local parsed)
  | DnsAdd => None
  end.
Definition published_inside (body : list Z) : option Z :=
  parsed ← read_expose body; option_map snd (host_port (eb_remote parsed)).
Definition published_protocol (body : list Z) : option Z :=
  parsed ← read_expose body; protocol_number (eb_protocol parsed).
Definition retracted_protocol (body : list Z) (forwards : PublishedForwards) : option Z :=
  parsed ← read_unexpose body;
  listener ← loopback_listener (ub_local parsed);
  protocol_of forwards listener.

(** ** The decision *)

(** The part of [decide_control_request] that decides a summary. *)
Definition decide_summary (verb : ControlVerb) (held : Revoking) (switch_table : SwitchTable) (phase : EgressDefaultPhase)
    (request : SwitchRequest) (dictionary : list string) : ControlDecision + RefusedRequest :=
  if negb (bool_decide (verb = Unexpose)) && revocation_pending held (sr_switch_addr request) then
    inr {| rq_rule := REVOKING_ADDRESS_RULE; rq_addr := Some (sr_switch_addr request); rq_what := None;
           rq_reason := "a withdrawn box's revocation still holds this address; the host is unbinding that box's forwards" |}
  else
    match applied request switch_table phase with
    | inl by_ => inl {| cd_applied := by_; cd_request := request; cd_dictionary := dictionary |}
    | inr refusal =>
        let '(rule, addr, what) :=
          match refusal with
          | UnknownAddress addr => (UNKNOWN_PUBLISH_ADDRESS_RULE, Some addr, None)
          | Undeclared addr record => (UNDECLARED_PUBLISH_RECORD_RULE, Some addr, Some (render_record record dictionary))
          | Unheld addr record =>
              (UNDECLARED_RETRACT_RULE, Some addr, option_map (fun record => render_record record dictionary) record)
          end in
        inr {| rq_rule := rule; rq_addr := addr; rq_what := what; rq_reason := switch_refusal_text refusal |}
    end.

(** The protocol whose run-time ports a request is decided with. *)
Definition request_proto (verb : ControlVerb) (body : list Z) (forwards : PublishedForwards) : option Z :=
  match verb with
  | Expose => published_protocol body
  | Unexpose => retracted_protocol body forwards
  | DnsAdd => None
  end.

(** [decide_control_request]. *)
Definition decide_control_request (verb : ControlVerb) (body : list Z) (table : BoxTable) (v : Runtimes) (held : Revoking)
    (phase : EgressDefaultPhase) (forwards : PublishedForwards) : outcome (ControlDecision + RefusedRequest) :=
  match switch_rows_of v (table_rows table) (request_proto verb body forwards) [] with
  | None => Done (inr {| rq_rule := MALFORMED_PUBLISH_RULE; rq_addr := None; rq_what := None;
                         rq_reason := "the published rows carry more distinct names than one decision can index" |})
  | Some (switch_rows, dictionary) =>
      let switch_table :=
        {| st_rows := switch_rows; st_first_ptask := (ptask_run table).1; st_last_ptask := (ptask_run table).2 |} in
      summary ← (match verb with
                 | Expose => Done (match summarize_expose body with inl r => inl (r, dictionary) | inr refused => inr refused end)
                 | Unexpose =>
                     Done (match summarize_unexpose body forwards with inl r => inl (r, dictionary) | inr refused => inr refused end)
                 | DnsAdd => summarize_dns_add body dictionary
                 end);
      Done (match summary : SwitchRequest * list string + RefusedRequest with
            | inr refused => inr refused
            | inl (request, dictionary) => decide_summary verb held switch_table phase request dictionary
            end)
  end.

(** [declaring_box]. *)
Definition declaring_box (table : BoxTable) (by_ : Applied) (addr : ip4) (port : Z) : option nat :=
  if negb (bool_decide (by_ = AppliedRow)) then None
  else
    row ← by_source table addr;
    if bool_decide (port ∈ rec_admitted_ports row) then Some (rec_box_id row) else None.

(** ** The range probe *)

Definition RANGE_PROBE_PORT : Z := 21064.
Definition RANGE_PROBE_REMOTE : string := "127.0.0.1:1".

(** [range_probe_listener]. *)
Definition range_probe_listener (verb : ControlVerb) (body : list Z) : option Listener :=
  field ← read_object body;
  _ ← (match verb with
       | Expose => remote ← field "remote"%string; if bool_decide (remote = RANGE_PROBE_REMOTE) then Some tt else None
       | Unexpose => Some tt
       | DnsAdd => None
       end);
  local ← field "local"%string;
  listener ← loopback_listener local;
  protocol ← field "protocol"%string;
  if bool_decide (protocol = "tcp"%string) && (snd listener =? RANGE_PROBE_PORT) && in_reserved_local_range (fst listener)
  then Some listener else None.

(** [probe_body_is_strict], [names_probe_listener] and [range_address_held]. *)
Definition probe_body_is_strict (verb : ControlVerb) (body : list Z) : bool :=
  match verb with Expose => strict_expose body | Unexpose => strict_unexpose body | DnsAdd => false end.
Definition names_probe_listener (verb : ControlVerb) (body : list Z) : bool :=
  match forward_listener verb body with
  | Some listener => (snd listener =? RANGE_PROBE_PORT) && in_reserved_local_range (fst listener)
  | None => false
  end.
Definition range_address_held (table : BoxTable) (forwards : PublishedForwards) (addr : ip4) : bool :=
  holds_loopback_address forwards addr
  || existsb (fun row => bool_decide (rec_loopback_addr row = addr)) (table_rows table).

(** [canonical_probe_request]. *)
Definition canonical_probe_request (verb : ControlVerb) (listener : Listener) : list Z :=
  let local := listener_local (fst listener) (snd listener) in
  let '(path, body) :=
    match verb with
    | Unexpose => ("/services/forwarder/unexpose"%string, write_unexpose {| ub_local := local; ub_protocol := "tcp" |})
    | _ => ("/services/forwarder/expose"%string,
            write_expose {| eb_local := local; eb_remote := RANGE_PROBE_REMOTE; eb_protocol := "tcp" |})
    end in
  bytes ("POST " ++ path ++ " HTTP/1.1") ++ CRLF ++ bytes "Host: localhost" ++ CRLF
  ++ bytes "Content-Type: application/json" ++ CRLF
  ++ bytes ("Content-Length: " ++ show_uint (Z.of_nat (length body))) ++ CRLF ++ CRLF ++ body.
End requests.

(** [probe_malformed_answer], [probe_refused_answer], [held_answer] and
    [bound_answer]. *)
Definition text_answer (status body : string) : list Z :=
  bytes ("HTTP/1.1 " ++ status) ++ CRLF ++ bytes "Content-Type: text/plain; charset=utf-8" ++ CRLF
  ++ bytes ("Content-Length: " ++ show_uint (Z.of_nat (String.length body) + 1)) ++ CRLF ++ CRLF ++ bytes body ++ [Bytes.LF].
Definition probe_malformed_answer : list Z :=
  text_answer "400 Bad Request" "a loopback range probe round carried a key beyond its own fields".
Definition probe_refused_answer : list Z :=
  text_answer "409 Conflict" "another loopback range probe round is still bound".
Definition held_answer : list Z := text_answer "500 Internal Server Error" "proxy already running".
Definition bound_answer : list Z := bytes "HTTP/1.1 200 OK" ++ CRLF ++ bytes "Content-Length: 0" ++ CRLF ++ CRLF.
