(* ===== verification/ControlRelay.v ===== *)
(** * The control relay (crates/minvmd/src/net/egress_gate.rs)

    One control connection of the guest: the request read whole, decided,
    noted in the ledger and written on, and then settled by the switch's
    answer.  Other connections and the withdrawal of rows come between any
    two of these steps: what they do between the decision and the note, and
    while the write waits, is part of what an exchange meets. *)

From stdpp Require Import base list gmap strings numbers pretty.
From Stdlib Require Import ZArith Lia.
From S2P Require Import Prelude Text Bytes Egress Switch SwitchRequest DropLimiter DnsPins ReplyTables PublishLedger GateRelay RowRegistry RuntimePorts ControlHead ControlRequest.
Open Scope Z_scope.

(** What the relays of a gate share. *)
Record ControlState : Type := {
  cs_limiter : DropLimiter;
  cs_replies : ReplyTables;
  cs_forwards : PublishedForwards;
}.
Definition set_cs_limiter (st : ControlState) (l : DropLimiter) : ControlState :=
  {| cs_limiter := l; cs_replies := cs_replies st; cs_forwards := cs_forwards st |}.
Definition set_cs_replies (st : ControlState) (t : ReplyTables) : ControlState :=
  {| cs_limiter := cs_limiter st; cs_replies := t; cs_forwards := cs_forwards st |}.
Definition set_cs_forwards (st : ControlState) (f : PublishedForwards) : ControlState :=
  {| cs_limiter := cs_limiter st; cs_replies := cs_replies st; cs_forwards := f |}.

(** What other tasks do between two steps of an exchange: operations on the
    ledger, and anything to the records of replies and the warn lines. *)
Record Meanwhile : Type := {
  mw_ops : list LedgerOp;
  mw_replies : ReplyTables -> ReplyTables;
  mw_limiter : DropLimiter -> DropLimiter;
}.
Definition ledger_steps (f : PublishedForwards) (ops : list LedgerOp) : PublishedForwards := fold_left ledger_step ops f.
Definition others (st : ControlState) (m : Meanwhile) : ControlState :=
  {| cs_limiter := mw_limiter m (cs_limiter st); cs_replies := mw_replies m (cs_replies st);
     cs_forwards := ledger_steps (cs_forwards st) (mw_ops m) |}.

(** What one exchange meets: the rows and their run-time ports, the
    addresses under revocation and the phase its decision reads, the clock of
    the warn lines, what other tasks do before its note and while its write
    waits, the rows its note reads, and whether the switch takes the write. *)
Record ControlEnv : Type := {
  ce_table : BoxTable;
  ce_runtimes : Runtimes;
  ce_revoking : Revoking;
  ce_phase : EgressDefaultPhase;
  ce_now : Z;
  ce_before_note : Meanwhile;
  ce_table_noted : BoxTable;
  ce_before_written : Meanwhile;
  ce_switch_takes : bool;
}.

(** How the first half of an exchange ends: closed with at most an answer of
    the gate's own, a write the switch did not take, or a request on its way
    with the note and the probe round that hang on its answer. *)
Inductive Exchange : Type :=
| ExClosed (answer : option (list Z))
| ExUnwritten (spoken : list Z)
| ExRelayed (spoken : list Z) (noted : option Listener) (probe_round : option Z).

(** [refuse_request]. *)
Definition refuse_request (st : ControlState) (refused : RefusedRequest) (now : Z) : ControlState :=
  set_cs_limiter st (emit (cs_limiter st) (rq_addr refused) (rq_rule refused) now).1.
(** [warn_interim_publish]. *)
Definition warn_interim_publish (st : ControlState) (decision : ControlDecision) (now : Z) : ControlState :=
  set_cs_limiter st (emit (cs_limiter st) (Some (sr_switch_addr (cd_request decision))) UNREGISTERED_PUBLISH_RULE now).1.

(** [note_retracted] with the records of the publication it ends. *)
Definition retract_and_end (st : ControlState) (listener : Listener) : outcome ControlState :=
  let '(f, was) := note_retracted (cs_forwards st) listener in
  let st := set_cs_forwards st f in
  match was with
  | Some (addr, inside, proto) =>
      if still_published f addr inside proto then Done st
      else t ← end_port_at (cs_replies st) addr proto inside; Done (set_cs_replies st t)
  | None => Done st
  end.

(** [(200..300).contains(&status)]. *)
Definition success_status (status : Z) : bool := (200 <=? status) && (status <? 300).

(** [<LedgerFull as Display>::fmt]. *)
Definition ledger_full_text : string :=
  ("the egress gate's publish ledger holds " ++ pretty PUBLISHED_FORWARDS_TRACKED
   ++ " forwards, its bound; a forward the ledger cannot hold could never be unbound at its box's end")%string.

Section relay.
Context `{JsonBodies}.

(** What the range probe makes of a request: nothing, an answer of the
    gate's own, or a round to relay. *)
Inductive ProbeTurn : Type :=
| NotAProbe
| ProbeAnswered (answer : list Z)
| ProbeRound (spoken : list Z) (generation : Z).

(** The range probe's part of [relay_control]. *)
Definition probe_turn (st : ControlState) (env : ControlEnv) (verb : ControlVerb) (request : list Z)
    : ControlState * ProbeTurn :=
  let refuse reason listener :=
    refuse_request st {| rq_rule := RANGE_PROBE_RULE; rq_addr := Some (fst listener);
                         rq_what := Some (NamedPort (snd listener)); rq_reason := reason |} (ce_now env) in
  match range_probe_listener verb request with
  | None => (st, NotAProbe)
  | Some listener =>
      if negb (probe_body_is_strict verb request) then
        (refuse "a loopback range probe round carried a key beyond its own fields"%string listener,
         ProbeAnswered probe_malformed_answer)
      else if negb (range_address_held (ce_table env) (cs_forwards st) (fst listener)) then
        let spoken := canonical_probe_request verb listener in
        if bool_decide (verb = Expose) then
          match begin_probe (cs_forwards st) listener with
          | (f, inl generation) => (set_cs_forwards st f, ProbeRound spoken generation)
          | (_, inr held) =>
              (refuse ("another loopback range probe round is still bound at " ++ listener_local (fst held) (snd held))%string
                 listener, ProbeAnswered probe_refused_answer)
          end
        else
          match ps_outstanding (pf_probe (cs_forwards st)) with
          | Some (held, generation) =>
              if bool_decide (held = listener) then (st, ProbeRound spoken generation) else (st, ProbeAnswered bound_answer)
          | None => (st, ProbeAnswered bound_answer)
          end
      else if bool_decide (verb = Expose) then (st, ProbeAnswered held_answer)
      else (st, NotAProbe)
  end.

(** What the ledger makes of an admitted request: it is answered or refused
    without being relayed, or goes on with a note of its own or none. *)
Inductive LedgerTurn : Type := TurnClosed (answer : option (list Z)) | TurnNoted (noted : option Listener).

(** The ledger's part of [relay_control]. *)
Definition ledger_turn (st : ControlState) (env : ControlEnv) (verb : ControlVerb) (request : list Z)
    (decision : option ControlDecision) : ControlState * LedgerTurn :=
  match verb, forward_listener verb request, decision with
  | Expose, Some listener, Some decision =>
      match published_inside request, published_protocol request with
      | Some inside, Some proto =>
          let addr := sr_switch_addr (cd_request decision) in
          let '(f, admitted) :=
            admit_publish (cs_forwards st) listener addr inside proto (cd_applied decision)
              (declaring_box (ce_table_noted env) (cd_applied decision) addr (snd listener)) in
          let st := set_cs_forwards st f in
          let refuse rule reason :=
            refuse_request st {| rq_rule := rule; rq_addr := Some addr; rq_what := Some (NamedPort (snd listener));
                                 rq_reason := reason |} (ce_now env) in
          match admitted with
          | inl Noted => (st, TurnNoted (Some listener))
          | inl Held => (st, TurnNoted None)
          | inl Bound => (st, TurnClosed (Some bound_answer))
          | inl Waiting =>
              (refuse LISTENER_HELD_RULE
                 "another box holds this listener; the declared forward waits, and the host binds it when the holder's row is withdrawn"%string,
               TurnClosed (Some held_answer))
          | inl HeldElsewhere => (refuse LISTENER_HELD_RULE "another box holds this listener"%string, TurnClosed (Some held_answer))
          | inr full =>
              (refuse PUBLISH_LEDGER_FULL_RULE ledger_full_text, TurnClosed None)
          end
      | _, _ => (st, TurnNoted None)
      end
  | _, _, _ => (st, TurnNoted None)
  end.

(** The end of the write of an admitted request, which waits for the switch
    while other tasks run, and what is noted with it. *)
Definition write_turn (st : ControlState) (env : ControlEnv) (verb : ControlVerb) (request : list Z)
    (decision : option ControlDecision) (spoken : list Z) (noted : option Listener) (probe_round : option Z)
    : outcome (ControlState * Exchange) :=
  let st := others st (ce_before_written env) in
  if negb (ce_switch_takes env) then
    let st := match noted with
              | Some listener => set_cs_forwards st (note_retracted (cs_forwards st) listener).1
              | None => st
              end in
    Done (st, ExUnwritten spoken)
  else
    let st := match decision with
              | Some decision =>
                  if bool_decide (cd_applied decision = AppliedInterim) then
                    let st := warn_interim_publish st decision (ce_now env) in
                    set_cs_forwards st (note_vouched (cs_forwards st) (sr_switch_addr (cd_request decision)))
                  else st
              | None => st
              end in
    st ← (match verb, forward_listener verb request with
          | Unexpose, Some listener => retract_and_end st listener
          | _, _ => Done st
          end);
    Done (st, ExRelayed spoken noted probe_round).

(** [relay_control] from the whole request to its write. *)
Definition relay_request (st : ControlState) (env : ControlEnv) (request_head : list Z) (verb : ControlVerb) (request : list Z)
    : outcome (ControlState * Exchange) :=
  match probe_turn st env verb request with
  | (st, ProbeAnswered answer) => Done (st, ExClosed (Some answer))
  | (st, ProbeRound spoken generation) =>
      match ledger_turn st env verb request None with
      | (st, TurnClosed answer) => Done (st, ExClosed answer)
      | (st, TurnNoted noted) => write_turn st env verb request None spoken noted (Some generation)
      end
  | (st, NotAProbe) =>
      decided ← decide_control_request verb request (ce_table env) (ce_runtimes env) (ce_revoking env) (ce_phase env)
                  (cs_forwards st);
      match decided : ControlDecision + RefusedRequest with
      | inr refused => Done (refuse_request st refused (ce_now env), ExClosed None)
      | inl decision =>
          match ledger_turn (others st (ce_before_note env)) env verb request (Some decision) with
          | (st, TurnClosed answer) => Done (st, ExClosed answer)
          | (st, TurnNoted noted) => write_turn st env verb request (Some decision) (request_head ++ request) noted None
          end
      end
  end.

(** [relay_control] up to the write: the body the head counted, under its
    bound, and then the request. *)
Definition relay_control (st : ControlState) (env : ControlEnv) (request_head : list Z) (verb : ControlVerb) (body : nat)
    (guest : Prefixed) : outcome (ControlState * Prefixed * Exchange) :=
  r ← read_control_body guest body;
  match r : Prefixed * BodyRead with
  | (guest, BodyEnded) => Done (st, guest, ExClosed None)
  | (guest, BodyWithheld) =>
      Done (set_cs_limiter st (emit (cs_limiter st) None UNDECLARED_VERB_RULE (ce_now env)).1, guest, ExClosed None)
  | (guest, BodyWhole request) =>
      r ← relay_request st env request_head verb request;
      let '(st, exchange) := r : ControlState * Exchange in
      Done (st, guest, exchange)
  end.

(** The rest of [relay_control]: the legs race, the answer is drained, and
    what it says settles the note and the probe round.  [response_first] is
    whether the switch's side ended before the guest's. *)
Definition relay_answer (st : ControlState) (verb : ControlVerb) (noted : option Listener) (probe_round : option Z)
    (guest : Prefixed) (response_first : bool) (takes : nat) (switch_ : Socket) (now : Z)
    : outcome (ControlState * list Z) :=
  r ← copy_switch_to_guest takes switch_;
  let '(sent, answered) := r : list Z * option Z in
  let st :=
    if response_first then st
    else match control_request_probe guest with
         | SpokePastRequest => set_cs_limiter st (emit (cs_limiter st) None CONTROL_UPGRADE_RULE now).1
         | GuestClosed | GuestSilent => st
         end in
  st ← (match noted, answered with
        | Some listener, Some status => if success_status status then Done st else retract_and_end st listener
        | _, _ => Done st
        end);
  Done (match probe_round, answered with
        | Some generation, Some status =>
            if Bool.eqb (success_status status) (bool_decide (verb = Unexpose))
            then set_cs_forwards st (end_probe (cs_forwards st) generation) else st
        | _, _ => st
        end, sent).

(** [refuse_head]. *)
Definition refuse_head (st : ControlState) (now : Z) : ControlState :=
  set_cs_limiter st (emit (cs_limiter st) None UNDECLARED_VERB_RULE now).1.

(** How a connection goes on after its handshake: refused, upgraded to
    frames with the head forwarded, or a control exchange. *)
Inductive Served : Type :=
| SvRefused
| SvFrames (request_head : list Z) (guest : Prefixed)
| SvControl (verb : ControlVerb) (guest : Prefixed) (exchange : Exchange).

(** [serve_connection]; [dialled] is whether the switch could be reached. *)
Definition serve_connection (st : ControlState) (env : ControlEnv) (dialled : bool) (guest : Socket)
    : outcome (ControlState * Served) :=
  if negb dialled then Done (st, SvRefused)
  else
    r ← read_request_head guest;
    match r : Socket * (list Z * list Z + HeadError) with
    | (_, inr _) => Done (st, SvRefused)
    | (guest, inl (request_head, carry)) =>
        match of_head request_head with
        | inr _ => Done (refuse_head st (ce_now env), SvRefused)
        | inl Frames =>
            if ce_switch_takes env then Done (st, SvFrames request_head (prefixed_new carry guest)) else Done (st, SvRefused)
        | inl (Control verb body) =>
            r ← relay_control st env request_head verb body (prefixed_new carry guest);
            let '(st, guest, exchange) := r : ControlState * Prefixed * Exchange in
            Done (st, SvControl verb guest exchange)
        end
    end.
End relay.
