(* ===== verification/ControlProps.v ===== *)
(** * What the control relay lets reach the switch

    Whatever a guest sends on a control connection, the switch gets nothing,
    or the guest's one request that the rows and the ledger allow, or a
    range probe the gate spelled itself. *)

From stdpp Require Import base list gmap sets sorting strings numbers.
From Stdlib Require Import ZArith Lia Ascii.
From S2P Require Import Prelude Text Bytes Egress Ingress Switch SwitchRequest ReplyFlows DropLimiter DnsPins ReplyTables HostGate PublishLedger GateRelay RowRegistry RuntimePorts ControlHead ControlRequest ControlRelay.
Open Scope Z_scope.

(** ** The rows the decision reads *)

Definition indexes (dictionary : list string) (index : Z) (name : string) : Prop :=
  0 <= index /\ dictionary !! Z.to_nat index = Some name.
(** A row of the decision's table stands for a row of the gate's. *)
Record stands_for (v : Runtimes) (proto : option Z) (dictionary : list string) (r : BoxRecord) (w : SwitchRow) : Prop := {
  sf_addr : sw_switch_addr w = rec_switch_addr r;
  sf_ports : sw_ports w = rec_admitted_ports r ++ runtime_in v r proto;
  sf_published : sw_published w = runtime_in v r proto;
  sf_names : Forall2 (indexes dictionary) (sw_names w) (row_names r);
}.

Lemma indexes_mono d d' i n : d `prefix_of` d' -> indexes d i n -> indexes d' i n.
Proof. intros [k ->] [Hi Hn]. split; [done|]. by apply lookup_app_l_Some. Qed.

Definition seen_ok (seen : gmap string Z) (dictionary : list string) : Prop :=
  forall name index, seen !! name = Some index -> indexes dictionary index name.

Lemma intern_names_spec names : forall seen dictionary indices seen' dictionary',
  intern_names names seen dictionary = Some (indices, seen', dictionary') -> seen_ok seen dictionary ->
  seen_ok seen' dictionary' /\ dictionary `prefix_of` dictionary' /\ Forall2 (indexes dictionary') indices names.
Proof.
  induction names as [|name names IH]; intros seen dictionary indices seen' dictionary' Hi Hs; cbn [intern_names] in Hi.
  - injection Hi as <- <- <-. split; [done|]. split; [done|constructor].
  - destruct (seen !! name) as [index|] eqn:Hn.
    + apply bind_Some in Hi as ([[ks s'] d'] & Hr & [= <- <- <-]).
      destruct (IH _ _ _ _ _ Hr Hs) as (Hs' & Hp & Hf). split; [done|]. split; [done|]. constructor; [|done].
      eapply indexes_mono; [exact Hp|]. by apply Hs.
    + destruct (255 <? _); [done|]. apply bind_Some in Hi as ([[ks s'] d'] & Hr & [= <- <- <-]).
      destruct (IH _ _ _ _ _ Hr) as (Hs' & Hp & Hf).
      { intros name' index' Hl. destruct (decide (name = name')) as [<-|Hne].
        - rewrite lookup_insert_eq in Hl. injection Hl as <-. split; [lia|]. rewrite Nat2Z.id. apply list_lookup_middle. done.
        - rewrite lookup_insert_ne in Hl by done. eapply indexes_mono; [by exists [name]|by apply Hs]. }
      assert (dictionary `prefix_of` d') as Hp'.
      { etransitivity; [|exact Hp]. by exists [name]. }
      split; [done|]. split; [done|]. constructor; [|done]. eapply indexes_mono; [exact Hp|]. split; [lia|].
      rewrite Nat2Z.id. by apply list_lookup_middle.
Qed.

Lemma rows_loop_spec v proto rows : forall seen dictionary switch_rows dictionary',
  rows_loop v rows proto seen dictionary = Some (switch_rows, dictionary') -> seen_ok seen dictionary ->
  dictionary `prefix_of` dictionary' /\ Forall2 (stands_for v proto dictionary') rows switch_rows.
Proof.
  induction rows as [|r rows IH]; intros seen dictionary switch_rows dictionary' Hl Hs; cbn [rows_loop] in Hl.
  - injection Hl as <- <-. split; [done|constructor].
  - apply bind_Some in Hl as ([[names seen'] d1] & Hn & Hl). apply bind_Some in Hl as ([ws d2] & Hr & [= <- <-]).
    destruct (intern_names_spec _ _ _ _ _ _ Hn Hs) as (Hs1 & Hp1 & Hf). destruct (IH _ _ _ _ Hr Hs1) as (Hp2 & Hws).
    split; [by etransitivity|]. constructor; [|done]. split; [done|done|done|]. cbn.
    eapply list.Forall2_impl; [exact Hf|]. intros i n. by apply indexes_mono.
Qed.

Lemma switch_rows_spec v rows proto switch_rows dictionary :
  switch_rows_of v rows proto [] = Some (switch_rows, dictionary) ->
  Forall2 (stands_for v proto dictionary) rows switch_rows.
Proof. intros (_ & Hf)%rows_loop_spec; [done|]. intros name index. by rewrite lookup_empty. Qed.

(** The row that decides at an address stands for a row of the table there. *)
Lemma row_at_stands v proto dictionary rows switch_rows first last addr w :
  Forall2 (stands_for v proto dictionary) rows switch_rows ->
  row_at {| st_rows := switch_rows; st_first_ptask := first; st_last_ptask := last |} addr = Some w ->
  exists r, r ∈ rows /\ rec_switch_addr r = addr /\ stands_for v proto dictionary r w.
Proof.
  intros Hf (Hin & Hb)%List.find_some. apply bool_decide_eq_true in Hb. apply list_elem_of_In in Hin. cbn [st_rows] in Hin.
  apply list_elem_of_lookup in Hin as [i Hi]. destruct (Forall2_lookup_r _ _ _ _ _ Hf Hi) as (r & Hr & Hs).
  exists r. split; [by eapply list_elem_of_lookup_2|]. split; [|done]. by rewrite <- (sf_addr _ _ _ _ _ Hs).
Qed.
Lemma row_at_none v proto dictionary rows switch_rows first last addr :
  Forall2 (stands_for v proto dictionary) rows switch_rows ->
  row_at {| st_rows := switch_rows; st_first_ptask := first; st_last_ptask := last |} addr = None ->
  forall r, r ∈ rows -> rec_switch_addr r <> addr.
Proof.
  intros Hf Hn r Hr Ha. apply list_elem_of_lookup in Hr as [i Hi]. destruct (Forall2_lookup_l _ _ _ _ _ Hf Hi) as (w & Hw & Hs).
  pose proof (List.find_none _ _ Hn w) as Hx. cbn in Hx. rewrite (sf_addr _ _ _ _ _ Hs), Ha, bool_decide_true in Hx by done.
  discriminate Hx. apply list_elem_of_In. by eapply list_elem_of_lookup_2.
Qed.

(** ** What a request is allowed for *)

(** A row of the table at the address that satisfies [P], or the announced
    interim inside the lease run where no row is. *)
Definition row_or_interim (table : BoxTable) (phase : EgressDefaultPhase) (by_ : Applied) (addr : ip4) (P : BoxRecord -> Prop) : Prop :=
  (by_ = AppliedRow /\ exists r, r ∈ table_rows table /\ rec_switch_addr r = addr /\ P r) \/
  (by_ = AppliedInterim /\ phase = Announced /\ (forall r, r ∈ table_rows table -> rec_switch_addr r <> addr) /\
   ip4_u32 (ptask_run table).1 <= ip4_u32 addr <= ip4_u32 (ptask_run table).2).

Lemma row_or_interim_impl table phase by_ addr (P Q : BoxRecord -> Prop) :
  (forall r, P r -> Q r) -> row_or_interim table phase by_ addr P -> row_or_interim table phase by_ addr Q.
Proof. intros HPQ [(Hb & r & Hr & Ha & HP)|Hi]; [left; eauto 10|by right]. Qed.

Lemma applied_allows v proto dictionary table switch_rows verb addr records request phase by_ :
  Forall2 (stands_for v proto dictionary) (table_rows table) switch_rows ->
  switch_request_of verb addr records = Some request ->
  applied request {| st_rows := switch_rows; st_first_ptask := (ptask_run table).1; st_last_ptask := (ptask_run table).2 |} phase
    = inl by_ ->
  sr_switch_addr request = addr /\
  row_or_interim table phase by_ addr
    (fun r => exists w, stands_for v proto dictionary r w /\ Forall (row_admits verb w) records).
Proof.
  intros Hf (Hverb & Haddr & Hrec)%request_of_records Happ. split; [done|].
  rewrite applied_arms, Hverb, Haddr, Hrec in Happ. destruct (row_at _ addr) as [w|] eqn:Hrow.
  - destruct (List.find _ _) eqn:Hfind; [done|]. injection Happ as <-. apply refused_none in Hfind.
    destruct (row_at_stands _ _ _ _ _ _ _ _ _ Hf Hrow) as (r & Hin & Ha & Hs). left. eauto 10.
  - destruct (bool_decide (phase = Announced) && in_plan _ addr) eqn:Hi; [|done]. injection Happ as <-.
    apply interim_b in Hi as [Hp Hplan]. right. pose proof (row_at_none _ _ _ _ _ _ _ _ Hf Hrow). done.
Qed.

Section control.
Context `{JsonBodies}.

(** A record's name is one the row holds, or extends one by a dot. *)
Definition name_held (r : BoxRecord) (name : string) : Prop :=
  exists held, held ∈ row_names r /\ (name = held \/ dot_extends name held = true).

Lemma name_position_spec p d n : name_position p d = Some n -> exists held, d !! n = Some held /\ p held = true.
Proof.
  revert n. induction d as [|x d IH]; intros n; cbn [name_position]; [done|]. destruct (p x) eqn:Hp.
  - intros [= <-]. by exists x.
  - intros (m & Hm & ->)%fmap_Some. destruct (IH m Hm) as (held & Hd & Hh). by exists held.
Qed.

Lemma name_index_spec name d i d' : name_index name d = (i, d') -> d `prefix_of` d' /\ (i <= length d)%nat /\
  exists held, d' !! i = Some held /\ (name = held \/ dot_extends name held = true).
Proof.
  unfold name_index. destruct (name_position (fun held => bool_decide (held = name)) d) as [n|] eqn:Hexact.
  - intros [= <- <-]. destruct (name_position_spec _ _ _ Hexact) as (held & Hd & Hh). apply bool_decide_eq_true in Hh.
    split; [done|]. split; [apply lookup_lt_Some in Hd; lia|]. exists held. split; [done|]. by left.
  - destruct (name_position (dot_extends name) d) as [n|] eqn:Hext; intros [= <- <-].
    + destruct (name_position_spec _ _ _ Hext) as (held & Hd & Hh). split; [done|].
      split; [apply lookup_lt_Some in Hd; lia|]. exists held. split; [done|]. by right.
    + split; [by exists [name]|]. split; [lia|]. exists name. split; [by apply list_lookup_middle|by left].
Qed.

(** The loop of a zone-add: it always ends without a panic, its records are
    all at one address, and each index is of a name its record extends. *)
Lemma dns_records_spec parsed : forall addr dictionary,
  (exists refused, dns_records parsed addr dictionary = Done (inr refused)) \/
  (exists records addr' dictionary', dns_records parsed addr dictionary = Done (inl (records, addr', dictionary')) /\
     dictionary `prefix_of` dictionary' /\
     (forall a, addr = Some a -> addr' = Some a) /\
     Forall (fun b => exists a, parse_ipv4 (dr_ip b) = Some a /\ addr' = Some a) parsed /\
     Forall2 (fun b record => exists i held, record = RcName i /\ indexes dictionary' i held /\
                (dr_name b = held \/ dot_extends (dr_name b) held = true)) parsed records).
Proof.
  induction parsed as [|b parsed IH]; intros addr dictionary; cbn [dns_records].
  - right. exists [], addr, dictionary. split; [done|]. split; [done|]. split; [done|]. split; constructor.
  - destruct (parse_ipv4 (dr_ip b)) as [a|] eqn:Hip; [|left; by eexists].
    destruct (match addr with Some seen => negb (bool_decide (seen = a)) | None => false end) eqn:Hseen; [left; by eexists|].
    destruct (MAX_REQUEST_NAME_INDEX <=? length dictionary)%nat eqn:Hmax; [left; by eexists|].
    apply Nat.leb_gt in Hmax. destruct (name_index (dr_name b) dictionary) as [i d1] eqn:Hni.
    destruct (name_index_spec _ _ _ _ Hni) as (Hp1 & Hi & held & Hd & Hh).
    destruct (255 <? i)%nat eqn:H255; [apply Nat.ltb_lt in H255; unfold MAX_REQUEST_NAME_INDEX in Hmax; lia|].
    destruct (IH (Some a) d1) as [[refused ->]|(records & addr' & d2 & -> & Hp2 & Ha & Hips & Hf)]; [left; by eexists|].
    right. exists (RcName (Z.of_nat i) :: records), addr', d2. split; [done|]. split; [by etransitivity|].
    rewrite (Ha a eq_refl) in *. split.
    { intros a' ->. apply negb_false_iff, bool_decide_eq_true in Hseen. by subst. }
    split; [constructor; [by exists a|done]|]. constructor; [|done]. exists (Z.of_nat i), held. split; [done|]. split; [|done].
    eapply indexes_mono; [exact Hp2|]. split; [lia|]. by rewrite Nat2Z.id.
Qed.

Lemma client_protocol p : is_client_protocol p = true -> exists n, protocol_number p = Some n.
Proof.
  unfold is_client_protocol, protocol_number. intros Hp%bool_decide_eq_true. set_unfold.
  destruct Hp as [->|[->|[]]]; [by exists IPPROTO_TCP|by exists IPPROTO_UDP].
Qed.

(** What an admitted request of each verb says, and why it is admitted. *)
Definition allowed (verb : ControlVerb) (body : list Z) (table : BoxTable) (v : Runtimes) (phase : EgressDefaultPhase)
    (f : PublishedForwards) (by_ : Applied) (addr : ip4) : Prop :=
  match verb with
  | Expose =>
      exists parsed l inside proto, read_expose body = Some parsed /\ loopback_listener (eb_local parsed) = Some l /\
        host_port (eb_remote parsed) = Some (addr, inside) /\ protocol_number (eb_protocol parsed) = Some proto /\
        row_or_interim table phase by_ addr
          (fun r => l.2 ∈ rec_admitted_ports r \/ l.2 ∈ runtime_in v r (Some proto))
  | Unexpose =>
      exists parsed l, read_unexpose body = Some parsed /\ loopback_listener (ub_local parsed) = Some l /\
        addr = default (Ip4 0 0 0 0) (address_of f l) /\
        row_or_interim table phase by_ addr (fun r => l.2 ∈ runtime_in v r (protocol_of f l))
  | DnsAdd =>
      exists parsed, read_dns_add body = Some parsed /\ parsed <> [] /\
        Forall (fun b => parse_ipv4 (dr_ip b) = Some addr) parsed /\
        row_or_interim table phase by_ addr (fun r => Forall (fun b => name_held r (dr_name b)) parsed)
  end.

Lemma summarize_expose_spec body request : summarize_expose body = inl request ->
  exists parsed l addr inside proto, read_expose body = Some parsed /\ loopback_listener (eb_local parsed) = Some l /\
    host_port (eb_remote parsed) = Some (addr, inside) /\ protocol_number (eb_protocol parsed) = Some proto /\
    switch_request_of Publish addr [RcPort l.2] = Some request.
Proof.
  unfold summarize_expose, loopback_port. destruct (read_expose body) as [parsed|]; [|done].
  destruct (loopback_listener (eb_local parsed)) as [l|] eqn:Hl; [|done]. cbn [option_map].
  destruct (host_port (eb_remote parsed)) as [[addr inside]|] eqn:Hh; [|done].
  destruct (is_client_protocol (eb_protocol parsed)) eqn:Hp; [|done]. cbn [negb].
  destruct (client_protocol _ Hp) as [proto Hproto]. unfold or_malformed.
  destruct (switch_request_of _ _ _) eqn:Hr; [|done]. intros [= ->]. by exists parsed, l, addr, inside, proto.
Qed.

Lemma summarize_unexpose_spec body f request : summarize_unexpose body f = inl request ->
  exists parsed l, read_unexpose body = Some parsed /\ loopback_listener (ub_local parsed) = Some l /\
    switch_request_of Retract (default (Ip4 0 0 0 0) (address_of f l)) [RcPort l.2] = Some request.
Proof.
  unfold summarize_unexpose. destruct (read_unexpose body) as [parsed|]; [|done].
  destruct (loopback_listener (ub_local parsed)) as [l|] eqn:Hl; [|done].
  destruct (is_client_protocol (ub_protocol parsed)) eqn:Hp; [|done]. cbn [negb]. unfold or_malformed.
  destruct (switch_request_of _ _ _) eqn:Hr; [|done]. intros [= ->]. by exists parsed, l.
Qed.

Lemma summarize_dns_add_spec body dictionary :
  (exists refused, summarize_dns_add body dictionary = Done (inr refused)) \/
  (exists parsed records addr request dictionary', summarize_dns_add body dictionary = Done (inl (request, dictionary')) /\
     read_dns_add body = Some parsed /\ parsed <> [] /\ dictionary `prefix_of` dictionary' /\
     Forall (fun b => parse_ipv4 (dr_ip b) = Some addr) parsed /\
     Forall2 (fun b record => exists i held, record = RcName i /\ indexes dictionary' i held /\
                (dr_name b = held \/ dot_extends (dr_name b) held = true)) parsed records /\
     switch_request_of PublishName addr records = Some request).
Proof.
  unfold summarize_dns_add. destruct (read_dns_add body) as [parsed|]; [|left; by eexists].
  destruct (bool_decide (parsed = []) || _) eqn:Hp; [left; by eexists|]. apply orb_false_iff in Hp as [Hne%bool_decide_eq_false _].
  destruct (dns_records_spec parsed None dictionary) as [[refused ->]|(records & addr' & d & -> & Hpre & _ & Hips & Hf)]; [left; by eexists|].
  destruct parsed as [|b parsed]; [done|]. pose proof Hips as [(addr & _ & ->) _]%list.Forall_cons.
  cbn [mbind outcome_bind default id]. unfold id. destruct (switch_request_of PublishName addr records) as [request|] eqn:Hr; [|left; by eexists].
  right. exists (b :: parsed), records, addr, request, d. repeat (split; [done|]). split; [|done].
  eapply list.Forall_impl; [exact Hips|]. cbn. by intros b' (a & Ha & [= ->]).
Qed.

(** A row that stands for a decision's row holds the names it indexes. *)
Lemma stands_names v proto dictionary dictionary' r w parsed records :
  stands_for v proto dictionary r w -> dictionary `prefix_of` dictionary' ->
  Forall2 (fun b record => exists i held, record = RcName i /\ indexes dictionary' i held /\
             (dr_name b = held \/ dot_extends (dr_name b) held = true)) parsed records ->
  Forall (row_admits PublishName w) records -> Forall (fun b => name_held r (dr_name b)) parsed.
Proof.
  intros Hs Hpre Hf Hadm. induction Hf as [|b record parsed records (i & held & -> & [Hi Hd] & Hh) _ IH]; [constructor|].
  apply list.Forall_cons in Hadm as [Hin Hadm]. constructor; [|by apply IH]. cbn [row_admits] in Hin.
  apply list_elem_of_lookup in Hin as [k Hk]. destruct (Forall2_lookup_l _ _ _ _ _ (sf_names _ _ _ _ _ Hs) Hk) as (n & Hn & Hx).
  destruct (indexes_mono _ _ _ _ Hpre Hx) as [_ Hd']. rewrite Hd in Hd'. injection Hd' as <-. exists held.
  split; [by eapply list_elem_of_lookup_2|done].
Qed.

(** A summary is admitted for what its verb and records are allowed. *)
Lemma decide_summary_spec verb held table switch_rows dictionary dictionary' v proto phase sverb addr records request d :
  Forall2 (stands_for v proto dictionary) (table_rows table) switch_rows ->
  switch_request_of sverb addr records = Some request ->
  decide_summary verb held {| st_rows := switch_rows; st_first_ptask := (ptask_run table).1;
                              st_last_ptask := (ptask_run table).2 |} phase request dictionary' = inl d ->
  sr_switch_addr (cd_request d) = addr /\
  row_or_interim table phase (cd_applied d) addr
    (fun r => exists w, stands_for v proto dictionary r w /\ Forall (row_admits sverb w) records) /\
  (verb <> Unexpose -> revocation_pending held addr = false).
Proof.
  intros Hf Hreq. unfold decide_summary.
  destruct (negb (bool_decide (verb = Unexpose)) && _) eqn:Hrev; [done|].
  destruct (applied request _ phase) as [by_|refusal] eqn:Happ; [|by destruct refusal].
  intros [= <-]. cbn [cd_applied cd_request]. destruct (applied_allows _ _ _ _ _ _ _ _ _ _ _ Hf Hreq Happ) as [Ha Hri].
  rewrite Ha in *. split; [done|]. split; [done|]. intros Hne. apply andb_false_iff in Hrev as [Hv|Hv]; [|done].
  apply negb_false_iff, bool_decide_eq_true in Hv. done.
Qed.

(** The decision always answers, and admits only what is allowed. *)
Lemma decide_spec verb body table v held phase f :
  exists r, decide_control_request verb body table v held phase f = Done r /\
    match r with
    | inl d => allowed verb body table v phase f (cd_applied d) (sr_switch_addr (cd_request d)) /\
               (verb <> Unexpose -> revocation_pending held (sr_switch_addr (cd_request d)) = false)
    | inr _ => True
    end.
Proof.
  unfold decide_control_request.
  destruct (switch_rows_of v (table_rows table) _ []) as [[switch_rows dictionary]|] eqn:Hrows; [|by eexists].
  apply switch_rows_spec in Hrows. destruct verb; cbn [request_proto] in Hrows.
  - destruct (summarize_expose body) as [request|refused] eqn:Hsum; [|by eexists]. cbn [mbind outcome_bind].
    eexists. split; [done|]. destruct (decide_summary _ _ _ _ _ _) as [d|] eqn:Hd; [|done].
    apply summarize_expose_spec in Hsum as (parsed & l & addr & inside & proto & Hread & Hl & Hh & Hp & Hreq).
    destruct (decide_summary_spec _ _ _ _ _ _ _ _ _ _ _ _ _ _ Hrows Hreq Hd) as (-> & Hri & Hrev). split; [|done].
    exists parsed, l, inside, proto. repeat (split; [done|]). eapply row_or_interim_impl; [|exact Hri].
    intros r (w & Hs & Hw). apply list.Forall_cons in Hw as [Hw _]. cbn [row_admits] in Hw. rewrite (sf_ports _ _ _ _ _ Hs) in Hw.
    unfold published_protocol in Hw. rewrite Hread in Hw. cbn [mbind option_bind] in Hw. rewrite Hp in Hw.
    apply elem_of_app in Hw. exact Hw.
  - destruct (summarize_unexpose body f) as [request|refused] eqn:Hsum; [|by eexists]. cbn [mbind outcome_bind].
    eexists. split; [done|]. destruct (decide_summary _ _ _ _ _ _) as [d|] eqn:Hd; [|done].
    apply summarize_unexpose_spec in Hsum as (parsed & l & Hread & Hl & Hreq).
    destruct (decide_summary_spec _ _ _ _ _ _ _ _ _ _ _ _ _ _ Hrows Hreq Hd) as (-> & Hri & Hrev). split; [|done].
    exists parsed, l. repeat (split; [done|]). eapply row_or_interim_impl; [|exact Hri].
    intros r (w & Hs & Hw). apply list.Forall_cons in Hw as [Hw _]. cbn [row_admits] in Hw. rewrite (sf_published _ _ _ _ _ Hs) in Hw.
    unfold retracted_protocol in Hw. rewrite Hread in Hw. cbn [mbind option_bind] in Hw. rewrite Hl in Hw. exact Hw.
  - destruct (summarize_dns_add_spec body dictionary)
      as [[refused ->]|(parsed & records & addr & request & d' & -> & Hread & Hne & Hpre & Hips & Hf & Hreq)]; [by eexists|].
    cbn [mbind outcome_bind]. eexists. split; [done|]. destruct (decide_summary _ _ _ _ _ _) as [d|] eqn:Hd; [|done].
    destruct (decide_summary_spec _ _ _ _ _ _ _ _ _ _ _ _ _ _ Hrows Hreq Hd) as (-> & Hri & Hrev). split; [|done].
    exists parsed. repeat (split; [done|]). eapply row_or_interim_impl; [|exact Hri].
    intros r (w & Hs & Hw). eapply stands_names; eauto.
Qed.

(** ** The ledger's part *)

Lemma loopback_listener_spec local l : loopback_listener local = Some l ->
  local = listener_local l.1 l.2 /\ (l.1 = LOCALHOST \/ in_reserved_local_range l.1 = true).
Proof.
  unfold loopback_listener. intros ([host port] & Hs & Hl)%bind_Some. apply bind_Some in Hl as (addr & Ha & Hl).
  destruct (negb (bool_decide (addr = LOCALHOST)) && negb (in_reserved_local_range addr)) eqn:Hr; [done|].
  apply bind_Some in Hl as (p & Hp & Hl). case_bool_decide as Hlocal; [|done]. injection Hl as <-. split; [done|].
  apply andb_false_iff in Hr as [Hr%negb_false_iff|Hr%negb_false_iff]; [left; by apply bool_decide_eq_true in Hr|by right].
Qed.

Lemma push_applied_shape applied e applied' :
  push_applied applied e = inl applied' -> exists rest, applied' = rest ++ [e] /\ rest `sublist_of` applied.
Proof.
  unfold push_applied. destruct (ap_by e).
  - destruct (PUBLISHED_FORWARDS_TRACKED <=? _)%nat; [done|]. intros [= <-]. by exists applied.
  - destruct (INTERIM_PUBLISHES_TRACKED <=? held_by AppliedInterim applied)%nat; [|intros [= <-]; by exists applied].
    destruct (remove_first _ applied) as [[x rest]|] eqn:Hr; intros [= <-]; [|by exists applied].
    exists rest. split; [done|]. by eapply remove_first_sublist.
Qed.

Lemma holder_of_push rest e : ap_listener e ∉ map ap_listener rest -> holder_of (rest ++ [e]) (ap_listener e) = Some e.
Proof.
  induction rest as [|x rest IH]; cbn; [by rewrite bool_decide_true|]. rewrite not_elem_of_cons. intros [Hx Hr].
  rewrite bool_decide_false by done. by apply IH.
Qed.

(** A publish that goes on is attributed to its own address. *)
Lemma admit_publish_attributes f l addr inside proto by_ d f' out :
  admit_publish f l addr inside proto by_ d = (f', inl out) -> out = Noted \/ out = Held ->
  exists e, holder_of (pf_applied f') l = Some e /\ ap_addr e = addr /\
    (out = Noted -> e = {| ap_listener := l; ap_addr := addr; ap_inside := inside; ap_proto := proto; ap_by := by_ |}) /\
    (out = Held -> f' = f).
Proof.
  unfold admit_publish. destruct (holder_of (pf_applied f) l) as [h|] eqn:Hh.
  - case_bool_decide as Ha.
    + destruct (_ && _); intros [= <- <-] [|]; try done. exists h. by repeat split.
    + destruct d as [b|]; [|by intros [= <- <-] [|]].
      destruct (PUBLISHED_FORWARDS_TRACKED <=? _)%nat; by intros [= <- <-] [|].
  - destruct (push_applied _ _) as [applied'|full] eqn:Hp; [|done]. intros [= <- <-] _. cbn [pf_applied set_waiting set_applied].
    destruct (push_applied_shape _ _ _ Hp) as (rest & -> & Hsub). eexists. split; [|by repeat split].
    apply (holder_of_push rest {| ap_listener := l; ap_addr := addr; ap_inside := inside; ap_proto := proto; ap_by := by_ |}).
    cbn [ap_listener]. apply holder_of_None in Hh. intros Hin. apply Hh.
    eapply elem_of_submseteq; [exact Hin|]. by apply sublist_submseteq, map_sublist.
Qed.

(** [note_retracted] leaves the listener to nobody. *)
Lemma note_retracted_frees f l : ledger_ok f -> holder_of (pf_applied (note_retracted f l).1) l = None.
Proof.
  intros Hok. unfold note_retracted. destruct (remove_first _ _) as [[e rest]|] eqn:Hr.
  - apply remove_first_Some in Hr as (He & l1 & l2 & Hl & ->). apply bool_decide_eq_true in He. cbn.
    pose proof (lo_listeners f Hok) as Hnd. rewrite Hl, map_app in Hnd. cbn in Hnd.
    destruct (holder_of (l1 ++ l2) l) as [h|] eqn:Hh; [|done]. apply holder_of_Some in Hh as [Hin Heq].
    apply list.NoDup_app in Hnd as (_ & Hd & Hnd). apply list.NoDup_cons in Hnd as [Hn _].
    apply elem_of_app in Hin as [Hin|Hin].
    + exfalso. apply (Hd (ap_listener h)); [by apply list_elem_of_fmap_2|]. rewrite He, Heq. left.
    + exfalso. apply Hn. rewrite He, <- Heq. by apply list_elem_of_fmap_2.
  - cbn. destruct (holder_of (pf_applied f) l) as [h|] eqn:Hh; [|done]. exfalso.
    apply holder_of_Some in Hh as [Hin Heq]. revert Hr Hin. generalize (pf_applied f) as applied.
    induction applied as [|x applied IH]; [set_solver|]. cbn. case_bool_decide; [done|].
    destruct (remove_first _ applied) as [[y r]|]; [done|]. intros _ [->|Hin]%elem_of_cons; [done|by apply IH].
Qed.

Lemma ledger_op_ok f f' op : ledger_ok f -> f' = ledger_step f op -> ledger_ok f'.
Proof. intros Hok ->. by apply ledger_step_ok. Qed.

Lemma retract_and_end_spec st l : exists st', retract_and_end st l = Done st' /\
  cs_forwards st' = (note_retracted (cs_forwards st) l).1 /\ cs_limiter st' = cs_limiter st.
Proof.
  unfold retract_and_end. destruct (note_retracted (cs_forwards st) l) as [f [[[addr inside] proto]|]]; [|by eexists].
  destruct (still_published f addr inside proto); [by eexists|]. unfold end_port_at.
  destruct (cs_replies _ !! addr) as [entry|]; [|by eexists].
  assert (size (rf_flows (end_port (br_flows entry) proto inside)) <= size (rf_flows (br_flows entry)))%nat as Hle.
  { apply map_subseteq_size, map_filter_subseteq. }
  rewrite usize_sub_le by done. by eexists.
Qed.

Lemma refuse_keeps st refused now :
  cs_forwards (refuse_request st refused now) = cs_forwards st /\ cs_replies (refuse_request st refused now) = cs_replies st.
Proof. done. Qed.

(** A round the gate relays: the listener it checked, held by no box, and
    the one round outstanding. *)
Definition probes (table : BoxTable) (f f' : PublishedForwards) (verb : ControlVerb) (l : Listener) (generation : Z) : Prop :=
  verb <> DnsAdd /\ l.2 = RANGE_PROBE_PORT /\ in_reserved_local_range l.1 = true /\ range_address_held table f l.1 = false /\
  ps_outstanding (pf_probe f') = Some (l, generation).

Lemma range_probe_spec verb request l : range_probe_listener verb request = Some l ->
  verb <> DnsAdd /\ l.2 = RANGE_PROBE_PORT /\ in_reserved_local_range l.1 = true.
Proof.
  unfold range_probe_listener. intros (field & _ & Hp)%bind_Some. apply bind_Some in Hp as (u & Hv & Hp).
  apply bind_Some in Hp as (local & _ & Hp). apply bind_Some in Hp as (l' & _ & Hp). apply bind_Some in Hp as (protocol & _ & Hp).
  destruct (bool_decide _ && _ && _) eqn:Hb; [|done]. injection Hp as ->.
  apply andb_true_iff in Hb as [Hb Hr]. apply andb_true_iff in Hb as [_ Hport]. apply Z.eqb_eq in Hport. by destruct verb.
Qed.

Lemma probe_turn_spec st env verb request st' turn :
  probe_turn st env verb request = (st', turn) -> ledger_ok (cs_forwards st) ->
  cs_replies st' = cs_replies st /\ ledger_ok (cs_forwards st') /\
  match turn with
  | NotAProbe => st' = st
  | ProbeAnswered _ => cs_forwards st' = cs_forwards st
  | ProbeRound spoken generation =>
      exists l, spoken = canonical_probe_request verb l /\
        probes (ce_table env) (cs_forwards st) (cs_forwards st') verb l generation
  end.
Proof.
  intros Ht Hok. unfold probe_turn in Ht. destruct (range_probe_listener verb request) as [l|] eqn:Hl; [|by injection Ht as <- <-].
  pose proof (range_probe_spec _ _ _ Hl) as (Hverb & Hport & Hrange).
  destruct (probe_body_is_strict verb request); [|by injection Ht as <- <-]. cbn [negb] in Ht.
  destruct (range_address_held (ce_table env) (cs_forwards st) l.1) eqn:Hheld; cbn [negb] in Ht.
  { destruct (bool_decide (verb = Expose)); by injection Ht as <- <-. }
  destruct (bool_decide (verb = Expose)).
  - destruct (begin_probe (cs_forwards st) l) as [f [generation|held]] eqn:Hb; [|by injection Ht as <- <-].
    injection Ht as <- <-. cbn [cs_replies cs_forwards set_cs_forwards]. split; [done|]. split.
    + apply (ledger_op_ok (cs_forwards st) f (LBeginProbe l) Hok). cbn. by rewrite Hb.
    + exists l. split; [done|]. unfold probes. cbn [cs_forwards set_cs_forwards]. repeat (split; [done|]).
      revert Hb. unfold begin_probe. destruct (ps_outstanding (pf_probe (cs_forwards st))) as [[h g]|]; [done|].
      by intros [= <- <-].
  - destruct (ps_outstanding (pf_probe (cs_forwards st))) as [[held generation]|] eqn:Ho; [|by injection Ht as <- <-].
    case_bool_decide as He; [|by injection Ht as <- <-]. injection Ht as <- <-. split; [done|]. split; [done|].
    exists l. split; [done|]. subst. by repeat split.
Qed.

(** What the ledger holds when an admitted request goes on. *)
Definition noted_for (verb : ControlVerb) (request : list Z) (addr : ip4) (f : PublishedForwards) (noted : option Listener) : Prop :=
  match verb with
  | Expose => forall l, forward_listener Expose request = Some l ->
      exists e, holder_of (pf_applied f) l = Some e /\ ap_addr e = addr /\ (noted = Some l \/ noted = None)
  | _ => noted = None
  end.

Lemma ledger_turn_spec st env verb request d st' turn :
  ledger_turn st env verb request (Some d) = (st', turn) -> ledger_ok (cs_forwards st) ->
  (exists f, allowed verb request (ce_table env) (ce_runtimes env) (ce_phase env) f (cd_applied d) (sr_switch_addr (cd_request d))) ->
  cs_replies st' = cs_replies st /\ ledger_ok (cs_forwards st') /\
  match turn with
  | TurnClosed _ => True
  | TurnNoted noted => noted_for verb request (sr_switch_addr (cd_request d)) (cs_forwards st') noted /\
                       (verb <> Expose -> cs_forwards st' = cs_forwards st)
  end.
Proof.
  intros Ht Hok [f0 Hall]. destruct verb; [|by injection Ht as <- <-|by injection Ht as <- <-].
  destruct Hall as (parsed & l & inside & proto & Hread & Hl & Hh & Hp & _). unfold ledger_turn, published_inside, published_protocol in Ht.
  cbn [forward_listener] in Ht. rewrite Hread in Ht. cbn [mbind option_bind] in Ht. rewrite Hl, Hh, Hp in Ht. cbn [option_map snd] in Ht.
  destruct (admit_publish _ _ _ _ _ _ _) as [f admitted] eqn:Ha.
  assert (ledger_ok f) as Hf.
  { pose proof (admit_publish_ok (cs_forwards st) l (sr_switch_addr (cd_request d)) inside proto (cd_applied d)
      (declaring_box (ce_table_noted env) (cd_applied d) (sr_switch_addr (cd_request d)) l.2) Hok) as Hx. by rewrite Ha in Hx. }
  assert (forall out noted, admitted = inl out -> out = Noted \/ out = Held -> noted = Some l \/ noted = None ->
    noted_for Expose request (sr_switch_addr (cd_request d)) f noted) as Hn.
  { intros out noted -> Hout Hnoted l' Hl'. cbn [forward_listener] in Hl'. rewrite Hread in Hl'. cbn [mbind option_bind] in Hl'.
    rewrite Hl in Hl'. injection Hl' as <-. destruct (admit_publish_attributes _ _ _ _ _ _ _ _ _ Ha Hout) as (e & He & Hea & _).
    exists e. done. }
  destruct admitted as [[]|full]; injection Ht as <- <-; cbn [cs_replies cs_forwards set_cs_forwards]; (split; [done|]); (split; [done|]); try done.
  - split; [|done]. eapply Hn; [done|by left|by left].
  - split; [|done]. eapply Hn; [done|by right|by right].
Qed.

(** ** The write *)

Lemma note_retracted_probe f l : pf_probe (note_retracted f l).1 = pf_probe f.
Proof. unfold note_retracted. by destruct (remove_first _ _) as [[e rest]|]. Qed.

Lemma ledger_steps_ok f ops : ledger_ok f -> ledger_ok (ledger_steps f ops).
Proof. revert f. induction ops as [|op ops IH]; intros f Hok; [done|]. apply IH. by apply ledger_step_ok. Qed.

(** The attributions once a write has ended: those of the ledger the write
    began with, as other tasks changed it meanwhile, less a retracted one. *)
Definition written_from (env : ControlEnv) (verb : ControlVerb) (request : list Z) (f f' : PublishedForwards) : Prop :=
  let now := ledger_steps f (mw_ops (ce_before_written env)) in
  pf_applied f' = match verb, forward_listener verb request with
                  | Unexpose, Some l => pf_applied (note_retracted now l).1
                  | _, _ => pf_applied now
                  end.

Lemma write_turn_spec st env verb request decision spoken noted round : ledger_ok (cs_forwards st) ->
  exists st', write_turn st env verb request decision spoken noted round
      = Done (st', if ce_switch_takes env then ExRelayed spoken noted round else ExUnwritten spoken) /\
    ledger_ok (cs_forwards st') /\
    (ce_switch_takes env = true -> written_from env verb request (cs_forwards st) (cs_forwards st')).
Proof.
  intros Hok0. unfold write_turn, written_from. set (st0 := others st (ce_before_written env)).
  assert (ledger_ok (cs_forwards st0)) as Hok by (by apply ledger_steps_ok).
  change (ledger_steps (cs_forwards st) (mw_ops (ce_before_written env))) with (cs_forwards st0). clearbody st0. clear Hok0.
  destruct (ce_switch_takes env); cbn [negb].
  - set (st1 := match decision with Some d => _ | None => st0 end).
    assert (ledger_ok (cs_forwards st1) /\ pf_applied (cs_forwards st1) = pf_applied (cs_forwards st0)) as (Hok1 & Ha1).
    { unfold st1. destruct decision as [d|]; [|done]. case_bool_decide; [|done]. cbn [cs_forwards set_cs_forwards warn_interim_publish set_cs_limiter].
      split; [by apply (ledger_op_ok (cs_forwards st0) _ (LVouch (sr_switch_addr (cd_request d))) Hok)|].
      unfold note_vouched. by destruct (bool_decide _). }
    clearbody st1. destruct (decide (verb = Unexpose)) as [->|Hv].
    + destruct (forward_listener Unexpose request) as [l|] eqn:Hl; [|by exists st1].
      destruct (retract_and_end_spec st1 l) as (st' & -> & Hf & _). exists st'. split; [done|]. rewrite Hf.
      split; [by apply (ledger_op_ok (cs_forwards st1) _ (LRetract l) Hok1)|]. intros _. unfold note_retracted. rewrite Ha1.
      by destruct (remove_first _ _) as [[e rest]|].
    + exists st1. destruct verb; [|done|]; done.
  - destruct noted as [l|]; [|by exists st0].
    exists (set_cs_forwards st0 (note_retracted (cs_forwards st0) l).1). split; [done|].
    split; [by apply (ledger_op_ok (cs_forwards st0) _ (LRetract l) Hok)|done].
Qed.

(** ** A connection *)

(** What may be written on for a request: the guest's own bytes, when they
    are allowed, or the gate's own spelling of a probe it checked. *)
Definition may_speak (st : ControlState) (env : ControlEnv) (h : list Z) (verb : ControlVerb) (request spoken : list Z)
    (probe : option Listener) (addr : ip4) : Prop :=
  match probe with
  | None => spoken = h ++ request /\
      (exists by_, allowed verb request (ce_table env) (ce_runtimes env) (ce_phase env) (cs_forwards st) by_ addr) /\
      (verb <> Unexpose -> revocation_pending (ce_revoking env) addr = false)
  | Some l => spoken = canonical_probe_request verb l /\ verb <> DnsAdd /\ l.2 = RANGE_PROBE_PORT /\
      in_reserved_local_range l.1 = true /\ range_address_held (ce_table env) (cs_forwards st) l.1 = false
  end.
(** What the ledger says of a request on its way: when the write begins, in
    [f], a publish is its address's and a probe is the round outstanding; when
    it has ended, in [f'], a retraction has left its listener free. *)
Definition ledger_says (verb : ControlVerb) (request : list Z) (probe : option Listener) (round : option Z) (addr : ip4)
    (f f' : PublishedForwards) : Prop :=
  match probe with
  | Some l => exists generation, round = Some generation /\ ps_outstanding (pf_probe f) = Some (l, generation)
  | None => round = None /\
      forall l, forward_listener verb request = Some l ->
        match verb with
        | Expose => exists e, holder_of (pf_applied f) l = Some e /\ ap_addr e = addr
        | Unexpose => holder_of (pf_applied f') l = None
        | DnsAdd => True
        end
  end.
Definition exchange_ok (st : ControlState) (env : ControlEnv) (h : list Z) (verb : ControlVerb) (request : list Z)
    (st' : ControlState) (ex : Exchange) : Prop :=
  match ex with
  | ExClosed _ => True
  | ExUnwritten spoken => exists probe addr, may_speak st env h verb request spoken probe addr
  | ExRelayed spoken noted round =>
      exists probe addr f, may_speak st env h verb request spoken probe addr /\
        ledger_says verb request probe round addr f (cs_forwards st') /\ written_from env verb request f (cs_forwards st')
  end.

Lemma relay_request_spec st env h verb request : ledger_ok (cs_forwards st) ->
  exists st' ex, relay_request st env h verb request = Done (st', ex) /\ ledger_ok (cs_forwards st') /\
    exchange_ok st env h verb request st' ex.
Proof.
  intros Hok. unfold relay_request. destruct (probe_turn st env verb request) as [st1 turn] eqn:Hp.
  destruct (probe_turn_spec _ _ _ _ _ _ Hp Hok) as (_ & Hok1 & Ht). destruct turn as [|answer|spoken generation].
  - subst st1. destruct (decide_spec verb request (ce_table env) (ce_runtimes env) (ce_revoking env) (ce_phase env) (cs_forwards st))
      as (r & -> & Hr). cbn [mbind outcome_bind]. destruct r as [d|refused]; [|by eexists _, _].
    destruct Hr as [Hall Hrev]. destruct (ledger_turn (others st (ce_before_note env)) env verb request (Some d)) as [st2 turn] eqn:Hl.
    destruct (ledger_turn_spec _ _ _ _ _ _ _ Hl (ledger_steps_ok _ _ Hok) ltac:(by exists (cs_forwards st))) as (_ & Hok2 & Hn). destruct turn as [answer|noted]; [by eexists _, _|].
    destruct Hn as [Hn _].
    destruct (write_turn_spec st2 env verb request (Some d) (h ++ request) noted None Hok2) as (st3 & -> & Hok3 & Hfrom).
    exists st3, (if ce_switch_takes env then ExRelayed (h ++ request) noted None else ExUnwritten (h ++ request)).
    split; [done|]. split; [done|].
    assert (may_speak st env h verb request (h ++ request) None (sr_switch_addr (cd_request d))) as Hm by (split; [done|split; [by eexists|done]]).
    destruct (ce_switch_takes env); [|by exists None, (sr_switch_addr (cd_request d))].
    exists None, (sr_switch_addr (cd_request d)), (cs_forwards st2). split; [done|]. specialize (Hfrom eq_refl). split; [|done]. split; [done|].
    intros l Hfl. destruct verb; [| |done].
    + destruct (Hn l Hfl) as (e & He & Ha & _). by exists e.
    + unfold written_from in Hfrom. rewrite Hfl in Hfrom. rewrite Hfrom. apply note_retracted_frees. by apply ledger_steps_ok.
  - by eexists _, _.
  - destruct Ht as (l & -> & Hv & Hport & Hrange & Hheld & Hout).
    assert (ledger_turn st1 env verb request None = (st1, TurnNoted None)) as ->.
    { unfold ledger_turn. destruct verb; [|done|done]. by destruct (forward_listener _ _). }
    destruct (write_turn_spec st1 env verb request None (canonical_probe_request verb l) None (Some generation) Hok1)
      as (st2 & -> & Hok2 & Hfrom).
    eexists st2, _. split; [done|]. split; [done|].
    assert (may_speak st env h verb request (canonical_probe_request verb l) (Some l) l.1) as Hm by done.
    destruct (ce_switch_takes env); [|by exists (Some l), l.1].
    exists (Some l), l.1, (cs_forwards st1). split; [done|]. split; [|by apply Hfrom]. by exists generation.
Qed.

(** Every connection ends in an answer that its bytes and the rows explain. *)
Lemma serve_connection_spec st env guest :
  ledger_ok (cs_forwards st) ->
  exists st' served, serve_connection st env true guest = Done (st', served) /\ ledger_ok (cs_forwards st') /\
    match served with
    | SvRefused => cs_forwards st' = cs_forwards st /\ cs_replies st' = cs_replies st
    | SvFrames h guest' => stream_bytes guest = h ++ prefixed_bytes guest' /\ of_head h = inl Frames /\ st' = st
    | SvControl verb guest' ex =>
        exists h n, whole_head h /\ of_head h = inl (Control verb n) /\
          ((ex = ExClosed None /\ cs_forwards st' = cs_forwards st /\ cs_replies st' = cs_replies st) \/
           exists request, stream_bytes guest = h ++ request ++ prefixed_bytes guest' /\ length request = n /\
             exchange_ok st env h verb request st' ex)
    end.
Proof.
  intros Hok. unfold serve_connection. cbn [negb].
  destruct (read_request_head_spec guest) as (guest1 & [[h carry]|e] & -> & Hr); cbn [mbind outcome_bind]; [|by eexists _, _].
  destruct Hr as (Hbytes & Hwhole & _). destruct (of_head h) as [[|verb n]|refused] eqn:Hspeak; [| |by eexists _, _].
  - destruct (ce_switch_takes env); by eexists _, _.
  - unfold relay_control. destruct (read_control_body_spec (prefixed_new carry guest1) n) as (guest2 & r & -> & Hb).
    cbn [mbind outcome_bind]. destruct r as [request| |].
    + destruct Hb as [Hb Hn]. destruct (relay_request_spec st env h verb request Hok) as (st' & ex & -> & Hok' & Hex).
      cbn [mbind outcome_bind]. eexists _, _. split; [done|]. split; [done|]. exists h, n. split; [done|]. split; [done|]. right.
      exists request. split; [|done]. rewrite Hbytes. f_equal. exact Hb.
    + eexists _, _. split; [done|]. split; [done|]. exists h, n. split; [done|]. split; [done|]. by left.
    + eexists _, _. split; [done|]. split; [done|]. exists h, n. split; [done|]. split; [done|]. by left.
Qed.

Lemma copy_loop_spec fuel : forall takes s seen status, (socket_size s < fuel)%nat ->
  exists sent answered rest, copy_loop fuel takes s seen status = Done (sent, answered) /\ stream_bytes s = sent ++ rest.
Proof.
  induction fuel as [|fuel IH]; intros takes s seen status Hf; [lia|]. cbn [copy_loop].
  destruct (socket_read CONTROL_READ s) as [[[|b bs]| |] s'] eqn:Hs; [by eexists [], _, _| |by eexists [], _, _|by eexists [], _, _].
  apply socket_read_bytes in Hs as (E & Hsize & _); [|unfold CONTROL_READ; lia].
  destruct (match status with Some _ => _ | None => _ end) as [seen' status']. destruct takes as [|takes]; [by eexists [], _, _|].
  destruct (IH takes s' seen' status') as (sent & answered & rest & -> & Hr); [lia|]. cbn [mbind outcome_bind].
  exists ((b :: bs) ++ sent), answered, rest. split; [done|]. by rewrite E, Hr, app_assoc.
Qed.

Lemma end_probe_applied f generation : pf_applied (end_probe f generation) = pf_applied f.
Proof. unfold end_probe. destruct (ps_outstanding _) as [[l held]|]; [|done]. by destruct (held =? generation). Qed.

(** C3: every connection ends in an answer, and whatever the guest sent and
    whatever other tasks do to the ledger meanwhile, the ledger keeps its
    invariant and the switch gets nothing, or the upgrade to frames, or one
    control request: exactly the head and the body it counts, allowed at its
    decision by a row of its address or by the announced interim, and, a
    retraction apart, while no revocation of that address is pending; or a
    range probe in the gate's own words at an address no box holds.  When the
    write begins a publish is attributed in the ledger to its address and a
    probe is the round outstanding; when it has ended the ledger differs from
    that one by what other tasks did while it waited, which may be that very
    address's revocation, and a retraction's listener is free.  The bytes
    after the request are never written. *)
Theorem control_relays_allowed st env guest :
  ledger_ok (cs_forwards st) ->
  exists st' served, serve_connection st env true guest = Done (st', served) /\ ledger_ok (cs_forwards st') /\
    match served with
    | SvRefused => cs_forwards st' = cs_forwards st /\ cs_replies st' = cs_replies st
    | SvFrames h guest' => stream_bytes guest = h ++ prefixed_bytes guest' /\ of_head h = inl Frames /\ st' = st
    | SvControl verb guest' ex =>
        exists h n, whole_head h /\ of_head h = inl (Control verb n) /\
          ((ex = ExClosed None /\ cs_forwards st' = cs_forwards st /\ cs_replies st' = cs_replies st) \/
           exists request, stream_bytes guest = h ++ request ++ prefixed_bytes guest' /\ length request = n /\
             exchange_ok st env h verb request st' ex)
    end.
Proof. apply serve_connection_spec. Qed.

(** C18: the answer half always ends.  The guest is sent a prefix of the switch's
    answer, unchanged; a publish the switch refused is nobody's any more,
    and one it accepted or left unanswered keeps its note; a probe round
    ends exactly when its expose was refused or its release was taken. *)
Theorem answer_settles st verb noted round guest response_first takes switch_ now :
  ledger_ok (cs_forwards st) ->
  exists st' sent answered rest,
    copy_switch_to_guest takes switch_ = Done (sent, answered) /\
    relay_answer st verb noted round guest response_first takes switch_ now = Done (st', sent) /\
    stream_bytes switch_ = sent ++ rest /\ ledger_ok (cs_forwards st') /\
    let refused := exists status, answered = Some status /\ ~ 200 <= status < 300 in
    (forall l, noted = Some l -> refused -> holder_of (pf_applied (cs_forwards st')) l = None) /\
    (noted = None \/ ~ refused -> pf_applied (cs_forwards st') = pf_applied (cs_forwards st)) /\
    (forall l generation, round = Some generation -> noted = None -> ps_outstanding (pf_probe (cs_forwards st)) = Some (l, generation) ->
       ps_outstanding (pf_probe (cs_forwards st')) = None <->
       exists status, answered = Some status /\ (200 <= status < 300 <-> verb = Unexpose)).
Proof.
  intros Hok. unfold relay_answer. destruct (copy_loop_spec (S (socket_size switch_)) takes switch_ [] None) as (sent & answered & rest & Hc & Hrest); [lia|].
  unfold copy_switch_to_guest. rewrite Hc. cbn [mbind outcome_bind].
  set (st1 := if response_first then st else _).
  assert (cs_forwards st1 = cs_forwards st) as H1 by (unfold st1; destruct response_first; [done|]; by destruct (control_request_probe guest)).
  clearbody st1.
  assert (forall status, success_status status = true <-> 200 <= status < 300) as Hsucc.
  { intros status. unfold success_status. rewrite andb_true_iff, Z.leb_le, Z.ltb_lt. lia. }
  assert (exists st2, match noted, answered with
        | Some listener, Some status => if success_status status then Done st1 else retract_and_end st1 listener
        | _, _ => Done st1
        end = Done st2 /\ ledger_ok (cs_forwards st2) /\
        (forall l status, noted = Some l -> answered = Some status -> ~ 200 <= status < 300 -> holder_of (pf_applied (cs_forwards st2)) l = None) /\
        (noted = None \/ ~ (exists status, answered = Some status /\ ~ 200 <= status < 300) -> cs_forwards st2 = cs_forwards st)) as (st2 & -> & Hok2 & Hfree & Hkeep).
  { destruct noted as [l|]; [|exists st1; rewrite H1; repeat (split; [done|]); done].
    destruct answered as [status|]; [|exists st1; rewrite H1; repeat (split; [done|]); done].
    destruct (success_status status) eqn:Hs.
    - exists st1. rewrite H1. repeat (split; [done|]). split; [|done]. intros l' status' _ [= <-] Hn. apply Hsucc in Hs. done.
    - destruct (retract_and_end_spec st1 l) as (st2 & -> & Hf & _). exists st2. rewrite H1 in Hf. rewrite Hf. split; [done|].
      split; [by apply (ledger_op_ok (cs_forwards st) _ (LRetract l) Hok)|].
      split; [intros l' status' [= <-] _ _; by apply note_retracted_frees|].
      intros [?|Hn]; [done|]. destruct Hn. exists status. split; [done|]. rewrite <- Hsucc, Hs. done. }
  cbn [mbind outcome_bind].
  set (st3 := match round, answered with Some g, Some status => _ | _, _ => st2 end).
  assert (pf_applied (cs_forwards st3) = pf_applied (cs_forwards st2)) as Ha.
  { unfold st3. destruct round as [g|]; [|done]. destruct answered as [status|]; [|done]. destruct (Bool.eqb _ _); [|done].
    apply end_probe_applied. }
  exists st3, sent, answered, rest. split; [done|]. split; [done|]. split; [done|]. split.
  { unfold st3. destruct round as [g|]; [|done]. destruct answered as [status|]; [|done]. destruct (Bool.eqb _ _); [|done].
    by apply (ledger_op_ok (cs_forwards st2) _ (LEndProbe g) Hok2). }
  rewrite Ha. split; [intros l Hl (status & Hs & Hn); by eapply Hfree|]. split; [intros Hn; by rewrite Hkeep|].
  intros l g Hround Hnone Hout. rewrite <- (Hkeep (or_introl Hnone)) in Hout. unfold st3. rewrite Hround.
  destruct answered as [status|]; [|split; [congruence|by intros (? & ? & _)]].
  assert (Bool.eqb (success_status status) (bool_decide (verb = Unexpose)) = true <-> (200 <= status < 300 <-> verb = Unexpose)) as Hiff.
  { rewrite <- Hsucc. destruct (success_status status); case_bool_decide; cbn; naive_solver. }
  destruct (Bool.eqb _ _); cbn [cs_forwards set_cs_forwards].
  - unfold end_probe. rewrite Hout, Z.eqb_refl. cbn. split; [|done]. intros _. exists status. split; [done|]. by apply Hiff.
  - rewrite Hout. split; [done|]. intros (? & [= <-] & Hx). apply Hiff in Hx. done.
Qed.
End control.
