(* ===== verification/ControlSample.v ===== *)
(** * Control exchanges on concrete bytes

    An instance of the JSON reader with bars for its separators, the framing
    of what the relay writes on, and witnesses. *)

From stdpp Require Import base list gmap strings numbers pretty.
From Stdlib Require Import ZArith Lia Ascii.
From S2P Require Import Prelude Text Bytes Egress Ingress Switch SwitchRequest DropLimiter DnsPins ReplyTables HostGate PublishLedger GateRelay RowRegistry RuntimePorts ControlHead ControlRequest ControlRelay ControlProps.
Open Scope Z_scope.

(** Bodies of fields between bars: [local|remote|protocol] for an expose,
    [local|protocol] for an unexpose, [name=ip] items for a zone-add. *)
Definition fields (body : list Z) : list string := map string_of (split_byte 124 body).
Definition bar_expose (body : list Z) : option ExposeBody :=
  match fields body with
  | [local; remote; protocol] => Some {| eb_local := local; eb_remote := remote; eb_protocol := protocol |}
  | _ => None
  end.
Definition bar_unexpose (body : list Z) : option UnexposeBody :=
  match fields body with
  | [local; protocol] => Some {| ub_local := local; ub_protocol := protocol |}
  | _ => None
  end.
Definition bar_dns_add (body : list Z) : option (list DnsRecordBody) :=
  mapM (fun item => '(name, ip) ← split_once "=" item; Some {| dr_name := name; dr_ip := ip |}) (fields body).
Definition bar_object (body : list Z) : option (string -> option string) :=
  match fields body with
  | [local; remote; protocol] =>
      Some (fun name => if bool_decide (name = "local"%string) then Some local
                        else if bool_decide (name = "remote"%string) then Some remote
                        else if bool_decide (name = "protocol"%string) then Some protocol else None)
  | _ => None
  end.
#[global] Instance bar_bodies : JsonBodies := {|
  read_expose := bar_expose; read_unexpose := bar_unexpose; read_dns_add := bar_dns_add; read_object := bar_object;
  strict_expose := fun body => bool_decide (is_Some (bar_expose body));
  strict_unexpose := fun body => bool_decide (is_Some (bar_unexpose body));
  write_expose := fun b => bytes (eb_local b ++ "|" ++ eb_remote b ++ "|" ++ eb_protocol b);
  write_unexpose := fun b => bytes (ub_local b ++ "|" ++ ub_protocol b);
|}.

Module ControlBytes.
Definition web : BoxRecord :=
  {| rec_id := 1; rec_box_id := 1; rec_name := "Web"; rec_switch_addr := Ip4 100 64 0 2; rec_loopback_addr := Ip4 127 0 64 2;
     rec_admitted_ports := [8080]; rec_declared_names := ["shop"%string]; rec_egress := egress_from_policy None (Ip4 100 64 0 1) (Ip4 100 64 0 2);
     rec_resolves_names := false; rec_dns_hosts := []; rec_deny_all := false; rec_credentialed_upstream := false;
     rec_dynamic_ingress := IngressAllow; rec_dynamic_range := Some (9000, 9100); rec_task_row_of := None; rec_task_addrs := [] |}.
Definition table : BoxTable :=
  {| bt_rows := {[Ip4 100 64 0 2 := web]}; bt_host_ip_boxes := []; bt_host_ip_cohort := None; bt_subnet := DEFAULT_SUBNET; bt_row_epoch := 1 |}.
Definition nothing : Meanwhile := {| mw_ops := []; mw_replies := fun t => t; mw_limiter := fun l => l |}.
Definition env : ControlEnv :=
  {| ce_table := table; ce_runtimes := {[1%nat := {| rt_ports := [{| rp_port := 9001; rp_proto := Tcp |}]; rt_admits := [0] |}]};
     ce_revoking := ∅; ce_phase := InForce; ce_now := 0; ce_before_note := nothing; ce_table_noted := table;
     ce_before_written := nothing; ce_switch_takes := true |}.
Definition start : ControlState := {| cs_limiter := limiter_new; cs_replies := reply_tables_new; cs_forwards := forwards_new |}.
Definition head_of (path : string) (n : nat) : list Z :=
  bytes ("POST " ++ path ++ " HTTP/1.1") ++ CRLF ++ bytes ("Content-Length: " ++ pretty n) ++ CRLF ++ CRLF.
Definition post (path : string) (body : list Z) : list Z := head_of path (length body) ++ body.
Definition expose_path : string := "/services/forwarder/expose".
Definition unexpose_path : string := "/services/forwarder/unexpose".
Definition served (s : Socket) : option Served :=
  match serve_connection start env true s with Done (_, sv) => Some sv | _ => None end.

Definition publish : list Z := bytes "127.0.64.2:8080|100.64.0.2:80|tcp".
(** A declared port is published, and what follows the request stays unread. *)
Example declared_port_relayed :
  served [SData (take 20 (post expose_path publish)); SData (drop 20 (post expose_path publish) ++ bytes "GET /tunnel")]
  = Some (SvControl Expose {| px_carry := publish ++ bytes "GET /tunnel"; px_pos := 33; px_inner := [] |}
            (ExRelayed (post expose_path publish) (Some (Ip4 127 0 64 2, 8080)) None)).
Proof. vm_compute. reflexivity. Qed.
(** A port no row declares, a listener off the loopback, a verb off the
    list, and a body in chunks: nothing is relayed. *)
Example undeclared_refused :
  map (fun s => match served [SData s] with
                | Some (SvControl _ _ (ExClosed None)) | Some SvRefused => true
                | _ => false
                end)
    [post expose_path (bytes "127.0.64.2:8081|100.64.0.2:80|tcp");
     post expose_path (bytes "10.0.0.1:8080|100.64.0.2:80|tcp");
     post "/tunnel" []; bytes "POST /services/dns/add HTTP/1.1" ++ CRLF ++ bytes "Transfer-Encoding: chunked" ++ HEAD_END]
  = [true; true; true; true].
Proof. vm_compute. reflexivity. Qed.
(** A row's own name and a host-qualified form of it may be published at its
    address, another's may not. *)
Example own_names_relayed :
  map (fun s => match served [SData (post "/services/dns/add" (bytes s))] with
                | Some (SvControl _ _ (ExRelayed _ None None)) => true
                | _ => false
                end)
    ["web=100.64.0.2|web.h1=100.64.0.2"; "shop=100.64.0.2"; "webmail=100.64.0.2"; "web=100.64.0.3"]%string
  = [true; true; false; false].
Proof. vm_compute. reflexivity. Qed.
(** A sign before the count is taken for part of a plain number. *)
Example signed_count_taken :
  framed_body (bytes "POST /services/dns/add HTTP/1.1" ++ CRLF ++ bytes "Content-Length: +5" ++ HEAD_END) = Some 5.
Proof. vm_compute. reflexivity. Qed.

(** A head with a blank line of bare LFs in its middle. *)
Definition tunnel : list Z := bytes "GET /tunnel?ip=100.64.0.3&port=22 HTTP/1.1" ++ [LF] ++ bytes "Host: x" ++ HEAD_END.
Definition smuggling : list Z :=
  bytes "POST /services/forwarder/expose HTTP/1.1" ++ [LF] ++ bytes "Content-Length: 33" ++ [LF; LF]
  ++ replicate 33 65 ++ tunnel ++ publish.
End ControlBytes.

(** ** One message *)

Lemma of_head_counts h verb n : of_head h = inl (Control verb n) -> exists k, framed_body h = Some k /\ n = Z.to_nat k /\ k <= MAX_CONTROL_BODY.
Proof.
  unfold of_head. destruct (split_byte SP _) as [|w [|target [|w' [|w'' ws]]]]; try done. case_bool_decide; [done|].
  destruct (List.find _ _) as [[verb' path]|]; [|done]. destruct (framed_body h) as [k|]; [|done].
  destruct (Z.leb_spec k MAX_CONTROL_BODY); [|done]. intros [= <- <-]. by exists k.
Qed.

(** C12: what a control exchange that is no range probe writes on is the head
    and the body it counted.  A reader of lines that ends a head at its first
    blank line, as the gate's own count does, takes the head up to there and
    the counted bytes of what follows, the rest of the head and then the body,
    and is left with what remains of them; when every LF of the head ends a
    CRLF that is exactly the one message and nothing remains, and otherwise
    the gate relays a head that leaves such a reader a whole [/tunnel]
    request. *)
Theorem relayed_framing :
  (forall `{JsonBodies} st env guest st' verb guest' spoken noted, ledger_ok (cs_forwards st) ->
     serve_connection st env true guest = Done (st', SvControl verb guest' (ExRelayed spoken noted None)) ->
     exists h request k, stream_bytes guest = spoken ++ prefixed_bytes guest' /\ spoken = h ++ request /\
       framed_body h = Some k /\ length request = Z.to_nat k /\
       (let past := drop (header_end h) h ++ request in
        lf_message spoken = Some (take (header_end h) h ++ take (Z.to_nat k) past, drop (Z.to_nat k) past)) /\
       (~ bare_lf h -> lf_message spoken = Some (spoken, []))) /\
  (exists (J : JsonBodies) st env guest st' guest' spoken noted message rest, ledger_ok (cs_forwards st) /\
     serve_connection st env true guest = Done (st', SvControl Expose guest' (ExRelayed spoken noted None)) /\
     lf_message spoken = Some (message, rest) /\ starts_with (bytes "GET /tunnel?") rest = true).
Proof.
  split.
  - intros J st env guest st' verb guest' spoken noted Hok Hs.
    destruct (serve_connection_spec st env guest Hok) as (st1 & sv & Hs' & _ & Hsv). rewrite Hs in Hs'. injection Hs' as <- <-.
    destruct Hsv as (h & n & Hwhole & Hspeak & [[? _]|(request & Hbytes & Hn & (probe & addr & f & Hm & Hl & _))]); [done|].
    destruct probe as [l|]; [by destruct Hl as (g & ? & _)|]. destruct Hm as (-> & _). exists h, request.
    destruct (of_head_counts _ _ _ Hspeak) as (k & Hk & -> & _). exists k. split; [by rewrite <- app_assoc|]. repeat (split; [done|]).
    by apply (one_message h request k).
  - exists bar_bodies, ControlBytes.start, ControlBytes.env, [SData ControlBytes.smuggling].
    eexists _, _, _, _, _, _. split; [apply (ledger_run_ok [])|]. split; [vm_compute; reflexivity|]. split; vm_compute; reflexivity.
Qed.

Lemma relayed_framing_witness :
  exists h request, ControlBytes.post ControlBytes.expose_path ControlBytes.publish = h ++ request /\
    exists k, framed_body h = Some k /\ length request = Z.to_nat k.
Proof.
  destruct (proj1 relayed_framing bar_bodies ControlBytes.start ControlBytes.env
    [SData (ControlBytes.post ControlBytes.expose_path ControlBytes.publish)] _ Expose _
    (ControlBytes.post ControlBytes.expose_path ControlBytes.publish) _ (ledger_run_ok []) ltac:(vm_compute; reflexivity))
    as (h & request & k & _ & E & Hk & Hl & _).
  exists h, request. split; [exact E|]. exists k. exact (conj Hk Hl).
Defined.

Lemma control_relays_allowed_witness :
  exists st' served, serve_connection ControlBytes.start ControlBytes.env true
      [SData (ControlBytes.post ControlBytes.expose_path ControlBytes.publish)] = Done (st', served) /\ ledger_ok (cs_forwards st').
Proof.
  destruct (control_relays_allowed ControlBytes.start ControlBytes.env
    [SData (ControlBytes.post ControlBytes.expose_path ControlBytes.publish)] (ledger_run_ok [])) as (st' & sv & H & Hok & _).
  exists st', sv. exact (conj H Hok).
Defined.

Lemma answer_settles_witness :
  exists st' sent, relay_answer ControlBytes.start Expose (Some (Ip4 127 0 64 2, 8080)) None (prefixed_new [] []) true 1
      [SData (bytes "HTTP/1.1 500 no" ++ CRLF); SEnd] 0 = Done (st', sent) /\
    holder_of (pf_applied (cs_forwards st')) (Ip4 127 0 64 2, 8080) = None.
Proof.
  destruct (answer_settles ControlBytes.start Expose (Some (Ip4 127 0 64 2, 8080)) None (prefixed_new [] []) true 1
    [SData (bytes "HTTP/1.1 500 no" ++ CRLF); SEnd] 0 (ledger_run_ok [])) as (st' & sent & answered & rest & Hc & Hr & _ & _ & Hfree & _).
  exists st', sent. split; [exact Hr|]. apply Hfree; [reflexivity|]. exists 500. split; [|lia].
  assert (copy_switch_to_guest 1 [SData (bytes "HTTP/1.1 500 no" ++ CRLF); SEnd] = Done (bytes "HTTP/1.1 500 no" ++ CRLF, Some 500)) as E by (vm_compute; reflexivity).
  rewrite E in Hc. by injection Hc as _ <-.
Defined.
