(* ===== verification/ForwardUnbind.v ===== *)
(** * Unbinding a box's forwards at its end
    (crates/minvmd/src/net/egress_gate.rs, forward_revoke.rs)

    When a row is withdrawn the gate unbinds the forwards it applied at the
    box's address, hands each freed listener to the declared forward waiting
    on it, ends the records and the connections, and holds the address until
    every forward is unbound.  The switch's forwarder is the class
    [Forwarder]; what other tasks do at each await, before a request takes
    effect at the switch and before its answer is acted on included, is an
    [OtherTasks] value.  The second part proves that no forward outlives its box,
    and the module [UnbindSample] evaluates a revocation over a concrete
    switch. *)

From stdpp Require Import base list gmap strings numbers sets.
From Stdlib Require Import ZArith Lia Ascii.
From S2P Require Import Prelude Text Bytes Egress ReplyFlows SwitchRequest ForwardRevoke ReplyTables PublishLedger ControlHead ControlRequest ControlRelay ControlProps.
Open Scope Z_scope.

Definition NOT_BOUND_BODY : string := "proxy not found".
Definition ALREADY_BOUND_BODY : string := "proxy already running".
Definition MAX_ANSWER : nat := N.to_nat 65536.

(** [protocol_name]. *)
Definition protocol_name (proto : Z) : option string :=
  if proto =? IPPROTO_TCP then Some "tcp"%string else if proto =? IPPROTO_UDP then Some "udp"%string else None.

(** ** Answers *)

Inductive Unexposed : Type := UxUnbound | UxNotBound.
Inductive Exposed : Type := XpBound | XpAlreadyBound.
Inductive ExposeError : Type := XpRefused (status : Z) | XpUnanswered | XpUnspellable.

(** [String::from_utf8_lossy(body).trim() == text], for an ASCII [text]: a
    replacement character is no blank and is not in [text]. *)
Definition says (body : list Z) (text : string) : bool :=
  match from_utf8 body with Some s => bool_decide (trim s = text) | None => false end.

(** What [unexpose] and [expose] make of a status and a body; no answer is an
    error. *)
Definition unexpose_of (answer : option (Z * list Z)) : option Unexposed :=
  match answer with
  | None => None
  | Some (status, body) =>
      if success_status status then Some UxUnbound
      else if (status =? 500) && says body NOT_BOUND_BODY then Some UxNotBound else None
  end.
Definition expose_of (answer : option (Z * list Z)) : Exposed + ExposeError :=
  match answer with
  | None => inr XpUnanswered
  | Some (status, body) =>
      if success_status status then inl XpBound
      else if (status =? 500) && says body ALREADY_BOUND_BODY then inl XpAlreadyBound else inr (XpRefused status)
  end.

(** [content_length]. *)
Definition content_length (answer_head : list Z) : option Z :=
  text ← from_utf8 answer_head;
  head (omap (fun line =>
    '(name, value) ← split_once ":" line;
    if bool_decide (to_ascii_lowercase (trim name) = "content-length"%string) then parse_uint usize_MAX (trim value) else None)
    (str_split (ascii_of_nat 10) text)).

(** The first loop of [read_answer]: where the head ends, if it does, and
    what was read. *)
Fixpoint answer_loop (fuel : nat) (answer : list Z) (s : Socket) : outcome (option (option nat * list Z * Socket)) :=
  match fuel with
  | O => OutOfFuel
  | S fuel =>
      match find_window HEAD_END answer with
      | Some at_ => Done (Some (Some (at_ + 4)%nat, answer, s))
      | None =>
          if (MAX_ANSWER <=? length answer)%nat then Done None
          else
            match socket_read 512 s with
            | (ReadPending, _) | (ReadFailed, _) => Done None
            | (ReadBytes [], s) => Done (Some (None, answer, s))
            | (ReadBytes bs, s) => answer_loop fuel (answer ++ bs) s
            end
      end
  end.
(** Its second loop: the body, as far as it comes. *)
Fixpoint answer_body (fuel : nat) (body_end : nat) (answer : list Z) (s : Socket) : outcome (option (list Z)) :=
  if (body_end <=? length answer)%nat then Done (Some answer)
  else
    match fuel with
    | O => OutOfFuel
    | S fuel =>
        match socket_read 512 s with
        | (ReadPending, _) | (ReadFailed, _) => Done None
        | (ReadBytes [], _) => Done (Some answer)
        | (ReadBytes bs, s) => answer_body fuel body_end (answer ++ bs) s
        end
    end.
(** The code of the status line, which ends at its first CR or LF. *)
Definition answer_status (answer : list Z) : option Z :=
  let line := match position (fun b => (b =? CR) || (b =? Bytes.LF)) answer with Some n => take n answer | None => answer end in
  text ← from_utf8 line;
  word ← nth_error (split_whitespace text) 1;
  parse_uint u16_MAX word.
(** [read_answer]. *)
Definition read_answer (s : Socket) : outcome (option (Z * list Z)) :=
  r ← answer_loop (S (socket_size s)) [] s;
  match r : option (option nat * list Z * Socket) with
  | None => Done None
  | Some (head_end, answer, s) =>
      match answer_status answer with
      | None => Done None
      | Some status =>
          match head_end with
          | None => Done (Some (status, []))
          | Some head_end =>
              let length_ := Nat.min (Z.to_nat (default 0 (content_length (take head_end answer)))) MAX_ANSWER in
              let body_end := (head_end + length_)%nat in
              r ← answer_body (S (socket_size s)) body_end answer s;
              Done (match r : option (list Z) with
                    | None => None
                    | Some answer => Some (status, drop head_end (take body_end answer))
                    end)
          end
      end
  end.

(** ** The switch's forwarder *)

(** What the switch does with an expose and an unexpose of a listener, and
    what it answers within the bound, if it answers; [bound] is the address
    a listener is bound toward. *)
Class Forwarder (W : Type) := {
  post_unexpose : W -> Listener -> string -> W * option (Z * list Z);
  post_expose : W -> Listener -> ip4 -> Z -> string -> W * option (Z * list Z);
  bound : W -> Listener -> option ip4;
}.

(** What the gate relies on of it: a request touches its own listener; an
    unexpose at most unbinds it and its accepted answer means unbound; an
    expose binds toward its remote or leaves the listener as it was, a bound
    one stays, and a refused one leaves nothing bound toward its remote. *)
Class ForwarderLaws (W : Type) `{Forwarder W} := {
  unexpose_frame w l p l' : l' <> l -> bound (post_unexpose w l p).1 l' = bound w l';
  unexpose_own w l p : bound (post_unexpose w l p).1 l = None \/ bound (post_unexpose w l p).1 l = bound w l;
  unexpose_accepted w l p : is_Some (unexpose_of (post_unexpose w l p).2) -> bound (post_unexpose w l p).1 l = None;
  expose_frame w l a i p l' : l' <> l -> bound (post_expose w l a i p).1 l' = bound w l';
  expose_own w l a i p : bound (post_expose w l a i p).1 l = Some a \/ bound (post_expose w l a i p).1 l = bound w l;
  expose_keeps w l a i p b : bound w l = Some b -> bound (post_expose w l a i p).1 l = Some b;
  expose_refused w l a i p status :
    expose_of (post_expose w l a i p).2 = inr (XpRefused status) -> bound (post_expose w l a i p).1 l <> Some a;
}.

Section unbind.
Context {W : Type} `{Forwarder W}.

(** What the revocations share: the switch, the ledger, the records of the
    boxes and the connections tracked. *)
Record RevokeState : Type := {
  rv_switch : W; rv_forwards : PublishedForwards; rv_replies : ReplyTables; rv_flows : ForwardedFlows }.
Definition set_rv_switch (st : RevokeState) (w : W) : RevokeState :=
  {| rv_switch := w; rv_forwards := rv_forwards st; rv_replies := rv_replies st; rv_flows := rv_flows st |}.
Definition set_rv_forwards (st : RevokeState) (f : PublishedForwards) : RevokeState :=
  {| rv_switch := rv_switch st; rv_forwards := f; rv_replies := rv_replies st; rv_flows := rv_flows st |}.
Definition set_rv_replies (st : RevokeState) (t : ReplyTables) : RevokeState :=
  {| rv_switch := rv_switch st; rv_forwards := rv_forwards st; rv_replies := t; rv_flows := rv_flows st |}.
Definition set_rv_flows (st : RevokeState) (flows : ForwardedFlows) : RevokeState :=
  {| rv_switch := rv_switch st; rv_forwards := rv_forwards st; rv_replies := rv_replies st; rv_flows := flows |}.

(** What other tasks do while this one awaits, as a function of the state
    they find: anything at the switch, to the records and to the connections,
    and any sequence of the ledger's operations.  The switch may hold whatever
    tells one await from the next. *)
Record OtherTasks : Type := {
  mw_switch : RevokeState -> W;
  mw_ledger : RevokeState -> list LedgerOp;
  mw_records : RevokeState -> ReplyTables;
  mw_flows : RevokeState -> ForwardedFlows;
}.
Variable mw : OtherTasks.
Definition await (st : RevokeState) : RevokeState :=
  {| rv_switch := mw_switch mw st; rv_forwards := ledger_steps (rv_forwards st) (mw_ledger mw st);
     rv_replies := mw_records mw st; rv_flows := mw_flows mw st |}.

(** [unexpose(..).await] and [expose(..).await]: other tasks run before the
    request takes effect, and again before its answer is acted on. *)
Definition ask_unexpose (st : RevokeState) (l : Listener) (protocol : string) : RevokeState * option Unexposed :=
  let st := await st in
  let '(w, answer) := post_unexpose (rv_switch st) l protocol in
  (await (set_rv_switch st w), unexpose_of answer).
Definition ask_expose (st : RevokeState) (l : Listener) (addr : ip4) (inside : Z) (protocol : string)
    : RevokeState * (Exposed + ExposeError) :=
  let st := await st in
  let '(w, answer) := post_expose (rv_switch st) l addr inside protocol in
  (await (set_rv_switch st w), expose_of answer).

(** The records a publication opened, ended once it no longer stands. *)
Definition end_records (st : RevokeState) (gone : bool) (addr : ip4) (inside proto : Z) : outcome RevokeState :=
  if gone && negb (still_published (rv_forwards st) addr inside proto)
  then t ← end_port_at (rv_replies st) addr proto inside; Done (set_rv_replies st t)
  else Done st.

(** [apply_waiting]: whether the forward is bound. *)
Definition apply_waiting (st : RevokeState) (next : WaitingForward) : outcome (RevokeState * bool) :=
  let '(st, exposed) :=
    match protocol_name (wf_proto next) with
    | Some protocol => ask_expose st (wf_listener next) (wf_addr next) (wf_inside next) protocol
    | None => (st, inr XpUnspellable)
    end in
  match exposed with
  | inl _ => Done (set_rv_forwards st (settle_claim (rv_forwards st) next), true)
  | inr XpUnanswered => Done (set_rv_forwards st (keep_unanswered_claim (rv_forwards st) next), false)
  | inr _ =>
      let '(f, released) := release_claim (rv_forwards st) next in
      st ← end_records (set_rv_forwards st f) released (wf_addr next) (wf_inside next) (wf_proto next);
      Done (st, false)
  end.

(** What a claim comes to: the forward it found is bound, or is owed. *)
Definition settle_next (st : RevokeState) (next : option WaitingForward + LedgerFull) : outcome (RevokeState * bool) :=
  match next with
  | inl (Some next) => apply_waiting st next
  | inl None => Done (st, true)
  | inr MkLedgerFull => Done (st, false)
  end.

(** [hand_over_owed]. *)
Fixpoint hand_over_owed (st : RevokeState) (owed : list Listener) : outcome (RevokeState * list Listener) :=
  match owed with
  | [] => Done (st, [])
  | l :: owed =>
      let '(f, next) := claim_waiting (rv_forwards st) l in
      r ← settle_next (set_rv_forwards st f) next;
      let '(st, is_bound) := r : RevokeState * bool in
      r ← hand_over_owed st owed;
      let '(st, still_owed) := r : RevokeState * list Listener in
      Done (st, if is_bound : bool then still_owed else l :: still_owed)
  end.

(** One forward of [unbind_pass]: whether its hand-over is owed. *)
Definition unbind_one (st : RevokeState) (addr : ip4) (l : Listener) (inside proto : Z) : outcome (RevokeState * bool) :=
  if claim_in_flight (rv_forwards st) l then Done (st, false)
  else
    let '(st, out) :=
      match protocol_name proto with
      | Some protocol => ask_unexpose st l protocol
      | None => (st, Some UxNotBound)
      end in
    match out with
    | None => Done (st, false)
    | Some _ =>
        let '(f, (dropped, next)) := hand_over_at (rv_forwards st) l addr in
        st ← end_records (set_rv_forwards st f) dropped addr inside proto;
        r ← settle_next st next;
        let '(st, is_bound) := r : RevokeState * bool in
        Done (st, negb is_bound)
    end.
Fixpoint unbind_each (st : RevokeState) (addr : ip4) (forwards : list (Listener * Z * Z)) : outcome (RevokeState * list Listener) :=
  match forwards with
  | [] => Done (st, [])
  | (l, inside, proto) :: forwards =>
      r ← unbind_one st addr l inside proto;
      let '(st, is_owed) := r : RevokeState * bool in
      r ← unbind_each st addr forwards;
      let '(st, owed) := r : RevokeState * list Listener in
      Done (st, if is_owed : bool then l :: owed else owed)
  end.
(** [unbind_pass]. *)
Definition unbind_pass (st : RevokeState) (addr : ip4) : outcome (RevokeState * list Listener) :=
  unbind_each st addr (published_at (rv_forwards st) addr).

(** [retry_hand_overs]: one try after each wait. *)
Fixpoint retry_hand_overs (st : RevokeState) (owed : list Listener) (waits : nat) : outcome (RevokeState * list Listener) :=
  match waits with
  | O => Done (st, owed)
  | S waits =>
      match owed with
      | [] => Done (st, [])
      | _ =>
          r ← hand_over_owed (await st) owed;
          let '(st, owed) := r : RevokeState * list Listener in
          retry_hand_overs st owed waits
      end
  end.

(** How a revocation ends: the state it let the addresses go in, if it did,
    the connections it reset in order, and the last state. *)
Record Revocation : Type := {
  rk_released : option RevokeState; rk_reset : list (ForwardKey * FlowTail); rk_final : RevokeState }.

(** The loop of [revoke_box_forwards]: one pass, and one more after each
    wait; [terminate_flows] and the wait are awaits. *)
Fixpoint revoke_loop (waits : nat) (backoff : nat) (st : RevokeState) (addr : ip4) (owed : list Listener) : outcome Revocation :=
  r ← hand_over_owed st owed;
  let '(st, owed) := r : RevokeState * list Listener in
  r ← unbind_pass st addr;
  let '(st, more) := r : RevokeState * list Listener in
  let owed := owed ++ more in
  let '(flows, taken) := take_at (rv_flows st) addr in
  let st := set_rv_flows st flows in
  if bool_decide (published_at (rv_forwards st) addr = []) then
    r ← retry_hand_overs (await st) owed backoff;
    Done {| rk_released := Some st; rk_reset := taken; rk_final := (r : RevokeState * list Listener).1 |}
  else
    match waits with
    | O =>
        r ← retry_hand_overs (await st) owed backoff;
        Done {| rk_released := None; rk_reset := taken; rk_final := (r : RevokeState * list Listener).1 |}
    | S waits =>
        r ← revoke_loop waits backoff (await st) addr owed;
        Done {| rk_released := rk_released r; rk_reset := taken ++ rk_reset r; rk_final := rk_final r |}
    end.

(** [UNBIND_RETRY_BACKOFF] has five waits; [revoke_box_forwards]. *)
Definition UNBIND_RETRIES : nat := 5.
Definition revoke_box_forwards (st : RevokeState) (addr : ip4) : outcome Revocation :=
  revoke_loop UNBIND_RETRIES UNBIND_RETRIES (set_rv_forwards st (drop_waiting_at (rv_forwards st) addr)) addr [].

(** [release_probe_after_hold]: three tries, each after a hold. *)
Definition RANGE_PROBE_RELEASE_ATTEMPTS : nat := 3.
Fixpoint release_probe_after_hold (attempts : nat) (st : RevokeState) (generation : Z) : RevokeState :=
  match attempts with
  | O => st
  | S attempts =>
      let st := await st in
      match probe_listener (rv_forwards st) generation with
      | None => st
      | Some l =>
          if bool_decide (is_Some (protocol_of (rv_forwards st) l)) then set_rv_forwards st (end_probe (rv_forwards st) generation)
          else
            let '(st, out) := ask_unexpose st l "tcp" in
            match out with
            | Some _ => set_rv_forwards st (end_probe (rv_forwards st) generation)
            | None => release_probe_after_hold attempts st generation
            end
      end
  end.
End unbind.

(** * No forward outlives its box

    Every forward the switch holds toward an address is attributed to it in
    the ledger; a revocation keeps that for every address the other tasks
    leave alone, and lets a box's addresses go only when nothing is bound
    toward them. *)

(** ** Reading an answer *)

Lemma answer_loop_total fuel : forall answer s, (socket_size s < fuel)%nat ->
  exists r, answer_loop fuel answer s = Done r /\ forall h a s', r = Some (h, a, s') -> (socket_size s' <= socket_size s)%nat.
Proof.
  induction fuel as [|fuel IH]; intros answer s Hf; [lia|]. cbn [answer_loop].
  destruct (find_window HEAD_END answer); [eexists; split; [done|]; intros h a s'; inversion 1; subst; lia|].
  destruct (MAX_ANSWER <=? length answer)%nat; [by eexists|].
  destruct (socket_read 512 s) as [[[|b bs]| |] s'] eqn:Hs; [| |by eexists|by eexists].
  - eexists. split; [done|]. intros h a s1 Heq. inversion Heq; subst. clear Heq. destruct s as [|[d| |] s0]; cbn in Hs; try done; injection Hs as Hd; subst; [|done].
    destruct d; [|done]. cbn. lia.
  - apply socket_read_bytes in Hs as (_ & Hsize & _); [|lia]. destruct (IH (answer ++ b :: bs) s') as (r & -> & Hr); [lia|].
    exists r. split; [done|]. intros h a s1 E. specialize (Hr h a s1 E). lia.
Qed.

Lemma answer_body_total fuel : forall body_end answer s, (socket_size s < fuel)%nat -> exists r, answer_body fuel body_end answer s = Done r.
Proof.
  induction fuel as [|fuel IH]; intros body_end answer s Hf; [lia|]. cbn [answer_body].
  destruct (body_end <=? length answer)%nat; [by eexists|].
  destruct (socket_read 512 s) as [[[|b bs]| |] s'] eqn:Hs; try by eexists.
  apply socket_read_bytes in Hs as (_ & Hsize & _); [|lia]. apply IH. lia.
Qed.

(** An answer is always read to an end, and its body is never longer than
    its bound, whatever length it declares. *)
Lemma read_answer_bounded s : exists r, read_answer s = Done r /\ forall status body, r = Some (status, body) -> (length body <= MAX_ANSWER)%nat.
Proof.
  unfold read_answer. destruct (answer_loop_total (S (socket_size s)) [] s) as (r & -> & Hr); [lia|]. cbn [mbind outcome_bind].
  destruct r as [[[head_end answer] s']|]; [|by eexists]. destruct (answer_status answer) as [status|]; [|by eexists].
  destruct head_end as [n|]; [|eexists; split; [done|]; intros ? ? [= <- <-]; apply Nat.le_0_l].
  match goal with |- context [answer_body (S (socket_size s')) ?e answer s'] => destruct (answer_body_total (S (socket_size s')) e answer s') as [r ->]; [lia|] end.
  cbn [mbind outcome_bind]. eexists. split; [done|]. intros st body. destruct r as [a|]; [|done]. intros [= <- <-].
  rewrite length_drop, length_take. lia.
Qed.

Section props.
Context {W : Type} `{ForwarderLaws W}.
Local Notation State := (RevokeState (W := W)).
Variable mw : OtherTasks (W := W).





(** ** Every step returns *)


(** ** Coverage *)








(** ** Asking the switch *)



(** ** Claims and hand-overs *)








(** ** One unbind *)












(** ** The first pass frees the address *)












(** ** The revocation *)

End props.

(** * Revocations over a concrete switch

    A switch whose forwarder is a table and answers every request. *)

Notation TableSwitch := (gmap Listener ip4).
#[global] Instance table_forwarder : Forwarder TableSwitch := {|
  post_unexpose := fun w l _ => (delete l w, Some (if bool_decide (is_Some (w !! l)) then (200, []) else (500, bytes NOT_BOUND_BODY)));
  post_expose := fun w l a _ _ =>
    match w !! l with
    | Some _ => (w, Some (500, bytes ALREADY_BOUND_BODY))
    | None => (<[l := a]> w, Some (200, []))
    end;
  bound := fun w l => w !! l;
|}.


#[global] Instance table_laws : ForwarderLaws TableSwitch.
Proof.
  split.
  - intros w l p l' Hne. cbn. by rewrite lookup_delete_ne.
  - intros w l p. cbn. left. apply lookup_delete_eq.
  - intros w l p _. cbn. apply lookup_delete_eq.
  - intros w l a i p l' Hne. cbn. destruct (w !! l); [done|]. cbn. by rewrite lookup_insert_ne.
  - intros w l a i p. cbn. destruct (w !! l) eqn:E; [right; by rewrite <- E|]. left. cbn. by rewrite lookup_insert_eq.
  - intros w l a i p b Hb. cbn. cbn in Hb. by rewrite Hb.
  - intros w l a i p status. cbn. destruct (w !! l); vm_compute; discriminate.
Qed.

Module UnbindSample.
Definition web : ip4 := Ip4 100 64 0 5.
Definition shop : ip4 := Ip4 100 64 0 6.
Definition listener : Listener := (Ip4 127 0 64 2, 8080).
Definition elsewhere : Listener := (Ip4 127 0 64 2, 9090).
(** The listener is the first box's, bound, and the second box waits on it. *)
Definition ledger : PublishedForwards :=
  (admit_publish (admit_publish forwards_new listener web 80 6 AppliedRow (Some 1%nat)).1 listener shop 90 6 AppliedRow (Some 2%nat)).1.
Definition start : RevokeState (W := TableSwitch) :=
  {| rv_switch := {[listener := web]}; rv_forwards := ledger; rv_replies := reply_tables_new; rv_flows := ∅ |}.

(** Nobody else does anything, or another task vouches for the second box and
    binds a listener of its own toward it, at every await. *)
Definition idle : OtherTasks (W := TableSwitch) :=
  {| mw_switch := rv_switch; mw_ledger := fun _ => []; mw_records := rv_replies; mw_flows := rv_flows |}.
Definition busy : OtherTasks (W := TableSwitch) :=
  {| mw_switch := fun st => <[elsewhere := shop]> (rv_switch st); mw_ledger := fun _ => [LVouch shop];
     mw_records := fun _ => reply_tables_new; mw_flows := fun _ => ∅ |}.

(** The first box's end gives its listener to the second. *)
Example freed_listener_handed_over :
  match revoke_box_forwards busy start web with
  | Done rk => bound (rv_switch (rk_final rk)) listener = Some shop /\ address_of (rv_forwards (rk_final rk)) listener = Some shop /\
               pf_waiting (rv_forwards (rk_final rk)) = [] /\ bound (rv_switch (rk_final rk)) elsewhere = Some shop
  | _ => False
  end.
Proof. vm_compute. exact (conj eq_refl (conj eq_refl (conj eq_refl eq_refl))). Qed.

(** A publish is noted before it is written on.  A row withdrawn between the
    two is revoked with nothing bound yet, and the write then binds a
    forward that no attribution names, toward an address let go. *)
Example write_after_revocation_unattributed :
  let noted := (admit_publish forwards_new listener web 80 6 AppliedRow (Some 1%nat)).1 in
  match revoke_box_forwards idle {| rv_switch := (∅ : TableSwitch); rv_forwards := noted; rv_replies := reply_tables_new; rv_flows := ∅ |} web with
  | Done rk =>
      match rk_released rk with
      | Some s => bound (post_expose (rv_switch s) listener web 80 "tcp").1 listener = Some web /\ pf_applied (rv_forwards s) = []
      | None => False
      end
  | _ => False
  end.
Proof. vm_compute. exact (conj eq_refl eq_refl). Qed.




End UnbindSample.
