(* ===== verification/Envelope.v ===== *)
(** * The sealed envelope (crates/bep/src/seal.rs)

    A sealed value is a compact JWE: a protected header with the context the
    value is bound to, and an encrypted list of one member.  The curve, the
    hash, the cipher, base64 and the JSON reader are libraries the code
    calls; they are the class [SealCrypto], and [SealLaws] states what the
    code relies on of them. *)

From stdpp Require Import base list strings numbers.
From Stdlib Require Import ZArith Lia Ascii.
From S2P Require Import Prelude Text Bytes.
Open Scope Z_scope.

(** ** Data *)

Definition SEAL_TYP : string := "gatehouse-sealed-secret+jwe".
Definition SEAL_ALG : string := "ECDH-ES".
Definition SEAL_ENC : string := "A256GCM".
Definition FIELD_LEN : nat := 32.
Definition IV_LEN : nat := 12.
Definition TAG_LEN : nat := 16.
Definition MAX_SEALED_LEN : Z := 16 * 1024.

Inductive Mode : Type := ModeUser | ModeInstallation.
Inductive MemberKind : Type := MkSignIn | MkStore.
Inductive Breadth : Type := BreadthFull.
#[global] Instance Mode_eq_dec : EqDecision Mode.
Proof. solve_decision. Defined.
#[global] Instance MemberKind_eq_dec : EqDecision MemberKind.
Proof. solve_decision. Defined.
#[global] Instance Breadth_eq_dec : EqDecision Breadth.
Proof. solve_decision. Defined.

Record SealContext : Type := {
  sc_box_id : string;
  sc_host : string;
  sc_module : string;
  sc_host_set_version : Z;
  sc_mode : Mode;
  sc_iat : Z;
  sc_expiry : Z;
  sc_kid : string;
}.
Definition is_expired (c : SealContext) (now : Z) : bool := sc_expiry c <=? now.

Record Binding : Type := { bd_box_id : string; bd_host : string; bd_module : string; bd_now : Z }.
Inductive BoundField : Type := BfBoxId | BfHost | BfModule.

Record Member : Type := { mb_kind : MemberKind; mb_breadth : Breadth; mb_jws : string; mb_exp : option Z }.
Record MemberList : Type := { ml_members : list Member; ml_default_owner : option string }.
Record Opened : Type := { op_context : SealContext; op_member : Member; op_default_owner : option string }.

Inductive SealError : Type := KidMismatch | MemberCount | SealRandom | SealEncrypt.
Inductive OpenError : Type :=
| SealMalformed
| SealUnsupported
| NotOpenable
| ContextMismatch (field : BoundField)
| SealExpired
| BadMembers
| UnknownBreadth
| UnknownKind
| KeyRefused.

(** A P-256 public key as a JWK, the protected header, and the member list
    as JSON. *)
Record Jwk : Type := { jwk_kty : string; jwk_crv : string; jwk_x : string; jwk_y : string }.
Record JweHeader : Type := {
  jh_typ : string;
  jh_alg : string;
  jh_enc : string;
  jh_kid : string;
  jh_epk : Jwk;
  jh_box_id : string;
  jh_host : string;
  jh_module : string;
  jh_host_set_version : Z;
  jh_mode : Mode;
  jh_iat : Z;
  jh_exp : Z;
}.
Record WireMember : Type := { wm_kind : option string; wm_breadth : option string; wm_jws : string; wm_exp : option Z }.
Record WireList : Type := { wl_members : list WireMember; wl_default_owner : option string }.

(** ** The libraries *)

Class SealCrypto := {
  PublicKey : Type;
  SecretKey : Type;
  secret_from_slice : list Z -> option SecretKey;
  public_of : SecretKey -> PublicKey;
  diffie_hellman : SecretKey -> PublicKey -> list Z;
  to_sec1_bytes : PublicKey -> list Z;
  from_sec1_bytes : list Z -> option PublicKey;
  seal_sha256 :: Sha256;
  aead_encrypt : list Z -> list Z -> list Z -> list Z -> option (list Z);  (* key, nonce, message, associated data *)
  aead_decrypt : list Z -> list Z -> list Z -> list Z -> option (list Z);
  url_safe_encode : list Z -> string;
  url_safe_decode : string -> option (list Z);
  write_jwe_header : JweHeader -> option (list Z);
  read_jwe_header : list Z -> option JweHeader;
  write_wire_list : WireList -> option (list Z);
  read_wire_list : list Z -> option WireList;
}.

Definition byte_list (l : list Z) : Prop := Forall is_u8 l.

(** The documented behaviour the round trip rests on. *)
Class SealLaws `{SealCrypto} := {
  agreement a b : diffie_hellman a (public_of b) = diffie_hellman b (public_of a);
  sec1_uncompressed k : length (to_sec1_bytes k) = 65%nat /\ head (to_sec1_bytes k) = Some 4 /\ byte_list (to_sec1_bytes k);
  sec1_back k : from_sec1_bytes (to_sec1_bytes k) = Some k;
  decrypts key nonce m aad c : aead_encrypt key nonce m aad = Some c -> aead_decrypt key nonce c aad = Some m;
  tag_appended key nonce m aad c : aead_encrypt key nonce m aad = Some c -> (TAG_LEN <= length c)%nat /\ byte_list c;
  base64_back l : byte_list l -> url_safe_decode (url_safe_encode l) = Some l;
  base64_no_dot l : str_contains "."%char (url_safe_encode l) = false;
  header_back h j : write_jwe_header h = Some j -> read_jwe_header j = Some h /\ byte_list j;
  list_back l j : write_wire_list l = Some j -> read_wire_list j = Some l;
}.

Section seal.
Context `{SealCrypto}.

(** [Jwk::of] and [Jwk::to_public_key]. *)
Definition jwk_of (key : PublicKey) : Jwk :=
  let sec1 := to_sec1_bytes key in
  {| jwk_kty := "EC"; jwk_crv := "P-256"; jwk_x := url_safe_encode (take FIELD_LEN (drop 1 sec1));
     jwk_y := url_safe_encode (drop (1 + FIELD_LEN) sec1) |}.
Definition to_public_key (jwk : Jwk) : option PublicKey :=
  if negb (bool_decide (jwk_kty jwk = "EC"%string)) || negb (bool_decide (jwk_crv jwk = "P-256"%string)) then None
  else
    x ← url_safe_decode (jwk_x jwk);
    y ← url_safe_decode (jwk_y jwk);
    if negb (length x =? FIELD_LEN)%nat || negb (length y =? FIELD_LEN)%nat then None
    else from_sec1_bytes (4 :: x ++ y).

(** [ProxyPublicKey::kid]: the JWK thumbprint. *)
Definition QUOTE : string := String (ascii_of_nat 34) EmptyString.
Definition quoted (s : string) : string := (QUOTE ++ s ++ QUOTE)%string.
Definition canonical_jwk (jwk : Jwk) : string :=
  ("{" ++ quoted "crv" ++ ":" ++ quoted (jwk_crv jwk) ++ "," ++ quoted "kty" ++ ":" ++ quoted (jwk_kty jwk) ++ ","
   ++ quoted "x" ++ ":" ++ quoted (jwk_x jwk) ++ "," ++ quoted "y" ++ ":" ++ quoted (jwk_y jwk) ++ "}")%string.
Definition key_kid (key : PublicKey) : string := url_safe_encode (sha256 (bytes (canonical_jwk (jwk_of key)))).

(** [u32::to_be_bytes], [put_len_prefixed] and [content_cipher]: the Concat
    KDF of direct ECDH-ES. *)
Definition be32 (n : Z) : list Z :=
  [Z.shiftr n 24 mod 256; Z.shiftr n 16 mod 256; Z.shiftr n 8 mod 256; n mod 256].
Definition len_prefixed (bs : list Z) : list Z := be32 (Z.min 4294967295 (Z.of_nat (length bs))) ++ bs.
Definition content_cipher (shared : list Z) : list Z :=
  sha256 (be32 1 ++ shared ++ len_prefixed (bytes SEAL_ENC) ++ len_prefixed [] ++ len_prefixed [] ++ be32 256).

(** [Header::new] and [Header::into_context]. *)
Definition header_new (c : SealContext) (epk : Jwk) : JweHeader :=
  {| jh_typ := SEAL_TYP; jh_alg := SEAL_ALG; jh_enc := SEAL_ENC; jh_kid := sc_kid c; jh_epk := epk; jh_box_id := sc_box_id c;
     jh_host := sc_host c; jh_module := sc_module c; jh_host_set_version := sc_host_set_version c; jh_mode := sc_mode c;
     jh_iat := sc_iat c; jh_exp := sc_expiry c |}.
Definition into_context (h : JweHeader) : SealContext :=
  {| sc_box_id := jh_box_id h; sc_host := jh_host h; sc_module := jh_module h; sc_host_set_version := jh_host_set_version h;
     sc_mode := jh_mode h; sc_iat := jh_iat h; sc_expiry := jh_exp h; sc_kid := jh_kid h |}.

(** The wire names of kinds and breadths. *)
Definition kind_as_wire (k : MemberKind) : string := match k with MkSignIn => "signin" | MkStore => "store" end.
Definition kind_from_wire (wire : option string) : option MemberKind :=
  wire ← wire;
  if bool_decide (wire = "signin"%string) then Some MkSignIn else if bool_decide (wire = "store"%string) then Some MkStore else None.
Definition breadth_as_wire (b : Breadth) : string := match b with BreadthFull => "full" end.
Definition breadth_from_wire (wire : option string) : option Breadth :=
  wire ← wire; if bool_decide (wire = "full"%string) then Some BreadthFull else None.

(** [MemberList::to_json] and [MemberList::from_json]. *)
Definition wire_member (m : Member) : WireMember :=
  {| wm_kind := Some (kind_as_wire (mb_kind m)); wm_breadth := Some (breadth_as_wire (mb_breadth m)); wm_jws := mb_jws m; wm_exp := mb_exp m |}.
Definition to_json (l : MemberList) : result SealError (list Z) :=
  ok_or SealEncrypt (write_wire_list {| wl_members := map wire_member (ml_members l); wl_default_owner := ml_default_owner l |}).
Definition member_of_wire (m : WireMember) : result OpenError Member :=
  kind ← ok_or UnknownKind (kind_from_wire (wm_kind m));
  breadth ← ok_or UnknownBreadth (breadth_from_wire (wm_breadth m));
  Ok {| mb_kind := kind; mb_breadth := breadth; mb_jws := wm_jws m; mb_exp := wm_exp m |}.
Definition from_json (json : list Z) : result OpenError MemberList :=
  wire ← ok_or BadMembers (read_wire_list json);
  match wl_members wire with
  | [m] => m ← member_of_wire m; Ok {| ml_members := [m]; ml_default_owner := wl_default_owner wire |}
  | _ => Err BadMembers
  end.

(** ** Sealing *)

(** [random_secret], over what the random source gives at each draw. *)
Fixpoint random_secret (attempts : nat) (draws : list (option (list Z))) : result SealError SecretKey :=
  match attempts with
  | O => Err SealRandom
  | S attempts =>
      match draws with
      | Some bs :: draws => match secret_from_slice bs with
                            | Some secret => Ok secret
                            | None => random_secret attempts draws
                            end
      | _ => Err SealRandom
      end
  end.

(** [seal_plaintext]; [iv] is the last draw, for the nonce. *)
Definition seal_plaintext (draws : list (option (list Z))) (iv : option (list Z)) (recipient : PublicKey) (context : SealContext) (plaintext : list Z)
    : result SealError string :=
  ephemeral ← random_secret 16 draws;
  header_json ← ok_or SealEncrypt (write_jwe_header (header_new context (jwk_of (public_of ephemeral))));
  let header_b64 := url_safe_encode header_json in
  let cipher := content_cipher (diffie_hellman ephemeral recipient) in
  iv ← ok_or SealRandom iv;
  sealed ← ok_or SealEncrypt (aead_encrypt cipher iv plaintext (bytes header_b64));
  let cut := (length sealed - TAG_LEN)%nat in
  Ok (header_b64 ++ ".." ++ url_safe_encode iv ++ "." ++ url_safe_encode (take cut sealed) ++ "."
      ++ url_safe_encode (drop cut sealed))%string.

(** [seal]. *)
Definition seal_members (draws : list (option (list Z))) (iv : option (list Z)) (recipient : PublicKey) (context : SealContext) (members : MemberList)
    : result SealError string :=
  if negb (bool_decide (sc_kid context = key_kid recipient)) then Err KidMismatch
  else if negb (length (ml_members members) =? 1)%nat then Err MemberCount
  else json ← to_json members; seal_plaintext draws iv recipient context json.

(** ** Opening *)

(** The loop over the bound fields. *)
Definition bound_mismatch (c : SealContext) (expected : Binding) : option BoundField :=
  if negb (bool_decide (sc_box_id c = bd_box_id expected)) then Some BfBoxId
  else if negb (bool_decide (sc_host c = bd_host expected)) then Some BfHost
  else if negb (bool_decide (sc_module c = bd_module expected)) then Some BfModule
  else None.

Definition decode_segment (segment : string) : result OpenError (list Z) := ok_or SealMalformed (url_safe_decode segment).

(** [open_with]. *)
Definition open_with (recipient : PublicKey) (sealed : string) (expected : Binding) (agree : PublicKey -> result OpenError (list Z))
    : result OpenError Opened :=
  if MAX_SEALED_LEN <? Z.of_nat (String.length sealed) then Err SealMalformed
  else
    match str_split "."%char sealed with
    | [header_b64; encrypted_key; iv; ciphertext; tag] =>
        if negb (bool_decide (encrypted_key = EmptyString)) then Err SealUnsupported
        else
          header_json ← decode_segment header_b64;
          header ← ok_or SealMalformed (read_jwe_header header_json);
          if negb (bool_decide (jh_typ header = SEAL_TYP)) || negb (bool_decide (jh_alg header = SEAL_ALG))
             || negb (bool_decide (jh_enc header = SEAL_ENC)) then Err SealUnsupported
          else if negb (bool_decide (jh_kid header = key_kid recipient)) then Err NotOpenable
          else
            ephemeral ← ok_or SealUnsupported (to_public_key (jh_epk header));
            iv ← decode_segment iv;
            if negb (length iv =? IV_LEN)%nat then Err SealMalformed
            else
              ciphertext ← decode_segment ciphertext;
              tag ← decode_segment tag;
              if negb (length tag =? TAG_LEN)%nat then Err SealMalformed
              else
                shared ← agree ephemeral;
                plaintext ← ok_or NotOpenable (aead_decrypt (content_cipher shared) iv (ciphertext ++ tag) (bytes header_b64));
                let context := into_context header in
                match bound_mismatch context expected with
                | Some field => Err (ContextMismatch field)
                | None =>
                    if is_expired context (bd_now expected) then Err SealExpired
                    else
                      l ← from_json plaintext;
                      member ← ok_or BadMembers (list.last (ml_members l));
                      if match mb_exp member with Some exp => exp <=? bd_now expected | None => false end then Err SealExpired
                      else Ok {| op_context := context; op_member := member; op_default_owner := ml_default_owner l |}
                end
    | _ => Err SealMalformed
    end.

(** [open], under the host's own key, and [open_held], under a key its store
    keeps. *)
Definition open_sealed (key : SecretKey) (sealed : string) (expected : Binding) : result OpenError Opened :=
  open_with (public_of key) sealed expected (fun ephemeral => Ok (diffie_hellman key ephemeral)).
Record HeldKey : Type := { hk_public : PublicKey; hk_agree : PublicKey -> option (list Z) }.
Definition open_held (key : HeldKey) (sealed : string) (expected : Binding) : result OpenError Opened :=
  open_with (hk_public key) sealed expected (fun ephemeral => ok_or KeyRefused (hk_agree key ephemeral)).
End seal.

(** ** What opening says *)

Section props.
Context `{SealCrypto}.

(** A value that opens is bound to the request, and neither it nor its
    member is past its expiry. *)
Lemma open_with_bound recipient sealed expected agree o :
  open_with recipient sealed expected agree = Ok o ->
  let c := op_context o in
  sc_box_id c = bd_box_id expected /\ sc_host c = bd_host expected /\ sc_module c = bd_module expected /\
  sc_kid c = key_kid recipient /\ bd_now expected < sc_expiry c /\
  (forall exp, mb_exp (op_member o) = Some exp -> bd_now expected < exp).
Proof.
  unfold open_with. destruct (MAX_SEALED_LEN <? _); [done|].
  destruct (str_split _ sealed) as [|hb [|ek [|iv [|ct [|tag [|]]]]]]; try done.
  destruct (negb (bool_decide (ek = _))); [done|].
  intros (hj & _ & (header & Hh & Ho)%result_bind_Ok)%result_bind_Ok. revert Ho.
  destruct (negb _ || _ || _); [done|]. case_bool_decide as Hk; [|done]. cbn [negb].
  intros (eph & _ & (iv' & _ & Ho)%result_bind_Ok)%result_bind_Ok. revert Ho. destruct (negb (length iv' =? _)%nat); [done|].
  intros (ct' & _ & (tag' & _ & Ho)%result_bind_Ok)%result_bind_Ok. revert Ho. destruct (negb (length tag' =? _)%nat); [done|].
  intros (sh & _ & (pt & _ & Ho)%result_bind_Ok)%result_bind_Ok. revert Ho.
  unfold bound_mismatch. case_bool_decide as Hb; [|done]. case_bool_decide as Hhost; [|done]. case_bool_decide as Hm; [|done].
  cbn [negb]. unfold is_expired. destruct (Z.leb_spec (sc_expiry (into_context header)) (bd_now expected)) as [|Hexp]; [done|].
  intros (l & _ & (m & _ & Ho)%result_bind_Ok)%result_bind_Ok. revert Ho.
  destruct (mb_exp m) as [e|] eqn:Em.
  - destruct (Z.leb_spec e (bd_now expected)); [done|]. intros [= <-]. cbn. repeat (split; [done|]). intros e' He. rewrite Em in He. by injection He as <-.
  - intros [= <-]. cbn. repeat (split; [done|]). intros e' He. congruence.
Qed.
End props.

(** ** The round trip *)

Section roundtrip.
Context `{SealLaws}.

Lemma jwk_back (k : PublicKey) : to_public_key (jwk_of k) = Some k.
Proof.
  unfold to_public_key, jwk_of. cbn [jwk_kty jwk_crv jwk_x jwk_y].
  destruct (sec1_uncompressed k) as (Hlen & Hhd & Hb). pose proof (sec1_back k) as Hback.
  destruct (to_sec1_bytes k) as [|z l] eqn:E; [done|]. injection Hhd as ->. cbn [length] in Hlen.
  apply Forall_cons_1 in Hb as [_ Hb]. cbn [drop Nat.add].
  rewrite (base64_back (take FIELD_LEN l)) by (by apply Forall_take). rewrite (base64_back (drop FIELD_LEN l)) by (by apply Forall_drop).
  cbn [mbind option_bind]. rewrite !bool_decide_true by done. cbn [negb orb].
  rewrite !length_take, !length_drop. unfold FIELD_LEN. replace (Nat.min 32 (length l)) with 32%nat by lia.
  replace (length l - 32)%nat with 32%nat by lia. cbn [Nat.eqb negb orb]. by rewrite take_drop.
Qed.

Lemma from_to_json l j m : to_json l = Ok j -> ml_members l = [m] -> from_json j = Ok l.
Proof.
  unfold to_json. destruct (write_wire_list _) as [j'|] eqn:Ej; [|done]. intros [= ->] Hm. apply list_back in Ej.
  unfold from_json. rewrite Ej. cbn [ok_or mbind result_bind wl_members]. rewrite Hm. cbn [map wl_default_owner].
  destruct l as [ms d], m as [k [] jws exp]; cbn in *; subst ms. by destruct k.
Qed.

Lemma sealed_segments (h i c t : string) :
  str_contains "."%char h = false -> str_contains "."%char i = false -> str_contains "."%char c = false -> str_contains "."%char t = false ->
  str_split "."%char (h ++ String "." (String "." (i ++ String "." (c ++ String "." t))))%string = [h; EmptyString; i; c; t].
Proof.
  intros Hh Hi Hc Ht.
  rewrite str_split_app_sep, (str_split_single _ h) by done. cbn [app str_split]. rewrite bool_decide_true by done.
  rewrite str_split_app_sep, (str_split_single _ i), str_split_app_sep, (str_split_single _ c), (str_split_single _ t) by done. done.
Qed.

(** C28: a sealed value of at most the accepted length opens under the host's key,
    for the box, host and module it was sealed for and before its expiries,
    to exactly what was sealed; for another box, host or module, or after an
    expiry, it does not open. *)
Theorem sealed_value_opens draws iv key context members m sealed expected :
  (forall bs, iv = Some bs -> byte_list bs /\ length bs = IV_LEN) ->
  ml_members members = [m] ->
  seal_members draws iv (public_of key) context members = Ok sealed ->
  Z.of_nat (String.length sealed) <= MAX_SEALED_LEN ->
  open_sealed key sealed expected =
    match bound_mismatch context expected with
    | Some field => Err (ContextMismatch field)
    | None => if is_expired context (bd_now expected)
                 || match mb_exp m with Some exp => exp <=? bd_now expected | None => false end then Err SealExpired
              else Ok {| op_context := context; op_member := m; op_default_owner := ml_default_owner members |}
    end.
Proof.
  intros Hiv Hm Hs Hlen. revert Hs. unfold seal_members. case_bool_decide as Hkid; [|done]. rewrite Hm. cbn [negb length Nat.eqb].
  intros (json & Hjson & Hs)%result_bind_Ok. unfold seal_plaintext in Hs.
  apply result_bind_Ok in Hs as (eph & _ & Hs). apply result_bind_Ok in Hs as (hj & Hhj & Hs).
  destruct (write_jwe_header _) as [hj'|] eqn:Ehj; [injection Hhj as ->|done]. apply header_back in Ehj as [Hread Hhb].
  apply result_bind_Ok in Hs as (ivb & Eiv & Hs). destruct iv as [iv'|]; [injection Eiv as ->|done].
  destruct (Hiv _ eq_refl) as [Hivb Hivl]. apply result_bind_Ok in Hs as (ct & Ect & Hs).
  destruct (aead_encrypt _ _ _ _) as [ct'|] eqn:Eenc; [injection Ect as ->|done].
  destruct (tag_appended _ _ _ _ _ Eenc) as [Htag Hctb]. apply decrypts in Eenc. injection Hs as <-.
  unfold open_sealed, open_with. rewrite (proj2 (Z.ltb_ge _ _) Hlen).
  rewrite sealed_segments by apply base64_no_dot. rewrite bool_decide_true by done. cbn [negb].
  unfold decode_segment. rewrite (base64_back hj), (base64_back ivb) by done.
  rewrite (base64_back (take _ _)) by (by apply Forall_take). rewrite (base64_back (drop _ _)) by (by apply Forall_drop).
  cbn [ok_or mbind result_bind]. rewrite Hread. cbn [ok_or mbind result_bind header_new jh_typ jh_alg jh_enc jh_kid jh_epk].
  rewrite !bool_decide_true by done. cbn [negb orb]. rewrite jwk_back. cbn [ok_or mbind result_bind]. rewrite Hivl, length_drop.
  replace (length ct - (length ct - TAG_LEN))%nat with TAG_LEN by lia. rewrite !Nat.eqb_refl. cbn [negb].
  rewrite (agreement key eph), take_drop, Eenc. cbn [ok_or mbind result_bind].
  replace (into_context (header_new context (jwk_of (public_of eph)))) with context by (by destruct context).
  destruct (bound_mismatch context expected); [done|]. destruct (is_expired context _); [done|]. cbn [orb].
  rewrite (from_to_json _ _ _ Hjson Hm). cbn [mbind result_bind]. rewrite Hm. cbn [list.last ok_or mbind result_bind]. done.
Qed.
End roundtrip.
