(* ===== verification/Handle.v ===== *)
(** * Signed handles (crates/bep/src/handle.rs, crates/bep/src/module.rs)

    A sealed member carries a handle: a compact JWS that names the box and
    host it was minted for, a store and an item, the authorities the value
    may go to and the form it is injected in.  The proxy verifies it under
    the registered client keys and judges it against the current rule.  The
    signature scheme and the JSON reader are the class [HandleCrypto]. *)

From stdpp Require Import base list strings numbers.
From Stdlib Require Import ZArith Lia Ascii.
From S2P Require Import Prelude Text Bytes Envelope.
Open Scope Z_scope.

(** ** Authorities *)

(** [redeem::Authority]. *)
Record Authority (H : Type) : Type := { au_host : H; au_port : Z }.
Arguments au_host {H} _.
Arguments au_port {H} _.
#[global] Instance Authority_eq_dec `{EqDecision H} : EqDecision (Authority H).
Proof. solve_decision. Defined.

Definition HTTPS_PORT : Z := 443.

(** [parse_authority] and [parse_authorities]. *)
Definition parse_authority (text : string) : option (Authority string) :=
  hp ← match rsplit_once ":"%char text with
       | Some (host, port) => port ← parse_uint 65535 port; Some (host, port)
       | None => Some (text, HTTPS_PORT)
       end;
  let '(host, port) := hp : string * Z in
  if bool_decide (host = EmptyString) then None
  else Some {| au_host := to_ascii_lowercase host; au_port := port |}.
Definition parse_authorities (l : list string) : option (list (Authority string)) := mapM parse_authority l.

(** ** Modules *)

(** [module::Module] and [module::GITHUB]. *)
Record CredModule : Type := { md_id : string; md_host_set_version : Z; md_hosts : list (Authority string) }.
Definition GITHUB : CredModule :=
  {| md_id := "github"; md_host_set_version := 1;
     md_hosts := map (fun h => {| au_host := h; au_port := HTTPS_PORT |})
                   ["github.com"; "api.github.com"; "uploads.github.com"; "codeload.github.com"]%string |}.

(** ** Handles *)

Definition HANDLE_ALG : string := "ES256".
Definition HANDLE_TYP : string := "gatehouse-store-handle+jws".

Inductive HandleKind : Type := HkStore | HkSignIn.
Inductive Inject : Type :=
| InjHeader (name : string) (prefix : option string)
| InjBasicAuth (field : string).
#[global] Instance Inject_eq_dec : EqDecision Inject.
Proof. solve_decision. Defined.

Record Claims : Type := {
  cl_sub : string;
  cl_node_id : string;
  cl_store : string;
  cl_id : string;
  cl_upstream : list string;
  cl_inject : option Inject;
  cl_iat : Z;
  cl_exp : Z;
  cl_jti : string;
}.
(** [Claims::identifier]. *)
Definition claims_identifier (c : Claims) : string := (cl_store c ++ ":" ++ cl_id c)%string.

Record JwsHeader : Type := { jws_alg : string; jws_typ : string; jws_kid : string }.
Inductive VerifyError : Type := VeMalformed | VeUnknownKey | VeBadSignature.

Class HandleCrypto `{SealCrypto} := {
  SigningKey : Type;
  VerifyingKey : Type;
  Signature : Type;
  verifying_key : SigningKey -> VerifyingKey;
  verifying_from_sec1 : list Z -> option VerifyingKey;
  verifying_sec1 : VerifyingKey -> list Z;
  sign_bytes : SigningKey -> list Z -> Signature;
  signature_bytes : Signature -> list Z;
  signature_from_slice : list Z -> option Signature;
  verify_signature : VerifyingKey -> list Z -> Signature -> bool;
  write_jws_header : JwsHeader -> list Z;
  read_jws_header : list Z -> option JwsHeader;
  write_claims : Claims -> list Z;
  read_claims : list Z -> option Claims;
}.

(** What the code relies on of the signature scheme and the JSON. *)
Class HandleLaws `{HandleCrypto} := {
  signature_holds key m : verify_signature (verifying_key key) m (sign_bytes key m) = true;
  signature_back s : signature_from_slice (signature_bytes s) = Some s /\ byte_list (signature_bytes s);
  jws_header_back h : read_jws_header (write_jws_header h) = Some h /\ byte_list (write_jws_header h);
  claims_back c : read_claims (write_claims c) = Some c /\ byte_list (write_claims c);
}.

Section handle.
Context `{HandleCrypto}.

(** [kid]. *)
Definition client_kid (key : VerifyingKey) : string :=
  default EmptyString (option_map key_kid (from_sec1_bytes (verifying_sec1 key))).

(** [ClientKeys]. *)
Definition ClientKeys : Type := list (string * VerifyingKey).
Definition keys_contains (keys : ClientKeys) (kid : string) : bool := existsb (fun k => bool_decide (k.1 = kid)) keys.
Definition keys_get (keys : ClientKeys) (kid : string) : option VerifyingKey :=
  option_map snd (List.find (fun k => bool_decide (k.1 = kid)) keys).
Definition keys_register (keys : ClientKeys) (sec1 : list Z) : result VerifyError (ClientKeys * string) :=
  key ← ok_or VeMalformed (verifying_from_sec1 sec1);
  let kid := client_kid key in
  Ok (if keys_contains keys kid then keys else keys ++ [(kid, key)], kid).

(** [sign], and the text it signs. *)
Definition jws_header (key : SigningKey) : JwsHeader :=
  {| jws_alg := HANDLE_ALG; jws_typ := HANDLE_TYP; jws_kid := client_kid (verifying_key key) |}.
Definition jws_input (key : SigningKey) (claims : Claims) : string :=
  (url_safe_encode (write_jws_header (jws_header key)) ++ "." ++ url_safe_encode (write_claims claims))%string.
Definition sign_handle (key : SigningKey) (claims : Claims) : string :=
  let input := jws_input key claims in
  (input ++ "." ++ url_safe_encode (signature_bytes (sign_bytes key (bytes input))))%string.

(** [unverified_claims] and [verify]. *)
Definition unverified_claims (jws : string) : result VerifyError (JwsHeader * Claims) :=
  match str_split "."%char jws with
  | [header; payload; _] =>
      header ← ok_or VeMalformed (url_safe_decode header);
      header ← ok_or VeMalformed (read_jws_header header);
      if negb (bool_decide (jws_alg header = HANDLE_ALG)) || negb (bool_decide (jws_typ header = HANDLE_TYP)) then Err VeMalformed
      else
        payload ← ok_or VeMalformed (url_safe_decode payload);
        claims ← ok_or VeMalformed (read_claims payload);
        Ok (header, claims)
  | _ => Err VeMalformed
  end.
Definition verify_handle (jws : string) (keys : ClientKeys) : result VerifyError Claims :=
  hc ← unverified_claims jws;
  let '(header, claims) := hc : JwsHeader * Claims in
  key ← ok_or VeUnknownKey (keys_get keys (jws_kid header));
  is_ ← ok_or VeMalformed (rsplit_once "."%char jws);
  let '(input, signature) := is_ : string * string in
  signature ← ok_or VeBadSignature (bs ← url_safe_decode signature; signature_from_slice bs);
  if verify_signature key (bytes input) signature then Ok claims else Err VeBadSignature.
End handle.

(** ** Rules *)

Record StoreRule : Type := { sru_store : string; sru_id : string; sru_upstream : list string; sru_inject : Inject }.
(** The source of the current rules, asked at each request. *)
Definition Rules : Type := string -> string -> option StoreRule.
(** [impl Rules for [StoreRule]]. *)
Definition rules_of (l : list StoreRule) : Rules := fun store id =>
  List.find (fun r => bool_decide (sru_store r = store) && bool_decide (sru_id r = id)) l.

Record HandleRule (H I : Type) : Type := { hr_upstream : list (Authority H); hr_inject : option I }.
Arguments hr_upstream {H I} _.
Arguments hr_inject {H I} _.
Record Handle (H I : Type) : Type := {
  hd_verified : bool;
  hd_bound : bool;
  hd_exp : Z;
  hd_upstream : list (Authority H);
  hd_inject : option I;
  hd_rule : option (HandleRule H I);
}.
Arguments hd_verified {H I} _.
Arguments hd_bound {H I} _.
Arguments hd_exp {H I} _.
Arguments hd_upstream {H I} _.
Arguments hd_inject {H I} _.
Arguments hd_rule {H I} _.

Inductive HandleInvalid : Type := IvSignature | IvContextMismatch | IvExpired | IvNoRule | IvOutsideRule | IvInjectMismatch.

(** [Handle::check]. *)
Definition handle_check {H I} `{EqDecision H, EqDecision I} (h : Handle H I) (now : Z) : result HandleInvalid () :=
  if negb (hd_verified h) then Err IvSignature
  else if negb (hd_bound h) then Err IvContextMismatch
  else if hd_exp h <=? now then Err IvExpired
  else match hd_rule h with
       | None => Err IvNoRule
       | Some rule =>
           if negb (forallb (fun a => bool_decide (a ∈ hr_upstream rule)) (hd_upstream h)) then Err IvOutsideRule
           else if negb (bool_decide (hd_inject h = hr_inject rule)) then Err IvInjectMismatch
           else Ok ()
       end.

(** ** Reading a handle *)

Record HandleRead : Type := { hd_identifier : option string; hd_jti : option string; hd_handle : Handle string Inject }.
Record Origin : Type := { og_kind : HandleKind; og_box_id : string; og_host : string; og_module : string }.

Definition no_handle : Handle string Inject :=
  {| hd_verified := false; hd_bound := false; hd_exp := 0; hd_upstream := []; hd_inject := None; hd_rule := None |}.

Section read.
Context `{HandleCrypto}.

(** The rule [read] judges the handle against. *)
Definition current_rule (origin : Origin) (rules : Rules) (module_ : CredModule) (claims : Claims) : option (HandleRule string Inject) :=
  if negb (bool_decide (og_module origin = md_id module_)) then None
  else match og_kind origin with
       | HkSignIn =>
           if negb (bool_decide (cl_store claims = md_id module_)) then None
           else Some {| hr_upstream := md_hosts module_; hr_inject := None |}
       | HkStore =>
           rule ← rules (cl_store claims) (cl_id claims);
           upstream ← parse_authorities (sru_upstream rule);
           Some {| hr_upstream := upstream; hr_inject := Some (sru_inject rule) |}
       end.

(** [read]; the debug line it logs is outside the model. *)
Definition read_handle (jws : string) (origin : Origin) (keys : ClientKeys) (rules : Rules) (module_ : CredModule) : HandleRead :=
  let '(claims, verified) :=
    match verify_handle jws keys with
    | Ok claims => (Some claims, true)
    | Err _ => match unverified_claims jws with
               | Ok (_, claims) => (Some claims, false)
               | Err _ => (None, false)
               end
    end in
  match claims with
  | None => {| hd_identifier := None; hd_jti := None; hd_handle := no_handle |}
  | Some claims =>
      let upstream := parse_authorities (cl_upstream claims) in
      {| hd_identifier := Some (claims_identifier claims);
         hd_jti := Some (cl_jti claims);
         hd_handle :=
           {| hd_verified := verified && bool_decide (is_Some upstream);
              hd_bound := bool_decide (cl_sub claims = og_box_id origin) && bool_decide (cl_node_id claims = og_host origin);
              hd_exp := cl_exp claims;
              hd_upstream := default [] upstream;
              hd_inject := cl_inject claims;
              hd_rule := current_rule origin rules module_ claims |} |}
  end.

(** [read_opened]. *)
Definition handle_kind (k : MemberKind) : HandleKind := match k with MkSignIn => HkSignIn | MkStore => HkStore end.
Definition read_opened (opened : Opened) (keys : ClientKeys) (rules : Rules) (module_ : CredModule) : HandleRead :=
  read_handle (mb_jws (op_member opened))
    {| og_kind := handle_kind (mb_kind (op_member opened)); og_box_id := sc_box_id (op_context opened);
       og_host := sc_host (op_context opened); og_module := sc_module (op_context opened) |}
    keys rules module_.
End read.

(** ** Signing and verifying *)

Section roundtrip.
Context `{HandleCrypto} `{!SealLaws} `{!HandleLaws}.

(** A handle that a client signs is read back as the claims that were
    signed, when the key registered under its key id accepts the signature,
    as the client's own key does; with no key of that id it is refused. *)
Theorem signed_handle_verifies key claims keys :
  let kid := client_kid (verifying_key key) in
  verify_handle (sign_handle key claims) keys =
    match keys_get keys kid with
    | Some k => if verify_signature k (bytes (jws_input key claims)) (sign_bytes key (bytes (jws_input key claims)))
                then Ok claims else Err VeBadSignature
    | None => Err VeUnknownKey
    end /\
  (keys_get keys kid = Some (verifying_key key) -> verify_handle (sign_handle key claims) keys = Ok claims).
Proof.
  cbn zeta. destruct (jws_header_back (jws_header key)) as [Hh Hhb]. destruct (claims_back claims) as [Hc Hcb].
  destruct (signature_back (sign_bytes key (bytes (jws_input key claims)))) as [Hs Hsb].
  match goal with |- ?A /\ _ => assert A as E; [|split; [exact E|intros Hk; rewrite E, Hk; by rewrite signature_holds]] end.
  unfold verify_handle, unverified_claims, sign_handle. cbn zeta.
  set (sig := url_safe_encode (signature_bytes (sign_bytes key (bytes (jws_input key claims))))).
  assert (str_split "."%char (jws_input key claims ++ "." ++ sig)%string =
    [url_safe_encode (write_jws_header (jws_header key)); url_safe_encode (write_claims claims); sig]) as ->.
  { unfold jws_input, sig. rewrite !string_app_assoc. cbn [String.append].
    rewrite str_split_app_sep, (str_split_single _ _ (base64_no_dot _)), str_split_app_sep, !(str_split_single _ _ (base64_no_dot _)). done. }
  rewrite (base64_back _ Hhb). cbn [ok_or mbind result_bind]. rewrite Hh. cbn [ok_or mbind result_bind jws_header jws_alg jws_typ jws_kid].
  rewrite !bool_decide_true by done. cbn [negb orb]. rewrite (base64_back _ Hcb). cbn [ok_or mbind result_bind]. rewrite Hc. cbn [ok_or mbind result_bind].
  destruct (keys_get keys _) as [k|]; [|done]. cbn [ok_or mbind result_bind].
  change (jws_input key claims ++ "." ++ sig)%string with (jws_input key claims ++ String "."%char sig)%string. rewrite rsplit_once_app by apply base64_no_dot.
  cbn [ok_or mbind result_bind option_bind]. unfold sig. rewrite (base64_back _ Hsb). cbn [option_bind mbind]. by rewrite Hs.
Qed.
End roundtrip.
