(* ===== verification/Redeem.v ===== *)
(** * The redemption decision (crates/bep/src/redeem.rs)

    Whether a sealed value is redeemed for a request, as one function of the
    facts the proxy gathered; and the two checks every request passes. *)

From stdpp Require Import base list strings numbers.
From Stdlib Require Import ZArith Lia.
From S2P Require Import Prelude Text Bytes Envelope Handle.
Open Scope Z_scope.

Record Bounds : Type := { bo_mode : option Mode; bo_breadth : option Breadth }.
Inductive Unsealed (B : Type) : Type :=
| UsUndecryptable
| UsUnbounded
| UsOtherBox
| UsExpired
| UsOpened (box_id : B) (bounds : Bounds) (expiry : Z).
Arguments UsUndecryptable {B}.
Arguments UsUnbounded {B}.
Arguments UsOtherBox {B}.
Arguments UsExpired {B}.
Arguments UsOpened {B} _ _ _.

Inductive Attribution (B : Type) : Type :=
| AtNoLiveBox
| AtOwnIp (sender : B)
| AtHostIpCohort.
Arguments AtNoLiveBox {B}.
Arguments AtOwnIp {B} _.
Arguments AtHostIpCohort {B}.

Record RequestAuthority (H : Type) : Type := { ra_host : option (Authority H); ra_target : option (Authority H) }.
Arguments ra_host {H} _.
Arguments ra_target {H} _.

Record Redemption (B H I : Type) : Type := {
  rd_unsealed : Unsealed B;
  rd_attribution : Attribution B;
  rd_named_box_in_cohort : bool;
  rd_now : Z;
  rd_revoked : list B;
  rd_authority : Authority H;
  rd_bound_set : list (Authority H);
  rd_current_set : list (Authority H);
  rd_request : RequestAuthority H;
  rd_egress : list (Authority H);
  rd_handle : Handle H I;
}.
Arguments rd_unsealed {B H I} _.
Arguments rd_attribution {B H I} _.
Arguments rd_named_box_in_cohort {B H I} _.
Arguments rd_now {B H I} _.
Arguments rd_revoked {B H I} _.
Arguments rd_authority {B H I} _.
Arguments rd_bound_set {B H I} _.
Arguments rd_current_set {B H I} _.
Arguments rd_request {B H I} _.
Arguments rd_egress {B H I} _.
Arguments rd_handle {B H I} _.

Inductive Attributed : Type := OwnBox | CohortBox.
Inductive RedeemCheck : Type :=
| CkUndecryptable
| CkUnboundedMember
| CkNoLiveBox
| CkCrossBox
| CkExpired
| CkRevoked
| CkOffPort
| CkOutsideBoundSet
| CkOutsideCurrentSet
| CkOutsideDeclaredEgress
| CkHostMismatch
| CkStoreHandleInvalid.
Inductive RedeemDecision : Type :=
| DecAdmit (attributed : Attributed) (mode : Mode) (breadth : Breadth)
| DecRefuse (check : RedeemCheck).

(** [Check::marker], [Attributed::marker], [Decision::marker] and
    [Decision::cohort_attributed]. *)
Definition check_marker (c : RedeemCheck) : string :=
  match c with
  | CkUndecryptable => "undecryptable"
  | CkUnboundedMember => "unbounded_member"
  | CkNoLiveBox => "no_live_box"
  | CkCrossBox => "cross_box"
  | CkExpired => "expired"
  | CkRevoked => "revoked"
  | CkOffPort => "off_port"
  | CkOutsideBoundSet => "outside_bound_set"
  | CkOutsideCurrentSet => "outside_current_set"
  | CkOutsideDeclaredEgress => "outside_declared_egress"
  | CkHostMismatch => "host_mismatch"
  | CkStoreHandleInvalid => "store_handle_invalid"
  end.
Definition attributed_marker (a : Attributed) : option string :=
  match a with OwnBox => None | CohortBox => Some "cohort_attributed"%string end.
Definition decision_marker (d : RedeemDecision) : option string :=
  match d with DecAdmit a _ _ => attributed_marker a | DecRefuse c => Some (check_marker c) end.
Definition cohort_attributed (d : RedeemDecision) : bool :=
  match d with DecAdmit CohortBox _ _ => true | _ => false end.

(** [Unsealed::from_open]. *)
Definition unsealed_from_open (r : result OpenError Opened) : result OpenError (Unsealed string) :=
  match r with
  | Ok o =>
      Ok (UsOpened (sc_box_id (op_context o))
            {| bo_mode := Some (sc_mode (op_context o)); bo_breadth := Some (mb_breadth (op_member o)) |}
            (match mb_exp (op_member o) with
             | Some exp => Z.min exp (sc_expiry (op_context o))
             | None => sc_expiry (op_context o)
             end))
  | Err NotOpenable => Ok UsUndecryptable
  | Err SealExpired => Ok UsExpired
  | Err UnknownBreadth => Ok UsUnbounded
  | Err (ContextMismatch BfBoxId) => Ok UsOtherBox
  | Err other => Err other
  end.

Section decide.
Context {B H I : Type} `{EqDecision B, EqDecision H, EqDecision I}.

(** [RequestAuthority::pins]. *)
Definition pins (r : RequestAuthority H) (connection : Authority H) : bool :=
  bool_decide (ra_host r = Some connection)
  && match ra_target r with Some t => bool_decide (t = connection) | None => true end.

Definition holds (l : list (Authority H)) (a : Authority H) : bool := bool_decide (a ∈ l).

(** The checks of [decide] on a value that opened. *)
Definition decide_opened (r : Redemption B H I) (box_id : B) (bounds : Bounds) (expiry : Z) : RedeemDecision :=
  match bo_mode bounds, bo_breadth bounds with
  | Some mode, Some breadth =>
      let attributed :=
        match rd_attribution r with
        | AtNoLiveBox => inr CkNoLiveBox
        | AtOwnIp sender => if bool_decide (sender = box_id) then inl OwnBox else inr CkCrossBox
        | AtHostIpCohort => if rd_named_box_in_cohort r then inl CohortBox else inr CkCrossBox
        end in
      match attributed with
      | inr check => DecRefuse check
      | inl attributed =>
          let authority := rd_authority r in
          if negb (holds (rd_egress r) authority) then DecRefuse CkOutsideDeclaredEgress
          else if expiry <=? rd_now r then DecRefuse CkExpired
          else if bool_decide (box_id ∈ rd_revoked r) then DecRefuse CkRevoked
          else match handle_check (rd_handle r) (rd_now r) with
               | Err _ => DecRefuse CkStoreHandleInvalid
               | Ok _ =>
                   let current := rd_current_set r in
                   if existsb (fun a => bool_decide (au_host a = au_host authority)) current && negb (holds current authority)
                   then DecRefuse CkOffPort
                   else if negb (holds (rd_bound_set r) authority) || negb (holds (hd_upstream (rd_handle r)) authority)
                   then DecRefuse CkOutsideBoundSet
                   else if negb (holds current authority) then DecRefuse CkOutsideCurrentSet
                   else if negb (pins (rd_request r) authority) then DecRefuse CkHostMismatch
                   else DecAdmit attributed mode breadth
               end
      end
  | _, _ => DecRefuse CkUnboundedMember
  end.

(** [decide]. *)
Definition decide_redemption (r : Redemption B H I) : RedeemDecision :=
  match rd_unsealed r with
  | UsUndecryptable => DecRefuse CkUndecryptable
  | UsUnbounded => DecRefuse CkUnboundedMember
  | UsOtherBox => DecRefuse (match rd_attribution r with AtNoLiveBox => CkNoLiveBox | _ => CkCrossBox end)
  | UsExpired =>
      DecRefuse (match rd_attribution r with
                 | AtNoLiveBox => CkNoLiveBox
                 | AtHostIpCohort =>
                     if negb (rd_named_box_in_cohort r) then CkCrossBox
                     else if negb (holds (rd_egress r) (rd_authority r)) then CkOutsideDeclaredEgress else CkExpired
                 | AtOwnIp _ => if negb (holds (rd_egress r) (rd_authority r)) then CkOutsideDeclaredEgress else CkExpired
                 end)
  | UsOpened box_id bounds expiry => decide_opened r box_id bounds expiry
  end.

(** [request_check] and [decide_plain]. *)
Definition request_check (authority : Authority H) (request : RequestAuthority H) (egress : list (Authority H)) : option RedeemCheck :=
  if negb (holds egress authority) then Some CkOutsideDeclaredEgress
  else if negb (pins request authority) then Some CkHostMismatch
  else None.
Definition decide_plain (authority : Authority H) (request : RequestAuthority H) (egress : list (Authority H)) : result RedeemCheck () :=
  match request_check authority request egress with None => Ok () | Some c => Err c end.

(** ** The decision as a table *)

(** The eleven checks, each with the refusal that names it, in order. *)
Definition attributed_to (r : Redemption B H I) (box_id : B) (a : Attributed) : Prop :=
  (a = OwnBox /\ rd_attribution r = AtOwnIp box_id) \/
  (a = CohortBox /\ rd_attribution r = AtHostIpCohort /\ rd_named_box_in_cohort r = true).

Record admissible (r : Redemption B H I) (a : Attributed) (mode : Mode) (breadth : Breadth) : Prop := {
  ad_opened : exists box_id bounds expiry, rd_unsealed r = UsOpened box_id bounds expiry /\
    bo_mode bounds = Some mode /\ bo_breadth bounds = Some breadth /\ attributed_to r box_id a /\
    rd_now r < expiry /\ box_id ∉ rd_revoked r;
  ad_handle : handle_check (rd_handle r) (rd_now r) = Ok ();
  ad_egress : rd_authority r ∈ rd_egress r;
  ad_sets : rd_authority r ∈ rd_bound_set r /\ rd_authority r ∈ hd_upstream (rd_handle r) /\ rd_authority r ∈ rd_current_set r;
  ad_request : ra_host (rd_request r) = Some (rd_authority r) /\
    forall t, ra_target (rd_request r) = Some t -> t = rd_authority r;
}.

Lemma handle_check_ok (h : Handle H I) now :
  handle_check h now = Ok () <->
  hd_verified h = true /\ hd_bound h = true /\ now < hd_exp h /\
  exists rule, hd_rule h = Some rule /\ (forall a, a ∈ hd_upstream h -> a ∈ hr_upstream rule) /\ hd_inject h = hr_inject rule.
Proof.
  unfold handle_check. destruct (hd_verified h); [|naive_solver]. destruct (hd_bound h); [|naive_solver]. cbn [negb].
  destruct (Z.leb_spec (hd_exp h) now); [split; [done|intros (_ & _ & ? & _); lia]|].
  destruct (hd_rule h) as [rule|]; [|naive_solver].
  assert (forallb (fun a => bool_decide (a ∈ hr_upstream rule)) (hd_upstream h) = true <-> forall a, a ∈ hd_upstream h -> a ∈ hr_upstream rule) as Hall.
  { rewrite forallb_forall. split; intros Hf a Ha.
    - apply (bool_decide_eq_true_1 _), Hf. by apply list_elem_of_In.
    - apply bool_decide_eq_true_2, Hf. by apply list_elem_of_In. }
  destruct (forallb _ _) eqn:Ef; cbn [negb].
  - case_bool_decide as Hi; cbn [negb]; [|split; [done|intros (_ & _ & _ & ? & [= <-] & _ & ?); done]].
    split; [intros _|done]. repeat (split; [done|]). exists rule. split; [done|]. split; [by apply Hall|done].
  - split; [done|]. intros (_ & _ & _ & ? & [= <-] & Hsub & _). apply Hall in Hsub. congruence.
Qed.

Lemma pins_iff (q : RequestAuthority H) c : pins q c = true <-> ra_host q = Some c /\ forall t, ra_target q = Some t -> t = c.
Proof.
  unfold pins. rewrite andb_true_iff, bool_decide_eq_true.
  destruct (ra_target q) as [t|]; rewrite ?bool_decide_eq_true; naive_solver.
Qed.

Lemma holds_iff l a : holds l a = true <-> a ∈ l.
Proof. apply bool_decide_eq_true. Qed.

(** The decision admits exactly when every check holds, for that mode,
    breadth and attribution. *)
Lemma decide_admits_iff r a mode breadth : decide_redemption r = DecAdmit a mode breadth <-> admissible r a mode breadth.
Proof.
  unfold decide_redemption. split.
  - destruct (rd_unsealed r) as [| | | |box_id bounds expiry] eqn:Eu; [done|done|done|done|]. unfold decide_opened.
    destruct (bo_mode bounds) as [m|] eqn:Em; [|done]. destruct (bo_breadth bounds) as [b|] eqn:Eb; [|done].
    destruct (match rd_attribution r with AtNoLiveBox => _ | AtOwnIp _ => _ | AtHostIpCohort => _ end) as [at_|c] eqn:Ea; [|done].
    destruct (holds (rd_egress r) _) eqn:Eg; [|done]. cbn [negb]. destruct (Z.leb_spec expiry (rd_now r)) as [|Hexp]; [done|].
    case_bool_decide as Hrev; [done|]. destruct (handle_check _ _) as [[]|] eqn:Eh; [|done].
    destruct (_ && negb _); [done|]. destruct (holds (rd_bound_set r) _) eqn:Ebs; [|done].
    destruct (holds (hd_upstream _) _) eqn:Ehu; [|done]. cbn [negb orb]. destruct (holds (rd_current_set r) _) eqn:Ecs; [|done].
    cbn [negb]. destruct (pins _ _) eqn:Ep; [|done]. cbn [negb]. intros [= <- <- <-]. apply holds_iff in Eg, Ebs, Ehu, Ecs. apply pins_iff in Ep.
    split; [|done|done|done|done]. exists box_id, bounds, expiry. repeat (split; [done|]). split; [|done].
    destruct (rd_attribution r) as [|sender|] eqn:Eat; [done| |]; unfold attributed_to.
    + case_bool_decide; [|done]. subst. injection Ea as <-. rewrite Eat. by left.
    + destruct (rd_named_box_in_cohort r); [|done]. injection Ea as <-. rewrite Eat. by right.
  - intros [(box_id & bounds & expiry & Eu & Em & Eb & Hat & Hexp & Hrev) Hh Heg (Hbs & Hhu & Hcs) Hreq].
    rewrite Eu. unfold decide_opened. rewrite Em, Eb.
    assert (match rd_attribution r with AtNoLiveBox => inr CkNoLiveBox
            | AtOwnIp sender => if bool_decide (sender = box_id) then inl OwnBox else inr CkCrossBox
            | AtHostIpCohort => if rd_named_box_in_cohort r then inl CohortBox else inr CkCrossBox end = inl a) as ->.
    { destruct Hat as [[-> ->]|(-> & -> & ->)]; [|done]. by rewrite bool_decide_true. }
    apply holds_iff in Heg, Hbs, Hhu, Hcs. rewrite Heg, Hbs, Hhu, Hcs, Hh. cbn [negb orb].
    apply pins_iff in Hreq. rewrite Hreq, bool_decide_false by done. rewrite (proj2 (Z.leb_gt _ _) Hexp).
    by rewrite andb_false_r.
Qed.

(** ** The documented checks, in their order *)

(** The eleven checks of the module's documentation, the third in its two
    refusals, as facts of the redemption with the refusal each one names. *)
Definition source_ok (r : Redemption B H I) : bool :=
  match rd_unsealed r, rd_attribution r with
  | UsOtherBox, _ => false
  | UsOpened box_id _ _, AtOwnIp sender => bool_decide (sender = box_id)
  | (UsOpened _ _ _ | UsExpired), AtHostIpCohort => rd_named_box_in_cohort r
  | _, _ => true
  end.
Definition documented_checks (r : Redemption B H I) : list (bool * RedeemCheck) :=
  let a := rd_authority r in
  [ (match rd_unsealed r with UsUndecryptable => false | _ => true end, CkUndecryptable);
    (match rd_unsealed r with
     | UsUnbounded => false
     | UsOpened _ b _ => bool_decide (is_Some (bo_mode b)) && bool_decide (is_Some (bo_breadth b))
     | _ => true
     end, CkUnboundedMember);
    (match rd_attribution r with AtNoLiveBox => false | _ => true end, CkNoLiveBox);
    (source_ok r, CkCrossBox);
    (holds (rd_egress r) a, CkOutsideDeclaredEgress);
    (match rd_unsealed r with UsExpired => false | UsOpened _ _ expiry => rd_now r <? expiry | _ => true end, CkExpired);
    (match rd_unsealed r with UsOpened box_id _ _ => bool_decide (box_id ∉ rd_revoked r) | _ => true end, CkRevoked);
    (match handle_check (rd_handle r) (rd_now r) with Ok _ => true | Err _ => false end, CkStoreHandleInvalid);
    (negb (existsb (fun x => bool_decide (au_host x = au_host a)) (rd_current_set r)) || holds (rd_current_set r) a, CkOffPort);
    (holds (rd_bound_set r) a && holds (hd_upstream (rd_handle r)) a, CkOutsideBoundSet);
    (holds (rd_current_set r) a, CkOutsideCurrentSet);
    (pins (rd_request r) a, CkHostMismatch) ].
Definition first_failing (l : list (bool * RedeemCheck)) : option RedeemCheck := option_map snd (List.find (fun e => negb e.1) l).

Lemma negb_bool_decide (P : Prop) `{Decision P} : bool_decide (~ P) = negb (bool_decide P).
Proof. by repeat case_bool_decide. Qed.

(** C14: the decision is the documented one: a refusal names the first of the
    eleven checks that fails, and a redemption is admitted exactly when none
    does, for the mode, the breadth and the attribution that passed. *)
Theorem decision_names_first_failure r :
  match first_failing (documented_checks r) with
  | Some c => decide_redemption r = DecRefuse c
  | None => exists a mode breadth, decide_redemption r = DecAdmit a mode breadth /\ admissible r a mode breadth
  end.
Proof.
  assert (forall a mode breadth, decide_redemption r = DecAdmit a mode breadth ->
    exists a mode breadth, decide_redemption r = DecAdmit a mode breadth /\ admissible r a mode breadth) as Hadm.
  { intros a m b E. exists a, m, b. split; [done|]. by apply decide_admits_iff. }
  unfold first_failing, documented_checks. cbn zeta. unfold decide_redemption, source_ok in *.
  destruct (rd_unsealed r) as [| | | |box_id bounds expiry] eqn:Eu; cbn [List.find fst snd negb option_map]; [done|done|..].
  - by destruct (rd_attribution r).
  - destruct (rd_attribution r); cbn; [done| |]; [|destruct (rd_named_box_in_cohort r); cbn; [|done]]; by destruct (holds (rd_egress r) (rd_authority r)).
  - unfold decide_opened in *. destruct (bo_mode bounds) as [m|]; [|done]. destruct (bo_breadth bounds) as [b|]; [|done].
    rewrite !bool_decide_true by done. cbn [andb negb].
    rewrite negb_bool_decide, Z.ltb_antisym.
    destruct (rd_attribution r) as [|sender|]; [done| |]; cbn [negb].
    1: case_bool_decide; cbn [negb List.find fst snd option_map]; [|done].
    2: destruct (rd_named_box_in_cohort r); cbn [negb List.find fst snd option_map]; [|done].
    all: destruct (holds (rd_egress r) (rd_authority r)); cbn [negb List.find fst snd option_map]; [|done].
    all: destruct (expiry <=? rd_now r); cbn [negb List.find fst snd option_map]; [done|].
    all: destruct (bool_decide (box_id ∈ rd_revoked r)); cbn [negb List.find fst snd option_map]; [done|].
    all: destruct (handle_check (rd_handle r) (rd_now r)) as [[]|]; cbn [negb List.find fst snd option_map]; [|done].
    all: destruct (existsb _ (rd_current_set r)), (holds (rd_current_set r) (rd_authority r)); cbn [negb orb andb List.find fst snd option_map]; try done.
    all: destruct (holds (rd_bound_set r) (rd_authority r)), (holds (hd_upstream (rd_handle r)) (rd_authority r));
      cbn [negb orb andb List.find fst snd option_map]; try done.
    all: destruct (pins (rd_request r) (rd_authority r)); cbn [negb List.find fst snd option_map]; [|done].
    all: by eapply Hadm.
Qed.
End decide.
