(* ===== verification/SignIn.v ===== *)
(** * The GitHub sign-in (crates/bep/src/signin.rs)

    The one keychain item that holds the sign-in: its stored forms, the
    renewal of an expiring token before it is used, and the store of a
    completed sign-in.  The keychain and GitHub's token endpoint are the
    class [SignInWorld], over a world that every call may find changed. *)

From stdpp Require Import base list strings numbers pretty.
From Stdlib Require Import ZArith Lia Ascii.
From S2P Require Import Prelude Text Bytes.
Open Scope Z_scope.

Definition SIGNIN_SERVICE : string := "dev.minimal.github-sign-in".
Definition META_SERVICE : string := "dev.minimal.github-sign-in.meta".
Definition METADATA_VERSION : string := "v1".
Definition RENEW_WITHIN_SECS : Z := 5 * 60.
Definition u64_MAX : Z := 18446744073709551615.

Inductive SignInFlow : Type := FlowDevice | FlowBrowser.
Definition flow_as_str (f : SignInFlow) : string := match f with FlowDevice => "device" | FlowBrowser => "browser" end.
Definition flow_parse (s : string) : option SignInFlow :=
  if bool_decide (s = "device"%string) then Some FlowDevice else if bool_decide (s = "browser"%string) then Some FlowBrowser else None.

Record Material : Type := { mt_instance : string; mt_access_token : string; mt_refresh_token : string }.
Record Metadata : Type := {
  me_account : string;
  me_instance : string;
  me_flow : SignInFlow;
  me_token_expires_at : Z;
  me_refresh_expires_at : Z;
}.
Inductive SignInError : Type :=
| KeychainRefused (action : string)
| SignInCorrupt (field : string)
| TokenForm
| MissingTool
| SignInRandom
| AccountForm.
Inductive Standing : Type := StLive | StRenewsAtProxy | StLapsed.
Record Completed : Type := {
  cp_account : string; cp_flow : SignInFlow; cp_material : Material; cp_token_expires_at : Z; cp_refresh_expires_at : Z }.
Record StoredSignIn : Type := { st_metadata : Metadata; st_new_instance : bool }.
Inductive Updated : Type := UpWritten | UpGone.
Record Refreshed : Type := { rf_access_token : string; rf_refresh_token : string; rf_expires_in : Z; rf_refresh_token_expires_in : Z }.
Inductive RefreshError : Type := RfRefused (code : string) | RfFailed.
Record Resolved : Type := { rs_token : string; rs_renewed : bool; rs_failed : bool }.
Inductive RenewError : Type := ReSignInRequired | ReNotSaved | ReGone.

(** ** The stored forms *)

Definition is_ascii_alnum (c : ascii) : bool :=
  let n := Z.of_nat (nat_of_ascii c) in in_range 48 57 n || in_range 65 90 n || in_range 97 122 n.
Definition valid_account (account : string) : bool :=
  negb (bool_decide (account = EmptyString)) && (Z.of_nat (String.length account) <=? 64)
  && str_all (fun c => is_ascii_alnum c || Ascii.eqb c "-" || Ascii.eqb c "_") account.
Definition valid_instance (i : string) : bool :=
  (Z.of_nat (String.length i) =? 32)
  && str_all (fun c => let n := Z.of_nat (nat_of_ascii c) in in_range 48 57 n || in_range 97 102 n) i.
Definition valid_token (token : string) : bool :=
  negb (bool_decide (token = EmptyString))
  && str_all (fun c => is_ascii_alnum c || Ascii.eqb c "_" || Ascii.eqb c "-" || Ascii.eqb c ".") token.

(** The decimal [Display] of a [u64]. *)
Definition show_u64 (n : Z) : string := pretty n.

(** [Metadata::encode]. *)
Definition metadata_encode (m : Metadata) : string :=
  (METADATA_VERSION ++ " account=" ++ me_account m ++ " instance=" ++ me_instance m ++ " flow=" ++ flow_as_str (me_flow m)
   ++ " token_expires_at=" ++ show_u64 (me_token_expires_at m) ++ " refresh_expires_at=" ++ show_u64 (me_refresh_expires_at m))%string.

(** The fields [Metadata::decode] has read so far. *)
Record MetaFields : Type := {
  mf_account : option string; mf_instance : option string; mf_flow : option SignInFlow; mf_token : option Z; mf_refresh : option Z }.
Definition meta_none : MetaFields := {| mf_account := None; mf_instance := None; mf_flow := None; mf_token := None; mf_refresh := None |}.
Definition meta_field (f : MetaFields) (k v : string) : MetaFields :=
  let '(Build_MetaFields account inst flow token refresh) := f in
  if bool_decide (k = "account"%string) then Build_MetaFields (Some v) inst flow token refresh
  else if bool_decide (k = "instance"%string) then Build_MetaFields account (Some v) flow token refresh
  else if bool_decide (k = "flow"%string) then Build_MetaFields account inst (flow_parse v) token refresh
  else if bool_decide (k = "token_expires_at"%string) then Build_MetaFields account inst flow (parse_uint u64_MAX v) refresh
  else if bool_decide (k = "refresh_expires_at"%string) then Build_MetaFields account inst flow token (parse_uint u64_MAX v)
  else f.
Fixpoint meta_parts (f : MetaFields) (parts : list string) : result SignInError MetaFields :=
  match parts with
  | [] => Ok f
  | part :: parts => match split_once "="%char part with
                     | Some (k, v) => meta_parts (meta_field f k v) parts
                     | None => Err (SignInCorrupt "metadata field")
                     end
  end.
(** [Option::filter]. *)
Definition keep_if {A} (p : A -> bool) (o : option A) : option A :=
  match o with Some a => if p a then Some a else None | None => None end.

(** [Metadata::decode]. *)
Definition metadata_decode (s : string) : result SignInError Metadata :=
  match split_whitespace s with
  | version :: parts =>
      if negb (bool_decide (version = METADATA_VERSION)) then Err (SignInCorrupt "metadata version")
      else
        f ← meta_parts meta_none parts;
        account ← ok_or (SignInCorrupt "account") (keep_if valid_account (mf_account f));
        inst ← ok_or (SignInCorrupt "instance") (keep_if valid_instance (mf_instance f));
        flow ← ok_or (SignInCorrupt "flow") (mf_flow f);
        token ← ok_or (SignInCorrupt "token expiry") (mf_token f);
        refresh ← ok_or (SignInCorrupt "refresh expiry") (mf_refresh f);
        Ok {| me_account := account; me_instance := inst; me_flow := flow; me_token_expires_at := token; me_refresh_expires_at := refresh |}
  | [] => Err (SignInCorrupt "metadata version")
  end.

(** [encode_secret] and [decode_secret]. *)
Definition encode_secret (metadata : Metadata) (material : Material) : result SignInError string :=
  if negb (valid_token (mt_access_token material)) || negb (valid_token (mt_refresh_token material)) then Err TokenForm
  else Ok (METADATA_VERSION ++ " " ++ me_instance metadata ++ " " ++ mt_access_token material ++ " " ++ mt_refresh_token material)%string.
Definition decode_secret (secret : string) : result SignInError Material :=
  match split_whitespace secret with
  | [version; inst; access; refresh] =>
      if bool_decide (version = METADATA_VERSION) && valid_instance inst && valid_token access && valid_token refresh
      then Ok {| mt_instance := inst; mt_access_token := access; mt_refresh_token := refresh |}
      else Err (SignInCorrupt "material")
  | _ => Err (SignInCorrupt "material")
  end.

(** [Metadata::needs_renewal] and [Metadata::standing]. *)
Definition needs_renewal (m : Metadata) (now : Z) : bool := me_token_expires_at m <=? u64_saturating_add now RENEW_WITHIN_SECS.
Definition standing (m : Metadata) (now : Z) : Standing :=
  if now <? me_token_expires_at m then StLive else if now <? me_refresh_expires_at m then StRenewsAtProxy else StLapsed.

(** ** The keychain *)

Class SignInWorld (W : Type) := {
  kc_metadata : W -> W * result SignInError (option Metadata);
  kc_material : W -> W * result SignInError (option Material);
  kc_write : W -> Metadata -> Material -> W * result SignInError ();
  kc_update : W -> Metadata -> Material -> W * result SignInError Updated;
  tk_refresh : W -> SignInFlow -> string -> W * result RefreshError Refreshed;
  new_instance_id : W -> W * result SignInError string;
}.

Section world.
Context {W : Type} `{SignInWorld W}.

(** [Keychain::update], the default. *)
Definition default_update (w : W) (metadata : Metadata) (material : Material) : W * result SignInError Updated :=
  let '(w, held) := kc_metadata w in
  match held with
  | Err e => (w, Err e)
  | Ok (Some held) =>
      if bool_decide (me_instance held = me_instance metadata) then
        let '(w, r) := kc_write w metadata material in
        (w, match r with Ok _ => Ok UpWritten | Err e => Err e end)
      else (w, Ok UpGone)
  | Ok None => (w, Ok UpGone)
  end.

(** [renew]. *)
Definition renew (w : W) (inst : string) (now : Z) : W * result RenewError Resolved :=
  let '(w, held) := kc_metadata w in
  match held with
  | Err _ => (w, Err ReSignInRequired)
  | Ok None => (w, Err ReGone)
  | Ok (Some metadata) =>
      if negb (bool_decide (me_instance metadata = inst)) then (w, Err ReGone)
      else
        let '(w, held) := kc_material w in
        match held with
        | Err _ => (w, Err ReSignInRequired)
        | Ok None => (w, Err ReGone)
        | Ok (Some material) =>
            if negb (bool_decide (mt_instance material = inst)) then (w, Err ReGone)
            else
              let held failed := {| rs_token := mt_access_token material; rs_renewed := false; rs_failed := failed |} in
              let keep := if now <? me_token_expires_at metadata then Ok (held true) else Err ReSignInRequired in
              if negb (needs_renewal metadata now) then (w, Ok (held false))
              else if me_refresh_expires_at metadata <=? now then (w, keep)
              else
                let '(w, answer) := tk_refresh w (me_flow metadata) (mt_refresh_token material) in
                match answer with
                | Err _ => (w, keep)
                | Ok refreshed =>
                    let renewed_metadata :=
                      {| me_account := me_account metadata; me_instance := me_instance metadata; me_flow := me_flow metadata;
                         me_token_expires_at := u64_saturating_add now (rf_expires_in refreshed);
                         me_refresh_expires_at := u64_saturating_add now (rf_refresh_token_expires_in refreshed) |} in
                    let renewed_material :=
                      {| mt_instance := inst; mt_access_token := rf_access_token refreshed; mt_refresh_token := rf_refresh_token refreshed |} in
                    let '(w, r) := kc_update w renewed_metadata renewed_material in
                    (w, match r with
                        | Ok UpWritten => Ok {| rs_token := mt_access_token renewed_material; rs_renewed := true; rs_failed := false |}
                        | Ok UpGone => Err ReGone
                        | Err _ => Err ReNotSaved
                        end)
                end
        end
  end.

(** [store_sign_in]. *)
Definition store_sign_in (w : W) (completed : Completed) : W * result SignInError StoredSignIn :=
  if negb (valid_account (cp_account completed)) then (w, Err AccountForm)
  else
    let '(w, held) := kc_metadata w in
    match (match held with Ok held => Ok held | Err (SignInCorrupt _) => Ok None | Err e => Err e end) with
    | Err e => (w, Err e)
    | Ok held =>
        let '(w, id) :=
          match held with
          | Some held => if bool_decide (me_account held = cp_account completed) then (w, Ok (me_instance held, false))
                         else let '(w, r) := new_instance_id w in (w, match r with Ok i => Ok (i, true) | Err e => Err e end)
          | None => let '(w, r) := new_instance_id w in (w, match r with Ok i => Ok (i, true) | Err e => Err e end)
          end in
        match id with
        | Err e => (w, Err e)
        | Ok (inst, new_instance) =>
            let metadata := {| me_account := cp_account completed; me_instance := inst; me_flow := cp_flow completed;
                               me_token_expires_at := cp_token_expires_at completed; me_refresh_expires_at := cp_refresh_expires_at completed |} in
            let '(w, r) := kc_write w metadata (cp_material completed) in
            (w, match r with Ok _ => Ok {| st_metadata := metadata; st_new_instance := new_instance |} | Err e => Err e end)
        end
    end.

(** ** What a renewal gives *)

(** A token a renewal gives is the held token of that instance, not past its
    expiry, or one the endpoint just gave that was saved to the item of that
    instance first. *)
Lemma renew_spec w inst now w' resolved : renew w inst now = (w', Ok resolved) ->
  exists w0 metadata w1 material, kc_metadata w = (w0, Ok (Some metadata)) /\ me_instance metadata = inst /\
    kc_material w0 = (w1, Ok (Some material)) /\ mt_instance material = inst /\
    ((rs_renewed resolved = false /\ rs_token resolved = mt_access_token material /\
      (now < me_token_expires_at metadata \/ needs_renewal metadata now = false)) \/
     (rs_renewed resolved = true /\ rs_failed resolved = false /\ exists w2 refreshed md mt w3,
        tk_refresh w1 (me_flow metadata) (mt_refresh_token material) = (w2, Ok refreshed) /\
        kc_update w2 md mt = (w3, Ok UpWritten) /\ me_instance md = inst /\ mt_instance mt = inst /\
        mt_access_token mt = rf_access_token refreshed /\ rs_token resolved = rf_access_token refreshed)).
Proof.
  unfold renew. destruct (kc_metadata w) as [w0 [[metadata|]|]] eqn:Em; [|done|done].
  case_bool_decide as Hi; [|done]. cbn [negb]. destruct (kc_material w0) as [w1 [[material|]|]] eqn:Et; [|done|done].
  case_bool_decide as Hm; [|done]. cbn [negb]. intros Hr. exists w0, metadata, w1, material. repeat (split; [done|]).
  destruct (needs_renewal metadata now) eqn:En; cbn [negb] in Hr; [|injection Hr as _ <-; left; by repeat split; [..|right]].
  assert (forall w2, (w2, if now <? me_token_expires_at metadata then Ok {| rs_token := mt_access_token material; rs_renewed := false; rs_failed := true |}
                       else Err ReSignInRequired) = (w', Ok resolved) ->
          rs_renewed resolved = false /\ rs_token resolved = mt_access_token material /\
          (now < me_token_expires_at metadata \/ true = false)) as Hkeep.
  { intros w2. destruct (Z.ltb_spec now (me_token_expires_at metadata)); [|done]. intros [= _ <-]. cbn. auto. }
  destruct (me_refresh_expires_at metadata <=? now); [left; by eapply Hkeep|].
  destruct (tk_refresh _ _ _) as [w2 [refreshed|]] eqn:Er; [|left; by eapply Hkeep].
  destruct (kc_update _ _ _) as [w3 [[]|]] eqn:Eu; [|done|done]. injection Hr as _ <-. right. cbn.
  repeat (split; [done|]). eexists w2, refreshed, _, _, w3. split; [done|]. split; [exact Eu|]. by cbn.
Qed.
End world.

(** ** The stored forms read back *)

Record metadata_valid (m : Metadata) : Prop := {
  mv_account : valid_account (me_account m) = true;
  mv_instance : valid_instance (me_instance m) = true;
  mv_token : 0 <= me_token_expires_at m <= u64_MAX;
  mv_refresh : 0 <= me_refresh_expires_at m <= u64_MAX;
}.

Lemma str_all_impl (p q : ascii -> bool) s : (forall c, p c = true -> q c = true) -> str_all p s = true -> str_all q s = true.
Proof. intros Hpq. induction s as [|c s IH]; [done|]. cbn. intros [Hc Hs]%andb_prop. by rewrite (Hpq c Hc), (IH Hs). Qed.

(** A decision on one character, over all 256. *)
Lemma ascii_check (p : ascii -> bool) : forallb (fun n => p (ascii_of_nat n)) (seq 0 256) = true -> forall c, p c = true.
Proof.
  intros Hp c. rewrite forallb_forall in Hp. rewrite <- (ascii_nat_embedding c). apply Hp, in_seq. pose proof (nat_ascii_bounded c). lia.
Qed.
Lemma ascii_impl (p q : ascii -> bool) :
  forallb (fun n => implb (p (ascii_of_nat n)) (q (ascii_of_nat n))) (seq 0 256) = true -> forall c, p c = true -> q c = true.
Proof. intros Hp c Hc. pose proof (ascii_check (fun c => implb (p c) (q c)) Hp c) as H. cbn in H. by rewrite Hc in H. Qed.

Lemma valid_account_word a : valid_account a = true -> is_word a.
Proof.
  intros [[Hne%negb_true_iff%bool_decide_eq_false _]%andb_prop Ha]%andb_prop. split; [done|].
  revert Ha. apply str_all_impl, ascii_impl. by vm_compute.
Qed.
Lemma valid_instance_word i : valid_instance i = true -> is_word i.
Proof.
  intros [Hlen%Z.eqb_eq Hi]%andb_prop. split; [intros ->; done|]. revert Hi. apply str_all_impl, ascii_impl. by vm_compute.
Qed.
Lemma valid_token_word t : valid_token t = true -> is_word t.
Proof.
  intros [Hne%negb_true_iff%bool_decide_eq_false Ht]%andb_prop. split; [done|].
  revert Ht. apply str_all_impl, ascii_impl. by vm_compute.
Qed.
Lemma field_word (k v : string) : str_all is_plain k = true -> is_word v -> is_word (k ++ v)%string.
Proof.
  intros Hk [Hne Hv]. split; [by destruct k|]. by rewrite str_all_app, Hk, Hv.
Qed.

(** What the keychain stores of a sign-in reads back as that sign-in: its
    metadata, and the secret under the instance of the metadata. *)
Theorem sign_in_reads_back m : metadata_valid m ->
  metadata_decode (metadata_encode m) = Ok m /\
  (forall material s, encode_secret m material = Ok s ->
     decode_secret s = Ok {| mt_instance := me_instance m; mt_access_token := mt_access_token material; mt_refresh_token := mt_refresh_token material |}).
Proof.
  intros [Ha Hi Ht Hr]. split.
  - assert (metadata_encode m = foldl (fun s w => s ++ " " ++ w)%string METADATA_VERSION
      ["account=" ++ me_account m; "instance=" ++ me_instance m; "flow=" ++ flow_as_str (me_flow m);
       "token_expires_at=" ++ show_u64 (me_token_expires_at m); "refresh_expires_at=" ++ show_u64 (me_refresh_expires_at m)]%string) as ->.
    { unfold metadata_encode. cbn [foldl]. rewrite !string_app_assoc. done. }
    unfold metadata_decode. rewrite split_whitespace_words.
    2:{ repeat constructor; try done; apply field_word; try done; [by apply valid_account_word|by apply valid_instance_word|by destruct (me_flow m)|apply pretty_word; lia..]. }
    rewrite bool_decide_true by done. cbn [negb meta_parts].
    change (split_once "=" ("account=" ++ me_account m)) with (Some ("account"%string, me_account m)).
    change (split_once "=" ("instance=" ++ me_instance m)) with (Some ("instance"%string, me_instance m)).
    change (split_once "=" ("flow=" ++ flow_as_str (me_flow m))) with (Some ("flow"%string, flow_as_str (me_flow m))).
    change (split_once "=" ("token_expires_at=" ++ show_u64 (me_token_expires_at m))) with (Some ("token_expires_at"%string, show_u64 (me_token_expires_at m))).
    change (split_once "=" ("refresh_expires_at=" ++ show_u64 (me_refresh_expires_at m))) with (Some ("refresh_expires_at"%string, show_u64 (me_refresh_expires_at m))).
    unfold meta_none, meta_field, show_u64. cbn [bool_decide decide_rel]. rewrite !parse_uint_pretty by done.
    assert (flow_parse (flow_as_str (me_flow m)) = Some (me_flow m)) as Ef by (by destruct (me_flow m)).
    vm_compute bool_decide. rewrite Ef. cbn. rewrite Ha, Hi. cbn. by destruct m.
  - intros material s. unfold encode_secret. destruct (valid_token (mt_access_token material)) eqn:Hat; [|done].
    destruct (valid_token (mt_refresh_token material)) eqn:Hrt; [|done]. cbn [negb orb]. intros [= Hs].
    assert (s = foldl (fun s w => s ++ " " ++ w)%string METADATA_VERSION
      [me_instance m; mt_access_token material; mt_refresh_token material]) as -> by (subst s; cbn [foldl]; by rewrite !string_app_assoc).
    unfold decode_secret.
    rewrite split_whitespace_words.
    2:{ repeat apply Forall_cons_2; [done|by apply valid_instance_word|by apply valid_token_word|by apply valid_token_word|constructor]. }
    by rewrite bool_decide_true, Hi, Hat, Hrt by done.
Qed.
