(* ===== verification/StoreRules.v ===== *)
(** * The secret-store rules (crates/client-config/src/store_rules.rs)

    The rules that say where a stored secret may be sent: each is checked
    against a deny set, the user's are merged over the organization's
    (crates/client-config/src/config.rs), and the proxy holds the result
    (crates/bep/src/handle.rs, crates/bep/src/main.rs). *)

From stdpp Require Import base list gmap strings numbers sorting.
From Stdlib Require Import ZArith Lia Ascii.
From S2P Require Import Prelude Text Bytes Envelope Handle SignIn.
Open Scope Z_scope.

Definition DENIED_HEADERS : list string :=
  ["host"; ":authority"; "cookie"; "transfer-encoding"; "connection"; "upgrade"]%string.

Inductive StoreAction : Type := SaAllow | SaAsk | SaDeny.
#[global] Instance StoreAction_eq_dec : EqDecision StoreAction.
Proof. solve_decision. Defined.

Record StoreRuleConfig : Type := {
  src_store : option string;
  src_upstream : list string;
  src_header : option string;
  src_prefix : option string;
  src_basic_auth : option string;
  src_action : option StoreAction;
}.
Record StoreDenySet : Type := { sd_module_hosts : list string; sd_infrastructure : list string; sd_sign_in_items : list string }.
Inductive StoreRuleRefusal : Type :=
| SrModuleHost (host : string)
| SrMinimalInfrastructure (host entry : string)
| SrDeniedHeader (header : string)
| SrSignInItem
| SrMalformed (field value : string)
| SrIncomplete.
Record StoreRuleRefused : Type := { srr_rule : string; srr_file : string; srr_reason : StoreRuleRefusal }.

(** ** Hosts *)

Definition str_eq_ignore_case (a b : string) : bool := bool_decide (to_ascii_lowercase a = to_ascii_lowercase b).
Definition str_starts_with (p s : string) : bool := bool_decide (is_Some (strip_prefix p s)).
Definition str_ends_with (p s : string) : bool := bool_decide (is_Some (strip_suffix p s)).

(** [normalize_host] and [authority_host]. *)
Definition normalize_host (host : string) : string := to_ascii_lowercase (trim_end_matches "."%char host).
Definition authority_host (authority : string) : string :=
  normalize_host (match rsplit_once ":"%char authority with
                  | Some (host, port) => if str_all is_ascii_digit port then host else authority
                  | None => authority
                  end).

(** [is_numeric_label] and [is_plain_authority]. *)
Definition is_numeric_label (label : string) : bool :=
  let l := to_ascii_lowercase label in
  match strip_prefix "0x" l with
  | Some hex => str_all is_ascii_hexdigit hex
  | None => str_all is_ascii_digit l
  end.
Definition label_ok (label : string) : bool :=
  negb (bool_decide (label = EmptyString)) && str_all (fun c => is_ascii_alnum c || Ascii.eqb c "-") label.
Definition is_plain_authority (authority : string) : bool :=
  let '(host, port) := match split_once ":"%char authority with
                       | Some (host, port) => (host, Some port)
                       | None => (authority, None)
                       end in
  let labels := str_split "."%char (default host (strip_suffix "." host)) in
  let host_ok := forallb label_ok labels
                 && negb (match list.last labels with Some label => is_numeric_label label | None => false end) in
  let port_ok := match port with
                 | None => true
                 | Some p => in_range 1 5 (Z.of_nat (String.length p)) && str_all is_ascii_digit p
                             && match parse_uint 65535 p with Some n => negb (n =? 0) | None => false end
                 end in
  host_ok && port_ok.

(** [is_http_token] and [is_within]. *)
Definition is_http_token (name : string) : bool :=
  negb (bool_decide (name = EmptyString))
  && str_all (fun c => is_ascii_alnum c || str_contains c "!#$%&'*+-.^_`|~") name.
Definition is_within (host domain : string) : bool :=
  let domain := normalize_host domain in
  bool_decide (host = domain) || str_ends_with ("." ++ domain) host.

(** ** Checking a rule *)

(** [StoreDenySet::is_sign_in_item]. *)
Definition is_sign_in_item (deny : StoreDenySet) (id : string) : bool :=
  existsb (fun item => str_eq_ignore_case item id) (sd_sign_in_items deny).

(** The loop of [store_rule_refusal] over the upstreams. *)
Definition upstream_refusal (deny : StoreDenySet) (written : string) : option StoreRuleRefusal :=
  let host := authority_host written in
  if negb (is_plain_authority written) then Some (SrMalformed "upstream" written)
  else if existsb (is_within host) (sd_module_hosts deny) then Some (SrModuleHost written)
  else option_map (SrMinimalInfrastructure written) (List.find (is_within host) (sd_infrastructure deny)).
Fixpoint first_some {A B} (f : A -> option B) (l : list A) : option B :=
  match l with
  | [] => None
  | a :: l => match f a with Some b => Some b | None => first_some f l end
  end.
Definition header_refusal (header : string) : option StoreRuleRefusal :=
  let l := to_ascii_lowercase (trim header) in
  if bool_decide (l ∈ DENIED_HEADERS) || str_starts_with "proxy-" l then Some (SrDeniedHeader header)
  else if negb (is_http_token header) then Some (SrMalformed "header" header)
  else None.
Definition prefix_refusal (prefix : string) : option StoreRuleRefusal :=
  if negb (str_all (fun c => Ascii.eqb c " " || (nat_of_ascii c =? 9)%nat || is_plain c) prefix)
  then Some (SrMalformed "prefix" prefix) else None.
Definition basic_refusal (field : string) : option StoreRuleRefusal :=
  if negb (bool_decide (field = "user"%string) || bool_decide (field = "password"%string))
  then Some (SrMalformed "basic_auth" field) else None.
Definition incomplete (rule : StoreRuleConfig) : bool :=
  let forms := (Nat.b2n (bool_decide (is_Some (src_header rule))) + Nat.b2n (bool_decide (is_Some (src_basic_auth rule))))%nat in
  bool_decide (src_upstream rule = []) || negb (forms =? 1)%nat
  || (bool_decide (is_Some (src_prefix rule)) && negb (bool_decide (is_Some (src_header rule)))).

(** [store_rule_refusal]. *)
Definition or_refuse (a b : option StoreRuleRefusal) : option StoreRuleRefusal := match a with Some r => Some r | None => b end.
Definition store_rule_refusal (id : string) (rule : StoreRuleConfig) (deny : StoreDenySet) : option StoreRuleRefusal :=
  if is_sign_in_item deny id then Some SrSignInItem
  else or_refuse (first_some (upstream_refusal deny) (src_upstream rule))
        (or_refuse (h ← src_header rule; header_refusal h)
          (or_refuse (p ← src_prefix rule; prefix_refusal p)
            (or_refuse (f ← src_basic_auth rule; basic_refusal f)
              (if incomplete rule then Some SrIncomplete else None)))).

Notation StoreRules := (gmap string StoreRuleConfig).

(** [check_store_rules]. *)
Definition accepted_rules (rules : StoreRules) (deny : StoreDenySet) : StoreRules :=
  filter (fun e => store_rule_refusal e.1 e.2 deny = None) rules.
Definition check_store_rules (rules : StoreRules) (file : string) (deny : StoreDenySet) : StoreRules * list StoreRuleRefused :=
  (accepted_rules rules deny,
   filter_map (fun e => option_map (fun reason => {| srr_rule := e.1; srr_file := file; srr_reason := reason |})
                          (store_rule_refusal e.1 e.2 deny)) (btree_iter rules)).

Inductive StoreConsent : Type := ScAllow | ScAsk | ScDeny.
(** [store_consent]. *)
Definition store_consent (rule : StoreRuleConfig) (tty : bool) : StoreConsent :=
  match src_action rule with
  | None | Some SaAllow => ScAllow
  | Some SaDeny => ScDeny
  | Some SaAsk => if tty then ScAsk else ScDeny
  end.

(** ** Merging two files *)

Definition action_rank (action : option StoreAction) : Z :=
  match action with None | Some SaAllow => 0 | Some SaAsk => 1 | Some SaDeny => 2 end.
Definition set_action (rule : StoreRuleConfig) (action : option StoreAction) : StoreRuleConfig :=
  {| src_store := src_store rule; src_upstream := src_upstream rule; src_header := src_header rule; src_prefix := src_prefix rule;
     src_basic_auth := src_basic_auth rule; src_action := action |}.
(** The stricter action of a rule and the one that bounds it. *)
Definition raise_action (floor : option StoreRuleConfig) (rule : StoreRuleConfig) : StoreRuleConfig :=
  match floor with
  | Some f => if action_rank (src_action rule) <? action_rank (src_action f) then set_action rule (src_action f) else rule
  | None => rule
  end.

(** [merge_store_rules], [keep_read_actions] and [deny_refused_items]; the
    loops visit each key once. *)
Definition merge_store_rules (org user : StoreRules) : StoreRules :=
  map_imap (fun item rule => Some (raise_action (org !! item) rule)) user ∪ org.
Definition keep_read_actions (read merged : StoreRules) : StoreRules :=
  map_imap (fun item rule => Some (raise_action (read !! item) rule)) merged.
Definition deny_rule (rule : StoreRuleConfig) : StoreRuleConfig :=
  {| src_store := src_store rule; src_upstream := []; src_header := None; src_prefix := None; src_basic_auth := None; src_action := Some SaDeny |}.
Definition deny_refused_items (reads : list StoreRules) (merged : StoreRules) : StoreRules :=
  foldl (fun merged read => merged ∪ (deny_rule <$> read)) merged reads.

(** The rules [read_client_store_rules] merges from what the two files hold. *)
Definition client_store_rules (org_read user_read : StoreRules) (org_file user_file : string) (deny : StoreDenySet)
    : StoreRules * list StoreRuleRefused :=
  let '(org_rules, refused) := check_store_rules org_read org_file deny in
  let '(user_rules, user_refused) := check_store_rules user_read user_file deny in
  let merged := merge_store_rules org_rules user_rules in
  let merged := keep_read_actions org_read merged in
  let merged := keep_read_actions user_read merged in
  (deny_refused_items [org_read; user_read] merged, refused ++ user_refused).

(** ** The proxy's form *)

Definition NATIVE_STORE : string := "keychain".
(** [StoreRule::from_config]. *)
Definition from_config (id : string) (rule : StoreRuleConfig) : option StoreRule :=
  if bool_decide (src_action rule = Some SaDeny) then None
  else
    inj ← match src_header rule, src_basic_auth rule with
          | Some name, None => Some (InjHeader name (src_prefix rule))
          | None, Some field => Some (InjBasicAuth field)
          | _, _ => None
          end;
    Some {| sru_store := default NATIVE_STORE (src_store rule); sru_id := id; sru_upstream := src_upstream rule; sru_inject := inj |}.

Definition DENY_SET : list string := ["min.internal"; "minimal.dev"; "cache.gominimal.dev"; "minimal.farm"]%string.
(** The deny set [store_rules_in] of the proxy checks with, and the rules it
    serves with. *)
Definition proxy_deny : StoreDenySet :=
  {| sd_module_hosts := map au_host (md_hosts GITHUB); sd_infrastructure := DENY_SET; sd_sign_in_items := [SIGNIN_SERVICE; META_SERVICE] |}.
Definition store_rules_in (org_read user_read : StoreRules) (org_file user_file : string) : list StoreRule :=
  filter_map (fun e => from_config e.1 e.2) (btree_iter (client_store_rules org_read user_read org_file user_file proxy_deny).1).

(** ** What an accepted rule names *)

(** A host the deny set covers, in the form every comparison uses. *)
Definition covered_host (deny : StoreDenySet) (host : string) : Prop :=
  exists d, d ∈ sd_module_hosts deny ++ sd_infrastructure deny /\ is_within (normalize_host host) d = true.

Lemma first_some_none {A B} (f : A -> option B) l : first_some f l = None <-> forall a, a ∈ l -> f a = None.
Proof.
  induction l as [|x l IH]; cbn; [set_solver|]. destruct (f x) eqn:Ex.
  - split; [done|]. intros Hl. specialize (Hl x (list_elem_of_here _ _)). congruence.
  - rewrite IH. split; [intros Hl a [->|Ha]%elem_of_cons; auto|intros Hl a Ha; apply Hl; by right].
Qed.

Lemma rule_accepted id rule deny : store_rule_refusal id rule deny = None ->
  is_sign_in_item deny id = false /\ (forall u, u ∈ src_upstream rule -> upstream_refusal deny u = None) /\
  (forall h, src_header rule = Some h -> header_refusal h = None) /\ incomplete rule = false.
Proof.
  unfold store_rule_refusal. destruct (is_sign_in_item deny id); [done|]. unfold or_refuse.
  destruct (first_some _ _) eqn:Eu; [done|]. destruct (src_header rule) as [h|] eqn:Eh; cbn [mbind option_bind].
  - destruct (header_refusal h) eqn:Ehr; [done|]. destruct (src_prefix rule ≫= _); [done|]. destruct (src_basic_auth rule ≫= _); [done|].
    destruct (incomplete rule); [done|]. intros _. split; [done|]. split; [by apply first_some_none|]. split; [naive_solver|done].
  - destruct (src_prefix rule ≫= _); [done|]. destruct (src_basic_auth rule ≫= _); [done|].
    destruct (incomplete rule); [done|]. intros _. split; [done|]. split; [by apply first_some_none|]. split; [naive_solver|done].
Qed.

(** Two rules that differ in their action at most. *)
Definition same_form (a b : StoreRuleConfig) : Prop :=
  src_store a = src_store b /\ src_upstream a = src_upstream b /\ src_header a = src_header b /\
  src_prefix a = src_prefix b /\ src_basic_auth a = src_basic_auth b.
#[global] Instance same_form_equiv : Equivalence same_form.
Proof. unfold same_form. split; [done|intros ??; naive_solver|]. intros a b c (? & ? & ? & ? & ?) (? & ? & ? & ? & ?). repeat split; congruence. Qed.

Lemma raise_action_form floor rule : same_form (raise_action floor rule) rule.
Proof. unfold raise_action. destruct floor as [f|]; [|done]. by destruct (_ <? _). Qed.
Lemma raise_action_above floor rule : action_rank (src_action rule) <= action_rank (src_action (raise_action floor rule)).
Proof. unfold raise_action. destruct floor as [f|]; [|done]. destruct (Z.ltb_spec (action_rank (src_action rule)) (action_rank (src_action f))); cbn; lia. Qed.
Lemma raise_action_floor f rule : action_rank (src_action f) <= action_rank (src_action (raise_action (Some f) rule)).
Proof. unfold raise_action. destruct (Z.ltb_spec (action_rank (src_action rule)) (action_rank (src_action f))); cbn; lia. Qed.

(** An entry of the merged rules comes from a rule the check accepted, the
    user's before the organization's, with an action no weaker than in
    either file; or it denies. *)
Definition merged_from (org user : StoreRules) (deny : StoreDenySet) (id : string) (rule : StoreRuleConfig) : Prop :=
  src_action rule = Some SaDeny \/
  exists base, (accepted_rules user deny ∪ accepted_rules org deny) !! id = Some base /\ same_form rule base /\
    forall read, read ∈ [org; user] -> forall r, read !! id = Some r -> action_rank (src_action r) <= action_rank (src_action rule).

Lemma client_rules_merged org user org_file user_file deny id rule :
  (client_store_rules org user org_file user_file deny).1 !! id = Some rule -> merged_from org user deny id rule.
Proof.
  unfold client_store_rules, deny_refused_items, keep_read_actions, merge_store_rules. cbn [foldl fst check_store_rules].
  set (ao := accepted_rules org deny). set (au := accepted_rules user deny). intros E.
  rewrite !lookup_union, !lookup_fmap, !map_lookup_imap in E. rewrite !lookup_union, !map_lookup_imap in E.
  unfold merged_from. rewrite lookup_union. fold ao au.
  destruct (au !! id) as [u|] eqn:Eu; destruct (ao !! id) as [o|] eqn:Eo; cbn [mbind option_bind union option_union_with union_with] in E.
  all: rewrite ?lookup_union, ?Eu, ?Eo in E; cbn in E.
  4: { left. destruct (org !! id), (user !! id); cbn in E; naive_solver. }
  all: right; rewrite ?Eu, ?Eo; eexists; split; [reflexivity|].
  all: match goal with |- same_form _ ?b /\ _ => assert (exists r0, rule = raise_action (user !! id) (raise_action (org !! id) r0) /\ same_form r0 b) as (r0 & -> & Hf) end;
    [destruct (org !! id), (user !! id); cbn in E; injection E as <-; eexists; (split; [reflexivity|]); first [reflexivity|apply (raise_action_form (Some o))]|].
  all: split; [by rewrite !raise_action_form|].
  all: intros read Hread r Er; apply elem_of_cons in Hread as [->|Hread];
    [rewrite Er; etrans; [apply raise_action_floor|apply raise_action_above]
    |apply list_elem_of_singleton in Hread as ->; rewrite Er; apply raise_action_floor].
Qed.

Lemma digits_no_colon p : str_all is_ascii_digit p = true -> str_contains ":"%char p = false.
Proof.
  induction p as [|c p IH]; [done|]. cbn. intros [Hc Hp]%andb_true_iff. rewrite IH by done.
  case_bool_decide as E; [|done]. by subst.
Qed.
Lemma normalize_lower h : normalize_host (to_ascii_lowercase h) = normalize_host h.
Proof. unfold normalize_host. by rewrite trim_dots_lower, to_lower_idem. Qed.

(** The host the proxy connects to is the host the check judged. *)
Lemma plain_authority_host u a : is_plain_authority u = true -> parse_authority u = Some a -> normalize_host (au_host a) = authority_host u.
Proof.
  unfold is_plain_authority, parse_authority, authority_host. destruct (split_once ":" u) as [[h p]|] eqn:E.
  - intros [_ [[_ Hd]%andb_true_iff _]%andb_true_iff]%andb_true_iff. apply split_once_Some in E as [-> _].
    rewrite rsplit_once_app, Hd by (by apply digits_no_colon). cbn. destruct (parse_uint 65535 p); [|done]. cbn.
    case_bool_decide; [done|]. intros [= <-]. apply normalize_lower.
  - intros _. rewrite rsplit_once_None by (by apply split_once_None). cbn. case_bool_decide; [done|]. intros [= <-]. apply normalize_lower.
Qed.

Lemma upstream_uncovered deny u a : upstream_refusal deny u = None -> parse_authority u = Some a -> ~ covered_host deny (au_host a).
Proof.
  unfold upstream_refusal. destruct (is_plain_authority u) eqn:Ep; [|done]. cbn [negb]. destruct (existsb _ _) eqn:Em; [done|].
  destruct (List.find _ _) eqn:Ei; [done|]. intros _ Ha (d & Hd & Hw). rewrite (plain_authority_host u a) in Hw by done.
  apply elem_of_app in Hd as [Hd|Hd]; apply list_elem_of_In in Hd.
  - enough (existsb (is_within (authority_host u)) (sd_module_hosts deny) = true) by congruence. apply existsb_exists. eauto.
  - pose proof (List.find_none _ _ Ei d Hd). congruence.
Qed.

(** What every rule the proxy serves with satisfies. *)
Record rule_served (org user : StoreRules) (r : StoreRule) : Prop := {
  rs_base : exists base, (accepted_rules user proxy_deny ∪ accepted_rules org proxy_deny) !! sru_id r = Some base /\
    sru_store r = default NATIVE_STORE (src_store base) /\ sru_upstream r = src_upstream base /\ sru_upstream r <> [] /\
    (forall name prefix, sru_inject r = InjHeader name prefix <-> src_header base = Some name /\ prefix = src_prefix base) /\
    (forall f, sru_inject r = InjBasicAuth f <-> src_basic_auth base = Some f);
  rs_hosts : forall u a, u ∈ sru_upstream r -> parse_authority u = Some a -> ~ covered_host proxy_deny (au_host a);
  rs_header : forall name prefix, sru_inject r = InjHeader name prefix ->
    is_http_token name = true /\ to_ascii_lowercase (trim name) ∉ DENIED_HEADERS /\ str_starts_with "proxy-" (to_ascii_lowercase (trim name)) = false;
  rs_item : is_sign_in_item proxy_deny (sru_id r) = false;
  rs_consent : forall read, read ∈ [org; user] -> forall c, read !! sru_id r = Some c -> src_action c <> Some SaDeny;
}.

Lemma header_accepted h : header_refusal h = None ->
  is_http_token h = true /\ to_ascii_lowercase (trim h) ∉ DENIED_HEADERS /\ str_starts_with "proxy-" (to_ascii_lowercase (trim h)) = false.
Proof.
  unfold header_refusal. case_bool_decide as Hd; [done|]. cbn [orb]. destruct (str_starts_with _ _); [done|].
  by destruct (is_http_token h).
Qed.

Lemma rules_in_served org user org_file user_file r :
  r ∈ store_rules_in org user org_file user_file -> rule_served org user r.
Proof.
  unfold store_rules_in. intros Hr. apply elem_of_filter_map in Hr as ([id rule] & Hin & Hc). cbn [fst snd] in Hc.
  apply elem_of_btree_iter in Hin. apply client_rules_merged in Hin. unfold from_config in Hc. case_bool_decide as Hdeny; [done|].
  destruct Hin as [?|(base & Hb & (Es & Eu & Eh & Ep & Eb) & Hacts)]; [done|].
  assert (store_rule_refusal id base proxy_deny = None) as Hok.
  { apply lookup_union_Some_raw in Hb as [Hb|[_ Hb]]; apply map_lookup_filter_Some in Hb; apply Hb. }
  apply rule_accepted in Hok as (Hitem & Hups & Hhead & Hinc).
  assert (sru_id r = id /\ sru_store r = default NATIVE_STORE (src_store base) /\ sru_upstream r = src_upstream base) as (Eid & Est & Eup).
  { rewrite <- Es, <- Eu. destruct (src_header rule), (src_basic_auth rule); cbn in Hc; naive_solver. }
  assert ((forall name prefix, sru_inject r = InjHeader name prefix <-> src_header base = Some name /\ prefix = src_prefix base) /\
    (forall f, sru_inject r = InjBasicAuth f <-> src_basic_auth base = Some f)) as [Hinjh Hinjb].
  { rewrite <- Eh, <- Ep, <- Eb. destruct (src_header rule), (src_basic_auth rule); cbn in Hc; try done; injection Hc as <-; cbn; naive_solver. }
  split.
  - exists base. rewrite Eid. repeat (split; [done|]). split; [|done]. rewrite Eup. intros E. unfold incomplete in Hinc.
    rewrite E in Hinc. by rewrite bool_decide_true in Hinc.
  - rewrite Eup. intros u a Hu. apply upstream_uncovered. by apply Hups.
  - intros name prefix [Eh' _]%Hinjh. by apply header_accepted, Hhead.
  - by rewrite Eid.
  - rewrite Eid. intros read Hread c Hl Ea. specialize (Hacts read Hread c Hl). rewrite Ea in Hacts. cbn in Hacts.
    destruct (src_action rule) as [[]|]; cbn in Hacts; [lia|lia|done|lia].
Qed.

(** Every rule the proxy serves with comes from a rule one of the two files
    holds and the check accepts, the user's before the organization's; no
    authority it names is at a host of a credential module or of Minimal's
    own infrastructure, in whatever case or with whatever trailing dots it is
    written; it sets no connection or proxy header, reads no sign-in item,
    and neither file denies the item. *)
Theorem store_rules_confined org user org_file user_file :
  Forall (rule_served org user) (store_rules_in org user org_file user_file).
Proof. apply list.Forall_forall. intros r. apply rules_in_served. Qed.
