(* ===== verification/AuditChain.v ===== *)
(** * Audit records and their hash chain (crates/bep/src/audit.rs)

    What a record of the proxy's audit log holds, the line it is written as,
    and the check of the chain over the lines of one segment, on bytes as the
    code does it.  The JSON writer and reader are an interface with the
    behaviour that the code relies on: one object, compact, the fields in
    declaration order, control characters escaped. *)

From stdpp Require Import base list sets strings numbers.
From Stdlib Require Import ZArith Lia Ascii.
From S2P Require Import Prelude Text Bytes.
Open Scope Z_scope.

(** ** Decisions and records *)

Inductive AuditKind : Type := KDecision | KMint | KRevocation.
#[global] Instance AuditKind_eq_dec : EqDecision AuditKind.
Proof. solve_decision. Defined.
Inductive AuditOutcome : Type := OutAdmit | OutRefuse.
#[global] Instance AuditOutcome_eq_dec : EqDecision AuditOutcome.
Proof. solve_decision. Defined.
Inductive Mapping : Type := Mapped (resource permission : string) | ModuleUnmapped.

(** [Decision]. *)
Record AuditDecision : Type := {
  ad_kind : AuditKind;
  ad_box_id : string;
  ad_authority : string;
  ad_identifier : option string;
  ad_jti : string;
  ad_mapping : Mapping;
  ad_outcome : AuditOutcome;
  ad_marker : option string;
}.

(** [covers] of crates/bep/src/revoke.rs. *)
Definition covers (revoked : list string) (box_id : string) : bool := existsb (fun named => bool_decide (named = box_id)) revoked.
Lemma covers_elem revoked box_id : covers revoked box_id = true <-> box_id ∈ revoked.
Proof.
  unfold covers. rewrite existsb_exists. setoid_rewrite bool_decide_eq_true. split; [intros (x & Hx%list_elem_of_In & ->); done|].
  intros Hx%list_elem_of_In. eauto.
Qed.

(** [Record]. *)
Record AuditRecord : Type := {
  ar_schema : string;
  ar_kind : AuditKind;
  ar_subject : string;
  ar_act : string;
  ar_txn : string;
  ar_upstream : string;
  ar_identifier : string;
  ar_jti : string;
  ar_resource : string;
  ar_permission : string;
  ar_decision : AuditOutcome;
  ar_marker : option string;
  ar_previous_hash : string;
}.
#[global] Instance AuditRecord_eq_dec : EqDecision AuditRecord.
Proof. solve_decision. Defined.

(** [QuarantineRecord]. *)
Record QuarantineRecord : Type := {
  qr_schema : string;
  qr_kind : string;
  qr_segment : string;
  qr_from_hash : string;
  qr_final_hash : string;
  qr_unreadable : nat;
  qr_previous_hash : string;
}.
#[global] Instance QuarantineRecord_eq_dec : EqDecision QuarantineRecord.
Proof. solve_decision. Defined.

Definition SCHEMA : string := "min/v1/audit".
Definition NONE : string := "none".
Definition MODULE_UNMAPPED : string := "module_unmapped".
Definition MAX_FIELD_BYTES : nat := 512.
Definition CUT_MARKER : string := "…sha256:".
Definition ZERO_HASH : string := "0000000000000000000000000000000000000000000000000000000000000000".
Definition QUARANTINE : string := "quarantine".
Definition RESTATED : string := "quarantine_restated".
Definition KNOWN_KINDS : list string := ["decision"; "mint"; "revocation"]%string.
Definition QUOTED_FIELD (name : string) : list Z := [34] ++ bytes name ++ [34; 58; 34].
Definition PREVIOUS_HASH_FIELD : list Z := QUOTED_FIELD "previous_hash".
Definition RECORD_END : list Z := [34; 125].

Section hash.
Context `{Sha256}.

(** [line_hash], with [char::from_digit]. *)
Definition from_digit16 (d : Z) : Z := if d <? 10 then 48 + d else if d <? 16 then 87 + d else 48.
Definition line_hash (line : list Z) : string :=
  string_of (sha256 line ≫= fun b => [from_digit16 (Z.shiftr b 4); from_digit16 (Z.land b 15)]).

(** [str::is_char_boundary], and the walk of [bounded] back to one. *)
Definition is_char_boundary (s : string) (i : nat) : bool :=
  match i with
  | O => true
  | _ => match bytes s !! i with
         | Some b => negb (continuation b)
         | None => bool_decide (i = String.length s)
         end
  end.
Fixpoint floor_boundary (s : string) (i : nat) : nat :=
  if is_char_boundary s i then i else match i with O => O | S j => floor_boundary s j end.
Definition bounded (value : string) : string :=
  if (String.length value <=? MAX_FIELD_BYTES)%nat then value
  else
    let digest := line_hash (bytes value) in
    let cut := floor_boundary value (MAX_FIELD_BYTES - String.length CUT_MARKER - String.length digest) in
    (String.substring 0 cut value ++ CUT_MARKER ++ digest)%string.

(** [Record::from_decision]. *)
Definition from_decision (d : AuditDecision) (previous_hash : string) : AuditRecord :=
  let '(resource, permission) :=
    match ad_mapping d with
    | Mapped resource permission => (bounded resource, bounded permission)
    | ModuleUnmapped => (MODULE_UNMAPPED, MODULE_UNMAPPED)
    end in
  {| ar_schema := SCHEMA; ar_kind := ad_kind d; ar_subject := bounded (ad_box_id d); ar_act := EmptyString; ar_txn := EmptyString;
     ar_upstream := bounded (ad_authority d); ar_identifier := match ad_identifier d with None => NONE | Some i => bounded i end;
     ar_jti := bounded (ad_jti d); ar_resource := resource; ar_permission := permission; ar_decision := ad_outcome d;
     ar_marker := option_map bounded (ad_marker d); ar_previous_hash := previous_hash |}.

(** ** Lines *)

Definition is_lf (b : Z) : bool := b =? LF.
Definition cut_cr (line : list Z) : list Z := default line (strip_suffix_bytes [CR] line).
Definition nonempty_line (line : list Z) : bool := negb (bool_decide (line = [])).

(** [head_hash]. *)
Definition head_hash (contents : list Z) : string :=
  match List.find nonempty_line (map cut_cr (rev (split_byte LF contents))) with
  | None => ZERO_HASH
  | Some line => line_hash line
  end.

(** The length of the complete lines, and [complete_lines]. *)
Definition complete_len (bs : list Z) : nat := match rposition is_lf bs with Some n => S n | None => 0 end.
Definition complete_lines (bs : list Z) : list (list Z) :=
  List.filter nonempty_line (map cut_cr (split_byte LF (take (complete_len bs) bs))).

(** [carried_hash]. *)
Definition ends_with (suffix l : list Z) : bool := bool_decide (is_Some (strip_suffix_bytes suffix l)).
Definition carried_hash (line : list Z) : option (list Z) :=
  body ← strip_suffix_bytes RECORD_END line;
  if (length body <? 64)%nat then None
  else
    let split := (length body - 64)%nat in
    if ends_with PREVIOUS_HASH_FIELD (take split body) then Some (drop split body) else None.

(** ** The chain *)

Inductive ChainCheck : Type := Verified (head : option string) (records : nat) | Broken (record : nat).
#[global] Instance ChainCheck_eq_dec : EqDecision ChainCheck.
Proof. solve_decision. Defined.

(** [verify_lines_with]. *)
Fixpoint verify_lines_from {L K} `{EqDecision K} (carried : L -> option K) (hash : L -> K) (k : nat) (expected : option K) (lines : list L)
    : result nat (option K) :=
  match lines with
  | [] => Ok expected
  | line :: lines =>
      match carried line with
      | None => Err (S k)
      | Some found =>
          if match expected with Some hash => negb (bool_decide (hash = found)) | None => false end then Err (S k)
          else verify_lines_from carried hash (S k) (Some (hash line)) lines
      end
  end.
Definition verify_lines_with {L K} `{EqDecision K} (carried : L -> option K) (hash : L -> K) (start : option K) (lines : list L)
    : result nat (option K * nat) :=
  match verify_lines_from carried hash 0 start lines with
  | Ok head => Ok (head, length lines)
  | Err k => Err k
  end.

(** [verify_segment_with] at [line_hash], which is [verify_segment]. *)
Definition verify_segment (start : option string) (contents : list Z) : ChainCheck :=
  let complete := match rposition is_lf contents with Some n => take n contents | None => [] end in
  let lines := List.filter nonempty_line (map cut_cr (split_byte LF complete)) in
  match verify_lines_with carried_hash (fun line => bytes (line_hash line)) (option_map bytes start) lines with
  | Ok (head, records) => Verified (option_map string_of head) records
  | Err record => Broken record
  end.

(** ** What a line holds *)

Definition is_hash_text (value : string) : bool :=
  (String.length value =? 64)%nat
  && forallb (fun b => in_range 48 57 b || in_range 97 102 b) (bytes value).

End hash.

(** The fields every record has, whatever its kind ([Envelope]), and what a
    line is told to hold ([Line]). *)
Record LineEnvelope : Type := { le_schema : string; le_kind : string; le_previous_hash : string }.
Inductive Line : Type :=
| LnRecord (r : AuditRecord)
| LnQuarantine (q : QuarantineRecord)
| LnOtherKind (previous_hash : string)
| LnCorrupt.

(** [serde_json] on the three shapes. *)
Class AuditJson := {
  to_line : AuditRecord -> string;
  quarantine_line : QuarantineRecord -> string;
  read_record : list Z -> option AuditRecord;
  read_envelope : list Z -> option LineEnvelope;
  read_quarantine : list Z -> option QuarantineRecord;
}.

(** A record reads back; its text is one line, with no control character;
    and it ends in its last field. *)
Class AuditJsonLaws `{AuditJson} := {
  record_back r : read_record (bytes (to_line r)) = Some r;
  record_escaped r : Forall (fun b => 32 <= b) (bytes (to_line r));
  record_ends r : is_hash_text (ar_previous_hash r) = true ->
    exists p, bytes (to_line r) = p ++ PREVIOUS_HASH_FIELD ++ bytes (ar_previous_hash r) ++ RECORD_END;
}.

Section lines.
Context `{Sha256} `{AuditJson}.

(** [classify] and [Line::previous_hash]. *)
Definition classify (raw : list Z) : Line :=
  match read_record raw with
  | Some record => LnRecord record
  | None =>
      match read_envelope raw with
      | None => LnCorrupt
      | Some e =>
          if negb (bool_decide (le_schema e = SCHEMA)) || negb (is_hash_text (le_previous_hash e)) then LnCorrupt
          else if bool_decide (le_kind e = QUARANTINE) then
            match read_quarantine raw with
            | Some record => if is_hash_text (qr_from_hash record) && is_hash_text (qr_final_hash record) then LnQuarantine record else LnCorrupt
            | None => LnCorrupt
            end
          else if bool_decide (le_kind e ∈ KNOWN_KINDS) then LnCorrupt
          else LnOtherKind (le_previous_hash e)
      end
  end.
Definition line_previous_hash (l : Line) : option string :=
  match l with
  | LnRecord r => Some (ar_previous_hash r)
  | LnQuarantine q => Some (qr_previous_hash q)
  | LnOtherKind h => Some h
  | LnCorrupt => None
  end.
Definition is_corrupt (l : Line) : bool := match l with LnCorrupt => true | _ => false end.

(** [bytes_hold_parsed_revocation]. *)
Fixpoint lines_excuse (lines : list (list Z)) : bool :=
  match lines with
  | [] => false
  | raw :: rest =>
      match classify raw with
      | LnRecord r => bool_decide (ar_kind r = KRevocation)
      | LnCorrupt | LnOtherKind _ => negb (bool_decide (rest = []))
      | LnQuarantine _ => false
      end || lines_excuse rest
  end.
Definition bytes_hold_parsed_revocation (bs : list Z) : bool := lines_excuse (complete_lines bs).

(** [holds_revocation], over the bytes it reads. *)
Definition holds_revocation (bs : list Z) : bool :=
  existsb (fun raw => match classify raw with
                      | LnRecord r => bool_decide (ar_kind r = KRevocation)
                      | LnCorrupt | LnOtherKind _ => true
                      | LnQuarantine _ => false
                      end) (complete_lines bs).
End lines.

(** ** Lines as they are written *)

Definition plain_line (l : list Z) : Prop := LF ∉ l /\ l <> [] /\ cut_cr l = l.
Definition written_lines (ls : list (list Z)) : list Z := ls ≫= fun l => l ++ [LF].

Lemma written_snoc ls l : written_lines (ls ++ [l]) = written_lines ls ++ l ++ [LF].
Proof. unfold written_lines. rewrite bind_app. cbn. by rewrite app_nil_r. Qed.
Lemma no_lf t : LF ∉ t -> forallb (fun x => negb (is_lf x)) t = true.
Proof. intros Ht. apply forallb_forall. intros x Hx%list_elem_of_In. unfold is_lf. destruct (Z.eqb_spec x LF) as [->|]; done. Qed.
Lemma complete_len_written ls t : LF ∉ t -> complete_len (written_lines ls ++ t) = length (written_lines ls).
Proof.
  intros Ht%no_lf. unfold complete_len. destruct ls as [|l ls _] using rev_ind.
  - cbn [written_lines mbind list_bind app]. by rewrite (proj2 (rposition_None is_lf t) Ht).
  - rewrite written_snoc. replace (rposition _ _) with (Some (length (written_lines ls ++ l))); [rewrite !length_app; cbn; lia|].
    symmetry. apply rposition_Some. exists (written_lines ls ++ l), LF, t. split; [by rewrite <- !app_assoc|done].
Qed.
Lemma split_written ls : Forall plain_line ls -> split_byte LF (written_lines ls) = ls ++ [[]].
Proof.
  induction 1 as [|l ls (Hl & _ & _) _ IH]; [done|]. change (written_lines (l :: ls)) with ((l ++ [LF]) ++ written_lines ls).
  rewrite <- app_assoc. change ([LF] ++ written_lines ls) with (LF :: written_lines ls). rewrite split_byte_app by done. by rewrite IH.
Qed.
Lemma nonempty_lines_plain ls : Forall plain_line ls -> List.filter nonempty_line (map cut_cr (ls ++ [[]])) = ls.
Proof.
  intros Hls. rewrite map_app, List.filter_app. cbn. rewrite app_nil_r. induction Hls as [|l ls (_ & Hne & Hcr) _ IH]; [done|].
  cbn [map List.filter]. rewrite Hcr, IH. unfold nonempty_line. by rewrite bool_decide_false.
Qed.
Lemma complete_written ls t : Forall plain_line ls -> LF ∉ t -> complete_lines (written_lines ls ++ t) = ls.
Proof.
  intros Hls Ht. unfold complete_lines. rewrite complete_len_written by done. rewrite take_app_length, split_written by done.
  by apply nonempty_lines_plain.
Qed.

(** The two scans of the code see the same lines. *)
Lemma segment_lines contents :
  List.filter nonempty_line (map cut_cr (split_byte LF (match rposition is_lf contents with Some n => take n contents | None => [] end)))
  = complete_lines contents.
Proof.
  unfold complete_lines, complete_len. destruct (rposition is_lf contents) as [n|] eqn:E; [|done].
  apply rposition_Some in E as (a & b & c & -> & <- & Hb & _). unfold is_lf in Hb. apply Z.eqb_eq in Hb as ->.
  rewrite take_app_length. replace (take (S (length a)) (a ++ LF :: c)) with (a ++ [LF]).
  - rewrite split_byte_snoc, map_app, List.filter_app. cbn. by rewrite app_nil_r.
  - rewrite (cons_middle LF a c), app_assoc, (take_app_length' (a ++ [LF])); [done|]. rewrite length_app. cbn. lia.
Qed.

Section hash_lemmas.
Context `{Sha256Laws}.

Lemma from_digit16_hex d : 0 <= d < 16 -> in_range 48 57 (from_digit16 d) || in_range 97 102 (from_digit16 d) = true.
Proof.
  intros Hd. unfold from_digit16, in_range. destruct (Z.ltb_spec d 10); [|destruct (Z.ltb_spec d 16); [|lia]];
    repeat (destruct (Z.leb_spec _ _)); try done; lia.
Qed.
Lemma hex_bytes (ds : list Z) : Forall is_u8 ds ->
  forallb (fun b => in_range 48 57 b || in_range 97 102 b) (ds ≫= fun b => [from_digit16 (Z.shiftr b 4); from_digit16 (Z.land b 15)]) = true.
Proof.
  induction 1 as [|b ds [Hlo Hhi] _ IH]; [done|]. cbn. rewrite !from_digit16_hex; [done|..].
  - change 15 with (Z.ones 4). rewrite Z.land_ones by lia. apply Z.mod_pos_bound. lia.
  - rewrite Z.shiftr_div_pow2 by lia. split; [apply Z.div_pos; lia|apply Z.div_lt_upper_bound; lia].
Qed.
Lemma hex_length (ds : list Z) : length (ds ≫= fun b => [from_digit16 (Z.shiftr b 4); from_digit16 (Z.land b 15)]) = (2 * length ds)%nat.
Proof. induction ds as [|b ds IH]; [done|]. rewrite bind_cons, length_app, IH. cbn. lia. Qed.
Lemma hex_u8 l : forallb (fun b => in_range 48 57 b || in_range 97 102 b) l = true -> Forall is_u8 l.
Proof.
  induction l as [|b l IH]; [done|]. cbn. intros [Hb Hl]%andb_prop. constructor; [|by apply IH].
  unfold in_range in Hb. apply orb_true_iff in Hb as [[?%Z.leb_le ?%Z.leb_le]%andb_prop|[?%Z.leb_le ?%Z.leb_le]%andb_prop]; unfold is_u8; lia.
Qed.
Lemma bytes_line_hash l : bytes (line_hash l) = sha256 l ≫= fun b => [from_digit16 (Z.shiftr b 4); from_digit16 (Z.land b 15)].
Proof. apply bytes_string_of, hex_u8, hex_bytes, digest_bytes. Qed.
Lemma line_hash_is_hash l : is_hash_text (line_hash l) = true.
Proof.
  unfold is_hash_text. rewrite <- length_bytes, bytes_line_hash. destruct (digest_bytes l) as [Hl Hb]. rewrite hex_bytes, andb_true_r by done.
  apply Nat.eqb_eq. by rewrite hex_length, Hl.
Qed.
Lemma zero_hash_is_hash : is_hash_text ZERO_HASH = true.
Proof. by vm_compute. Qed.

(** Equal line hashes are equal digests. *)
Lemma from_digit16_inj a b : 0 <= a < 16 -> 0 <= b < 16 -> from_digit16 a = from_digit16 b -> a = b.
Proof. intros Ha Hb. unfold from_digit16. destruct (Z.ltb_spec a 10), (Z.ltb_spec b 10), (Z.ltb_spec a 16), (Z.ltb_spec b 16); lia. Qed.
Lemma line_hash_inj l m : line_hash l = line_hash m -> sha256 l = sha256 m.
Proof.
  intros E%(f_equal bytes). rewrite !bytes_line_hash in E. destruct (digest_bytes l) as [Hl Hbl], (digest_bytes m) as [Hm Hbm].
  rewrite <- Hm in Hl. clear Hm. revert E Hl Hbl Hbm. generalize (sha256 l) (sha256 m). intros a. induction a as [|x a IH]; intros [|y b]; [done..|].
  cbn. intros [= E1 E2 E] Hlen [Hx Ha]%list.Forall_cons [Hy Hb]%list.Forall_cons. f_equal; [|apply IH; by try lia].
  change 15 with (Z.ones 4) in E2. rewrite !Z.land_ones in E2 by lia. rewrite !Z.shiftr_div_pow2 in E1 by lia. change (2 ^ 4) with 16 in *.
  destruct Hx, Hy. apply from_digit16_inj in E1; [|split; [apply Z.div_pos|apply Z.div_lt_upper_bound]; lia..].
  apply from_digit16_inj in E2; [|apply Z.mod_pos_bound; lia..]. pose proof (Z.div_mod x 16). pose proof (Z.div_mod y 16). lia.
Qed.

(** ** Bounded fields *)

Lemma bytes_substring n s : bytes (String.substring 0 n s) = take n (bytes s).
Proof. revert n. induction s as [|c s IH]; intros [|n]; cbn; [done..|]. by rewrite IH. Qed.
Lemma floor_boundary_spec s i : (floor_boundary s i <= i)%nat /\ is_char_boundary s (floor_boundary s i) = true.
Proof. induction i as [|i [IH1 IH2]]; cbn [floor_boundary]; [done|]. destruct (is_char_boundary s (S i)) eqn:E; [done|]. split; [lia|done]. Qed.

(** Well-formed text is one character after another, and a character is a
    byte followed by continuation bytes. *)
Lemma three_byte_continues a b : three_byte_lead a b = true -> continuation b = true.
Proof. unfold three_byte_lead, continuation, in_range. intros Hb. bool_to_prop. lia. Qed.
Lemma four_byte_continues a b : four_byte_lead a b = true -> continuation b = true.
Proof. unfold four_byte_lead, continuation, in_range. intros Hb. bool_to_prop. lia. Qed.
Lemma utf8_char a l : utf8_valid (a :: l) = true ->
  exists cs r, l = cs ++ r /\ Forall (fun c => continuation c = true) cs /\ utf8_valid r = true /\ forall m, utf8_valid (a :: cs ++ m) = utf8_valid m.
Proof.
  intros Hv. cbn [utf8_valid] in Hv. destruct (a <=? 127) eqn:Ea.
  { exists [], l. do 3 (split; [done|]). intros m. cbn [app utf8_valid]. by rewrite Ea. }
  destruct l as [|b l]; [done|]. destruct (in_range 194 223 a) eqn:E2.
  { apply andb_prop in Hv as [Hb Hv]. exists [b], l. do 3 (split; [by repeat constructor|]). intros m. cbn [app utf8_valid]. by rewrite Ea, E2, Hb. }
  destruct l as [|c l]; [done|]. destruct (three_byte_lead a b) eqn:E3.
  { apply andb_prop in Hv as [Hc Hv]. pose proof (three_byte_continues _ _ E3). exists [b; c], l. do 3 (split; [by repeat constructor|]).
    intros m. cbn [app utf8_valid]. by rewrite Ea, E2, E3, Hc. }
  destruct l as [|d l]; [done|]. apply andb_prop in Hv as [[[E4 Hc]%andb_prop Hd]%andb_prop Hv]. pose proof (four_byte_continues _ _ E4).
  exists [b; c; d], l. do 3 (split; [by repeat constructor|]). intros m. cbn [app utf8_valid]. by rewrite Ea, E2, E3, E4, Hc, Hd.
Qed.
Lemma utf8_cut l : utf8_valid l = true -> forall i m, (forall b, l !! i = Some b -> i = 0%nat \/ continuation b = false) ->
  utf8_valid m = true -> utf8_valid (take i l ++ m) = true.
Proof.
  remember (length l) as n eqn:Hn. assert (length l <= n)%nat as Hle by lia. clear Hn. revert l Hle.
  induction n as [|n IH]; intros [|a l] Hle Hv i m Hi Hm; [by rewrite take_nil|cbn in Hle; lia|by rewrite take_nil|].
  destruct i as [|i]; [done|]. apply utf8_char in Hv as (cs & r & -> & Hcs & Hr & Hadd). cbn in Hle. rewrite length_app in Hle. cbn [take app].
  destruct (decide (i < length cs)%nat) as [Hlt|Hge].
  - destruct (lookup_lt_is_Some_2 _ _ Hlt) as [b Hb]. rewrite list.Forall_lookup in Hcs. destruct (Hi b) as [|Hc]; [|done|].
    + change ((a :: cs ++ r) !! S i) with ((cs ++ r) !! i). by rewrite lookup_app_l.
    + by rewrite (Hcs _ _ Hb) in Hc.
  - rewrite take_app_ge, <- app_assoc, Hadd by lia. apply IH; [lia|done|..|done]. intros b Hb. destruct (Hi b) as [|]; [|done|by right].
    change ((a :: cs ++ r) !! S i) with ((cs ++ r) !! i). by rewrite lookup_app_r by lia.
Qed.

(** A field of a record is at most 512 bytes and well-formed text, a value
    that fits is kept whole, and two longer values whose fields are the same
    have the same digest. *)
Lemma line_hash_length l : String.length (line_hash l) = 64%nat.
Proof. pose proof (line_hash_is_hash l) as [Hl%Nat.eqb_eq _]%andb_prop. done. Qed.
Lemma bounded_long value : (MAX_FIELD_BYTES < String.length value)%nat ->
  exists cut, (cut <= 438)%nat /\ is_char_boundary value cut = true /\
    bytes (bounded value) = take cut (bytes value) ++ bytes CUT_MARKER ++ bytes (line_hash (bytes value)).
Proof.
  intros Hl. unfold bounded. rewrite (proj2 (Nat.leb_gt _ _) Hl), line_hash_length.
  change (MAX_FIELD_BYTES - String.length CUT_MARKER - 64)%nat with 438%nat. exists (floor_boundary value 438).
  destruct (floor_boundary_spec value 438) as [Hle Hb]. do 2 (split; [done|]). by rewrite !bytes_app_str, bytes_substring.
Qed.
Lemma ascii_valid l : forallb (fun b => b <=? 127) l = true -> utf8_valid l = true.
Proof. induction l as [|b l IH]; [done|]. cbn. intros [-> Hl]%andb_prop. by apply IH. Qed.
Lemma marker_valid m : utf8_valid (bytes CUT_MARKER ++ m) = utf8_valid m.
Proof. reflexivity. Qed.
Lemma forallb_impl {A} (p q : A -> bool) l : (forall a, p a = true -> q a = true) -> forallb p l = true -> forallb q l = true.
Proof. intros Hpq. rewrite !forallb_forall. eauto. Qed.
Lemma bounded_spec value : (String.length (bounded value) <= MAX_FIELD_BYTES)%nat /\
  ((String.length value <= MAX_FIELD_BYTES)%nat -> bounded value = value) /\
  (utf8_valid (bytes value) = true -> utf8_valid (bytes (bounded value)) = true).
Proof.
  destruct (decide (String.length value <= MAX_FIELD_BYTES)%nat) as [Hle|Hgt].
  { assert (bounded value = value) as ->; [|done]. unfold bounded. by rewrite (proj2 (Nat.leb_le _ _) Hle). }
  destruct (bounded_long value) as (cut & Hcut & Hb & E); [lia|]. split.
  { rewrite <- length_bytes, E, !length_app, length_take, !length_bytes, line_hash_length. change (String.length CUT_MARKER) with 10%nat.
    unfold MAX_FIELD_BYTES. lia. }
  split; [done|]. intros Hv. rewrite E. apply utf8_cut; [done|..].
  - intros b Hl. unfold is_char_boundary in Hb. destruct cut; [by left|]. rewrite Hl in Hb. right. by apply negb_true_iff.
  - rewrite marker_valid, bytes_line_hash. apply ascii_valid. eapply forallb_impl; [|apply hex_bytes, digest_bytes].
    intros b. unfold in_range. intros Hx. bool_to_prop. lia.
Qed.
End hash_lemmas.

(** ** Chains *)

Section chain.
Context `{Sha256}.

(** Each line carries the hash of the line before it, the first one the hash
    to start from, if there is one; and the hash the next must carry. *)
Fixpoint chained (start : option string) (ls : list (list Z)) : Prop :=
  match ls with
  | [] => True
  | l :: ls => exists found, carried_hash l = Some found /\ (forall s, start = Some s -> bytes s = found) /\ chained (Some (line_hash l)) ls
  end.
Definition chain_head (start : option string) (ls : list (list Z)) : option string :=
  match list.last ls with Some l => Some (line_hash l) | None => start end.

Lemma chain_head_cons start l ls : chain_head start (l :: ls) = chain_head (Some (line_hash l)) ls.
Proof. unfold chain_head. destruct ls as [|x ls _] using rev_ind; [done|]. by rewrite app_comm_cons, !last_snoc. Qed.
Lemma chain_head_snoc start ls l : chain_head start (ls ++ [l]) = Some (line_hash l).
Proof. unfold chain_head. by rewrite last_snoc. Qed.
Lemma chained_app start a b : chained start (a ++ b) <-> chained start a /\ chained (chain_head start a) b.
Proof.
  revert start. induction a as [|l a IH]; intros start; [by cbn; naive_solver|].
  cbn [app chained]. setoid_rewrite IH. rewrite chain_head_cons. naive_solver.
Qed.
Lemma chained_any start ls : chained start ls -> chained None ls.
Proof. destruct ls; [done|]. intros (f & Hf & _ & Hc). by exists f. Qed.

Lemma verify_lines_chained start ls k :
  match verify_lines_from carried_hash (fun line => bytes (line_hash line)) k (option_map bytes start) ls with
  | Ok head => chained start ls /\ head = option_map bytes (chain_head start ls)
  | Err _ => ~ chained start ls
  end.
Proof.
  revert start k. induction ls as [|l ls IH]; intros start k; [done|]. cbn [verify_lines_from chained].
  destruct (carried_hash l) as [found|]; [|intros (f & [=] & _)]. rewrite chain_head_cons.
  assert (match option_map bytes start with Some hash => negb (bool_decide (hash = found)) | None => false end = false
          <-> forall s, start = Some s -> bytes s = found) as Hs.
  { destruct start as [s|]; cbn; [|done]. rewrite negb_false_iff, bool_decide_eq_true. naive_solver. }
  match type of Hs with (?c = false <-> _) => destruct c end.
  - intros (f & [= <-] & Hc & _). by apply Hs in Hc.
  - specialize (IH (Some (line_hash l)) (S k)). cbn [option_map] in IH. destruct (verify_lines_from _ _ _ _ _).
    + destruct IH as [Hc ->]. split; [|done]. exists found. split; [done|]. split; [by apply Hs|done].
    + intros (f & _ & _ & Hc). done.
Qed.

(** What the check of a segment says. *)
Lemma verify_segment_chained start contents :
  match verify_segment start contents with
  | Verified head n => chained start (complete_lines contents) /\ head = chain_head start (complete_lines contents) /\ n = length (complete_lines contents)
  | Broken _ => ~ chained start (complete_lines contents)
  end.
Proof.
  unfold verify_segment. rewrite segment_lines. unfold verify_lines_with.
  pose proof (verify_lines_chained start (complete_lines contents) 0) as Hv. destruct (verify_lines_from _ _ _ _ _); [|done].
  destruct Hv as [Hc ->]. split; [done|]. split; [|done]. destruct (chain_head _ _) as [h|]; [|done]. cbn. by rewrite string_of_bytes.
Qed.
Lemma verify_segment_ok start contents : chained start (complete_lines contents) ->
  verify_segment start contents = Verified (chain_head start (complete_lines contents)) (length (complete_lines contents)).
Proof. intros Hc. pose proof (verify_segment_chained start contents) as Hv. destruct (verify_segment _ _); [|done]. by destruct Hv as (_ & -> & ->). Qed.
End chain.

Section evidence.
Context `{Sha256Laws}.

(** Two lines with one digest. *)
Definition collision (a b : list (list Z)) : Prop := exists l m, l ∈ a /\ m ∈ b /\ l <> m /\ sha256 l = sha256 m.
Definition hashes_to (s : string) (ls : list (list Z)) : Prop := exists l, l ∈ ls /\ line_hash l = s.

Lemma chained_fixes s a b : chained (Some s) a -> chained (Some s) b -> chain_head (Some s) a = chain_head (Some s) b ->
  a = b \/ collision a b \/ hashes_to s a \/ hashes_to s b.
Proof.
  revert b. induction a as [|l a IH] using rev_ind; intros b Ha Hb Hh; destruct b as [|m b _] using rev_ind.
  - by left.
  - right; right; right. rewrite chain_head_snoc in Hh. injection Hh as Hh. exists m. split; [set_solver|by symmetry].
  - right; right; left. rewrite chain_head_snoc in Hh. injection Hh as Hh. exists l. split; [set_solver|done].
  - rewrite !chain_head_snoc in Hh. injection Hh as Hh%line_hash_inj. destruct (decide (l = m)) as [<-|Hne]; [|right; left; exists l, m; set_solver].
    apply chained_app in Ha as [Ha (f & Hf & Hsa & _)]. apply chained_app in Hb as [Hb (f' & Hf' & Hsb & _)]. rewrite Hf in Hf'. injection Hf' as <-.
    assert (chain_head (Some s) a = chain_head (Some s) b) as E.
    { unfold chain_head in *. destruct (list.last a), (list.last b); cbn in *; f_equal; apply bytes_inj; rewrite (Hsa _ eq_refl), (Hsb _ eq_refl); done. }
    destruct (IH b Ha Hb E) as [->|[(x & y & Hx & Hy & Hxy)|[(x & Hx & Hs)|(x & Hx & Hs)]]]; [by left|right..].
    + left. exists x, y. set_solver.
    + right; left. exists x. set_solver.
    + right; right. exists x. set_solver.
Qed.

(** C34: the head of a segment that verifies fixes its records.  Two contents that
    verify from the same hash to the same head hold the same lines, in
    number, order and bytes, unless SHA-256 gives one digest to two different
    lines, or the starting hash to a line: so a record that is changed or
    removed is reported as long as the last record, or its hash, is kept. *)
Theorem head_fixes_records s h a b n m :
  verify_segment (Some s) a = Verified (Some h) n -> verify_segment (Some s) b = Verified (Some h) m ->
  complete_lines a = complete_lines b \/ collision (complete_lines a) (complete_lines b)
  \/ hashes_to s (complete_lines a) \/ hashes_to s (complete_lines b).
Proof.
  intros Ha Hb. pose proof (verify_segment_chained (Some s) a) as Va. pose proof (verify_segment_chained (Some s) b) as Vb.
  rewrite Ha in Va. rewrite Hb in Vb. destruct Va as (Ca & Ea & _), Vb as (Cb & Eb & _). apply chained_fixes; congruence.
Qed.
End evidence.

(** ** Lines of records *)

Section record_lines.
Context `{Sha256Laws} `{AuditJsonLaws}.

Definition record_line (l : list Z) (r : AuditRecord) : Prop := l = bytes (to_line r) /\ is_hash_text (ar_previous_hash r) = true.

Lemma record_plain l r : record_line l r -> plain_line l.
Proof.
  intros [-> Hh]. pose proof (record_escaped r) as He. rewrite list.Forall_forall in He. split; [|split].
  - intros Hin%He. unfold LF in Hin. lia.
  - intros Hn. destruct (record_ends r Hh) as (p & E). rewrite Hn in E. by destruct p.
  - unfold cut_cr. destruct (strip_suffix_bytes [CR] (bytes (to_line r))) as [m|] eqn:Es; [|done].
    apply strip_suffix_bytes_Some in Es. assert (CR ∈ bytes (to_line r)) as Hin%He by (rewrite Es; set_solver). unfold CR in Hin. lia.
Qed.
Lemma record_carried l r : record_line l r -> carried_hash l = Some (bytes (ar_previous_hash r)).
Proof.
  intros [-> Hh]. destruct (record_ends r Hh) as (p & ->). unfold is_hash_text in Hh. apply andb_prop in Hh as [Hl%Nat.eqb_eq _].
  unfold carried_hash. rewrite !app_assoc, strip_suffix_bytes_app, <- !app_assoc. cbn [mbind option_bind].
  assert (length (bytes (ar_previous_hash r)) = 64%nat) as Hb by (by rewrite length_bytes).
  rewrite app_assoc, length_app, Hb. replace (_ <? _)%nat with false by (symmetry; apply Nat.ltb_ge; lia).
  replace (_ + 64 - 64)%nat with (length (p ++ PREVIOUS_HASH_FIELD)) by lia. rewrite take_app_length, drop_app_length.
  unfold ends_with. by rewrite strip_suffix_bytes_app, bool_decide_true by eauto.
Qed.
Lemma record_classified l r : record_line l r -> classify l = LnRecord r.
Proof. intros [-> _]. unfold classify. by rewrite record_back. Qed.

(** The two readings of a segment for revocations agree on records. *)
Definition revokes (l : list Z) : bool := match classify l with LnRecord r => bool_decide (ar_kind r = KRevocation) | _ => false end.
Definition record_lines (ls : list (list Z)) : Prop := Forall (fun l => exists r, record_line l r) ls.
Lemma record_lines_plain ls : record_lines ls -> Forall plain_line ls.
Proof. intros Hls. eapply list.Forall_impl; [exact Hls|]. intros l [r Hr]. by eapply record_plain. Qed.
Lemma lines_excuse_records ls : record_lines ls -> lines_excuse ls = existsb revokes ls.
Proof.
  induction 1 as [|l ls [r Hr] _ IH]; [done|]. cbn [lines_excuse existsb]. rewrite IH. unfold revokes at 2. by rewrite (record_classified _ _ Hr).
Qed.
Lemma holds_revocation_records bs : record_lines (complete_lines bs) -> holds_revocation bs = existsb revokes (complete_lines bs).
Proof.
  unfold holds_revocation. generalize (complete_lines bs). induction 1 as [|l ls [r Hr] _ IH]; [done|]. cbn [existsb]. rewrite IH.
  unfold revokes at 2. by rewrite (record_classified _ _ Hr).
Qed.
End record_lines.
