(* ===== verification/AuditLog.v ===== *)
(** * The audit log on disk (crates/bep/src/audit.rs)

    The segments of the proxy's audit log: opening with the cut of a torn
    line, appending, rotating and pruning; in the second part the checks of
    the directory, the quarantine and the reader.  The disk is a map of named files; each call to the operating
    system may fail, and a write may be short, as the list of faults of the
    disk says, so an operation run with faults also stands for the process
    dying part way: the next open finds what it left. *)

From stdpp Require Import base list gmap sets strings numbers pretty sorting.
From Stdlib Require Import ZArith Lia Ascii.
From S2P Require Import Prelude Text Bytes AuditChain.
Open Scope Z_scope.

(** ** The disk *)

Record LogFile : Type := { lf_bytes : list Z; lf_modified : Z; lf_ino : nat }.
Inductive Fault : Type := FaultNone | FaultFail | FaultShort (n : nat).
Record Disk : Type := {
  dk_files : gmap string LogFile;   (* the log's directory *)
  dk_moved : gmap string LogFile;   (* its quarantine directory *)
  dk_inos : nat;
  dk_now : Z;
  dk_faults : list Fault;
}.
Inductive IoError : Type := IoFailed | IoWriteZero | IoWouldBlock | IoAlreadyExists | IoInvalidInput | IoNotFound | IoTorn.

Definition IO (A : Type) : Type := Disk -> Disk * result IoError A.
#[global] Instance io_ret : MRet IO := fun A a d => (d, Ok a).
#[global] Instance io_bind : MBind IO := fun A B f m d => match m d with (d, Ok a) => f a d | (d, Err e) => (d, Err e) end.
Definition io_fail {A} (e : IoError) : IO A := fun d => (d, Err e).
Definition io_get {A} (f : Disk -> A) : IO A := fun d => (d, Ok (f d)).
Definition io_lift {A} (e : IoError) (o : option A) : IO A := match o with Some a => mret a | None => io_fail e end.
Definition io_do (f : Disk -> Disk) : IO () := fun d => (f d, Ok ()).
(** A call whose failure the caller drops. *)
Definition io_try {A} (m : IO A) : IO () := fun d => ((m d).1, Ok ()).

Definition set_files (d : Disk) (files : gmap string LogFile) : Disk :=
  {| dk_files := files; dk_moved := dk_moved d; dk_inos := dk_inos d; dk_now := dk_now d; dk_faults := dk_faults d |}.
Definition take_fault (d : Disk) : Disk :=
  {| dk_files := dk_files d; dk_moved := dk_moved d; dk_inos := dk_inos d; dk_now := dk_now d; dk_faults := tail (dk_faults d) |}.
Definition next_fault (d : Disk) : Fault := default FaultNone (head (dk_faults d)).

(** A call that does or does not fail, with no other effect. *)
Definition attempt : IO () := fun d => (take_fault d, match next_fault d with FaultNone => Ok () | _ => Err IoFailed end).

Definition get_file (name : string) : IO LogFile := f ← io_get (fun d => dk_files d !! name); io_lift IoNotFound f.
(** The bytes of the file at [name] are now these, written now. *)
Definition put_bytes (name : string) (bs : list Z) (d : Disk) : Disk :=
  match dk_files d !! name with
  | Some f => set_files d (<[name := {| lf_bytes := bs; lf_modified := dk_now d; lf_ino := lf_ino f |}]> (dk_files d))
  | None => {| dk_files := <[name := {| lf_bytes := bs; lf_modified := dk_now d; lf_ino := dk_inos d |}]> (dk_files d); dk_moved := dk_moved d;
               dk_inos := S (dk_inos d); dk_now := dk_now d; dk_faults := dk_faults d |}
  end.

(** [File::write], which appends, and [File::set_len]. *)
Definition write_file (name : string) (bs : list Z) : IO nat := fun d =>
  let bytes_now := default [] (lf_bytes <$> dk_files d !! name) in
  let d' := take_fault d in
  match next_fault d with
  | FaultNone => (put_bytes name (bytes_now ++ bs) d', Ok (length bs))
  | FaultShort n => (put_bytes name (bytes_now ++ take n bs) d', Ok (length (take n bs)))
  | FaultFail => (d', Err IoFailed)
  end.
Definition resize (n : nat) (bs : list Z) : list Z := take n bs ++ replicate (n - length bs) 0.
Definition set_len (name : string) (len : Z) : IO () :=
  attempt ≫= fun _ => f ← get_file name; io_do (put_bytes name (resize (Z.to_nat len) (lf_bytes f))).
Definition read_file (name : string) : IO (list Z) := attempt ≫= fun _ => f ← get_file name; mret (lf_bytes f).
Definition remove_file (name : string) : IO () :=
  attempt ≫= fun _ => get_file name ≫= fun _ => io_do (fun d => set_files d (delete name (dk_files d))).

(** [open_own_file]: the checks that it is a regular file of its own are
    calls that may fail. *)
Definition open_own_file (name : string) : IO () :=
  attempt ≫= fun _ => attempt ≫= fun _ =>
  io_do (fun d => match dk_files d !! name with Some _ => d | None => put_bytes name [] d end) ≫= fun _ => attempt.

(** ** Segments *)

Definition DIR_LOCK : string := ".lock".
Definition SEGMENT_BYTES : Z := 8 * 1024 * 1024.
Definition RETAINED_SEGMENTS : nat := 16.
Definition TAIL_CHUNK : Z := 16 * 1024.
Definition U64_MAX : Z := 18446744073709551615.
Record Rotation : Type := { ro_bound : Z; ro_retain : nat; ro_revocation_ceiling : Z }.

Definition segment_name (n : Z) : string := ("audit-" ++ pretty n ++ ".jsonl")%string.
Definition segment_number (name : string) : option Z :=
  n ← strip_prefix "audit-" name; n ← strip_suffix ".jsonl" n; parse_uint U64_MAX n.
#[global] Arguments segment_name : simpl never.
#[global] Arguments segment_number : simpl never.

(** [numbered_segments]: sorted by number, then by name. *)
Definition seg_le (a b : Z * string) : Prop := a.1 < b.1 \/ (a.1 = b.1 /\ String.leb a.2 b.2 = true).
#[global] Instance seg_le_dec : RelDecision seg_le.
Proof. intros a b. unfold seg_le. apply _. Defined.
Definition numbered_in (files : gmap string LogFile) : list (Z * string) :=
  merge_sort seg_le (filter_map (fun e => (fun n => (n, e.1)) <$> segment_number e.1) (map_to_list files)).
Definition numbered_segments : IO (list (Z * string)) := attempt ≫= fun _ => io_get (fun d => numbered_in (dk_files d)).

(** The log, open for append ([AuditLog]); its file is the one at its path. *)
Record AuditLog : Type := {
  al_path : string;
  al_head : string;
  al_len : Z;
  al_poisoned : bool;
  al_rotation : option (Z * Rotation);
  al_dir_lock : bool;
}.

(** [checked_add] of a time: the clock of the system ends. *)
Definition TIME_MAX : Z := 9223372036854775807.
Definition time_checked_add (t d : Z) : option Z := if t + d <=? TIME_MAX then Some (t + d) else None.

Section log.
Context `{Sha256} `{AuditJson}.

(** [read_tail]. *)
Definition tail_enough (tail : list Z) : bool :=
  match rposition is_lf tail with
  | None => false
  | Some last =>
      let complete := take last tail in
      match rposition (fun b => negb (b =? LF) && negb (b =? CR)) complete with
      | Some n => contains_byte (take (S n) complete) LF
      | None => false
      end
  end.
Fixpoint tail_loop (fuel : nat) (file : list Z) (start : Z) (tail : list Z) : IO (Z * list Z) :=
  match fuel with
  | O => mret (start, tail)
  | S fuel =>
      if start <=? 0 then mret (start, tail)
      else
        let step := Z.min start TAIL_CHUNK in
        let start := start - step in
        attempt ≫= fun _ =>
        let tail := take (Z.to_nat step) (drop (Z.to_nat start) file) ++ tail in
        if tail_enough tail then mret (start, tail) else tail_loop fuel file start tail
  end.
Definition read_tail (file : list Z) : IO (Z * list Z) :=
  attempt ≫= fun _ => tail_loop (length file) file (Z.of_nat (length file)) [].

(** [AuditLog::open]: the file, then its lock and mode, its tail, and the cut
    of a torn line. *)
Definition open_held_file (path : string) : IO AuditLog :=
  attempt ≫= fun _ =>
  attempt ≫= fun _ =>
  f ← get_file path;
  attempt ≫= fun _ =>
  st ← read_tail (lf_bytes f);
  let '(start, tail) := st : Z * list Z in
  let complete := complete_len tail in
  let len := start + Z.of_nat complete in
  (if (complete <? length tail)%nat then set_len path len else mret ()) ≫= fun _ =>
  mret {| al_path := path; al_head := head_hash (take complete tail); al_len := len; al_poisoned := false; al_rotation := None; al_dir_lock := false |}.
Definition open_log (path : string) : IO AuditLog :=
  attempt ≫= fun _ => open_own_file path ≫= fun _ => open_held_file path.

(** [final_hash]. *)
Definition final_hash (path : string) : IO string :=
  bs ← read_file path; st ← read_tail bs;
  let '(_, tail) := st : Z * list Z in mret (head_hash (take (complete_len tail) tail)).

Definition with_head (l : AuditLog) (h : string) : AuditLog :=
  {| al_path := al_path l; al_head := h; al_len := al_len l; al_poisoned := al_poisoned l; al_rotation := al_rotation l; al_dir_lock := al_dir_lock l |}.
Definition with_rotation (l : AuditLog) (r : option (Z * Rotation)) (lock : bool) : AuditLog :=
  {| al_path := al_path l; al_head := al_head l; al_len := al_len l; al_poisoned := al_poisoned l; al_rotation := r; al_dir_lock := lock |}.

(** [open_listed] and [open_dir]. *)
Definition PASSES : nat := 8.
Fixpoint open_passes (passes : nat) (rotation : Rotation) (found : list (Z * string)) : IO AuditLog :=
  match passes with
  | O => io_fail IoWouldBlock
  | S passes =>
      let '(n, path) := default (0, segment_name 0) (list.last found) in
      log ← open_log path;
      now ← numbered_segments;
      if match list.last now with Some (newest, _) => n <? newest | None => false end then open_passes passes rotation now
      else
        (if al_len log =? 0 then
           match List.find (fun e => e.1 <? n) (rev now) with
           | Some (_, previous) => h ← final_hash previous; mret (with_head log h)
           | None => mret log
           end
         else mret log) ≫= fun log =>
        mret (with_rotation log (Some (n, rotation)) false)
  end.
Definition open_listed (rotation : Rotation) (found : list (Z * string)) : IO AuditLog := open_passes PASSES rotation found.
Definition open_dir (rotation : Rotation) : IO AuditLog :=
  attempt ≫= fun _ => open_own_file DIR_LOCK ≫= fun _ => attempt ≫= fun _ =>
  found ← numbered_segments; log ← open_listed rotation found;
  mret (with_rotation log (al_rotation log) true).

(** [prune]. *)
Fixpoint prune_each (rotation : Rotation) (found : list (Z * string)) (removed : list string) : IO (list string) :=
  match found with
  | [] => mret removed
  | (_, path) :: found =>
      attempt ≫= fun _ =>
      f ← get_file path;
      now ← io_get dk_now;
      let in_force := match time_checked_add (lf_modified f) (ro_revocation_ceiling rotation) with Some until => now <? until | None => true end in
      (if in_force then bs ← read_file path; mret (holds_revocation bs) else mret false) ≫= fun (keep : bool) =>
      if keep then prune_each rotation found removed
      else remove_file path ≫= fun _ => prune_each rotation found (removed ++ [path])
  end.
Definition prune (rotation : Rotation) : IO (list string) :=
  found ← numbered_segments;
  prune_each rotation (take (length found - Nat.max (ro_retain rotation) 1) found) [].

(** [open_next] and [rotate]. *)
Definition open_next (log : AuditLog) : IO AuditLog :=
  match al_rotation log with
  | None => mret log
  | Some (n, rotation) =>
      opened ← open_log (segment_name (n + 1));
      if negb (al_len opened =? 0) then io_fail IoAlreadyExists
      else mret (with_rotation (with_head opened (al_head log)) (Some (n + 1, rotation)) (al_dir_lock log))
  end.
Definition rotate (log : AuditLog) : IO AuditLog :=
  match al_rotation log with
  | None => mret log
  | Some (_, rotation) => log ← open_next log; io_try (prune rotation) ≫= fun _ => mret log
  end.

(** [prepare], [write_line] and [append]. *)
Definition prepare (log : AuditLog) : IO AuditLog :=
  if al_poisoned log then io_fail IoTorn
  else match al_rotation log with
       | Some (_, rotation) => if (0 <? al_len log) && (ro_bound rotation <=? al_len log) then rotate log else mret log
       | None => mret log
       end.
Definition write_line (log : AuditLog) (line : string) (d : Disk) : Disk * AuditLog * result IoError () :=
  let bs := bytes line ++ [LF] in
  match (n ← write_file (al_path log) bs; if (n =? length bs)%nat then attempt else io_fail IoWriteZero) d with
  | (d, Err e) =>
      let '(d, cut) := set_len (al_path log) (al_len log) d in
      let poisoned := match cut with Ok _ => al_poisoned log | Err _ => true end in
      (d, {| al_path := al_path log; al_head := al_head log; al_len := al_len log; al_poisoned := poisoned;
             al_rotation := al_rotation log; al_dir_lock := al_dir_lock log |}, Err e)
  | (d, Ok _) =>
      (d, {| al_path := al_path log; al_head := line_hash (bytes line); al_len := al_len log + Z.of_nat (length bs); al_poisoned := al_poisoned log;
             al_rotation := al_rotation log; al_dir_lock := al_dir_lock log |}, Ok ())
  end.
Definition append (log : AuditLog) (decision : AuditDecision) (d : Disk) : Disk * AuditLog * result IoError AuditRecord :=
  match prepare log d with
  | (d, Err e) => (d, log, Err e)
  | (d, Ok log) =>
      let record := from_decision decision (al_head log) in
      match write_line log (to_line record) d with
      | (d, log, Ok _) => (d, log, Ok record)
      | (d, log, Err e) => (d, log, Err e)
      end
  end.
End log.

(** * Reading the audit log (crates/bep/src/audit.rs, crates/bep/src/revoke.rs)

    The check of the chain over every segment of the directory, with the gaps
    that a prune or a quarantine leaves; the quarantine itself; the reader
    that replays and then tails the log; and the revocations it restores. *)

(** A segment that was read: its number, its name and its bytes. *)
Definition ReadSegment : Type := (Z * string * list Z)%type.

Record LogCheck : Type := {
  lc_segments : list string;
  lc_records : nat;
  lc_broken : option (string * nat);
  lc_restarts : list string;
}.
Record ChainBreak : Type := { cb_segment : string; cb_line : nat; cb_expected : string; cb_found : option string }.

Section check.
Context `{Sha256} `{AuditJson}.

(** [moved_segment_matches]. *)
Definition count_corrupt (lines : list Line) : nat := length (List.filter is_corrupt lines).
Definition moved_segment_matches (record : QuarantineRecord) (bs : list Z) : bool :=
  let lines := map classify (complete_lines bs) in
  let unreadable := count_corrupt lines in
  if (unreadable =? 0)%nat || negb (unreadable =? qr_unreadable record)%nat then false
  else
    let first := match (l ← head lines; line_previous_hash l) with Some hash => bool_decide (hash = qr_from_hash record) | None => true end in
    let last := match list.last (complete_lines bs) with
                | Some raw => is_corrupt (classify raw) || bool_decide (line_hash raw = qr_final_hash record)
                | None => true
                end in
    first && last.

(** The walk along bridges from one hash to another: each step goes to a
    higher segment, so as many steps as there are bridges are enough. *)
Fixpoint walk_bridges (fuel : nat) (bridges : list (Z * QuarantineRecord)) (past : Z) (at_ found : string) : bool :=
  match fuel with
  | O => false
  | S fuel =>
      match List.find (fun b => (past <? b.1) && bool_decide (qr_from_hash b.2 = at_)) bridges with
      | None => false
      | Some (number, record) =>
          if bool_decide (qr_final_hash record = found) then true
          else walk_bridges fuel bridges number (qr_final_hash record) found
      end
  end.

(** [gap_bridged]. *)
Definition quarantine_of (l : Line) : option QuarantineRecord := match l with LnQuarantine q => Some q | _ => None end.
Definition gap_bridged (from : list ReadSegment) (moved : list (string * list Z)) : bool :=
  match from with
  | (before, _, before_bytes) :: ((after, _, after_bytes) :: _) as rest =>
      match list.last (complete_lines before_bytes), (l ← head (complete_lines after_bytes); line_previous_hash (classify l)) with
      | Some last, Some found =>
          let records := filter_map quarantine_of (rest ≫= fun s => map classify (complete_lines s.2)) in
          let bridges :=
            filter_map (fun record =>
              number ← segment_number (qr_segment record);
              let agrees := existsb (fun m => bool_decide (m.1 = qr_segment record) && moved_segment_matches record m.2) moved in
              if agrees && (before <? number) && (number <? after) then Some (number, record) else None) records in
          walk_bridges (S (length bridges)) bridges before (line_hash last) found
      | _, _ => false
      end
  | _ => false
  end.

(** [verify_segments]. *)
Definition log_lines (segments : list (string * list Z)) : list (string * nat * list Z * Line) :=
  segments ≫= fun s => imap (fun i raw => (s.1, S i, raw, classify raw)) (complete_lines s.2).
Definition log_bridges (lines : list (string * nat * list Z * Line)) (quarantined : list (string * list Z)) : list (nat * Z * QuarantineRecord) :=
  filter_map (fun e : nat * Line =>
    record ← quarantine_of e.2;
    number ← segment_number (qr_segment record);
    m ← List.find (fun q => bool_decide (q.1 = qr_segment record)) quarantined;
    if moved_segment_matches record m.2 then Some (e.1, number, record) else None)
    (imap (fun i l => (i, l.2)) lines).
Definition line_bridged (bridges : list (nat * Z * QuarantineRecord)) (index : nat) (path : string) (number : nat)
    (expected : string) (before : option Z) (found : string) : bool :=
  if bool_decide (expected = found) then true
  else match before, segment_number path with
       | Some after, Some here =>
           if negb (number =? 1)%nat then false
           else let usable := filter_map (fun b : nat * Z * QuarantineRecord =>
                                if (index <=? b.1.1)%nat && (b.1.2 <? here) then Some (b.1.2, b.2) else None) bridges in
                walk_bridges (S (length usable)) usable after expected found
       | _, _ => false
       end.
Fixpoint verify_log_lines (bridges : list (nat * Z * QuarantineRecord)) (index : nat) (head : option (string * option Z))
    (lines : list (string * nat * list Z * Line)) : option ChainBreak :=
  match lines with
  | [] => None
  | (path, number, raw, line) :: lines =>
      let found := line_previous_hash line in
      let next := verify_log_lines bridges (S index) (Some (line_hash raw, segment_number path)) lines in
      match head with
      | Some (expected, before) =>
          if match found with Some found => line_bridged bridges index path number expected before found | None => false end then next
          else Some {| cb_segment := path; cb_line := number; cb_expected := expected; cb_found := found |}
      | None =>
          match found with
          | None => Some {| cb_segment := path; cb_line := number; cb_expected := EmptyString; cb_found := None |}
          | Some _ => next
          end
      end
  end.
Definition verify_segments (segments quarantined : list (string * list Z)) : result ChainBreak nat :=
  let lines := log_lines segments in
  match verify_log_lines (log_bridges lines quarantined) 0 None lines with
  | Some b => Err b
  | None => Ok (length lines)
  end.

(** The segments of the log and those under its quarantine directory. *)
Fixpoint read_segments (found : list (Z * string)) : IO (list ReadSegment) :=
  match found with
  | [] => mret []
  | (n, path) :: found => bs ← read_file path; rest ← read_segments found; mret ((n, path, bs) :: rest)
  end.
Fixpoint read_moved (found : list (Z * string)) : IO (list (string * list Z)) :=
  match found with
  | [] => mret []
  | (_, name) :: found =>
      attempt ≫= fun _ =>
      f ← io_get (fun d => dk_moved d !! name); f ← io_lift IoNotFound f;
      rest ← read_moved found; mret ((name, lf_bytes f) :: rest)
  end.
Definition moved_segments : IO (list (string * list Z)) :=
  attempt ≫= fun _ => found ← io_get (fun d => numbered_in (dk_moved d)); read_moved found.

(** [quarantine_bridges]. *)
Definition quarantine_bridges (from : list ReadSegment) : IO bool :=
  moved ← moved_segments;
  if (length from <? 2)%nat || bool_decide (length moved = 0%nat) then mret false
  else mret (match verify_segments (map (fun s => (s.1.2, s.2)) from) moved with
             | Ok _ => true
             | Err _ => gap_bridged from moved
             end).

(** The hash the first record of segment [n] must carry ([verify_dir]). *)
Definition checked_succ (m : Z) : option Z := if m <? U64_MAX then Some (m + 1) else None.
Definition start_for (previous : option (Z * option string * bool)) (n : Z) : option string :=
  if n =? 0 then Some ZERO_HASH
  else match previous with
       | Some (m, head, revokes) => if bool_decide (checked_succ m = Some n) then head else if revokes then None else head
       | None => None
       end.

(** [verify_dir]. *)
Fixpoint verify_each (check : LogCheck) (previous : option (Z * option string * bool)) (before : option ReadSegment) (read : list ReadSegment) : IO LogCheck :=
  match read with
  | [] => mret check
  | (n, path, contents) :: rest =>
      let gap := match previous with Some (m, _, _) => negb (bool_decide (checked_succ m = Some n)) | None => false end in
      let start := start_for previous n in
      let check := {| lc_segments := lc_segments check ++ [path]; lc_records := lc_records check; lc_broken := lc_broken check;
                      lc_restarts := lc_restarts check ++ match start with None => [path] | Some _ => [] end |} in
      let first := verify_segment start contents in
      (if gap && bool_decide (first = Broken 1) then
         bridged ← quarantine_bridges (option_list before ++ read);
         mret (if bridged : bool then verify_segment None contents else first)
       else mret first) ≫= fun outcome =>
      match outcome with
      | Verified head records =>
          verify_each {| lc_segments := lc_segments check; lc_records := lc_records check + records; lc_broken := lc_broken check; lc_restarts := lc_restarts check |}
            (Some (n, head, bytes_hold_parsed_revocation contents)) (Some (n, path, contents)) rest
      | Broken record =>
          mret {| lc_segments := lc_segments check; lc_records := lc_records check + (record - 1); lc_broken := Some (path, record); lc_restarts := lc_restarts check |}
      end
  end.
Definition verify_dir : IO LogCheck :=
  found ← numbered_segments; read ← read_segments found;
  verify_each {| lc_segments := []; lc_records := 0; lc_broken := None; lc_restarts := [] |} None None read.

(** [verify_chain]. *)
Definition verify_chain : IO (result ChainBreak nat) :=
  found ← numbered_segments; read ← read_segments found; moved ← moved_segments;
  mret (verify_segments (map (fun s => (s.1.2, s.2)) read) moved).
End check.

(** ** The quarantine *)

Definition QUARANTINE_DIR : string := "quarantine".
Record Quarantined : Type := {
  qd_segment : string;
  qd_moved_to : string;
  qd_record : QuarantineRecord;
  qd_revoked : list string;
  qd_other_kinds : nat;
}.

Section quarantine.
Context `{Sha256} `{AuditJson}.

(** [first_previous_hash]. *)
Definition first_previous_hash (path : string) : IO (option string) :=
  bs ← read_file path; mret (l ← head (complete_lines bs); line_previous_hash (classify l)).

(** [fs::symlink_metadata(..).is_ok()] and [fs::rename] into the quarantine
    directory. *)
Definition moved_exists (name : string) : IO bool := fun d =>
  (take_fault d, Ok (match next_fault d with FaultNone => bool_decide (is_Some (dk_moved d !! name)) | _ => false end)).
Definition rename_moved (name : string) : IO () :=
  attempt ≫= fun _ => f ← get_file name;
  io_do (fun d => {| dk_files := delete name (dk_files d); dk_moved := <[name := f]> (dk_moved d); dk_inos := dk_inos d;
                     dk_now := dk_now d; dk_faults := dk_faults d |}).

Definition revoked_in (lines : list Line) : list string :=
  foldl (fun revoked l => match l with
                          | LnRecord r => if bool_decide (ar_kind r = KRevocation) && negb (bool_decide (ar_subject r ∈ revoked)) then revoked ++ [ar_subject r] else revoked
                          | _ => revoked
                          end) [] lines.

(** The plan of [quarantine_unreadable]: what to move, and whether the
    active segment is of it. *)
Fixpoint quarantine_plan (active : Z) (previous_final : option string) (found : list (Z * string)) (moved : list Quarantined) (active_moved : bool)
    : IO (list Quarantined * bool) :=
  match found with
  | [] => mret (moved, active_moved)
  | (n, path) :: rest =>
      bs ← read_file path;
      let lines := map classify (complete_lines bs) in
      let unreadable := count_corrupt lines in
      let file_final := head_hash (take (complete_len bs) bs) in
      if (unreadable =? 0)%nat then quarantine_plan active (Some file_final) rest moved active_moved
      else
        let from_hash := default ZERO_HASH (match previous_final with Some h => Some h | None => l ← head lines; line_previous_hash l end) in
        final_hash ← match rest with
                     | (_, next) :: _ => h ← first_previous_hash next; mret (default file_final h)
                     | [] => mret file_final
                     end;
        there ← moved_exists path;
        if there : bool then io_fail IoAlreadyExists
        else
          quarantine_plan active (Some final_hash) rest
            (moved ++ [{| qd_segment := path; qd_moved_to := (QUARANTINE_DIR ++ "/" ++ path)%string;
                          qd_record := {| qr_schema := SCHEMA; qr_kind := QUARANTINE; qr_segment := path; qr_from_hash := from_hash;
                                          qr_final_hash := final_hash; qr_unreadable := unreadable; qr_previous_hash := EmptyString |};
                          qd_revoked := revoked_in lines;
                          qd_other_kinds := length (List.filter (fun l => match l with LnOtherKind _ => true | _ => false end) lines) |}])
            (active_moved || (n =? active))
  end.

(** The revocations of a moved segment again, and one segment: its record,
    its revocations, then the move. *)
Definition restated (box_id : string) : AuditDecision :=
  {| ad_kind := KRevocation; ad_box_id := box_id; ad_authority := EmptyString; ad_identifier := None; ad_jti := EmptyString;
     ad_mapping := ModuleUnmapped; ad_outcome := OutRefuse; ad_marker := Some RESTATED |}.
Fixpoint restate (log : AuditLog) (revoked : list string) (d : Disk) : Disk * AuditLog * result IoError () :=
  match revoked with
  | [] => (d, log, Ok ())
  | box_id :: revoked =>
      match append log (restated box_id) d with
      | (d, log, Ok _) => restate log revoked d
      | (d, log, Err e) => (d, log, Err e)
      end
  end.
Definition with_previous (q : Quarantined) (h : string) : Quarantined :=
  let r := qd_record q in
  {| qd_segment := qd_segment q; qd_moved_to := qd_moved_to q;
     qd_record := {| qr_schema := qr_schema r; qr_kind := qr_kind r; qr_segment := qr_segment r; qr_from_hash := qr_from_hash r;
                     qr_final_hash := qr_final_hash r; qr_unreadable := qr_unreadable r; qr_previous_hash := h |};
     qd_revoked := qd_revoked q; qd_other_kinds := qd_other_kinds q |}.
Definition quarantine_one (log : AuditLog) (q : Quarantined) (d : Disk) : Disk * AuditLog * result IoError Quarantined :=
  match prepare log d with
  | (d, Err e) => (d, log, Err e)
  | (d, Ok log) =>
      let q := with_previous q (al_head log) in
      match write_line log (quarantine_line (qd_record q)) d with
      | (d, log, Err e) => (d, log, Err e)
      | (d, log, Ok _) =>
          match restate log (qd_revoked q) d with
          | (d, log, Err e) => (d, log, Err e)
          | (d, log, Ok _) =>
              match rename_moved (qd_segment q) d with
              | (d, Ok _) => (d, log, Ok q)
              | (d, Err e) => (d, log, Err e)
              end
          end
      end
  end.
Fixpoint quarantine_each (log : AuditLog) (planned moved : list Quarantined) (d : Disk) : Disk * AuditLog * result IoError (list Quarantined) :=
  match planned with
  | [] => (d, log, Ok moved)
  | q :: planned =>
      match quarantine_one log q d with
      | (d, log, Ok q) => quarantine_each log planned (moved ++ [q]) d
      | (d, log, Err e) => (d, log, Err e)
      end
  end.
Definition quarantine_unreadable (log : AuditLog) (d : Disk) : Disk * AuditLog * result IoError (list Quarantined) :=
  match al_rotation log with
  | None => (d, log, Err IoInvalidInput)
  | Some (active, _) =>
      match (found ← numbered_segments; quarantine_plan active None found [] false) d with
      | (d, Err e) => (d, log, Err e)
      | (d, Ok ([], _)) => (d, log, Ok [])
      | (d, Ok (moved, active_moved)) =>
          match (attempt ≫= fun _ => if active_moved : bool then open_next log else mret log) d with
          | (d, Err e) => (d, log, Err e)
          | (d, Ok log) => quarantine_each log moved [] d
          end
      end
  end.
End quarantine.

(** ** The reader *)

Record Entry : Type := { en_record : AuditRecord; en_line : string }.
Record ReadBatch : Type := {
  rb_entries : list Entry;
  rb_segments : list string;
  rb_skipped : nat;
  rb_skipped_in : list string;
  rb_other_kinds : nat;
}.
(** [LogReader]: for each segment, the file it was and the place read to. *)
Notation Offsets := (gmap string (option nat * Z)).

Definition no_batch : ReadBatch := {| rb_entries := []; rb_segments := []; rb_skipped := 0; rb_skipped_in := []; rb_other_kinds := 0 |}.

Section reader.
Context `{Sha256} `{AuditJson}.

Definition read_one (path : string) (out : ReadBatch) (raw : list Z) : ReadBatch :=
  match classify raw with
  | LnRecord record =>
      {| rb_entries := rb_entries out ++ [{| en_record := record; en_line := string_of raw |}]; rb_segments := rb_segments out;
         rb_skipped := rb_skipped out; rb_skipped_in := rb_skipped_in out; rb_other_kinds := rb_other_kinds out |}
  | LnQuarantine _ | LnOtherKind _ =>
      {| rb_entries := rb_entries out; rb_segments := rb_segments out; rb_skipped := rb_skipped out; rb_skipped_in := rb_skipped_in out;
         rb_other_kinds := S (rb_other_kinds out) |}
  | LnCorrupt =>
      {| rb_entries := rb_entries out; rb_segments := rb_segments out; rb_skipped := S (rb_skipped out);
         rb_skipped_in := if bool_decide (list.last (rb_skipped_in out) = Some path) then rb_skipped_in out else rb_skipped_in out ++ [path];
         rb_other_kinds := rb_other_kinds out |}
  end.

(** Where a segment is read from, and [ends_line_at]. *)
Definition ends_line_at (bs : list Z) (offset : Z) : bool := bool_decide (bs !! Z.to_nat (offset - 1) = Some LF).
Definition read_start (f : LogFile) (seen : option nat) (start : Z) : IO Z :=
  let replaced := bool_decide (is_Some seen) && negb (bool_decide (seen = Some (lf_ino f))) in
  if replaced || (Z.of_nat (length (lf_bytes f)) <? start) then mret 0
  else if 0 <? start then attempt ≫= fun _ => mret (if ends_line_at (lf_bytes f) start then start else 0)
  else mret start.

(** One segment: where it was read to, and what it held, if it was read. *)
Definition read_segment (path : string) (offsets : Offsets) (out : ReadBatch) : IO (option (Z * nat * ReadBatch)) :=
  let '(seen, start) := default (None, 0) (offsets !! path) in
  attempt ≫= fun _ =>
  f ← io_get (fun d => dk_files d !! path);
  match f with
  | None => mret None
  | Some f =>
      attempt ≫= fun _ =>
      start ← read_start f seen start;
      if Z.of_nat (length (lf_bytes f)) =? start then mret None
      else
        attempt ≫= fun _ =>
        let bs := drop (Z.to_nat start) (lf_bytes f) in
        let complete := complete_len bs in
        if (complete =? 0)%nat then mret None
        else
          let out := foldl (read_one path) out (complete_lines (take complete bs)) in
          mret (Some (start + Z.of_nat complete, lf_ino f,
                      {| rb_entries := rb_entries out; rb_segments := rb_segments out ++ [path]; rb_skipped := rb_skipped out;
                         rb_skipped_in := rb_skipped_in out; rb_other_kinds := rb_other_kinds out |}))
  end.

(** [LogReader::read_new]: the places move as the segments are read. *)
Fixpoint read_each (found : list (Z * string)) (offsets : Offsets) (out : ReadBatch) (d : Disk) : Disk * Offsets * result IoError ReadBatch :=
  match found with
  | [] => (d, offsets, Ok out)
  | (_, path) :: found =>
      match read_segment path offsets out d with
      | (d, Err e) => (d, offsets, Err e)
      | (d, Ok None) => read_each found offsets out d
      | (d, Ok (Some (place, ino, out))) => read_each found (<[path := (Some ino, place)]> offsets) out d
      end
  end.
Definition read_new (offsets : Offsets) (d : Disk) : Disk * Offsets * result IoError ReadBatch :=
  match numbered_segments d with
  | (d, Err e) => (d, offsets, Err e)
  | (d, Ok found) => read_each found offsets no_batch d
  end.

(** [restore] of crates/bep/src/revoke.rs. *)
Record Restored : Type := { re_box_ids : list string; re_skipped : nat; re_unreadable : list string }.
Definition restore_one (box_ids : list string) (e : Entry) : list string :=
  if bool_decide (ar_kind (en_record e) = KRevocation) && negb (covers box_ids (ar_subject (en_record e)))
  then box_ids ++ [ar_subject (en_record e)] else box_ids.
Definition restore (d : Disk) : Disk * result IoError Restored :=
  match read_new ∅ d with
  | (d, _, Err e) => (d, Err e)
  | (d, _, Ok batch) =>
      (d, Ok {| re_box_ids := foldl restore_one [] (rb_entries batch); re_skipped := rb_skipped batch; re_unreadable := rb_skipped_in batch |})
  end.
End reader.
