(* ===== verification/AuditHistory.v ===== *)
(** * The audit log keeps its chain

    The tail that is read at an open tells what the whole file would; the
    state of the directory as the log leaves it; and what every operation
    does to it, whichever of its calls fail, which is the second part. *)

From stdpp Require Import base list gmap sets strings numbers pretty sorting.
From Stdlib Require Import ZArith Lia Ascii.
From S2P Require Import Prelude Text Bytes AuditChain AuditLog.
Open Scope Z_scope.

(** ** The tail of a file *)

Lemma find_app_found {A} (p : A -> bool) l m : (exists x, x ∈ l /\ p x = true) -> List.find p (l ++ m) = List.find p l.
Proof.
  induction l as [|y l IH]; intros (x & Hx & Hp); [by apply not_elem_of_nil in Hx|]. cbn. destruct (p y) eqn:Ey; [done|].
  apply IH. exists x. split; [|done]. apply elem_of_cons in Hx as [->|]; [congruence|done].
Qed.

Section tail.
Context `{Sha256}.

(** A line with a character that ends no line is not an empty one. *)
Lemma cut_cr_keeps l b : b ∈ l -> b <> CR -> nonempty_line (cut_cr l) = true.
Proof.
  intros Hb Hne. unfold nonempty_line, cut_cr. destruct (strip_suffix_bytes [CR] l) as [r|] eqn:E; cbn [default id].
  - apply strip_suffix_bytes_Some in E as ->. rewrite bool_decide_false; [done|]. intros ->. set_solver.
  - rewrite bool_decide_false; [done|]. intros ->. set_solver.
Qed.

(** The hash of the last line is found in any end of the file that holds a
    line break before its last character that ends no line. *)
Lemma head_hash_suffix pre u b v : LF ∈ u -> b <> LF -> b <> CR -> head_hash (pre ++ u ++ b :: v) = head_hash (u ++ b :: v).
Proof.
  intros (u1 & u2 & ->)%list_elem_of_split Hb Hcr. unfold head_hash. rewrite <- (app_assoc u1). cbn [app].
  rewrite (app_assoc pre), !split_byte_mid, !rev_app_distr, !map_app, !find_app_found; [done|..]; clear pre u1;
    (assert (exists p, p ∈ split_byte LF (u2 ++ b :: v) /\ b ∈ p) as (p & Hp & Hbp);
     [|exists (cut_cr p); split; [apply list_elem_of_fmap; exists p; split; [done|]; apply list_elem_of_In, List.in_rev; rewrite rev_involutive; by apply list_elem_of_In
                                  |by apply (cut_cr_keeps p b)]]).
  all: clear Hcr; induction u2 as [|x u2 IH]; cbn [app split_byte].
  1, 3: apply Z.eqb_neq in Hb; rewrite Hb; pose proof (split_byte_nonempty LF v) as Hn; destruct (split_byte LF v) as [|q qs]; [done|];
    exists (b :: q); split; left.
  all: destruct IH as (p & Hp & Hbp); destruct (x =? LF); [exists p; split; [by right|done]|];
    destruct (split_byte LF (u2 ++ b :: v)) as [|q qs]; [by apply not_elem_of_nil in Hp|];
    apply elem_of_cons in Hp as [->|Hp]; [exists (x :: q); split; [left|by right]|exists p; split; [by right|done]].
Qed.

Lemma complete_len_app pre c t : LF ∉ t -> complete_len (pre ++ c ++ LF :: t) = (length pre + length c + 1)%nat.
Proof.
  intros Ht. unfold complete_len. replace (rposition is_lf (pre ++ c ++ LF :: t)) with (Some (length (pre ++ c))).
  - rewrite length_app. lia.
  - symmetry. apply rposition_Some. exists (pre ++ c), LF, t. rewrite <- app_assoc. split; [done|]. split; [done|]. split; [done|]. by apply no_lf.
Qed.

Lemma lf_none t : forallb (fun x => negb (is_lf x)) t = true -> LF ∉ t.
Proof. intros Ht Hin%list_elem_of_In. rewrite forallb_forall in Ht. by specialize (Ht _ Hin). Qed.

(** A tail that is enough tells the head and the length of the whole. *)
Definition tail_tells (file : list Z) (start : Z) (tail : list Z) : Prop :=
  start + Z.of_nat (complete_len tail) = Z.of_nat (complete_len file) /\
  head_hash (take (complete_len tail) tail) = head_hash (take (complete_len file) file) /\
  (length tail - complete_len tail = length file - complete_len file)%nat.
Lemma tail_enough_tells pre tail : tail_enough tail = true -> tail_tells (pre ++ tail) (Z.of_nat (length pre)) tail.
Proof.
  unfold tail_enough. destruct (rposition is_lf tail) as [last|] eqn:El; [|done].
  apply rposition_Some in El as (c & x & t & -> & <- & Hx & Ht%lf_none). unfold is_lf in Hx. apply Z.eqb_eq in Hx as ->.
  rewrite take_app_length. destruct (rposition _ c) as [n|] eqn:En; [|done].
  apply rposition_Some in En as (u & b & v & -> & <- & Hb & _). unfold contains_byte. rewrite bool_decide_eq_true.
  apply andb_prop in Hb as [Hlf%negb_true_iff%Z.eqb_neq Hcr%negb_true_iff%Z.eqb_neq].
  replace (take (S (length u)) (u ++ b :: v)) with (u ++ [b]).
  2: { rewrite (cons_middle b u v), app_assoc, (take_app_length' (u ++ [b])); [done|]. rewrite length_app. cbn. lia. }
  intros Hin. assert (LF ∈ u) as Hu by set_solver. unfold tail_tells. set (c := u ++ b :: v).
  pose proof (complete_len_app [] c t Ht) as E1. cbn [app length] in E1. rewrite E1, (complete_len_app pre c t Ht). split; [lia|].
  assert (forall p, take (length p + length c + 1) (p ++ c ++ LF :: t) = p ++ c ++ [LF]) as Htk.
  { intros p. rewrite (cons_middle LF c t), !app_assoc. apply take_app_length'. rewrite !length_app. cbn. lia. }
  pose proof (Htk []) as Htk0. cbn [app length] in Htk0. rewrite Htk0, Htk. split.
  - unfold c. rewrite <- !app_assoc. cbn [app]. symmetry. by apply head_hash_suffix.
  - rewrite !length_app. cbn. lia.
Qed.
Lemma tail_loop_tells fuel file start tail pre d d' s t : (Z.of_nat (length pre) <= Z.of_nat fuel) ->
  file = pre ++ tail -> start = Z.of_nat (length pre) -> tail_loop fuel file start tail d = (d', Ok (s, t)) -> tail_tells file s t.
Proof.
  revert start tail pre d. induction fuel as [|fuel IH]; intros start tail pre d Hf -> -> Hl; cbn [tail_loop] in Hl.
  { injection Hl as _ <- <-. destruct pre; [|cbn in Hf; lia]. unfold tail_tells. cbn [length app]. split; [lia|done]. }
  destruct (Z.leb_spec (Z.of_nat (length pre)) 0) as [H0|H0].
  { injection Hl as _ <- <-. destruct pre; [|cbn in H0; lia]. unfold tail_tells. cbn [length app]. split; [lia|done]. }
  unfold attempt, mbind, io_bind in Hl. destruct (next_fault d); [|done..]. set (step := Z.min (Z.of_nat (length pre)) TAIL_CHUNK) in *.
  assert (0 < step <= Z.of_nat (length pre)) as Hstep by (unfold step, TAIL_CHUNK; lia). clearbody step.
  set (k := Z.to_nat (Z.of_nat (length pre) - step)) in *. assert (k <= length pre)%nat as Hk by lia.
  assert (take (Z.to_nat step) (drop k (pre ++ tail)) = drop k pre) as E.
  { rewrite drop_app_le by lia. apply take_app_length'. rewrite length_drop. lia. }
  rewrite E in Hl. assert (pre ++ tail = take k pre ++ drop k pre ++ tail) as Ef by (rewrite app_assoc, take_drop; done).
  assert (Z.of_nat (length pre) - step = Z.of_nat (length (take k pre))) as Es by (rewrite length_take; lia).
  destruct (tail_enough (drop k pre ++ tail)) eqn:Ee.
  - injection Hl as _ <- <-. rewrite Ef, Es. by apply tail_enough_tells.
  - eapply IH; [|exact Ef|exact Es|exact Hl]. rewrite <- Es. lia.
Qed.

Lemma read_tail_tells file d d' start tail : read_tail file d = (d', Ok (start, tail)) -> tail_tells file start tail.
Proof.
  unfold read_tail, attempt, mbind, io_bind. destruct (next_fault d); [|done..]. intros Hl.
  apply (tail_loop_tells (length file) file (Z.of_nat (length file)) [] file (take_fault d) d'); [lia|by rewrite app_nil_r|done..].
Qed.
Lemma attempt_ok d : dk_faults d = [] -> attempt d = (d, Ok ()).
Proof. destruct d as [f m i n fs]. cbn. by intros ->. Qed.
Lemma tail_loop_returns fuel file start tail d : dk_faults d = [] -> exists r, tail_loop fuel file start tail d = (d, Ok r).
Proof.
  intros Hd. revert start tail. induction fuel as [|fuel IH]; intros start tail; cbn [tail_loop]; [by eexists|].
  destruct (start <=? 0); [by eexists|]. unfold mbind, io_bind. rewrite (attempt_ok d Hd).
  destruct (tail_enough _); [by eexists|apply IH].
Qed.

(** Reading the end of a file in chunks gives the length of its complete
    lines and the hash of the last of them, as reading it whole would, and
    what follows them is a torn line; when no read fails it gives them, for
    every file. *)
Theorem tail_reads_whole file d :
  (dk_faults d = [] -> exists start tail, read_tail file d = (d, Ok (start, tail))) /\
  (forall d' start tail, read_tail file d = (d', Ok (start, tail)) ->
     start + Z.of_nat (complete_len tail) = Z.of_nat (complete_len file) /\
     head_hash (take (complete_len tail) tail) = head_hash (take (complete_len file) file) /\
     (complete_len tail < length tail <-> complete_len file < length file)%nat).
Proof.
  split.
  - intros Hd. unfold read_tail, mbind, io_bind. rewrite (attempt_ok d Hd).
    destruct (tail_loop_returns (length file) file (Z.of_nat (length file)) [] d Hd) as [[start tail] E]. eauto.
  - intros d' start tail (H1 & H2 & H3)%read_tail_tells. do 2 (split; [done|]). lia.
Qed.
End tail.

(** ** Names and numbers of segments *)

Lemma segment_number_name n : 0 <= n <= U64_MAX -> segment_number (segment_name n) = Some n.
Proof.
  intros Hn. unfold segment_number, segment_name. rewrite strip_prefix_app. cbn [mbind option_bind].
  rewrite (proj2 (strip_suffix_iff ".jsonl" _ (pretty n)) eq_refl). cbn [mbind option_bind]. by apply parse_uint_pretty.
Qed.
Lemma segment_name_inj n m : 0 <= n <= U64_MAX -> 0 <= m <= U64_MAX -> segment_name n = segment_name m -> n = m.
Proof. intros Hn Hm E%(f_equal segment_number). rewrite !segment_number_name in E by done. congruence. Qed.
Lemma segment_number_range name n : segment_number name = Some n -> 0 <= n <= U64_MAX.
Proof.
  unfold segment_number. destruct (strip_prefix _ _) as [m|]; [|done]. cbn [mbind option_bind]. destruct (strip_suffix _ _) as [k|]; [|done].
  cbn [mbind option_bind]. by apply parse_uint_bounds.
Qed.

(** ** What the directory holds *)

(** A segment: its number, the lines of its records, the torn bytes that may
    follow them, and when it was last written. *)
Record Seg : Type := { sg_n : Z; sg_lines : list (list Z); sg_torn : list Z; sg_written : Z }.
Definition seg_content (s : Seg) : list Z := written_lines (sg_lines s) ++ sg_torn s.
Definition canonical (f : gmap string LogFile) : Prop :=
  forall name n, is_Some (f !! name) -> segment_number name = Some n -> name = segment_name n.

#[global] Instance seg_le_total : Total seg_le.
Proof.
  intros [n a] [m b]. unfold seg_le. cbn. destruct (Z.lt_trichotomy n m) as [?|[->|?]]; [by (left; left)| |by (right; left)].
  destruct (String.leb_total a b); [left|right]; by right.
Qed.

Section state.
Context `{Sha256Laws} `{AuditJsonLaws}.

Record stored (f : gmap string LogFile) (L : list Seg) : Prop := {
  so_names : canonical f;
  so_sorted : StronglySorted Z.lt (map sg_n L);
  so_numbers n : n ∈ map sg_n L <-> 0 <= n <= U64_MAX /\ is_Some (f !! segment_name n);
  so_files : Forall (fun s => exists fl, f !! segment_name (sg_n s) = Some fl /\ lf_bytes fl = seg_content s /\ lf_modified fl = sg_written s) L;
  so_lines : Forall (fun s => record_lines (sg_lines s) /\ LF ∉ sg_torn s) L;
}.

Lemma sorted_lt_nodup (l : list Z) : StronglySorted Z.lt l -> NoDup l.
Proof. induction 1 as [|x l _ IH Hx]; constructor; [|done]. rewrite list.Forall_forall in Hx. intros Hin%Hx. lia. Qed.
Lemma sorted_lt_unique l m : Sorted Z.le l -> NoDup l -> StronglySorted Z.lt m -> (forall x, x ∈ l <-> x ∈ m) -> l = m.
Proof.
  intros Hl Hn Hm Hin. assert (StronglySorted Z.le m) as Hm'.
  { clear -Hm. induction Hm as [|x m _ IH Hx]; constructor; [done|]. eapply list.Forall_impl; [exact Hx|]. intros; lia. }
  apply (Sorted_unique Z.le); [done|by apply StronglySorted_Sorted|]. apply NoDup_Permutation; [done|by apply sorted_lt_nodup|done].
Qed.
Lemma stored_numbered f L : stored f L -> numbered_in f = map (fun s => (sg_n s, segment_name (sg_n s))) L.
Proof.
  intros [Hc Hs Hn _ _]. unfold numbered_in. set (u := filter_map _ _).
  assert (forall n name, (n, name) ∈ u <-> is_Some (f !! name) /\ segment_number name = Some n) as Hu.
  { intros n name. unfold u. rewrite elem_of_filter_map. split.
    - intros ([name' fl] & Hin & Hq). apply elem_of_map_to_list in Hin. cbn in Hq. destruct (segment_number name') eqn:E; cbn in Hq; [|done].
      injection Hq as -> ->. eauto.
    - intros [[fl Hl] E]. exists (name, fl). rewrite elem_of_map_to_list. cbn. by rewrite E. }
  assert (forall e, e ∈ merge_sort seg_le u -> e = (e.1, segment_name e.1)) as Hname.
  { intros [n name]. rewrite merge_sort_Permutation, Hu. intros [Hi E]. cbn. by rewrite <- (Hc _ _ Hi E). }
  assert ((merge_sort seg_le u).*1 = map sg_n L) as E.
  - apply sorted_lt_unique; [..|exact Hs|].
    + pose proof (Sorted_merge_sort seg_le u) as Hss. clear -Hss. induction Hss as [|x l _ IH Hx]; [constructor|]. cbn. constructor; [done|].
      destruct Hx as [|y l [Hlt|[Heq _]]]; constructor; lia.
    + apply NoDup_fmap_2_strong; [|rewrite merge_sort_Permutation].
      * intros x y Hx%Hname Hy%Hname Exy. rewrite Hx, Hy. by rewrite Exy.
      * unfold u. pose proof (NoDup_fst_map_to_list f) as Hnd. clear -Hnd. induction (map_to_list f) as [|[k v] l IH]; [constructor|].
        cbn in Hnd. apply NoDup_cons in Hnd as [Hk Hnd]. cbn. destruct (segment_number k) eqn:Ek; cbn; [|by apply IH]. constructor; [|by apply IH].
        intros (e & He & Hq)%elem_of_filter_map. destruct (segment_number e.1); [|done]. injection Hq as _ Hq. apply Hk. rewrite <- Hq. by apply list_elem_of_fmap_2.
    + intros n. rewrite Hn. split.
      * intros ([n' name] & -> & Hin)%list_elem_of_fmap. pose proof (Hname _ Hin) as En. cbn in *. injection En as ->.
        rewrite merge_sort_Permutation, Hu in Hin. destruct Hin as [Hi Ei]. split; [by eapply segment_number_range|done].
      * intros [Hr Hi]. apply list_elem_of_fmap. exists (n, segment_name n). split; [done|]. rewrite merge_sort_Permutation, Hu.
        split; [done|by apply segment_number_name].
  - transitivity (map (fun n => (n, segment_name n)) (map sg_n L)); [|by rewrite List.map_map]. rewrite <- E. clear -Hname.
    induction (merge_sort seg_le u) as [|e l IH]; [done|]. cbn. rewrite <- (Hname e) by left. f_equal. apply IH. intros e' He'. apply Hname. by right.
Qed.

(** The changes of the directory. *)
Lemma stored_range f L s : stored f L -> s ∈ L -> 0 <= sg_n s <= U64_MAX /\ exists fl, f !! segment_name (sg_n s) = Some fl /\ lf_bytes fl = seg_content s /\ lf_modified fl = sg_written s.
Proof.
  intros HL Hs. split; [apply (so_numbers _ _ HL); by apply list_elem_of_fmap_2|]. pose proof (so_files _ _ HL) as Hf. rewrite list.Forall_forall in Hf. by apply Hf.
Qed.
Lemma stored_other f L name fl : segment_number name = None -> stored f L -> stored (<[name := fl]> f) L.
Proof.
  intros Hname [Hc Hs Hn Hf Hl]. assert (forall n, 0 <= n <= U64_MAX -> name <> segment_name n) as Hne.
  { intros n Hr ->. by rewrite segment_number_name in Hname. }
  split; [..|done].
  - intros k n. rewrite lookup_insert_is_Some. intros [<-|[_ Hi]] E; [congruence|by apply Hc].
  - done.
  - intros n. rewrite Hn, lookup_insert_is_Some. split; [intros [Hr Hi]; split; [done|]; right; split; [by apply Hne|done]|].
    intros [Hr [E|[_ Hi]]]; [by destruct (Hne n Hr)|done].
  - apply list.Forall_forall. intros s Hin. rewrite list.Forall_forall in Hf. destruct (Hf _ Hin) as (g & Hg & Hb). exists g.
    rewrite lookup_insert_ne; [done|]. apply Hne. apply Hn. by apply list_elem_of_fmap_2.
Qed.
Lemma sorted_distinct L1 s L2 x : StronglySorted Z.lt (map sg_n (L1 ++ s :: L2)) -> x ∈ L1 ++ L2 -> sg_n x <> sg_n s.
Proof.
  rewrite map_app. cbn. intros (Hx1 & _ & [_ Hx2]%StronglySorted_inv)%StronglySorted_app [Hx|Hx]%elem_of_app E.
  - assert (sg_n x < sg_n s); [|lia]. apply Hx1; [by apply list_elem_of_fmap_2|left].
  - rewrite list.Forall_forall in Hx2. assert (sg_n s < sg_n x); [|lia]. apply Hx2. by apply list_elem_of_fmap_2.
Qed.
Lemma stored_distinct f L1 s L2 x : stored f (L1 ++ s :: L2) -> x ∈ L1 ++ L2 -> segment_name (sg_n s) <> segment_name (sg_n x).
Proof.
  intros HL Hx E. apply segment_name_inj in E; [|apply (stored_range _ _ _ HL); set_solver..].
  by apply (sorted_distinct L1 s L2 x (so_sorted _ _ HL)).
Qed.
Lemma stored_put f L1 L2 s s' fl : stored f (L1 ++ s :: L2) -> sg_n s' = sg_n s -> lf_bytes fl = seg_content s' -> lf_modified fl = sg_written s' ->
  record_lines (sg_lines s') -> LF ∉ sg_torn s' -> stored (<[segment_name (sg_n s) := fl]> f) (L1 ++ s' :: L2).
Proof.
  intros HL En Eb Em Hr Ht. destruct (stored_range _ _ s HL) as [Hrange [g [Hg _]]]; [set_solver|].
  assert (map sg_n (L1 ++ s' :: L2) = map sg_n (L1 ++ s :: L2)) as Enum by (rewrite !map_app; cbn; by rewrite En).
  assert (forall x, x ∈ L1 ++ L2 -> <[segment_name (sg_n s) := fl]> f !! segment_name (sg_n x) = f !! segment_name (sg_n x)) as Hne.
  { intros x Hx. rewrite lookup_insert_ne; [done|]. by apply (stored_distinct f L1 s L2). }
  destruct HL as [Hc Hs Hn Hf Hl]. split.
  - intros k n. rewrite lookup_insert_is_Some. intros [<-|[_ Hi]] E; [|by apply Hc]. rewrite segment_number_name in E by done. by injection E as <-.
  - by rewrite Enum.
  - intros n. rewrite Enum, Hn, lookup_insert_is_Some. split; [|intros [Hr' [E|[_ Hi]]]; split; try done; rewrite <- E; by rewrite Hg].
    intros [Hr' Hi]. split; [done|]. destruct (decide (segment_name (sg_n s) = segment_name n)); auto.
  - rewrite list.Forall_app, list.Forall_cons in Hf |- *. destruct Hf as (Hf1 & _ & Hf2). split; [|split].
    + rewrite list.Forall_forall in Hf1 |- *. intros x Hx. rewrite Hne by set_solver. auto.
    + exists fl. by rewrite En, lookup_insert_eq.
    + rewrite list.Forall_forall in Hf2 |- *. intros x Hx. rewrite Hne by set_solver. auto.
  - rewrite list.Forall_app, list.Forall_cons in Hl |- *. naive_solver.
Qed.
Lemma stored_delete f L1 L2 s : stored f (L1 ++ s :: L2) -> stored (delete (segment_name (sg_n s)) f) (L1 ++ L2).
Proof.
  intros HL. destruct (stored_range _ _ s HL) as [Hrange _]; [set_solver|].
  assert (forall x, x ∈ L1 ++ L2 -> delete (segment_name (sg_n s)) f !! segment_name (sg_n x) = f !! segment_name (sg_n x)) as Hne.
  { intros x Hx. rewrite lookup_delete_ne; [done|]. by apply (stored_distinct f L1 s L2). }
  assert (forall n, n ∈ map sg_n (L1 ++ L2) <-> n ∈ map sg_n (L1 ++ s :: L2) /\ n <> sg_n s) as Hin.
  { intros n. split.
    - intros (x & -> & Hx)%list_elem_of_fmap. split; [apply list_elem_of_fmap_2; set_solver|]. by apply (sorted_distinct L1 s L2 x (so_sorted _ _ HL)).
    - intros [(x & -> & Hx)%list_elem_of_fmap Hd]. apply list_elem_of_fmap_2. set_solver. }
  destruct HL as [Hc Hs Hn Hf Hl]. split.
  - intros k n. rewrite lookup_delete_is_Some. intros [_ Hi]. by apply Hc.
  - rewrite map_app in Hs |- *. cbn in Hs. apply StronglySorted_app in Hs as (Hs1 & Hs2 & [Hs3 _]%StronglySorted_inv). apply StronglySorted_app.
    split; [|done]. intros x y Hx Hy. apply Hs1; [done|by right].
  - intros n. rewrite Hin, Hn, lookup_delete_is_Some. split; [intros [[Hr Hi] Hd]; split; [done|]|intros (Hr & Hd & Hi); split; [done|congruence]].
    split; [|done]. intros E%segment_name_inj; [congruence|done..].
  - apply list.Forall_forall. intros x Hx. rewrite Hne by done. rewrite list.Forall_forall in Hf. apply Hf. set_solver.
  - rewrite list.Forall_app, list.Forall_cons in Hl. apply list.Forall_app. naive_solver.
Qed.
Lemma stored_new f L n fl : stored f L -> Forall (fun s => sg_n s < n) L -> 0 <= n <= U64_MAX -> lf_bytes fl = [] ->
  stored (<[segment_name n := fl]> f) (L ++ [{| sg_n := n; sg_lines := []; sg_torn := []; sg_written := lf_modified fl |}]).
Proof.
  intros HL Hlt Hn Eb. assert (forall x, x ∈ L -> <[segment_name n := fl]> f !! segment_name (sg_n x) = f !! segment_name (sg_n x)) as Hne.
  { intros x Hx. rewrite list.Forall_forall in Hlt. rewrite lookup_insert_ne; [done|]. intros E%segment_name_inj; [specialize (Hlt _ Hx); lia|done|].
    by apply (stored_range _ _ _ HL). }
  destruct HL as [Hc Hs Hnum Hf Hl]. split.
  - intros k m. rewrite lookup_insert_is_Some. intros [<-|[_ Hi]] E; [|by apply Hc]. rewrite segment_number_name in E by done. by injection E as <-.
  - rewrite map_app. apply StronglySorted_app. split; [|split; [done|repeat constructor]]. intros x y (s & -> & Hx)%list_elem_of_fmap Hy.
    cbn in Hy. apply list_elem_of_singleton in Hy as ->. rewrite list.Forall_forall in Hlt. auto.
  - intros m. rewrite map_app, elem_of_app, Hnum, lookup_insert_is_Some. cbn. rewrite list_elem_of_singleton. split.
    + intros [[Hr Hi]| ->]; [|by auto]. split; [done|]. destruct (decide (segment_name n = segment_name m)); auto.
    + intros [Hr [E|[_ Hi]]]; [right; by apply segment_name_inj in E|by left].
  - apply list.Forall_app. split; [|constructor; [|done]].
    + apply list.Forall_forall. intros x Hx. rewrite Hne by done. rewrite list.Forall_forall in Hf. auto.
    + exists fl. cbn [sg_n]. by rewrite lookup_insert_eq.
  - apply list.Forall_app. split; [done|]. constructor; [|done]. split; [constructor|cbn; set_solver].
Qed.
End state.

(** * The audit log through its history

    The chain of the directory and what each operation does to it, for every
    choice of the calls that fail. *)

(** ** Operations on the disk *)

(** From files of [P], at the time [now], the operation leaves files of [Q],
    which also says what it gave, if it did not fail. *)
Definition triple {A} (now : Z) (P : gmap string LogFile -> Prop) (m : IO A) (Q : option A -> gmap string LogFile -> Prop) : Prop :=
  forall d d' r, dk_now d = now -> P (dk_files d) -> m d = (d', r) ->
    dk_now d' = now /\ Q (match r with Ok a => Some a | Err _ => None end) (dk_files d').

Lemma t_conseq {A} now P P' (m : IO A) Q Q' : triple now P m Q -> (forall f, P' f -> P f) -> (forall a f, Q a f -> Q' a f) -> triple now P' m Q'.
Proof. intros Hm HP HQ d d' r Hn Hp E. destruct (Hm d d' r Hn (HP _ Hp) E). auto. Qed.
Lemma t_pre {A} now P P' (m : IO A) Q : (forall f, P' f -> P f) -> triple now P m Q -> triple now P' m Q.
Proof. intros HP Hm. eapply t_conseq; [exact Hm|done|auto]. Qed.
Lemma t_ret {A} now P (a : A) (Q : option A -> _ -> Prop) : (forall f, P f -> Q (Some a) f) -> triple now P (mret a) Q.
Proof. intros HQ d d' r Hn Hp [= <- <-]. auto. Qed.
Lemma t_fail {A} now P e (Q : option A -> _ -> Prop) : (forall f, P f -> Q None f) -> triple now P (io_fail e) Q.
Proof. intros HQ d d' r Hn Hp [= <- <-]. auto. Qed.
Lemma t_bind {A B} now P (m : IO A) (k : A -> IO B) R Q : triple now P m R -> (forall f, R None f -> Q None f) ->
  (forall a, triple now (R (Some a)) (k a) Q) -> triple now P (m ≫= k) Q.
Proof.
  intros Hm HE Hk d d' r Hn Hp E. unfold mbind, io_bind in E. destruct (m d) as [d1 [a|e]] eqn:Em.
  - destruct (Hm d d1 (Ok a) Hn Hp Em) as [Hn1 HR]. by eapply Hk.
  - injection E as <- <-. destruct (Hm d d1 (Err e) Hn Hp Em). auto.
Qed.
(** What the files say that does not speak of them. *)
Lemma t_pure {A} now P (phi : Prop) (m : IO A) Q : (forall f, P f -> phi) -> (phi -> triple now P m Q) -> triple now P m Q.
Proof. intros Hphi Hm d d' r Hn Hp. apply Hm; [by eapply Hphi|done..]. Qed.
Lemma t_exists {A X} now (P : X -> _ -> Prop) (m : IO A) Q : (forall x, triple now (P x) m Q) -> triple now (fun f => exists x, P x f) m Q.
Proof. intros Hm d d' r Hn [x Hp]. by apply (Hm x). Qed.
Lemma t_attempt {B} now P (k : () -> IO B) (Q : option B -> _ -> Prop) : (forall f, P f -> Q None f) -> triple now P (k ()) Q -> triple now P (attempt ≫= k) Q.
Proof.
  intros HE Hk. apply (t_bind _ _ _ _ (fun _ f => P f)); [|done|by intros []]. intros d d' r Hn Hp [= <- _]. by split.
Qed.
Lemma t_attempt_end now P (Q : option () -> _ -> Prop) : (forall a f, P f -> Q a f) -> triple now P attempt Q.
Proof. intros HQ d d' r Hn Hp [= <- _]. cbn. auto. Qed.
Lemma t_get {A B} now P (g : gmap string LogFile -> A) (k : A -> IO B) Q :
  (forall a, triple now (fun f => P f /\ g f = a) (k a) Q) -> triple now P (io_get (fun d => g (dk_files d)) ≫= k) Q.
Proof. intros Hk d d' r Hn Hp E. by apply (Hk (g (dk_files d)) d d' r Hn). Qed.
Lemma t_now {B} now P (k : Z -> IO B) Q : triple now P (k now) Q -> triple now P (io_get dk_now ≫= k) Q.
Proof. intros Hk d d' r Hn Hp E. apply (Hk d d' r Hn Hp). by rewrite <- Hn. Qed.
Lemma t_file {B} now P name (k : LogFile -> IO B) (Q : option B -> _ -> Prop) :
  (forall fl, triple now (fun f => P f /\ f !! name = Some fl) (k fl) Q) -> (forall f, P f -> f !! name = None -> Q None f) ->
  triple now P (get_file name ≫= k) Q.
Proof.
  intros Hk HE d d' r Hn Hp. unfold get_file, mbind, io_bind, io_get, io_lift. destruct (dk_files d !! name) as [fl|] eqn:El.
  - intros E. by apply (Hk fl d d' r Hn).
  - intros [= <- <-]. auto.
Qed.
Lemma t_read {B} now P name (k : list Z -> IO B) (Q : option B -> _ -> Prop) :
  (forall fl, triple now (fun f => P f /\ f !! name = Some fl) (k (lf_bytes fl)) Q) -> (forall f, P f -> Q None f) ->
  triple now P (read_file name ≫= k) Q.
Proof.
  intros Hk HE d d' r Hn Hp. unfold read_file, get_file, attempt, mbind, io_bind, io_get, io_lift, mret, io_ret.
  destruct (next_fault d); cbn [dk_files take_fault]; [|intros [= <- <-]; cbn; auto..].
  destruct (dk_files d !! name) as [fl|] eqn:El; [|intros [= <- <-]; cbn; auto]. intros E. by apply (Hk fl (take_fault d) d' r Hn).
Qed.
Lemma put_files name bs d : exists ino, dk_files (put_bytes name bs d) = <[name := {| lf_bytes := bs; lf_modified := dk_now d; lf_ino := ino |}]> (dk_files d)
  /\ dk_now (put_bytes name bs d) = dk_now d.
Proof. unfold put_bytes. destruct (dk_files d !! name); eexists; by cbn. Qed.
Lemma t_set_len now P name len (Q : option () -> _ -> Prop) : (forall f, P f -> Q None f) ->
  (forall f fl ino, P f -> f !! name = Some fl ->
     Q (Some ()) (<[name := {| lf_bytes := resize (Z.to_nat len) (lf_bytes fl); lf_modified := now; lf_ino := ino |}]> f)) ->
  triple now P (set_len name len) Q.
Proof.
  intros HE HQ. unfold set_len. apply t_attempt; [done|]. apply t_file; [|auto]. intros fl d d' r Hn [Hp Hl] [= <- <-].
  destruct (put_files name (resize (Z.to_nat len) (lf_bytes fl)) d) as (ino & -> & ->). rewrite Hn. split; [done|]. auto.
Qed.
Lemma t_remove now P name (Q : option () -> _ -> Prop) : (forall f, P f -> Q None f) -> (forall f, P f -> Q (Some ()) (delete name f)) ->
  triple now P (remove_file name) Q.
Proof.
  intros HE HQ. unfold remove_file. apply t_attempt; [done|]. apply t_file; [|auto]. intros fl d d' r Hn [Hp Hl] [= <- <-]. cbn. auto.
Qed.
(** A file that is opened is there already, or new and empty. *)
Lemma t_open_own {B} now P name (k : () -> IO B) P' (Q : option B -> _ -> Prop) : (forall f, P f -> Q None f) ->
  (forall f, P f -> is_Some (f !! name) -> P' f) ->
  (forall f ino, P f -> f !! name = None -> P' (<[name := {| lf_bytes := []; lf_modified := now; lf_ino := ino |}]> f)) ->
  (forall f, P' f -> Q None f) -> triple now P' (k ()) Q -> triple now P (open_own_file name ≫= k) Q.
Proof.
  intros HE Hold Hnew HE' Hk. apply (t_bind _ _ _ _ (fun a f => match a with Some _ => P' f | None => P f \/ P' f end)).
  - unfold open_own_file. do 2 (apply t_attempt; [by left|]). apply (t_bind _ _ _ _ (fun _ => P')); [|by right|].
    + intros d d' r Hn Hp [= <- <-]. destruct (dk_files d !! name) as [fl|] eqn:El; [split; [done|]; apply Hold; [done|by rewrite El]|].
      destruct (put_files name [] d) as (ino & -> & ->). rewrite Hn. split; [done|]. by apply Hnew.
    + intros []. apply t_attempt_end. intros [[]|] f Hf; [done|by right].
  - intros f [Hp|Hp]; auto.
  - by intros [].
Qed.

(** ** The chain across segments *)

Section history.
Context `{Sha256Laws} `{AuditJsonLaws}.

(** What the check of the directory carries from a segment to the next. *)
Definition next_prev (prev : option (Z * option string * bool)) (s : Seg) : option (Z * option string * bool) :=
  Some (sg_n s, chain_head (start_for prev (sg_n s)) (sg_lines s), existsb revokes (sg_lines s)).
Definition after (prev : option (Z * option string * bool)) (L : list Seg) := foldl next_prev prev L.

(** Each segment is chained to what comes before it, and only the last may
    hold no record. *)
Fixpoint good (prev : option (Z * option string * bool)) (L : list Seg) : Prop :=
  match L with
  | [] => True
  | s :: rest => chained (start_for prev (sg_n s)) (sg_lines s) /\ (rest <> [] -> sg_lines s <> []) /\ good (next_prev prev s) rest
  end.

Lemma good_app prev L M : good prev (L ++ M) <-> good prev L /\ (M <> [] -> Forall (fun s => sg_lines s <> []) L) /\ good (after prev L) M.
Proof.
  revert prev. induction L as [|s L IH]; intros prev; [by cbn; intuition|]. cbn [app good after foldl]. rewrite IH. unfold after.
  assert (L ++ M <> [] <-> L <> [] \/ M <> []) as Hne by (destruct L, M; cbn; intuition congruence). rewrite Hne, list.Forall_cons. intuition.
Qed.
Lemma chain_head_any a b ls : ls <> [] -> chain_head a ls = chain_head b ls.
Proof. destruct ls as [|l ls _] using rev_ind; [done|]. by rewrite !chain_head_snoc. Qed.
Lemma good_prev p q s L : chained (start_for q (sg_n s)) (sg_lines s) -> good p (s :: L) -> good q (s :: L).
Proof.
  cbn [good]. intros Hc (_ & Hn & Hg). do 2 (split; [done|]). destruct L as [|x L]; [done|].
  unfold next_prev in *. by rewrite (chain_head_any (start_for q (sg_n s)) (start_for p (sg_n s))) by (by apply Hn).
Qed.

(** A segment may go when every segment kept before it holds a revocation. *)
Lemma good_drop K s R : good None (K ++ s :: R) -> R <> [] -> Forall (fun x => existsb revokes (sg_lines x) = true) K ->
  StronglySorted Z.lt (map sg_n (K ++ s :: R)) -> Forall (Z.le 0) (map sg_n (K ++ s :: R)) -> good None (K ++ R).
Proof.
  intros Hg HR HK Hs Hpos. apply good_app in Hg as (Hg1 & Hne & Hg2). apply good_app. split; [done|]. split; [intros _; by apply Hne|].
  destruct R as [|y R]; [done|]. cbn [good] in Hg2. destruct Hg2 as (_ & _ & Hg2). eapply good_prev; [|exact Hg2].
  destruct Hg2 as (Hc & _). enough (start_for (after None K) (sg_n y) = None) as -> by (by eapply chained_any).
  rewrite map_app in Hs. cbn in Hs. apply StronglySorted_app in Hs as (Hs1 & _ & [Hs2 Hs3]%StronglySorted_inv).
  apply list.Forall_cons in Hs3 as [Hxy _]. rewrite map_app in Hpos. cbn in Hpos. apply list.Forall_app in Hpos as [HposK [Hp _]%list.Forall_cons].
  unfold start_for. rewrite (proj2 (Z.eqb_neq _ _)) by lia. destruct K as [|m K _] using rev_ind; [done|].
  unfold after. rewrite foldl_app. cbn. apply list.Forall_app in HK as [_ [-> _]%list.Forall_cons].
  assert (sg_n m < sg_n s) as Hms by (apply Hs1; [apply list_elem_of_fmap_2; set_solver|left]).
  rewrite bool_decide_false; [done|]. unfold checked_succ. destruct (_ <? _); [|done]. intros [= E]. lia.
Qed.

(** ** What the log knows of the directory *)

Definition accepts (start : option string) (h : string) : Prop := forall s, start = Some s -> s = h.
Definition with_lines (s : Seg) (ls : list (list Z)) (w : Z) : Seg := {| sg_n := sg_n s; sg_lines := ls; sg_torn := []; sg_written := w |}.
(** A line that carries [h] may follow the lines of [s]. *)
Definition takes (L : list Seg) (s : Seg) (h : string) : Prop :=
  forall l w, carried_hash l = Some (bytes h) -> good None (L ++ [with_lines s (sg_lines s ++ [l]) w]).
Definition dir_ok (f : gmap string LogFile) (L : list Seg) : Prop := stored f L /\ good None L.
Definition fresh (n w : Z) : Seg := {| sg_n := n; sg_lines := []; sg_torn := []; sg_written := w |}.
Definition with_torn (s : Seg) (t : list Z) (w : Z) : Seg := {| sg_n := sg_n s; sg_lines := sg_lines s; sg_torn := t; sg_written := w |}.

(** The segment at the log's path holds whole lines of the log's length, and
    a record that carries the log's head is one the chain accepts there; it
    is the last segment, but for one that a failed rotation left empty. *)
Record tracks (log : AuditLog) (L0 : list Seg) (s : Seg) (rest : list Seg) (rot : Rotation) : Prop := {
  tk_path : al_path log = segment_name (sg_n s);
  tk_rotation : al_rotation log = Some (sg_n s, rot);
  tk_len : al_len log = Z.of_nat (length (written_lines (sg_lines s)));
  tk_whole : sg_torn s = [];
  tk_hash : is_hash_text (al_head log) = true;
  tk_head : takes L0 s (al_head log);
  tk_last : forall l, list.last (sg_lines s) = Some l -> al_head log = line_hash l;
  tk_rest : rest = [] \/ ((exists w, rest = [fresh (sg_n s + 1) w]) /\ sg_lines s <> [] /\ ro_bound rot <= al_len log);
}.

(** The last segment: its torn bytes, a record more, or a new one. *)
Lemma last_torn f L s t fl : dir_ok f (L ++ [s]) -> LF ∉ t -> lf_bytes fl = written_lines (sg_lines s) ++ t ->
  dir_ok (<[segment_name (sg_n s) := fl]> f) (L ++ [with_torn s t (lf_modified fl)]).
Proof.
  intros [Hst Hg] Ht Eb. split.
  2: { apply good_app in Hg as (Hg1 & Hne & Hc). apply good_app. split; [done|]. split; [intros _; by apply Hne|exact Hc]. }
  apply (stored_put f L [] s); [done..| |done].
  pose proof (so_lines _ _ Hst) as Hl. apply list.Forall_app in Hl as [_ [[Hl _] _]%list.Forall_cons]. done.
Qed.
Lemma accepts_takes L s h : good None (L ++ [s]) -> accepts (chain_head (start_for (after None L) (sg_n s)) (sg_lines s)) h -> takes L s h.
Proof.
  intros (Hg1 & Hne & Hc & _)%good_app Ha l w Hl. apply good_app. split; [done|]. split; [intros _; by apply Hne|]. cbn [good with_lines sg_n sg_lines].
  split; [|done]. apply chained_app. split; [done|]. exists (bytes h). split; [done|]. split; [|done]. intros x Hx. by rewrite (Ha x Hx).
Qed.
Lemma last_record f L s l r fl : dir_ok f (L ++ [s]) -> record_line l r -> takes L s (ar_previous_hash r) ->
  lf_bytes fl = written_lines (sg_lines s) ++ l ++ [LF] ->
  dir_ok (<[segment_name (sg_n s) := fl]> f) (L ++ [with_lines s (sg_lines s ++ [l]) (lf_modified fl)]).
Proof.
  intros [Hst Hg] Hr Ha Eb. pose proof (so_lines _ _ Hst) as Hl. apply list.Forall_app in Hl as [_ [[Hl _] _]%list.Forall_cons]. split.
  - apply (stored_put f L [] s); [done|done|unfold seg_content; cbn; by rewrite written_snoc, app_nil_r|done| |cbn; set_solver].
    apply list.Forall_app. split; [done|]. repeat constructor. by exists r.
  - by apply Ha, record_carried.
Qed.
Lemma last_new f L n fl : dir_ok f L -> Forall (fun s => sg_lines s <> []) L -> Forall (fun s => sg_n s < n) L -> 0 <= n <= U64_MAX -> lf_bytes fl = [] ->
  dir_ok (<[segment_name n := fl]> f) (L ++ [fresh n (lf_modified fl)]).
Proof. intros [Hst Hg] Hne Hlt Hn Eb. split; [by apply stored_new|]. apply good_app. by repeat split. Qed.

(** ** Opening a segment *)

Lemma t_read_tail {B} now P bs (k : Z * list Z -> IO B) (Q : option B -> _ -> Prop) : (forall f, P f -> Q None f) ->
  (forall start tail, tail_tells bs start tail -> triple now P (k (start, tail)) Q) -> triple now P (read_tail bs ≫= k) Q.
Proof.
  intros HE Hk. apply (t_bind _ _ _ _ (fun a f => match a with Some (start, tail) => tail_tells bs start tail /\ P f | None => P f end)).
  - assert (forall fuel start tail, triple now P (tail_loop fuel bs start tail) (fun _ f => P f)) as Hloop.
    { induction fuel as [|fuel IH]; intros start tail; cbn [tail_loop]; [by apply t_ret|]. destruct (start <=? 0); [by apply t_ret|].
      apply t_attempt; [done|]. destruct (tail_enough _); [by apply t_ret|apply IH]. }
    intros d d' r Hn Hp E. assert (triple now P (read_tail bs) (fun _ f => P f)) as Ht by (apply t_attempt; [done|apply Hloop]).
    destruct (Ht d d' r Hn Hp E) as [Hn' Hp']. split; [done|]. destruct r as [[start tail]|]; [|done]. split; [by eapply read_tail_tells|done].
  - done.
  - intros [start tail]. eapply t_conseq; [|intros f Hf; exact Hf|done]. intros d d' r Hn [Ht Hp] E. by apply (Hk start tail Ht d d' r).
Qed.

Lemma head_hash_written ls : Forall plain_line ls -> head_hash (written_lines ls) = match list.last ls with Some l => line_hash l | None => ZERO_HASH end.
Proof.
  intros Hls. unfold head_hash. rewrite split_written by done. destruct ls as [|l ls _] using rev_ind; [done|]. rewrite last_snoc.
  apply list.Forall_app in Hls as [_ [(_ & Hne & Hcr) _]%list.Forall_cons]. rewrite !rev_app_distr. cbn. rewrite Hcr. unfold nonempty_line.
  by rewrite bool_decide_false.
Qed.
Lemma resize_prefix a t : resize (length a) (a ++ t) = a.
Proof. unfold resize. rewrite take_app_length, length_app. replace (_ - _)%nat with 0%nat by lia. apply app_nil_r. Qed.

(** What an open gives of a segment with these lines. *)
Record opened (n : Z) (ls : list (list Z)) (log : AuditLog) : Prop := {
  on_path : al_path log = segment_name n;
  on_head : al_head log = match list.last ls with Some l => line_hash l | None => ZERO_HASH end;
  on_len : al_len log = Z.of_nat (length (written_lines ls));
  on_poisoned : al_poisoned log = false;
}.
Definition open_post (now : Z) (L : list Seg) (s : Seg) (a : option AuditLog) (f : gmap string LogFile) : Prop :=
  match a with
  | Some log => opened (sg_n s) (sg_lines s) log /\ exists w, dir_ok f (L ++ [with_torn s [] w]) /\ (w = sg_written s \/ w = now)
  | None => exists t w, dir_ok f (L ++ [with_torn s t w]) /\ (t = sg_torn s \/ t = []) /\ (w = sg_written s \/ w = now)
  end.
Lemma open_post_same now L s f : dir_ok f (L ++ [s]) -> open_post now L s None f.
Proof. intros Hf. exists (sg_torn s), (sg_written s). split; [by destruct s|auto]. Qed.
Lemma t_open_held now L s : triple now (fun f => dir_ok f (L ++ [s])) (open_held_file (segment_name (sg_n s))) (open_post now L s).
Proof.
  assert (forall f, dir_ok f (L ++ [s]) -> open_post now L s None f) as HE by apply open_post_same. unfold open_held_file.
  do 2 (apply t_attempt; [done|]). apply t_file; [|auto]. intros fl. apply t_attempt; [naive_solver|]. apply t_read_tail; [naive_solver|].
  intros start tail Htells. set (complete := complete_len tail) in *.
  assert (forall f, dir_ok f (L ++ [s]) /\ f !! segment_name (sg_n s) = Some fl ->
    lf_bytes fl = written_lines (sg_lines s) ++ sg_torn s /\ LF ∉ sg_torn s /\ Forall plain_line (sg_lines s)) as Hfl.
  { intros f [[Hst _] Hl]. destruct (stored_range _ _ s Hst) as [_ (fl' & Hfl & Hb & _)]; [set_solver|]. rewrite Hl in Hfl. injection Hfl as <-.
    pose proof (so_lines _ _ Hst) as Hls. apply list.Forall_app in Hls as [_ [[Hls Ht] _]%list.Forall_cons]. split; [done|]. split; [done|]. by apply record_lines_plain. }
  apply (t_bind _ _ _ _ (fun a f => match a with
    | Some _ => opened (sg_n s) (sg_lines s) {| al_path := segment_name (sg_n s); al_head := head_hash (take complete tail);
                  al_len := start + Z.of_nat complete; al_poisoned := false; al_rotation := None; al_dir_lock := false |}
                /\ exists w, dir_ok f (L ++ [with_torn s [] w]) /\ (w = sg_written s \/ w = now)
    | None => open_post now L s None f end)); [|done|intros []; by apply t_ret].
  assert (forall f, dir_ok f (L ++ [s]) /\ f !! segment_name (sg_n s) = Some fl ->
    start + Z.of_nat complete = Z.of_nat (length (written_lines (sg_lines s))) /\
    head_hash (take complete tail) = head_hash (written_lines (sg_lines s)) /\ (length tail - complete = length (sg_torn s))%nat) as Htl.
  { intros f Hf. destruct (Hfl f Hf) as (Eb & Ht & Hp). destruct Htells as (E1 & E2 & E3). fold complete in E1, E2, E3.
    rewrite Eb, complete_len_written in E1, E2, E3 by done. rewrite take_app_length in E2. rewrite length_app in E3. repeat (split; [done|]). lia. }
  assert (forall f, dir_ok f (L ++ [s]) /\ f !! segment_name (sg_n s) = Some fl ->
    opened (sg_n s) (sg_lines s) {| al_path := segment_name (sg_n s); al_head := head_hash (take complete tail);
      al_len := start + Z.of_nat complete; al_poisoned := false; al_rotation := None; al_dir_lock := false |}) as Hop.
  { intros f Hf. destruct (Htl f Hf) as (E1 & E2 & _). destruct (Hfl f Hf) as (_ & _ & Hp). split; [done| |done..]. cbn. by rewrite E2, head_hash_written. }
  destruct (complete <? length tail)%nat eqn:Ec.
  - apply t_set_len; [naive_solver|]. intros f fl' ino Hf Hl'. destruct (Hfl f Hf) as (Eb & Ht & Hp). destruct (Htl f Hf) as (E1 & _).
    rewrite (proj2 Hf) in Hl'. injection Hl' as <-. split; [by eapply Hop|]. exists now. split; [|by right].
    rewrite E1, Nat2Z.id, Eb, resize_prefix. apply (last_torn f L s [] {| lf_bytes := written_lines (sg_lines s); lf_modified := now; lf_ino := ino |});
      [by destruct Hf|set_solver|cbn; by rewrite app_nil_r].
  - apply t_ret. intros f Hf. split; [by eapply Hop|]. exists (sg_written s). split; [|by left]. destruct (Htl f Hf) as (_ & _ & E3).
    apply Nat.ltb_ge in Ec. assert (sg_torn s = []) as Et by (apply nil_length_inv; lia). destruct Hf as [Hf _]. unfold with_torn. rewrite <- Et. by destruct s.
Qed.

Lemma t_open_last now L s : triple now (fun f => dir_ok f (L ++ [s])) (open_log (segment_name (sg_n s))) (open_post now L s).
Proof.
  unfold open_log. apply t_attempt; [apply open_post_same|].
  apply (t_open_own _ _ _ _ (fun f => dir_ok f (L ++ [s]))); [apply open_post_same|done| |apply open_post_same|apply t_open_held].
  intros f ino [Hst _] Hnone. destruct (stored_range _ _ s Hst) as [_ (fl & Hfl & _)]; [set_solver|]. congruence.
Qed.
Lemma t_open_new now L n : Forall (fun s => sg_lines s <> []) L -> Forall (fun s => sg_n s < n) L -> 0 <= n <= U64_MAX ->
  triple now (fun f => dir_ok f L) (open_log (segment_name n)) (fun a f => open_post now L (fresh n now) a f \/ (a = None /\ dir_ok f L)).
Proof.
  intros Hne Hlt Hn. unfold open_log. apply t_attempt; [auto|].
  apply (t_open_own _ _ _ _ (fun f => dir_ok f (L ++ [fresh n now]))).
  - auto.
  - intros f [Hst _] Hi. assert (n ∈ map sg_n L) as Hin by (by apply (so_numbers _ _ Hst)). apply list_elem_of_fmap in Hin as (x & -> & Hx).
    rewrite list.Forall_forall in Hlt. specialize (Hlt _ Hx). lia.
  - intros f ino Hf _. by apply (last_new f L n {| lf_bytes := []; lf_modified := now; lf_ino := ino |}).
  - intros f Hf. left. by apply open_post_same.
  - eapply t_conseq; [apply (t_open_held now L (fresh n now))|done|]. auto.
Qed.

(** ** Pruning *)

(** A revocation of [t0] is in a segment last written since. *)
Definition since (t0 : Z) (l : list Z) (L : list Seg) : Prop := exists s, s ∈ L /\ l ∈ sg_lines s /\ t0 <= sg_written s.
Definition keeps (now c : Z) (L L' : list Seg) : Prop := forall t0 l, revokes l = true -> t0 <= now < t0 + c -> since t0 l L -> since t0 l L'.
Lemma keeps_refl now c L : keeps now c L L.
Proof. by intros t0 l _ _. Qed.
Lemma keeps_trans now c L1 L2 L3 : keeps now c L1 L2 -> keeps now c L2 L3 -> keeps now c L1 L3.
Proof. intros H12 H23 t0 l Hl Ht Hs. apply H23; auto. Qed.
(** The last segment changes and keeps its lines. *)
Lemma keeps_last now c L s s' : (forall l, l ∈ sg_lines s -> l ∈ sg_lines s') -> sg_written s' = sg_written s \/ sg_written s' = now ->
  keeps now c (L ++ [s]) (L ++ [s']).
Proof.
  intros Hl Hw t0 l _ Ht (x & Hx & Hlx & Hwx). apply elem_of_app in Hx as [Hx|Hx%list_elem_of_singleton]; [exists x; set_solver|subst x].
  exists s'. split; [set_solver|]. split; [auto|]. destruct Hw; lia.
Qed.

(** What a prune does before the segments [R] that it never touches, and
    whatever those hold. *)
Record pruned (now c : Z) (R A A' : list Seg) : Prop := {
  pr_keeps : keeps now c (A ++ R) (A' ++ R);
  pr_good R2 : map sg_n R2 = map sg_n R -> good None (A ++ R2) -> good None (A' ++ R2);
}.
Lemma pruned_refl now c R A : pruned now c R A A.
Proof. split; [apply keeps_refl|done]. Qed.
Lemma pruned_trans now c R A B C : pruned now c R A B -> pruned now c R B C -> pruned now c R A C.
Proof. intros [K1 G1] [K2 G2]. split; [by eapply keeps_trans|auto]. Qed.
Lemma stored_positive f L : stored f L -> Forall (Z.le 0) (map sg_n L).
Proof. intros Hst. apply list.Forall_forall. intros n Hn. apply (so_numbers _ _ Hst) in Hn. lia. Qed.
Lemma prune_one now c f K s F R : dir_ok f (K ++ s :: F ++ R) -> R <> [] -> Forall (fun x => existsb revokes (sg_lines x) = true) K ->
  (existsb revokes (sg_lines s) = false \/ exists u, time_checked_add (sg_written s) c = Some u /\ u <= now) ->
  dir_ok (delete (segment_name (sg_n s)) f) (K ++ F ++ R) /\ pruned now c R (K ++ s :: F) (K ++ F).
Proof.
  intros [Hst Hg] HR HK Hgo. pose proof (so_sorted _ _ Hst) as Hs. pose proof (stored_positive _ _ Hst) as Hp.
  assert (forall R2, map sg_n R2 = map sg_n R -> good None (K ++ s :: F ++ R2) -> good None (K ++ F ++ R2)) as Hdrop.
  { intros R2 E Hg2. assert (map sg_n (K ++ s :: F ++ R2) = map sg_n (K ++ s :: F ++ R)) as En by (rewrite !map_app; cbn; by rewrite !map_app, E).
    eapply good_drop; [exact Hg2| |done|by rewrite En..]. intros [_ ->]%app_eq_nil. by destruct R. }
  split; [split; [by apply stored_delete|by apply Hdrop]|]. split; [|intros R2 E; rewrite <- !app_assoc; by apply Hdrop].
  intros t0 l Hl Ht (x & Hx & Hlx & Hw). rewrite <- app_assoc in Hx |- *. cbn in Hx. exists x. split; [|done].
  assert (x <> s); [|set_solver]. intros ->. destruct Hgo as [Hno|(u & Hu & Hle)].
  - apply not_true_iff_false in Hno. apply Hno, existsb_exists. exists l. by rewrite <- list_elem_of_In.
  - unfold time_checked_add in Hu. destruct (_ <=? _); [|done]. injection Hu as <-. lia.
Qed.
Lemma t_prune_each now rot K F R removed : R <> [] -> Forall (fun x => existsb revokes (sg_lines x) = true) K ->
  triple now (fun f => dir_ok f (K ++ F ++ R)) (prune_each rot (map (fun s => (sg_n s, segment_name (sg_n s))) F) removed)
    (fun _ f => exists A, dir_ok f (A ++ R) /\ pruned now (ro_revocation_ceiling rot) R (K ++ F) A).
Proof.
  intros HR. revert K removed. induction F as [|s F IH]; intros K removed HK; set (Q := fun (_ : option (list string)) f => _).
  { apply t_ret. intros f Hf. exists K. split; [by rewrite app_nil_l in Hf|]. rewrite app_nil_r. apply pruned_refl. }
  assert (forall a f, dir_ok f (K ++ s :: F ++ R) -> Q a f) as HE.
  { intros a f Hf. exists (K ++ s :: F). rewrite <- app_assoc. split; [done|apply pruned_refl]. }
  cbn [map prune_each app]. apply t_attempt; [auto|]. apply t_file; [|auto]. intros fl. apply t_now.
  set (in_force := match time_checked_add _ _ with Some until => now <? until | None => true end).
  assert (forall f, dir_ok f (K ++ s :: F ++ R) /\ f !! segment_name (sg_n s) = Some fl -> sg_written s = lf_modified fl) as Hw.
  { intros f [[Hst _] Hl]. destruct (stored_range _ _ s Hst) as [_ (fl' & Hfl & _ & <-)]; [set_solver|]. congruence. }
  apply (t_bind _ _ _ _ (fun a f => dir_ok f (K ++ s :: F ++ R) /\
    match a with
    | Some true => existsb revokes (sg_lines s) = true
    | Some false => existsb revokes (sg_lines s) = false \/ exists u, time_checked_add (sg_written s) (ro_revocation_ceiling rot) = Some u /\ u <= now
    | None => True
    end)).
  - destruct in_force eqn:Ei.
    + apply t_read; [|by intros f [Hf _]]. intros fl'. apply t_ret. intros f [[Hf _] Hl]. split; [done|]. destruct Hf as [Hst _].
      destruct (stored_range _ _ s Hst) as [_ (fl2 & Hfl & Hb & _)]; [set_solver|]. rewrite Hl in Hfl. injection Hfl as <-.
      pose proof (so_lines _ _ Hst) as Hls. apply list.Forall_app in Hls as [_ [[Hls Ht] _]%list.Forall_cons].
      assert (complete_lines (lf_bytes fl') = sg_lines s) as Ec by (rewrite Hb; apply complete_written; [by apply record_lines_plain|done]).
      rewrite holds_revocation_records by (by rewrite Ec). rewrite Ec. destruct (existsb _ _); auto.
    + apply t_ret. intros f Hf. split; [by destruct Hf|]. right. rewrite (Hw f Hf). unfold in_force in Ei.
      destruct (time_checked_add _ _) as [u|]; [|done]. exists u. split; [done|]. by apply Z.ltb_ge.
  - intros f [Hf _]. auto.
  - intros [|].
    + apply (t_pure _ _ (existsb revokes (sg_lines s) = true)); [naive_solver|]. intros Hs.
      eapply t_conseq; [apply (IH (K ++ [s]) removed)|intros f [Hf _]; by rewrite <- app_assoc|intros a f (A & HA & Hpr)].
      * apply list.Forall_app. split; [done|]. by constructor.
      * exists A. split; [done|]. by rewrite <- app_assoc in Hpr.
    + apply (t_bind _ _ _ _ (fun a f => match a with
        | Some _ => dir_ok f (K ++ F ++ R) /\ pruned now (ro_revocation_ceiling rot) R (K ++ s :: F) (K ++ F)
        | None => dir_ok f (K ++ s :: F ++ R) end)); [|auto|].
      * apply t_remove; [naive_solver|]. intros f [Hf Hgo]. by apply prune_one.
      * intros []. apply (t_pure _ _ (pruned now (ro_revocation_ceiling rot) R (K ++ s :: F) (K ++ F))); [naive_solver|]. intros Hpr.
        eapply t_conseq; [apply (IH K (removed ++ [segment_name (sg_n s)]) HK)|naive_solver|]. intros a f (A & HA & Hpr2). exists A. split; [done|].
        by eapply pruned_trans.
Qed.

Lemma t_numbered {B} now P L (k : list (Z * string) -> IO B) (Q : option B -> _ -> Prop) : (forall f, P f -> Q None f) -> (forall f, P f -> stored f L) ->
  triple now P (k (map (fun s => (sg_n s, segment_name (sg_n s))) L)) Q -> triple now P (numbered_segments ≫= k) Q.
Proof.
  intros HE HL Hk. apply (t_bind _ _ _ _ (fun a f => P f /\ match a with Some found => found = map (fun s => (sg_n s, segment_name (sg_n s))) L | None => True end)).
  - unfold numbered_segments. apply t_attempt; [naive_solver|]. intros d d' r Hn Hp [= <- <-]. split; [done|]. split; [done|]. apply stored_numbered; auto.
  - naive_solver.
  - intros found. apply (t_pure _ _ (found = map (fun s => (sg_n s, segment_name (sg_n s))) L)); [naive_solver|]. intros ->. eapply t_conseq; [exact Hk|naive_solver|done].
Qed.
(** [prune] leaves the newest segment alone. *)
Lemma t_prune now rot A s : triple now (fun f => dir_ok f (A ++ [s])) (prune rot)
  (fun _ f => exists A', dir_ok f (A' ++ [s]) /\ pruned now (ro_revocation_ceiling rot) [s] A A').
Proof.
  unfold prune. apply (t_numbered _ _ (A ++ [s])); [intros f Hf; exists A; split; [done|apply pruned_refl]|by intros f [Hf _]|].
  rewrite length_map, length_app. set (k := (_ - _)%nat). assert (k <= length A)%nat as Hk by (unfold k; cbn; lia). clearbody k.
  assert (forall X, take k A ++ drop k A ++ X = A ++ X) as EA by (intros X; by rewrite app_assoc, take_drop).
  rewrite <- (EA [s]), map_app, take_app_length' by (rewrite length_map, length_take; lia).
  eapply t_conseq; [apply (t_prune_each now rot [] (take k A) (drop k A ++ [s]) []); [by destruct (drop k A)|by apply list.Forall_nil]|done|].
  intros a f (B & HB & [Hkeep Hgood]). cbn [app] in Hkeep, Hgood. exists (B ++ drop k A). rewrite <- app_assoc. split; [done|]. split.
  - by rewrite <- app_assoc, <- EA.
  - intros R2 E Hg. rewrite <- app_assoc. apply Hgood; [by rewrite !map_app, E|]. by rewrite EA.
Qed.

(** ** Rotating and appending *)

Lemma written_nonempty ls : ls <> [] -> (0 < length (written_lines ls))%nat.
Proof. destruct ls as [|l ls]; [done|]. intros _. unfold written_lines. rewrite bind_cons, !length_app. cbn. lia. Qed.
Lemma t_try {A B} now P (m : IO A) (k : () -> IO B) R Q : triple now P m (fun _ => R) -> triple now R (k ()) Q -> triple now P (io_try m ≫= k) Q.
Proof.
  intros Hm Hk. apply (t_bind _ _ _ _ (fun a f => match a with Some _ => R f | None => False end)); [|done|by intros []].
  intros d d' r Hn Hp [= <- <-]. destruct (m d) as [d1 r1] eqn:E. by apply (Hm d d1 r1).
Qed.

(** A new segment takes the head of the one it follows. *)
Lemma fresh_takes f log L0 s rest rot w : tracks log L0 s rest rot -> sg_lines s <> [] -> 0 <= sg_n s -> sg_n s + 1 <= U64_MAX ->
  dir_ok f (L0 ++ [s; fresh (sg_n s + 1) w]) -> takes (L0 ++ [s]) (fresh (sg_n s + 1) w) (al_head log).
Proof.
  intros Ht Hne Hpos Hn [_ Hg]. apply accepts_takes; [by rewrite <- app_assoc|]. unfold after. rewrite foldl_app. cbn [foldl fresh sg_n sg_lines].
  change (foldl next_prev None L0) with (after None L0). intros h. unfold chain_head at 1. cbn [list.last].
  unfold start_for at 1. rewrite (proj2 (Z.eqb_neq _ _)) by lia. cbn [next_prev]. unfold checked_succ. rewrite (proj2 (Z.ltb_lt _ _)) by lia.
  rewrite bool_decide_true by done. destruct (sg_lines s) as [|l ls _] eqn:El using rev_ind; [done|]. rewrite chain_head_snoc. intros [= <-].
  symmetry. apply (tk_last _ _ _ _ _ Ht). by rewrite El, last_snoc.
Qed.

Definition advanced (now c : Z) (L : list Seg) (n : Z) (rot : Rotation) (log : AuditLog) (f : gmap string LogFile) : Prop :=
  exists L0 s, dir_ok f (L0 ++ [s]) /\ tracks log L0 s [] rot /\ al_poisoned log = false /\ sg_n s <= n /\ keeps now c L (L0 ++ [s]).
Definition stalled (now c : Z) (L L0 : list Seg) (s : Seg) (rot : Rotation) (log : AuditLog) (f : gmap string LogFile) : Prop :=
  exists rest, dir_ok f (L0 ++ s :: rest) /\ tracks log L0 s rest rot /\ keeps now c L (L0 ++ s :: rest).
Lemma keeps_fresh now c L0 s rest rest' : (forall x, x ∈ rest -> sg_lines x = []) -> keeps now c (L0 ++ s :: rest) (L0 ++ s :: rest').
Proof.
  intros Hr t0 l _ _ (x & Hx & Hl & Hw). exists x. split; [|done]. apply elem_of_app in Hx as [Hx|[->|Hx]%elem_of_cons]; [set_solver..|].
  rewrite (Hr x Hx) in Hl. set_solver.
Qed.
Lemma tracks_rest log L0 s rest rot : tracks log L0 s rest rot -> forall x, x ∈ rest -> sg_lines x = [].
Proof. intros Ht x Hx. destruct (tk_rest _ _ _ _ _ Ht) as [->|([w ->] & _)]; [set_solver|]. by apply list_elem_of_singleton in Hx as ->. Qed.
Lemma tracks_stall log L0 s rest rest' rot : tracks log L0 s rest rot ->
  rest' = [] \/ ((exists w, rest' = [fresh (sg_n s + 1) w]) /\ sg_lines s <> [] /\ ro_bound rot <= al_len log) -> tracks log L0 s rest' rot.
Proof. intros [] Hr. by split. Qed.
Lemma dir_ok_front f L s rest : dir_ok f (L ++ s :: rest) ->
  Forall (fun x => sg_lines x <> []) L /\ Forall (fun x => sg_n x < sg_n s) L /\ 0 <= sg_n s <= U64_MAX.
Proof.
  intros [Hst Hg]. apply good_app in Hg as (_ & Hne & _). split; [by apply Hne|]. split.
  - pose proof (so_sorted _ _ Hst) as Hs. rewrite map_app in Hs. apply StronglySorted_app in Hs as (Hs & _ & _). apply list.Forall_forall. intros x Hx.
    apply Hs; [by apply list_elem_of_fmap_2|left].
  - apply (stored_range _ _ s Hst). set_solver.
Qed.
Lemma t_open_following now L0 s rest : sg_lines s <> [] -> sg_n s + 1 <= U64_MAX -> rest = [] \/ (exists w, rest = [fresh (sg_n s + 1) w]) ->
  triple now (fun f => dir_ok f (L0 ++ s :: rest)) (open_log (segment_name (sg_n s + 1)))
    (fun a f => match a with
                | Some o => opened (sg_n s + 1) [] o /\ exists w, dir_ok f (L0 ++ [s; fresh (sg_n s + 1) w])
                | None => exists rest', dir_ok f (L0 ++ s :: rest') /\ (rest' = [] \/ exists w, rest' = [fresh (sg_n s + 1) w])
                end).
Proof.
  intros Hne Hn Hrest. assert (forall a f w0, open_post now (L0 ++ [s]) (fresh (sg_n s + 1) w0) a f ->
    match a with
    | Some o => opened (sg_n s + 1) [] o /\ exists w, dir_ok f (L0 ++ [s; fresh (sg_n s + 1) w])
    | None => exists rest', dir_ok f (L0 ++ s :: rest') /\ (rest' = [] \/ exists w, rest' = [fresh (sg_n s + 1) w])
    end) as Hpost.
  { intros [o|] f w0; cbn [open_post].
    - intros (Ho & w & Hf & _). rewrite <- app_assoc in Hf. split; [done|]. by exists w.
    - intros (t & w & Hf & Ht & _). rewrite <- app_assoc in Hf. exists [fresh (sg_n s + 1) w]. assert (t = []) as -> by (by destruct Ht). split; [done|]. eauto. }
  destruct Hrest as [->|[w ->]].
  - apply (t_pure _ _ (Forall (fun x => sg_lines x <> []) L0 /\ Forall (fun x => sg_n x < sg_n s) L0 /\ 0 <= sg_n s <= U64_MAX)).
    { intros f. apply dir_ok_front. }
    intros (Hl & Hlt & Hr). eapply t_conseq; [apply (t_open_new now (L0 ++ [s]) (sg_n s + 1))|done|].
    + apply list.Forall_app. split; [done|]. by constructor.
    + apply list.Forall_app. split; [|constructor; [lia|done]]. eapply list.Forall_impl; [exact Hlt|]. cbn. intros; lia.
    + lia.
    + intros a f [Hp|[-> Hf]]; [by eapply Hpost|]. exists []. auto.
  - eapply t_conseq; [apply (t_open_last now (L0 ++ [s]) (fresh (sg_n s + 1) w))|intros f Hf; by rewrite <- app_assoc|intros a f; apply Hpost].
Qed.
Lemma t_rotate now log L0 s rest rot : tracks log L0 s rest rot -> sg_lines s <> [] -> ro_bound rot <= al_len log -> sg_n s + 1 <= U64_MAX ->
  triple now (fun f => dir_ok f (L0 ++ s :: rest)) (rotate log)
    (fun a f => match a with
                | Some log' => advanced now (ro_revocation_ceiling rot) (L0 ++ s :: rest) (sg_n s + 1) rot log' f
                | None => stalled now (ro_revocation_ceiling rot) (L0 ++ s :: rest) L0 s rot log f
                end).
Proof.
  intros Ht Hne Hb Hn. unfold rotate, open_next. rewrite (tk_rotation _ _ _ _ _ Ht).
  assert (rest = [] \/ (exists w, rest = [fresh (sg_n s + 1) w])) as Hrest by (destruct (tk_rest _ _ _ _ _ Ht) as [|[]]; auto).
  assert (forall f rest', dir_ok f (L0 ++ s :: rest') -> rest' = [] \/ (exists w, rest' = [fresh (sg_n s + 1) w]) ->
    stalled now (ro_revocation_ceiling rot) (L0 ++ s :: rest) L0 s rot log f) as HE.
  { intros f rest' Hf Hr'. exists rest'. split; [done|]. split; [apply (tracks_stall _ _ _ rest); [done|]; destruct Hr'; auto|]. apply keeps_fresh. by eapply tracks_rest. }
  apply (t_bind _ _ _ _ (fun a f => match a with
    | Some log' => al_head log' = al_head log /\ al_path log' = segment_name (sg_n s + 1) /\ al_rotation log' = Some (sg_n s + 1, rot) /\ al_len log' = 0 /\
                   al_poisoned log' = false /\ exists w, dir_ok f (L0 ++ [s; fresh (sg_n s + 1) w])
    | None => stalled now (ro_revocation_ceiling rot) (L0 ++ s :: rest) L0 s rot log f end)); [|done|].
  - eapply t_bind; [by apply t_open_following| |].
    + cbn. intros f (rest' & Hf & Hr'). by eapply HE.
    + intros o. apply (t_pure _ _ (opened (sg_n s + 1) [] o)); [by intros f [? _]|]. intros [Hp _ Hl Hpo]. rewrite Hl. apply t_ret. cbn. naive_solver.
  - intros log'. apply (t_pure _ _ (al_head log' = al_head log /\ al_path log' = segment_name (sg_n s + 1) /\
      al_rotation log' = Some (sg_n s + 1, rot) /\ al_len log' = 0 /\ al_poisoned log' = false)); [naive_solver|]. intros (Eh & Ep & Er & El & Epo).
    apply (t_pre _ (fun f => exists w, dir_ok f (L0 ++ [s; fresh (sg_n s + 1) w]))); [naive_solver|]. apply t_exists. intros w.
    set (z := fresh (sg_n s + 1) w). apply (t_pure _ _ (takes (L0 ++ [s]) z (al_head log))).
    { intros f Hf. eapply fresh_takes; [done|done| |done|done]. destruct (dir_ok_front f L0 s [z] Hf) as (_ & _ & Hr). lia. }
    intros Htk. apply (t_try _ _ _ _ (fun f => exists A, dir_ok f (A ++ [z]) /\ pruned now (ro_revocation_ceiling rot) [z] (L0 ++ [s]) A)).
    + eapply t_conseq; [apply (t_prune now rot (L0 ++ [s]) z)|intros f Hf; by rewrite <- app_assoc|done].
    + apply t_ret. intros f (A & Hf & [Hkeep Hgood]). exists A, z. split; [done|]. split; [|split; [done|split; [cbn; lia|]]].
      * split; [done|done|by rewrite El|done|rewrite Eh; by apply (tk_hash _ _ _ _ _ Ht)| |done|by left].
        rewrite Eh. intros l w' Hl. apply Hgood; [done|]. by apply Htk.
      * eapply keeps_trans; [|exact Hkeep]. rewrite <- app_assoc. apply keeps_fresh. by eapply tracks_rest.
Qed.

(** The log is as far as it was, at its last segment or before one that a
    rotation left, or one segment on and ready to write. *)
Lemma t_prepare now log L0 s rest rot : tracks log L0 s rest rot -> al_poisoned log = false -> sg_n s + 1 <= U64_MAX ->
  triple now (fun f => dir_ok f (L0 ++ s :: rest)) (prepare log)
    (fun a f => match a with
                | Some log' => advanced now (ro_revocation_ceiling rot) (L0 ++ s :: rest) (sg_n s + 1) rot log' f
                | None => stalled now (ro_revocation_ceiling rot) (L0 ++ s :: rest) L0 s rot log f
                end).
Proof.
  intros Ht Hpo Hn. unfold prepare. rewrite Hpo, (tk_rotation _ _ _ _ _ Ht).
  destruct ((0 <? al_len log) && (ro_bound rot <=? al_len log)) eqn:E.
  - apply andb_prop in E as [El%Z.ltb_lt Eb%Z.leb_le]. apply t_rotate; [done| |done..]. intros Enil. rewrite (tk_len _ _ _ _ _ Ht), Enil in El. done.
  - assert (rest = []) as ->.
    { destruct (tk_rest _ _ _ _ _ Ht) as [->|(_ & Hne & Hb)]; [done|]. apply andb_false_iff in E as [E%Z.ltb_ge|E%Z.leb_gt]; [|lia].
      rewrite (tk_len _ _ _ _ _ Ht) in E. pose proof (written_nonempty _ Hne). lia. }
    apply t_ret. intros f Hf. exists L0, s. split; [done|]. split; [done|]. split; [done|]. split; [lia|apply keeps_refl].
Qed.

(** What a write leaves: nothing, a part of the line, or the whole line. *)
Definition partly (now : Z) (L0 : list Seg) (s : Seg) (l : list Z) (f : gmap string LogFile) : Prop :=
  dir_ok f (L0 ++ [s]) \/ (exists t, dir_ok f (L0 ++ [with_torn s t now])) \/ dir_ok f (L0 ++ [with_lines s (sg_lines s ++ [l]) now]).
Lemma t_write now L0 s r : sg_torn s = [] -> is_hash_text (ar_previous_hash r) = true -> takes L0 s (ar_previous_hash r) ->
  let l := bytes (to_line r) in
  triple now (fun f => dir_ok f (L0 ++ [s]))
    (n ← write_file (segment_name (sg_n s)) (l ++ [LF]); if (n =? length (l ++ [LF]))%nat then attempt else io_fail IoWriteZero)
    (fun a f => match a with Some _ => dir_ok f (L0 ++ [with_lines s (sg_lines s ++ [l]) now]) | None => partly now L0 s l f end).
Proof.
  intros Ht Hh Htk l. assert (record_line l r) as Hr by done. pose proof (record_plain _ _ Hr) as (Hlf & _).
  assert (forall f k ino, dir_ok f (L0 ++ [s]) ->
    let f' := <[segment_name (sg_n s) := {| lf_bytes := written_lines (sg_lines s) ++ take k (l ++ [LF]); lf_modified := now; lf_ino := ino |}]> f in
    if (length (take k (l ++ [LF])) =? length (l ++ [LF]))%nat then dir_ok f' (L0 ++ [with_lines s (sg_lines s ++ [l]) now]) else partly now L0 s l f') as Hput.
  { intros f k ino Hf f'. destruct (Nat.eqb_spec (length (take k (l ++ [LF]))) (length (l ++ [LF]))) as [E|E].
    - rewrite length_take in E. unfold f'. rewrite take_ge by lia.
      by apply (last_record f L0 s l r {| lf_bytes := written_lines (sg_lines s) ++ l ++ [LF]; lf_modified := now; lf_ino := ino |}).
    - rewrite length_take, length_app in E. cbn in E. unfold f'. rewrite take_app_le by lia. right; left. exists (take k l).
      apply (last_torn f L0 s (take k l) {| lf_bytes := written_lines (sg_lines s) ++ take k l; lf_modified := now; lf_ino := ino |}); [done| |done].
      intros Hin. apply Hlf. rewrite <- (take_drop k l). set_solver. }
  apply (t_bind _ _ _ _ (fun a f => match a with
    | Some n => if (n =? length (l ++ [LF]))%nat then dir_ok f (L0 ++ [with_lines s (sg_lines s ++ [l]) now]) else partly now L0 s l f
    | None => partly now L0 s l f end)); [|done|].
  - intros d d' res Hn Hf. unfold write_file. destruct Hf as [Hst Hg]. destruct (stored_range _ _ s Hst) as [_ (fl & Hfl & Hb & _)]; [set_solver|].
    unfold seg_content in Hb. rewrite Ht, app_nil_r in Hb. rewrite Hfl. cbn [fmap option_fmap option_map default]. unfold id. rewrite Hb.
    destruct (next_fault d) as [| |k]; intros [= <- <-].
    + destruct (put_files (segment_name (sg_n s)) (written_lines (sg_lines s) ++ l ++ [LF]) (take_fault d)) as (ino & -> & ->). cbn [dk_now take_fault dk_files].
      rewrite Hn, Nat.eqb_refl. split; [done|]. specialize (Hput (dk_files d) (length (l ++ [LF])) ino). rewrite firstn_all, Nat.eqb_refl in Hput. by apply Hput.
    + split; [done|]. left. by split.
    + destruct (put_files (segment_name (sg_n s)) (written_lines (sg_lines s) ++ take k (l ++ [LF])) (take_fault d)) as (ino & -> & ->). cbn [dk_now take_fault dk_files].
      rewrite Hn. split; [done|]. by apply Hput.
  - intros n. destruct (n =? length (l ++ [LF]))%nat; [|by apply t_fail]. apply t_attempt_end. intros [[]|] f Hf; [done|]. by right; right.
Qed.
Lemma t_cut now L0 s l : good None (L0 ++ [s]) -> record_lines (sg_lines s) -> sg_torn s = [] ->
  triple now (partly now L0 s l) (set_len (segment_name (sg_n s)) (Z.of_nat (length (written_lines (sg_lines s)))))
    (fun a f => match a with Some _ => dir_ok f (L0 ++ [with_torn s [] now]) | None => partly now L0 s l f end).
Proof.
  intros Hg Hr Ht. apply t_set_len; [done|]. intros f fl ino Hp Hl. rewrite Nat2Z.id.
  assert (exists x t, stored f (L0 ++ [x]) /\ sg_n x = sg_n s /\ seg_content x = written_lines (sg_lines s) ++ t) as (x & t & Hst & En & Ec).
  { destruct Hp as [[Hst _]|[(t & Hst & _)|[Hst _]]]; [exists s, (sg_torn s)|exists (with_torn s t now), t|exists (with_lines s (sg_lines s ++ [l]) now), (l ++ [LF])];
      (split; [done|split; [done|]]); [done..|]. unfold seg_content, with_lines. cbn. by rewrite written_snoc, app_nil_r. }
  assert (lf_bytes fl = seg_content x) as Eb.
  { destruct (stored_range _ _ x Hst) as [_ (fl' & Hfl & Hb & _)]; [set_solver|]. rewrite En in Hfl. congruence. }
  rewrite Eb, Ec, resize_prefix. split.
  - rewrite <- En. apply (stored_put f L0 [] x); [done|done|unfold seg_content; cbn; by rewrite app_nil_r|done|done|cbn; set_solver].
  - apply good_app in Hg as (Hg1 & Hne & Hc). apply good_app. split; [done|]. split; [intros _; by apply Hne|exact Hc].
Qed.

(** ** The log after an operation *)

Definition log_state (c k : Z) (f : gmap string LogFile) (log : option AuditLog) (L : list Seg) : Prop :=
  dir_ok f L /\ Forall (fun s => sg_n s <= k) L /\
  forall log', log = Some log' -> al_poisoned log' = false ->
    exists L0 s rest rot, L = L0 ++ s :: rest /\ tracks log' L0 s rest rot /\ c <= ro_revocation_ceiling rot.

Lemma keeps_mono now c c' L L' : c <= c' -> keeps now c' L L' -> keeps now c L L'.
Proof. intros Hc Hk t0 l Hl Ht. apply Hk; [done|lia]. Qed.
Lemma numbers_last f L s k : dir_ok f (L ++ [s]) -> sg_n s <= k -> Forall (fun s => sg_n s <= k) (L ++ [s]).
Proof.
  intros Hf Hk. destruct (dir_ok_front f L s [] Hf) as (_ & Hlt & _). apply list.Forall_app. split; [|by constructor].
  eapply list.Forall_impl; [exact Hlt|]. cbn. intros; lia.
Qed.
Lemma record_prev d h : ar_previous_hash (from_decision d h) = h.
Proof. unfold from_decision. by destruct (ad_mapping d). Qed.

Lemma tracks_record log log' L s rot l w : tracks log L s [] rot -> good None (L ++ [with_lines s (sg_lines s ++ [l]) w]) ->
  al_path log' = al_path log -> al_rotation log' = al_rotation log -> al_head log' = line_hash l ->
  al_len log' = al_len log + Z.of_nat (length (l ++ [LF])) -> tracks log' L (with_lines s (sg_lines s ++ [l]) w) [] rot.
Proof.
  intros [Hp Hr Hl Hw Hh Htk Hla _] Hg Ep Er Eh El. split; [by rewrite Ep|by rewrite Er| |done|rewrite Eh; apply line_hash_is_hash| | |by left].
  - cbn [with_lines sg_lines]. rewrite El, Hl, written_snoc, (length_app (written_lines _)). lia.
  - apply accepts_takes; [done|]. cbn [with_lines sg_lines sg_n]. rewrite chain_head_snoc, Eh. by intros ? [= ->].
  - cbn [with_lines sg_lines]. intros x. rewrite last_snoc, Eh. by intros [= ->].
Qed.
Lemma tracks_cut log L s rot w : tracks log L s [] rot -> tracks log L (with_torn s [] w) [] rot.
Proof. intros [Hp Hr Hl Hw Hh Htk Hla _]. split; [done|done|done|done|done| |done|by left]. intros l w' Hc. exact (Htk l w' Hc). Qed.

(** Writing a record: it is in the log, or the log is as it was, but for
    torn bytes when it could not cut them. *)
Lemma write_line_state log L s rot r d d' log' res : dir_ok (dk_files d) (L ++ [s]) -> tracks log L s [] rot -> al_poisoned log = false ->
  ar_previous_hash r = al_head log -> write_line log (to_line r) d = (d', log', res) ->
  dk_now d' = dk_now d /\
  let s' := with_lines s (sg_lines s ++ [bytes (to_line r)]) (dk_now d) in
  match res with
  | Ok _ => dir_ok (dk_files d') (L ++ [s']) /\ tracks log' L s' [] rot
  | Err _ => exists s2, dir_ok (dk_files d') (L ++ [s2]) /\ sg_n s2 = sg_n s /\ (forall l, l ∈ sg_lines s -> l ∈ sg_lines s2) /\
               (sg_written s2 = sg_written s \/ sg_written s2 = dk_now d) /\ (al_poisoned log' = false -> tracks log' L s2 [] rot)
  end.
Proof.
  intros Hf Htr Hpo Hprev Hwr. pose proof (tk_hash _ _ _ _ _ Htr) as Hh. pose proof (tk_head _ _ _ _ _ Htr) as Htk. rewrite <- Hprev in Hh, Htk.
  pose proof (tk_whole _ _ _ _ _ Htr) as Hw. pose proof (t_write (dk_now d) L s r Hw Hh Htk) as Twr. cbn zeta in Twr |- *.
  unfold write_line in Hwr. rewrite (tk_path _ _ _ _ _ Htr) in Hwr.
  set (m := (n ← write_file (segment_name (sg_n s)) (bytes (to_line r) ++ [LF]); if (n =? length (bytes (to_line r) ++ [LF]))%nat then attempt else io_fail IoWriteZero)) in *.
  destruct (m d) as [d2 [u|e]] eqn:Ew; (destruct (Twr d d2 _ eq_refl Hf Ew) as [Hn2 Hf2]).
  - injection Hwr as <- <- <-. split; [done|]. split; [done|]. apply (tracks_record log); [done|by apply Hf2|cbn; by rewrite (tk_path _ _ _ _ _ Htr)|done..].
  - rewrite (tk_len _ _ _ _ _ Htr) in Hwr. pose proof (so_lines _ _ (proj1 Hf)) as Hls. apply list.Forall_app in Hls as [_ [[Hls _] _]%list.Forall_cons].
    destruct (set_len (segment_name (sg_n s)) (Z.of_nat (length (written_lines (sg_lines s)))) d2) as [d3 cut] eqn:Ec.
    destruct (t_cut (dk_now d) L s (bytes (to_line r)) (proj2 Hf) Hls Hw d2 d3 cut Hn2 Hf2 Ec) as [Hn3 Hf3]. injection Hwr as <- <- <-. split; [done|]. destruct cut as [u|e'].
    + exists (with_torn s [] (dk_now d)). split; [done|]. split; [done|]. split; [done|]. split; [by right|]. intros _.
      apply (tracks_cut _ L s rot). destruct Htr as [? ? ? ? ? ? ? _]. by split; [..|left].
    + destruct Hf3 as [Hf3|[[t Hf3]|Hf3]]; eexists; (split; [exact Hf3|]); (split; [done|]).
      * split; [done|]. split; [by left|done].
      * split; [done|]. split; [by right|done].
      * split; [cbn; set_solver|]. split; [by right|done].
Qed.

(** Appending keeps the chain, whichever calls fail; a record it returns is
    in the log. *)
Lemma append_state c k log L dec d d' log' res : log_state c k (dk_files d) (Some log) L -> k < U64_MAX -> append log dec d = (d', log', res) ->
  dk_now d' = dk_now d /\ exists L', log_state c (k + 1) (dk_files d') (Some log') L' /\ keeps (dk_now d) c L L' /\
    forall r, res = Ok r -> exists s l h, s ∈ L' /\ l ∈ sg_lines s /\ sg_written s = dk_now d /\ record_line l r /\ r = from_decision dec h.
Proof.
  intros (Hf & Hk & Hlog) Hlt Ha. unfold append in Ha. assert (Forall (fun s => sg_n s <= k + 1) L) as Hk1 by (eapply list.Forall_impl; [exact Hk|cbn; intros; lia]).
  destruct (al_poisoned log) eqn:Hpo.
  { unfold prepare in Ha. rewrite Hpo in Ha. injection Ha as <- <- <-. split; [done|]. exists L. split; [|split; [apply keeps_refl|done]]. split; [done|]. split; [done|].
    intros x [= <-]. congruence. }
  destruct (Hlog log eq_refl Hpo) as (L0 & s & rest & rot & -> & Htr & Hc). rewrite list.Forall_app, list.Forall_cons in Hk. destruct Hk as (_ & Hks & _).
  destruct (prepare log d) as [d1 [log1|e]] eqn:Ep; (destruct (t_prepare (dk_now d) log L0 s rest rot Htr Hpo ltac:(lia) d d1 _ eq_refl Hf Ep) as [Hn1 Hp]).
  2: { injection Ha as <- <- <-. split; [done|]. destruct Hp as (rest' & Hf' & Htr' & Hkeep). exists (L0 ++ s :: rest'). split; [|split; [by eapply keeps_mono|done]].
       split; [done|]. split; [|intros x [= <-] _; naive_solver]. rewrite list.Forall_app, list.Forall_cons in Hk1. destruct Hk1 as (Hk0 & _ & _).
       apply list.Forall_app. split; [done|]. constructor; [lia|]. destruct (tk_rest _ _ _ _ _ Htr') as [->|([w ->] & _)]; repeat constructor. cbn. lia. }
  destruct Hp as (L1 & s1 & Hf1 & Htr1 & Hpo1 & Hn & Hkeep). set (r0 := from_decision dec (al_head log1)) in *.
  destruct (write_line log1 (to_line r0) d1) as [[d2 log2] res2] eqn:Ew.
  destruct (write_line_state log1 L1 s1 rot r0 d1 d2 log2 res2 Hf1 Htr1 Hpo1 (record_prev _ _) Ew) as [Hn2 Hres]. rewrite Hn1 in *.
  destruct res2 as [u|e]; injection Ha as <- <- <-; (split; [done|]).
  - destruct Hres as [Hf2 Htr2]. eexists. split; [|split].
    + split; [exact Hf2|]. split; [eapply numbers_last; [exact Hf2|cbn; lia]|]. intros x [= <-] _. by eexists _, _, [], rot.
    + eapply keeps_trans; [by eapply keeps_mono|]. apply keeps_last; [cbn; set_solver|by right].
    + intros r [= <-]. eexists _, (bytes (to_line r0)), (al_head log1). cbn. split; [apply elem_of_snoc_new|]. cbn. split; [set_solver|]. split; [done|]. split; [|done].
      split; [done|]. unfold r0. rewrite record_prev. by apply (tk_hash _ _ _ _ _ Htr1).
  - destruct Hres as (s2 & Hf2 & En & Hl & Hw & Htr2). exists (L1 ++ [s2]). split; [|split; [|done]].
    + split; [done|]. split; [eapply numbers_last; [exact Hf2|lia]|]. intros x [= <-] Hx. by exists L1, s2, [], rot; auto.
    + eapply keeps_trans; [by eapply keeps_mono|]. by apply keeps_last.
Qed.
End history.
