(* ===== verification/AuditProps.v ===== *)
(** * What the audit log keeps

    Opening the directory, and the theorems over every history of opens and
    appends, with any of their calls failing: the directory always verifies,
    and a revocation stays readable until no value can need it. *)

From stdpp Require Import base list gmap sets strings numbers pretty sorting.
From Stdlib Require Import ZArith Lia Ascii.
From S2P Require Import Prelude Text Bytes AuditChain AuditLog AuditHistory.
Open Scope Z_scope.

Section props.
Context `{Sha256Laws} `{AuditJsonLaws}.

(** ** Opening the directory *)

Lemma opened_hash n ls log : opened n ls log -> is_hash_text (al_head log) = true.
Proof. intros Ho. rewrite (on_head _ _ _ Ho). destruct (list.last ls); [apply line_hash_is_hash|apply zero_hash_is_hash]. Qed.
Lemma last_nonempty {A} (l : list A) : l <> [] -> exists a, list.last l = Some a.
Proof. destruct l as [|a l _] using rev_ind; [done|]. rewrite last_snoc. eauto. Qed.

(** The log an open gives tracks the last segment, once it has the head of
    the segment before an empty one. *)
Definition joined (L0 : list Seg) (log : AuditLog) (ls : list (list Z)) (h : string) : Prop :=
  match ls, list.last L0 with
  | [], Some m => exists l, list.last (sg_lines m) = Some l /\ h = line_hash l
  | _, _ => h = al_head log
  end.
Lemma opened_tracks f L0 s log h rot lock : opened (sg_n s) (sg_lines s) log -> sg_torn s = [] -> dir_ok f (L0 ++ [s]) -> joined L0 log (sg_lines s) h ->
  tracks (with_rotation (with_head log h) (Some (sg_n s, rot)) lock) L0 s [] rot.
Proof.
  intros Ho Ht Hf Hj. pose proof (opened_hash _ _ _ Ho) as Hh. destruct Ho as [Hp Hhead Hl _]. split; [done|done|done|done| | | |by left]; cbn [with_rotation with_head al_head].
  - unfold joined in Hj. destruct (sg_lines s); [|by subst]. destruct (list.last L0); [|by subst]. destruct Hj as (l & _ & ->). apply line_hash_is_hash.
  - apply accepts_takes; [by apply Hf|]. intros x. destruct (sg_lines s) as [|l0 ls0 _] eqn:El using rev_ind.
    + unfold chain_head. cbn [list.last]. destruct L0 as [|m L0 _] using rev_ind.
      * cbn in Hj. subst h. rewrite Hhead. cbn. unfold start_for. destruct (_ =? 0); [|done]. by intros [= <-].
      * unfold joined in Hj. rewrite last_snoc in Hj. destruct Hj as (l & Hlm & ->). unfold after. rewrite foldl_app. cbn [foldl].
        destruct (dir_ok_front f (L0 ++ [m]) s [] Hf) as (Hne & Hlt & Hr). rewrite list.Forall_app, list.Forall_cons in Hlt. destruct Hlt as (_ & Hlt & _).
        assert (0 <= sg_n m) by (apply (stored_range f (L0 ++ [m] ++ [s])); [by rewrite app_assoc; apply Hf|set_solver]).
        unfold start_for at 1. rewrite (proj2 (Z.eqb_neq _ _)) by lia. cbn [next_prev]. unfold chain_head. rewrite Hlm.
        repeat case_bool_decide; [by intros [= <-]|]. destruct (existsb _ _); [done|by intros [= <-]].
    + rewrite chain_head_snoc. unfold joined in Hj. assert (h = al_head log) as -> by (by destruct ls0). rewrite Hhead, last_snoc. by intros [= <-].
  - intros l Hla. unfold joined in Hj. assert (h = al_head log) as -> by (by destruct (sg_lines s)). by rewrite Hhead, Hla.
Qed.

Lemma t_final_hash now P s h (Q : option string -> gmap string LogFile -> Prop) : (forall f, P f -> exists L, stored f L /\ s ∈ L) ->
  list.last (sg_lines s) = Some h -> (forall f, P f -> Q None f) -> (forall f, P f -> Q (Some (line_hash h)) f) -> triple now P (final_hash (segment_name (sg_n s))) Q.
Proof.
  intros HP Hla HE HQ. unfold final_hash. apply t_read; [|done]. intros fl. apply t_read_tail; [naive_solver|]. intros start tail (_ & E2 & _). apply t_ret.
  intros f [Hf Hl]. destruct (HP f Hf) as (L & Hst & Hs). destruct (stored_range _ _ s Hst Hs) as [_ (fl' & Hfl & Hb & _)]. rewrite Hl in Hfl. injection Hfl as <-.
  pose proof (so_lines _ _ Hst) as Hls. rewrite list.Forall_forall in Hls. destruct (Hls s Hs) as [Hr Ht]. unfold seg_content in Hb.
  rewrite Hb, complete_len_written, take_app_length, head_hash_written, Hla in E2 by (done || by apply record_lines_plain). rewrite E2. auto.
Qed.

(** The log that [open_dir] gives, and the directory it leaves. *)
Definition dir_opened (now c k : Z) (L : list Seg) (a : option AuditLog) (f : gmap string LogFile) : Prop :=
  exists L', log_state c k f a L' /\ keeps now c L L'.
Lemma dir_opened_fails now c k L L' f : dir_ok f L' -> Forall (fun s => sg_n s <= k) L' -> keeps now c L L' -> dir_opened now c k L None f.
Proof. intros Hf Hk Hkeep. exists L'. split; [|done]. by split. Qed.
Lemma t_open_passed now c k L L0 s n log rot (Hc : c <= ro_revocation_ceiling rot) passes :
  opened (sg_n s) (sg_lines s) log -> sg_torn s = [] -> sg_n s = n -> sg_n s <= k -> keeps now c L (L0 ++ [s]) ->
  triple now (fun f => dir_ok f (L0 ++ [s]))
    (now_ ← numbered_segments;
     if match list.last now_ with Some (newest, _) => n <? newest | None => false end then open_passes passes rot now_
     else
       (if al_len log =? 0 then
          match List.find (fun e => e.1 <? n) (rev now_) with
          | Some (_, previous) => h ← final_hash previous; mret (with_head log h)
          | None => mret log
          end
        else mret log) ≫= fun log => mret (with_rotation log (Some (n, rot)) false))
    (dir_opened now c k L).
Proof.
  intros Ho Ht <- Hk Hkeep. assert (forall f, dir_ok f (L0 ++ [s]) -> dir_opened now c k L None f) as HE.
  { intros f Hf. eapply dir_opened_fails; [done|by eapply numbers_last|done]. }
  apply (t_numbered _ _ (L0 ++ [s])); [done|by intros f [? _]|]. rewrite map_app. cbn [map]. rewrite last_snoc, Z.ltb_irrefl.
  apply (t_bind _ _ _ _ (fun a f => match a with Some log' => dir_ok f (L0 ++ [s]) /\ exists h, log' = with_head log h /\ joined L0 log (sg_lines s) h | None => dir_ok f (L0 ++ [s]) end)).
  - rewrite (on_len _ _ _ Ho). destruct (Z.eqb_spec (Z.of_nat (length (written_lines (sg_lines s)))) 0) as [E|E].
    + assert (sg_lines s = []) as El. { destruct (sg_lines s) eqn:El; [done|]. assert (0 < length (written_lines (l :: l0)))%nat by (by apply written_nonempty). lia. }
      rewrite rev_app_distr. cbn [rev app List.find fst]. rewrite Z.ltb_irrefl. destruct L0 as [|m L0 _] using rev_ind.
      * cbn. apply t_ret. intros f Hf. split; [done|]. exists (al_head log). split; [by destruct log|]. by rewrite El.
      * rewrite map_app, rev_app_distr. cbn [map rev app List.find fst].
        apply (t_pure _ _ (sg_n m < sg_n s /\ sg_lines m <> [])).
        { intros f Hf. destruct (dir_ok_front f (L0 ++ [m]) s [] Hf) as (Hne & Hlt & _). rewrite list.Forall_app, list.Forall_cons in Hne, Hlt. naive_solver. }
        intros [Hlt [l Hl]%last_nonempty]. rewrite (proj2 (Z.ltb_lt _ _)) by done.
        apply (t_bind _ _ _ _ (fun a f => dir_ok f ((L0 ++ [m]) ++ [s]) /\ match a with Some h => h = line_hash l | None => True end)).
        -- apply (t_final_hash _ _ m l); [|done|naive_solver..]. intros f [Hst _]. exists ((L0 ++ [m]) ++ [s]). split; [done|set_solver].
        -- naive_solver.
        -- intros h. apply t_ret. intros f [Hf ->]. split; [done|]. exists (line_hash l). split; [done|]. unfold joined. rewrite El, last_snoc. eauto.
    + apply t_ret. intros f Hf. split; [done|]. exists (al_head log). split; [by destruct log|]. unfold joined. destruct (sg_lines s); [done|]. by destruct (list.last L0).
  - done.
  - intros log'. apply t_ret. intros f (Hf & h & -> & Hj). exists (L0 ++ [s]). split; [|done]. split; [done|]. split; [by eapply numbers_last|].
    intros x [= <-] _. exists L0, s, [], rot. split; [done|]. split; [|done]. by eapply opened_tracks.
Qed.

Lemma dir_ok_lock f L fl : dir_ok f L -> dir_ok (<[DIR_LOCK := fl]> f) L.
Proof. intros [Hst Hg]. split; [|done]. by apply stored_other. Qed.
Lemma locked_state now c k L log f : dir_opened now c k L (Some log) f -> dir_opened now c k L (Some (with_rotation log (al_rotation log) true)) f.
Proof.
  intros (L' & (Hf & Hk & Hlog) & Hkeep). exists L'. split; [|done]. split; [done|]. split; [done|]. intros x [= <-] Hpo.
  destruct (Hlog log eq_refl Hpo) as (L0 & s & rest & rot & -> & [] & Hc). exists L0, s, rest, rot. split; [done|]. split; [|done]. by split.
Qed.
Lemma t_open_listed now c k L rot : c <= ro_revocation_ceiling rot -> 0 <= k -> Forall (fun s => sg_n s <= k) L ->
  triple now (fun f => dir_ok f L) (open_listed rot (map (fun s => (sg_n s, segment_name (sg_n s))) L)) (dir_opened now c k L).
Proof.
  intros Hc Hk HL. unfold open_listed. change PASSES with (S 7). generalize 7%nat as passes. intros passes. cbn [open_passes].
  destruct L as [|s L _] using rev_ind.
  - cbn [map list.last default]. set (m := open_log _). eapply (t_bind _ _ _ _ (fun a f => open_post now [] (fresh 0 now) a f \/ (a = None /\ dir_ok f []))).
    + apply (t_open_new now [] 0); [constructor..|]. unfold U64_MAX. lia.
    + intros f [(t & w & Hf & _)|[_ Hf]].
      * eapply dir_opened_fails; [exact Hf|by repeat constructor|]. intros t0 l _ _ (x & Hx & _). set_solver.
      * eapply dir_opened_fails; [exact Hf|constructor|apply keeps_refl].
    + intros log. apply (t_pre _ (fun f => exists w, opened 0 [] log /\ dir_ok f ([] ++ [fresh 0 w]))); [intros f [(Ho & w & Hf & _)|[[=] _]]; by exists w|].
      apply t_exists. intros w. apply (t_pure _ _ (opened 0 [] log)); [naive_solver|]. intros Ho. eapply t_pre; [intros f Hf; exact (proj2 Hf)|].
      apply (t_open_passed now c k [] [] (fresh 0 w)); [done..|]. intros t0 l _ _ (x & Hx & _). set_solver.
  - rewrite map_app. cbn [map]. rewrite last_snoc. cbn [default]. rewrite list.Forall_app, list.Forall_cons in HL. destruct HL as (HL & Hs & _).
    eapply t_bind; [apply (t_open_last now L s)| |].
    + intros f (t & w & Hf & _ & Hw). eapply dir_opened_fails; [exact Hf|eapply numbers_last; [exact Hf|done]|by apply keeps_last].
    + intros log. apply (t_pre _ (fun f => exists w, (opened (sg_n s) (sg_lines s) log /\ (w = sg_written s \/ w = now)) /\ dir_ok f (L ++ [with_torn s [] w]))).
      { intros f (Ho & w & Hf & Hw). by exists w. }
      apply t_exists. intros w. apply (t_pure _ _ (opened (sg_n s) (sg_lines s) log /\ (w = sg_written s \/ w = now))); [naive_solver|]. intros [Ho Hw].
      eapply t_pre; [intros f Hf; exact (proj2 Hf)|]. apply (t_open_passed now c k (L ++ [s]) L (with_torn s [] w)); [done..|]. by apply keeps_last.
Qed.
Lemma t_open_dir now c k L rot : c <= ro_revocation_ceiling rot -> 0 <= k -> Forall (fun s => sg_n s <= k) L ->
  triple now (fun f => dir_ok f L) (open_dir rot) (dir_opened now c k L).
Proof.
  intros Hc Hk HL. assert (forall f, dir_ok f L -> dir_opened now c k L None f) as HE.
  { intros f Hf. eapply dir_opened_fails; [done|done|apply keeps_refl]. }
  unfold open_dir. apply t_attempt; [done|]. apply (t_open_own _ _ _ _ (fun f => dir_ok f L)); [done|done|intros; by apply dir_ok_lock|done|].
  apply t_attempt; [done|]. apply (t_numbered _ _ L); [done|by intros f [? _]|]. eapply t_bind; [by apply (t_open_listed now c k)|done|].
  intros log. apply t_ret. intros f. apply locked_state.
Qed.

(** ** Histories

    The log is opened and appended to, at the times and with the faults of
    each event; an open that fails leaves no log. *)
Inductive LogEvent : Type :=
| EvOpen (rotation : Rotation) (now : Z) (faults : list Fault)
| EvAppend (decision : AuditDecision) (now : Z) (faults : list Fault).
Definition event_time (e : LogEvent) : Z := match e with EvOpen _ now _ | EvAppend _ now _ => now end.
Definition event_ceiling (c : Z) (e : LogEvent) : Prop := match e with EvOpen rot _ _ => c <= ro_revocation_ceiling rot | EvAppend _ _ _ => True end.

Definition disk_at (d : Disk) (now : Z) (faults : list Fault) : Disk :=
  {| dk_files := dk_files d; dk_moved := dk_moved d; dk_inos := dk_inos d; dk_now := now; dk_faults := faults |}.
(** The disk with no call failing. *)
Definition quiet (d : Disk) : Disk := disk_at d (dk_now d) [].

Definition log_step (st : Disk * option AuditLog) (e : LogEvent) : Disk * option AuditLog :=
  match e with
  | EvOpen rot now faults => match open_dir rot (disk_at st.1 now faults) with (d, Ok log) => (d, Some log) | (d, Err _) => (d, None) end
  | EvAppend dec now faults =>
      match st.2 with
      | Some log => let '(d, log, _) := append log dec (disk_at st.1 now faults) in (d, Some log)
      | None => st
      end
  end.
Definition log_run (st : Disk * option AuditLog) (evs : list LogEvent) : Disk * option AuditLog := foldl log_step st evs.

Lemma log_state_mono c k k' f log L : k <= k' -> log_state c k f log L -> log_state c k' f log L.
Proof. intros Hk (Hf & HL & Hlog). split; [done|]. split; [|done]. eapply list.Forall_impl; [exact HL|]. cbn. intros; lia. Qed.
Lemma log_step_state c k st e L : log_state c k (dk_files st.1) st.2 L -> event_ceiling c e -> 0 <= k < U64_MAX ->
  exists L', log_state c (k + 1) (dk_files (log_step st e).1) (log_step st e).2 L' /\ keeps (event_time e) c L L'.
Proof.
  destruct st as [d log]. intros Hst Hc Hk. destruct e as [rot now faults|dec now faults]; cbn [log_step fst snd event_time event_ceiling] in *.
  - destruct Hst as (Hf & HL & _). destruct (open_dir rot (disk_at d now faults)) as [d' r] eqn:Eo.
    destruct (t_open_dir now c k L rot Hc (proj1 Hk) HL (disk_at d now faults) d' r eq_refl Hf Eo) as [_ (L' & Hst & Hkeep)].
    exists L'. split; [|done]. apply (log_state_mono c k); [lia|]. by destruct r.
  - destruct log as [log|]; [|exists L; split; [apply (log_state_mono c k); [lia|done]|apply keeps_refl]].
    destruct (append log dec (disk_at d now faults)) as [[d' log'] res] eqn:Ea.
    destruct (append_state c k log L dec (disk_at d now faults) d' log' res Hst (proj2 Hk) Ea) as [_ (L' & Hst' & Hkeep & _)]. by exists L'.
Qed.
Lemma log_run_state c k st evs L : log_state c k (dk_files st.1) st.2 L -> Forall (event_ceiling c) evs -> 0 <= k -> k + Z.of_nat (length evs) <= U64_MAX ->
  exists L', log_state c (k + Z.of_nat (length evs)) (dk_files (log_run st evs).1) (log_run st evs).2 L' /\
    forall t0 l, revokes l = true -> since t0 l L -> Forall (fun e => t0 <= event_time e < t0 + c) evs -> since t0 l L'.
Proof.
  intros Hst Hev Hk Hlen. revert k st L Hst Hk Hlen. induction Hev as [|e evs He _ IH]; intros k st L Hst Hk Hlen.
  - exists L. split; [|done]. by rewrite Z.add_0_r.
  - cbn [length] in Hlen. destruct (log_step_state c k st e L Hst He ltac:(lia)) as (L1 & Hst1 & Hkeep).
    destruct (IH (k + 1) (log_step st e) L1 Hst1 ltac:(lia) ltac:(lia)) as (L2 & Hst2 & Hsince). exists L2. split.
    + cbn [log_run foldl length]. replace (k + Z.of_nat (S (length evs))) with (k + 1 + Z.of_nat (length evs)) by lia. exact Hst2.
    + intros t0 l Hl Hs Ht. apply list.Forall_cons in Ht as [Ht0 Ht]. apply Hsince; [done| |done]. by apply Hkeep.
Qed.
Lemma empty_state c d : dk_files d = ∅ -> log_state c 0 (dk_files d) None [].
Proof.
  intros ->. split; [|split; [constructor|done]]. split; [|done]. split; [|constructor| |constructor..].
  - intros name n [x Hx]. by rewrite lookup_empty in Hx.
  - intros n. rewrite lookup_empty. split; [set_solver|]. intros [_ [x Hx]]. done.
Qed.
Lemma common_ceiling evs : exists c, Forall (event_ceiling c) evs.
Proof.
  induction evs as [|e evs (c & IH)]; [exists 0; constructor|]. exists (match e with EvOpen rot _ _ => Z.min c (ro_revocation_ceiling rot) | _ => c end).
  constructor; [destruct e; cbn; lia|]. eapply list.Forall_impl; [exact IH|]. intros [rot| ]; cbn; [|done]. destruct e; lia.
Qed.

(** ** The check of the directory *)

Definition seg_read (s : Seg) : ReadSegment := (sg_n s, segment_name (sg_n s), seg_content s).
Definition counted (L : list Seg) : nat := sum_list (map (fun s => length (sg_lines s)) L).
Lemma seg_complete s : record_lines (sg_lines s) /\ LF ∉ sg_torn s -> complete_lines (seg_content s) = sg_lines s.
Proof. intros [Hr Ht]. apply complete_written; [by apply record_lines_plain|done]. Qed.
Lemma verify_each_good L : forall prev check before d, good prev L -> Forall (fun s => record_lines (sg_lines s) /\ LF ∉ sg_torn s) L ->
  exists restarts, verify_each check prev before (map seg_read L) d =
    (d, Ok {| lc_segments := lc_segments check ++ map (fun s => segment_name (sg_n s)) L; lc_records := lc_records check + counted L;
              lc_broken := lc_broken check; lc_restarts := lc_restarts check ++ restarts |}).
Proof.
  induction L as [|s L IH]; intros prev check before d Hg HL.
  - exists []. cbn. unfold counted. cbn. rewrite !app_nil_r, Nat.add_0_r. by destruct check.
  - apply list.Forall_cons in HL as [Hs HL]. destruct Hg as (Hc & _ & Hg). pose proof (seg_complete s Hs) as Ec.
    assert (verify_segment (start_for prev (sg_n s)) (seg_content s) = Verified (chain_head (start_for prev (sg_n s)) (sg_lines s)) (length (sg_lines s))) as Ev.
    { rewrite <- Ec at 1 2. apply verify_segment_ok. by rewrite Ec. }
    cbn [map seg_read verify_each]. unfold seg_read at 1. rewrite Ev. rewrite (bool_decide_false (Verified _ _ = Broken 1)) by done. rewrite andb_false_r.
    unfold mbind at 1, io_bind, mret at 1, io_ret. unfold bytes_hold_parsed_revocation. rewrite Ec, lines_excuse_records by apply Hs.
    edestruct (IH (next_prev prev s)) as (restarts & E); [done..|]. unfold next_prev in E. eexists. rewrite E. cbn [lc_segments lc_records lc_broken lc_restarts].
    unfold counted. cbn [map sum_list]. by rewrite <- !app_assoc, Nat.add_assoc.
Qed.
Lemma read_segments_stored f L d : dk_faults d = [] -> stored f L -> dk_files d = f ->
  forall M, (forall s, s ∈ M -> s ∈ L) -> read_segments (map (fun s => (sg_n s, segment_name (sg_n s))) M) d = (d, Ok (map seg_read M)).
Proof.
  intros Hq Hst <-. induction M as [|s M IH]; intros HM; [done|]. cbn [map read_segments].
  destruct (stored_range _ L s Hst) as (_ & fl & Hfl & Hb & _); [set_solver|].
  unfold mbind, io_bind in *. unfold read_file, mbind, io_bind, get_file, mbind, io_bind, io_get. rewrite attempt_ok by done. rewrite Hfl. cbn [io_lift mret io_ret].
  unfold mret, io_ret. rewrite Hb, IH; [done|set_solver].
Qed.
Lemma numbered_stored d L : dk_faults d = [] -> stored (dk_files d) L ->
  numbered_segments d = (d, Ok (map (fun s => (sg_n s, segment_name (sg_n s))) L)).
Proof. intros Hq Hst. unfold numbered_segments, mbind, io_bind. rewrite attempt_ok by done. unfold io_get. by rewrite (stored_numbered _ L). Qed.

(** Records are all readable, so there is nothing to move. *)
Lemma no_corrupt ls : record_lines ls -> count_corrupt (map classify ls) = 0%nat.
Proof. induction 1 as [|l ls [r Hr] _ IH]; [done|]. unfold count_corrupt in *. cbn [map List.filter]. by rewrite (record_classified _ _ Hr). Qed.
Lemma plan_nothing active L d : dk_faults d = [] -> stored (dk_files d) L -> forall M prev, (forall s, s ∈ M -> s ∈ L) ->
  quarantine_plan active prev (map (fun s => (sg_n s, segment_name (sg_n s))) M) [] false d = (d, Ok ([], false)).
Proof.
  intros Hq Hst. induction M as [|s M IH]; intros prev HM; [done|]. cbn [map quarantine_plan]. pose proof (HM s ltac:(set_solver)) as Hs.
  destruct (stored_range _ L s Hst Hs) as (_ & fl & Hfl & Hb & _). pose proof (so_lines _ _ Hst) as Hls. rewrite list.Forall_forall in Hls.
  unfold mbind at 1, io_bind, read_file, mbind at 1, io_bind, get_file, mbind, io_bind, io_get. rewrite attempt_ok by done. rewrite Hfl. cbn [io_lift].
  unfold mret at 1 2, io_ret. rewrite Hb, (seg_complete s), no_corrupt by (by apply Hls). apply IH. set_solver.
Qed.

(** C20: however the log is opened and appended to, whichever of the calls fail,
    stop short or are the last before the process dies, the directory that
    is left passes its own check: no segment of it is broken, every segment
    is listed, the check counts every whole line, and the quarantine finds
    no segment to move. *)
Theorem directory_verifies d evs : dk_files d = ∅ -> Z.of_nat (length evs) <= U64_MAX ->
  let left := quiet (log_run (d, None) evs).1 in
  exists check, verify_dir left = (left, Ok check) /\ lc_broken check = None /\ lc_segments check = map snd (numbered_in (dk_files left)) /\
    lc_records check = sum_list (map (fun e => length (complete_lines (default [] (lf_bytes <$> dk_files left !! e.2)))) (numbered_in (dk_files left))) /\
    forall log, is_Some (al_rotation log) -> quarantine_unreadable log left = (left, log, Ok []).
Proof.
  intros Hd Hlen left. destruct (common_ceiling evs) as (c & Hc).
  destruct (log_run_state c 0 (d, None) evs [] (empty_state c d Hd) Hc ltac:(lia) Hlen) as (L & ([Hst Hg] & _ & _) & _).
  assert (stored (dk_files left) L) as Hst' by exact Hst. pose proof (so_lines _ _ Hst') as Hls.
  destruct (verify_each_good L None {| lc_segments := []; lc_records := 0; lc_broken := None; lc_restarts := [] |} None left Hg Hls) as (restarts & E).
  eexists. split; [|rewrite (stored_numbered _ L) by done; split; [|split; [|split]]].
  - unfold verify_dir, mbind, io_bind. rewrite (numbered_stored left L) by done. rewrite (read_segments_stored _ L left) by done. exact E.
  - done.
  - cbn. by rewrite map_map.
  - cbn [lc_records]. unfold counted. rewrite map_map, Nat.add_0_l. f_equal. apply map_ext_in. intros s Hs%list_elem_of_In. destruct (stored_range _ L s Hst' Hs) as (_ & fl & Hfl & Hb & _).
    cbn [snd]. rewrite list.Forall_forall in Hls. rewrite Hfl. change (default [] (lf_bytes <$> Some fl)) with (lf_bytes fl). by rewrite Hb, seg_complete by auto.
  - intros log [[active rot] Hr]. unfold quarantine_unreadable. rewrite Hr. unfold mbind at 1, io_bind. rewrite (numbered_stored left L), (plan_nothing active L left) by done. done.
Qed.

(** ** The reader *)

Definition entry_at (l : list Z) : option Entry :=
  match classify l with LnRecord r => Some {| en_record := r; en_line := string_of l |} | _ => None end.
(** A batch with nothing skipped, and these entries. *)
Definition batch_of (entries : list Entry) (out : ReadBatch) : Prop := rb_entries out = entries /\ rb_skipped out = 0%nat /\ rb_skipped_in out = [].

Lemma read_records path ls : record_lines ls -> forall out es, batch_of es out -> batch_of (es ++ filter_map entry_at ls) (foldl (read_one path) out ls).
Proof.
  induction 1 as [|l ls [r Hr] _ IH]; intros out es Ho; [by rewrite app_nil_r|]. cbn [foldl filter_map]. unfold entry_at at 1. rewrite (record_classified _ _ Hr), cons_middle, app_assoc.
  apply IH. unfold read_one. rewrite (record_classified _ _ Hr). by destruct Ho as (<- & ? & ?).
Qed.
Lemma read_segment_whole d L s offsets out es : dk_faults d = [] -> stored (dk_files d) L -> s ∈ L -> offsets !! segment_name (sg_n s) = None -> batch_of es out ->
  exists o, read_segment (segment_name (sg_n s)) offsets out d = (d, Ok o) /\
    match o with
    | Some (_, _, out') => batch_of (es ++ filter_map entry_at (sg_lines s)) out'
    | None => sg_lines s = []
    end.
Proof.
  intros Hq Hst Hs Ho Hb. destruct (stored_range _ L s Hst Hs) as (_ & fl & Hfl & Hc & _). pose proof (so_lines _ _ Hst) as Hls. rewrite list.Forall_forall in Hls.
  destruct (Hls s Hs) as [Hr Ht]. unfold read_segment. rewrite Ho. change (default (None, 0) None) with (@None nat, 0). cbv beta iota.
  unfold mbind, io_bind, io_get, mret, io_ret. rewrite attempt_ok by done. rewrite Hfl, attempt_ok by done.
  unfold read_start. rewrite (bool_decide_false (is_Some None)) by (by intros [? [=]]). cbn [andb orb].
  replace (Z.of_nat (length (lf_bytes fl)) <? 0) with false by (symmetry; apply Z.ltb_ge; lia). cbn [Z.ltb Z.compare]. unfold mret, io_ret. rewrite Hc.
  destruct (Z.eqb_spec (Z.of_nat (length (seg_content s))) 0) as [E|_].
  { eexists. split; [done|]. destruct (sg_lines s) as [|l ls] eqn:El; [done|]. unfold seg_content in E. rewrite El, length_app in E.
    assert (0 < length (written_lines (l :: ls)))%nat by (by apply written_nonempty). lia. }
  rewrite attempt_ok by done. cbv zeta. change (Z.to_nat 0) with 0%nat. rewrite drop_0. unfold seg_content. rewrite complete_len_written, take_app_length by done.
  destruct (Nat.eqb_spec (length (written_lines (sg_lines s))) 0) as [E|_].
  { eexists. split; [done|]. destruct (sg_lines s) as [|l ls] eqn:El; [done|]. assert (0 < length (written_lines (l :: ls)))%nat by (by apply written_nonempty). lia. }
  eexists. split; [done|]. cbn. assert (complete_lines (written_lines (sg_lines s)) = sg_lines s) as ->.
  { pose proof (complete_written (sg_lines s) [] (record_lines_plain _ Hr) ltac:(set_solver)) as E. by rewrite app_nil_r in E. }
  destruct (read_records (segment_name (sg_n s)) (sg_lines s) Hr out es Hb) as (? & ? & ?). by split.
Qed.
Lemma read_each_whole d L : dk_faults d = [] -> stored (dk_files d) L -> forall M offsets out es, (forall s, s ∈ M -> s ∈ L) -> NoDup (map sg_n M) ->
  (forall s, s ∈ M -> offsets !! segment_name (sg_n s) = None) -> batch_of es out ->
  exists offsets' out', read_each (map (fun s => (sg_n s, segment_name (sg_n s))) M) offsets out d = (d, offsets', Ok out') /\
    batch_of (es ++ filter_map entry_at (M ≫= sg_lines)) out'.
Proof.
  intros Hq Hst. induction M as [|s M IH]; intros offsets out es HM Hnd Ho Hb.
  - eexists _, _. split; [done|]. cbn. by rewrite app_nil_r.
  - cbn [map read_each mbind list_bind]. cbn [map] in Hnd. apply NoDup_cons in Hnd as [Hn Hnd].
    destruct (read_segment_whole d L s offsets out es Hq Hst (HM s ltac:(set_solver)) (Ho s ltac:(set_solver)) Hb) as (o & -> & Hout).
    rewrite filter_map_app, app_assoc. destruct o as [[[place ino] out']|].
    + apply IH; [set_solver|done| |done]. intros x Hx. rewrite lookup_insert_ne; [apply Ho; set_solver|]. intros E. apply Hn.
      apply (segment_name_inj (sg_n s) (sg_n x)) in E as ->; [by apply list_elem_of_In, in_map, list_elem_of_In|apply (stored_range _ L s Hst), HM; set_solver|].
      apply (stored_range _ L x Hst), HM. set_solver.
    + rewrite Hout. cbn [filter_map]. rewrite app_nil_r. apply IH; [set_solver|done|set_solver|done].
Qed.
Lemma restored_subjects es x : forall ids, x ∈ foldl restore_one ids es <-> x ∈ ids \/ exists e, e ∈ es /\ ar_kind (en_record e) = KRevocation /\ ar_subject (en_record e) = x.
Proof.
  induction es as [|e es IH]; intros ids; cbn [foldl]; [set_solver|]. rewrite IH. unfold restore_one. pose proof (covers_elem ids (ar_subject (en_record e))) as Hc.
  case_bool_decide; destruct (covers _ _); cbn [andb negb]; try rewrite elem_of_app, list_elem_of_singleton; setoid_rewrite elem_of_cons; naive_solver.
Qed.
(** What is restored: the subject of every revocation line, and no other. *)
Lemma restore_whole d L : dk_faults d = [] -> stored (dk_files d) L ->
  exists re, restore d = (d, Ok re) /\ re_skipped re = 0%nat /\ re_unreadable re = [] /\
    forall x, x ∈ re_box_ids re <-> exists s l r, s ∈ L /\ l ∈ sg_lines s /\ record_line l r /\ ar_kind r = KRevocation /\ ar_subject r = x.
Proof.
  intros Hq Hst. unfold restore, read_new. rewrite (numbered_stored d L) by done.
  destruct (read_each_whole d L Hq Hst L ∅ no_batch []) as (offsets & out & -> & He & Hs & Hi); [done| |by intros; apply lookup_empty|done|].
  { by apply sorted_lt_nodup, Hst. }
  eexists. split; [done|]. cbn [re_skipped re_unreadable re_box_ids]. split; [done|]. split; [done|]. intros x. rewrite restored_subjects, He. cbn [app].
  pose proof (so_lines _ _ Hst) as Hls. rewrite list.Forall_forall in Hls. split.
  - intros [Hx|(e & Hin & Hk & Hx)]; [set_solver|]. apply elem_of_filter_map in Hin as (l & (s & Hl & Hs')%list_elem_of_bind & Hel). exists s, l.
    destruct (Hls s Hs') as [Hr _]. unfold record_lines in Hr. rewrite list.Forall_forall in Hr. destruct (Hr l Hl) as [r Hlr]. exists r.
    unfold entry_at in Hel. rewrite (record_classified _ _ Hlr) in Hel. injection Hel as <-. naive_solver.
  - intros (s & l & r & Hs' & Hl & Hlr & Hk & Hx). right. exists {| en_record := r; en_line := string_of l |}. split; [|done]. apply elem_of_filter_map. exists l.
    split; [|unfold entry_at; by rewrite (record_classified _ _ Hlr)]. apply list_elem_of_bind. by exists s.
Qed.

(** C31: a box that was revoked stays revoked.  Once the append of a box's
    revocation has returned, every later read of the log, with no call of it
    failing, restores that box and skips nothing: after any opens,
    rotations, prunes and further appends, failing or not, for as long as
    the revocation ceiling, the time a value minted for the box can live. *)
Theorem revocations_survive d evs c log dec t faults d' log' r later :
  dk_files d = ∅ -> Forall (event_ceiling c) (evs ++ later) -> Z.of_nat (length (evs ++ later)) < U64_MAX ->
  (log_run (d, None) evs).2 = Some log -> ad_kind dec = KRevocation -> (String.length (ad_box_id dec) <= MAX_FIELD_BYTES)%nat ->
  append log dec (disk_at (log_run (d, None) evs).1 t faults) = (d', log', Ok r) ->
  Forall (fun e => t <= event_time e < t + c) later ->
  let left := quiet (log_run (d', Some log') later).1 in
  exists re, restore left = (left, Ok re) /\ ad_box_id dec ∈ re_box_ids re /\ re_skipped re = 0%nat /\ re_unreadable re = [].
Proof.
  intros Hd Hc Hlen Elog Hk Hid Ea Ht left. apply list.Forall_app in Hc as [Hc1 Hc2]. rewrite length_app in Hlen.
  destruct (log_run_state c 0 (d, None) evs [] (empty_state c d Hd) Hc1 ltac:(lia) ltac:(lia)) as (L1 & Hst1 & _). rewrite Elog in Hst1.
  destruct (append_state c _ log L1 dec (disk_at (log_run (d, None) evs).1 t faults) d' log' (Ok r) Hst1 ltac:(lia) Ea) as (_ & L2 & Hst2 & _ & Hin). destruct (Hin r eq_refl) as (s & l & h & Hs & Hl & Hw & Hlr & ->).
  destruct (log_run_state c _ (d', Some log') later L2 Hst2 Hc2 ltac:(lia) ltac:(lia)) as (L3 & ([Hst3 _] & _ & _) & Hsince).
  assert (ar_kind (from_decision dec h) = KRevocation /\ ar_subject (from_decision dec h) = ad_box_id dec) as [Hkr Hsr].
  { unfold from_decision. destruct (ad_mapping dec); cbn; split; try done; apply (bounded_spec (ad_box_id dec)); done. }
  destruct (Hsince t l) as (s3 & Hs3 & Hl3 & _); [unfold revokes; rewrite (record_classified _ _ Hlr); by apply bool_decide_true|exists s; split; [done|]; split; [done|]; cbn in Hw; lia|done|].
  destruct (restore_whole left L3 eq_refl Hst3) as (re & E & Hsk & Hun & Hx). exists re. split; [done|]. split; [|done]. apply Hx. by exists s3, l, (from_decision dec h).
Qed.
End props.
