(* ===== verification/AuditSample.v ===== *)
(** * An audit log to evaluate

    Concrete functions for the libraries the log calls: a polynomial for
    SHA-256, and for JSON the fields in hexadecimal before the last one.
    They satisfy the laws the theorems ask for; the witnesses and the
    examples of the quarantine evaluate on them. *)

From stdpp Require Import base list gmap sets strings numbers pretty sorting.
From Stdlib Require Import ZArith Lia Ascii.
From S2P Require Import Prelude Text Bytes AuditChain AuditLog AuditHistory AuditProps.
Open Scope Z_scope.

Module AuditSample.

(** ** A digest *)

Definition poly (l : list Z) : Z := foldl (fun h b => Z.land (h * 257 + b + 1) 18446744073709551615) 7 l.
#[export] Instance sample_digest : Sha256 := {| sha256 l := let h := poly l in map (fun i => Z.land (Z.shiftr h (2 * i)) 255) (seqZ 0 32) |}.
#[export] Instance sample_digest_laws : Sha256Laws.
Proof.
  split. intros l. split; [unfold sha256; cbn [sample_digest]; cbv zeta; by rewrite length_map, length_seqZ|]. apply list.Forall_forall. intros x Hx.
  apply list_elem_of_fmap in Hx as (i & -> & _). change 255 with (Z.ones 8). rewrite Z.land_ones by lia. unfold is_u8. pose proof (Z.mod_pos_bound (Z.shiftr (poly l) (2 * i)) (2 ^ 8)). lia.
Qed.

(** ** Records as lines *)

Definition hex (l : list Z) : list Z := l ≫= fun b => [from_digit16 (Z.shiftr b 4); from_digit16 (Z.land b 15)].
Definition digit_of (c : Z) : Z := if c <? 58 then c - 48 else c - 87.
Fixpoint unhex (l : list Z) : list Z :=
  match l with
  | a :: b :: l => (16 * digit_of a + digit_of b) :: unhex l
  | _ => []
  end.
Definition put_fields (fields : list string) (previous : string) : string :=
  string_of (((fields ++ [previous]) ≫= fun f => hex (bytes f) ++ [59]) ++ PREVIOUS_HASH_FIELD ++ (if is_hash_text previous then bytes previous else []) ++ RECORD_END).
Definition get_fields (raw : list Z) : list string := map (fun p => string_of (unhex p)) (removelast (split_byte 59 raw)).

Definition put_kind (k : AuditKind) : string := match k with KDecision => "decision" | KMint => "mint" | KRevocation => "revocation" end.
Definition get_kind (s : string) : option AuditKind :=
  if bool_decide (s = "decision"%string) then Some KDecision else if bool_decide (s = "mint"%string) then Some KMint
  else if bool_decide (s = "revocation"%string) then Some KRevocation else None.
Definition put_outcome (o : AuditOutcome) : string := match o with OutAdmit => "a" | OutRefuse => "r" end.
Definition get_outcome (s : string) : option AuditOutcome :=
  if bool_decide (s = "a"%string) then Some OutAdmit else if bool_decide (s = "r"%string) then Some OutRefuse else None.
Definition put_marker (m : option string) : string := match m with Some s => String "1" s | None => EmptyString end.
Definition get_marker (s : string) : option string := match s with String _ s => Some s | EmptyString => None end.

Definition put_record (r : AuditRecord) : string :=
  put_fields [ar_schema r; put_kind (ar_kind r); ar_subject r; ar_act r; ar_txn r; ar_upstream r; ar_identifier r; ar_jti r; ar_resource r;
              ar_permission r; put_outcome (ar_decision r); put_marker (ar_marker r)] (ar_previous_hash r).
Definition fields_record (fields : list string) : option AuditRecord :=
  match fields with
  | [schema; kind; subject; act; txn; upstream; identifier; jti; resource; permission; decision; marker; previous] =>
      kind ← get_kind kind; decision ← get_outcome decision;
      Some {| ar_schema := schema; ar_kind := kind; ar_subject := subject; ar_act := act; ar_txn := txn; ar_upstream := upstream;
              ar_identifier := identifier; ar_jti := jti; ar_resource := resource; ar_permission := permission; ar_decision := decision;
              ar_marker := get_marker marker; ar_previous_hash := previous |}
  | _ => None
  end.
Definition get_record (raw : list Z) : option AuditRecord :=
  r ← fields_record (get_fields raw); if bool_decide (bytes (put_record r) = raw) then Some r else None.

Definition ones (n : nat) : string := string_of (replicate n 49).
Definition put_quarantine (q : QuarantineRecord) : string :=
  put_fields [qr_schema q; qr_kind q; qr_segment q; qr_from_hash q; qr_final_hash q; ones (qr_unreadable q)] (qr_previous_hash q).
Definition get_quarantine (raw : list Z) : option QuarantineRecord :=
  match get_fields raw with
  | [schema; kind; segment; from; final; unreadable; previous] =>
      Some {| qr_schema := schema; qr_kind := kind; qr_segment := segment; qr_from_hash := from; qr_final_hash := final;
              qr_unreadable := String.length unreadable; qr_previous_hash := previous |}
  | _ => None
  end.
Definition get_envelope (raw : list Z) : option LineEnvelope :=
  match get_fields raw with
  | schema :: kind :: rest => Some {| le_schema := schema; le_kind := kind; le_previous_hash := default EmptyString (list.last rest) |}
  | _ => None
  end.
#[export] Instance sample_json : AuditJson :=
  {| to_line := put_record; quarantine_line := put_quarantine; read_record := get_record; read_envelope := get_envelope; read_quarantine := get_quarantine |}.

(** ** They satisfy the laws *)

Lemma digit_back d : 0 <= d < 16 -> digit_of (from_digit16 d) = d /\ 48 <= from_digit16 d <= 102 /\ from_digit16 d <> 59.
Proof. intros Hd. unfold digit_of, from_digit16.
  destruct (Z.ltb_spec d 10); [destruct (Z.ltb_spec (48 + d) 58)|destruct (Z.ltb_spec d 16); [destruct (Z.ltb_spec (87 + d) 58)|]]; lia. Qed.
Lemma nibbles b : is_u8 b -> 0 <= Z.shiftr b 4 < 16 /\ 0 <= Z.land b 15 < 16 /\ 16 * Z.shiftr b 4 + Z.land b 15 = b.
Proof.
  unfold is_u8. intros Hb. rewrite Z.shiftr_div_pow2 by lia. change 15 with (Z.ones 4). rewrite Z.land_ones by lia. change (2 ^ 4) with 16.
  pose proof (Z.div_mod b 16). pose proof (Z.mod_pos_bound b 16). pose proof (Z.div_lt_upper_bound b 16 16). pose proof (Z.div_pos b 16). lia.
Qed.
Lemma unhex_hex l : Forall is_u8 l -> unhex (hex l) = l /\ Forall (fun b => 48 <= b <= 102 /\ b <> 59) (hex l).
Proof.
  induction 1 as [|b l Hb _ [IH1 IH2]]; [done|]. destruct (nibbles b Hb) as (H1 & H2 & E). destruct (digit_back _ H1) as (D1 & ? & ?). destruct (digit_back _ H2) as (D2 & ? & ?).
  unfold hex. cbn [mbind list_bind app unhex]. rewrite D1, D2, E. split; [by f_equal|]. repeat (constructor; [done|]). exact IH2.
Qed.
Lemma split_fields fs t : 59 ∉ t -> split_byte 59 ((fs ≫= fun f => hex (bytes f) ++ [59]) ++ t) = map (fun f => hex (bytes f)) fs ++ [t].
Proof.
  intros Ht. induction fs as [|f fs IH]; [by apply split_byte_single|]. cbn [mbind list_bind map app]. rewrite <- !app_assoc. cbn [app].
  rewrite split_byte_app; [by rewrite IH|]. intros Hin. destruct (unhex_hex (bytes f) (bytes_u8 f)) as [_ Hf]. rewrite list.Forall_forall in Hf. destruct (Hf _ Hin). done.
Qed.
Definition put_tail (previous : string) : list Z := PREVIOUS_HASH_FIELD ++ (if is_hash_text previous then bytes previous else []) ++ RECORD_END.
Definition plain_char (b : Z) : bool := in_range 32 126 b && negb (b =? 59).
Lemma tail_chars previous : forallb plain_char (put_tail previous) = true.
Proof.
  unfold put_tail. rewrite !forallb_app. apply andb_true_intro. split; [done|]. apply andb_true_intro. split; [|done]. destruct (is_hash_text previous) eqn:Eh; [|done].
  apply andb_prop in Eh as [_ Hh]. revert Hh. apply forallb_impl. intros b. unfold plain_char, in_range. intros Hb. repeat (destruct (Z.leb_spec _ _)); destruct (Z.eqb_spec b 59); cbn in *; try done; lia.
Qed.
Lemma fields_chars fs : forallb (fun b => in_range 32 126 b) (fs ≫= fun f => hex (bytes f) ++ [59]) = true.
Proof.
  induction fs as [|f fs IH]; [done|]. cbn [mbind list_bind]. rewrite forallb_app. apply andb_true_intro. split; [|done]. rewrite forallb_app, andb_true_r.
  destruct (unhex_hex (bytes f) (bytes_u8 f)) as [_ Hf]. apply forallb_forall. intros b Hb%list_elem_of_In. rewrite list.Forall_forall in Hf. destruct (Hf b Hb).
  unfold in_range. repeat (destruct (Z.leb_spec _ _)); cbn; lia.
Qed.
Lemma put_chars fs previous : forallb (fun b => in_range 32 126 b) (((fs ++ [previous]) ≫= fun f => hex (bytes f) ++ [59]) ++ put_tail previous) = true.
Proof. rewrite forallb_app. apply andb_true_intro. split; [apply fields_chars|]. eapply forallb_impl; [|apply tail_chars]. intros b [Hb _]%andb_prop. done. Qed.
Lemma bytes_put fs previous : bytes (put_fields fs previous) = ((fs ++ [previous]) ≫= fun f => hex (bytes f) ++ [59]) ++ put_tail previous.
Proof.
  apply bytes_string_of. apply list.Forall_forall. intros b Hb. pose proof (put_chars fs previous) as Hp. rewrite forallb_forall in Hp. specialize (Hp b (proj1 (list_elem_of_In _ _) Hb)).
  unfold in_range in Hp. apply andb_prop in Hp as [?%Z.leb_le ?%Z.leb_le]. unfold is_u8. lia.
Qed.
Lemma fields_back fs previous : get_fields (bytes (put_fields fs previous)) = fs ++ [previous].
Proof.
  rewrite bytes_put. unfold get_fields. rewrite split_fields.
  - rewrite removelast_last, map_map. rewrite <- (map_id (fs ++ [previous])) at 2. apply map_ext. intros f. by rewrite (proj1 (unhex_hex _ (bytes_u8 f))), string_of_bytes.
  - intros Hin. pose proof (tail_chars previous) as Ht. rewrite forallb_forall in Ht. specialize (Ht _ (proj1 (list_elem_of_In _ _) Hin)). done.
Qed.
#[export] Instance sample_json_laws : AuditJsonLaws.
Proof.
  split.
  - intros r. cbn [read_record to_line sample_json]. unfold get_record. change (get_fields (bytes (put_record r))) with (get_fields (bytes (put_fields [ar_schema r; put_kind (ar_kind r); ar_subject r; ar_act r; ar_txn r; ar_upstream r;
      ar_identifier r; ar_jti r; ar_resource r; ar_permission r; put_outcome (ar_decision r); put_marker (ar_marker r)] (ar_previous_hash r)))). rewrite fields_back. cbn [app fields_record].
    assert (get_kind (put_kind (ar_kind r)) = Some (ar_kind r)) as -> by (by destruct (ar_kind r)).
    assert (get_outcome (put_outcome (ar_decision r)) = Some (ar_decision r)) as -> by (by destruct (ar_decision r)).
    assert (get_marker (put_marker (ar_marker r)) = ar_marker r) as -> by (by destruct (ar_marker r)). cbn [mbind option_bind].
    destruct r. cbn. by rewrite bool_decide_true.
  - intros r. cbn [to_line sample_json]. unfold put_record. rewrite bytes_put. apply list.Forall_forall. intros b Hb.
    match type of Hb with _ ∈ ((?fs ++ [?p]) ≫= _) ++ _ => pose proof (put_chars fs p) as Hp end.
    rewrite forallb_forall in Hp. specialize (Hp b (proj1 (list_elem_of_In _ _) Hb)). by apply andb_prop in Hp as [?%Z.leb_le _].
  - intros r Hh. cbn [to_line sample_json]. unfold put_record. rewrite bytes_put. unfold put_tail. rewrite Hh. eauto.
Qed.

(** ** A history

    A log of small segments that keeps one: a revocation and decisions,
    torn writes, a crash in a rotation and two opens. *)
Definition small : Rotation := {| ro_bound := 400; ro_retain := 1; ro_revocation_ceiling := 100 |}.
Definition decision_on (kind : AuditKind) (box_id : string) : AuditDecision :=
  {| ad_kind := kind; ad_box_id := box_id; ad_authority := "api.github.com"; ad_identifier := None; ad_jti := EmptyString; ad_mapping := ModuleUnmapped;
     ad_outcome := OutAdmit; ad_marker := None |}.
Definition empty_disk : Disk := {| dk_files := ∅; dk_moved := ∅; dk_inos := 0; dk_now := 0; dk_faults := [] |}.
Definition torn_write : list Fault := [FaultShort 11; FaultFail].
Definition before : list LogEvent := [EvOpen small 1 []; EvAppend (decision_on KDecision "b1") 2 []; EvAppend (decision_on KDecision "b2") 3 torn_write; EvOpen small 4 []].
Definition later : list LogEvent :=
  [EvAppend (decision_on KDecision "b3") 11 []; EvAppend (decision_on KDecision "b4") 12 [FaultFail]; EvAppend (decision_on KDecision "b5") 13 torn_write; EvOpen small 14 [];
   EvAppend (decision_on KDecision "b6") 15 []; EvAppend (decision_on KDecision "b7") 16 []].
Definition left_open : AuditLog := default {| al_path := EmptyString; al_head := EmptyString; al_len := 0; al_poisoned := true; al_rotation := None; al_dir_lock := false |} (log_run (empty_disk, None) before).2.
Definition revoking := append left_open (decision_on KRevocation "b1") (disk_at (log_run (empty_disk, None) before).1 10 []).

(** The segment of the revocation, as it is and with torn bytes after it. *)
Definition first_segment : list Z := default [] (lf_bytes <$> dk_files (revoking.1.1) !! segment_name 0).
Definition head_now : string := al_head revoking.1.2.

Lemma head_fixes_records_witness :
  verify_segment (Some ZERO_HASH) first_segment = Verified (Some head_now) 2 /\ verify_segment (Some ZERO_HASH) (first_segment ++ [123; 34]) = Verified (Some head_now) 2 /\
  (complete_lines first_segment = complete_lines (first_segment ++ [123; 34]) \/ collision (complete_lines first_segment) (complete_lines (first_segment ++ [123; 34]))
   \/ hashes_to ZERO_HASH (complete_lines first_segment) \/ hashes_to ZERO_HASH (complete_lines (first_segment ++ [123; 34]))).
Proof.
  split; [by vm_compute|]. split; [by vm_compute|]. apply (head_fixes_records ZERO_HASH head_now first_segment (first_segment ++ [123; 34]) 2 2); by vm_compute.
Defined.

Lemma directory_verifies_witness :
  let left := quiet (log_run (empty_disk, None) (before ++ later)).1 in
  exists check, verify_dir left = (left, Ok check) /\ lc_broken check = None /\ lc_segments check = map snd (numbered_in (dk_files left)) /\
    lc_records check = sum_list (map (fun e => length (complete_lines (default [] (lf_bytes <$> dk_files left !! e.2)))) (numbered_in (dk_files left))) /\
    forall log, is_Some (al_rotation log) -> quarantine_unreadable log left = (left, log, Ok []).
Proof. apply (directory_verifies empty_disk (before ++ later)); [done|]. vm_compute. discriminate. Defined.

Lemma revocations_survive_witness :
  match append left_open (decision_on KRevocation "b1") (disk_at (log_run (empty_disk, None) before).1 10 []) with
  | (d', log', Ok _) =>
      let left := quiet (log_run (d', Some log') later).1 in
      exists re, restore left = (left, Ok re) /\ ad_box_id (decision_on KRevocation "b1") ∈ re_box_ids re /\ re_skipped re = 0%nat /\ re_unreadable re = []
  | _ => False
  end.
Proof.
  destruct (append _ _ _) as [[d' log'] [r|e]] eqn:E; [|by vm_compute in E].
  apply (revocations_survive empty_disk before 100 left_open (decision_on KRevocation "b1") 10 [] d' log' r later).
  - done.
  - repeat (apply list.Forall_cons; split; [cbn; lia|]). apply list.Forall_nil. done.
  - vm_compute. done.
  - by vm_compute.
  - done.
  - vm_compute. lia.
  - exact E.
  - repeat (apply list.Forall_cons; split; [cbn; lia|]). apply list.Forall_nil. done.
Defined.
(** ** The quarantine at work *)

(** A byte of the first line of the first segment is damaged. *)
Definition damage (d : Disk) : Disk :=
  match dk_files d !! segment_name 0 with Some f => put_bytes (segment_name 0) (88 :: tail (lf_bytes f)) d | None => d end.
Definition damaged : Disk := quiet (damage (log_run (revoking.1.1, Some revoking.1.2) (take 1 later)).1).
Definition wide : Rotation := {| ro_bound := 4000; ro_retain := 2; ro_revocation_ceiling := 100 |}.
Definition quarantined (rot : Rotation) (d : Disk) : Disk * result IoError (list string) :=
  match open_dir rot d with
  | (d, Ok log) => let '(d, _, res) := quarantine_unreadable log d in (d, match res with Ok l => Ok (map qd_segment l) | Err e => Err e end)
  | (d, Err e) => (d, Err e)
  end.

(** The check reports the damage; the quarantine moves the segment, the log
    verifies past the gap, and the box stays revoked. *)
Example damaged_reported :
  (verify_dir damaged).2 = Ok {| lc_segments := ["audit-0.jsonl"%string]; lc_records := 1; lc_broken := Some ("audit-0.jsonl"%string, 2%nat); lc_restarts := [] |}.
Proof. by vm_compute. Qed.
Example damaged_moved :
  let '(d, res) := quarantined wide damaged in
  res = Ok ["audit-0.jsonl"%string] /\ (verify_dir d).2 = Ok {| lc_segments := ["audit-1.jsonl"%string]; lc_records := 3; lc_broken := None; lc_restarts := ["audit-1.jsonl"%string] |} /\
  (restore d).2 = Ok {| re_box_ids := ["b1"%string]; re_skipped := 0; re_unreadable := [] |}.
Proof. vm_compute. by repeat split. Qed.

(** A segment past the ceiling may be pruned by the rotation that the
    quarantine's own record causes; then there is nothing to move, and the
    quarantine fails. *)
Definition full : Disk := quiet (damage (log_run (revoking.1.1, Some revoking.1.2) [EvAppend (decision_on KDecision "b3") 11 []; EvAppend (decision_on KDecision "b9") 12 []]).1).
Example expired_pruned :
  let '(d, res) := quarantined small (disk_at full 500 []) in res = Err IoNotFound /\ dk_moved d = ∅ /\ dk_files d !! segment_name 0 = None.
Proof. vm_compute. by repeat split. Qed.
End AuditSample.
