(* ===== verification/Redeemer.v ===== *)
(** * The redeemer (crates/bep/src/redeemer.rs)

    What the proxy does for a request with a sealed value: it attributes the
    request from its box registry (crates/bep/src/boxes.rs), opens the value
    under the host's key, reads its handle, decides, and only then resolves
    the sign-in reference.  The registries are arguments; the keychain and
    GitHub's token endpoint are the world of [SignInWorld]. *)

From stdpp Require Import base list gmap strings numbers sorting.
From Stdlib Require Import ZArith Lia Ascii.
From S2P Require Import Prelude Text Bytes Envelope Handle Redeem SignIn StoreRules AuditChain.
Open Scope Z_scope.

(** ** The box registry *)

Inductive Stance : Type := SOwnIp | SHostIp.
#[global] Instance Stance_eq_dec : EqDecision Stance.
Proof. solve_decision. Defined.
Record BoxEgress : Type := { be_egress : list (Authority string); be_stance : Stance }.
Notation Boxes := (gmap string BoxEgress).

(** [Boxes::register], [Boxes::forget], [Boxes::get] and [Boxes::egress]. *)
Definition boxes_register (b : Boxes) (box_id : string) (egress : list (Authority string)) (stance : Stance) : Boxes :=
  <[box_id := {| be_egress := egress; be_stance := stance |}]> b.
Definition boxes_forget (b : Boxes) (box_id : string) : Boxes * bool := (delete box_id b, bool_decide (is_Some (b !! box_id))).
Definition boxes_get (b : Boxes) (box_id : string) : option BoxEgress := b !! box_id.
Definition boxes_egress (b : Boxes) (box_id : string) : list (Authority string) := default [] (option_map be_egress (boxes_get b box_id)).

(** [Boxes::attribution] and [Boxes::cohort]. *)
Definition boxes_attribution (b : Boxes) (box_id : string) : Attribution string :=
  match option_map be_stance (boxes_get b box_id) with
  | None => AtNoLiveBox
  | Some SOwnIp => AtOwnIp box_id
  | Some SHostIp => AtHostIpCohort
  end.
Definition boxes_cohort (b : Boxes) : list string :=
  map fst (filter (fun e => be_stance e.2 = SHostIp) (btree_iter b)).

(** ** Revocations *)

(** [in_force_for] and [record] of crates/bep/src/revoke.rs. *)
Definition in_force_for (revoked : list string) (box_id : string) : list string := filter (fun named => named = box_id) revoked.
Definition record_revocation (revoked : list string) (box_id : string) : list string * bool :=
  if covers revoked box_id then (revoked, false) else (revoked ++ [box_id], true).

(** ** Data *)

Definition COHORT_BOX_ID_TEXT : string := "ffffffffffffffffffffffffffffffff".
Definition is_cohort_box_id (box_id : string) : bool := bool_decide (box_id = COHORT_BOX_ID_TEXT).
Definition SIGN_IN_REQUIRED : string := "github_sign_in_required".
Definition COHORT_MISATTRIBUTED : string := "cohort_misattributed".
Definition SEALED_HEADER_MISPLACED : string := "sealed_header_misplaced".
Definition RENEW_RETRY_AFTER_SECS : Z := 60.

(** [Verdict], [StoreAdmit] and [Redeemed] of crates/bep/src/forward.rs. *)
Inductive CredVerdict : Type :=
| CvAdmit (credential identifier : string) (mapping : Mapping) (renewed : bool) (marker : option string) (cohort : bool)
| CvRefuse (marker : string).
Record StoreAdmit : Type := {
  sad_store : string; sad_id : string; sad_inject : Inject; sad_mapping : Mapping; sad_marker : option string; sad_cohort : bool }.
Definition admit_identifier (a : StoreAdmit) : string := (sad_store a ++ ":" ++ sad_id a)%string.
Inductive Redeemed : Type := RdVerdict (v : CredVerdict) | RdStore (a : StoreAdmit).

(** What [SingleFlight::run] gives its caller. *)
Inductive Ran (T : Type) : Type := Led (outcome : T) | Waited (outcome : T) | Abandoned | TimedOut.
Arguments Led {T} _.
Arguments Waited {T} _.
Arguments Abandoned {T}.
Arguments TimedOut {T}.
(** Whether a run for the key is in flight, and what it will give. *)
Inductive Flight (T : Type) : Type := NoFlight | FlEnds (outcome : T) | FlPanics | FlOutlasts.
Arguments NoFlight {T}.
Arguments FlEnds {T} _.
Arguments FlPanics {T}.
Arguments FlOutlasts {T}.

(** The members of a JSON object the code reads by name. *)
Class HeaderFields := { read_sub : list Z -> option string; read_typ : list Z -> option string }.

(** [BoxRedeemer], less the keychain and the endpoint. *)
Record BoxRedeemer `{HandleCrypto} : Type := {
  br_key : HeldKey;
  br_node : string;
  br_module : CredModule;
  br_clients : ClientKeys;
  br_boxes : Boxes;
  br_revocations : list string;
  br_rules : Rules;
}.

Record Facts : Type := {
  fc_redemption : Redemption string string Inject;
  fc_identifier : option string;
  fc_kind : option MemberKind;
  fc_jti : string;
  fc_misattributed : bool;
  fc_subject : string;
}.

Section redeemer.
Context `{HandleCrypto} `{HeaderFields}.

(** [BoxRedeemer::open]. *)
Definition redeemer_open (r : BoxRedeemer) (box_id sealed : string) (now : Z) : result OpenError Opened :=
  open_held (br_key r) sealed {| bd_box_id := box_id; bd_host := br_node r; bd_module := md_id (br_module r); bd_now := now |}.

(** [carried_box], [cohort_target] and [cohort_member]. *)
Definition carried_box (sealed : string) : option string :=
  if MAX_SEALED_LEN <? Z.of_nat (String.length sealed) then None
  else segment ← head (str_split "."%char sealed); header ← url_safe_decode segment; read_sub header.
Definition cohort_target (cohort : list string) (sealed : string) : option string :=
  match keep_if (fun id => bool_decide (id ∈ cohort)) (carried_box sealed) with
  | Some id => Some id
  | None => head cohort
  end.
Definition cohort_member (r : BoxRedeemer) (sealed : string) : option string :=
  keep_if (fun id => bool_decide (id ∈ boxes_cohort (br_boxes r))) (carried_box sealed).

(** [BoxRedeemer::unsealed]. *)
Definition unsealed (result : result OpenError Opened) : Unsealed string * option Opened :=
  match unsealed_from_open result with
  | Ok unsealed => (unsealed, match result with Ok o => Some o | Err _ => None end)
  | Err _ => (UsUndecryptable, None)
  end.
Definition is_other_box (u : Unsealed string) : bool := match u with UsOtherBox => true | _ => false end.

(** What [facts] opens: the unsealed value, and whether it names a box of
    the cohort. *)
Definition open_in_cohort (r : BoxRedeemer) (member sealed : string) (now : Z) : Unsealed string * option Opened * bool :=
  let '(u, o) := unsealed (redeemer_open r member sealed now) in (u, o, negb (is_other_box u)).
Definition open_for (r : BoxRedeemer) (box_id sealed : string) (now : Z) (cohort_delivery : bool) (member : option string)
    (attribution : Attribution string) : Unsealed string * option Opened * bool :=
  if cohort_delivery && bool_decide (member = None) then (UsOtherBox, None, false)
  else match attribution with
       | AtHostIpCohort =>
           if cohort_delivery then open_in_cohort r (default EmptyString member) sealed now
           else match cohort_target (boxes_cohort (br_boxes r)) sealed with
                | None => (UsOtherBox, None, false)
                | Some member => open_in_cohort r member sealed now
                end
       | AtOwnIp sender => (unsealed (redeemer_open r sender sealed now), false)
       | AtNoLiveBox => (unsealed (redeemer_open r box_id sealed now), false)
       end.

(** The host sets [facts] reads for an opened value. *)
Definition host_sets (module_ : CredModule) (o : Opened) (h : Handle string Inject) : list (Authority string) * list (Authority string) :=
  match mb_kind (op_member o) with
  | MkStore => (hd_upstream h, default [] (option_map hr_upstream (hd_rule h)))
  | MkSignIn => (if sc_host_set_version (op_context o) =? md_host_set_version module_ then md_hosts module_ else [], md_hosts module_)
  end.

(** [BoxRedeemer::facts]. *)
Definition facts (r : BoxRedeemer) (box_id : string) (authority : Authority string) (request : RequestAuthority string)
    (sealed : string) (now : Z) : Facts :=
  let cohort_delivery := is_cohort_box_id box_id in
  let member := if cohort_delivery then cohort_member r sealed else None in
  let misattributed := cohort_delivery && bool_decide (member = None) in
  let attribution := if cohort_delivery then AtHostIpCohort else boxes_attribution (br_boxes r) box_id in
  let subject := default box_id member in
  let egress := boxes_egress (br_boxes r) subject in
  let '(u, opened, named) := open_for r box_id sealed now cohort_delivery member attribution in
  let '(bound_set, current_set, handle, identifier, jti) :=
    match opened with
    | Some o =>
        let read := read_opened o (br_clients r) (br_rules r) (br_module r) in
        let '(bound_set, current_set) := host_sets (br_module r) o (hd_handle read) in
        (bound_set, current_set, hd_handle read, hd_identifier read, default EmptyString (hd_jti read))
    | None => ([], md_hosts (br_module r), no_handle, None, EmptyString)
    end in
  let revoked := match u with UsOpened named _ _ => in_force_for (br_revocations r) named | _ => [] end in
  {| fc_redemption :=
       {| rd_unsealed := u; rd_attribution := attribution; rd_named_box_in_cohort := named; rd_now := now; rd_revoked := revoked;
          rd_authority := authority; rd_bound_set := bound_set; rd_current_set := current_set; rd_request := request;
          rd_egress := egress; rd_handle := handle |};
     fc_identifier := identifier;
     fc_kind := option_map (fun o => mb_kind (op_member o)) opened;
     fc_jti := jti;
     fc_misattributed := misattributed;
     fc_subject := subject |}.

(** [BoxRedeemer::store_decision]. *)
Definition store_decision (f : Facts) : Redeemed :=
  match decide_redemption (fc_redemption f) with
  | DecRefuse check => RdVerdict (CvRefuse (check_marker check))
  | DecAdmit _ _ _ as decision =>
      match (identifier ← fc_identifier f; split_once ":"%char identifier), hd_inject (rd_handle (fc_redemption f)) with
      | Some (store, id), Some inject =>
          RdStore {| sad_store := store; sad_id := id; sad_inject := inject; sad_mapping := ModuleUnmapped;
                     sad_marker := decision_marker decision; sad_cohort := cohort_attributed decision |}
      | _, _ => RdVerdict (CvRefuse (check_marker CkStoreHandleInvalid))
      end
  end.

(** [Redeemer::egress]. *)
Definition push_new (l : list (Authority string)) (a : Authority string) : list (Authority string) :=
  if bool_decide (a ∈ l) then l else l ++ [a].
Definition redeemer_egress (r : BoxRedeemer) (box_id : string) : list (Authority string) :=
  if negb (is_cohort_box_id box_id) then boxes_egress (br_boxes r) box_id
  else foldl (fun union member => foldl push_new union (boxes_egress (br_boxes r) member)) [] (boxes_cohort (br_boxes r)).

(** ** Credentials *)

Context {W : Type} `{SignInWorld W}.

(** The failed renewals by instance, and the world. *)
Record RenewState : Type := { rn_world : W; rn_failed : gmap string Z }.
Definition set_world (s : RenewState) (w : W) : RenewState := {| rn_world := w; rn_failed := rn_failed s |}.

(** [renewal_backed_off] and [record_renewal]. *)
Definition renewal_backed_off (s : RenewState) (inst : string) (now : Z) : bool :=
  match rn_failed s !! inst with
  | Some failed => now <? u64_saturating_add failed RENEW_RETRY_AFTER_SECS
  | None => false
  end.
Definition renewal_ok (outcome : result RenewError Resolved) : bool := match outcome with Ok r => negb (rs_failed r) | Err _ => false end.
Definition record_renewal (s : RenewState) (inst : string) (outcome : result RenewError Resolved) (now : Z) : RenewState :=
  {| rn_world := rn_world s; rn_failed := if renewal_ok outcome then delete inst (rn_failed s) else <[inst := now]> (rn_failed s) |}.

(** The renewal, as [SingleFlight::run] runs it or waits for it. *)
Definition run_renewal (flight : Flight (result RenewError Resolved)) (s : RenewState) (inst : string) (now : Z)
    : RenewState * Ran (result RenewError Resolved) :=
  match flight with
  | NoFlight => let '(w, outcome) := renew (rn_world s) inst now in (record_renewal (set_world s w) inst outcome now, Led outcome)
  | FlEnds outcome => (s, Waited outcome)
  | FlPanics => (s, Abandoned)
  | FlOutlasts => (s, TimedOut)
  end.

(** [BoxRedeemer::credential]. *)
Definition credential (module_ : CredModule) (flight : Flight (result RenewError Resolved)) (s : RenewState) (identifier : string) (now : Z)
    : RenewState * option (string * bool) :=
  match (rest ← strip_prefix (md_id module_) identifier; strip_prefix ":" rest) with
  | None => (s, None)
  | Some inst =>
      let '(w, held) := kc_metadata (rn_world s) in
      let s := set_world s w in
      match held with
      | Err _ | Ok None => (s, None)
      | Ok (Some metadata) =>
          if negb (bool_decide (me_instance metadata = inst)) then (s, None)
          else if needs_renewal metadata now && negb (renewal_backed_off s inst now) then
            let '(s, ran) := run_renewal flight s inst now in
            (s, match ran with
                | Led (Ok resolved) => Some (rs_token resolved, rs_renewed resolved)
                | Waited (Ok resolved) => Some (rs_token resolved, false)
                | Led (Err _) | Waited (Err _) | Abandoned | TimedOut => None
                end)
          else if me_token_expires_at metadata <=? now then (s, None)
          else
            let '(w, held) := kc_material (rn_world s) in
            (set_world s w, match held with
                            | Ok (Some material) => if bool_decide (mt_instance material = inst) then Some (mt_access_token material, false) else None
                            | _ => None
                            end)
      end
  end.

(** [BoxRedeemer::sign_in_verdict]. *)
Definition sign_in_verdict (r : BoxRedeemer) (flight : Flight (result RenewError Resolved)) (s : RenewState) (f : Facts) (now : Z)
    : RenewState * CredVerdict :=
  if fc_misattributed f then (s, CvRefuse COHORT_MISATTRIBUTED)
  else match decide_redemption (fc_redemption f) with
       | DecRefuse check => (s, CvRefuse (check_marker check))
       | DecAdmit _ _ _ as decision =>
           let identifier := default EmptyString (fc_identifier f) in
           let '(s, c) := credential (br_module r) flight s identifier now in
           (s, match c with
               | Some (cred, renewed) =>
                   CvAdmit cred identifier ModuleUnmapped renewed (decision_marker decision) (cohort_attributed decision)
               | None => CvRefuse SIGN_IN_REQUIRED
               end)
       end.

(** [BoxRedeemer::redeem_attributed]. *)
Definition redeem_attributed (r : BoxRedeemer) (flight : Flight (result RenewError Resolved)) (s : RenewState) (box_id : string)
    (authority : Authority string) (request : RequestAuthority string) (sealed header : string) (now : Z)
    : RenewState * (Redeemed * string * string) :=
  let f := facts r box_id authority request sealed now in
  let verdict := let '(s, v) := sign_in_verdict r flight s f now in (s, (RdVerdict v, fc_jti f, fc_subject f)) in
  if fc_misattributed f then verdict
  else if bool_decide (fc_kind f = Some MkStore) then (s, (store_decision f, fc_jti f, fc_subject f))
  else if negb (str_eq_ignore_case header "authorization")
  then (s, (RdVerdict (CvRefuse SEALED_HEADER_MISPLACED), EmptyString, fc_subject f))
  else verdict.
End redeemer.

(** ** What an admission has earned *)

Section earned.
Context `{HandleCrypto} `{HeaderFields}.

(** The box a request is redeemed for: the connection's own, when it sends
    from an address of its own; else a live box of the shared address, when
    the connection comes from that address. *)
Definition host_ip_box (b : Boxes) (id : string) : Prop := exists e, b !! id = Some e /\ be_stance e = SHostIp.
Definition redeems_for (r : BoxRedeemer) (box_id sender : string) : Prop :=
  (box_id <> COHORT_BOX_ID_TEXT /\ sender = box_id /\ exists e, br_boxes r !! box_id = Some e /\ be_stance e = SOwnIp) \/
  (host_ip_box (br_boxes r) sender /\ (box_id = COHORT_BOX_ID_TEXT \/ host_ip_box (br_boxes r) box_id)).

(** The rule in force for a member's handle admits the authority, in the
    form the handle names. *)
Definition rule_in_force (r : BoxRedeemer) (o : Opened) (claims : Claims) (authority : Authority string) : Prop :=
  match mb_kind (op_member o) with
  | MkStore => exists rule ups, br_rules r (cl_store claims) (cl_id claims) = Some rule /\
      parse_authorities (sru_upstream rule) = Some ups /\ authority ∈ ups /\ cl_inject claims = Some (sru_inject rule)
  | MkSignIn => cl_store claims = md_id (br_module r) /\ cl_inject claims = None /\ authority ∈ md_hosts (br_module r) /\
      sc_host_set_version (op_context o) = md_host_set_version (br_module r)
  end.

Record redeemable (r : BoxRedeemer) (box_id : string) (authority : Authority string) (request : RequestAuthority string)
    (sealed subject : string) (now : Z) (o : Opened) (claims : Claims) : Prop := {
  ra_sender : exists sender, redeems_for r box_id sender /\ redeemer_open r sender sealed now = Ok o /\
    sender ∉ br_revocations r /\ cl_sub claims = sender /\ (is_cohort_box_id box_id = true -> subject = sender);
  ra_open_expiry : now < sc_expiry (op_context o);
  ra_claims : verify_handle (mb_jws (op_member o)) (br_clients r) = Ok claims;
  ra_node : cl_node_id claims = br_node r;
  ra_handle_expiry : now < cl_exp claims;
  ra_named : exists ups, parse_authorities (cl_upstream claims) = Some ups /\ authority ∈ ups;
  ra_rule : rule_in_force r o claims authority;
  ra_egress : authority ∈ boxes_egress (br_boxes r) subject;
  ra_request : ra_host request = Some authority /\ forall t, ra_target request = Some t -> t = authority;
}.

Lemma elem_of_cohort b id : id ∈ boxes_cohort b <-> host_ip_box b id.
Proof.
  unfold boxes_cohort, host_ip_box. rewrite list_elem_of_fmap. split.
  - intros ([k e] & -> & He). apply list_elem_of_filter in He as [Hs He%elem_of_btree_iter]. by exists e.
  - intros (e & Hl & Hs). exists (id, e). split; [done|]. apply list_elem_of_filter. split; [done|]. by apply elem_of_btree_iter.
Qed.

Lemma keep_if_Some {A} (p : A -> bool) o a : keep_if p o = Some a <-> o = Some a /\ p a = true.
Proof. destruct o as [x|]; cbn; [|naive_solver]. destruct (p x) eqn:E; split; [by intros [= <-]|by intros [[= <-] _]|done|intros [[= <-] ?]; congruence]. Qed.

Lemma unsealed_opened res b bounds e o : unsealed res = (UsOpened b bounds e, o) ->
  exists op, res = Ok op /\ o = Some op /\ b = sc_box_id (op_context op) /\ e <= sc_expiry (op_context op) /\
    bo_mode bounds = Some (sc_mode (op_context op)).
Proof.
  unfold unsealed. destruct res as [op|err]; cbn.
  - intros [= <- <- <- <-]. exists op. repeat (split; [done|]). split; [destruct (mb_exp (op_member op)); lia|done].
  - by destruct err as [| | |[]| | | | |].
Qed.

Lemma elem_in_force l id : id ∈ l <-> id ∈ in_force_for l id.
Proof. unfold in_force_for. rewrite list_elem_of_filter. naive_solver. Qed.

(** The value that [facts] finds open was opened for the box the request is
    redeemed for. *)
Lemma open_for_sender r box_id sealed now b bounds e o named member attribution :
  member = (if is_cohort_box_id box_id then cohort_member r sealed else None) ->
  attribution = (if is_cohort_box_id box_id then AtHostIpCohort else boxes_attribution (br_boxes r) box_id) ->
  open_for r box_id sealed now (is_cohort_box_id box_id) member attribution = (UsOpened b bounds e, o, named) ->
  attribution <> AtNoLiveBox ->
  exists sender op, redeems_for r box_id sender /\ redeemer_open r sender sealed now = Ok op /\ o = Some op /\
    b = sc_box_id (op_context op) /\ e <= sc_expiry (op_context op) /\ (is_cohort_box_id box_id = true -> member = Some sender) /\
    (is_cohort_box_id box_id = false -> member = None).
Proof.
  intros Hm Ha Hopen Hlive. unfold open_for in Hopen. unfold redeems_for. destruct (is_cohort_box_id box_id) eqn:Ec.
  - apply bool_decide_eq_true_1 in Ec. subst attribution. cbn [andb] in Hopen. destruct member as [m|]; [|done].
    cbn [default bool_decide] in Hopen. rewrite bool_decide_false in Hopen by done. symmetry in Hm. unfold cohort_member in Hm.
    apply keep_if_Some in Hm as [_ Hin%bool_decide_eq_true_1%elem_of_cohort].
    unfold open_in_cohort in Hopen. cbn [default] in Hopen. destruct (unsealed _) as [u o'] eqn:Eu. injection Hopen as -> -> _.
    apply unsealed_opened in Eu as (op & Hop & -> & Hb & He & _). exists m, op. naive_solver.
  - apply bool_decide_eq_false_1 in Ec. cbn [andb] in Hopen. subst member.
    unfold boxes_attribution in Ha. destruct (boxes_get (br_boxes r) box_id) as [eg|] eqn:Eg; [|subst; done]. cbn [option_map] in Ha.
    unfold boxes_get in Eg. destruct (be_stance eg) eqn:Es; subst attribution.
    + injection Hopen as Hopen _. apply unsealed_opened in Hopen as (op & Hop & -> & Hb & He & _). exists box_id, op. naive_solver.
    + destruct (cohort_target _ sealed) as [m|] eqn:Et; [|done]. assert (host_ip_box (br_boxes r) m) as Hin.
      { unfold cohort_target in Et. destruct (keep_if _ _) as [id|] eqn:Ek.
        - injection Et as ->. by apply keep_if_Some in Ek as [_ Hin%bool_decide_eq_true_1%elem_of_cohort].
        - apply elem_of_cohort. apply head_Some_elem_of in Et. done. }
      unfold open_in_cohort in Hopen. destruct (unsealed _) as [u o'] eqn:Eu. injection Hopen as -> -> _.
      apply unsealed_opened in Eu as (op & Hop & -> & Hb & He & _). exists m, op.
      assert (host_ip_box (br_boxes r) box_id) by (by exists eg). naive_solver.
Qed.

Lemma redeemer_open_bound r sender sealed now o : redeemer_open r sender sealed now = Ok o ->
  sc_box_id (op_context o) = sender /\ sc_host (op_context o) = br_node r /\ sc_module (op_context o) = md_id (br_module r) /\ now < sc_expiry (op_context o).
Proof. unfold redeemer_open, open_held. intros Ho%open_with_bound. naive_solver. Qed.

(** A handle that passes its check was verified, and its rule is in force. *)
Lemma read_handle_checked r o sender sealed now :
  redeemer_open r sender sealed now = Ok o ->
  let read := read_opened o (br_clients r) (br_rules r) (br_module r) in
  handle_check (hd_handle read) now = Ok () ->
  exists claims ups rule, verify_handle (mb_jws (op_member o)) (br_clients r) = Ok claims /\
    hd_identifier read = Some (claims_identifier claims) /\ hd_jti read = Some (cl_jti claims) /\
    hd_inject (hd_handle read) = cl_inject claims /\
    cl_sub claims = sender /\ cl_node_id claims = br_node r /\ now < cl_exp claims /\
    parse_authorities (cl_upstream claims) = Some ups /\ hd_upstream (hd_handle read) = ups /\
    hd_rule (hd_handle read) = Some rule /\ cl_inject claims = hr_inject rule /\
    match mb_kind (op_member o) with
    | MkStore => exists cfg, br_rules r (cl_store claims) (cl_id claims) = Some cfg /\
        parse_authorities (sru_upstream cfg) = Some (hr_upstream rule) /\ hr_inject rule = Some (sru_inject cfg)
    | MkSignIn => cl_store claims = md_id (br_module r) /\ rule = {| hr_upstream := md_hosts (br_module r); hr_inject := None |}
    end.
Proof.
  intros (Hb & Hh & Hm & _)%redeemer_open_bound. cbn zeta. intros (Hv & Hbound & Hexp & rule & Hrule & Hsub & Hinj)%handle_check_ok.
  revert Hv Hbound Hexp Hrule Hsub Hinj. unfold read_opened, read_handle. cbn [og_kind og_box_id og_host og_module].
  destruct (verify_handle _ _) as [claims|] eqn:Ev.
  2:{ destruct (unverified_claims _) as [[? ?]|]; cbn; [|done]. intros [=]. }
  cbn [hd_handle hd_verified hd_bound hd_exp hd_rule hd_upstream hd_inject hd_identifier hd_jti andb].
  intros Hups%bool_decide_eq_true_1 [Hs%bool_decide_eq_true_1 Hn%bool_decide_eq_true_1]%andb_true_iff Hexp Hrule Hsub Hinj.
  destruct Hups as [ups Hups]. rewrite Hups in *. cbn [default] in *. exists claims, ups, rule.
  split; [done|]. split; [done|]. split; [done|]. split; [done|]. split; [congruence|]. split; [congruence|].
  split; [done|]. split; [done|]. split; [done|]. split; [done|]. split; [done|].
  unfold current_rule in Hrule. cbn [og_module og_kind] in Hrule. case_bool_decide; [|done]. cbn [negb] in Hrule.
  destruct (mb_kind (op_member o)); cbn [handle_kind] in Hrule.
  - case_bool_decide; [|done]. by injection Hrule as <-.
  - destruct (br_rules r _ _) as [cfg|]; [|done]. cbn in Hrule. destruct (parse_authorities (sru_upstream cfg)) eqn:Ep; [|done].
    cbn in Hrule. injection Hrule as <-. by exists cfg.
Qed.

(** A decision that admits, from the facts of a request. *)
Lemma facts_admit r box_id authority request sealed now f a mode breadth :
  f = facts r box_id authority request sealed now ->
  decide_redemption (fc_redemption f) = DecAdmit a mode breadth ->
  exists o claims, redeemable r box_id authority request sealed (fc_subject f) now o claims /\
    fc_kind f = Some (mb_kind (op_member o)) /\ fc_identifier f = Some (claims_identifier claims) /\ fc_jti f = cl_jti claims /\
    hd_inject (rd_handle (fc_redemption f)) = cl_inject claims /\ mode = sc_mode (op_context o).
Proof.
  intros Hf Hd. apply decide_admits_iff in Hd as [(b & bounds & e & Hu & Hmode & _ & Hat & He & Hrev) Hh Heg (Hbs & Hhu & Hcs) Hreq].
  unfold facts in Hf. set (member := if is_cohort_box_id box_id then cohort_member r sealed else None) in *.
  set (attribution := if is_cohort_box_id box_id then AtHostIpCohort else boxes_attribution (br_boxes r) box_id) in *.
  destruct (open_for r box_id sealed now (is_cohort_box_id box_id) member attribution) as [[u opened] named] eqn:Eo.
  assert (u = UsOpened b bounds e) as ->.
  { destruct opened as [o|]; [destruct (host_sets _ _ _)|]; subst f; exact Hu. }
  assert (attribution <> AtNoLiveBox) as Hlive.
  { intros En. clear Hu. destruct opened as [o|]; [destruct (host_sets _ _ _)|]; subst f; cbn in Hat; unfold attributed_to in Hat; cbn in Hat; rewrite En in Hat; naive_solver. }
  destruct (open_for_sender r box_id sealed now b bounds e opened named member attribution eq_refl eq_refl Eo Hlive)
    as (sender & op & Hfor & Hop & -> & Hb & Hle & Hc & Hn).
  destruct (host_sets _ _ _) as [bs cs] eqn:Ehs. subst f. cbn in Hh, Heg, Hbs, Hhu, Hcs, Hreq, He, Hrev.
  pose proof (redeemer_open_bound _ _ _ _ _ Hop) as (Hbox & _ & _ & Hexp).
  destruct (read_handle_checked _ _ _ _ _ Hop Hh) as (claims & ups & rule & Hv & Hid & Hj & Hi & Hsub & Hnode & Hcexp & Hups & Ehu & Hrule & Hinj & Hkind).
  exists op, claims. cbn. rewrite Hid, Hj, Hi. split; [|repeat (split; [done|])].
  2:{ unfold open_for in Eo. clear -Eo Hmode Hop. revert Eo. unfold open_in_cohort.
      repeat first [case_match|progress intros]; simplify_eq; try done.
      all: match goal with H : unsealed _ = (UsOpened _ _ _, _) |- _ => apply unsealed_opened in H as (? & ? & ? & ? & ? & Hm) end; simplify_eq; congruence. }
  split; try done.
  - exists sender. split; [done|]. split; [done|]. split; [|split; [done|]].
    + rewrite elem_in_force. by subst.
    + intros Ec. by rewrite (Hc Ec).
  - exists ups. split; [done|]. by rewrite <- Ehu.
  - unfold rule_in_force. unfold host_sets in Ehs. destruct (mb_kind (op_member op)).
    + destruct Hkind as [Hst ->]. cbn in Hinj. injection Ehs as <- <-. split; [done|]. split; [done|]. split; [done|].
      destruct (Z.eqb_spec (sc_host_set_version (op_context op)) (md_host_set_version (br_module r))); [done|]. by apply elem_of_nil in Hbs.
    + destruct Hkind as (cfg & Hcfg & Hpa & Hcin). injection Ehs as <- <-. rewrite Hrule in Hcs. cbn in Hcs.
      exists cfg, (hr_upstream rule). by rewrite Hinj.
Qed.
End earned.

Section credentials.
Context `{HandleCrypto} `{HeaderFields} {W : Type} `{SignInWorld W}.

(** Where a credential comes from: the token the keychain holds for the
    instance, before its expiry; or what a renewal of that instance gave,
    this request's or the one it waited for. *)
Definition token_of (flight : Flight (result RenewError Resolved)) (w : W) (now : Z) (inst tok : string) (renewed : bool) : Prop :=
  exists w0 metadata, kc_metadata w = (w0, Ok (Some metadata)) /\ me_instance metadata = inst /\
    ((exists w1 material, kc_material w0 = (w1, Ok (Some material)) /\ mt_instance material = inst /\ tok = mt_access_token material /\
        now < me_token_expires_at metadata /\ renewed = false) \/
     (needs_renewal metadata now = true /\ exists resolved, tok = rs_token resolved /\
        ((flight = NoFlight /\ (exists w1, renew w0 inst now = (w1, Ok resolved)) /\ renewed = rs_renewed resolved) \/
         (flight = FlEnds (Ok resolved) /\ renewed = false)))).

Lemma credential_token module_ flight s identifier now s' tok renewed :
  credential module_ flight s identifier now = (s', Some (tok, renewed)) ->
  exists inst, (rest ← strip_prefix (md_id module_) identifier; strip_prefix ":" rest) = Some inst /\ token_of flight (rn_world s) now inst tok renewed.
Proof.
  unfold credential, token_of. destruct (mbind _ _) as [inst|]; [|done]. intros Hc. exists inst. split; [done|]. revert Hc.
  destruct (kc_metadata (rn_world s)) as [w0 [[metadata|]|]]; [|done|done]. case_bool_decide as Hi; [|done]. cbn [negb].
  intros Hc. exists w0, metadata. split; [done|]. split; [done|]. revert Hc. destruct (needs_renewal metadata now) eqn:En; cbn [andb].
  1: destruct (renewal_backed_off (set_world s w0) inst now); cbn [negb].
  2:{ unfold run_renewal. destruct flight as [|outcome| |]; cbn [rn_world set_world]; [|intros Hc|done|done].
      - destruct (renew w0 inst now) as [w1 [resolved|]] eqn:Er; [|done]. intros [= _ <- <-]. right. split; [done|]. exists resolved. split; [done|]. left. eauto.
      - destruct outcome as [resolved|]; [|done]. injection Hc as _ <- <-. right. split; [done|]. exists resolved. split; [done|]. by right. }
  all: destruct (Z.leb_spec (me_token_expires_at metadata) now) as [|Hlt]; [done|]; cbn [rn_world set_world].
  all: destruct (kc_material w0) as [w1 [[material|]|]]; [|done|done]; case_bool_decide as Hm; [|done]; intros [= _ <- <-]; left; eauto 10.
Qed.

(** What [redeem_attributed] gives: a store reference, or a credential, only
    for a value that is redeemable for the request, with what its verified
    handle names; on a refusal the keychain and the renewals are untouched,
    unless the value was redeemable and the sign-in gave no credential. *)
Definition redeem_outcome (r : BoxRedeemer) (flight : Flight (result RenewError Resolved)) (s s' : RenewState) (box_id : string)
    (authority : Authority string) (request : RequestAuthority string) (sealed header subject jti : string) (now : Z) (red : Redeemed) : Prop :=
  match red with
  | RdStore a => s' = s /\ exists o claims, redeemable r box_id authority request sealed subject now o claims /\ mb_kind (op_member o) = MkStore /\
      split_once ":"%char (claims_identifier claims) = Some (sad_store a, sad_id a) /\ cl_inject claims = Some (sad_inject a) /\ jti = cl_jti claims
  | RdVerdict (CvAdmit tok identifier _ renewed _ _) => exists o claims, redeemable r box_id authority request sealed subject now o claims /\
      mb_kind (op_member o) = MkSignIn /\ str_eq_ignore_case header "authorization" = true /\ identifier = claims_identifier claims /\
      jti = cl_jti claims /\ token_of flight (rn_world s) now (cl_id claims) tok renewed
  | RdVerdict (CvRefuse marker) => s' = s \/ (marker = SIGN_IN_REQUIRED /\
      exists o claims, redeemable r box_id authority request sealed subject now o claims /\ mb_kind (op_member o) = MkSignIn)
  end.

Lemma redeem_gives r flight s box_id authority request sealed header now s' red jti subject :
  redeem_attributed r flight s box_id authority request sealed header now = (s', (red, jti, subject)) ->
  redeem_outcome r flight s s' box_id authority request sealed header subject jti now red.
Proof.
  unfold redeem_attributed, redeem_outcome. set (f := facts r box_id authority request sealed now).
  destruct (fc_misattributed f) eqn:Emis.
  { unfold sign_in_verdict. rewrite Emis. intros [= <- <- _ _]. by left. }
  case_bool_decide as Hk.
  - intros [= <- <- <- <-]. unfold store_decision. destruct (decide_redemption (fc_redemption f)) as [a m b|c] eqn:Ed; [|by left].
    destruct (facts_admit _ _ _ _ _ _ _ _ _ _ eq_refl Ed) as (o & claims & Hr & Ekind & Eid & Ej & Ei & _).
    fold f in Ekind, Eid, Ej, Ei. rewrite Eid. cbn [mbind option_bind].
    destruct (split_once _ _) as [[st id]|] eqn:Es; [|by left]. rewrite Ei. destruct (cl_inject claims) as [inj|] eqn:Einj; [|by left]. cbn.
    split; [done|]. exists o, claims. split; [done|]. split; [congruence|]. done.
  - destruct (str_eq_ignore_case header "authorization") eqn:Eh; cbn [negb].
    2:{ intros [= <- <- _ _]. by left. }
    unfold sign_in_verdict. rewrite Emis. destruct (decide_redemption (fc_redemption f)) as [a m b|c] eqn:Ed.
    2:{ intros [= <- <- _ _]. by left. }
    destruct (facts_admit _ _ _ _ _ _ _ _ _ _ eq_refl Ed) as (o & claims & Hr & Ekind & Eid & Ej & Ei & _).
    fold f in Ekind, Eid, Ej, Ei. rewrite Eid. cbn [default]. assert (mb_kind (op_member o) = MkSignIn) as Hkind.
    { destruct (mb_kind (op_member o)) eqn:E; [done|]. congruence. }
    destruct (credential _ _ _ _ _) as [s2 [[tok renewed]|]] eqn:Ec; intros [= <- <- <- <-].
    + exists o, claims. split; [done|]. repeat (split; [done|]). apply credential_token in Ec as (inst & Hinst & Htok).
      pose proof (ra_rule _ _ _ _ _ _ _ _ _ Hr) as Hrule. unfold rule_in_force in Hrule. rewrite Hkind in Hrule. destruct Hrule as (Hst & _).
      unfold claims_identifier, id in Hinst. rewrite <- Hst, strip_prefix_app in Hinst. cbn [mbind option_bind] in Hinst.
      rewrite strip_prefix_app in Hinst. by injection Hinst as <-.
    + right. split; [done|]. eauto.
Qed.
End credentials.
