(* ===== verification/SingleFlight.v ===== *)
(** * One run in flight per key (crates/bep/src/forward.rs)

    [SingleFlight::run] as callers interleave it: each step is one of the
    locked regions of the code, in any order the callers take them.  A caller
    that finds no flight for its key leads one; the others wait for its
    outcome.  The renewal of a sign-in is run this way. *)

From stdpp Require Import base list gmap strings numbers.
From Stdlib Require Import ZArith Lia.
From S2P Require Import Prelude Redeemer.

Section single_flight.
Context {T : Type}.

(** [InFlight]: whether the run finished, and its outcome. *)
Record InFlight : Type := { if_key : string; if_finished : bool; if_outcome : option T }.

(** Where a caller of [run] is: it leads flight [f] and is in its work; it
    has stored the outcome; its [Finish] removed the key; it waits; or it
    returned.  A leader whose work panicked drops its [Finish] too. *)
Inductive Caller : Type :=
| ClWorking (key : string) (f : nat)
| ClStored (key : string) (f : nat) (outcome : option T)
| ClRemoved (key : string) (f : nat) (outcome : option T)
| ClWaiting (key : string) (f : nat)
| ClReturned (key : string) (f : nat) (ran : Ran T)
| ClPanicked (key : string) (f : nat).

(** The map of flights by key, every flight made, and the callers. *)
Record Flights : Type := { fg_flights : gmap string nat; fg_made : list InFlight; fg_callers : gmap nat Caller }.
Definition no_flights : Flights := {| fg_flights := ∅; fg_made := []; fg_callers := ∅ |}.

Inductive FlightEvent : Type :=
| EvEnter (t : nat) (key : string)      (* the lookup that opens [run] *)
| EvWorked (t : nat) (outcome : T)      (* the work returned, its outcome is stored *)
| EvPanicked (t : nat)                  (* the work panicked *)
| EvRemove (t : nat)                    (* [Finish::drop] removes the key *)
| EvFinish (t : nat)                    (* [Finish::drop] marks the run finished *)
| EvWake (t : nat)                      (* a waiter sees the run finished *)
| EvTimeOut (t : nat).                  (* a waiter stops waiting *)

Definition set_caller (s : Flights) (t : nat) (c : Caller) : Flights :=
  {| fg_flights := fg_flights s; fg_made := fg_made s; fg_callers := <[t := c]> (fg_callers s) |}.
Definition set_flight (s : Flights) (f : nat) (i : InFlight) : Flights :=
  {| fg_flights := fg_flights s; fg_made := <[f := i]> (fg_made s); fg_callers := fg_callers s |}.

(** One step of [SingleFlight::run] or of [Finish::drop]. *)
Definition flight_step (s : Flights) (e : FlightEvent) : option Flights :=
  match e with
  | EvEnter t key =>
      match fg_callers s !! t with
      | Some _ => None
      | None =>
          match fg_flights s !! key with
          | Some f => Some (set_caller s t (ClWaiting key f))
          | None =>
              let f := length (fg_made s) in
              Some {| fg_flights := <[key := f]> (fg_flights s);
                      fg_made := fg_made s ++ [{| if_key := key; if_finished := false; if_outcome := None |}];
                      fg_callers := <[t := ClWorking key f]> (fg_callers s) |}
          end
      end
  | EvWorked t outcome =>
      match fg_callers s !! t with
      | Some (ClWorking key f) =>
          i ← fg_made s !! f;
          Some (set_caller (set_flight s f {| if_key := if_key i; if_finished := if_finished i; if_outcome := Some outcome |}) t (ClStored key f (Some outcome)))
      | _ => None
      end
  | EvPanicked t =>
      match fg_callers s !! t with
      | Some (ClWorking key f) => Some (set_caller s t (ClStored key f None))
      | _ => None
      end
  | EvRemove t =>
      match fg_callers s !! t with
      | Some (ClStored key f outcome) =>
          Some {| fg_flights := delete key (fg_flights s); fg_made := fg_made s; fg_callers := <[t := ClRemoved key f outcome]> (fg_callers s) |}
      | _ => None
      end
  | EvFinish t =>
      match fg_callers s !! t with
      | Some (ClRemoved key f outcome) =>
          i ← fg_made s !! f;
          Some (set_caller (set_flight s f {| if_key := if_key i; if_finished := true; if_outcome := if_outcome i |}) t
                  (match outcome with Some o => ClReturned key f (Led o) | None => ClPanicked key f end))
      | _ => None
      end
  | EvWake t =>
      match fg_callers s !! t with
      | Some (ClWaiting key f) =>
          i ← fg_made s !! f;
          if if_finished i then Some (set_caller s t (ClReturned key f (match if_outcome i with Some o => Waited o | None => Abandoned end))) else None
      | _ => None
      end
  | EvTimeOut t =>
      match fg_callers s !! t with
      | Some (ClWaiting key f) =>
          i ← fg_made s !! f; if if_finished i then None else Some (set_caller s t (ClReturned key f TimedOut))
      | _ => None
      end
  end.
Fixpoint flight_steps (s : Flights) (es : list FlightEvent) : option Flights :=
  match es with
  | [] => Some s
  | e :: es => s ← flight_step s e; flight_steps s es
  end.

(** ** The invariant *)

(** The flight a caller leads, while its key is in the map. *)
Definition holds_key (c : Caller) : option (string * nat) :=
  match c with ClWorking key f | ClStored key f _ => Some (key, f) | _ => None end.
(** The flight a caller leads or led, with the outcome it stored. *)
Definition leads (c : Caller) : option (nat * option (option T)) :=
  match c with
  | ClWorking _ f => Some (f, None)
  | ClStored _ f o | ClRemoved _ f o => Some (f, Some o)
  | ClReturned _ f (Led o) => Some (f, Some (Some o))
  | ClPanicked _ f => Some (f, Some None)
  | _ => None
  end.

(** The key a caller passed and the flight it found or made. *)
Definition caller_at (c : Caller) : string * nat :=
  match c with
  | ClWorking key f | ClStored key f _ | ClRemoved key f _ | ClWaiting key f | ClReturned key f _ | ClPanicked key f => (key, f)
  end.

Record flights_ok (s : Flights) : Prop := {
  fo_map : forall key f, fg_flights s !! key = Some f -> exists t c, fg_callers s !! t = Some c /\ holds_key c = Some (key, f);
  fo_held : forall t c key f, fg_callers s !! t = Some c -> holds_key c = Some (key, f) -> fg_flights s !! key = Some f;
  fo_key : forall t c, fg_callers s !! t = Some c -> exists i, fg_made s !! (caller_at c).2 = Some i /\ if_key i = (caller_at c).1;
  fo_leader : forall t c f o, fg_callers s !! t = Some c -> leads c = Some (f, o) ->
    exists i, fg_made s !! f = Some i /\ if_outcome i = default None o;
  fo_one : forall t t' c c' f o o', fg_callers s !! t = Some c -> fg_callers s !! t' = Some c' ->
    leads c = Some (f, o) -> leads c' = Some (f, o') -> t = t';
  fo_outcome : forall f i o, fg_made s !! f = Some i -> if_outcome i = Some o -> exists t c, fg_callers s !! t = Some c /\ leads c = Some (f, Some (Some o));
  fo_waited : forall t key f o, fg_callers s !! t = Some (ClReturned key f (Waited o)) -> exists i, fg_made s !! f = Some i /\ if_outcome i = Some o;
}.

Ltac caller_cases :=
  repeat match goal with
  | H : <[?t := ?c]> ?m !! ?t' = Some _ |- _ =>
      destruct (decide (t = t')) as [<-|?]; [rewrite lookup_insert_eq in H; (discriminate H || injection H as <-)|rewrite lookup_insert_ne in H by done]
  end.

Lemma ex_caller (m : gmap nat Caller) t c1 (P : Caller -> Prop) :
  (exists t' c, m !! t' = Some c /\ P c) -> (forall c0, m !! t = Some c0 -> P c0 -> P c1) ->
  exists t' c, <[t := c1]> m !! t' = Some c /\ P c.
Proof.
  intros (t' & c & Hl & Hp) Hold. destruct (decide (t = t')) as [<-|Hne].
  - exists t, c1. rewrite lookup_insert_eq. eauto.
  - exists t', c. by rewrite lookup_insert_ne.
Qed.

Lemma leads_at c f o : leads c = Some (f, o) -> (caller_at c).2 = f.
Proof. destruct c as [| | | |k g []|]; cbn; naive_solver. Qed.
Lemma holds_at c key f : holds_key c = Some (key, f) -> caller_at c = (key, f) /\ exists o, leads c = Some (f, o).
Proof. destruct c; cbn; naive_solver. Qed.

(** A caller that goes on with the same flight in the same role. *)
Lemma ok_same s t c1 : flights_ok s -> leads c1 = fg_callers s !! t ≫= leads -> holds_key c1 = fg_callers s !! t ≫= holds_key ->
  (exists i, fg_made s !! (caller_at c1).2 = Some i /\ if_key i = (caller_at c1).1) ->
  (forall key f o, c1 = ClReturned key f (Waited o) -> exists i, fg_made s !! f = Some i /\ if_outcome i = Some o) ->
  flights_ok (set_caller s t c1).
Proof.
  intros [Hmap Hheld Hkey Hlead Hone Hout Hw] Hl Hh Hk Hwait. split; cbn [set_caller fg_flights fg_made fg_callers].
  - intros key f Hf. apply ex_caller; [by apply Hmap|]. intros c0 Hc0 H0. rewrite Hh, Hc0. exact H0.
  - intros t' c key f Hc Hkf. caller_cases; [|by eapply Hheld]. rewrite Hh in Hkf.
    destruct (fg_callers s !! t) as [c0|] eqn:E; [|done]. by eapply Hheld.
  - intros t' c Hc. caller_cases; [done|by eapply Hkey].
  - intros t' c f o Hc Hkf. caller_cases; [|by eapply Hlead]. rewrite Hl in Hkf.
    destruct (fg_callers s !! t) as [c0|] eqn:E; [|done]. by eapply Hlead.
  - intros t1 t2 x y f o o' H1 H2 L1 L2. caller_cases; [done| | |by eapply Hone].
    all: (rewrite Hl in L1 || rewrite Hl in L2); (destruct (fg_callers s !! t) as [c0|] eqn:E; [|done]); by eapply Hone.
  - intros f i o Hi Ho. apply ex_caller; [by eapply Hout|]. intros c0 Hc0 H0. rewrite Hl, Hc0. exact H0.
  - intros t' key f o Hc. destruct (decide (t = t')) as [<-|?]; [rewrite lookup_insert_eq in Hc; injection Hc as ->; by eapply Hwait|].
    rewrite lookup_insert_ne in Hc by done. by eapply Hw.
Qed.

(** A flight whose outcome and key stay. *)
Lemma ok_finished s f i : flights_ok s -> fg_made s !! f = Some i ->
  flights_ok (set_flight s f {| if_key := if_key i; if_finished := true; if_outcome := if_outcome i |}).
Proof.
  intros [Hmap Hheld Hkey Hlead Hone Hout Hw] Hi.
  set (i' := {| if_key := if_key i; if_finished := true; if_outcome := if_outcome i |}).
  assert (forall g j, fg_made s !! g = Some j -> exists j', <[f := i']> (fg_made s) !! g = Some j' /\ if_key j' = if_key j /\ if_outcome j' = if_outcome j) as Hto.
  { intros g j Hg. destruct (decide (f = g)) as [<-|?].
    - exists i'. rewrite list_lookup_insert_eq by (by eapply lookup_lt_Some). rewrite Hi in Hg. injection Hg as <-. done.
    - exists j. by rewrite list_lookup_insert_ne. }
  assert (forall g j', <[f := i']> (fg_made s) !! g = Some j' -> exists j, fg_made s !! g = Some j /\ if_outcome j = if_outcome j') as Hfrom.
  { intros g j' Hg. destruct (decide (f = g)) as [<-|?].
    - rewrite list_lookup_insert_eq in Hg by (by eapply lookup_lt_Some). injection Hg as <-. by exists i.
    - rewrite list_lookup_insert_ne in Hg by done. by exists j'. }
  split; cbn [set_flight fg_flights fg_made fg_callers]; [done|done|..].
  - intros t c Hc. destruct (Hkey t c Hc) as (j & Hj & Ek). destruct (Hto _ _ Hj) as (j' & Hj' & E & _). exists j'. by rewrite E.
  - intros t c g o Hc Hg. destruct (Hlead t c g o Hc Hg) as (j & Hj & Ek). destruct (Hto _ _ Hj) as (j' & Hj' & _ & E). exists j'. by rewrite E.
  - done.
  - intros g j' o Hg Ho. destruct (Hfrom _ _ Hg) as (j & Hj & E). eapply Hout; [exact Hj|congruence].
  - intros t key g o Hc. destruct (Hw t key g o Hc) as (j & Hj & Eo). destruct (Hto _ _ Hj) as (j' & Hj' & _ & E). exists j'. by rewrite E.
Qed.

Lemma made_grows (l : list InFlight) x f i : l !! f = Some i -> (l ++ [x]) !! f = Some i.
Proof. intros Hf. by apply lookup_app_l_Some. Qed.

(** The first caller of a key leads a new flight. *)
Lemma ok_enter s t key : flights_ok s -> fg_callers s !! t = None -> fg_flights s !! key = None ->
  let f := length (fg_made s) in
  flights_ok {| fg_flights := <[key := f]> (fg_flights s);
                fg_made := fg_made s ++ [{| if_key := key; if_finished := false; if_outcome := None |}];
                fg_callers := <[t := ClWorking key f]> (fg_callers s) |}.
Proof.
  intros [Hmap Hheld Hkey Hlead Hone Hout Hw] Ht Hnone f.
  assert (forall t' c o, fg_callers s !! t' = Some c -> leads c <> Some (f, o)) as Hnew.
  { intros t' c o Hc Hl. destruct (Hlead t' c f o Hc Hl) as (i & Hi & _). apply lookup_lt_Some in Hi. unfold f in Hi. lia. }
  split; cbn [fg_flights fg_made fg_callers].
  - intros key' f' Hf. destruct (decide (key = key')) as [<-|?].
    + rewrite lookup_insert_eq in Hf. injection Hf as <-. exists t, (ClWorking key f). by rewrite lookup_insert_eq.
    + rewrite lookup_insert_ne in Hf by done. apply ex_caller; [by apply Hmap|]. intros c0 Hc0. congruence.
  - intros t' c key' f' Hc Hk. caller_cases.
    + injection Hk as <- <-. by rewrite lookup_insert_eq.
    + rewrite lookup_insert_ne; [by eapply Hheld|]. intros <-. pose proof (Hheld _ _ _ _ Hc Hk). congruence.
  - intros t' c Hc. caller_cases; cbn.
    + eexists. split; [by apply list_lookup_middle|done].
    + destruct (Hkey t' c Hc) as (i & Hi & Ek). exists i. split; [by apply made_grows|done].
  - intros t' c f' o Hc Hk. caller_cases.
    + injection Hk as <- <-. eexists. split; [by apply list_lookup_middle|done].
    + destruct (Hlead t' c f' o Hc Hk) as (i & Hi & Ek). exists i. split; [by apply made_grows|done].
  - intros t1 t2 x y f' o o' H1 H2 L1 L2. caller_cases; [done| | |by eapply Hone].
    + injection L2 as <- <-. by destruct (Hnew t1 x o H1).
    + injection L1 as <- <-. by destruct (Hnew t2 y o' H2).
  - intros f' i o Hi Ho. apply ex_caller; [|intros c0 Hc0; congruence].
    apply lookup_app_Some in Hi as [Hi|[_ Hi]]; [by eapply Hout|]. apply list_lookup_singleton_Some in Hi as [_ <-]. done.
  - intros t' key' f' o Hc. caller_cases. destruct (Hw _ _ _ _ Hc) as (i & Hi & Ek). exists i. split; [by apply made_grows|done].
Qed.

(** The work ends, with an outcome or a panic: only the leader of the flight
    stores its outcome, once. *)
Lemma ok_stored s t key f i o : flights_ok s -> fg_callers s !! t = Some (ClWorking key f) -> fg_made s !! f = Some i ->
  flights_ok (set_caller (set_flight s f {| if_key := if_key i; if_finished := if_finished i; if_outcome := o |}) t (ClStored key f o)).
Proof.
  intros [Hmap Hheld Hkey Hlead Hone Hout Hw] Ht Hi. set (i' := {| if_key := if_key i; if_finished := if_finished i; if_outcome := o |}).
  assert (if_outcome i = None) as Hnone.
  { destruct (Hlead t _ f None Ht eq_refl) as (j & Hj & E). rewrite Hi in Hj. by injection Hj as <-. }
  assert (<[f := i']> (fg_made s) !! f = Some i') as Hself by (apply list_lookup_insert_eq; by eapply lookup_lt_Some).
  assert (forall g j, fg_made s !! g = Some j -> exists j', <[f := i']> (fg_made s) !! g = Some j' /\ if_key j' = if_key j /\ (g <> f -> if_outcome j' = if_outcome j)) as Hto.
  { intros g j Hg. destruct (decide (f = g)) as [<-|?]; [exists i'; rewrite Hi in Hg; injection Hg as <-; done|exists j; by rewrite list_lookup_insert_ne]. }
  split; cbn [set_caller set_flight fg_flights fg_made fg_callers].
  - intros key' f' Hf. apply ex_caller; [by apply Hmap|]. intros c0 Hc0 H0. rewrite Ht in Hc0. by injection Hc0 as <-.
  - intros t' c key' f' Hc Hk. caller_cases; [injection Hk as <- <-; by apply (Hheld t (ClWorking key f))|by eapply Hheld].
  - intros t' c Hc. caller_cases; cbn.
    + destruct (Hkey t _ Ht) as (j & Hj & Ek). destruct (Hto _ _ Hj) as (j' & Hj' & E & _). exists j'. rewrite E. done.
    + destruct (Hkey t' c Hc) as (j & Hj & Ek). destruct (Hto _ _ Hj) as (j' & Hj' & E & _). exists j'. by rewrite E.
  - intros t' c f' o' Hc Hk. caller_cases; [injection Hk as <- <-; by exists i'|].
    destruct (Hlead t' c f' o' Hc Hk) as (j & Hj & Ek). destruct (Hto _ _ Hj) as (j' & Hj' & _ & E). exists j'. rewrite E; [done|].
    intros ->. assert (t' = t) as -> by (by eapply (Hone t' t c (ClWorking key f))). done.
  - intros t1 t2 x y f' a b H1 H2 L1 L2. caller_cases; [done| | |by eapply Hone].
    + injection L2 as <- _. by eapply (Hone t1 t x (ClWorking key f)).
    + injection L1 as <- _. symmetry. by eapply (Hone t2 t y (ClWorking key f)).
  - intros f' j a Hj Ha. destruct (decide (f = f')) as [<-|Hne].
    + rewrite Hself in Hj. injection Hj as <-. exists t, (ClStored key f o). rewrite lookup_insert_eq. cbn in Ha. by subst o.
    + rewrite list_lookup_insert_ne in Hj by done. apply ex_caller; [by eapply Hout|]. intros c0 Hc0 H0. rewrite Ht in Hc0. injection Hc0 as <-. done.
  - intros t' key' f' a Hc. caller_cases. destruct (Hw _ _ _ _ Hc) as (j & Hj & Ek). destruct (Hto _ _ Hj) as (j' & Hj' & _ & E). exists j'.
    rewrite E; [done|]. intros ->. rewrite Hi in Hj. injection Hj as <-. congruence.
Qed.

(** [Finish] takes the key out of the map. *)
Lemma ok_removed s t key f o : flights_ok s -> fg_callers s !! t = Some (ClStored key f o) ->
  flights_ok {| fg_flights := delete key (fg_flights s); fg_made := fg_made s; fg_callers := <[t := ClRemoved key f o]> (fg_callers s) |}.
Proof.
  intros [Hmap Hheld Hkey Hlead Hone Hout Hw] Ht. split; cbn [fg_flights fg_made fg_callers].
  - intros key' f' [Hne Hf]%lookup_delete_Some. apply ex_caller; [by apply Hmap|]. intros c0 Hc0 H0. rewrite Ht in Hc0. injection Hc0 as <-. by injection H0 as -> _.
  - intros t' c key' f' Hc Hk. caller_cases; [done|]. rewrite lookup_delete_ne; [by eapply Hheld|]. intros <-.
    pose proof (Hheld _ _ _ _ Hc Hk) as E1. pose proof (Hheld _ _ _ _ Ht eq_refl) as E2. rewrite E1 in E2. injection E2 as ->.
    destruct (holds_at _ _ _ Hk) as (_ & o' & Hl). assert (t' = t) as -> by (by eapply (Hone t' t c (ClStored key f o))). done.
  - intros t' c Hc. caller_cases; [by apply (Hkey t (ClStored key f o))|by eapply Hkey].
  - intros t' c f' o' Hc Hk. caller_cases; [by apply (Hlead t (ClStored key f o))|by eapply Hlead].
  - intros t1 t2 x y f' a b H1 H2 L1 L2. caller_cases; [done| | |by eapply Hone].
    + by eapply (Hone t1 t x (ClStored key f o)).
    + symmetry. by eapply (Hone t2 t y (ClStored key f o)).
  - intros f' i a Hi Ha. apply ex_caller; [by eapply Hout|]. intros c0 Hc0 H0. rewrite Ht in Hc0. by injection Hc0 as <-.
  - intros t' key' f' a Hc. caller_cases. by eapply Hw.
Qed.

Lemma flight_step_ok s e s' : flights_ok s -> flight_step s e = Some s' -> flights_ok s'.
Proof.
  intros Hok. destruct e as [t key|t o|t|t|t|t|t]; cbn [flight_step]; destruct (fg_callers s !! t) as [c|] eqn:Ht; try done.
  - destruct (fg_flights s !! key) as [f|] eqn:Hf; intros [= <-]; [|by apply ok_enter]. apply ok_same; [done|by rewrite Ht|by rewrite Ht| |done].
    destruct (fo_map _ Hok key f Hf) as (t' & c & Hc & Hh). destruct (fo_key _ Hok t' c Hc) as (i & Hi & Ek). destruct (holds_at _ _ _ Hh) as [E _].
    rewrite E in Hi, Ek. by exists i.
  - destruct c as [key f| | | | |]; try done. destruct (fg_made s !! f) as [i|] eqn:Hi; [|done]. intros [= <-]. by apply (ok_stored s t key f i).
  - destruct c as [key f| | | | |]; try done. intros [= <-]. destruct (fo_leader _ Hok t _ f None Ht eq_refl) as (i & Hi & Ho).
    pose proof (ok_stored s t key f i None Hok Ht Hi) as Hs. cbn in Ho.
    replace (set_flight s f {| if_key := if_key i; if_finished := if_finished i; if_outcome := None |}) with s in Hs; [done|].
    unfold set_flight. rewrite <- Ho. replace {| if_key := if_key i; if_finished := if_finished i; if_outcome := if_outcome i |} with i by (by destruct i).
    rewrite list_insert_id by done. by destruct s.
  - destruct c as [|key f o| | | |]; try done. intros [= <-]. by apply ok_removed.
  - destruct c as [| |key f o| | |]; try done. destruct (fg_made s !! f) as [i|] eqn:Hi; [|done]. intros [= <-].
    apply ok_same; [by apply ok_finished|cbn; rewrite Ht; by destruct o|cbn; rewrite Ht; by destruct o| |by destruct o].
    destruct (fo_key _ Hok t _ Ht) as (j & Hj & Ek). cbn in Hj, Ek. rewrite Hi in Hj. injection Hj as <-. cbn.
    eexists. split; [destruct o; cbn; apply list_lookup_insert_eq; by eapply lookup_lt_Some|by destruct o].
  - destruct c as [| | |key f| |]; try done. destruct (fg_made s !! f) as [i|] eqn:Hi; [|done]. cbn [mbind option_bind]. destruct (if_finished i); [|done]. intros [= <-].
    apply ok_same; [done|rewrite Ht; by destruct (if_outcome i)|by rewrite Ht|by apply (fo_key _ Hok t _ Ht)|].
    intros key' f' o E. injection E as <- <- E. exists i. split; [done|]. revert E. destruct (if_outcome i); intros E; congruence.
  - destruct c as [| | |key f| |]; try done. destruct (fg_made s !! f) as [i|] eqn:Hi; [|done]. cbn [mbind option_bind]. destruct (if_finished i); [done|]. intros [= <-].
    apply ok_same; [done|by rewrite Ht|by rewrite Ht|by apply (fo_key _ Hok t _ Ht)|done].
Qed.

Lemma flight_steps_ok s es s' : flights_ok s -> flight_steps s es = Some s' -> flights_ok s'.
Proof.
  revert s. induction es as [|e es IH]; intros s Hok; cbn; [by intros [= <-]|].
  destruct (flight_step s e) as [s1|] eqn:E; [|done]. cbn. apply IH. by eapply flight_step_ok.
Qed.
Lemma no_flights_ok : flights_ok no_flights.
Proof. split; cbn; intros; (rewrite lookup_empty in * || rewrite lookup_nil in *); done. Qed.

(** C16: one run at a time for a key, however callers interleave: no two callers
    are in the work of the same key; a caller that waited and got an outcome
    got the one that the leader of the run it found stored, for the same key;
    and a run's outcome is stored at most once. *)
Theorem one_run_in_flight es s : flight_steps no_flights es = Some s ->
  (forall t t' key f f', fg_callers s !! t = Some (ClWorking key f) -> fg_callers s !! t' = Some (ClWorking key f') -> t = t') /\
  (forall t key f o, fg_callers s !! t = Some (ClReturned key f (Waited o)) ->
     exists t' c, t' <> t /\ fg_callers s !! t' = Some c /\ caller_at c = (key, f) /\ leads c = Some (f, Some (Some o))) /\
  (forall e s' f i i' o, flight_step s e = Some s' -> fg_made s !! f = Some i -> if_outcome i = Some o -> fg_made s' !! f = Some i' -> if_outcome i' = Some o).
Proof.
  intros Hs. pose proof (flight_steps_ok _ _ _ no_flights_ok Hs) as Hok. split; [|split].
  - intros t t' key f f' Ht Ht'. pose proof (fo_held _ Hok _ _ _ _ Ht eq_refl) as E. pose proof (fo_held _ Hok _ _ _ _ Ht' eq_refl) as E'.
    rewrite E in E'. injection E' as ->. by eapply (fo_one _ Hok t t' (ClWorking key f') (ClWorking key f')).
  - intros t key f o Ht. destruct (fo_waited _ Hok _ _ _ _ Ht) as (i & Hi & Ho). destruct (fo_outcome _ Hok _ _ _ Hi Ho) as (t' & c & Hc & Hl).
    exists t', c. split; [intros ->; rewrite Ht in Hc; by injection Hc as <-|]. split; [done|]. split; [|done].
    destruct (fo_key _ Hok _ _ Ht) as (j & Hj & Ej). destruct (fo_key _ Hok _ _ Hc) as (j' & Hj' & Ej'). pose proof (leads_at _ _ _ Hl) as Ef.
    rewrite Ef, Hi in Hj'. injection Hj' as <-. cbn in Hj, Ej. rewrite Hi in Hj. injection Hj as <-.
    destruct (caller_at c) as [k g]; cbn in *. by subst.
  - intros e s' f i i' o He Hi Ho Hi'. pose proof (flight_step_ok _ _ _ Hok He) as Hok'.
    destruct (fo_outcome _ Hok _ _ _ Hi Ho) as (t & c & Hc & Hl).
    assert (exists c', fg_callers s' !! t = Some c' /\ leads c' = leads c) as (c' & Hc' & Hl').
    { destruct e as [t' key|t' o'|t'|t'|t'|t'|t']; cbn [flight_step] in He; destruct (fg_callers s !! t') as [d|] eqn:Ht'; try done.
      - destruct (fg_flights s !! key); injection He as <-; cbn; (rewrite lookup_insert_ne; [by exists c|]); congruence.
      - destruct d as [k g| | | | |]; try done. destruct (fg_made s !! g); [|done]. injection He as <-. cbn.
        rewrite lookup_insert_ne; [by exists c|]. intros ->. rewrite Ht' in Hc. by injection Hc as <-.
      - destruct d as [k g| | | | |]; try done. injection He as <-. cbn. rewrite lookup_insert_ne; [by exists c|]. intros ->. rewrite Ht' in Hc. by injection Hc as <-.
      - destruct d as [|k g x| | | |]; try done. injection He as <-. cbn. destruct (decide (t' = t)) as [->|?]; [|rewrite lookup_insert_ne by done; by exists c].
        rewrite lookup_insert_eq. eexists. split; [done|]. rewrite Ht' in Hc. by injection Hc as <-.
      - destruct d as [| |k g x| | |]; try done. destruct (fg_made s !! g); [|done]. injection He as <-. cbn.
        destruct (decide (t' = t)) as [->|?]; [|rewrite lookup_insert_ne by done; by exists c].
        rewrite lookup_insert_eq. eexists. split; [done|]. rewrite Ht' in Hc. injection Hc as <-. by destruct x.
      - destruct d as [| | |k g| |]; try done. destruct (fg_made s !! g) as [j|]; [|done]. cbn [mbind option_bind] in He. destruct (if_finished j); [|done]. injection He as <-. cbn.
        rewrite lookup_insert_ne; [by exists c|]. intros ->. rewrite Ht' in Hc. by injection Hc as <-.
      - destruct d as [| | |k g| |]; try done. destruct (fg_made s !! g) as [j|]; [|done]. cbn [mbind option_bind] in He. destruct (if_finished j); [done|]. injection He as <-. cbn.
        rewrite lookup_insert_ne; [by exists c|]. intros ->. rewrite Ht' in Hc. by injection Hc as <-. }
    rewrite Hl in Hl'. destruct (fo_leader _ Hok' _ _ _ _ Hc' Hl') as (j & Hj & Ej). rewrite Hi' in Hj. by injection Hj as <-.
Qed.
End single_flight.
