(* ===== verification/CredentialFlow.v ===== *)
(** * Credentials in forwarded requests (crates/bep/src/forward.rs)

    The request half of a flow the proxy terminates: each head is read,
    decided, given its credential or its stored secret
    (crates/bep/src/inject.rs), and written upstream before its body.  The
    upstream leg is one that validated. *)

From stdpp Require Import base list gmap strings numbers pretty.
From Stdlib Require Import ZArith Lia Ascii.
From S2P Require Import Prelude Text Bytes Http HttpRelay Envelope Handle Redeem SignIn StoreRules AuditChain Redeemer.
Open Scope Z_scope.

(** ** Markers *)

Definition FOREIGN_CREDENTIAL : string := "foreign_credential".
Definition CREDENTIAL_NOT_HEADER_SAFE : string := "credential_not_header_safe".
Definition MIXED_AUTHORIZATION : string := "mixed_authorization".
Definition SEALED_HEADER_MISSING : string := "sealed_header_missing".
Definition SIGN_IN_RENEWED : string := "github_sign_in_renewed".
Definition STORE_ITEM_DELETED : string := "store_item_deleted".
Definition STORE_ITEM_DISABLED : string := "store_item_disabled".
Definition STORE_ITEM_UNREADABLE : string := "store_item_unreadable".
Definition INJECTION_INVALID : string := "injection_invalid".

(** ** Data *)

Inductive Form : Type :=
| FmToken (scheme : string)
| FmBasic (user pass : string) (in_user : bool)
| FmBare.
Record SealedAt : Type := { sa_header : nat; sa_form : Form; sa_value : string }.
Inductive Carried : Type := CaSealed (at_ : SealedAt) | CaForeign | CaMixed | CaNone.

(** [ReadError] of crates/bep/src/store.rs. *)
Inductive ReadError : Type := RdDeleted | RdDisabled | RdStoreError.

Record Sent : Type := { se_head : bool; se_connect : bool; se_switches : bool }.
Record CredRefusal : Type := { cr_marker : string; cr_body : string; cr_after_forwarded : bool }.
Inductive HalfEnd : Type := HeClosed (reason : CloseReason) | HeRefused (refusal : CredRefusal).

(** The standard base64 alphabet, with padding. *)
Class StandardBase64 := { std_encode : list Z -> string; std_decode : string -> option (list Z) }.

Definition name_is (h : Header) (name : string) : bool := eq_ignore_case (h_name h) (bytes name).
Definition with_headers (r : Request) (headers : list Header) : Request :=
  {| rq_method := rq_method r; rq_target := rq_target r; rq_headers := headers; rq_body := rq_body r |}.

(** ** Sealed values *)

Section carried.
Context `{SealCrypto} `{HeaderFields} `{StandardBase64}.

(** [is_sealed]. *)
Definition is_sealed (text : string) : bool :=
  if MAX_SEALED_LEN <? Z.of_nat (String.length text) then false
  else match str_split "."%char text with
       | [header; key; _; _; _] =>
           bool_decide (key = EmptyString) && bool_decide ((j ← url_safe_decode header; read_typ j) = Some SEAL_TYP)
       | _ => false
       end.

(** [sealed_in]. *)
Definition sealed_in (header : nat) (value : list Z) : option SealedAt :=
  text ← from_utf8 value;
  let text := trim text in
  let '(scheme, rest) := default (EmptyString, text) (split_once " "%char text) in
  let rest := trim rest in
  if str_eq_ignore_case scheme "basic" then
    decoded ← (bs ← std_decode rest; from_utf8 bs);
    up ← split_once ":"%char decoded;
    let '(user, pass) := up : string * string in
    let in_user := is_sealed user in
    let sealed := if in_user then user else pass in
    if is_sealed sealed then Some {| sa_header := header; sa_form := FmBasic user pass in_user; sa_value := sealed |} else None
  else if is_sealed rest
       then Some {| sa_header := header; sa_form := if bool_decide (scheme = EmptyString) then FmBare else FmToken scheme; sa_value := rest |}
       else None.

(** [carried]: the loop, and what it concludes. *)
Record Search : Type := { sr_sealed : option (SealedAt * bool); sr_found : nat; sr_count : nat }.
Definition search_header (s : Search) (index : nat) (h : Header) : Search :=
  let authorization := name_is h "authorization" in
  let count := if authorization then S (sr_count s) else sr_count s in
  match sealed_in index (h_value h) with
  | Some at_ =>
      {| sr_sealed := match sr_sealed s with None => Some (at_, authorization) | Some _ => sr_sealed s end;
         sr_found := S (sr_found s); sr_count := count |}
  | None => {| sr_sealed := sr_sealed s; sr_found := sr_found s; sr_count := count |}
  end.
Fixpoint search_headers (s : Search) (index : nat) (headers : list Header) : Search :=
  match headers with
  | [] => s
  | h :: headers => search_headers (search_header s index h) (S index) headers
  end.
Definition carried (request : Request) : Carried :=
  let s := search_headers {| sr_sealed := None; sr_found := 0; sr_count := 0 |} 0 (rq_headers request) in
  match sr_sealed s with
  | Some (at_, in_authorization) =>
      if (1 <? sr_found s)%nat then CaMixed
      else if (Nat.b2n in_authorization <? sr_count s)%nat then CaMixed
      else CaSealed at_
  | None => if (sr_count s =? 0)%nat then CaNone else CaForeign
  end.

(** [SealedAt::other_basic_field] and [header_named]. *)
Definition other_basic_field (a : SealedAt) : list Z :=
  match sa_form a with
  | FmBasic user pass in_user => bytes (if in_user then pass else user)
  | FmToken _ | FmBare => []
  end.
Definition header_named (request : Request) (a : SealedAt) (name : string) : bool :=
  match rq_headers request !! sa_header a with Some h => name_is h name | None => false end.

(** ** Substitution and injection *)

Definition header_safe (bs : list Z) : bool := forallb (fun b => negb ((b =? CR) || (b =? LF) || (b =? 0))) bs.

(** [substitute]. *)
Definition substitute (request : Request) (a : SealedAt) (cred : string) : result string Request :=
  if negb (header_safe (bytes cred)) then Err CREDENTIAL_NOT_HEADER_SAFE
  else
    let value := match sa_form a with
                 | FmToken scheme => (scheme ++ " " ++ cred)%string
                 | FmBare => cred
                 | FmBasic user pass in_user =>
                     let pair := (if in_user then cred ++ ":" ++ pass else user ++ ":" ++ cred)%string in
                     ("Basic " ++ std_encode (bytes pair))%string
                 end in
    h ← ok_or SEALED_HEADER_MISSING (rq_headers request !! sa_header a);
    Ok (with_headers request (<[sa_header a := set_value h (bytes value)]> (rq_headers request))).

(** [token] and [framing] of crates/bep/src/inject.rs. *)
Definition inject_token (name : string) : bool :=
  negb (bool_decide (name = EmptyString)) && forallb is_tchar (bytes name).
Definition FRAMING_NAMES : list string :=
  ["connection"; "content-length"; "host"; "keep-alive"; "proxy-authorization"; "proxy-connection"; "te"; "trailer"; "transfer-encoding"; "upgrade"]%string.
Definition framing_name (name : string) : bool := existsb (str_eq_ignore_case name) FRAMING_NAMES.
Definition FIELD_USER : string := "user".
Definition FIELD_PASSWORD : string := "password".

(** [header_for]; the encoded length of a pair in memory does not overflow. *)
Definition header_for (form : Inject) (value other : list Z) : result string (list Z * list Z) :=
  if negb (header_safe value) then Err INJECTION_INVALID
  else match form with
       | InjHeader name prefix =>
           let prefix := default EmptyString prefix in
           if negb (inject_token name) || framing_name name || negb (header_safe (bytes prefix)) then Err INJECTION_INVALID
           else Ok (lower (bytes name), bytes prefix ++ value)
       | InjBasicAuth field =>
           if negb (header_safe other) then Err INJECTION_INVALID
           else
             up ← (if bool_decide (field = FIELD_USER) then Ok (value, other)
                   else if bool_decide (field = FIELD_PASSWORD) then Ok (other, value)
                   else Err INJECTION_INVALID);
             let '(user, pass) := up : list Z * list Z in
             if contains_byte user COLON then Err INJECTION_INVALID
             else Ok (bytes "authorization", bytes ("Basic " ++ std_encode (user ++ [COLON] ++ pass)))
       end.

(** [inject]: the headers kept before and after the sealed one, less every
    other of the injected name, with the new header in its place. *)
Definition keep_other (name : list Z) (headers : list Header) : list Header :=
  filter (fun h => eq_ignore_case (h_name h) name = false) headers.
Definition inject (request : Request) (sealed : nat) (form : Inject) (value other : list Z) : result string Request :=
  if (length (rq_headers request) <=? sealed)%nat then Err INJECTION_INVALID
  else
    nv ← header_for form value other;
    let '(name, header_value) := nv : list Z * list Z in
    Ok (with_headers request
          (keep_other name (take sealed (rq_headers request)) ++ [{| h_name := name; h_value := header_value |}]
           ++ keep_other name (drop (S sealed) (rq_headers request)))).
End carried.

(** ** The authorities a request names *)

(** [split_authority] and [absolute_form] of crates/bep/src/proxy.rs. *)
Definition trim_start_matches (c : ascii) (s : string) : string := strip_while (String.length s) [String c EmptyString] s.
Definition split_authority (text : string) : option (string * Z) :=
  hp ← rsplit_once ":"%char text;
  let '(host, port) := hp : string * string in
  port ← parse_uint 65535 port;
  let host := trim_end_matches "]"%char (trim_start_matches "["%char host) in
  if bool_decide (host = EmptyString) then None else Some (normalize_host host, port).
Fixpoint take_until (stop : string) (s : string) : string :=
  match s with
  | EmptyString => EmptyString
  | String c s => if str_contains c stop then EmptyString else String c (take_until stop s)
  end.
Definition absolute_form (target : string) : option (string * string * Z) :=
  let lower_ := if (String.length target <? 8)%nat then EmptyString else to_ascii_lowercase (String.substring 0 8 target) in
  srd ← (if str_starts_with "http://" lower_ then Some ("http"%string, String.substring 7 (String.length target) target, 80)
         else if str_starts_with "https://" lower_ then Some ("https"%string, String.substring 8 (String.length target) target, 443)
         else None);
  let '(scheme, rest, default_port) := srd : string * string * Z in
  let authority := take_until "/?#" rest in
  let authority := match rsplit_once "@"%char authority with Some (_, a) => a | None => authority end in
  match split_authority authority with
  | Some (host, port) => Some (scheme, host, port)
  | None => if negb (bool_decide (authority = EmptyString)) && negb (str_contains ":"%char authority)
            then Some (scheme, normalize_host authority, default_port) else None
  end.

(** [request_authority]. *)
Definition request_authority (request : Request) : RequestAuthority string :=
  {| ra_host := match filter (fun h => name_is h "host" = true) (rq_headers request) with
                | [h] => v ← from_utf8 (h_value h); parse_authority (trim_end_matches "."%char (trim v))
                | _ => None
                end;
     ra_target := '(_, host, port) ← absolute_form (string_of (rq_target request)); Some {| au_host := host; au_port := port |} |}.

(** [Sent::of], and the head's values zeroized once it is serialized. *)
Definition sent_of (r : Request) : Sent :=
  {| se_head := bool_decide (rq_method r = bytes "HEAD"); se_connect := bool_decide (rq_method r = bytes "CONNECT");
     se_switches := switches_protocol r |}.
Definition zeroize_credential (injected : option (list Z)) (r : Request) : Request :=
  with_headers r (map (fun h => if name_is h "authorization" || match injected with Some n => eq_ignore_case (h_name h) n | None => false end
                                then set_value h [] else h) (rq_headers r)).

(** ** The flow *)

Definition show_authority (a : Authority string) : string := (au_host a ++ ":" ++ pretty (au_port a))%string.

(** The text of [refusal_body], by marker; [a] is the authority. *)
Definition refusal_reason (marker : string) (authority : Authority string) : string :=
  let a := show_authority authority in
  let is_ m := bool_decide (marker = m) in
  let any cs := existsb (fun c => bool_decide (check_marker c = marker)) cs in
  (if is_ (check_marker CkOutsideDeclaredEgress) then "this box is not allowed to reach " ++ a ++ "."
   else if is_ MIXED_AUTHORIZATION then
     "it carries a credential in more than one header. Send one sealed credential, in one header."
   else if is_ SEALED_HEADER_MISPLACED then
     "its sealed credential is in a header that does not carry a credential to " ++ a
     ++ ". Send the sealed credential in the header that its secret store rule names, or in the Authorization header for a GitHub sign-in."
   else if is_ STORE_ITEM_DELETED then "the secret that its sealed credential refers to is no longer stored."
   else if is_ STORE_ITEM_DISABLED then "the stored secret that its sealed credential refers to does not let the proxy read it."
   else if is_ STORE_ITEM_UNREADABLE then "it was not able to read the stored secret that its sealed credential refers to."
   else if is_ INJECTION_INVALID then
     "the stored secret and the form that its secret store rule sets do not make a valid request header."
   else if is_ (check_marker CkHostMismatch) then "its Host header or its target names a different host."
   else if is_ SIGN_IN_REQUIRED then
     "the GitHub sign-in on the host has ended. On the host, run `min auth login`, then send the request again."
   else if any [CkExpired; CkRevoked; CkUndecryptable; CkUnboundedMember] then
     "this box's sealed credential no longer works on this host. Create the box again to give it a new sealed credential."
   else if is_ (check_marker CkNoLiveBox) then
     "the request did not come from a running box on this host. Send the request from inside the running box that was given this sealed credential."
   else if is_ (check_marker CkCrossBox) then
     "the sealed credential in the request belongs to another box. Send the request with the sealed credential that this box was given."
   else if is_ (check_marker CkOffPort) then
     "this sealed credential is sent to " ++ au_host authority ++ " only on other ports, not on port " ++ pretty (au_port authority) ++ "."
   else if any [CkOutsideBoundSet; CkOutsideCurrentSet] then a ++ " is not a host that this sealed credential is sent to."
   else if is_ (check_marker CkStoreHandleInvalid) then
     "the reference to a stored secret in its sealed credential is not valid. Its signature can fail to verify, it can name another box or host, or it can be past its expiry. The host can also have nothing that admits it, admit it for other hosts than "
     ++ a ++ ", or set a different header form for it."
   else "it did not accept the sealed credential in the request.")%string.
(** [Flow::refusal_body]. *)
Definition refusal_body (authority : Authority string) (marker : string) : string :=
  ("The Box Egress Proxy refused the request to " ++ show_authority authority ++ ", because " ++ refusal_reason marker authority)%string.

(** What a flow reads of the host: the redeemer's registries, the clock, the
    renewals in flight, the store it opened, and what passes between two
    requests of the flow. *)
Class FlowWorld (W : Type) `{HandleCrypto} := {
  redeemer_of : W -> BoxRedeemer;
  clock : W -> Z;
  in_flight : W -> Flight (result RenewError Resolved);
  store_name : option string;
  store_read : W -> string -> W * result ReadError (list Z);
  elapse : W -> W;
}.

Section flow.
Context `{HandleCrypto} `{HeaderFields} `{StandardBase64} {W : Type} `{SignInWorld W} `{!FlowWorld W}.

(** [Flow], less the writers it is given. *)
Record Flow : Type := { fl_box_id : string; fl_authority : Authority string }.
Record FlowState : Type := { fs_renew : RenewState (W := W); fs_audit : list AuditDecision; fs_sent : list Sent }.
Definition fs_world (s : FlowState) : W := rn_world (fs_renew s).
Definition set_renew (s : FlowState) (r : RenewState) : FlowState := {| fs_renew := r; fs_audit := fs_audit s; fs_sent := fs_sent s |}.

(** [Flow::record_for] and [Flow::record]. *)
Definition record_for (fl : Flow) (s : FlowState) (subject : string) (outcome : AuditOutcome) (marker identifier : option string)
    (jti : string) (mapping : Mapping) : FlowState :=
  {| fs_renew := fs_renew s;
     fs_audit := fs_audit s ++ [{| ad_kind := KDecision; ad_box_id := subject; ad_authority := show_authority (fl_authority fl);
                                   ad_identifier := identifier; ad_jti := jti; ad_mapping := mapping; ad_outcome := outcome; ad_marker := marker |}];
     fs_sent := fs_sent s |}.
Definition flow_record (fl : Flow) (s : FlowState) (outcome : AuditOutcome) (marker : option string) : FlowState :=
  record_for fl s (fl_box_id fl) outcome marker None EmptyString ModuleUnmapped.

Definition read_marker (e : ReadError) : string :=
  match e with RdDeleted => STORE_ITEM_DELETED | RdDisabled => STORE_ITEM_DISABLED | RdStoreError => STORE_ITEM_UNREADABLE end.

(** [Flow::inject_store]. *)
Definition store_header (i : Inject) : list Z :=
  match i with InjHeader name _ => lower (bytes name) | InjBasicAuth _ => bytes "authorization" end.
Definition store_placed (request : Request) (a : SealedAt) (i : Inject) : bool :=
  match i with
  | InjHeader name _ => header_named request a name
  | InjBasicAuth field =>
      header_named request a "authorization"
      && match sa_form a with FmBasic _ _ in_user => Bool.eqb in_user (bool_decide (field = FIELD_USER)) | _ => false end
  end.
Definition read_store (s : FlowState) (store id : string) : FlowState * result ReadError (list Z) :=
  if bool_decide (store_name = Some store) then
    let '(w, r) := store_read (fs_world s) id in (set_renew s (set_world (fs_renew s) w), r)
  else (s, Err RdStoreError).
Definition inject_store (fl : Flow) (s : FlowState) (request : Request) (a : SealedAt) (admit_ : StoreAdmit) (jti subject : string)
    : FlowState * result string (Request * list Z) :=
  let '(s, res) :=
    if negb (store_placed request a (sad_inject admit_)) then (s, Err SEALED_HEADER_MISPLACED)
    else let '(s, r) := read_store s (sad_store admit_) (sad_id admit_) in
         (s, match r with
             | Err e => Err (read_marker e)
             | Ok value => inject request (sa_header a) (sad_inject admit_) value (other_basic_field a)
             end) in
  match res with
  | Ok request =>
      (record_for fl s subject OutAdmit (sad_marker admit_) (Some (admit_identifier admit_)) jti (sad_mapping admit_),
       Ok (request, store_header (sad_inject admit_)))
  | Err marker =>
      (record_for fl s subject OutRefuse (Some marker) (Some (admit_identifier admit_)) jti (sad_mapping admit_), Err marker)
  end.

(** The part of [Flow::decide_injected] that substitutes a sign-in's
    credential. *)
Definition substitute_sign_in (fl : Flow) (s : FlowState) (request : Request) (a : SealedAt) (jti subject : string)
    (cred identifier : string) (mapping : Mapping) (renewed : bool) (marker : option string) : FlowState * result string (Request * option (list Z)) :=
  let s := if renewed then record_for fl s subject OutAdmit (Some SIGN_IN_RENEWED) (Some identifier) jti mapping else s in
  let placed := match rq_headers request !! sa_header a with Some h => name_is h "authorization" | None => true end in
  match (if placed then substitute request a cred else Err SEALED_HEADER_MISPLACED) with
  | Err m => (record_for fl s subject OutRefuse (Some m) (Some identifier) jti mapping, Err m)
  | Ok request => (record_for fl s subject OutAdmit marker (Some identifier) jti mapping, Ok (request, None))
  end.

(** [Flow::decide_injected]. *)
Definition decide_sealed (fl : Flow) (s : FlowState) (request : Request) (a : SealedAt) : FlowState * result string (Request * option (list Z)) :=
  let w := fs_world s in
  let header := match rq_headers request !! sa_header a with Some h => string_of (h_name h) | None => EmptyString end in
  let '(rn, (redeemed, jti, subject)) :=
    redeem_attributed (redeemer_of w) (in_flight w) (fs_renew s) (fl_box_id fl) (fl_authority fl) (request_authority request)
      (sa_value a) header (clock w) in
  let s := set_renew s rn in
  match redeemed with
  | RdStore admit_ =>
      let '(s, r) := inject_store fl s request a admit_ jti subject in
      (s, match r with Ok (request, header) => Ok (request, Some header) | Err m => Err m end)
  | RdVerdict (CvAdmit cred identifier mapping renewed marker _) =>
      substitute_sign_in fl s request a jti subject cred identifier mapping renewed marker
  | RdVerdict (CvRefuse marker) => (record_for fl s subject OutRefuse (Some marker) None jti ModuleUnmapped, Err marker)
  end.
Definition decide_injected (fl : Flow) (s : FlowState) (request : Request) : FlowState * result string (Request * option (list Z)) :=
  match decide_plain (fl_authority fl) (request_authority request) (redeemer_egress (redeemer_of (fs_world s)) (fl_box_id fl)) with
  | Err check => (flow_record fl s OutRefuse (Some (check_marker check)), Err (check_marker check))
  | Ok _ =>
      match carried request with
      | CaSealed a => decide_sealed fl s request a
      | CaMixed => (flow_record fl s OutRefuse (Some MIXED_AUTHORIZATION), Err MIXED_AUTHORIZATION)
      | CaForeign => (flow_record fl s OutAdmit (Some FOREIGN_CREDENTIAL), Ok (request, None))
      | CaNone => (flow_record fl s OutAdmit None, Ok (request, None))
      end
  end.

(** ** The request half *)

Context {U : Type} `{Write U}.

Definition push_sent (s : FlowState) (x : Sent) : FlowState := {| fs_renew := fs_renew s; fs_audit := fs_audit s; fs_sent := fs_sent s ++ [x] |}.
Definition elapsed (s : FlowState) : FlowState := set_renew s (set_world (fs_renew s) (elapse (fs_world s))).

(** [write_all] and [flush] of a head. *)
Definition write_head (u : U) (head : list Z) : U * option ErrorKind :=
  let '(u, e) := write_all u head in
  match e with Some k => (u, Some k) | None => flush u end.

(** The rounds of [forward_requests]. *)
Fixpoint credential_loop (fuel : nat) (fl : Flow) (s : FlowState) (pending : list Z) (client : Reader) (u : U) (forwarded_any : bool)
    : outcome (FlowState * Reader * U * HalfEnd) :=
  match fuel with
  | O => OutOfFuel
  | S fuel =>
      let '(client, r) := read_head parse_request pending client in
      let s := elapsed s in
      match r with
      | Err reason =>
          Done (match audit_marker reason with Some marker => flow_record fl s OutRefuse (Some marker) | None => s end,
                client, u, HeClosed reason)
      | Ok (request, rest) =>
          let '(s, d) := decide_injected fl s request in
          match d with
          | Err marker =>
              Done (s, client, u, HeRefused {| cr_marker := marker; cr_body := refusal_body (fl_authority fl) marker; cr_after_forwarded := forwarded_any |})
          | Ok (request, injected) =>
              let head := serialize_request request in
              let request := zeroize_credential injected request in
              let s := push_sent s (sent_of request) in
              let '(u, e) := write_head u head in
              match e with
              | Some k => Done (s, client, u, HeClosed (IoErr k))
              | None =>
                  b ← relay_request_body {| fw_request := request; fw_rest := rest |} client u;
                  let '(client, u, b) := b : Reader * U * result CloseReason (list Z) in
                  match b with
                  | Err reason => Done (s, client, u, HeClosed reason)
                  | Ok pending =>
                      if switches_protocol request then Done (s, client, u, HeClosed (ProtocolSwitch pending))
                      else credential_loop fuel fl s pending client u true
                  end
              end
          end
      end
  end.
(** [forward_requests]. *)
Definition forward_credentialed (fl : Flow) (s : FlowState) (client : Reader) (u : U) : outcome (FlowState * Reader * U * HalfEnd) :=
  credential_loop (S (reader_size client)) fl s [] client u false.
End flow.
