(* ===== verification/CredentialProps.v ===== *)
(** * What the credentialed request half guarantees

    Theorems about crates/bep/src/forward.rs and crates/bep/src/inject.rs as
    modelled in CredentialFlow: which requests get a credential, what of the
    head changes, and what the upstream receives. *)

From stdpp Require Import base list gmap strings numbers sets.
From Stdlib Require Import ZArith Lia Ascii.
From S2P Require Import Prelude Text Bytes Http HttpProps HttpRelay HttpRelayProps Envelope Handle Redeem SignIn StoreRules AuditChain Redeemer CredentialFlow.
Open Scope Z_scope.

(** ** Where the sealed value is *)

Section carried.
Context `{SealCrypto} `{HeaderFields} `{StandardBase64}.

(** The sealed values of a list of headers, in order, each with whether its
    header is an [Authorization] header. *)
Fixpoint hits (i : nat) (hs : list Header) : list (SealedAt * bool) :=
  match hs with
  | [] => []
  | h :: hs => match sealed_in i (h_value h) with
               | Some a => (a, name_is h "authorization") :: hits (S i) hs
               | None => hits (S i) hs
               end
  end.
Definition auths (hs : list Header) : list Header := filter (fun h => name_is h "authorization" = true) hs.

Lemma search_headers_spec hs : forall s i,
  let r := search_headers s i hs in
  sr_sealed r = match sr_sealed s with Some x => Some x | None => head (hits i hs) end /\
  sr_found r = (sr_found s + length (hits i hs))%nat /\ sr_count r = (sr_count s + length (auths hs))%nat.
Proof.
  induction hs as [|h hs IH]; intros s i; cbn -[auths].
  - split; [by destruct (sr_sealed s)|]. by rewrite !Nat.add_0_r.
  - destruct (IH (search_header s i h) (S i)) as (-> & -> & ->). unfold search_header, auths. rewrite filter_cons.
    destruct (sealed_in i (h_value h)) as [a|]; cbn; destruct (name_is h "authorization"); cbn; rewrite ?Nat.add_succ_r; (split; [by destruct (sr_sealed s)|done]).
Qed.

Lemma sealed_in_header i v a : sealed_in i v = Some a -> sa_header a = i.
Proof.
  unfold sealed_in. destruct (from_utf8 v) as [t|]; [|done]. cbn. destruct (default _ _) as [scheme rest].
  destruct (str_eq_ignore_case scheme "basic").
  - destruct (std_decode _) as [bs|]; [|done]. cbn. destruct (from_utf8 bs) as [d|]; [|done]. cbn.
    destruct (split_once _ d) as [[user pass]|]; [|done]. cbn. destruct (is_sealed user) eqn:Eu; [rewrite Eu; by intros [= <-]|]. by destruct (is_sealed pass); [intros [= <-]|].
  - by destruct (is_sealed _); [intros [= <-]|].
Qed.

Lemma hits_elem i hs x : x ∈ hits i hs -> exists j h, hs !! j = Some h /\ sealed_in (i + j) (h_value h) = Some x.1 /\ x.2 = name_is h "authorization".
Proof.
  revert i. induction hs as [|h hs IH]; intros i; cbn; [set_solver|].
  destruct (sealed_in i (h_value h)) as [a|] eqn:Ea.
  - intros [->|Hx]%elem_of_cons; [exists 0%nat, h; by rewrite Nat.add_0_r|].
    destruct (IH (S i) Hx) as (j & h' & Hj & Hs & He). exists (S j), h'. by rewrite Nat.add_succ_r.
  - intros Hx. destruct (IH (S i) Hx) as (j & h' & Hj & Hs & He). exists (S j), h'. by rewrite Nat.add_succ_r.
Qed.

Lemma hits_complete i hs j h a : hs !! j = Some h -> sealed_in (i + j) (h_value h) = Some a -> (a, name_is h "authorization") ∈ hits i hs.
Proof.
  revert i j. induction hs as [|h' hs IH]; intros i [|j]; cbn; [done|done| |].
  - intros [= ->]. rewrite Nat.add_0_r. intros ->. by left.
  - intros Hj Hs. rewrite Nat.add_succ_r in Hs. specialize (IH (S i) j Hj Hs). destruct (sealed_in i (h_value h')); [by right|done].
Qed.

Lemma single_auth hs j h : (length (auths hs) <= 1)%nat -> hs !! j = Some h -> name_is h "authorization" = true ->
  forall k h', k <> j -> hs !! k = Some h' -> name_is h' "authorization" = false.
Proof.
  unfold auths. revert j. induction hs as [|x hs IH]; intros [|j] Hlen; cbn; [done|done| |]; rewrite filter_cons in Hlen.
  - intros [= ->] Hh. rewrite decide_True in Hlen by done. intros [|k] h' Hk; [done|]. cbn. intros Hl. apply not_true_is_false. intros Ht.
    assert (h' ∈ filter (fun h => name_is h "authorization" = true) hs) as Hin by (apply list_elem_of_filter; split; [done|]; by eapply list_elem_of_lookup_2).
    destruct (filter _ hs); [by apply elem_of_nil in Hin|]. cbn in Hlen. lia.
  - intros Hj Hh [|k] h' Hk; cbn.
    + intros [= ->]. apply not_true_is_false. intros Ht. rewrite decide_True in Hlen by done.
      assert (h ∈ filter (fun h => name_is h "authorization" = true) hs) as Hin by (apply list_elem_of_filter; split; [done|]; by eapply list_elem_of_lookup_2).
      destruct (filter _ hs); [by apply elem_of_nil in Hin|]. cbn in Hlen. lia.
    + intros Hl. eapply (IH j); [|done|done| |exact Hl]; [|congruence]. case_decide; cbn in Hlen; lia.
Qed.

Lemma no_auth hs k h : length (auths hs) = 0%nat -> hs !! k = Some h -> name_is h "authorization" = false.
Proof.
  intros Hlen Hl. apply not_true_is_false. intros Ht.
  assert (h ∈ auths hs) as Hin by (apply list_elem_of_filter; split; [done|]; by eapply list_elem_of_lookup_2).
  destruct (auths hs); [by apply elem_of_nil in Hin|done].
Qed.

(** A request that carries a sealed value carries exactly one, and no
    [Authorization] header beside the one that holds it. *)
Lemma carried_sealed rq a : carried rq = CaSealed a ->
  exists h, rq_headers rq !! sa_header a = Some h /\ sealed_in (sa_header a) (h_value h) = Some a /\
    forall k h', k <> sa_header a -> rq_headers rq !! k = Some h' -> sealed_in k (h_value h') = None /\ name_is h' "authorization" = false.
Proof.
  unfold carried. set (s0 := {| sr_sealed := None; sr_found := 0; sr_count := 0 |}).
  destruct (search_headers_spec (rq_headers rq) s0 0) as (-> & -> & ->). cbn [s0 sr_sealed sr_found sr_count].
  destruct (hits 0 (rq_headers rq)) as [|[a' auth] rest] eqn:Eh; cbn [head]; [by destruct (_ =? _)%nat|].
  destruct (Nat.ltb_spec 1 (0 + length ((a', auth) :: rest))) as [|Hone]; [done|].
  destruct (Nat.ltb_spec (Nat.b2n auth) (0 + length (auths (rq_headers rq)))) as [|Hauth]; [done|]. intros [= ->].
  destruct rest; [|cbn in Hone; lia].
  destruct (hits_elem 0 (rq_headers rq) (a, auth)) as (j & h & Hj & Hs & He); [rewrite Eh; by left|]. cbn in Hs, He.
  pose proof (sealed_in_header _ _ _ Hs) as Ej. exists h. rewrite Ej. split; [done|]. split; [done|].
  intros k h' Hk Hl. split.
  - destruct (sealed_in k (h_value h')) as [b|] eqn:Eb; [|done]. pose proof (hits_complete 0 _ k h' b Hl Eb) as Hin.
    rewrite Eh in Hin. apply list_elem_of_singleton in Hin. injection Hin as -> _. apply sealed_in_header in Eb. congruence.
  - destruct auth; cbn in Hauth.
    + eapply (single_auth (rq_headers rq) j h); [lia|done|done|exact Hk|done].
    + eapply (no_auth (rq_headers rq)); [lia|exact Hl].
Qed.

Lemma carried_plain rq : (carried rq = CaForeign \/ carried rq = CaNone) -> forall k h, rq_headers rq !! k = Some h -> sealed_in k (h_value h) = None.
Proof.
  unfold carried. set (s0 := {| sr_sealed := None; sr_found := 0; sr_count := 0 |}).
  destruct (search_headers_spec (rq_headers rq) s0 0) as (-> & -> & ->). cbn [s0 sr_sealed sr_found sr_count].
  intros Hc k h Hl. destruct (sealed_in k (h_value h)) as [b|] eqn:Eb; [|done]. pose proof (hits_complete 0 _ k h b Hl Eb) as Hin.
  destruct (hits 0 (rq_headers rq)) as [|[a' auth] rest] eqn:Eh; [by apply elem_of_nil in Hin|]. cbn [head] in Hc.
  destruct (1 <? _)%nat; [naive_solver|]. destruct (_ <? _)%nat; naive_solver.
Qed.
End carried.

(** ** Text in a header *)

Definition code (c : ascii) : Z := Z.of_nat (nat_of_ascii c).

Lemma elem_of_bytes_str (s : string) b : b ∈ bytes s <-> exists c, str_contains c s = true /\ b = code c.
Proof.
  induction s as [|d s IH]; cbn.
  - split; [by intros ?%elem_of_nil|by intros (c & [=] & _)].
  - rewrite elem_of_cons, IH. split.
    + intros [->|(c & Hc & ->)]; [exists d; by rewrite bool_decide_true|exists c; rewrite Hc, orb_true_r; done].
    + intros (c & Hc & ->). apply orb_true_iff in Hc as [Hc|Hc]; [apply bool_decide_eq_true_1 in Hc; subst; by left|right; eauto].
Qed.

Lemma strip_while_sub c n ws s : str_contains c (strip_while n ws s) = true -> str_contains c s = true.
Proof.
  revert s. induction n as [|n IH]; intros s; [done|]. cbn [strip_while].
  destruct (head (filter_map _ ws)) as [s'|] eqn:E; [|done]. intros Hc%IH. apply head_Some_elem_of, elem_of_filter_map in E as (w & _ & Hw).
  apply strip_prefix_Some in Hw as ->. by rewrite str_contains_app, Hc, orb_true_r.
Qed.
Lemma trim_sub_str c s : str_contains c (trim s) = true -> str_contains c s = true.
Proof. unfold trim. rewrite str_contains_rev. intros Hc%strip_while_sub. rewrite str_contains_rev in Hc. by apply strip_while_sub in Hc. Qed.

Lemma utf8_bound n l : (length l <= n)%nat -> utf8_valid l = true -> Forall (fun b => b <= 255) l.
Proof.
  revert l. induction n as [|n IH]; intros l Hlen Hv; [destruct l; [constructor|cbn in Hlen; lia]|].
  destruct l as [|a l1]; [constructor|]. cbn [utf8_valid] in Hv. cbn in Hlen. destruct (Z.leb_spec a 127).
  { constructor; [lia|]. apply IH; [lia|done]. }
  destruct l1 as [|b l2]; [done|]. cbn in Hlen. unfold three_byte_lead, four_byte_lead, continuation, in_range in Hv.
  destruct ((194 <=? a) && (a <=? 223)) eqn:E2.
  { apply andb_prop in Hv as [Hb Hv]. do 2 (constructor; [lia|]). apply IH; [lia|done]. }
  destruct l2 as [|c l3]; [done|]. cbn in Hlen.
  destruct (_ || _ || _ || _) eqn:E3.
  { apply andb_prop in Hv as [Hc Hv]. do 3 (constructor; [lia|]). apply IH; [lia|done]. }
  destruct l3 as [|d l4]; [done|]. cbn in Hlen. apply andb_prop in Hv as [Hd Hv]. do 4 (constructor; [lia|]). apply IH; [lia|done].
Qed.

(** The control characters of the text of a header are bytes of it. *)
Lemma from_utf8_contains l s c : from_utf8 l = Some s -> str_contains c s = true -> (0 < nat_of_ascii c)%nat -> code c ∈ l.
Proof.
  unfold from_utf8. destruct (utf8_valid l) eqn:Hv; [|done]. intros [= <-] Hc Hpos. apply (utf8_bound _ _ (le_n _)) in Hv.
  induction Hv as [|b l Hb Hl IH]; [done|]. cbn in Hc. apply orb_true_iff in Hc as [Hc|Hc]; [|right; by apply IH].
  apply bool_decide_eq_true_1 in Hc. apply elem_of_cons. left. unfold code. subst c. rewrite nat_ascii_embedding in * by lia. lia.
Qed.

(** ** The head with its credential *)

Section head.
Context `{SealCrypto} `{HeaderFields} `{StandardBase64}.

(** Base64 text is of printable characters. *)
Definition base64_printable : Prop := forall l, forallb is_graphic (bytes (std_encode l)) = true.

Lemma header_safe_line v : header_safe v = true -> line_ok v.
Proof.
  unfold header_safe. intros Hs. split; intros Hin; apply list_elem_of_In in Hin;
    apply (proj1 (forallb_forall _ _) Hs) in Hin; by rewrite ?Z.eqb_refl, ?orb_true_r in Hin.
Qed.
Lemma line_ok_app a b : line_ok (a ++ b) <-> line_ok a /\ line_ok b.
Proof. unfold line_ok. rewrite !elem_of_app. naive_solver. Qed.
Lemma graphic_line l : forallb is_graphic l = true -> line_ok l.
Proof. intros Hl. split; apply (forallb_not_elem is_graphic); auto with minimal. Qed.
Lemma field_line l : forallb is_field_byte l = true -> line_ok l.
Proof. intros Hl. split; apply (forallb_not_elem is_field_byte); auto with minimal. Qed.
Lemma tchar_line l : forallb is_tchar l = true -> line_ok l.
Proof. intros Hl. split; apply (forallb_not_elem is_tchar); auto with minimal. Qed.

(** The scheme the box wrote before its sealed value is of its header's text. *)
Lemma sealed_scheme_line i v a scheme : sealed_in i v = Some a -> sa_form a = FmToken scheme -> line_ok v -> line_ok (bytes scheme).
Proof.
  unfold sealed_in. destruct (from_utf8 v) as [t|] eqn:Eu; [|done]. cbn. intros Hs Hf Hv.
  destruct (default _ _) as [sch rest] eqn:Ed. destruct (str_eq_ignore_case sch "basic").
  { destruct (std_decode _) as [bs|]; [|done]. cbn in Hs. destruct (from_utf8 bs) as [d|]; [|done]. cbn in Hs.
    destruct (split_once _ d) as [[user pass]|]; [|done]. cbn in Hs. destruct (is_sealed (if is_sealed user then user else pass)); [|done]. by injection Hs as <-. }
  destruct (is_sealed _); [|done]. injection Hs as <-. cbn in Hf. case_bool_decide as He; [done|]. injection Hf as ->.
  assert (forall c, str_contains c scheme = true -> (0 < nat_of_ascii c)%nat -> code c ∈ v) as Hin.
  { intros c Hc Hpos. apply (from_utf8_contains v t c Eu); [|done]. apply trim_sub_str.
    destruct (split_once " " (trim t)) as [[x y]|] eqn:Es; cbn in Ed; [|by injection Ed as <- _].
    injection Ed as <- _. apply split_once_Some in Es as [-> _]. by rewrite str_contains_app, Hc. }
  destruct Hv as [Hcr Hlf]. split; rewrite elem_of_bytes_str; intros (c & Hc & E).
  - apply Hcr. rewrite E. apply Hin; [done|]. unfold code, CR in E. lia.
  - apply Hlf. rewrite E. apply Hin; [done|]. unfold code, LF in E. lia.
Qed.

(** The header fields that frame a message or name its host are as they
    were. *)
Definition framing_kept (hs hs' : list Header) : Prop := forall n, n ∈ FRAMING_NAMES -> values hs' n = values hs n.

Lemma bytes_lower s : bytes (to_ascii_lowercase s) = lower (bytes s).
Proof.
  induction s as [|c s IH]; [done|]. cbn. rewrite IH. f_equal. clear. apply Z.eqb_eq. revert c. apply ascii_check. by vm_compute.
Qed.
Lemma framing_names_lower n : n ∈ FRAMING_NAMES -> to_ascii_lowercase n = n.
Proof. revert n. apply list.Forall_forall. apply (bool_decide_unpack _). by vm_compute. Qed.

(** A name that is none of them compares equal to none of them. *)
Definition unframed (name : list Z) : Prop := forall n, n ∈ FRAMING_NAMES -> lower name <> bytes n.
Lemma framing_name_unframed name : framing_name name = false -> unframed (lower (bytes name)).
Proof.
  intros Hf n Hn E. rewrite lower_idem in E. assert (existsb (str_eq_ignore_case name) FRAMING_NAMES = true) as Ht; [|unfold framing_name in Hf; congruence].
  apply existsb_exists. exists n. split; [by apply list_elem_of_In|]. apply bool_decide_eq_true_2. apply bytes_inj. by rewrite bytes_lower, E, framing_names_lower.
Qed.
Lemma authorization_unframed : unframed (bytes "authorization").
Proof. intros n. revert n. apply list.Forall_forall. apply (bool_decide_unpack _). by vm_compute. Qed.

Lemma values_app hs hs' n : values (hs ++ hs') n = values hs n ++ values hs' n.
Proof. unfold values. by rewrite filter_app, map_app. Qed.
Lemma values_unframed h n : n ∈ FRAMING_NAMES -> unframed (h_name h) -> values [h] n = [].
Proof.
  intros Hn Hu. unfold values. rewrite filter_cons, decide_False; [done|]. intros E. apply (Hu n Hn). rewrite E, <- bytes_lower. by rewrite framing_names_lower.
Qed.
Lemma unframed_eq a b : eq_ignore_case a b = true -> unframed b -> unframed a.
Proof. intros E%bool_decide_eq_true_1 Hu n Hn. rewrite E. by apply Hu. Qed.
Lemma keep_other_values name hs n : unframed name -> n ∈ FRAMING_NAMES -> values (keep_other name hs) n = values hs n.
Proof.
  intros Hu Hn. induction hs as [|h hs IH]; [done|]. unfold keep_other in *. rewrite filter_cons. change (h :: hs) with ([h] ++ hs).
  case_decide as Hk; [change (h :: filter _ hs) with ([h] ++ filter (fun h => eq_ignore_case (h_name h) name = false) hs); by rewrite !values_app, IH|].
  rewrite values_app, (values_unframed h) by (done || by apply (unframed_eq _ name); [apply not_false_is_true|]). done.
Qed.

(** A header in the place of another, neither a framing one. *)
Lemma replaced_values hs i h new n : hs !! i = Some h -> unframed (h_name h) -> unframed (h_name new) -> n ∈ FRAMING_NAMES ->
  values (take i hs ++ [new] ++ drop (S i) hs) n = values hs n.
Proof.
  intros Hi Hh Hnew Hn. rewrite <- (take_drop_middle hs i h Hi) at 3. change (h :: drop (S i) hs) with ([h] ++ drop (S i) hs).
  by rewrite !values_app, (values_unframed h), (values_unframed new).
Qed.

Lemma framing_of_values hs hs' : framing_kept hs hs' -> framing hs' = framing hs.
Proof.
  intros Hk. unfold framing, has_empty_element. rewrite !has_header_values, !(Hk "content-length"%string), !(Hk "transfer-encoding"%string), !(Hk "connection"%string);
    try (apply (bool_decide_unpack _); by vm_compute); done.
Qed.

Lemma keep_other_id name hs : Forall (fun h => eq_ignore_case (h_name h) name = false) hs -> keep_other name hs = hs.
Proof. unfold keep_other. induction 1 as [|h hs Hh _ IH]; [done|]. rewrite filter_cons, decide_True by done. by rewrite IH. Qed.
Lemma elem_of_keep_other name hs h : h ∈ keep_other name hs -> eq_ignore_case (h_name h) name = false /\ h ∈ hs.
Proof. unfold keep_other. by intros ?%list_elem_of_filter. Qed.

(** A head in which one header took the place of the sealed one, of the same
    name: every other header is where it was, less those of that name, nothing
    of the message's framing changes, and the new header is one line. *)
Record head_changed (rq rq' : Request) (i : nat) (new : Header) : Prop := {
  hch_line : rq_method rq' = rq_method rq /\ rq_target rq' = rq_target rq /\ rq_body rq' = rq_body rq;
  hch_old : exists old, rq_headers rq !! i = Some old /\ eq_ignore_case (h_name old) (h_name new) = true;
  hch_headers : rq_headers rq' = keep_other (h_name new) (take i (rq_headers rq)) ++ [new] ++ keep_other (h_name new) (drop (S i) (rq_headers rq));
  hch_framing : framing_kept (rq_headers rq) (rq_headers rq');
  hch_new : h_name new <> [] /\ forallb is_tchar (h_name new) = true /\ line_ok (h_value new);
}.

Lemma substitute_head rq a h tok rq' : base64_printable ->
  carried rq = CaSealed a -> rq_headers rq !! sa_header a = Some h -> name_is h "authorization" = true -> header_ok h ->
  substitute rq a tok = Ok rq' ->
  exists new, h_name new = h_name h /\ head_changed rq rq' (sa_header a) new.
Proof.
  intros Hb64 Hc Hl Hauth (Hne & Htc & _ & Hf & _) Hs. apply carried_sealed in Hc as (h' & Hl' & Hsealed & Hothers).
  rewrite Hl in Hl'. injection Hl' as <-. unfold substitute in Hs. destruct (header_safe (bytes tok)) eqn:Hsafe; [|done]. cbn [negb] in Hs.
  rewrite Hl in Hs. cbn [ok_or mbind result_bind] in Hs. injection Hs as <-.
  match goal with |- context [<[_ := ?n]> _] => exists n end. split; [done|]. split.
  - done.
  - exists h. split; [done|]. by apply bool_decide_eq_true_2.
  - cbn [rq_headers with_headers h_name set_value]. rewrite insert_take_drop by (by eapply lookup_lt_Some).
    assert (forall k x, k <> sa_header a -> rq_headers rq !! k = Some x -> eq_ignore_case (h_name x) (h_name h) = false) as Hk.
    { intros k x Hki Hk. destruct (Hothers k x Hki Hk) as [_ Hn]. unfold name_is in *. apply bool_decide_eq_true_1 in Hauth.
      apply bool_decide_eq_false_1 in Hn. apply bool_decide_eq_false_2. congruence. }
    rewrite !keep_other_id; [done|..]; apply Forall_lookup; intros k x Hx.
    + rewrite lookup_drop in Hx. eapply Hk; [|exact Hx]. lia.
    + apply lookup_take_Some in Hx as [Hx Hlt]. eapply Hk; [|exact Hx]. lia.
  - intros n Hn. cbn. rewrite insert_take_drop by (by eapply lookup_lt_Some). change (?x :: ?l) with ([x] ++ l).
    pose proof (unframed_eq _ _ Hauth authorization_unframed) as Hu. by apply (replaced_values _ _ h).
  - cbn [h_name h_value set_value]. split; [done|]. split; [done|]. apply header_safe_line in Hsafe. destruct (sa_form a) as [scheme|user pass in_user|] eqn:Ef.
    + rewrite bytes_app_str. apply line_ok_app. split; [by eapply sealed_scheme_line; [| |apply field_line]|].
      apply (proj2 (line_ok_app (bytes " ") _)). split; [|done]. apply field_line. reflexivity.
    + apply (proj2 (line_ok_app (bytes "Basic ") (bytes (std_encode _)))). split; [apply field_line; reflexivity|]. apply graphic_line, Hb64.
    + done.
Qed.

Lemma elem_of_sublist {A} (l k : list A) x : l `sublist_of` k -> x ∈ l -> x ∈ k.
Proof. intros Hs. induction Hs as [|y l k Hs IH|y l k Hs IH]; [done|intros [->|Hx]%elem_of_cons; [by left|right; auto]|intros Hx; right; auto]. Qed.
Lemma elem_of_take_drop_sub {A} i (l : list A) x : x ∈ take i l \/ x ∈ drop (S i) l -> x ∈ l.
Proof. rewrite <- (take_drop i l) at 3. rewrite elem_of_app. intros [Hx|Hx]; [by left|]. right. replace (S i) with (i + 1)%nat in Hx by lia. rewrite <- drop_drop in Hx. by eapply elem_of_sublist; [apply sublist_drop|]. Qed.

Lemma header_for_ok form value other name v : base64_printable -> header_for form value other = Ok (name, v) ->
  name = store_header form /\ name <> [] /\ forallb is_tchar name = true /\ unframed name /\ line_ok v /\ lower name = name.
Proof.
  intros Hb64. unfold header_for. destruct (header_safe value) eqn:Hsafe; [|done]. cbn [negb]. apply header_safe_line in Hsafe.
  destruct form as [n prefix|field].
  - unfold inject_token. case_bool_decide as He; [done|]. cbn [negb andb]. destruct (forallb is_tchar (bytes n)) eqn:Ht; [|done]. cbn [negb orb].
    destruct (framing_name n) eqn:Ef; [done|]. cbn [orb]. destruct (header_safe (bytes (default EmptyString prefix))) eqn:Hp; [|done]. cbn [negb].
    intros [= <- <-]. split; [done|]. split; [by destruct n|]. split; [by apply forallb_lower|].
    split; [by apply framing_name_unframed|]. split; [|apply lower_idem]. apply line_ok_app. split; [by apply header_safe_line|done].
  - destruct (header_safe other); [|done]. cbn [negb]. intros (up & _ & Ho)%result_bind_Ok. destruct up as [user pass].
    destruct (contains_byte user COLON); [done|]. injection Ho as <- <-. split; [done|]. split; [done|]. split; [reflexivity|].
    split; [apply authorization_unframed|]. split; [|reflexivity]. apply (proj2 (line_ok_app (bytes "Basic ") (bytes (std_encode _)))).
    split; [apply field_line; reflexivity|]. apply graphic_line, Hb64.
Qed.

Lemma inject_head rq i h form value other rq' : base64_printable ->
  rq_headers rq !! i = Some h -> eq_ignore_case (h_name h) (store_header form) = true ->
  inject rq i form value other = Ok rq' ->
  exists new, h_name new = store_header form /\ head_changed rq rq' i new.
Proof.
  intros Hb64 Hl Hn Hi. unfold inject in Hi. rewrite (proj2 (Nat.leb_gt _ _)) in Hi by (by eapply lookup_lt_Some).
  apply result_bind_Ok in Hi as ([name v] & Hf & Hi). injection Hi as <-.
  destruct (header_for_ok _ _ _ _ _ Hb64 Hf) as (-> & Hne & Htc & Hu & Hv & Hlow).
  exists {| h_name := store_header form; h_value := v |}. split; [done|]. split; cbn [with_headers rq_method rq_target rq_headers rq_body h_name h_value].
  - done.
  - by exists h.
  - done.
  - intros n Hin. match goal with |- context [?x :: keep_other ?a ?b] => change (x :: keep_other a b) with ([x] ++ keep_other a b) end.
    rewrite !values_app, !keep_other_values by done. rewrite <- !values_app. apply (replaced_values _ _ h); [done| |done|done].
    by eapply unframed_eq.
  - done.
Qed.
End head.

(** ** What a flow forwards *)

Lemma parsed_accepted r : parsed r -> exists hs, accepted r hs.
Proof.
  intros (buf & n & Hp). unfold parse_request in Hp. destruct (is_h2_preface_start buf); [done|].
  apply result_bind_Ok in Hp as ([head_len|] & _ & Hp); [|done]. apply result_bind_Ok in Hp as (r' & Hr & Hp).
  injection Hp as -> _. by apply request_of_lines_inv in Hr.
Qed.
Lemma accepted_headers r hs : accepted r hs -> Forall header_ok (rq_headers r).
Proof. intros Hac. pose proof (st_ok _ _ (strip_h2c_spec hs) (ac_headers _ _ Hac)) as Hok. by rewrite <- (ac_strip _ _ Hac) in Hok. Qed.

Section flow.
Context `{HandleCrypto} `{HeaderFields} `{StandardBase64} {W : Type} `{SignInWorld W} `{!FlowWorld W}.

(** What a request may be forwarded as, in the world it is decided in:
    itself, when no header of it holds a sealed value; or with its one sealed
    value replaced by what that value is redeemable for. *)
Inductive earned (fl : Flow) (w : W) (rq rq' : Request) : Prop :=
| EarnedPlain :
    (forall k h, rq_headers rq !! k = Some h -> sealed_in k (h_value h) = None) -> rq' = rq -> earned fl w rq rq'
| EarnedSignIn a o claims subject tok renewed new :
    carried rq = CaSealed a ->
    redeemable (redeemer_of w) (fl_box_id fl) (fl_authority fl) (request_authority rq) (sa_value a) subject (clock w) o claims ->
    mb_kind (op_member o) = MkSignIn -> token_of (in_flight w) w (clock w) (cl_id claims) tok renewed ->
    substitute rq a tok = Ok rq' -> eq_ignore_case (h_name new) (bytes "authorization") = true ->
    head_changed rq rq' (sa_header a) new -> earned fl w rq rq'
| EarnedStore a o claims subject store id form w1 value new :
    carried rq = CaSealed a ->
    redeemable (redeemer_of w) (fl_box_id fl) (fl_authority fl) (request_authority rq) (sa_value a) subject (clock w) o claims ->
    mb_kind (op_member o) = MkStore -> split_once ":"%char (claims_identifier claims) = Some (store, id) -> cl_inject claims = Some form ->
    store_placed rq a form = true -> store_name = Some store -> store_read w id = (w1, Ok value) ->
    inject rq (sa_header a) form value (other_basic_field a) = Ok rq' -> h_name new = store_header form ->
    head_changed rq rq' (sa_header a) new -> earned fl w rq rq'.

Lemma placed_named rq a form h : store_placed rq a form = true -> rq_headers rq !! sa_header a = Some h ->
  eq_ignore_case (h_name h) (store_header form) = true.
Proof.
  unfold store_placed, header_named. intros Hp Hl. rewrite Hl in Hp. destruct form as [n p|f]; cbn in *.
  - unfold name_is, eq_ignore_case in *. apply bool_decide_eq_true_1 in Hp. apply bool_decide_eq_true_2. by rewrite lower_idem.
  - by apply andb_prop in Hp as [Hp _].
Qed.

(** A decision that forwards has checked the box's egress and the request's
    authority, and earned what it forwards. *)
Lemma decide_earned fl s rq s' rq' inj : base64_printable -> parsed rq -> decide_injected fl s rq = (s', Ok (rq', inj)) ->
  fl_authority fl ∈ redeemer_egress (redeemer_of (fs_world s)) (fl_box_id fl) /\ pins (request_authority rq) (fl_authority fl) = true /\
  earned fl (fs_world s) rq rq'.
Proof.
  intros Hb64 (hs & Hac)%parsed_accepted. pose proof (accepted_headers _ _ Hac) as Hok.
  unfold decide_injected, decide_plain, request_check. destruct (holds _ _) eqn:Heg; [|done]. cbn [negb].
  destruct (pins _ _) eqn:Hpins; [|done]. cbn [negb]. intros Hd. apply holds_iff in Heg. split; [done|]. split; [done|].
  destruct (carried rq) as [a| | |] eqn:Hc; [|injection Hd as _ <- _; apply EarnedPlain; [apply carried_plain; auto|done]|done
    |injection Hd as _ <- _; apply EarnedPlain; [apply carried_plain; auto|done]].
  destruct (carried_sealed rq a Hc) as (h & Hl & _). assert (header_ok h) as Hh by (eapply (proj1 (list.Forall_forall _ _) Hok), list_elem_of_lookup_2, Hl).
  unfold decide_sealed in Hd. destruct (redeem_attributed _ _ _ _ _ _ _ _ _) as [rn [[red jti] subject]] eqn:Er.
  apply redeem_gives in Er. unfold redeem_outcome in Er. destruct red as [[cred identifier mapping renewed marker cohort|marker]|admit_].
  - destruct Er as (o & claims & Hr & Hk & _ & _ & _ & Htok). unfold substitute_sign_in in Hd. rewrite Hl in Hd.
    destruct (name_is h "authorization") eqn:Ha; [|done]. destruct (substitute rq a cred) as [rq2|] eqn:Es; [|done]. injection Hd as _ <- _.
    destruct (substitute_head rq a h cred rq2 Hb64 Hc Hl Ha Hh Es) as (new & Hn & Hch). apply (EarnedSignIn fl _ rq rq2 a o claims subject cred renewed new); try done. by rewrite Hn.
  - done.
  - destruct Er as (-> & o & claims & Hr & Hk & Hid & Hi & _). unfold inject_store in Hd.
    destruct (store_placed rq a (sad_inject admit_)) eqn:Hp; [|done]. cbn [negb] in Hd. unfold read_store in Hd.
    case_bool_decide as Hn; [|done]. change (fs_world (set_renew s (fs_renew s))) with (fs_world s) in Hd.
    destruct (store_read (fs_world s) (sad_id admit_)) as [w1 [value|e]] eqn:Esr; [|done].
    destruct (inject _ _ _ _ _) as [rq2|] eqn:Ei; [|done]. injection Hd as _ <- _.
    destruct (inject_head rq _ h _ _ _ _ Hb64 Hl (placed_named _ _ _ _ Hp Hl) Ei) as (new & Hnew & Hch). by eapply EarnedStore.
Qed.

Lemma earned_body fl w rq rq' : earned fl w rq rq' -> rq_body rq' = rq_body rq /\ framing_kept (rq_headers rq) (rq_headers rq').
Proof. intros He. destruct He; [by subst|..]; match goal with Hch : head_changed _ _ _ _ |- _ => destruct Hch end; naive_solver. Qed.

(** ** Audit records *)

(** The records a decision leaves: its own last, and before it the renewal
    it paid for, if any. *)
Definition decision_records (fl : Flow) (d : result string (Request * option (list Z))) (recs : list AuditDecision) : Prop :=
  exists pre r, recs = pre ++ [r] /\ Forall (fun p => ad_marker p = Some SIGN_IN_RENEWED) pre /\ (length pre <= 1)%nat /\
    Forall (fun p => ad_kind p = KDecision /\ ad_authority p = show_authority (fl_authority fl)) recs /\
    match d with Ok _ => ad_outcome r = OutAdmit | Err m => ad_outcome r = OutRefuse /\ ad_marker r = Some m end.

Lemma one_record (fl : Flow) d r : ad_kind r = KDecision -> ad_authority r = show_authority (fl_authority fl) ->
  match d with Ok _ => ad_outcome r = OutAdmit | Err m => ad_outcome r = OutRefuse /\ ad_marker r = Some m end -> decision_records fl d [r].
Proof. intros Hk Ha Hd. exists [], r. split; [done|]. split; [constructor|]. split; [cbn; lia|]. split; [by repeat constructor|done]. Qed.

Lemma decide_records fl s rq s' d : decide_injected fl s rq = (s', d) ->
  fs_sent s' = fs_sent s /\ exists recs, fs_audit s' = fs_audit s ++ recs /\ decision_records fl d recs.
Proof.
  unfold decide_injected. destruct (decide_plain _ _ _) as [[]|check].
  2:{ intros [= <- <-]. split; [done|]. eexists. split; [reflexivity|]. by apply one_record. }
  destruct (carried rq) as [a| | |]; try (intros [= <- <-]; split; [done|]; eexists; split; [reflexivity|]; by apply one_record).
  unfold decide_sealed. destruct (redeem_attributed _ _ _ _ _ _ _ _ _) as [rn [[red jti] subject]].
  destruct red as [[cred identifier mapping renewed marker cohort|marker]|admit_].
  - unfold substitute_sign_in. intros Hd.
    assert (exists r, s' = record_for fl (if renewed then record_for fl (set_renew s rn) subject OutAdmit (Some SIGN_IN_RENEWED) (Some identifier) jti mapping else set_renew s rn)
              subject (ad_outcome r) (ad_marker r) (Some identifier) jti mapping /\
            match d with Ok _ => ad_outcome r = OutAdmit | Err m => ad_outcome r = OutRefuse /\ ad_marker r = Some m end) as (r & -> & Hr).
    { match type of Hd with match ?x with _ => _ end = _ => destruct x as [rq2|m] end; injection Hd as <- <-.
      - by exists {| ad_kind := KDecision; ad_box_id := ""; ad_authority := ""; ad_identifier := None; ad_jti := ""; ad_mapping := mapping; ad_outcome := OutAdmit; ad_marker := marker |}.
      - by exists {| ad_kind := KDecision; ad_box_id := ""; ad_authority := ""; ad_identifier := None; ad_jti := ""; ad_mapping := mapping; ad_outcome := OutRefuse; ad_marker := Some m |}. }
    destruct renewed; (split; [done|]); eexists; cbn; rewrite <- ?app_assoc; (split; [reflexivity|]); [|by apply one_record].
    eexists [_], _. split; [reflexivity|]. split; [by repeat constructor|]. split; [cbn; lia|]. split; [by repeat constructor|]. by destruct d.
  - intros [= <- <-]. split; [done|]. eexists. split; [reflexivity|]. by apply one_record.
  - unfold inject_store. intros Hd.
    match type of Hd with context [let '(_, _) := (if ?x then ?y else ?z) in _] => destruct (if x then y else z) as [s2 [rq2|m]] eqn:Es end.
    all: assert (fs_audit s2 = fs_audit s /\ fs_sent s2 = fs_sent s) as [Ea Ese].
    1,3: revert Es; unfold read_store; destruct (negb _); [intros [= <- <-] || intros [= <-]; done|]; case_bool_decide;
      [destruct (store_read _ _) as [w1 [v|e]]|]; intros [= <- _]; done.
    all: injection Hd as <- <-; (split; [done|]); eexists; cbn; rewrite Ea; (split; [reflexivity|]); by apply one_record.
Qed.

(** ** The head upstream *)

(** The lines of a head whose headers are those of an accepted one, and one
    new header of one line. *)
Lemma changed_lines rq rq' hs i new : accepted rq hs -> head_changed rq rq' i new ->
  Forall line_ok (map header_line (rq_headers rq')) /\ Forall (fun l => l <> []) (map header_line (rq_headers rq')).
Proof.
  intros Hac [_ _ -> _ (Hne & Htc & Hv)]. pose proof (accepted_headers _ _ Hac) as Hok.
  match goal with |- Forall line_ok (map _ ?l) /\ _ => assert (Forall (fun h => line_ok (header_line h) /\ header_line h <> []) l) as Hall end.
  { apply list.Forall_forall. intros h [[_ Hin]%elem_of_keep_other|[->%list_elem_of_singleton|[_ Hin]%elem_of_keep_other]%elem_of_app]%elem_of_app.
    - apply header_line_ok. eapply (proj1 (list.Forall_forall _ _) Hok), elem_of_take_drop_sub. by left.
    - unfold header_line. split; [|by destruct (h_name new)]. rewrite !line_ok_app. split; [by apply tchar_line|]. split; [|done].
      by apply field_line.
    - apply header_line_ok. eapply (proj1 (list.Forall_forall _ _) Hok), elem_of_take_drop_sub. by right. }
  split; apply list.Forall_fmap; (eapply list.Forall_impl; [exact Hall|]); by intros ? [??].
Qed.

(** What a credential changes of the headers: nothing, or the one header that
    holds the sealed value, which a header of the same name replaces where it
    stood; every other header stays, in its order, less any other of that
    name. *)
Definition headers_replaced (rq rq' : Request) : Prop :=
  rq_headers rq' = rq_headers rq \/
  exists a old new, carried rq = CaSealed a /\ rq_headers rq !! sa_header a = Some old /\ eq_ignore_case (h_name old) (h_name new) = true /\
    rq_headers rq' = keep_other (h_name new) (take (sa_header a) (rq_headers rq)) ++ [new] ++ keep_other (h_name new) (drop (S (sa_header a)) (rq_headers rq)).
Lemma changed_replaced rq rq' a new : carried rq = CaSealed a -> head_changed rq rq' (sa_header a) new -> headers_replaced rq rq'.
Proof. intros Hc [_ (old & Hl & Hn) Hh _ _]. right. by exists a, old, new. Qed.

(** C15: the upstream reads one head.  Whatever bytes follow, the head a
    decided request is written as ends where it was written to end, or, when
    the credential made it longer than a head may be, is refused as too large;
    its lines are the accepted request line and one line for each header; the
    headers are those of the request with at most its one sealed header
    replaced in place by one of the same name, others of that name dropped;
    the framing is the one the request was accepted with, and so is the
    host. *)
Theorem credentialed_head_framed fl s rq s' rq' inj rest :
  base64_printable -> parsed rq -> decide_injected fl s rq = (s', Ok (rq', inj)) ->
  let bs := serialize_request rq' ++ rest in let n := length (serialize_request rq') in
  head_end bs = (if (n <=? MAX_HEAD_LEN)%nat then Ok (Some n) else Err HeadTooLarge) /\
  head_lines (take (n - 4) bs) = map Ok (request_line rq :: map header_line (rq_headers rq')) /\
  headers_replaced rq rq' /\
  framing (rq_headers rq') = Ok (rq_body rq) /\ values (rq_headers rq') "host" = values (rq_headers rq) "host".
Proof.
  intros Hb64 Hp Hd. destruct (decide_earned _ _ _ _ _ _ Hb64 Hp Hd) as (_ & _ & He).
  destruct (earned_body _ _ _ _ He) as [_ Hk]. destruct (parsed_accepted _ Hp) as (hs & Hac).
  destruct (request_line_ok _ _ Hac) as (Hline & _ & _).
  assert (request_line rq' = request_line rq /\ headers_replaced rq rq' /\
      Forall line_ok (map header_line (rq_headers rq')) /\ Forall (fun l => l <> []) (map header_line (rq_headers rq')))
    as (Hl & Hrep & Hls & Hnes).
  { destruct He as [_ ->|? ? ? ? ? ? ? ? ? ? ? ? ? Hch|? ? ? ? ? ? ? ? ? ? ? ? ? ? ? ? ? ? ? ? Hch].
    { split; [done|]. split; [by left|]. apply header_lines_ok. by eapply accepted_headers. }
    all: split; [unfold request_line; by destruct Hch as [(-> & -> & _) _ _ _ _]|]; split; [by eapply changed_replaced|by eapply changed_lines]. }
  cbn zeta. rewrite serialize_lines. rewrite take_head_lines, <- Hl. split; [apply head_end_exact; [rewrite Hl; by constructor|done]|].
  split; [apply head_lines_join; [done|rewrite Hl; by constructor]|]. split; [done|].
  split; [|apply Hk; apply (bool_decide_unpack _); by vm_compute]. rewrite (framing_of_values (rq_headers rq)) by done.
  rewrite (ac_strip _ _ Hac). destruct (ac_checks _ _ Hac) as [Hf _ _]. by apply (framing_stripped hs); [apply strip_h2c_spec|].
Qed.

(** ** The whole flow *)

Context {U : Type} `{WriteLaws U}.

(** One message the upstream gets: the world it was decided in, the request
    as read, as written, and its body. *)
Record Exchange : Type := { x_world : W; x_read : Request; x_sent : Request; x_body : list Z }.
Definition exchange_bytes (x : Exchange) : list Z := serialize_request (x_sent x) ++ x_body x.
Record exchange_ok (fl : Flow) (x : Exchange) : Prop := {
  xo_parsed : parsed (x_read x);
  xo_egress : fl_authority fl ∈ redeemer_egress (redeemer_of (x_world x)) (fl_box_id fl);
  xo_pinned : pins (request_authority (x_read x)) (fl_authority fl) = true;
  xo_earned : earned fl (x_world x) (x_read x) (x_sent x);
  xo_body : body_of (rq_body (x_read x)) (x_body x);
}.
(** The state a request leaves once its head is on its way. *)
Definition after_sent (s : FlowState (W := W)) (injected : option (list Z)) (rq : Request) : FlowState :=
  push_sent s (sent_of (zeroize_credential injected rq)).

(** The messages of a flow, from the bytes the client sends: each is read
    where the one before it ended, decided in the state that one left and the
    world as it then is, and forwarded as decided, with its own body. *)
Inductive flow_trace (fl : Flow) : FlowState -> list Z -> list Exchange -> FlowState -> list Z -> Prop :=
| ft_end s input : flow_trace fl s input [] s input
| ft_step s input x n s1 inj rest xs s' input' :
    parse_request input = Ok (Complete (x_read x) n) -> x_world x = fs_world (elapsed s) ->
    decide_injected fl (elapsed s) (x_read x) = (s1, Ok (x_sent x, inj)) ->
    body_sent (rq_body (x_read x)) (drop n input) (x_body x) rest ->
    flow_trace fl (after_sent s1 inj (x_sent x)) rest xs s' input' ->
    flow_trace fl s input (x :: xs) s' input'.

(** How a flow ends, in the state and with the bytes its messages left: the
    last message switched protocols; no further head is read; or the next
    request is refused with nothing written, or was forwarded as decided and
    its message cut short. *)
Definition flow_end (fl : Flow) (s : FlowState (W := W)) (input : list Z) (s' : FlowState) (e : HalfEnd) (tail : list Z) : Prop :=
  (s' = s /\ tail = [] /\ exists pending, e = HeClosed (ProtocolSwitch pending)) \/
  match parse_request input with
  | Err reason => e = HeClosed reason /\ tail = []
  | Ok Partial => tail = [] /\ exists reason, e = HeClosed reason
  | Ok (Complete rq n) =>
      match decide_injected fl (elapsed s) rq with
      | (s1, Err marker) => s' = s1 /\ tail = [] /\ exists r, e = HeRefused r /\ cr_marker r = marker
      | (s1, Ok (rq', inj)) =>
          s' = after_sent s1 inj rq' /\ (exists reason, e = HeClosed reason) /\
          exists body, exchange_ok fl {| x_world := fs_world (elapsed s); x_read := rq; x_sent := rq'; x_body := body |} /\
            tail `prefix_of` serialize_request rq' ++ body
      end
  end.

Lemma write_head_spec (u : U) h u' e : write_head u h = (u', e) ->
  match e with None => written u' = written u ++ h | Some _ => exists p, p `prefix_of` h /\ written u' = written u ++ p end.
Proof.
  unfold write_head. pose proof (write_all_ok u h) as Hok. pose proof (write_all_err u h) as Herr.
  destruct (write_all u h) as [u1 [k|]]; cbn in Hok, Herr; [intros [= <- <-]; by apply (Herr k)|]. specialize (Hok eq_refl).
  pose proof (flush_keeps u1) as Hf. destruct (flush u1) as [u2 [k|]]; cbn in Hf; intros [= <- <-]; rewrite Hf; [by exists h|done].
Qed.

Lemma relay_same_body rq rq2 rest client (u : U) : rq_body rq2 = rq_body rq ->
  relay_request_body {| fw_request := rq2; fw_rest := rest |} client u = relay_request_body {| fw_request := rq; fw_rest := rest |} client u.
Proof. unfold relay_request_body. cbn [fw_request fw_rest]. intros E. rewrite E. reflexivity. Qed.

(** What is on record when a flow ends. *)
Definition end_records (fl : Flow) (e : HalfEnd) (last : list AuditDecision) : Prop :=
  match e with
  | HeRefused r => cr_body r = refusal_body (fl_authority fl) (cr_marker r) /\ decision_records fl (Err (cr_marker r)) last
  | HeClosed reason => last = [] \/ exists m, audit_marker reason = Some m /\ decision_records fl (Err m) last
  end.
Record flow_result (fl : Flow) (s s' : FlowState (W := W)) (input : list Z) (u u' : U) (any : bool) (e : HalfEnd) (xs : list Exchange) (tail : list Z)
    (recss : list (list AuditDecision)) (last : list AuditDecision) : Prop := {
  fr_messages : Forall (exchange_ok fl) xs;
  fr_trace : exists s_last input_last, flow_trace fl s input xs s_last input_last /\ flow_end fl s_last input_last s' e tail;
  fr_written : written u' = written u ++ (xs ≫= exchange_bytes) ++ tail;
  fr_audit : fs_audit s' = fs_audit s ++ concat recss ++ last;
  fr_admitted : Forall (fun recs => exists q, decision_records fl (Ok q) recs) recss;
  fr_sent : exists sents, fs_sent s' = fs_sent s ++ sents /\ length sents = length recss /\ (length xs <= length sents <= S (length xs))%nat;
  fr_last : end_records fl e last;
  fr_refused : forall r, e = HeRefused r -> tail = [] /\ length recss = length xs /\ cr_after_forwarded r = any || bool_decide (xs <> []);
}.

Lemma result_none fl s s' input (u : U) any e last : flow_end fl s input s' e [] -> fs_audit s' = fs_audit s ++ last -> fs_sent s' = fs_sent s ->
  end_records fl e last -> (forall r, e = HeRefused r -> cr_after_forwarded r = any) -> flow_result fl s s' input u u any e [] [] [] last.
Proof.
  intros Hend Ha Hs Hl Hr. split; [constructor| |by rewrite !app_nil_r|done|constructor| |done|].
  - exists s, input. split; [constructor|done].
  - exists []. rewrite app_nil_r. cbn [length]. split; [done|lia].
  - intros r He. rewrite (Hr r He), bool_decide_false, orb_false_r by (by intros []). done.
Qed.

Lemma result_one fl s s' input (u u1 : U) any reason recs tail : flow_end fl s input s' (HeClosed reason) tail ->
  (exists q, decision_records fl (Ok q) recs) -> fs_audit s' = fs_audit s ++ recs -> (exists x, fs_sent s' = fs_sent s ++ [x]) ->
  written u1 = written u ++ tail -> flow_result fl s s' input u u1 any (HeClosed reason) [] tail [recs] [].
Proof.
  intros Hend Hr Ha [x Hx] Hw. split; [constructor| |done|cbn; by rewrite !app_nil_r|by repeat constructor|exists [x]; cbn; split; [done|lia]|by left|done].
  exists s, input. split; [constructor|done].
Qed.

Lemma result_cons fl s s1 s' input rest (u u1 u' : U) any e x n inj xs tail recs recss last :
  parse_request input = Ok (Complete (x_read x) n) -> x_world x = fs_world (elapsed s) ->
  decide_injected fl (elapsed s) (x_read x) = (s1, Ok (x_sent x, inj)) -> body_sent (rq_body (x_read x)) (drop n input) (x_body x) rest ->
  exchange_ok fl x -> (exists q, decision_records fl (Ok q) recs) -> fs_audit s1 = fs_audit s ++ recs -> fs_sent s1 = fs_sent s ->
  written u1 = written u ++ exchange_bytes x ->
  flow_result fl (after_sent s1 inj (x_sent x)) s' rest u1 u' true e xs tail recss last ->
  flow_result fl s s' input u u' any e (x :: xs) tail (recs :: recss) last.
Proof.
  intros Hp Hxw Hd Hb Hx Hr Ha Hz Hw [Hm (sl & il & Htr & Hend) Hw' Ha' Had (sents & Hs & Hl & Hn) He Href]. split; try done.
  - by constructor.
  - exists sl, il. split; [by eapply ft_step|done].
  - rewrite Hw', Hw. cbn [mbind list_bind]. by rewrite <- !app_assoc.
  - rewrite Ha'. cbn [after_sent push_sent fs_audit]. rewrite Ha. cbn [concat]. by rewrite <- !app_assoc.
  - by constructor.
  - eexists (_ :: sents). rewrite Hs. cbn [after_sent push_sent fs_sent]. rewrite Hz, <- app_assoc. cbn. split; [reflexivity|lia].
  - intros r Hre. destruct (Href r Hre) as (-> & Hl2 & ->). cbn [length orb]. rewrite Hl2. split; [done|]. split; [done|]. by rewrite bool_decide_true, orb_true_r.
Qed.

(** What reading a head takes from the client. *)
Lemma read_head_taken pending client client' res : read_head parse_request pending client = (client', res) ->
  match res with
  | Ok (rq, rest) => exists n, parse_request (pending ++ (stream client).1) = Ok (Complete rq n) /\
      rest ++ (stream client').1 = drop n (pending ++ (stream client).1)
  | Err reason => parse_request (pending ++ (stream client).1) = Ok Partial \/ parse_request (pending ++ (stream client).1) = Err reason
  end.
Proof.
  intros Hr. pose proof (read_head_stream parse_request client pending parse_request_stable) as Hs. rewrite Hr in Hs.
  destruct (parse_request (pending ++ (stream client).1)) as [[h n|]|e].
  - destruct Hs as (rest & -> & Hrest & _). by exists n.
  - subst res. by left.
  - subst res. by right.
Qed.

Lemma credential_loop_spec fuel fl s pending client (u : U) any : base64_printable ->
  (length pending + reader_size client < fuel)%nat ->
  exists s' client' u' e, credential_loop fuel fl s pending client u any = Done (s', client', u', e) /\
    exists xs tail recss last, flow_result fl s s' (pending ++ (stream client).1) u u' any e xs tail recss last.
Proof.
  intros Hb64. revert s pending client u any. induction fuel as [|fuel IH]; intros s pending client u any Hfuel; [lia|].
  cbn [credential_loop]. destruct (read_head parse_request pending client) as [c1 [[rq rest]|reason]] eqn:Hr; pose proof (read_head_taken _ _ _ _ Hr) as Htk.
  2:{ eexists _, _, _, _. split; [reflexivity|]. exists [], [], [].
      assert (forall s1, flow_end fl s (pending ++ (stream client).1) s1 (HeClosed reason) []) as Hend.
      { intros s1. right. destruct Htk as [->| ->]; eauto. }
      destruct (audit_marker reason) as [m|] eqn:Em.
      - eexists. apply result_none; [apply Hend|reflexivity|done| |done]. right. exists m. split; [done|]. by apply one_record.
      - exists []. apply result_none; [apply Hend|by rewrite app_nil_r|done|by left|done]. }
  destruct Htk as (n & Hparse & Hrest).
  apply read_head_size in Hr as [Hp Hsz]. destruct (decide_injected fl (elapsed s) rq) as [s1 d] eqn:Hd.
  destruct (decide_records _ _ _ _ _ Hd) as (Hsent & recs & Haud & Hrecs). cbn [elapsed set_renew fs_audit fs_sent] in Hsent, Haud.
  destruct d as [[rq' inj]|m].
  2:{ eexists _, _, _, _. split; [reflexivity|]. exists [], [], [], recs. apply result_none; [|done|done|done|by intros r [= <-]].
      right. rewrite Hparse, Hd. eauto. }
  destruct (decide_earned _ _ _ _ _ _ Hb64 Hp Hd) as (Heg & Hpin & Hearn). destruct (earned_body _ _ _ _ Hearn) as [Hbody _].
  destruct (write_head u (serialize_request rq')) as [u1 e] eqn:Hw. apply write_head_spec in Hw.
  destruct (parsed_body_exists rq Hp) as [b0 Hb0].
  assert (forall b, body_of (rq_body rq) b -> exchange_ok fl {| x_world := fs_world (elapsed s); x_read := rq; x_sent := rq'; x_body := b |}) as Hxo by done.
  assert (forall reason tail b, body_of (rq_body rq) b -> tail `prefix_of` serialize_request rq' ++ b ->
    flow_end fl s (pending ++ (stream client).1) (after_sent s1 inj rq') (HeClosed reason) tail) as Hend.
  { intros reason tail b Hb Hpre. right. rewrite Hparse, Hd. split; [done|]. split; [eauto|]. exists b. split; [by apply Hxo|done]. }
  assert (exists z, fs_sent (after_sent s1 inj rq') = fs_sent s ++ [z]) as Hz by (cbn; rewrite Hsent; eauto).
  destruct e as [k|].
  { destruct Hw as (p & Hpre & Hw). eexists _, _, _, _. split; [reflexivity|]. exists [], p, [recs], [].
    apply result_one; [|by eexists|done|done|done]. apply (Hend _ _ b0); [done|by apply prefix_app_r]. }
  rewrite (relay_same_body rq) by (cbn; exact Hbody).
  destruct (relay_request_body_spec {| fw_request := rq; fw_rest := rest |} c1 u1 Hp) as (c2 & u2 & res & Hrun & (p & Hw2 & Hb) & Hsz2). rewrite Hrun, bind_Done.
  cbn [fw_request fw_rest] in Hb, Hsz2. destruct res as [rest2|reason].
  2:{ destruct Hb as (b & Hb & Hpre). eexists _, _, _, _. split; [reflexivity|]. exists [], (serialize_request rq' ++ p), [recs], [].
      apply result_one; [|by eexists|done|done|by rewrite Hw2, Hw, <- app_assoc]. apply (Hend _ _ b); [done|by apply prefix_app]. }
  apply relay_request_body_sent in Hrun as (q & Hq & Hbs); [|done]. rewrite Hw2 in Hq. apply app_inv_head in Hq as <-. cbn [fw_request fw_rest] in Hbs. rewrite Hrest in Hbs.
  set (x := {| x_world := fs_world (elapsed s); x_read := rq; x_sent := rq'; x_body := p |}).
  assert (written u2 = written u ++ exchange_bytes x) as Hw3 by (by rewrite Hw2, Hw, <- app_assoc).
  destruct (switches_protocol _).
  - eexists _, _, _, _. split; [reflexivity|]. exists [x], [], [recs], [].
    eapply (result_cons fl s s1 _ _ _ u u2 u2 any _ x n inj); [exact Hparse|done|exact Hd|exact Hbs|by apply Hxo|by eexists|done|done|done|].
    apply result_none; [|cbn; by rewrite app_nil_r|done|by left|done]. left. eauto.
  - destruct (IH (after_sent s1 inj rq') rest2 c2 u2 true ltac:(lia)) as (s' & c' & u' & e & Hrun2 & xs & tail & recss & last & Hres). unfold after_sent in Hrun2 at 1. rewrite Hrun2.
    eexists _, _, _, _. split; [reflexivity|]. exists (x :: xs), tail, (recs :: recss), last.
    by eapply (result_cons fl s s1 _ _ _ u u2 u' any _ x n inj); [exact Hparse|done|exact Hd|exact Hbs|apply Hxo|eexists|..].
Qed.

(** C5: the upstream of a credentialed flow gets only what was earned.  Whatever
    the box sends and whatever changes on the host between its requests, the
    request half ends, and what it wrote is the messages of the client's bytes,
    in their order: each parsed where the one before it ended, decided in the
    world of that moment, and written as decided, itself when it holds no
    sealed value and else with its one sealed value replaced by the credential
    or stored secret it was redeemable for, before its own body; then at most
    one more such message cut short, which is the next request of those bytes.
    Every head written is on record as admitted before it is written, and a
    refused request is the next one and writes nothing. *)
Theorem flow_forwards_earned fl s client (u : U) : base64_printable ->
  exists s' client' u' e, forward_credentialed fl s client u = Done (s', client', u', e) /\
    exists xs tail recss last, flow_result fl s s' (stream client).1 u u' false e xs tail recss last.
Proof. intros Hb64. apply (credential_loop_spec _ fl s [] client u false Hb64). cbn. lia. Qed.
End flow.

(** ** Stored secrets and the client's rules *)

Section rules.
Context `{HandleCrypto} `{HeaderFields} `{StandardBase64} {W : Type} `{SignInWorld W} `{!FlowWorld W}.




End rules.
