(* ===== verification/CredentialSample.v ===== *)
(** * A host to evaluate the credential flow on

    Concrete functions for the libraries the proxy calls: keys of one bit, a
    checksum for a signature, two letters a byte for base64 and marked bytes
    for JSON.  They satisfy the laws the theorems ask for, and the witnesses
    evaluate on them. *)

From stdpp Require Import base list gmap strings numbers.
From Stdlib Require Import ZArith Lia Ascii.
From S2P Require Import Prelude Text Bytes Http HttpProps HttpRelay HttpRelayProps Envelope Handle Redeem SignIn StoreRules AuditChain Redeemer SingleFlight CredentialFlow CredentialProps.
Open Scope Z_scope.

Module CredentialSample.

(** ** Fields *)

(** A list of byte strings as one: each byte after a 1, each end a 0. *)
Definition put_item (bs : list Z) : list Z := (bs ≫= fun b => [1; b]) ++ [0].
Definition put_items (l : list (list Z)) : list Z := l ≫= put_item.
Fixpoint get_items (acc l : list Z) : list (list Z) :=
  match l with
  | 0 :: l => rev acc :: get_items [] l
  | 1 :: b :: l => get_items (b :: acc) l
  | _ => []
  end.

Lemma get_put_item bs : forall acc l, get_items acc (put_item bs ++ l) = (rev acc ++ bs) :: get_items [] l.
Proof.
  unfold put_item. induction bs as [|b bs IH]; intros acc l; cbn; [by rewrite app_nil_r|]. change (get_items (b :: acc) (put_item bs ++ l) = (rev acc ++ b :: bs) :: get_items [] l).
  unfold put_item. rewrite IH. cbn. by rewrite <- app_assoc.
Qed.
Lemma get_put_items l : get_items [] (put_items l) = l.
Proof. induction l as [|bs l IH]; [done|]. unfold put_items. cbn [mbind list_bind]. rewrite get_put_item. f_equal. exact IH. Qed.
Lemma put_items_bytes l : Forall byte_list l -> byte_list (put_items l).
Proof.
  intros Hl. induction Hl as [|bs l Hbs Hl IH]; [constructor|]. unfold put_items, put_item, byte_list. cbn [mbind list_bind]. apply list.Forall_app. split; [|exact IH].
  apply list.Forall_app. split; [|by repeat constructor]. clear IH. induction Hbs as [|b bs Hb Hbs IH]; cbn; [constructor|]. apply list.Forall_cons. split; [by split|]. apply list.Forall_cons. split; [done|exact IH].
Qed.

(** Text, numbers and optional text as byte strings. *)
Definition get_text (bs : list Z) : string := string_of bs.
Lemma get_bytes s : get_text (bytes s) = s.
Proof. apply string_of_bytes. Qed.
Lemma bytes_byte_list s : byte_list (bytes s).
Proof. apply bytes_u8. Qed.

Fixpoint put_pos (p : positive) : list Z := match p with xH => [2] | xO p => 0 :: put_pos p | xI p => 1 :: put_pos p end.
Fixpoint get_pos (l : list Z) : positive := match l with 0 :: l => xO (get_pos l) | 1 :: l => xI (get_pos l) | _ => xH end.
Definition put_Z (n : Z) : list Z := match n with Z0 => [] | Zpos p => 0 :: put_pos p | Zneg p => 1 :: put_pos p end.
Definition get_Z (l : list Z) : Z := match l with [] => 0 | 0 :: l => Zpos (get_pos l) | _ :: l => Zneg (get_pos l) end.
Lemma get_put_pos p : get_pos (put_pos p) = p.
Proof. induction p as [p IH|p IH|]; cbn; by rewrite ?IH. Qed.
Lemma get_put_Z n : get_Z (put_Z n) = n.
Proof. destruct n; cbn; by rewrite ?get_put_pos. Qed.
Lemma put_Z_bytes n : byte_list (put_Z n).
Proof.
  assert (forall p, byte_list (put_pos p)) as Hp by (induction p; cbn; repeat constructor; unfold byte_list in *; by try lia).
  destruct n; cbn; [constructor|constructor; [done|apply Hp]..].
Qed.

Definition put_opt {A} (put : A -> list Z) (o : option A) : list Z := match o with None => [] | Some a => 1 :: put a end.
Definition get_opt {A} (get : list Z -> A) (l : list Z) : option A := match l with [] => None | _ :: l => Some (get l) end.
Lemma get_put_opt {A} (put : A -> list Z) get o : (forall a, get (put a) = a) -> get_opt get (put_opt put o) = o.
Proof. intros Hg. destruct o as [a|]; cbn; by rewrite ?Hg. Qed.
Lemma put_opt_bytes {A} (put : A -> list Z) o : (forall a, byte_list (put a)) -> byte_list (put_opt put o).
Proof. intros Hp. destruct o; [constructor; [done|apply Hp]|constructor]. Qed.

Create HintDb sample.
#[local] Hint Resolve bytes_byte_list put_Z_bytes put_opt_bytes : sample.
Ltac items_bytes := apply put_items_bytes; repeat constructor; auto with sample.

(** ** Base64 *)

Definition letter (n : Z) : ascii := ascii_of_nat (Z.to_nat (97 + n)).
Definition letter_value (c : ascii) : Z := Z.of_nat (nat_of_ascii c) - 97.
Definition put_base (l : list Z) : string := foldr (fun b s => String (letter (b / 16)) (String (letter (b mod 16)) s)) EmptyString l.
Fixpoint get_base (s : string) : option (list Z) :=
  match s with
  | EmptyString => Some []
  | String a (String b s) => l ← get_base s; Some (letter_value a * 16 + letter_value b :: l)
  | _ => None
  end.
Lemma letter_back n : 0 <= n < 16 -> letter_value (letter n) = n.
Proof. intros Hn. unfold letter, letter_value. rewrite nat_ascii_embedding by lia. lia. Qed.
Lemma get_put_base l : byte_list l -> get_base (put_base l) = Some l.
Proof.
  intros Hl. induction Hl as [|b l Hb Hl IH]; [done|]. unfold put_base in *. cbn [foldr get_base]. rewrite IH. cbn [mbind option_bind]. unfold is_u8 in Hb.
  rewrite !letter_back by (split; [apply Z.div_pos; lia|apply Z.div_lt_upper_bound; lia] || (apply Z.mod_pos_bound; lia)). do 2 f_equal.
  rewrite Z.mul_comm. symmetry. apply Z.div_mod. lia.
Qed.
(** The letters, for whatever numbers. *)
Definition put_byte (b : Z) : Z := b mod 256.
Definition put_base64 (l : list Z) : string := put_base (map put_byte l).
Lemma letter_graphic n : 0 <= n < 16 -> is_graphic (code (letter n)) = true /\ letter n <> "."%char.
Proof.
  intros Hn. unfold code, letter. rewrite nat_ascii_embedding by lia. split; [unfold is_graphic, in_range; rewrite andb_true_iff, !Z.leb_le; lia|].
  intros E. apply (f_equal nat_of_ascii) in E. rewrite nat_ascii_embedding in E by lia. change (nat_of_ascii ".") with 46%nat in E. lia.
Qed.
Lemma put_base64_text l : str_contains "."%char (put_base64 l) = false /\ forallb is_graphic (bytes (put_base64 l)) = true.
Proof.
  unfold put_base64. induction l as [|b l [IH1 IH2]]; [done|]. cbn [map]. change (put_base (put_byte b :: map put_byte l)) with
    (String (letter (put_byte b / 16)) (String (letter (put_byte b mod 16)) (put_base (map put_byte l)))).
  assert (0 <= put_byte b < 256) as Hb by (unfold put_byte; apply Z.mod_pos_bound; lia).
  destruct (letter_graphic (put_byte b / 16)) as [G1 N1]; [split; [apply Z.div_pos; lia|apply Z.div_lt_upper_bound; lia]|].
  destruct (letter_graphic (put_byte b mod 16)) as [G2 N2]; [apply Z.mod_pos_bound; lia|].
  cbn [str_contains bytes forallb]. rewrite IH1, IH2, !bool_decide_false by done. unfold code in G1, G2. by rewrite G1, G2.
Qed.
Lemma get_put_base64 l : byte_list l -> get_base (put_base64 l) = Some l.
Proof.
  intros Hl. unfold put_base64. replace (map put_byte l) with l; [by apply get_put_base|]. induction Hl as [|b l Hb Hl IH]; [done|]. cbn. rewrite <- IH.
  unfold put_byte. by rewrite Z.mod_small.
Qed.

(** ** The envelope's libraries *)

Definition put_mode (m : Mode) : list Z := match m with ModeUser => [] | ModeInstallation => [1] end.
Definition get_mode (l : list Z) : Mode := match l with [] => ModeUser | _ => ModeInstallation end.
Definition put_header (h : JweHeader) : list Z :=
  put_items [bytes (jh_typ h); bytes (jh_alg h); bytes (jh_enc h); bytes (jh_kid h); bytes (jwk_kty (jh_epk h)); bytes (jwk_crv (jh_epk h));
             bytes (jwk_x (jh_epk h)); bytes (jwk_y (jh_epk h)); bytes (jh_box_id h); bytes (jh_host h); bytes (jh_module h);
             put_Z (jh_host_set_version h); put_mode (jh_mode h); put_Z (jh_iat h); put_Z (jh_exp h)].
Definition get_header (l : list Z) : option JweHeader :=
  match get_items [] l with
  | [typ; alg; enc; kid; kty; crv; x; y; box_id; host; module_; version; mode; iat; exp] =>
      Some {| jh_typ := get_text typ; jh_alg := get_text alg; jh_enc := get_text enc; jh_kid := get_text kid;
              jh_epk := {| jwk_kty := get_text kty; jwk_crv := get_text crv; jwk_x := get_text x; jwk_y := get_text y |};
              jh_box_id := get_text box_id; jh_host := get_text host; jh_module := get_text module_; jh_host_set_version := get_Z version;
              jh_mode := get_mode mode; jh_iat := get_Z iat; jh_exp := get_Z exp |}
  | _ => None
  end.
Definition put_member (m : WireMember) : list (list Z) :=
  [put_opt bytes (wm_kind m); put_opt bytes (wm_breadth m); bytes (wm_jws m); put_opt put_Z (wm_exp m)].
Fixpoint get_members (l : list (list Z)) : list WireMember :=
  match l with
  | k :: b :: j :: e :: l =>
      {| wm_kind := get_opt get_text k; wm_breadth := get_opt get_text b; wm_jws := get_text j; wm_exp := get_opt get_Z e |} :: get_members l
  | _ => []
  end.
Definition put_list (l : WireList) : list Z := put_items (put_opt bytes (wl_default_owner l) :: (wl_members l ≫= put_member)).
Definition get_list (l : list Z) : option WireList :=
  match get_items [] l with
  | owner :: members => Some {| wl_members := get_members members; wl_default_owner := get_opt get_text owner |}
  | [] => None
  end.
Definition sec1 (k : bool) : list Z := 4 :: replicate 63 0 ++ [Z.b2z k].
Definition ZERO_TAG : list Z := replicate TAG_LEN 0.

#[export] Instance sample_sha256 : Sha256 := {| sha256 l := [foldr Z.add 0 l mod 256; Z.of_nat (length l) mod 256] |}.
#[export] Instance sample_seal : SealCrypto := {|
  PublicKey := bool;
  SecretKey := bool;
  secret_from_slice l := match l with [0] => Some false | [1] => Some true | _ => None end;
  public_of k := k;
  diffie_hellman a b := [Z.b2z (a && b)];
  to_sec1_bytes := sec1;
  from_sec1_bytes l := Some (bool_decide (list.last l = Some 1));
  seal_sha256 := sample_sha256;
  aead_encrypt _ _ m _ := if bool_decide (byte_list m) then Some (m ++ ZERO_TAG) else None;
  aead_decrypt _ _ c _ := Some (take (length c - TAG_LEN) c);
  url_safe_encode := put_base64;
  url_safe_decode := get_base;
  write_jwe_header h := Some (put_header h);
  read_jwe_header := get_header;
  write_wire_list l := Some (put_list l);
  read_wire_list := get_list;
|}.

Lemma get_put_members l : get_members (l ≫= put_member) = l.
Proof.
  induction l as [|m l IH]; [done|]. cbn. rewrite IH, !get_put_opt, get_bytes by (apply get_bytes || apply get_put_Z). by destruct m.
Qed.

#[export] Instance sample_seal_laws : SealLaws.
Proof.
  split; cbn -[ZERO_TAG TAG_LEN sec1 put_header put_list get_header get_list put_base64].
  - intros a b. by rewrite andb_comm.
  - intros k. split; [done|]. split; [done|]. unfold sec1, byte_list. constructor; [done|]. apply list.Forall_app. split; [by apply Forall_replicate|]. by destruct k; repeat constructor.
  - intros []; reflexivity.
  - intros _ _ m _ c. case_bool_decide; [|done]. intros [= <-]. f_equal. rewrite length_app. change (length ZERO_TAG) with TAG_LEN.
    replace (length m + TAG_LEN - TAG_LEN)%nat with (length m) by lia. apply take_app_length.
  - intros _ _ m _ c. case_bool_decide as Hb; [|done]. intros [= <-]. rewrite length_app. change (length ZERO_TAG) with TAG_LEN. split; [lia|].
    apply list.Forall_app. split; [done|]. by apply Forall_replicate.
  - apply get_put_base64.
  - intros l. apply put_base64_text.
  - intros h j [= <-]. split.
    + unfold get_header, put_header. rewrite get_put_items, !get_bytes, !get_put_Z. destruct h as [? ? ? ? [] ? ? ? ? [] ? ?]; reflexivity.
    + unfold put_header. apply put_items_bytes. repeat constructor; auto with sample. by destruct (jh_mode h); repeat constructor.
  - intros l j [= <-]. unfold get_list, put_list. rewrite get_put_items, get_put_opt, get_put_members by apply get_bytes. by destruct l.
Qed.

(** ** The handle's libraries *)

Definition put_jws (h : JwsHeader) : list Z := put_items [bytes (jws_alg h); bytes (jws_typ h); bytes (jws_kid h)].
Definition get_jws (l : list Z) : option JwsHeader :=
  match get_items [] l with
  | [alg; typ; kid] => Some {| jws_alg := get_text alg; jws_typ := get_text typ; jws_kid := get_text kid |}
  | _ => None
  end.
Definition put_inject (i : option Inject) : list (list Z) :=
  match i with
  | None => [[]; []; []]
  | Some (InjHeader name prefix) => [[1]; bytes name; put_opt bytes prefix]
  | Some (InjBasicAuth field) => [[2]; bytes field; []]
  end.
Definition get_inject (kind name prefix : list Z) : option Inject :=
  match kind with
  | [1] => Some (InjHeader (get_text name) (get_opt get_text prefix))
  | [2] => Some (InjBasicAuth (get_text name))
  | _ => None
  end.
Definition put_claims (c : Claims) : list Z :=
  put_items ([bytes (cl_sub c); bytes (cl_node_id c); bytes (cl_store c); bytes (cl_id c); put_Z (cl_iat c); put_Z (cl_exp c); bytes (cl_jti c)]
             ++ put_inject (cl_inject c) ++ map bytes (cl_upstream c)).
Definition get_claims (l : list Z) : option Claims :=
  match get_items [] l with
  | sub :: node :: store :: id :: iat :: exp :: jti :: kind :: name :: prefix :: upstream =>
      Some {| cl_sub := get_text sub; cl_node_id := get_text node; cl_store := get_text store; cl_id := get_text id;
              cl_upstream := map get_text upstream; cl_inject := get_inject kind name prefix; cl_iat := get_Z iat; cl_exp := get_Z exp; cl_jti := get_text jti |}
  | _ => None
  end.
Definition checksum (key : bool) (m : list Z) : bool := xorb key (Z.odd (foldr Z.add 0 m)).

#[export] Instance sample_handle : HandleCrypto := {|
  SigningKey := bool;
  VerifyingKey := bool;
  Signature := bool;
  verifying_key k := k;
  verifying_from_sec1 := from_sec1_bytes;
  verifying_sec1 := sec1;
  sign_bytes := checksum;
  signature_bytes s := [Z.b2z s];
  signature_from_slice l := match l with [0] => Some false | [1] => Some true | _ => None end;
  verify_signature k m s := Bool.eqb s (checksum k m);
  write_jws_header := put_jws;
  read_jws_header := get_jws;
  write_claims := put_claims;
  read_claims := get_claims;
|}.

#[export] Instance sample_handle_laws : HandleLaws.
Proof.
  split; cbn -[put_jws get_jws put_claims get_claims].
  - intros k m. apply Bool.eqb_reflx.
  - intros []; (split; [done|by repeat constructor]).
  - intros h. split; [|unfold put_jws; items_bytes]. unfold get_jws, put_jws. rewrite get_put_items, !get_bytes. by destruct h.
  - intros c. split.
    + unfold get_claims, put_claims. rewrite get_put_items. assert (map get_text (map bytes (cl_upstream c)) = cl_upstream c) as Hu.
      { rewrite List.map_map. rewrite <- (List.map_id (cl_upstream c)) at 2. apply List.map_ext, get_bytes. }
      destruct c as [? ? ? ? ups [[name prefix|field]|] ? ? ?]; cbn in *; rewrite ?Hu, !get_bytes, !get_put_Z, ?get_put_opt by apply get_bytes; done.
    + unfold put_claims. apply put_items_bytes. apply list.Forall_app. split; [|apply list.Forall_app; split].
      * repeat constructor; auto with sample.
      * destruct (cl_inject c) as [[name prefix|field]|]; repeat constructor; auto with sample; lia.
      * apply list.Forall_fmap, list.Forall_forall. intros x _. apply bytes_byte_list.
Qed.

#[export] Instance sample_fields : HeaderFields := {|
  read_sub j := option_map jh_box_id (get_header j); read_typ j := option_map jh_typ (get_header j) |}.
#[export] Instance sample_base64 : StandardBase64 := {| std_encode := put_base64; std_decode := get_base |}.
Lemma sample_printable : base64_printable.
Proof. intros l. apply put_base64_text. Qed.

(** ** The host *)

Record SampleWorld : Type := {
  sw_item : option (Metadata * Material); sw_now : Z; sw_store : list (string * list Z); sw_revoked : list string; sw_rules : list StoreRule }.
Definition sw_put (w : SampleWorld) (item : Metadata * Material) : SampleWorld :=
  {| sw_item := Some item; sw_now := sw_now w; sw_store := sw_store w; sw_revoked := sw_revoked w; sw_rules := sw_rules w |}.
#[export] Instance sample_sign_in : SignInWorld SampleWorld := {|
  kc_metadata w := (w, Ok (option_map fst (sw_item w)));
  kc_material w := (w, Ok (option_map snd (sw_item w)));
  kc_write w md mt := (sw_put w (md, mt), Ok ());
  kc_update w md mt := (sw_put w (md, mt), Ok UpWritten);
  tk_refresh w _ _ := (w, Ok {| rf_access_token := "gho_new"; rf_refresh_token := "ghr_new"; rf_expires_in := 28800; rf_refresh_token_expires_in := 15897600 |});
  new_instance_id w := (w, Ok "0123456789abcdef0123456789abcdef"%string);
|}.

Definition api : Authority string := {| au_host := "api.github.com"; au_port := 443 |}.
Definition shop : Authority string := {| au_host := "api.example.com"; au_port := 443 |}.
Definition sample_redeemer (w : SampleWorld) : BoxRedeemer :=
  {| br_key := {| hk_public := true; hk_agree e := Some (diffie_hellman true e) |}; br_node := "node-1"; br_module := GITHUB;
     br_clients := [(client_kid true, true)];
     br_boxes := <["box-1"%string := {| be_egress := [api; shop]; be_stance := SOwnIp |}]> ∅;
     br_revocations := sw_revoked w; br_rules := rules_of (sw_rules w) |}.
#[export] Instance sample_flow : FlowWorld SampleWorld := {|
  redeemer_of := sample_redeemer;
  clock := sw_now;
  in_flight _ := NoFlight;
  store_name := Some NATIVE_STORE;
  store_read w id := (w, match List.find (fun e => bool_decide (e.1 = id)) (sw_store w) with Some e => Ok e.2 | None => Err RdDeleted end);
  elapse w := {| sw_item := sw_item w; sw_now := sw_now w + 1; sw_store := sw_store w; sw_revoked := sw_revoked w; sw_rules := sw_rules w |};
|}.

Definition INSTANCE : string := "0123456789abcdef0123456789abcdef".
Definition user_rules : StoreRules :=
  <["shop-key"%string := {| src_store := None; src_upstream := ["api.example.com"%string]; src_header := Some "X-Api-Key"%string; src_prefix := None;
                            src_basic_auth := None; src_action := None |}]>
    (<["own"%string := {| src_store := None; src_upstream := ["Cache.Minimal.Dev."%string]; src_header := Some "x-key"%string; src_prefix := None;
                          src_basic_auth := None; src_action := None |}]> ∅).
Definition sample_world : SampleWorld :=
  {| sw_item := Some ({| me_account := "octocat"; me_instance := INSTANCE; me_flow := FlowDevice; me_token_expires_at := 5000; me_refresh_expires_at := 9000 |},
                      {| mt_instance := INSTANCE; mt_access_token := "gho_held"; mt_refresh_token := "ghr_held" |});
     sw_now := 1000; sw_store := [("shop-key"%string, bytes "s3cret")]; sw_revoked := [];
     sw_rules := store_rules_in ∅ user_rules "org.toml" "config.toml" |}.

(** ** Sealed values *)

Definition sample_context : SealContext :=
  {| sc_box_id := "box-1"; sc_host := "node-1"; sc_module := "github"; sc_host_set_version := 1; sc_mode := ModeUser; sc_iat := 900; sc_expiry := 4000;
     sc_kid := key_kid true |}.
Definition sample_members (kind : MemberKind) (jws : string) : MemberList :=
  {| ml_members := [{| mb_kind := kind; mb_breadth := BreadthFull; mb_jws := jws; mb_exp := Some 3500 |}]; ml_default_owner := None |}.
Definition sample_nonce : list Z := replicate IV_LEN 7.
Definition seal_sample (kind : MemberKind) (claims : Claims) : result SealError string :=
  seal_members [Some [1]] (Some sample_nonce) true sample_context (sample_members kind (sign_handle true claims)).
Definition sign_in_claims : Claims :=
  {| cl_sub := "box-1"; cl_node_id := "node-1"; cl_store := "github"; cl_id := INSTANCE; cl_upstream := ["api.github.com"%string]; cl_inject := None;
     cl_iat := 900; cl_exp := 3600; cl_jti := "jti-1" |}.
Definition shop_claims : Claims :=
  {| cl_sub := "box-1"; cl_node_id := "node-1"; cl_store := NATIVE_STORE; cl_id := "shop-key"; cl_upstream := ["api.example.com"%string];
     cl_inject := Some (InjHeader "X-Api-Key" None); cl_iat := 900; cl_exp := 3600; cl_jti := "jti-2" |}.
Definition text_of (r : result SealError string) : string := match r with Ok s => s | Err _ => EmptyString end.
Definition sign_in_value : string := Eval vm_compute in text_of (seal_sample MkSignIn sign_in_claims).
Definition shop_value : string := Eval vm_compute in text_of (seal_sample MkStore shop_claims).

(** ** Requests *)

Definition api_head : list Z :=
  HttpSample.crlf ["GET /user HTTP/1.1"; "Host: api.github.com"; "Authorization: Bearer " ++ sign_in_value; "Accept: */*"; ""; ""]%string.
Definition shop_head : list Z :=
  HttpSample.crlf ["POST /buy HTTP/1.1"; "Host: api.example.com"; "X-Api-Key: " ++ shop_value; "Content-Length: 2"; ""; "hi"]%string.
Definition api_flow : Flow := {| fl_box_id := "box-1"; fl_authority := api |}.
Definition shop_flow : Flow := {| fl_box_id := "box-1"; fl_authority := shop |}.
Definition sample_state : FlowState :=
  {| fs_renew := {| rn_world := sample_world; rn_failed := ∅ |}; fs_audit := []; fs_sent := [] |}.
Definition run_flow (fl : Flow) (input : list Z) : option (string * list (option string) * HalfEnd) :=
  match forward_credentialed (U := list Z) fl sample_state [RData input] [] with
  | Done (s, _, u, e) => Some (string_of u, map ad_marker (fs_audit s), e)
  | _ => None
  end.

(** ** What the sample does *)

Example sample_rules : map sru_id (sw_rules sample_world) = ["shop-key"%string].
Proof. vm_compute. reflexivity. Qed.

Definition api_written : list Z :=
  HttpSample.crlf ["GET /user HTTP/1.1"; "host: api.github.com"; "authorization: Bearer gho_held"; "accept: */*"; ""; ""]%string.
Definition shop_written : list Z :=
  HttpSample.crlf ["POST /buy HTTP/1.1"; "host: api.example.com"; "x-api-key: s3cret"; "content-length: 2"; ""; "hi"]%string.
Example sample_api : run_flow api_flow api_head = Some (string_of api_written, [None], HeClosed ClientClosed).
Proof. vm_compute. reflexivity. Qed.
Example sample_shop : run_flow shop_flow shop_head = Some (string_of shop_written, [None], HeClosed ClientClosed).
Proof. vm_compute. reflexivity. Qed.
(** Two requests on one flow: the second carries the value of another host. *)
Example sample_refused : option_map (fun r => (r.1.1, r.1.2)) (run_flow api_flow (api_head ++ HttpSample.crlf
    ["GET / HTTP/1.1"; "Host: api.github.com"; "X-Api-Key: " ++ shop_value; ""; ""]%string)) =
  Some (string_of api_written, [None; Some "outside_bound_set"%string]).
Proof. vm_compute. reflexivity. Qed.

(** ** The theorems on it *)

Definition sample_binding : Binding := {| bd_box_id := "box-1"; bd_host := "node-1"; bd_module := "github"; bd_now := 1000 |}.
Definition sign_in_jws : string := sign_handle true sign_in_claims.
Definition sign_in_member : Member := {| mb_kind := MkSignIn; mb_breadth := BreadthFull; mb_jws := sign_in_jws; mb_exp := Some 3500 |}.
Lemma sealed_value_opens_witness :
  open_sealed true sign_in_value sample_binding = Ok {| op_context := sample_context; op_member := sign_in_member; op_default_owner := None |}.
Proof.
  refine (eq_trans (sealed_value_opens [Some [1]] (Some sample_nonce) true sample_context (sample_members MkSignIn sign_in_jws)
    sign_in_member sign_in_value sample_binding _ _ _ _) _).
  - intros bs [= <-]. split; [repeat constructor; vm_compute; (discriminate || reflexivity)|reflexivity].
  - reflexivity.
  - vm_compute. reflexivity.
  - vm_compute. discriminate.
  - reflexivity.
Defined.

Definition sample_keys : ClientKeys := [(client_kid true, true)].
Lemma signed_handle_verifies_witness : verify_handle (sign_handle true shop_claims) sample_keys = Ok shop_claims.
Proof. refine (proj2 (signed_handle_verifies true shop_claims sample_keys) _). vm_compute. reflexivity. Defined.

Definition sample_metadata : Metadata :=
  {| me_account := "octocat"; me_instance := INSTANCE; me_flow := FlowDevice; me_token_expires_at := 5000; me_refresh_expires_at := 9000 |}.
Lemma sign_in_reads_back_witness : metadata_decode (metadata_encode sample_metadata) = Ok sample_metadata.
Proof.
  apply (proj1 (sign_in_reads_back sample_metadata ltac:(constructor; [reflexivity|reflexivity|vm_compute; split; discriminate|vm_compute; split; discriminate]))).
Defined.

Definition api_request : Request :=
  {| rq_method := bytes "GET"; rq_target := bytes "/user";
     rq_headers := [{| h_name := bytes "host"; h_value := bytes "api.github.com" |};
                    {| h_name := bytes "authorization"; h_value := bytes ("Bearer " ++ sign_in_value) |};
                    {| h_name := bytes "accept"; h_value := bytes "*/*" |}];
     rq_body := BfNone |}.
Definition api_decided : FlowState * result string (Request * option (list Z)) := Eval vm_compute in decide_injected api_flow sample_state api_request.
Definition api_sent : Request := match api_decided.2 with Ok (r, _) => r | Err _ => api_request end.
Lemma credentialed_head_framed_witness :
  head_lines (take (length (serialize_request api_sent) - 4) (serialize_request api_sent ++ bytes "more")) =
    map Ok (request_line api_request :: map header_line (rq_headers api_sent)) /\ headers_replaced api_request api_sent.
Proof.
  destruct (credentialed_head_framed api_flow sample_state api_request api_decided.1 api_sent None (bytes "more") sample_printable) as (_ & Hlines & Hrep & _).
  - exists api_head, (length api_head). vm_compute. reflexivity.
  - vm_compute. reflexivity.
  - exact (conj Hlines Hrep).
Defined.

Lemma flow_forwards_earned_witness :
  exists s' client' u' e, forward_credentialed (U := list Z) shop_flow sample_state [RData shop_head] [] = Done (s', client', u', e) /\
    exists xs tail recss last, flow_result shop_flow sample_state s' (stream [RData shop_head]).1 [] u' false e xs tail recss last.
Proof. exact (flow_forwards_earned shop_flow sample_state [RData shop_head] ([] : list Z) sample_printable). Defined.


Definition sample_events : list (FlightEvent (T := Z)) :=
  [EvEnter 1 "renew"; EvEnter 2 "renew"; EvWorked 1 42%Z; EvRemove 1; EvEnter 3 "renew"; EvFinish 1; EvWake 2]%nat%string.
Definition sample_flights : Flights (T := Z) := Eval vm_compute in default no_flights (flight_steps no_flights sample_events).
Lemma one_run_in_flight_witness :
  exists t' c, t' <> 2%nat /\ fg_callers sample_flights !! t' = Some c /\ caller_at c = ("renew"%string, 0%nat) /\ leads c = Some (0%nat, Some (Some 42)).
Proof.
  refine (proj1 (proj2 (one_run_in_flight sample_events sample_flights _)) 2%nat "renew"%string 0%nat 42 _); vm_compute; reflexivity.
Defined.
End CredentialSample.
