(* ===== verification/Activation.v ===== *)
(** * Credentials at box creation (crates/boxes/src/core/bep.rs)

    The [secrets] grants of a box spec and the checks a spec passes before the
    box is created: against its own egress and network, the host, and the
    client's store rules.  The texts of the refusals are not modelled. *)

From stdpp Require Import base list gmap strings numbers sorting.
From Stdlib Require Import ZArith Lia Ascii.
From S2P Require Import Prelude Text Bytes Egress Classifier Handle SignIn StoreRules.
Open Scope Z_scope.

(** ** Steering *)

Inductive Steering : Type := StDns | StProxyEnv | StBoth | StOff.
#[global] Instance Steering_eq_dec : EqDecision Steering.
Proof. solve_decision. Defined.
(** [Steering::word] and [Steering::needs_resolver]. *)
Definition steering_word (s : Steering) : string :=
  match s with StDns => "dns" | StProxyEnv => "proxy_env" | StBoth => "both" | StOff => "off" end.
Definition needs_resolver (s : Steering) : bool := match s with StDns | StBoth => true | _ => false end.

Inductive Quic443 : Type := QuicAuto | QuicBlock | QuicAllow.
(** [Quic443::blocks]. *)
Definition quic_blocks (q : Quic443) (credentialed_upstream : bool) (steering : Steering) : bool :=
  match q with QuicBlock => true | QuicAllow => false | QuicAuto => credentialed_upstream && needs_resolver steering end.

Record BepSettings : Type := { bs_steering : option Steering; bs_proxy_env : bool; bs_no_proxy : list string }.
(** [BepSettings::resolved_steering] and [BepSettings::is_empty]. *)
Definition resolved_steering (b : BepSettings) : Steering := default StDns (bs_steering b).
Definition bep_is_empty (b : BepSettings) : bool :=
  bool_decide (bs_steering b = None) && negb (bs_proxy_env b) && bool_decide (bs_no_proxy b = []).

(** ** Grants *)

Inductive GrantMode : Type := GmUser | GmInstallation.
#[global] Instance GrantMode_eq_dec : EqDecision GrantMode.
Proof. solve_decision. Defined.
Inductive GrantSource : Type := GsBroker | GsClientEnv | GsStore (store id : string).
#[global] Instance GrantSource_eq_dec : EqDecision GrantSource.
Proof. solve_decision. Defined.
Record SecretGrant : Type := { sg_source : GrantSource; sg_scopes : list string; sg_mode : option GrantMode }.

Inductive SourceWord : Type := SwBroker | SwClientEnv | SwStore.
Record GrantFields : Type := {
  gf_source : SourceWord; gf_scopes : list string; gf_mode : option GrantMode; gf_store : option string; gf_id : option string }.
(** The three messages of [try_from], by what they name. *)
Inductive GrantError : Type := GeTakesNo (extra : list string) | GeHasNo (store id : bool) | GeStoreFields.

(** [SecretGrant::try_from]. *)
Definition present (v : option string) : option string := keep_if (fun v => negb (bool_decide (v = EmptyString))) (option_map trim v).
Definition grant_try_from (f : GrantFields) : result GrantError SecretGrant :=
  source ← match gf_source f with
           | SwStore =>
               let extra := (if bool_decide (gf_scopes f = []) then [] else ["scopes"%string])
                            ++ (if bool_decide (is_Some (gf_mode f)) then ["mode"%string] else []) in
               if negb (bool_decide (extra = [])) then Err (GeTakesNo extra)
               else match present (gf_store f), present (gf_id f) with
                    | Some store, Some id => Ok (GsStore store id)
                    | store, id => Err (GeHasNo (bool_decide (store = None)) (bool_decide (id = None)))
                    end
           | word =>
               if bool_decide (is_Some (gf_store f)) || bool_decide (is_Some (gf_id f)) then Err GeStoreFields
               else Ok (match word with SwBroker => GsBroker | _ => GsClientEnv end)
           end;
  Ok {| sg_source := source; sg_scopes := gf_scopes f; sg_mode := gf_mode f |}.
(** [From<SecretGrant> for GrantFields]. *)
Definition grant_fields (g : SecretGrant) : GrantFields :=
  let '(source, store, id) := match sg_source g with
                              | GsBroker => (SwBroker, None, None)
                              | GsClientEnv => (SwClientEnv, None, None)
                              | GsStore store id => (SwStore, Some store, Some id)
                              end in
  {| gf_source := source; gf_scopes := sg_scopes g; gf_mode := sg_mode g; gf_store := store; gf_id := id |}.

(** [is_credentialed], [is_github], [narrow_scopes] and
    [is_narrower_than_full]. *)
Definition is_credentialed (g : SecretGrant) : bool := match sg_source g with GsBroker | GsStore _ _ => true | GsClientEnv => false end.
Definition is_github (g : SecretGrant) : bool :=
  bool_decide (sg_source g = GsBroker) && existsb (str_starts_with "github:") (sg_scopes g).
Definition is_narrow_scope (scope : string) : bool :=
  match strip_prefix "github:repo:" scope with Some rest => negb (bool_decide (rest = "full"%string)) | None => false end.
Definition narrow_scopes (g : SecretGrant) : list string := filter (fun s => is_narrow_scope s = true) (sg_scopes g).
Definition is_narrower_than_full (g : SecretGrant) : bool := is_github g && negb (bool_decide (narrow_scopes g = [])).

Notation SecretGrants := (gmap string SecretGrant).

(** [ProjectSecrets::deserialize], on the entries of the table in order: the
    acknowledgement is dropped, and a grant that does not parse is an error. *)
Definition FULL_BREADTH_ACKNOWLEDGEMENT : string := "acknowledge_full_breadth_unenrolled".
Record ProjectSecrets : Type := { ps_grants : SecretGrants; ps_acknowledgement_ignored : bool }.
Fixpoint project_secrets (out : ProjectSecrets) (entries : list (string * result GrantError GrantFields)) : result GrantError ProjectSecrets :=
  match entries with
  | [] => Ok out
  | (key, value) :: entries =>
      if bool_decide (key = FULL_BREADTH_ACKNOWLEDGEMENT) then
        project_secrets {| ps_grants := ps_grants out; ps_acknowledgement_ignored := true |} entries
      else
        fields ← value;
        grant ← grant_try_from fields;
        project_secrets {| ps_grants := <[key := grant]> (ps_grants out); ps_acknowledgement_ignored := ps_acknowledgement_ignored out |} entries
  end.

(** ** Activation *)

Record HostFacts : Type := { hf_enrolled : bool; hf_box_zone_resolver : bool; hf_full_breadth_acknowledged : bool }.
Definition LOCAL_HOST : HostFacts := {| hf_enrolled := false; hf_box_zone_resolver := false; hf_full_breadth_acknowledged := false |}.
Record ActivationSpec : Type := { as_network : NetworkMode; as_egress : option EgressPolicy; as_bep : BepSettings; as_secrets : SecretGrants }.

(** [has_credentialed_upstream] and [github_grants]. *)
Definition has_credentialed_upstream (s : ActivationSpec) : bool := existsb (fun e => is_credentialed e.2) (btree_iter (as_secrets s)).
Definition grants_where (p : SecretGrant -> bool) (secrets : SecretGrants) : list string :=
  map fst (filter (fun e => p e.2 = true) (btree_iter secrets)).
Definition github_grants (s : ActivationSpec) : list string := grants_where is_github (as_secrets s).

(** Why no proxy serves boxes; the paths it carries are for its text. *)
Inductive ProxyAbsence : Type := PaNotInstalled | PaRelativePath | PaNotAnswering | PaNotServed.
Inductive BepRefusal : Type :=
| BrHostsOutsideEgress (missing : list string)
| BrNoNetworkWithGrant (grants : list string)
| BrSteeringOffWithProxyEnv
| BrNoResolver (steering : Steering)
| BrInstallationUnenrolled (grant : string)
| BrNarrowScopesUnenrolled (grant : string) (scopes : list string)
| BrSignInRequired (grants : list string)
| BrUnenrolledNode (grants : list string) (stored : bool) (cause : ProxyAbsence)
| BrStoreReferenceToSignIn (grant : string)
| BrStoreHostsOutsideEgress (grant : string) (missing : list string)
| BrBrokerScopeNotGithub (grant scope : string).
Definition REFUSAL_EXIT_CODE : Z := 3.
Definition UNENROLLED_NODE_EXIT_CODE : Z := 5.
(** [BepRefusal::code] and [ActivationRefused::exit_code]. *)
Definition refusal_code (r : BepRefusal) : option string :=
  match r with
  | BrSignInRequired _ => Some "github_sign_in_required"%string
  | BrUnenrolledNode _ _ _ => Some "gatehouse_unenrolled_node"%string
  | _ => None
  end.
Definition exit_code (refusals : list BepRefusal) : Z :=
  if existsb (fun r => match r with BrUnenrolledNode _ _ _ => true | _ => false end) refusals then UNENROLLED_NODE_EXIT_CODE else REFUSAL_EXIT_CODE.

Inductive BepWarning : Type := BwSteeringOffWithGrant (grants : list string) | BwTrustEnvSetBySpec (variable : string).
Record ActivationPlan : Type := { ap_steering : Steering; ap_inject_ca : bool; ap_warnings : list BepWarning }.

(** The names an egress allows, as the checks compare them. *)
Definition allowed_hosts (egress : option EgressPolicy) : list string :=
  default [] (e ← egress; hosts ← ep_allow_dns_hosts e; Some (map normalize_host hosts)).

(** The parts of [refusals], in its order. *)
Definition broker_scope_refusals (secrets : SecretGrants) : list BepRefusal :=
  filter_map (fun e => if bool_decide (sg_source e.2 = GsBroker)
                       then option_map (BrBrokerScopeNotGithub e.1) (List.find (fun s => negb (str_starts_with "github:" s)) (sg_scopes e.2))
                       else None) (btree_iter secrets).
Definition missing_hosts (egress : option EgressPolicy) (module_hosts : list string) : list string :=
  filter (fun h => normalize_host h ∉ allowed_hosts egress) module_hosts.
Definition installation_refusals (secrets : SecretGrants) : list BepRefusal :=
  map BrInstallationUnenrolled (grants_where (fun g => is_github g && bool_decide (sg_mode g = Some GmInstallation)) secrets).
Definition narrow_refusals (secrets : SecretGrants) : list BepRefusal :=
  filter_map (fun e => if is_narrower_than_full e.2 then Some (BrNarrowScopesUnenrolled e.1 (narrow_scopes e.2)) else None) (btree_iter secrets).
(** [refusals]. *)
Definition refusals (spec : ActivationSpec) (host : HostFacts) (module_hosts : list string) : list BepRefusal :=
  let steering := resolved_steering (as_bep spec) in
  let secrets := as_secrets spec in
  broker_scope_refusals secrets
  ++ (match as_network spec with
      | NoNet => if has_credentialed_upstream spec then [BrNoNetworkWithGrant (grants_where is_credentialed secrets)] else []
      | _ => []
      end)
  ++ (if bool_decide (github_grants spec = []) then []
      else let missing := missing_hosts (as_egress spec) module_hosts in
           if bool_decide (missing = []) then [] else [BrHostsOutsideEgress missing])
  ++ (if bool_decide (steering = StOff) && bs_proxy_env (as_bep spec) then [BrSteeringOffWithProxyEnv] else [])
  ++ (if negb (hf_box_zone_resolver host) && needs_resolver steering && has_credentialed_upstream spec then [BrNoResolver steering] else [])
  ++ (if negb (hf_enrolled host) then installation_refusals secrets else [])
  ++ (if negb (hf_enrolled host) && negb (hf_full_breadth_acknowledged host) then narrow_refusals secrets else []).

(** [check_activation]. *)
Definition check_activation (spec : ActivationSpec) (host : HostFacts) (module_hosts : list string) : result (list BepRefusal) ActivationPlan :=
  match refusals spec host module_hosts with
  | [] =>
      let steering := resolved_steering (as_bep spec) in
      let github := github_grants spec in
      Ok {| ap_steering := steering;
            ap_inject_ca := has_credentialed_upstream spec && negb (bool_decide (steering = StOff));
            ap_warnings := if bool_decide (steering = StOff) && negb (bool_decide (github = [])) then [BwSteeringOffWithGrant github] else [] |}
  | rs => Err rs
  end.

Definition TRUST_ENV_VARIABLES : list string := ["SSL_CERT_FILE"; "REQUESTS_CA_BUNDLE"; "NODE_EXTRA_CA_CERTS"]%string.
(** [ActivationPlan::warn_spec_trust_env]. *)
Definition warn_spec_trust_env (plan : ActivationPlan) (spec_env : list string) : ActivationPlan :=
  if negb (ap_inject_ca plan) then plan
  else {| ap_steering := ap_steering plan; ap_inject_ca := ap_inject_ca plan;
          ap_warnings := ap_warnings plan ++ map BwTrustEnvSetBySpec (filter (fun v => v ∈ spec_env) TRUST_ENV_VARIABLES) |}.

(** [require_sign_in], [require_proxy] and [unenrolled_node]. *)
Definition require_sign_in (secrets : SecretGrants) (signed_in : bool) : result (list BepRefusal) () :=
  let grants := grants_where is_github secrets in
  if signed_in || bool_decide (grants = []) then Ok () else Err [BrSignInRequired grants].
Definition unenrolled_node (grants : list string) (stored : bool) (cause : ProxyAbsence) : list BepRefusal := [BrUnenrolledNode grants stored cause].
Definition require_proxy (secrets : SecretGrants) (absence : option ProxyAbsence) : result (list BepRefusal) () :=
  let grants := grants_where is_github secrets in
  match absence with
  | Some cause => if negb (bool_decide (grants = [])) then Err (unenrolled_node grants false cause) else Ok ()
  | None => Ok ()
  end.

(** ** Store references *)

Definition STORE_RULES_TABLE : string := "secret-store-rules".
(** [warn_project_store_rules]. *)
Definition warn_project_store_rules (keys : list string) : bool := existsb (fun k => bool_decide (k = STORE_RULES_TABLE)) keys.

Record StoreReference : Type := { sf_grant : string; sf_store : string; sf_id : string }.
(** [StoreReference::rule], [StoreReference::item] and [store_references]. *)
Definition reference_rule (r : StoreReference) (rules : StoreRules) : option StoreRuleConfig :=
  keep_if (fun rule => bool_decide (default NATIVE_STORE (src_store rule) = sf_store r)) (rules !! sf_id r).
Definition reference_item (r : StoreReference) : string :=
  if bool_decide (sf_store r = NATIVE_STORE) then sf_id r else (sf_store r ++ ":" ++ sf_id r)%string.
Definition store_references (secrets : SecretGrants) : list StoreReference :=
  filter_map (fun e => match sg_source e.2 with
                       | GsStore store id => Some {| sf_grant := e.1; sf_store := store; sf_id := id |}
                       | GsBroker | GsClientEnv => None
                       end) (btree_iter secrets).

(** [StoreRuleConfig::upstream_hosts], and the hosts of it that are not
    allowed, each once. *)
Definition upstream_hosts (rule : StoreRuleConfig) : list string := map authority_host (src_upstream rule).
Definition missing_upstreams (allowed : list string) (rule : StoreRuleConfig) : list string :=
  foldl (fun missing host => if bool_decide (host ∈ allowed) || bool_decide (host ∈ missing) then missing else missing ++ [host]) [] (upstream_hosts rule).
(** [store_refusals] and [check_store_references]. *)
Definition reference_refusal (allowed : list string) (rules : StoreRules) (deny : StoreDenySet) (r : StoreReference) : option BepRefusal :=
  if is_sign_in_item deny (sf_id r) then Some (BrStoreReferenceToSignIn (sf_grant r))
  else rule ← reference_rule r rules;
       let missing := missing_upstreams allowed rule in
       if bool_decide (missing = []) then None else Some (BrStoreHostsOutsideEgress (sf_grant r) missing).
Definition store_refusals (secrets : SecretGrants) (egress : option EgressPolicy) (rules : StoreRules) (deny : StoreDenySet) : list BepRefusal :=
  filter_map (reference_refusal (allowed_hosts egress) rules deny) (store_references secrets).
Definition check_store_references (secrets : SecretGrants) (egress : option EgressPolicy) (rules : StoreRules) (deny : StoreDenySet)
    : result (list BepRefusal) () :=
  match store_refusals secrets egress rules deny with [] => Ok () | rs => Err rs end.

(** ** Trimming *)

Lemma strip_while_done n ws s : (String.length s <= n)%nat -> (forall w, w ∈ ws -> w <> EmptyString) ->
  forall w, w ∈ ws -> strip_prefix w (strip_while n ws s) = None.
Proof.
  intros Hn Hws. revert s Hn. induction n as [|n IH]; intros s Hn w Hw.
  - destruct s; [|cbn in Hn; lia]. cbn. destruct w; [by destruct (Hws _ Hw)|done].
  - cbn [strip_while]. destruct (head (filter_map _ ws)) as [s'|] eqn:E.
    + apply head_Some_elem_of, elem_of_filter_map in E as (v & Hv & Hp). apply strip_prefix_Some in Hp as ->.
      apply IH; [|done]. rewrite string_length_app in Hn. specialize (Hws v Hv). destruct v; [done|cbn in Hn; lia].
    + destruct (strip_prefix w s) as [r|] eqn:Ep; [|done]. exfalso.
      assert (r ∈ filter_map (fun w => strip_prefix w s) ws) as Hr by (apply elem_of_filter_map; eauto).
      destruct (filter_map _ ws); [by apply elem_of_nil in Hr|done].
Qed.
Lemma strip_while_fix n ws s : (forall w, w ∈ ws -> strip_prefix w s = None) -> strip_while n ws s = s.
Proof.
  intros Hw. destruct n as [|n]; [done|]. cbn [strip_while]. destruct (head (filter_map _ ws)) as [s'|] eqn:E; [|done].
  apply head_Some_elem_of, elem_of_filter_map in E as (v & Hv & Hp). rewrite Hw in Hp by done. done.
Qed.
Lemma strip_while_suffix n ws s : exists p, s = (p ++ strip_while n ws s)%string.
Proof.
  revert s. induction n as [|n IH]; intros s; [by exists EmptyString|]. cbn [strip_while]. destruct (head (filter_map _ ws)) as [s'|] eqn:E; [|by exists EmptyString].
  apply head_Some_elem_of, elem_of_filter_map in E as (v & _ & Hp). apply strip_prefix_Some in Hp as ->. destruct (IH s') as [p Hp].
  exists (v ++ p)%string. by rewrite string_app_assoc, <- Hp.
Qed.
Lemma white_space_nonempty w : w ∈ white_space -> w <> EmptyString.
Proof. revert w. apply list.Forall_forall. apply (bool_decide_unpack _). by vm_compute. Qed.
Lemma str_rev_length s : String.length (str_rev s) = String.length s.
Proof.
  induction s as [|c s IH]; [done|]. unfold str_rev. cbn [str_rev_onto]. rewrite rev_onto_app, string_length_app, IH. cbn. lia.
Qed.
Lemma str_rev_nil s : str_rev s = EmptyString -> s = EmptyString.
Proof. intros E. rewrite <- (str_rev_involutive s), E. done. Qed.
Lemma rev_white_nonempty w : w ∈ map str_rev white_space -> w <> EmptyString.
Proof. intros (v & -> & Hv)%list_elem_of_fmap ->%str_rev_nil. by apply white_space_nonempty in Hv. Qed.

(** [str::trim] is idempotent. *)
Lemma trim_trim s : trim (trim s) = trim s.
Proof.
  unfold trim at 2 3. set (t := strip_while (String.length s) white_space s).
  set (r := strip_while (String.length t) (map str_rev white_space) (str_rev t)).
  assert (forall w, w ∈ white_space -> strip_prefix w (str_rev r) = None) as Hfront.
  { intros w Hw. destruct (strip_prefix w (str_rev r)) as [x|] eqn:E; [|done]. exfalso.
    destruct (strip_while_suffix (String.length t) (map str_rev white_space) (str_rev t)) as [p Hp]. fold r in Hp.
    apply (f_equal str_rev) in Hp. rewrite str_rev_involutive, str_rev_app in Hp. apply strip_prefix_Some in E. rewrite E, string_app_assoc in Hp.
    pose proof (strip_while_done (String.length s) white_space s ltac:(lia) white_space_nonempty w Hw) as Hd. fold t in Hd.
    rewrite Hp, strip_prefix_app in Hd. done. }
  assert (forall w, w ∈ map str_rev white_space -> strip_prefix w r = None) as Hback.
  { unfold r. apply strip_while_done; [by rewrite str_rev_length|apply rev_white_nonempty]. }
  unfold trim. rewrite (strip_while_fix _ _ (str_rev r)) by done. rewrite str_rev_involutive. f_equal. by apply strip_while_fix.
Qed.

(** ** A grant written and read again *)

(** The grants a file can hold. *)
Definition grant_wf (g : SecretGrant) : Prop :=
  match sg_source g with
  | GsStore store id => trim store = store /\ store <> EmptyString /\ trim id = id /\ id <> EmptyString /\ sg_scopes g = [] /\ sg_mode g = None
  | _ => True
  end.

Lemma present_Some v s : present v = Some s <-> exists raw, v = Some raw /\ s = trim raw /\ s <> EmptyString.
Proof.
  unfold present. destruct v as [raw|]; cbn; [|naive_solver]. case_bool_decide as He; cbn.
  - split; [done|]. intros (? & [= <-] & -> & ?). done.
  - split; [intros [= <-]; eauto|]. by intros (? & [= <-] & -> & _).
Qed.

(** A grant a file holds is written back as fields that read as that grant;
    what does read is such a grant. *)
Theorem grant_reads_back :
  (forall g, grant_wf g -> grant_try_from (grant_fields g) = Ok g) /\ (forall f g, grant_try_from f = Ok g -> grant_wf g).
Proof.
  split.
  - intros [source scopes mode]. unfold grant_wf, grant_fields, grant_try_from. cbn [sg_source sg_scopes sg_mode].
    destruct source as [| |store id]; [done|done|]. cbn [gf_source gf_scopes gf_mode gf_store gf_id].
    intros (Hs & Hsn & Hi & Hin & -> & ->).
    rewrite (proj2 (present_Some (Some store) store)) by (by exists store). rewrite (proj2 (present_Some (Some id) id)) by (by exists id). done.
  - intros f g. unfold grant_try_from, grant_wf. destruct (gf_source f); cbn [mbind result_bind].
    + destruct (_ || _); [done|]. by intros [= <-].
    + destruct (_ || _); [done|]. by intros [= <-].
    + cbn zeta. destruct (gf_mode f) as [m|]; [by destruct (gf_scopes f)|]. destruct (gf_scopes f) as [|sc scs]; [|done].
      change (negb _) with false. cbv iota.
      destruct (present (gf_store f)) as [store|] eqn:Es; [|by destruct (present (gf_id f))]. destruct (present (gf_id f)) as [id|] eqn:Ei; [|done].
      intros [= <-]. cbn. apply present_Some in Es as (rs & _ & -> & Hs). apply present_Some in Ei as (ri & _ & -> & Hi). rewrite !trim_trim.
      repeat (split; [done|]). done.
Qed.

(** ** What activation accepts *)

Record activation_ok (spec : ActivationSpec) (host : HostFacts) (module_hosts : list string) : Prop := {
  ao_scopes : forall name g, as_secrets spec !! name = Some g -> sg_source g = GsBroker -> forall s, s ∈ sg_scopes g -> str_starts_with "github:" s = true;
  ao_network : as_network spec = NoNet -> forall name g, as_secrets spec !! name = Some g -> is_credentialed g = false;
  ao_hosts : forall name g, as_secrets spec !! name = Some g -> is_github g = true ->
    forall h, h ∈ module_hosts -> normalize_host h ∈ allowed_hosts (as_egress spec);
  ao_proxy_env : resolved_steering (as_bep spec) = StOff -> bs_proxy_env (as_bep spec) = false;
  ao_resolver : hf_box_zone_resolver host = false -> needs_resolver (resolved_steering (as_bep spec)) = true ->
    forall name g, as_secrets spec !! name = Some g -> is_credentialed g = false;
  ao_installation : hf_enrolled host = false -> forall name g, as_secrets spec !! name = Some g -> is_github g = true -> sg_mode g <> Some GmInstallation;
  ao_breadth : hf_enrolled host = false -> hf_full_breadth_acknowledged host = false ->
    forall name g, as_secrets spec !! name = Some g -> is_github g = true -> forall s, s ∈ sg_scopes g -> is_narrow_scope s = false;
}.

Lemma filter_map_nil {A B} (f : A -> option B) l : filter_map f l = [] <-> forall a, a ∈ l -> f a = None.
Proof.
  split.
  - intros E a Ha. destruct (f a) as [b|] eqn:Ef; [|done]. assert (b ∈ filter_map f l) as Hb by (apply elem_of_filter_map; eauto).
    rewrite E in Hb. by apply elem_of_nil in Hb.
  - intros Hf. destruct (filter_map f l) as [|b r] eqn:E; [done|]. assert (b ∈ filter_map f l) as Hb by (rewrite E; by left).
    apply elem_of_filter_map in Hb as (a & Ha & Ea). rewrite Hf in Ea; done.
Qed.
Lemma filter_nil {A} (P : A -> Prop) `{forall a, Decision (P a)} l : filter P l = [] <-> forall a, a ∈ l -> ~ P a.
Proof.
  split.
  - intros E a Ha Hp. assert (a ∈ filter P l) as Hb by (by apply list_elem_of_filter). rewrite E in Hb. by apply elem_of_nil in Hb.
  - intros Hf. destruct (filter P l) as [|b r] eqn:E; [done|]. assert (b ∈ filter P l) as Hb by (rewrite E; by left).
    apply list_elem_of_filter in Hb as [Hp Hb]. by destruct (Hf b Hb).
Qed.
Lemma map_nil {A B} (f : A -> B) l : map f l = [] <-> l = [].
Proof. by destruct l. Qed.
Lemma grants_where_nil p secrets : grants_where p secrets = [] <-> forall name g, secrets !! name = Some g -> p g = false.
Proof.
  unfold grants_where. rewrite map_nil, filter_nil. split.
  - intros Hf name g Hg. apply elem_of_btree_iter, Hf in Hg. by apply not_true_is_false.
  - intros Hf [name g] Hg%elem_of_btree_iter. cbn. by rewrite (Hf name g Hg).
Qed.
Lemma credentialed_false spec : has_credentialed_upstream spec = false <-> forall name g, as_secrets spec !! name = Some g -> is_credentialed g = false.
Proof.
  unfold has_credentialed_upstream. rewrite <- not_true_iff_false, existsb_exists. split.
  - intros Hn name g Hg. apply not_true_is_false. intros Ht. apply Hn. exists (name, g). split; [by apply list_elem_of_In, elem_of_btree_iter|done].
  - intros Hf ([name g] & Hin & Ht). apply list_elem_of_In, elem_of_btree_iter in Hin. cbn in Ht. by rewrite (Hf name g Hin) in Ht.
Qed.
Lemma find_None_iff {A} (p : A -> bool) l : List.find p l = None <-> forall a, a ∈ l -> p a = false.
Proof.
  split; [intros E a Ha%list_elem_of_In; by eapply List.find_none|]. intros Hf. destruct (List.find p l) as [a|] eqn:E; [|done].
  apply List.find_some in E as [Ha%list_elem_of_In Hp]. by rewrite Hf in Hp.
Qed.
Lemma narrow_nil g : narrow_scopes g = [] <-> forall s, s ∈ sg_scopes g -> is_narrow_scope s = false.
Proof. unfold narrow_scopes. rewrite filter_nil. split; intros Hf s Hs; specialize (Hf s Hs); [by apply not_true_is_false|by rewrite Hf]. Qed.

Lemma if_nil {A} (b : bool) (x : A) : (if b then [x] else []) = [] <-> b = false.
Proof. by destruct b. Qed.

Lemma refusals_nil spec host module_hosts : refusals spec host module_hosts = [] <-> activation_ok spec host module_hosts.
Proof.
  unfold refusals. cbn zeta. rewrite !app_nil. split.
  - intros (H1 & H2 & H3 & H4 & H5 & H6 & H7). split.
    + intros name g Hg Hsrc s Hs. unfold broker_scope_refusals in H1. rewrite filter_map_nil in H1.
      apply elem_of_btree_iter, H1 in Hg. cbn in Hg. rewrite bool_decide_true in Hg by done. destruct (List.find _ _) eqn:E; [done|].
      rewrite find_None_iff in E. by apply negb_false_iff, E.
    + intros Hn. rewrite Hn in H2. apply credentialed_false. by destruct (has_credentialed_upstream spec).
    + intros name g Hg Hgh h Hh. destruct (decide (github_grants spec = [])) as [Hnil|Hnil].
      { unfold github_grants in Hnil. rewrite grants_where_nil in Hnil. by rewrite (Hnil name g Hg) in Hgh. }
      rewrite (bool_decide_false (github_grants spec = [])) in H3 by done. cbn zeta in H3.
      destruct (decide (missing_hosts (as_egress spec) module_hosts = [])) as [Hm|Hm]; [|by rewrite bool_decide_false in H3]. unfold missing_hosts in Hm. rewrite filter_nil in Hm. by apply dec_stable, Hm.
    + intros Hoff. apply if_nil in H4. rewrite bool_decide_true in H4 by done. done.
    + intros Hr Hneeds. apply if_nil in H5. rewrite Hr, Hneeds in H5. by apply credentialed_false.
    + intros He name g Hg Hgh. rewrite He in H6. cbn in H6. unfold installation_refusals in H6. rewrite map_nil, grants_where_nil in H6.
      specialize (H6 name g Hg). rewrite Hgh in H6. by apply bool_decide_eq_false_1 in H6.
    + intros He Ha name g Hg Hgh. rewrite He, Ha in H7. cbn in H7. unfold narrow_refusals in H7. rewrite filter_map_nil in H7.
      apply elem_of_btree_iter, H7 in Hg. cbn in Hg. unfold is_narrower_than_full in Hg. rewrite Hgh in Hg. case_bool_decide as Hn; [|done]. by apply narrow_nil.
  - intros [H1 H2 H3 H4 H5 H6 H7]. repeat split.
    + unfold broker_scope_refusals. apply filter_map_nil. intros [name g] Hg%elem_of_btree_iter. cbn. case_bool_decide as Hsrc; [|done].
      rewrite (proj2 (find_None_iff _ _)); [done|]. intros s Hs. by apply negb_false_iff, (H1 name g).
    + destruct (as_network spec); [|done|done]. by rewrite (proj2 (credentialed_false spec) (H2 eq_refl)).
    + case_bool_decide as Hnil; [done|]. rewrite bool_decide_true; [done|]. unfold missing_hosts. apply filter_nil. intros h Hh Hn.
      apply Hnil. unfold github_grants. apply grants_where_nil. intros name g Hg. apply not_true_is_false. intros Hgh. by apply Hn, (H3 name g).
    + apply if_nil. case_bool_decide as Hoff; [by rewrite H4|done].
    + apply if_nil. destruct (hf_box_zone_resolver host) eqn:Hr; [done|]. destruct (needs_resolver _) eqn:Hneeds; [|done].
      by rewrite (proj2 (credentialed_false spec) (H5 eq_refl eq_refl)).
    + destruct (hf_enrolled host) eqn:He; [done|]. cbn. unfold installation_refusals. apply map_nil, grants_where_nil. intros name g Hg.
      destruct (is_github g) eqn:Hgh; [|done]. by rewrite bool_decide_false by (by eapply H6).
    + destruct (hf_enrolled host) eqn:He; [done|]. destruct (hf_full_breadth_acknowledged host) eqn:Ha; [done|]. cbn.
      unfold narrow_refusals. apply filter_map_nil. intros [name g] Hg%elem_of_btree_iter. cbn. unfold is_narrower_than_full.
      destruct (is_github g) eqn:Hgh; [|done]. rewrite bool_decide_true; [done|]. apply narrow_nil. by apply (H7 eq_refl eq_refl name g).
Qed.

(** What a refusal says of the spec it refuses. *)
Definition reason_holds (spec : ActivationSpec) (host : HostFacts) (module_hosts : list string) (r : BepRefusal) : Prop :=
  let grant_of p name := exists g, as_secrets spec !! name = Some g /\ p g = true in
  match r with
  | BrBrokerScopeNotGithub name scope =>
      exists g, as_secrets spec !! name = Some g /\ sg_source g = GsBroker /\ scope ∈ sg_scopes g /\ str_starts_with "github:" scope = false
  | BrNoNetworkWithGrant grants => as_network spec = NoNet /\ grants <> [] /\ forall name, name ∈ grants -> grant_of is_credentialed name
  | BrHostsOutsideEgress missing =>
      (exists name, grant_of is_github name) /\ missing <> [] /\
      forall h, h ∈ missing -> h ∈ module_hosts /\ normalize_host h ∉ allowed_hosts (as_egress spec)
  | BrSteeringOffWithProxyEnv => resolved_steering (as_bep spec) = StOff /\ bs_proxy_env (as_bep spec) = true
  | BrNoResolver steering =>
      steering = resolved_steering (as_bep spec) /\ hf_box_zone_resolver host = false /\ needs_resolver steering = true /\
      exists name, grant_of is_credentialed name
  | BrInstallationUnenrolled name =>
      hf_enrolled host = false /\ exists g, as_secrets spec !! name = Some g /\ is_github g = true /\ sg_mode g = Some GmInstallation
  | BrNarrowScopesUnenrolled name scopes =>
      hf_enrolled host = false /\ hf_full_breadth_acknowledged host = false /\ scopes <> [] /\
      exists g, as_secrets spec !! name = Some g /\ is_github g = true /\ forall x, x ∈ scopes -> x ∈ sg_scopes g /\ is_narrow_scope x = true
  | BrSignInRequired _ | BrUnenrolledNode _ _ _ | BrStoreReferenceToSignIn _ | BrStoreHostsOutsideEgress _ _ => False
  end.

(** Every check a spec fails is among the reasons, by the grant, the host or
    the scope it fails for. *)
Record reasons_complete (spec : ActivationSpec) (host : HostFacts) (module_hosts : list string) (rs : list BepRefusal) : Prop := {
  rc_scopes : forall name g, as_secrets spec !! name = Some g -> sg_source g = GsBroker ->
    forall x, x ∈ sg_scopes g -> str_starts_with "github:" x = false -> exists y, BrBrokerScopeNotGithub name y ∈ rs;
  rc_network : as_network spec = NoNet -> forall name g, as_secrets spec !! name = Some g -> is_credentialed g = true ->
    exists grants, BrNoNetworkWithGrant grants ∈ rs /\ name ∈ grants;
  rc_hosts : forall name g, as_secrets spec !! name = Some g -> is_github g = true ->
    forall h, h ∈ module_hosts -> normalize_host h ∉ allowed_hosts (as_egress spec) -> exists missing, BrHostsOutsideEgress missing ∈ rs /\ h ∈ missing;
  rc_proxy_env : resolved_steering (as_bep spec) = StOff -> bs_proxy_env (as_bep spec) = true -> BrSteeringOffWithProxyEnv ∈ rs;
  rc_resolver : hf_box_zone_resolver host = false -> needs_resolver (resolved_steering (as_bep spec)) = true ->
    forall name g, as_secrets spec !! name = Some g -> is_credentialed g = true -> BrNoResolver (resolved_steering (as_bep spec)) ∈ rs;
  rc_installation : hf_enrolled host = false -> forall name g, as_secrets spec !! name = Some g -> is_github g = true ->
    sg_mode g = Some GmInstallation -> BrInstallationUnenrolled name ∈ rs;
  rc_breadth : hf_enrolled host = false -> hf_full_breadth_acknowledged host = false ->
    forall name g, as_secrets spec !! name = Some g -> is_github g = true ->
    forall x, x ∈ sg_scopes g -> is_narrow_scope x = true -> exists scopes, BrNarrowScopesUnenrolled name scopes ∈ rs /\ x ∈ scopes;
}.

Lemma elem_of_grants_where p secrets name : name ∈ grants_where p secrets <-> exists g, secrets !! name = Some g /\ p g = true.
Proof.
  unfold grants_where. rewrite list_elem_of_fmap. split.
  - intros ([n g] & -> & He). apply list_elem_of_filter in He as [Hp He%elem_of_btree_iter]. by exists g.
  - intros (g & Hl & Hp). exists (name, g). split; [done|]. apply list_elem_of_filter. split; [done|]. by apply elem_of_btree_iter.
Qed.
Lemma credentialed_true spec : has_credentialed_upstream spec = true <-> exists name g, as_secrets spec !! name = Some g /\ is_credentialed g = true.
Proof.
  unfold has_credentialed_upstream. rewrite existsb_exists. split.
  - intros ([name g] & Hin%list_elem_of_In%elem_of_btree_iter & Hg). by exists name, g.
  - intros (name & g & Hl & Hg). exists (name, g). split; [by apply list_elem_of_In, elem_of_btree_iter|done].
Qed.
Lemma elem_of_if {A} (b : bool) (l : list A) x : x ∈ (if b then l else []) <-> b = true /\ x ∈ l.
Proof. destruct b; [tauto|]. split; [by intros ?%elem_of_nil|naive_solver]. Qed.
Lemma elem_of_unless {A} (b : bool) (l : list A) x : x ∈ (if b then [] else l) <-> b = false /\ x ∈ l.
Proof. destruct b; [|tauto]. split; [by intros ?%elem_of_nil|naive_solver]. Qed.
Lemma nonempty_elem {A} (l : list A) x : x ∈ l -> l <> [].
Proof. intros Hx ->. by apply elem_of_nil in Hx. Qed.

Lemma refusals_hold spec host module_hosts r : r ∈ refusals spec host module_hosts -> reason_holds spec host module_hosts r.
Proof.
  unfold refusals. cbn zeta. rewrite !elem_of_app. intros [H1|[H2|[H3|[H4|[H5|[H6|H7]]]]]].
  - apply elem_of_filter_map in H1 as ([name g] & Hin%elem_of_btree_iter & Hr). cbn in Hr. case_bool_decide as Hs; [|done].
    destruct (List.find _ _) as [x|] eqn:Ef; [|done]. injection Hr as <-. apply List.find_some in Ef as [Hx%list_elem_of_In Hn].
    exists g. split; [done|]. split; [done|]. split; [done|]. by apply negb_true_iff.
  - destruct (as_network spec) eqn:En; [|by apply elem_of_nil in H2..]. apply elem_of_if in H2 as [Hc ->%list_elem_of_singleton].
    split; [done|]. split; [|intros name; apply elem_of_grants_where]. apply credentialed_true in Hc as (name & g & Hg).
    eapply nonempty_elem, elem_of_grants_where. by exists g.
  - apply elem_of_unless in H3 as [Hg%bool_decide_eq_false H3]. apply elem_of_unless in H3 as [Hm%bool_decide_eq_false ->%list_elem_of_singleton].
    split; [|split; [done|]].
    + destruct (github_grants spec) as [|name gs] eqn:Eg; [done|]. exists name. apply elem_of_grants_where. unfold github_grants in Eg. rewrite Eg. by left.
    + intros h [Hn Hin]%list_elem_of_filter. done.
  - apply elem_of_if in H4 as [[Ho%bool_decide_eq_true Hp]%andb_true_iff ->%list_elem_of_singleton]. done.
  - apply elem_of_if in H5 as [[[Hr%negb_true_iff Hn]%andb_true_iff Hc]%andb_true_iff ->%list_elem_of_singleton].
    split; [done|]. split; [done|]. split; [done|]. by apply credentialed_true in Hc.
  - apply elem_of_if in H6 as [He%negb_true_iff H6]. apply list_elem_of_fmap in H6 as (name & -> & Hn). split; [done|].
    apply elem_of_grants_where in Hn as (g & Hl & [Hg Hm%bool_decide_eq_true]%andb_true_iff). by exists g.
  - apply elem_of_if in H7 as [[He%negb_true_iff Ha%negb_true_iff]%andb_true_iff H7].
    apply elem_of_filter_map in H7 as ([name g] & Hin%elem_of_btree_iter & Hr). cbn in Hr. destruct (is_narrower_than_full g) eqn:En; [|done].
    injection Hr as <-. apply andb_true_iff in En as [Hg Hn%negb_true_iff%bool_decide_eq_false]. split; [done|]. split; [done|]. split; [done|].
    exists g. split; [done|]. split; [done|]. intros x [Hx Hin2]%list_elem_of_filter. done.
Qed.

Lemma refusals_complete spec host module_hosts : reasons_complete spec host module_hosts (refusals spec host module_hosts).
Proof.
  split; unfold refusals; cbn zeta; setoid_rewrite elem_of_app; repeat setoid_rewrite elem_of_app.
  - intros name g Hg Hs x Hx Hn.
    destruct (List.find (fun s => negb (str_starts_with "github:" s)) (sg_scopes g)) as [y|] eqn:Ef.
    + exists y. left. apply elem_of_filter_map. exists (name, g). split; [by apply elem_of_btree_iter|]. cbn. by rewrite bool_decide_true, Ef.
    + exfalso. pose proof (proj1 (find_None_iff _ _) Ef x Hx) as Hc. cbn in Hc. by rewrite Hn in Hc.
  - intros Hn name g Hg Hc. rewrite Hn. exists (grants_where is_credentialed (as_secrets spec)). split; [|apply elem_of_grants_where; by exists g].
    right. left. apply elem_of_if. split; [|by left]. apply credentialed_true. by exists name, g.
  - intros name g Hg Hc h Hh Hout. exists (missing_hosts (as_egress spec) module_hosts).
    assert (h ∈ missing_hosts (as_egress spec) module_hosts) as Hin by (by apply list_elem_of_filter). split; [|done].
    right. right. left. apply elem_of_unless. split; [apply bool_decide_eq_false; eapply nonempty_elem, elem_of_grants_where; by exists g|].
    apply elem_of_unless. split; [apply bool_decide_eq_false; by eapply nonempty_elem|by left].
  - intros Ho Hp. do 3 right. left. apply elem_of_if. rewrite bool_decide_true, Hp by done. split; [done|by left].
  - intros Hr Hn name g Hg Hc. do 4 right. left. apply elem_of_if. rewrite Hr, Hn, (proj2 (credentialed_true spec)) by (by exists name, g). split; [done|by left].
  - intros He name g Hg Hgh Hm. do 5 right. left. apply elem_of_if. rewrite He. split; [done|]. apply list_elem_of_fmap. exists name. split; [done|].
    apply elem_of_grants_where. exists g. split; [done|]. by rewrite Hgh, bool_decide_true.
  - intros He Ha name g Hg Hgh x Hx Hn. exists (narrow_scopes g). assert (x ∈ narrow_scopes g) as Hin by (by apply list_elem_of_filter). split; [|done].
    do 6 right. apply elem_of_if. rewrite He, Ha. split; [done|]. apply elem_of_filter_map. exists (name, g). split; [by apply elem_of_btree_iter|]. cbn.
    unfold is_narrower_than_full. rewrite Hgh, bool_decide_false by (by eapply nonempty_elem). done.
Qed.

(** C39: activation accepts a box spec exactly when every check holds of it: its
    broker grants ask only for GitHub scopes, a box with no network or behind
    no resolver it needs has no credentialed grant, its egress allows every
    host of the GitHub module when it has a GitHub grant, and an un-enrolled
    host gives no installation grant and no grant that asks for less than it
    would get, unless that is acknowledged.  An accepted box gets the proxy's
    root exactly when it has a credentialed grant and is steered.  A refused
    one gets every reason: each reason given holds of it, and each check it
    fails is among them, naming the grant, host or scope it fails for. *)
Theorem activation_exact spec host module_hosts :
  match check_activation spec host module_hosts with
  | Ok plan => activation_ok spec host module_hosts /\ ap_steering plan = resolved_steering (as_bep spec) /\
      (ap_inject_ca plan = true <->
         (exists name g, as_secrets spec !! name = Some g /\ is_credentialed g = true) /\ ap_steering plan <> StOff)
  | Err rs => ~ activation_ok spec host module_hosts /\ rs <> [] /\
      Forall (reason_holds spec host module_hosts) rs /\ reasons_complete spec host module_hosts rs
  end.
Proof.
  unfold check_activation. pose proof (refusals_nil spec host module_hosts) as Hnil. pose proof (refusals_hold spec host module_hosts) as Hhold.
  pose proof (refusals_complete spec host module_hosts) as Hall. destruct (refusals spec host module_hosts) as [|r rs].
  - split; [by apply Hnil|]. cbn. split; [done|]. by rewrite andb_true_iff, negb_true_iff, bool_decide_eq_false, credentialed_true.
  - split; [by intros Hok%Hnil|]. split; [done|]. split; [by apply list.Forall_forall|done].
Qed.

(** ** What a store reference needs *)

Lemma missing_keeps (allowed hosts acc : list string) : acc <> [] ->
  foldl (fun missing host => if bool_decide (host ∈ allowed) || bool_decide (host ∈ missing) then missing else missing ++ [host]) acc hosts <> [].
Proof.
  revert acc. induction hosts as [|h hosts IH]; intros acc Hacc; [done|]. cbn [foldl]. apply IH. destruct (_ || _); [done|]. by destruct acc.
Qed.
Lemma missing_upstreams_nil allowed rule : missing_upstreams allowed rule = [] <-> forall u, u ∈ src_upstream rule -> authority_host u ∈ allowed.
Proof.
  unfold missing_upstreams, upstream_hosts. induction (src_upstream rule) as [|u us IH]; cbn [map foldl]; [set_solver|].
  case_bool_decide as Hu; cbn [orb].
  - rewrite IH. split; [intros Hf v [->|Hv]%elem_of_cons; auto|intros Hf v Hv; apply Hf; by right].
  - rewrite bool_decide_false by (by intros ?%elem_of_nil). cbn [app]. split; [by intros ?%missing_keeps|]. intros Hf. destruct Hu. apply Hf. by left.
Qed.

(** The box's store references pass exactly when none names a sign-in item
    and its egress allows every host that the rule for a reference sends to;
    the host is then also the one that the proxy connects to for it. *)
Theorem store_references_exact secrets egress rules deny :
  check_store_references secrets egress rules deny = Ok () <->
  forall name g store id, secrets !! name = Some g -> sg_source g = GsStore store id ->
    is_sign_in_item deny id = false /\
    forall rule, rules !! id = Some rule -> default NATIVE_STORE (src_store rule) = store ->
      forall u, u ∈ src_upstream rule -> authority_host u ∈ allowed_hosts egress /\
        forall a, is_plain_authority u = true -> parse_authority u = Some a -> normalize_host (au_host a) ∈ allowed_hosts egress.
Proof.
  unfold check_store_references. assert (store_refusals secrets egress rules deny = [] <->
    forall name g store id, secrets !! name = Some g -> sg_source g = GsStore store id ->
      is_sign_in_item deny id = false /\ forall rule, rules !! id = Some rule -> default NATIVE_STORE (src_store rule) = store ->
        forall u, u ∈ src_upstream rule -> authority_host u ∈ allowed_hosts egress) as Hnil.
  { unfold store_refusals. rewrite filter_map_nil. split.
    - intros Hf name g store id Hg Hs. specialize (Hf {| sf_grant := name; sf_store := store; sf_id := id |}). unfold reference_refusal in Hf. cbn [sf_id sf_grant] in Hf.
      destruct (is_sign_in_item deny id); [discriminate Hf; apply elem_of_filter_map; exists (name, g); cbn; rewrite Hs; by rewrite elem_of_btree_iter|].
      split; [done|]. intros rule Hr Hst. apply missing_upstreams_nil. unfold reference_rule in Hf. cbn [sf_id sf_store] in Hf. rewrite Hr in Hf. cbn [keep_if] in Hf.
      rewrite bool_decide_true in Hf by done. cbn [mbind option_bind] in Hf. case_bool_decide as Hm; [done|].
      discriminate Hf. apply elem_of_filter_map. exists (name, g). cbn. rewrite Hs. by rewrite elem_of_btree_iter.
    - intros Hf r (e & He & Hr)%elem_of_filter_map. destruct e as [name g]. apply elem_of_btree_iter in He. cbn in Hr. destruct (sg_source g) as [| |store id] eqn:Es; [done|done|].
      injection Hr as <-. destruct (Hf name g store id He Es) as [Hi Hall]. unfold reference_refusal, reference_rule. cbn [sf_id sf_store sf_grant]. rewrite Hi.
      destruct (rules !! id) as [rule|]; [|done]. cbn [keep_if]. case_bool_decide as Hst; [|done]. cbn [mbind option_bind].
      rewrite bool_decide_true; [done|]. apply missing_upstreams_nil. by apply Hall. }
  destruct (store_refusals _ _ _ _) as [|r rs].
  - split; [|done]. intros _ name g store id Hg Hs. destruct (proj1 Hnil eq_refl name g store id Hg Hs) as [Hi Hall]. split; [done|].
    intros rule Hr Hst u Hu. pose proof (Hall rule Hr Hst u Hu) as Hin. split; [done|]. intros a Hp Ha. by rewrite (plain_authority_host u a).
  - split; [done|]. intros Hf. assert (r :: rs = []) as [=]. apply Hnil. intros name g store id Hg Hs. destruct (Hf name g store id Hg Hs) as [Hi Hall].
    split; [done|]. intros rule Hr Hst u Hu. by apply (Hall rule).
Qed.
