(* ===== verification/Version.v ===== *)
(** * The release version (crates/version/src/scheme.rs)

    What the binaries report as their version, from the release override, the
    declared version and what git says; and that a development build sorts
    where the documentation puts it under SemVer 2.0, which is the reference
    order here. *)

From stdpp Require Import base list strings numbers pretty.
From Stdlib Require Import ZArith Lia Ascii.
From S2P Require Import Prelude Text Bytes Envelope Handle SignIn StoreRules.
Open Scope Z_scope.

(** ** The derivation *)

Record VersionInputs : Type := {
  vi_release_version : option string;
  vi_cargo_version : string;
  vi_describe : option string;
  vi_short_hash : option string;
  vi_dirty : option bool;
}.
Record DerivedVersion : Type := { dv_version : string; dv_long_version : string }.

(** [with_dirty] and [semver_core]. *)
Definition with_dirty (v : string) (dirty : bool) : string := if dirty then (v ++ "+dirty")%string else v.
Definition before (c : ascii) (s : string) : string := match split_once c s with Some (a, _) => a | None => s end.
Definition semver_core (v : string) : string := before "-"%char (before "+"%char v).

(** [to_semver]. *)
Definition is_hash (hash : string) : bool :=
  match strip_prefix "g" hash with
  | Some h => negb (bool_decide (h = EmptyString)) && str_all is_ascii_hexdigit h
  | None => false
  end.
Definition to_semver (describe declared : string) (dirty : bool) : string :=
  let core := default describe (strip_prefix "v" describe) in
  let out :=
    match (r ← rsplit_once "-"%char core; bc ← rsplit_once "-"%char r.1; Some (r.2, bc.2, bc.1)) with
    | Some (hash, count, base) =>
        if str_all is_ascii_digit count && is_hash hash then
          if str_contains "-"%char declared then (declared ++ ".dev." ++ count ++ "." ++ hash)%string
          else if str_contains "-"%char base && bool_decide (semver_core base = declared) then (base ++ ".dev." ++ count ++ "." ++ hash)%string
          else (declared ++ "-dev." ++ count ++ "." ++ hash)%string
        else core
    | None => core
    end in
  with_dirty out dirty.

(** [derive]; the message of the mismatch is the two versions it names. *)
Definition derive (i : VersionInputs) : result (string * string) DerivedVersion :=
  let dirty := bool_decide (vi_dirty i = Some true) in
  match vi_release_version i with
  | Some release =>
      if negb (bool_decide (release = vi_cargo_version i)) then Err (release, vi_cargo_version i)
      else let version := with_dirty release dirty in Ok {| dv_version := version; dv_long_version := version |}
  | None =>
      match vi_describe i with
      | Some describe => let version := to_semver describe (vi_cargo_version i) dirty in Ok {| dv_version := version; dv_long_version := version |}
      | None =>
          Ok {| dv_version := vi_cargo_version i;
                dv_long_version := match vi_short_hash i, vi_dirty i with
                                   | Some hash, Some d => (vi_cargo_version i ++ " (" ++ (if d then "dirty " else "") ++ hash ++ ")")%string
                                   | _, _ => vi_cargo_version i
                                   end |}
      end
  end.

(** ** SemVer precedence *)

Fixpoint digits_from (acc : Z) (s : string) : option Z :=
  match s with
  | EmptyString => Some acc
  | String c s => d ← to_digit c; digits_from (acc * 10 + d) s
  end.
Definition number (s : string) : option Z := if bool_decide (s = EmptyString) then None else digits_from 0 s.
Inductive Ident : Type := INum (n : Z) | IText (s : string).
#[global] Instance Ident_eq_dec : EqDecision Ident.
Proof. solve_decision. Defined.
Definition ident (s : string) : Ident := match number s with Some n => INum n | None => IText s end.
Record SemVer : Type := { sv_core : list Z; sv_pre : list Ident }.
Definition parse_semver (s : string) : option SemVer :=
  let s := before "+"%char s in
  let '(core, pre) := match split_once "-"%char s with Some (c, p) => (c, map ident (str_split "."%char p)) | None => (s, []) end in
  nums ← mapM number (str_split "."%char core);
  Some {| sv_core := nums; sv_pre := pre |}.

(** Lexicographic order, a proper prefix first. *)
Fixpoint lex {A} `{EqDecision A} (lt : A -> A -> bool) (a b : list A) : bool :=
  match a, b with
  | _, [] => false
  | [], _ :: _ => true
  | x :: a, y :: b => lt x y || (bool_decide (x = y) && lex lt a b)
  end.
Definition ident_lt (a b : Ident) : bool :=
  match a, b with
  | INum x, INum y => x <? y
  | INum _, IText _ => true
  | IText _, INum _ => false
  | IText s, IText t => String.ltb s t
  end.
Definition pre_lt (p q : list Ident) : bool := match p, q with [], _ => false | _ :: _, [] => true | _, _ => lex ident_lt p q end.
Definition sem_lt (a b : SemVer) : bool :=
  lex Z.ltb (sv_core a) (sv_core b) || (bool_decide (sv_core a = sv_core b) && pre_lt (sv_pre a) (sv_pre b)).

(** ** Reading what is written *)

Lemma all_no (c : ascii) (p : ascii -> bool) s : p c = false -> str_all p s = true -> str_contains c s = false.
Proof.
  intros Hc. induction s as [|d s IH]; [done|]. cbn. intros [Hd Hs]%andb_prop. rewrite (IH Hs), orb_false_r. apply bool_decide_eq_false_2. congruence.
Qed.
Lemma pretty_go_digits x : forall s, str_all is_ascii_digit s = true -> str_all is_ascii_digit (pretty_N_go x s) = true.
Proof.
  induction (N.lt_wf_0 x) as [x _ IH]. intros s Hs. destruct (decide (x = 0%N)) as [->|Hx]; [done|].
  rewrite pretty_N_go_step by lia. apply IH; [apply N.div_lt; lia|]. cbn [str_all]. rewrite Hs, andb_true_r.
  unfold is_ascii_digit. rewrite pretty_digit by (apply N.mod_lt; lia). done.
Qed.
Lemma pretty_digits n : 0 <= n -> str_all is_ascii_digit (pretty n) = true /\ pretty n <> EmptyString.
Proof.
  intros Hn. rewrite pretty_Z_nonneg by done. unfold pretty, pretty_N. case_decide; [done|]. split; [by apply pretty_go_digits|].
  destruct (pretty_go_shape (Z.to_N n) EmptyString) as (c & r & E & _); [lia|]. by rewrite E.
Qed.
Lemma digits_of_parse max acc s v : parse_digits max acc s = Some v -> digits_from acc s = Some v.
Proof.
  revert acc. induction s as [|c s IH]; intros acc; cbn; [done|]. destruct (to_digit c) as [d|]; [|done]. cbn. destruct (_ <=? max); [|done]. apply IH.
Qed.
Lemma number_pretty n : 0 <= n -> number (pretty n) = Some n.
Proof.
  intros Hn. unfold number. destruct (pretty_digits n Hn) as [_ Hne]. rewrite bool_decide_false by done.
  rewrite pretty_Z_nonneg by done. unfold pretty, pretty_N. case_decide; [replace n with 0 by lia; done|].
  apply (digits_of_parse n). rewrite parse_digits_pretty by lia. cbn. f_equal. lia.
Qed.

Definition show_core (a b c : Z) : string := (pretty a ++ "." ++ pretty b ++ "." ++ pretty c)%string.
Lemma show_core_no x a b c : 0 <= a -> 0 <= b -> 0 <= c -> is_ascii_digit x = false -> x <> "."%char -> str_contains x (show_core a b c) = false.
Proof.
  intros Ha Hb Hc Hx Hdot. unfold show_core. rewrite !str_contains_app.
  rewrite (all_no x is_ascii_digit (pretty a)), (all_no x is_ascii_digit (pretty b)), (all_no x is_ascii_digit (pretty c)) by (done || by apply pretty_digits).
  cbn. rewrite bool_decide_false by congruence. done.
Qed.
Lemma split_core a b c : 0 <= a -> 0 <= b -> 0 <= c -> mapM number (str_split "."%char (show_core a b c)) = Some [a; b; c].
Proof.
  intros Ha Hb Hc. unfold show_core. cbn [String.append].
  rewrite str_split_app_sep, (str_split_single _ (pretty a)) by (apply (all_no _ is_ascii_digit); [done|by apply pretty_digits]).
  rewrite str_split_app_sep, (str_split_single _ (pretty b)) by (apply (all_no _ is_ascii_digit); [done|by apply pretty_digits]).
  rewrite (str_split_single _ (pretty c)) by (apply (all_no _ is_ascii_digit); [done|by apply pretty_digits]).
  cbn [app mapM]. by rewrite !number_pretty.
Qed.
Lemma before_none c s : str_contains c s = false -> before c s = s.
Proof. intros Hs. unfold before. by rewrite (proj2 (split_once_None _ _) Hs). Qed.

(** A version with or without a pre-release, and with or without the marker. *)
Lemma parse_release a b c : 0 <= a -> 0 <= b -> 0 <= c -> parse_semver (show_core a b c) = Some {| sv_core := [a; b; c]; sv_pre := [] |}.
Proof.
  intros Ha Hb Hc. unfold parse_semver. rewrite before_none by (by apply show_core_no). cbn zeta.
  rewrite (proj2 (split_once_None _ _)) by (by apply show_core_no). by rewrite split_core.
Qed.
Lemma parse_pre a b c p : 0 <= a -> 0 <= b -> 0 <= c -> str_contains "+"%char p = false ->
  parse_semver (show_core a b c ++ "-" ++ p) = Some {| sv_core := [a; b; c]; sv_pre := map ident (str_split "."%char p) |}.
Proof.
  intros Ha Hb Hc Hp. unfold parse_semver. rewrite before_none.
  2:{ rewrite !str_contains_app, Hp, show_core_no by done. done. }
  cbn zeta. change ("-" ++ p)%string with (String "-"%char p). rewrite split_once_app by (by apply show_core_no). by rewrite split_core.
Qed.
Lemma parse_dirty v d : str_contains "+"%char v = false -> parse_semver (with_dirty v d) = parse_semver v.
Proof.
  intros Hv. destruct d; [|done]. assert (before "+"%char (v ++ "+dirty") = v) as E.
  { unfold before. change "+dirty"%string with (String "+"%char "dirty"). by rewrite split_once_app. }
  unfold parse_semver, with_dirty. by rewrite E, (before_none _ v).
Qed.

(** ** A development build *)

Definition dev_part (n : Z) (h : string) : string := ("dev." ++ pretty n ++ "." ++ "g" ++ h)%string.
Definition dev_idents (n : Z) (h : string) : list Ident := [IText "dev"; INum n; IText ("g" ++ h)].
Record commit_ok (n : Z) (h : string) : Prop := { co_count : 0 <= n; co_hash : h <> EmptyString /\ str_all is_ascii_hexdigit h = true }.

Lemma hex_no (x : ascii) h : str_all is_ascii_hexdigit h = true -> is_ascii_hexdigit x = false -> str_contains x h = false.
Proof. intros Hh Hx. by apply (all_no x is_ascii_hexdigit). Qed.
Lemma dev_part_idents n h : commit_ok n h -> map ident (str_split "."%char (dev_part n h)) = dev_idents n h /\ str_contains "+"%char (dev_part n h) = false.
Proof.
  intros [Hn [Hne Hh]]. destruct (pretty_digits n Hn) as [Hd _]. unfold dev_part. split.
  - change ("dev." ++ ?x)%string with ("dev" ++ String "."%char x)%string. change ("." ++ ?x)%string with (String "."%char x).
    rewrite str_split_app_sep, (str_split_single _ "dev") by done. rewrite str_split_app_sep, (str_split_single _ (pretty n)) by (by apply (all_no _ is_ascii_digit)).
    rewrite (str_split_single _ ("g" ++ h)) by (rewrite str_contains_app; by rewrite (hex_no _ h)). cbn [app map].
    unfold ident at 2. rewrite number_pretty by done. done.
  - rewrite !str_contains_app, (all_no "+"%char is_ascii_digit (pretty n)), (hex_no _ h) by done. done.
Qed.

(** The build [n] commits past [base]. *)
Definition describe_of (base : string) (n : Z) (h : string) : string := ("v" ++ base ++ "-" ++ pretty n ++ "-" ++ "g" ++ h)%string.
Lemma to_semver_dev base declared n h d : commit_ok n h ->
  to_semver (describe_of base n h) declared d =
    with_dirty (if str_contains "-"%char declared then declared ++ "." ++ dev_part n h
                else if str_contains "-"%char base && bool_decide (semver_core base = declared) then base ++ "." ++ dev_part n h
                else declared ++ "-" ++ dev_part n h)%string d.
Proof.
  intros [Hn [Hne Hh]]. destruct (pretty_digits n Hn) as [Hd _]. unfold to_semver, describe_of. rewrite strip_prefix_app. cbn [default].
  replace (id (base ++ "-" ++ pretty n ++ "-" ++ "g" ++ h)%string) with ((base ++ "-" ++ pretty n) ++ String "-"%char ("g" ++ h))%string
    by (unfold id; by rewrite !string_app_assoc).
  rewrite rsplit_once_app by (rewrite str_contains_app; by rewrite (hex_no _ h)). cbn [mbind option_bind fst snd].
  change (base ++ "-" ++ pretty n)%string with (base ++ String "-"%char (pretty n))%string.
  rewrite rsplit_once_app by (by apply (all_no _ is_ascii_digit)). cbn [mbind option_bind fst snd].
  rewrite Hd. unfold is_hash. rewrite (strip_prefix_app "g" h), bool_decide_false, Hh by done. cbn [negb andb]. done.
Qed.

Lemma lex_app {A} `{EqDecision A} (lt : A -> A -> bool) l a b : lex lt a b = true -> lex lt (l ++ a) (l ++ b) = true.
Proof. intros Hab. induction l as [|x l IH]; [done|]. cbn. by rewrite IH, bool_decide_true, orb_true_r. Qed.
Lemma lex_prefix {A} `{EqDecision A} (lt : A -> A -> bool) l x r : lex lt l (l ++ x :: r) = true.
Proof. induction l as [|y l IH]; [done|]. cbn. by rewrite IH, bool_decide_true, orb_true_r. Qed.
Lemma lex_irrefl l : lex Z.ltb l l = false.
Proof. induction l as [|x l IH]; [done|]. cbn. by rewrite Z.ltb_irrefl, IH, andb_false_r. Qed.
Lemma show_core_inj a b c a' b' c' : 0 <= a -> 0 <= b -> 0 <= c -> 0 <= a' -> 0 <= b' -> 0 <= c' ->
  show_core a b c = show_core a' b' c' -> [a; b; c] = [a'; b'; c'].
Proof. intros ? ? ? ? ? ? E. apply (f_equal parse_semver) in E. rewrite !parse_release in E by done. congruence. Qed.

(** A release or a pre-release tag, and how SemVer reads it. *)
Definition tag_text (a b c : Z) (tp : option string) : string := (show_core a b c ++ match tp with Some p => "-" ++ p | None => "" end)%string.
Definition tag_semver (a b c : Z) (tp : option string) : SemVer :=
  {| sv_core := [a; b; c]; sv_pre := match tp with Some p => map ident (str_split "."%char p) | None => [] end |}.
Definition no_build (tp : option string) : Prop := match tp with Some p => str_contains "+"%char p = false | None => True end.

Section build.
Variables (a b c : Z) (tp : option string) (a' b' c' : Z).
Hypothesis (Ha : 0 <= a) (Hb : 0 <= b) (Hc : 0 <= c) (Htp : no_build tp) (Ha' : 0 <= a') (Hb' : 0 <= b') (Hc' : 0 <= c').
(** The declared release is ahead of the tag, or is the one the tag is a
    pre-release of. *)
Hypothesis Hahead : lex Z.ltb [a; b; c] [a'; b'; c'] = true \/ ([a; b; c] = [a'; b'; c'] /\ tp <> None).

Lemma dev_parse n h d : commit_ok n h ->
  parse_semver (to_semver (describe_of (tag_text a b c tp) n h) (show_core a' b' c') d) =
    Some {| sv_core := [a'; b'; c'];
            sv_pre := (if bool_decide ([a; b; c] = [a'; b'; c']) then sv_pre (tag_semver a b c tp) else []) ++ dev_idents n h |}.
Proof.
  intros Hco. destruct (dev_part_idents n h Hco) as [Hids Hplus]. rewrite to_semver_dev by done.
  rewrite (show_core_no "-"%char a' b' c') by done.
  assert (before "+"%char (tag_text a b c tp) = tag_text a b c tp) as Hbefore.
  { apply before_none. unfold tag_text. rewrite str_contains_app, show_core_no by done. cbn [orb]. by destruct tp. }
  assert (before "-"%char (tag_text a b c tp) = show_core a b c) as Hcore.
  { unfold tag_text. destruct tp as [p|]; [unfold before; change ("-" ++ p)%string with (String "-"%char p); by rewrite split_once_app by (by apply show_core_no)|].
    rewrite string_app_nil. apply before_none. by apply show_core_no. }
  unfold semver_core. rewrite Hbefore, Hcore. case_bool_decide as E.
  - assert ([a; b; c] = [a'; b'; c']) as Eq by (by apply show_core_inj). destruct Hahead as [Hlt|[_ Hne]]; [rewrite Eq, lex_irrefl in Hlt; done|].
    destruct tp as [p|]; [|done]. rewrite bool_decide_true by done. cbn in Htp. unfold tag_text. rewrite !str_contains_app. cbn [str_contains orb].
    rewrite bool_decide_true, orb_true_r by done. cbn [andb]. rewrite parse_dirty.
    2:{ rewrite !str_contains_app, Hplus, Htp, show_core_no by done. done. }
    rewrite !string_app_assoc. rewrite parse_pre; [|done|done|done|rewrite !str_contains_app, Hplus, Htp; done].
    change (p ++ "." ++ dev_part n h)%string with (p ++ String "."%char (dev_part n h))%string.
    rewrite str_split_app_sep, map_app, Hids. cbn [tag_semver sv_pre]. by rewrite Eq.
  - rewrite andb_false_r. rewrite parse_dirty; [|rewrite !str_contains_app, Hplus, show_core_no by done; done]. rewrite parse_pre by done.
    rewrite Hids, bool_decide_false; [done|]. intros Eq. apply E. by injection Eq as -> -> ->.
Qed.
End build.

(** A development build sorts where it belongs.  For a declared release that
    is ahead of the last tag, or that the tag is a pre-release of, the
    version a build reports is above the tag and below the release, and more
    commits past the tag give a higher one, dirty or not. *)
Theorem dev_build_sorts a b c tp a' b' c' :
  0 <= a -> 0 <= b -> 0 <= c -> no_build tp -> 0 <= a' -> 0 <= b' -> 0 <= c' ->
  lex Z.ltb [a; b; c] [a'; b'; c'] = true \/ ([a; b; c] = [a'; b'; c'] /\ tp <> None) ->
  forall n h d, commit_ok n h -> exists v sv,
    derive {| vi_release_version := None; vi_cargo_version := show_core a' b' c'; vi_describe := Some (describe_of (tag_text a b c tp) n h);
              vi_short_hash := Some h; vi_dirty := Some d |} = Ok {| dv_version := v; dv_long_version := v |} /\
    parse_semver v = Some sv /\ sem_lt (tag_semver a b c tp) sv = true /\ sem_lt sv (tag_semver a' b' c' None) = true /\
    forall n2 h2 d2, commit_ok n2 h2 -> n < n2 ->
      exists sv2, parse_semver (to_semver (describe_of (tag_text a b c tp) n2 h2) (show_core a' b' c') d2) = Some sv2 /\ sem_lt sv sv2 = true.
Proof.
  intros Ha Hb Hc Htp Ha' Hb' Hc' Hahead n h d Hco.
  eexists _, _. split; [reflexivity|]. split; [by apply dev_parse|]. unfold sem_lt. cbn [sv_core sv_pre tag_semver]. split; [|split].
  - destruct Hahead as [Hlt|[Eq Hne]]; [by rewrite Hlt|]. rewrite Eq, !bool_decide_true, lex_irrefl by done. cbn [orb andb].
    destruct tp as [p|]; [|done]. unfold tag_semver. cbn [sv_pre]. destruct (map ident (str_split "." p)) as [|x l] eqn:El.
    + exfalso. pose proof (str_split_nonempty "."%char p) as Hs. by destruct (str_split "." p).
    + cbn [pre_lt app]. exact (lex_prefix ident_lt (x :: l) _ _).
  - rewrite lex_irrefl, (bool_decide_true ([a'; b'; c'] = _)) by done. cbn [orb andb]. unfold pre_lt. by destruct ((if bool_decide _ then _ else _) ++ dev_idents n h) eqn:E; [apply app_nil in E as [_ E]|].
  - intros n2 h2 d2 Hco2 Hn. eexists. split; [by apply dev_parse|]. cbn [sv_core sv_pre]. rewrite lex_irrefl, (bool_decide_true ([a'; b'; c'] = _)) by done. cbn [orb andb].
    set (l := if bool_decide _ then _ else _). assert (lex ident_lt (l ++ dev_idents n h) (l ++ dev_idents n2 h2) = true) as Hl.
    { apply lex_app. cbn. by rewrite (proj2 (Z.ltb_lt n n2) Hn). }
    unfold pre_lt. destruct (l ++ dev_idents n h) eqn:E; [apply app_nil in E as [_ E]; done|]. by destruct (l ++ dev_idents n2 h2) eqn:E2; [apply app_nil in E2 as [_ E2]|].
Qed.

(** A build toward a declared pre-release sorts above that pre-release. *)
Lemma prerelease_build_above a b c p base n h d :
  0 <= a -> 0 <= b -> 0 <= c -> str_contains "+"%char p = false -> commit_ok n h ->
  exists sv, parse_semver (to_semver (describe_of base n h) (tag_text a b c (Some p)) d) = Some sv /\ sem_lt (tag_semver a b c (Some p)) sv = true.
Proof.
  intros Ha Hb Hc Hp Hco. destruct (dev_part_idents n h Hco) as [Hids Hplus]. rewrite to_semver_dev by done.
  unfold tag_text. rewrite !str_contains_app. cbn [str_contains orb]. rewrite bool_decide_true, orb_true_r by done.
  rewrite parse_dirty; [|rewrite !str_contains_app, Hplus, Hp, show_core_no by done; done]. rewrite !string_app_assoc.
  rewrite parse_pre; [|done|done|done|rewrite !str_contains_app, Hplus, Hp; done].
  change (p ++ "." ++ dev_part n h)%string with (p ++ String "."%char (dev_part n h))%string. rewrite str_split_app_sep, map_app, Hids.
  eexists. split; [reflexivity|]. unfold sem_lt. cbn [sv_core sv_pre tag_semver]. rewrite lex_irrefl, bool_decide_true by done. cbn [orb andb].
  destruct (map ident (str_split "." p)) as [|x l] eqn:El.
  - exfalso. pose proof (str_split_nonempty "."%char p) as Hs. by destruct (str_split "." p).
  - cbn [pre_lt app]. exact (lex_prefix ident_lt (x :: l) _ _).
Qed.

Definition sample_dev : VersionInputs :=
  {| vi_release_version := None; vi_cargo_version := show_core 0 6 0; vi_describe := Some (describe_of (tag_text 0 6 0 (Some "rc1"%string)) 5 "86ce5c3a");
     vi_short_hash := Some "86ce5c3a"%string; vi_dirty := Some true |}.
Example sample_dev_version : derive sample_dev = Ok {| dv_version := "0.6.0-rc1.dev.5.g86ce5c3a+dirty"; dv_long_version := "0.6.0-rc1.dev.5.g86ce5c3a+dirty" |}.
Proof. vm_compute. reflexivity. Qed.
Lemma sample_commit : commit_ok 5 "86ce5c3a".
Proof. constructor; [done|]. split; [done|reflexivity]. Qed.
Lemma dev_build_sorts_witness : exists v sv, derive sample_dev = Ok {| dv_version := v; dv_long_version := v |} /\ parse_semver v = Some sv /\
  sem_lt (tag_semver 0 6 0 (Some "rc1"%string)) sv = true /\ sem_lt sv (tag_semver 0 6 0 None) = true.
Proof.
  pose proof (dev_build_sorts 0 6 0 (Some "rc1"%string) 0 6 0 (Z.le_refl 0) (Pos2Z.is_nonneg 6) (Z.le_refl 0) eq_refl (Z.le_refl 0) (Pos2Z.is_nonneg 6) (Z.le_refl 0)) as H.
  assert ([0; 6; 0] = [0; 6; 0] /\ Some "rc1"%string <> None) as Hahead by (split; [reflexivity|discriminate]).
  destruct (H (or_intror Hahead) 5 "86ce5c3a"%string true sample_commit) as (v & sv & Hd & Hp & Hl & Hu & _).
  exists v, sv. split; [exact Hd|]. split; [exact Hp|]. split; [exact Hl|exact Hu].
Defined.
